(* ===== verification/_CoqProject ===== *)
-Q . S2P
Prelude.v
Ctype.v
Bitops.v
KString.v
Vsprintf.v
KFifo.v
Rwsem.v
Resource.v
Bitmap.v
Cred.v
Groups.v
DPath.v
MotSec.v
FileLocks.v
RecordLocks.v
LockWaits.v
Timers.v
RadixTree.v
Idr.v
IpcUtil.v
Sem.v
SemSafe.v
Msg.v
MsgSafe.v
Buddy.v
RbTree.v
Sched.v
SchedInv.v
SchedFair.v
Pipe.v
