(* ===== verification/Prelude.v ===== *)
(** * Verification of the core of the magx Linux kernel

    The program is the Linux 2.6.10 kernel of Motorola's magx phones, under
    [src/linux-2.6.x]: a MontaVista kernel for 32-bit ARM with Motorola's security
    module. This library models the parts that carry the kernel's own logic apart
    from hardware (libraries, identity and security, locks, timers, scheduling, IPC, pages) and
    proves what makes each of them correct.

    ** Conventions

    The target is 32-bit ARM: [int], [long] and pointers have 32 bits, [char] is
    unsigned, [loff_t] has 64 bits. Machine integers are [Z]s in their range and every
    wrap-around is written out ([u8], [u32], [u64], [s32], [loff]). Strings, buffers
    and bitmaps lie in a flat memory where pointers are indices; an access outside it
    is [None], as is a failed [BUG_ON]. Error codes are the negative numbers of the C
    code. Code that runs under a lock is one atomic function on the state it protects;
    what happens between such functions is a step relation. Answers of the allocators
    and of user memory are arguments. Kernel options: CONFIG_SECURITY with the
    Motorola module and its features (secure clock, DRM, secure mounts); one
    processor; no high resolution timers.

    ** Files

    - [Prelude] (this file): words, the byte memory, error codes, shared lemmas,
      tactics and hints.
    - [Ctype]: lib/ctype.c, include/linux/ctype.h. [Bitops]: the searches and counts of
      include/linux/bitops.h.
    - [KString]: lib/string.c over the byte memory. Overlap ([memmove_spec]), bounds
      ([strlcpy_spec]), splitting ([strsep_tokens]), searching and comparing. The class
      [Memcpy] is what other components use of it.
    - [Vsprintf]: lib/vsprintf.c. [vsnprintf] writes exactly the text of the call cut
      to the buffer ([vsnprintf_spec]); the [simple_strto*] functions read back the
      numbers it prints ([print_parse_roundtrip]).
    - [KFifo]: kernel/kfifo.c. Every sequence of calls behaves as a bounded queue of
      bytes, with free-running indices that wrap around ([kfifo_refines_queue]).
    - [Bitmap]: lib/bitmap.c and lib/find_next_bit.c.
    - [Rwsem]: lib/rwsem-spinlock.c and the threads that use it, as a transition
      system: exclusion, order, no lost wake-up, and that the system drains.
    - [Resource]: kernel/resource.c, trees of address ranges: each operation either
      does exactly what it is asked for, keeping the tree well formed, or nothing.
    - [Cred]: the credential calls of kernel/sys.c, kernel/user.c, kernel/capability.c
      and the capability hooks of security/commoncap.c: which identities and
      capabilities a process can reach by any sequence of calls, and the accounting of
      users. [Groups]: the supplementary groups of kernel/sys.c.
    - [DPath]: [__d_path] of fs/dcache.c, which the security module uses.
    - [MotSec]: security/motsecurity.c and motsecurity_sysfs.c with the exec path of
      fs/exec.c: secure clock, DRM domains, protected files, allowed mounts. What an
      [execve] gives and takes away, on every way out ([execve_privileges]).
    - [FileLocks]: fs/locks.c, data, operations and system calls; record locks of
      different owners never conflict ([record_locks_exclusive]); requests and queries
      of [fcntl]. [RecordLocks]: what a request does to its owner's locks, byte by byte,
      on every way out ([posix_lock_spec]; not for a request to the largest offset next to
      a lock of the same type, where the code overflows). [LockWaits]: waiting and
      deadlock detection ([posix_lock_no_deadlock]).
    - [Timers]: the timing wheel of kernel/timer.c implements a set of deadlines
      ([run_timers_refines], [timer_on_time]).
    - [RadixTree]: lib/radix-tree.c. A tree behaves as a map from indices to items with
      two tags, also when allocations fail, but for that of the very first node
      ([radix_tree_refines]), insertion reports every failure and changes
      nothing then ([radix_tree_insert_total]), and the gang lookups return the first
      items in order ([gang_lookup_first]).
    - [Idr]: lib/idr.c. A tree of layers that gives out identifiers for pointers behaves as a
      map that always chooses the least free one, as long as the callers do their part
      ([idr_refines]).
    - [RbTree]: lib/rbtree.c. A root stands for a sequence of nodes; insertion and
      removal change it as they should and keep the tree red-black ([rb_insert_spec],
      [rb_erase_spec]), walking follows it ([rb_walk]), and the tree is never deep
      ([rb_depth]).
    - [IpcUtil]: ipc/util.c, the table of IPC objects, identifiers and permissions; the
      identifier of a removed object stays dead ([stale_id_refused]). Its objects are
      instances of the class [IpcObject].
    - [Sem]: ipc/sem.c. A request is performed as a whole or not at all
      ([semop_atomic]), sleeping requests are woken when they can go on
      ([update_queue_wakes]), and exit takes back what a process did and nothing that
      others did ([undo_restores]).
      [SemSafe]: all tasks together, under every interleaving ([sem_system_safe]).
    - [Msg]: ipc/msg.c and ipc/msgutil.c. Messages survive being cut into pages
      ([load_store_roundtrip]) and [msgrcv] takes the message it is asked for
      ([msgrcv_picks]). [MsgSafe]: all tasks together; no message is lost, given out
      twice or leaked and no wake-up is lost ([msg_system_safe]), and handing a message
      directly to a receiver is what queueing it would come to ([handover_as_queued]).
    - [Pipe]: fs/pipe.c. All tasks together: what is read is what was written, in order, and
      nobody waits without reason ([pipe_system_safe]); short writes of readable buffers
      are atomic ([pipe_write_atomic]); how a read ends ([pipe_read_result]).
    - [Buddy]: mm/page_alloc.c. Pages are never handed out twice and never lost
      ([buddy_refines]), free blocks are as large as they can be
      ([free_blocks_maximal]), and [__alloc_pages] gives up only when it may
      ([alloc_pages_sound]).
    - [Sched]: kernel/sched.c, run queues, priorities, slices and policies. [SchedInv]:
      whatever is called, in any order, queues, bitmaps, counters and tasks agree and
      no call fails ([sched_invariant], [sched_ranges]); which task runs next
      ([schedule_picks]); what a nice value is worth ([nice_dominates]). [SchedFair]:
      ordinary tasks that compute all get their turn in bounded time, when there are no
      real-time tasks ([sched_no_starvation]).

    The definitions keep the names of the C functions; a loop of a function is a
    [Fixpoint] of its own, named after what it does. Components meet in three ways:
    through the byte memory ([KString] under [Vsprintf] and [KFifo]), through the state
    of a process ([Cred] under [Groups] and [MotSec]) and by calls ([DPath] under
    [MotSec], [IpcUtil] under [Sem] and [Msg], by the class [IpcObject]).

    ** Fuel

    Loops that are not structural take fuel, and the theorems show that it is enough: a
    scan for a NUL cannot run past the mapped memory ([scan]); descents in a resource
    tree take its height; [posix_locks_deadlock] takes two more iterations than there
    are waiting requests, which is enough exactly when it ends at all; [run_work] takes
    the length of its list, which only gets shorter; [__run_timers] takes the number of
    ticks that have passed; the sort and search of [Groups] take the number of strides
    and the size of the range; the gang lookups of [RadixTree] take the number of
    indices from the first one to the last of all; the loops of [Pipe] take 4 rounds,
    more than a ring needs; the search of [Idr] takes 100 steps, more than a tree of
    six layers needs; [load_segs] takes the number of pages of the message; the loops of
    [RbTree] take twice the number of nodes in memory, more than the depth of a tree.

    ** Findings

    Lemmas next to the theorems show, by evaluation, where the code does not do what it
    means to: among them [strcmp_sign_high_byte], [allocate_resource_wraps],
    [groups_search_misses_member], [vsnprintf_null_writes], [cap_set_pg_leaders_only],
    [secure_clock_prefix_match], [failed_execve_keeps_effective],
    [rename_of_ancestor_allowed], [whole_file_lock_not_merged], [deadlock_missed],
    [deadlock_search_loops], [flock32_bad_range], [next_timer_interrupt_late],
    [preload_not_enough], [failed_first_insert], [lost_wakeup], [undo_wraps],
    [free_pages_bulk_zero], [recalc_wraps], [interactive_row], [mutex_setprio_max],
    [exit_cuts], [convert_mode_min], [unreadable_write_torn],
    [wrapped_search], [remove_aliases], [seven_layers].

    ** Not modelled

    Drivers, architecture code, sound, firmware and network devices: they are about
    hardware registers and protocols that the sources do not define. Process creation
    and signals, virtual memory, the block layer, the page cache, the VFS apart from
    [__d_path] and pipes, the file systems, the network stack, shared memory: each is
    larger than this library and would come next, smallest core first (the slab lists).
    Of the modelled files: load balancing, context switching, statistics and tracing of
    kernel/sched.c; leases, the retry loops around sleeping, the /proc listings and the
    NFS hooks of fs/locks.c; the time-keeping half of kernel/timer.c; the user-space
    parsing of bitmaps; [vsscanf]; poll and SIGIO of fs/pipe.c; the statistics of
    ipc/sem.c and ipc/msg.c and the allocators of ipc/util.c; page flags, reference
    counts and statistics of mm/page_alloc.c. *)

From stdpp Require Export base numbers option list.
From Stdlib Require Export ZArith Lia.

#[global] Open Scope Z_scope.

(** ** Machine words

    The target is 32-bit ARM: [unsigned int], [unsigned long] and pointers have
    32 bits, [char] is an unsigned byte. A word is a [Z] in its range, and the
    wrap-around of each operation is written out with [u32], [u64] or [u8]. *)

Definition u8 (z : Z) : Z := z mod 256.
Definition u16 (z : Z) : Z := z mod 65536.
Definition u32 (z : Z) : Z := z mod 4294967296.
Definition u64 (z : Z) : Z := z mod 18446744073709551616.

Definition is_u8 (z : Z) : Prop := 0 <= z < 256.
Definition is_u32 (z : Z) : Prop := 0 <= z < 4294967296.

(** Two's complement reading of a word of 32, 8 or 16 bits. *)
Definition s32 (z : Z) : Z :=
  if u32 z <? 2147483648 then u32 z else u32 z - 4294967296.
Definition s8 (z : Z) : Z := if u8 z <? 128 then u8 z else u8 z - 256.
Definition s16 (z : Z) : Z := if u16 z <? 32768 then u16 z else u16 z - 65536.

Lemma s32_id z : -2147483648 <= z < 2147483648 -> s32 z = z.
Proof.
  intros H. unfold s32, u32. destruct (decide (0 <= z)).
  - rewrite Z.mod_small by lia. destruct (Z.ltb_spec z 2147483648); lia.
  - replace (z mod 4294967296) with (z + 4294967296) by (apply Z.mod_unique_pos with (-1); lia).
    destruct (Z.ltb_spec (z + 4294967296) 2147483648); lia.
Qed.

Lemma s16_id z : -32768 <= z < 32768 -> s16 z = z.
Proof.
  intros H. unfold s16, u16. destruct (decide (0 <= z)).
  - rewrite Z.mod_small by lia. destruct (Z.ltb_spec z 32768); lia.
  - replace (z mod 65536) with (z + 65536) by (apply Z.mod_unique_pos with (-1); lia).
    destruct (Z.ltb_spec (z + 65536) 32768); lia.
Qed.

Declare Scope kernel_scope.
Delimit Scope kernel_scope with kernel.
Notation "a ⊕ b" := (u32 (a + b)) (at level 50, left associativity) : kernel_scope.
Notation "a ⊖ b" := (u32 (a - b)) (at level 50, left associativity) : kernel_scope.
#[global] Open Scope kernel_scope.

(** [word_lia]: linear goals over wrapped words. *)
Ltac word_lia :=
  unfold s8, s32, u8, u32, u64, is_u8, is_u32 in *;
  repeat match goal with
         | H : context [Z.ltb _ _] |- _ => revert H
         end;
  repeat match goal with
         | |- context [Z.ltb ?a ?b] => destruct (Z.ltb_spec a b)
         end; intros;
  Z.div_mod_to_equations; lia.

Lemma u32_range z : is_u32 (u32 z).
Proof. word_lia. Qed.

Lemma u8_range z : is_u8 (u8 z).
Proof. word_lia. Qed.

Lemma u32_id z : is_u32 z -> u32 z = z.
Proof. intros. apply Z.mod_small. assumption. Qed.

Lemma u8_id z : is_u8 z -> u8 z = z.
Proof. intros. apply Z.mod_small. assumption. Qed.

Lemma u32_idemp z : u32 (u32 z) = u32 z.
Proof. apply u32_id, u32_range. Qed.

Create HintDb kernel.
Create Rewrite HintDb kernel.
#[export] Hint Resolve u32_range u8_range : kernel.
#[export] Hint Rewrite u32_idemp : kernel.

(** Masking with [2^k - 1] is reduction modulo [2^k]. *)
Lemma land_pow2_mask x k : 0 <= k -> Z.land x (2 ^ k - 1) = x mod 2 ^ k.
Proof. intros. rewrite Z.sub_1_r, <- Z.ones_equiv. by apply Z.land_ones. Qed.

Lemma land_range a m k : 0 <= k -> 0 <= m < 2 ^ k -> 0 <= Z.land a m < 2 ^ k.
Proof.
  intros Hk Hm. rewrite <- (Z.mod_small m (2 ^ k)), <- Z.land_ones, Z.land_assoc, Z.land_ones by lia.
  apply Z.mod_pos_bound. lia.
Qed.

(** The modulus of a power-of-two ring divides the modulus of the word. *)
Lemma mod_u32_pow2 z k : 0 <= k <= 32 -> (u32 z) mod 2 ^ k = z mod 2 ^ k.
Proof.
  intros Hk. unfold u32. change 4294967296 with (2 ^ 32).
  replace (2 ^ 32) with (2 ^ k * 2 ^ (32 - k)) by (rewrite <- Z.pow_add_r by lia; f_equal; lia).
  rewrite Z.rem_mul_r, Z.mul_comm, Z_mod_plus_full by lia.
  apply Z.mod_mod. lia.
Qed.

(** *** Bits of a word *)

Definition not32 (w : Z) : Z := u32 (Z.lnot w).

Lemma u32_bits_above w j : is_u32 w -> 32 <= j -> Z.testbit w j = false.
Proof.
  intros [H0 H1] Hj. destruct (decide (w = 0)) as [-> |]; [apply Z.bits_0 |].
  apply Z.bits_above_log2; [lia |].
  apply Z.lt_le_trans with 32; [| done]. apply Z.log2_lt_pow2; [lia | done].
Qed.

Lemma u32_testbit z j : 0 <= j -> Z.testbit (u32 z) j = (j <? 32) && Z.testbit z j.
Proof.
  intros Hj. unfold u32. change 4294967296 with (2 ^ 32). destruct (Z.ltb_spec j 32).
  - by rewrite Z.mod_pow2_bits_low.
  - by rewrite Z.mod_pow2_bits_high by lia.
Qed.

Lemma land_u32 a b : is_u32 a -> 0 <= b -> is_u32 (Z.land a b).
Proof.
  intros Ha Hb. unfold is_u32. rewrite Z.land_comm. change 4294967296 with (2 ^ 32).
  apply land_range; [lia | exact Ha].
Qed.

Lemma lor_u32 a b : is_u32 a -> is_u32 b -> is_u32 (Z.lor a b).
Proof.
  intros [Ha Ha'] [Hb Hb']. assert (0 <= Z.lor a b) by (apply Z.lor_nonneg; lia).
  split; [done |]. destruct (decide (Z.lor a b = 0)) as [-> |]; [lia |].
  apply (Z.log2_lt_pow2 _ 32); [lia |]. rewrite Z.log2_lor by lia.
  assert (forall x, 0 <= x < 4294967296 -> Z.log2 x < 32) as Hl.
  { intros x Hx. destruct (decide (x = 0)) as [-> |]; [done |]. apply Z.log2_lt_pow2; [lia | apply Hx]. }
  apply Z.max_lub_lt; apply Hl; lia.
Qed.

Lemma lxor_u32 a b : is_u32 a -> is_u32 b -> is_u32 (Z.lxor a b).
Proof.
  intros [Ha Ha'] [Hb Hb']. assert (0 <= Z.lxor a b) by (apply Z.lxor_nonneg; lia).
  split; [done |]. destruct (decide (Z.lxor a b = 0)) as [-> |]; [lia |].
  apply (Z.log2_lt_pow2 _ 32); [lia |]. eapply Z.le_lt_trans; [apply Z.log2_lxor; lia |].
  assert (forall x, 0 <= x < 4294967296 -> Z.log2 x < 32) as Hl.
  { intros x Hx. destruct (decide (x = 0)) as [-> |]; [done |]. apply Z.log2_lt_pow2; [lia | apply Hx]. }
  apply Z.max_lub_lt; apply Hl; lia.
Qed.

Lemma shiftr_u32 w n : is_u32 w -> is_u32 (Z.shiftr w (Z.of_nat n)).
Proof.
  intros [H0 H1]. split; [by apply Z.shiftr_nonneg |]. rewrite Z.shiftr_div_pow2 by lia.
  eapply Z.le_lt_trans; [| exact H1]. apply Z.div_le_upper_bound; [lia |].
  pose proof (Z.pow_pos_nonneg 2 (Z.of_nat n) ltac:(lia) ltac:(lia)). nia.
Qed.

(** Exhaustive checks: [P] on the [n] integers from [a]. *)
Fixpoint all_from (P : Z -> bool) (n : nat) (a : Z) : bool :=
  match n with
  | O => true
  | S n => P a && all_from P n (a + 1)
  end.

Lemma all_from_spec P n a z :
  all_from P n a = true -> a <= z < a + Z.of_nat n -> P z = true.
Proof.
  revert a. induction n as [| n IH]; intros a H Hz; [lia |].
  simpl in H. apply andb_true_iff in H as [H1 H2].
  destruct (decide (z = a)) as [-> |]; [done |]. apply (IH (a + 1)); [done | lia].
Qed.

Lemma fmap_sub {A B} (f : A -> B) l1 l2 : sublist l1 l2 -> sublist (f <$> l1) (f <$> l2).
Proof. induction 1; simpl; by constructor. Qed.

Lemma filter_absent q (l : list Z) : q ∉ l -> filter (fun x => x <> q) l = l.
Proof.
  induction l as [| x l IH]; intros H; [done |]. apply not_elem_of_cons in H as [H1 H2]. rewrite filter_cons_True by congruence. by rewrite IH.
Qed.

Lemma filter_present (p : Z) (l : list Z) : NoDup l -> p ∈ l -> l ≡ₚ p :: filter (fun x => x <> p) l.
Proof.
  induction 1 as [| x l Hx N IH]; [by intros ?%elem_of_nil |]. intros [-> | H]%elem_of_cons.
  - rewrite filter_cons_False by (intros Hn; by apply Hn). by rewrite filter_absent.
  - rewrite filter_cons_True by congruence. rewrite Permutation_swap. by rewrite <- IH.
Qed.

(** ** Arrays of slots *)

Section Slots.
Context {A : Type} (null : A -> bool).

Definition weight_by (x : A) : Z := if null x then 0 else 1.

(** How many slots are in use. *)
Fixpoint filled_by (l : list A) : Z := match l with [] => 0 | x :: l => weight_by x + filled_by l end.

Lemma filled_by_nonneg l : 0 <= filled_by l.
Proof. induction l as [| x l IH]; simpl; [lia |]. unfold weight_by. case_match; lia. Qed.

Lemma filled_by_insert l i x y : l !! i = Some x -> filled_by (<[i := y]> l) = filled_by l - weight_by x + weight_by y.
Proof.
  revert i. induction l as [| z l IH]; intros [| i] H; simpl in *; [done | done | injection H as ->; lia |]. rewrite (IH i H). lia.
Qed.

Lemma filled_by_0 e l : (forall x, null x = true -> x = e) -> filled_by l = 0 -> l = replicate (length l) e.
Proof.
  intros He. induction l as [| x l IH]; simpl; [done |]. pose proof (filled_by_nonneg l). unfold weight_by. intros H0. destruct (null x) eqn:N; [| lia]. rewrite (He x N) at 1. f_equal. apply IH. lia.
Qed.

End Slots.

(** ** Bitmaps of words *)

(** Bit [i] of a bitmap. *)
Definition bitof (m : list Z) (i : Z) : bool := match m !! Z.to_nat (Z.shiftr i 5) with Some w => Z.testbit w (Z.land i 31) | None => false end.

Lemma land_one_bit w n : 0 <= n -> negb (Z.land w (Z.shiftl 1 n) =? 0) = Z.testbit w n.
Proof.
  intros Hn. rewrite Z.shiftl_1_l. assert (Z.land w (2 ^ n) = if Z.testbit w n then 2 ^ n else 0) as ->.
  { apply Z.bits_inj'. intros j Hj. rewrite Z.land_spec, Z.pow2_bits_eqb by done. destruct (Z.eqb_spec n j) as [<- | Hne].
    - destruct (Z.testbit w n); [by rewrite Z.pow2_bits_true | by rewrite Z.bits_0].
    - rewrite andb_false_r. destruct (Z.testbit w n); [by rewrite Z.pow2_bits_false | by rewrite Z.bits_0]. }
  pose proof (Z.pow_pos_nonneg 2 n ltac:(lia) Hn). destruct (Z.testbit w n); [by rewrite (proj2 (Z.eqb_neq _ _)) by lia | done].
Qed.

Lemma map_word_bit i : 0 <= i -> i = 32 * Z.shiftr i 5 + Z.land i 31 /\ 0 <= Z.shiftr i 5 /\ 0 <= Z.land i 31 < 32.
Proof.
  intros Hi. rewrite Z.shiftr_div_pow2 by lia. change 31 with (2 ^ 5 - 1). rewrite land_pow2_mask by lia. change (2 ^ 5) with 32.
  pose proof (Z.div_mod i 32 ltac:(lia)). pose proof (Z.mod_pos_bound i 32 ltac:(lia)). pose proof (Z.div_pos i 32 Hi ltac:(lia)). lia.
Qed.

(** One word of a bitmap changes. *)
Lemma bitof_insert m i j w w' : 0 <= i -> 0 <= j -> m !! Z.to_nat (Z.shiftr i 5) = Some w ->
  bitof (<[Z.to_nat (Z.shiftr i 5) := w']> m) j =
    if decide (Z.shiftr j 5 = Z.shiftr i 5) then Z.testbit w' (Z.land j 31) else bitof m j.
Proof.
  intros Hi Hj Hw. destruct (map_word_bit i Hi) as (_ & H1 & _). destruct (map_word_bit j Hj) as (_ & H2 & _). unfold bitof.
  destruct (decide (Z.shiftr j 5 = Z.shiftr i 5)) as [-> | Hne].
  - rewrite list_lookup_insert_eq; [done |]. by apply lookup_lt_Some in Hw.
  - rewrite list_lookup_insert_ne by lia. done.
Qed.

(** ** Byte-addressed memory

    A memory is the list of the bytes that are mapped, a pointer an index into
    it. An access outside the list is a fault: the operation returns [None]. *)

Abbreviation mem := (list Z).
Abbreviation ptr := nat.

Definition load (m : mem) (p : ptr) : option Z := m !! p.

Definition store (m : mem) (p : ptr) (v : Z) : option mem :=
  if decide (p < length m)%nat then Some (<[p := v]> m) else None.

(** The [n] bytes at [p], and the memory with [bs] written at [p]. *)
Definition block (m : mem) (p : ptr) (n : nat) : list Z := take n (drop p m).
Definition write (m : mem) (p : ptr) (bs : list Z) : mem := list_inserts p bs m.

Lemma store_in m p v : (p < length m)%nat -> store m p v = Some (<[p := v]> m).
Proof. intros. unfold store. by rewrite decide_True. Qed.

Lemma store_inv m p v m' :
  store m p v = Some m' -> (p < length m)%nat /\ m' = <[p := v]> m.
Proof. unfold store. case_decide; naive_solver. Qed.

Lemma length_write m p bs : length (write m p bs) = length m.
Proof. apply length_inserts. Qed.

Lemma length_block m p n : (p + n <= length m)%nat -> length (block m p n) = n.
Proof. intros. unfold block. rewrite length_take, length_drop. lia. Qed.

Lemma lookup_block m p n i : (i < n)%nat -> block m p n !! i = m !! (p + i)%nat.
Proof. intros. unfold block. by rewrite lookup_take_lt, lookup_drop. Qed.

Lemma lookup_write m p bs i :
  (p + length bs <= length m)%nat ->
  write m p bs !! i =
    if decide (p <= i < p + length bs)%nat then bs !! (i - p)%nat else m !! i.
Proof.
  intros Hlen. unfold write. case_decide as H.
  - apply list_lookup_inserts; lia.
  - destruct (decide (i < p)%nat).
    + by apply list_lookup_inserts_lt.
    + apply list_lookup_inserts_ge; lia.
Qed.

Lemma take_min_length {A} n (l : list A) : take (n `min` length l) l = take n l.
Proof. destruct (Nat.min_spec n (length l)) as [[_ ->] | [? ->]]; [done |]. by rewrite !take_ge. Qed.

Lemma drop_min_length {A} n (l : list A) : drop (n `min` length l) l = drop n l.
Proof. destruct (Nat.min_spec n (length l)) as [[_ ->] | [? ->]]; [done |]. by rewrite !drop_ge. Qed.

Lemma fmap_id_on {A} (f : A -> A) (l : list A) : (forall x, x ∈ l -> f x = x) -> f <$> l = l.
Proof.
  induction l as [| a l IH]; intros H; [done |]. simpl. rewrite H by left. f_equal.
  apply IH. intros x Hx. apply H. by right.
Qed.

(** Lists are equal when they agree at every index. *)
Ltac list_ext i := apply list_eq; intros i.

Lemma block_write_same m p bs :
  (p + length bs <= length m)%nat -> block (write m p bs) p (length bs) = bs.
Proof.
  intros Hlen. list_ext i.
  destruct (decide (i < length bs)%nat).
  - rewrite lookup_block, lookup_write by lia.
    rewrite decide_True by lia. f_equal; lia.
  - rewrite !lookup_ge_None_2; try done; [lia |].
    rewrite length_block; rewrite ?length_write; lia.
Qed.

Lemma block_write_prefix m p bs n :
  (n <= length bs)%nat -> (p + length bs <= length m)%nat ->
  block (write m p bs) p n = take n bs.
Proof.
  intros Hn Hlen. rewrite <- (block_write_same m p bs Hlen) at 2.
  unfold block. rewrite take_take. f_equal. lia.
Qed.

Lemma block_write_other m p bs q n :
  (p + length bs <= length m)%nat ->
  (q + n <= p \/ p + length bs <= q)%nat ->
  block (write m p bs) q n = block m q n.
Proof.
  intros Hlen Hdis. list_ext i. destruct (decide (i < n)%nat).
  - rewrite !lookup_block, lookup_write by lia. by rewrite decide_False by lia.
  - unfold block. by rewrite !lookup_take_ge by lia.
Qed.

Lemma write_nil m p : write m p [] = m.
Proof. done. Qed.

Lemma write_cons m p b bs : write m p (b :: bs) = <[p := b]> (write m (S p) bs).
Proof. done. Qed.

(** Writes at different addresses commute with a single store. *)
Lemma write_insert_lt m p q v bs :
  (p < q)%nat -> write (<[p := v]> m) q bs = <[p := v]> (write m q bs).
Proof.
  revert m q. induction bs as [| b bs IH]; intros m q Hpq; [done |].
  rewrite !write_cons, IH by lia. apply list_insert_insert_ne. lia.
Qed.

Lemma write_snoc m p bs b :
  write m p (bs ++ [b]) = write (<[(p + length bs)%nat := b]> m) p bs.
Proof.
  revert p. induction bs as [| c bs IH]; intros p; simpl.
  - by rewrite Nat.add_0_r.
  - rewrite !write_cons, IH. do 3 f_equal. lia.
Qed.

Lemma write_app m p a b :
  (p + length a + length b <= length m)%nat ->
  write m p (a ++ b) = write (write m p a) (p + length a)%nat b.
Proof.
  intros H. list_ext i. rewrite !lookup_write by (rewrite ?length_write, ?length_app; lia).
  rewrite length_app. repeat case_decide; try lia; try done.
  - rewrite lookup_app_r by lia. f_equal. lia.
  - by rewrite lookup_app_l by lia.
Qed.

Lemma block_insert_other m p v q n :
  (p < q \/ q + n <= p)%nat -> block (<[p := v]> m) q n = block m q n.
Proof.
  intros H. list_ext i. destruct (decide (i < n)%nat).
  - rewrite !lookup_block by lia. apply list_lookup_insert_ne. lia.
  - unfold block. by rewrite !lookup_take_ge by lia.
Qed.

Lemma block_S m p n c : m !! p = Some c -> block m p (S n) = c :: block m (S p) n.
Proof. intros H. unfold block. by rewrite (drop_S _ _ _ H). Qed.

Lemma block_S_r m p n c :
  m !! (p + n)%nat = Some c -> block m p (S n) = block m p n ++ [c].
Proof. intros H. unfold block. apply take_S_r. by rewrite lookup_drop. Qed.

(** What a caller may rely on of [memcpy], whichever implementation the
    architecture provides: regions in the memory that do not overlap are copied
    and nothing else changes. *)
Class Memcpy (cpy : mem -> ptr -> ptr -> nat -> option (mem * ptr)) : Prop :=
  memcpy_law : forall m dest src n,
    (dest + n <= length m)%nat -> (src + n <= length m)%nat ->
    (dest + n <= src \/ src + n <= dest)%nat ->
    cpy m dest src n = Some (write m dest (block m src n), dest).

(** ** Error numbers (include/asm-generic/errno-base.h, include/asm-generic/errno.h) *)

Definition EPERM := 1.
Definition ENOENT := 2.
Definition EINTR := 4.
Definition E2BIG := 7.
Definition EAGAIN := 11.
Definition ENOMEM := 12.
Definition EACCES := 13.
Definition EFAULT := 14.
Definition EBUSY := 16.
Definition EEXIST := 17.
Definition EINVAL := 22.
Definition EFBIG := 27.
Definition ENOSPC := 28.
Definition ERANGE := 34.
Definition EIDRM := 43.
