(* ===== verification/Ctype.v ===== *)
(** * Character classes: lib/ctype.c and include/linux/ctype.h

    The 256-entry table of character classes, the class tests over it and the
    two case conversions. The tests are executable, so the facts the other
    files need of them are decided by running them over all 256 bytes. *)

From S2P Require Import Prelude.

Definition _U := 0x01.
Definition _L := 0x02.
Definition _D := 0x04.
Definition _C := 0x08.
Definition _P := 0x10.
Definition _S := 0x20.
Definition _X := 0x40.
Definition _SP := 0x80.

Notation "a .| b" := (Z.lor a b) (at level 50, left associativity, only parsing).

Definition _ctype : list Z :=
  [_C;_C;_C;_C;_C;_C;_C;_C;
   _C;_C.|_S;_C.|_S;_C.|_S;_C.|_S;_C.|_S;_C;_C;
   _C;_C;_C;_C;_C;_C;_C;_C;
   _C;_C;_C;_C;_C;_C;_C;_C;
   _S.|_SP;_P;_P;_P;_P;_P;_P;_P;
   _P;_P;_P;_P;_P;_P;_P;_P;
   _D;_D;_D;_D;_D;_D;_D;_D;
   _D;_D;_P;_P;_P;_P;_P;_P;
   _P;_U.|_X;_U.|_X;_U.|_X;_U.|_X;_U.|_X;_U.|_X;_U;
   _U;_U;_U;_U;_U;_U;_U;_U;
   _U;_U;_U;_U;_U;_U;_U;_U;
   _U;_U;_U;_P;_P;_P;_P;_P;
   _P;_L.|_X;_L.|_X;_L.|_X;_L.|_X;_L.|_X;_L.|_X;_L;
   _L;_L;_L;_L;_L;_L;_L;_L;
   _L;_L;_L;_L;_L;_L;_L;_L;
   _L;_L;_L;_P;_P;_P;_P;_C;
   0;0;0;0;0;0;0;0;0;0;0;0;0;0;0;0;
   0;0;0;0;0;0;0;0;0;0;0;0;0;0;0;0;
   _S.|_SP;_P;_P;_P;_P;_P;_P;_P;_P;_P;_P;_P;_P;_P;_P;_P;
   _P;_P;_P;_P;_P;_P;_P;_P;_P;_P;_P;_P;_P;_P;_P;_P;
   _U;_U;_U;_U;_U;_U;_U;_U;_U;_U;_U;_U;_U;_U;_U;_U;
   _U;_U;_U;_U;_U;_U;_U;_P;_U;_U;_U;_U;_U;_U;_U;_L;
   _L;_L;_L;_L;_L;_L;_L;_L;_L;_L;_L;_L;_L;_L;_L;_L;
   _L;_L;_L;_L;_L;_L;_L;_P;_L;_L;_L;_L;_L;_L;_L;_L].

(** The index is an [unsigned char], so the lookup is always in the table. *)
Definition __ismask (x : Z) : Z := nth (Z.to_nat (u8 x)) _ctype 0.

Definition in_class (x mask : Z) : bool := negb (Z.land (__ismask x) mask =? 0).

Definition isalnum (c : Z) : bool := in_class c (_U .| _L .| _D).
Definition isalpha (c : Z) : bool := in_class c (_U .| _L).
Definition isdigit (c : Z) : bool := in_class c _D.
Definition islower (c : Z) : bool := in_class c _L.
Definition isspace (c : Z) : bool := in_class c _S.
Definition isupper (c : Z) : bool := in_class c _U.
Definition isxdigit (c : Z) : bool := in_class c (_D .| _X).

(** ['A'] is 65 and ['a'] 97; the result is an [unsigned char]. *)
Definition __tolower (c : Z) : Z := if isupper c then u8 (c - (65 - 97)) else c.
Definition __toupper (c : Z) : Z := if islower c then u8 (c - (97 - 65)) else c.

(** A boolean property of bytes holds of all of them when it holds of the 256
    listed ones. *)
Lemma all_bytes (P : Z -> bool) :
  forallb P (seqZ 0 256) = true -> forall c, is_u8 c -> P c = true.
Proof.
  intros H c Hc. rewrite forallb_forall in H. apply H.
  apply list_elem_of_In, elem_of_seqZ. unfold is_u8 in Hc. lia.
Qed.

(** [byte_cases]: a boolean equation about a byte, by running it on each byte. *)
Ltac byte_cases c :=
  match goal with
  | Hc : is_u8 c |- ?P =>
      let F := eval pattern c in P in
      match F with
      | (fun x => ?A = true) _ => apply (all_bytes (fun x => A)); [vm_compute; reflexivity | exact Hc]
      end
  end.

Lemma isdigit_spec c : is_u8 c -> isdigit c = (48 <=? c) && (c <=? 57).
Proof. intros Hc. apply eqb_prop. byte_cases c. Qed.

Lemma isxdigit_spec c :
  is_u8 c ->
  isxdigit c = (48 <=? c) && (c <=? 57) || (65 <=? c) && (c <=? 70) || (97 <=? c) && (c <=? 102).
Proof. intros Hc. apply eqb_prop. byte_cases c. Qed.

Lemma __tolower_idemp c : is_u8 c -> __tolower (__tolower c) = __tolower c.
Proof. intros Hc. apply Z.eqb_eq. byte_cases c. Qed.

(** Every case conversion is undone by the other one, on the letters that have
    a counterpart in the other case. *)
Lemma __toupper_tolower c :
  is_u8 c -> isupper c && islower (__tolower c) = true -> __toupper (__tolower c) = c.
Proof.
  intros Hc H. apply Z.eqb_eq.
  assert (implb (isupper c && islower (__tolower c)) (__toupper (__tolower c) =? c) = true)
    as Hi by byte_cases c.
  by rewrite H in Hi.
Qed.
