(* ===== verification/Bitops.v ===== *)
(** * Bit searches and counts: include/linux/bitops.h, include/linux/kernel.h

    [generic_ffs] works on a signed [int], whose right shift is arithmetic and
    whose [&] sees the two's complement representation, as [Z.shiftr] and
    [Z.land] do. [generic_fls] shifts left in 32 bits. *)

From S2P Require Import Prelude.

(** One halving step of [generic_ffs]: [if (!(x & mask)) { x >>= n; r += n; }]. *)
Definition ffs_step (mask n : Z) (xr : Z * Z) : Z * Z :=
  let '(x, r) := xr in
  if Z.land x mask =? 0 then (Z.shiftr x n, r + n) else (x, r).

Definition generic_ffs (x : Z) : Z :=
  let r := 1 in
  if x =? 0 then 0
  else
    let xr := ffs_step 0xffff 16 (x, r) in
    let xr := ffs_step 0xff 8 xr in
    let xr := ffs_step 0xf 4 xr in
    let xr := ffs_step 3 2 xr in
    let xr := ffs_step 1 1 xr in
    xr.2.

(** One halving step of [generic_fls]: [if (!(x & mask)) { x <<= n; r -= n; }]. *)
Definition fls_step (mask n : Z) (xr : Z * Z) : Z * Z :=
  let '(x, r) := xr in
  if Z.land x mask =? 0 then (u32 (Z.shiftl x n), r - n) else (x, r).

Definition generic_fls (x : Z) : Z :=
  let r := 32 in
  if x =? 0 then 0
  else
    let xr := fls_step 0xffff0000 16 (x, r) in
    let xr := fls_step 0xff000000 8 xr in
    let xr := fls_step 0xf0000000 4 xr in
    let xr := fls_step 0xc0000000 2 xr in
    let xr := fls_step 0x80000000 1 xr in
    xr.2.

(** A shift count of 32 or more leaves 0 in the register on ARM; the count here
    is at most 32. *)
Definition roundup_pow_of_two (x : Z) : Z := u32 (Z.shiftl 1 (generic_fls (x ⊖ 1))).

Definition get_bitmask_order (count : Z) : Z := generic_fls count.

Definition generic_hweight8 (w : Z) : Z :=
  let res := Z.land w 0x55 + Z.land (Z.shiftr w 1) 0x55 in
  let res := Z.land res 0x33 + Z.land (Z.shiftr res 2) 0x33 in
  Z.land res 0x0F + Z.land (Z.shiftr res 4) 0x0F.

Definition generic_hweight16 (w : Z) : Z :=
  let res := Z.land w 0x5555 + Z.land (Z.shiftr w 1) 0x5555 in
  let res := Z.land res 0x3333 + Z.land (Z.shiftr res 2) 0x3333 in
  let res := Z.land res 0x0F0F + Z.land (Z.shiftr res 4) 0x0F0F in
  Z.land res 0x00FF + Z.land (Z.shiftr res 8) 0x00FF.

Definition generic_hweight32 (w : Z) : Z :=
  let res := Z.land w 0x55555555 + Z.land (Z.shiftr w 1) 0x55555555 in
  let res := Z.land res 0x33333333 + Z.land (Z.shiftr res 2) 0x33333333 in
  let res := Z.land res 0x0F0F0F0F + Z.land (Z.shiftr res 4) 0x0F0F0F0F in
  let res := Z.land res 0x00FF00FF + Z.land (Z.shiftr res 8) 0x00FF00FF in
  Z.land res 0x0000FFFF + Z.land (Z.shiftr res 16) 0x0000FFFF.

(** [BITS_PER_LONG] is 32: the two halves are counted separately. *)
Definition generic_hweight64 (w : Z) : Z :=
  generic_hweight32 (u32 (Z.shiftr w 32)) + generic_hweight32 (u32 w).

Definition hweight_long (w : Z) : Z := generic_hweight32 w.

(** ** Searches *)

Lemma land_ldiff_assoc a b c : Z.land a (Z.ldiff b c) = Z.ldiff (Z.land a b) c.
Proof.
  apply Z.bits_inj'. intros i Hi.
  by rewrite Z.land_spec, !Z.ldiff_spec, Z.land_spec, andb_assoc.
Qed.

Lemma land_high_mask x k :
  is_u32 x -> 0 <= k <= 32 ->
  Z.land x (Z.ldiff (Z.ones 32) (Z.ones k)) = x / 2 ^ k * 2 ^ k.
Proof.
  intros Hx Hk. rewrite land_ldiff_assoc, Z.land_ones by lia. change (2 ^ 32) with 4294967296.
  rewrite Z.mod_small, Z.ldiff_ones_r, Z.shiftr_div_pow2, Z.shiftl_mul_pow2 by (done || lia).
  done.
Qed.

(** Invariant of [generic_fls]: [x] is the argument shifted left [32 - r] times
    and has a bit among its [n] highest. *)
Definition fls_inv (x0 n : Z) (xr : Z * Z) : Prop :=
  2 ^ (32 - n) <= xr.1 < 2 ^ 32 /\ xr.1 = x0 * 2 ^ (32 - xr.2) /\ xr.2 <= 32.

Lemma fls_step_inv x0 xr mask n :
  mask = Z.ldiff (Z.ones 32) (Z.ones (32 - n)) -> 0 < n <= 16 ->
  fls_inv x0 (2 * n) xr -> fls_inv x0 n (fls_step mask n xr).
Proof.
  destruct xr as [x r]. intros -> Hn ([Hlo Hhi] & Heq & Hr). unfold fls_inv, fls_step in *.
  cbn [fst snd] in *. assert (2 ^ 32 = 2 ^ (32 - n) * 2 ^ n) as E32
    by (rewrite <- Z.pow_add_r by lia; f_equal; lia).
  assert (2 ^ (32 - n) = 2 ^ (32 - 2 * n) * 2 ^ n) as En
    by (rewrite <- Z.pow_add_r by lia; f_equal; lia).
  pose proof (Z.pow_pos_nonneg 2 (32 - n) ltac:(lia) ltac:(lia)).
  pose proof (Z.pow_pos_nonneg 2 n ltac:(lia) ltac:(lia)).
  pose proof (Z.pow_pos_nonneg 2 (32 - 2 * n) ltac:(lia) ltac:(lia)).
  rewrite land_high_mask by (unfold is_u32; change (2 ^ 32) with 4294967296 in *; lia).
  destruct (Z.eqb_spec (x / 2 ^ (32 - n) * 2 ^ (32 - n)) 0) as [E | E]; cbn [fst snd].
  - assert (x < 2 ^ (32 - n)) as Hx
      by (apply Z.mul_eq_0_l in E; [| lia]; apply Z.div_small_iff in E; lia).
    rewrite Z.shiftl_mul_pow2, u32_id by
      (lia || (unfold is_u32; change 4294967296 with (2 ^ 32); nia)).
    split; [nia |]. split; [| lia].
    rewrite Heq, <- Z.mul_assoc, <- Z.pow_add_r by lia. f_equal. f_equal. lia.
  - split; [| auto]. split; [| lia].
    destruct (Z.le_gt_cases (2 ^ (32 - n)) x); [done |].
    rewrite Z.div_small in E by lia. lia.
Qed.

(** [generic_fls] is the position, from 1, of the highest bit set. *)
Lemma generic_fls_bounds x :
  0 < x < 4294967296 ->
  let r := generic_fls x in 1 <= r <= 32 /\ 2 ^ (r - 1) <= x < 2 ^ r.
Proof.
  intros Hx. unfold generic_fls. rewrite (proj2 (Z.eqb_neq x 0)) by lia. cbv zeta.
  assert (fls_inv x (2 * 16) (x, 32)) as H0
    by (unfold fls_inv; cbn [fst snd]; change (2 ^ (32 - 2 * 16)) with 1; change (2 ^ (32 - 32)) with 1; change (2 ^ 32) with 4294967296; lia).
  apply (fls_step_inv _ _ 0xffff0000 16) in H0; [| reflexivity | lia].
  apply (fls_step_inv _ _ 0xff000000 8) in H0; [| reflexivity | lia].
  apply (fls_step_inv _ _ 0xf0000000 4) in H0; [| reflexivity | lia].
  apply (fls_step_inv _ _ 0xc0000000 2) in H0; [| reflexivity | lia].
  apply (fls_step_inv _ _ 0x80000000 1) in H0; [| reflexivity | lia].
  revert H0. generalize (fls_step 0x80000000 1 (fls_step 0xc0000000 2
    (fls_step 0xf0000000 4 (fls_step 0xff000000 8 (fls_step 0xffff0000 16 (x, 32)))))).
  intros [y r] (Hy & Heq & Hr). cbn [fst snd] in *. change (2 ^ (32 - 1)) with 2147483648 in *.
  change (2 ^ 32) with 4294967296 in *.
  assert (1 <= r) as Hr1.
  { destruct (Z.le_gt_cases 1 r) as [| Hlt]; [done |]. exfalso.
    assert (2 ^ 32 <= 2 ^ (32 - r)) by (apply Z.pow_le_mono_r; lia).
    change (2 ^ 32) with 4294967296 in *. nia. }
  assert (2147483648 = 2 ^ (r - 1) * 2 ^ (32 - r)) as E1
    by (rewrite <- Z.pow_add_r by lia; replace (r - 1 + (32 - r)) with 31 by lia; done).
  assert (4294967296 = 2 ^ r * 2 ^ (32 - r)) as E2
    by (rewrite <- Z.pow_add_r by lia; replace (r + (32 - r)) with 32 by lia; done).
  pose proof (Z.pow_pos_nonneg 2 (32 - r) ltac:(lia) ltac:(lia)). split; [lia | nia].
Qed.

(** [roundup_pow_of_two] is the least power of two that is not below its
    argument, for the arguments whose result fits in a word. *)
Lemma roundup_pow_of_two_spec x :
  0 < x <= 2 ^ 31 ->
  exists k, 0 <= k <= 31 /\ roundup_pow_of_two x = 2 ^ k /\ x <= 2 ^ k < 2 * x.
Proof.
  intros Hx. change (2 ^ 31) with 2147483648 in Hx. unfold roundup_pow_of_two.
  rewrite (u32_id (x - 1)) by (unfold is_u32; lia).
  destruct (decide (x = 1)) as [-> | Hne]; [exists 0; split; [lia | done] |].
  destruct (generic_fls_bounds (x - 1)) as (Hr & Hlo & Hhi); [lia |].
  set (r := generic_fls (x - 1)) in *.
  assert (r <= 31) as Hr2.
  { destruct (Z.le_gt_cases r 31) as [| Hgt]; [done | exfalso].
    assert (2 ^ 31 <= 2 ^ (r - 1)) by (apply Z.pow_le_mono_r; lia).
    change (2 ^ 31) with 2147483648 in *. lia. }
  assert (2 ^ r = 2 * 2 ^ (r - 1)) as E
    by (rewrite <- Z.pow_succ_r by lia; f_equal; lia).
  assert (2 ^ r <= 2 ^ 31) as H31 by (apply Z.pow_le_mono_r; lia).
  change (2 ^ 31) with 2147483648 in H31.
  exists r. rewrite Z.shiftl_mul_pow2, Z.mul_1_l, u32_id by (unfold is_u32; lia).
  split; [lia |]. split; [done | lia].
Qed.

(** The power-of-two test [x & (x - 1) == 0]. *)
Lemma pow2_of_land x : 0 < x -> Z.land x (x - 1) = 0 -> exists j, 0 <= j /\ x = 2 ^ j.
Proof.
  intros Hx Hl. exists (Z.log2 x). split; [apply Z.log2_nonneg |].
  destruct (Z.log2_spec x Hx) as [Hlo Hhi].
  destruct (decide (x = 2 ^ Z.log2 x)) as [| Hne]; [done | exfalso].
  assert (Z.log2 (x - 1) = Z.log2 x) as E
    by (apply Z.log2_unique; [apply Z.log2_nonneg | lia]).
  assert (0 < 2 ^ Z.log2 x) by (apply Z.pow_pos_nonneg; [lia | apply Z.log2_nonneg]).
  apply (f_equal (fun z => Z.testbit z (Z.log2 x))) in Hl.
  rewrite Z.land_spec, Z.bit_log2, <- E, Z.bit_log2, Z.bits_0 in Hl by lia. done.
Qed.

(** Invariant of [generic_ffs]: [r - 1] zero bits were shifted out and a bit is
    set among the [n] lowest. *)
Definition ffs_inv (x0 n : Z) (xr : Z * Z) : Prop :=
  xr.1 mod 2 ^ n <> 0 /\ x0 = xr.1 * 2 ^ (xr.2 - 1) /\ 1 <= xr.2.

Lemma ffs_step_inv x0 xr mask n :
  mask = 2 ^ n - 1 -> 0 < n -> ffs_inv x0 (2 * n) xr -> ffs_inv x0 n (ffs_step mask n xr).
Proof.
  destruct xr as [x r]. intros -> Hn (Hnz & Heq & Hr). unfold ffs_inv, ffs_step in *.
  cbn [fst snd] in *. rewrite land_pow2_mask by lia.
  destruct (Z.eqb_spec (x mod 2 ^ n) 0) as [E | E]; cbn [fst snd]; [| auto].
  pose proof (Z.pow_pos_nonneg 2 n ltac:(lia) ltac:(lia)).
  rewrite Z.shiftr_div_pow2 by lia.
  replace (2 * n) with (n + n) in Hnz by lia.
  rewrite Z.pow_add_r, Z.rem_mul_r, E in Hnz by lia.
  split; [nia |]. split; [| lia].
  replace (r + n - 1) with (n + (r - 1)) by lia.
  rewrite Z.pow_add_r, Z.mul_assoc, Heq by lia. f_equal.
  rewrite (Z.div_mod x (2 ^ n)) at 1 by lia. rewrite E. lia.
Qed.

(** [generic_ffs] returns 0 for 0 and otherwise the position, from 1, of the
    lowest bit set: [2^(r-1)] divides the argument and [2^r] does not. It is
    exact for every 32-bit [int], negative ones included. *)
Theorem generic_ffs_spec x :
  - 2147483648 <= x < 2147483648 ->
  let r := generic_ffs x in
  (x = 0 /\ r = 0) \/
  (x <> 0 /\ 1 <= r <= 32 /\ x mod 2 ^ (r - 1) = 0 /\ x mod 2 ^ r <> 0).
Proof.
  intros Hx. unfold generic_ffs. destruct (Z.eqb_spec x 0) as [-> | Hne]; [by left |].
  right. split; [done |]. cbv zeta.
  assert (ffs_inv x (2 * 16) (x, 1)) as H0.
  { unfold ffs_inv; cbn [fst snd]; change (2 ^ (2 * 16)) with 4294967296;
    change (2 ^ (1 - 1)) with 1. split_and!; [Z.div_mod_to_equations; lia | lia | lia]. }
  apply (ffs_step_inv _ _ 0xffff 16) in H0; [| reflexivity | lia].
  apply (ffs_step_inv _ _ 0xff 8) in H0; [| reflexivity | lia].
  apply (ffs_step_inv _ _ 0xf 4) in H0; [| reflexivity | lia].
  apply (ffs_step_inv _ _ 3 2) in H0; [| reflexivity | lia].
  apply (ffs_step_inv _ _ 1 1) in H0; [| reflexivity | lia].
  revert H0. generalize (ffs_step 1 1 (ffs_step 3 2 (ffs_step 0xf 4 (ffs_step 0xff 8
    (ffs_step 0xffff 16 (x, 1)))))).
  intros [y r] (Hy & Heq & Hr). cbn [fst snd] in *. change (2 ^ 1) with 2 in Hy.
  assert (r <= 32) as Hr32.
  { destruct (Z.le_gt_cases r 32) as [| Hgt]; [done | exfalso].
    assert (2 ^ 32 <= 2 ^ (r - 1)) by (apply Z.pow_le_mono_r; lia).
    change (2 ^ 32) with 4294967296 in *. assert (y <> 0) by (intros ->; done). nia. }
  assert (2 ^ r = 2 ^ (r - 1) * 2) as E
    by (rewrite Z.mul_comm, <- Z.pow_succ_r by lia; f_equal; lia).
  pose proof (Z.pow_pos_nonneg 2 (r - 1) ltac:(lia) ltac:(lia)).
  split_and!; [lia | lia | rewrite Heq; apply Z_mod_mult |].
  rewrite E, Heq, (Z.mul_comm y), Z.mul_mod_distr_l by lia. nia.
Qed.

Lemma generic_ffs_spec_witness :
  let r := generic_ffs (-40) in
  (-40 = 0 /\ r = 0) \/
  (-40 <> 0 /\ 1 <= r <= 32 /\ -40 mod 2 ^ (r - 1) = 0 /\ -40 mod 2 ^ r <> 0).
Proof. apply (generic_ffs_spec (-40)). lia. Defined.

(** ** Hamming weight *)

(** The number of bits set among the [n] lowest. *)
Fixpoint popcount (n : nat) (w : Z) : Z :=
  match n with
  | O => 0
  | S n => Z.b2z (Z.testbit w (Z.of_nat n)) + popcount n w
  end.

(** Two 16-bit halves side by side. *)
Definition cat (lo hi : Z) : Z := lo + hi * 2 ^ 16.

Lemma testbit_cat lo hi i :
  0 <= lo < 2 ^ 16 -> 0 <= i ->
  Z.testbit (cat lo hi) i = if i <? 16 then Z.testbit lo i else Z.testbit hi (i - 16).
Proof.
  intros Hlo Hi. unfold cat. destruct (Z.ltb_spec i 16).
  - rewrite <- (Z.mod_pow2_bits_low (lo + hi * 2 ^ 16) 16 i) by lia.
    by rewrite Z_mod_plus_full, Z.mod_small.
  - replace i with (i - 16 + 16) at 1 by lia. rewrite <- Z.div_pow2_bits by lia.
    by rewrite Z.div_add, Z.div_small.
Qed.

Lemma land_cat lo hi m k :
  0 <= lo < 2 ^ 16 -> 0 <= k < 16 -> 0 <= m < 2 ^ (16 - k) ->
  Z.land (Z.shiftr (cat lo hi) k) (cat m m) =
  cat (Z.land (Z.shiftr lo k) m) (Z.land (Z.shiftr hi k) m).
Proof.
  intros Hlo Hk Hm.
  assert (2 ^ (16 - k) <= 2 ^ 16) by (apply Z.pow_le_mono_r; lia).
  assert (forall a, 0 <= Z.land a m < 2 ^ 16) as Hland by (intros a; apply land_range; lia).
  apply Z.bits_inj'. intros i Hi.
  rewrite Z.land_spec, Z.shiftr_spec, !testbit_cat by (auto || lia).
  destruct (Z.ltb_spec i 16), (Z.ltb_spec (i + k) 16); try lia;
    rewrite !Z.land_spec, !Z.shiftr_spec by lia; [done | | ].
  - rewrite (Z.bits_above_log2 m i), !andb_false_r; [done | lia |].
    destruct (decide (m = 0)) as [-> |]; [simpl; lia |].
    apply Z.log2_lt_pow2; [lia |].
    apply Z.lt_le_trans with (2 ^ (16 - k)); [lia | apply Z.pow_le_mono_r; lia].
  - do 3 f_equal. lia.
Qed.

Lemma land_cat0 lo hi m :
  0 <= lo < 2 ^ 16 -> 0 <= m < 2 ^ 16 ->
  Z.land (cat lo hi) (cat m m) = cat (Z.land lo m) (Z.land hi m).
Proof. intros. pose proof (land_cat lo hi m 0) as H1. rewrite !Z.shiftr_0_r in H1. apply H1; lia. Qed.

(** One counting step [(w & m) + ((w >> k) & m)] acts on both halves alike. *)
Definition hweight_step (m k w : Z) : Z := Z.land w m + Z.land (Z.shiftr w k) m.

Lemma hweight_step_cat lo hi m k :
  0 <= lo < 2 ^ 16 -> 0 <= k < 16 -> 0 <= m < 2 ^ (16 - k) ->
  hweight_step (cat m m) k (cat lo hi) = cat (hweight_step m k lo) (hweight_step m k hi).
Proof.
  intros Hlo Hk Hm. assert (2 ^ (16 - k) <= 2 ^ 16) by (apply Z.pow_le_mono_r; lia).
  unfold hweight_step. rewrite land_cat0, land_cat by lia. unfold cat. lia.
Qed.

Lemma hweight_step_range m k w :
  0 <= m < 2 ^ 15 -> 0 <= hweight_step m k w < 2 ^ 16.
Proof.
  intros Hm. unfold hweight_step.
  pose proof (land_range w m 15 ltac:(lia) Hm).
  pose proof (land_range (Z.shiftr w k) m 15 ltac:(lia) Hm). lia.
Qed.

Definition hweight16_sum (w : Z) : Z :=
  hweight_step 0x00FF 8 (hweight_step 0x0F0F 4 (hweight_step 0x3333 2 (hweight_step 0x5555 1 w))).

Lemma hweight16_all :
  all_from (fun w => hweight16_sum w =? popcount 16 w) (Z.to_nat 65536) 0 = true.
Proof. vm_compute. reflexivity. Qed.

Lemma hweight16_popcount w : 0 <= w < 2 ^ 16 -> hweight16_sum w = popcount 16 w.
Proof.
  intros Hw. change (2 ^ 16) with 65536 in Hw.
  apply Z.eqb_eq, (all_from_spec _ _ _ w hweight16_all). lia.
Qed.

Lemma popcount_range n w : 0 <= popcount n w <= Z.of_nat n.
Proof. induction n; simpl popcount; [lia |]. destruct (Z.testbit w (Z.of_nat n)); simpl Z.b2z; lia. Qed.

Lemma popcount_S n w : popcount (S n) w = Z.b2z (Z.testbit w (Z.of_nat n)) + popcount n w.
Proof. done. Qed.

Lemma popcount_ext n a b :
  (forall i, 0 <= i < Z.of_nat n -> Z.testbit a i = Z.testbit b i) -> popcount n a = popcount n b.
Proof.
  induction n as [| n IH]; intros H; [done |]. simpl popcount.
  rewrite H, IH; [done | intros; apply H; lia | lia].
Qed.

Lemma popcount_cat n lo hi :
  0 <= lo < 2 ^ 16 -> popcount (n + 16) (cat lo hi) = popcount 16 lo + popcount n hi.
Proof.
  intros Hlo. induction n as [| n IH].
  - rewrite Z.add_0_r. apply popcount_ext. intros i Hi. rewrite testbit_cat by lia.
    destruct (Z.ltb_spec i 16); [done | lia].
  - change (S n + 16)%nat with (S (n + 16)). rewrite !(popcount_S n), (popcount_S (n + 16)), IH.
    rewrite testbit_cat by lia.
    destruct (Z.ltb_spec (Z.of_nat (n + 16)) 16); [lia |].
    replace (Z.of_nat (n + 16) - 16) with (Z.of_nat n) by lia. lia.
Qed.

Lemma generic_hweight32_cat lo hi :
  0 <= lo < 2 ^ 16 -> 0 <= hi < 2 ^ 16 ->
  generic_hweight32 (cat lo hi) = hweight16_sum lo + hweight16_sum hi.
Proof.
  intros Hlo Hhi.
  change (generic_hweight32 (cat lo hi)) with
    (hweight_step 0xFFFF 16 (hweight_step (cat 0x00FF 0x00FF) 8 (hweight_step (cat 0x0F0F 0x0F0F) 4
       (hweight_step (cat 0x3333 0x3333) 2 (hweight_step (cat 0x5555 0x5555) 1 (cat lo hi)))))).
  rewrite (hweight_step_cat lo hi 0x5555 1); [| done | lia | by split; vm_compute].
  rewrite (hweight_step_cat _ _ 0x3333 2);
    [| apply hweight_step_range; by split; vm_compute | lia | by split; vm_compute].
  rewrite (hweight_step_cat _ _ 0x0F0F 4);
    [| apply hweight_step_range; by split; vm_compute | lia | by split; vm_compute].
  rewrite (hweight_step_cat _ _ 0x00FF 8);
    [| apply hweight_step_range; by split; vm_compute | lia | by split; vm_compute].
  fold (hweight16_sum lo). fold (hweight16_sum hi).
  rewrite !hweight16_popcount by done.
  pose proof (popcount_range 16 lo). pose proof (popcount_range 16 hi).
  unfold hweight_step. change 0xFFFF with (2 ^ 16 - 1). rewrite !land_pow2_mask by lia.
  rewrite Z.shiftr_div_pow2 by lia. unfold cat.
  rewrite Z_mod_plus_full, Z.div_add, (Z.div_small (popcount 16 lo)) by lia.
  rewrite !Z.mod_small by lia. lia.
Qed.

Lemma hweight32_popcount w : is_u32 w -> generic_hweight32 w = popcount 32 w.
Proof.
  intros Hw. assert (w = cat (w mod 2 ^ 16) (w / 2 ^ 16)) as E
    by (unfold cat; pose proof (Z.div_mod w (2 ^ 16)); lia).
  pose proof (Z.mod_pos_bound w (2 ^ 16) ltac:(lia)).
  assert (0 <= w / 2 ^ 16 < 2 ^ 16) by (unfold is_u32 in Hw; Z.div_mod_to_equations; lia).
  rewrite E at 1 2. rewrite generic_hweight32_cat, !hweight16_popcount by done.
  symmetry. by apply (popcount_cat 16).
Qed.

Lemma hweight8_all : all_from (fun w => generic_hweight8 w =? popcount 8 w) 256 0 = true.
Proof. vm_compute. reflexivity. Qed.

Lemma popcount_split n k w :
  popcount (n + k) w = popcount k w + popcount n (Z.shiftr w (Z.of_nat k)).
Proof.
  induction n as [| n IH]; [simpl; lia |].
  change (S n + k)%nat with (S (n + k)). rewrite !popcount_S, IH, Z.shiftr_spec by lia.
  replace (Z.of_nat (n + k)) with (Z.of_nat n + Z.of_nat k) by lia. lia.
Qed.

Lemma popcount_u32 w : popcount 32 (u32 w) = popcount 32 w.
Proof.
  apply popcount_ext. intros i Hi. unfold u32. change 4294967296 with (2 ^ 32).
  by rewrite Z.mod_pow2_bits_low by lia.
Qed.

(** The parallel (SWAR) bit counts [generic_hweight8], [generic_hweight16],
    [generic_hweight32], [generic_hweight64] and [hweight_long] return the number
    of bits set in an argument of their width. *)
Theorem generic_hweight_spec w :
  (is_u8 w -> generic_hweight8 w = popcount 8 w) /\
  (0 <= w < 65536 -> generic_hweight16 w = popcount 16 w) /\
  (is_u32 w -> generic_hweight32 w = popcount 32 w /\ hweight_long w = popcount 32 w) /\
  generic_hweight64 w = popcount 64 w.
Proof.
  split_and!.
  - intros Hw. apply Z.eqb_eq, (all_from_spec _ _ _ w hweight8_all). unfold is_u8 in Hw. lia.
  - intros Hw. by apply hweight16_popcount.
  - intros Hw. split; by apply hweight32_popcount.
  - unfold generic_hweight64. rewrite !hweight32_popcount, !popcount_u32 by apply u32_range.
    rewrite Z.add_comm. symmetry. apply (popcount_split 32 32).
Qed.

Lemma generic_hweight_spec_witness :
  generic_hweight8 0xA7 = 5 /\ generic_hweight32 0xF00000FF = 12 /\
  generic_hweight64 0x8000000000000001 = 2.
Proof.
  destruct (generic_hweight_spec 0xA7) as (H8 & _).
  destruct (generic_hweight_spec 0xF00000FF) as (_ & _ & H32 & _).
  destruct (generic_hweight_spec 0x8000000000000001) as (_ & _ & _ & H64).
  split_and!; [rewrite H8 by (split; reflexivity || discriminate); reflexivity
              | rewrite (proj1 (H32 ltac:(unfold is_u32; lia))); reflexivity
              | rewrite H64; reflexivity].
Defined.
