(* ===== verification/KString.v ===== *)
(** * String and memory routines: lib/string.c

    Every routine works on the byte memory of [Prelude]; source and destination
    lie in the same memory, so overlapping arguments are part of the model. A
    result of [None] is an oops: an access to an address that is not mapped, or
    a failed [BUG_ON]. A loop that runs to a terminating NUL takes the fuel
    [scan m], one more than the number of mapped addresses: each iteration moves
    the pointers to the next address, so an unterminated scan faults before the
    fuel is used up. A pointer result that may be [NULL] is an [option ptr]. *)

From S2P Require Import Prelude Ctype.

Definition scan (m : mem) : nat := S (length m).

(** ** Lengths *)

Fixpoint strlen_loop (fuel : nat) (m : mem) (sc : ptr) : option ptr :=
  match fuel with
  | O => None
  | S fuel =>
      c ← load m sc;
      if c =? 0 then Some sc else strlen_loop fuel m (S sc)
  end.

Definition strlen (m : mem) (s : ptr) : option nat :=
  sc ← strlen_loop (scan m) m s; Some (sc - s)%nat.

Fixpoint strnlen_loop (m : mem) (sc : ptr) (count : nat) : option ptr :=
  match count with
  | O => Some sc
  | S count =>
      c ← load m sc;
      if c =? 0 then Some sc else strnlen_loop m (S sc) count
  end.

Definition strnlen (m : mem) (s : ptr) (count : nat) : option nat :=
  sc ← strnlen_loop m s count; Some (sc - s)%nat.

(** ** Copying *)

(** [while (( *dest++ = *src++) != '\0');] *)
Fixpoint strcpy_loop (fuel : nat) (m : mem) (dest src : ptr) : option mem :=
  match fuel with
  | O => None
  | S fuel =>
      c ← load m src;
      m ← store m dest c;
      if c =? 0 then Some m else strcpy_loop fuel m (S dest) (S src)
  end.

Definition strcpy (m : mem) (dest src : ptr) : option (mem * ptr) :=
  m' ← strcpy_loop (scan m) m dest src; Some (m', dest).

Fixpoint strncpy_loop (m : mem) (tmp src : ptr) (count : nat) : option mem :=
  match count with
  | O => Some m
  | S count =>
      c ← load m src;
      m ← store m tmp c;
      strncpy_loop m (S tmp) (if c =? 0 then src else S src) count
  end.

Definition strncpy (m : mem) (dest src : ptr) (count : nat) : option (mem * ptr) :=
  m' ← strncpy_loop m dest src count; Some (m', dest).

(** [while (count--) *tmp++ = *s++;], the body of [memcpy] and [bcopy] and of
    [memmove] when [dest <= src]. *)
Fixpoint copy_up (m : mem) (tmp s : ptr) (count : nat) : option mem :=
  match count with
  | O => Some m
  | S count =>
      c ← load m s;
      m ← store m tmp c;
      copy_up m (S tmp) (S s) count
  end.

(** [while (count--) *--tmp = *--s;] from [dest + count] and [src + count]. *)
Fixpoint copy_down (m : mem) (dest src : ptr) (count : nat) : option mem :=
  match count with
  | O => Some m
  | S count =>
      c ← load m (src + count)%nat;
      m ← store m (dest + count)%nat c;
      copy_down m dest src count
  end.

Definition memcpy (m : mem) (dest src : ptr) (count : nat) : option (mem * ptr) :=
  m' ← copy_up m dest src count; Some (m', dest).

Definition bcopy (m : mem) (srcp destp : ptr) (count : nat) : option mem :=
  copy_up m destp srcp count.

Definition memmove (m : mem) (dest src : ptr) (count : nat) : option (mem * ptr) :=
  m' ← (if (dest <=? src)%nat then copy_up m dest src count
        else copy_down m dest src count);
  Some (m', dest).

Fixpoint memset_loop (m : mem) (xs : ptr) (c : Z) (count : nat) : option mem :=
  match count with
  | O => Some m
  | S count => m ← store m xs (u8 c); memset_loop m (S xs) c count
  end.

Definition memset (m : mem) (s : ptr) (c : Z) (count : nat) : option (mem * ptr) :=
  m' ← memset_loop m s c count; Some (m', s).

Definition strlcpy (m : mem) (dest src : ptr) (size : nat) : option (mem * nat) :=
  ret ← strlen m src;
  if (size =? 0)%nat then Some (m, ret)
  else
    let len := if (size <=? ret)%nat then (size - 1)%nat else ret in
    '(m, _) ← memcpy m dest src len;
    m ← store m (dest + len)%nat 0;
    Some (m, ret).

(** ** Appending *)

Definition strcat (m : mem) (dest src : ptr) : option (mem * ptr) :=
  end_ ← strlen_loop (scan m) m dest;
  m' ← strcpy_loop (scan m) m end_ src;
  Some (m', dest).

Fixpoint strncat_loop (m : mem) (dest src : ptr) (count : nat) : option mem :=
  match count with
  | O => None
  | S count =>
      c ← load m src;
      m ← store m dest c;
      if c =? 0 then Some m
      else if (count =? 0)%nat then store m (S dest) 0
      else strncat_loop m (S dest) (S src) count
  end.

Definition strncat (m : mem) (dest src : ptr) (count : nat) : option (mem * ptr) :=
  if (count =? 0)%nat then Some (m, dest)
  else
    end_ ← strlen_loop (scan m) m dest;
    m' ← strncat_loop m end_ src count;
    Some (m', dest).

Definition strlcat (m : mem) (dest src : ptr) (count : nat) : option (mem * nat) :=
  dsize ← strlen m dest;
  len ← strlen m src;
  let res := (dsize + len)%nat in
  if (count <=? dsize)%nat then None (* BUG_ON *)
  else
    let dest := (dest + dsize)%nat in
    let count := (count - dsize)%nat in
    let len := if (count <=? len)%nat then (count - 1)%nat else len in
    '(m, _) ← memcpy m dest src len;
    m ← store m (dest + len)%nat 0;
    Some (m, res).

(** ** Comparing: the difference of two bytes is kept in a [signed char] *)

Fixpoint strcmp_loop (fuel : nat) (m : mem) (cs ct : ptr) : option Z :=
  match fuel with
  | O => None
  | S fuel =>
      c1 ← load m cs;
      c2 ← load m ct;
      let __res := s8 (c1 - c2) in
      if negb (__res =? 0) || (c1 =? 0) then Some __res
      else strcmp_loop fuel m (S cs) (S ct)
  end.

Definition strcmp (m : mem) (cs ct : ptr) : option Z := strcmp_loop (scan m) m cs ct.

Fixpoint strncmp_loop (m : mem) (cs ct : ptr) (count : nat) (__res : Z) : option Z :=
  match count with
  | O => Some __res
  | S count =>
      c1 ← load m cs;
      c2 ← load m ct;
      let __res := s8 (c1 - c2) in
      if negb (__res =? 0) || (c1 =? 0) then Some __res
      else strncmp_loop m (S cs) (S ct) count __res
  end.

Definition strncmp (m : mem) (cs ct : ptr) (count : nat) : option Z :=
  strncmp_loop m cs ct count 0.

(** [do ... while (--len)]: [continue] jumps to the test. *)
Fixpoint strnicmp_loop (m : mem) (s1 s2 : ptr) (len : nat) (c1 c2 : Z) : option (Z * Z) :=
  match len with
  | O => Some (c1, c2)
  | S len =>
      c1 ← load m s1;
      c2 ← load m s2;
      if c1 =? 0 then Some (c1, c2)
      else if c2 =? 0 then Some (c1, c2)
      else if c1 =? c2 then strnicmp_loop m (S s1) (S s2) len c1 c2
      else
        let c1 := __tolower c1 in
        let c2 := __tolower c2 in
        if negb (c1 =? c2) then Some (c1, c2)
        else strnicmp_loop m (S s1) (S s2) len c1 c2
  end.

Definition strnicmp (m : mem) (s1 s2 : ptr) (len : nat) : option Z :=
  '(c1, c2) ← strnicmp_loop m s1 s2 len 0 0; Some (c1 - c2).

Fixpoint memcmp_loop (m : mem) (su1 su2 : ptr) (count : nat) (res : Z) : option Z :=
  match count with
  | O => Some res
  | S count =>
      c1 ← load m su1;
      c2 ← load m su2;
      let res := c1 - c2 in
      if negb (res =? 0) then Some res
      else memcmp_loop m (S su1) (S su2) count res
  end.

Definition memcmp (m : mem) (cs ct : ptr) (count : nat) : option Z :=
  memcmp_loop m cs ct count 0.

(** ** Searching *)

Fixpoint strchr_loop (fuel : nat) (m : mem) (s : ptr) (c : Z) : option (option ptr) :=
  match fuel with
  | O => None
  | S fuel =>
      d ← load m s;
      if d =? u8 c then Some (Some s)
      else if d =? 0 then Some None
      else strchr_loop fuel m (S s) c
  end.

Definition strchr (m : mem) (s : ptr) (c : Z) : option (option ptr) :=
  strchr_loop (scan m) m s c.

(** [do { if ( *p == (char)c) return p; } while (--p >= s);] with [p = s + k] *)
Fixpoint strrchr_loop (m : mem) (s : ptr) (k : nat) (c : Z) : option (option ptr) :=
  d ← load m (s + k)%nat;
  if d =? u8 c then Some (Some (s + k)%nat)
  else match k with
       | O => Some None
       | S k => strrchr_loop m s k c
       end.

Definition strrchr (m : mem) (s : ptr) (c : Z) : option (option ptr) :=
  n ← strlen m s; strrchr_loop m s n c.

Fixpoint strnchr (m : mem) (s : ptr) (count : nat) (c : Z) : option (option ptr) :=
  match count with
  | O => Some None
  | S count =>
      d ← load m s;
      if d =? 0 then Some None
      else if d =? u8 c then Some (Some s)
      else strnchr m (S s) count c
  end.

(** [for (a = accept; *a != '\0'; ++a) if ( *p == *a) break;]: whether the loop
    stopped at a match. *)
Fixpoint find_char (fuel : nat) (m : mem) (a : ptr) (c : Z) : option bool :=
  match fuel with
  | O => None
  | S fuel =>
      d ← load m a;
      if d =? 0 then Some false
      else if c =? d then Some true
      else find_char fuel m (S a) c
  end.

Fixpoint strspn_loop (fuel : nat) (m : mem) (p accept : ptr) (count : nat) : option nat :=
  match fuel with
  | O => None
  | S fuel =>
      c ← load m p;
      if c =? 0 then Some count
      else
        found ← find_char (scan m) m accept c;
        if negb found then Some count
        else strspn_loop fuel m (S p) accept (S count)
  end.

Definition strspn (m : mem) (s accept : ptr) : option nat :=
  strspn_loop (scan m) m s accept 0.

Fixpoint strcspn_loop (fuel : nat) (m : mem) (p reject : ptr) (count : nat) : option nat :=
  match fuel with
  | O => None
  | S fuel =>
      c ← load m p;
      if c =? 0 then Some count
      else
        found ← find_char (scan m) m reject c;
        if (found : bool) then Some count
        else strcspn_loop fuel m (S p) reject (S count)
  end.

Definition strcspn (m : mem) (s reject : ptr) : option nat :=
  strcspn_loop (scan m) m s reject 0.

Fixpoint strpbrk_loop (fuel : nat) (m : mem) (sc1 ct : ptr) : option (option ptr) :=
  match fuel with
  | O => None
  | S fuel =>
      c ← load m sc1;
      if c =? 0 then Some None
      else
        found ← find_char (scan m) m ct c;
        if (found : bool) then Some (Some sc1)
        else strpbrk_loop fuel m (S sc1) ct
  end.

Definition strpbrk (m : mem) (cs ct : ptr) : option (option ptr) :=
  strpbrk_loop (scan m) m cs ct.

(** [strsep] takes the value of [*s] and returns the memory, the new value of
    [*s] and the token. *)
Definition strsep (m : mem) (s : option ptr) (ct : ptr)
  : option (mem * option ptr * option ptr) :=
  match s with
  | None => Some (m, None, None)
  | Some sbegin =>
      end_ ← strpbrk m sbegin ct;
      match end_ with
      | Some e => m ← store m e 0; Some (m, Some (S e), Some sbegin)
      | None => Some (m, None, Some sbegin)
      end
  end.

(** [memscan] compares the byte with the [int] argument itself. *)
Fixpoint memscan (m : mem) (addr : ptr) (c : Z) (size : nat) : option ptr :=
  match size with
  | O => Some addr
  | S size =>
      d ← load m addr;
      if d =? c then Some addr else memscan m (S addr) c size
  end.

Fixpoint memchr (m : mem) (s : ptr) (c : Z) (n : nat) : option (option ptr) :=
  match n with
  | O => Some None
  | S n =>
      d ← load m s;
      if u8 c =? d then Some (Some s) else memchr m (S s) c n
  end.

(** [while (l1 >= l2) { l1--; ...; s1++; }]: [l1 - l2 + 1] iterations. *)
Fixpoint strstr_loop (m : mem) (s1 s2 : ptr) (l2 : nat) (iters : nat) : option (option ptr) :=
  match iters with
  | O => Some None
  | S iters =>
      r ← memcmp m s1 s2 l2;
      if r =? 0 then Some (Some s1) else strstr_loop m (S s1) s2 l2 iters
  end.

Definition strstr (m : mem) (s1 s2 : ptr) : option (option ptr) :=
  l2 ← strlen m s2;
  if (l2 =? 0)%nat then Some (Some s1)
  else
    l1 ← strlen m s1;
    strstr_loop m s1 s2 l2 (S l1 - l2)%nat.

(** * Correctness *)

(** The NUL-terminated string [s] at [p]. *)
Fixpoint cstr (m : mem) (p : ptr) (s : list Z) : Prop :=
  match s with
  | [] => m !! p = Some 0
  | c :: s => m !! p = Some c /\ c <> 0 /\ cstr m (S p) s
  end.

Lemma cstr_bound m p s : cstr m p s -> (p + length s < length m)%nat.
Proof.
  revert p. induction s as [| c s IH]; intros p; simpl.
  - intros H%lookup_lt_Some. lia.
  - intros (_ & _ & H%IH). lia.
Qed.

Lemma cstr_block m p s : cstr m p s -> block m p (length s) = s.
Proof.
  revert p. induction s as [| c s IH]; intros p; simpl; [done |].
  intros (H & _ & Hs). by rewrite (block_S _ _ _ c), IH.
Qed.

Lemma cstr_no_nul m p s : cstr m p s -> Forall (fun c => c <> 0) s.
Proof.
  revert p. induction s as [| c s IH]; intros p; simpl; [done |].
  intros (_ & H & Hs). constructor; eauto.
Qed.

Lemma cstr_frame m m' p s :
  (forall i, (p <= i <= p + length s)%nat -> m' !! i = m !! i) -> cstr m p s -> cstr m' p s.
Proof.
  revert p. induction s as [| c s IH]; intros p Heq; simpl in *.
  - intros H. rewrite Heq; [done | lia].
  - intros (H & Hc & Hs). split_and!; [rewrite Heq; [done | lia] | done |].
    apply IH; [| done]. intros. apply Heq. lia.
Qed.

Lemma cstr_lookup m p s i c : cstr m p s -> s !! i = Some c -> m !! (p + i)%nat = Some c.
Proof.
  revert p i. induction s as [| d s IH]; intros p i; [done |].
  simpl. intros (H & _ & Hs) Hi. destruct i as [| i]; simpl in Hi.
  - rewrite Nat.add_0_r. congruence.
  - rewrite <- Nat.add_succ_comm. eauto.
Qed.

Lemma cstr_nul m p s : cstr m p s -> m !! (p + length s)%nat = Some 0.
Proof.
  revert p. induction s as [| d s IH]; intros p; simpl.
  - by rewrite Nat.add_0_r.
  - intros (_ & _ & Hs). rewrite <- Nat.add_succ_comm. eauto.
Qed.

(** Writing [s] and a NUL makes a string of the NUL-free [s]. *)
Lemma cstr_write m p s :
  Forall (fun c => c <> 0) s -> (p + length s < length m)%nat ->
  cstr (write m p (s ++ [0])) p s.
Proof.
  revert m p. induction s as [| c s IH]; intros m p Hs Hlen; simpl in *.
  - apply list_lookup_insert_eq. lia.
  - apply Forall_cons in Hs as [Hc Hs]. rewrite write_cons. split_and!; [| done |].
    + apply list_lookup_insert_eq. rewrite length_write. lia.
    + eapply cstr_frame; [| apply (IH m (S p)); [done | lia]].
      intros i Hi. apply list_lookup_insert_ne. lia.
Qed.

Lemma cstr_app_l m p a b :
  cstr m p (a ++ b) -> (p + length a < length m)%nat /\
  cstr (<[(p + length a)%nat := 0]> m) p a.
Proof.
  intros H. pose proof (cstr_bound _ _ _ H) as Hb. rewrite length_app in Hb.
  split; [lia |]. revert p H Hb. induction a as [| c a IH]; intros p H Hb; simpl in *.
  - rewrite Nat.add_0_r. apply list_lookup_insert_eq. lia.
  - destruct H as (Hc & Hn & Hs). split_and!; [| done |].
    + rewrite list_lookup_insert_ne by lia. done.
    + rewrite <- Nat.add_succ_comm. apply IH; [done | lia].
Qed.

Lemma cstr_app_r m p a b : cstr m p (a ++ b) -> cstr m (p + length a)%nat b.
Proof.
  revert p. induction a as [| c a IH]; intros p; simpl.
  - by rewrite Nat.add_0_r.
  - intros (_ & _ & Hs). rewrite <- Nat.add_succ_comm. eauto.
Qed.

(** ** Lengths and copies *)

Lemma strlen_loop_spec m p s fuel :
  cstr m p s -> (length s < fuel)%nat -> strlen_loop fuel m p = Some (p + length s)%nat.
Proof.
  revert p fuel. induction s as [| c s IH]; intros p [| fuel] Hs Hf; simpl in *; try lia;
    unfold load.
  - rewrite Hs. simpl. f_equal. lia.
  - destruct Hs as (H & Hc & Hs). rewrite H. simpl.
    rewrite (proj2 (Z.eqb_neq c 0) Hc), (IH (S p)) by (done || lia). f_equal. lia.
Qed.

Lemma scan_enough m p s : cstr m p s -> (length s < scan m)%nat.
Proof. intros H%cstr_bound. unfold scan. lia. Qed.
#[local] Opaque scan.

#[export] Hint Resolve scan_enough : kernel.

Lemma strlen_spec m p s : cstr m p s -> strlen m p = Some (length s).
Proof.
  intros H. unfold strlen. rewrite (strlen_loop_spec _ _ s) by eauto with kernel.
  simpl. f_equal. lia.
Qed.

Lemma copy_up_spec m dest src n :
  (dest + n <= length m)%nat -> (src + n <= length m)%nat ->
  (dest <= src \/ src + n <= dest)%nat ->
  copy_up m dest src n = Some (write m dest (block m src n)).
Proof.
  revert m dest src. induction n as [| n IH]; intros m dest src Hd Hs Ho; [done |].
  destruct (lookup_lt_is_Some_2 m src) as [c Hc]; [lia |].
  simpl. unfold load. rewrite Hc. simpl. rewrite store_in by lia. simpl.
  rewrite IH by (rewrite ?length_insert; lia).
  rewrite block_insert_other, (block_S _ _ _ c), write_cons, write_insert_lt by (done || lia).
  done.
Qed.

Lemma copy_down_spec m dest src n :
  (dest + n <= length m)%nat -> (src <= dest)%nat ->
  copy_down m dest src n = Some (write m dest (block m src n)).
Proof.
  revert m. induction n as [| n IH]; intros m Hd Ho; [done |].
  destruct (lookup_lt_is_Some_2 m (src + n)) as [c Hc]; [lia |].
  simpl. unfold load. rewrite Hc. simpl. rewrite store_in by lia. simpl.
  rewrite IH by (rewrite ?length_insert; lia).
  rewrite block_insert_other, (block_S_r _ _ _ c), write_snoc, length_block by (done || lia).
  done.
Qed.

#[export] Instance memcpy_ok : Memcpy memcpy.
Proof.
  intros m dest src n Hd Hs Ho. unfold memcpy. by rewrite copy_up_spec by lia.
Qed.

(** [memmove] copies correctly whatever the overlap of the two regions:
    afterwards the destination holds the bytes the source held before the call,
    every other byte is unchanged, and nothing outside the regions is touched. *)
Lemma memmove_spec m dest src n :
  (dest + n <= length m)%nat -> (src + n <= length m)%nat ->
  memmove m dest src n = Some (write m dest (block m src n), dest).
Proof.
  intros Hd Hs. unfold memmove. destruct (Nat.leb_spec dest src).
  - by rewrite copy_up_spec by lia.
  - by rewrite copy_down_spec by lia.
Qed.

Lemma memcpy_prefix m dest src s n :
  cstr m src s -> (n <= length s)%nat -> (dest + n <= length m)%nat ->
  (dest <= src \/ src + n <= dest)%nat ->
  memcpy m dest src n = Some (write m dest (take n s), dest).
Proof.
  intros Hs Hn Hd Ho. pose proof (cstr_bound _ _ _ Hs). unfold memcpy.
  rewrite copy_up_spec by lia. simpl. do 3 f_equal.
  rewrite <- (cstr_block m src s Hs) at 1. unfold block. rewrite take_take. f_equal. lia.
Qed.

Lemma write_app_store m p bs b :
  (p + length bs < length m)%nat ->
  store (write m p bs) (p + length bs)%nat b = Some (write m p (bs ++ [b])).
Proof.
  intros H. rewrite store_in by (rewrite length_write; lia). f_equal.
  rewrite write_snoc. list_ext i.
  destruct (decide (i = p + length bs)%nat) as [-> |].
  - rewrite list_lookup_insert_eq by (rewrite length_write; lia).
    rewrite lookup_write, decide_False by (rewrite ?length_insert; lia).
    by rewrite list_lookup_insert_eq by lia.
  - rewrite list_lookup_insert_ne, !lookup_write by (rewrite ?length_insert; lia).
    case_decide; [done |]. by rewrite list_lookup_insert_ne by lia.
Qed.

(** The tail shared by [strlcpy] and [strlcat]: copy a prefix, then terminate. *)
Lemma copy_terminate m dest src s n :
  cstr m src s -> (n <= length s)%nat -> (dest + n < length m)%nat ->
  (dest <= src \/ src + n <= dest)%nat ->
  ('(m, _) ← memcpy m dest src n; store m (dest + n)%nat 0) =
    Some (write m dest (take n s ++ [0])).
Proof.
  intros Hs Hn Hd Ho. rewrite (memcpy_prefix _ _ _ s) by (done || lia). simpl.
  rewrite <- (write_app_store m dest (take n s) 0) by (rewrite length_take; lia).
  f_equal. rewrite length_take. lia.
Qed.

Lemma take_no_nul n (s : list Z) :
  Forall (fun c => c <> 0) s -> Forall (fun c => c <> 0) (take n s).
Proof. apply Forall_take. Qed.

(** [strlcpy] with a non-zero buffer size always leaves a NUL-terminated
    string in the buffer: the longest prefix of the source that fits in
    [size - 1] bytes. It writes no byte past the terminator (so at most [size]
    bytes), and returns the length of the source, which lets the caller detect
    truncation. *)
Lemma strlcpy_spec m dest src s size :
  cstr m src s -> (0 < size)%nat -> (dest + size <= length m)%nat ->
  (dest <= src \/ src + length s <= dest)%nat ->
  exists m', strlcpy m dest src size = Some (m', length s)
    /\ m' = write m dest (take (size - 1) s ++ [0])
    /\ cstr m' dest (take (size - 1) s).
Proof.
  intros Hs Hsz Hd Ho. eexists. split_and!; [| reflexivity |].
  - unfold strlcpy. rewrite (strlen_spec _ _ s Hs). simpl.
    rewrite (proj2 (Nat.eqb_neq size 0)) by lia.
    set (n := if (size <=? length s)%nat then (size - 1)%nat else length s).
    assert (n <= length s /\ n < size)%nat as [Hn1 Hn2]
      by (subst n; destruct (Nat.leb_spec size (length s)); lia).
    pose proof (copy_terminate m dest src s n Hs Hn1 ltac:(lia) ltac:(lia)) as Hc.
    destruct (memcpy m dest src n) as [[m1 ?] |]; simpl in *; [| done].
    rewrite Hc. simpl. do 4 f_equal. subst n.
    destruct (Nat.leb_spec size (length s)); [done |]. by rewrite !take_ge by lia.
  - apply cstr_write; [eauto using take_no_nul, cstr_no_nul | rewrite length_take; lia].
Qed.

Lemma strncpy_loop_pad m tmp src n :
  m !! src = Some 0 -> (tmp + n <= length m)%nat -> (src < tmp \/ tmp + n <= src)%nat ->
  strncpy_loop m tmp src n = Some (write m tmp (replicate n 0)).
Proof.
  revert m tmp. induction n as [| n IH]; intros m tmp Hz Hb Ho; [done |].
  simpl. unfold load. rewrite Hz. simpl. rewrite store_in by lia. simpl.
  rewrite IH.
  - by rewrite write_insert_lt by lia.
  - rewrite list_lookup_insert_ne by lia. done.
  - rewrite length_insert. lia.
  - lia.
Qed.

Lemma strncpy_loop_spec m tmp src s n :
  cstr m src s -> (tmp + n <= length m)%nat ->
  (tmp + n <= src \/ src + length s < tmp)%nat ->
  strncpy_loop m tmp src n = Some (write m tmp (take n (s ++ replicate n 0))).
Proof.
  revert m tmp src n. induction s as [| c s IH]; intros m tmp src n Hs Hb Ho; simpl in Hs.
  - simpl in *. rewrite take_replicate, Nat.min_id. apply strncpy_loop_pad; (done || lia).
  - destruct n as [| n]; [done |]. destruct Hs as (H & Hc & Hs). simpl in *.
    unfold load. rewrite H. simpl. rewrite store_in by lia. simpl.
    rewrite (proj2 (Z.eqb_neq c 0) Hc), IH.
    + rewrite write_insert_lt, <- write_cons by lia. do 3 f_equal.
      change (0 :: replicate n 0) with (replicate (S n) 0).
      rewrite replicate_S_end, app_assoc. symmetry. apply take_app_le.
      rewrite length_app, length_replicate. lia.
    + eapply cstr_frame; [| done]. intros i Hi. apply list_lookup_insert_ne. lia.
    + rewrite length_insert. lia.
    + lia.
Qed.

(** [strncpy] writes exactly [count] bytes: the source cut to [count] bytes
    and padded with NULs, so the result is unterminated exactly when the source
    has [count] bytes or more, as its comment warns. *)
Theorem strncpy_spec m dest src s count :
  cstr m src s -> (dest + count <= length m)%nat ->
  (dest + count <= src \/ src + length s < dest)%nat ->
  exists m', strncpy m dest src count = Some (m', dest)
    /\ m' = write m dest (take count (s ++ replicate count 0))
    /\ (0 ∈ block m' dest count <-> (length s < count)%nat).
Proof.
  intros Hs Hb Ho. unfold strncpy. rewrite (strncpy_loop_spec _ _ _ s) by done.
  eexists. split_and!; [reflexivity | reflexivity |].
  assert (length (take count (s ++ replicate count 0)) = count) as Hl
    by (rewrite length_take, length_app, length_replicate; lia).
  assert (block (write m dest (take count (s ++ replicate count 0))) dest count =
          take count (s ++ replicate count 0)) as ->
    by (rewrite <- Hl at 3; apply block_write_same; lia).
  pose proof (cstr_no_nul _ _ _ Hs) as Hn. rewrite Forall_forall in Hn. split.
  - intros Hin. destruct (decide (length s < count)%nat); [done | exfalso].
    rewrite take_app_le in Hin by lia. apply (Hn 0); [| done].
    eapply subseteq_take; done.
  - intros Hlt. apply list_elem_of_lookup. exists (length s).
    rewrite lookup_take_lt, lookup_app_r, Nat.sub_diag by lia.
    apply lookup_replicate_2. lia.
Qed.

Lemma strncpy_spec_witness :
  exists m', strncpy [65; 66; 0; 9; 9; 9; 9] 3 0 4 = Some (m', 3%nat)
    /\ m' = [65; 66; 0; 65; 66; 0; 0] /\ (0 ∈ block m' 3 4 <-> (2 < 4)%nat).
Proof.
  apply (strncpy_spec [65; 66; 0; 9; 9; 9; 9] 3 0 [65; 66] 4); simpl; try lia.
  repeat split; (reflexivity || lia).
Defined.

Lemma strncat_loop_spec m dest src s count :
  cstr m src s -> (0 < count)%nat -> (dest + length (take count s) < length m)%nat ->
  (dest + count < src \/ src + length s < dest)%nat ->
  strncat_loop m dest src count = Some (write m dest (take count s ++ [0])).
Proof.
  revert m dest src count. induction s as [| c s IH]; intros m dest src count Hs Hc Hb Ho;
    destruct count as [| count]; try lia; simpl in *; unfold load.
  - rewrite Hs. simpl. by rewrite store_in by lia.
  - destruct Hs as (H & Hn & Hs). rewrite H. simpl. rewrite store_in by lia. simpl.
    rewrite (proj2 (Z.eqb_neq c 0) Hn). destruct (Nat.eqb_spec count 0) as [-> | Hne].
    + simpl in *. rewrite store_in by (rewrite length_insert; lia). f_equal.
      apply list_insert_insert_ne. lia.
    + rewrite IH by
        (lia || (rewrite ?length_insert; lia) ||
         (eapply cstr_frame; [| done]; intros; apply list_lookup_insert_ne; lia)).
      by rewrite write_insert_lt by lia.
Qed.

Lemma cstr_app_intro m p a b :
  block m p (length a) = a -> Forall (fun c => c <> 0) a ->
  cstr m (p + length a)%nat b -> cstr m p (a ++ b).
Proof.
  revert p. induction a as [| c a IH]; intros p Hb Hn Hs; simpl in *.
  - by rewrite Nat.add_0_r in Hs.
  - apply Forall_cons in Hn as [Hc Hn].
    destruct (m !! p) as [d |] eqn:Hp.
    + rewrite (block_S _ _ _ d Hp) in Hb. injection Hb as -> Hb. split_and!; [done | done |].
      apply IH; [done | done |]. by rewrite <- Nat.add_succ_comm in Hs.
    + apply lookup_ge_None in Hp. unfold block in Hb. rewrite drop_ge in Hb; done.
Qed.

(** [strncat] appends at most [count] bytes of the source and always
    terminates the result, changing nothing before the end of the old string. *)
Theorem strncat_spec m dest src d s count :
  cstr m dest d -> cstr m src s -> (0 < count)%nat ->
  (dest + length d + length (take count s) < length m)%nat ->
  (dest + length d + count < src \/ src + length s < dest + length d)%nat ->
  exists m', strncat m dest src count = Some (m', dest)
    /\ m' = write m (dest + length d)%nat (take count s ++ [0])
    /\ cstr m' dest (d ++ take count s).
Proof.
  intros Hd Hs Hc Hb Ho. unfold strncat. rewrite (proj2 (Nat.eqb_neq count 0)) by lia.
  rewrite (strlen_loop_spec _ _ d) by eauto with kernel. simpl.
  rewrite (strncat_loop_spec _ _ _ s) by (done || lia).
  eexists. split_and!; [reflexivity | reflexivity |].
  assert (length (take count s ++ [0]) = S (length (take count s)))
    by (rewrite length_app; simpl; lia).
  apply cstr_app_intro; [| by eapply cstr_no_nul |].
  - rewrite block_write_other by lia. by apply cstr_block.
  - apply cstr_write; [eauto using take_no_nul, cstr_no_nul | lia].
Qed.

Lemma strncat_spec_witness :
  exists m', strncat [1; 2; 3; 0; 8; 0; 9; 9; 9] 4 0 2 = Some (m', 4%nat)
    /\ m' = [1; 2; 3; 0; 8; 1; 2; 0; 9] /\ cstr m' 4 [8; 1; 2].
Proof.
  apply (strncat_spec [1; 2; 3; 0; 8; 0; 9; 9; 9] 4 0 [8] [1; 2; 3] 2); simpl; try lia;
    repeat split; (reflexivity || lia).
Defined.

(** ** Comparison *)

(** Lexicographic order of byte strings. *)
Fixpoint lex_compare (s t : list Z) : comparison :=
  match s, t with
  | [], [] => Eq
  | [], _ :: _ => Lt
  | _ :: _, [] => Gt
  | a :: s, b :: t => match a ?= b with Eq => lex_compare s t | o => o end
  end.

Lemma lex_compare_eq s t : lex_compare s t = Eq <-> s = t.
Proof.
  revert t. induction s as [| a s IH]; intros [| b t]; simpl; try (split; done).
  destruct (Z.compare_spec a b); [subst | |].
  - rewrite IH. split; congruence.
  - split; [done | intros [= -> ->]; lia].
  - split; [done | intros [= -> ->]; lia].
Qed.

(** What [strcmp] returns: the [signed char] difference at the first position
    where the two NUL-terminated strings differ. *)
Fixpoint diff8 (s t : list Z) : Z :=
  match s, t with
  | [], [] => 0
  | [], b :: _ => s8 (0 - b)
  | a :: _, [] => s8 (a - 0)
  | a :: s, b :: t => if a =? b then diff8 s t else s8 (a - b)
  end.

Lemma s8_zero a b : is_u8 a -> is_u8 b -> s8 (a - b) = 0 <-> a = b.
Proof. intros. split; intros; word_lia. Qed.

Lemma strcmp_loop_spec m p q s t fuel :
  cstr m p s -> cstr m q t -> Forall is_u8 s -> Forall is_u8 t -> (length s < fuel)%nat ->
  strcmp_loop fuel m p q = Some (diff8 s t).
Proof.
  revert p q t fuel. induction s as [| a s IH]; intros p q t [| fuel] Hs Ht Bs Bt Hf;
    simpl in *; try lia; unfold load; destruct t as [| b t]; simpl in *.
  - by rewrite Hs, Ht.
  - destruct Ht as (Ht & Hb & _). rewrite Hs, Ht. simpl. by rewrite orb_true_r.
  - destruct Hs as (Hs & Ha & _). rewrite Hs, Ht. simpl.
    apply Forall_cons in Bs as [Ba _].
    destruct (Z.eqb_spec (s8 (a - 0)) 0) as [E |]; [| done].
    destruct Ha. by apply (s8_zero a 0); [| unfold is_u8; lia |].
  - destruct Hs as (Hp & Ha & Hs), Ht as (Hq & Hb & Ht). rewrite Hp, Hq. simpl.
    apply Forall_cons in Bs as [Ba Bs], Bt as [Bb Bt].
    rewrite (proj2 (Z.eqb_neq a 0) Ha), orb_false_r.
    destruct (Z.eqb_spec a b) as [-> | Hne].
    + rewrite Z.sub_diag. simpl. apply IH; (done || lia).
    + destruct (Z.eqb_spec (s8 (a - b)) 0) as [E |]; [| done].
      destruct Hne. by apply s8_zero.
Qed.

Lemma strcmp_diff8 m p q s t :
  cstr m p s -> cstr m q t -> Forall is_u8 s -> Forall is_u8 t ->
  strcmp m p q = Some (diff8 s t).
Proof. intros. apply strcmp_loop_spec; eauto with kernel. Qed.

Lemma diff8_zero s t :
  Forall is_u8 s -> Forall is_u8 t ->
  Forall (fun c => c <> 0) s -> Forall (fun c => c <> 0) t -> diff8 s t = 0 <-> s = t.
Proof.
  revert t. induction s as [| a s IH]; intros [| b t] Bs Bt Ns Nt; simpl; [done | | |];
    rewrite ?Forall_cons in *; destruct_and?.
  - rewrite s8_zero by (done || (unfold is_u8; lia)). split; [lia | done].
  - rewrite s8_zero by (done || (unfold is_u8; lia)). split; [lia | done].
  - destruct (Z.eqb_spec a b) as [-> | Hne].
    + rewrite IH by done. split; congruence.
    + rewrite s8_zero by done. split; congruence.
Qed.

(** Strings of 7-bit characters. *)
Definition ascii_string (s : list Z) : Prop := Forall (fun c => 0 < c < 128) s.

Lemma diff8_ascii s t :
  ascii_string s -> ascii_string t -> (diff8 s t ?= 0) = lex_compare s t.
Proof.
  unfold ascii_string. revert t. induction s as [| a s IH]; intros [| b t] Hs Ht; simpl;
    rewrite ?Forall_cons in *; destruct_and?; [done | | |].
  - apply Z.compare_lt_iff. word_lia.
  - apply Z.compare_gt_iff. word_lia.
  - destruct (Z.compare_spec a b).
    + subst. rewrite Z.eqb_refl. by apply IH.
    + rewrite (proj2 (Z.eqb_neq a b)) by lia. apply Z.compare_lt_iff. word_lia.
    + rewrite (proj2 (Z.eqb_neq a b)) by lia. apply Z.compare_gt_iff. word_lia.
Qed.

Lemma ascii_u8 s : ascii_string s -> Forall is_u8 s.
Proof. intros H. eapply Forall_impl; [exact H |]. unfold is_u8. simpl. lia. Qed.

(** [strcmp] decides equality of any two byte strings: it returns, and the
    result is 0 exactly when the strings are equal; on 7-bit strings its sign is
    the lexicographic order. *)
Theorem strcmp_spec m p q s t :
  cstr m p s -> cstr m q t -> Forall is_u8 s -> Forall is_u8 t ->
  exists r, strcmp m p q = Some r /\ (r = 0 <-> s = t)
    /\ (ascii_string s -> ascii_string t -> (r ?= 0) = lex_compare s t).
Proof.
  intros Hs Ht Bs Bt. exists (diff8 s t). split_and!.
  - by apply strcmp_diff8.
  - apply diff8_zero; eauto using cstr_no_nul.
  - apply diff8_ascii.
Qed.

Lemma strcmp_spec_witness :
  exists r, strcmp [97; 98; 0; 97; 99; 0] 0 3 = Some r /\ (r = 0 <-> [97; 98] = [97; 99])
    /\ (ascii_string [97; 98] -> ascii_string [97; 99] ->
        (r ?= 0) = lex_compare [97; 98] [97; 99]).
Proof.
  apply (strcmp_spec [97; 98; 0; 97; 99; 0] 0 3 [97; 98] [97; 99]);
    try (repeat split; (reflexivity || lia)); repeat constructor; unfold is_u8; lia.
Defined.

(** Beyond 7-bit characters the sign is not an order: [strcmp] ranks "\xc0"
    below the empty string, because the difference 0xc0 - 0 is kept in a
    [signed char]. *)
Theorem strcmp_sign_high_byte :
  strcmp [192; 0; 0] 0 2 = Some (-64) /\ lex_compare [192] [] = Gt.
Proof. split; reflexivity. Qed.

Lemma memcmp_loop_spec m p q n :
  (p + n <= length m)%nat -> (q + n <= length m)%nat ->
  exists r, memcmp_loop m p q n 0 = Some r /\ (r = 0 <-> block m p n = block m q n).
Proof.
  revert p q. induction n as [| n IH]; intros p q Hp Hq; [by exists 0 |].
  destruct (lookup_lt_is_Some_2 m p) as [a Ha]; [lia |].
  destruct (lookup_lt_is_Some_2 m q) as [b Hb]; [lia |].
  rewrite (block_S _ _ _ a), (block_S _ _ _ b) by done. simpl. unfold load.
  rewrite Ha, Hb. simpl. destruct (Z.eqb_spec (a - b) 0) as [E | E]; simpl.
  - destruct (IH (S p) (S q)) as (r & Hr & Heq); [lia | lia |].
    exists r. rewrite E. split; [done |]. rewrite Heq. split; [| congruence].
    intros ->. f_equal. lia.
  - exists (a - b). split; [done |]. split; [done |]. intros [= -> _]. lia.
Qed.

(** ** Substring search *)

Definition occurs (needle hay : list Z) (i : nat) : Prop :=
  take (length needle) (drop i hay) = needle.

Lemma cstr_block_at m p s i n :
  cstr m p s -> (i + n <= length s)%nat -> block m (p + i) n = take n (drop i s).
Proof.
  intros Hs Hb. rewrite <- (cstr_block m p s Hs) at 1. unfold block.
  rewrite skipn_firstn_comm, drop_drop, take_take. f_equal. lia.
Qed.

Lemma strstr_loop_spec m p1 p2 hay needle i iters :
  cstr m p1 hay -> cstr m p2 needle -> (i + iters + length needle = S (length hay))%nat ->
  exists r, strstr_loop m (p1 + i) p2 (length needle) iters = Some r /\
    match r with
    | Some q => exists k, (i <= k)%nat /\ q = (p1 + k)%nat /\ occurs needle hay k /\
                  forall j, (i <= j < k)%nat -> ~ occurs needle hay j
    | None => forall j, (i <= j < i + iters)%nat -> ~ occurs needle hay j
    end.
Proof.
  intros Hh Hn. revert i. induction iters as [| iters IH]; intros i Hl.
  { exists None. split; [done |]. intros; lia. }
  pose proof (cstr_bound _ _ _ Hh). pose proof (cstr_bound _ _ _ Hn).
  destruct (memcmp_loop_spec m (p1 + i) p2 (length needle)) as (r & Hr & Heq); [lia | lia |].
  rewrite (cstr_block_at _ _ hay), (cstr_block _ _ needle) in Heq by (done || lia).
  simpl. unfold memcmp. rewrite Hr. simpl. destruct (Z.eqb_spec r 0) as [E | E].
  - exists (Some (p1 + i)%nat). split; [done |]. exists i.
    split_and!; [lia | done | by apply Heq | intros; lia].
  - destruct (IH (S i)) as (r' & Hr' & Hspec); [lia |]. rewrite <- plus_n_Sm in Hr'.
    exists r'. split; [done |]. assert (~ occurs needle hay i) as Hno
      by (intros Ho; by apply E, Heq).
    destruct r' as [q |].
    + destruct Hspec as (k & Hk & -> & Ho & Hmin). exists k. split_and!; [lia | done | done |].
      intros j Hj. destruct (decide (j = i)) as [-> |]; [done |]. apply Hmin. lia.
    + intros j Hj. destruct (decide (j = i)) as [-> |]; [done |]. apply Hspec. lia.
Qed.

(** [strstr] returns a pointer to the first occurrence of the second string
    in the first one, and [NULL] exactly when there is none. *)
Theorem strstr_spec m p1 p2 hay needle :
  cstr m p1 hay -> cstr m p2 needle ->
  exists r, strstr m p1 p2 = Some r /\
    match r with
    | Some q => exists k, q = (p1 + k)%nat /\ occurs needle hay k /\
                  forall j, (j < k)%nat -> ~ occurs needle hay j
    | None => forall j, ~ occurs needle hay j
    end.
Proof.
  intros Hh Hn. unfold strstr. rewrite (strlen_spec _ _ _ Hn), (strlen_spec _ _ _ Hh). simpl.
  destruct (Nat.eqb_spec (length needle) 0) as [E | E].
  { exists (Some p1). split; [done |]. exists 0%nat. apply nil_length_inv in E as ->.
    split_and!; [lia | done | intros; lia]. }
  assert (forall j, (S (length hay) - length needle <= j)%nat -> ~ occurs needle hay j) as Hout.
  { intros j Hj Ho. apply (f_equal length) in Ho. rewrite length_take, length_drop in Ho. lia. }
  destruct (decide (length needle <= S (length hay))%nat).
  - destruct (strstr_loop_spec m p1 p2 hay needle 0 (S (length hay) - length needle))
      as (r & Hr & Hspec); [done | done | lia |].
    rewrite Nat.add_0_r in Hr. exists r. split; [done |]. destruct r as [q |].
    + destruct Hspec as (k & _ & -> & Ho & Hmin). exists k. split_and!; [done | done |].
      intros. apply Hmin. lia.
    + intros j. destruct (decide (j < S (length hay) - length needle)%nat).
      * apply Hspec. lia.
      * apply Hout. lia.
  - exists None. replace (S (length hay) - length needle)%nat with 0%nat in * by lia.
    split; [done |]. intros j. apply Hout. lia.
Qed.

Lemma strstr_spec_witness :
  exists r, strstr [1; 2; 1; 3; 0; 1; 3; 0] 0 5 = Some r /\
    match r with
    | Some q => exists k, q = (0 + k)%nat /\ occurs [1; 3] [1; 2; 1; 3] k /\
                  forall j, (j < k)%nat -> ~ occurs [1; 3] [1; 2; 1; 3] j
    | None => forall j, ~ occurs [1; 3] [1; 2; 1; 3] j
    end.
Proof.
  apply (strstr_spec [1; 2; 1; 3; 0; 1; 3; 0] 0 5 [1; 2; 1; 3] [1; 3]);
    repeat split; (reflexivity || lia).
Defined.

(** ** Tokenizing with [strsep] *)

Lemma find_char_spec m a d c fuel :
  cstr m a d -> (length d < fuel)%nat -> find_char fuel m a c = Some (bool_decide (c ∈ d)).
Proof.
  revert a fuel. induction d as [| x d IH]; intros a [| fuel] Hd Hf; simpl in *; try lia;
    unfold load.
  - by rewrite Hd.
  - destruct Hd as (H & Hx & Hd). rewrite H. simpl.
    rewrite (proj2 (Z.eqb_neq x 0) Hx). destruct (Z.eqb_spec c x) as [-> | Hne].
    + by rewrite bool_decide_true by left.
    + rewrite IH by (done || lia). f_equal. apply bool_decide_ext. rewrite elem_of_cons. tauto.
Qed.

(** The fields of a string: split at every delimiter, empty fields included. *)
Fixpoint fields (d s : list Z) : list (list Z) :=
  match s with
  | [] => [[]]
  | c :: s =>
      if bool_decide (c ∈ d) then [] :: fields d s
      else match fields d s with
           | f :: fs => (c :: f) :: fs
           | [] => [[c]]
           end
  end.

Lemma fields_none d s : Forall (fun c => c ∉ d) s -> fields d s = [s].
Proof.
  induction 1 as [| c s Hc Hs IH]; [done |]. simpl. rewrite bool_decide_false by done.
  by rewrite IH.
Qed.

Lemma fields_split d a c b :
  Forall (fun c => c ∉ d) a -> c ∈ d -> fields d (a ++ c :: b) = a :: fields d b.
Proof.
  intros Ha Hc. induction Ha as [| x a Hx Ha IH]; simpl.
  - by rewrite bool_decide_true.
  - rewrite bool_decide_false by done. by rewrite IH.
Qed.

Lemma strpbrk_loop_spec m p ct s d fuel :
  cstr m p s -> cstr m ct d -> (length s < fuel)%nat ->
  (Forall (fun c => c ∉ d) s /\ strpbrk_loop fuel m p ct = Some None) \/
  (exists a c b, s = a ++ c :: b /\ Forall (fun c => c ∉ d) a /\ c ∈ d /\
     strpbrk_loop fuel m p ct = Some (Some (p + length a)%nat)).
Proof.
  intros Hs Hd. revert p fuel Hs. induction s as [| x s IH]; intros p [| fuel] Hs Hf;
    simpl in *; try lia; unfold load.
  - left. split; [done | by rewrite Hs].
  - destruct Hs as (H & Hx & Hs). rewrite H. simpl. rewrite (proj2 (Z.eqb_neq x 0) Hx).
    rewrite (find_char_spec _ _ d) by eauto with kernel. simpl.
    case_bool_decide as Hin.
    + right. exists [], x, s. simpl. rewrite Nat.add_0_r. auto.
    + destruct (IH (S p) fuel Hs) as [[Hf' Hr] | (a & c & b & -> & Ha & Hc & Hr)]; [lia | |].
      * left. auto.
      * right. exists (x :: a), c, b. rewrite Hr. simpl. split_and!; auto.
        do 2 f_equal. lia.
Qed.

(** The loop its callers write: [while ((tok = strsep(&s, ct)) != NULL) ...],
    collecting the tokens; the fuel bounds the number of calls. *)
Fixpoint strsep_all (fuel : nat) (m : mem) (s : option ptr) (ct : ptr) : option (mem * list ptr) :=
  match fuel with
  | O => None
  | S fuel =>
      '(m, s, tok) ← strsep m s ct;
      match tok with
      | None => Some (m, [])
      | Some t => '(m, ts) ← strsep_all fuel m s ct; Some (m, t :: ts)
      end
  end.

Definition apart (p : ptr) (s : list Z) (q : ptr) (t : list Z) : Prop :=
  (p + length s < q \/ q + length t < p)%nat.

Lemma strsep_step m p ct s d :
  cstr m p s -> cstr m ct d -> apart p s ct d ->
  (fields d s = [s] /\ strsep m (Some p) ct = Some (m, None, Some p)) \/
  (exists a c b m', s = a ++ c :: b /\ fields d s = a :: fields d b /\
     strsep m (Some p) ct = Some (m', Some (S (p + length a)), Some p) /\
     cstr m' p a /\ cstr m' (S (p + length a)) b /\ cstr m' ct d /\
     forall i, i <> (p + length a)%nat -> m' !! i = m !! i).
Proof.
  intros Hs Hd Ha. unfold strsep, strpbrk.
  destruct (strpbrk_loop_spec m p ct s d (scan m))
    as [[Hf ->] | (a & c & b & -> & Hf & Hc & ->)]; eauto with kernel.
  - left. split; [by apply fields_none | done].
  - right. destruct (cstr_app_l _ _ _ _ Hs) as [Hlt Hl].
    exists a, c, b, (<[(p + length a)%nat := 0]> m). simpl. rewrite store_in by done.
    assert (forall i, i <> (p + length a)%nat -> <[(p + length a)%nat := 0]> m !! i = m !! i)
      as Hother by (intros; by apply list_lookup_insert_ne).
    unfold apart in Ha. rewrite length_app in Ha. simpl in Ha.
    split_and!; try done; [by apply fields_split | |].
    + eapply cstr_frame; [intros i Hi; apply Hother; lia |].
      by destruct (cstr_app_r _ _ _ _ Hs) as (_ & _ & ?).
    + eapply cstr_frame; [| exact Hd]. intros i Hi. apply Hother. lia.
Qed.

Lemma strsep_all_fields fuel m p ct s d :
  cstr m p s -> cstr m ct d -> apart p s ct d -> (length s + 2 <= fuel)%nat ->
  exists m' ts, strsep_all fuel m (Some p) ct = Some (m', ts) /\
    Forall2 (cstr m') ts (fields d s) /\
    forall i, (i < p \/ p + length s < i)%nat -> m' !! i = m !! i.
Proof.
  revert m p s. induction fuel as [| fuel IH]; intros m p s Hs Hd Ha Hf; [lia |].
  cbn [strsep_all]. destruct (strsep_step m p ct s d Hs Hd Ha)
    as [[-> ->] | (a & c & b & m1 & -> & -> & -> & H1 & H2 & H3 & Hother)]; simpl.
  - exists m, [p]. destruct fuel as [| fuel]; [lia |]. simpl.
    split_and!; [done | by repeat constructor | done].
  - unfold apart in Ha. rewrite length_app in Ha, Hf. simpl in Ha, Hf.
    destruct (IH m1 (S (p + length a)) b) as (m2 & ts & Hr & Hts & Hfr);
      [done | done | unfold apart; lia | lia |].
    rewrite Hr. simpl. exists m2, (p :: ts). split_and!; [done | |].
    + constructor; [| done]. eapply cstr_frame; [| exact H1]. intros. apply Hfr. lia.
    + intros i Hi. rewrite length_app in Hi. simpl in Hi.
      rewrite Hfr by lia. apply Hother. lia.
Qed.

(** Calling [strsep] until it returns [NULL] splits the string at every
    delimiter: it terminates, the tokens returned are the NUL-terminated fields of
    the string in order, empty fields included, and only the string itself has
    been written to. *)
Lemma strsep_tokens m p ct s d :
  cstr m p s -> cstr m ct d -> apart p s ct d ->
  exists m' ts, strsep_all (length s + 2) m (Some p) ct = Some (m', ts) /\
    Forall2 (cstr m') ts (fields d s) /\
    forall i, (i < p \/ p + length s < i)%nat -> m' !! i = m !! i.
Proof. intros. by apply strsep_all_fields. Qed.
