(* ===== verification/Vsprintf.v ===== *)
(** * Formatted output and number parsing: lib/vsprintf.c

    [vsnprintf] and what it is built from, and the [simple_strto*] functions. The
    buffer and the strings printed with %s lie in the byte memory; pointers into the
    buffer are 32-bit words, so that [end] may wrap around as in the source, and a
    store to an unmapped address faults ([None]). The format is a constant string,
    given as its bytes without the NUL. The variable arguments are a list of 32-bit
    words and 64-bit words; fetching one of the wrong width faults. [int] arithmetic
    on widths wraps around at 32 bits. *)

From stdpp Require Import strings.
From S2P Require Import Prelude Ctype KString.

#[local] Open Scope kernel_scope.

Definition bytes_of (s : string) : list Z :=
  Z.of_N <$> (Ascii.N_of_ascii <$> String.list_ascii_of_string s).

(** ** Parsing numbers *)

Definition toupper (c : Z) : Z := __toupper c.

(** The loop of [simple_strtoul] over digits below [base], at [cp]. [wrap] is the
    reduction to the width of [result]. *)
Fixpoint strto_loop (wrap : Z -> Z) (fuel : nat) (m : mem) (cp : ptr) (base result : Z) : option (Z * ptr) :=
  match fuel with
  | O => None
  | S fuel =>
      c ← load m cp;
      if isxdigit c then
        let value := if isdigit c then c - 48 else toupper c - 65 + 10 in
        if value <? base then strto_loop wrap fuel m (S cp) base (wrap (result * base + value))
        else Some (result, cp)
      else Some (result, cp)
  end.

(** The prefix: the base and where the digits start. *)
Definition strto_prefix (m : mem) (cp : ptr) (base : Z) : option (Z * ptr) :=
  if base =? 0 then
    c ← load m cp;
    if c =? 48 then
      c1 ← load m (S cp);
      if toupper c1 =? 88 then
        c2 ← load m (S (S cp));
        Some (if isxdigit c2 then (16, S (S cp)) else (8, S cp))
      else Some (8, S cp)
    else Some (10, cp)
  else if base =? 16 then
    c ← load m cp;
    if c =? 48 then
      c1 ← load m (S cp);
      Some (if toupper c1 =? 88 then (16, S (S cp)) else (16, cp))
    else Some (16, cp)
  else Some (base, cp).

Definition simple_strtoul (m : mem) (cp : ptr) (base : Z) : option (Z * ptr) :=
  '(base, cp) ← strto_prefix m cp base; strto_loop u32 (scan m) m cp base 0.

Definition simple_strtol (m : mem) (cp : ptr) (base : Z) : option (Z * ptr) :=
  c ← load m cp;
  if c =? 45 then '(v, endp) ← simple_strtoul m (S cp) base; Some (s32 (- v), endp)
  else '(v, endp) ← simple_strtoul m cp base; Some (s32 v, endp).

Definition simple_strtoull (m : mem) (cp : ptr) (base : Z) : option (Z * ptr) :=
  '(base, cp) ← strto_prefix m cp base; strto_loop u64 (scan m) m cp base 0.

Definition s64 (z : Z) : Z :=
  if u64 z <? 9223372036854775808 then u64 z else u64 z - 18446744073709551616.

Definition simple_strtoll (m : mem) (cp : ptr) (base : Z) : option (Z * ptr) :=
  c ← load m cp;
  if c =? 45 then '(v, endp) ← simple_strtoull m (S cp) base; Some (s64 (- v), endp)
  else '(v, endp) ← simple_strtoull m cp base; Some (s64 v, endp).

(** [skip_atoi] on the rest of the format. *)
Fixpoint skip_atoi (s : list Z) (i : Z) : Z * list Z :=
  match s with
  | c :: s' => if isdigit c then skip_atoi s' (s32 (i * 10 + c - 48)) else (i, s)
  | [] => (i, [])
  end.

(** ** Writing to the buffer *)

(** The memory and the pointer [str] (in [number] called [buf]). *)
Record out := mk_out { om : mem; str : Z }.

(** [if (str <= end) *str = c; ++str;] *)
Definition put (end_ : Z) (c : Z) (o : out) : option out :=
  if str o <=? end_ then m ← store (om o) (Z.to_nat (str o)) c; Some (mk_out m (str o ⊕ 1))
  else Some (mk_out (om o) (str o ⊕ 1)).

(** [n] times the same character. *)
Fixpoint pad (n : nat) (end_ : Z) (c : Z) (o : out) : option out :=
  match n with
  | O => Some o
  | S n => o ← put end_ c o; pad n end_ c o
  end.

(** The characters of a constant array. *)
Fixpoint puts (end_ : Z) (cs : list Z) (o : out) : option out :=
  match cs with
  | [] => Some o
  | c :: cs => o ← put end_ c o; puts end_ cs o
  end.

(** [for (i = 0; i < len; ++i) { put *s; ++s; }], reading the memory as it is. *)
Fixpoint put_string (n : nat) (end_ : Z) (s : ptr) (o : out) : option out :=
  match n with
  | O => Some o
  | S n => c ← load (om o) s; o ← put end_ c o; put_string n end_ (S s) o
  end.

(** ** Numbers *)

Definition ZEROPAD := 1.
Definition SIGN := 2.
Definition PLUS := 4.
Definition SPACE := 8.
Definition LEFT := 16.
Definition SPECIAL := 32.
Definition LARGE := 64.

Definition flag (type f : Z) : bool := negb (Z.land type f =? 0).

Definition small_digits : list Z := bytes_of "0123456789abcdefghijklmnopqrstuvwxyz".
Definition large_digits : list Z := bytes_of "0123456789ABCDEFGHIJKLMNOPQRSTUVWXYZ".

(** The digits, least significant first: [tmp[i]] onwards. [tmp] has 66 entries. *)
Fixpoint digits_loop (fuel : nat) (digits : list Z) (num base : Z) (i : Z) : option (list Z) :=
  match fuel with
  | O => None
  | S fuel =>
      if num =? 0 then Some []
      else if 66 <=? i then None
      else
        d ← digits !! Z.to_nat (num mod base);
        ds ← digits_loop fuel digits (num / base) base (i + 1);
        Some (d :: ds)
  end.

(** The value of [size] after [while (size-- > 0)], which runs [Z.to_nat size] times. *)
Definition after (size : Z) : Z := s32 (Z.min size 0 - 1).

Definition number (end_ : Z) (num base size precision type : Z) (o : out) : option out :=
  let digits := if flag type LARGE then large_digits else small_digits in
  let type := if flag type LEFT then Z.land type (Z.lnot ZEROPAD) else type in
  if (base <? 2) || (36 <? base) then Some (mk_out (om o) 0)
  else
    let c := if flag type ZEROPAD then 48 else 32 in
    let '(sign, num, size) :=
      if flag type SIGN then
        if s64 num <? 0 then (45, u64 (- s64 num), s32 (size - 1))
        else if flag type PLUS then (43, num, s32 (size - 1))
        else if flag type SPACE then (32, num, s32 (size - 1))
        else (0, num, size)
      else (0, num, size) in
    let size :=
      if flag type SPECIAL then
        if base =? 16 then s32 (size - 2) else if base =? 8 then s32 (size - 1) else size
      else size in
    tmp ← (if num =? 0 then Some [48] else digits_loop 67 digits num base 0);
    let i := Z.of_nat (length tmp) in
    let precision := if precision <? i then i else precision in
    let size := s32 (size - precision) in
    '(o, size) ← (if negb (flag type (ZEROPAD + LEFT))
                  then o ← pad (Z.to_nat size) end_ 32 o; Some (o, after size) else Some (o, size));
    o ← (if negb (sign =? 0) then put end_ sign o else Some o);
    o ← (if flag type SPECIAL then
           if base =? 8 then put end_ 48 o
           else if base =? 16 then
             o ← put end_ 48 o; x ← digits !! 33%nat; put end_ x o
           else Some o
         else Some o);
    '(o, size) ← (if negb (flag type LEFT)
                  then o ← pad (Z.to_nat size) end_ c o; Some (o, after size) else Some (o, size));
    o ← pad (Z.to_nat (precision - i)) end_ 48 o;
    o ← puts end_ (rev tmp) o;
    pad (Z.to_nat size) end_ 32 o.

(** ** Conversion specifications *)

Inductive va := AWord (w : Z) | AQuad (q : Z).

Definition va_word (args : list va) : option (Z * list va) :=
  match args with AWord w :: args => Some (u32 w, args) | _ => None end.
Definition va_quad (args : list va) : option (Z * list va) :=
  match args with AQuad q :: args => Some (u64 q, args) | _ => None end.

(** [*fmt], which is 0 at the end. *)
Definition peek (fmt : list Z) : Z := match fmt with c :: _ => c | [] => 0 end.

(** The flags, with the [repeat:] loop. *)
Fixpoint parse_flags (fmt : list Z) (flags : Z) : Z * list Z :=
  match fmt with
  | c :: rest =>
      if c =? 45 then parse_flags rest (Z.lor flags LEFT)
      else if c =? 43 then parse_flags rest (Z.lor flags PLUS)
      else if c =? 32 then parse_flags rest (Z.lor flags SPACE)
      else if c =? 35 then parse_flags rest (Z.lor flags SPECIAL)
      else if c =? 48 then parse_flags rest (Z.lor flags ZEROPAD)
      else (flags, fmt)
  | [] => (flags, fmt)
  end.

Record spec := mk_spec { flags : Z; field_width : Z; precision : Z; qualifier : Z }.

Definition parse_width (fmt : list Z) (fl : Z) (args : list va) : option (Z * Z * list Z * list va) :=
  if isdigit (peek fmt) then let '(w, fmt) := skip_atoi fmt 0 in Some (w, fl, fmt, args)
  else if peek fmt =? 42 then
    '(w, args) ← va_word args;
    let w := s32 w in
    Some (if w <? 0 then (s32 (- w), Z.lor fl LEFT, tail fmt, args) else (w, fl, tail fmt, args))
  else Some (-1, fl, fmt, args).

Definition parse_precision (fmt : list Z) (args : list va) : option (Z * list Z * list va) :=
  if peek fmt =? 46 then
    let fmt := tail fmt in
    '(p, fmt, args) ←
      (if isdigit (peek fmt) then let '(p, fmt) := skip_atoi fmt 0 in Some (p, fmt, args)
       else if peek fmt =? 42 then '(p, args) ← va_word args; Some (s32 p, tail fmt, args)
       else Some (-1, fmt, args));
    Some (if p <? 0 then (0, fmt, args) else (p, fmt, args))
  else Some (-1, fmt, args).

(** ['h'] 104, ['l'] 108, ['L'] 76, ['Z'] 90, ['z'] 122. *)
Definition parse_qualifier (fmt : list Z) : Z * list Z :=
  let c := peek fmt in
  if (c =? 104) || (c =? 108) || (c =? 76) || (c =? 90) || (c =? 122) then
    let fmt := tail fmt in
    if (c =? 108) && (peek fmt =? 108) then (76, tail fmt) else (c, fmt)
  else (-1, fmt).

(** What follows a '%': the specification, the format from the conversion character
    on, and the arguments left. *)
Definition parse_spec (fmt : list Z) (args : list va) : option (spec * list Z * list va) :=
  let '(fl, fmt) := parse_flags fmt 0 in
  '(w, fl, fmt, args) ← parse_width fmt fl args;
  '(p, fmt, args) ← parse_precision fmt args;
  let '(q, fmt) := parse_qualifier fmt in
  Some (mk_spec fl w p q, fmt, args).

(** The argument of an integer conversion. *)
Definition fetch_num (qualifier : Z) (sgn : bool) (args : list va) : option (Z * list va) :=
  if qualifier =? 76 then va_quad args
  else
    '(w, args) ← va_word args;
    Some
      (if qualifier =? 108 then (if sgn then u64 (s32 w) else w, args)
       else if (qualifier =? 90) || (qualifier =? 122) then (w, args)
       else if qualifier =? 104 then
         let h := w mod 65536 in
         (if sgn then u64 (if h <? 32768 then h else h - 65536) else h, args)
       else (if sgn then u64 (s32 w) else w, args)).

(** The base and the flags of the integer conversion [c]: ['o'] 111, ['X'] 88, ['x']
    120, ['d'] 100, ['i'] 105, ['u'] 117. *)
Definition int_conv (c fl : Z) : option (Z * Z) :=
  if c =? 111 then Some (8, fl)
  else if c =? 88 then Some (16, Z.lor fl LARGE)
  else if c =? 120 then Some (16, fl)
  else if (c =? 100) || (c =? 105) then Some (10, Z.lor fl SIGN)
  else if c =? 117 then Some (10, fl)
  else None.

Definition NULL_text : list Z := bytes_of "<NULL>".

Definition PAGE_SIZE_ := 4096.

(** [%c]; ['c'] pads with [while (--field_width > 0)]. *)
Definition conv_c (end_ : Z) (s : spec) (args : list va) (o : out) : option (list va * out) :=
  let w := s32 (field_width s - 1) in
  '(o, w') ← (if negb (flag (flags s) LEFT)
             then o ← pad (Z.to_nat w) end_ 32 o; Some (o, s32 (Z.min w 0 - 1)) else Some (o, w));
  '(c, args) ← va_word args;
  o ← put end_ (u8 c) o;
  o ← pad (Z.to_nat w') end_ 32 o;
  Some (args, o).

(** [%s]; pads with [while (len < field_width--)]. [strnlen] with the count -1 runs to
    the NUL: it cannot run past the end of the memory. *)
Definition conv_s (end_ : Z) (s : spec) (args : list va) (o : out) : option (list va * out) :=
  '(p, args) ← va_word args;
  len ← (if p <? PAGE_SIZE_
         then Some (Nat.min (length NULL_text) (Z.to_nat (u32 (precision s))))
         else strnlen (om o) (Z.to_nat p) (Z.to_nat (Z.min (u32 (precision s)) (Z.of_nat (scan (om o))))));
  let n := Z.of_nat len in
  let w := field_width s in
  '(o, w) ← (if negb (flag (flags s) LEFT)
             then o ← pad (Z.to_nat (w - n)) end_ 32 o; Some (o, s32 (Z.min w n - 1)) else Some (o, w));
  o ← (if p <? PAGE_SIZE_ then puts end_ (take len NULL_text) o else put_string len end_ (Z.to_nat p) o);
  o ← pad (Z.to_nat (w - n)) end_ 32 o;
  Some (args, o).

Definition conv_p (end_ : Z) (s : spec) (args : list va) (o : out) : option (list va * out) :=
  '(p, args) ← va_word args;
  o ← (if field_width s =? -1
       then number end_ p 16 8 (precision s) (Z.lor (flags s) ZEROPAD) o
       else number end_ p 16 (field_width s) (precision s) (flags s) o);
  Some (args, o).

(** [%n] stores a 32-bit word, least significant byte first. *)
Fixpoint store_le (n : nat) (m : mem) (p : ptr) (v : Z) : option mem :=
  match n with
  | O => Some m
  | S n => m ← store m p (u8 v); store_le n m (S p) (v / 256)
  end.

Definition conv_n (buf : Z) (args : list va) (o : out) : option (list va * out) :=
  '(ip, args) ← va_word args;
  m ← store_le 4 (om o) (Z.to_nat ip) (u32 (str o - buf));
  Some (args, mk_out m (str o)).

(** The switch on the conversion character: the rest of the format, the arguments and
    the output. ['c'] 99, ['s'] 115, ['p'] 112, ['n'] 110, ['%'] 37. At the end of
    the format a '%' is written and [fmt] steps back onto it. *)
Definition convert (buf end_ : Z) (s : spec) (fmt : list Z) (args : list va) (o : out)
  : option (list Z * list va * out) :=
  match fmt with
  | [] => o ← put end_ 37 o; Some ([], args, o)
  | c :: rest =>
      if c =? 99 then '(args, o) ← conv_c end_ s args o; Some (rest, args, o)
      else if c =? 115 then '(args, o) ← conv_s end_ s args o; Some (rest, args, o)
      else if c =? 112 then '(args, o) ← conv_p end_ s args o; Some (rest, args, o)
      else if c =? 110 then '(args, o) ← conv_n buf args o; Some (rest, args, o)
      else if c =? 37 then o ← put end_ 37 o; Some (rest, args, o)
      else
        match int_conv c (flags s) with
        | Some (base, fl) =>
            '(num, args) ← fetch_num (qualifier s) (flag fl SIGN) args;
            o ← number end_ num base (field_width s) (precision s) fl o;
            Some (rest, args, o)
        | None => o ← put end_ 37 o; o ← put end_ c o; Some (rest, args, o)
        end
  end.

(** The [for] over the format. Every iteration uses up at least one character. *)
Fixpoint format_loop (fuel : nat) (buf end_ : Z) (fmt : list Z) (args : list va) (o : out) : option out :=
  match fuel with
  | O => None
  | S fuel =>
      match fmt with
      | [] => Some o
      | c :: rest =>
          if negb (c =? 37) then o ← put end_ c o; format_loop fuel buf end_ rest args o
          else
            '(s, fmt, args) ← parse_spec rest args;
            '(fmt, args, o) ← convert buf end_ s fmt args o;
            format_loop fuel buf end_ fmt args o
      end
  end.

Definition vsnprintf (m : mem) (buf size : Z) (fmt : list Z) (args : list va) : option (mem * Z) :=
  if s32 size <? 0 then Some (m, 0)
  else
    let end_ := u32 (buf + size - 1) in
    let '(end_, size) :=
      if end_ <? u32 (buf - 1) then (4294967295, u32 (4294967295 - buf + 1)) else (end_, size) in
    o ← format_loop (S (length fmt)) buf end_ fmt args (mk_out m buf);
    m ← (if str o <=? end_ then store (om o) (Z.to_nat (str o)) 0
         else if 0 <? size then store (om o) (Z.to_nat end_) 0
         else Some (om o));
    Some (m, s32 (str o - buf)).

(** [i >= size] compares an [int] with a [size_t]. *)
Definition vscnprintf (m : mem) (buf size : Z) (fmt : list Z) (args : list va) : option (mem * Z) :=
  '(m, i) ← vsnprintf m buf size fmt args;
  Some (m, if size <=? u32 i then s32 (size - 1) else i).

Definition vsprintf (m : mem) (buf : Z) (fmt : list Z) (args : list va) : option (mem * Z) :=
  vsnprintf m buf 2147483647 fmt args.

(** * Correctness *)

(** ** What is printed

    The text of a call, independent of any buffer. *)

(** The digits of a number, least significant first. *)
Fixpoint digits_le (fuel : nat) (base n : Z) : list Z :=
  match fuel with
  | O => []
  | S fuel => if n =? 0 then [] else n mod base :: digits_le fuel base (n / base)
  end.

Definition digit_char (large : bool) (d : Z) : Z :=
  if d <? 10 then 48 + d else if large then 55 + d else 87 + d.

(** 64 digits are enough for a 64-bit number in any base. *)
Definition digits_text (large : bool) (base n : Z) : list Z :=
  if n =? 0 then [48] else rev (digit_char large <$> digits_le 64 base n).

Definition blanks (n : Z) : list Z := replicate (Z.to_nat n) 32.
Definition zeros (n : Z) : list Z := replicate (Z.to_nat n) 48.

(** An integer: the sign, the prefix and the digits, with at least [precision] digits
    in a field of at least [size] characters, padded with blanks on the left, with
    blanks on the right ([LEFT]), or with zeros after the prefix ([ZEROPAD]). *)
Definition number_text (num base size precision type : Z) : list Z :=
  let negative := flag type SIGN && (s64 num <? 0) in
  let sign :=
    if flag type SIGN then
      if negative then [45] else if flag type PLUS then [43] else if flag type SPACE then [32] else []
    else [] in
  let prefix :=
    if flag type SPECIAL then
      if base =? 8 then [48] else if base =? 16 then [48; if flag type LARGE then 88 else 120] else []
    else [] in
  let ds := digits_text (flag type LARGE) base (if negative then - s64 num else num) in
  let ds := zeros (precision - Z.of_nat (length ds)) ++ ds in
  let fill := size - Z.of_nat (length sign + length prefix + length ds) in
  if flag type LEFT then sign ++ prefix ++ ds ++ blanks fill
  else if flag type ZEROPAD then sign ++ prefix ++ zeros fill ++ ds
  else blanks fill ++ sign ++ prefix ++ ds.

(** A field of at least [width] characters. *)
Definition field (left_ : bool) (width : Z) (text : list Z) : list Z :=
  let fill := blanks (width - Z.of_nat (length text)) in
  if left_ then text ++ fill else fill ++ text.

(** Widths and precisions for which the [int] arithmetic is exact. *)
Definition sane (s : spec) : bool :=
  (-1 <=? field_width s) && (field_width s <? 1073741824) && (-1 <=? precision s) && (precision s <? 1073741824).

(** The string at [p], up to [precision] characters; it must not overlap the
    addresses from [lo] to [hi]. *)
Definition string_text (m : mem) (lo hi : Z) (p prec : Z) : option (list Z) :=
  if p <? PAGE_SIZE_ then Some (take (Z.to_nat (u32 prec)) NULL_text)
  else
    len ← strnlen m (Z.to_nat p) (Z.to_nat (Z.min (u32 prec) (Z.of_nat (scan m))));
    if (p + Z.of_nat len <? lo) || (hi <=? p) then Some (block m (Z.to_nat p) len) else None.

(** The text of one conversion, the rest of the format and of the arguments. There is
    none for [%n]. *)
Definition conv_text (m : mem) (lo hi : Z) (s : spec) (fmt : list Z) (args : list va)
  : option (list Z * list Z * list va) :=
  match fmt with
  | [] => Some ([37], [], args)
  | c :: rest =>
      if c =? 99 then
        '(w, args) ← va_word args; Some (field (flag (flags s) LEFT) (field_width s) [u8 w], rest, args)
      else if c =? 115 then
        '(p, args) ← va_word args;
        text ← string_text m lo hi p (precision s);
        Some (field (flag (flags s) LEFT) (field_width s) text, rest, args)
      else if c =? 112 then
        '(p, args) ← va_word args;
        Some (if field_width s =? -1 then number_text p 16 8 (precision s) (Z.lor (flags s) ZEROPAD)
              else number_text p 16 (field_width s) (precision s) (flags s), rest, args)
      else if c =? 110 then None
      else if c =? 37 then Some ([37], rest, args)
      else
        match int_conv c (flags s) with
        | Some (base, fl) =>
            '(num, args) ← fetch_num (qualifier s) (flag fl SIGN) args;
            Some (number_text num base (field_width s) (precision s) fl, rest, args)
        | None => Some ([37; c], rest, args)
        end
  end.

Fixpoint render (fuel : nat) (m : mem) (lo hi : Z) (fmt : list Z) (args : list va) : option (list Z) :=
  match fuel with
  | O => None
  | S fuel =>
      match fmt with
      | [] => Some []
      | c :: rest =>
          if negb (c =? 37) then text ← render fuel m lo hi rest args; Some (c :: text)
          else
            '(s, fmt, args) ← parse_spec rest args;
            if sane s then
              '(text, fmt, args) ← conv_text m lo hi s fmt args;
              more ← render fuel m lo hi fmt args;
              Some (text ++ more)
            else None
      end
  end.

(** ** Writing to the buffer *)

Section Output.
(** The memory before the call, the buffer, how many bytes may be written, and a
    bound on the addresses that are written. *)
Context (m : mem) (buf room : nat) (hi : Z).

Definition end_of : Z := Z.of_nat buf + Z.of_nat room - 1.

(** The state after [acc] was put out. *)
Definition sofar (acc : list Z) : out :=
  mk_out (write m buf (take room acc)) (Z.of_nat buf + Z.of_nat (length acc)).

Definition fits (acc : list Z) : Prop :=
  Z.of_nat buf + Z.of_nat (length acc) < 4294967296 /\ (buf + Nat.min room (length acc) <= length m)%nat /\
  Z.of_nat (buf + Nat.min room (length acc)) <= hi.

Lemma fits_app a b : fits (a ++ b) -> fits a.
Proof. unfold fits. rewrite length_app. lia. Qed.

Lemma fits_le a b : fits b -> (length a <= length b)%nat -> fits a.
Proof. unfold fits. lia. Qed.

Definition emits (f : out -> option out) (text : list Z) : Prop :=
  forall acc, fits (acc ++ text) -> f (sofar acc) = Some (sofar (acc ++ text)).

Lemma emits_bind f g a b : emits f a -> emits g b -> emits (fun o => o ← f o; g o) (a ++ b).
Proof.
  intros Hf Hg acc Hfit. rewrite app_assoc in *. cbn beta. rewrite Hf by (by eapply fits_app). cbn [mbind option_bind].
  by apply Hg.
Qed.

Lemma emits_nil : emits Some [].
Proof. intros acc _. by rewrite app_nil_r. Qed.

Lemma emits_put c : emits (put end_of c) [c].
Proof.
  intros acc (H1 & H2 & H3). rewrite length_app in *. simpl length in *. unfold put, sofar, end_of. cbn [om str].
  rewrite length_app. simpl length.
  assert (u32 (Z.of_nat buf + Z.of_nat (length acc) + 1) = Z.of_nat buf + Z.of_nat (length acc + 1)) as Hs
    by (unfold u32; rewrite Z.mod_small; lia).
  rewrite Hs. destruct (Z.leb_spec (Z.of_nat buf + Z.of_nat (length acc)) (Z.of_nat buf + Z.of_nat room - 1)) as [Hin | Hout].
  - replace (Z.to_nat (Z.of_nat buf + Z.of_nat (length acc))) with (buf + length acc)%nat by lia.
    rewrite store_in by (rewrite length_write; lia). cbn [mbind option_bind].
    rewrite !take_ge by (rewrite ?length_app; simpl; lia). rewrite write_app by (simpl; lia). done.
  - rewrite take_app_le by lia. done.
Qed.

Lemma emits_pad n c : emits (pad n end_of c) (replicate n c).
Proof.
  induction n as [| n IH]; [apply emits_nil |].
  change (replicate (S n) c) with ([c] ++ replicate n c). apply (emits_bind (put end_of c)); [apply emits_put | exact IH].
Qed.

Lemma emits_puts cs : emits (puts end_of cs) cs.
Proof.
  induction cs as [| c cs IH]; [apply emits_nil |].
  change (c :: cs) with ([c] ++ cs) at 2. apply (emits_bind (put end_of c)); [apply emits_put | exact IH].
Qed.

Lemma emits_if (b : bool) f g a c : (b = true -> emits f a) -> (b = false -> emits g c) ->
  emits (fun o => if b then f o else g o) (if b then a else c).
Proof. destruct b; auto. Qed.
End Output.

(** ** Numbers *)

Lemma flag_bit type i : 0 <= i -> flag type (2 ^ i) = Z.testbit type i.
Proof.
  intros Hi. unfold flag. destruct (Z.testbit type i) eqn:E.
  - apply negb_true_iff, Z.eqb_neq. intros H. apply (f_equal (fun z => Z.testbit z i)) in H.
    rewrite Z.land_spec, E, Z.pow2_bits_true, Z.bits_0 in H by done. done.
  - apply negb_false_iff, Z.eqb_eq. apply Z.bits_inj_iff'. intros n Hn. rewrite Z.land_spec, Z.bits_0, Z.pow2_bits_eqb by done.
    destruct (Z.eqb_spec i n) as [<- |]; [by rewrite E | apply andb_false_r].
Qed.

(** Clearing [ZEROPAD] clears nothing else. *)
Lemma flag_clear type i : 0 < i -> flag (Z.land type (Z.lnot ZEROPAD)) (2 ^ i) = flag type (2 ^ i).
Proof.
  intros Hi. rewrite !flag_bit, Z.land_spec by lia. unfold ZEROPAD. rewrite Z.lnot_spec by lia.
  change 1 with (2 ^ 0). rewrite Z.pow2_bits_false by lia. apply andb_true_r.
Qed.

Lemma flag_cleared type : flag (Z.land type (Z.lnot ZEROPAD)) ZEROPAD = false.
Proof. unfold flag. rewrite <- Z.land_assoc. change (Z.land (Z.lnot ZEROPAD) ZEROPAD) with 0. by rewrite Z.land_0_r. Qed.

Lemma flag_either type : flag type (ZEROPAD + LEFT) = flag type ZEROPAD || flag type LEFT.
Proof.
  unfold flag. change (ZEROPAD + LEFT) with (Z.lor ZEROPAD LEFT). rewrite Z.land_lor_distr_r.
  destruct (Z.eqb_spec (Z.land type ZEROPAD) 0) as [-> | H1], (Z.eqb_spec (Z.land type LEFT) 0) as [-> | H2]; try done;
    apply negb_true_iff, Z.eqb_neq; rewrite Z.lor_eq_0_iff; tauto.
Qed.

Lemma digit_table (large : bool) d :
  0 <= d < 36 -> (if large then large_digits else small_digits) !! Z.to_nat d = Some (digit_char large d).
Proof.
  intros Hd.
  assert (all_from (fun d => bool_decide ((if large then large_digits else small_digits) !! Z.to_nat d =
    Some (digit_char large d))) 36 0 = true) as H by (destruct large; vm_compute; reflexivity).
  pose proof (all_from_spec _ 36 0 d H ltac:(lia)) as Hd'. simpl in Hd'. by apply bool_decide_eq_true in Hd'.
Qed.

Lemma div_lt_pow2 n base k : 2 <= base -> 0 <= n < 2 ^ Z.of_nat (S k) -> 0 <= n / base < 2 ^ Z.of_nat k.
Proof.
  intros Hb Hn. split; [apply Z.div_pos; lia |]. apply Z.div_lt_upper_bound; [lia |].
  rewrite Nat2Z.inj_succ, Z.pow_succ_r in Hn by lia. nia.
Qed.

(** The digits fit in [tmp]. *)
Lemma digits_loop_spec large base k : 2 <= base <= 36 -> forall fuel num i,
  0 <= num < 2 ^ Z.of_nat k -> (k < fuel)%nat -> i + Z.of_nat k <= 66 ->
  digits_loop fuel (if large : bool then large_digits else small_digits) num base i =
    Some (digit_char large <$> digits_le k base num).
Proof.
  intros Hb. induction k as [| k IH]; intros [| fuel] num i Hn Hf Hi; try lia; cbn [digits_loop digits_le].
  - rewrite (proj2 (Z.eqb_eq num 0)) by (simpl in Hn; lia). done.
  - destruct (Z.eqb_spec num 0) as [| Hnz]; [done |]. rewrite (proj2 (Z.leb_gt 66 i)) by lia.
    rewrite digit_table by (pose proof (Z.mod_pos_bound num base); lia). cbn [mbind option_bind].
    rewrite IH; [done | by apply div_lt_pow2; [lia |] | lia | lia].
Qed.

Lemma digits_le_length k base n : (length (digits_le k base n) <= k)%nat.
Proof. revert n. induction k as [| k IH]; intros n; simpl; [done |]. case_match; simpl; [lia | specialize (IH (n / base)); lia]. Qed.

(** The array [tmp] of [number]. *)
Definition tmp_digits (large : bool) (base n : Z) : list Z :=
  if n =? 0 then [48] else digit_char large <$> digits_le 64 base n.

Lemma digits_text_rev large base n : rev (tmp_digits large base n) = digits_text large base n.
Proof. unfold tmp_digits, digits_text. by destruct (n =? 0). Qed.

Lemma tmp_length large base n : (length (tmp_digits large base n) <= 64)%nat.
Proof. unfold tmp_digits. case_match; [simpl; lia |]. rewrite length_fmap. apply digits_le_length. Qed.

(** [emit f]: run the next step, whose text is [f]'s; what has been put out so far is not longer than the
    whole text. *)
Ltac emit f :=
  match goal with
  | Hfit : fits _ _ _ _ _ |- _ =>
      rewrite f by (eapply fits_le; [exact Hfit | rewrite ?length_app; unfold blanks, zeros; rewrite ?length_app, ?length_replicate; lia]);
      cbn [mbind option_bind]
  end.

Section Output.
Context (m : mem) (buf room : nat) (hi : Z).
#[local] Abbreviation sofar := (sofar m buf room).
#[local] Abbreviation fits := (fits m buf room hi).
#[local] Abbreviation emits := (emits m buf room hi).
#[local] Abbreviation end_ := (end_of buf room).

Lemma length_zeros n : length (zeros n) = Z.to_nat n.
Proof. apply length_replicate. Qed.

Lemma after_nonpos size : -2147483647 <= size < 2147483648 -> Z.to_nat (after size) = O.
Proof. intros H. unfold after. rewrite s32_id by lia. lia. Qed.

(** The part of [number] that writes, once sign, prefix, digits and fill are known. *)
Lemma emits_layout (left_ zero : bool) sign prefix ds size prec fS fP :
  emits fS sign -> emits fP prefix -> (left_ = true -> zero = false) -> -2147483640 <= size < 2147483648 ->
  Z.of_nat (length ds) <= prec ->
  emits (fun o =>
    '(o, size) ← (if negb (zero || left_) then o ← pad (Z.to_nat size) end_ 32 o; Some (o, after size) else Some (o, size));
    o ← fS o; o ← fP o;
    '(o, size) ← (if negb left_ then o ← pad (Z.to_nat size) end_ (if zero then 48 else 32) o; Some (o, after size) else Some (o, size));
    o ← pad (Z.to_nat (prec - Z.of_nat (length ds))) end_ 48 o;
    o ← puts end_ (rev ds) o;
    pad (Z.to_nat size) end_ 32 o)
   (let body := zeros (prec - Z.of_nat (length ds)) ++ rev ds in
    if left_ then sign ++ prefix ++ body ++ blanks size
    else if zero then sign ++ prefix ++ zeros size ++ body
    else blanks size ++ sign ++ prefix ++ body).
Proof.
  intros HS HP Hlz Hsize Hprec acc Hfit. cbn beta.
  assert (Z.to_nat (after size) = O) as Ha by (apply after_nonpos; lia).
  destruct left_; [rewrite (Hlz eq_refl) in * | destruct zero]; cbn [negb orb mbind option_bind] in *.
  - emit HS. emit HP. emit (emits_pad m buf room hi). emit (emits_puts m buf room hi). emit (emits_pad m buf room hi).
    unfold blanks, zeros. by rewrite <- !app_assoc.
  - emit HS. emit HP. emit (emits_pad m buf room hi). emit (emits_pad m buf room hi). emit (emits_puts m buf room hi).
    rewrite Ha. cbn [pad]. unfold zeros. by rewrite <- !app_assoc.
  - emit (emits_pad m buf room hi). emit HS. emit HP. rewrite Ha. cbn [pad mbind option_bind].
    emit (emits_pad m buf room hi). emit (emits_puts m buf room hi).
    assert (Z.to_nat (after (after size)) = O) as ->.
    { apply after_nonpos. unfold after. rewrite s32_id; lia. }
    cbn [pad]. unfold blanks, zeros. by rewrite <- !app_assoc.
Qed.

Lemma s64_range num : 0 <= num < 18446744073709551616 -> -9223372036854775808 <= s64 num < 9223372036854775808.
Proof. intros H. unfold s64, u64. rewrite Z.mod_small by lia. case_match; lia. Qed.

(** [number] prints [number_text]: it neither overruns [tmp] nor writes anything else. *)
Lemma emits_number num base size precision type :
  base = 8 \/ base = 10 \/ base = 16 -> 0 <= num < 18446744073709551616 ->
  -1 <= size < 1073741824 -> -1 <= precision < 1073741824 ->
  emits (number end_ num base size precision type) (number_text num base size precision type).
Proof.
  intros Hbase Hnum Hsize Hprec. pose proof (s64_range num Hnum) as Hs64.
  set (type' := if flag type LEFT then Z.land type (Z.lnot ZEROPAD) else type).
  assert (forall i, 0 < i -> flag type' (2 ^ i) = flag type (2 ^ i)) as Hf.
  { intros i Hi. unfold type'. case_match; [by apply flag_clear | done]. }
  assert (flag type' ZEROPAD = flag type ZEROPAD && negb (flag type LEFT)) as Hz.
  { unfold type'. case_match; [by rewrite flag_cleared, andb_false_r | by rewrite andb_true_r]. }
  pose proof (Hf 1 ltac:(lia)) as H1. pose proof (Hf 2 ltac:(lia)) as H2. pose proof (Hf 3 ltac:(lia)) as H3.
  pose proof (Hf 4 ltac:(lia)) as H4. pose proof (Hf 5 ltac:(lia)) as H5.
  change (2 ^ 1) with SIGN in H1. change (2 ^ 2) with PLUS in H2. change (2 ^ 3) with SPACE in H3.
  change (2 ^ 4) with LEFT in H4. change (2 ^ 5) with SPECIAL in H5.
  unfold number, number_text. fold type'. rewrite flag_either, Hz, H1, H2, H3, H4, H5.
  clear Hf Hz H1 H2 H3 H4 H5. clearbody type'. clear type'.
  assert ((base <? 2) || (36 <? base) = false) as -> by (destruct Hbase as [-> | [-> | ->]]; done).
  (* the sign *)
  set (negative := flag type SIGN && (s64 num <? 0)).
  set (sign := if flag type SIGN then _ else _ : list Z).
  set (triple := if flag type SIGN then _ else _ : Z * Z * Z).
  assert (exists sg, triple = (sg, if negative then - s64 num else num, size - Z.of_nat (length sign)) /\
    sign = (if negb (sg =? 0) then [sg] else [])) as (sg & Etriple & Esign).
  { unfold triple, sign, negative. destruct (flag type SIGN); cbn [andb]; [| exists 0; simpl; split; [repeat f_equal; lia | done]].
    destruct (Z.ltb_spec (s64 num) 0).
    - exists 45. simpl. rewrite s32_id by lia. unfold u64. rewrite Z.mod_small by lia. done.
    - destruct (flag type PLUS); [exists 43; simpl; rewrite s32_id by lia; done |].
      destruct (flag type SPACE); [exists 32; simpl; rewrite s32_id by lia; done |].
      exists 0. simpl. split; [repeat f_equal; lia | done]. }
  assert (length sign <= 1)%nat as Hls by (rewrite Esign; case_match; simpl; lia).
  rewrite Etriple. clear Etriple triple.
  (* the prefix *)
  set (large := flag type LARGE).
  set (prefix := if flag type SPECIAL then _ else _ : list Z).
  set (size2 := if flag type SPECIAL then _ else _ : Z).
  assert (size2 = size - Z.of_nat (length sign) - Z.of_nat (length prefix) /\ (length prefix <= 2)%nat) as [Esize2 Hlp].
  { unfold size2, prefix. destruct (flag type SPECIAL); [| simpl; lia].
    destruct Hbase as [-> | [-> | ->]]; simpl; rewrite ?s32_id by lia; lia. }
  rewrite Esize2. clear Esize2 size2.
  set (n := if negative then - s64 num else num).
  assert (0 <= n < 2 ^ Z.of_nat 64) as Hn.
  { change (2 ^ Z.of_nat 64) with 18446744073709551616. unfold n, negative. destruct (flag type SIGN); simpl; [| lia].
    destruct (Z.ltb_spec (s64 num) 0); lia. }
  clearbody n. clear Hnum Hs64.
  assert ((if n =? 0 then Some [48] else digits_loop 67 (if large then large_digits else small_digits) n base 0) =
    Some (tmp_digits large base n)) as ->.
  { unfold tmp_digits. destruct (Z.eqb_spec n 0); [done |]. apply digits_loop_spec; [lia | done | lia | lia]. }
  rewrite <- digits_text_rev. pose proof (tmp_length large base n) as Hlt.
  set (ds := tmp_digits large base n) in *. clearbody ds. cbn [mbind option_bind].
  set (prec := if precision <? Z.of_nat (length ds) then Z.of_nat (length ds) else precision).
  assert (Z.of_nat (length ds) <= prec < 1073741824) as Hp
    by (unfold prec; destruct (Z.ltb_spec precision (Z.of_nat (length ds))); lia).
  rewrite (length_app (zeros _)), length_rev.
  assert (zeros (precision - Z.of_nat (length ds)) = zeros (prec - Z.of_nat (length ds))) as ->.
  { unfold zeros, prec. f_equal. destruct (Z.ltb_spec precision (Z.of_nat (length ds))); lia. }
  rewrite length_zeros.
  set (fill := size - Z.of_nat (length sign) - Z.of_nat (length prefix) - prec).
  replace (size - Z.of_nat (length sign + length prefix + (Z.to_nat (prec - Z.of_nat (length ds)) + length ds))) with fill by lia.
  rewrite (s32_id fill) by lia.
  assert (emits (fun o => if negb (sg =? 0) then put end_ sg o else Some o) sign) as HS.
  { rewrite Esign. apply emits_if; intros _; [apply emits_put | apply emits_nil]. }
  assert (emits (fun o => if flag type SPECIAL then
                 if base =? 8 then put end_ 48 o
                 else if base =? 16 then o ← put end_ 48 o; x ← (if large then large_digits else small_digits) !! 33%nat; put end_ x o
                 else Some o
               else Some o) prefix) as HP.
  { unfold prefix. apply emits_if; intros _; [| apply emits_nil]. apply emits_if; intros _; [apply emits_put |].
    apply emits_if; intros _; [| apply emits_nil].
    fold large. replace ((if large then large_digits else small_digits) !! 33%nat) with (Some (if large then 88 else 120))
      by (by destruct large).
    apply (emits_bind m buf room hi (put end_ 48) (put end_ (if large then 88 else 120)) [48]); apply emits_put. }
  assert (forall A B C : list Z, (if flag type LEFT then A else if flag type ZEROPAD then B else C) =
    (if flag type LEFT then A else if flag type ZEROPAD && negb (flag type LEFT) then B else C)) as Hsel
    by (intros; by destruct (flag type LEFT), (flag type ZEROPAD)).
  rewrite Hsel.
  refine (emits_layout (flag type LEFT) (flag type ZEROPAD && negb (flag type LEFT)) sign prefix ds fill prec _ _ HS HP _ _ _).
  - intros ->. apply andb_false_r.
  - lia.
  - lia.
Qed.

(** ** Conversions *)

Lemma sofar_outside acc i :
  fits acc -> (i < buf)%nat \/ hi <= Z.of_nat i -> om (sofar acc) !! i = m !! i.
Proof.
  intros (_ & H2 & H3) Hi. unfold sofar. cbn [om]. rewrite lookup_write; rewrite length_take; [| lia].
  rewrite decide_False; [done | lia].
Qed.

Lemma emits_string n s cs :
  (n = length cs)%nat -> (forall i c, cs !! i = Some c -> m !! (s + i)%nat = Some c) ->
  (s + n <= buf)%nat \/ hi <= Z.of_nat s -> emits (put_string n end_ s) cs.
Proof.
  intros ->. revert s. induction cs as [| c cs IH]; intros s Hcs Hout; [apply emits_nil |].
  intros acc Hfit. cbn [put_string length]. simpl in Hout. unfold load.
  rewrite sofar_outside; [| eapply fits_le; [exact Hfit | rewrite length_app; lia] | lia].
  pose proof (Hcs 0%nat c eq_refl) as H0. rewrite Nat.add_0_r in H0. rewrite H0. cbn [mbind option_bind].
  change (c :: cs) with ([c] ++ cs) in *. emit (emits_put m buf room hi). rewrite app_assoc. apply IH.
  - intros i x Hi. rewrite Nat.add_succ_comm. by apply Hcs.
  - lia.
  - by rewrite <- app_assoc.
Qed.

Lemma strnlen_loop_ge mm s count sc : strnlen_loop mm s count = Some sc -> (s <= sc)%nat.
Proof.
  revert s. induction count as [| count IH]; intros s E; cbn [strnlen_loop] in E; [injection E as <-; lia |].
  unfold load in E. destruct (mm !! s); [cbn [mbind option_bind] in E | done].
  case_match; [injection E as <-; lia |]. apply IH in E. lia.
Qed.

(** [strnlen] sees the string as it was before the call. *)
Lemma strnlen_outside acc s count len :
  fits acc -> strnlen m s count = Some len -> (s + len < buf)%nat \/ hi <= Z.of_nat s ->
  strnlen (om (sofar acc)) s count = Some len /\ (len <= count)%nat /\
  (forall i, (i < len)%nat -> is_Some (m !! (s + i)%nat)).
Proof.
  intros Hfit. unfold strnlen. intros H. destruct (strnlen_loop m s count) as [sc |] eqn:E; [| done].
  cbn [mbind option_bind] in H. injection H as <-. revert s E.
  induction count as [| count IH]; intros s E Hout; cbn [strnlen_loop] in *.
  { injection E as <-. cbn [mbind option_bind]. split_and!; [done | lia | lia]. }
  unfold load in *. destruct (m !! s) as [c |] eqn:Ec; [cbn [mbind option_bind] in * | done].
  rewrite sofar_outside; [rewrite Ec; cbn [mbind option_bind] | done | lia].
  destruct (Z.eqb_spec c 0).
  - injection E as <-. split_and!; [done | lia | lia].
  - pose proof (strnlen_loop_ge _ _ _ _ E) as Hsc.
    destruct (IH (S s) E) as (H1 & H2 & H3); [lia |].
    destruct (strnlen_loop (om (sofar acc)) (S s) count) as [sc' |] eqn:E'; [cbn [mbind option_bind] in * | done].
    apply strnlen_loop_ge in E'.
    injection H1 as H1. split_and!; [f_equal; lia | lia |].
    intros [| i] Hi; [rewrite Nat.add_0_r, Ec; by eexists | rewrite <- Nat.add_succ_comm; apply H3; lia].
Qed.
End Output.

Section Convert.
Context (m : mem) (buf room : nat) (hi : Z).
#[local] Abbreviation sofar := (sofar m buf room).
#[local] Abbreviation fits := (fits m buf room hi).
#[local] Abbreviation emits := (emits m buf room hi).
#[local] Abbreviation end_ := (end_of buf room).
#[local] Abbreviation lo := (Z.of_nat buf).

Lemma sane_spec s : sane s = true -> -1 <= field_width s < 1073741824 /\ -1 <= precision s < 1073741824.
Proof. unfold sane. intros H. repeat (apply andb_true_iff in H as [H ?]). lia. Qed.

Lemma conv_c_spec s args w args' acc :
  sane s = true -> va_word args = Some (w, args') ->
  fits (acc ++ field (flag (flags s) LEFT) (field_width s) [u8 w]) ->
  conv_c end_ s args (sofar acc) = Some (args', sofar (acc ++ field (flag (flags s) LEFT) (field_width s) [u8 w])).
Proof.
  intros [Hw _]%sane_spec Hva Hfit. unfold conv_c, field in *. rewrite (s32_id (field_width s - 1)) by lia.
  change (Z.of_nat (length [u8 w])) with 1 in *.
  destruct (flag (flags s) LEFT); cbn [negb mbind option_bind].
  - rewrite Hva. cbn [mbind option_bind]. emit (emits_put m buf room hi). emit (emits_pad m buf room hi).
    unfold blanks. by rewrite <- app_assoc.
  - emit (emits_pad m buf room hi). rewrite Hva. cbn [mbind option_bind]. emit (emits_put m buf room hi).
    rewrite (s32_id (Z.min (field_width s - 1) 0 - 1)) by lia.
    replace (Z.to_nat (Z.min (field_width s - 1) 0 - 1)) with O by lia. cbn [pad mbind option_bind].
    unfold blanks. by rewrite <- app_assoc.
Qed.

Lemma conv_s_spec s args p args' text acc :
  sane s = true -> va_word args = Some (p, args') -> string_text m lo hi p (precision s) = Some text ->
  fits (acc ++ field (flag (flags s) LEFT) (field_width s) text) ->
  conv_s end_ s args (sofar acc) = Some (args', sofar (acc ++ field (flag (flags s) LEFT) (field_width s) text)).
Proof.
  intros [Hw Hp]%sane_spec Hva Htext Hfit. unfold conv_s. rewrite Hva. cbn [mbind option_bind].
  assert (scan (om (sofar acc)) = scan m) as -> by (unfold scan, sofar; cbn [om]; by rewrite length_write).
  assert (fits acc) as Hacc by (by eapply fits_app).
  set (lenf := if p <? PAGE_SIZE_ then _ else _).
  set (prt := fun (len : nat) (o : out) => if p <? PAGE_SIZE_ then puts end_ (take len NULL_text) o else put_string len end_ (Z.to_nat p) o).
  assert (lenf = Some (length text) /\ emits (prt (length text)) text) as [-> Hprt].
  { unfold lenf, prt, string_text in *. destruct (Z.ltb_spec p PAGE_SIZE_) as [Hnull | Hstr].
    - injection Htext as <-. split; [by rewrite length_take, Nat.min_comm |].
      rewrite length_take, take_min_length. apply emits_puts.
    - destruct (strnlen m _ _) as [len |] eqn:El; [cbn [mbind option_bind] in Htext | done].
      assert (p = Z.of_nat (Z.to_nat p)) as Hpp by (unfold PAGE_SIZE_ in Hstr; lia).
      destruct ((p + Z.of_nat len <? lo) || (hi <=? p)) eqn:Eo; [| done]. injection Htext as <-.
      assert ((Z.to_nat p + len < buf)%nat \/ hi <= Z.of_nat (Z.to_nat p)) as Hout by lia.
      destruct (strnlen_outside m buf room hi acc _ _ _ Hacc El Hout) as (E1 & _ & Hsome).
      assert (length (block m (Z.to_nat p) len) = len) as Hlen.
      { destruct len as [| len]; [done |]. apply length_block.
        destruct (Hsome len) as [x Hx]; [lia |]. apply lookup_lt_Some in Hx. lia. }
      rewrite Hlen. split; [exact E1 |]. apply emits_string; [done | | lia].
      intros i c Hi. rewrite <- Hi. symmetry. apply lookup_block. apply lookup_lt_Some in Hi. lia. }
  assert (forall o, (if p <? PAGE_SIZE_ then puts end_ (take (length text) NULL_text) o
                    else put_string (length text) end_ (Z.to_nat p) o) = prt (length text) o) as Hprt_eq by done.
  clearbody prt. unfold field in *. set (n := Z.of_nat (length text)) in *. cbn [mbind option_bind].
  destruct (flag (flags s) LEFT); cbn [negb mbind option_bind].
  - rewrite Hprt_eq. emit Hprt. emit (emits_pad m buf room hi). unfold blanks. by rewrite <- app_assoc.
  - emit (emits_pad m buf room hi). rewrite Hprt_eq. emit Hprt.
    fold n. destruct Hfit as (Hfit & _). rewrite length_app, length_app in Hfit.
    rewrite (s32_id (Z.min (field_width s) n - 1)) by lia.
    replace (Z.to_nat (Z.min (field_width s) n - 1 - n)) with O by lia. cbn [pad mbind option_bind].
    unfold blanks. by rewrite <- app_assoc.
Qed.

Lemma conv_p_spec s args p args' acc :
  sane s = true -> va_word args = Some (p, args') ->
  let text := if field_width s =? -1 then number_text p 16 8 (precision s) (Z.lor (flags s) ZEROPAD)
              else number_text p 16 (field_width s) (precision s) (flags s) in
  fits (acc ++ text) -> conv_p end_ s args (sofar acc) = Some (args', sofar (acc ++ text)).
Proof.
  intros [Hw Hp]%sane_spec Hva text Hfit. unfold conv_p. rewrite Hva. cbn [mbind option_bind].
  assert (0 <= p < 18446744073709551616) as Hr.
  { unfold va_word in Hva. destruct args as [| [w |]]; [done | | done]. injection Hva as <- _. unfold u32.
    pose proof (Z.mod_pos_bound w 4294967296). lia. }
  unfold text in *. destruct (field_width s =? -1);
    rewrite (emits_number m buf room hi) by (try done; lia); done.
Qed.

Lemma fetch_num_range q sgn args num args' :
  fetch_num q sgn args = Some (num, args') -> 0 <= num < 18446744073709551616.
Proof.
  assert (forall z, 0 <= u64 z < 18446744073709551616) as H64 by (intros z; unfold u64; apply Z.mod_pos_bound; lia).
  unfold fetch_num. destruct (q =? 76).
  - unfold va_quad. destruct args as [| [| x]]; try done. intros [= <- _]. apply H64.
  - unfold va_word. destruct args as [| [w |]]; try done. cbn [mbind option_bind].
    assert (0 <= u32 w < 4294967296) as H32 by (unfold u32; apply Z.mod_pos_bound; lia).
    assert (0 <= u32 w mod 65536 < 65536) by (apply Z.mod_pos_bound; lia).
    destruct (q =? 108); [destruct sgn; intros [= <- _]; [apply H64 | lia] |].
    destruct ((q =? 90) || (q =? 122)); [intros [= <- _]; lia |].
    destruct (q =? 104); [destruct sgn; intros [= <- _]; [apply H64 | lia] |].
    destruct sgn; intros [= <- _]; [apply H64 | lia].
Qed.

Lemma int_conv_base c fl base fl' : int_conv c fl = Some (base, fl') -> base = 8 \/ base = 10 \/ base = 16.
Proof. unfold int_conv. repeat case_match; intros [= <- <-]; auto. Qed.

(** One conversion prints its text. *)
Lemma convert_spec b s fmt args text rest args' acc :
  sane s = true -> conv_text m lo hi s fmt args = Some (text, rest, args') -> fits (acc ++ text) ->
  convert b end_ s fmt args (sofar acc) = Some (rest, args', sofar (acc ++ text)).
Proof.
  intros Hs Ht Hfit. destruct fmt as [| c fmt]; cbn [conv_text convert] in *.
  { injection Ht as <- <- <-. emit (emits_put m buf room hi). done. }
  destruct (c =? 99).
  { destruct (va_word args) as [[w a'] |] eqn:E; [| done]. injection Ht as <- <- <-.
    rewrite (conv_c_spec _ _ _ _ _ Hs E) by done. done. }
  destruct (c =? 115).
  { destruct (va_word args) as [[w a'] |] eqn:E; [cbn [mbind option_bind] in Ht | done].
    destruct (string_text m lo hi w (precision s)) as [t |] eqn:Et; [| done]. injection Ht as <- <- <-.
    rewrite (conv_s_spec _ _ _ _ _ _ Hs E Et) by done. done. }
  destruct (c =? 112).
  { destruct (va_word args) as [[w a'] |] eqn:E; [| done]. injection Ht as <- <- <-.
    rewrite (conv_p_spec _ _ _ _ _ Hs E) by done. done. }
  destruct (c =? 110); [done |].
  destruct (c =? 37); [injection Ht as <- <- <-; emit (emits_put m buf room hi); done |].
  apply sane_spec in Hs as [Hw Hp].
  destruct (int_conv c (flags s)) as [[base fl] |] eqn:Ec.
  - destruct (fetch_num _ _ args) as [[num a'] |] eqn:En; [| done]. injection Ht as <- <- <-. cbn [mbind option_bind].
    rewrite (emits_number m buf room hi); [done | by eapply int_conv_base | by eapply fetch_num_range | done | done | done].
  - injection Ht as <- <- <-. change [37; c] with ([37] ++ [c]) in *. emit (emits_put m buf room hi).
    emit (emits_put m buf room hi). by rewrite <- app_assoc.
Qed.

(** The whole format. *)
Lemma format_loop_spec b fuel fmt args text acc :
  render fuel m lo hi fmt args = Some text -> fits (acc ++ text) ->
  format_loop fuel b end_ fmt args (sofar acc) = Some (sofar (acc ++ text)).
Proof.
  revert fmt args text acc. induction fuel as [| fuel IH]; intros fmt args text acc Hr Hfit; [done |].
  cbn [render format_loop] in *. destruct fmt as [| c fmt]; [injection Hr as <-; by rewrite app_nil_r |].
  destruct (c =? 37); cbn [negb] in *.
  - destruct (parse_spec fmt args) as [[[s fmt'] args'] |]; [cbn [mbind option_bind] in * | done].
    destruct (sane s) eqn:Hs; [| done].
    destruct (conv_text m lo hi s fmt' args') as [[[t fmt2] args2] |] eqn:Et; [cbn [mbind option_bind] in * | done].
    destruct (render fuel m lo hi fmt2 args2) as [more |] eqn:Em; [cbn [mbind option_bind] in * | done]. injection Hr as <-.
    rewrite (convert_spec b _ _ _ _ _ _ _ Hs Et); [cbn [mbind option_bind] | eapply fits_app; by rewrite <- app_assoc].
    rewrite app_assoc in *. by apply IH.
  - destruct (render fuel m lo hi fmt args) as [more |] eqn:Em; [cbn [mbind option_bind] in * | done]. injection Hr as <-.
    change (c :: more) with ([c] ++ more) in *. emit (emits_put m buf room hi). rewrite app_assoc in *. by apply IH.
Qed.
End Convert.

(** Replacing the last byte written by the terminating NUL. *)
Lemma write_last m p a x v :
  (p + length a + 1 <= length m)%nat -> <[(p + length a)%nat := v]> (write m p (a ++ [x])) = write m p (a ++ [v]).
Proof.
  intros H. rewrite !write_app by (simpl; lia).
  change (write ?m ?p [?y]) with (<[p := y]> m). by rewrite list_insert_insert_eq.
Qed.

(** The text of a call is printed, cut to the buffer. *)
Lemma vsnprintf_prints m buf size hi fmt args text :
  (1 <= buf)%nat -> 0 <= size < 2147483648 ->
  render (S (length fmt)) m (Z.of_nat buf) hi fmt args = Some text ->
  Z.of_nat (length text) < 2147483648 -> Z.of_nat buf + Z.of_nat (length text) < 4294967296 ->
  (buf + Nat.min (Z.to_nat size) (length text + 1) <= length m)%nat ->
  Z.of_nat (buf + Nat.min (Z.to_nat size) (length text + 1)) <= hi ->
  let m' := if size =? 0 then m else write m buf (take (Z.to_nat (size - 1)) text ++ [0]) in
  vsnprintf m (Z.of_nat buf) size fmt args = Some (m', Z.of_nat (length text)) /\
  (0 < size -> vscnprintf m (Z.of_nat buf) size fmt args = Some (m', Z.min (Z.of_nat (length text)) (size - 1))).
Proof.
  intros Hbuf Hsize Hr Hlen Hlen32 Hmap Hhi m'.
  assert (vsnprintf m (Z.of_nat buf) size fmt args = Some (m', Z.of_nat (length text))) as E.
  { unfold vsnprintf. rewrite (s32_id size) by lia. rewrite (proj2 (Z.ltb_ge size 0)) by lia.
    replace (u32 (Z.of_nat buf - 1)) with (Z.of_nat buf - 1) by (unfold u32; rewrite Z.mod_small; lia).
    set (es := if _ <? _ then _ else _ : Z * Z).
    assert (exists room, es = (end_of buf room, Z.of_nat room) /\
      (room = Z.to_nat size \/ (length text < room)%nat /\ Z.of_nat room <= size)) as (room & -> & Hroom).
    { unfold es, end_of. destruct (decide (Z.of_nat buf + size - 1 < 4294967296)).
      - exists (Z.to_nat size). rewrite Z2Nat.id by lia. unfold u32. rewrite Z.mod_small by lia.
        rewrite (proj2 (Z.ltb_ge _ _)) by lia. auto.
      - exists (Z.to_nat (4294967296 - Z.of_nat buf)). rewrite Z2Nat.id by lia.
        replace (u32 (Z.of_nat buf + size - 1)) with (Z.of_nat buf + size - 1 - 4294967296)
          by (unfold u32; apply Z.mod_unique_pos with 1; lia).
        rewrite (proj2 (Z.ltb_lt _ _)) by lia.
        replace (u32 (4294967295 - Z.of_nat buf + 1)) with (4294967296 - Z.of_nat buf) by (unfold u32; rewrite Z.mod_small; lia).
        split; [f_equal; lia | right; lia]. }
    assert (mk_out m (Z.of_nat buf) = sofar m buf room []) as ->.
    { unfold sofar. rewrite take_nil, write_nil. f_equal. simpl. lia. }
    rewrite (format_loop_spec m buf room hi _ _ _ _ text []); [| done | simpl; unfold fits; lia].
    cbn [app mbind option_bind]. unfold sofar, end_of. cbn [om str].
    replace (s32 (Z.of_nat buf + Z.of_nat (length text) - Z.of_nat buf)) with (Z.of_nat (length text)) by (rewrite s32_id; lia).
    destruct (Z.leb_spec (Z.of_nat buf + Z.of_nat (length text)) (Z.of_nat buf + Z.of_nat room - 1)) as [Hin | Hout].
    - replace (Z.to_nat (Z.of_nat buf + Z.of_nat (length text))) with (buf + length text)%nat by lia.
      rewrite store_in by (rewrite length_write; lia). cbn [mbind option_bind]. unfold m'.
      rewrite (proj2 (Z.eqb_neq size 0)) by lia. rewrite !take_ge by lia.
      rewrite write_app by (simpl; lia). done.
    - destruct Hroom as [-> | ?]; [| lia]. rewrite Z2Nat.id by lia. unfold m'.
      destruct (Z.ltb_spec 0 size) as [Hpos | Hzero].
      + replace (Z.to_nat (Z.of_nat buf + size - 1)) with (buf + Z.to_nat (size - 1))%nat by lia.
        rewrite store_in by (rewrite length_write; lia). cbn [mbind option_bind].
        rewrite (proj2 (Z.eqb_neq size 0)) by lia.
        destruct (lookup_lt_is_Some_2 text (Z.to_nat (size - 1))) as [x Hx]; [lia |].
        replace (Z.to_nat size) with (S (Z.to_nat (size - 1))) by lia. rewrite (take_S_r _ _ _ Hx).
        assert (length (take (Z.to_nat (size - 1)) text) = Z.to_nat (size - 1)) as Hl by (rewrite length_take; lia).
        rewrite <- Hl at 1. rewrite write_last by (rewrite Hl; lia). done.
      + replace size with 0 by lia. done. }
  split; [exact E |]. intros Hpos. unfold vscnprintf. rewrite E. cbn [mbind option_bind].
  unfold u32. rewrite Z.mod_small by lia. destruct (Z.leb_spec size (Z.of_nat (length text))).
  - rewrite s32_id by lia. do 2 f_equal. lia.
  - do 2 f_equal. lia.
Qed.

(** C39. [vsnprintf] prints the text of the call, cut to the buffer: for a buffer of
    [size] bytes that does not start at address 0, it stores the first [size - 1]
    characters of the text and a NUL (nothing when [size] is 0), touches no other
    byte, and returns the length of the whole text; [vscnprintf] with a non-empty
    buffer returns the number of characters stored. The text is that of [render]:
    flags, width, precision and qualifier as parsed, for the conversions %c %s %p %d
    %i %o %u %x %X %% and unknown ones, with widths and precisions below 2^30 and
    strings that do not overlap the bytes written; the text is shorter than 2^31 and
    does not reach the end of the address space. *)
Theorem vsnprintf_spec m buf size hi fmt args text :
  (1 <= buf)%nat -> 0 <= size < 2147483648 ->
  render (S (length fmt)) m (Z.of_nat buf) hi fmt args = Some text ->
  Z.of_nat (length text) < 2147483648 -> Z.of_nat buf + Z.of_nat (length text) < 4294967296 ->
  (buf + Nat.min (Z.to_nat size) (length text + 1) <= length m)%nat ->
  Z.of_nat (buf + Nat.min (Z.to_nat size) (length text + 1)) <= hi ->
  let m' := if size =? 0 then m else write m buf (take (Z.to_nat (size - 1)) text ++ [0]) in
  vsnprintf m (Z.of_nat buf) size fmt args = Some (m', Z.of_nat (length text)) /\
  (0 < size -> vscnprintf m (Z.of_nat buf) size fmt args = Some (m', Z.min (Z.of_nat (length text)) (size - 1))).
Proof. apply vsnprintf_prints. Qed.

(** ** Printing and parsing are inverse *)

(** A text stands at [cp], followed by a character that continues no number. *)
Definition text_at (m : mem) (cp : ptr) (text : list Z) : Prop :=
  (forall i c, text !! i = Some c -> m !! (cp + i)%nat = Some c) /\
  exists stop, m !! (cp + length text)%nat = Some stop /\ isxdigit stop = false /\ toupper stop <> 88.

Lemma text_at_tail m cp a text : text_at m cp (a ++ text) -> text_at m (cp + length a) text.
Proof.
  intros [H (stop & Hs & Hr)]. split.
  - intros i c Hi. rewrite <- Nat.add_assoc. apply H. rewrite lookup_app_r by lia. rewrite <- Hi. f_equal. lia.
  - exists stop. rewrite <- Nat.add_assoc, <- length_app. done.
Qed.

Definition value (base : Z) (ds : list Z) : Z := foldl (fun r d => r * base + d) 0 ds.

(** A digit is read back as itself. *)
Lemma digit_read (large : bool) d :
  0 <= d < 16 -> let c := digit_char large d in
  isxdigit c = true /\ (if isdigit c then c - 48 else toupper c - 65 + 10) = d /\ toupper c <> 88.
Proof.
  intros Hd.
  assert (all_from (fun d => let c := digit_char large d in
    isxdigit c && ((if isdigit c then c - 48 else toupper c - 65 + 10) =? d) && negb (toupper c =? 88)) 16 0 = true)
    as H by (destruct large; vm_compute; reflexivity).
  pose proof (all_from_spec _ 16 0 d H ltac:(lia)) as Hp. cbn beta zeta in Hp.
  apply andb_true_iff in Hp as [[H1 H2]%andb_true_iff H3]. split_and!; [done | by apply Z.eqb_eq |].
  by apply negb_true_iff, Z.eqb_neq in H3.
Qed.

(** The loop reads a sequence of digits; [k] is the number of values of [result]. *)
Lemma strto_loop_spec k m base (large : bool) ds :
  0 < k -> base <= 16 -> Forall (fun d => 0 <= d < base) ds -> forall fuel cp r,
  text_at m cp (digit_char large <$> ds) -> (length ds < fuel)%nat ->
  strto_loop (fun z => z mod k) fuel m cp base (r mod k) =
    Some (foldl (fun r d => r * base + d) r ds mod k, (cp + length ds)%nat).
Proof.
  intros Hk Hb. induction 1 as [| d ds Hd _ IH]; intros [| fuel] cp r Ht Hf;
    try (simpl in Hf; lia); cbn [strto_loop]; unfold load.
  - destruct Ht as [_ (stop & Hs & Hx & _)]. simpl in *. rewrite Nat.add_0_r in *. rewrite Hs. cbn [mbind option_bind].
    by rewrite Hx.
  - destruct (digit_read large d) as (H1 & H2 & _); [lia |].
    pose proof (proj1 Ht 0%nat _ eq_refl) as H0. rewrite Nat.add_0_r in H0. rewrite H0. cbn [mbind option_bind].
    rewrite H1, H2. rewrite (proj2 (Z.ltb_lt d base)) by lia.
    replace ((r mod k * base + d) mod k) with ((r * base + d) mod k)
      by (rewrite <- (Z.add_mod_idemp_l (r * base)), <- (Z.mul_mod_idemp_l r), Z.add_mod_idemp_l by lia; done).
    rewrite IH; [simpl; do 2 f_equal; lia | | simpl in Hf; lia].
    apply (text_at_tail m cp [digit_char large d]) in Ht. by rewrite Nat.add_1_r in Ht.
Qed.

Lemma digits_le_valid k base n : 2 <= base -> 0 <= n -> Forall (fun d => 0 <= d < base) (digits_le k base n).
Proof.
  intros Hb. revert n. induction k as [| k IH]; intros n Hn; simpl; [constructor |]. case_match; [constructor |].
  constructor; [apply Z.mod_pos_bound; lia | apply IH, Z.div_pos; lia].
Qed.

Lemma digits_le_value k base n :
  2 <= base -> 0 <= n < 2 ^ Z.of_nat k -> value base (rev (digits_le k base n)) = n.
Proof.
  intros Hb. revert n. induction k as [| k IH]; intros n Hn; simpl digits_le; [simpl in *; unfold value; simpl; lia |].
  destruct (Z.eqb_spec n 0) as [-> |]; [done |]. simpl rev. unfold value. rewrite foldl_app. simpl foldl at 1.
  fold (value base (rev (digits_le k base (n / base)))). rewrite IH by (apply div_lt_pow2; [lia | done]).
  rewrite (Z.div_mod n base) at 3 by lia. lia.
Qed.

(** There are no leading zeros. *)
Lemma digits_le_last k base n d :
  2 <= base -> 0 <= n < 2 ^ Z.of_nat k -> last (digits_le k base n) = Some d -> d <> 0.
Proof.
  intros Hb. revert n. induction k as [| k IH]; intros n Hn; simpl; [done |].
  destruct (Z.eqb_spec n 0); [done |]. pose proof (div_lt_pow2 n base k Hb Hn) as Hq.
  destruct (digits_le k base (n / base)) as [| x l] eqn:E; [| change (last (n mod base :: x :: l)) with (last (x :: l)); rewrite <- E; by apply IH].
  intros [= <-]. assert (n / base = 0) as Hz.
  { destruct k as [| k]; [simpl in Hq; lia |]. simpl in E. destruct (Z.eqb_spec (n / base) 0); done. }
  rewrite (Z.div_mod n base), Hz in n0 by lia. lia.
Qed.

(** A number's text is a sequence of digits. *)
Lemma digits_text_spec large base n :
  2 <= base -> 0 <= n < 18446744073709551616 ->
  exists ds, digits_text large base n = digit_char large <$> ds /\ Forall (fun d => 0 <= d < base) ds /\
    value base ds = n /\ exists d, head ds = Some d /\ (d = 0 -> n = 0 /\ ds = [0]).
Proof.
  intros Hb Hn. unfold digits_text. destruct (Z.eqb_spec n 0) as [-> | Hnz].
  - exists [0]. split_and!; [done | repeat constructor; lia | done | by exists 0].
  - exists (rev (digits_le 64 base n)).
    assert (0 <= n < 2 ^ Z.of_nat 64) as Hn' by (change (2 ^ Z.of_nat 64) with 18446744073709551616; lia).
    split_and!.
    + unfold fmap, list_fmap. symmetry. apply map_rev.
    + apply Forall_rev, digits_le_valid; lia.
    + by apply digits_le_value.
    + pose proof (digits_le_last 64 base n) as Hl. pose proof (digits_le_value 64 base n Hb Hn') as Hv.
      destruct (digits_le 64 base n) as [| x l] eqn:E using rev_ind; [by unfold value in Hv |]. clear IHl.
      rewrite rev_app_distr. simpl. exists x. split; [done |]. intros ->.
      exfalso. eapply Hl; [done | done | | done]. apply last_snoc.
Qed.

Lemma text_at_bound m cp text : text_at m cp text -> (cp + length text < length m)%nat.
Proof. intros [_ (stop & Hs & _)]. by apply lookup_lt_Some in Hs. Qed.

Lemma strto_digits k m cp base large n :
  2 <= base <= 16 -> 0 <= n < k -> k <= 18446744073709551616 -> text_at m cp (digits_text large base n) ->
  strto_loop (fun z => z mod k) (scan m) m cp base 0 = Some (n, (cp + length (digits_text large base n))%nat).
Proof.
  intros Hb Hn Hk Ht. destruct (digits_text_spec large base n) as (ds & Ed & Hv & Hval & _); [lia | lia |].
  rewrite Ed in *. pose proof (text_at_bound _ _ _ Ht) as Hl. rewrite length_fmap in *.
  replace 0 with (0 mod k) at 1 by (apply Z.mod_small; lia).
  rewrite (strto_loop_spec k m base large ds); [| lia | lia | done | done | unfold scan; lia].
  fold (value base ds). rewrite Hval, Z.mod_small by lia. done.
Qed.

(** The digits do not start with a prefix, except a lone 0. *)
Lemma digits_head large base n m cp :
  2 <= base <= 16 -> 0 <= n < 18446744073709551616 -> text_at m cp (digits_text large base n) ->
  exists c, m !! cp = Some c /\ isxdigit c = true /\ toupper c <> 88 /\ c <> 45 /\
    (c = 48 -> n = 0 /\ digits_text large base n = [48]).
Proof.
  intros Hb Hn Ht. destruct (digits_text_spec large base n) as (ds & Ed & Hv & _ & d & Hd & Hz); [lia | lia |].
  destruct ds as [| d' ds]; [done |]. injection Hd as ->. rewrite Ed in *.
  exists (digit_char large d). pose proof (proj1 Ht 0%nat _ eq_refl) as H0. rewrite Nat.add_0_r in H0.
  apply Forall_cons in Hv as [Hd _]. destruct (digit_read large d) as (H1 & _ & H3); [lia |].
  split_and!; [done | done | done | unfold digit_char; repeat case_match; lia |].
  intros Hc. assert (d = 0) as ->.
  { unfold digit_char in Hc. destruct (Z.ltb_spec d 10); [lia |]. destruct large; lia. }
  destruct (Hz eq_refl) as [-> [= ->]]. done.
Qed.

(** Without width and precision there is no padding. *)
Lemma number_text_bare num base type :
  flag type SIGN = false -> 0 <= num ->
  number_text num base (-1) (-1) type =
    (if flag type SPECIAL then if base =? 8 then [48] else if base =? 16 then [48; if flag type LARGE then 88 else 120] else [] else [])
    ++ digits_text (flag type LARGE) base num.
Proof.
  intros Hs Hn. unfold number_text. rewrite Hs. cbn [andb].
  set (prefix := if flag type SPECIAL then _ else _ : list Z). set (ds := digits_text _ _ _).
  replace (zeros (-1 - Z.of_nat (length ds))) with (@nil Z) by (unfold zeros; by replace (Z.to_nat _) with O by lia).
  cbn [app length]. replace (blanks (-1 - Z.of_nat (0 + length prefix + length ds))) with (@nil Z)
    by (unfold blanks; by replace (Z.to_nat _) with O by lia).
  replace (zeros (-1 - Z.of_nat (0 + length prefix + length ds))) with (@nil Z)
    by (unfold zeros; by replace (Z.to_nat _) with O by lia).
  rewrite app_nil_r. by repeat case_match.
Qed.

Lemma s64_id z : -9223372036854775808 <= z < 9223372036854775808 -> s64 z = z.
Proof.
  intros Hz. unfold s64, u64. destruct (decide (0 <= z)).
  - rewrite Z.mod_small by lia. by rewrite (proj2 (Z.ltb_lt _ _)) by lia.
  - replace (z mod 18446744073709551616) with (z + 18446744073709551616) by (apply Z.mod_unique_pos with (-1); lia).
    rewrite (proj2 (Z.ltb_ge _ _)) by lia. lia.
Qed.

Lemma number_text_signed z :
  -9223372036854775808 <= z < 9223372036854775808 ->
  number_text (u64 z) 10 (-1) (-1) SIGN = (if z <? 0 then [45] else []) ++ digits_text false 10 (Z.abs z).
Proof.
  intros Hz. unfold number_text. change (flag SIGN SIGN) with true. change (flag SIGN SPECIAL) with false.
  change (flag SIGN LARGE) with false. change (flag SIGN LEFT) with false. change (flag SIGN ZEROPAD) with false.
  change (flag SIGN PLUS) with false. change (flag SIGN SPACE) with false. cbn [andb].
  assert (s64 (u64 z) = z) as -> by (rewrite <- (s64_id z Hz) at 2; unfold s64, u64; by rewrite Z.mod_mod by lia).
  replace (if z <? 0 then - z else u64 z) with (Z.abs z).
  2: { destruct (Z.ltb_spec z 0); [lia |]. unfold u64. rewrite Z.mod_small; lia. }
  set (ds := digits_text _ _ _).
  replace (zeros (-1 - Z.of_nat (length ds))) with (@nil Z) by (unfold zeros; by replace (Z.to_nat _) with O by lia).
  cbn [app]. match goal with |- blanks ?n ++ _ = _ => replace (blanks n) with (@nil Z)
    by (unfold blanks; by replace (Z.to_nat n) with O by lia) end. done.
Qed.

(** In its own base a number has no prefix to skip. *)
Lemma strto_prefix_plain m cp b n large :
  b = 8 \/ b = 10 \/ b = 16 -> 0 <= n < 18446744073709551616 ->
  text_at m cp (digits_text large b n) -> strto_prefix m cp b = Some (b, cp).
Proof.
  intros Hb Hr Ht. destruct (digits_head large b n m cp) as (c & Hc & _ & _ & _ & Hz); [lia | lia | done |].
  destruct Hb as [-> | [-> | ->]]; [done | done |]. unfold strto_prefix, load. simpl (16 =? 0). simpl (16 =? 16).
  rewrite Hc. cbn [mbind option_bind]. destruct (Z.eqb_spec c 48) as [-> |]; [| done].
  destruct (Hz eq_refl) as [_ Et]. rewrite Et in Ht. destruct Ht as [_ (stop & Hs & _ & Hx)]. simpl in Hs.
  rewrite Nat.add_1_r in Hs. rewrite Hs. cbn [mbind option_bind]. by rewrite (proj2 (Z.eqb_neq _ _) Hx).
Qed.

(** [simple_strtoul] and [simple_strtoull], with the width as a parameter. *)
Definition read (k : Z) (m : mem) (cp : ptr) (base : Z) : option (Z * ptr) :=
  '(base, cp) ← strto_prefix m cp base; strto_loop (fun z => z mod k) (scan m) m cp base 0.

Lemma strto_plain k m cp base num large :
  base = 8 \/ base = 10 \/ base = 16 -> 0 <= num < k -> k <= 18446744073709551616 ->
  text_at m cp (digits_text large base num) ->
  read k m cp base = Some (num, (cp + length (digits_text large base num))%nat).
Proof.
  intros Hbase Hn Hk Ht. unfold read. rewrite (strto_prefix_plain m cp base num large) by (try done; lia).
  cbn [mbind option_bind]. apply strto_digits; [lia | lia | lia | done].
Qed.

(** With base 0 the prefix tells the base. *)
Lemma strto_special k m cp base num large :
  base = 8 \/ base = 10 \/ base = 16 -> 0 <= num < k -> k <= 18446744073709551616 ->
  let text := (if base =? 8 then [48] else if base =? 16 then [48; if large : bool then 88 else 120] else [])
              ++ digits_text large base num in
  text_at m cp text -> read k m cp 0 = Some (num, (cp + length text)%nat).
Proof.
  intros Hbase Hn Hk text Ht. unfold text, read in *.
  assert (forall q b, b = 8 \/ b = 10 \/ b = 16 -> text_at m q (digits_text large b num) -> strto_prefix m cp 0 = Some (b, q) ->
    ('(base, cp) ← strto_prefix m cp 0; strto_loop (fun z => z mod k) (scan m) m cp base 0) = Some (num, (q + length (digits_text large b num))%nat)) as Hdone.
  { intros q b Hb Htq ->. cbn [mbind option_bind]. apply strto_digits; [lia | lia | lia | done]. }
  destruct Hbase as [-> | [-> | ->]]; simpl (_ =? _) in *; cbn iota in *.
  + rewrite length_app, Nat.add_assoc. pose proof (proj1 Ht 0%nat 48 eq_refl) as H0. rewrite Nat.add_0_r in H0.
    apply text_at_tail in Ht. apply Hdone; [by left | done |]. simpl length in *. rewrite Nat.add_1_r in *.
    destruct (digits_head large 8 num m (S cp)) as (c & Hc & _ & Hx & _); [lia | lia | done |].
    unfold strto_prefix, load. simpl (0 =? 0). cbn iota. rewrite H0. cbn [mbind option_bind]. simpl (48 =? 48). cbn iota.
    rewrite Hc. cbn [mbind option_bind]. by rewrite (proj2 (Z.eqb_neq _ _) Hx).
  + cbn [app] in *. destruct (digits_head large 10 num m cp) as (c & Hc & _ & _ & _ & Hz); [lia | lia | done |].
    destruct (decide (c = 48)) as [-> | Hne].
    * destruct (Hz eq_refl) as [-> Et]. rewrite Et in *. destruct Ht as [_ (stop & Hs & Hnx & Hx)]. simpl in Hs.
      rewrite Nat.add_1_r in Hs. unfold strto_prefix, load. simpl (0 =? 0). cbn iota. rewrite Hc.
      cbn [mbind option_bind]. simpl (48 =? 48). cbn iota. rewrite Hs. cbn [mbind option_bind].
      rewrite (proj2 (Z.eqb_neq _ _) Hx). cbn [mbind option_bind]. unfold scan. apply lookup_lt_Some in Hs as Hl.
      destruct (length m) eqn:El; [lia |]. cbn [strto_loop]. unfold load. rewrite Hs. cbn [mbind option_bind]. rewrite Hnx.
      simpl length. by rewrite Nat.add_1_r.
    * apply Hdone; [auto | done |]. unfold strto_prefix, load. simpl (0 =? 0). cbn iota. rewrite Hc. cbn [mbind option_bind].
      by rewrite (proj2 (Z.eqb_neq _ _) Hne).
  + rewrite length_app, Nat.add_assoc. pose proof (proj1 Ht 0%nat 48 eq_refl) as H0. rewrite Nat.add_0_r in H0.
    pose proof (proj1 Ht 1%nat _ eq_refl) as H1. rewrite Nat.add_1_r in H1.
    apply text_at_tail in Ht. apply Hdone; [auto | done |]. simpl length in *.
    replace (cp + 2)%nat with (S (S cp)) in * by lia.
    destruct (digits_head large 16 num m (S (S cp))) as (c & Hc & Hxd & _); [lia | lia | done |].
    unfold strto_prefix, load. simpl (0 =? 0). cbn iota. rewrite H0. cbn [mbind option_bind]. simpl (48 =? 48). cbn iota.
    rewrite H1. cbn [mbind option_bind]. replace (toupper (if large then 88 else 120) =? 88) with true by (by destruct large).
    rewrite Hc. cbn [mbind option_bind]. by rewrite Hxd.
Qed.

(** A sign is read before the digits. *)
Lemma strto_signed k (wrap : Z -> Z) m cp z :
  Z.abs z < k -> k <= 18446744073709551616 ->
  let text := (if z <? 0 then [45] else []) ++ digits_text false 10 (Z.abs z) in
  text_at m cp text ->
  (c ← load m cp;
   if c =? 45 then '(v, endp) ← read k m (S cp) 10; Some (wrap (- v), endp)
   else '(v, endp) ← read k m cp 10; Some (wrap v, endp)) = Some (wrap z, (cp + length text)%nat).
Proof.
  intros Hz Hk text Ht. unfold text, load in *. destruct (Z.ltb_spec z 0).
  - pose proof (proj1 Ht 0%nat 45 eq_refl) as H0. rewrite Nat.add_0_r in H0. rewrite H0. cbn [mbind option_bind].
    change (45 =? 45) with true. cbn iota. apply (text_at_tail m cp [45]) in Ht. simpl length in *. rewrite Nat.add_1_r in Ht.
    rewrite (strto_plain k m (S cp) 10 (Z.abs z) false) by (auto; lia). cbn [mbind option_bind]. do 2 f_equal; [f_equal; lia | lia].
  - cbn [app] in *. destruct (digits_head false 10 (Z.abs z) m cp) as (c & Hc & _ & _ & H45 & _); [lia | lia | done |].
    rewrite Hc. cbn [mbind option_bind]. rewrite (proj2 (Z.eqb_neq c 45)) by done.
    rewrite (strto_plain k m cp 10 (Z.abs z) false) by (auto; lia). cbn [mbind option_bind]. do 2 f_equal. f_equal. lia.
Qed.

Lemma digits_text_length large base n : (length (digits_text large base n) <= 64)%nat.
Proof.
  unfold digits_text. case_match; [simpl; lia |]. rewrite length_rev, length_fmap. apply digits_le_length.
Qed.

(** A short text printed to a large enough buffer stands there, before its NUL. *)
Lemma printed m buf size fmt args text :
  (1 <= buf)%nat -> 0 <= size < 2147483648 -> (buf + 68 <= length m)%nat -> Z.of_nat buf + 68 < 4294967296 ->
  render (S (length fmt)) m (Z.of_nat buf) (Z.of_nat buf + 68) fmt args = Some text -> (length text <= 67)%nat ->
  exists m', vsnprintf m (Z.of_nat buf) size fmt args = Some (m', Z.of_nat (length text)) /\
    (Z.of_nat (length text) < size -> text_at m' buf text).
Proof.
  intros Hb Hs Hm Hm' Hr Hl. destruct (vsnprintf_prints m buf size _ fmt args text Hb Hs Hr) as [E _]; [lia | lia | lia | lia |].
  eexists. split; [exact E |]. intros Hlt. rewrite (proj2 (Z.eqb_neq size 0)) by lia. rewrite take_ge by lia.
  assert (forall i, (i < length text + 1)%nat -> write m buf (text ++ [0]) !! (buf + i)%nat = (text ++ [0]) !! i) as W.
  { intros i Hi. rewrite lookup_write by (rewrite length_app; simpl; lia). rewrite decide_True by (rewrite length_app; simpl; lia).
    f_equal. lia. }
  split.
  - intros i c Hi. pose proof (lookup_lt_Some _ _ _ Hi). rewrite W by lia. by apply lookup_app_l_Some.
  - exists 0. rewrite W by lia. rewrite lookup_app_r, Nat.sub_diag by lia. done.
Qed.

(** The format of an integer conversion: '%', '#' if [special], 'll' if [quad], and the
    conversion character. *)
Definition int_format (special quad : bool) (c : Z) : list Z :=
  [37] ++ (if special then [35] else []) ++ (if quad then [108; 108] else []) ++ [c].

Definition int_arg (quad : bool) (n : Z) : va := if quad then AQuad n else AWord n.
Definition int_bound (quad : bool) : Z := if quad then 18446744073709551616 else 4294967296.

(** The unsigned conversions %o, %u, %x and %X with their bases. *)
Definition unsigned_convs : list (Z * Z) := [(111, 8); (117, 10); (120, 16); (88, 16)].

Lemma render_unsigned m lo hi (special quad : bool) c base num :
  (c, base) ∈ unsigned_convs -> 0 <= num < int_bound quad ->
  let fl := Z.lor (if special then SPECIAL else 0) (if c =? 88 then LARGE else 0) in
  render (S (length (int_format special quad c))) m lo hi (int_format special quad c) [int_arg quad num] =
    Some (number_text num base (-1) (-1) fl).
Proof.
  intros Hc Hn fl. assert ((if quad : bool then u64 num else u32 num) = num) as E.
  { unfold int_bound in Hn. unfold u64, u32. destruct quad; by rewrite Z.mod_small. }
  rewrite <- (app_nil_r (number_text num base (-1) (-1) fl)). rewrite <- E at 2. unfold fl.
  unfold unsigned_convs in Hc. rewrite !elem_of_cons, elem_of_nil in Hc.
  destruct Hc as [[= -> ->] | [[= -> ->] | [[= -> ->] | [[= -> ->] | []]]]]; destruct special, quad; reflexivity.
Qed.

Lemma render_signed m lo hi (quad : bool) z :
  - (int_bound quad / 2) <= z < int_bound quad / 2 ->
  render (S (length (int_format false quad 100))) m lo hi (int_format false quad 100) [int_arg quad z] =
    Some (number_text (u64 z) 10 (-1) (-1) SIGN).
Proof.
  intros Hz. assert ((if quad : bool then u64 z else u64 (s32 (u32 z))) = u64 z) as E.
  { destruct quad; [done |]. change (int_bound false / 2) with 2147483648 in Hz. assert (s32 (u32 z) = s32 z) as -> by (unfold s32, u32; by rewrite Z.mod_mod by lia). by rewrite s32_id by lia. }
  rewrite <- (app_nil_r (number_text (u64 z) 10 (-1) (-1) SIGN)). rewrite <- E. by destruct quad.
Qed.

(** C40. What [vsnprintf] prints is read back. The buffer is not at address 0 and has 68
    bytes of memory. For any 32-bit number printed by %o, %u, %x or %X without width and
    precision into it, with a size that the text fits in, [simple_strtoul] in the base of the
    conversion reads the number from the buffer and stops at the NUL; with the flag '#'
    the same holds for base 0, where the base is found out from the prefix. For 64-bit
    numbers printed with the qualifier ll, [simple_strtoull] does so. [simple_strtol] and
    [simple_strtoll] in base 10 read back what %d and %lld print, the most negative
    numbers included (but not a '+' that the flag '+' adds). *)
Theorem print_parse_roundtrip m buf size (quad : bool) :
  (1 <= buf)%nat -> 0 <= size < 2147483648 -> (buf + 68 <= length m)%nat -> Z.of_nat buf + 68 < 4294967296 ->
  let strto := if quad then simple_strtoull else simple_strtoul in
  let strto_signed := if quad then simple_strtoll else simple_strtol in
  (forall c base (special : bool) num, (c, base) ∈ unsigned_convs -> 0 <= num < int_bound quad ->
     exists m' n, vsnprintf m (Z.of_nat buf) size (int_format special quad c) [int_arg quad num] = Some (m', Z.of_nat n) /\
       (Z.of_nat n < size -> strto m' buf (if special then 0 else base) = Some (num, (buf + n)%nat))) /\
  (forall z, - (int_bound quad / 2) <= z < int_bound quad / 2 ->
     exists m' n, vsnprintf m (Z.of_nat buf) size (int_format false quad 100) [int_arg quad z] = Some (m', Z.of_nat n) /\
       (Z.of_nat n < size -> strto_signed m' buf 10 = Some (z, (buf + n)%nat))).
Proof.
  intros Hb Hs Hm Hm' strto strto_signed'. split.
  - intros c base special num Hc Hn.
    assert (strto = read (int_bound quad)) as -> by (unfold strto; by destruct quad).
    assert (0 <= num < 18446744073709551616) as Hn' by (unfold int_bound in Hn; destruct quad; lia).
    assert (int_bound quad <= 18446744073709551616) as Hk by (unfold int_bound; destruct quad; lia).
    assert (base = 8 \/ base = 10 \/ base = 16) as Hbase.
    { unfold unsigned_convs in Hc. rewrite !elem_of_cons, elem_of_nil in Hc. naive_solver. }
    pose proof (render_unsigned m (Z.of_nat buf) (Z.of_nat buf + 68) special quad c base num Hc Hn) as R. cbv zeta in R.
    rewrite number_text_bare in R by (try lia; by destruct special, (c =? 88)).
    replace (flag _ LARGE) with (c =? 88) in R by (by destruct special, (c =? 88)).
    replace (flag _ SPECIAL) with special in R by (by destruct special, (c =? 88)).
    pose proof (digits_text_length (c =? 88) base num) as Hl.
    destruct (printed m buf size _ _ _ Hb Hs Hm Hm' R) as (m' & E & T).
    { rewrite length_app. destruct special; [| simpl; lia]. repeat case_match; simpl; lia. }
    eexists m', _. split; [exact E |]. intros Hlt. specialize (T Hlt). destruct special; [by apply strto_special |].
    by apply strto_plain.
  - intros z Hz. pose proof (render_signed m (Z.of_nat buf) (Z.of_nat buf + 68) quad z Hz) as R.
    assert (-9223372036854775808 <= z < 9223372036854775808) as Hz'.
    { destruct quad; [done |]. change (int_bound false / 2) with 2147483648 in Hz. lia. }
    rewrite number_text_signed in R by done. pose proof (digits_text_length false 10 (Z.abs z)) as Hl.
    destruct (printed m buf size _ _ _ Hb Hs Hm Hm' R) as (m' & E & T).
    { rewrite length_app. case_match; simpl; lia. }
    eexists m', _. split; [exact E |]. intros Hlt. specialize (T Hlt). unfold strto_signed'. destruct quad.
    + rewrite <- (s64_id z) at 1 by done. apply (strto_signed 18446744073709551616 s64); [lia | lia | done].
    + change (int_bound false / 2) with 2147483648 in Hz. rewrite <- (s32_id z) at 1 by lia.
      apply (strto_signed 4294967296 s32); [lia | lia | done].
Qed.

(** A memory with a buffer of 64 bytes at 4096 and the string "hello" behind it. *)
Definition print_demo : mem := replicate 4160 0 ++ bytes_of "hello" ++ [0].
Definition format_demo : list Z := bytes_of "<%5d|%-4x|%#08X|%s>".
Definition args_demo : list va := [AWord (-42); AWord 255; AWord 0xbeef; AWord 4160].

Lemma vsnprintf_spec_witness :
  exists m', vsnprintf print_demo 4096 16 format_demo args_demo = Some (m', 27) /\
    vscnprintf print_demo 4096 16 format_demo args_demo = Some (m', 15) /\
    block m' 4096 16 = bytes_of "<  -42|ff  |0X0" ++ [0].
Proof.
  destruct (vsnprintf_spec print_demo 4096 16 4112 format_demo args_demo (bytes_of "<  -42|ff  |0X00BEEF|hello>"))
    as [H1 H2].
  - lia.
  - lia.
  - vm_compute. reflexivity.
  - vm_compute. reflexivity.
  - vm_compute. reflexivity.
  - vm_compute. repeat constructor.
  - vm_compute. discriminate.
  - eexists. split; [exact H1 |]. split; [apply H2; lia |]. vm_compute. reflexivity.
Defined.

(** "%#X" of 0xbeef and "%d" of the most negative number. *)
Lemma print_parse_roundtrip_witness :
  (exists m' n, vsnprintf print_demo 4000 32 (bytes_of "%#X") [AWord 0xbeef] = Some (m', Z.of_nat n) /\
     (Z.of_nat n < 32 -> simple_strtoul m' 4000 0 = Some (0xbeef, (4000 + n)%nat))) /\
  (exists m' n, vsnprintf print_demo 4000 32 (bytes_of "%d") [AWord (-2147483648)] = Some (m', Z.of_nat n) /\
     (Z.of_nat n < 32 -> simple_strtol m' 4000 10 = Some (-2147483648, (4000 + n)%nat))).
Proof.
  destruct (print_parse_roundtrip print_demo 4000 32 false) as [H1 H2]; [lia | lia | vm_compute; lia | lia |]. split.
  - apply (H1 88 16 true 0xbeef); [right; right; right; left | unfold int_bound; lia].
  - apply (H2 (-2147483648)). vm_compute. split; [discriminate | reflexivity].
Defined.

(** A buffer of size 0 at address 0 is written to: [end] is [buf - 1], the last
    address of all. *)
Lemma vsnprintf_null_writes :
  vsnprintf [7; 7; 7; 7] 0 0 (bytes_of "ab") [] = Some (bytes_of "ab" ++ [0; 7], 2).
Proof. vm_compute. reflexivity. Qed.

(** [vscnprintf] with a buffer of size 0 returns -1. *)
Lemma vscnprintf_empty : vscnprintf [7; 7; 7; 7] 1 0 (bytes_of "ab") [] = Some ([7; 7; 7; 7], -1).
Proof. vm_compute. reflexivity. Qed.

(** %zd does not extend the sign of its argument. *)
Lemma vsnprintf_zd_unsigned :
  render 4 [] 0 0 (bytes_of "%zd") [AWord (-1)] = Some (bytes_of "4294967295").
Proof. vm_compute. reflexivity. Qed.
