(* ===== verification/KFifo.v ===== *)
(** * Kernel FIFO: kernel/kfifo.c and include/linux/kfifo.h

    A byte queue in a buffer whose size is a power of two. The indices [in] and
    [out] are free-running 32-bit counters: they are reduced modulo the size
    only to address the buffer, and their difference is the number of bytes in
    the queue even after they wrap around.

    The buffer lies in the byte memory, next to the caller's buffers, and the
    data is moved by [memcpy], of which only the law of the class [Memcpy] is
    used. A spinlock taken around an operation that runs to completion has no
    effect on its result, so the locked entry points are their sequential
    bodies. [kmalloc] is the slab allocator's: its answers are arguments. *)

From S2P Require Import Prelude Bitops KString.

Record kfifo := mk_kfifo {
  buffer : ptr;      (* the buffer holding the data *)
  size : Z;          (* the size of the allocated buffer *)
  in_ : Z;           (* data is added at offset (in % size) *)
  out : Z;           (* data is extracted from off. (out % size) *)
  lock : Z           (* address of the lock *)
}.

(** The result of an allocation: an error number or the FIFO. *)
Definition kfifo_res : Type := Z + kfifo.

(** [None] is the [BUG_ON] on a size that is not a power of two (0 passes). *)
Definition kfifo_init (buf : ptr) (size lock : Z) (kmalloc_struct : bool) : option kfifo_res :=
  if negb (Z.land size (size ⊖ 1) =? 0) then None
  else if negb kmalloc_struct then Some (inl (- ENOMEM))
  else Some (inr (mk_kfifo buf size 0 0 lock)).

(** Returns the FIFO or the error, and the addresses passed to [kfree]. *)
Definition kfifo_alloc (size lock : Z) (kmalloc : Z -> option ptr) (kmalloc_struct : bool)
  : option (kfifo_res * list ptr) :=
  size ← (if negb (Z.land size (size ⊖ 1) =? 0)
          then if 0x80000000 <? size then None else Some (roundup_pow_of_two size)
          else Some size);
  match kmalloc size with
  | None => Some (inl (- ENOMEM), [])
  | Some buf =>
      ret ← kfifo_init buf size lock kmalloc_struct;
      Some (ret, match ret with inl _ => [buf] | inr _ => [] end)
  end.

Definition set_in (f : kfifo) (v : Z) : kfifo :=
  mk_kfifo (buffer f) (size f) v (out f) (lock f).
Definition set_out (f : kfifo) (v : Z) : kfifo :=
  mk_kfifo (buffer f) (size f) (in_ f) v (lock f).

Definition __kfifo_reset (f : kfifo) : kfifo := set_in (set_out f 0) 0.
Definition kfifo_reset (f : kfifo) : kfifo := __kfifo_reset f.
Definition __kfifo_len (f : kfifo) : Z := in_ f ⊖ out f.
Definition kfifo_len (f : kfifo) : Z := __kfifo_len f.

Section Fifo.
Context (memcpy : mem -> ptr -> ptr -> nat -> option (mem * ptr)).

Definition __kfifo_put (m : mem) (fifo : kfifo) (buf : ptr) (len : Z)
  : option (mem * kfifo * Z) :=
  let len := Z.min len (u32 (size fifo - in_ fifo + out fifo)) in
  (* first put the data starting from fifo->in to buffer end *)
  let off := Z.land (in_ fifo) (size fifo ⊖ 1) in
  let l := Z.min len (size fifo ⊖ off) in
  '(m, _) ← memcpy m (buffer fifo + Z.to_nat off)%nat buf (Z.to_nat l);
  (* then put the rest (if any) at the beginning of the buffer *)
  '(m, _) ← memcpy m (buffer fifo) (buf + Z.to_nat l)%nat (Z.to_nat (len ⊖ l));
  Some (m, set_in fifo (in_ fifo ⊕ len), len).

Definition __kfifo_get (m : mem) (fifo : kfifo) (buf : ptr) (len : Z)
  : option (mem * kfifo * Z) :=
  let len := Z.min len (in_ fifo ⊖ out fifo) in
  (* first get the data from fifo->out until the end of the buffer *)
  let off := Z.land (out fifo) (size fifo ⊖ 1) in
  let l := Z.min len (size fifo ⊖ off) in
  '(m, _) ← memcpy m buf (buffer fifo + Z.to_nat off)%nat (Z.to_nat l);
  (* then get the rest (if any) from the beginning of the buffer *)
  '(m, _) ← memcpy m (buf + Z.to_nat l)%nat (buffer fifo) (Z.to_nat (len ⊖ l));
  Some (m, set_out fifo (out fifo ⊕ len), len).

Definition kfifo_put (m : mem) (fifo : kfifo) (buf : ptr) (len : Z) := __kfifo_put m fifo buf len.

(** When the FIFO is empty the indices go back to 0, so that the next transfer
    does not wrap. *)
Definition kfifo_get (m : mem) (fifo : kfifo) (buf : ptr) (len : Z)
  : option (mem * kfifo * Z) :=
  '(m, fifo, ret) ← __kfifo_get m fifo buf len;
  Some (m, if in_ fifo =? out fifo then set_in (set_out fifo 0) 0 else fifo, ret).
End Fifo.

(** ** Invariant and contents *)

(** The address of stream position [x] and the byte there. *)
Definition slot (f : kfifo) (x : Z) : ptr := (buffer f + Z.to_nat (x mod size f))%nat.

Definition contents (m : mem) (f : kfifo) : list Z :=
  (fun i => m !!! slot f (out f + i)) <$> seqZ 0 (__kfifo_len f).

Record kfifo_inv (m : mem) (f : kfifo) : Prop := {
  inv_size : exists k, 0 <= k <= 31 /\ size f = 2 ^ k;
  inv_in : is_u32 (in_ f);
  inv_out : is_u32 (out f);
  inv_len : __kfifo_len f <= size f;
  inv_buf : (buffer f + Z.to_nat (size f) <= length m)%nat
}.

(** A caller's region that lies in the memory and outside the FIFO's buffer. *)
Definition caller_region (m : mem) (f : kfifo) (p : ptr) (n : Z) : Prop :=
  (p + Z.to_nat n <= length m)%nat /\
  (p + Z.to_nat n <= buffer f \/ buffer f + Z.to_nat (size f) <= p)%nat.

Lemma inv_size_range m f : kfifo_inv m f -> 1 <= size f <= 2147483648.
Proof.
  intros [(k & Hk & ->) _ _ _ _]. change 2147483648 with (2 ^ 31).
  split; [apply (Z.pow_le_mono_r 2 0 k) | apply Z.pow_le_mono_r]; lia.
Qed.

(** The mask extracts the position modulo the size. *)
Lemma inv_mask m f x : kfifo_inv m f -> Z.land x (size f ⊖ 1) = x mod size f.
Proof.
  intros H. pose proof (inv_size_range _ _ H). destruct (inv_size _ _ H) as (k & Hk & Hs).
  rewrite u32_id by (unfold is_u32; lia). rewrite Hs. apply land_pow2_mask. lia.
Qed.

Lemma inv_mod_u32 m f x : kfifo_inv m f -> (u32 x) mod size f = x mod size f.
Proof.
  intros H. destruct (inv_size _ _ H) as (k & Hk & ->). apply mod_u32_pow2. lia.
Qed.

Lemma length_contents m f : length (contents m f) = Z.to_nat (__kfifo_len f).
Proof. unfold contents. by rewrite length_fmap, length_seqZ. Qed.

Lemma lookup_contents m f i :
  contents m f !! i =
    if decide (Z.of_nat i < __kfifo_len f) then Some (m !!! slot f (out f + Z.of_nat i)) else None.
Proof.
  unfold contents. rewrite list_lookup_fmap. case_decide.
  - rewrite lookup_seqZ_lt by lia. done.
  - rewrite lookup_seqZ_ge by lia. done.
Qed.

Lemma slot_mod f x y : x mod size f = y mod size f -> slot f x = slot f y.
Proof. unfold slot. by intros ->. Qed.

(** The ring: the offset reached [t] positions after [x]. *)
Lemma ring_offset s x t :
  0 < s -> 0 <= t <= s ->
  (x + t) mod s = if x mod s + t <? s then x mod s + t else x mod s + t - s.
Proof.
  intros Hs Ht. pose proof (Z.mod_pos_bound x s Hs).
  rewrite <- (Z.add_mod_idemp_l x t s) by lia.
  destruct (Z.ltb_spec (x mod s + t) s).
  - apply Z.mod_small. lia.
  - replace (x mod s + t) with ((x mod s + t - s) + 1 * s) at 1 by lia.
    rewrite Z_mod_plus_full. apply Z.mod_small. lia.
Qed.

(** ** Effect of the two copies *)

(** Copy [len] bytes at [src] into the ring from stream position [x]: up to the
    end of the buffer, then from its start. *)
Definition ring_write (m : mem) (f : kfifo) (x : Z) (src : ptr) (len : Z) : mem :=
  let l := Z.min len (size f - x mod size f) in
  write (write m (slot f x) (block m src (Z.to_nat l)))
    (buffer f) (block m (src + Z.to_nat l)%nat (Z.to_nat (len - l))).

Lemma length_ring_write m f x src len : length (ring_write m f x src len) = length m.
Proof. unfold ring_write. by rewrite !length_write. Qed.

Section RingWrite.
Context (m : mem) (f : kfifo) (x : Z) (src : ptr) (len : Z).
Context (Hinv : kfifo_inv m f) (Hlen : 0 <= len <= size f).
Context (Hsrc : (src + Z.to_nat len <= length m)%nat).

Let l := Z.min len (size f - x mod size f).

Lemma ring_write_lookup p :
  ring_write m f x src len !! p =
    if decide (buffer f <= p < buffer f + Z.to_nat (len - l))%nat
    then m !! (src + Z.to_nat l + (p - buffer f))%nat
    else if decide (slot f x <= p < slot f x + Z.to_nat l)%nat
    then m !! (src + (p - slot f x))%nat
    else m !! p.
Proof.
  pose proof (inv_size_range _ _ Hinv). pose proof (inv_buf _ _ Hinv).
  pose proof (Z.mod_pos_bound x (size f)). unfold ring_write. fold l. unfold slot.
  rewrite lookup_write by (rewrite length_write, length_block; lia).
  rewrite length_block by lia. case_decide; [by rewrite lookup_block by lia |].
  rewrite lookup_write by (rewrite length_block; lia).
  rewrite length_block by lia. case_decide; [| done].
  by rewrite lookup_block by lia.
Qed.

Lemma ring_write_slot t :
  0 <= t < size f ->
  ring_write m f x src len !! slot f (x + t) =
    if t <? len then m !! (src + Z.to_nat t)%nat else m !! slot f (x + t).
Proof.
  intros Ht. pose proof (inv_size_range _ _ Hinv). pose proof (inv_buf _ _ Hinv).
  pose proof (Z.mod_pos_bound x (size f)). rewrite ring_write_lookup. unfold slot.
  rewrite ring_offset by lia.
  destruct (Z.ltb_spec (x mod size f + t) (size f)), (Z.ltb_spec t len);
    repeat case_decide; try lia; try done; f_equal; lia.
Qed.

Lemma ring_write_outside p :
  (p < buffer f \/ buffer f + Z.to_nat (size f) <= p)%nat ->
  ring_write m f x src len !! p = m !! p.
Proof.
  intros Hp. pose proof (inv_size_range _ _ Hinv). pose proof (Z.mod_pos_bound x (size f)).
  rewrite ring_write_lookup. unfold slot. repeat case_decide; try lia. done.
Qed.
End RingWrite.

(** The bytes of the ring from stream position [x]. *)
Definition ring_read (m : mem) (f : kfifo) (x len : Z) : list Z :=
  (fun i => m !!! slot f (x + i)) <$> seqZ 0 len.

Lemma length_ring_read m f x len : length (ring_read m f x len) = Z.to_nat len.
Proof. unfold ring_read. by rewrite length_fmap, length_seqZ. Qed.

Lemma lookup_ring_read m f x len i :
  (i < Z.to_nat len)%nat -> ring_read m f x len !! i = Some (m !!! slot f (x + Z.of_nat i)).
Proof. intros H. unfold ring_read. rewrite list_lookup_fmap, lookup_seqZ_lt by lia. done. Qed.

Lemma ring_read_app m f x a b :
  0 <= a -> 0 <= b -> ring_read m f x (a + b) = ring_read m f x a ++ ring_read m f (x + a) b.
Proof.
  intros Ha Hb. list_ext i. destruct (decide (i < Z.to_nat a)%nat).
  - rewrite lookup_app_l by (rewrite length_ring_read; lia). by rewrite !lookup_ring_read by lia.
  - rewrite lookup_app_r by (rewrite length_ring_read; lia). rewrite length_ring_read.
    destruct (decide (i < Z.to_nat (a + b))%nat).
    + rewrite !lookup_ring_read by lia. do 3 f_equal. lia.
    + rewrite !lookup_ge_None_2 by (rewrite length_ring_read; lia). done.
Qed.

Lemma ring_read_ext m m' f f' x x' len :
  (forall t, 0 <= t < len -> m !! slot f (x + t) = m' !! slot f' (x' + t)) ->
  ring_read m f x len = ring_read m' f' x' len.
Proof.
  intros H. apply list_fmap_ext. intros i t Ht.
  apply lookup_seqZ in Ht as [-> Ht]. by rewrite !list_lookup_total_alt, H by lia.
Qed.

Lemma ring_read_is_block m b f x len src :
  (src + Z.to_nat len <= length b)%nat ->
  (forall t, 0 <= t < len -> m !! slot f (x + t) = b !! (src + Z.to_nat t)%nat) ->
  ring_read m f x len = block b src (Z.to_nat len).
Proof.
  intros Hb H. list_ext i. destruct (decide (i < Z.to_nat len)%nat).
  - rewrite lookup_ring_read, lookup_block, list_lookup_total_alt, H, Nat2Z.id by lia.
    destruct (lookup_lt_is_Some_2 b (src + i)) as [c ->]; [lia | done].
  - rewrite !lookup_ge_None_2; [done | rewrite length_block; lia | rewrite length_ring_read; lia].
Qed.

Lemma slot_in_buffer m f x :
  kfifo_inv m f -> (buffer f <= slot f x < buffer f + Z.to_nat (size f))%nat.
Proof.
  intros H. pose proof (inv_size_range _ _ H). pose proof (Z.mod_pos_bound x (size f)).
  unfold slot. lia.
Qed.

Lemma lookup_slot m f x : kfifo_inv m f -> m !! slot f x = Some (m !!! slot f x).
Proof.
  intros H. pose proof (slot_in_buffer m f x H). pose proof (inv_buf _ _ H).
  apply list_lookup_lookup_total_lt. lia.
Qed.

(** Reading the ring in two blocks. *)
Lemma ring_read_blocks m f x len :
  kfifo_inv m f -> 0 <= len <= size f ->
  let l := Z.min len (size f - x mod size f) in
  ring_read m f x len =
    block m (slot f x) (Z.to_nat l) ++ block m (buffer f) (Z.to_nat (len - l)).
Proof.
  intros H Hlen l. pose proof (inv_size_range _ _ H). pose proof (inv_buf _ _ H).
  pose proof (Z.mod_pos_bound x (size f)).
  assert (length (block m (slot f x) (Z.to_nat l)) = Z.to_nat l) as Hl1
    by (apply length_block; unfold slot; lia).
  list_ext i. destruct (decide (i < Z.to_nat len)%nat).
  - rewrite lookup_ring_read, <- lookup_slot by (done || lia).
    unfold slot at 1. rewrite ring_offset by lia.
    destruct (Z.ltb_spec (x mod size f + Z.of_nat i) (size f)).
    + rewrite lookup_app_l, lookup_block by lia. f_equal. unfold slot. lia.
    + rewrite lookup_app_r, lookup_block, Hl1 by lia. f_equal. lia.
  - rewrite !lookup_ge_None_2; [done | |].
    + rewrite length_app, Hl1, length_block; lia.
    + rewrite length_ring_read. lia.
Qed.

(** ** The operations on the contents *)

Section Correct.
Context (memcpy : mem -> ptr -> ptr -> nat -> option (mem * ptr)).
Context `{Hcpy : !Memcpy memcpy}.

Lemma kfifo_len_range m f : kfifo_inv m f -> 0 <= __kfifo_len f <= size f.
Proof.
  intros H. pose proof (inv_len _ _ H). unfold __kfifo_len in *.
  pose proof (u32_range (in_ f - out f)). unfold is_u32 in *. lia.
Qed.

Lemma kfifo_room m f :
  kfifo_inv m f -> u32 (size f - in_ f + out f) = size f - __kfifo_len f.
Proof.
  intros H. pose proof (kfifo_len_range _ _ H). pose proof (inv_size_range _ _ H).
  pose proof (inv_in _ _ H). pose proof (inv_out _ _ H). unfold __kfifo_len in *.
  word_lia.
Qed.

Lemma put_run m f src len :
  kfifo_inv m f -> 0 <= len -> caller_region m f src (Z.min len (size f - __kfifo_len f)) ->
  let r := Z.min len (size f - __kfifo_len f) in
  __kfifo_put memcpy m f src len =
    Some (ring_write m f (in_ f) src r, set_in f (in_ f ⊕ r), r).
Proof.
  intros H Hlen [Hr1 Hr2] r. pose proof (inv_size_range _ _ H). pose proof (inv_buf _ _ H).
  pose proof (kfifo_len_range _ _ H). pose proof (Z.mod_pos_bound (in_ f) (size f)).
  unfold __kfifo_put. rewrite (kfifo_room _ _ H), (inv_mask _ _ _ H).
  rewrite (u32_id (size f - _)) by (unfold is_u32; lia).
  rewrite (u32_id (Z.min len _ - _)) by (unfold is_u32; lia). fold r. fold r in Hr1, Hr2.
  unfold ring_write. set (l := Z.min r (size f - in_ f mod size f)).
  rewrite (memcpy_law m (buffer f + Z.to_nat (in_ f mod size f))) by lia. simpl.
  rewrite (memcpy_law (cpy := memcpy) _ (buffer f)) by (rewrite ?length_write; lia). simpl.
  rewrite block_write_other; [done | rewrite length_block; lia |].
  rewrite length_block by lia. lia.
Qed.

Lemma contents_ring m f : contents m f = ring_read m f (out f) (__kfifo_len f).
Proof. done. Qed.

Lemma kfifo_inv_frame m m' f : length m' = length m -> kfifo_inv m f -> kfifo_inv m' f.
Proof. intros Hl [? ? ? ? ?]. split; auto. lia. Qed.

Lemma kfifo_len_put m f r :
  kfifo_inv m f -> 0 <= r <= size f - __kfifo_len f ->
  __kfifo_len (set_in f (in_ f ⊕ r)) = __kfifo_len f + r.
Proof.
  intros H Hr. pose proof (inv_in _ _ H). pose proof (inv_out _ _ H).
  pose proof (inv_size_range _ _ H). unfold __kfifo_len in *; simpl in *. word_lia.
Qed.

Lemma kfifo_len_get m f r :
  kfifo_inv m f -> 0 <= r <= __kfifo_len f ->
  __kfifo_len (set_out f (out f ⊕ r)) = __kfifo_len f - r.
Proof.
  intros H Hr. pose proof (inv_in _ _ H). pose proof (inv_out _ _ H).
  pose proof (inv_size_range _ _ H). unfold __kfifo_len in *; simpl in *. word_lia.
Qed.

(** [in] is [out] advanced by the length, as far as the ring can tell. *)
Lemma slot_in_out m f t :
  kfifo_inv m f -> slot f (out f + __kfifo_len f + t) = slot f (in_ f + t).
Proof.
  intros H. apply slot_mod. unfold __kfifo_len.
  replace (out f + (in_ f ⊖ out f) + t) with ((in_ f ⊖ out f) + (out f + t)) by lia.
  pose proof (inv_size_range _ _ H).
  rewrite <- Z.add_mod_idemp_l, (inv_mod_u32 m), Z.add_mod_idemp_l by (done || lia).
  f_equal. lia.
Qed.

Lemma put_contents m f src r :
  kfifo_inv m f -> 0 <= r <= size f - __kfifo_len f ->
  (src + Z.to_nat r <= length m)%nat ->
  let f' := set_in f (in_ f ⊕ r) in let m' := ring_write m f (in_ f) src r in
  kfifo_inv m' f' /\ contents m' f' = contents m f ++ block m src (Z.to_nat r).
Proof.
  intros H Hr Hsrc f' m'. pose proof (inv_size_range _ _ H). pose proof (kfifo_len_range _ _ H).
  pose proof (kfifo_len_put m f r H Hr) as Hl'. fold f' in Hl'.
  assert (length m' = length m) as Hlm by apply length_ring_write.
  assert (forall x, slot f' x = slot f x) as Hslot by done.
  split.
  { destruct H as [? ? ? ? ?]. split; simpl; auto; [apply u32_range | lia | lia]. }
  rewrite !contents_ring, Hl', ring_read_app by lia. f_equal.
  - apply ring_read_ext. intros t Ht. rewrite Hslot. unfold m'. simpl.
    assert (slot f (out f + t) = slot f (in_ f + (size f - __kfifo_len f + t))) as ->.
    { rewrite <- (slot_in_out m) by done. apply slot_mod.
      rewrite <- (Z_mod_plus_full (out f + t) 1 (size f)). f_equal. lia. }
    rewrite (ring_write_slot m) by (done || lia).
    destruct (Z.ltb_spec (size f - __kfifo_len f + t) r); [lia | done].
  - apply ring_read_is_block; [lia |]. intros t Ht. rewrite Hslot. unfold m'. simpl.
    rewrite (slot_in_out m), (ring_write_slot m) by (done || lia).
    destruct (Z.ltb_spec t r); [done | lia].
Qed.

Lemma put_spec m f src len :
  kfifo_inv m f -> 0 <= len -> caller_region m f src (Z.min len (size f - __kfifo_len f)) ->
  exists m' f', let r := Z.min len (size f - Z.of_nat (length (contents m f))) in
    __kfifo_put memcpy m f src len = Some (m', f', r) /\ kfifo_inv m' f' /\
    contents m' f' = contents m f ++ block m src (Z.to_nat r) /\
    buffer f' = buffer f /\ size f' = size f /\ length m' = length m /\
    (forall p, (p < buffer f \/ buffer f + Z.to_nat (size f) <= p)%nat -> m' !! p = m !! p).
Proof.
  intros H Hlen Hr. pose proof (put_run m f src len H Hlen Hr) as Hrun. simpl in Hrun.
  pose proof (kfifo_len_range _ _ H). set (r := Z.min len (size f - __kfifo_len f)) in *.
  destruct (put_contents m f src r H) as [Hi Hc]; [lia | apply Hr |].
  exists (ring_write m f (in_ f) src r), (set_in f (in_ f ⊕ r)). simpl.
  rewrite length_contents, Z2Nat.id by lia. fold r.
  split_and!; try done; [apply length_ring_write |].
  intros p Hp. apply ring_write_outside; [done | lia | apply Hr | done].
Qed.

Lemma get_run m f dst len :
  kfifo_inv m f -> 0 <= len -> caller_region m f dst (Z.min len (__kfifo_len f)) ->
  let r := Z.min len (__kfifo_len f) in
  __kfifo_get memcpy m f dst len =
    Some (write m dst (ring_read m f (out f) r), set_out f (out f ⊕ r), r).
Proof.
  intros H Hlen [Hr1 Hr2] r. pose proof (inv_size_range _ _ H). pose proof (inv_buf _ _ H).
  pose proof (kfifo_len_range _ _ H). pose proof (Z.mod_pos_bound (out f) (size f)).
  unfold __kfifo_get. rewrite (inv_mask _ _ _ H). fold (__kfifo_len f). fold r. fold r in Hr1, Hr2.
  rewrite (u32_id (size f - _)) by (unfold is_u32; lia).
  rewrite (u32_id (r - _)) by (unfold is_u32; lia).
  rewrite (ring_read_blocks m f (out f) r) by (done || lia).
  set (l := Z.min r (size f - out f mod size f)). unfold slot.
  rewrite (memcpy_law m dst) by lia. simpl.
  rewrite (memcpy_law (cpy := memcpy) _ (dst + Z.to_nat l)) by (rewrite ?length_write; lia). simpl.
  rewrite block_write_other by (rewrite length_block; lia).
  rewrite write_app; rewrite ?length_block by lia; [done | lia].
Qed.

Lemma get_contents m m' f r :
  kfifo_inv m f -> 0 <= r <= __kfifo_len f -> length m' = length m ->
  (forall p, (buffer f <= p < buffer f + Z.to_nat (size f))%nat -> m' !! p = m !! p) ->
  let f' := set_out f (out f ⊕ r) in
  kfifo_inv m' f' /\ ring_read m f (out f) r = take (Z.to_nat r) (contents m f) /\
  contents m' f' = drop (Z.to_nat r) (contents m f).
Proof.
  intros H Hr Hlm Hsame f'. pose proof (inv_size_range _ _ H). pose proof (kfifo_len_range _ _ H).
  pose proof (kfifo_len_get m f r H Hr) as Hl'. fold f' in Hl'.
  assert (contents m f = ring_read m f (out f) r ++ ring_read m f (out f + r) (__kfifo_len f - r))
    as Hsplit by (rewrite contents_ring, <- ring_read_app by lia; f_equal; lia).
  split_and!.
  - destruct H as [? ? ? ? ?]. split; simpl; auto; [apply u32_range | lia | lia].
  - rewrite Hsplit, take_app_length'; [done |]. by rewrite length_ring_read.
  - rewrite Hsplit, drop_app_length' by (by rewrite length_ring_read).
    rewrite contents_ring, Hl'. apply ring_read_ext. intros t Ht.
    change (slot f' (out f' + t)) with (slot f ((out f ⊕ r) + t)).
    rewrite Hsame by (apply (slot_in_buffer m); done). f_equal. apply slot_mod.
    by rewrite <- Z.add_mod_idemp_l, (inv_mod_u32 m), Z.add_mod_idemp_l by (done || lia).
Qed.

Lemma get_spec m f dst len :
  kfifo_inv m f -> 0 <= len -> caller_region m f dst (Z.min len (__kfifo_len f)) ->
  exists m' f', let r := Z.min len (Z.of_nat (length (contents m f))) in
    __kfifo_get memcpy m f dst len = Some (m', f', r) /\ kfifo_inv m' f' /\
    m' = write m dst (take (Z.to_nat r) (contents m f)) /\
    contents m' f' = drop (Z.to_nat r) (contents m f) /\
    buffer f' = buffer f /\ size f' = size f.
Proof.
  intros H Hlen Hr. pose proof (get_run m f dst len H Hlen Hr) as Hrun. simpl in Hrun.
  pose proof (kfifo_len_range _ _ H). set (r := Z.min len (__kfifo_len f)) in *.
  destruct Hr as [Hr1 Hr2].
  destruct (get_contents m (write m dst (ring_read m f (out f) r)) f r H) as (Hi & Ht & Hd).
  { lia. }
  { by rewrite length_write. }
  { intros p Hp. rewrite lookup_write by (rewrite length_ring_read; lia).
    by rewrite length_ring_read, decide_False by lia. }
  eexists _, _. simpl. rewrite length_contents, Z2Nat.id by lia. fold r.
  split_and!; [exact Hrun | done | by rewrite Ht | done | done | done].
Qed.

Lemma contents_empty m f : __kfifo_len f = 0 -> contents m f = [].
Proof. intros H. unfold contents. by rewrite H. Qed.

Lemma reset_spec m f :
  kfifo_inv m f -> kfifo_inv m (kfifo_reset f) /\ contents m (kfifo_reset f) = [].
Proof.
  intros H. pose proof (inv_size_range _ _ H). split; [| done].
  destruct H as [? ? ? ? ?]. split; simpl; auto; try (unfold is_u32; lia).
  change (0 <= size f). lia.
Qed.

(** Going back to index 0 when the FIFO has run empty is not observable. *)
Lemma kfifo_get_spec m f dst len :
  kfifo_inv m f -> 0 <= len -> caller_region m f dst (Z.min len (__kfifo_len f)) ->
  exists m' f', let r := Z.min len (Z.of_nat (length (contents m f))) in
    kfifo_get memcpy m f dst len = Some (m', f', r) /\ kfifo_inv m' f' /\
    m' = write m dst (take (Z.to_nat r) (contents m f)) /\
    contents m' f' = drop (Z.to_nat r) (contents m f) /\
    buffer f' = buffer f /\ size f' = size f.
Proof.
  intros H Hlen Hr. destruct (get_spec m f dst len H Hlen Hr)
    as (m' & f' & Hg & Hi & Hm & Hc & Hb & Hs).
  unfold kfifo_get. rewrite Hg. cbn [mbind option_bind].
  destruct (Z.eqb_spec (in_ f') (out f')) as [E |].
  - exists m', (kfifo_reset f'). destruct (reset_spec m' f' Hi) as [Hri Hrc].
    split_and!; try done. rewrite Hrc, <- Hc. symmetry. apply contents_empty.
    unfold __kfifo_len. by rewrite E, Z.sub_diag.
  - exists m', f'. by split_and!.
Qed.

(** ** Refinement of a bounded queue *)

(** The calls a client makes, and what it sees. The client fills or empties its
    own buffer at [io]. *)
Inductive op :=
  | OpPut (data : list Z)
  | OpGet (len : Z)
  | OpReset
  | OpLen.

Inductive obs :=
  | ObsPut (n : Z)
  | ObsGet (data : list Z)
  | ObsReset
  | ObsLen (n : Z).

Definition exec (io : ptr) (st : mem * kfifo) (o : op) : option (mem * kfifo * obs) :=
  let '(m, f) := st in
  match o with
  | OpPut data =>
      '(m, f, r) ← kfifo_put memcpy (write m io data) f io (Z.of_nat (length data));
      Some (m, f, ObsPut r)
  | OpGet len =>
      '(m, f, r) ← kfifo_get memcpy m f io len;
      Some (m, f, ObsGet (block m io (Z.to_nat r)))
  | OpReset => Some (m, kfifo_reset f, ObsReset)
  | OpLen => Some (m, f, ObsLen (kfifo_len f))
  end.

Fixpoint exec_all (io : ptr) (st : mem * kfifo) (ops : list op) : option (list obs) :=
  match ops with
  | [] => Some []
  | o :: ops =>
      '(m, f, b) ← exec io st o;
      bs ← exec_all io (m, f) ops;
      Some (b :: bs)
  end.

(** The abstract queue of capacity [cap]: a list of bytes. *)
Definition q_exec (cap : nat) (q : list Z) (o : op) : list Z * obs :=
  match o with
  | OpPut data =>
      let room := (cap - length q)%nat in
      (q ++ take room data, ObsPut (Z.of_nat (length (take room data))))
  | OpGet len => (drop (Z.to_nat len) q, ObsGet (take (Z.to_nat len) q))
  | OpReset => ([], ObsReset)
  | OpLen => (q, ObsLen (Z.of_nat (length q)))
  end.

Fixpoint q_exec_all (cap : nat) (q : list Z) (ops : list op) : list obs :=
  match ops with
  | [] => []
  | o :: ops => let '(q, b) := q_exec cap q o in b :: q_exec_all cap q ops
  end.

(** The client's transfers fit in its buffer of [n] bytes. *)
Definition op_fits (n : Z) (o : op) : Prop :=
  match o with
  | OpPut data => Z.of_nat (length data) <= n
  | OpGet len => 0 <= len <= n
  | OpReset | OpLen => True
  end.

Record refines (io : ptr) (n : Z) (m : mem) (f : kfifo) (cap : nat) (q : list Z) : Prop := {
  ref_inv : kfifo_inv m f;
  ref_cap : Z.of_nat cap = size f;
  ref_contents : contents m f = q;
  ref_io : caller_region m f io n
}.

Lemma caller_region_le m f p n n' :
  caller_region m f p n -> n' <= n -> caller_region m f p n'.
Proof. unfold caller_region. lia. Qed.

(** The slots of the ring do not see a write to the client's buffer. *)
Lemma contents_frame m f io n bs :
  kfifo_inv m f -> caller_region m f io n -> Z.of_nat (length bs) <= n ->
  contents (write m io bs) f = contents m f.
Proof.
  intros H [H1 H2] Hn. rewrite !contents_ring. apply ring_read_ext. intros t Ht.
  pose proof (slot_in_buffer m f (out f + t) H).
  rewrite lookup_write, decide_False by lia. done.
Qed.

Lemma exec_refines io n m f cap q o :
  refines io n m f cap q -> op_fits n o ->
  exists m' f', exec io (m, f) o = Some (m', f', (q_exec cap q o).2) /\
    refines io n m' f' cap (q_exec cap q o).1.
Proof.
  intros [H Hcap Hc Hio] Hfit. pose proof (kfifo_len_range _ _ H) as Hlen.
  assert (Z.of_nat (length q) = __kfifo_len f) as Hq
    by (rewrite <- Hc, length_contents; lia).
  destruct o as [data | len | |]; simpl in Hfit.
  - assert (kfifo_inv (write m io data) f) as H1
      by (apply (kfifo_inv_frame m); [apply length_write | done]).
    assert (caller_region (write m io data) f io n) as Hio1
      by (unfold caller_region in *; rewrite length_write; lia).
    destruct (put_spec (write m io data) f io (Z.of_nat (length data)) H1)
      as (m' & f' & Hr & Hi & Hc' & Hb & Hs & Hl & _);
      [lia | eapply caller_region_le; [done | lia] |].
    rewrite (contents_frame m f io n) in Hr, Hc' by done. rewrite Hc in Hr, Hc'.
    destruct Hio1 as [Hio1 Hio2]. rewrite length_write in Hio1, Hl.
    exists m', f'. unfold exec, kfifo_put. rewrite Hr. simpl. split.
    + do 3 f_equal. rewrite length_take. lia.
    + split; [done | lia | | split; simpl in *; lia].
      rewrite Hc'. f_equal.
      rewrite <- (take_min_length (cap - length q)).
      rewrite block_write_prefix by lia. f_equal. lia.
  - destruct (kfifo_get_spec m f io len H) as (m' & f' & Hr & Hi & Hm & Hc' & Hb & Hs);
      [lia | eapply caller_region_le; [done | lia] |].
    rewrite Hc in *. destruct Hio as [Hio1 Hio2].
    replace (Z.to_nat (Z.min len (Z.of_nat (length q))))
      with (Z.to_nat len `min` length q)%nat in * by lia.
    rewrite take_min_length in Hm. rewrite drop_min_length in Hc'.
    exists m', f'. unfold exec. rewrite Hr. simpl. split.
    + do 3 f_equal. rewrite Hm.
      replace (Z.to_nat (Z.min len (Z.of_nat (length q)))) with (length (take (Z.to_nat len) q))
        by (rewrite length_take; lia).
      apply block_write_same. rewrite length_take. lia.
    + split; [done | lia | done | subst m'; split; rewrite ?length_write; simpl in *; lia].
  - destruct (reset_spec m f H). exists m, (kfifo_reset f). split; [done |]. by split.
  - exists m, f. simpl. split; [| by split]. by rewrite Hq.
Qed.

Lemma exec_all_refines io n m f cap q ops :
  refines io n m f cap q -> Forall (op_fits n) ops ->
  exec_all io (m, f) ops = Some (q_exec_all cap q ops).
Proof.
  intros Href Hfit. revert m f q Href. induction Hfit as [| o ops Ho Hops IH]; intros m f q Href.
  - done.
  - destruct (exec_refines io n m f cap q o Href Ho) as (m' & f' & Hx & Href').
    cbn [exec_all q_exec_all]. rewrite Hx. simpl.
    rewrite (IH _ _ _ Href'). simpl. by destruct (q_exec cap q o).
Qed.
End Correct.

(** C38. A FIFO behaves as a bounded queue of bytes: for every sequence of
    [kfifo_put], [kfifo_get], [kfifo_reset] and [kfifo_len] calls on a FIFO that
    satisfies its invariant, every call returns, and what the client sees (counts,
    lengths and the bytes it gets back) is what the abstract queue of the FIFO's
    capacity gives. The indices may start anywhere, so the runs include the ones in
    which [in] and [out] wrap around 2^32. *)
Theorem kfifo_refines_queue memcpy `{!Memcpy memcpy} io n m f cap ops :
  kfifo_inv m f -> caller_region m f io n -> Z.of_nat cap = size f -> Forall (op_fits n) ops ->
  exec_all memcpy io (m, f) ops = Some (q_exec_all cap (contents m f) ops).
Proof. intros. by apply (exec_all_refines memcpy io n). Qed.

(** A 4-byte FIFO at address 4 of a 12-byte memory whose indices are about to
    wrap, driven through a put that wraps, an overfull put and two gets. *)
Lemma kfifo_refines_queue_witness :
  let ops := [OpPut [1; 2; 3]; OpLen; OpPut [4; 5]; OpGet 2; OpGet 4; OpReset] in
  let f := mk_kfifo 4 4 4294967295 4294967295 0 in
  kfifo_inv (replicate 12 0) f /\
  exec_all KString.memcpy 0 (replicate 12 0, f) ops
    = Some [ObsPut 3; ObsLen 3; ObsPut 1; ObsGet [1; 2]; ObsGet [3; 4]; ObsReset].
Proof.
  intros ops f.
  assert (kfifo_inv (replicate 12 0) f) as H.
  { split; simpl; try (unfold is_u32; lia).
    - exists 2. split; [lia | reflexivity].
    - vm_compute. discriminate. }
  split; [exact H |].
  rewrite (kfifo_refines_queue KString.memcpy 0 4 (replicate 12 0) f 4 ops H); try reflexivity.
  - split; simpl; lia.
  - repeat constructor; simpl; lia.
Defined.

(** [kfifo_alloc] with any size from 1 to 2^31 and a successful allocation
    yields an empty FIFO that satisfies the invariant, whose capacity is a power of
    two of at least the requested size and less than twice it; nothing is freed. *)
Theorem kfifo_alloc_ok sz lk (kmalloc : Z -> option ptr) (m : mem) :
  0 < sz <= 2 ^ 31 ->
  (forall n, n < 2 * sz -> exists b, kmalloc n = Some b /\ (b + Z.to_nat n <= length m)%nat) ->
  exists f, kfifo_alloc sz lk kmalloc true = Some (inr f, []) /\
    kfifo_inv m f /\ contents m f = [] /\ sz <= size f < 2 * sz.
Proof.
  intros Hsz Hk. change (2 ^ 31) with 2147483648 in Hsz.
  assert (exists k, 0 <= k <= 31 /\ sz <= 2 ^ k < 2 * sz /\
    (if negb (Z.land sz (sz ⊖ 1) =? 0)
     then if 0x80000000 <? sz then None else Some (roundup_pow_of_two sz)
     else Some sz) = Some (2 ^ k)) as (k & Hkr & Hb & Hsel).
  { destruct (roundup_pow_of_two_spec sz) as (k & Hkr & Hr & Hb); [lia |].
    rewrite u32_id by (unfold is_u32; lia).
    destruct (Z.eqb_spec (Z.land sz (sz - 1)) 0) as [E |]; simpl.
    - destruct (pow2_of_land sz) as (j & Hj & ->); [lia | done |].
      assert (j <= 31) by (apply (Z.pow_le_mono_r_iff 2); lia).
      exists j. split_and!; [lia | lia | lia | nia | done].
    - exists k. rewrite Hr. destruct (Z.ltb_spec 2147483648 sz); [lia | done]. }
  destruct (Hk (2 ^ k)) as (b & Hkb & Hlen); [lia |].
  unfold kfifo_alloc, kfifo_init. rewrite Hsel. simpl. rewrite Hkb.
  assert (2 ^ k <= 2 ^ 31) by (apply Z.pow_le_mono_r; lia). change (2 ^ 31) with 2147483648 in *.
  rewrite u32_id, land_pow2_mask, Z_mod_same_full by (unfold is_u32; lia). simpl.
  eexists. split; [reflexivity |]. split; [| done].
  split; simpl; [eauto | unfold is_u32; lia | unfold is_u32; lia | | done].
  change (0 <= 2 ^ k). lia.
Qed.

Lemma kfifo_alloc_ok_witness :
  exists f, kfifo_alloc 5 0 (fun _ => Some 0%nat) true = Some (inr f, []) /\
    kfifo_inv (replicate 9 0) f /\ contents (replicate 9 0) f = [] /\ 5 <= size f < 2 * 5.
Proof.
  apply (kfifo_alloc_ok 5 0 (fun _ => Some 0%nat) (replicate 9 0)); [lia |].
  intros n Hn. exists 0%nat. rewrite length_replicate. split; [reflexivity | lia].
Defined.
