(* ===== verification/Rwsem.v ===== *)
(** * Reader/writer semaphores: lib/rwsem-spinlock.c

    Each operation runs under [sem->wait_lock], so it is one atomic function on
    the semaphore; it returns the new semaphore and the tasks it woke, in order,
    whose [waiter->task] it has set to [NULL]. The threads that use the
    semaphore are a transition system over these functions: a thread that was
    not granted the lock is [Blocked] in its [for (;;)] loop until its waiter's
    task pointer is cleared, and then leaves the loop in a step of its own.
    [activity] is an [__s32] in the source and an integer here: it is -1 or the number of
    readers, so it stays in range with fewer than 2^31 threads. *)

From S2P Require Import Prelude.

Inductive kind := RWSEM_WAITING_FOR_READ | RWSEM_WAITING_FOR_WRITE.

#[export] Instance kind_eq_dec : EqDecision kind.
Proof. solve_decision. Defined.

Definition is_write (k : kind) : bool := bool_decide (k = RWSEM_WAITING_FOR_WRITE).

Record rwsem_waiter := mk_waiter { task : nat; flags : kind }.

Record rw_semaphore := mk_sem { activity : Z; wait_list : list rwsem_waiter }.

Definition compat_init_rwsem : rw_semaphore := mk_sem 0 [].

Definition list_empty (sem : rw_semaphore) : bool := bool_decide (wait_list sem = []).

(** ** The operations *)

(** The loop that grants read locks to the front of the queue: the tasks woken
    and the waiters that remain. *)
Fixpoint wake_readers (l : list rwsem_waiter) : list nat * list rwsem_waiter :=
  match l with
  | [] => ([], [])
  | w :: l' =>
      if is_write (flags w) then ([], l)
      else let '(ts, r) := wake_readers l' in (task w :: ts, r)
  end.

(** Only called with a waiter in the queue ([None] otherwise). *)
Definition __rwsem_do_wake (sem : rw_semaphore) (wakewrite : bool)
  : option (rw_semaphore * list nat) :=
  match wait_list sem with
  | [] => None
  | w :: l =>
      if negb wakewrite && is_write (flags w) then Some (sem, [])
      else if wakewrite && is_write (flags w) then Some (mk_sem (-1) l, [task w])
      else
        let '(ts, r) := wake_readers (wait_list sem) in
        Some (mk_sem (activity sem + Z.of_nat (length ts)) r, ts)
  end.

(** Grants the write lock to the first waiter, whatever it waits for. *)
Definition __rwsem_wake_one_writer (sem : rw_semaphore) : option (rw_semaphore * list nat) :=
  match wait_list sem with
  | [] => None
  | w :: l => Some (mk_sem (-1) l, [task w])
  end.

(** The first part of the two [down] operations, up to the release of the
    spinlock: whether the lock was granted. *)
Definition __down_read (sem : rw_semaphore) (tsk : nat) : rw_semaphore * bool :=
  if (0 <=? activity sem) && list_empty sem
  then (mk_sem (activity sem + 1) (wait_list sem), true)
  else (mk_sem (activity sem) (wait_list sem ++ [mk_waiter tsk RWSEM_WAITING_FOR_READ]), false).

Definition __down_read_trylock (sem : rw_semaphore) : rw_semaphore * bool :=
  if (0 <=? activity sem) && list_empty sem
  then (mk_sem (activity sem + 1) (wait_list sem), true)
  else (sem, false).

Definition __down_write (sem : rw_semaphore) (tsk : nat) : rw_semaphore * bool :=
  if (activity sem =? 0) && list_empty sem
  then (mk_sem (-1) (wait_list sem), true)
  else (mk_sem (activity sem) (wait_list sem ++ [mk_waiter tsk RWSEM_WAITING_FOR_WRITE]), false).

Definition __down_write_trylock (sem : rw_semaphore) : rw_semaphore * bool :=
  if (activity sem =? 0) && list_empty sem
  then (mk_sem (-1) (wait_list sem), true)
  else (sem, false).

Definition __up_read (sem : rw_semaphore) : option (rw_semaphore * list nat) :=
  let sem := mk_sem (activity sem - 1) (wait_list sem) in
  if (activity sem =? 0) && negb (list_empty sem)
  then __rwsem_wake_one_writer sem
  else Some (sem, []).

Definition __up_write (sem : rw_semaphore) : option (rw_semaphore * list nat) :=
  let sem := mk_sem 0 (wait_list sem) in
  if negb (list_empty sem) then __rwsem_do_wake sem true else Some (sem, []).

Definition __downgrade_write (sem : rw_semaphore) : option (rw_semaphore * list nat) :=
  let sem := mk_sem 1 (wait_list sem) in
  if negb (list_empty sem) then __rwsem_do_wake sem false else Some (sem, []).

(** ** The threads *)

(** [Woken k]: still in the waiting loop, but its [waiter.task] is [NULL], so the
    lock of kind [k] is already its own. *)
Inductive tstate :=
  | Idle
  | Blocked (k : kind)
  | Woken (k : kind)
  | Holding (k : kind).

#[export] Instance tstate_eq_dec : EqDecision tstate.
Proof. solve_decision. Defined.

Record system := mk_sys { sem : rw_semaphore; threads : list tstate }.

(** Clear the task pointers of the woken waiters. *)
Definition wake_task (ts : list tstate) (t : nat) : list tstate :=
  match ts !! t with
  | Some (Blocked k) => <[t := Woken k]> ts
  | _ => ts
  end.

Definition wake_tasks (ts : list tstate) (woken : list nat) : list tstate :=
  foldl wake_task ts woken.

Abbreviation R := RWSEM_WAITING_FOR_READ.
Abbreviation W := RWSEM_WAITING_FOR_WRITE.

Inductive step : system -> system -> Prop :=
  | step_down_read s t ts s' (granted : bool) :
      ts !! t = Some Idle -> __down_read s t = (s', granted) ->
      step (mk_sys s ts) (mk_sys s' (<[t := if granted then Holding R else Blocked R]> ts))
  | step_down_read_trylock s t ts s' (granted : bool) :
      ts !! t = Some Idle -> __down_read_trylock s = (s', granted) ->
      step (mk_sys s ts) (mk_sys s' (<[t := if granted then Holding R else Idle]> ts))
  | step_down_write s t ts s' (granted : bool) :
      ts !! t = Some Idle -> __down_write s t = (s', granted) ->
      step (mk_sys s ts) (mk_sys s' (<[t := if granted then Holding W else Blocked W]> ts))
  | step_down_write_trylock s t ts s' (granted : bool) :
      ts !! t = Some Idle -> __down_write_trylock s = (s', granted) ->
      step (mk_sys s ts) (mk_sys s' (<[t := if granted then Holding W else Idle]> ts))
  | step_leave_wait s t ts k :
      ts !! t = Some (Woken k) -> step (mk_sys s ts) (mk_sys s (<[t := Holding k]> ts))
  | step_up_read s t ts s' woken :
      ts !! t = Some (Holding R) -> __up_read s = Some (s', woken) ->
      step (mk_sys s ts) (mk_sys s' (wake_tasks (<[t := Idle]> ts) woken))
  | step_up_write s t ts s' woken :
      ts !! t = Some (Holding W) -> __up_write s = Some (s', woken) ->
      step (mk_sys s ts) (mk_sys s' (wake_tasks (<[t := Idle]> ts) woken))
  | step_downgrade_write s t ts s' woken :
      ts !! t = Some (Holding W) -> __downgrade_write s = Some (s', woken) ->
      step (mk_sys s ts) (mk_sys s' (wake_tasks (<[t := Holding R]> ts) woken)).

(** The states [n] threads reach from an initialised semaphore. *)
Inductive reachable (n : nat) : system -> Prop :=
  | reach_init : reachable n (mk_sys compat_init_rwsem (replicate n Idle))
  | reach_step s s' : reachable n s -> step s s' -> reachable n s'.

(** ** The invariant *)

Definition owns (k : kind) (x : tstate) : bool :=
  match x with
  | Woken k' | Holding k' => bool_decide (k = k')
  | _ => false
  end.

Definition owners (k : kind) (ts : list tstate) : Z :=
  foldr (fun x n => (if owns k x then 1 else 0) + n) 0 ts.

(** A semaphore that some reader holds keeps no reader at the head of its
    queue, and one that is free keeps no waiter at all. *)
Definition queue_ok (s : rw_semaphore) : Prop :=
  match wait_list s with
  | [] => True
  | w :: _ => activity s <> 0 /\ (0 < activity s -> flags w = W)
  end.

(** The queue and the blocked threads correspond. *)
Record queue_threads (q : list rwsem_waiter) (ts : list tstate) : Prop := {
  qt_nodup : NoDup (task <$> q);
  qt_blocked : forall w, w ∈ q -> ts !! task w = Some (Blocked (flags w));
  qt_queued : forall t k, ts !! t = Some (Blocked k) -> mk_waiter t k ∈ q
}.

(** The counter says who holds the lock. *)
Definition counts_ok (a : Z) (ts : list tstate) : Prop :=
  (a = -1 /\ owners W ts = 1 /\ owners R ts = 0) \/
  (0 <= a /\ owners W ts = 0 /\ owners R ts = a).

Record sys_inv (y : system) : Prop := {
  si_counts : counts_ok (activity (sem y)) (threads y);
  si_threads : queue_threads (wait_list (sem y)) (threads y);
  si_queue : queue_ok (sem y)
}.

Definition blocked (x : tstate) : Prop := exists k, x = Blocked k.

Lemma owners_nonneg k ts : 0 <= owners k ts.
Proof. induction ts as [| x ts IH]; simpl; [lia |]. destruct (owns k x); lia. Qed.

Lemma owners_insert k ts t x y :
  ts !! t = Some x ->
  owners k (<[t := y]> ts) =
    owners k ts - (if owns k x then 1 else 0) + (if owns k y then 1 else 0).
Proof.
  revert t. induction ts as [| z ts IH]; intros [| t] H; simpl in *; try done.
  - injection H as ->. lia.
  - rewrite (IH _ H). lia.
Qed.

Lemma owners_pos k ts t x : ts !! t = Some x -> owns k x = true -> 0 < owners k ts.
Proof.
  intros H Hx. pose proof (owners_nonneg k (<[t := Idle]> ts)).
  rewrite (owners_insert k ts t x Idle H), Hx in *. simpl in *. lia.
Qed.

Lemma wake_readers_split l ts r :
  wake_readers l = (ts, r) ->
  l = ((fun t => mk_waiter t R) <$> ts) ++ r /\
  match r with [] => True | w :: _ => flags w = W end.
Proof.
  revert ts r. induction l as [| [t k] l IH]; intros ts r H; simpl in H.
  - by injection H as <- <-.
  - unfold is_write in H. case_bool_decide as Hk; simpl in *.
    + injection H as <- <-. done.
    + destruct (wake_readers l) as [ts' r'] eqn:E. injection H as <- <-.
      destruct (IH _ _ eq_refl) as [-> Hr]. split; [| done].
      simpl. f_equal. by destruct k.
Qed.

Lemma qt_insert q ts t x y :
  ts !! t = Some x -> ~ blocked x -> ~ blocked y ->
  queue_threads q ts -> queue_threads q (<[t := y]> ts).
Proof.
  intros Ht Hx Hy [H1 H2 H3]. pose proof (lookup_lt_Some _ _ _ Ht). split; [done | |].
  - intros w Hw. rewrite list_lookup_insert_ne; [by apply H2 |].
    intros ->. apply Hx. exists (flags w). specialize (H2 w Hw). congruence.
  - intros u k Hu. destruct (decide (t = u)) as [<- | Hne].
    + rewrite list_lookup_insert_eq in Hu by done. destruct Hy. exists k. congruence.
    + rewrite list_lookup_insert_ne in Hu by done. by apply H3.
Qed.

Lemma qt_block q ts t x k :
  ts !! t = Some x -> ~ blocked x ->
  queue_threads q ts -> queue_threads (q ++ [mk_waiter t k]) (<[t := Blocked k]> ts).
Proof.
  intros Ht Hx [H1 H2 H3]. pose proof (lookup_lt_Some _ _ _ Ht).
  assert (forall w, w ∈ q -> task w <> t) as Hfresh.
  { intros w Hw <-. apply Hx. exists (flags w). specialize (H2 w Hw). congruence. }
  split.
  - rewrite fmap_app. simpl. apply NoDup_app. split_and!; [done | |].
    + intros u (w & -> & Hw)%list_elem_of_fmap E%list_elem_of_singleton.
      by apply (Hfresh w).
    + apply NoDup_singleton.
  - intros w [Hw | ->%list_elem_of_singleton]%elem_of_app; simpl.
    + rewrite list_lookup_insert_ne; [by apply H2 |]. intros E. by apply (Hfresh w).
    + by apply list_lookup_insert_eq.
  - intros u k' Hu. apply elem_of_app. destruct (decide (t = u)) as [<- | Hne].
    + rewrite list_lookup_insert_eq in Hu by done. injection Hu as <-. right.
      by apply list_elem_of_singleton.
    + rewrite list_lookup_insert_ne in Hu by done. left. by apply H3.
Qed.

(** Waking the front waiter. *)
Lemma qt_wake_one q ts t k :
  queue_threads (mk_waiter t k :: q) ts ->
  ts !! t = Some (Blocked k) /\ wake_task ts t = <[t := Woken k]> ts /\
  queue_threads q (wake_task ts t).
Proof.
  intros [H1 H2 H3]. assert (ts !! t = Some (Blocked k)) as Ht
    by apply (H2 (mk_waiter t k) ltac:(left)).
  pose proof (lookup_lt_Some _ _ _ Ht). simpl in H1. apply NoDup_cons in H1 as [Hnew H1].
  assert (wake_task ts t = <[t := Woken k]> ts) as Hw by (unfold wake_task; by rewrite Ht).
  split_and!; [done | done |]. rewrite Hw. split; [done | |].
  - intros w Hin. rewrite list_lookup_insert_ne; [apply H2; by right |].
    intros ->. apply Hnew. by apply list_elem_of_fmap_2.
  - intros u k' Hu. destruct (decide (t = u)) as [<- | Hne].
    + by rewrite list_lookup_insert_eq in Hu by done.
    + rewrite list_lookup_insert_ne in Hu by done.
      apply H3 in Hu as Hin. apply elem_of_cons in Hin as [E | ?]; [congruence | done].
Qed.

(** Waking the readers at the front. *)
Lemma qt_wake_readers ws q ts :
  queue_threads (((fun t => mk_waiter t R) <$> ws) ++ q) ts ->
  queue_threads q (wake_tasks ts ws) /\
  owners R (wake_tasks ts ws) = owners R ts + Z.of_nat (length ws) /\
  owners W (wake_tasks ts ws) = owners W ts.
Proof.
  revert ts. induction ws as [| t ws IH]; intros ts H; simpl in *.
  - split_and!; [done | lia | done].
  - destruct (qt_wake_one _ _ _ _ H) as (Ht & Hw & Hq). destruct (IH _ Hq) as (Hq' & HR & HW).
    split_and!; [done | |].
    + rewrite HR, Hw, (owners_insert R ts t _ _ Ht). simpl. lia.
    + rewrite HW, Hw, (owners_insert W ts t _ _ Ht). simpl. lia.
Qed.

(** ** Preservation *)

(** [solve_counts]: the counter after one thread changed state. *)
Ltac solve_counts :=
  unfold counts_ok in *; simpl in *;
  repeat match goal with
         | H : ?ts !! ?t = Some ?x |- context [owners ?k (<[?t := ?y]> ?ts)] =>
             rewrite (owners_insert k ts t x y H); simpl
         end; lia.

Lemma not_blocked_idle : ~ blocked Idle.
Proof. by intros [k ?]. Qed.
Lemma not_blocked_holding k : ~ blocked (Holding k).
Proof. by intros [k' ?]. Qed.
Lemma not_blocked_woken k : ~ blocked (Woken k).
Proof. by intros [k' ?]. Qed.

#[local] Hint Resolve not_blocked_idle not_blocked_holding not_blocked_woken qt_insert qt_block : kernel.

Lemma list_empty_spec s : list_empty s = true <-> wait_list s = [].
Proof. unfold list_empty. by rewrite bool_decide_eq_true. Qed.

Lemma down_read_granted s :
  (0 <=? activity s) && list_empty s = true <-> 0 <= activity s /\ wait_list s = [].
Proof. rewrite andb_true_iff, list_empty_spec, Z.leb_le. done. Qed.

Lemma down_write_granted s :
  (activity s =? 0) && list_empty s = true <-> activity s = 0 /\ wait_list s = [].
Proof. rewrite andb_true_iff, list_empty_spec, Z.eqb_eq. done. Qed.

Lemma grant_read_inv s ts t :
  sys_inv (mk_sys s ts) -> ts !! t = Some Idle -> 0 <= activity s -> wait_list s = [] ->
  sys_inv (mk_sys (mk_sem (activity s + 1) (wait_list s)) (<[t := Holding R]> ts)).
Proof.
  intros [Hc Hq Hk] Ht Ha He. split; simpl in *; [solve_counts | eauto with kernel |].
  unfold queue_ok. simpl. by rewrite He.
Qed.

Lemma grant_write_inv s ts t :
  sys_inv (mk_sys s ts) -> ts !! t = Some Idle -> activity s = 0 -> wait_list s = [] ->
  sys_inv (mk_sys (mk_sem (-1) (wait_list s)) (<[t := Holding W]> ts)).
Proof.
  intros [Hc Hq Hk] Ht Ha He. split; simpl in *; [solve_counts | eauto with kernel |].
  unfold queue_ok. simpl. by rewrite He.
Qed.

Lemma block_inv s ts t k :
  sys_inv (mk_sys s ts) -> ts !! t = Some Idle ->
  (wait_list s = [] -> activity s <> 0 /\ (0 < activity s -> k = W)) ->
  sys_inv (mk_sys (mk_sem (activity s) (wait_list s ++ [mk_waiter t k])) (<[t := Blocked k]> ts)).
Proof.
  intros [Hc Hq Hk] Ht Hempty. split; simpl in *; [solve_counts | eauto with kernel |].
  unfold queue_ok in *. simpl in *. destruct (wait_list s) as [| w l]; simpl; [auto | done].
Qed.

Lemma idle_id_inv s ts t :
  sys_inv (mk_sys s ts) -> ts !! t = Some Idle -> sys_inv (mk_sys s (<[t := Idle]> ts)).
Proof. intros H Ht. by rewrite list_insert_id. Qed.

(** Releasing a read lock hands the write lock to the head of the queue, which is
    a writer by the invariant. *)
Lemma up_read_inv s ts t s' woken :
  sys_inv (mk_sys s ts) -> ts !! t = Some (Holding R) -> __up_read s = Some (s', woken) ->
  sys_inv (mk_sys s' (wake_tasks (<[t := Idle]> ts) woken)).
Proof.
  intros [Hc Hq Hk] Ht Hup. simpl in *.
  pose proof (owners_pos R ts t _ Ht eq_refl) as Hpos.
  assert (counts_ok (activity s - 1) (<[t := Idle]> ts)) as Hc' by solve_counts.
  assert (queue_threads (wait_list s) (<[t := Idle]> ts)) as Hq' by eauto with kernel.
  unfold __up_read in Hup. simpl in Hup. unfold list_empty in Hup; simpl in Hup.
  destruct (wait_list s) as [| [u k] l] eqn:El; simpl in Hup.
  - rewrite andb_false_r in Hup. injection Hup as <- <-. by split.
  - unfold queue_ok in Hk. rewrite El in Hk. simpl in Hk.
    destruct (Z.eqb_spec (activity s - 1) 0) as [E | E]; simpl in Hup.
    + injection Hup as <- <-. destruct (qt_wake_one _ _ _ _ Hq') as (Hu & Hw & Hq2).
      assert (k = W) as -> by (apply Hk; lia).
      split; simpl; [| done |].
      * rewrite Hw. rewrite E in Hc'. solve_counts.
      * unfold queue_ok. simpl. destruct l; [done | simpl; lia].
    + injection Hup as <- <-. split; simpl; [done | done |].
      unfold queue_ok. simpl. unfold counts_ok in Hc'. split; [lia |].
      intros. apply Hk. lia.
Qed.

(** [__rwsem_do_wake] from a free or freshly downgraded semaphore. *)
Lemma do_wake_inv a l ts s' woken wakewrite :
  counts_ok a ts -> queue_threads l ts ->
  (wakewrite = true /\ a = 0) \/ (wakewrite = false /\ 0 < a) ->
  __rwsem_do_wake (mk_sem a l) wakewrite = Some (s', woken) ->
  sys_inv (mk_sys s' (wake_tasks ts woken)).
Proof.
  intros Hc Hq Ha Hw. unfold __rwsem_do_wake in Hw. simpl in Hw.
  destruct l as [| [u k] l]; [done |]. simpl flags in Hw.
  destruct (wake_readers (mk_waiter u k :: l)) as [ws r] eqn:Ews.
  unfold is_write in Hw. destruct (decide (k = W)) as [-> | Hk].
  - rewrite bool_decide_true in Hw by done.
    destruct Ha as [[-> ->] | [-> Ha]]; simpl in Hw; injection Hw as <- <-.
    + destruct (qt_wake_one _ _ _ _ Hq) as (Hu & Hw & Hq2).
      split; simpl; [| done |].
      * rewrite Hw. solve_counts.
      * unfold queue_ok. simpl. destruct l; [done | simpl; lia].
    + split; [done | done |]. unfold queue_ok. simpl. split; [lia | done].
  - rewrite bool_decide_false in Hw by done. rewrite !andb_false_r in Hw.
    injection Hw as <- <-. destruct (wake_readers_split _ _ _ Ews) as [E Hr]. rewrite E in Hq.
    destruct (qt_wake_readers ws r ts Hq) as (Hq2 & HR & HW). split; simpl; [| done |].
    + unfold counts_ok in *. rewrite HR, HW. lia.
    + unfold queue_ok. simpl. destruct r as [| w r]; [done |]. split; [| done].
      destruct ws as [| ? ws]; simpl in E; [| simpl length; lia].
      injection E as <- _. by destruct Hk.
Qed.

Lemma up_write_inv s ts t s' woken :
  sys_inv (mk_sys s ts) -> ts !! t = Some (Holding W) -> __up_write s = Some (s', woken) ->
  sys_inv (mk_sys s' (wake_tasks (<[t := Idle]> ts) woken)).
Proof.
  intros [Hc Hq Hk] Ht Hup. simpl in *. pose proof (owners_pos W ts t _ Ht eq_refl) as Hpos.
  pose proof (owners_nonneg R ts).
  assert (counts_ok 0 (<[t := Idle]> ts)) as Hc' by solve_counts.
  assert (queue_threads (wait_list s) (<[t := Idle]> ts)) as Hq' by eauto with kernel.
  unfold __up_write in Hup. simpl in Hup. destruct (list_empty (mk_sem 0 (wait_list s))) eqn:El.
  - injection Hup as <- <-. apply list_empty_spec in El. simpl in El. split; [done | done |].
    unfold queue_ok. simpl. by rewrite El.
  - apply (do_wake_inv 0 (wait_list s) _ s' woken true); [done | done | left; lia | done].
Qed.

Lemma downgrade_write_inv s ts t s' woken :
  sys_inv (mk_sys s ts) -> ts !! t = Some (Holding W) -> __downgrade_write s = Some (s', woken) ->
  sys_inv (mk_sys s' (wake_tasks (<[t := Holding R]> ts) woken)).
Proof.
  intros [Hc Hq Hk] Ht Hup. simpl in *. pose proof (owners_pos W ts t _ Ht eq_refl) as Hpos.
  pose proof (owners_nonneg R ts).
  assert (counts_ok 1 (<[t := Holding R]> ts)) as Hc' by solve_counts.
  assert (queue_threads (wait_list s) (<[t := Holding R]> ts)) as Hq' by eauto with kernel.
  unfold __downgrade_write in Hup. simpl in Hup.
  destruct (list_empty (mk_sem 1 (wait_list s))) eqn:El.
  - injection Hup as <- <-. apply list_empty_spec in El. simpl in El. split; [done | done |].
    unfold queue_ok. simpl. by rewrite El.
  - apply (do_wake_inv 1 (wait_list s) _ s' woken false); [done | done | right; lia | done].
Qed.

Lemma down_read_inv s ts t :
  sys_inv (mk_sys s ts) -> ts !! t = Some Idle ->
  let '(s', granted) := __down_read s t in
  sys_inv (mk_sys s' (<[t := if granted : bool then Holding R else Blocked R]> ts)).
Proof.
  intros H Ht. unfold __down_read. destruct ((0 <=? activity s) && list_empty s) eqn:E.
  - apply down_read_granted in E as [? ?]. by apply grant_read_inv.
  - apply block_inv; [done | done |]. intros He. destruct H as [Hc _ _]. simpl in Hc.
    rewrite <- not_true_iff_false, down_read_granted in E. unfold counts_ok in Hc.
    assert (activity s < 0) by (apply Z.nle_gt; tauto). lia.
Qed.

Lemma down_write_inv s ts t :
  sys_inv (mk_sys s ts) -> ts !! t = Some Idle ->
  let '(s', granted) := __down_write s t in
  sys_inv (mk_sys s' (<[t := if granted : bool then Holding W else Blocked W]> ts)).
Proof.
  intros H Ht. unfold __down_write. destruct ((activity s =? 0) && list_empty s) eqn:E.
  - apply down_write_granted in E as [? ?]. by apply grant_write_inv.
  - apply block_inv; [done | done |]. intros He.
    rewrite <- not_true_iff_false, down_write_granted in E. tauto.
Qed.

Lemma down_read_trylock_inv s ts t :
  sys_inv (mk_sys s ts) -> ts !! t = Some Idle ->
  let '(s', granted) := __down_read_trylock s in
  sys_inv (mk_sys s' (<[t := if granted : bool then Holding R else Idle]> ts)).
Proof.
  intros H Ht. unfold __down_read_trylock. destruct ((0 <=? activity s) && list_empty s) eqn:E; [| by apply idle_id_inv].
  apply down_read_granted in E as [? ?]. by apply grant_read_inv.
Qed.

Lemma down_write_trylock_inv s ts t :
  sys_inv (mk_sys s ts) -> ts !! t = Some Idle ->
  let '(s', granted) := __down_write_trylock s in
  sys_inv (mk_sys s' (<[t := if granted : bool then Holding W else Idle]> ts)).
Proof.
  intros H Ht. unfold __down_write_trylock. destruct ((activity s =? 0) && list_empty s) eqn:E; [| by apply idle_id_inv].
  apply down_write_granted in E as [? ?]. by apply grant_write_inv.
Qed.

Lemma leave_wait_inv s ts t k :
  sys_inv (mk_sys s ts) -> ts !! t = Some (Woken k) -> sys_inv (mk_sys s (<[t := Holding k]> ts)).
Proof.
  intros [Hc Hq Hk] Ht. split; simpl in *; [| eauto with kernel | done].
  destruct k; solve_counts.
Qed.

Lemma step_inv y y' : sys_inv y -> step y y' -> sys_inv y'.
Proof.
  intros Hinv Hstep. destruct Hstep as
    [s t ts s' g Ht H | s t ts s' g Ht H | s t ts s' g Ht H | s t ts s' g Ht H | | | |].
  - pose proof (down_read_inv s ts t Hinv Ht). by rewrite H in *.
  - pose proof (down_read_trylock_inv s ts t Hinv Ht). by rewrite H in *.
  - pose proof (down_write_inv s ts t Hinv Ht). by rewrite H in *.
  - pose proof (down_write_trylock_inv s ts t Hinv Ht). by rewrite H in *.
  - by apply leave_wait_inv.
  - by eapply up_read_inv.
  - by eapply up_write_inv.
  - by eapply downgrade_write_inv.
Qed.

Lemma owners_idle k n : owners k (replicate n Idle) = 0.
Proof. induction n; simpl; lia. Qed.

Lemma reachable_inv n y : reachable n y -> sys_inv y.
Proof.
  induction 1 as [| y y' _ IH Hs]; [| by eapply step_inv].
  split; simpl; [right; rewrite !owners_idle; lia | | done].
  split; simpl; [constructor | by intros w Hw%elem_of_nil |].
  intros t k [? ?]%lookup_replicate. done.
Qed.

(** ** Properties of every reachable state *)

Lemma owners_two k ts t u x y :
  ts !! t = Some x -> ts !! u = Some y -> t <> u -> owns k x = true -> owns k y = true ->
  2 <= owners k ts.
Proof.
  intros Ht Hu Hne Hx Hy. pose proof (owners_insert k ts t x Idle Ht) as H1. rewrite Hx in H1.
  pose proof (owners_pos k (<[t := Idle]> ts) u y) as H2.
  rewrite list_lookup_insert_ne in H2 by done. specialize (H2 Hu Hy). simpl in H1. lia.
Qed.

(** C36. Mutual exclusion: in every state any number of threads can reach through
    the operations, while some thread owns the semaphore for writing no other
    thread owns it, for reading or for writing. *)
Theorem rwsem_mutual_exclusion n y t u x k :
  reachable n y -> threads y !! t = Some x -> owns W x = true ->
  threads y !! u = Some k -> (exists l, owns l k = true) -> t = u.
Proof.
  intros Hr%reachable_inv Ht Hx Hu [l Hl]. destruct Hr as [Hc _ _].
  pose proof (owners_pos W _ _ _ Ht Hx). unfold counts_ok in Hc.
  destruct (decide (t = u)) as [| Hne]; [done | exfalso]. destruct l.
  - pose proof (owners_pos R _ _ _ Hu Hl). lia.
  - pose proof (owners_two W _ _ _ _ _ Ht Hu Hne Hx Hl). lia.
Qed.

(** Three threads: a writer inside, a second writer and a reader queued. *)
Definition demo : system :=
  mk_sys (mk_sem (-1) [mk_waiter 1 W; mk_waiter 2 R]) [Holding W; Blocked W; Blocked R].

Lemma demo_reachable : reachable 3 demo.
Proof.
  apply (reach_step 3 (mk_sys (mk_sem (-1) [mk_waiter 1 W]) [Holding W; Blocked W; Idle])).
  - apply (reach_step 3 (mk_sys (mk_sem (-1) []) [Holding W; Idle; Idle])).
    + apply (reach_step 3 (mk_sys compat_init_rwsem (replicate 3 Idle)));
        [apply reach_init | exact (step_down_write compat_init_rwsem 0 (replicate 3 Idle) _ true eq_refl eq_refl)].
    + exact (step_down_write (mk_sem (-1) []) 1 [Holding W; Idle; Idle] _ false eq_refl eq_refl).
  - exact (step_down_read (mk_sem (-1) [mk_waiter 1 W]) 2 [Holding W; Blocked W; Idle] _ false eq_refl eq_refl).
Defined.

Lemma rwsem_mutual_exclusion_witness :
  reachable 3 demo /\
  forall u k, threads demo !! u = Some k -> (exists l, owns l k = true) -> 0%nat = u.
Proof.
  split; [exact demo_reachable |]. intros u k.
  apply (rwsem_mutual_exclusion 3 demo 0 u (Holding W) k demo_reachable); reflexivity.
Defined.

Lemma owners_exists k ts : 0 < owners k ts -> exists t x, ts !! t = Some x /\ owns k x = true.
Proof.
  induction ts as [| x ts IH]; simpl; [lia |]. destruct (owns k x) eqn:E.
  - exists 0%nat, x. done.
  - intros (t & y & Ht & Hy)%IH. exists (S t), y. done.
Qed.

Lemma blocked_owner y t k :
  sys_inv y -> threads y !! t = Some (Blocked k) ->
  exists u x l, threads y !! u = Some x /\ owns l x = true.
Proof.
  intros [Hc Hq Hk] Ht. apply (qt_queued _ _ Hq) in Ht. unfold queue_ok in Hk.
  destruct (wait_list (sem y)) as [| w l]; [by apply elem_of_nil in Ht |].
  unfold counts_ok in Hc.
  destruct (decide (0 < owners W (threads y))) as [H | H].
  - apply owners_exists in H as (u & x & ? & ?). eauto.
  - destruct (owners_exists R (threads y)) as (u & x & ? & ?); [lia | eauto].
Qed.

(** No lost wakeup: in no reachable state does a thread sleep on a semaphore
    that nobody owns. *)
Lemma rwsem_no_lost_wakeup n y t k :
  reachable n y -> threads y !! t = Some (Blocked k) ->
  exists u x l, threads y !! u = Some x /\ owns l x = true.
Proof. intros Hr%reachable_inv Ht. by eapply blocked_owner. Qed.

(** ** Draining *)

(** A step in which no thread makes a new request: an awakened thread leaves its
    loop, or an owner releases the lock. *)
Inductive drain_step : system -> system -> Prop :=
  | drain_leave_wait s t ts k :
      ts !! t = Some (Woken k) -> drain_step (mk_sys s ts) (mk_sys s (<[t := Holding k]> ts))
  | drain_up_read s t ts s' woken :
      ts !! t = Some (Holding R) -> __up_read s = Some (s', woken) ->
      drain_step (mk_sys s ts) (mk_sys s' (wake_tasks (<[t := Idle]> ts) woken))
  | drain_up_write s t ts s' woken :
      ts !! t = Some (Holding W) -> __up_write s = Some (s', woken) ->
      drain_step (mk_sys s ts) (mk_sys s' (wake_tasks (<[t := Idle]> ts) woken)).

Lemma drain_is_step y y' : drain_step y y' -> step y y'.
Proof. destruct 1; by econstructor. Qed.

(** How many steps a thread still has to make: wake up, leave the loop, release. *)
Definition weight1 (x : tstate) : nat :=
  match x with Idle => 0 | Holding _ => 1 | Woken _ => 2 | Blocked _ => 3 end.

Definition weight (ts : list tstate) : nat := foldr (fun x n => (weight1 x + n)%nat) 0%nat ts.

Lemma weight_insert ts t x y :
  ts !! t = Some x -> (weight (<[t := y]> ts) + weight1 x = weight ts + weight1 y)%nat.
Proof.
  revert t. induction ts as [| z ts IH]; intros [| t] H; simpl in *; try done.
  - injection H as ->. lia.
  - specialize (IH _ H). lia.
Qed.

Lemma weight_wake ts woken : (weight (wake_tasks ts woken) <= weight ts)%nat.
Proof.
  revert ts. induction woken as [| t woken IH]; intros ts; simpl; [lia |].
  etransitivity; [apply IH |]. unfold wake_task. destruct (ts !! t) as [[| k | |] |] eqn:E; try lia.
  pose proof (weight_insert _ _ _ (Woken k) E). simpl in *. lia.
Qed.

Lemma drain_weight y y' : drain_step y y' -> (weight (threads y') < weight (threads y))%nat.
Proof.
  destruct 1 as [s t ts k Ht | s t ts s' woken Ht _ | s t ts s' woken Ht _]; simpl.
  - pose proof (weight_insert _ _ _ (Holding k) Ht). simpl in *. lia.
  - pose proof (weight_insert _ _ _ Idle Ht). pose proof (weight_wake (<[t := Idle]> ts) woken).
    simpl in *. lia.
  - pose proof (weight_insert _ _ _ Idle Ht). pose proof (weight_wake (<[t := Idle]> ts) woken).
    simpl in *. lia.
Qed.

Lemma up_read_total s : exists r, __up_read s = Some r.
Proof.
  unfold __up_read, __rwsem_wake_one_writer, list_empty. simpl.
  destruct (wait_list s); destruct (_ =? _); simpl; eauto.
Qed.

Lemma up_write_total s : exists r, __up_write s = Some r.
Proof.
  unfold __up_write, __rwsem_do_wake, list_empty. simpl.
  destruct (wait_list s) as [| w l] eqn:E; simpl; [eauto |].
  destruct (is_write (flags w)); simpl; [eauto |].
  destruct (wake_readers l); simpl; eauto.
Qed.

Lemma owner_drains y u x l :
  threads y !! u = Some x -> owns l x = true -> exists y', drain_step y y'.
Proof.
  destruct y as [s ts]. simpl. intros Hu Hx. destruct x as [| k | k | k]; try done.
  - eexists. by constructor.
  - destruct k.
    + destruct (up_read_total s) as [[s' w] Hs]. eexists. by eapply drain_up_read.
    + destruct (up_write_total s) as [[s' w] Hs]. eexists. by eapply drain_up_write.
Qed.

(** C37. Progress: when no new requests arrive, threads only have to leave their
    loops and release what they own, and then everybody gets through. Every such
    step brings the total of outstanding work strictly down, so there are at most
    three steps per thread, and as long as some thread is not idle a step is
    possible; in particular every blocked thread obtains the lock on the way. *)
Theorem rwsem_drains n y :
  reachable n y ->
  (forall y', drain_step y y' -> reachable n y' /\ (weight (threads y') < weight (threads y))%nat) /\
  ((forall t x, threads y !! t = Some x -> x = Idle) \/ exists y', drain_step y y').
Proof.
  intros Hr. split.
  - intros y' Hd. split; [| by apply drain_weight].
    eapply reach_step; [done | by apply drain_is_step].
  - destruct (decide (Forall (fun x => x = Idle) (threads y))) as [Hall | Hsome].
    + left. intros t x Ht. rewrite Forall_lookup in Hall. eauto.
    + right. apply not_Forall_Exists in Hsome; [| apply _].
      apply Exists_exists in Hsome as (x & (t & Ht)%list_elem_of_lookup & Hx).
      destruct x as [| k | k | k]; [by destruct Hx | | |].
      * destruct (blocked_owner y t k) as (u & x & l & Hu & Ho); [by eapply reachable_inv | done |].
        by eapply owner_drains.
      * eapply (owner_drains y t (Woken k) k); [done | by apply bool_decide_true].
      * eapply (owner_drains y t (Holding k) k); [done | by apply bool_decide_true].
Qed.

Lemma rwsem_drains_witness :
  (forall y', drain_step demo y' ->
     reachable 3 y' /\ (weight (threads y') < weight (threads demo))%nat) /\
  ((forall t x, threads demo !! t = Some x -> x = Idle) \/ exists y', drain_step demo y').
Proof. apply (rwsem_drains 3 demo demo_reachable). Defined.

(** ** First come, first served *)

Lemma wake_task_keeps ts u t x :
  ts !! t = Some x -> ~ blocked x -> wake_task ts u !! t = Some x.
Proof.
  intros Ht Hx. unfold wake_task. destruct (ts !! u) as [[| k | |] |] eqn:E; try done.
  rewrite list_lookup_insert_ne; [done |]. intros ->. apply Hx. exists k. congruence.
Qed.

Lemma wake_tasks_keeps ts ws t x :
  ts !! t = Some x -> ~ blocked x -> wake_tasks ts ws !! t = Some x.
Proof. revert ts. induction ws; intros ts Ht Hx; simpl; eauto using wake_task_keeps. Qed.

Lemma wake_tasks_woken ts ws t k :
  ts !! t = Some (Blocked k) -> t ∈ ws -> wake_tasks ts ws !! t = Some (Woken k).
Proof.
  revert ts. induction ws as [| u ws IH]; intros ts Ht Hin; [by apply elem_of_nil in Hin |].
  apply elem_of_cons in Hin. simpl. destruct (decide (u = t)) as [-> | Hne].
  - apply wake_tasks_keeps; [| apply not_blocked_woken]. unfold wake_task. rewrite Ht.
    apply list_lookup_insert_eq. by eapply lookup_lt_Some.
  - apply IH; [| by destruct Hin as [-> |]]. unfold wake_task.
    destruct (ts !! u) as [[| k' | |] |]; try done. by rewrite list_lookup_insert_ne.
Qed.

Lemma task_mk_waiter k (ts : list nat) : task <$> ((fun t => mk_waiter t k) <$> ts) = ts.
Proof. rewrite <- list_fmap_compose. apply list_fmap_id. Qed.

Lemma do_wake_front s b s' woken :
  __rwsem_do_wake s b = Some (s', woken) ->
  exists front, wait_list s = front ++ wait_list s' /\ woken = task <$> front.
Proof.
  unfold __rwsem_do_wake. destruct (wait_list s) as [| w l] eqn:El; [done |].
  destruct (wake_readers (w :: l)) as [ts r] eqn:E. apply wake_readers_split in E as [E _].
  intros H. destruct b, (is_write (flags w)); simpl in H; injection H as <- <-.
  - by exists [w].
  - exists ((fun t => mk_waiter t R) <$> ts). by rewrite task_mk_waiter.
  - exists []. by rewrite El.
  - exists ((fun t => mk_waiter t R) <$> ts). by rewrite task_mk_waiter.
Qed.

(** A release takes the waiters it wakes from the front of the queue. *)
Lemma release_front s s' woken :
  __up_read s = Some (s', woken) \/ __up_write s = Some (s', woken) \/
  __downgrade_write s = Some (s', woken) ->
  exists front, wait_list s = front ++ wait_list s' /\ woken = task <$> front.
Proof.
  unfold __up_read, __up_write, __downgrade_write. intros [H | [H | H]].
  - destruct (_ && _); [| injection H as <- <-; by exists []].
    unfold __rwsem_wake_one_writer in H. simpl in H.
    destruct (wait_list s) as [| w l]; [done |]. injection H as <- <-. by exists [w].
  - destruct (negb _); [by apply do_wake_front in H | injection H as <- <-; by exists []].
  - destruct (negb _); [by apply do_wake_front in H | injection H as <- <-; by exists []].
Qed.

(** What one step does to the queue: waiters leave at the front, each of them
    awakened with the kind of lock it asked for, and arrive at the back; a thread
    gets the lock without queueing only when nobody is waiting. *)
Definition fifo_step (y y' : system) : Prop :=
  exists front rest back,
    wait_list (sem y) = front ++ rest /\ wait_list (sem y') = rest ++ back /\
    (forall w, w ∈ front -> threads y' !! task w = Some (Woken (flags w))) /\
    (forall t k, threads y !! t = Some Idle -> threads y' !! t = Some (Holding k) ->
       wait_list (sem y) = []).

Lemma fifo_release s ts t x y s' woken :
  queue_threads (wait_list s) ts -> ts !! t = Some x -> ~ blocked x -> x <> Idle -> ~ blocked y ->
  __up_read s = Some (s', woken) \/ __up_write s = Some (s', woken) \/
  __downgrade_write s = Some (s', woken) ->
  fifo_step (mk_sys s ts) (mk_sys s' (wake_tasks (<[t := y]> ts) woken)).
Proof.
  intros Hq Ht Hx Hidle Hy (front & Hf & ->)%release_front.
  exists front, (wait_list s'), []. simpl. rewrite app_nil_r. split_and!; [done | done | |].
  - intros w Hw. apply wake_tasks_woken; [| by apply list_elem_of_fmap_2].
    apply (qt_blocked _ _ (qt_insert _ _ _ _ _ Ht Hx Hy Hq)). rewrite Hf. apply elem_of_app. by left.
  - intros u k Hu Hu'. exfalso. assert (t <> u) as Hne by (intros ->; congruence).
    rewrite (wake_tasks_keeps _ _ u Idle) in Hu';
      [done | by rewrite list_lookup_insert_ne | apply not_blocked_idle].
Qed.

Lemma fifo_down s s' ts t x back :
  ts !! t = Some Idle -> wait_list s' = wait_list s ++ back ->
  (wait_list s = [] \/ forall k, x <> Holding k) ->
  fifo_step (mk_sys s ts) (mk_sys s' (<[t := x]> ts)).
Proof.
  intros Ht Hw Hx. exists [], (wait_list s), back. simpl. split_and!; [done | done | |].
  - intros w Hin. by apply elem_of_nil in Hin.
  - intros u k Hu Hu'. destruct Hx as [| Hx]; [done | exfalso].
    destruct (decide (t = u)) as [<- | Hne].
    + rewrite list_lookup_insert_eq in Hu' by (by eapply lookup_lt_Some).
      apply (Hx k). congruence.
    + rewrite list_lookup_insert_ne in Hu' by done. congruence.
Qed.

(** One [down] operation: granted with an empty queue, queued at the back, or (a
    trylock) refused. *)
Ltac fifo_down_case H granted :=
  destruct (_ && _) eqn:E; injection H as <- <-;
  [ apply granted in E as [_ E];
    eapply (fifo_down _ _ _ _ _ []); simpl; [done | by rewrite app_nil_r | auto]
  | first [ eapply fifo_down; simpl; [done | reflexivity | right; done]
          | eapply (fifo_down _ _ _ _ _ []); simpl; [done | by rewrite app_nil_r | right; done] ] ].

(** First come, first served: in every step of every run, the waiters that are
    woken are the ones at the front of the queue, each obtains the kind of lock it
    was waiting for (a writer is never handed a read lock nor a reader a write
    lock), new waiters join at the back, and no request, not even a trylock, is
    granted past a waiter. *)
Lemma rwsem_fifo n y y' : reachable n y -> step y y' -> fifo_step y y'.
Proof.
  intros Hr%reachable_inv Hs. destruct Hr as [_ Hq _].
  destruct Hs as [s t ts s' g Ht H | s t ts s' g Ht H | s t ts s' g Ht H | s t ts s' g Ht H
    | s t ts k Ht | s t ts s' w Ht H | s t ts s' w Ht H | s t ts s' w Ht H]; simpl in Hq.
  - unfold __down_read in H. fifo_down_case H down_read_granted.
  - unfold __down_read_trylock in H. fifo_down_case H down_read_granted.
  - unfold __down_write in H. fifo_down_case H down_write_granted.
  - unfold __down_write_trylock in H. fifo_down_case H down_write_granted.
  - exists [], (wait_list s), []. simpl. rewrite app_nil_r. split_and!; [done | done | |].
    + intros w Hin. by apply elem_of_nil in Hin.
    + intros u k' Hu Hu'. exfalso. assert (t <> u) by (intros ->; congruence).
      rewrite list_lookup_insert_ne in Hu' by done. congruence.
  - eapply fifo_release; eauto using not_blocked_holding, not_blocked_idle.
  - eapply fifo_release; eauto using not_blocked_holding, not_blocked_idle.
  - eapply fifo_release; eauto using not_blocked_holding, not_blocked_idle.
Qed.
