(* ===== verification/Resource.v ===== *)
(** * I/O resource trees: kernel/resource.c

    A resource is a range of addresses with the list of its children, kept in
    ascending order: the [child]/[sibling] links of the C structure are the list
    and the [parent] link is the position in the tree. [r_addr] is the address of
    the structure, its identity. Addresses and sizes are 32-bit words
    ([unsigned long]) and wrap around. An operation takes the tree at the root it
    is called on and returns the updated tree; [resource_lock] makes each of them
    atomic. The two descents that follow a chain of children ([insert_resource],
    [__request_region], [__release_region]) take the height of the tree as fuel,
    since every iteration goes down one level. *)

From S2P Require Import Prelude Bitops.

Scheme All for list.
#[local] Set Warnings "-register-all".

Inductive resource := Res {
  r_addr : nat;
  r_name : Z;
  r_start : Z;
  r_end : Z;
  r_flags : Z;
  r_child : list resource
}.

Definition IORESOURCE_BUSY := 0x80000000.

Definition busy (r : resource) : bool := negb (Z.land (r_flags r) IORESOURCE_BUSY =? 0).

Definition set_child (r : resource) (l : list resource) : resource :=
  Res (r_addr r) (r_name r) (r_start r) (r_end r) (r_flags r) l.

Definition set_range (r : resource) (s e : Z) : resource :=
  Res (r_addr r) (r_name r) s e (r_flags r) (r_child r).

(** ** Requesting and releasing *)

(** What [__request_resource] returns: the tree with the new resource linked in
    ([NULL] in C), or the resource in conflict, which is the root itself or one of
    its children. *)
Inductive request_result :=
  | Granted (root : resource)
  | ConflictRoot
  | Conflict (tmp : resource).

Fixpoint request_loop (new : resource) (l : list resource) : list resource + resource :=
  match l with
  | [] => inl [new]
  | tmp :: l' =>
      if r_end new <? r_start tmp then inl (new :: tmp :: l')
      else if r_end tmp <? r_start new then
        match request_loop new l' with
        | inl l' => inl (tmp :: l')
        | inr c => inr c
        end
      else inr tmp
  end.

Definition __request_resource (root new : resource) : request_result :=
  if r_end new <? r_start new then ConflictRoot
  else if r_start new <? r_start root then ConflictRoot
  else if r_end root <? r_end new then ConflictRoot
  else match request_loop new (r_child root) with
       | inl l => Granted (set_child root l)
       | inr tmp => Conflict tmp
       end.

(** The error number, and the tree afterwards. *)
Definition request_resource (root new : resource) : Z * resource :=
  match __request_resource root new with
  | Granted root => (0, root)
  | _ => (- EBUSY, root)
  end.

Fixpoint release_loop (old : nat) (l : list resource) : option (list resource) :=
  match l with
  | [] => None
  | tmp :: l' =>
      if (r_addr tmp =? old)%nat then Some l'
      else l' ← release_loop old l'; Some (tmp :: l')
  end.

(** [old->parent] is the resource of the tree at [root] whose children include
    [old]: the list of children is tried at each level, depth first. *)
Fixpoint __release_resource (root : resource) (old : nat) : Z * resource :=
  match release_loop old (r_child root) with
  | Some l => (0, set_child root l)
  | None =>
      (fix down (l : list resource) (before : list resource) : Z * resource :=
         match l with
         | [] => (- EINVAL, root)
         | c :: l' =>
             match __release_resource c old with
             | (0, c') => (0, set_child root (before ++ c' :: l'))
             | _ => down l' (before ++ [c])
             end
         end) (r_child root) []
  end.

Definition release_resource (root : resource) (old : nat) : Z * resource :=
  __release_resource root old.

(** ** Finding and allocating *)

(** The callback [alignf (data, new, size, align)] may move both ends of the
    candidate range. *)
Abbreviation alignf_t := (option (Z * Z -> Z -> Z -> Z * Z)).

Definition align_up (x align : Z) : Z := Z.land (x ⊕ (align - 1)) (u32 (Z.lnot (align ⊖ 1))).

(** One candidate gap: from [s] to just below [this], or to the end of the root. *)
Definition gap (root : resource) (s : Z) (this : option resource) (min max align : Z)
    (alignf : alignf_t) (size : Z) : Z * Z :=
  let e := match this with Some t => r_start t ⊖ 1 | None => r_end root end in
  let s := if s <? min then min else s in
  let e := if max <? e then max else e in
  let s := align_up s align in
  match alignf with Some f => f (s, e) size align | None => (s, e) end.

Definition gap_fits (se : Z * Z) (size : Z) : bool :=
  (se.1 <? se.2) && (size <=? u32 (se.2 - se.1 + 1)).

Fixpoint find_loop (root : resource) (s : Z) (l : list resource) (size min max align : Z)
    (alignf : alignf_t) : option (Z * Z) :=
  let se := gap root s (head l) min max align alignf size in
  if gap_fits se size then Some (se.1, u32 (se.1 + size - 1))
  else match l with
       | [] => None
       | this :: l' => find_loop root (r_end this ⊕ 1) l' size min max align alignf
       end.

(** [Some (start, end)] for a return value of 0, [None] for [-EBUSY]. *)
Definition find_resource (root : resource) (size min max align : Z) (alignf : alignf_t)
  : option (Z * Z) :=
  match r_child root with
  | this :: l =>
      if r_start this =? 0 then find_loop root (r_end this ⊕ 1) l size min max align alignf
      else find_loop root (r_start root) (r_child root) size min max align alignf
  | [] => find_loop root (r_start root) [] size min max align alignf
  end.

Definition allocate_resource (root new : resource) (size min max align : Z) (alignf : alignf_t)
  : Z * resource :=
  match find_resource root size min max align alignf with
  | None => (- EBUSY, root)
  | Some (s, e) =>
      match __request_resource root (set_range new s e) with
      | Granted root => (0, root)
      | _ => (- EBUSY, root)
      end
  end.

(** ** Inserting above existing resources *)

Fixpoint height (r : resource) : nat :=
  S ((fix heights (l : list resource) : nat :=
        match l with [] => 0%nat | c :: l => (height c `max` heights l)%nat end) (r_child r)).

(** The child at address [a] replaced, as an assignment through its pointer does. *)
Definition replace_child (l : list resource) (a : nat) (c : resource) : list resource :=
  (fun x => if (r_addr x =? a)%nat then c else x) <$> l.

(** From the first conflict on, the run of children that [new] covers and the
    rest; [None] when one of them overlaps [new] only partly. *)
Fixpoint cover (new : resource) (l : list resource) : option (list resource * list resource) :=
  match l with
  | [] => Some ([], [])
  | next :: l' =>
      if (r_start next <? r_start new) || (r_end new <? r_end next) then None
      else match l' with
           | [] => Some ([next], [])
           | sib :: _ =>
               if r_end new <? r_start sib then Some ([next], l')
               else '(c, rest) ← cover new l'; Some (next :: c, rest)
           end
  end.

(** The children before the first conflict, and from it on. *)
Fixpoint split_at (a : nat) (l : list resource) : list resource * list resource :=
  match l with
  | [] => ([], [])
  | c :: l' =>
      if (r_addr c =? a)%nat then ([], l)
      else let '(p, q) := split_at a l' in (c :: p, q)
  end.

Fixpoint insert_loop (fuel : nat) (parent new : resource) : option (Z * resource) :=
  match fuel with
  | O => None
  | S fuel =>
      match __request_resource parent new with
      | Granted parent => Some (0, parent)
      | ConflictRoot => Some (- EBUSY, parent)
      | Conflict first =>
          if (r_start first <=? r_start new) && (r_end new <=? r_end first) then
            '(result, first') ← insert_loop fuel first new;
            Some (result, set_child parent (replace_child (r_child parent) (r_addr first) first'))
          else
            let '(before, from) := split_at (r_addr first) (r_child parent) in
            match cover new from with
            | None => Some (- EBUSY, parent)
            | Some (covered, rest) =>
                Some (0, set_child parent (before ++ set_child new covered :: rest))
            end
      end
  end.

Definition insert_resource (parent new : resource) : option (Z * resource) :=
  insert_loop (height parent) parent new.

(** ** Adjusting *)

Definition within (s e : Z) (c : resource) : bool := negb ((r_start c <? s) || (e <? r_end c)).

(** [res] is the child of [parent] at address [a]. *)
Definition adjust_resource (parent : resource) (a : nat) (start size : Z) : option (Z * resource) :=
  let '(before, from) := split_at a (r_child parent) in
  match from with
  | [] => None
  | res :: after =>
      let e := u32 (start + size - 1) in
      if (start <? r_start parent) || (r_end parent <? e) then Some (- EBUSY, parent)
      else if negb (forallb (within start e) (r_child res)) then Some (- EBUSY, parent)
      else if match head after with Some sib => r_start sib <=? e | None => false end
      then Some (- EBUSY, parent)
      else if match last before with Some tmp => start <=? r_end tmp | None => false end
      then Some (- EBUSY, parent)
      else Some (0, set_child parent (before ++ set_range res start e :: after))
  end.

(** ** Regions *)

Fixpoint request_region_loop (fuel : nat) (parent res : resource) : option (resource * bool) :=
  match fuel with
  | O => None
  | S fuel =>
      match __request_resource parent res with
      | Granted parent => Some (parent, true)
      | ConflictRoot => Some (parent, false)
      | Conflict conflict =>
          if busy conflict then Some (parent, false)
          else
            '(conflict', ok) ← request_region_loop fuel conflict res;
            Some (set_child parent (replace_child (r_child parent) (r_addr conflict) conflict'), ok)
      end
  end.

(** [kzalloc] gives the address of the new structure or fails. The result is the
    tree and the address returned ([None]: [NULL]). *)
Definition __request_region (parent : resource) (start n name : Z) (kzalloc : option nat)
  : option (resource * option nat) :=
  match kzalloc with
  | None => Some (parent, None)
  | Some a =>
      let res := Res a name start (u32 (start + n - 1)) IORESOURCE_BUSY [] in
      '(parent, ok) ← request_region_loop (height parent) parent res;
      Some (parent, if (ok : bool) then Some a else None)
  end.

(** [true] when a resource was removed (and freed), [false] when the warning is
    printed. *)
Fixpoint release_region_loop (fuel : nat) (l : list resource) (start e : Z)
  : option (list resource * bool) :=
  match fuel with
  | O => None
  | S fuel =>
      (fix walk (l : list resource) : option (list resource * bool) :=
         match l with
         | [] => Some ([], false)
         | res :: l' =>
             if (r_start res <=? start) && (e <=? r_end res) then
               if negb (busy res) then
                 '(ch, ok) ← release_region_loop fuel (r_child res) start e;
                 Some (set_child res ch :: l', ok)
               else if negb (r_start res =? start) || negb (r_end res =? e)
               then Some (res :: l', false)
               else Some (l', true)
             else
               '(l', ok) ← walk l'; Some (res :: l', ok)
         end) l
  end.

Definition __release_region (parent : resource) (start n : Z) : option (resource * bool) :=
  '(l, ok) ← release_region_loop (height parent) (r_child parent) start (u32 (start + n - 1));
  Some (set_child parent l, ok).

(** Request the region, and release it again when that worked. *)
Definition __check_region (parent : resource) (start n name : Z) (kzalloc : option nat)
  : option (Z * resource) :=
  '(parent', res) ← __request_region parent start n name kzalloc;
  match res with
  | None => Some (- EBUSY, parent')
  | Some a => Some (0, (release_resource parent' a).2)
  end.

(** * Correctness *)

(** Children are in ascending order, do not overlap and lie between [lo] and [hi]. *)
Fixpoint sorted_in (lo hi : Z) (l : list resource) : Prop :=
  match l with
  | [] => True
  | c :: l => lo <= r_start c <= r_end c /\ r_end c <= hi /\ sorted_in (r_end c + 1) hi l
  end.

(** A well-formed tree: every range is non-empty and contains the ranges of its
    children, which are sorted and disjoint. *)
Inductive wf : resource -> Prop :=
  | wf_res r :
      0 <= r_start r <= r_end r -> r_end r < 4294967296 ->
      sorted_in (r_start r) (r_end r) (r_child r) -> Forall wf (r_child r) -> wf r.

Lemma wf_inv r :
  wf r -> 0 <= r_start r <= r_end r /\ r_end r < 4294967296 /\
          sorted_in (r_start r) (r_end r) (r_child r) /\ Forall wf (r_child r).
Proof. by destruct 1. Qed.

Lemma wf_set_child r l :
  wf r -> sorted_in (r_start r) (r_end r) l -> Forall wf l -> wf (set_child r l).
Proof. intros (H1 & H2 & _ & _)%wf_inv Hs Hl. by constructor. Qed.

Definition overlap (a b : resource) : Prop := r_start a <= r_end b /\ r_start b <= r_end a.

Lemma sorted_in_weaken lo lo' hi l : lo' <= lo -> sorted_in lo hi l -> sorted_in lo' hi l.
Proof. destruct l as [| c l]; simpl; intros; [done |]. intuition lia. Qed.

Lemma sorted_in_elem lo hi l c :
  sorted_in lo hi l -> c ∈ l -> lo <= r_start c <= r_end c /\ r_end c <= hi.
Proof.
  revert lo. induction l as [| d l IH]; intros lo; simpl; [by intros _ ?%elem_of_nil |].
  intros (H1 & H2 & H3) [-> | Hin]%elem_of_cons; [lia |].
  destruct (IH _ H3 Hin). lia.
Qed.

Lemma sorted_in_app lo hi l1 l2 :
  sorted_in lo hi (l1 ++ l2) <->
  sorted_in lo hi l1 /\ sorted_in (foldl (fun _ c => r_end c + 1) lo l1) hi l2.
Proof.
  revert lo. induction l1 as [| c l1 IH]; intros lo; simpl; [tauto |].
  rewrite IH. tauto.
Qed.

(** ** Requesting *)

Lemma request_loop_spec new lo hi l :
  sorted_in lo hi l -> lo <= r_start new -> r_start new <= r_end new -> r_end new <= hi ->
  match request_loop new l with
  | inl l' =>
      (exists l1 l2, l = l1 ++ l2 /\ l' = l1 ++ new :: l2) /\ sorted_in lo hi l' /\
      (forall c, c ∈ l -> ~ overlap new c)
  | inr tmp =>
      exists l1 l2, l = l1 ++ tmp :: l2 /\ overlap new tmp /\
        (forall c, c ∈ l1 -> r_end c < r_start new)
  end.
Proof.
  revert lo. induction l as [| tmp l IH]; intros lo Hs H1 H2 H3; simpl.
  - split_and!; [by exists [], [] | lia | lia | lia | done | by intros c ?%elem_of_nil].
  - simpl in Hs. destruct Hs as (Ht1 & Ht2 & Hs).
    destruct (Z.ltb_spec (r_end new) (r_start tmp)) as [Hlt | Hge].
    + split_and!; [by exists [], (tmp :: l) | simpl; intuition lia |].
      intros c [-> | Hc]%elem_of_cons; unfold overlap; [lia |].
      destruct (sorted_in_elem _ _ _ c Hs Hc). lia.
    + destruct (Z.ltb_spec (r_end tmp) (r_start new)) as [Hlt' | Hge'].
      * specialize (IH (r_end tmp + 1) Hs ltac:(lia) H2 H3).
        destruct (request_loop new l) as [l' | c].
        -- destruct IH as ((l1 & l2 & -> & ->) & Hs' & Hno).
           split_and!; [by exists (tmp :: l1), l2 | simpl; split_and!; (done || lia) |].
           intros c [-> | Hc]%elem_of_cons; [unfold overlap; lia | by apply Hno].
        -- destruct IH as (l1 & l2 & -> & Ho & Hb). exists (tmp :: l1), l2.
           split_and!; [done | done |]. intros x [-> | Hx]%elem_of_cons; [lia | by apply Hb].
      * exists [], l. split_and!; [done | split; lia | by intros x ?%elem_of_nil].
Qed.

(** The three outcomes of [__request_resource] on a well-formed tree. *)
Lemma __request_resource_spec root new :
  wf root -> wf new ->
  match __request_resource root new with
  | Granted root' =>
      (r_start root <= r_start new /\ r_end new <= r_end root) /\
      (forall c, c ∈ r_child root -> ~ overlap new c) /\
      (exists l1 l2, r_child root = l1 ++ l2 /\ root' = set_child root (l1 ++ new :: l2)) /\
      wf root'
  | ConflictRoot => ~ (r_start root <= r_start new /\ r_end new <= r_end root)
  | Conflict tmp =>
      (r_start root <= r_start new /\ r_end new <= r_end root) /\ overlap new tmp /\
      (exists l1 l2, r_child root = l1 ++ tmp :: l2 /\
         forall c, c ∈ l1 -> r_end c < r_start new)
  end.
Proof.
  intros Hr Hn. pose proof (wf_inv _ Hr) as (Hr1 & Hr2 & Hrs & Hrf).
  pose proof (wf_inv _ Hn) as (Hn1 & Hn2 & _ & _). unfold __request_resource.
  destruct (Z.ltb_spec (r_end new) (r_start new)); [lia |].
  destruct (Z.ltb_spec (r_start new) (r_start root)); [lia |].
  destruct (Z.ltb_spec (r_end root) (r_end new)); [lia |].
  pose proof (request_loop_spec new _ _ _ Hrs ltac:(lia) ltac:(lia) ltac:(lia)) as Hl.
  destruct (request_loop new (r_child root)) as [l | tmp].
  - destruct Hl as ((l1 & l2 & El & ->) & Hs & Hno).
    split_and!; [lia | lia | done | by exists l1, l2 |].
    apply wf_set_child; [done | done |]. rewrite El in Hrf.
    apply Forall_app in Hrf as [? ?]. apply Forall_app. split; [done | by constructor].
  - destruct Hl as (l1 & l2 & -> & Ho & Hb). split_and!; [lia | lia | done | by exists l1, l2].
Qed.

(** [request_resource] links the new resource in exactly when its range lies
    in the root's and overlaps none of the root's children. It then returns 0, the
    other children are unchanged, and the tree is still well formed (ranges nested,
    siblings sorted and disjoint); otherwise it returns [-EBUSY] and changes
    nothing. *)
Lemma request_resource_spec root new :
  wf root -> wf new ->
  let '(err, root') := request_resource root new in
  let fits := (r_start root <= r_start new /\ r_end new <= r_end root) /\
              forall c, c ∈ r_child root -> ~ overlap new c in
  wf root' /\
  ((err = 0 /\ fits /\
    exists l1 l2, r_child root = l1 ++ l2 /\ root' = set_child root (l1 ++ new :: l2)) \/
   (err = - EBUSY /\ ~ fits /\ root' = root)).
Proof.
  intros Hr Hn. pose proof (__request_resource_spec root new Hr Hn) as H.
  unfold request_resource. destruct (__request_resource root new) as [root' | | tmp].
  - destruct H as (H1 & H2 & H3 & H4). split; [done |]. left.
    split; [done |]. split; [by split | done].
  - split; [done |]. right. tauto.
  - destruct H as (H1 & H2 & l1 & l2 & E & _). split; [done |]. right.
    split_and!; [done | | done]. intros [_ Hno]. apply (Hno tmp); [| done].
    rewrite E. apply elem_of_app. right. left.
Qed.

Definition demo_root : resource :=
  Res 1 0 0 0xFFFF 0 [Res 2 0 0x10 0x1F 0 []; Res 3 0 0x40 0x5F 0 [Res 4 0 0x50 0x5F IORESOURCE_BUSY []]].

Lemma wf_leaf a nm s e fl : 0 <= s <= e -> e < 4294967296 -> wf (Res a nm s e fl []).
Proof. intros. constructor; simpl; (done || lia || constructor). Qed.

Lemma demo_root_wf : wf demo_root.
Proof.
  unfold demo_root. constructor; simpl; try lia.
  repeat constructor; simpl; try lia.
Defined.

(** ** Allocation *)

Lemma align_up_div x k :
  0 <= k < 32 -> 0 <= x -> x + 2 ^ k <= 4294967296 ->
  align_up x (2 ^ k) = (x + 2 ^ k - 1) / 2 ^ k * 2 ^ k.
Proof.
  intros Hk Hx Hb. pose proof (Z.pow_pos_nonneg 2 k ltac:(lia) ltac:(lia)).
  unfold align_up. rewrite (u32_id (2 ^ k - 1)), (u32_id (x + _)) by (unfold is_u32; lia).
  replace (u32 (Z.lnot (2 ^ k - 1))) with (Z.ldiff (Z.ones 32) (Z.ones k)).
  - rewrite land_high_mask by (unfold is_u32; lia). do 2 f_equal. lia.
  - rewrite Z.ldiff_land. unfold u32. change 4294967296 with (2 ^ 32).
    rewrite <- Z.land_ones, Z.land_comm, Z.ones_equiv, Z.sub_1_r by lia. done.
Qed.

Lemma align_up_spec x k :
  0 <= k < 32 -> 0 <= x -> x + 2 ^ k <= 4294967296 ->
  let y := align_up x (2 ^ k) in
  (2 ^ k | y) /\ x <= y /\ forall z, (2 ^ k | z) -> x <= z -> y <= z.
Proof.
  intros Hk Hx Hb y. pose proof (Z.pow_pos_nonneg 2 k ltac:(lia) ltac:(lia)) as Hp.
  unfold y. rewrite align_up_div by done.
  pose proof (Z.div_mod (x + 2 ^ k - 1) (2 ^ k) ltac:(lia)).
  pose proof (Z.mod_pos_bound (x + 2 ^ k - 1) (2 ^ k) Hp).
  split_and!; [by exists ((x + 2 ^ k - 1) / 2 ^ k) | nia |].
  intros z [q ->] Hz. apply Z.mul_le_mono_nonneg_r; [lia |].
  apply Z.lt_succ_r, Z.div_lt_upper_bound; lia.
Qed.

(** The range [a..b] as a resource, to speak of its overlaps. *)
Abbreviation range a b := (Res 0 0 a b 0 []).

Section Allocate.
Context (root : resource) (size min max k : Z).
Context (Hk : 0 <= k < 32) (Hsize : 1 <= size) (Hmin : 0 <= min) (Hmax : max < 4294967296).
(** No wrap-around when the start of a gap is rounded up. *)
Context (Hwrap : Z.max min (r_end root + 1) + 2 ^ k <= 4294967296).

(** What a correct answer is: aligned, in the window, and free of [l]. *)
Definition good_range (s : Z) (l : list resource) (a b : Z) : Prop :=
  (2 ^ k | a) /\ s <= a /\ min <= a /\ b = a + size - 1 /\ b <= max /\ b <= r_end root /\
  forall c, c ∈ l -> ~ overlap (range a b) c.

(** A free aligned place of [size] bytes and at least two. *)
Definition free_place (s : Z) (l : list resource) (a : Z) : Prop :=
  (2 ^ k | a) /\ s <= a /\ min <= a /\
  a + Z.max size 2 - 1 <= max /\ a + Z.max size 2 - 1 <= r_end root /\
  forall c, c ∈ l -> ~ overlap (range a (a + Z.max size 2 - 1)) c.

Lemma gap_spec s (l : list resource) :
  0 <= s <= r_end root + 1 -> sorted_in s (r_end root) l ->
  match l with c :: _ => 0 < r_start c | [] => True end ->
  let se := gap root s (head l) min max (2 ^ k) None size in
  let hi := match l with c :: _ => r_start c - 1 | [] => r_end root end in
  se.1 = align_up (Z.max s min) (2 ^ k) /\ se.2 = Z.min hi max.
Proof.
  intros Hs Hl H0. unfold gap. simpl.
  assert (forall x y, (if x <? y then y else x) = Z.max x y) as Emax
    by (intros x y; destruct (Z.ltb_spec x y); lia).
  rewrite Emax. split; [done |]. destruct l as [| c l]; simpl in *.
  - destruct (Z.ltb_spec max (r_end root)); lia.
  - rewrite u32_id by (unfold is_u32; lia).
    destruct (Z.ltb_spec max (r_start c - 1)); lia.
Qed.

Lemma find_loop_spec s l :
  0 <= s <= r_end root + 1 -> sorted_in s (r_end root) l ->
  match l with c :: _ => 0 < r_start c | [] => True end ->
  match find_loop root s l size min max (2 ^ k) None with
  | Some (a, b) => good_range s l a b
  | None => forall a, ~ free_place s l a
  end.
Proof.
  pose proof (Z.pow_pos_nonneg 2 k ltac:(lia) ltac:(lia)) as Hp.
  revert s. induction l as [| c l IH]; intros s Hs Hl H0.
  all: destruct (gap_spec s _ Hs Hl H0) as [E1 E2].
  all: destruct (align_up_spec (Z.max s min) k Hk) as (Ha & Hle & Hleast); [lia | lia |].
  all: cbn [find_loop]; unfold gap_fits; rewrite E1, E2; clear E1 E2.
  all: set (a := align_up (Z.max s min) (2 ^ k)) in *.
  - destruct (Z.ltb_spec a (Z.min (r_end root) max)) as [Hlt |]; simpl.
    + rewrite u32_id by (unfold is_u32; lia).
      destruct (Z.leb_spec size (Z.min (r_end root) max - a + 1)).
      * rewrite u32_id by (unfold is_u32; lia).
        split_and!; try (done || lia). by intros c ?%elem_of_nil.
      * intros z (Hz & ? & ? & ? & ? & _). pose proof (Hleast z Hz ltac:(lia)). lia.
    + intros z (Hz & ? & ? & ? & ? & _). pose proof (Hleast z Hz ltac:(lia)). lia.
  - simpl in Hl, H0. destruct Hl as (Hc1 & Hc2 & Hl).
    (* no place of the window lies in this gap, unless the gap is taken *)
    assert (forall z, free_place s (c :: l) z -> z + Z.max size 2 - 1 <= r_start c - 1 \/
              free_place (r_end c + 1) l z) as Hnext.
    { intros z (Hz & Hz1 & Hz2 & Hz3 & Hz4 & Hno).
      pose proof (Hno c ltac:(left)) as Hoc. unfold overlap in Hoc. simpl in Hoc.
      destruct (Z.le_gt_cases (r_start c) (z + Z.max size 2 - 1)); [right | lia].
      split_and!; try (done || lia). intros d Hd. apply Hno. by right. }
    specialize (IH (r_end c + 1) ltac:(lia) Hl).
    rewrite (u32_id (r_end c + 1)) by (unfold is_u32; lia).
    assert (match l with c' :: _ => 0 < r_start c' | [] => True end) as H0'
      by (destruct l; simpl in Hl; [done | lia]).
    specialize (IH H0').
    (* when this gap does not fit, the answer is that of the rest *)
    assert (Z.min (r_start c - 1) max - a + 1 < Z.max size 2 ->
            match find_loop root (r_end c + 1) l size min max (2 ^ k) None with
            | Some (a, b) => good_range s (c :: l) a b
            | None => forall a, ~ free_place s (c :: l) a
            end) as Hrest.
    { intros Hno. destruct (find_loop root (r_end c + 1) l size min max (2 ^ k) None) as [[x y] |].
      - destruct IH as (? & ? & ? & ? & ? & ? & Hx). split_and!; try (done || lia).
        intros d [-> | Hd]%elem_of_cons; [unfold overlap; simpl; lia | by apply Hx].
      - intros z Hf. destruct (Hnext z Hf) as [Hz |]; [| by eapply IH].
        destruct Hf as (Hd & ? & ? & ? & ? & _). pose proof (Hleast z Hd ltac:(lia)). lia. }
    destruct (Z.ltb_spec a (Z.min (r_start c - 1) max)) as [Hlt |]; simpl;
      [| apply Hrest; lia].
    rewrite u32_id by (unfold is_u32; lia).
    destruct (Z.leb_spec size (Z.min (r_start c - 1) max - a + 1)); [| apply Hrest; lia].
    rewrite u32_id by (unfold is_u32; lia). split_and!; try (done || lia).
    intros d [-> | Hd]%elem_of_cons; unfold overlap; simpl; [lia |].
    destruct (sorted_in_elem _ _ _ d Hl Hd). lia.
Qed.

Lemma find_resource_spec :
  wf root ->
  match find_resource root size min max (2 ^ k) None with
  | Some (a, b) => good_range (r_start root) (r_child root) a b
  | None => forall a, ~ free_place (r_start root) (r_child root) a
  end.
Proof.
  intros (H1 & H2 & Hs & _)%wf_inv. pose proof (Z.pow_pos_nonneg 2 k ltac:(lia) ltac:(lia)) as Hp.
  unfold find_resource. destruct (r_child root) as [| c l] eqn:El.
  { apply find_loop_spec; simpl; (done || lia). }
  destruct (Z.eqb_spec (r_start c) 0) as [E | E].
  - simpl in Hs. destruct Hs as (Hc1 & Hc2 & Hs).
    rewrite u32_id by (unfold is_u32; lia).
    assert (match l with c' :: _ => 0 < r_start c' | [] => True end) as H0
      by (destruct l; simpl in Hs; [done | lia]).
    pose proof (find_loop_spec (r_end c + 1) l ltac:(lia) Hs H0) as Hf.
    destruct (find_loop root (r_end c + 1) l size min max (2 ^ k) None) as [[a b] |].
    + destruct Hf as (? & ? & ? & ? & ? & ? & Hno). split_and!; try (done || lia).
      intros d [-> | Hd]%elem_of_cons; [unfold overlap; simpl; lia | by apply Hno].
    + intros a (Ha & Ha1 & Ha2 & Ha3 & Ha4 & Hno). apply (Hf a).
      pose proof (Hno c ltac:(left)) as Hoc. unfold overlap in Hoc. simpl in Hoc.
      split_and!; try (done || lia). intros d Hd. apply Hno. by right.
  - apply find_loop_spec; [lia | by rewrite <- El in * |].
    simpl in Hs. lia.
Qed.
End Allocate.

Lemma wf_set_range new s e :
  r_child new = [] -> 0 <= s <= e -> e < 4294967296 -> wf (set_range new s e).
Proof. intros Hc H1 H2. constructor; simpl; rewrite ?Hc; (done || constructor). Qed.

(** [allocate_resource] without a callback, for a power-of-two alignment and
    when rounding up cannot wrap around: on success the new resource has exactly
    the requested size, is aligned, lies inside [min..max] and the root, overlaps
    no sibling, and the tree stays well formed. It fails with [-EBUSY] and no change
    only when the root has no free aligned place of [size] bytes (and at least two
    bytes) in the window. *)
Lemma allocate_resource_spec root new size min max k :
  wf root -> r_child new = [] -> 0 <= k < 32 -> 1 <= size -> 0 <= min -> max < 4294967296 ->
  Z.max min (r_end root + 1) + 2 ^ k <= 4294967296 ->
  let '(err, root') := allocate_resource root new size min max (2 ^ k) None in
  wf root' /\
  ((err = 0 /\ exists a l1 l2,
      r_child root = l1 ++ l2 /\
      root' = set_child root (l1 ++ set_range new a (a + size - 1) :: l2) /\
      (2 ^ k | a) /\ min <= a /\ a + size - 1 <= max /\
      r_start root <= a /\ a + size - 1 <= r_end root /\
      forall c, c ∈ r_child root -> ~ overlap (range a (a + size - 1)) c) \/
   (err = - EBUSY /\ root' = root /\
    forall a, ~ free_place root size min max k (r_start root) (r_child root) a)).
Proof.
  intros Hr Hn Hk Hs Hmin Hmax Hw. unfold allocate_resource.
  pose proof (find_resource_spec root size min max k Hk Hs Hmin Hmax Hw Hr) as Hf.
  pose proof (wf_inv _ Hr) as (Hr1 & Hr2 & _ & _).
  destruct (find_resource root size min max (2 ^ k) None) as [[a b] |]; [| by auto].
  destruct Hf as (Ha & Ha1 & Ha2 & -> & Ha3 & Ha4 & Hno).
  pose proof (__request_resource_spec root (set_range new a (a + size - 1)) Hr) as Hreq.
  specialize (Hreq ltac:(apply wf_set_range; (done || lia))).
  destruct (__request_resource root _) as [root' | | tmp].
  - destruct Hreq as (_ & _ & (l1 & l2 & El & ->) & Hwf). split; [done |]. left.
    split; [done |]. exists a, l1, l2. split_and!; (done || lia).
  - exfalso. apply Hreq. simpl. lia.
  - exfalso. destruct Hreq as (_ & Ho & l1 & l2 & El & _). apply (Hno tmp); [| exact Ho].
    rewrite El. apply elem_of_app. right. left.
Qed.

(** The rounding can wrap: in the root [iomem_resource], which ends at the top
    of the address space, asking for 16 bytes in 0xFFFFFFF1..0xFFFFFFFE, aligned to
    64 KiB, succeeds with the range 0..15, below the requested minimum. *)
Theorem allocate_resource_wraps :
  let iomem_resource := Res 1 0 0 0xFFFFFFFF 0 [] in
  allocate_resource iomem_resource (Res 9 0 0 0 0 []) 16 0xFFFFFFF1 0xFFFFFFFE 0x10000 None
    = (0, Res 1 0 0 0xFFFFFFFF 0 [Res 9 0 0 15 0 []]).
Proof. vm_compute. reflexivity. Qed.

(** ** Descending the tree *)

(** The addresses of siblings are distinct, at every level. *)
Inductive addrs_ok : resource -> Prop :=
  | addrs_ok_res r : NoDup (r_addr <$> r_child r) -> Forall addrs_ok (r_child r) -> addrs_ok r.

Lemma addrs_ok_inv r : addrs_ok r -> NoDup (r_addr <$> r_child r) /\ Forall addrs_ok (r_child r).
Proof. by destruct 1. Qed.

Definition heights : list resource -> nat :=
  fix heights (l : list resource) : nat :=
    match l with [] => 0%nat | c :: l => (height c `max` heights l)%nat end.

Lemma height_heights r : height r = S (heights (r_child r)).
Proof. by destruct r. Qed.

Lemma height_elem (l : list resource) c : c ∈ l -> (height c <= heights l)%nat.
Proof. induction 1; simpl; lia. Qed.

Lemma height_child r c : c ∈ r_child r -> (height c < height r)%nat.
Proof. intros H%height_elem. rewrite (height_heights r). lia. Qed.

Lemma replace_child_spec l1 c l2 c' :
  NoDup (r_addr <$> l1 ++ c :: l2) -> replace_child (l1 ++ c :: l2) (r_addr c) c' = l1 ++ c' :: l2.
Proof.
  unfold replace_child. rewrite !fmap_app, !fmap_cons, Nat.eqb_refl.
  intros (_ & H1 & [H2 _]%NoDup_cons)%NoDup_app. f_equal; [| f_equal].
  - apply fmap_id_on. intros x Hx.
    destruct (Nat.eqb_spec (r_addr x) (r_addr c)) as [E |]; [| done].
    exfalso. apply (H1 (r_addr x)); [by apply list_elem_of_fmap_2 | rewrite E; left].
  - apply fmap_id_on. intros x Hx.
    destruct (Nat.eqb_spec (r_addr x) (r_addr c)) as [E |]; [| done].
    exfalso. apply H2. rewrite <- E. by apply list_elem_of_fmap_2.
Qed.

Lemma split_at_spec l1 c l2 :
  NoDup (r_addr <$> l1 ++ c :: l2) -> split_at (r_addr c) (l1 ++ c :: l2) = (l1, c :: l2).
Proof.
  induction l1 as [| d l1 IH]; simpl; [by rewrite Nat.eqb_refl |].
  intros [Hnew Hnd]%NoDup_cons. destruct (Nat.eqb_spec (r_addr d) (r_addr c)) as [E |].
  - exfalso. apply Hnew. rewrite E. apply list_elem_of_fmap_2, elem_of_app. right. left.
  - by rewrite IH.
Qed.

(** Changing a child but not its range keeps the list sorted. *)
Lemma sorted_in_replace lo hi l1 c c' l2 :
  r_start c' = r_start c -> r_end c' = r_end c ->
  sorted_in lo hi (l1 ++ c :: l2) -> sorted_in lo hi (l1 ++ c' :: l2).
Proof. intros E1 E2. rewrite !sorted_in_app. simpl. by rewrite E1, E2. Qed.

Lemma wf_replace r l1 c l2 c' :
  wf r -> r_child r = l1 ++ c :: l2 -> wf c' -> r_start c' = r_start c -> r_end c' = r_end c ->
  wf (set_child r (l1 ++ c' :: l2)).
Proof.
  intros Hr El Hc E1 E2. pose proof (wf_inv _ Hr) as (_ & _ & Hs & Hf). rewrite El in Hs, Hf.
  apply wf_set_child; [done | by apply (sorted_in_replace _ _ _ c) |].
  apply Forall_app in Hf as [Hf1 Hf2]. apply Forall_cons in Hf2 as [_ Hf2].
  apply Forall_app. split; [done | by constructor].
Qed.

Lemma set_child_id r : set_child r (r_child r) = r.
Proof. by destruct r. Qed.

Lemma cover_spec new lo hi l c rest :
  sorted_in lo hi l -> l <> [] -> cover new l = Some (c, rest) ->
  l = c ++ rest /\ Forall (fun x => r_start new <= r_start x /\ r_end x <= r_end new) c /\
  match rest with [] => True | x :: _ => r_end new < r_start x end.
Proof.
  revert lo c rest. induction l as [| next l IH]; intros lo c rest Hs Hne Hc; [done |].
  simpl in Hc. destruct (Z.ltb_spec (r_start next) (r_start new)); [done |].
  destruct (Z.ltb_spec (r_end new) (r_end next)); [done |]. simpl in Hc.
  destruct l as [| sib l].
  - injection Hc as <- <-. split_and!; [done | by repeat constructor; lia | done].
  - destruct (Z.ltb_spec (r_end new) (r_start sib)).
    + injection Hc as <- <-. split_and!; [done | by repeat constructor; lia | done].
    + destruct (cover new (sib :: l)) as [[c' rest'] |] eqn:E; [| done].
      simpl in Hc. injection Hc as <- <-. simpl in Hs. destruct Hs as (_ & _ & Hs).
      destruct (IH (r_end next + 1) c' rest' Hs ltac:(done) eq_refl) as (-> & Hf & Hr).
      split_and!; [done | constructor; (done || lia) | done].
Qed.

(** Moving the run of covered children below [new] keeps the order. *)
Lemma sorted_in_cover new lo hi l1 c rest :
  c <> [] -> r_start new <= r_end new -> lo <= r_start new -> r_end new <= hi ->
  (forall x, x ∈ l1 -> r_end x < r_start new) ->
  Forall (fun x => r_start new <= r_start x /\ r_end x <= r_end new) c ->
  match rest with [] => True | x :: _ => r_end new < r_start x end ->
  sorted_in lo hi (l1 ++ c ++ rest) ->
  sorted_in (r_start new) (r_end new) c /\ sorted_in lo hi (l1 ++ set_child new c :: rest).
Proof.
  intros Hc Hn Hlo Hhi Hb Hf Hr. revert lo Hlo. induction l1 as [| x l1 IH]; intros lo Hlo Hs; simpl in *.
  - apply sorted_in_app in Hs as [Hs1 Hs2]. split.
    + clear Hs2 Hr. assert (forall a b, sorted_in a hi c -> r_start new <= b ->
        match c with [] => True | y :: _ => b <= r_start y end -> sorted_in b (r_end new) c) as Haux.
      { clear Hs1 Hc. induction Hf as [| y c [Hy1 Hy2] Hf IH]; intros a b Ha Hb' Hm; simpl in *; [done |].
        destruct Ha as (? & ? & Ha). split_and!; [lia | lia | lia |].
        eapply IH; [exact Ha | lia |]. destruct c; simpl in *; [done | lia]. }
      apply (Haux lo (r_start new) Hs1 ltac:(lia)).
      destruct c; [done |]. apply Forall_cons in Hf as [? _]. lia.
    + split_and!; [lia | lia | lia |]. destruct rest as [| y rest]; [done |].
      simpl in *. intuition lia.
  - destruct Hs as (Hx1 & Hx2 & Hs).
    destruct (IH ltac:(intros y Hy; apply Hb; by right) (r_end x + 1)) as [H1 H2];
      [specialize (Hb x ltac:(left)); lia | done | done].
Qed.

(** All the resources of a tree. *)
Definition tag (r : resource) : nat * Z * Z * Z * Z :=
  (r_addr r, r_name r, r_start r, r_end r, r_flags r).

Fixpoint nodes (r : resource) : list (nat * Z * Z * Z * Z) :=
  tag r :: (fix go (l : list resource) :=
              match l with [] => [] | c :: l => nodes c ++ go l end) (r_child r).

Definition nodes_list (l : list resource) : list (nat * Z * Z * Z * Z) := concat (nodes <$> l).

Lemma nodes_eq r : nodes r = tag r :: nodes_list (r_child r).
Proof.
  destruct r as [a nm s e fl l]. simpl. f_equal. induction l as [| c l IH]; [done |].
  unfold nodes_list in *. simpl. by rewrite IH.
Qed.

Lemma nodes_list_app l1 l2 : nodes_list (l1 ++ l2) = nodes_list l1 ++ nodes_list l2.
Proof. unfold nodes_list. by rewrite fmap_app, concat_app. Qed.

Lemma nodes_list_cons c l : nodes_list (c :: l) = nodes c ++ nodes_list l.
Proof. done. Qed.

Lemma nodes_insert root l1 new l2 :
  r_child root = l1 ++ l2 -> nodes (set_child root (l1 ++ new :: l2)) ≡ₚ nodes new ++ nodes root.
Proof.
  intros El. rewrite (nodes_eq root), (nodes_eq (set_child _ _)), El. simpl.
  change (tag (set_child root (l1 ++ new :: l2))) with (tag root).
  rewrite nodes_list_app, nodes_list_cons, nodes_list_app.
  rewrite (Permutation_app_comm (nodes new) (tag root :: _)). simpl. f_equiv.
  rewrite <- app_assoc. f_equiv. apply Permutation_app_comm.
Qed.

(** Equal up to the children. *)
Definition same_range (a b : resource) : Prop := tag a = tag b.

(** What a finished insertion guarantees. *)
Definition inserted (parent new : resource) (err : Z) (parent' : resource) : Prop :=
  wf parent' /\ same_range parent' parent /\
  ((err = 0 /\ nodes parent' ≡ₚ tag new :: nodes parent) \/ (err = - EBUSY /\ parent' = parent)).

Lemma inserted_busy parent new : wf parent -> inserted parent new (- EBUSY) parent.
Proof. intros. split_and!; try done. by right. Qed.

(** The recursive case: the new resource went below the child [first]. *)
Lemma inserted_below parent new l1 first l2 err first' :
  wf parent -> r_child parent = l1 ++ first :: l2 -> inserted first new err first' ->
  inserted parent new err (set_child parent (l1 ++ first' :: l2)).
Proof.
  intros Hp El (Hw & [= E1 E2 E3 E4 E5] & Hcase). split_and!; try done.
  { by apply (wf_replace _ _ first). }
  destruct Hcase as [[-> Hnodes] | [-> ->]].
  - left. split; [done |]. rewrite (nodes_eq parent), (nodes_eq (set_child _ _)), El. simpl.
    change (tag (set_child parent (l1 ++ first' :: l2))) with (tag parent).
    rewrite !nodes_list_app, !nodes_list_cons, Hnodes. simpl.
    rewrite perm_swap. f_equiv. by rewrite <- Permutation_middle.
  - right. split; [done |]. by rewrite <- El, set_child_id.
Qed.

(** The covering case: a run of children went below the new resource. *)
Lemma inserted_above parent new l1 first l2 covered rest :
  wf parent -> wf new -> r_child parent = l1 ++ first :: l2 -> overlap new first ->
  r_start parent <= r_start new -> r_end new <= r_end parent ->
  (forall c, c ∈ l1 -> r_end c < r_start new) ->
  cover new (first :: l2) = Some (covered, rest) ->
  inserted parent new 0 (set_child parent (l1 ++ set_child new covered :: rest)).
Proof.
  intros Hp Hn El Ho Hlo Hhi Hbefore Ec.
  pose proof (wf_inv _ Hp) as (_ & _ & Hps & Hpf). pose proof (wf_inv _ Hn) as (Hn1 & _ & _ & _).
  rewrite El in Hps, Hpf. apply sorted_in_app in Hps as Hps'. destruct Hps' as [_ Hs2].
  destruct (cover_spec new _ _ _ _ _ Hs2 ltac:(done) Ec) as (Esplit & Hcov & Hrest).
  assert (covered <> []) as Hne
    by (intros ->; unfold overlap in Ho; simpl in Esplit; subst rest; simpl in Hrest; lia).
  rewrite Esplit in Hps, Hpf.
  destruct (sorted_in_cover new _ _ _ _ _ Hne ltac:(lia) Hlo Hhi Hbefore Hcov Hrest Hps) as [Hs3 Hs4].
  apply Forall_app in Hpf as [Hf1 Hf2]. apply Forall_app in Hf2 as [Hf2 Hf3].
  split_and!; try done.
  { apply wf_set_child; [done | done |]. apply Forall_app. split; [done |].
    constructor; [by apply wf_set_child | done]. }
  left. split; [done |].
  rewrite (nodes_eq parent), (nodes_eq (set_child _ _)), El, Esplit. simpl.
  change (tag (set_child parent (l1 ++ set_child new covered :: rest))) with (tag parent).
  rewrite perm_swap. f_equiv.
  rewrite !nodes_list_app, nodes_list_cons, (nodes_eq (set_child new covered)). simpl.
  change (tag (set_child new covered)) with (tag new). by rewrite <- Permutation_middle.
Qed.

Lemma insert_loop_spec fuel parent new :
  wf parent -> addrs_ok parent -> wf new -> r_child new = [] -> (height parent <= fuel)%nat ->
  exists err parent', insert_loop fuel parent new = Some (err, parent') /\
    inserted parent new err parent'.
Proof.
  revert parent. induction fuel as [| fuel IH]; intros parent Hp Ha Hn Hnc Hf.
  { rewrite height_heights in Hf. lia. }
  pose proof (__request_resource_spec parent new Hp Hn) as Hreq.
  pose proof (addrs_ok_inv _ Ha) as [Hnd Haf]. pose proof (wf_inv _ Hp) as (_ & _ & _ & Hpf).
  cbn [insert_loop]. destruct (__request_resource parent new) as [p' | | first].
  - destruct Hreq as (_ & _ & (l1 & l2 & El & ->) & Hw).
    eexists _, _. split; [reflexivity |]. split_and!; try done. left. split; [done |].
    rewrite nodes_insert by done. by rewrite (nodes_eq new), Hnc.
  - eexists _, _. split; [reflexivity |]. by apply inserted_busy.
  - destruct Hreq as ([Hlo Hhi] & Ho & l1 & l2 & El & Hbefore).
    assert (first ∈ r_child parent) as Hin by (rewrite El; apply elem_of_app; right; left).
    rewrite Forall_forall in Hpf, Haf. pose proof (height_child _ _ Hin).
    rewrite El in Hnd. destruct ((r_start first <=? r_start new) && (r_end new <=? r_end first)).
    + destruct (IH first) as (err & first' & Hrec & Hins); [auto .. | lia |].
      rewrite Hrec. simpl. rewrite El, replace_child_spec by done.
      eexists _, _. split; [reflexivity |]. by eapply inserted_below.
    + rewrite El, split_at_spec by done.
      destruct (cover new (first :: l2)) as [[covered rest] |] eqn:Ec;
        eexists _, _; (split; [reflexivity |]); [by eapply inserted_above | by apply inserted_busy].
Qed.

(** [insert_resource] terminates on every tree, within as many iterations as
    the tree is high, and keeps it well formed: either it returns 0 and the tree has
    exactly the old resources and the new one (the conflicting resources it covers
    having become its children), or it returns [-EBUSY] and nothing changed. *)
Lemma insert_resource_spec parent new :
  wf parent -> addrs_ok parent -> wf new -> r_child new = [] ->
  exists err parent', insert_resource parent new = Some (err, parent') /\
    wf parent' /\
    ((err = 0 /\ nodes parent' ≡ₚ tag new :: nodes parent) \/
     (err = - EBUSY /\ parent' = parent)).
Proof.
  intros Hp Ha Hn Hc. destruct (insert_loop_spec (height parent) parent new)
    as (err & p' & He & Hw & _ & Hcase); try done. by exists err, p'.
Qed.

Lemma demo_root_addrs : addrs_ok demo_root.
Proof. unfold demo_root. repeat constructor; simpl; rewrite ?list_elem_of_In; simpl; lia. Defined.

(** ** Regions *)

(** Children that do not contain the range are walked over. *)
Lemma release_region_skip fuel l1 l2 start e :
  Forall (fun c => (r_start c <=? start) && (e <=? r_end c) = false) l1 ->
  release_region_loop (S fuel) (l1 ++ l2) start e =
    ('(l, ok) ← release_region_loop (S fuel) l2 start e; Some (l1 ++ l, ok)).
Proof.
  induction 1 as [| c l1 Hc Hl IH]; simpl app.
  - by destruct (release_region_loop (S fuel) l2 start e) as [[l ok] |].
  - cbn [release_region_loop] in *. rewrite Hc, IH. by destruct (_ l2) as [[l ok] |].
Qed.

Lemma not_contains s e c :
  s <= e -> ~ overlap (range s e) c -> (r_start c <=? s) && (e <=? r_end c) = false.
Proof.
  unfold overlap. simpl. intros. destruct (Z.leb_spec (r_start c) s), (Z.leb_spec e (r_end c)); try done.
  lia.
Qed.

Lemma request_region_loop_release fuel parent res p' :
  wf parent -> addrs_ok parent -> wf res -> busy res = true ->
  request_region_loop fuel parent res = Some (p', true) ->
  same_range p' parent /\ r_start parent <= r_start res /\ r_end res <= r_end parent /\
  forall fuel', (height p' <= fuel')%nat ->
    release_region_loop fuel' (r_child p') (r_start res) (r_end res) = Some (r_child parent, true).
Proof.
  intros Hp Ha Hr Hb. pose proof (wf_inv _ Hr) as (Hr1 & _ & _ & _). revert parent p' Hp Ha.
  induction fuel as [| fuel IH]; intros parent p' Hp Ha H; [done |].
  pose proof (__request_resource_spec parent res Hp Hr) as Hreq.
  pose proof (addrs_ok_inv _ Ha) as [Hnd Haf]. pose proof (wf_inv _ Hp) as (_ & _ & _ & Hpf).
  cbn [request_region_loop] in H. destruct (__request_resource parent res) as [q | | c]; [| done |].
  - injection H as <-. destruct Hreq as ([Hlo Hhi] & Hno & (l1 & l2 & El & ->) & _).
    split_and!; try done. intros [| fuel'] Hf; [rewrite height_heights in Hf; lia |].
    simpl r_child. rewrite release_region_skip.
    + cbn [release_region_loop]. rewrite !Z.leb_refl, Hb, !Z.eqb_refl. simpl. by rewrite El.
    + apply Forall_forall. intros c Hc. apply not_contains; [lia |]. intros Ho.
      apply (Hno c); [| exact Ho]. rewrite El. apply elem_of_app. by left.
  - destruct (busy c) eqn:Ebusy; [done |].
    destruct Hreq as ([Hlo Hhi] & Ho & l1 & l2 & El & Hbefore).
    assert (c ∈ r_child parent) as Hin by (rewrite El; apply elem_of_app; right; left).
    rewrite Forall_forall in Hpf, Haf. rewrite El in Hnd.
    destruct (request_region_loop fuel c res) as [[c' ok] |] eqn:Erec; [| done].
    simpl in H. injection H as <- ->.
    destruct (IH c c' (Hpf _ Hin) (Haf _ Hin) Erec) as ([= E1 E2 E3 E4 E5] & Hc1 & Hc2 & Hrel).
    rewrite El, replace_child_spec by done. split_and!; try done.
    intros [| fuel'] Hf; [rewrite height_heights in Hf; lia |]. simpl r_child.
    pose proof (height_child (set_child parent (l1 ++ c' :: l2)) c'
      ltac:(simpl; apply elem_of_app; right; left)) as Hh.
    rewrite release_region_skip.
    + cbn [release_region_loop].
      rewrite (proj2 (Z.leb_le (r_start c') (r_start res)) ltac:(lia)).
      rewrite (proj2 (Z.leb_le (r_end res) (r_end c')) ltac:(lia)).
      replace (busy c') with false by (unfold busy in *; by rewrite E5). simpl.
      rewrite Hrel by lia. simpl. do 3 f_equal. f_equal.
      destruct c, c'; unfold set_child; simpl in *; congruence.
    + apply Forall_forall. intros d Hd. pose proof (Hbefore d Hd).
      destruct (Z.leb_spec (r_end res) (r_end d)); [lia |]. by rewrite andb_false_r.
Qed.

Lemma request_region_total fuel parent res :
  wf parent -> wf res -> (height parent <= fuel)%nat ->
  exists p' ok, request_region_loop fuel parent res = Some (p', ok).
Proof.
  intros Hp Hr. revert parent Hp. induction fuel as [| fuel IH]; intros parent Hp Hf.
  { rewrite height_heights in Hf. lia. }
  pose proof (__request_resource_spec parent res Hp Hr) as Hreq.
  pose proof (wf_inv _ Hp) as (_ & _ & _ & Hpf).
  cbn [request_region_loop]. destruct (__request_resource parent res) as [q | | c]; [eauto .. |].
  destruct (busy c); [eauto |]. destruct Hreq as (_ & _ & l1 & l2 & El & _).
  assert (c ∈ r_child parent) as Hin by (rewrite El; apply elem_of_app; right; left).
  rewrite Forall_forall in Hpf. pose proof (height_child _ _ Hin).
  destruct (IH c) as (c' & ok & ->); [auto | lia |]. simpl. eauto.
Qed.

(** Requesting a region and releasing it is a round trip: [__request_region]
    always returns, and when it returns a region, [__release_region] of the same
    range finds exactly that region and restores the tree as it was, wherever below
    nested non-busy resources the region was placed. *)
Lemma region_roundtrip parent start n name a :
  wf parent -> addrs_ok parent -> 0 <= start -> 1 <= n -> start + n <= 4294967296 ->
  exists p' r, __request_region parent start n name (Some a) = Some (p', r) /\
    (r = None \/ r = Some a) /\
    (r = Some a -> __release_region p' start n = Some (parent, true)).
Proof.
  intros Hp Ha Hs Hn Hb. unfold __request_region, __release_region.
  rewrite (u32_id (start + n - 1)) by (unfold is_u32; lia).
  set (res := Res a name start (start + n - 1) IORESOURCE_BUSY []).
  assert (wf res) as Hr by (apply wf_leaf; lia).
  destruct (request_region_total (height parent) parent res Hp Hr ltac:(lia)) as (p' & ok & Hrun).
  rewrite Hrun. simpl. eexists _, _. split; [reflexivity |]. split; [destruct ok; auto |].
  destruct ok; [intros _ | done].
  destruct (request_region_loop_release _ _ _ _ Hp Ha Hr ltac:(reflexivity) Hrun)
    as ([= E1 E2 E3 E4 E5] & _ & _ & Hrel).
  specialize (Hrel (height p') ltac:(lia)). simpl in Hrel. rewrite Hrel. simpl. do 2 f_equal.
  destruct parent, p'; unfold set_child; simpl in *; congruence.
Qed.

Lemma region_roundtrip_taken :
  snd <$> __request_region demo_root 0x48 8 0 (Some 9%nat) = Some (Some 9%nat).
Proof. vm_compute. reflexivity. Qed.

(** ** Adjusting *)

Lemma sorted_in_adjust lo hi l1 res l2 s e :
  lo <= s -> s <= e -> e <= hi ->
  match last l1 with Some t => r_end t < s | None => True end ->
  match head l2 with Some t => e < r_start t | None => True end ->
  sorted_in lo hi (l1 ++ res :: l2) -> sorted_in lo hi (l1 ++ set_range res s e :: l2).
Proof.
  intros Hlo Hse Hhi. revert lo Hlo. induction l1 as [| x l1 IH]; intros lo Hlo Hlast Hhead Hs.
  - simpl in *. destruct Hs as (H1 & H2 & H3). split_and!; [lia | lia | lia |].
    destruct l2 as [| y l2]; [done |]. simpl in *. intuition lia.
  - simpl app in *. cbn [sorted_in] in *. destruct Hs as (H1 & H2 & H3). split_and!; [lia | lia | lia |].
    destruct l1 as [| y l1].
    + apply IH; [simpl in Hlast; lia | done | done | done].
    + apply IH; [| done | done | done].
      assert (forall z, z ∈ y :: l1 -> r_end x < r_start z <= r_end z) as Hz.
      { intros z Hz. destruct (sorted_in_elem _ _ _ z H3) as [? _]; [| lia].
        apply elem_of_app. by left. }
      rewrite last_cons_cons in Hlast. destruct (last (y :: l1)) as [t |] eqn:El.
      * apply last_Some_elem_of in El. specialize (Hz t El). lia.
      * by apply last_None in El.
Qed.

Lemma wf_adjust res s e :
  wf res -> 0 <= s <= e -> e < 4294967296 -> forallb (within s e) (r_child res) = true ->
  wf (set_range res s e).
Proof.
  intros (_ & _ & Hs & Hf)%wf_inv H1 H2 Hin. constructor; simpl; [done | done | | done].
  assert (forall lo hi lo' l, sorted_in lo hi l -> forallb (within s e) l = true ->
    s <= lo' -> match l with [] => True | c :: _ => lo' <= r_start c end -> sorted_in lo' e l) as Haux.
  { clear. intros lo hi lo' l. revert lo lo'. induction l as [| c l IH]; intros lo lo' Hs Hin Hlo Hc; [done |].
    simpl in *. apply andb_true_iff in Hin as [Hw Hin]. destruct Hs as (? & ? & Hs).
    unfold within in Hw. destruct (Z.ltb_spec (r_start c) s), (Z.ltb_spec e (r_end c)); try done.
    split_and!; [lia | lia | lia |]. eapply IH; [exact Hs | done | lia |].
    destruct l; simpl in *; [done | lia]. }
  eapply Haux; [exact Hs | done | lia |]. destruct (r_child res) as [| c l]; [done |].
  simpl in Hin. apply andb_true_iff in Hin as [Hw _]. unfold within in Hw.
  destruct (Z.ltb_spec (r_start c) s); [done | lia].
Qed.

(** [adjust_resource] moves a child inside its parent only when nothing is
    disturbed: for a non-empty new range it either returns 0 with a well-formed tree
    in which the child has exactly the requested range and everything else is
    unchanged, or [-EBUSY] with no change. *)
Lemma adjust_resource_spec parent l1 res l2 start size :
  wf parent -> addrs_ok parent -> r_child parent = l1 ++ res :: l2 ->
  0 <= start -> 1 <= size -> start + size <= 4294967296 ->
  exists err parent', adjust_resource parent (r_addr res) start size = Some (err, parent') /\
    wf parent' /\
    ((err = 0 /\ parent' = set_child parent (l1 ++ set_range res start (start + size - 1) :: l2)) \/
     (err = - EBUSY /\ parent' = parent)).
Proof.
  intros Hp Ha El Hs Hsz Hb. pose proof (addrs_ok_inv _ Ha) as [Hnd _].
  pose proof (wf_inv _ Hp) as (Hp1 & Hp2 & Hps & Hpf). rewrite El in Hnd, Hps, Hpf.
  unfold adjust_resource. rewrite El, split_at_spec by done.
  rewrite (u32_id (start + size - 1)) by (unfold is_u32; lia).
  assert (forall p, p = parent -> exists err parent', Some (- EBUSY, p) = Some (err, parent') /\
    wf parent' /\ ((err = 0 /\ parent' = set_child parent (l1 ++ set_range res start (start + size - 1) :: l2)) \/
     (err = - EBUSY /\ parent' = parent))) as Hbusy by (intros p ->; eexists _, _; eauto).
  destruct (Z.ltb_spec start (r_start parent)); [by apply Hbusy |].
  destruct (Z.ltb_spec (r_end parent) (start + size - 1)); [by apply Hbusy |]. simpl.
  destruct (forallb (within start (start + size - 1)) (r_child res)) eqn:E2; [simpl | by apply Hbusy].
  destruct (match head l2 with Some sib => r_start sib <=? start + size - 1 | None => false end) eqn:E3;
    [by apply Hbusy |].
  destruct (match last l1 with Some tmp => start <=? r_end tmp | None => false end) eqn:E4;
    [by apply Hbusy |].
  eexists _, _. split; [reflexivity |]. split; [| by left].
  apply Forall_app in Hpf as [Hf1 Hf2]. apply Forall_cons in Hf2 as [Hres Hf2].
  apply wf_set_child; [done | | ].
  - apply sorted_in_adjust; [lia | lia | lia | | | done].
    + destruct (last l1); [| done]. destruct (Z.leb_spec start (r_end r)); [done | lia].
    + destruct (head l2); [| done]. destruct (Z.leb_spec (r_start r) (start + size - 1)); [done | lia].
  - apply Forall_app. split; [done |]. constructor; [| done].
    apply wf_adjust; [done | lia | lia | done].
Qed.
