(* ===== verification/Bitmap.v ===== *)
(** * Bitmaps: lib/bitmap.c, include/linux/bitmap.h and lib/find_next_bit.c

    A bitmap is an array of 32-bit words in a memory of words, at an index; the
    operands and the result of an operation may be the same array. An access
    outside the memory faults ([None]). Sizes, shift counts and positions are
    non-negative [int]s, taken as [nat]; the words are kept at their width. *)

From S2P Require Import Prelude Bitops.

(** A memory of words; [load], [store], [block] and [write] are those of the byte
    memory, which do not depend on what the cells hold. *)
Abbreviation wmem := (list Z).

Definition BITS_PER_LONG : nat := 32.
Definition BITS_TO_LONGS (bits : nat) : nat := ((bits + 32 - 1) / 32)%nat.

(** [(1UL << n) - 1] *)
Definition low_mask (n : nat) : Z := u32 (Z.shiftl 1 (Z.of_nat n)) ⊖ 1.

Definition BITMAP_LAST_WORD_MASK (nbits : nat) : Z :=
  if (nbits mod 32 =? 0)%nat then not32 0 else low_mask (nbits mod 32).

(** [for (k = 0; k < n; ++k) if (word k) return 1;], then the partial last word:
    whether any bit below [bits] of the words [f k] is set. *)
Fixpoint any_word (f : nat -> option Z) (k n : nat) : option bool :=
  match n with
  | O => Some false
  | S n => w ← f k; if negb (w =? 0) then Some true else any_word f (S k) n
  end.

Definition any_bit (f : nat -> option Z) (bits : nat) : option bool :=
  let lim := (bits / 32)%nat in
  hit ← any_word f 0 lim;
  if (hit : bool) then Some true
  else if (bits mod 32 =? 0)%nat then Some false
  else w ← f lim; Some (negb (Z.land w (BITMAP_LAST_WORD_MASK bits) =? 0)).

Definition __bitmap_empty (m : wmem) (bitmap : ptr) (bits : nat) : option bool :=
  negb <$> any_bit (fun k => load m (bitmap + k)%nat) bits.

Definition __bitmap_full (m : wmem) (bitmap : ptr) (bits : nat) : option bool :=
  negb <$> any_bit (fun k => w ← load m (bitmap + k)%nat; Some (not32 w)) bits.

(** The test [bitmap1[k] != bitmap2[k]] of the whole words is
    [bitmap1[k] ^ bitmap2[k]] being non-zero, the form of the last word. *)
Definition __bitmap_equal (m : wmem) (bitmap1 bitmap2 : ptr) (bits : nat) : option bool :=
  negb <$> any_bit (fun k => w1 ← load m (bitmap1 + k)%nat; w2 ← load m (bitmap2 + k)%nat;
                             Some (Z.lxor w1 w2)) bits.

Definition __bitmap_intersects (m : wmem) (bitmap1 bitmap2 : ptr) (bits : nat) : option bool :=
  any_bit (fun k => w1 ← load m (bitmap1 + k)%nat; w2 ← load m (bitmap2 + k)%nat;
                    Some (Z.land w1 w2)) bits.

Definition __bitmap_subset (m : wmem) (bitmap1 bitmap2 : ptr) (bits : nat) : option bool :=
  negb <$> any_bit (fun k => w1 ← load m (bitmap1 + k)%nat; w2 ← load m (bitmap2 + k)%nat;
                             Some (Z.land w1 (not32 w2))) bits.

(** ** Operations that write a bitmap *)

(** [for (k = 0; k < n; k++) dst[k] = f(k);] *)
Fixpoint map_words (f : wmem -> nat -> option Z) (m : wmem) (dst : ptr) (k n : nat) : option wmem :=
  match n with
  | O => Some m
  | S n => w ← f m k; m ← store m (dst + k)%nat w; map_words f m dst (S k) n
  end.

Definition word2 (op : Z -> Z -> Z) (b1 b2 : ptr) (m : wmem) (k : nat) : option Z :=
  w1 ← load m (b1 + k)%nat; w2 ← load m (b2 + k)%nat; Some (op w1 w2).

Definition __bitmap_and (m : wmem) (dst b1 b2 : ptr) (bits : nat) : option wmem :=
  map_words (word2 Z.land b1 b2) m dst 0 (BITS_TO_LONGS bits).

Definition __bitmap_or (m : wmem) (dst b1 b2 : ptr) (bits : nat) : option wmem :=
  map_words (word2 Z.lor b1 b2) m dst 0 (BITS_TO_LONGS bits).

Definition __bitmap_xor (m : wmem) (dst b1 b2 : ptr) (bits : nat) : option wmem :=
  map_words (word2 Z.lxor b1 b2) m dst 0 (BITS_TO_LONGS bits).

Definition __bitmap_andnot (m : wmem) (dst b1 b2 : ptr) (bits : nat) : option wmem :=
  map_words (word2 (fun x y => Z.land x (not32 y)) b1 b2) m dst 0 (BITS_TO_LONGS bits).

Definition __bitmap_complement (m : wmem) (dst src : ptr) (bits : nat) : option wmem :=
  let lim := (bits / 32)%nat in
  m ← map_words (fun m k => w ← load m (src + k)%nat; Some (not32 w)) m dst 0 lim;
  if (bits mod 32 =? 0)%nat then Some m
  else
    w ← load m (src + lim)%nat;
    store m (dst + lim)%nat (Z.land (not32 w) (BITMAP_LAST_WORD_MASK bits)).

(** [memset(&dst[from], 0, n * sizeof(unsigned long))] *)
Fixpoint zero_words (m : wmem) (p : ptr) (n : nat) : option wmem :=
  match n with
  | O => Some m
  | S n => m ← store m p 0; zero_words m (S p) n
  end.

(** The word stored in [dst[k]] by a right shift. *)
Definition shift_right_word (src : ptr) (shift bits : nat) (m : wmem) (k : nat) : option Z :=
  let lim := BITS_TO_LONGS bits in
  let left := (bits mod 32)%nat in
  let off := (shift / 32)%nat in
  let rem := (shift mod 32)%nat in
  let mask := low_mask left in
  upper ← (if (rem =? 0)%nat || (lim <=? off + k + 1)%nat then Some 0
           else
             upper ← load m (src + (off + k + 1))%nat;
             Some (if (off + k + 1 =? lim - 1)%nat && negb (left =? 0)%nat
                   then Z.land upper mask else upper));
  lower ← load m (src + (off + k))%nat;
  let lower := if negb (left =? 0)%nat && (off + k =? lim - 1)%nat
               then Z.land lower mask else lower in
  let w := Z.lor (u32 (Z.shiftl upper (Z.of_nat (32 - rem)))) (Z.shiftr lower (Z.of_nat rem)) in
  Some (if negb (left =? 0)%nat && (k =? lim - 1)%nat then Z.land w mask else w).

(** [lim - off] iterations, for [k] upwards. The [memset] starts at
    [&dst[lim - off]], which is below [dst] when the shift exceeds the bitmap. *)
Definition __bitmap_shift_right (m : wmem) (dst src : ptr) (shift bits : nat) : option wmem :=
  let lim := BITS_TO_LONGS bits in
  let off := (shift / 32)%nat in
  m ← map_words (shift_right_word src shift bits) m dst 0 (lim - off);
  if (off =? 0)%nat then Some m
  else if (dst + lim <? off)%nat then None
  else zero_words m (dst + lim - off)%nat off.

(** The word stored in [dst[k + off]] by a left shift. *)
Definition shift_left_word (src : ptr) (shift bits : nat) (m : wmem) (k : nat) : option Z :=
  let lim := BITS_TO_LONGS bits in
  let left := (bits mod 32)%nat in
  let off := (shift / 32)%nat in
  let rem := (shift mod 32)%nat in
  lower ← (if negb (rem =? 0)%nat && (0 <? k)%nat then load m (src + (k - 1))%nat else Some 0);
  upper ← load m (src + k)%nat;
  let upper := if negb (left =? 0)%nat && (k =? lim - 1)%nat
               then Z.land upper (low_mask left) else upper in
  let w := Z.lor (Z.shiftr lower (Z.of_nat (32 - rem))) (u32 (Z.shiftl upper (Z.of_nat rem))) in
  Some (if negb (left =? 0)%nat && (k + off =? lim - 1)%nat then Z.land w (low_mask left) else w).

(** [for (k = n - 1; k >= 0; --k) dst[k] = f(k);] *)
Fixpoint map_words_down (f : wmem -> nat -> option Z) (m : wmem) (dst : ptr) (n : nat) : option wmem :=
  match n with
  | O => Some m
  | S k => w ← f m k; m ← store m (dst + k)%nat w; map_words_down f m dst k
  end.

Definition __bitmap_shift_left (m : wmem) (dst src : ptr) (shift bits : nat) : option wmem :=
  let lim := BITS_TO_LONGS bits in
  let off := (shift / 32)%nat in
  m ← map_words_down (shift_left_word src shift bits) m (dst + off)%nat (lim - off);
  if (off =? 0)%nat then Some m else zero_words m dst off.

(** ** Counting *)

Fixpoint weight_loop (m : wmem) (bitmap : ptr) (k n : nat) (w : Z) : option Z :=
  match n with
  | O => Some w
  | S n => x ← load m (bitmap + k)%nat; weight_loop m bitmap (S k) n (w + generic_hweight32 x)
  end.

Definition __bitmap_weight (m : wmem) (bitmap : ptr) (bits : nat) : option Z :=
  let lim := (bits / 32)%nat in
  w ← weight_loop m bitmap 0 lim 0;
  if (bits mod 32 =? 0)%nat then Some w
  else
    x ← load m (bitmap + lim)%nat;
    Some (w + generic_hweight32 (Z.land x (BITMAP_LAST_WORD_MASK bits))).

(** ** Aligned regions of up to a word *)

(** [mask = 1ul << (pages - 1); mask += mask - 1;] *)
Definition region_mask (pages : nat) : Z :=
  let mask := u32 (Z.shiftl 1 (Z.of_nat pages - 1)) in
  u32 (mask + (mask - 1)).

(** [bitmap[index] & (mask << offset)] and the updates of the word. *)
Definition region_bits (pages pos : nat) : Z :=
  u32 (Z.shiftl (region_mask pages) (Z.of_nat (pos mod 32))).

Fixpoint find_region_loop (fuel : nat) (m : wmem) (bitmap : ptr) (bits pages i : nat)
  : option (wmem * Z) :=
  match fuel with
  | O => None
  | S fuel =>
      if (i <? bits)%nat then
        w ← load m (bitmap + i / 32)%nat;
        if Z.land w (region_bits pages i) =? 0 then
          m ← store m (bitmap + i / 32)%nat (Z.lor w (region_bits pages i));
          Some (m, Z.of_nat i)
        else find_region_loop fuel m bitmap bits pages (i + pages)
      else Some (m, - ENOMEM)
  end.

(** The position of the region, or the negative error; one iteration per region. *)
Definition bitmap_find_free_region (m : wmem) (bitmap : ptr) (bits order : nat) : option (wmem * Z) :=
  let pages := (2 ^ order)%nat in
  if (32 <? pages)%nat then Some (m, - EINVAL)
  else find_region_loop (S bits) m bitmap bits pages 0.

Definition bitmap_release_region (m : wmem) (bitmap : ptr) (pos order : nat) : option wmem :=
  let pages := (2 ^ order)%nat in
  w ← load m (bitmap + pos / 32)%nat;
  store m (bitmap + pos / 32)%nat (Z.land w (not32 (region_bits pages pos))).

Definition bitmap_allocate_region (m : wmem) (bitmap : ptr) (pos order : nat) : option (wmem * Z) :=
  let pages := (2 ^ order)%nat in
  if (32 <? pages)%nat then None (* BUG_ON *)
  else
    w ← load m (bitmap + pos / 32)%nat;
    if negb (Z.land w (region_bits pages pos) =? 0) then Some (m, - EBUSY)
    else
      m ← store m (bitmap + pos / 32)%nat (Z.lor w (region_bits pages pos));
      Some (m, 0).

(** ** lib/find_next_bit.c *)

(** [while ((tmp = *addr) == 0) addr++;] *)
Fixpoint next_word (fuel : nat) (m : wmem) (addr : ptr) : option (ptr * Z) :=
  match fuel with
  | O => None
  | S fuel => tmp ← load m addr; if tmp =? 0 then next_word fuel m (S addr) else Some (addr, tmp)
  end.

(** The two loops at [finish], a byte and then a bit at a time; a 32-bit word that
    is not 0 needs at most 4 and 8 rounds. *)
Fixpoint skip_bytes (fuel : nat) (offset : nat) (tmp : Z) : nat * Z :=
  match fuel with
  | O => (offset, tmp)
  | S fuel => if Z.land tmp 0xff =? 0 then skip_bytes fuel (offset + 8) (Z.shiftr tmp 8)
              else (offset, tmp)
  end.

Fixpoint skip_bits (fuel : nat) (offset : nat) (tmp : Z) : nat :=
  match fuel with
  | O => offset
  | S fuel => if Z.land tmp 1 =? 0 then skip_bits fuel (offset + 1) (Z.shiftr tmp 1) else offset
  end.

Definition find_finish (offset : nat) (tmp : Z) : nat :=
  let '(offset, tmp) := skip_bytes 4 offset tmp in skip_bits 8 offset tmp.

Definition find_next_bit (m : wmem) (base : ptr) (size offset : nat) : option nat :=
  let scan (addr : ptr) :=
    '(addr, tmp) ← next_word (S (length m)) m addr;
    Some (find_finish ((addr - base) * 32)%nat tmp) in
  if (offset =? 0)%nat then scan base
  else
    let addr := (base + offset / 32)%nat in
    let suboffset := (offset mod 32)%nat in
    if (suboffset =? 0)%nat then scan (S addr)
    else
      tmp ← load m addr;
      let tmp := Z.shiftr tmp (Z.of_nat suboffset) in
      if negb (tmp =? 0) then Some (find_finish offset tmp) else scan (S addr).

(** * Correctness *)

(** Bit [i] of the bitmap at [p]. *)
Definition bit (m : wmem) (p : ptr) (i : nat) : bool :=
  Z.testbit (m !!! (p + i / 32)%nat) (Z.of_nat (i mod 32)).

(** The memory holds 32-bit words, and a bitmap of [bits] bits at [p]. *)
Definition words_ok (m : wmem) : Prop := Forall is_u32 m.
Definition has_bitmap (m : wmem) (p : ptr) (bits : nat) : Prop :=
  (p + BITS_TO_LONGS bits <= length m)%nat.

(** ** Words *)

(** [nat_div_lia]: linear goals with [/ 32] and [mod 32] on [nat]. *)
Ltac nat_div_lia :=
  unfold BITS_TO_LONGS in *;
  repeat match goal with
         | |- context [(?a / 32)%nat] =>
             lazymatch goal with H : (a = 32 * (a / 32) + a mod 32)%nat |- _ => fail | _ =>
               pose proof (Nat.div_mod_eq a 32); pose proof (Nat.mod_upper_bound a 32 ltac:(lia)) end
         | H : context [(?a / 32)%nat] |- _ =>
             lazymatch goal with H : (a = 32 * (a / 32) + a mod 32)%nat |- _ => fail | _ =>
               pose proof (Nat.div_mod_eq a 32); pose proof (Nat.mod_upper_bound a 32 ltac:(lia)) end
         | |- context [(?a mod 32)%nat] =>
             lazymatch goal with H : (a = 32 * (a / 32) + a mod 32)%nat |- _ => fail | _ =>
               pose proof (Nat.div_mod_eq a 32); pose proof (Nat.mod_upper_bound a 32 ltac:(lia)) end
         end; lia.

Lemma longs_div bits :
  BITS_TO_LONGS bits = if (bits mod 32 =? 0)%nat then (bits / 32)%nat else S (bits / 32).
Proof. destruct (Nat.eqb_spec (bits mod 32) 0); nat_div_lia. Qed.

Lemma index_longs bits i : (i < bits)%nat -> (i / 32 < BITS_TO_LONGS bits)%nat.
Proof. intros. nat_div_lia. Qed.

Lemma bits_index k j : (j < 32)%nat -> ((32 * k + j) / 32 = k /\ (32 * k + j) mod 32 = j)%nat.
Proof.
  intros Hj. rewrite Nat.mul_comm. split.
  - rewrite Nat.div_add_l, Nat.div_small by lia. lia.
  - rewrite Nat.add_comm, Nat.Div0.mod_add, Nat.mod_small by lia. lia.
Qed.

Lemma bit_word m p k j :
  (j < 32)%nat -> bit m p (32 * k + j) = Z.testbit (m !!! (p + k)%nat) (Z.of_nat j).
Proof. intros Hj. unfold bit. destruct (bits_index k j Hj) as [-> ->]. done. Qed.

Lemma u32_nonzero w :
  is_u32 w -> w <> 0 <-> exists j, (j < 32)%nat /\ Z.testbit w (Z.of_nat j) = true.
Proof.
  intros Hw. split.
  - intros Hne. exists (Z.to_nat (Z.log2 w)). unfold is_u32 in Hw.
    rewrite Z2Nat.id by apply Z.log2_nonneg. split; [| apply Z.bit_log2; lia].
    assert (Z.log2 w < 32) by (apply Z.log2_lt_pow2; [lia | apply Hw]).
    pose proof (Z.log2_nonneg w). lia.
  - intros (j & _ & Hj) ->. by rewrite Z.bits_0 in Hj.
Qed.

Lemma low_mask_spec r : (r < 32)%nat -> low_mask r = Z.ones (Z.of_nat r).
Proof.
  intros Hr. unfold low_mask. rewrite Z.shiftl_1_l, Z.ones_equiv.
  pose proof (Z.pow_pos_nonneg 2 (Z.of_nat r) ltac:(lia) ltac:(lia)).
  assert (2 ^ Z.of_nat r < 2 ^ 32) by (apply Z.pow_lt_mono_r; lia).
  change (2 ^ 32) with 4294967296 in *.
  rewrite !u32_id by (unfold is_u32; rewrite ?u32_id; unfold is_u32; lia). lia.
Qed.

Lemma testbit_masked w r j :
  (r < 32)%nat ->
  Z.testbit (Z.land w (low_mask r)) (Z.of_nat j) = (j <? r)%nat && Z.testbit w (Z.of_nat j).
Proof.
  intros Hr. rewrite low_mask_spec, Z.land_spec, Z.testbit_ones_nonneg, andb_comm by lia.
  f_equal. destruct (Nat.ltb_spec j r), (Z.ltb_spec (Z.of_nat j) (Z.of_nat r)); (done || lia).
Qed.

(** ** Predicates *)

Section AnyBit.
Context (f : nat -> option Z) (F : nat -> Z) (bits : nat).
Context (Hf : forall k, (k < BITS_TO_LONGS bits)%nat -> f k = Some (F k) /\ is_u32 (F k)).

Lemma any_word_spec k n :
  (k + n <= BITS_TO_LONGS bits)%nat ->
  exists b, any_word f k n = Some b /\
    (b = true <-> exists i, (k <= i < k + n)%nat /\ F i <> 0).
Proof.
  revert k. induction n as [| n IH]; intros k Hk; simpl.
  - exists false. split; [done |]. split; [done |]. intros (i & ? & _). lia.
  - destruct (Hf k) as [-> _]; [lia |]. simpl. destruct (Z.eqb_spec (F k) 0) as [E | E]; simpl.
    + destruct (IH (S k)) as (b & -> & Hb); [lia |]. exists b. split; [done |]. rewrite Hb.
      split; intros (i & Hi & Hne); exists i; (split; [| done]).
      * lia.
      * destruct (decide (i = k)) as [-> |]; [done | lia].
    + exists true. split; [done |]. split; [| done]. intros _. exists k. split; [lia | done].
Qed.

Lemma any_bit_spec :
  exists b, any_bit f bits = Some b /\
    (b = true <-> exists i, (i < bits)%nat /\ Z.testbit (F (i / 32)) (Z.of_nat (i mod 32)) = true).
Proof.
  unfold any_bit. pose proof (longs_div bits) as Hl.
  destruct (any_word_spec 0 (bits / 32)) as (b & -> & Hb).
  { rewrite Hl. destruct (bits mod 32 =? 0)%nat; lia. }
  cbn [mbind option_bind]. destruct b.
  { exists true. split; [done |]. split; [intros _ | done].
    destruct (proj1 Hb eq_refl) as (k & Hk & Hne).
    destruct (Hf k) as [_ Hu]; [rewrite Hl; destruct (bits mod 32 =? 0)%nat; lia |].
    apply u32_nonzero in Hne as (j & Hj & Hbit); [| done].
    destruct (bits_index k j Hj) as [E1 E2].
    exists (32 * k + j)%nat. rewrite E1, E2. split; [nat_div_lia | done]. }
  assert (forall i, (i / 32 < bits / 32)%nat -> Z.testbit (F (i / 32)) (Z.of_nat (i mod 32)) <> true) as Hno.
  { intros i Hi Ht. assert (F (i / 32)%nat <> 0) as Hne
      by (intros E; rewrite E, Z.bits_0 in Ht; done).
    assert (false = true) by (apply Hb; exists (i / 32)%nat; split; [lia | done]). done. }
  destruct (Nat.eqb_spec (bits mod 32) 0) as [E | E].
  - exists false. split; [done |]. split; [done |]. intros (i & Hi & Ht).
    exfalso. apply (Hno i); [nat_div_lia | done].
  - destruct (Hf (bits / 32)%nat) as [-> Hu]; [rewrite Hl; lia |]. cbn [mbind option_bind].
    eexists. split; [reflexivity |]. unfold BITMAP_LAST_WORD_MASK.
    rewrite (proj2 (Nat.eqb_neq _ _) E), negb_true_iff, Z.eqb_neq.
    pose proof (Nat.mod_upper_bound bits 32 ltac:(lia)) as Hr.
    rewrite u32_nonzero.
    + split.
      * intros (j & Hj & Ht). rewrite testbit_masked in Ht by done.
        apply andb_true_iff in Ht as [Hjr%Nat.ltb_lt Ht].
        destruct (bits_index (bits / 32) j Hj) as [E1 E2].
        exists (32 * (bits / 32) + j)%nat. rewrite E1, E2. split; [nat_div_lia | done].
      * intros (i & Hi & Ht). destruct (decide (i / 32 < bits / 32)%nat) as [Hlt |].
        { exfalso. by apply (Hno i). }
        assert (i / 32 = bits / 32)%nat as Ei by nat_div_lia. rewrite Ei in Ht.
        exists (i mod 32)%nat. split; [apply Nat.mod_upper_bound; lia |].
        rewrite testbit_masked, Ht by done. rewrite andb_true_r. apply Nat.ltb_lt. nat_div_lia.
    + apply land_u32; [done |]. rewrite low_mask_spec by done.
      rewrite Z.ones_equiv. pose proof (Z.pow_pos_nonneg 2 (Z.of_nat (bits mod 32)) ltac:(lia) ltac:(lia)). lia.
Qed.
End AnyBit.

Lemma load_word m p bits k :
  has_bitmap m p bits -> (k < BITS_TO_LONGS bits)%nat -> load m (p + k) = Some (m !!! (p + k)%nat).
Proof.
  unfold has_bitmap, load. intros. apply list_lookup_lookup_total, lookup_lt_is_Some. lia.
Qed.

Lemma word_u32 m p bits k :
  words_ok m -> has_bitmap m p bits -> (k < BITS_TO_LONGS bits)%nat -> is_u32 (m !!! (p + k)%nat).
Proof.
  intros Hok Hp Hk. apply (Forall_lookup_1 _ _ (p + k)%nat _ Hok). eapply load_word; [exact Hp | done].
Qed.

Lemma not32_bit w j : (j < 32)%nat -> Z.testbit (not32 w) (Z.of_nat j) = negb (Z.testbit w (Z.of_nat j)).
Proof.
  intros Hj. unfold not32. rewrite u32_testbit, Z.lnot_spec by lia.
  by rewrite (proj2 (Z.ltb_lt (Z.of_nat j) 32)) by lia.
Qed.

Create HintDb bitmap.
#[export] Hint Resolve u32_range lor_u32 lxor_u32 : bitmap.
#[export] Hint Unfold not32 : bitmap.
#[export] Hint Extern 2 (is_u32 (not32 _)) => apply u32_range : bitmap.
#[export] Hint Extern 2 (is_u32 (Z.land _ _)) =>
  apply land_u32; [| match goal with |- 0 <= ?x => cut (is_u32 x); [intros []; assumption |] end] : bitmap.

Lemma mod32_lt i : (i mod 32 < 32)%nat.
Proof. apply Nat.mod_upper_bound. lia. Qed.
#[export] Hint Resolve mod32_lt : bitmap.

(** [bool_of r P]: the C function returned, and its value is the truth of [P]. *)
Definition bool_of (r : option bool) (P : Prop) : Prop := exists b, r = Some b /\ (b = true <-> P).

(** A word operation that acts on each bit as [bop] does. *)
Definition bitwise (op : Z -> Z -> Z) (bop : bool -> bool -> bool) : Prop :=
  forall a b, is_u32 a -> is_u32 b ->
    is_u32 (op a b) /\
    forall j, (j < 32)%nat ->
      Z.testbit (op a b) (Z.of_nat j) = bop (Z.testbit a (Z.of_nat j)) (Z.testbit b (Z.of_nat j)).

Lemma bitwise_land : bitwise Z.land andb.
Proof. intros a b Ha Hb. split; [apply land_u32; [done | apply Hb] |]. intros. apply Z.land_spec. Qed.
Lemma bitwise_lor : bitwise Z.lor orb.
Proof. intros a b Ha Hb. split; [by apply lor_u32 |]. intros. apply Z.lor_spec. Qed.
Lemma bitwise_lxor : bitwise Z.lxor xorb.
Proof. intros a b Ha Hb. split; [by apply lxor_u32 |]. intros. apply Z.lxor_spec. Qed.
Lemma bitwise_andnot : bitwise (fun x y => Z.land x (not32 y)) (fun x y => x && negb y).
Proof.
  intros a b Ha Hb. split; [apply land_u32; [done | apply u32_range] |].
  intros. by rewrite Z.land_spec, not32_bit.
Qed.
Lemma bitwise_not : bitwise (fun x _ => not32 x) (fun x _ => negb x).
Proof. intros a b Ha Hb. split; [apply u32_range |]. intros. by apply not32_bit. Qed.
Lemma bitwise_fst : bitwise (fun x _ => x) (fun x _ => x).
Proof. done. Qed.
#[export] Hint Resolve bitwise_land bitwise_lor bitwise_lxor bitwise_andnot bitwise_not bitwise_fst : bitmap.

Lemma any_bit_bitwise op bop f m p q bits :
  bitwise op bop -> words_ok m -> has_bitmap m p bits -> has_bitmap m q bits ->
  (forall k, (k < BITS_TO_LONGS bits)%nat -> f k = Some (op (m !!! (p + k)%nat) (m !!! (q + k)%nat))) ->
  bool_of (any_bit f bits) (exists i, (i < bits)%nat /\ bop (bit m p i) (bit m q i) = true).
Proof.
  intros Hop Hok Hp Hq Hf.
  destruct (any_bit_spec f (fun k => op (m !!! (p + k)%nat) (m !!! (q + k)%nat)) bits) as (b & Hb & Hs).
  { intros k Hk. split; [by apply Hf |]. apply Hop; by eapply word_u32. }
  exists b. split; [done |]. rewrite Hs. apply exist_proper. intros i. unfold bit.
  destruct (decide (i < bits)%nat) as [Hi |]; [| split; intros []; done].
  assert (i / 32 < BITS_TO_LONGS bits)%nat by by apply index_longs.
  destruct (Hop (m !!! (p + i / 32)%nat) (m !!! (q + i / 32)%nat)) as [_ E];
    [by eapply word_u32 .. |]. by rewrite E by apply mod32_lt.
Qed.

Lemma bool_of_negb r (P : nat -> bool) (Q : nat -> Prop) bits :
  (forall i, P i = false <-> Q i) ->
  bool_of r (exists i, (i < bits)%nat /\ P i = true) ->
  bool_of (negb <$> r) (forall i, (i < bits)%nat -> Q i).
Proof.
  intros HPQ (b & -> & Hb). exists (negb b). split; [done |]. rewrite negb_true_iff. split.
  - intros -> i Hi. apply HPQ, not_true_iff_false. intros HP.
    assert (false = true) by (apply Hb; eauto). done.
  - intros H. apply not_true_iff_false. intros (i & Hi & HP)%Hb.
    apply H, HPQ in Hi. congruence.
Qed.

(** [load_words]: both operands' words are mapped. *)
Ltac load_words :=
  intros; repeat (erewrite load_word by eassumption; cbn [mbind option_bind]); reflexivity.

(** The bitmap predicates read no bit at or above [bits] and no word
    outside the bitmaps, and decide the set relations they are named for:
    [__bitmap_empty], [__bitmap_full], [__bitmap_equal], [__bitmap_intersects]
    and [__bitmap_subset], also when [bits] is not a multiple of 32. *)
Theorem bitmap_predicates_spec m p q bits :
  words_ok m -> has_bitmap m p bits -> has_bitmap m q bits ->
  bool_of (__bitmap_empty m p bits) (forall i, (i < bits)%nat -> bit m p i = false) /\
  bool_of (__bitmap_full m p bits) (forall i, (i < bits)%nat -> bit m p i = true) /\
  bool_of (__bitmap_equal m p q bits) (forall i, (i < bits)%nat -> bit m p i = bit m q i) /\
  bool_of (__bitmap_intersects m p q bits)
    (exists i, (i < bits)%nat /\ bit m p i = true /\ bit m q i = true) /\
  bool_of (__bitmap_subset m p q bits)
    (forall i, (i < bits)%nat -> bit m p i = true -> bit m q i = true).
Proof.
  intros Hok Hp Hq. split_and!.
  - eapply bool_of_negb; [| apply (any_bit_bitwise _ _ _ m p p bits bitwise_fst); auto; load_words].
    done.
  - eapply bool_of_negb; [| apply (any_bit_bitwise _ _ _ m p p bits bitwise_not); auto; load_words].
    intros i. apply negb_false_iff.
  - eapply bool_of_negb; [| apply (any_bit_bitwise _ _ _ m p q bits bitwise_lxor); auto; load_words].
    intros i. simpl. destruct (bit m p i), (bit m q i); naive_solver.
  - destruct (any_bit_bitwise _ _ (fun k => w1 ← load m (p + k)%nat; w2 ← load m (q + k)%nat;
                Some (Z.land w1 w2)) m p q bits bitwise_land) as (b & Hb & Hs); auto; [load_words |].
    exists b. split; [done |]. rewrite Hs. apply exist_proper. intros i. by rewrite andb_true_iff.
  - eapply bool_of_negb; [| apply (any_bit_bitwise _ _ _ m p q bits bitwise_andnot); auto; load_words].
    intros i. simpl. destruct (bit m p i), (bit m q i); naive_solver.
Qed.

Lemma bitmap_predicates_spec_witness :
  let m := [0xff; 0x5; 0xff; 0xd] in
  __bitmap_subset m 0 2 36 = Some true /\
  bool_of (__bitmap_subset m 0 2 36)
    (forall i, (i < 36)%nat -> bit m 0 i = true -> bit m 2 i = true).
Proof.
  split; [vm_compute; reflexivity |].
  apply (bitmap_predicates_spec [0xff; 0x5; 0xff; 0xd] 0 2 36).
  - repeat constructor; unfold is_u32; lia.
  - apply Nat.leb_le. vm_compute. reflexivity.
  - apply Nat.leb_le. vm_compute. reflexivity.
Defined.

(** ** Operations that write *)

(** The upward loop stores the words [F k]: each is computed in a memory that
    still holds the original words outside [dst[0..k)]. *)
Lemma map_words_spec f F m dst k n :
  (dst + k + n <= length m)%nat ->
  (forall m' i, (k <= i < k + n)%nat -> length m' = length m ->
     (forall j, (j < dst + k \/ dst + i <= j)%nat -> m' !! j = m !! j) -> f m' i = Some (F i)) ->
  map_words f m dst k n = Some (write m (dst + k)%nat (F <$> seq k n)).
Proof.
  revert m k. induction n as [| n IH]; intros m k Hlen Hf; [done |].
  simpl. rewrite (Hf m k) by (done || lia). cbn [mbind option_bind].
  rewrite store_in by lia. cbn [mbind option_bind]. rewrite IH.
  - rewrite write_cons. replace (dst + S k)%nat with (S (dst + k)) by lia.
    by rewrite write_insert_lt by lia.
  - rewrite length_insert. lia.
  - intros m' i Hi Hm' Hag. rewrite length_insert in Hm'. apply Hf; [lia | done |].
    intros j Hj. rewrite Hag by lia. apply list_lookup_insert_ne. lia.
Qed.

Lemma map_words_down_spec f F m dst n :
  (dst + n <= length m)%nat ->
  (forall m' i, (i < n)%nat -> length m' = length m ->
     (forall j, (j <= dst + i \/ dst + n <= j)%nat -> m' !! j = m !! j) -> f m' i = Some (F i)) ->
  map_words_down f m dst n = Some (write m dst (F <$> seq 0 n)).
Proof.
  revert m. induction n as [| n IH]; intros m Hlen Hf; [done |].
  simpl map_words_down. rewrite (Hf m n) by (done || lia). cbn [mbind option_bind].
  rewrite store_in by lia. cbn [mbind option_bind]. rewrite IH.
  - rewrite seq_S, fmap_app. simpl. rewrite write_snoc, length_fmap, length_seq. done.
  - rewrite length_insert. lia.
  - intros m' i Hi Hm' Hag. rewrite length_insert in Hm'. apply Hf; [lia | done |].
    intros j Hj. rewrite Hag by lia. apply list_lookup_insert_ne. lia.
Qed.

Lemma zero_words_spec m p n :
  (p + n <= length m)%nat -> zero_words m p n = Some (write m p (replicate n 0)).
Proof.
  revert m p. induction n as [| n IH]; intros m p H; [done |]. simpl.
  rewrite store_in by lia. cbn [mbind option_bind]. rewrite IH by (rewrite length_insert; lia).
  rewrite write_cons. by rewrite write_insert_lt by lia.
Qed.

(** [sets r m dst bits g]: the operation returned, wrote words of the bitmap of
    [bits] bits at [dst] only, and left there the bits [g]. *)
Definition sets (r : option wmem) (m : wmem) (dst : ptr) (bits : nat) (P : nat -> Prop)
  (g : nat -> bool) : Prop :=
  exists m', r = Some m' /\ words_ok m' /\ length m' = length m /\
    (forall j, (j < dst \/ dst + BITS_TO_LONGS bits <= j)%nat -> m' !! j = m !! j) /\
    (forall i, P i -> bit m' dst i = g i).

Lemma words_ok_write m p ws : words_ok m -> words_ok ws -> (p + length ws <= length m)%nat -> words_ok (write m p ws).
Proof.
  intros Hm Hws Hlen. apply Forall_lookup. intros i w. rewrite lookup_write by done.
  case_decide; intros Hl; [by eapply (Forall_lookup_1 _ _ _ _ Hws) | by eapply (Forall_lookup_1 _ _ _ _ Hm)].
Qed.

(** A result given by its words. *)
Lemma sets_words r m dst bits F P g :
  words_ok m -> has_bitmap m dst bits ->
  r = Some (write m dst (F <$> seq 0 (BITS_TO_LONGS bits))) ->
  (forall k, (k < BITS_TO_LONGS bits)%nat -> is_u32 (F k)) ->
  (forall i, P i -> (i < 32 * BITS_TO_LONGS bits)%nat /\
     Z.testbit (F (i / 32)%nat) (Z.of_nat (i mod 32)) = g i) ->
  sets r m dst bits P g.
Proof.
  intros Hok Hd -> HF Hg. unfold has_bitmap in Hd. eexists. split; [reflexivity |].
  assert (length (F <$> seq 0 (BITS_TO_LONGS bits)) = BITS_TO_LONGS bits) as Hl
    by (by rewrite length_fmap, length_seq).
  split_and!.
  - apply words_ok_write; [done | | by rewrite Hl]. apply Forall_fmap, Forall_seq. intros j Hj. apply HF. lia.
  - apply length_write.
  - intros j Hj. rewrite lookup_write by lia. by rewrite decide_False by lia.
  - intros i Hi. destruct (Hg i Hi) as [Hlt Ht]. unfold bit.
    assert (i / 32 < BITS_TO_LONGS bits)%nat by (pose proof (Nat.div_mod_eq i 32); lia).
    erewrite list_lookup_total_correct; [exact Ht |].
    rewrite lookup_write by lia. rewrite decide_True by lia.
    replace (dst + i / 32 - dst)%nat with (i / 32)%nat by lia.
    rewrite list_lookup_fmap, lookup_seq_lt by done. done.
Qed.

(** An operand of the upward loops: the destination itself, or an array that the
    words stored so far do not touch. *)
Definition apart (src dst : ptr) (bits : nat) : Prop :=
  src = dst \/ (src + BITS_TO_LONGS bits <= dst)%nat \/ (dst + BITS_TO_LONGS bits <= src)%nat.

Lemma word2_sets op bop m dst b1 b2 bits :
  bitwise op bop -> words_ok m ->
  has_bitmap m dst bits -> has_bitmap m b1 bits -> has_bitmap m b2 bits ->
  apart b1 dst bits -> apart b2 dst bits ->
  sets (map_words (word2 op b1 b2) m dst 0 (BITS_TO_LONGS bits)) m dst bits
    (fun i => i < bits)%nat (fun i => bop (bit m b1 i) (bit m b2 i)).
Proof.
  intros Hop Hok Hd H1 H2 Ha1 Ha2. unfold apart in *.
  apply (sets_words _ _ _ _ (fun k => op (m !!! (b1 + k)%nat) (m !!! (b2 + k)%nat))); [done | done | | |].
  - erewrite map_words_spec; [by rewrite Nat.add_0_r | unfold has_bitmap in Hd; lia |].
    intros m' i Hi Hl Hag. unfold word2, load. rewrite !Hag by lia.
    change (m !! (b1 + i)%nat) with (load m (b1 + i)). change (m !! (b2 + i)%nat) with (load m (b2 + i)).
    by rewrite (load_word m b1 bits), (load_word m b2 bits) by (done || lia).
  - intros k Hk. apply Hop; by eapply word_u32.
  - intros i Hi. assert (i / 32 < BITS_TO_LONGS bits)%nat by by apply index_longs.
    split; [pose proof (Nat.div_mod_eq i 32); pose proof (mod32_lt i); lia |].
    destruct (Hop (m !!! (b1 + i / 32)%nat) (m !!! (b2 + i / 32)%nat)) as [_ E];
    [by eapply word_u32 .. |]. by rewrite E by apply mod32_lt.
Qed.

(** Word [k] of a bitmap with the bits at and above [bits] cleared. *)
Definition clean (bits k : nat) (w : Z) : Z :=
  if negb (bits mod 32 =? 0)%nat && (k =? BITS_TO_LONGS bits - 1)%nat
  then Z.land w (low_mask (bits mod 32)) else w.

Lemma clean_bit bits k w j :
  (k < BITS_TO_LONGS bits)%nat -> (j < 32)%nat ->
  Z.testbit (clean bits k w) (Z.of_nat j) = (32 * k + j <? bits)%nat && Z.testbit w (Z.of_nat j).
Proof.
  intros Hk Hj. unfold clean. rewrite longs_div in *. pose proof (mod32_lt bits).
  pose proof (Nat.div_mod_eq bits 32).
  destruct (Nat.eqb_spec (bits mod 32) 0) as [E | E]; cbn [negb andb].
  - by rewrite (proj2 (Nat.ltb_lt _ _)) by lia.
  - destruct (Nat.eqb_spec k (S (bits / 32) - 1)) as [-> |].
    + rewrite testbit_masked by done. f_equal.
      destruct (Nat.ltb_spec j (bits mod 32)), (Nat.ltb_spec (32 * (S (bits / 32) - 1) + j) bits); (done || lia).
    + by rewrite (proj2 (Nat.ltb_lt _ _)) by lia.
Qed.

Lemma low_mask_u32 r : is_u32 (low_mask r).
Proof. apply u32_range. Qed.

Lemma clean_u32 bits k w : is_u32 w -> is_u32 (clean bits k w).
Proof. intros Hw. unfold clean. case_match; [| done]. apply land_u32; [done |]. apply low_mask_u32. Qed.

Lemma fmap_seq_snoc {A} (F : nat -> A) n : F <$> seq 0 (S n) = (F <$> seq 0 n) ++ [F n].
Proof. by rewrite seq_S, fmap_app. Qed.

Lemma complement_words m dst src bits :
  has_bitmap m dst bits -> has_bitmap m src bits -> apart src dst bits ->
  __bitmap_complement m dst src bits =
    Some (write m dst ((fun k => clean bits k (not32 (m !!! (src + k)%nat))) <$> seq 0 (BITS_TO_LONGS bits))).
Proof.
  intros Hd Hs Ha. unfold __bitmap_complement, has_bitmap, apart in *.
  set (F := fun k => clean bits k (not32 (m !!! (src + k)%nat))).
  pose proof (longs_div bits) as Hl.
  assert (forall m' k, (k < BITS_TO_LONGS bits)%nat ->
    (forall j, (j < dst \/ dst + k <= j)%nat -> m' !! j = m !! j) ->
    load m' (src + k) = Some (m !!! (src + k)%nat)) as Hload.
  { intros m' k Hk Hag. unfold load. rewrite Hag by lia. by apply (load_word m src bits). }
  assert (forall k, (k < bits / 32)%nat -> F k = not32 (m !!! (src + k)%nat)) as HF.
  { intros k Hk. unfold F, clean. rewrite Hl. destruct (Nat.eqb_spec (bits mod 32) 0); [done |].
    rewrite (proj2 (Nat.eqb_neq _ _)) by lia. done. }
  erewrite (map_words_spec _ F).
  - rewrite Nat.add_0_r. cbn [mbind option_bind]. rewrite Hl.
    destruct (Nat.eqb_spec (bits mod 32) 0) as [E | E]; [done |].
    assert (BITS_TO_LONGS bits = S (bits / 32))%nat as Hl'
      by (rewrite longs_div; by rewrite (proj2 (Nat.eqb_neq _ _) E)).
    rewrite Hload; [cbn [mbind option_bind] | lia |].
    + rewrite store_in by (rewrite length_write; lia). rewrite fmap_seq_snoc, write_app
        by (rewrite length_fmap, length_seq; cbn [length]; lia).
      rewrite length_fmap, length_seq, write_cons, write_nil. do 2 f_equal.
      unfold F, clean. rewrite Hl', (proj2 (Nat.eqb_neq _ _) E).
      rewrite Nat.sub_succ, Nat.sub_0_r, Nat.eqb_refl. unfold BITMAP_LAST_WORD_MASK.
      by rewrite (proj2 (Nat.eqb_neq _ _) E).
    + intros j Hj. rewrite lookup_write by (rewrite length_fmap, length_seq; lia).
      rewrite length_fmap, length_seq. by rewrite decide_False by lia.
  - rewrite Hl in Hd. destruct (bits mod 32 =? 0)%nat; lia.
  - intros m' i Hi Hlen Hag. rewrite Nat.add_0_r in Hag. rewrite Hload;
      [| rewrite Hl; destruct (bits mod 32 =? 0)%nat; lia |].
    + by rewrite HF by lia.
    + intros j Hj. apply Hag. lia.
Qed.

(** [__bitmap_and], [__bitmap_or], [__bitmap_xor], [__bitmap_andnot] and
    [__bitmap_complement] store the bitwise result of their operands in the
    destination and touch no word outside it; an operand may be the destination
    itself. The complement also clears the unused bits of the last word. *)
Theorem bitmap_ops_spec m dst b1 b2 bits :
  words_ok m -> has_bitmap m dst bits -> has_bitmap m b1 bits -> has_bitmap m b2 bits ->
  apart b1 dst bits -> apart b2 dst bits ->
  let used i := (i < bits)%nat in
  sets (__bitmap_and m dst b1 b2 bits) m dst bits used (fun i => bit m b1 i && bit m b2 i) /\
  sets (__bitmap_or m dst b1 b2 bits) m dst bits used (fun i => bit m b1 i || bit m b2 i) /\
  sets (__bitmap_xor m dst b1 b2 bits) m dst bits used (fun i => xorb (bit m b1 i) (bit m b2 i)) /\
  sets (__bitmap_andnot m dst b1 b2 bits) m dst bits used (fun i => bit m b1 i && negb (bit m b2 i)) /\
  sets (__bitmap_complement m dst b1 bits) m dst bits (fun i => (i < 32 * BITS_TO_LONGS bits)%nat)
    (fun i => (i <? bits)%nat && negb (bit m b1 i)).
Proof.
  intros Hok Hd H1 H2 Ha1 Ha2 used. split_and!.
  1: by apply (word2_sets _ _ _ _ _ _ _ bitwise_land).
  1: by apply (word2_sets _ _ _ _ _ _ _ bitwise_lor).
  1: by apply (word2_sets _ _ _ _ _ _ _ bitwise_lxor).
  1: by apply (word2_sets _ _ _ _ _ _ _ bitwise_andnot).
  eapply sets_words; [done | done | by apply complement_words | |].
  - intros k Hk. apply clean_u32, u32_range.
  - intros i Hi. split; [done |]. pose proof (Nat.div_mod_eq i 32). pose proof (mod32_lt i).
    rewrite clean_bit, not32_bit by lia. f_equal. f_equal. lia.
Qed.

Lemma bitmap_ops_spec_witness :
  let m := [0xff; 0x5; 0xf; 0xd] in
  __bitmap_and m 0 0 2 36 = Some [0xf; 0x5; 0xf; 0xd] /\
  sets (__bitmap_and m 0 0 2 36) m 0 36 (fun i => (i < 36)%nat) (fun i => bit m 0 i && bit m 2 i).
Proof.
  split; [vm_compute; reflexivity |].
  apply (bitmap_ops_spec [0xff; 0x5; 0xf; 0xd] 0 0 2 36).
  - repeat constructor; unfold is_u32; lia.
  - apply Nat.leb_le. vm_compute. reflexivity.
  - apply Nat.leb_le. vm_compute. reflexivity.
  - apply Nat.leb_le. vm_compute. reflexivity.
  - left. reflexivity.
  - right. right. apply Nat.leb_le. vm_compute. reflexivity.
Defined.

(** ** Shifts *)

Lemma pair_shift_right lo hi r j :
  is_u32 lo -> (r < 32)%nat -> (j < 32)%nat ->
  Z.testbit (Z.lor (u32 (Z.shiftl hi (Z.of_nat (32 - r)))) (Z.shiftr lo (Z.of_nat r))) (Z.of_nat j) =
    if (j + r <? 32)%nat then Z.testbit lo (Z.of_nat (j + r)) else Z.testbit hi (Z.of_nat (j + r - 32)).
Proof.
  intros Hlo Hr Hj. rewrite Z.lor_spec, u32_testbit, Z.shiftl_spec, Z.shiftr_spec by lia.
  rewrite (proj2 (Z.ltb_lt (Z.of_nat j) 32)) by lia. cbn [andb].
  destruct (Nat.ltb_spec (j + r) 32).
  - rewrite Z.testbit_neg_r by lia. cbn [orb]. f_equal. lia.
  - rewrite (u32_bits_above lo) by (done || lia). rewrite orb_false_r. f_equal. lia.
Qed.

Lemma pair_shift_left lo hi r j :
  is_u32 lo -> (r < 32)%nat -> (j < 32)%nat ->
  Z.testbit (Z.lor (Z.shiftr lo (Z.of_nat (32 - r))) (u32 (Z.shiftl hi (Z.of_nat r)))) (Z.of_nat j) =
    if (r <=? j)%nat then Z.testbit hi (Z.of_nat (j - r)) else Z.testbit lo (Z.of_nat (j + 32 - r)).
Proof.
  intros Hlo Hr Hj. rewrite Z.lor_spec, u32_testbit, Z.shiftl_spec, Z.shiftr_spec by lia.
  rewrite (proj2 (Z.ltb_lt (Z.of_nat j) 32)) by lia. cbn [andb].
  destruct (Nat.leb_spec r j).
  - rewrite (u32_bits_above lo) by (done || lia). cbn [orb]. f_equal. lia.
  - rewrite (Z.testbit_neg_r hi) by lia. rewrite orb_false_r. f_equal. lia.
Qed.

Section Shift.
Context (m : wmem) (dst src : ptr) (shift bits : nat).
Context (Hok : words_ok m) (Hd : has_bitmap m dst bits) (Hs : has_bitmap m src bits).
Context (Ha : apart src dst bits) (Hshift : (shift <= bits)%nat).
Let lim := BITS_TO_LONGS bits.
Let off := (shift / 32)%nat.
Let rem := (shift mod 32)%nat.

(** Word [k] of the source, without its unused bits. *)
Let word k := clean bits k (m !!! (src + k)%nat).

Lemma word_bit k j :
  (k < lim)%nat -> (j < 32)%nat ->
  Z.testbit (word k) (Z.of_nat j) = (32 * k + j <? bits)%nat && bit m src (32 * k + j).
Proof. intros. unfold word. by rewrite clean_bit, bit_word. Qed.

Lemma word_is_u32 k : (k < lim)%nat -> is_u32 (word k).
Proof. intros. apply clean_u32. by eapply word_u32. Qed.

Lemma shift_parts : (shift = 32 * off + rem /\ rem < 32 /\ off <= lim)%nat.
Proof.
  split; [apply Nat.div_mod_eq |]. split; [apply mod32_lt |]. unfold off, lim. nat_div_lia.
Qed.

Definition right_word k : Z :=
  if (k <? lim - off)%nat then
    clean bits k (Z.lor (u32 (Z.shiftl (if (rem =? 0)%nat || (lim <=? off + k + 1)%nat then 0
                                        else word (off + k + 1)) (Z.of_nat (32 - rem))))
                        (Z.shiftr (word (off + k)) (Z.of_nat rem)))
  else 0.

Lemma shift_right_word_eq m' k :
  (k < lim - off)%nat -> (forall j, (j < dst \/ dst + k <= j)%nat -> m' !! j = m !! j) ->
  shift_right_word src shift bits m' k = Some (right_word k).
Proof.
  intros Hk Hag. unfold shift_right_word, right_word. fold lim off rem.
  rewrite (proj2 (Nat.ltb_lt k (lim - off))) by done.
  assert (forall i, (k <= i < lim)%nat -> load m' (src + i) = Some (m !!! (src + i)%nat)) as Hload.
  { intros i Hi. unfold load, apart, lim in *. rewrite Hag by lia. apply (load_word m src bits); [done | lia]. }
  rewrite (Hload (off + k)%nat) by lia.
  destruct (Nat.eqb_spec rem 0); [done |].
  destruct (Nat.leb_spec lim (off + k + 1)); [done |]. cbn [orb].
  rewrite (Hload (off + k + 1)%nat) by lia. cbn [mbind option_bind].
  rewrite (andb_comm (off + k + 1 =? lim - 1)%nat). done.
Qed.

Lemma right_word_bit i :
  (i < 32 * lim)%nat ->
  Z.testbit (right_word (i / 32)) (Z.of_nat (i mod 32)) = (i + shift <? bits)%nat && bit m src (i + shift).
Proof.
  intros Hi. pose proof (Nat.div_mod_eq i 32) as Ei. pose proof (mod32_lt i) as Hj.
  destruct shift_parts as (Es & Hr & Ho). unfold right_word.
  assert (bits <= 32 * lim)%nat as Hbits by (unfold lim; nat_div_lia).
  set (k := (i / 32)%nat) in *. set (j := (i mod 32)%nat) in *.
  destruct (Nat.ltb_spec k (lim - off)).
  2: { rewrite Z.bits_0. by rewrite (proj2 (Nat.ltb_ge (i + shift) bits)) by lia. }
  assert (is_u32 (word (off + k))) by (apply word_is_u32; lia).
  rewrite clean_bit, pair_shift_right by (done || unfold lim in *; lia). rewrite <- Ei.
  assert (forall b, (i <? bits)%nat && ((i + shift <? bits)%nat && b) = (i + shift <? bits)%nat && b) as Hcl.
  { intros b. destruct (Nat.ltb_spec i bits), (Nat.ltb_spec (i + shift) bits); (done || lia). }
  destruct (Nat.ltb_spec (j + rem) 32).
  - rewrite word_bit by lia. replace (32 * (off + k) + (j + rem))%nat with (i + shift)%nat by lia. apply Hcl.
  - rewrite (proj2 (Nat.eqb_neq rem 0)) by lia. cbn [orb]. destruct (Nat.leb_spec lim (off + k + 1)).
    + rewrite Z.bits_0, andb_false_r. by rewrite (proj2 (Nat.ltb_ge (i + shift) bits)) by lia.
    + rewrite word_bit by lia.
      replace (32 * (off + k + 1) + (j + rem - 32))%nat with (i + shift)%nat by lia. apply Hcl.
Qed.

Lemma right_word_u32 k : is_u32 (right_word k).
Proof.
  unfold right_word. destruct (Nat.ltb_spec k (lim - off)); [| unfold is_u32; lia].
  apply clean_u32, lor_u32; [apply u32_range |]. apply shiftr_u32, word_is_u32. lia.
Qed.

Lemma shift_right_words :
  __bitmap_shift_right m dst src shift bits = Some (write m dst (right_word <$> seq 0 lim)).
Proof.
  unfold __bitmap_shift_right, has_bitmap in *. fold lim off in Hd, Hs |- *.
  destruct shift_parts as (_ & _ & Ho). erewrite (map_words_spec _ right_word).
  - rewrite Nat.add_0_r. cbn [mbind option_bind].
    destruct (Nat.eqb_spec off 0) as [E | E]; [by rewrite E, Nat.sub_0_r |].
    rewrite (proj2 (Nat.ltb_ge (dst + lim) off)) by lia.
    rewrite zero_words_spec by (rewrite length_write; lia).
    replace lim with ((lim - off) + off)%nat at 3 by lia.
    rewrite seq_app, fmap_app, write_app by (rewrite !length_fmap, !length_seq; lia).
    rewrite length_fmap, length_seq. do 2 f_equal; [lia |]. symmetry. list_ext i.
    rewrite list_lookup_fmap. destruct (decide (i < off)%nat).
    + rewrite lookup_seq_lt, lookup_replicate_2 by lia. cbn [fmap option_fmap option_map]. unfold right_word.
      by rewrite (proj2 (Nat.ltb_ge (0 + (lim - off) + i) (lim - off))) by lia.
    + rewrite lookup_seq_ge by lia. symmetry. apply lookup_ge_None_2. rewrite length_replicate. lia.
  - lia.
  - intros m' i Hi Hl Hag. rewrite Nat.add_0_r in Hag. by apply shift_right_word_eq; [lia |].
Qed.

Definition left_word k : Z :=
  if (k <? off)%nat then 0
  else
    clean bits k (Z.lor (Z.shiftr (if negb (rem =? 0)%nat && (0 <? k - off)%nat
                                   then m !!! (src + (k - off - 1))%nat else 0) (Z.of_nat (32 - rem)))
                        (u32 (Z.shiftl (word (k - off)) (Z.of_nat rem)))).

Lemma shift_left_word_eq m' k :
  (k < lim - off)%nat ->
  (forall j, (j <= dst + off + k \/ dst + lim <= j)%nat -> m' !! j = m !! j) ->
  shift_left_word src shift bits m' k = Some (left_word (off + k)).
Proof.
  intros Hk Hag. unfold shift_left_word, left_word. fold lim off rem.
  rewrite (proj2 (Nat.ltb_ge (off + k) off)) by lia.
  replace (off + k - off)%nat with k by lia.
  assert (forall i, (i <= k)%nat -> load m' (src + i) = Some (m !!! (src + i)%nat)) as Hload.
  { intros i Hi. unfold load, apart, lim in *. rewrite Hag by lia. apply (load_word m src bits); [done | lia]. }
  rewrite (Hload k) by lia. rewrite (Nat.add_comm k off). destruct (rem =? 0)%nat; [done |].
  destruct (Nat.ltb_spec 0 k); [| done]. cbn [negb andb]. rewrite (Hload (k - 1)%nat) by lia. done.
Qed.

Lemma left_word_bit i :
  (i < 32 * lim)%nat ->
  Z.testbit (left_word (i / 32)) (Z.of_nat (i mod 32)) =
    (shift <=? i)%nat && (i <? bits)%nat && bit m src (i - shift).
Proof.
  intros Hi. pose proof (Nat.div_mod_eq i 32) as Ei. pose proof (mod32_lt i) as Hj.
  destruct shift_parts as (Es & Hr & Ho).
  assert (i / 32 < lim)%nat by lia. unfold left_word.
  set (k := (i / 32)%nat) in *. set (j := (i mod 32)%nat) in *.
  destruct (Nat.ltb_spec k off).
  { rewrite Z.bits_0. by rewrite (proj2 (Nat.leb_gt shift i)) by lia. }
  rewrite clean_bit by done.
  rewrite pair_shift_left; [| case_match; [eapply word_u32; [done | exact Hs | unfold lim in *; lia] | unfold is_u32; lia] | done | done].
  rewrite <- Ei, (andb_comm (shift <=? i)%nat), <- andb_assoc.
  destruct (Nat.ltb_spec i bits); [cbn [andb] | done].
  destruct (Nat.leb_spec rem j).
  - rewrite word_bit by lia. replace (32 * (k - off) + (j - rem))%nat with (i - shift)%nat by lia.
    rewrite (proj2 (Nat.ltb_lt (i - shift) bits)), (proj2 (Nat.leb_le shift i)) by lia. done.
  - rewrite (proj2 (Nat.eqb_neq rem 0)) by lia. cbn [negb andb]. destruct (Nat.ltb_spec 0 (k - off)).
    + rewrite <- bit_word by lia. rewrite (proj2 (Nat.leb_le shift i)) by lia. cbn [andb]. f_equal. lia.
    + rewrite Z.bits_0. by rewrite (proj2 (Nat.leb_gt shift i)) by lia.
Qed.

Lemma left_word_u32 k : (k < lim)%nat -> is_u32 (left_word k).
Proof.
  intros Hk. unfold left_word. destruct (Nat.ltb_spec k off); [unfold is_u32; lia |].
  apply clean_u32, lor_u32; [| apply u32_range].
  apply shiftr_u32. case_match; [eapply word_u32; [done | exact Hs | unfold lim in *; lia] | unfold is_u32; lia].
Qed.

Lemma shift_left_words :
  __bitmap_shift_left m dst src shift bits = Some (write m dst (left_word <$> seq 0 lim)).
Proof.
  unfold __bitmap_shift_left, has_bitmap in *. fold lim off in Hd, Hs |- *.
  destruct shift_parts as (_ & _ & Ho).
  erewrite (map_words_down_spec _ (fun k => left_word (off + k))); [| lia |].
  - cbn [mbind option_bind]. destruct (Nat.eqb_spec off 0) as [E | E].
    { by rewrite E, Nat.sub_0_r, Nat.add_0_r. }
    rewrite zero_words_spec by (rewrite length_write; lia). f_equal.
    list_ext i. rewrite !lookup_write by (rewrite ?length_write, ?length_replicate, ?length_fmap, ?length_seq; lia).
    rewrite length_replicate, !length_fmap, !length_seq, !list_lookup_fmap.
    repeat case_decide; try lia; try done.
    + rewrite lookup_seq_lt, lookup_replicate_2 by lia. cbn [fmap option_fmap option_map]. unfold left_word.
      by rewrite (proj2 (Nat.ltb_lt (0 + (i - dst)) off)) by lia.
    + rewrite !lookup_seq_lt by lia. cbn [fmap option_fmap option_map]. do 2 f_equal. lia.
  - intros m' i Hi Hl Hag. apply shift_left_word_eq; [lia |]. intros j Hj. apply Hag. lia.
Qed.
End Shift.

(** [__bitmap_shift_right] and [__bitmap_shift_left] move every bit by
    [shift] positions, feed zeros into the vacated positions, leave the unused
    bits of the last word clear and touch no word outside the destination, for any
    size and any shift up to it; the source may be the destination. Bits of the
    source at or above [bits] never enter the result. *)
Lemma bitmap_shift_spec m dst src shift bits :
  words_ok m -> has_bitmap m dst bits -> has_bitmap m src bits -> apart src dst bits ->
  (shift <= bits)%nat ->
  let all i := (i < 32 * BITS_TO_LONGS bits)%nat in
  sets (__bitmap_shift_right m dst src shift bits) m dst bits all
    (fun i => (i + shift <? bits)%nat && bit m src (i + shift)) /\
  sets (__bitmap_shift_left m dst src shift bits) m dst bits all
    (fun i => (shift <=? i)%nat && (i <? bits)%nat && bit m src (i - shift)).
Proof.
  intros Hok Hd Hs Ha Hshift all. split.
  - eapply sets_words; [done | done | by apply shift_right_words | |].
    + intros k _. by apply right_word_u32.
    + intros i Hi. split; [done |]. by apply right_word_bit.
  - eapply sets_words; [done | done | by apply shift_left_words | |].
    + intros k Hk. by apply left_word_u32.
    + intros i Hi. split; [done |]. by apply left_word_bit.
Qed.

(** ** Counting *)

(** How many of the first [n] positions satisfy [g]. *)
Fixpoint count (g : nat -> bool) (n : nat) : Z :=
  match n with
  | O => 0
  | S n => Z.b2z (g n) + count g n
  end.

Lemma count_ext g h n : (forall i, (i < n)%nat -> g i = h i) -> count g n = count h n.
Proof. induction n as [| n IH]; intros H; simpl; [done |]. rewrite H, IH; auto with lia. Qed.

Lemma count_add g a b : count g (a + b) = count g a + count (fun i => g (a + i)%nat) b.
Proof.
  induction b as [| b IH]; [simpl; rewrite Nat.add_0_r; lia |].
  rewrite Nat.add_succ_r. simpl. rewrite IH. lia.
Qed.

Lemma popcount_count n w : popcount n w = count (fun j => Z.testbit w (Z.of_nat j)) n.
Proof. induction n as [| n IH]; [done |]. rewrite popcount_S, IH. done. Qed.

Lemma count_word m p k n :
  (n <= 32)%nat -> count (fun j => bit m p (32 * k + j)%nat) n = popcount n (m !!! (p + k)%nat).
Proof. intros Hn. rewrite popcount_count. apply count_ext. intros. apply bit_word. lia. Qed.

Lemma weight_loop_spec m p bits k n w :
  words_ok m -> has_bitmap m p bits -> (k + n <= BITS_TO_LONGS bits)%nat ->
  weight_loop m p k n w = Some (w + count (fun j => bit m p (32 * k + j)%nat) (32 * n)).
Proof.
  intros Hok Hp. revert k w. induction n as [| n IH]; intros k w Hk.
  { simpl. by rewrite Z.add_0_r. }
  simpl weight_loop. rewrite (load_word m p bits) by (done || lia). cbn [mbind option_bind].
  rewrite IH by lia. f_equal. replace (32 * S n)%nat with (32 + 32 * n)%nat by lia.
  rewrite count_add, (count_word m p k 32), hweight32_popcount
    by (lia || (eapply word_u32; [done | exact Hp | lia])).
  rewrite <- Z.add_assoc. do 2 f_equal. apply count_ext. intros. f_equal. lia.
Qed.

Lemma popcount_clean w r : (r < 32)%nat -> popcount 32 (Z.land w (low_mask r)) = popcount r w.
Proof.
  intros Hr. rewrite !popcount_count. replace 32%nat with (r + (32 - r))%nat by lia.
  rewrite count_add, (count_ext (fun i => Z.testbit (Z.land w _) (Z.of_nat (r + i))) (fun _ => false)).
  - assert (forall n, count (fun _ => false) n = 0) as -> by (induction n; simpl; lia).
    rewrite Z.add_0_r. apply count_ext. intros i Hi. rewrite testbit_masked by done.
    by rewrite (proj2 (Nat.ltb_lt i r)).
  - intros i Hi. rewrite testbit_masked by done. by rewrite (proj2 (Nat.ltb_ge (r + i) r)) by lia.
Qed.

(** [__bitmap_weight] is the number of bits set below [bits]; the unused
    bits of the last word are not counted. *)
Theorem bitmap_weight_spec m p bits :
  words_ok m -> has_bitmap m p bits -> __bitmap_weight m p bits = Some (count (bit m p) bits).
Proof.
  intros Hok Hp. unfold __bitmap_weight. pose proof (longs_div bits) as Hl.
  pose proof (Nat.div_mod_eq bits 32) as Eb. pose proof (mod32_lt bits).
  rewrite (weight_loop_spec m p bits) by (done || rewrite Hl; destruct (bits mod 32 =? 0)%nat; lia).
  cbn [mbind option_bind].
  rewrite (count_ext _ (bit m p)) by (intros; f_equal; lia). rewrite Z.add_0_l.
  destruct (Nat.eqb_spec (bits mod 32) 0) as [E | E].
  - do 2 f_equal. lia.
  - rewrite (load_word m p bits) by (done || lia). cbn [mbind option_bind]. f_equal.
    transitivity (count (bit m p) (32 * (bits / 32) + bits mod 32)); [| by rewrite <- Eb].
    rewrite count_add, count_word by lia. f_equal.
    unfold BITMAP_LAST_WORD_MASK. rewrite (proj2 (Nat.eqb_neq _ _) E).
    rewrite hweight32_popcount; [by apply popcount_clean |].
    apply land_u32; [eapply word_u32; [done | exact Hp | lia] | apply low_mask_u32].
Qed.

Lemma bitmap_weight_spec_witness :
  __bitmap_weight [0xff; 0xff] 0 35 = Some (count (bit [0xff; 0xff] 0) 35).
Proof.
  apply (bitmap_weight_spec [0xff; 0xff] 0 35).
  - repeat constructor; unfold is_u32; lia.
  - apply Nat.leb_le. vm_compute. reflexivity.
Defined.

(** ** Aligned regions *)

(** Position [i] belongs to the region of [2^order] bits at [pos]. *)
Definition in_region (pos order i : nat) : bool := (pos <=? i)%nat && (i <? pos + 2 ^ order)%nat.

(** A region the functions handle: at most a word, aligned on its size, and in
    the bitmap. *)
Definition region_ok (bits pos order : nat) : Prop :=
  (order <= 5)%nat /\ (pos mod 2 ^ order = 0)%nat /\ (pos < bits)%nat.

Lemma region_in_word bits pos order :
  region_ok bits pos order -> (pos mod 32 + 2 ^ order <= 32)%nat.
Proof.
  intros (Ho & Ha & _). apply Nat.Div0.mod_divides in Ha as [c ->].
  do 6 (destruct order as [| order]; [clear Ho; simpl Nat.pow in *; nat_div_lia |]). lia.
Qed.

Lemma region_mask_ones order : (order <= 5)%nat -> region_mask (2 ^ order) = Z.ones (Z.of_nat (2 ^ order)).
Proof. intros Ho. do 6 (destruct order as [| order]; [reflexivity |]). lia. Qed.

Lemma region_bits_bit order pos j :
  (order <= 5)%nat -> (j < 32)%nat ->
  Z.testbit (region_bits (2 ^ order) pos) (Z.of_nat j) =
    (pos mod 32 <=? j)%nat && (j <? pos mod 32 + 2 ^ order)%nat.
Proof.
  intros Ho Hj. unfold region_bits. rewrite u32_testbit, Z.shiftl_spec, region_mask_ones by lia.
  rewrite (proj2 (Z.ltb_lt (Z.of_nat j) 32)) by lia. cbn [andb].
  destruct (Nat.leb_spec (pos mod 32) j); [| by rewrite Z.testbit_neg_r by lia].
  rewrite Z.testbit_ones_nonneg by lia. cbn [andb].
  destruct (Nat.ltb_spec j (pos mod 32 + 2 ^ order)); [apply Z.ltb_lt | apply Z.ltb_ge]; lia.
Qed.

Lemma in_region_word bits pos order i :
  region_ok bits pos order ->
  in_region pos order i = (i / 32 =? pos / 32)%nat && Z.testbit (region_bits (2 ^ order) pos) (Z.of_nat (i mod 32)).
Proof.
  intros Hr. pose proof (region_in_word _ _ _ Hr). destruct Hr as (Ho & _ & _).
  rewrite region_bits_bit by auto with bitmap. unfold in_region.
  pose proof (Nat.div_mod_eq i 32). pose proof (mod32_lt i). pose proof (Nat.div_mod_eq pos 32).
  destruct (Nat.eqb_spec (i / 32) (pos / 32)); cbn [andb].
  - f_equal; [destruct (Nat.leb_spec pos i), (Nat.leb_spec (pos mod 32) (i mod 32)); (done || lia) |].
    destruct (Nat.ltb_spec i (pos + 2 ^ order)), (Nat.ltb_spec (i mod 32) (pos mod 32 + 2 ^ order)); (done || lia).
  - destruct (Nat.leb_spec pos i); [| done]. cbn [andb]. apply Nat.ltb_ge. lia.
Qed.

Lemma bit_insert m p k w i :
  (p + k < length m)%nat ->
  bit (<[(p + k)%nat := w]> m) p i = if (i / 32 =? k)%nat then Z.testbit w (Z.of_nat (i mod 32)) else bit m p i.
Proof.
  intros Hk. unfold bit. destruct (Nat.eqb_spec (i / 32) k) as [-> |].
  - by rewrite list_lookup_total_insert_eq.
  - by rewrite list_lookup_total_insert_ne by lia.
Qed.

Lemma region_bits_u32 pages pos : is_u32 (region_bits pages pos).
Proof. apply u32_range. Qed.

Definition region_is_free (m : wmem) (p : ptr) (pos order : nat) : Prop :=
  forall i, in_region pos order i = true -> bit m p i = false.
Definition region_is_busy (m : wmem) (p : ptr) (pos order : nat) : Prop :=
  exists i, in_region pos order i = true /\ bit m p i = true.

(** The test [bitmap[index] & (mask << offset)]. *)
Lemma region_test_free m p bits pos order :
  region_ok bits pos order ->
  Z.land (m !!! (p + pos / 32)%nat) (region_bits (2 ^ order) pos) = 0 -> region_is_free m p pos order.
Proof.
  intros Hr E i Hi. rewrite (in_region_word bits) in Hi by done.
  apply andb_true_iff in Hi as [Ei%Nat.eqb_eq Hi]. unfold bit. rewrite Ei.
  apply (f_equal (fun z => Z.testbit z (Z.of_nat (i mod 32)))) in E.
  rewrite Z.land_spec, Hi, Z.bits_0, andb_true_r in E. done.
Qed.

Lemma region_test_busy m p bits pos order :
  words_ok m -> has_bitmap m p bits -> region_ok bits pos order ->
  Z.land (m !!! (p + pos / 32)%nat) (region_bits (2 ^ order) pos) <> 0 -> region_is_busy m p pos order.
Proof.
  intros Hok Hp Hr Hne.
  apply u32_nonzero in Hne as (j & Hj & Ht).
  2: { apply land_u32; [| apply region_bits_u32]. eapply word_u32; [done | exact Hp |]. apply index_longs, Hr. }
  rewrite Z.land_spec in Ht. apply andb_true_iff in Ht as [Hb Ht].
  destruct (bits_index (pos / 32) j Hj) as [E1 E2]. exists (32 * (pos / 32) + j)%nat.
  split; [| by rewrite bit_word]. rewrite (in_region_word bits), E1, E2, Nat.eqb_refl, Ht by done. done.
Qed.

Lemma region_free_test m p bits pos order :
  words_ok m -> has_bitmap m p bits -> region_ok bits pos order -> region_is_free m p pos order ->
  Z.land (m !!! (p + pos / 32)%nat) (region_bits (2 ^ order) pos) = 0.
Proof.
  intros Hok Hp Hr Hf.
  destruct (decide (Z.land (m !!! (p + pos / 32)%nat) (region_bits (2 ^ order) pos) = 0)) as [| Hne]; [done |].
  apply (region_test_busy m p bits) in Hne as (i & Hi & Hb); [| done..]. rewrite Hf in Hb; done.
Qed.

(** Marking and clearing a region. *)
Definition mark (m : wmem) (p : ptr) (pos order : nat) : wmem :=
  <[(p + pos / 32)%nat := Z.lor (m !!! (p + pos / 32)%nat) (region_bits (2 ^ order) pos)]> m.

Lemma mark_spec m p bits pos order :
  words_ok m -> has_bitmap m p bits -> region_ok bits pos order ->
  words_ok (mark m p pos order) /\
  (forall j, (j < p \/ p + BITS_TO_LONGS bits <= j)%nat -> mark m p pos order !! j = m !! j) /\
  (forall i, bit (mark m p pos order) p i = in_region pos order i || bit m p i).
Proof.
  intros Hok Hp Hr. assert (pos / 32 < BITS_TO_LONGS bits)%nat as Hk by apply index_longs, Hr.
  unfold mark. unfold has_bitmap in *. split_and!.
  - apply Forall_insert; [done |]. apply lor_u32; [by eapply word_u32 | apply u32_range].
  - intros j Hj. apply list_lookup_insert_ne. lia.
  - intros i. rewrite bit_insert by lia. rewrite (in_region_word bits) by done. unfold bit.
    destruct (Nat.eqb_spec (i / 32) (pos / 32)) as [-> |]; [| done]. by rewrite Z.lor_spec, orb_comm.
Qed.

(** Releasing a region that was free before it was marked restores the bitmap. *)
Lemma release_mark m p bits pos order :
  words_ok m -> has_bitmap m p bits -> region_ok bits pos order ->
  region_is_free m p pos order ->
  bitmap_release_region (mark m p pos order) p pos order = Some m.
Proof.
  intros Hok Hp Hr Hfree. assert (pos / 32 < BITS_TO_LONGS bits)%nat as Hk by apply index_longs, Hr.
  apply (region_free_test m p bits) in Hfree; [| done..].
  pose proof (word_u32 m p bits _ Hok Hp Hk) as Hw. pose proof (load_word m p bits _ Hp Hk) as Hl.
  unfold has_bitmap in *. unfold bitmap_release_region, mark, load.
  rewrite list_lookup_insert_eq by lia. cbn [mbind option_bind].
  rewrite store_in by (rewrite length_insert; lia). f_equal. rewrite list_insert_insert_eq.
  apply list_insert_id. unfold load in Hl. rewrite Hl. f_equal.
  revert Hw Hfree. generalize (m !!! (p + pos / 32)%nat), (region_bits_u32 (2 ^ order) pos).
  generalize (region_bits (2 ^ order) pos). intros r w Hrb Hw Hf.
  apply Z.bits_inj'. intros j Hj. apply (f_equal (fun z => Z.testbit z j)) in Hf.
  rewrite Z.bits_0, Z.land_spec in Hf. rewrite Z.land_spec, Z.lor_spec. unfold not32.
  rewrite u32_testbit, Z.lnot_spec by done. destruct (Z.ltb_spec j 32).
  - destruct (Z.testbit w j), (Z.testbit r j); done.
  - by rewrite !u32_bits_above.
Qed.

Lemma find_region_loop_spec m p bits order fuel i :
  words_ok m -> has_bitmap m p bits -> (order <= 5)%nat ->
  (bits - i < fuel)%nat -> (i mod 2 ^ order = 0)%nat ->
  (forall pos, region_ok bits pos order -> (pos < i)%nat -> region_is_busy m p pos order) ->
  (find_region_loop fuel m p bits (2 ^ order) i = Some (m, - ENOMEM) /\
     forall pos, region_ok bits pos order -> region_is_busy m p pos order) \/
  (exists pos, find_region_loop fuel m p bits (2 ^ order) i = Some (mark m p pos order, Z.of_nat pos) /\
     region_ok bits pos order /\ region_is_free m p pos order /\
     forall pos', region_ok bits pos' order -> (pos' < pos)%nat -> region_is_busy m p pos' order).
Proof.
  intros Hok Hp Ho. revert i. induction fuel as [| fuel IH]; intros i Hfuel Hi Hbusy; [lia |].
  cbn [find_region_loop]. destruct (Nat.ltb_spec i bits) as [Hlt | Hge].
  2: { left. split; [done |]. intros pos Hr. apply Hbusy; [done |]. destruct Hr as (_ & _ & ?). lia. }
  assert (region_ok bits i order) as Hri by done.
  assert (i / 32 < BITS_TO_LONGS bits)%nat as Hk by by apply index_longs.
  rewrite (load_word m p bits) by done. cbn [mbind option_bind].
  destruct (Z.eqb_spec (Z.land (m !!! (p + i / 32)%nat) (region_bits (2 ^ order) i)) 0) as [E | E].
  - right. exists i. rewrite store_in by (unfold has_bitmap in *; lia).
    split; [done |]. split; [done |]. split; [by eapply region_test_free | done].
  - assert (0 < 2 ^ order)%nat by (apply Nat.neq_0_lt_0, Nat.pow_nonzero; lia).
    apply IH; [lia | |].
    + rewrite <- (Nat.mul_1_l (2 ^ order)) at 1. by rewrite Nat.Div0.mod_add.
    + intros pos Hr Hpos. destruct (decide (pos < i)%nat) as [| Hge]; [by apply Hbusy |].
      assert (pos = i) as ->; [| by eapply region_test_busy].
      destruct Hr as (_ & Hp0 & _). apply Nat.Div0.mod_divides in Hp0 as [c ->].
      apply Nat.Div0.mod_divides in Hi as [d ->]. assert (c = d) as ->; [nia | done].
Qed.

(** [bitmap_find_free_region] returns the lowest free region of [2^order]
    bits aligned on its size and marks exactly its bits, or [-ENOMEM] with the
    bitmap unchanged when every aligned region has a bit set; releasing the region
    it returned restores the bitmap. An order above 5 gives [-EINVAL]. *)
Lemma find_free_region_spec m p bits order :
  words_ok m -> has_bitmap m p bits ->
  let r := bitmap_find_free_region m p bits order in
  ((5 < order)%nat /\ r = Some (m, - EINVAL)) \/
  (r = Some (m, - ENOMEM) /\ forall pos, region_ok bits pos order -> region_is_busy m p pos order) \/
  (exists m' pos, r = Some (m', Z.of_nat pos) /\ region_ok bits pos order /\
     region_is_free m p pos order /\
     (forall pos', region_ok bits pos' order -> (pos' < pos)%nat -> region_is_busy m p pos' order) /\
     words_ok m' /\
     (forall j, (j < p \/ p + BITS_TO_LONGS bits <= j)%nat -> m' !! j = m !! j) /\
     (forall i, bit m' p i = in_region pos order i || bit m p i) /\
     bitmap_release_region m' p pos order = Some m).
Proof.
  intros Hok Hp r. unfold r, bitmap_find_free_region. destruct (decide (order <= 5)%nat) as [Ho | Ho].
  - right. rewrite (proj2 (Nat.ltb_ge 32 (2 ^ order))).
    2: { change 32%nat with (2 ^ 5)%nat. by apply Nat.pow_le_mono_r. }
    destruct (find_region_loop_spec m p bits order (S bits) 0) as [H | (pos & H & Hr & Hf & Hl)];
      [done | done | done | lia | apply Nat.Div0.mod_0_l | intros; lia | by left |].
    right. exists (mark m p pos order), pos. destruct (mark_spec m p bits pos order) as (? & ? & ?); [done.. |].
    split_and!; try done. by eapply release_mark.
  - left. rewrite (proj2 (Nat.ltb_lt 32 (2 ^ order))); [split; [lia | done] |].
    apply Nat.lt_le_trans with (2 ^ 6)%nat; [simpl; lia |]. apply Nat.pow_le_mono_r; lia.
Qed.

(** [bitmap_allocate_region] takes a region exactly when all its bits are
    clear, reporting [-EBUSY] and changing nothing otherwise, and
    [bitmap_release_region] undoes it. *)
Lemma allocate_region_spec m p bits pos order :
  words_ok m -> has_bitmap m p bits -> region_ok bits pos order ->
  (region_is_busy m p pos order /\ bitmap_allocate_region m p pos order = Some (m, - EBUSY)) \/
  (region_is_free m p pos order /\
   exists m', bitmap_allocate_region m p pos order = Some (m', 0) /\ words_ok m' /\
     (forall i, bit m' p i = in_region pos order i || bit m p i) /\
     bitmap_release_region m' p pos order = Some m).
Proof.
  intros Hok Hp Hr. assert (pos / 32 < BITS_TO_LONGS bits)%nat as Hk by apply index_longs, Hr.
  unfold bitmap_allocate_region. rewrite (proj2 (Nat.ltb_ge 32 (2 ^ order))).
  2: { change 32%nat with (2 ^ 5)%nat. apply Nat.pow_le_mono_r; [lia | apply Hr]. }
  rewrite (load_word m p bits) by done. cbn [mbind option_bind].
  destruct (Z.eqb_spec (Z.land (m !!! (p + pos / 32)%nat) (region_bits (2 ^ order) pos)) 0) as [E | E].
  - right. assert (region_is_free m p pos order) by by eapply region_test_free.
    split; [done |]. cbn [negb]. rewrite store_in by (unfold has_bitmap in Hp; lia).
    exists (mark m p pos order). destruct (mark_spec m p bits pos order) as (? & ? & ?); [done.. |].
    split_and!; try done. by eapply release_mark.
  - left. split; [by eapply region_test_busy | done].
Qed.

(** ** [find_next_bit] *)

Lemma testbit_land_low w n j :
  Z.land w (Z.ones n) = 0 -> 0 <= j < n -> Z.testbit w j = false.
Proof.
  intros H Hj. apply (f_equal (fun z => Z.testbit z j)) in H.
  rewrite Z.land_spec, Z.testbit_ones_nonneg, Z.bits_0 in H by lia.
  rewrite (proj2 (Z.ltb_lt j n)), andb_true_r in H by lia. done.
Qed.

(** Both loops drop zero bits at the low end. *)
Lemma skip_bytes_spec fuel offset tmp :
  0 < tmp < 2 ^ (8 * Z.of_nat fuel) ->
  exists c, let '(o, t) := skip_bytes fuel offset tmp in
    o = (offset + c)%nat /\ t = Z.shiftr tmp (Z.of_nat c) /\ Z.land t 0xff <> 0 /\
    forall j, (j < c)%nat -> Z.testbit tmp (Z.of_nat j) = false.
Proof.
  revert offset tmp. induction fuel as [| fuel IH]; intros offset tmp Ht.
  { change (2 ^ (8 * Z.of_nat 0)) with 1 in Ht. lia. }
  cbn [skip_bytes]. destruct (Z.eqb_spec (Z.land tmp 0xff) 0) as [E | E].
  - assert (tmp mod 256 = 0) as Em by (change 256 with (2 ^ 8); rewrite <- land_pow2_mask; [exact E | lia]).
    destruct (IH (offset + 8)%nat (Z.shiftr tmp 8)) as (c & Hc).
    { rewrite Z.shiftr_div_pow2 by lia. change (2 ^ 8) with 256.
      replace (8 * Z.of_nat (S fuel)) with (8 + 8 * Z.of_nat fuel) in Ht by lia.
      rewrite Z.pow_add_r in Ht by lia. change (2 ^ 8) with 256 in Ht.
      pose proof (Z.div_mod tmp 256). nia. }
    exists (8 + c)%nat. destruct (skip_bytes fuel (offset + 8) (Z.shiftr tmp 8)) as [o t].
    destruct Hc as (-> & -> & Hne & Hz). split_and!; [lia | | done |].
    + rewrite Z.shiftr_shiftr by lia. f_equal. lia.
    + intros j Hj. destruct (decide (j < 8)%nat).
      * apply (testbit_land_low _ 8); [exact E | lia].
      * specialize (Hz (j - 8)%nat ltac:(lia)). rewrite Z.shiftr_spec in Hz by lia.
        rewrite <- Hz. f_equal. lia.
  - exists 0%nat. split_and!; [lia | by rewrite Z.shiftr_0_r | done | lia].
Qed.

Lemma skip_bits_spec fuel offset tmp :
  Z.land tmp (Z.ones (Z.of_nat fuel)) <> 0 ->
  exists c, skip_bits fuel offset tmp = (offset + c)%nat /\
    Z.testbit tmp (Z.of_nat c) = true /\ forall j, (j < c)%nat -> Z.testbit tmp (Z.of_nat j) = false.
Proof.
  revert offset tmp. induction fuel as [| fuel IH]; intros offset tmp Ht.
  { by rewrite Z.land_0_r in Ht. }
  cbn [skip_bits]. change 1 with (Z.ones 1) at 1. rewrite Z.land_ones by lia.
  change (2 ^ 1) with 2. rewrite <- Z.bit0_mod.
  destruct (Z.testbit tmp 0) eqn:E0; cbn [Z.b2z].
  - exists 0%nat. split_and!; [simpl; lia | done | lia].
  - destruct (IH (offset + 1)%nat (Z.shiftr tmp 1)) as (c & -> & Hb & Hz).
    + intros E. apply Ht. apply Z.bits_inj'. intros j Hj.
      rewrite Z.land_spec, Z.testbit_ones_nonneg, Z.bits_0 by lia.
      destruct (Z.ltb_spec j (Z.of_nat (S fuel))); [| by rewrite andb_false_r].
      rewrite andb_true_r. destruct (decide (j = 0)) as [-> |]; [done |].
      replace j with (j - 1 + 1) by lia. rewrite <- Z.shiftr_spec by lia.
      apply (testbit_land_low _ (Z.of_nat fuel)); [done | lia].
    + exists (S c). rewrite Z.shiftr_spec in Hb by lia. split_and!; [simpl; lia | |].
      * rewrite <- Hb. f_equal. lia.
      * intros j Hj. destruct j as [| j]; [done |]. specialize (Hz j ltac:(lia)).
        rewrite Z.shiftr_spec in Hz by lia. rewrite <- Hz. f_equal. lia.
Qed.

Lemma find_finish_spec offset tmp :
  is_u32 tmp -> tmp <> 0 ->
  exists c, find_finish offset tmp = (offset + c)%nat /\ (c < 32)%nat /\
    Z.testbit tmp (Z.of_nat c) = true /\ forall j, (j < c)%nat -> Z.testbit tmp (Z.of_nat j) = false.
Proof.
  intros Hu Hne. unfold find_finish.
  destruct (skip_bytes_spec 4 offset tmp) as (c & Hc).
  { change (2 ^ (8 * Z.of_nat 4)) with 4294967296. unfold is_u32 in Hu. lia. }
  destruct (skip_bytes 4 offset tmp) as [o t]. destruct Hc as (-> & -> & Hl & Hz).
  destruct (skip_bits_spec 8 (offset + c) (Z.shiftr tmp (Z.of_nat c)) Hl) as (d & -> & Hb & Hz').
  rewrite Z.shiftr_spec in Hb by lia. exists (c + d)%nat. split; [lia |]. split; [| split].
  - destruct (decide (c + d < 32)%nat); [done |].
    rewrite u32_bits_above in Hb by (done || lia). done.
  - rewrite <- Hb. f_equal. lia.
  - intros j Hj. destruct (decide (j < c)%nat); [by apply Hz |].
    specialize (Hz' (j - c)%nat ltac:(lia)). rewrite Z.shiftr_spec in Hz' by lia.
    rewrite <- Hz'. f_equal. lia.
Qed.

(** The scan stops at the first word that is not zero, when there is one. *)
Lemma next_word_spec m addr k fuel :
  (addr <= k < length m)%nat -> m !!! k <> 0 -> (k - addr < fuel)%nat ->
  exists a, next_word fuel m addr = Some (a, m !!! a) /\ (addr <= a <= k)%nat /\ m !!! a <> 0 /\
    forall j, (addr <= j < a)%nat -> m !!! j = 0.
Proof.
  intros Hk Hne. revert addr Hk. induction fuel as [| fuel IH]; intros addr Hk Hf; [lia |].
  cbn [next_word]. unfold load. rewrite (list_lookup_lookup_total_lt m addr) by lia.
  cbn [mbind option_bind]. destruct (Z.eqb_spec (m !!! addr) 0) as [E | E].
  - assert (addr <> k) by (intros ->; done).
    destruct (IH (S addr)) as (a & -> & Ha & Hna & Hz); [lia | lia |]. exists a. split_and!; [done | lia | lia | done |].
    intros j Hj. destruct (decide (j = addr)) as [-> |]; [done |]. apply Hz. lia.
  - exists addr. split_and!; try (done || lia).
Qed.

(** Where the search really starts. *)
Definition search_start (offset : nat) : nat :=
  if (offset =? 0)%nat then 0 else if (offset mod 32 =? 0)%nat then offset + 32 else offset.

Definition is_first_from (m : wmem) (p : ptr) (start r : nat) : Prop :=
  (start <= r)%nat /\ bit m p r = true /\ forall i, (start <= i < r)%nat -> bit m p i = false.

(** The scan from word [a] gives the first bit set at or after [32 * a]. *)
Lemma scan_words m p a i :
  words_ok m -> (32 * a <= i)%nat -> (p + i / 32 < length m)%nat -> bit m p i = true ->
  exists r, (x ← next_word (S (length m)) m (p + a); let '(addr, tmp) := x in
             Some (find_finish ((addr - p) * 32)%nat tmp)) = Some r /\ is_first_from m p (32 * a) r.
Proof.
  intros Hok Hi Hlen Hb. pose proof (Nat.div_mod_eq i 32). pose proof (mod32_lt i).
  destruct (next_word_spec m (p + a) (p + i / 32) (S (length m))) as (b & -> & Hab & Hne & Hz);
    [lia | | lia |].
  { intros E. unfold bit in Hb. rewrite E, Z.bits_0 in Hb. done. }
  cbn [mbind option_bind].
  assert (is_u32 (m !!! b)) as Hu.
  { apply (Forall_lookup_1 _ _ b _ Hok). apply list_lookup_lookup_total_lt. lia. }
  destruct (find_finish_spec ((b - p) * 32) (m !!! b) Hu Hne) as (c & -> & Hc & Hbit & Hlow).
  eexists. split; [reflexivity |]. replace ((b - p) * 32 + c)%nat with (32 * (b - p) + c)%nat by lia.
  split_and!; [lia | rewrite bit_word by done; by replace (p + (b - p))%nat with b by lia |].
  intros j Hj. pose proof (Nat.div_mod_eq j 32). pose proof (mod32_lt j). unfold bit.
  destruct (decide (p + j / 32 < b)%nat).
  - rewrite Hz by lia. apply Z.bits_0.
  - replace (p + j / 32)%nat with b by lia. apply Hlow. lia.
Qed.

(** [find_next_bit] returns the first bit set at or after the position its
    search starts from, whenever the memory holds one. That position is [offset],
    except for a non-zero [offset] that is a multiple of 32: then the word of
    [offset] is skipped and the search starts 32 bits further on. [size] plays no
    role: the scan stops only at a set bit. *)
Lemma find_next_bit_spec m p size offset i :
  words_ok m -> (search_start offset <= i)%nat -> (p + i / 32 < length m)%nat -> bit m p i = true ->
  exists r, find_next_bit m p size offset = Some r /\ is_first_from m p (search_start offset) r.
Proof.
  intros Hok Hi Hlen Hb. unfold find_next_bit, search_start in *.
  pose proof (Nat.div_mod_eq offset 32) as Eo. pose proof (mod32_lt offset).
  destruct (Nat.eqb_spec offset 0) as [-> | Hne].
  { destruct (scan_words m p 0 i) as (r & Hr & Hf); [done | lia | done | done |].
    rewrite Nat.add_0_r in Hr. by exists r. }
  destruct (Nat.eqb_spec (offset mod 32) 0) as [E | E].
  { destruct (scan_words m p (S (offset / 32)) i) as (r & Hr & Hf); [done | lia | done | done |].
    rewrite Nat.add_succ_r in Hr. exists r. split; [done |].
    by replace (offset + 32)%nat with (32 * S (offset / 32))%nat by lia. }
  pose proof (Nat.div_mod_eq i 32). pose proof (mod32_lt i).
  unfold load. rewrite list_lookup_lookup_total_lt by lia. cbn [mbind option_bind].
  set (w := m !!! (p + offset / 32)%nat).
  assert (forall j, (j < 32 - offset mod 32)%nat ->
    Z.testbit (Z.shiftr w (Z.of_nat (offset mod 32))) (Z.of_nat j) = bit m p (offset + j)) as Hsh.
  { intros j Hj. rewrite Z.shiftr_spec by lia.
    replace (offset + j)%nat with (32 * (offset / 32) + (offset mod 32 + j))%nat by lia.
    rewrite bit_word by lia. f_equal. lia. }
  assert (is_u32 w) as Hu.
  { apply (Forall_lookup_1 _ _ (p + offset / 32)%nat _ Hok), list_lookup_lookup_total_lt. lia. }
  destruct (Z.eqb_spec (Z.shiftr w (Z.of_nat (offset mod 32))) 0) as [Ez | Ez]; cbn [negb].
  - destruct (scan_words m p (S (offset / 32)) i) as (r & Hr & Hf1 & Hf2 & Hf3); [done | | done | done |].
    { destruct (decide (32 * S (offset / 32) <= i)%nat); [done |].
      assert (bit m p i = false); [| congruence].
      replace i with (offset + (i - offset))%nat by lia. rewrite <- Hsh by lia. by rewrite Ez, Z.bits_0. }
    rewrite Nat.add_succ_r in Hr. exists r. split; [done |]. split_and!; [lia | done |].
    intros j Hj. destruct (decide (32 * S (offset / 32) <= j)%nat); [apply Hf3; lia |].
    replace j with (offset + (j - offset))%nat by lia. rewrite <- Hsh by lia. by rewrite Ez, Z.bits_0.
  - destruct (find_finish_spec offset (Z.shiftr w (Z.of_nat (offset mod 32)))) as (c & -> & Hc & Hbit & Hlow).
    { by apply shiftr_u32. }
    { done. }
    assert (c < 32 - offset mod 32)%nat.
    { destruct (decide (c < 32 - offset mod 32)%nat); [done |].
      rewrite Z.shiftr_spec in Hbit by lia.
      rewrite (u32_bits_above w) in Hbit; [done | done |]. lia. }
    eexists. split; [reflexivity |]. split_and!; [lia | by rewrite <- Hsh |].
    intros j Hj. replace j with (offset + (j - offset))%nat by lia. rewrite <- Hsh by lia. apply Hlow. lia.
Qed.
