(* ===== verification/Cred.v ===== *)
(** * Credentials and capabilities: kernel/sys.c, kernel/user.c, kernel/capability.c, security/commoncap.c

    The identity of a process (user and group ids, capability sets) and the system
    calls that change it, with the capability hooks that the Motorola security
    module installs ([.capable], [.capset_check], [.task_post_setuid], ...; the
    hooks it leaves out are those of security/dummy.c, which return 0). The state
    is the list of the tasks, in the order the kernel's loops visit them, with the
    calling task singled out, and the table of the users' structures. Ids and
    capability sets are 32-bit words; [(uid_t)-1] is [NOID]. *)

From stdpp Require Import gmap.
From S2P Require Import Prelude.

(** ** Tasks *)

(** The fields of [struct task_struct] that these calls read or write; [dumpable]
    is [mm->dumpable], [superpriv] the flag [PF_SUPERPRIV], [user] the uid of the
    [struct user_struct] it points to, [nproc] its [RLIMIT_NPROC], [security] the
    word that the Motorola module keeps in [task->security]. *)
Record task := mk_task {
  pid : Z; tgid : Z; pgrp : Z;
  uid : Z; euid : Z; suid : Z; fsuid : Z;
  gid : Z; egid : Z; sgid : Z; fsgid : Z;
  cap_effective : Z; cap_inheritable : Z; cap_permitted : Z;
  keep_capabilities : bool;
  dumpable : bool;
  superpriv : bool;
  user : Z;
  nproc : Z;
  security : Z;
}.

Definition set_uid (v : Z) (t : task) : task :=
  mk_task (pid t) (tgid t) (pgrp t) v (euid t) (suid t) (fsuid t) (gid t) (egid t) (sgid t) (fsgid
    t) (cap_effective t) (cap_inheritable t) (cap_permitted t) (keep_capabilities t) (dumpable
    t) (superpriv t) (user t) (nproc t) (security t).
Definition set_euid (v : Z) (t : task) : task :=
  mk_task (pid t) (tgid t) (pgrp t) (uid t) v (suid t) (fsuid t) (gid t) (egid t) (sgid t) (fsgid t)
    (cap_effective t) (cap_inheritable t) (cap_permitted t) (keep_capabilities t) (dumpable t)
    (superpriv t) (user t) (nproc t) (security t).
Definition set_suid (v : Z) (t : task) : task :=
  mk_task (pid t) (tgid t) (pgrp t) (uid t) (euid t) v (fsuid t) (gid t) (egid t) (sgid t) (fsgid t)
    (cap_effective t) (cap_inheritable t) (cap_permitted t) (keep_capabilities t) (dumpable t)
    (superpriv t) (user t) (nproc t) (security t).
Definition set_fsuid (v : Z) (t : task) : task :=
  mk_task (pid t) (tgid t) (pgrp t) (uid t) (euid t) (suid t) v (gid t) (egid t) (sgid t) (fsgid t)
    (cap_effective t) (cap_inheritable t) (cap_permitted t) (keep_capabilities t) (dumpable t)
    (superpriv t) (user t) (nproc t) (security t).
Definition set_gid (v : Z) (t : task) : task :=
  mk_task (pid t) (tgid t) (pgrp t) (uid t) (euid t) (suid t) (fsuid t) v (egid t) (sgid t) (fsgid
    t) (cap_effective t) (cap_inheritable t) (cap_permitted t) (keep_capabilities t) (dumpable
    t) (superpriv t) (user t) (nproc t) (security t).
Definition set_egid (v : Z) (t : task) : task :=
  mk_task (pid t) (tgid t) (pgrp t) (uid t) (euid t) (suid t) (fsuid t) (gid t) v (sgid t) (fsgid t)
    (cap_effective t) (cap_inheritable t) (cap_permitted t) (keep_capabilities t) (dumpable t)
    (superpriv t) (user t) (nproc t) (security t).
Definition set_sgid (v : Z) (t : task) : task :=
  mk_task (pid t) (tgid t) (pgrp t) (uid t) (euid t) (suid t) (fsuid t) (gid t) (egid t) v (fsgid t)
    (cap_effective t) (cap_inheritable t) (cap_permitted t) (keep_capabilities t) (dumpable t)
    (superpriv t) (user t) (nproc t) (security t).
Definition set_fsgid (v : Z) (t : task) : task :=
  mk_task (pid t) (tgid t) (pgrp t) (uid t) (euid t) (suid t) (fsuid t) (gid t) (egid t) (sgid t) v
    (cap_effective t) (cap_inheritable t) (cap_permitted t) (keep_capabilities t) (dumpable t)
    (superpriv t) (user t) (nproc t) (security t).
Definition set_cap_effective (v : Z) (t : task) : task :=
  mk_task (pid t) (tgid t) (pgrp t) (uid t) (euid t) (suid t) (fsuid t) (gid t) (egid t) (sgid t)
    (fsgid t) v (cap_inheritable t) (cap_permitted t) (keep_capabilities t) (dumpable t)
    (superpriv t) (user t) (nproc t) (security t).
Definition set_cap_inheritable (v : Z) (t : task) : task :=
  mk_task (pid t) (tgid t) (pgrp t) (uid t) (euid t) (suid t) (fsuid t) (gid t) (egid t) (sgid t)
    (fsgid t) (cap_effective t) v (cap_permitted t) (keep_capabilities t) (dumpable t)
    (superpriv t) (user t) (nproc t) (security t).
Definition set_cap_permitted (v : Z) (t : task) : task :=
  mk_task (pid t) (tgid t) (pgrp t) (uid t) (euid t) (suid t) (fsuid t) (gid t) (egid t) (sgid t)
    (fsgid t) (cap_effective t) (cap_inheritable t) v (keep_capabilities t) (dumpable t)
    (superpriv t) (user t) (nproc t) (security t).
Definition set_keep_capabilities (v : bool) (t : task) : task :=
  mk_task (pid t) (tgid t) (pgrp t) (uid t) (euid t) (suid t) (fsuid t) (gid t) (egid t) (sgid t)
    (fsgid t) (cap_effective t) (cap_inheritable t) (cap_permitted t) v (dumpable t)
    (superpriv t) (user t) (nproc t) (security t).
Definition set_dumpable (v : bool) (t : task) : task :=
  mk_task (pid t) (tgid t) (pgrp t) (uid t) (euid t) (suid t) (fsuid t) (gid t) (egid t) (sgid t)
    (fsgid t) (cap_effective t) (cap_inheritable t) (cap_permitted t) (keep_capabilities t) v
    (superpriv t) (user t) (nproc t) (security t).
Definition set_superpriv (v : bool) (t : task) : task :=
  mk_task (pid t) (tgid t) (pgrp t) (uid t) (euid t) (suid t) (fsuid t) (gid t) (egid t) (sgid t)
    (fsgid t) (cap_effective t) (cap_inheritable t) (cap_permitted t) (keep_capabilities t)
    (dumpable t) v (user t) (nproc t) (security t).
Definition set_user_ptr (v : Z) (t : task) : task :=
  mk_task (pid t) (tgid t) (pgrp t) (uid t) (euid t) (suid t) (fsuid t) (gid t) (egid t) (sgid t)
    (fsgid t) (cap_effective t) (cap_inheritable t) (cap_permitted t) (keep_capabilities t)
    (dumpable t) (superpriv t) v (nproc t) (security t).
Definition set_security (v : Z) (t : task) : task :=
  mk_task (pid t) (tgid t) (pgrp t) (uid t) (euid t) (suid t) (fsuid t) (gid t) (egid t) (sgid t)
    (fsgid t) (cap_effective t) (cap_inheritable t) (cap_permitted t) (keep_capabilities t)
    (dumpable t) (superpriv t) (user t) (nproc t) v.


Record user_struct := mk_user { __count : Z; processes : Z }.

Record kstate := mk_kstate {
  before : list task;
  current : task;
  after : list task;
  users : gmap Z user_struct;
}.

(** The operations are state transformers. *)
Definition M (A : Type) : Type := kstate -> A * kstate.
Definition ret {A} (x : A) : M A := fun k => (x, k).
Definition bind {A B} (m : M A) (f : A -> M B) : M B := fun k => let '(x, k) := m k in f x k.
Notation "x <- m ;; f" := (bind m (fun x => f)) (at level 100, m at next level, right associativity) : kernel_scope.
Notation "m ;;; f" := (bind m (fun _ => f)) (at level 100, right associativity) : kernel_scope.

Definition get_current : M task := fun k => (current k, k).
Definition set_current (t : task) (k : kstate) : kstate := mk_kstate (before k) t (after k) (users k).
Definition update (f : task -> task) : M unit := fun k => (tt, set_current (f (current k)) k).
Definition when (b : bool) (m : M unit) : M unit := if b then m else ret tt.

Definition NOID : Z := 4294967295.

(** ** Capability sets (include/linux/capability.h, with CONFIG_MOT_FEAT_SECURE_CLOCK) *)

Definition CAP_SETGID := 6.
Definition CAP_SETUID := 7.
Definition CAP_SETPCAP := 8.
Definition CAP_SYS_PTRACE := 19.
Definition CAP_SYS_ADMIN := 21.
Definition CAP_SYS_TIME := 25.
Definition CAP_SECURE_CLOCK := 29.
Definition CAP_FS_MASK := 0x1f.

Definition CAP_TO_MASK (x : Z) : Z := Z.shiftl 1 x.
Definition CAP_FULL_SET : Z := not32 (CAP_TO_MASK CAP_SECURE_CLOCK).
Definition CAP_INIT_EFF_SET : Z := not32 (Z.lor (CAP_TO_MASK CAP_SETPCAP) (CAP_TO_MASK CAP_SECURE_CLOCK)).
Definition CAP_INIT_INH_SET : Z := 0.

Definition cap_raised (c flag : Z) : bool := negb (Z.land c (CAP_TO_MASK flag) =? 0).
Definition cap_raise (c flag : Z) : Z := Z.lor c (CAP_TO_MASK flag).
Definition cap_lower (c flag : Z) : Z := Z.land c (not32 (CAP_TO_MASK flag)).
Definition cap_combine (a b : Z) : Z := Z.lor a b.
Definition cap_intersect (a b : Z) : Z := Z.land a b.
Definition cap_issubset (a set : Z) : bool := Z.land a (not32 set) =? 0.

(** ** security/commoncap.c *)

Definition cap_capable (tsk : task) (cap : Z) : Z :=
  if cap_raised (cap_effective tsk) cap then 0 else - EPERM.

(** security/security.c *)
Definition capable (cap : Z) : M bool :=
  tsk <- get_current ;;
  if negb (cap_capable tsk cap =? 0) then ret false
  else update (set_superpriv true) ;;; ret true.

(** A test that ends with [!capable(cap)] after an [&&]: [capable] is called, and
    sets [PF_SUPERPRIV], only when the rest of the condition holds. *)
Definition unless_capable (cond : bool) (cap : Z) : M bool :=
  if cond then c <- capable cap ;; ret (negb c) else ret false.

Definition cap_settime : M Z :=
  c <- capable CAP_SYS_TIME ;; ret (if c then 0 else - EPERM).

Definition cap_ptrace (child : task) : M Z :=
  t <- get_current ;;
  d <- unless_capable (negb (cap_issubset (cap_permitted child) (cap_permitted t))) CAP_SYS_PTRACE ;;
  ret (if (d : bool) then - EPERM else 0).

(** The sets are passed as a triple: effective, inheritable, permitted. *)
Definition capsets : Type := Z * Z * Z.

Definition cap_capget (target : task) : capsets :=
  (cap_effective target, cap_inheritable target, cap_permitted target).

Definition cap_capset_check (cur target : task) (d : capsets) : Z :=
  let '(effective, inheritable, permitted) := d in
  if negb (cap_issubset inheritable (cap_combine (cap_inheritable target) (cap_permitted cur)))
  then - EPERM
  else if negb (cap_issubset permitted (cap_combine (cap_permitted target) (cap_permitted cur)))
  then - EPERM
  else if negb (cap_issubset effective permitted) then - EPERM
  else 0.

Definition cap_capset_set (d : capsets) (target : task) : task :=
  let '(effective, inheritable, permitted) := d in
  set_cap_permitted permitted (set_cap_inheritable inheritable (set_cap_effective effective target)).

(** [issecure(X)] with [SECUREBITS_DEFAULT] 0: the bit [X] of [securebits]. *)
Definition SECURE_NOROOT := 0.
Definition SECURE_NO_SETUID_FIXUP := 2.
Definition issecure (securebits x : Z) : bool := Z.testbit securebits x.

Definition cap_emulate_setxuid (old_ruid old_euid old_suid : Z) : M unit :=
  cur <- get_current ;;
  when (((old_ruid =? 0) || (old_euid =? 0) || (old_suid =? 0)) &&
        (negb (uid cur =? 0) && negb (euid cur =? 0) && negb (suid cur =? 0)) &&
        negb (keep_capabilities cur))
       (update (fun t => set_cap_effective 0 (set_cap_permitted 0 t))) ;;;
  when ((old_euid =? 0) && negb (euid cur =? 0)) (update (set_cap_effective 0)) ;;;
  when (negb (old_euid =? 0) && (euid cur =? 0))
       (update (fun t => set_cap_effective (cap_permitted t) t)).

Definition LSM_SETID_ID := 1.
Definition LSM_SETID_RE := 2.
Definition LSM_SETID_RES := 4.
Definition LSM_SETID_FS := 8.

Definition cap_task_post_setuid (securebits old_ruid old_euid old_suid flags : Z) : M Z :=
  if (flags =? LSM_SETID_RE) || (flags =? LSM_SETID_ID) || (flags =? LSM_SETID_RES) then
    when (negb (issecure securebits SECURE_NO_SETUID_FIXUP))
         (cap_emulate_setxuid old_ruid old_euid old_suid) ;;; ret 0
  else if flags =? LSM_SETID_FS then
    let old_fsuid := old_ruid in
    when (negb (issecure securebits SECURE_NO_SETUID_FIXUP))
      (cur <- get_current ;;
       when ((old_fsuid =? 0) && negb (fsuid cur =? 0))
         (update (fun t => set_cap_effective (Z.land (cap_effective t) (not32 CAP_FS_MASK)) t)) ;;;
       when (negb (old_fsuid =? 0) && (fsuid cur =? 0))
         (update (fun t => set_cap_effective
            (Z.lor (cap_effective t) (Z.land (cap_permitted t) CAP_FS_MASK)) t))) ;;; ret 0
  else ret (- EINVAL).

Definition cap_task_reparent_to_init (p : task) : task :=
  set_keep_capabilities false
    (set_cap_permitted CAP_FULL_SET
      (set_cap_inheritable CAP_INIT_INH_SET (set_cap_effective CAP_INIT_EFF_SET p))).

Definition cap_bprm_secureexec (cur : task) : bool :=
  negb (euid cur =? uid cur) || negb (egid cur =? gid cur).

Definition cap_syslog (type : Z) : M Z :=
  d <- unless_capable (negb (type =? 3) && negb (type =? 10)) CAP_SYS_ADMIN ;;
  ret (if (d : bool) then - EPERM else 0).

(** The hooks of security/dummy.c for the calls of this file. *)
Definition security_task_setuid (id0 id1 id2 flags : Z) : Z := 0.
Definition security_task_setgid (id0 id1 id2 flags : Z) : Z := 0.

(** ** kernel/user.c

    [kmem_ok] is whether the slab allocator finds memory. A user is identified by
    its uid: the hash table holds at most one structure per uid. *)

Definition with_users (f : gmap Z user_struct -> gmap Z user_struct) (k : kstate) : kstate :=
  mk_kstate (before k) (current k) (after k) (f (users k)).

Definition uid_hash_find (u : Z) : M bool := fun k =>
  match users k !! u with
  | Some up => (true, with_users <[u := mk_user (__count up + 1) (processes up)]> k)
  | None => (false, k)
  end.

Definition find_user (u : Z) : M bool := uid_hash_find u.

Definition free_uid (u : Z) : M unit := fun k =>
  match users k !! u with
  | Some up =>
      if __count up - 1 =? 0 then (tt, with_users (delete u) k)
      else (tt, with_users <[u := mk_user (__count up - 1) (processes up)]> k)
  | None => (tt, k)
  end.

Definition alloc_uid (kmem_ok : bool) (u : Z) : M bool :=
  found <- uid_hash_find u ;;
  if (found : bool) then ret true
  else if negb kmem_ok then ret false
  else fun k => (true, with_users <[u := mk_user 1 0]> k).

Definition add_processes (u n : Z) : M unit := fun k =>
  match users k !! u with
  | Some up => (tt, with_users <[u := mk_user (__count up) (processes up + n)]> k)
  | None => (tt, k)
  end.

Definition switch_uid (new_user : Z) : M unit :=
  cur <- get_current ;;
  let old_user := user cur in
  add_processes new_user 1 ;;;
  add_processes old_user (-1) ;;;
  update (set_user_ptr new_user) ;;;
  free_uid old_user.

(** ** kernel/sys.c *)

Section Syscalls.
(** [securebits] is the global of kernel/capability.c. *)
Context (securebits : Z) (kmem_ok : bool).

Definition set_user (new_ruid : Z) (dumpclear : bool) : M Z :=
  ok <- alloc_uid kmem_ok new_ruid ;;
  if negb ok then ret (- EAGAIN)
  else fun k =>
    let n := match users k !! new_ruid with Some up => processes up | None => 0 end in
    if (nproc (current k) <=? n) && negb (new_ruid =? 0) then
      (free_uid new_ruid ;;; ret (- EAGAIN)) k
    else
      (switch_uid new_ruid ;;;
       when dumpclear (update (set_dumpable false)) ;;;
       update (set_uid new_ruid) ;;;
       ret 0) k.

(** [cond && set_user(...) < 0] *)
Definition set_user_fails (cond : bool) (new_ruid : Z) (dumpclear : bool) : M bool :=
  if cond then r <- set_user new_ruid dumpclear ;; ret (r <? 0) else ret false.

Definition sys_setreuid (ruid euid_ : Z) : M Z :=
  let retval := security_task_setuid ruid euid_ NOID LSM_SETID_RE in
  if negb (retval =? 0) then ret retval else
  cur <- get_current ;;
  let old_ruid := uid cur in
  let old_euid := euid cur in
  let old_suid := suid cur in
  let new_ruid := if negb (ruid =? NOID) then ruid else old_ruid in
  let new_euid := if negb (euid_ =? NOID) then euid_ else old_euid in
  d <- unless_capable (negb (ruid =? NOID) &&
         (negb (old_ruid =? ruid) && negb (euid cur =? ruid))) CAP_SETUID ;;
  if (d : bool) then ret (- EPERM) else
  d <- unless_capable (negb (euid_ =? NOID) &&
         (negb (old_ruid =? euid_) && negb (euid cur =? euid_) && negb (suid cur =? euid_))) CAP_SETUID ;;
  if (d : bool) then ret (- EPERM) else
  f <- set_user_fails (negb (new_ruid =? old_ruid)) new_ruid (negb (new_euid =? old_euid)) ;;
  if (f : bool) then ret (- EAGAIN) else
  when (negb (new_euid =? old_euid)) (update (set_dumpable false)) ;;;
  update (fun t => set_fsuid new_euid (set_euid new_euid t)) ;;;
  when (negb (ruid =? NOID) || (negb (euid_ =? NOID) && negb (euid_ =? old_ruid)))
    (update (fun t => set_suid (euid t) t)) ;;;
  update (fun t => set_fsuid (euid t) t) ;;;
  cap_task_post_setuid securebits old_ruid old_euid old_suid LSM_SETID_RE.

Definition sys_setuid (uid_ : Z) : M Z :=
  cur <- get_current ;;
  let old_euid := euid cur in
  let retval := security_task_setuid uid_ NOID NOID LSM_SETID_ID in
  if negb (retval =? 0) then ret retval else
  let old_ruid := uid cur in
  let old_suid := suid cur in
  (* the new saved uid, or the error *)
  r <- (c <- capable CAP_SETUID ;;
        if (c : bool) then
          f <- set_user_fails (negb (uid_ =? old_ruid)) uid_ (negb (old_euid =? uid_)) ;;
          if (f : bool) then ret (inl (- EAGAIN)) else ret (inr uid_)
        else if negb (uid_ =? uid cur) && negb (uid_ =? old_suid) then ret (inl (- EPERM))
        else ret (inr old_suid)) ;;
  match r with
  | inl err => ret err
  | inr new_suid =>
      when (negb (old_euid =? uid_)) (update (set_dumpable false)) ;;;
      update (fun t => set_fsuid uid_ (set_euid uid_ t)) ;;;
      update (set_suid new_suid) ;;;
      cap_task_post_setuid securebits old_ruid old_euid old_suid LSM_SETID_ID
  end.

(** [id != -1] and [id] is none of the three ids of the task. *)
Definition foreign (id r e s : Z) : bool :=
  negb (id =? NOID) && negb (id =? r) && negb (id =? e) && negb (id =? s).

Definition sys_setresuid (ruid euid_ suid_ : Z) : M Z :=
  cur <- get_current ;;
  let old_ruid := uid cur in
  let old_euid := euid cur in
  let old_suid := suid cur in
  let retval := security_task_setuid ruid euid_ suid_ LSM_SETID_RES in
  if negb (retval =? 0) then ret retval else
  c <- capable CAP_SETUID ;;
  if negb c && (foreign ruid old_ruid old_euid old_suid ||
                foreign euid_ old_ruid old_euid old_suid ||
                foreign suid_ old_ruid old_euid old_suid)
  then ret (- EPERM) else
  f <- set_user_fails (negb (ruid =? NOID) && negb (ruid =? uid cur)) ruid (negb (euid_ =? euid cur)) ;;
  if (f : bool) then ret (- EAGAIN) else
  when (negb (euid_ =? NOID))
    (when (negb (euid_ =? euid cur)) (update (set_dumpable false)) ;;;
     update (set_euid euid_)) ;;;
  update (fun t => set_fsuid (euid t) t) ;;;
  when (negb (suid_ =? NOID)) (update (set_suid suid_)) ;;;
  cap_task_post_setuid securebits old_ruid old_euid old_suid LSM_SETID_RES.

Definition sys_setfsuid (uid_ : Z) : M Z :=
  cur <- get_current ;;
  let old_fsuid := fsuid cur in
  if negb (security_task_setuid uid_ NOID NOID LSM_SETID_FS =? 0) then ret old_fsuid else
  d <- unless_capable (negb (uid_ =? uid cur) && negb (uid_ =? euid cur) &&
                       negb (uid_ =? suid cur) && negb (uid_ =? fsuid cur)) CAP_SETUID ;;
  when (negb d)
    (when (negb (uid_ =? old_fsuid)) (update (set_dumpable false)) ;;;
     update (set_fsuid uid_)) ;;;
  cap_task_post_setuid securebits old_fsuid NOID NOID LSM_SETID_FS ;;;
  ret old_fsuid.

Definition sys_setregid (rgid egid_ : Z) : M Z :=
  cur <- get_current ;;
  let old_rgid := gid cur in
  let old_egid := egid cur in
  let retval := security_task_setgid rgid egid_ NOID LSM_SETID_RE in
  if negb (retval =? 0) then ret retval else
  d <- unless_capable (negb (rgid =? NOID) &&
         negb ((old_rgid =? rgid) || (egid cur =? rgid))) CAP_SETGID ;;
  if (d : bool) then ret (- EPERM) else
  d <- unless_capable (negb (egid_ =? NOID) &&
         negb ((old_rgid =? egid_) || (egid cur =? egid_) || (sgid cur =? egid_))) CAP_SETGID ;;
  if (d : bool) then ret (- EPERM) else
  let new_rgid := if negb (rgid =? NOID) then rgid else old_rgid in
  let new_egid := if negb (egid_ =? NOID) then egid_ else old_egid in
  when (negb (new_egid =? old_egid)) (update (set_dumpable false)) ;;;
  when (negb (rgid =? NOID) || (negb (egid_ =? NOID) && negb (egid_ =? old_rgid)))
    (update (set_sgid new_egid)) ;;;
  update (fun t => set_gid new_rgid (set_egid new_egid (set_fsgid new_egid t))) ;;;
  ret 0.

Definition sys_setgid (gid_ : Z) : M Z :=
  cur <- get_current ;;
  let old_egid := egid cur in
  let retval := security_task_setgid gid_ NOID NOID LSM_SETID_ID in
  if negb (retval =? 0) then ret retval else
  c <- capable CAP_SETGID ;;
  if (c : bool) then
    when (negb (old_egid =? gid_)) (update (set_dumpable false)) ;;;
    update (fun t => set_gid gid_ (set_egid gid_ (set_sgid gid_ (set_fsgid gid_ t)))) ;;;
    ret 0
  else if (gid_ =? gid cur) || (gid_ =? sgid cur) then
    when (negb (old_egid =? gid_)) (update (set_dumpable false)) ;;;
    update (fun t => set_egid gid_ (set_fsgid gid_ t)) ;;;
    ret 0
  else ret (- EPERM).

Definition sys_setresgid (rgid egid_ sgid_ : Z) : M Z :=
  let retval := security_task_setgid rgid egid_ sgid_ LSM_SETID_RES in
  if negb (retval =? 0) then ret retval else
  c <- capable CAP_SETGID ;;
  cur <- get_current ;;
  if negb c && (foreign rgid (gid cur) (egid cur) (sgid cur) ||
                foreign egid_ (gid cur) (egid cur) (sgid cur) ||
                foreign sgid_ (gid cur) (egid cur) (sgid cur))
  then ret (- EPERM) else
  when (negb (egid_ =? NOID))
    (when (negb (egid_ =? egid cur)) (update (set_dumpable false)) ;;;
     update (set_egid egid_)) ;;;
  update (fun t => set_fsgid (egid t) t) ;;;
  when (negb (rgid =? NOID)) (update (set_gid rgid)) ;;;
  when (negb (sgid_ =? NOID)) (update (set_sgid sgid_)) ;;;
  ret 0.

Definition sys_setfsgid (gid_ : Z) : M Z :=
  cur <- get_current ;;
  let old_fsgid := fsgid cur in
  if negb (security_task_setgid gid_ NOID NOID LSM_SETID_FS =? 0) then ret old_fsgid else
  d <- unless_capable (negb (gid_ =? gid cur) && negb (gid_ =? egid cur) &&
                       negb (gid_ =? sgid cur) && negb (gid_ =? fsgid cur)) CAP_SETGID ;;
  when (negb d)
    (when (negb (gid_ =? old_fsgid)) (update (set_dumpable false)) ;;;
     update (set_fsgid gid_)) ;;;
  ret old_fsgid.
End Syscalls.

(** ** kernel/capability.c *)

Definition _LINUX_CAPABILITY_VERSION := 0x19980330.
Definition ESRCH := 3.

(** All tasks, in the order of the loops, and the state with [f] applied to the
    tasks that [sel] selects, one after the other; [f] is given the calling task as
    it is at that moment. [hit] is whether the body ran, [done] whether it set the
    target's sets. *)
Definition all_tasks (k : kstate) : list task := before k ++ current k :: after k.

(** One round of the loops: [security_capset_check], then [security_capset_set]. *)
Definition capset_one (cur : task) (d : capsets) (t : task) : task :=
  if cap_capset_check cur t d =? 0 then cap_capset_set d t else t.

Definition capset_ok (cur : task) (d : capsets) (t : task) : bool := cap_capset_check cur t d =? 0.

Definition capset_many (sel : task -> bool) (d : capsets) : M Z := fun k =>
  let go cur t := if sel t then capset_one cur d t else t in
  let ok cur t := sel t && capset_ok cur d t in
  let cur' := go (current k) (current k) in
  let found := existsb sel (all_tasks k) in
  let changed := existsb (ok (current k)) (before k) || ok (current k) (current k) ||
                 existsb (ok cur') (after k) in
  (if negb found || changed then 0 else - EPERM,
   mk_kstate (go (current k) <$> before k) cur' (go cur' <$> after k) (users k)).

(** The tasks whose loop body runs: [while_each_thread(g, target)], entered with
    [target = g], goes through the other threads of the group leader [g]. *)
Definition in_pg (ts : list task) (pg : Z) (t : task) : bool :=
  negb (pid t =? tgid t) &&
  existsb (fun g => (pid g =? tgid g) && (pgrp g =? pg) && (tgid g =? tgid t)) ts.

Definition cap_set_pg (pg : Z) (d : capsets) : M Z := fun k =>
  capset_many (in_pg (all_tasks k) pg) d k.

Definition cap_set_all (d : capsets) : M Z := fun k =>
  capset_many (fun t => negb (pid t =? pid (current k)) && negb (pid t =? 1)) d k.

(** [find_task_by_pid] *)
Definition find_task_by_pid (p : Z) (k : kstate) : option task :=
  find (fun t => pid t =? p) (all_tasks k).

Definition set_task (p : Z) (f : task -> task) (k : kstate) : kstate :=
  let g t := if pid t =? p then f t else t in
  mk_kstate (g <$> before k) (g (current k)) (g <$> after k) (users k).

(** The words read from user space are [None] when the access faults; [put] is
    whether the version can be written back. *)
Definition sys_capget (version : option Z) (put : bool) (pid_ : option Z) (copy_out : bool)
  : M (Z * option capsets) := fun k =>
  match version with
  | None => ((- EFAULT, None), k)
  | Some v =>
      if negb (v =? _LINUX_CAPABILITY_VERSION) then
        ((if put then - EINVAL else - EFAULT, None), k)
      else
        match pid_ with
        | None => ((- EFAULT, None), k)
        | Some p =>
            if p <? 0 then ((- EINVAL, None), k)
            else
              match (if negb (p =? 0) && negb (p =? pid (current k)) then find_task_by_pid p k
                     else Some (current k)) with
              | None => ((- ESRCH, None), k)
              | Some target =>
                  if copy_out then ((0, Some (cap_capget target)), k) else ((- EFAULT, None), k)
              end
        end
  end.

Definition clear_secure_clock (d : capsets) : capsets :=
  let '(e, i, p) := d in
  let m := not32 (CAP_TO_MASK CAP_SECURE_CLOCK) in
  (Z.land e m, Z.land i m, Z.land p m).

Definition sys_capset (version : option Z) (put : bool) (pid_ : option Z) (data : option capsets) : M Z :=
  match version with
  | None => ret (- EFAULT)
  | Some v =>
      if negb (v =? _LINUX_CAPABILITY_VERSION) then ret (if put then - EINVAL else - EFAULT)
      else
        match pid_ with
        | None => ret (- EFAULT)
        | Some p =>
            cur <- get_current ;;
            d <- unless_capable (negb (p =? 0) && negb (p =? pid cur)) CAP_SETPCAP ;;
            if (d : bool) then ret (- EPERM)
            else
              match data with
              | None => ret (- EFAULT)
              | Some data =>
                  let data := clear_secure_clock data in
                  fun k =>
                    match (if (0 <? p) && negb (p =? pid (current k)) then find_task_by_pid p k
                           else Some (current k)) with
                    | None => (- ESRCH, k)
                    | Some target =>
                        if p <? 0 then
                          if p =? -1 then cap_set_all data k else cap_set_pg (- p) data k
                        else
                          let r := cap_capset_check (current k) target data in
                          (r, if r =? 0 then set_task (pid target) (cap_capset_set data) k else k)
                    end
              end
        end
  end.

(** * Correctness *)

(** ** Capability sets as sets of bits *)

(** The task has the capability in its effective set. *)
Definition has (cap : Z) (t : task) : bool := Z.testbit (cap_effective t) cap.

Definition cap_sub (a b : Z) : Prop :=
  forall i, 0 <= i -> Z.testbit a i = true -> Z.testbit b i = true.

#[export] Instance cap_sub_preorder : PreOrder cap_sub.
Proof. split; [by intros a i | intros a b c H1 H2 i Hi Ha; auto]. Qed.

Lemma testbit_cap_mask flag i : 0 <= flag -> 0 <= i -> Z.testbit (CAP_TO_MASK flag) i = (i =? flag).
Proof.
  intros Hf Hi. unfold CAP_TO_MASK. rewrite Z.shiftl_1_l.
  destruct (Z.eqb_spec i flag) as [-> |]; [by apply Z.pow2_bits_true |]. by apply Z.pow2_bits_false.
Qed.

Lemma cap_raised_bit c flag : 0 <= flag -> cap_raised c flag = Z.testbit c flag.
Proof.
  intros Hf. unfold cap_raised. destruct (Z.testbit c flag) eqn:E.
  - apply negb_true_iff, Z.eqb_neq. intros H0.
    apply (f_equal (fun z => Z.testbit z flag)) in H0.
    rewrite Z.land_spec, E, testbit_cap_mask, Z.eqb_refl, Z.bits_0 in H0 by done. done.
  - apply negb_false_iff, Z.eqb_eq, Z.bits_inj'. intros i Hi.
    rewrite Z.land_spec, testbit_cap_mask, Z.bits_0 by done.
    destruct (Z.eqb_spec i flag) as [-> |]; [by rewrite E | apply andb_false_r].
Qed.

Lemma cap_issubset_spec a b : is_u32 a -> cap_issubset a b = true <-> cap_sub a b.
Proof.
  intros Ha. unfold cap_issubset. rewrite Z.eqb_eq. split.
  - intros H i Hi Hb. apply (f_equal (fun z => Z.testbit z i)) in H.
    unfold not32 in H. rewrite Z.land_spec, u32_testbit, Z.lnot_spec, Z.bits_0, Hb in H by done.
    destruct (Z.ltb_spec i 32); [by destruct (Z.testbit b i) |].
    by rewrite u32_bits_above in Hb.
  - intros H. apply Z.bits_inj'. intros i Hi. unfold not32.
    rewrite Z.land_spec, u32_testbit, Z.lnot_spec, Z.bits_0 by done.
    destruct (Z.testbit a i) eqn:E; [| done]. rewrite (H i Hi E). by rewrite andb_false_r.
Qed.

Lemma cap_sub_0 a : cap_sub 0 a.
Proof. intros i _. by rewrite Z.bits_0. Qed.
Lemma cap_sub_lor_l a b : cap_sub a (Z.lor a b).
Proof. intros i Hi H. by rewrite Z.lor_spec, H. Qed.
Lemma cap_sub_lor_r a b : cap_sub b (Z.lor a b).
Proof. intros i Hi H. by rewrite Z.lor_spec, H, orb_true_r. Qed.
Lemma cap_sub_land_l a b : cap_sub (Z.land a b) a.
Proof. intros i Hi. rewrite Z.land_spec. intros [? _]%andb_true_iff. done. Qed.
Lemma cap_sub_land_r a b : cap_sub (Z.land a b) b.
Proof. intros i Hi. rewrite Z.land_spec. intros [_ ?]%andb_true_iff. done. Qed.
Lemma cap_sub_lor a b c : cap_sub a c -> cap_sub b c -> cap_sub (Z.lor a b) c.
Proof. intros Ha Hb i Hi. rewrite Z.lor_spec. intros [? | ?]%orb_true_iff; auto. Qed.
Lemma cap_sub_lor_mono a b c d : cap_sub a c -> cap_sub b d -> cap_sub (Z.lor a b) (Z.lor c d).
Proof. intros Ha Hb. apply cap_sub_lor; etrans; eauto using cap_sub_lor_l, cap_sub_lor_r. Qed.
Create HintDb caps.
#[export] Hint Resolve cap_sub_0 cap_sub_lor_l cap_sub_lor_r cap_sub_land_l cap_sub_land_r cap_sub_lor : caps.
#[export] Hint Extern 1 (cap_sub ?a ?a) => reflexivity : caps.

(** The sets of a task are 32-bit words. *)
Definition caps_u32 (t : task) : Prop :=
  is_u32 (cap_effective t) /\ is_u32 (cap_inheritable t) /\ is_u32 (cap_permitted t).

(** ** The calls as transformations of the calling task

    A task is compared up to the flags that the id calls clear or raise. *)
Definition touch (b : bool) (k : kstate) : kstate := set_current (set_superpriv b (current k)) k.

Lemma capable_eq cap k :
  0 <= cap -> exists b, capable cap k = (has cap (current k), touch b k).
Proof.
  intros Hc. unfold capable, has, bind, get_current, cap_capable, update, ret, touch.
  rewrite cap_raised_bit by done. destruct (Z.testbit (cap_effective (current k)) cap); simpl.
  - by exists true.
  - exists (superpriv (current k)). by destruct k as [? [] ? ?].
Qed.

Lemma unless_capable_eq cond cap k :
  0 <= cap -> exists b, unless_capable cond cap k = (cond && negb (has cap (current k)), touch b k).
Proof.
  intros Hc. unfold unless_capable. destruct cond.
  - unfold bind. destruct (capable_eq cap k Hc) as (b & ->). by exists b.
  - exists (superpriv (current k)). unfold ret, touch. by destruct k as [? [] ? ?].
Qed.

Lemma when_dumpable c k :
  exists b, when c (update (set_dumpable false)) k = (tt, set_current (set_dumpable b (current k)) k).
Proof.
  unfold when, update, ret. destruct c; [by exists false |].
  exists (dumpable (current k)). by destruct k as [? [] ? ?].
Qed.

(** What [set_user] does to the calling task. *)
Lemma set_user_current kmem u d k :
  exists r k', set_user kmem u d k = (r, k') /\ before k' = before k /\ after k' = after k /\
    ((r = - EAGAIN /\ current k' = current k) \/
     (r = 0 /\ exists b, current k' = set_uid u (set_dumpable b (set_user_ptr u (current k))))).
Proof.
  assert (forall v k0, exists k1, free_uid v k0 = (tt, k1) /\ current k1 = current k0 /\
    before k1 = before k0 /\ after k1 = after k0) as Hfree.
  { intros v k0. unfold free_uid. destruct (users k0 !! v); [case_match |]; by repeat eexists. }
  assert (forall v n k0, exists k1, add_processes v n k0 = (tt, k1) /\ current k1 = current k0 /\
    before k1 = before k0 /\ after k1 = after k0) as Hadd.
  { intros v n k0. unfold add_processes. destruct (users k0 !! v); by repeat eexists. }
  assert (exists ok k1, alloc_uid kmem u k = (ok, k1) /\ current k1 = current k /\
    before k1 = before k /\ after k1 = after k) as (ok & k1 & Ha & Hc1 & Hb1 & Hf1).
  { unfold alloc_uid, bind, uid_hash_find. destruct (users k !! u); simpl; [by repeat eexists |].
    destruct kmem; by repeat eexists. }
  unfold set_user. unfold bind at 1. rewrite Ha. destruct ok; simpl.
  2: { repeat eexists; try done. left. done. }
  case_match eqn:Hlim.
  - unfold bind, ret. destruct (Hfree u k1) as (k2 & -> & ? & ? & ?).
    eexists _, _. split; [reflexivity |]. split_and!; try congruence. left. split; [done | congruence].
  - unfold switch_uid, bind, get_current, update, ret. simpl.
    destruct (Hadd u 1 k1) as (k2 & -> & ? & ? & ?). destruct (Hadd (user (current k1)) (-1) k2) as (k3 & -> & ? & ? & ?).
    destruct (Hfree (user (current k1)) (set_current (set_user_ptr u (current k3)) k3)) as (k4 & -> & ? & ? & ?).
    destruct (when_dumpable d k4) as (b & Hd). unfold update in Hd. rewrite Hd. simpl in *.
    eexists _, _. split; [reflexivity |]. split_and!; simpl; try congruence. right. split; [done |].
    exists b. congruence.
Qed.

Lemma set_user_fails_current kmem cond u d k :
  exists f k', set_user_fails kmem cond u d k = (f, k') /\ before k' = before k /\ after k' = after k /\
    (if f then cond = true /\ current k' = current k
     else (cond = false /\ current k' = current k) \/
          (cond = true /\ exists b, current k' = set_uid u (set_dumpable b (set_user_ptr u (current k))))).
Proof.
  unfold set_user_fails. destruct cond.
  - unfold bind. destruct (set_user_current kmem u d k) as (r & k' & -> & ? & ? & [[-> ?] | [-> ?]]).
    + eexists true, k'. split_and!; done.
    + eexists false, k'. split_and!; try done. right. done.
  - eexists false, k. split_and!; try done. by left.
Qed.

(** What the capability fix-up after an id call may do: only shrink the permitted
    set, and raise in the effective set only what is permitted. *)
Record fixed_caps (t t' : task) : Prop := {
  fc_perm : cap_sub (cap_permitted t') (cap_permitted t);
  fc_eff : cap_sub (cap_effective t') (Z.lor (cap_effective t) (cap_permitted t));
  fc_sub : cap_sub (cap_effective t) (cap_permitted t) -> cap_sub (cap_effective t') (cap_permitted t');
  fc_u32 : caps_u32 t -> caps_u32 t';
  fc_rest : t' = set_cap_effective (cap_effective t') (set_cap_permitted (cap_permitted t') t);
}.

Lemma fixed_caps_refl t : fixed_caps t t.
Proof. destruct t. split; simpl; auto with caps. Qed.

Lemma fixed_caps_trans a b c : fixed_caps a b -> fixed_caps b c -> fixed_caps a c.
Proof.
  intros [P1 E1 S1 U1 R1] [P2 E2 S2 U2 R2]. split; auto.
  - by etrans.
  - etrans; [exact E2 |]. apply cap_sub_lor; [done |]. etrans; [exact P1 | apply cap_sub_lor_r].
  - rewrite R2, R1. by destruct a.
Qed.

Lemma is_u32_0 : is_u32 0.
Proof. unfold is_u32. lia. Qed.

Lemma fixed_clear t : fixed_caps t (set_cap_effective 0 (set_cap_permitted 0 t)).
Proof. destruct t. split; simpl; auto with caps. intros (? & ? & ?). unfold caps_u32. simpl. auto using is_u32_0. Qed.

Lemma fixed_clear_eff t : fixed_caps t (set_cap_effective 0 t).
Proof. destruct t. split; simpl; auto with caps. intros (? & ? & ?). unfold caps_u32. simpl. auto using is_u32_0. Qed.

Lemma fixed_raise t : fixed_caps t (set_cap_effective (cap_permitted t) t).
Proof. destruct t. split; simpl; auto with caps. intros (? & ? & ?). unfold caps_u32. simpl in *. auto. Qed.

Lemma fixed_drop_fs t : fixed_caps t (set_cap_effective (Z.land (cap_effective t) (not32 CAP_FS_MASK)) t).
Proof.
  destruct t. split; simpl.
  - reflexivity.
  - etrans; [apply cap_sub_land_l | apply cap_sub_lor_l].
  - intros H. etrans; [apply cap_sub_land_l | done].
  - intros (? & ? & ?). unfold caps_u32. simpl in *. split_and!; try done. apply land_u32; [done |]. apply u32_range.
  - done.
Qed.

Lemma fixed_raise_fs t :
  fixed_caps t (set_cap_effective (Z.lor (cap_effective t) (Z.land (cap_permitted t) CAP_FS_MASK)) t).
Proof.
  destruct t. split; simpl.
  - reflexivity.
  - apply cap_sub_lor; [apply cap_sub_lor_l |]. etrans; [apply cap_sub_land_l | apply cap_sub_lor_r].
  - intros H. apply cap_sub_lor; [done | apply cap_sub_land_l].
  - intros (? & ? & ?). unfold caps_u32. simpl in *. split_and!; try done.
    apply lor_u32; [done |]. apply land_u32; [done |]. by unfold CAP_FS_MASK.
  - done.
Qed.
#[export] Hint Resolve fixed_caps_refl fixed_clear fixed_clear_eff fixed_raise fixed_drop_fs fixed_raise_fs : caps.

(** [keeps m k R]: [m] changes the calling task only, by [R]. *)
Definition keeps {A} (m : M A) (k : kstate) (R : task -> task -> Prop) : Prop :=
  exists x t', m k = (x, set_current t' k) /\ R (current k) t'.

Lemma set_current_id k : set_current (current k) k = k.
Proof. by destruct k. Qed.

Lemma keeps_when_update c f k (R : task -> task -> Prop) :
  (forall t, R t t) -> (forall t, R t (f t)) -> keeps (when c (update f)) k R.
Proof.
  intros Hr Hf. unfold keeps, when, update, ret. destruct c; eexists tt, _.
  - split; [reflexivity | apply Hf].
  - split; [by rewrite set_current_id | apply Hr].
Qed.

Lemma keeps_bind {A B} (m : M A) (f : A -> M B) k (R : task -> task -> Prop) :
  (forall a b c, R a b -> R b c -> R a c) -> keeps m k R -> (forall x k', keeps (f x) k' R) ->
  keeps (bind m f) k R.
Proof.
  intros Ht (x & t1 & Hm & H1) Hf. destruct (Hf x (set_current t1 k)) as (y & t2 & Hf' & H2).
  exists y, t2. unfold bind. rewrite Hm, Hf'. split; [done | by eapply Ht].
Qed.

Lemma post_setuid_fixed sb r e s flags k : keeps (cap_task_post_setuid sb r e s flags) k fixed_caps.
Proof.
  assert (forall A (x : A) k0, keeps (ret x) k0 fixed_caps) as Hret.
  { intros. eexists x, _. split; [by rewrite set_current_id | auto with caps]. }
  assert (forall k0, keeps (cap_emulate_setxuid r e s) k0 fixed_caps) as Hem.
  { intros k0. unfold cap_emulate_setxuid, bind at 1, get_current.
    apply keeps_bind; [by apply fixed_caps_trans | apply keeps_when_update; auto with caps | intros _ k1].
    apply keeps_bind; [by apply fixed_caps_trans | apply keeps_when_update; auto with caps | intros _ k2].
    apply keeps_when_update; auto with caps. }
  unfold cap_task_post_setuid. case_match; [| case_match; [| apply Hret]].
  - apply keeps_bind; [by apply fixed_caps_trans | | intros; apply Hret].
    unfold when. case_match; [apply Hem | apply Hret].
  - apply keeps_bind; [by apply fixed_caps_trans | | intros; apply Hret].
    unfold when at 1. case_match; [| apply Hret]. unfold bind at 1, get_current.
    apply keeps_bind; [by apply fixed_caps_trans | apply keeps_when_update; auto with caps | intros _ k1].
    apply keeps_when_update; auto with caps.
Qed.

(** ** What an id call may do to the calling task *)

Record id_step (t t' : task) : Prop := {
  st_pid : pid t' = pid t;
  st_inh : cap_inheritable t' = cap_inheritable t;
  st_sec : security t' = security t;
  st_perm : cap_sub (cap_permitted t') (cap_permitted t);
  st_eff : cap_sub (cap_effective t') (Z.lor (cap_effective t) (cap_permitted t));
  st_sub : cap_sub (cap_effective t) (cap_permitted t) -> cap_sub (cap_effective t') (cap_permitted t');
  st_u32 : caps_u32 t -> caps_u32 t';
  st_uid : has CAP_SETUID t = false ->
    uid t' ∈ [uid t; euid t; suid t] /\ euid t' ∈ [uid t; euid t; suid t] /\
    suid t' ∈ [uid t; euid t; suid t] /\ fsuid t' ∈ [uid t; euid t; suid t; fsuid t];
  st_gid : has CAP_SETGID t = false ->
    gid t' ∈ [gid t; egid t; sgid t] /\ egid t' ∈ [gid t; egid t; sgid t] /\
    sgid t' ∈ [gid t; egid t; sgid t] /\ fsgid t' ∈ [gid t; egid t; sgid t; fsgid t];
}.

(** A step that leaves the capability sets alone, followed by the fix-up. *)
Lemma id_step_fix t t1 t2 :
  pid t1 = pid t -> security t1 = security t -> cap_inheritable t1 = cap_inheritable t ->
  cap_permitted t1 = cap_permitted t -> cap_effective t1 = cap_effective t ->
  (has CAP_SETUID t = false ->
    uid t1 ∈ [uid t; euid t; suid t] /\ euid t1 ∈ [uid t; euid t; suid t] /\
    suid t1 ∈ [uid t; euid t; suid t] /\ fsuid t1 ∈ [uid t; euid t; suid t; fsuid t]) ->
  (has CAP_SETGID t = false ->
    gid t1 ∈ [gid t; egid t; sgid t] /\ egid t1 ∈ [gid t; egid t; sgid t] /\
    sgid t1 ∈ [gid t; egid t; sgid t] /\ fsgid t1 ∈ [gid t; egid t; sgid t; fsgid t]) ->
  fixed_caps t1 t2 -> id_step t t2.
Proof.
  intros Hp Hs Hi Hpe He Hu Hg [P E S U R].
  rewrite Hpe in P, S. rewrite Hpe, He in E. rewrite He in S.
  assert (caps_u32 t -> caps_u32 t2) as U' by (intros H; apply U; unfold caps_u32; rewrite Hi, Hpe, He; exact H).
  rewrite R in *. destruct t1. simpl in *. split; simpl; auto.
Qed.

Lemma id_step_touched t t1 :
  t1 = set_superpriv (superpriv t1) t -> id_step t t1.
Proof.
  intros ->. destruct t. split; simpl; auto with caps; intros _; rewrite !elem_of_cons; tauto.
Qed.

Lemma bind_eq {A B} (m : M A) (f : A -> M B) k x k' : m k = (x, k') -> bind m f k = f x k'.
Proof. intros H. unfold bind. by rewrite H. Qed.

Lemma bind_current {B} (f : task -> M B) k : bind get_current f k = f (current k) k.
Proof. done. Qed.

Lemma bind_update {B} f (g : unit -> M B) k :
  bind (update f) g k = g tt (set_current (f (current k)) k).
Proof. done. Qed.

Lemma bind_ret {A B} (x : A) (f : A -> M B) k : bind (ret x) f k = f x k.
Proof. done. Qed.

Definition id_result (m : M Z) (k : kstate) : Prop :=
  exists v k', m k = (v, k') /\ before k' = before k /\ after k' = after k /\
    id_step (current k) (current k').

(** An error before anything was changed. *)
Lemma id_result_err v b k k' (m : M Z) :
  m k = (v, k') -> k' = touch b k -> id_result m k.
Proof.
  intros Hm ->. exists v, (touch b k). split_and!; try done. by apply id_step_touched.
Qed.

(** From a permission test that came out false, the membership it stands for. *)
Ltac bool_cases :=
  repeat match goal with H : context [?a =? ?b] |- _ => destruct (Z.eqb_spec a b); subst; simpl in * end;
  rewrite ?andb_true_r in *; try discriminate; rewrite ?elem_of_cons; tauto.

Lemma denied2 d id a b c :
  negb (id =? NOID) && (negb (a =? id) && negb (b =? id)) && negb c = false -> c = false ->
  id = NOID \/ id ∈ [a; b; d].
Proof. intros H ->. bool_cases. Qed.

Lemma denied3 id a b d c :
  negb (id =? NOID) && (negb (a =? id) && negb (b =? id) && negb (d =? id)) && negb c = false -> c = false ->
  id = NOID \/ id ∈ [a; b; d].
Proof. intros H ->. bool_cases. Qed.

Lemma not_foreign id r e s : foreign id r e s = false -> id = NOID \/ id ∈ [r; e; s].
Proof. unfold foreign. intros H. bool_cases. Qed.

Lemma new_id_in id d (l : list Z) : d ∈ l -> (id = NOID \/ id ∈ l) -> (if negb (id =? NOID) then id else d) ∈ l.
Proof. intros Hd [-> | H]; [by rewrite Z.eqb_refl |]. by case_match. Qed.

Lemma in_first3 (x a b c d : Z) : x ∈ [a; b; c] -> x ∈ [a; b; c; d].
Proof. rewrite !elem_of_cons. tauto. Qed.

(** [listed]: an element that appears in an explicit list. *)
Ltac listed := rewrite ?elem_of_cons; tauto.

Lemma setreuid_step sb kmem r e k : id_result (sys_setreuid sb kmem r e) k.
Proof.
  unfold id_result, sys_setreuid, security_task_setuid. cbn [Z.eqb negb]. rewrite bind_current.
  destruct (unless_capable_eq (negb (r =? NOID) && (negb (uid (current k) =? r) &&
    negb (euid (current k) =? r))) CAP_SETUID k ltac:(done)) as (b1 & E1).
  rewrite (bind_eq _ _ _ _ _ E1). match type of E1 with _ = (?d, _) => destruct d eqn:D1 end.
  { eapply (id_result_err _ b1 k _ (fun _ => _)); reflexivity. }
  pose proof (denied2 (suid (current k)) _ _ _ _ D1) as I1. clear D1.
  destruct (unless_capable_eq (negb (e =? NOID) && (negb (uid (current k) =? e) &&
    negb (euid (current k) =? e) && negb (suid (current k) =? e))) CAP_SETUID (touch b1 k) ltac:(done)) as (b2 & E2).
  rewrite (bind_eq _ _ _ _ _ E2). match type of E2 with _ = (?d, _) => destruct d eqn:D2 end.
  { eapply (id_result_err _ b2 k _ (fun _ => _)); reflexivity. }
  pose proof (denied3 _ _ _ _ _ D2) as I2. clear D2.
  change (has CAP_SETUID (current (touch b1 k))) with (has CAP_SETUID (current k)) in I2.
  match goal with |- context [bind (set_user_fails kmem ?c ?u ?d) _ ?k0] =>
    destruct (set_user_fails_current kmem c u d k0) as (f & k1 & E3 & Hb & Ha & Hf);
    rewrite (bind_eq _ _ _ _ _ E3) end.
  destruct f.
  { destruct Hf as [_ Hf]. eexists _, _. split; [reflexivity |]. split_and!; [done | done |].
    rewrite Hf. apply id_step_touched. done. }
  match goal with |- context [bind (when ?c (update (set_dumpable false))) _ ?k0] =>
    destruct (when_dumpable c k0) as (b3 & E4); rewrite (bind_eq _ _ _ _ _ E4) end.
  rewrite bind_update.
  set (k2 := set_current _ (set_current _ k1)).
  assert (exists s3, when (negb (r =? NOID) || negb (e =? NOID) && negb (e =? uid (current k)))
    (update (fun t => set_suid (euid t) t)) k2 = (tt, set_current (set_suid s3 (current k2)) k2) /\
    (s3 = suid (current k2) \/ s3 = euid (current k2))) as (s3 & E5 & Hs3).
  { unfold when. destruct (negb (r =? NOID) || _); eexists; [split; [reflexivity | by right] |].
    split; [| by left]. unfold ret. by destruct k2 as [? [] ? ?]. }
  rewrite (bind_eq _ _ _ _ _ E5), bind_update.
  match goal with |- context [cap_task_post_setuid sb ?a ?b ?c ?fl ?k0] =>
    destruct (post_setuid_fixed sb a b c fl k0) as (v & t' & E6 & Hfix); rewrite E6 end.
  eexists _, _. split; [reflexivity |]. split; [done |]. split; [done |].
  set (t := current k) in *. subst k2. simpl in *.
  assert (exists r' u' d', current k1 = set_uid r' (set_dumpable d' (set_user_ptr u' (set_superpriv b2 t))) /\
    (r' = uid t \/ (r' = if negb (r =? NOID) then r else uid t))) as (r' & u' & d' & Ek1 & Hr').
  { destruct Hf as [[_ ->] | (_ & b & ->)].
    - exists (uid t), (user t), (dumpable t). split; [by subst t; destruct (current k) | by left].
    - eexists _, _, _. split; [reflexivity | by right]. }
  rewrite Ek1 in Hfix, Hs3. simpl in Hs3.
  eapply id_step_fix; [.. | exact Hfix]; simpl; try done.
  - intros Hno. specialize (I1 Hno). specialize (I2 Hno).
    assert ((if negb (r =? NOID) then r else uid t) ∈ [uid t; euid t; suid t])
      by (apply new_id_in; [listed | exact I1]).
    assert ((if negb (e =? NOID) then e else euid t) ∈ [uid t; euid t; suid t])
      by (apply new_id_in; [listed | exact I2]).
    split_and!; [destruct Hr' as [-> | ->]; [listed | done] | done | | by apply in_first3].
    destruct Hs3 as [-> | ->]; [listed | done].
  - intros _. split_and!; listed.
Qed.

Lemma bind_assoc {A B C} (m : M A) (f : A -> M B) (g : B -> M C) k :
  bind (bind m f) g k = bind m (fun x => bind (f x) g) k.
Proof. unfold bind. by destruct (m k). Qed.

(** One statement of a call at the head of the goal. *)
Ltac run_dumpable :=
  match goal with |- context [bind (when ?c (update (set_dumpable false))) _ ?k0] =>
    let b := fresh "b" in let E := fresh "E" in
    destruct (when_dumpable c k0) as (b & E); rewrite (bind_eq _ _ _ _ _ E); clear E end.
Ltac run_capable :=
  match goal with |- context [bind (capable ?c) _ ?k0] =>
    let b := fresh "b" in let E := fresh "E" in
    destruct (capable_eq c k0 ltac:(done)) as (b & E); rewrite (bind_eq _ _ _ _ _ E); clear E end.
Ltac run_unless D :=
  match goal with |- context [bind (unless_capable ?c ?cap) _ ?k0] =>
    let b := fresh "b" in let E := fresh "E" in
    destruct (unless_capable_eq c cap k0 ltac:(done)) as (b & E); rewrite (bind_eq _ _ _ _ _ E);
    match type of E with _ = (?d, _) => destruct d eqn:D end; clear E end.
Ltac run_user Hf :=
  match goal with |- context [bind (set_user_fails ?km ?c ?u ?d) _ ?k0] =>
    let f := fresh "f" in let k1 := fresh "k1" in let E := fresh "E" in
    destruct (set_user_fails_current km c u d k0) as (f & k1 & E & ? & ? & Hf);
    rewrite (bind_eq _ _ _ _ _ E); clear E; destruct f end.
Ltac run_post Hfix :=
  match goal with |- context [cap_task_post_setuid ?sb ?a ?b ?c ?fl ?k0] =>
    let v := fresh "v" in let t' := fresh "t'" in let E := fresh "E" in
    destruct (post_setuid_fixed sb a b c fl k0) as (v & t' & E & Hfix) end.

(** Ending a branch: an error with the task at most touched, or the fix-up. *)
Ltac end_touched :=
  eexists _, _; split; [reflexivity |]; split_and!; [done | done |]; apply id_step_touched; done.

Lemma setuid_step sb kmem u k : id_result (sys_setuid sb kmem u) k.
Proof.
  unfold id_result, sys_setuid, security_task_setuid. cbn [Z.eqb negb].
  rewrite bind_current, bind_assoc. run_capable.
  destruct (has CAP_SETUID (current k)) eqn:Hcap.
  - rewrite bind_assoc. run_user Hf.
    { rewrite bind_ret. eexists _, _. split; [reflexivity |]. split_and!; [done | done |].
      rewrite (proj2 Hf). by apply id_step_touched. }
    rewrite bind_ret. run_dumpable. rewrite !bind_update. run_post Hfix. rewrite E.
    eexists _, _. split; [reflexivity |]. split_and!; [done | done |]. simpl in Hfix.
    destruct Hf as [[_ Hk1] | (_ & d & Hk1)]; rewrite Hk1 in Hfix;
      (eapply id_step_fix; [.. | exact Hfix]; try done; [by rewrite Hcap | intros _; simpl; split_and!; listed]).
  - destruct (negb (u =? uid (current k)) && negb (u =? suid (current k))) eqn:Hd; rewrite bind_ret.
    { end_touched. }
    run_dumpable. rewrite !bind_update. run_post Hfix. rewrite E.
    eexists _, _. split; [reflexivity |]. split_and!; [done | done |]. simpl in Hfix.
    eapply id_step_fix; [.. | exact Hfix]; try done; intros _; simpl; [| split_and!; listed].
    assert (u ∈ [uid (current k); suid (current k)]) as Hin by bool_cases.
    rewrite !elem_of_cons in Hin. split_and!; listed.
Qed.

Lemma setresuid_step sb kmem r e s k : id_result (sys_setresuid sb kmem r e s) k.
Proof.
  unfold id_result, sys_setresuid, security_task_setuid. cbn [Z.eqb negb].
  rewrite bind_current. run_capable. set (t := current k).
  destruct (negb (has CAP_SETUID t) && _) eqn:Hd; [end_touched |].
  assert (has CAP_SETUID t = false -> (r = NOID \/ r ∈ [uid t; euid t; suid t]) /\
    (e = NOID \/ e ∈ [uid t; euid t; suid t]) /\ (s = NOID \/ s ∈ [uid t; euid t; suid t])) as Hids.
  { intros Hno. rewrite Hno in Hd. cbn [negb andb] in Hd.
    apply orb_false_iff in Hd as [[? ?]%orb_false_iff ?]. split_and!; by apply not_foreign. }
  clear Hd. run_user Hf.
  { eexists _, _. split; [reflexivity |]. split_and!; [done | done |].
    rewrite (proj2 Hf). by apply id_step_touched. }
  assert (exists d e', when (negb (e =? NOID))
     (bind (when (negb (e =? euid t)) (update (set_dumpable false))) (fun _ => update (set_euid e))) k1 =
     (tt, set_current (set_euid e' (set_dumpable d (current k1))) k1) /\
     e' = (if negb (e =? NOID) then e else euid (current k1))) as (d & e' & E & He').
  { unfold when at 1. destruct (negb (e =? NOID)).
    - run_dumpable. eexists _, _. split; reflexivity.
    - exists (dumpable (current k1)), (euid (current k1)). split; [| reflexivity].
      unfold ret. by destruct k1 as [? [] ? ?]. }
  rewrite (bind_eq _ _ _ _ _ E), bind_update. set (k2 := set_current _ (set_current _ k1)).
  assert (when (negb (s =? NOID)) (update (set_suid s)) k2 =
    (tt, set_current (set_suid (if negb (s =? NOID) then s else suid (current k2)) (current k2)) k2)) as E2.
  { unfold when. destruct (negb (s =? NOID)); [done |]. unfold ret. by destruct k2 as [? [] ? ?]. }
  rewrite (bind_eq _ _ _ _ _ E2). run_post Hfix. rewrite E0.
  eexists _, _. split; [reflexivity |]. split_and!; [done | done |]. subst k2. simpl in Hfix, Hf.
  assert (exists r' u' d', current k1 = set_uid r' (set_dumpable d' (set_user_ptr u' (set_superpriv b t))) /\
    r' = if negb (r =? NOID) then r else uid t) as (r' & u' & d' & Ek1 & Hr').
  { destruct Hf as [[Hc ->] | (Hc & b' & ->)].
    - exists (uid t), (user t), (dumpable t). split; [by subst t; destruct (current k) |].
      apply andb_false_iff in Hc as [Hc | Hc]; [by rewrite Hc |].
      apply negb_false_iff, Z.eqb_eq in Hc. rewrite Hc. by destruct (negb (uid t =? NOID)).
    - eexists _, _, _. split; [reflexivity |]. apply andb_true_iff in Hc as [-> _]. done. }
  rewrite Ek1 in Hfix, He'. subst e' r'.
  eapply id_step_fix; [.. | exact Hfix]; try done; [| intros _; simpl; split_and!; listed].
  intros Hno. destruct (Hids Hno) as (Hr & He & Hss). cbn [uid euid suid fsuid set_suid set_fsuid set_euid set_dumpable set_uid set_user_ptr set_superpriv].
  split_and!; try (apply new_id_in; [listed | done]). apply in_first3, new_id_in; [listed | done].
Qed.

Lemma setfsuid_step sb u k : id_result (sys_setfsuid sb u) k.
Proof.
  unfold id_result, sys_setfsuid, security_task_setuid. cbn [Z.eqb negb]. rewrite bind_current.
  set (t := current k).
  match goal with |- context [bind (unless_capable ?c ?cap) _ ?k0] =>
    destruct (unless_capable_eq c cap k0 ltac:(done)) as (b & E); rewrite (bind_eq _ _ _ _ _ E); clear E;
    remember (c && negb (has cap (current k0))) as d eqn:Hd end.
  assert (exists f d', when (negb d) (bind (when (negb (u =? fsuid t)) (update (set_dumpable false)))
      (fun _ => update (set_fsuid u))) (touch b k) =
    (tt, set_current (set_fsuid f (set_dumpable d' (set_superpriv b t))) k) /\
    (f = fsuid t \/ (d = false /\ f = u))) as (f & d' & E & Hfs).
  { unfold when at 1. destruct d; cbv [negb].
    - exists (fsuid t), (dumpable t). split; [| by left]. unfold touch, ret. subst t. by destruct (current k).
    - match goal with |- context [when ?c (update (set_dumpable false))] =>
        destruct (when_dumpable c (touch b k)) as (b0 & E0) end.
      exists u, b0. rewrite (bind_eq _ _ _ _ _ E0). split; [done | by right]. }
  rewrite (bind_eq _ _ _ _ _ E). match goal with |- context [bind (cap_task_post_setuid ?s ?x ?y ?z ?w) _ ?k0] =>
    destruct (post_setuid_fixed s x y z w k0) as (v & t' & E0 & Hfix) end.
  rewrite (bind_eq _ _ _ _ _ E0).
  eexists _, _. split; [reflexivity |]. split_and!; [done | done |]. simpl in Hfix.
  eapply id_step_fix; [.. | exact Hfix]; try done; intros Hno; simpl; [| split_and!; listed].
  fold t. split_and!; [listed.. |]. destruct Hfs as [-> | [-> ->]]; [listed |].
  fold t in Hd. rewrite Hno in Hd. symmetry in Hd. bool_cases.
Qed.

Lemma setregid_step r e k : id_result (sys_setregid r e) k.
Proof.
  unfold id_result, sys_setregid, security_task_setgid. cbn [Z.eqb negb]. rewrite bind_current.
  set (t := current k).
  run_unless D1; [end_touched |]. run_unless D2; [end_touched |].
  change (has CAP_SETGID (current (touch b k))) with (has CAP_SETGID t) in D2. fold t in D1.
  assert (has CAP_SETGID t = false -> (r = NOID \/ r ∈ [gid t; egid t; sgid t]) /\
    (e = NOID \/ e ∈ [gid t; egid t; sgid t])) as Hids.
  { intros Hno. rewrite Hno in D1, D2. clear -D1 D2.
    split; [clear D2; bool_cases | clear D1; bool_cases]. }
  clear D1 D2. run_dumpable. set (new_egid := if negb (e =? NOID) then e else egid t).
  match goal with |- context [bind (when ?c (update (set_sgid new_egid))) _ ?k0] =>
    assert (exists s, when c (update (set_sgid new_egid)) k0 = (tt, set_current (set_sgid s (current k0)) k0) /\
      (s = sgid t \/ s = new_egid)) as (s & E & Hs) end.
  { unfold when. destruct (negb (r =? NOID) || _); eexists.
    - split; [reflexivity | by right].
    - split; [| by left]. unfold ret. subst t. by destruct k as [? [] ? ?]. }
  rewrite (bind_eq _ _ _ _ _ E), bind_update.
  eexists _, _. split; [reflexivity |]. split_and!; [done | done |].
  eapply id_step_fix; [.. | apply fixed_caps_refl]; try done; intros Hno; simpl; fold t; [split_and!; listed |].
  destruct (Hids Hno) as [Hr He].
  assert (new_egid ∈ [gid t; egid t; sgid t]) by (apply new_id_in; [listed | done]).
  split_and!; [apply new_id_in; [listed | done] | done | destruct Hs as [-> | ->]; [listed | done] | by apply in_first3].
Qed.

Lemma setgid_step g k : id_result (sys_setgid g) k.
Proof.
  unfold id_result, sys_setgid, security_task_setgid. cbn [Z.eqb negb]. rewrite bind_current. run_capable.
  destruct (has CAP_SETGID (current k)) eqn:Hcap.
  - run_dumpable. rewrite bind_update. eexists _, _. split; [reflexivity |]. split_and!; [done | done |].
    eapply id_step_fix; [.. | apply fixed_caps_refl]; try done; [intros _; simpl; split_and!; listed | by rewrite Hcap].
  - destruct ((g =? gid (current k)) || (g =? sgid (current k))) eqn:Hd; [| end_touched].
    run_dumpable. rewrite bind_update. eexists _, _. split; [reflexivity |]. split_and!; [done | done |].
    eapply id_step_fix; [.. | apply fixed_caps_refl]; try done; intros _; simpl; [split_and!; listed |].
    apply orb_true_iff in Hd as [->%Z.eqb_eq | ->%Z.eqb_eq]; split_and!; listed.
Qed.

Lemma when_update_if c (f : task -> task) k (d : task -> task) :
  d (current k) = current k -> when c (update f) k = (tt, set_current ((if c then f else d) (current k)) k).
Proof. intros Hd. unfold when, update, ret. destruct c; [done |]. by rewrite Hd, set_current_id. Qed.

Lemma setresgid_step r e s k : id_result (sys_setresgid r e s) k.
Proof.
  unfold id_result, sys_setresgid, security_task_setgid. cbn [Z.eqb negb]. run_capable. rewrite bind_current.
  change (gid (current (touch b k))) with (gid (current k)).
  change (egid (current (touch b k))) with (egid (current k)).
  change (sgid (current (touch b k))) with (sgid (current k)). set (t := current k).
  destruct (negb (has CAP_SETGID t) && _) eqn:Hd; [end_touched |].
  assert (has CAP_SETGID t = false -> (r = NOID \/ r ∈ [gid t; egid t; sgid t]) /\
    (e = NOID \/ e ∈ [gid t; egid t; sgid t]) /\ (s = NOID \/ s ∈ [gid t; egid t; sgid t])) as Hids.
  { intros Hno. rewrite Hno in Hd. cbn [negb andb] in Hd.
    apply orb_false_iff in Hd as [[? ?]%orb_false_iff ?]. split_and!; by apply not_foreign. }
  clear Hd.
  assert (exists d, when (negb (e =? NOID))
     (bind (when (negb (e =? egid t)) (update (set_dumpable false))) (fun _ => update (set_egid e))) (touch b k) =
     (tt, set_current (set_egid (if negb (e =? NOID) then e else egid t) (set_dumpable d (set_superpriv b t))) k))
    as (d & E).
  { unfold when at 1. destruct (negb (e =? NOID)).
    - match goal with |- context [when ?c (update (set_dumpable false))] =>
        destruct (when_dumpable c (touch b k)) as (b0 & E0) end.
      exists b0. rewrite (bind_eq _ _ _ _ _ E0). done.
    - exists (dumpable t). unfold ret, touch. subst t. by destruct (current k). }
  rewrite (bind_eq _ _ _ _ _ E), bind_update.
  match goal with |- context [bind (when ?c (update (set_gid r))) _ ?k0] =>
    rewrite (bind_eq _ _ _ _ _ (when_update_if c (set_gid r) k0 (set_gid (gid t)) ltac:(subst t; by destruct (current k)))) end.
  match goal with |- context [bind (when ?c (update (set_sgid s))) _ ?k0] =>
    rewrite (bind_eq _ _ _ _ _ (when_update_if c (set_sgid s) k0 (set_sgid (sgid t))
      ltac:(subst t; destruct (current k); destruct (negb (r =? NOID)); done))) end.
  eexists _, _. split; [reflexivity |]. split_and!; [done | done |].
  eapply id_step_fix; [.. | apply fixed_caps_refl];
    try (simpl; destruct (negb (r =? NOID)), (negb (s =? NOID)); reflexivity);
    intros Hno; fold t.
  - simpl. destruct (negb (r =? NOID)), (negb (s =? NOID)); simpl; fold t; split_and!; listed.
  - destruct (Hids Hno) as (Hr & He & Hss).
    pose proof (new_id_in r (gid t) [gid t; egid t; sgid t] ltac:(listed) Hr) as Hr'.
    pose proof (new_id_in e (egid t) [gid t; egid t; sgid t] ltac:(listed) He) as He'.
    pose proof (new_id_in s (sgid t) [gid t; egid t; sgid t] ltac:(listed) Hss) as Hs'.
    destruct (negb (r =? NOID)), (negb (s =? NOID)); simpl; fold t;
      (split_and!; [done | done | done | by apply in_first3]).
Qed.

Lemma setfsgid_step g k : id_result (sys_setfsgid g) k.
Proof.
  unfold id_result, sys_setfsgid, security_task_setgid. cbn [Z.eqb negb]. rewrite bind_current.
  set (t := current k).
  match goal with |- context [bind (unless_capable ?c ?cap) _ ?k0] =>
    destruct (unless_capable_eq c cap k0 ltac:(done)) as (b & E); rewrite (bind_eq _ _ _ _ _ E); clear E;
    remember (c && negb (has cap (current k0))) as d eqn:Hd end.
  assert (exists f d', when (negb d) (bind (when (negb (g =? fsgid t)) (update (set_dumpable false)))
      (fun _ => update (set_fsgid g))) (touch b k) =
    (tt, set_current (set_fsgid f (set_dumpable d' (set_superpriv b t))) k) /\
    (f = fsgid t \/ (d = false /\ f = g))) as (f & d' & E & Hfs).
  { unfold when at 1. destruct d; cbv [negb].
    - exists (fsgid t), (dumpable t). split; [| by left]. unfold touch, ret. subst t. by destruct (current k).
    - match goal with |- context [when ?c (update (set_dumpable false))] =>
        destruct (when_dumpable c (touch b k)) as (b0 & E0) end.
      exists g, b0. rewrite (bind_eq _ _ _ _ _ E0). split; [done | by right]. }
  rewrite (bind_eq _ _ _ _ _ E). eexists _, _. split; [reflexivity |]. split_and!; [done | done |].
  eapply id_step_fix; [.. | apply fixed_caps_refl]; try done; intros Hno; simpl; fold t; [split_and!; listed |].
  split_and!; [listed.. |]. destruct Hfs as [-> | [-> ->]]; [listed |].
  fold t in Hd. rewrite Hno in Hd. symmetry in Hd. bool_cases.
Qed.

(** ** [capset] *)

(** What [capset] may do to a task [t], called by [cur]. *)
Record capset_rel (cur t t' : task) : Prop := {
  cr_rest : exists b, t' = set_superpriv b (cap_capset_set (cap_capget t') t);
  cr_inh : cap_sub (cap_inheritable t') (Z.lor (cap_inheritable t) (cap_permitted cur));
  cr_perm : cap_sub (cap_permitted t') (Z.lor (cap_permitted t) (cap_permitted cur));
  cr_eff : cap_capget t' = cap_capget t \/ cap_sub (cap_effective t') (cap_permitted t');
  cr_clock :
    (Z.testbit (cap_inheritable t') CAP_SECURE_CLOCK = true -> Z.testbit (cap_inheritable t) CAP_SECURE_CLOCK = true) /\
    (Z.testbit (cap_permitted t') CAP_SECURE_CLOCK = true -> Z.testbit (cap_permitted t) CAP_SECURE_CLOCK = true) /\
    (has CAP_SECURE_CLOCK t' = true -> has CAP_SECURE_CLOCK t = true);
  cr_u32 : caps_u32 t -> caps_u32 t';
}.

Lemma capset_rel_refl cur t : capset_rel cur t t.
Proof. split; auto with caps. exists (superpriv t). by destruct t. Qed.

Lemma capset_rel_touch cur t b : capset_rel cur t (set_superpriv b t).
Proof.
  split; [by exists b; destruct t | apply cap_sub_lor_l | apply cap_sub_lor_l | by left | done | done].
Qed.

(** The three words of user data, after the secure clock bit was cleared. *)
Definition clean_data (d : capsets) : Prop :=
  let '(e, i, p) := d in
  is_u32 e /\ is_u32 i /\ is_u32 p /\ Z.testbit e CAP_SECURE_CLOCK = false /\
  Z.testbit i CAP_SECURE_CLOCK = false /\ Z.testbit p CAP_SECURE_CLOCK = false.

Definition data_u32 (d : capsets) : Prop := let '(e, i, p) := d in is_u32 e /\ is_u32 i /\ is_u32 p.

Lemma clear_secure_clock_clean d : data_u32 d -> clean_data (clear_secure_clock d).
Proof.
  destruct d as [[e i] p]. intros (He & Hi & Hp). unfold clean_data, clear_secure_clock.
  assert (forall z, Z.testbit (Z.land z (not32 (CAP_TO_MASK CAP_SECURE_CLOCK))) CAP_SECURE_CLOCK = false) as Hb
    by (intros z; rewrite Z.land_spec; apply andb_false_r).
  split_and!; auto; apply land_u32; try done; apply u32_range.
Qed.

Lemma capset_check_spec cur t d :
  clean_data d -> cap_capset_check cur t d = 0 -> capset_rel cur t (cap_capset_set d t).
Proof.
  destruct d as [[e i] p]. intros (He & Hi & Hp & Ce & Ci & Cp). unfold cap_capset_check, cap_combine.
  destruct (cap_issubset i _) eqn:Hsi; [| done]. destruct (cap_issubset p _) eqn:Hsp; [| done].
  destruct (cap_issubset e p) eqn:Hse; [| done]. intros _. cbn [negb] in *.
  rewrite cap_issubset_spec in Hsi, Hsp, Hse by done.
  unfold cap_capset_set, set_cap_permitted, set_cap_inheritable, set_cap_effective.
  split; unfold has; cbn [cap_effective cap_inheritable cap_permitted]; auto.
  - exists (superpriv t). by destruct t.
  - rewrite Ce, Ci, Cp. done.
  - intros _. by unfold caps_u32.
Qed.

Lemma capset_one_spec cur t d :
  clean_data d -> capset_rel cur t (capset_one cur d t).
Proof.
  intros Hd. unfold capset_one. destruct (Z.eqb_spec (cap_capset_check cur t d) 0).
  - by apply capset_check_spec.
  - apply capset_rel_refl.
Qed.

(** The calling task may itself have been changed before a later target. *)
Lemma capset_rel_mono cur cur' t t' :
  cap_sub (cap_permitted cur') (cap_permitted cur) -> capset_rel cur' t t' -> capset_rel cur t t'.
Proof.
  intros Hs [R I P E C U]. split; auto.
  - etrans; [exact I |]. apply cap_sub_lor_mono; [done | exact Hs].
  - etrans; [exact P |]. apply cap_sub_lor_mono; [done | exact Hs].
Qed.

(** The state after [capset]: every task is related to what it was, and the
    table of users is unchanged. *)
Record capset_state (k k' : kstate) : Prop := {
  cs_before : Forall2 (capset_rel (current k)) (before k) (before k');
  cs_current : capset_rel (current k) (current k) (current k');
  cs_after : Forall2 (capset_rel (current k)) (after k) (after k');
  cs_users : users k' = users k;
}.

Lemma Forall2_fmap_r_intro {A} (R : A -> A -> Prop) (f : A -> A) l :
  (forall x, R x (f x)) -> Forall2 R l (f <$> l).
Proof. intros H. induction l; simpl; constructor; auto. Qed.

Lemma capset_state_touch k b : capset_state k (touch b k).
Proof.
  split; simpl; [| apply capset_rel_touch | | done];
    (rewrite <- (list_fmap_id (_ k)) at 2; apply Forall2_fmap_r_intro; intros; apply capset_rel_refl).
Qed.

Lemma capset_many_spec sel d k : clean_data d -> capset_state k (capset_many sel d k).2.
Proof.
  intros Hd. unfold capset_many. simpl.
  set (go := fun cur t => if sel t then capset_one cur d t else t).
  assert (forall cur t, capset_rel cur t (go cur t)) as Hgo.
  { intros cur t. unfold go. case_match; [by apply capset_one_spec | apply capset_rel_refl]. }
  split; simpl; [by apply Forall2_fmap_r_intro | apply Hgo | | done].
  apply Forall2_fmap_r_intro. intros t. apply (capset_rel_mono _ (go (current k) (current k))); [| apply Hgo].
  etrans; [apply (cr_perm _ _ _ (Hgo (current k) (current k))) |]. apply cap_sub_lor; reflexivity.
Qed.

Lemma capset_state_trans_touch k b k' : capset_state (touch b k) k' -> capset_state k k'.
Proof.
  assert (forall t t', capset_rel (current (touch b k)) t t' -> capset_rel (current k) t t') as Hm
    by (intros t t'; by apply capset_rel_mono).
  intros [B C A U]. split; [by eapply Forall2_impl | | by eapply Forall2_impl | done].
  apply Hm in C as [[b' R] I P E C' U']. split; try done. exists b'. etrans; [exact R |]. unfold touch. simpl. by destruct (current k).
Qed.

(** Process ids are unique. *)
Definition pids_unique (k : kstate) : Prop := NoDup (pid <$> all_tasks k).

Lemma pid_inj k a b :
  pids_unique k -> a ∈ all_tasks k -> b ∈ all_tasks k -> pid a = pid b -> a = b.
Proof.
  intros Hn [i Hi]%list_elem_of_lookup [j Hj]%list_elem_of_lookup Hp.
  assert (i = j) as ->.
  { eapply (NoDup_lookup (pid <$> all_tasks k)); [done | |]; rewrite list_lookup_fmap.
    - by rewrite Hi.
    - rewrite Hj. simpl. by rewrite Hp. }
  congruence.
Qed.

Lemma set_task_state k t d :
  pids_unique k -> t ∈ all_tasks k -> clean_data d -> cap_capset_check (current k) t d = 0 ->
  capset_state k (set_task (pid t) (cap_capset_set d) k).
Proof.
  intros Hn Ht Hd Hc.
  assert (forall u, u ∈ all_tasks k ->
    capset_rel (current k) u (if pid u =? pid t then cap_capset_set d u else u)) as Hg.
  { intros u Hu. destruct (Z.eqb_spec (pid u) (pid t)) as [E |]; [| apply capset_rel_refl].
    apply (pid_inj k) in E as ->; [| done..]. by apply capset_check_spec. }
  unfold all_tasks in Hg. split; simpl; [| apply Hg; set_solver | | done].
  - apply Forall2_fmap_r, Forall_Forall2_diag, Forall_forall. intros u Hu. apply Hg. set_solver.
  - apply Forall2_fmap_r, Forall_Forall2_diag, Forall_forall. intros u Hu. apply Hg. set_solver.
Qed.

Lemma sys_capset_state version put p data k :
  pids_unique k -> (forall d, data = Some d -> data_u32 d) ->
  capset_state k (sys_capset version put p data k).2.
Proof.
  intros Hn Hdata. unfold sys_capset.
  assert (forall k0 v, capset_state k0 (@ret Z v k0).2) as Hret.
  { intros k0 v. simpl. pose proof (capset_state_touch k0 (superpriv (current k0))) as H.
    unfold touch in H. by destruct k0 as [? [] ? ?]. }
  destruct version as [v |]; [| apply Hret]. case_match; [apply Hret |].
  destruct p as [p |]; [| apply Hret]. rewrite bind_current.
  match goal with |- context [bind (unless_capable ?c ?cap) _ ?k0] =>
    destruct (unless_capable_eq c cap k0 ltac:(done)) as (b & E); rewrite (bind_eq _ _ _ _ _ E) end.
  apply (capset_state_trans_touch _ b). case_match; [apply Hret |].
  destruct data as [d |]; [| apply Hret]. specialize (Hdata d eq_refl).
  pose proof (clear_secure_clock_clean d Hdata) as Hd.
  assert (pids_unique (touch b k)) as Hn'.
  { unfold pids_unique, all_tasks in *. simpl. by rewrite fmap_app in *. }
  clear E Hn. revert Hn'. generalize (touch b k). intros k0 Hn.
  destruct (if (0 <? p) && negb (p =? pid (current k0)) then find_task_by_pid p k0 else Some (current k0))
    as [t |] eqn:Ht; [| apply Hret].
  destruct (p <? 0); [destruct (p =? -1); by apply capset_many_spec |]. simpl.
  destruct (Z.eqb_spec (cap_capset_check (current k0) t (clear_secure_clock d)) 0); [| by apply (Hret k0 0)].
  apply set_task_state; try done. unfold all_tasks. case_match.
  - apply find_some in Ht as [Ht _]. by apply list_elem_of_In.
  - simplify_eq. set_solver.
Qed.

(** C6. [capset] gives no task a capability its caller does not hold: whatever
    the target (the caller, another process, a process group or all processes), a
    task's new inheritable and permitted sets lie in its old ones joined with the
    caller's permitted set, the new effective set lies in the new permitted one, no
    id and no other field changes, and CAP_SECURE_CLOCK is never added to any set.
    The data read from user space are arbitrary 32-bit words. *)
Theorem capset_confined version put p data k :
  pids_unique k -> (forall d, data = Some d -> data_u32 d) ->
  Forall2 (capset_rel (current k)) (all_tasks k) (all_tasks (sys_capset version put p data k).2) /\
  users (sys_capset version put p data k).2 = users k.
Proof.
  intros Hn Hd. destruct (sys_capset_state version put p data k Hn Hd) as [B C A U].
  split; [| done]. apply Forall2_app; [done |]. by constructor.
Qed.

Definition cap_demo : kstate :=
  mk_kstate [mk_task 1 1 1 0 0 0 0 0 0 0 0 CAP_INIT_EFF_SET 0 CAP_FULL_SET false true false 0 100 0]
    (mk_task 40 40 40 0 0 0 0 0 0 0 0 CAP_INIT_EFF_SET 0 CAP_FULL_SET false true false 0 100 0)
    [mk_task 41 41 41 500 500 500 500 500 500 500 500 0 0 0 false true false 500 100 0]
    {[ 0 := mk_user 2 2; 500 := mk_user 1 1 ]}.

Lemma capset_confined_witness :
  pids_unique cap_demo /\
  Forall2 (capset_rel (current cap_demo)) (all_tasks cap_demo)
    (all_tasks (sys_capset (Some _LINUX_CAPABILITY_VERSION) true (Some 0) (Some (0xff, 0, 0xff)) cap_demo).2).
Proof.
  assert (pids_unique cap_demo) as Hn by (unfold pids_unique; apply (bool_decide_unpack _); vm_compute; exact I).
  split; [exact Hn |].
  apply (capset_confined (Some _LINUX_CAPABILITY_VERSION) true (Some 0) (Some (0xff, 0, 0xff)) cap_demo Hn).
  intros d [= <-]. unfold data_u32, is_u32. lia.
Defined.

(** ** Sequences of calls *)

Inductive call :=
  | Setreuid (r e : Z) | Setuid (u : Z) | Setresuid (r e s : Z) | Setfsuid (u : Z)
  | Setregid (r e : Z) | Setgid (g : Z) | Setresgid (r e s : Z) | Setfsgid (g : Z)
  | Capset (version : option Z) (put : bool) (p : option Z) (data : option capsets).

(** The words passed to [capset] are 32-bit words. *)
Definition call_ok (c : call) : Prop :=
  match c with Capset _ _ _ (Some d) => data_u32 d | _ => True end.

(** [kmem] is whether the slab allocator finds memory at each call. *)
Definition run (sb : Z) (kmem : bool) (c : call) : M Z :=
  match c with
  | Setreuid r e => sys_setreuid sb kmem r e
  | Setuid u => sys_setuid sb kmem u
  | Setresuid r e s => sys_setresuid sb kmem r e s
  | Setfsuid u => sys_setfsuid sb u
  | Setregid r e => sys_setregid r e
  | Setgid g => sys_setgid g
  | Setresgid r e s => sys_setresgid r e s
  | Setfsgid g => sys_setfsgid g
  | Capset v put p d => sys_capset v put p d
  end.

Definition runs (sb : Z) (cs : list (bool * call)) (k : kstate) : kstate :=
  foldl (fun k '(kmem, c) => (run sb kmem c k).2) k cs.

(** A capability the task can use or could regain from its permitted set. *)
Definition holds (cap : Z) (t : task) : bool :=
  has cap t || Z.testbit (cap_permitted t) cap.

(** Where a call may take the calling task. *)
Record call_step (t t' : task) : Prop := {
  cl_perm : cap_sub (cap_permitted t') (cap_permitted t);
  cl_eff : cap_sub (cap_effective t') (Z.lor (cap_effective t) (cap_permitted t));
  cl_sub : cap_sub (cap_effective t) (cap_permitted t) -> cap_sub (cap_effective t') (cap_permitted t');
  cl_pid : pid t' = pid t;
  cl_uid : has CAP_SETUID t = false ->
    uid t' ∈ [uid t; euid t; suid t] /\ euid t' ∈ [uid t; euid t; suid t] /\
    suid t' ∈ [uid t; euid t; suid t] /\ fsuid t' ∈ [uid t; euid t; suid t; fsuid t];
  cl_gid : has CAP_SETGID t = false ->
    gid t' ∈ [gid t; egid t; sgid t] /\ egid t' ∈ [gid t; egid t; sgid t] /\
    sgid t' ∈ [gid t; egid t; sgid t] /\ fsgid t' ∈ [gid t; egid t; sgid t; fsgid t];
}.

Lemma id_step_call t t' : id_step t t' -> call_step t t'.
Proof. intros []. by split. Qed.

Lemma capset_rel_call t t' : capset_rel t t t' -> call_step t t'.
Proof.
  intros [[b R] I P E C U].
  assert (cap_sub (cap_permitted t') (cap_permitted t)) as P'
    by (etrans; [exact P | by apply cap_sub_lor]).
  assert (pid t' = pid t /\ uid t' = uid t /\ euid t' = euid t /\ suid t' = suid t /\ fsuid t' = fsuid t /\
    gid t' = gid t /\ egid t' = egid t /\ sgid t' = sgid t /\ fsgid t' = fsgid t) as
    (Epid & Eu & Ee & Es & Ef & Eg & Eeg & Esg & Efg) by (rewrite R; by destruct t, t').
  split; rewrite ?Epid, ?Eu, ?Ee, ?Es, ?Ef, ?Eg, ?Eeg, ?Esg, ?Efg; try done.
  - destruct E as [[= -> _ _] | E]; [apply cap_sub_lor_l |].
    etrans; [exact E |]. etrans; [exact P' | apply cap_sub_lor_r].
  - intros Hs. destruct E as [[= -> _ ->] | E]; done.
  - intros _. split_and!; listed.
  - intros _. split_and!; listed.
Qed.

Lemma id_result_call m k :
  id_result m k -> pids_unique k -> call_step (current k) (current (m k).2) /\ pids_unique (m k).2.
Proof.
  intros (v & k' & -> & B & A & St) Hn. split; [by apply id_step_call |]. simpl.
  unfold pids_unique, all_tasks in *. rewrite B, A. rewrite fmap_app in *. simpl. by rewrite (st_pid _ _ St).
Qed.

Lemma Forall2_pids cur l l' : Forall2 (capset_rel cur) l l' -> pid <$> l' = pid <$> l.
Proof.
  induction 1 as [| t t' l l' [[b R] _ _ _ _ _] _ IH]; [done |]. rewrite !fmap_cons, IH. f_equal.
  rewrite R. by destruct t, t'.
Qed.

Lemma run_step sb kmem c k :
  call_ok c -> pids_unique k ->
  call_step (current k) (current (run sb kmem c k).2) /\ pids_unique (run sb kmem c k).2.
Proof.
  intros Hc Hn. destruct c; simpl run;
    try (apply id_result_call; [solve [auto using setreuid_step, setuid_step, setresuid_step, setfsuid_step,
           setregid_step, setgid_step, setresgid_step, setfsgid_step] | done]).
  destruct (sys_capset_state version put p data k Hn) as [B C A U].
  { intros d ->. exact Hc. }
  split; [by apply capset_rel_call |].
  unfold pids_unique, all_tasks in *. rewrite fmap_app, fmap_cons in *.
  by rewrite (Forall2_pids _ _ _ B), (Forall2_pids _ _ _ A), (cl_pid _ _ (capset_rel_call _ _ C)).
Qed.

(** A capability that is neither effective nor permitted stays so. *)
Lemma call_step_holds cap t t' : 0 <= cap -> call_step t t' -> holds cap t = false -> holds cap t' = false.
Proof.
  intros Hc [P E _ _ _ _] H. unfold holds, has in *. apply orb_false_iff in H as [He Hp].
  apply orb_false_iff. split; apply not_true_iff_false; intros Ht.
  - apply E in Ht; [| done]. rewrite Z.lor_spec, He, Hp in Ht. done.
  - apply P in Ht; [| done]. congruence.
Qed.

Definition uids (t : task) : list Z := [uid t; euid t; suid t].

Lemma runs_confined sb cs k ids fsids :
  Forall (fun c => call_ok c.2) cs -> pids_unique k -> holds CAP_SETUID (current k) = false ->
  uids (current k) ⊆ ids -> fsuid (current k) :: ids ⊆ fsids ->
  uids (current (runs sb cs k)) ⊆ ids /\ fsuid (current (runs sb cs k)) ∈ fsids.
Proof.
  intros Hok. revert k. induction Hok as [| [kmem c] cs Hc _ IH]; intros k Hn Hh Hu Hf.
  { split; [done |]. apply Hf. left. }
  simpl. destruct (run_step sb kmem c k Hc Hn) as [St Hn'].
  apply IH; [done | by eapply call_step_holds | |].
  - assert (has CAP_SETUID (current k) = false) as Hno by (apply orb_false_iff in Hh; tauto).
    destruct (cl_uid _ _ St Hno) as (U1 & U2 & U3 & _). unfold uids in *.
    intros x Hx. apply Hu. rewrite !elem_of_cons in Hx. rewrite elem_of_nil in Hx.
    destruct Hx as [-> | [-> | [-> | []]]]; done.
  - assert (has CAP_SETUID (current k) = false) as Hno by (apply orb_false_iff in Hh; tauto).
    destruct (cl_uid _ _ St Hno) as (_ & _ & _ & U4). unfold uids in *.
    intros x Hx. apply elem_of_cons in Hx as [-> | Hx]; [| apply Hf; by right].
    rewrite !elem_of_cons, elem_of_nil in U4. apply Hf. rewrite elem_of_cons.
    destruct U4 as [-> | [-> | [-> | [-> | []]]]]; [right; apply Hu; listed.. | by left].
Qed.

(** C5. A process without CAP_SETUID, in its effective or its permitted set,
    cannot leave its user ids: after any sequence of setreuid, setuid, setresuid,
    setfsuid, the group calls and capset, with any arguments and whatever each call
    returned, its real, effective and saved uids are among the three it started
    with, and its filesystem uid among those and the one it started with. *)
Theorem unprivileged_uids_confined sb cs k :
  Forall (fun c => call_ok c.2) cs -> pids_unique k -> holds CAP_SETUID (current k) = false ->
  let t := current k in let t' := current (runs sb cs k) in
  uid t' ∈ uids t /\ euid t' ∈ uids t /\ suid t' ∈ uids t /\ fsuid t' ∈ fsuid t :: uids t.
Proof.
  intros Hok Hn Hh t t'.
  destruct (runs_confined sb cs k (uids t) (fsuid t :: uids t) Hok Hn Hh) as [Hu Hf]; [done | done |].
  split_and!; [apply Hu; unfold uids; listed.. | exact Hf].
Qed.

Definition user_demo : kstate :=
  mk_kstate [] (mk_task 41 41 41 500 0 500 500 500 500 500 500 0 0 0 false true false 500 100 0) []
    {[ 500 := mk_user 1 1 ]}.

Lemma unprivileged_uids_confined_witness :
  let t' := current (runs 0 [(true, Setuid 500); (true, Setresuid NOID 0 NOID); (true, Setuid 7)] user_demo) in
  uid t' ∈ [500; 0; 500] /\ euid t' ∈ [500; 0; 500] /\ suid t' ∈ [500; 0; 500].
Proof.
  destruct (unprivileged_uids_confined 0
    [(true, Setuid 500); (true, Setresuid NOID 0 NOID); (true, Setuid 7)] user_demo) as (H1 & H2 & H3 & _).
  - repeat constructor.
  - unfold pids_unique. apply (bool_decide_unpack _). vm_compute. exact I.
  - reflexivity.
  - split_and!; [exact H1 | exact H2 | exact H3].
Defined.

(** ** Giving up privileges *)

Lemma cap_sub_empty a : cap_sub a 0 -> a = 0.
Proof.
  intros H. apply Z.bits_inj'. intros i Hi. rewrite Z.bits_0. apply not_true_iff_false.
  intros Ht. apply H in Ht; [| done]. by rewrite Z.bits_0 in Ht.
Qed.

Definition no_caps (t : task) : Prop := cap_permitted t = 0 /\ cap_effective t = 0.

Lemma call_step_no_caps t t' : call_step t t' -> no_caps t -> no_caps t'.
Proof.
  intros [P E _ _ _ _] [Hp He]. rewrite Hp in P. rewrite Hp, He in E. split; by apply cap_sub_empty.
Qed.

Lemma runs_no_caps sb cs k :
  Forall (fun c => call_ok c.2) cs -> pids_unique k -> no_caps (current k) -> no_caps (current (runs sb cs k)).
Proof.
  intros Hok. revert k. induction Hok as [| [kmem c] cs Hc _ IH]; intros k Hn Hk; [done |].
  simpl. destruct (run_step sb kmem c k Hc Hn) as [St Hn']. apply IH; [done |]. by eapply call_step_no_caps.
Qed.

(** The fix-up when a task with a root id ends up with none. *)
Lemma emulate_drop r e s k :
  0 ∈ [r; e; s] -> uid (current k) <> 0 -> euid (current k) <> 0 -> suid (current k) <> 0 ->
  keep_capabilities (current k) = false ->
  (cap_emulate_setxuid r e s k).2 = set_current (set_cap_effective 0 (set_cap_permitted 0 (current k))) k.
Proof.
  intros H0 Hu He Hs Hk. unfold cap_emulate_setxuid. rewrite bind_current.
  rewrite (proj2 (Z.eqb_neq (uid (current k)) 0)), (proj2 (Z.eqb_neq (euid (current k)) 0)),
    (proj2 (Z.eqb_neq (suid (current k)) 0)), Hk by done.
  assert ((r =? 0) || (e =? 0) || (s =? 0) = true) as ->.
  { rewrite !elem_of_cons, elem_of_nil in H0. destruct H0 as [<- | [<- | [<- | []]]]; rewrite ?Z.eqb_refl, ?orb_true_r; done. }
  cbn [negb andb]. unfold when at 1. rewrite bind_update.
  destruct (e =? 0); cbn [negb andb]; unfold when; [rewrite bind_update | rewrite bind_ret]; simpl; try done.
Qed.

Lemma setuid_drop sb kmem u k k1 :
  has CAP_SETUID (current k) = true -> 0 ∈ uids (current k) -> u <> 0 ->
  keep_capabilities (current k) = false -> issecure sb SECURE_NO_SETUID_FIXUP = false ->
  sys_setuid sb kmem u k = (0, k1) ->
  uids (current k1) = [u; u; u] /\ fsuid (current k1) = u /\ no_caps (current k1) /\
  pid (current k1) = pid (current k) /\ before k1 = before k /\ after k1 = after k.
Proof.
  intros Hcap H0 Hu Hkeep Hsec Hrun. unfold sys_setuid, security_task_setuid in Hrun. cbn [Z.eqb negb] in Hrun.
  rewrite bind_current, bind_assoc in Hrun. revert Hrun. run_capable. rewrite Hcap, bind_assoc.
  run_user Hf; rewrite bind_ret; [intros [=] |]. run_dumpable. rewrite !bind_update.
  unfold cap_task_post_setuid. cbn [Z.eqb orb LSM_SETID_ID LSM_SETID_RE LSM_SETID_RES].
  change (LSM_SETID_ID =? LSM_SETID_ID) with true. rewrite orb_true_r. cbn [orb]. rewrite Hsec. cbn [negb].
  unfold when at 1. unfold bind at 1.
  match goal with |- context [cap_emulate_setxuid ?r ?e ?s ?k0] =>
    pose proof (emulate_drop r e s k0) as Hem; destruct (cap_emulate_setxuid r e s k0) as [[] k2] end.
  unfold ret. intros [= <-]. simpl in Hem.
  assert (uid (current k0) = u /\ keep_capabilities (current k0) = false /\ pid (current k0) = pid (current k))
    as (Hu0 & Hk0 & Hp0).
  { destruct Hf as [[Hc ->] | (_ & d & ->)]; [| done].
    apply negb_false_iff, Z.eqb_eq in Hc. done. }
  rewrite Hem; [| done | by rewrite Hu0 | done..]. simpl. unfold uids, no_caps. simpl. by rewrite Hu0.
Qed.

(** C4. [setuid] to a user id other than 0, called by a process with CAP_SETUID and a
    root id that has not asked to keep its capabilities (PR_SET_KEEPCAPS), while the
    secure bit SECURE_NO_SETUID_FIXUP is off, gives up every privilege: when it returns
    0, all four user ids are the new one and the permitted and effective sets are
    empty, and no later sequence of set*id calls, set*gid calls and [capset] calls of
    the process changes that. ([execve] of a set-id file is not among these calls.) *)
Theorem setuid_drop_irrevocable sb kmem u k k1 cs :
  pids_unique k -> has CAP_SETUID (current k) = true -> 0 ∈ uids (current k) -> u <> 0 ->
  keep_capabilities (current k) = false -> issecure sb SECURE_NO_SETUID_FIXUP = false ->
  sys_setuid sb kmem u k = (0, k1) -> Forall (fun c => call_ok c.2) cs ->
  let t := current (runs sb cs k1) in
  uid t = u /\ euid t = u /\ suid t = u /\ fsuid t = u /\ cap_permitted t = 0 /\ cap_effective t = 0.
Proof.
  intros Hn Hcap H0 Hu Hkeep Hsec Hrun Hok t.
  destruct (setuid_drop sb kmem u k k1) as (Hids & Hfs & Hno & Hpid & HB & HA); [done.. |].
  assert (pids_unique k1) as Hn1.
  { unfold pids_unique, all_tasks in *. rewrite HB, HA, fmap_app, fmap_cons in *. by rewrite Hpid. }
  assert (holds CAP_SETUID (current k1) = false) as Hh.
  { destruct Hno as [Hp He]. unfold holds, has. by rewrite Hp, He. }
  destruct (runs_confined sb cs k1 [u] [u] Hok Hn1 Hh) as [HU HF].
  { rewrite Hids. intros x. rewrite !elem_of_cons. tauto. }
  { rewrite Hfs. intros x. rewrite !elem_of_cons. tauto. }
  destruct (runs_no_caps sb cs k1 Hok Hn1 Hno) as [HP HE].
  apply list_elem_of_singleton in HF. fold t in HU, HF, HP, HE.
  split_and!; try done; apply list_elem_of_singleton, HU; unfold uids; listed.
Qed.

Lemma setuid_drop_irrevocable_witness :
  let k1 := (sys_setuid 0 true 500 cap_demo).2 in
  let t := current (runs 0 [(true, Setuid 0); (true, Setresuid 0 0 0)] k1) in
  uid t = 500 /\ euid t = 500 /\ suid t = 500 /\ fsuid t = 500 /\ cap_permitted t = 0 /\ cap_effective t = 0.
Proof.
  apply (setuid_drop_irrevocable 0 true 500 cap_demo (sys_setuid 0 true 500 cap_demo).2
    [(true, Setuid 0); (true, Setresuid 0 0 0)]).
  - unfold pids_unique. apply (bool_decide_unpack _). vm_compute. exact I.
  - reflexivity.
  - left.
  - lia.
  - reflexivity.
  - reflexivity.
  - vm_compute. reflexivity.
  - repeat constructor.
Defined.

(** The effective set of the calling process stays within its permitted set
    through any sequence of the id calls and [capset], whatever the secure bits. *)
Lemma effective_within_permitted sb cs k :
  Forall (fun c => call_ok c.2) cs -> pids_unique k ->
  cap_sub (cap_effective (current k)) (cap_permitted (current k)) ->
  cap_sub (cap_effective (current (runs sb cs k))) (cap_permitted (current (runs sb cs k))).
Proof.
  intros Hok. revert k. induction Hok as [| [kmem c] cs Hc _ IH]; intros k Hn Hk; [done |].
  simpl. destruct (run_step sb kmem c k Hc Hn) as [St Hn']. apply IH; [done |]. by apply (cl_sub _ _ St).
Qed.

(** [cap_set_pg] never reaches a thread group leader: on a process group of
    single-threaded processes it changes nothing and reports success. *)
Lemma cap_set_pg_leaders_only pg d k :
  Forall (fun t => pid t = tgid t) (all_tasks k) -> cap_set_pg pg d k = (0, k).
Proof.
  intros Hl. unfold cap_set_pg, capset_many.
  assert (forall t, t ∈ all_tasks k -> in_pg (all_tasks k) pg t = false) as Hno.
  { intros t Ht. rewrite Forall_forall in Hl. unfold in_pg. by rewrite (Hl t Ht), Z.eqb_refl. }
  unfold all_tasks in *.
  assert (existsb (in_pg (before k ++ current k :: after k) pg) (before k ++ current k :: after k) = false) as ->.
  { apply not_true_iff_false. intros (t & Ht & Hin)%existsb_exists. rewrite Hno in Hin; [done |]. by apply list_elem_of_In. }
  cbn [negb orb]. rewrite (Hno (current k)) by set_solver. f_equal.
  rewrite !fmap_id_on; [by destruct k | |]; intros t Ht; by rewrite Hno by set_solver.
Qed.

(** ** Accounting of users *)

Definition user_count (v : Z) (ts : list task) : Z :=
  foldr (fun t n => (if user t =? v then 1 else 0) + n) 0 ts.

(** How many tasks belong to user [v], and the entry of the table for [n] tasks:
    no structure for none, and as many references as processes otherwise. *)
Definition ntasks (v : Z) (k : kstate) : Z := user_count v (all_tasks k).
Definition user_of (n : Z) : option user_struct := if n =? 0 then None else Some (mk_user n n).
Definition users_ok (k : kstate) : Prop := forall v, users k !! v = user_of (ntasks v k).

Lemma user_count_nonneg v ts : 0 <= user_count v ts.
Proof. induction ts as [| t ts IH]; simpl; [lia |]. case_match; lia. Qed.

Lemma user_count_app v a b : user_count v (a ++ b) = user_count v a + user_count v b.
Proof. induction a as [| t a IH]; simpl; [done |]. rewrite IH. lia. Qed.

Definition one (b : bool) : Z := if b then 1 else 0.

Lemma ntasks_set v t k :
  ntasks v (set_current t k) = ntasks v k - one (user (current k) =? v) + one (user t =? v).
Proof. unfold ntasks, all_tasks. simpl. rewrite !user_count_app. simpl. unfold one. lia. Qed.

Lemma ntasks_current k : 1 <= ntasks (user (current k)) k.
Proof.
  unfold ntasks, all_tasks. rewrite user_count_app. simpl. rewrite Z.eqb_refl.
  pose proof (user_count_nonneg (user (current k)) (before k)).
  pose proof (user_count_nonneg (user (current k)) (after k)). lia.
Qed.

Lemma ntasks_users f v k : ntasks v (with_users f k) = ntasks v k.
Proof. done. Qed.

Lemma user_of_pos n : 1 <= n -> user_of n = Some (mk_user n n).
Proof. intros. unfold user_of. by rewrite (proj2 (Z.eqb_neq n 0)) by lia. Qed.

(** [alloc_uid] takes one more reference, whether the structure is found or new. *)
Lemma alloc_uid_spec kmem u k :
  users_ok k ->
  alloc_uid kmem u k = (false, k) \/
  alloc_uid kmem u k = (true, with_users <[u := mk_user (ntasks u k + 1) (ntasks u k)]> k).
Proof.
  intros Hok. unfold alloc_uid, uid_hash_find, bind. pose proof (Hok u) as Hu. unfold user_of in Hu.
  destruct (Z.eqb_spec (ntasks u k) 0) as [E | E]; rewrite Hu.
  - destruct kmem; [right | by left]. simpl. by rewrite E.
  - right. done.
Qed.

(** Giving the reference back restores the table. *)
Lemma free_uid_undo u k :
  users_ok k ->
  free_uid u (with_users <[u := mk_user (ntasks u k + 1) (ntasks u k)]> k) = (tt, k).
Proof.
  intros Hok. unfold free_uid. cbn [users with_users]. rewrite lookup_insert_eq. cbn [__count processes].
  replace (ntasks u k + 1 - 1) with (ntasks u k) by lia. pose proof (Hok u) as Hu. unfold user_of in Hu.
  destruct (ntasks u k =? 0); destruct k as [b c a us]; unfold with_users; cbn [users before current after] in *; do 2 f_equal.
  - by rewrite delete_insert_id.
  - rewrite insert_insert_eq. by apply insert_id.
Qed.

Definition drop_ref (o : option user_struct) : option user_struct :=
  match o with
  | Some up => if __count up - 1 =? 0 then None else Some (mk_user (__count up - 1) (processes up))
  | None => None
  end.

Lemma with_users_ext f g k : f (users k) = g (users k) -> with_users f k = with_users g k.
Proof. intros H. unfold with_users. by rewrite H. Qed.

Lemma with_users_id f k : f (users k) = users k -> with_users f k = k.
Proof. intros H. unfold with_users. rewrite H. by destruct k. Qed.

Lemma add_processes_eq u n k :
  add_processes u n k = (tt, with_users (alter (fun up => mk_user (__count up) (processes up + n)) u) k).
Proof.
  unfold add_processes. destruct (users k !! u) as [up |] eqn:E; f_equal.
  - apply with_users_ext. apply map_eq. intros v. rewrite lookup_insert, lookup_alter.
    case_decide; subst; [by rewrite E | done].
  - symmetry. apply with_users_id, map_eq. intros v. rewrite lookup_alter.
    case_decide; subst; [by rewrite E | done].
Qed.

Lemma free_uid_eq u k : free_uid u k = (tt, with_users (partial_alter drop_ref u) k).
Proof.
  unfold free_uid. destruct (users k !! u) as [up |] eqn:E; [case_match eqn:E1 |]; f_equal.
  - apply with_users_ext, map_eq. intros v. rewrite lookup_delete, lookup_partial_alter.
    case_decide; subst; [| done]. rewrite E. simpl. by rewrite E1.
  - apply with_users_ext, map_eq. intros v. rewrite lookup_insert, lookup_partial_alter.
    case_decide; subst; [| done]. rewrite E. simpl. by rewrite E1.
  - symmetry. apply with_users_id, map_eq. intros v. rewrite lookup_partial_alter.
    case_decide; subst; [by rewrite E | done].
Qed.

(** The table after [switch_uid]. *)
Lemma switch_uid_users u k :
  users_ok k ->
  let k0 := with_users <[u := mk_user (ntasks u k + 1) (ntasks u k)]> k in
  let k' := (switch_uid u k0).2 in
  before k' = before k /\ after k' = after k /\ current k' = set_user_ptr u (current k) /\ users_ok k'.
Proof.
  intros Hok k0 k'. unfold k', switch_uid. rewrite bind_current.
  rewrite (bind_eq _ _ _ _ _ (add_processes_eq u 1 k0)).
  rewrite (bind_eq _ _ _ _ _ (add_processes_eq (user (current k0)) (-1) _)), bind_update, free_uid_eq.
  split_and!; try done. intros v. cbn [snd users with_users set_current k0 current].
  change (ntasks v _) with (ntasks v (set_current (set_user_ptr u (current k)) k)).
  rewrite ntasks_set. change (user (set_user_ptr u (current k))) with u.
  pose proof (ntasks_current k) as Hpos. set (o := user (current k)) in *.
  pose proof (user_count_nonneg u (all_tasks k)) as Hnn. fold (ntasks u k) in Hnn.
  pose proof (Hok v) as Hv. unfold user_of in Hv.
  rewrite !lookup_partial_alter, !lookup_alter, !lookup_insert. unfold one.
  clearbody o. pose proof (Hok u) as Hu. unfold user_of in Hu.
  destruct (Z.eqb_spec o v) as [<- | Eo].
  - rewrite !(decide_True (P := o = o)) by done.
    destruct (Z.eqb_spec u o) as [-> | Eu].
    + rewrite !decide_True by done. simpl.
      replace (ntasks o k + 1 - 1) with (ntasks o k) by lia.
      rewrite (proj2 (Z.eqb_neq (ntasks o k) 0)) by lia. rewrite user_of_pos by lia. do 2 f_equal; lia.
    + rewrite !decide_False by done. rewrite (proj2 (Z.eqb_neq (ntasks o k) 0)) in Hv by lia.
      rewrite Hv. simpl. unfold user_of.
      replace (ntasks o k - 1 + 0) with (ntasks o k - 1) by lia. case_match; done.
  - rewrite !(decide_False (P := o = v)) by done. destruct (Z.eqb_spec u v) as [<- | Eu].
    + rewrite !decide_True by done. simpl. rewrite user_of_pos by lia. do 2 f_equal; lia.
    + rewrite !decide_False by done. rewrite Hok. f_equal. lia.
Qed.

(** [set_user] keeps the users' accounts exact: every user with a task has
    one structure, whose reference count and process count are the number of its
    tasks, and no other structure exists. When it fails (no memory, or the new user
    is at the process limit and is not root) nothing has changed; when it succeeds
    the calling task alone moves to the new user, which was below the limit. *)
Lemma set_user_accounting kmem u d k :
  users_ok k ->
  exists r k', set_user kmem u d k = (r, k') /\ users_ok k' /\
    ((r = - EAGAIN /\ k' = k) \/
     (r = 0 /\ uid (current k') = u /\ user (current k') = u /\
      before k' = before k /\ after k' = after k /\
      (u = 0 \/ ntasks u k < nproc (current k)))).
Proof.
  intros Hok. unfold set_user.
  destruct (alloc_uid_spec kmem u k Hok) as [E | E]; rewrite (bind_eq _ _ _ _ _ E).
  { exists (- EAGAIN), k. split_and!; [done | done |]. by left. }
  cbn [negb users with_users current]. rewrite lookup_insert_eq. cbn [processes].
  destruct ((nproc (current k) <=? ntasks u k) && negb (u =? 0)) eqn:Hlim.
  - rewrite (bind_eq _ _ _ _ _ (free_uid_undo u k Hok)). exists (- EAGAIN), k.
    split_and!; [done | done |]. by left.
  - destruct (switch_uid_users u k Hok) as (B & A & C & U). revert B A C U.
    unfold bind at 1.
    destruct (switch_uid u (with_users <[u := mk_user (ntasks u k + 1) (ntasks u k)]> k)) as [[] k2].
    cbn [snd]. intros B A C U. run_dumpable. rewrite bind_update.
    eexists _, _. split; [reflexivity |]. split.
    + intros v. specialize (U v). change (users k2 !! v = user_of (ntasks v k2)) in U.
      change (users k2 !! v = user_of (ntasks v (set_current (set_uid u (set_dumpable b (current k2))) k2))).
      rewrite ntasks_set. change (user (set_uid u (set_dumpable b (current k2)))) with (user (current k2)).
      rewrite U. f_equal. lia.
    + right. simpl. rewrite C. split_and!; try done.
      apply andb_false_iff in Hlim as [?%Z.leb_gt | ?%negb_false_iff%Z.eqb_eq]; [by right | by left].
Qed.
