(* ===== verification/Groups.v ===== *)
(** * Supplementary groups: kernel/sys.c ([groups_alloc] to [in_egroup_p])

    The gids of a process are kept sorted in a [struct group_info], in the 32-entry
    array inside the structure or in pages of 1024 entries, and are shared between
    processes by a reference count. The state is the heap of these structures, the
    number of pages they use, the calling process' credentials and pointer, and the
    pointers that the other processes hold. The answers of the allocators and the
    user memory are arguments; what an allocated block holds before it is filled is
    arbitrary. An index outside a block faults ([None]). *)

From stdpp Require Import gmap sorting.
From S2P Require Import Prelude Cred.

#[local] Open Scope kernel_scope.

Definition NGROUPS_SMALL := 32.
Definition NGROUPS_PER_BLOCK := 1024.
Definition NGROUPS_MAX := 65536.

(** [small] is [blocks[0] == small_block]: then [blocks] is the one array inside the
    structure. *)
Record group_info := mk_info {
  ngroups : Z; usage : Z; nblocks : Z; small : bool; blocks : list (list Z);
}.

Definition set_blocks (b : list (list Z)) (gi : group_info) : group_info :=
  mk_info (ngroups gi) (usage gi) (nblocks gi) (small gi) b.
Definition set_usage (u : Z) (gi : group_info) : group_info :=
  mk_info (ngroups gi) u (nblocks gi) (small gi) (blocks gi).

(** [GROUP_AT], as a value and as the target of an assignment. *)
Definition GROUP_AT (gi : group_info) (i : Z) : option Z :=
  if i <? 0 then None
  else b ← blocks gi !! Z.to_nat (i / NGROUPS_PER_BLOCK); b !! Z.to_nat (i mod NGROUPS_PER_BLOCK).

Definition set_GROUP_AT (gi : group_info) (i v : Z) : option group_info :=
  _ ← GROUP_AT gi i;
  Some (set_blocks (alter (fun b => <[Z.to_nat (i mod NGROUPS_PER_BLOCK) := v]> b)
                      (Z.to_nat (i / NGROUPS_PER_BLOCK)) (blocks gi)) gi).

(** ** Sorting and searching *)

(** The inner [while] of [groups_sort] and the assignment that follows it. *)
Fixpoint sift (fuel : nat) (gi : group_info) (left right stride tmp : Z) : option group_info :=
  match fuel with
  | O => None
  | S fuel =>
      if 0 <=? left then
        v ← GROUP_AT gi left;
        if tmp <? v then gi ← set_GROUP_AT gi right v; sift fuel gi (left - stride) left stride tmp
        else set_GROUP_AT gi right tmp
      else set_GROUP_AT gi right tmp
  end.

(** The [for] over [base], of which [n] iterations are left. *)
Fixpoint sort_pass (n : nat) (gi : group_info) (base stride : Z) : option group_info :=
  match n with
  | O => Some gi
  | S n =>
      tmp ← GROUP_AT gi (base + stride);
      gi ← sift (S (S (Z.to_nat base))) gi base (base + stride) stride tmp;
      sort_pass n gi (base + 1) stride
  end.

Fixpoint sort_strides (fuel : nat) (gi : group_info) (stride : Z) : option group_info :=
  match fuel with
  | O => None
  | S fuel =>
      if stride =? 0 then Some gi
      else
        gi ← sort_pass (Z.to_nat (ngroups gi - stride)) gi 0 stride;
        sort_strides fuel gi (stride / 3)
  end.

Fixpoint first_stride (fuel : nat) (n stride : Z) : option Z :=
  match fuel with
  | O => None
  | S fuel => if stride <? n then first_stride fuel n (3 * stride + 1) else Some stride
  end.

Definition groups_sort (gi : group_info) : option group_info :=
  stride ← first_stride (S (Z.to_nat (ngroups gi))) (ngroups gi) 1;
  sort_strides (S (Z.to_nat (stride / 3))) gi (stride / 3).

(** [cmp] is the difference of two unsigned gids as an [int]. *)
Fixpoint search_loop (fuel : nat) (gi : group_info) (left right grp : Z) : option Z :=
  match fuel with
  | O => None
  | S fuel =>
      if left <? right then
        let mid := (left + right) / 2 in
        v ← GROUP_AT gi mid;
        let cmp := s32 (grp - v) in
        if 0 <? cmp then search_loop fuel gi (mid + 1) right grp
        else if cmp <? 0 then search_loop fuel gi left mid grp
        else Some 1
      else Some 0
  end.

Definition groups_search (gi : group_info) (grp : Z) : option Z :=
  search_loop (S (Z.to_nat (ngroups gi))) gi 0 (ngroups gi) grp.

(** ** The structures and their references *)

Record gstate := mk_gstate {
  kst : kstate;
  heap : gmap nat group_info;
  pages : Z;
  mine : nat;            (* current->group_info *)
  others : list nat;     (* the same pointer of the other processes *)
}.

Definition set_heap (h : gmap nat group_info) (st : gstate) : gstate :=
  mk_gstate (kst st) h (pages st) (mine st) (others st).
Definition set_pages (p : Z) (st : gstate) : gstate :=
  mk_gstate (kst st) (heap st) p (mine st) (others st).
Definition set_mine (a : nat) (st : gstate) : gstate :=
  mk_gstate (kst st) (heap st) (pages st) a (others st).
Definition set_kst (k : kstate) (st : gstate) : gstate :=
  mk_gstate k (heap st) (pages st) (mine st) (others st).

(** The loop that allocates the pages: the contents of the blocks [i..], or how many
    pages had been allocated when one was not available. *)
Fixpoint alloc_pages (n : nat) (i : nat) (page : nat -> option (list Z)) : list (list Z) + nat :=
  match n with
  | O => inl []
  | S n =>
      match page i with
      | None => inr i
      | Some b => match alloc_pages n (S i) page with inl bs => inl (b :: bs) | inr i => inr i end
      end
  end.

(** [kmalloc] is the address of the new structure, if there is memory, and what its
    small block holds; [page i] the [i]-th page. Pages obtained before a failure are
    freed again. *)
Definition groups_alloc (gidsetsize : Z) (kmalloc : option (nat * list Z)) (page : nat -> option (list Z))
    (st : gstate) : option nat * gstate :=
  let nblocks := (gidsetsize + NGROUPS_PER_BLOCK - 1) / NGROUPS_PER_BLOCK in
  let nblocks := if nblocks =? 0 then 1 else nblocks in
  match kmalloc with
  | None => (None, st)
  | Some (a, small_block) =>
      if gidsetsize <=? NGROUPS_SMALL then
        (Some a, set_heap (<[a := mk_info gidsetsize 1 nblocks true [small_block]]> (heap st)) st)
      else
        match alloc_pages (Z.to_nat nblocks) 0 page with
        | inl bs => (Some a, set_pages (pages st + Z.of_nat (length bs))
                       (set_heap (<[a := mk_info gidsetsize 1 nblocks false bs]> (heap st)) st))
        | inr i => (None, set_pages (pages st + Z.of_nat i - Z.of_nat i) st)
        end
  end.

Definition groups_free (a : nat) (gi : group_info) (st : gstate) : gstate :=
  let st := if negb (small gi) then set_pages (pages st - nblocks gi) st else st in
  set_heap (delete a (heap st)) st.

Definition get_group_info (a : nat) (st : gstate) : option gstate :=
  gi ← heap st !! a; Some (set_heap (<[a := set_usage (usage gi + 1) gi]> (heap st)) st).

Definition put_group_info (a : nat) (st : gstate) : option gstate :=
  gi ← heap st !! a;
  let gi := set_usage (usage gi - 1) gi in
  let st := set_heap (<[a := gi]> (heap st)) st in
  Some (if usage gi =? 0 then groups_free a gi st else st).

(** ** Copying to and from user space

    [user] is the mapped memory at [grouplist], in entries. Copying 0 bytes always
    succeeds; a copy that leaves the mapped memory moves what is mapped and fails.
    A copy past the end of a block faults. *)

Fixpoint from_user_loop (bs : list (list Z)) (i : nat) (count : Z) (user : list Z)
  : option (Z * list (list Z)) :=
  match bs with
  | [] => Some (0, [])
  | b :: bs =>
      let cp_count := Z.min NGROUPS_PER_BLOCK count in
      let off := (i * Z.to_nat NGROUPS_PER_BLOCK)%nat in
      let n := Z.to_nat cp_count in
      if decide (length b < n)%nat then None
      else
        let b' := take n (drop off user) ++ drop (length (take n (drop off user))) b in
        if negb (n =? 0)%nat && (length user <? off + n)%nat then Some (- EFAULT, b' :: bs)
        else
          '(r, bs) ← from_user_loop bs (S i) (count - cp_count) user;
          Some (r, b' :: bs)
  end.

Definition groups_from_user (gi : group_info) (user : list Z) : option (Z * group_info) :=
  '(r, bs) ← from_user_loop (blocks gi) 0 (ngroups gi) user; Some (r, set_blocks bs gi).

Fixpoint to_user_loop (bs : list (list Z)) (i : nat) (count : Z) (user : list Z) : option (Z * list Z) :=
  match bs with
  | [] => Some (0, user)
  | b :: bs =>
      let cp_count := Z.min NGROUPS_PER_BLOCK count in
      let off := (i * Z.to_nat NGROUPS_PER_BLOCK)%nat in
      let n := Z.to_nat cp_count in
      if decide (length b < n)%nat then None
      else
        let user' := write user off (take n b) in
        if negb (n =? 0)%nat && (length user <? off + n)%nat then Some (- EFAULT, user')
        else to_user_loop bs (S i) (count - cp_count) user'
  end.

Definition groups_to_user (gi : group_info) (user : list Z) : option (Z * list Z) :=
  to_user_loop (blocks gi) 0 (ngroups gi) user.

(** ** System calls *)

(** [security_task_setgroups] is the hook of security/dummy.c. *)
Definition security_task_setgroups (gi : group_info) : Z := 0.

Definition set_current_groups (a : nat) (st : gstate) : option (Z * gstate) :=
  gi ← heap st !! a;
  let retval := security_task_setgroups gi in
  if negb (retval =? 0) then Some (retval, st)
  else
    gi ← groups_sort gi;
    st ← get_group_info a (set_heap (<[a := gi]> (heap st)) st);
    let old_info := mine st in
    st ← put_group_info old_info (set_mine a st);
    Some (0, st).

Definition sys_setgroups (gidsetsize : Z) (user : list Z) (kmalloc : option (nat * list Z))
    (page : nat -> option (list Z)) (st : gstate) : option (Z * gstate) :=
  let '(ok, k) := capable CAP_SETGID (kst st) in
  let st := set_kst k st in
  if negb ok then Some (- EPERM, st)
  else if NGROUPS_MAX <? u32 gidsetsize then Some (- EINVAL, st)
  else
    match groups_alloc gidsetsize kmalloc page st with
    | (None, st) => Some (- ENOMEM, st)
    | (Some a, st) =>
        gi ← heap st !! a;
        '(retval, gi) ← groups_from_user gi user;
        let st := set_heap (<[a := gi]> (heap st)) st in
        if negb (retval =? 0) then st ← put_group_info a st; Some (retval, st)
        else
          '(retval, st) ← set_current_groups a st;
          st ← put_group_info a st;
          Some (retval, st)
    end.

(** The result, the user's memory and the state. *)
Definition sys_getgroups (gidsetsize : Z) (user : list Z) (st : gstate) : option (Z * list Z * gstate) :=
  if gidsetsize <? 0 then Some (- EINVAL, user, st)
  else
    st ← get_group_info (mine st) st;
    gi ← heap st !! mine st;
    let i := ngroups gi in
    '(i, user) ←
      (if negb (gidsetsize =? 0) then
         if gidsetsize <? i then Some (- EINVAL, user)
         else
           '(r, user) ← groups_to_user gi user;
           Some (if negb (r =? 0) then - EFAULT else i, user)
       else Some (i, user));
    st ← put_group_info (mine st) st;
    Some (i, user, st).

Definition search_mine (grp : Z) (st : gstate) : option (Z * gstate) :=
  st ← get_group_info (mine st) st;
  gi ← heap st !! mine st;
  retval ← groups_search gi grp;
  st ← put_group_info (mine st) st;
  Some (retval, st).

Definition in_group_p (grp : Z) (st : gstate) : option (Z * gstate) :=
  if negb (grp =? fsgid (current (kst st))) then search_mine grp st else Some (1, st).

Definition in_egroup_p (grp : Z) (st : gstate) : option (Z * gstate) :=
  if negb (grp =? egid (current (kst st))) then search_mine grp st else Some (1, st).

(** * Correctness *)

(** ** Blocks as one array *)

(** Every block but the last one is full. *)
Fixpoint uniform (bs : list (list Z)) : Prop :=
  match bs with
  | [] => True
  | [b] => (length b <= 1024)%nat
  | b :: bs => length b = 1024%nat /\ uniform bs
  end.

Lemma block_index i :
  (1024 <= i)%nat -> (i / 1024 = S ((i - 1024) / 1024) /\ i mod 1024 = (i - 1024) mod 1024)%nat.
Proof.
  intros H. replace i with ((i - 1024) + 1 * 1024)%nat by lia.
  rewrite Nat.div_add, Nat.Div0.mod_add by lia. replace (i - 1024 + 1 * 1024 - 1024)%nat with (i - 1024)%nat by lia. lia.
Qed.

Lemma uniform_lookup bs i :
  uniform bs -> (bs !! (i / 1024)%nat ≫= fun b => b !! (i mod 1024)%nat) = concat bs !! i.
Proof.
  revert i. induction bs as [| b bs IH]; intros i Hu; [done |].
  destruct (decide (i < 1024)%nat) as [Hi | Hi].
  - rewrite Nat.div_small, Nat.mod_small by lia. cbn [lookup list_lookup mbind option_bind concat].
    destruct (decide (i < length b)%nat); [by rewrite lookup_app_l |].
    destruct bs as [| b' bs]; [by rewrite app_nil_r | destruct Hu; lia].
  - destruct (block_index i) as [-> ->]; [lia |]. cbn [lookup list_lookup concat].
    destruct bs as [| b' bs].
    + rewrite app_nil_r. rewrite (lookup_ge_None_2 b) by (simpl in Hu; lia). done.
    + destruct Hu as [Hb Hu]. rewrite lookup_app_r by lia. rewrite Hb. by apply IH.
Qed.

Lemma uniform_alter bs i v :
  uniform bs -> (i < length (concat bs))%nat ->
  let bs' := alter (fun b => <[(i mod 1024)%nat := v]> b) (i / 1024)%nat bs in
  concat bs' = <[i := v]> (concat bs) /\ uniform bs' /\ length <$> bs' = length <$> bs.
Proof.
  revert i. induction bs as [| b bs IH]; intros i Hu Hi; [simpl in Hi; lia |].
  destruct (decide (i < 1024)%nat) as [H | H].
  - rewrite Nat.div_small, Nat.mod_small by lia. cbn [alter list_alter concat fmap list_fmap].
    rewrite length_insert. split_and!; [| destruct bs; cbn; by rewrite length_insert | done].
    assert (i < length b)%nat; [| by rewrite insert_app_l].
    destruct bs as [| b' bs]; [| destruct Hu; lia]. simpl in Hi. rewrite app_nil_r in Hi. done.
  - destruct (block_index i) as [-> ->]; [lia |]. cbn [alter list_alter concat fmap list_fmap].
    destruct bs as [| b' bs].
    { simpl in Hi, Hu. rewrite app_nil_r in Hi. lia. }
    destruct Hu as [Hb Hu]. cbn [concat] in Hi. rewrite length_app in Hi.
    destruct (IH (i - 1024)%nat Hu) as (E1 & E2 & E3); [simpl; lia |].
    change (concat (b' :: bs)) with (b' ++ concat bs) in *.
    split_and!.
    + rewrite E1. replace i with (length b + (i - 1024))%nat at 2 by lia. by rewrite insert_app_r.
    + destruct (alter _ _ _) eqn:Ea; [| by split]. apply (f_equal length) in E3.
      rewrite !length_fmap in E3. done.
    + by rewrite E3.
Qed.

(** A structure as [groups_alloc] makes it. *)
Record info_ok (gi : group_info) : Prop := {
  ok_range : 0 <= ngroups gi <= NGROUPS_MAX;
  ok_uniform : uniform (blocks gi);
  ok_room : ngroups gi <= Z.of_nat (length (concat (blocks gi)));
  ok_nblocks : nblocks gi = Z.of_nat (length (blocks gi));
}.

(** The gids it holds. *)
Definition groups (gi : group_info) : list Z := take (Z.to_nat (ngroups gi)) (concat (blocks gi)).

(** The same structure up to the gids. *)
Record same_shape (a b : group_info) : Prop := {
  ss_ngroups : ngroups a = ngroups b;
  ss_usage : usage a = usage b;
  ss_nblocks : nblocks a = nblocks b;
  ss_small : small a = small b;
}.

#[export] Instance same_shape_equiv : Equivalence same_shape.
Proof.
  split; [by intros []; split | intros a b []; by split |].
  intros a b c [] []. split; etrans; eauto.
Qed.

Lemma length_groups gi : info_ok gi -> length (groups gi) = Z.to_nat (ngroups gi).
Proof. intros []. unfold groups. rewrite length_take. lia. Qed.

Lemma GROUP_AT_spec gi (i : nat) :
  info_ok gi -> (i < Z.to_nat (ngroups gi))%nat -> GROUP_AT gi (Z.of_nat i) = groups gi !! i.
Proof.
  intros [] Hi. unfold GROUP_AT, groups. rewrite (proj2 (Z.ltb_ge _ _)) by lia.
  rewrite lookup_take_lt by done. rewrite <- uniform_lookup by done.
  unfold NGROUPS_PER_BLOCK. change 1024 with (Z.of_nat 1024).
  rewrite <- Nat2Z.inj_div, <- Nat2Z.inj_mod, !Nat2Z.id. done.
Qed.

Lemma set_GROUP_AT_spec gi (i : nat) v :
  info_ok gi -> (i < Z.to_nat (ngroups gi))%nat ->
  exists gi', set_GROUP_AT gi (Z.of_nat i) v = Some gi' /\ groups gi' = <[i := v]> (groups gi) /\
    info_ok gi' /\ same_shape gi gi'.
Proof.
  intros Hok Hi. unfold set_GROUP_AT. rewrite GROUP_AT_spec by done.
  destruct (lookup_lt_is_Some_2 (groups gi) i) as [x ->]; [by rewrite length_groups |].
  cbn [mbind option_bind]. destruct Hok.
  destruct (uniform_alter (blocks gi) i v) as (E1 & E2 & E3); [done | lia |].
  unfold NGROUPS_PER_BLOCK. change 1024 with (Z.of_nat 1024).
  rewrite <- Nat2Z.inj_div, <- Nat2Z.inj_mod, !Nat2Z.id. eexists. split; [reflexivity |]. split_and!.
  - unfold groups. cbn [set_blocks blocks ngroups]. rewrite E1. by rewrite take_insert_lt.
  - split; cbn [set_blocks blocks ngroups nblocks]; [done | done | by rewrite E1, length_insert |].
    apply (f_equal length) in E3. rewrite !length_fmap in E3. lia.
  - by split.
Qed.

(** ** Sorting *)

(** Exchanging two elements. *)
Lemma swap_Permutation {A} (l : list A) i j x y :
  l !! i = Some x -> l !! j = Some y -> (i < j)%nat -> <[i := y]> (<[j := x]> l) ≡ₚ l.
Proof.
  intros Hi Hj Hij. apply lookup_lt_Some in Hj as Hl.
  rewrite <- (take_drop_middle l i x Hi) at 1 2.
  assert (drop (S i) l !! (j - S i)%nat = Some y) as Hj' by (rewrite lookup_drop; rewrite <- Hj; f_equal; lia).
  rewrite <- (take_drop_middle _ _ _ Hj').
  set (a := take i l). set (b := take (j - S i) (drop (S i) l)). set (c := drop _ (drop (S i) l)).
  assert (length a = i) as Ea by (unfold a; rewrite length_take; lia).
  assert (length b = (j - S i)%nat) as Eb by (unfold b; rewrite length_take, length_drop; lia).
  clearbody a b c. clear Hi Hj Hj'. replace j with (length a + S (length b + 0))%nat by lia. rewrite insert_app_r. simpl.
  rewrite insert_app_r. simpl.
  replace i with (length a + 0)%nat by lia. rewrite insert_app_r. simpl.
  apply Permutation_app_head. rewrite <- !Permutation_middle. apply Permutation_swap.
Qed.

(** Any stride: sifting permutes. *)
Lemma sift_perm fuel gi left (right : nat) stride tmp :
  info_ok gi -> 1 <= stride -> left + stride = Z.of_nat right -> (right < Z.to_nat (ngroups gi))%nat ->
  (Z.to_nat (left + 1) < fuel)%nat ->
  exists gi', sift fuel gi left (Z.of_nat right) stride tmp = Some gi' /\
    groups gi' ≡ₚ <[right := tmp]> (groups gi) /\ info_ok gi' /\ same_shape gi gi'.
Proof.
  revert gi left right. induction fuel as [| fuel IH]; intros gi left right Hok Hs Hlr Hr Hf; [lia |].
  cbn [sift]. destruct (set_GROUP_AT_spec gi right tmp Hok Hr) as (g1 & E1 & G1 & Ok1 & S1).
  assert (exists gi', set_GROUP_AT gi (Z.of_nat right) tmp = Some gi' /\
    groups gi' ≡ₚ <[right := tmp]> (groups gi) /\ info_ok gi' /\ same_shape gi gi') as Hdone.
  { exists g1. rewrite G1. auto. }
  destruct (Z.leb_spec 0 left) as [Hl | Hl]; [| exact Hdone].
  replace left with (Z.of_nat (Z.to_nat left)) by lia. set (l := Z.to_nat left) in *.
  rewrite GROUP_AT_spec by (try done; lia).
  destruct (lookup_lt_is_Some_2 (groups gi) l) as [v Hv]; [rewrite length_groups by done; lia |].
  rewrite Hv. cbn [mbind option_bind]. destruct (Z.ltb_spec tmp v) as [Htv | Htv]; [| exact Hdone].
  destruct (set_GROUP_AT_spec gi right v Hok Hr) as (g2 & E2 & G2 & Ok2 & S2). rewrite E2. cbn [mbind option_bind].
  destruct (IH g2 (Z.of_nat l - stride) l Ok2) as (g3 & E3 & G3 & Ok3 & S3); [lia | lia | | lia |].
  { rewrite <- (ss_ngroups _ _ S2). lia. }
  exists g3. split; [exact E3 |]. split_and!; [| done | by etrans].
  rewrite G3, G2. rewrite <- (swap_Permutation (<[right := tmp]> (groups gi)) l right v tmp).
  - by rewrite list_insert_insert_eq.
  - rewrite list_lookup_insert_ne by lia. done.
  - apply list_lookup_insert_eq. rewrite length_groups by done. lia.
  - lia.
Qed.

Lemma pass_perm n gi (base : nat) stride :
  info_ok gi -> 1 <= stride -> (Z.of_nat base + stride + Z.of_nat n <= ngroups gi \/ n = O) ->
  exists gi', sort_pass n gi (Z.of_nat base) stride = Some gi' /\
    groups gi' ≡ₚ groups gi /\ info_ok gi' /\ same_shape gi gi'.
Proof.
  revert gi base. induction n as [| n IH]; intros gi base Hok Hs Hn.
  { exists gi. split; [done |]. split_and!; done. }
  cbn [sort_pass]. destruct Hn as [Hn | ?]; [| done].
  replace (Z.of_nat base + stride) with (Z.of_nat (base + Z.to_nat stride)) by lia.
  set (r := (base + Z.to_nat stride)%nat) in *.
  rewrite GROUP_AT_spec by (try done; lia).
  destruct (lookup_lt_is_Some_2 (groups gi) r) as [v Hv]; [rewrite length_groups by done; lia |].
  rewrite Hv. cbn [mbind option_bind].
  destruct (sift_perm (S (S (Z.to_nat (Z.of_nat base)))) gi (Z.of_nat base) r stride v) as (g1 & E1 & G1 & Ok1 & S1);
    [done | done | lia | lia | lia |].
  rewrite E1. cbn [mbind option_bind]. replace (Z.of_nat base + 1) with (Z.of_nat (S base)) by lia.
  destruct (IH g1 (S base) Ok1 Hs) as (g2 & E2 & G2 & Ok2 & S2).
  { rewrite <- (ss_ngroups _ _ S1). lia. }
  exists g2. split; [exact E2 |]. split_and!; [| done | by etrans].
  rewrite G2, G1. by rewrite list_insert_id.
Qed.

(** Stride 1: sifting moves the new element in front of the greater ones. *)
Lemma sift_one fuel gi A h rest tmp :
  info_ok gi -> groups gi = A ++ h :: rest -> (length A < fuel)%nat ->
  exists gi' A1 A2, sift fuel gi (Z.of_nat (length A) - 1) (Z.of_nat (length A)) 1 tmp = Some gi' /\
    A = A1 ++ A2 /\ groups gi' = A1 ++ tmp :: A2 ++ rest /\ Forall (fun x => tmp < x) A2 /\
    (forall x, last A1 = Some x -> x <= tmp) /\ info_ok gi' /\ same_shape gi gi'.
Proof.
  revert fuel gi h rest. induction A as [| x A IH] using rev_ind; intros fuel gi h rest Hok Hg Hf.
  - destruct fuel as [| fuel]; [simpl in Hf; lia |]. cbn [sift length].
    rewrite (proj2 (Z.leb_gt _ _)) by lia.
    destruct (set_GROUP_AT_spec gi 0 tmp Hok) as (g1 & E1 & G1 & Ok1 & S1).
    { rewrite <- length_groups, Hg by done. simpl. lia. }
    exists g1, [], []. rewrite G1, Hg. split_and!; try done.
  - rewrite length_app in *. cbn [length] in *.
    destruct fuel as [| fuel]; [lia |]. cbn [sift]. rewrite (proj2 (Z.leb_le _ _)) by lia.
    replace (Z.of_nat (length A + 1) - 1) with (Z.of_nat (length A)) by lia.
    assert (length (groups gi) = (length A + 1 + S (length rest))%nat) as Hlen
      by (rewrite Hg, !length_app; simpl; lia).
    rewrite length_groups in Hlen by done.
    rewrite GROUP_AT_spec by (try done; lia).
    assert (groups gi !! length A = Some x) as ->.
    { rewrite Hg, <- app_assoc. cbn [app]. by apply list_lookup_middle. }
    cbn [mbind option_bind]. destruct (Z.ltb_spec tmp x) as [Htx | Htx].
    + destruct (set_GROUP_AT_spec gi (length A + 1) x Hok) as (g1 & E1 & G1 & Ok1 & S1); [lia |].
      rewrite E1. cbn [mbind option_bind].
      assert (groups g1 = A ++ x :: x :: rest) as Hg1.
      { rewrite G1, Hg. rewrite <- app_assoc. rewrite insert_app_r. done. }
      destruct (IH fuel g1 x (x :: rest) Ok1 Hg1) as (g2 & A1 & A2 & E2 & EA & G2 & F2 & L2 & Ok2 & S2); [lia |].
      exists g2, A1, (A2 ++ [x]). split; [exact E2 |].
      split_and!; [by rewrite EA, app_assoc | by rewrite G2, <- app_assoc | | done | done | by etrans].
      apply Forall_app. split; [done | by constructor].
    + destruct (set_GROUP_AT_spec gi (length A + 1) tmp Hok) as (g1 & E1 & G1 & Ok1 & S1); [lia |].
      exists g1, (A ++ [x]), []. split; [exact E1 |]. rewrite app_nil_r.
      split_and!; try done.
      * rewrite G1, Hg. rewrite <- !app_assoc. rewrite insert_app_r. done.
      * intros y. rewrite last_snoc. intros [= <-]. done.
Qed.

Abbreviation sorted := (StronglySorted Z.le).

Lemma sorted_last A x : sorted A -> last A = Some x -> Forall (fun y => y <= x) A.
Proof.
  intros Hs. revert x. induction Hs as [| a A Hs IH Ha]; intros x; [done |].
  destruct A as [| b A]; [intros [= <-]; by constructor; [lia |] |].
  change (last (a :: b :: A)) with (last (b :: A)). intros Hl. constructor; [| by apply IH].
  assert (x ∈ b :: A) as Hx by (apply list_elem_of_lookup; exists (pred (length (b :: A))); by rewrite <- last_lookup).
  rewrite Forall_forall in Ha. by apply Ha.
Qed.

Lemma sorted_insert A1 A2 v :
  sorted (A1 ++ A2) -> Forall (fun x => v < x) A2 -> (forall x, last A1 = Some x -> x <= v) -> sorted (A1 ++ v :: A2).
Proof.
  intros Hs H2 Hl.
  assert (Forall (fun x => x <= v) A1) as H1.
  { destruct (last A1) as [x |] eqn:E; [| by apply last_None in E as ->].
    eapply Forall_impl; [apply (sorted_last A1 x); [| done] | intros y; specialize (Hl _ eq_refl); simpl; lia].
    clear -Hs. induction A1 as [| a A1 IH]; [constructor |]. inversion Hs as [| ? ? Hs' Ha]. constructor; [by apply IH |].
    by apply Forall_app in Ha as [? _]. }
  clear Hl. induction A1 as [| a A1 IH]; simpl in *.
  - constructor; [done |]. eapply Forall_impl; [exact H2 | simpl; lia].
  - inversion Hs as [| ? ? Hs' Ha]. inversion H1. subst. constructor; [by apply IH |].
    apply Forall_app in Ha as [Ha1 Ha2]. apply Forall_app. split; [done |]. by constructor.
Qed.

Lemma pass_one n gi A rest :
  info_ok gi -> groups gi = A ++ rest -> A <> [] -> length rest = n -> sorted A ->
  exists gi', sort_pass n gi (Z.of_nat (length A) - 1) 1 = Some gi' /\
    sorted (groups gi') /\ groups gi' ≡ₚ groups gi /\ info_ok gi' /\ same_shape gi gi'.
Proof.
  revert gi A rest. induction n as [| n IH]; intros gi A rest Hok Hg HA Hn Hs.
  { destruct rest; [| done]. exists gi. rewrite Hg, app_nil_r. split_and!; done. }
  destruct rest as [| v rest]; [done |]. injection Hn as Hn.
  assert (length A <> O) by (by destruct A). cbn [sort_pass].
  replace (Z.of_nat (length A) - 1 + 1) with (Z.of_nat (length A)) by lia.
  assert (length A < Z.to_nat (ngroups gi))%nat by (rewrite <- length_groups, Hg, length_app by done; simpl; lia).
  rewrite GROUP_AT_spec by done. rewrite Hg, list_lookup_middle by done. cbn [mbind option_bind].
  destruct (sift_one (S (S (Z.to_nat (Z.of_nat (length A) - 1)))) gi A v rest v)
    as (g1 & A1 & A2 & E1 & EA & G1 & F1 & L1 & Ok1 & S1); [done | done | lia |].
  rewrite E1. cbn [mbind option_bind].
  destruct (IH g1 (A1 ++ v :: A2) rest Ok1) as (g2 & E2 & Ss & P2 & Ok2 & S2); [| | done | |].
  - by rewrite G1, <- app_assoc.
  - by destruct A1.
  - apply sorted_insert; [by rewrite <- EA | done | done].
  - exists g2. replace (Z.of_nat (length A)) with (Z.of_nat (length (A1 ++ v :: A2)) - 1).
    2: { rewrite EA, !length_app. simpl. lia. }
    split; [exact E2 |]. split_and!; [done | | done | by etrans].
    rewrite P2, G1, EA. rewrite <- !app_assoc. apply Permutation_app_head. apply (Permutation_middle A2 rest v).
Qed.

(** The strides: 1, 4, 13, ... *)
Inductive stride_ok : Z -> Prop :=
  | stride_1 : stride_ok 1
  | stride_S s : stride_ok s -> stride_ok (3 * s + 1).

Lemma stride_pos s : stride_ok s -> 1 <= s.
Proof. induction 1; lia. Qed.

Lemma sorted_short l : (length l <= 1)%nat -> sorted l.
Proof. destruct l as [| x [| y l]]; simpl; [constructor | by repeat constructor | lia]. Qed.

Lemma last_pass gi :
  info_ok gi -> exists gi', sort_pass (Z.to_nat (ngroups gi - 1)) gi 0 1 = Some gi' /\
    sorted (groups gi') /\ groups gi' ≡ₚ groups gi /\ info_ok gi' /\ same_shape gi gi'.
Proof.
  intros Hok. pose proof (length_groups gi Hok) as Hl. destruct (groups gi) as [| a rest] eqn:Hg.
  - simpl in Hl. replace (Z.to_nat (ngroups gi - 1)) with O by lia. exists gi. rewrite Hg.
    split_and!; [done | by apply sorted_short; simpl; lia | done | done | done].
  - rewrite <- Hg. simpl in Hl. replace (Z.to_nat (ngroups gi - 1)) with (length rest) by lia.
    apply (pass_one (length rest) gi [a] rest); try done. by apply sorted_short.
Qed.

Lemma strides_spec s : stride_ok s -> forall fuel gi, info_ok gi -> (Z.to_nat s < fuel)%nat ->
  exists gi', sort_strides fuel gi s = Some gi' /\
    sorted (groups gi') /\ groups gi' ≡ₚ groups gi /\ info_ok gi' /\ same_shape gi gi'.
Proof.
  induction 1 as [| s Hs IH]; intros [| fuel] gi Hok Hf; try lia; cbn [sort_strides].
  - destruct (last_pass gi Hok) as (g1 & E1 & H1). simpl (1 =? 0). rewrite E1. cbn [mbind option_bind].
    change (1 / 3) with 0. destruct fuel as [| fuel]; [lia |]. exists g1. done.
  - apply stride_pos in Hs. rewrite (proj2 (Z.eqb_neq _ _)) by lia.
    destruct (pass_perm (Z.to_nat (ngroups gi - (3 * s + 1))) gi 0 (3 * s + 1)) as (g1 & E1 & G1 & Ok1 & S1);
      [done | lia | lia |].
    change (Z.of_nat 0) with 0 in E1. rewrite E1. cbn [mbind option_bind].
    replace ((3 * s + 1) / 3) with s by (rewrite Z.add_comm, Z.mul_comm, Z.div_add by lia; change (1 / 3) with 0; lia).
    destruct (IH fuel g1 Ok1) as (g2 & E2 & Ss & P2 & Ok2 & S2); [lia |].
    exists g2. split; [done |]. split_and!; [done | by rewrite P2 | done | by etrans].
Qed.

Lemma first_stride_spec fuel n s :
  stride_ok s -> (Z.to_nat (n - s) < fuel)%nat ->
  exists r, first_stride fuel n s = Some r /\ stride_ok r /\ n <= r.
Proof.
  revert s. induction fuel as [| fuel IH]; intros s Hs Hf; [lia |]. cbn [first_stride].
  pose proof (stride_pos s Hs). destruct (Z.ltb_spec s n); [| by exists s].
  apply IH; [by constructor | lia].
Qed.

(** Sorting sorts, whatever the gids, and never leaves the array. *)
Lemma groups_sort_spec gi :
  info_ok gi -> exists gi', groups_sort gi = Some gi' /\
    sorted (groups gi') /\ groups gi' ≡ₚ groups gi /\ info_ok gi' /\ same_shape gi gi'.
Proof.
  intros Hok. unfold groups_sort.
  destruct (first_stride_spec (S (Z.to_nat (ngroups gi))) (ngroups gi) 1) as (r & E & Hr & Hn); [constructor | lia |].
  rewrite E. cbn [mbind option_bind]. destruct Hr as [| s Hs].
  - change (1 / 3) with 0. exists gi. split_and!; try done. apply sorted_short. rewrite length_groups by done. lia.
  - replace ((3 * s + 1) / 3) with s by (rewrite Z.add_comm, Z.mul_comm, Z.div_add by lia; change (1 / 3) with 0; lia).
    apply strides_spec; [done | done | lia].
Qed.

(** ** Searching *)

(** The difference of any two of these gids fits in an [int]. *)
Definition close_gids (grp : Z) (l : list Z) : Prop :=
  Forall (fun v => -2147483648 <= grp - v < 2147483648) l.

Lemma sorted_lookup l (i j : nat) x y :
  sorted l -> (i <= j)%nat -> l !! i = Some x -> l !! j = Some y -> x <= y.
Proof.
  intros Hs. revert i j. induction Hs as [| a l Hs IH Ha]; intros i j Hij Hi Hj; [done |].
  destruct i as [| i], j as [| j]; simpl in *; [| | lia |].
  - injection Hi as <-. injection Hj as <-. lia.
  - injection Hi as <-. rewrite Forall_forall in Ha. apply Ha, list_elem_of_lookup. eauto.
  - eapply (IH i j); [lia | done | done].
Qed.

Lemma search_loop_spec fuel gi (left right : nat) grp :
  info_ok gi -> sorted (groups gi) -> close_gids grp (groups gi) ->
  (left <= right)%nat -> (right <= length (groups gi))%nat -> (right - left < fuel)%nat ->
  (forall i v, groups gi !! i = Some v -> v = grp -> (left <= i < right)%nat) ->
  search_loop fuel gi (Z.of_nat left) (Z.of_nat right) grp =
    Some (if bool_decide (grp ∈ groups gi) then 1 else 0).
Proof.
  intros Hok Hs Hc. revert left right. induction fuel as [| fuel IH]; intros left right Hlr Hr Hf Hin; [lia |].
  cbn [search_loop]. destruct (Z.ltb_spec (Z.of_nat left) (Z.of_nat right)) as [Hlt | Hge].
  2: { rewrite bool_decide_false; [done |]. intros [i Hi]%list_elem_of_lookup. specialize (Hin i grp Hi eq_refl). lia. }
  set (mid := ((left + right) / 2)%nat).
  assert ((Z.of_nat left + Z.of_nat right) / 2 = Z.of_nat mid) as ->.
  { unfold mid. rewrite Nat2Z.inj_div, Nat2Z.inj_add. done. }
  assert (left <= mid < right)%nat as Hm.
  { unfold mid. split; [apply Nat.div_le_lower_bound; lia | apply Nat.Div0.div_lt_upper_bound; lia]. }
  destruct (lookup_lt_is_Some_2 (groups gi) mid) as [v Hv]; [lia |].
  rewrite GROUP_AT_spec by (try done; rewrite <- length_groups by done; lia). rewrite Hv. cbn [mbind option_bind].
  assert (s32 (grp - v) = grp - v) as ->.
  { apply s32_id. unfold close_gids in Hc. rewrite Forall_forall in Hc. apply Hc, list_elem_of_lookup. eauto. }
  destruct (Z.ltb_spec 0 (grp - v)).
  { replace (Z.of_nat mid + 1) with (Z.of_nat (S mid)) by lia. apply IH; [lia | done | lia |].
    intros i x Hi ->. pose proof (Hin _ _ Hi eq_refl). split; [| lia]. destruct (decide (i <= mid)%nat); [| lia].
    pose proof (sorted_lookup _ i mid _ _ Hs ltac:(lia) Hi Hv). lia. }
  destruct (Z.ltb_spec (grp - v) 0).
  { apply IH; [lia | lia | lia |].
    intros i x Hi ->. pose proof (Hin _ _ Hi eq_refl). split; [lia |]. destruct (decide (mid <= i)%nat); [| lia].
    pose proof (sorted_lookup _ mid i _ _ Hs ltac:(lia) Hv Hi). lia. }
  rewrite bool_decide_true; [done |]. apply list_elem_of_lookup. exists mid. rewrite Hv. f_equal. lia.
Qed.

Lemma groups_search_spec gi grp :
  info_ok gi -> sorted (groups gi) -> close_gids grp (groups gi) ->
  groups_search gi grp = Some (if bool_decide (grp ∈ groups gi) then 1 else 0).
Proof.
  intros Hok Hs Hc. unfold groups_search. pose proof (length_groups gi Hok) as Hl. destruct Hok as [Hr] eqn:Eo.
  replace (ngroups gi) with (Z.of_nat (Z.to_nat (ngroups gi))) at 2 by lia.
  apply (search_loop_spec _ gi 0); try done; [lia | lia | lia |].
  intros i v Hi _. apply lookup_lt_Some in Hi. lia.
Qed.

(** ** Copying *)

Lemma uniform_lengths bs bs' : length <$> bs = length <$> bs' -> uniform bs -> uniform bs'.
Proof.
  revert bs'. induction bs as [| b bs IH]; intros [| b' bs'] He Hu; try done.
  injection He as Hb He. destruct bs as [| c bs], bs' as [| c' bs']; try done.
  - simpl in *. lia.
  - destruct Hu as [Hl Hu]. split; [by rewrite <- Hb | by apply IH].
Qed.

Lemma concat_lengths {A} (bs bs' : list (list A)) : length <$> bs = length <$> bs' -> length (concat bs) = length (concat bs').
Proof.
  revert bs'. induction bs as [| b bs IH]; intros [| b' bs'] He; try done.
  injection He as Hb He. simpl. rewrite !length_app. by rewrite Hb, (IH bs').
Qed.

(** The entries of a block that are copied. *)
Lemma block_count b bs count :
  uniform (b :: bs) -> 0 <= count <= Z.of_nat (length (concat (b :: bs))) ->
  let n := Z.to_nat (Z.min NGROUPS_PER_BLOCK count) in
  (n <= length b)%nat /\ uniform bs /\ 0 <= count - Z.min NGROUPS_PER_BLOCK count <= Z.of_nat (length (concat bs)) /\
  (Z.min NGROUPS_PER_BLOCK count < count -> n = length b /\ n = 1024%nat).
Proof.
  cbn [concat]. rewrite length_app. unfold NGROUPS_PER_BLOCK. destruct bs as [| c bs]; simpl uniform; intros Hu Hc.
  - simpl in Hc. split_and!; try done; simpl; lia.
  - destruct Hu. split_and!; try done; lia.
Qed.

Lemma from_user_spec bs i count user :
  uniform bs -> 0 <= count <= Z.of_nat (length (concat bs)) ->
  exists r bs', from_user_loop bs i count user = Some (r, bs') /\ length <$> bs' = length <$> bs /\
    r = (if decide (count = 0 \/ (i * 1024 + Z.to_nat count <= length user)%nat) then 0 else - EFAULT) /\
    (r = 0 -> take (Z.to_nat count) (concat bs') = take (Z.to_nat count) (drop (i * 1024) user)).
Proof.
  revert i count. induction bs as [| b bs IH]; intros i count Hu Hc.
  { simpl in Hc. exists 0, []. replace count with 0 by lia. rewrite decide_True by lia. done. }
  destruct (block_count b bs count Hu Hc) as (Hn & Hu' & Hc' & Hfull). clear Hu.
  cbn [from_user_loop]. set (cp := Z.min NGROUPS_PER_BLOCK count) in *. change (Z.to_nat NGROUPS_PER_BLOCK) with 1024%nat.
  set (n := Z.to_nat cp) in *. set (off := (i * 1024)%nat) in *.
  rewrite decide_False by lia. set (src := take n (drop off user)). set (b' := src ++ drop (length src) b).
  assert (cp <= 1024 /\ cp <= count) as [Hcp1 Hcp2] by (unfold cp, NGROUPS_PER_BLOCK; lia).
  assert (n = Z.to_nat cp) as Hnd by done.
  assert (cp = 1024 \/ cp = count) as Hcp3 by (unfold cp, NGROUPS_PER_BLOCK; lia).
  assert (length src = n `min` (length user - off))%nat as Hsrc by (unfold src; by rewrite length_take, length_drop).
  assert (length b' = length b) as Hb' by (unfold b'; rewrite length_app, length_drop; lia).
  destruct (decide (n <> O /\ (length user < off + n)%nat)) as [[Hn0 Hlt] | Hok].
  { rewrite (proj2 (Nat.eqb_neq _ _) Hn0), (proj2 (Nat.ltb_lt _ _) Hlt). cbn [negb andb].
    exists (- EFAULT), (b' :: bs). split; [done |]. split; [by rewrite !fmap_cons, Hb' |].
    rewrite decide_False by lia. by split. }
  replace (negb (n =? 0)%nat && (length user <? off + n)%nat) with false
    by (destruct (Nat.eqb_spec n 0), (Nat.ltb_spec (length user) (off + n)); try done; exfalso; lia).
  destruct (IH (S i) (count - cp) Hu' Hc') as (r & bs' & E & El & Er & Ec). rewrite E. cbn [mbind option_bind].
  exists r, (b' :: bs'). split; [done |]. split; [by rewrite !fmap_cons, El, Hb' |].
  change (S i * 1024)%nat with (1024 + off)%nat in *. split.
  { rewrite Er. destruct (decide (count = 0 \/ _)), (decide (count - cp = 0 \/ _)); try done; exfalso; lia. }
  intros Hr0. specialize (Ec Hr0). cbn [concat].
  assert (length src = n) as Hln by lia.
  destruct (decide (cp = count)) as [Heq | Hne].
  { rewrite <- Heq. fold n. unfold b'. rewrite <- app_assoc. rewrite take_app_le by lia. rewrite take_ge by lia. done. }
  destruct Hfull as [Hf1 Hf2]; [lia |].
  replace (Z.to_nat count) with (length b' + Z.to_nat (count - cp))%nat by lia.
  rewrite take_app_add, Ec. unfold b'. rewrite drop_ge by lia. rewrite app_nil_r, Hln.
  replace (1024 + off)%nat with (off + n)%nat by lia. rewrite <- drop_drop. unfold src. by rewrite take_take_drop.
Qed.

Lemma to_user_spec bs i count user :
  uniform bs -> 0 <= count <= Z.of_nat (length (concat bs)) ->
  exists r user', to_user_loop bs i count user = Some (r, user') /\ length user' = length user /\
    r = (if decide (count = 0 \/ (i * 1024 + Z.to_nat count <= length user)%nat) then 0 else - EFAULT) /\
    (r = 0 -> user' = write user (i * 1024) (take (Z.to_nat count) (concat bs))).
Proof.
  revert i count user. induction bs as [| b bs IH]; intros i count user Hu Hc.
  { simpl in Hc. exists 0, user. replace count with 0 by lia. rewrite decide_True by lia. done. }
  destruct (block_count b bs count Hu Hc) as (Hn & Hu' & Hc' & Hfull). clear Hu.
  cbn [to_user_loop]. set (cp := Z.min NGROUPS_PER_BLOCK count) in *. change (Z.to_nat NGROUPS_PER_BLOCK) with 1024%nat.
  set (n := Z.to_nat cp) in *. set (off := (i * 1024)%nat) in *. rewrite decide_False by lia.
  assert (cp <= 1024 /\ cp <= count) as [Hcp1 Hcp2] by (unfold cp, NGROUPS_PER_BLOCK; lia).
  assert (n = Z.to_nat cp) as Hnd by done.
  assert (cp = 1024 \/ cp = count) as Hcp3 by (unfold cp, NGROUPS_PER_BLOCK; lia).
  assert (length (take n b) = n) as Hln by (rewrite length_take; lia).
  destruct (decide (n <> O /\ (length user < off + n)%nat)) as [[Hn0 Hlt] | Hok].
  { rewrite (proj2 (Nat.eqb_neq _ _) Hn0), (proj2 (Nat.ltb_lt _ _) Hlt). cbn [negb andb].
    eexists _, _. split; [done |]. rewrite length_write. rewrite decide_False by lia. done. }
  replace (negb (n =? 0)%nat && (length user <? off + n)%nat) with false
    by (destruct (Nat.eqb_spec n 0), (Nat.ltb_spec (length user) (off + n)); try done; exfalso; lia).
  destruct (IH (S i) (count - cp) (write user off (take n b)) Hu' Hc') as (r & user' & E & El & Er & Ec).
  rewrite length_write in *. change (S i * 1024)%nat with (1024 + off)%nat in *.
  exists r, user'. split; [done |]. split; [done |]. split.
  { rewrite Er. destruct (decide (count = 0 \/ _)), (decide (count - cp = 0 \/ _)); try done; exfalso; lia. }
  intros Hr0. specialize (Ec Hr0). cbn [concat]. rewrite Ec.
  destruct (decide (cp = count)) as [Heq | Hne].
  { replace (Z.to_nat (count - cp)) with O by lia. rewrite take_0, write_nil. rewrite <- Heq. fold n.
    by rewrite take_app_le by lia. }
  destruct Hfull as [Hf1 Hf2]; [lia |]. rewrite Hr0 in Er. case_decide; [| done].
  replace (Z.to_nat count) with (length b + Z.to_nat (count - cp))%nat by lia.
  rewrite take_app_add, (take_ge b n) by lia.
  rewrite write_app; [f_equal; lia |]. rewrite length_take. lia.
Qed.

(** ** Reference counts *)

Definition nrefs (a : nat) (refs : list nat) : Z := Z.of_nat (length (filter (fun b => b = a) refs)).

Lemma nrefs_cons a b refs : nrefs a (b :: refs) = (if decide (b = a) then 1 else 0) + nrefs a refs.
Proof. unfold nrefs. rewrite filter_cons. case_decide; simpl; lia. Qed.

#[export] Instance nrefs_proper a : Proper ((≡ₚ) ==> eq) (nrefs a).
Proof. intros l l' H. unfold nrefs. by rewrite H. Qed.

Lemma nrefs_pos a refs : a ∈ refs <-> 0 < nrefs a refs.
Proof.
  unfold nrefs. split.
  - intros H. destruct (filter _ _) as [| x l] eqn:E; [| simpl; lia].
    exfalso. apply (filter_nil_not_elem_of _ _ _ E eq_refl H).
  - intros H. destruct (filter (fun b => b = a) refs) as [| x l] eqn:E; [simpl in H; lia |].
    assert (x ∈ filter (fun b => b = a) refs) as Hx by (rewrite E; left). apply list_elem_of_filter in Hx as [-> Hx]. done.
Qed.

Definition info_pages (gi : group_info) : Z := if small gi then 0 else nblocks gi.
Definition pages_of (h : gmap nat group_info) : Z := map_fold (fun _ gi n => info_pages gi + n) 0 h.

Lemma pages_insert a gi h : h !! a = None -> pages_of (<[a := gi]> h) = info_pages gi + pages_of h.
Proof. intros H. unfold pages_of. rewrite map_fold_insert_L; [done | intros; lia | done]. Qed.

Lemma pages_replace a gi gi' h :
  h !! a = Some gi -> info_pages gi' = info_pages gi -> pages_of (<[a := gi']> h) = pages_of h.
Proof.
  intros H Hp. rewrite <- (insert_delete_id h a gi H) at 2. rewrite <- insert_delete_eq.
  rewrite !pages_insert by apply lookup_delete_eq. lia.
Qed.

Lemma pages_delete a gi h : h !! a = Some gi -> pages_of (delete a h) = pages_of h - info_pages gi.
Proof.
  intros H. rewrite <- (insert_delete_id h a gi H) at 2. rewrite pages_insert by apply lookup_delete_eq. lia.
Qed.

(** Every structure is referenced exactly by [refs], and the pages are the ones the
    structures use. *)
Record counted (refs : list nat) (st : gstate) : Prop := {
  co_info : forall a gi, heap st !! a = Some gi -> info_ok gi /\ usage gi = nrefs a refs /\ a ∈ refs;
  co_live : forall a, a ∈ refs -> is_Some (heap st !! a);
  co_pages : pages st = pages_of (heap st);
}.

#[export] Instance counted_proper : Proper ((≡ₚ) ==> eq ==> iff) counted.
Proof.
  assert (forall l l' st, l ≡ₚ l' -> counted l st -> counted l' st) as H.
  { intros l l' st Hp [Hi Hl Hpg]. split; [| | done].
    - intros a gi Ha. rewrite <- Hp. by apply Hi.
    - intros a. rewrite <- Hp. apply Hl. }
  intros l l' Hp st ? <-. split; apply H; [done | by symmetry].
Qed.

(** Everything but the heap and the pages. *)
Definition same_task (st st' : gstate) : Prop :=
  kst st' = kst st /\ mine st' = mine st /\ others st' = others st.

Definition groups_at (st : gstate) (a : nat) : option (list Z) := groups <$> heap st !! a.

Lemma info_ok_usage gi u : info_ok gi -> info_ok (set_usage u gi).
Proof. intros []. by split. Qed.

Lemma get_info_spec refs st a :
  counted refs st -> a ∈ refs ->
  exists st', get_group_info a st = Some st' /\ counted (a :: refs) st' /\ same_task st st' /\
    forall b, groups_at st' b = groups_at st b.
Proof.
  intros [Hi Hl Hp] Ha. unfold get_group_info. destruct (Hl a Ha) as [gi Hgi]. rewrite Hgi. cbn [mbind option_bind].
  eexists. split; [reflexivity |]. split_and!; [| done |].
  - split; simpl.
    + intros b gb. rewrite nrefs_cons. destruct (decide (a = b)) as [<- | Hne].
      * rewrite lookup_insert_eq. intros [= <-]. destruct (Hi a gi Hgi) as (H1 & H2 & _).
        split_and!; [by apply info_ok_usage | simpl; lia | left].
      * rewrite lookup_insert_ne by done. intros Hb. destruct (Hi b gb Hb) as (H1 & H2 & H3). split_and!; [done | lia | by right].
    + intros b Hb. destruct (decide (a = b)) as [<- | Hne]; [rewrite lookup_insert_eq; eauto |].
      rewrite lookup_insert_ne by done. apply Hl. by apply elem_of_cons in Hb as [-> |].
    + rewrite (pages_replace a gi); done.
  - intros b. unfold groups_at. simpl. destruct (decide (a = b)) as [<- | Hne].
    + by rewrite lookup_insert_eq, Hgi.
    + by rewrite lookup_insert_ne.
Qed.

Lemma put_info_spec refs st a :
  counted (a :: refs) st ->
  exists st', put_group_info a st = Some st' /\ counted refs st' /\ same_task st st' /\
    forall b, b ∈ refs -> groups_at st' b = groups_at st b.
Proof.
  intros [Hi Hl Hp]. unfold put_group_info. destruct (Hl a ltac:(left)) as [gi Hgi]. rewrite Hgi. cbn [mbind option_bind].
  destruct (Hi a gi Hgi) as (Hok & Hu & _). rewrite nrefs_cons, decide_True in Hu by done.
  eexists. split; [reflexivity |]. cbn [usage set_usage].
  assert (forall b gb, a <> b -> heap st !! b = Some gb -> info_ok gb /\ usage gb = nrefs b refs /\ b ∈ refs) as Hother.
  { intros b gb Hne Hb. destruct (Hi b gb Hb) as (H1 & H2 & H3). rewrite nrefs_cons, decide_False in H2 by done.
    apply elem_of_cons in H3 as [-> |]; [done |]. done. }
  assert (forall b, b ∈ refs -> is_Some (heap st !! b)) as Hlive by (intros b Hb; apply Hl; by right).
  destruct (Z.eqb_spec (usage gi - 1) 0) as [Hz | Hz].
  - assert (a ∉ refs) as Hna by (rewrite nrefs_pos; lia). unfold groups_free. cbn [small set_usage nblocks].
    set (st' := if negb (small gi) then _ else _).
    assert (heap st' = <[a := set_usage (usage gi - 1) gi]> (heap st)) as Eh by (unfold st'; by destruct (small gi)).
    assert (pages st' = pages_of (heap st) - info_pages gi) as Ep
      by (unfold st', info_pages; rewrite <- Hp; destruct (small gi); simpl; lia).
    assert (same_task st st') as Es by (unfold st'; by destruct (small gi)).
    clearbody st'. split_and!; [| done |].
    + split; simpl; rewrite Eh, delete_insert_eq.
      * intros b gb. destruct (decide (a = b)) as [<- | Hne]; [by rewrite lookup_delete_eq |].
        rewrite lookup_delete_ne by done. by apply Hother.
      * intros b Hb. rewrite lookup_delete_ne by (by intros <-). by apply Hlive.
      * rewrite Ep. symmetry. by apply pages_delete.
    + intros b Hb. unfold groups_at. simpl. rewrite Eh, delete_insert_eq. by rewrite lookup_delete_ne by (by intros <-).
  - assert (a ∈ refs) as Ha by (apply nrefs_pos; unfold nrefs in *; lia).
    split_and!; [| done |].
    + split; simpl.
      * intros b gb. destruct (decide (a = b)) as [<- | Hne]; [| rewrite lookup_insert_ne by done; by apply Hother].
        rewrite lookup_insert_eq. intros [= <-]. split_and!; [by apply info_ok_usage | simpl; lia | done].
      * intros b Hb. destruct (decide (a = b)) as [<- | Hne]; [rewrite lookup_insert_eq; eauto |].
        rewrite lookup_insert_ne by done. by apply Hlive.
      * by rewrite (pages_replace a gi).
    + intros b Hb. unfold groups_at. simpl. destruct (decide (a = b)) as [<- | Hne].
      * by rewrite lookup_insert_eq, Hgi.
      * by rewrite lookup_insert_ne.
Qed.

(** ** Allocation *)

(** What the allocators promise: a fresh structure, whose small block has 32
    entries, and pages of 1024 entries. *)
Definition alloc_ok (st : gstate) (kmalloc : option (nat * list Z)) (page : nat -> option (list Z)) : Prop :=
  (forall a sb, kmalloc = Some (a, sb) -> heap st !! a = None /\ length sb = 32%nat) /\
  (forall i b, page i = Some b -> length b = 1024%nat).

(** There is memory for [n] gids. *)
Definition have_memory (n : Z) (kmalloc : option (nat * list Z)) (page : nat -> option (list Z)) : Prop :=
  is_Some kmalloc /\ (32 < n -> forall i, (i < Z.to_nat ((n + 1023) / 1024))%nat -> is_Some (page i)).

Lemma alloc_pages_spec n i page :
  match alloc_pages n i page with
  | inl bs => length bs = n /\ (forall j, (i <= j < i + n)%nat -> is_Some (page j)) /\ Forall (fun b => exists j, page j = Some b) bs
  | inr j => (i <= j < i + n)%nat /\ page j = None
  end.
Proof.
  revert i. induction n as [| n IH]; intros i; simpl; [split_and!; [done | lia | done] |].
  destruct (page i) as [b |] eqn:E; [| split; [lia | done]].
  specialize (IH (S i)). destruct (alloc_pages n (S i) page) as [bs | j]; [| split; [lia | apply IH]].
  destruct IH as (Hl & Hp & Hf). split_and!; [simpl; lia | | constructor; [by exists i | done]].
  intros j Hj. destruct (decide (j = i)) as [-> |]; [by rewrite E | apply Hp; lia].
Qed.

Lemma uniform_full bs : Forall (fun b => length b = 1024%nat) bs -> uniform bs /\ length (concat bs) = (1024 * length bs)%nat.
Proof.
  induction 1 as [| b bs Hb Hf [IH1 IH2]]; [done |]. split.
  - destruct bs; simpl in *; [lia | done].
  - simpl. rewrite length_app, IH2. lia.
Qed.

Lemma alloc_spec n kmalloc page st :
  0 <= n <= NGROUPS_MAX -> alloc_ok st kmalloc page ->
  match groups_alloc n kmalloc page st with
  | (None, st') => st' = st /\ ~ have_memory n kmalloc page
  | (Some a, st') => have_memory n kmalloc page /\ heap st !! a = None /\ same_task st st' /\
      exists gi, heap st' = <[a := gi]> (heap st) /\ pages st' = pages st + info_pages gi /\
        info_ok gi /\ usage gi = 1 /\ ngroups gi = n
  end.
Proof.
  intros Hn [Hk Hpg]. unfold groups_alloc, NGROUPS_PER_BLOCK, NGROUPS_SMALL.
  replace (n + 1024 - 1) with (n + 1023) by lia.
  destruct kmalloc as [[a sb] |]; [| split; [done | by intros [[? ?] _]]].
  destruct (Hk a sb eq_refl) as [Hfresh Hsb].
  assert (0 <= (n + 1023) / 1024) as Hq by (apply Z.div_pos; lia).
  destruct (Z.leb_spec n 32) as [Hs | Hs].
  - split; [split; [by eexists | lia] |]. split_and!; try done. eexists. split; [reflexivity |].
    assert ((if (n + 1023) / 1024 =? 0 then 1 else (n + 1023) / 1024) = 1) as ->.
    { destruct (decide (n = 0)) as [-> |]; [done |].
      replace ((n + 1023) / 1024) with 1; [done |]. apply Z.div_unique with (n - 1); lia. }
    split_and!; try done; [unfold info_pages; simpl; lia |]. split; simpl; rewrite ?app_nil_r; [done | lia | lia | done].
  - assert (n <= 1024 * ((n + 1023) / 1024)) as Hroom.
    { pose proof (Z.div_mod (n + 1023) 1024 ltac:(lia)). pose proof (Z.mod_pos_bound (n + 1023) 1024 ltac:(lia)). lia. }
    set (q := (n + 1023) / 1024) in *. rewrite (proj2 (Z.eqb_neq q 0)) by lia.
    pose proof (alloc_pages_spec (Z.to_nat q) 0 page) as Ha.
    destruct (alloc_pages (Z.to_nat q) 0 page) as [bs | i].
    + destruct Ha as (Hl & Hp & Hf). split; [split; [by eexists | intros _ i Hi; apply Hp; lia] |].
      split_and!; try done. eexists. split; [reflexivity |].
      destruct (uniform_full bs) as [Hu Hlc]; [eapply Forall_impl; [exact Hf | intros b [j Hj]; by eapply Hpg] |].
      split_and!; try done; [simpl; rewrite Hl; unfold info_pages; simpl; lia |]. split; simpl; [done | done | lia | lia].
    + destruct Ha as [Hi Hnone]. split.
      * destruct st. unfold set_pages. simpl. f_equal. lia.
      * intros [_ Hm]. destruct (Hm ltac:(lia) i) as [b Hb]; [lia | congruence].
Qed.

(** Replacing the gids of a structure. *)
Lemma counted_replace refs st a gi gi' :
  counted refs st -> heap st !! a = Some gi -> info_ok gi' -> same_shape gi gi' ->
  counted refs (set_heap (<[a := gi']> (heap st)) st).
Proof.
  intros [Hi Hl Hp] Ha Hok' [Sn Su Sb Ss]. split; simpl.
  - intros b gb. destruct (decide (a = b)) as [<- | Hne].
    + rewrite lookup_insert_eq. intros [= <-]. destruct (Hi a gi Ha) as (_ & H2 & H3). split_and!; [done | rewrite <- Su; exact H2 | done].
    + rewrite lookup_insert_ne by done. apply Hi.
  - intros b Hb. destruct (decide (a = b)) as [<- | Hne]; [rewrite lookup_insert_eq; eauto |].
    rewrite lookup_insert_ne by done. by apply Hl.
  - rewrite Hp. symmetry. apply (pages_replace a gi); [done |]. unfold info_pages. by rewrite Sb, Ss.
Qed.

Lemma counted_fresh refs st st' a gi :
  counted refs st -> heap st !! a = None -> heap st' = <[a := gi]> (heap st) ->
  pages st' = pages st + info_pages gi -> info_ok gi -> usage gi = 1 -> counted (a :: refs) st'.
Proof.
  intros [Hi Hl Hp] Hf Eh Ep Hok Hu.
  assert (a ∉ refs) as Hna by (intros Ha; destruct (Hl a Ha); congruence).
  assert (nrefs a refs = 0) as Hz.
  { pose proof (proj2 (nrefs_pos a refs)) as H. destruct (decide (0 < nrefs a refs)); [by destruct Hna; auto |].
    unfold nrefs in *. lia. }
  split; rewrite Eh.
  - intros b gb. rewrite nrefs_cons. destruct (decide (a = b)) as [<- | Hne].
    + rewrite lookup_insert_eq. intros [= <-]. split_and!; [done | lia | left].
    + rewrite lookup_insert_ne by done. intros Hb. destruct (Hi b gb Hb) as (? & ? & ?). split_and!; [done | lia | by right].
  - intros b Hb. destruct (decide (a = b)) as [<- | Hne]; [rewrite lookup_insert_eq; eauto |].
    rewrite lookup_insert_ne by done. apply Hl. by apply elem_of_cons in Hb as [-> |].
  - rewrite pages_insert, Ep, Hp by done. lia.
Qed.

Lemma put_last st a gi :
  heap st !! a = Some gi -> usage gi = 1 ->
  put_group_info a st = Some (mk_gstate (kst st) (delete a (heap st)) (pages st - info_pages gi) (mine st) (others st)).
Proof.
  intros Ha Hu. unfold put_group_info. rewrite Ha. cbn [mbind option_bind usage set_usage].
  rewrite Hu. simpl (1 - 1 =? 0). cbn iota. unfold groups_free, info_pages. cbn [small set_usage].
  destruct (small gi); simpl; rewrite delete_insert_eq, ?Z.sub_0_r; done.
Qed.

(** [groups_from_user] on a structure that [groups_alloc] returned. *)
Lemma groups_from_user_spec gi user :
  info_ok gi ->
  exists r gi', groups_from_user gi user = Some (r, gi') /\ info_ok gi' /\ same_shape gi gi' /\
    r = (if decide ((Z.to_nat (ngroups gi) <= length user)%nat) then 0 else - EFAULT) /\
    (r = 0 -> groups gi' = take (Z.to_nat (ngroups gi)) user).
Proof.
  intros [Hr Hu Hroom Hnb]. unfold groups_from_user.
  destruct (from_user_spec (blocks gi) 0 (ngroups gi) user Hu) as (r & bs & E & El & Er & Ec); [lia |].
  rewrite E. cbn [mbind option_bind]. eexists _, _. split; [reflexivity |]. split_and!.
  - split; simpl; [done | by eapply uniform_lengths; [symmetry; exact El |] | by rewrite (concat_lengths _ _ El) |].
    apply (f_equal length) in El. rewrite !length_fmap in El. lia.
  - by split.
  - rewrite Er. destruct (decide (_ \/ _)), (decide _); try done; exfalso; lia.
  - intros H0. unfold groups. simpl. rewrite Ec by done. by rewrite drop_0.
Qed.

(** ** The system calls *)

(** The state of the groups between system calls: structures and pages are accounted
    for by the processes' pointers, and every list is sorted. *)
Record groups_inv (st : gstate) : Prop := {
  gi_counted : counted (mine st :: others st) st;
  gi_sorted : forall a l, groups_at st a = Some l -> sorted l;
}.

Lemma set_current_groups_spec st a gi :
  counted (a :: mine st :: others st) st -> heap st !! a = Some gi -> a <> mine st -> a ∉ others st ->
  (forall b l, b ∈ mine st :: others st -> groups_at st b = Some l -> sorted l) ->
  exists st', set_current_groups a st = Some (0, st') /\ counted (a :: a :: others st) st' /\
    kst st' = kst st /\ mine st' = a /\ others st' = others st /\
    (exists l, groups_at st' a = Some l /\ l ≡ₚ groups gi /\ sorted l) /\
    (forall b, b ∈ others st -> groups_at st' b = groups_at st b).
Proof.
  intros Hc Ha Hne Hno Hs. unfold set_current_groups. rewrite Ha. cbn [mbind option_bind security_task_setgroups].
  change (negb (0 =? 0)) with false. cbn iota.
  destruct (co_info _ _ Hc a gi Ha) as (Hok & _).
  destruct (groups_sort_spec gi Hok) as (g1 & E1 & S1 & P1 & Ok1 & Sh1). rewrite E1. cbn [mbind option_bind].
  pose proof (counted_replace _ _ _ _ _ Hc Ha Ok1 Sh1) as Hc1.
  destruct (get_info_spec _ _ a Hc1) as (st2 & E2 & Hc2 & (K2 & M2 & O2) & G2); [left |].
  rewrite E2. cbn [mbind option_bind]. simpl in K2, M2, O2. rewrite M2.
  assert (counted (mine st :: a :: a :: others st) (set_mine a st2)) as Hc3.
  { assert (mine st :: a :: a :: others st ≡ₚ a :: a :: mine st :: others st) as Hp.
    { etrans; [apply Permutation_swap | apply Permutation_skip, Permutation_swap]. }
    rewrite Hp. destruct Hc2. by split. }
  destruct (put_info_spec _ _ _ Hc3) as (st3 & E3 & Hc4 & (K3 & M3 & O3) & G3). rewrite E3. cbn [mbind option_bind].
  exists st3. split; [done |]. split; [done |]. simpl in K3, M3, O3.
  assert (forall b, groups_at (set_mine a st2) b = groups_at st2 b) as Hm by done.
  split_and!; [by rewrite K3 | done | by rewrite O3 | |].
  - exists (groups g1). rewrite G3, Hm, G2 by left. unfold groups_at. simpl. rewrite lookup_insert_eq. done.
  - intros b Hb. rewrite G3, Hm, G2 by (by do 2 right). unfold groups_at. simpl.
    rewrite lookup_insert_ne by (by intros <-). done.
Qed.

Lemma capable_ids cap k b k' : 0 <= cap -> capable cap k = (b, k') ->
  b = has cap (current k) /\ fsgid (current k') = fsgid (current k) /\ egid (current k') = egid (current k).
Proof. intros Hc. destruct (capable_eq cap k Hc) as (b' & ->). by intros [= <- <-]. Qed.

(** The whole of [sys_setgroups]. *)
Lemma sys_setgroups_spec n user kmalloc page st :
  groups_inv st -> alloc_ok st kmalloc page -> -2147483648 <= n < 2147483648 ->
  exists r st', sys_setgroups n user kmalloc page st = Some (r, st') /\ groups_inv st' /\
    fsgid (current (kst st')) = fsgid (current (kst st)) /\ egid (current (kst st')) = egid (current (kst st)) /\
    others st' = others st /\ (forall b, b ∈ others st -> groups_at st' b = groups_at st b) /\
    (r <> 0 -> heap st' = heap st /\ pages st' = pages st /\ mine st' = mine st) /\
    (r = 0 <-> has CAP_SETGID (current (kst st)) = true /\ 0 <= n <= NGROUPS_MAX /\ have_memory n kmalloc page /\
               n <= Z.of_nat (length user)) /\
    (r = 0 -> exists l, groups_at st' (mine st') = Some l /\ l ≡ₚ take (Z.to_nat n) user).
Proof.
  intros [Hc Hs] Hal Hn. unfold sys_setgroups.
  destruct (capable CAP_SETGID (kst st)) as [ok k] eqn:Ecap.
  destruct (capable_ids CAP_SETGID _ _ _ ltac:(done) Ecap) as (-> & Hfs & Heg).
  assert (forall r h', h' = heap st -> r <> 0 ->
    ~ (has CAP_SETGID (current (kst st)) = true /\ 0 <= n <= NGROUPS_MAX /\ have_memory n kmalloc page /\
       n <= Z.of_nat (length user)) ->
    exists r' st', Some (r, mk_gstate k h' (pages st) (mine st) (others st)) = Some (r', st') /\ groups_inv st' /\
    fsgid (current (kst st')) = fsgid (current (kst st)) /\ egid (current (kst st')) = egid (current (kst st)) /\
    others st' = others st /\ (forall b, b ∈ others st -> groups_at st' b = groups_at st b) /\
    (r' <> 0 -> heap st' = heap st /\ pages st' = pages st /\ mine st' = mine st) /\
    (r' = 0 <-> has CAP_SETGID (current (kst st)) = true /\ 0 <= n <= NGROUPS_MAX /\ have_memory n kmalloc page /\
               n <= Z.of_nat (length user)) /\
    (r' = 0 -> exists l, groups_at st' (mine st') = Some l /\ l ≡ₚ take (Z.to_nat n) user)) as Herr.
  { intros r h' -> Hr Hnot. eexists _, _. split; [reflexivity |]. simpl.
    split; [split; [destruct Hc; by split | exact Hs] |].
    split_and!; done. }
  destruct (has CAP_SETGID (current (kst st))); cbn [negb]; [| apply Herr; [done | done | naive_solver]].
  destruct (Z.ltb_spec NGROUPS_MAX (u32 n)) as [Hbig | Hsmall].
  { apply Herr; [done | done |]. intros (_ & Hr & _). unfold u32 in Hbig. rewrite Z.mod_small in Hbig; unfold NGROUPS_MAX in *; lia. }
  assert (0 <= n <= NGROUPS_MAX) as Hrange.
  { unfold u32, NGROUPS_MAX in *. destruct (decide (0 <= n)); [rewrite Z.mod_small in Hsmall; lia |].
    replace (n mod 4294967296) with (n + 4294967296) in Hsmall by (apply Z.mod_unique_pos with (-1); lia). lia. }
  pose proof (alloc_spec n kmalloc page (set_kst k st) Hrange Hal) as Hspec.
  destruct (groups_alloc n kmalloc page (set_kst k st)) as [[a |] st1].
  2: { destruct Hspec as [-> Hm]. apply (Herr (- ENOMEM) (heap st)); [done | done | naive_solver]. }
  destruct Hspec as (Hm & Hfresh & (K1 & M1 & O1) & gi & Eh & Ep & Hok & Hu & Hng). simpl in *.
  rewrite Eh, lookup_insert_eq. cbn [mbind option_bind].
  destruct (groups_from_user_spec gi user Hok) as (r & g1 & E1 & Ok1 & Sh1 & Hr & Hgr). rewrite E1. cbn [mbind option_bind].
  assert (counted (a :: mine st :: others st) st1) as Hc1.
  { eapply (counted_fresh _ (set_kst k st)); try done. destruct Hc. by split. }
  assert (a ∉ mine st :: others st) as Hna.
  { intros Hin. destruct (co_live _ _ Hc a Hin). congruence. }
  assert (heap st1 !! a = Some gi) as Ha1 by (rewrite Eh; apply lookup_insert_eq).
  pose proof (counted_replace _ _ _ _ _ Hc1 Ha1 Ok1 Sh1) as Hc2. rewrite Eh in Hc2.
  set (st2 := set_heap _ st1) in *.
  assert (heap st2 !! a = Some g1) as Ha2 by apply lookup_insert_eq.
  assert (forall b, b ∈ mine st :: others st -> groups_at st2 b = groups_at st b) as Hg2.
  { intros b Hb. unfold groups_at, st2. simpl. rewrite !lookup_insert_ne by (by intros <-). done. }
  destruct (decide _) as [Hfit | Hfault]; subst r; cbn [Z.eqb negb].
  - destruct (set_current_groups_spec st2 a g1) as (st3 & E3 & Hc3 & K3 & M3 & O3 & (l & Hl & Hpl & Hsl) & Hoth).
    + unfold st2. simpl. rewrite M1, O1. exact Hc2.
    + done.
    + unfold st2. simpl. rewrite M1. set_solver.
    + unfold st2. simpl. rewrite O1. set_solver.
    + intros b l. unfold st2 at 1 2. simpl. rewrite M1, O1. intros Hb. rewrite Hg2 by done. apply Hs.
    + rewrite E3. cbn [mbind option_bind]. unfold st2 in K3, O3. simpl in K3, O3. rewrite O1 in O3.
      unfold st2 in Hc3, Hoth. simpl in Hc3, Hoth. rewrite O1 in Hc3, Hoth. fold st2 in Hoth.
      destruct (put_info_spec _ _ _ Hc3) as (st4 & E4 & Hc4 & (K4 & M4 & O4) & G4). rewrite E4. cbn [mbind option_bind].
      exists 0, st4. split; [done |]. rewrite K4, K3, K1, O4, O3, M4, M3. split_and!; try done.
      * split; [by rewrite M4, M3, O4, O3 |]. intros b lb Hb.
        unfold groups_at in Hb. destruct (heap st4 !! b) as [gb |] eqn:Eb; [| done].
        destruct (co_info _ _ Hc4 b gb Eb) as (_ & _ & Hin).
        assert (groups_at st4 b = Some lb) as Hb' by (unfold groups_at; by rewrite Eb).
        rewrite G4 in Hb' by done. apply elem_of_cons in Hin as [-> | Hin]; [congruence |].
        rewrite Hoth, Hg2 in Hb' by (try done; by right). by eapply Hs.
      * intros b Hb. rewrite G4, Hoth, Hg2 by (try done; by right). done.
      * split; [intros _; split_and!; [done | lia | lia | done | lia] | done].
      * intros _. exists l. rewrite G4 by left. split; [done |]. rewrite Hpl, Hgr, Hng by done. done.
  - rewrite (put_last st2 a g1 Ha2) by (rewrite <- (ss_usage _ _ Sh1); exact Hu). cbn [mbind option_bind].
    replace (pages st2 - info_pages g1) with (pages st).
    2: { unfold st2. simpl. rewrite Ep. destruct Sh1 as [_ _ Sn Ss]. unfold info_pages. rewrite Sn, Ss. lia. }
    unfold st2. cbn [kst heap mine others set_heap]. rewrite K1, M1, O1. apply Herr; [| done | lia].
    rewrite delete_insert_eq, delete_insert_id; done.
Qed.

Lemma put_back st gi :
  heap st !! mine st = Some gi -> usage gi <> 0 ->
  put_group_info (mine st) (set_heap (<[mine st := set_usage (usage gi + 1) gi]> (heap st)) st) = Some st.
Proof.
  intros Hgi Hu. unfold put_group_info. cbn [heap set_heap]. rewrite lookup_insert_eq. cbn [mbind option_bind].
  assert (set_usage (usage (set_usage (usage gi + 1) gi) - 1) (set_usage (usage gi + 1) gi) = gi) as ->.
  { destruct gi. unfold set_usage. simpl. f_equal. lia. }
  rewrite (proj2 (Z.eqb_neq _ _) Hu). rewrite insert_insert_eq, insert_id by done. by destruct st.
Qed.

Lemma own_info st : groups_inv st -> exists gi, heap st !! mine st = Some gi /\ info_ok gi /\ 0 < usage gi /\ sorted (groups gi).
Proof.
  intros [Hc Hs]. destruct (co_live _ _ Hc (mine st) ltac:(left)) as [gi Hgi]. exists gi.
  destruct (co_info _ _ Hc _ _ Hgi) as (Hok & Hu & Hin). split_and!; [done | done | rewrite Hu; by apply nrefs_pos |].
  apply (Hs (mine st)). unfold groups_at. by rewrite Hgi.
Qed.

Lemma search_mine_spec st gi grp :
  groups_inv st -> heap st !! mine st = Some gi -> close_gids grp (groups gi) ->
  search_mine grp st = Some (if bool_decide (grp ∈ groups gi) then 1 else 0, st).
Proof.
  intros Hinv Hgi Hc. destruct (own_info st Hinv) as (gi' & E & Hok & Hu & Hs). assert (gi' = gi) as -> by congruence.
  unfold search_mine, get_group_info. rewrite Hgi. cbn [mbind option_bind mine set_heap heap].
  rewrite lookup_insert_eq. cbn [mbind option_bind].
  rewrite groups_search_spec; [| by apply info_ok_usage | done | done]. cbn [mbind option_bind].
  change (groups (set_usage (usage gi + 1) gi)) with (groups gi).
  rewrite put_back by (try done; lia). done.
Qed.

Lemma sys_getgroups_spec st gi m buf :
  groups_inv st -> heap st !! mine st = Some gi -> ngroups gi <= m -> 0 < m ->
  (Z.to_nat (ngroups gi) <= length buf)%nat ->
  sys_getgroups m buf st = Some (ngroups gi, write buf 0 (groups gi), st).
Proof.
  intros Hinv Hgi Hm Hpos Hbuf. destruct (own_info st Hinv) as (gi' & E & Hok & Hu & Hs). assert (gi' = gi) as -> by congruence.
  unfold sys_getgroups, get_group_info. rewrite (proj2 (Z.ltb_ge m 0)) by lia. rewrite Hgi.
  cbn [mbind option_bind mine set_heap heap]. rewrite lookup_insert_eq. cbn [mbind option_bind].
  rewrite (proj2 (Z.eqb_neq m 0)) by lia. cbn [negb ngroups set_usage]. rewrite (proj2 (Z.ltb_ge m _)) by lia.
  destruct Hok as [Hr Hun Hroom Hnb]. unfold groups_to_user. cbn [blocks ngroups set_usage].
  destruct (to_user_spec (blocks gi) 0 (ngroups gi) buf Hun) as (r & u & E1 & El & Er & Ec); [lia |].
  rewrite decide_True in Er by lia. subst r. rewrite E1. cbn [mbind option_bind]. change (negb (0 =? 0)) with false. cbn iota.
  rewrite put_back by (try done; lia). cbn [mbind option_bind]. rewrite Ec by done. done.
Qed.

(** Setting the groups and asking for membership. When [setgroups] succeeds with
    the first [n] entries of the user's array, in any order and with repetitions,
    [in_group_p] answers 1 exactly for the process' fsgid and the gids of the array
    and [in_egroup_p] exactly for its egid and those gids, as long as no two of the
    gids compared are 2^31 or more apart; [getgroups] with enough room returns [n]
    and stores the same gids in ascending order. None of the questions changes the
    state. *)
Lemma setgroups_membership n user kmalloc page st st' grp :
  groups_inv st -> alloc_ok st kmalloc page -> -2147483648 <= n < 2147483648 ->
  sys_setgroups n user kmalloc page st = Some (0, st') ->
  close_gids grp (take (Z.to_nat n) user) ->
  in_group_p grp st' =
    Some (if bool_decide (grp = fsgid (current (kst st)) \/ grp ∈ take (Z.to_nat n) user) then 1 else 0, st') /\
  in_egroup_p grp st' =
    Some (if bool_decide (grp = egid (current (kst st)) \/ grp ∈ take (Z.to_nat n) user) then 1 else 0, st') /\
  (forall m buf, n <= m -> 0 < m -> (Z.to_nat n <= length buf)%nat ->
    exists l, sys_getgroups m buf st' = Some (n, write buf 0 l, st') /\ l ≡ₚ take (Z.to_nat n) user /\ sorted l).
Proof.
  intros Hinv Hal Hn E Hclose.
  destruct (sys_setgroups_spec n user kmalloc page st Hinv Hal Hn)
    as (r & st1 & E1 & Hinv1 & Hfs & Heg & _ & _ & _ & Hiff & Hl).
  rewrite E in E1. injection E1 as <- <-. destruct (Hl eq_refl) as (l & Hgl & Hperm). clear Hl.
  destruct (proj1 Hiff eq_refl) as (_ & Hrange & _ & Hlen).
  destruct (own_info st' Hinv1) as (gi & Hgi & Hok & Hu & Hs).
  unfold groups_at in Hgl. rewrite Hgi in Hgl. injection Hgl as <-.
  assert (close_gids grp (groups gi)) as Hc by (unfold close_gids in *; by rewrite Hperm).
  assert (forall id, (if negb (grp =? id) then search_mine grp st' else Some (1, st')) =
    Some (if bool_decide (grp = id \/ grp ∈ take (Z.to_nat n) user) then 1 else 0, st')) as Hin.
  { intros id. destruct (Z.eqb_spec grp id) as [-> | Hne]; cbn [negb].
    - rewrite bool_decide_true by (by left). done.
    - rewrite (search_mine_spec st' gi grp) by done. erewrite bool_decide_ext; [reflexivity |].
      rewrite Hperm. split; [by right | by intros [|]]. }
  unfold in_group_p, in_egroup_p. rewrite Hfs, Heg. split_and!; [apply Hin | apply Hin |].
  intros m buf Hm Hpos Hbuf.
  assert (ngroups gi = n) as Hng.
  { apply Permutation_length in Hperm.
    rewrite length_groups, length_take in Hperm by done. destruct Hok as [? _ _ _]. lia. }
  exists (groups gi). rewrite <- Hng. split_and!; [| by rewrite Hng | done].
  apply sys_getgroups_spec; [done | done | lia | done | by rewrite Hng].
Qed.

(** [setgroups] on every path: it always returns; it succeeds exactly for a
    process with CAP_SETGID, a number of gids up to 65536, enough memory and a
    readable array, and then only the calling process' groups change. When it fails,
    also half-way through allocating pages or copying, nothing has changed. In every
    case the reference counts equal the number of processes that point to each
    structure and the pages in use are those of the live structures: nothing leaks
    and nothing is freed while referenced. *)
Lemma setgroups_accounting n user kmalloc page st :
  groups_inv st -> alloc_ok st kmalloc page -> -2147483648 <= n < 2147483648 ->
  exists r st', sys_setgroups n user kmalloc page st = Some (r, st') /\ groups_inv st' /\
    others st' = others st /\ (forall b, b ∈ others st -> groups_at st' b = groups_at st b) /\
    (r = 0 <-> has CAP_SETGID (current (kst st)) = true /\ 0 <= n <= NGROUPS_MAX /\ have_memory n kmalloc page /\
               n <= Z.of_nat (length user)) /\
    (r <> 0 -> heap st' = heap st /\ pages st' = pages st /\ mine st' = mine st).
Proof.
  intros Hinv Hal Hn.
  destruct (sys_setgroups_spec n user kmalloc page st Hinv Hal Hn) 
    as (r & st' & E & H1 & _ & _ & H2 & H3 & H4 & H5 & _).
  exists r, st'. do 5 (split; [assumption |]). assumption.
Qed.

(** Two processes share a structure with the one gid 7. *)
Definition groups_demo : gstate :=
  mk_gstate cap_demo {[ 5%nat := mk_info 1 2 1 true [replicate 32 7] ]} 0 5 [5%nat].

Lemma groups_demo_ok : groups_inv groups_demo /\ alloc_ok groups_demo (Some (6%nat, replicate 32 0)) (fun _ => None).
Proof.
  split; [split; [split |] |].
  - intros a gi. unfold groups_demo. simpl. intros [<- <-]%lookup_singleton_Some.
    split_and!; [split; simpl; [unfold NGROUPS_MAX; lia | lia | lia | done] | done | left].
  - intros a Ha. simpl in Ha. assert (a = 5%nat) as -> by (rewrite !elem_of_cons in Ha; destruct Ha as [| [| []%not_elem_of_nil]]; done).
    by eexists.
  - done.
  - intros a l. unfold groups_at, groups_demo. simpl. destruct (decide (a = 5%nat)) as [-> |].
    + rewrite lookup_singleton_eq. intros [= <-]. by apply sorted_short.
    + rewrite lookup_singleton_ne by done. done.
  - split; [intros a sb [= <- <-]; split; [by apply lookup_singleton_ne | done] | done].
Qed.

(** The comparison in [groups_search] is of the difference as a signed [int]: with
    gids that far apart a member is not found, although the list is sorted. *)
Lemma groups_search_misses_member :
  exists gi, info_ok gi /\ sorted (groups gi) /\ 0xf0000000 ∈ groups gi /\ groups_search gi 0xf0000000 = Some 0.
Proof.
  exists (mk_info 4 1 1 true [[0; 1; 2; 0xf0000000] ++ replicate 28 0]). split_and!.
  - split; simpl; [unfold NGROUPS_MAX; lia | lia | lia | done].
  - unfold groups. simpl. repeat constructor; lia.
  - unfold groups. simpl. rewrite !elem_of_cons. tauto.
  - vm_compute. reflexivity.
Qed.
