(* ===== verification/DPath.v ===== *)
(** * Path names of directory entries: fs/dcache.c ([__d_path], [d_path], [abs_d_path])

    Directory entries and mounts are tables indexed by their addresses. [__d_path]
    writes the path backwards from the end of a buffer; the model keeps the string
    that starts at the C pointer [end] and the one that starts at [retval], and the
    room left in the buffer. *)

From stdpp Require Import strings.
From S2P Require Import Prelude.

(** [struct super_block] as the security module sees it: its device, and the mount
    recorded by CONFIG_MOT_FEAT_SECURE_DRM. *)
Record super_block := mk_sb { s_dev : Z; s_vfsmount : option nat }.

(** [IS_ROOT(d)] is [d == d->d_parent]. *)
Record dentry := mk_dentry {
  d_parent : nat; d_name : string; d_unhashed : bool; d_sb : option super_block;
}.

Record vfsmount := mk_mnt { mnt_root : nat; mnt_mountpoint : nat; mnt_parent : nat }.

Record vfs := mk_vfs { dentries : list dentry; mounts : list vfsmount }.

Definition ENAMETOOLONG := 36.

(** A path, or the error of [ERR_PTR]. *)
Definition path_result : Type := string + Z.

Definition slen (s : string) : Z := Z.of_nat (String.length s).

(** The string without its first character, on which [global_root] writes the end of
    a name ([retval -= namelen-1; memcpy(retval, name, namelen)]). *)
Definition overwrite_slash (name s : string) : string :=
  match s with
  | EmptyString => name
  | String _ rest => if (String.length name =? 0)%nat then rest else (name ++ rest)%string
  end.

(** The loop; the outer [None] is a dangling pointer or the end of the fuel. *)
Fixpoint d_path_loop (fuel : nat) (v : vfs) (dentry vfsmnt root rootmnt : nat)
    (buflen : Z) (end_ retval : string) : option path_result :=
  match fuel with
  | O => None
  | S fuel =>
      if (dentry =? root)%nat && (vfsmnt =? rootmnt)%nat then Some (inl retval)
      else
        m ← mounts v !! vfsmnt;
        d ← dentries v !! dentry;
        if (dentry =? mnt_root m)%nat || (d_parent d =? dentry)%nat then
          if (mnt_parent m =? vfsmnt)%nat then
            if buflen - slen (d_name d) <? 0 then Some (inr (- ENAMETOOLONG))
            else Some (inl (overwrite_slash (d_name d) retval))
          else d_path_loop fuel v (mnt_mountpoint m) (mnt_parent m) root rootmnt buflen end_ retval
        else
          let buflen := buflen - (slen (d_name d) + 1) in
          if buflen <? 0 then Some (inr (- ENAMETOOLONG))
          else
            let end_ := ("/" ++ d_name d ++ end_)%string in
            d_path_loop fuel v (d_parent d) vfsmnt root rootmnt buflen end_ end_
  end.

(** Every round goes to a parent entry or to a parent mount: the product bounds
    them (see [d_path_loop_spec]). *)
Definition path_fuel (v : vfs) : nat := (S (length (mounts v)) * S (length (dentries v)))%nat.

Definition __d_path (v : vfs) (dentry vfsmnt root rootmnt : nat) (buflen : Z) : option path_result :=
  d ← dentries v !! dentry;
  let buflen := buflen - 1 in
  let deleted := negb (d_parent d =? dentry)%nat && d_unhashed d in
  let buflen := if deleted then buflen - 10 else buflen in
  if deleted && (buflen <? 0) then Some (inr (- ENAMETOOLONG))
  else if buflen <? 1 then Some (inr (- ENAMETOOLONG))
  else
    let end_ := if deleted then " (deleted)"%string else ""%string in
    d_path_loop (path_fuel v) v dentry vfsmnt root rootmnt buflen end_ ("/" ++ end_)%string.

(** [d_path] starts from the root of the calling process, [abs_d_path] from that of
    [init_task]; both are a pair of an entry and a mount. *)
Definition d_path (v : vfs) (fs_root : nat * nat) (dentry vfsmnt : nat) (buflen : Z) : option path_result :=
  __d_path v dentry vfsmnt fs_root.1 fs_root.2 buflen.

Definition abs_d_path (v : vfs) (init_root : nat * nat) (dentry vfsmnt : nat) (buflen : Z)
  : option path_result :=
  if (dentry =? init_root.1)%nat && (vfsmnt =? init_root.2)%nat then Some (inl "/"%string)
  else __d_path v dentry vfsmnt init_root.1 init_root.2 buflen.

(** * Correctness *)

(** An entry and its chain of names up to the root, innermost name first; crossing
    a mount point adds no name. *)
Inductive path_of (v : vfs) (root rootmnt : nat) : nat -> nat -> list string -> Prop :=
  | path_root : path_of v root rootmnt root rootmnt []
  | path_mount d m mm dd cs :
      (d <> root \/ m <> rootmnt) -> mounts v !! m = Some mm -> dentries v !! d = Some dd ->
      d = mnt_root mm \/ d_parent dd = d -> mnt_parent mm <> m ->
      path_of v root rootmnt (mnt_mountpoint mm) (mnt_parent mm) cs ->
      path_of v root rootmnt d m cs
  | path_child d m mm dd cs :
      (d <> root \/ m <> rootmnt) -> mounts v !! m = Some mm -> dentries v !! d = Some dd ->
      d <> mnt_root mm -> d_parent dd <> d ->
      path_of v root rootmnt (d_parent dd) m cs ->
      path_of v root rootmnt d m (d_name dd :: cs).

(** Entries and mounts are created after their parents. *)
Record vfs_wf (v : vfs) : Prop := {
  wf_parent : forall d dd, dentries v !! d = Some dd -> (d_parent dd <= d)%nat;
  wf_mount : forall m mm, mounts v !! m = Some mm -> (mnt_parent mm <= m)%nat;
  wf_point : forall m mm, mounts v !! m = Some mm -> (mnt_mountpoint mm < length (dentries v))%nat;
}.

(** The path spelled out: the names from the root down, then the suffix. *)
Fixpoint spell (cs : list string) (suffix : string) : string :=
  match cs with
  | [] => suffix
  | c :: cs => spell cs ("/" ++ c ++ suffix)
  end.

Definition path_string (cs : list string) (suffix : string) : string :=
  match cs with [] => ("/" ++ suffix)%string | _ => spell cs suffix end.

(** The room the names take: one byte more than each. *)
Definition path_room (cs : list string) : Z := foldr (fun c n => slen c + 1 + n) 0 cs.

Lemma path_room_nonneg cs : 0 <= path_room cs.
Proof. induction cs; simpl; unfold slen in *; lia. Qed.

Lemma d_path_loop_spec v root rootmnt d m cs :
  vfs_wf v -> path_of v root rootmnt d m cs ->
  forall fuel buflen e r, (m * S (length (dentries v)) + d < fuel)%nat -> (d < length (dentries v))%nat ->
    d_path_loop fuel v d m root rootmnt buflen e r =
      Some (if (0 <? path_room cs) && (buflen <? path_room cs) then inr (- ENAMETOOLONG)
            else inl (match cs with [] => r | _ => spell cs e end)).
Proof.
  intros Hwf. induction 1 as [| d m mm dd cs Hne Hm Hd Hr Hp _ IH | d m mm dd cs Hne Hm Hd Hr Hp _ IH];
    intros fuel buflen e r Hfuel Hlen; (destruct fuel as [| fuel]; [lia |]); cbn [d_path_loop].
  - by rewrite !Nat.eqb_refl.
  - assert ((d =? root)%nat && (m =? rootmnt)%nat = false) as ->
      by (apply andb_false_iff; rewrite !Nat.eqb_neq; tauto).
    rewrite Hm, Hd. cbn [mbind option_bind].
    assert ((d =? mnt_root mm)%nat || (d_parent dd =? d)%nat = true) as ->
      by (apply orb_true_iff; rewrite !Nat.eqb_eq; tauto).
    rewrite (proj2 (Nat.eqb_neq _ _) Hp). pose proof (wf_mount _ Hwf _ _ Hm). pose proof (wf_point _ Hwf _ _ Hm).
    apply IH; [nia | done].
  - assert ((d =? root)%nat && (m =? rootmnt)%nat = false) as ->
      by (apply andb_false_iff; rewrite !Nat.eqb_neq; tauto).
    rewrite Hm, Hd. cbn [mbind option_bind].
    rewrite (proj2 (Nat.eqb_neq _ _) Hr), (proj2 (Nat.eqb_neq _ _) Hp). cbn [orb].
    pose proof (path_room_nonneg cs) as Hroom. cbn [path_room foldr]. fold (path_room cs).
    assert (0 <= slen (d_name dd)) as Hs by (unfold slen; lia).
    pose proof (wf_parent _ Hwf _ _ Hd).
    rewrite (proj2 (Z.ltb_lt 0 (slen (d_name dd) + 1 + path_room cs))) by lia. cbn [andb].
    destruct (Z.ltb_spec (buflen - (slen (d_name dd) + 1)) 0) as [Hlt | Hge].
    { by rewrite (proj2 (Z.ltb_lt _ _)) by lia. }
    rewrite IH by lia. do 2 f_equal. cbn [spell].
    assert ((0 <? path_room cs) && (buflen - (slen (d_name dd) + 1) <? path_room cs) =
            (buflen <? slen (d_name dd) + 1 + path_room cs)) as ->.
    { destruct (Z.ltb_spec 0 (path_room cs)), (Z.ltb_spec (buflen - (slen (d_name dd) + 1)) (path_room cs)),
        (Z.ltb_spec buflen (slen (d_name dd) + 1 + path_room cs)); done || lia. }
    by destruct cs.
Qed.

(** [__d_path] spells the path of a directory entry from the given root,
    through its parents and across mount points, with " (deleted)" appended for an
    unlinked entry; it terminates, and it fails with ENAMETOOLONG exactly when the
    path and its terminating NUL do not fit in the buffer. *)
Lemma d_path_spec v d m root rootmnt cs dd buflen :
  vfs_wf v -> path_of v root rootmnt d m cs -> dentries v !! d = Some dd ->
  (m < length (mounts v))%nat ->
  let deleted := negb (d_parent dd =? d)%nat && d_unhashed dd in
  let suffix := if deleted then " (deleted)"%string else ""%string in
  __d_path v d m root rootmnt buflen =
    Some (if buflen <? 1 + slen suffix + Z.max 1 (path_room cs) then inr (- ENAMETOOLONG)
          else inl (path_string cs suffix)).
Proof.
  intros Hwf Hpath Hd Hm deleted suffix. unfold __d_path. rewrite Hd. cbn [mbind option_bind].
  fold deleted. fold suffix. pose proof (path_room_nonneg cs) as Hroom.
  assert (buflen - 1 - slen suffix = if deleted then buflen - 1 - 10 else buflen - 1) as Hb
    by (unfold suffix, slen; destruct deleted; simpl; lia).
  assert (0 <= slen suffix) by (unfold slen; lia).
  replace (if deleted then buflen - 1 - 10 else buflen - 1) with (buflen - 1 - slen suffix).
  destruct (deleted && (buflen - 1 - slen suffix <? 0)) eqn:Hdel.
  { apply andb_true_iff in Hdel as [_ Hlt%Z.ltb_lt]. by rewrite (proj2 (Z.ltb_lt _ _)) by lia. }
  destruct (Z.ltb_spec (buflen - 1 - slen suffix) 1).
  { by rewrite (proj2 (Z.ltb_lt _ _)) by lia. }
  pose proof (lookup_lt_Some _ _ _ Hd) as Hdl.
  rewrite (d_path_loop_spec v root rootmnt d m cs); [| done | done | unfold path_fuel; nia | done].
  f_equal. unfold path_string.
  assert ((0 <? path_room cs) && (buflen - 1 - slen suffix <? path_room cs) =
          (buflen <? 1 + slen suffix + Z.max 1 (path_room cs))) as ->; [| by destruct cs].
  destruct (Z.ltb_spec 0 (path_room cs)), (Z.ltb_spec (buflen - 1 - slen suffix) (path_room cs)),
    (Z.ltb_spec buflen (1 + slen suffix + Z.max 1 (path_room cs))); done || lia.
Qed.

(** A root file system with /bin/tcmd on it and a second one mounted on /mnt. *)
Definition vfs_demo : vfs :=
  let sb := Some (mk_sb 7 (Some 0%nat)) in
  mk_vfs [mk_dentry 0 "/" false sb; mk_dentry 0 "bin" false sb; mk_dentry 1 "tcmd" false sb;
          mk_dentry 0 "mnt" false sb; mk_dentry 4 "/" false (Some (mk_sb 8 (Some 1%nat)));
          mk_dentry 4 "old" true (Some (mk_sb 8 (Some 1%nat)))]
    [mk_mnt 0 0 0; mk_mnt 4 3 0].

Lemma vfs_demo_wf : vfs_wf vfs_demo.
Proof.
  split.
  - intros d dd H. do 6 (destruct d as [| d]; [injection H as <-; simpl; lia |]). done.
  - intros m mm H. do 2 (destruct m as [| m]; [injection H as <-; simpl; lia |]). done.
  - intros m mm H. do 2 (destruct m as [| m]; [injection H as <-; simpl; lia |]). done.
Qed.
