(* ===== verification/MotSec.v ===== *)
(** * The Motorola security module: security/motsecurity.c, security/motsecurity_sysfs.c, with the exec path of fs/exec.c and the exec hooks of security/commoncap.c

    The module is built with CONFIG_MOT_FEAT_SECURE_CLOCK, CONFIG_MOT_FEAT_SECURE_DRM
    and CONFIG_MOT_FEAT_SECURE_MOUNT. It gives the capability CAP_SECURE_CLOCK and a
    word of DRM permissions to the executables of two lists, denies access to the
    protected files to the tasks whose word lacks their domain, and restricts mounts
    to a list once that list is locked. [strcmp(a, b) == 0] is equality of the
    strings, [strncmp(a, b, n) == 0] equality of their first [n] characters. *)

From stdpp Require Import gmap strings.
From S2P Require Import Prelude Cred DPath.

#[local] Notation "a .| b" := (Z.lor a b) (at level 50, left associativity) : kernel_scope.

Definition strncmp_eq (a b : string) (n : nat) : bool :=
  String.eqb (String.substring 0 n a) (String.substring 0 n b).

Definition PAGE_SIZE : Z := 4096.

(** ** The DRM permission words *)

Definition JANUS_DRM_WRITE := 0x00000001.
Definition JANUS_DRM_READ := 0x00000002.
Definition JANUS_DRM_RW := JANUS_DRM_WRITE .| JANUS_DRM_READ.
Definition SECURE_CLOCK_READ := 0x00000004.
Definition SECURE_CLOCK_WRITE := 0x00000008.
Definition SECURE_CLOCK_RW := SECURE_CLOCK_WRITE .| SECURE_CLOCK_READ.
Definition OMA2_DRM_READ := 0x00000010.
Definition OMA2_DRM_WRITE := 0x00000020.
Definition OMA2_DRM_RW := OMA2_DRM_WRITE .| OMA2_DRM_READ.
Definition USER_APPS_AUTH_READ := 0x000040.
Definition USER_APPS_AUTH_WRITE := 0x000080.
Definition USER_APPS_AUTH_RW := USER_APPS_AUTH_READ .| USER_APPS_AUTH_WRITE.
Definition DRM_WRITE := JANUS_DRM_WRITE .| SECURE_CLOCK_WRITE .| OMA2_DRM_WRITE .| USER_APPS_AUTH_WRITE.
Definition DRM_READ := JANUS_DRM_READ .| SECURE_CLOCK_READ .| OMA2_DRM_READ .| USER_APPS_AUTH_READ.

Record mot_file_perms := mk_perms { filepath : string; domain : Z }.
Record mot_dir_perms := mk_dir { perms : mot_file_perms; files : list mot_file_perms }.

(** The tables, without their terminating entries. *)
Definition etc_janus_files : list mot_file_perms :=
  [mk_perms "/etc/pds/janus/hashsdidmap.dat" JANUS_DRM_RW;
   mk_perms "/etc/pds/janus/hashsdidmap.bak" JANUS_DRM_RW].

Definition etc_security_files : list mot_file_perms :=
  [mk_perms "/etc/pds/security/ivtcounter.dat" (JANUS_DRM_RW .| OMA2_DRM_RW .| SECURE_CLOCK_RW .| USER_APPS_AUTH_RW);
   mk_perms "/etc/pds/security/ivtcounter.bak" (JANUS_DRM_RW .| OMA2_DRM_RW .| SECURE_CLOCK_RW .| USER_APPS_AUTH_RW);
   mk_perms "/etc/pds/security/ivtkey.dat" (JANUS_DRM_RW .| OMA2_DRM_RW .| SECURE_CLOCK_RW .| USER_APPS_AUTH_RW);
   mk_perms "/etc/pds/security/ivtkey.bak" (JANUS_DRM_RW .| OMA2_DRM_RW .| SECURE_CLOCK_RW .| USER_APPS_AUTH_RW);
   mk_perms "/etc/pds/security/keyring.dat" (JANUS_DRM_RW .| OMA2_DRM_RW);
   mk_perms "/etc/pds/security/keyring.bak" (JANUS_DRM_RW .| OMA2_DRM_RW);
   mk_perms "/etc/pds/security/keymaptable.dat" (JANUS_DRM_RW .| OMA2_DRM_RW);
   mk_perms "/etc/pds/security/keymaptable.bak" (JANUS_DRM_RW .| OMA2_DRM_RW);
   mk_perms "/etc/pds/security/janusCertTemplate.dat" JANUS_DRM_RW;
   mk_perms "/etc/pds/security/janusCertTemplate.bak" JANUS_DRM_RW;
   mk_perms "/etc/pds/security/janusDeviceCert.dat" JANUS_DRM_RW;
   mk_perms "/etc/pds/security/janusDeviceCert.bak" JANUS_DRM_RW;
   mk_perms "/etc/pds/security/ivt.dat" (JANUS_DRM_RW .| OMA2_DRM_RW .| SECURE_CLOCK_RW .| USER_APPS_AUTH_RW);
   mk_perms "/etc/pds/security/ivt.bak" (JANUS_DRM_RW .| OMA2_DRM_RW .| SECURE_CLOCK_RW .| USER_APPS_AUTH_RW);
   mk_perms "/etc/pds/security/omaDRMmotorola.dat" OMA2_DRM_RW;
   mk_perms "/etc/pds/security/omaDRMmotorola.bak" OMA2_DRM_RW;
   mk_perms "/etc/pds/security/omaDRMcmla.dat" OMA2_DRM_RW;
   mk_perms "/etc/pds/security/omaDRMcmla.bak" OMA2_DRM_RW;
   mk_perms "/etc/pds/security/omaDRMfrancetelecom.dat" OMA2_DRM_RW;
   mk_perms "/etc/pds/security/omaDRMfrancetelecom.bak" OMA2_DRM_RW;
   mk_perms "/etc/pds/security/ivtpdsFScounter.dat" (JANUS_DRM_RW .| OMA2_DRM_RW .| SECURE_CLOCK_RW .| USER_APPS_AUTH_RW);
   mk_perms "/etc/pds/security/ivtpdsFScounter.bak" (JANUS_DRM_RW .| OMA2_DRM_RW .| SECURE_CLOCK_RW .| USER_APPS_AUTH_RW)].

Definition ezxlocal_tpa_files : list mot_file_perms :=
  [mk_perms "/ezxlocal/etc/tpa" (JANUS_DRM_RW .| OMA2_DRM_RW .| SECURE_CLOCK_RW .| USER_APPS_AUTH_RW);
   mk_perms "/ezxlocal/etc/tpa/bctr.dat" (JANUS_DRM_RW .| OMA2_DRM_RW .| SECURE_CLOCK_RW .| USER_APPS_AUTH_RW);
   mk_perms "/ezxlocal/etc/tpa/ivt.dat" (JANUS_DRM_RW .| OMA2_DRM_RW .| SECURE_CLOCK_RW .| USER_APPS_AUTH_RW);
   mk_perms "/ezxlocal/etc/tpa/ivt.temp" (JANUS_DRM_RW .| OMA2_DRM_RW .| SECURE_CLOCK_RW .| USER_APPS_AUTH_RW);
   mk_perms "/ezxlocal/etc/tpa/ivt.lock" (JANUS_DRM_RW .| OMA2_DRM_RW .| SECURE_CLOCK_RW .| USER_APPS_AUTH_RW);
   mk_perms "/ezxlocal/etc/tpa/keymgr.lock" (JANUS_DRM_RW .| OMA2_DRM_RW .| USER_APPS_AUTH_RW);
   mk_perms "/ezxlocal/etc/tpa/tpa.log" (JANUS_DRM_RW .| SECURE_CLOCK_RW .| OMA2_DRM_RW);
   mk_perms "/ezxlocal/etc/tpa/persistent" (JANUS_DRM_WRITE .| SECURE_CLOCK_WRITE .| OMA2_DRM_WRITE .| USER_APPS_AUTH_WRITE);
   mk_perms "/ezxlocal/etc/tpa/persistent/ivtcounter.lock" (JANUS_DRM_RW .| OMA2_DRM_RW .| SECURE_CLOCK_RW .| USER_APPS_AUTH_RW);
   mk_perms "/ezxlocal/etc/tpa/persistent/ivtkey.lock" (JANUS_DRM_RW .| OMA2_DRM_RW .| SECURE_CLOCK_RW .| USER_APPS_AUTH_RW);
   mk_perms "/ezxlocal/etc/tpa/persistent/janusTimeStamp.dat" JANUS_DRM_RW;
   mk_perms "/ezxlocal/etc/tpa/persistent/janusTimeStamp.bak" JANUS_DRM_RW;
   mk_perms "/ezxlocal/etc/tpa/persistent/simPinStore.dat" JANUS_DRM_RW;
   mk_perms "/ezxlocal/etc/tpa/persistent/simPinStore.bak" JANUS_DRM_RW;
   mk_perms "/ezxlocal/etc/tpa/persistent/keyring.lock" (JANUS_DRM_RW .| OMA2_DRM_RW);
   mk_perms "/ezxlocal/etc/tpa/persistent/keymaptable.lock" (JANUS_DRM_RW .| OMA2_DRM_RW);
   mk_perms "/ezxlocal/etc/tpa/persistent/janusCertTemplate.lock" JANUS_DRM_RW;
   mk_perms "/ezxlocal/etc/tpa/persistent/janusDeviceCert.lock" JANUS_DRM_RW;
   mk_perms "/ezxlocal/etc/tpa/persistent/janusTimeStamp.lock" JANUS_DRM_RW;
   mk_perms "/ezxlocal/etc/tpa/persistent/simPinStore.lock" JANUS_DRM_RW;
   mk_perms "/ezxlocal/etc/tpa/persistent/ivt.lock" (JANUS_DRM_RW .| OMA2_DRM_RW .| SECURE_CLOCK_RW .| USER_APPS_AUTH_RW);
   mk_perms "/ezxlocal/etc/tpa/persistent/secclkJanusOffset.dat" SECURE_CLOCK_RW;
   mk_perms "/ezxlocal/etc/tpa/persistent/secclkNitzOffset.dat" SECURE_CLOCK_RW;
   mk_perms "/ezxlocal/etc/tpa/persistent/secclkAlarm.dat" SECURE_CLOCK_RW;
   mk_perms "/ezxlocal/etc/tpa/persistent/secclkDrift.dat" SECURE_CLOCK_RW;
   mk_perms "/ezxlocal/etc/tpa/persistent/secclkLastRtcVal.dat" SECURE_CLOCK_RW;
   mk_perms "/ezxlocal/etc/tpa/persistent/secclkOMA2DRMOffset.dat" SECURE_CLOCK_RW;
   mk_perms "/ezxlocal/etc/tpa/persistent/secclkUserOffset.dat" SECURE_CLOCK_RW;
   mk_perms "/ezxlocal/etc/tpa/persistent/secclkJanusOffset.lock" SECURE_CLOCK_RW;
   mk_perms "/ezxlocal/etc/tpa/persistent/secclkNitzOffset.lock" SECURE_CLOCK_RW;
   mk_perms "/ezxlocal/etc/tpa/persistent/secclkAlarm.lock" SECURE_CLOCK_RW;
   mk_perms "/ezxlocal/etc/tpa/persistent/secclkDrift.lock" SECURE_CLOCK_RW;
   mk_perms "/ezxlocal/etc/tpa/persistent/secclkLastRtcVal.lock" SECURE_CLOCK_RW;
   mk_perms "/ezxlocal/etc/tpa/persistent/secclkOMA2DRMOffset.lock" SECURE_CLOCK_RW;
   mk_perms "/ezxlocal/etc/tpa/persistent/secclkUserOffset.lock" SECURE_CLOCK_RW;
   mk_perms "/ezxlocal/etc/tpa/persistent/secclkJanusOffset.bak" SECURE_CLOCK_RW;
   mk_perms "/ezxlocal/etc/tpa/persistent/secclkNitzOffset.bak" SECURE_CLOCK_RW;
   mk_perms "/ezxlocal/etc/tpa/persistent/secclkAlarm.bak" SECURE_CLOCK_RW;
   mk_perms "/ezxlocal/etc/tpa/persistent/secclkDrift.bak" SECURE_CLOCK_RW;
   mk_perms "/ezxlocal/etc/tpa/persistent/secclkLastRtcVal.bak" SECURE_CLOCK_RW;
   mk_perms "/ezxlocal/etc/tpa/persistent/secclkOMA2DRMOffset.bak" SECURE_CLOCK_RW;
   mk_perms "/ezxlocal/etc/tpa/persistent/secclkUserOffset.bak" SECURE_CLOCK_RW;
   mk_perms "/ezxlocal/etc/tpa/persistent/omaDRMmotorola.lock" OMA2_DRM_RW;
   mk_perms "/ezxlocal/etc/tpa/persistent/omaDRMcmla.lock" OMA2_DRM_RW;
   mk_perms "/ezxlocal/etc/tpa/persistent/omaDRMfrancetelecom.lock" OMA2_DRM_RW].

Definition ezxlocal_oma2_files : list mot_file_perms :=
  [mk_perms "/ezxlocal/download/appwrite/drm/oadb/data/AssetRO" OMA2_DRM_RW;
   mk_perms "/ezxlocal/download/appwrite/drm/oadb/data/BlackList" OMA2_DRM_RW;
   mk_perms "/ezxlocal/download/appwrite/drm/oadb/data/ConsentWhiteList" OMA2_DRM_RW;
   mk_perms "/ezxlocal/download/appwrite/drm/oadb/data/DCFMetadata" OMA2_DRM_RW;
   mk_perms "/ezxlocal/download/appwrite/drm/oadb/data/DomainContext" OMA2_DRM_RW;
   mk_perms "/ezxlocal/download/appwrite/drm/oadb/data/DomainRO" OMA2_DRM_RW;
   mk_perms "/ezxlocal/download/appwrite/drm/oadb/data/OCSPResponder" OMA2_DRM_RW;
   mk_perms "/ezxlocal/download/appwrite/drm/oadb/data/RICertificate" OMA2_DRM_RW;
   mk_perms "/ezxlocal/download/appwrite/drm/oadb/data/RIContext" OMA2_DRM_RW;
   mk_perms "/ezxlocal/download/appwrite/drm/oadb/data/RIRO" OMA2_DRM_RW;
   mk_perms "/ezxlocal/download/appwrite/drm/oadb/data/Replay" OMA2_DRM_RW;
   mk_perms "/ezxlocal/download/appwrite/drm/oadb/data/ReplayInfo" OMA2_DRM_RW;
   mk_perms "/ezxlocal/download/appwrite/drm/oadb/data/ReplayNoTimestamp" OMA2_DRM_RW;
   mk_perms "/ezxlocal/download/appwrite/drm/oadb/data/ReplaySort" OMA2_DRM_RW;
   mk_perms "/ezxlocal/download/appwrite/drm/oadb/data/RiDomain" OMA2_DRM_RW;
   mk_perms "/ezxlocal/download/appwrite/drm/oadb/data/RightsObject" OMA2_DRM_RW;
   mk_perms "/ezxlocal/download/appwrite/drm/oadb/data/RightsObjectXML" OMA2_DRM_RW;
   mk_perms "/ezxlocal/download/appwrite/drm/oadb/data/TrustAnchor" OMA2_DRM_RW;
   mk_perms "/ezxlocal/download/appwrite/drm/oadb/data/WhiteList" OMA2_DRM_RW].

Definition protected_dirs : list mot_dir_perms :=
  [mk_dir (mk_perms "/etc/pds/janus" JANUS_DRM_WRITE) etc_janus_files;
   mk_dir (mk_perms "/etc/pds/security"
     (JANUS_DRM_WRITE .| SECURE_CLOCK_WRITE .| OMA2_DRM_WRITE .| USER_APPS_AUTH_WRITE)) etc_security_files;
   mk_dir (mk_perms "/ezxlocal/etc"
     (JANUS_DRM_WRITE .| SECURE_CLOCK_WRITE .| OMA2_DRM_WRITE .| USER_APPS_AUTH_WRITE)) ezxlocal_tpa_files;
   mk_dir (mk_perms "/ezxlocal/download/appwrite/drm/oadb/data" OMA2_DRM_WRITE) ezxlocal_oma2_files].

(** ** Looking up the protection of a file *)

(** A pointer to an entry, [NULL], or an error. *)
Inductive fp_result :=
  | FpErr (e : Z)
  | FpNull
  | Fp (fp : mot_file_perms).

Fixpoint find_file (path : string) (l : list mot_file_perms) : option mot_file_perms :=
  match l with
  | [] => None
  | f :: l => if String.eqb path (filepath f) then Some f else find_file path l
  end.

(** The loop over [protected_dirs]: a directory whose name the path begins with is
    searched, and the search goes on with the next directory when it has no such
    file. *)
Fixpoint protected_lookup (path : string) (dirs : list mot_dir_perms) : option mot_file_perms :=
  match dirs with
  | [] => None
  | d :: dirs =>
      let dirname := filepath (perms d) in
      if strncmp_eq path dirname (String.length dirname) then
        if String.eqb path dirname then Some (perms d)
        else match find_file path (files d) with
             | Some f => Some f
             | None => protected_lookup path dirs
             end
      else protected_lookup path dirs
  end.

(** What the hooks see of the machine: the file systems, the root of [init_task],
    the device of the root file system. *)
Record machine := mk_machine { fs : vfs; init_root : nat * nat; ROOT_DEV : Z }.

(** [page] is whether [__get_free_page] succeeds. The outer [None] is a bad pointer. *)
Definition protected_file_info (w : machine) (page : bool) (d : nat) (rootmnt : option nat)
  : option fp_result :=
  match rootmnt with
  | None => Some FpNull
  | Some m =>
      if negb page then Some (FpErr (- ENOMEM))
      else
        r ← abs_d_path (fs w) (init_root w) d m PAGE_SIZE;
        match r with
        | inr e => Some (FpErr e)
        | inl path =>
            match protected_lookup path protected_dirs with
            | Some fp => Some (Fp fp)
            | None => Some FpNull
            end
        end
  end.

Definition on_rootfs (w : machine) (d : dentry) : bool :=
  match d_sb d with
  | None => true
  | Some sb => s_dev sb =? ROOT_DEV w
  end.

(** ** The inode hooks *)


(** [(domain & X) != 0 && ((domain & perms) & X) == 0], for [X] one of the masks. *)
Definition lacks (dom security x : Z) : bool :=
  negb (Z.land dom x =? 0) && (Z.land (Z.land dom security) x =? 0).

(** [dentry->d_sb->s_vfsmount]; no superblock is a null dereference. *)
Definition sb_vfsmount (w : machine) (d : nat) : option (option nat) :=
  dd ← dentries (fs w) !! d; sb ← d_sb dd; Some (s_vfsmount sb).






Definition mot_security_inode_rename (w : machine) (page1 page2 : bool) (cur : task)
    (old_dentry new_dentry : nat) : option Z :=
  old_vfsmnt ← sb_vfsmount w old_dentry;
  new_vfsmnt ← sb_vfsmount w new_dentry;
  fp1 ← protected_file_info w page1 old_dentry old_vfsmnt;
  fp2 ← protected_file_info w page2 new_dentry new_vfsmnt;
  match fp1, fp2 with
  | FpErr e, _ => Some e
  | _, FpErr e => Some e
  | FpNull, FpNull => Some 0
  | Fp _, FpNull => Some (- EPERM)
  | FpNull, Fp fp2 => if lacks (domain fp2) (security cur) DRM_WRITE then Some (- EPERM) else Some 0
  | Fp fp1, Fp fp2 =>
      if negb (domain fp2 =? domain fp1) then Some (- EPERM)
      else if lacks (domain fp1) (security cur) DRM_READ then Some (- EPERM)
      else if lacks (domain fp2) (security cur) DRM_WRITE then Some (- EPERM)
      else Some 0
  end.


Definition mot_security_coredump (cur : task) : Z := Z.land (security cur) DRM_READ.

(** ** Executing a program *)

(** [struct linux_binprm]: the file, the ids and the sets it is given. *)
Record linux_binprm := mk_bprm {
  b_dentry : nat; b_mnt : nat;
  e_uid : Z; e_gid : Z;
  b_cap_inheritable : Z; b_cap_permitted : Z; b_cap_effective : Z;
  b_security : Z;
}.

Definition set_b_caps (i p e : Z) (b : linux_binprm) : linux_binprm :=
  mk_bprm (b_dentry b) (b_mnt b) (e_uid b) (e_gid b) i p e (b_security b).
Definition set_b_security (s : Z) (b : linux_binprm) : linux_binprm :=
  mk_bprm (b_dentry b) (b_mnt b) (e_uid b) (e_gid b)
    (b_cap_inheritable b) (b_cap_permitted b) (b_cap_effective b) s.
Definition set_b_ids (u g : Z) (b : linux_binprm) : linux_binprm :=
  mk_bprm (b_dentry b) (b_mnt b) u g
    (b_cap_inheritable b) (b_cap_permitted b) (b_cap_effective b) (b_security b).

Section Exec.
(** [securebits] and [cap_bset] are the globals of kernel/capability.c; [fs_root] is
    the root directory of the calling process. *)
Context (w : machine) (securebits cap_bset : Z) (fs_root : nat * nat).

Definition cap_bprm_set_security (cur : task) (b : linux_binprm) : linux_binprm :=
  let b := set_b_caps 0 0 0 b in
  if negb (issecure securebits SECURE_NOROOT) then
    let b := if (e_uid b =? 0) || (uid cur =? 0)
             then set_b_caps CAP_FULL_SET CAP_FULL_SET (b_cap_effective b) b else b in
    if e_uid b =? 0 then set_b_caps (b_cap_inheritable b) (b_cap_permitted b) CAP_FULL_SET b else b
  else b.

Definition secure_clock_paths : list string := ["/usr/local/bin/secclkd"; "/bin/tcmd"]%string.
Definition MAXLEN : nat := 23.

(** The loop over [secure_clock_paths]. *)
Definition secure_clock_match (path : string) : bool :=
  existsb (fun p => let maxlen := String.length p in
                    strncmp_eq path p (if (MAXLEN <? maxlen)%nat then MAXLEN else maxlen))
    secure_clock_paths.

Definition secure_drm_paths : list mot_file_perms :=
  [mk_perms "/bin/modem_services" JANUS_DRM_RW;
   mk_perms "/usr/local/bin/generate_ivt" (JANUS_DRM_RW .| SECURE_CLOCK_RW);
   mk_perms "/usr/bin/mediaplayer" JANUS_DRM_RW;
   mk_perms "/usr/SYSqtapp/downloadmanager/downloadmanager" JANUS_DRM_RW;
   mk_perms "/usr/SYSqtapp/mediaplayer/mediaplayer" JANUS_DRM_RW;
   mk_perms "/usr/SYSqtapp/mediafinder/mediafinder" JANUS_DRM_RW;
   mk_perms "/usr/bin/mediafinder" JANUS_DRM_RW;
   mk_perms "/usr/bin/mfmsp/mfmsp" JANUS_DRM_RW;
   mk_perms "/usr/SYSqtapp/mystuff/mystuff" JANUS_DRM_RW;
   mk_perms "/usr/SYSjava/kvm" JANUS_DRM_RW;
   mk_perms "/usr/SYSqtapp/mtp/mtpmgr" JANUS_DRM_RW;
   mk_perms "/usr/SYSqtapp/messaging/messaging" JANUS_DRM_RW;
   mk_perms "/usr/local/bin/secclkd" SECURE_CLOCK_RW;
   mk_perms "/bin/tcmd" (JANUS_DRM_RW .| SECURE_CLOCK_RW .| OMA2_DRM_RW);
   mk_perms "/usr/SYSqtapp/drmfs/drmfs" OMA2_DRM_RW;
   mk_perms "/usr/SYSqtapp/drmdaemon/udadaemon" OMA2_DRM_RW;
   mk_perms "/usr/SYSqtapp/email/email" USER_APPS_AUTH_RW;
   mk_perms "/usr/SYSqtapp/motosync/motosync" USER_APPS_AUTH_RW;
   mk_perms "/usr/SYSqtapp/motosync/airsync" USER_APPS_AUTH_RW;
   mk_perms "/usr/SYSqtapp/provision/as_prov" USER_APPS_AUTH_RW].

(** [page] is whether [__get_free_page] succeeds. The result is the return value,
    the calling task and the binary's record. *)
Definition mot_security_bprm_set_security (page : bool) (cur : task) (b : linux_binprm)
  : option (Z * task * linux_binprm) :=
  let b := cap_bprm_set_security cur b in
  dd ← dentries (fs w) !! b_dentry b;
  (* the secure clock *)
  '(cur, b) ←
    (if on_rootfs w dd then
       path ← d_path (fs w) fs_root (b_dentry b) (b_mnt b) (Z.of_nat MAXLEN);
       match path with
       | inr _ => Some (cur, b)
       | inl path =>
           if secure_clock_match path then
             Some (set_cap_inheritable (cap_raise (cap_inheritable cur) CAP_SECURE_CLOCK)
                     (set_cap_permitted (cap_raise (cap_permitted cur) CAP_SECURE_CLOCK) cur),
                   set_b_caps (cap_raise (b_cap_inheritable b) CAP_SECURE_CLOCK) (b_cap_permitted b)
                     (cap_raise (b_cap_effective b) CAP_SECURE_CLOCK) b)
           else Some (cur, b)
       end
     else Some (cur, b));
  (* the DRM permissions *)
  let b := set_b_security 0 b in
  if on_rootfs w dd then
    if negb page then Some (- ENOMEM, cur, b)
    else
      path ← abs_d_path (fs w) (init_root w) (b_dentry b) (b_mnt b) PAGE_SIZE;
      match path with
      | inl path =>
          match find_file path secure_drm_paths with
          | Some f => Some (0, cur, set_b_security (domain f) b)
          | None => Some (0, cur, b)
          end
      | inr _ => Some (0, cur, b)
      end
  else Some (0, cur, b).

Definition LSM_UNSAFE_SHARE := 1.
Definition LSM_UNSAFE_PTRACE := 2.
Definition LSM_UNSAFE_PTRACE_CAP := 4.

(** [capable] is evaluated on the calling task, which it may mark. *)
Definition cap_bprm_apply_creds (cur : task) (b : linux_binprm) (unsafe : Z) : task :=
  let new_permitted := cap_intersect (b_cap_permitted b) cap_bset in
  let working := cap_intersect (b_cap_inheritable b) (cap_inheritable cur) in
  let new_permitted := cap_combine new_permitted working in
  let can c := cap_raised (cap_effective cur) c in
  let changes := negb (e_uid b =? uid cur) || negb (e_gid b =? gid cur) ||
                 negb (cap_issubset new_permitted (cap_permitted cur)) in
  let guarded := changes && negb (Z.land unsafe (not32 LSM_UNSAFE_PTRACE_CAP) =? 0) in
  let b := if guarded && negb (can CAP_SETUID) then set_b_ids (uid cur) (gid cur) b else b in
  let new_permitted := if guarded && negb (can CAP_SETPCAP)
                       then cap_intersect new_permitted (cap_permitted cur) else new_permitted in
  let cur := if changes then set_dumpable false cur else cur in
  let cur := if guarded && (can CAP_SETUID || can CAP_SETPCAP) then set_superpriv true cur else cur in
  let cur := set_suid (e_uid b) (set_euid (e_uid b) (set_fsuid (e_uid b) cur)) in
  let cur := set_sgid (e_gid b) (set_egid (e_gid b) (set_fsgid (e_gid b) cur)) in
  let cur := if negb (pid cur =? 1)
             then set_cap_effective (cap_intersect new_permitted (b_cap_effective b))
                    (set_cap_permitted new_permitted cur)
             else cur in
  set_keep_capabilities false cur.

Definition mot_security_bprm_apply_creds (cur : task) (b : linux_binprm) (unsafe : Z) : task :=
  set_security (b_security b) (cap_bprm_apply_creds cur b unsafe).

(** ** fs/exec.c *)

Definition S_ISUID := 0x800.
Definition S_ISGID := 0x400.
Definition S_IXGRP := 0x8.

(** The executable: its inode, whether the file has operations, and whether its
    mount has MNT_NOSUID. *)
Record exec_file := mk_file {
  i_mode : Z; i_uid : Z; i_gid : Z; has_f_op : bool; nosuid : bool; f_dentry : nat; f_vfsmnt : nat;
}.

(** The record is zeroed by [do_execve] before. The personality bits that a set-id
    file clears are not part of the model, nor the bytes [kernel_read] fetches. *)
Definition prepare_binprm (page : bool) (cur : task) (f : exec_file)
  : option (Z * task * linux_binprm) :=
  let b := mk_bprm (f_dentry f) (f_vfsmnt f) 0 0 0 0 0 0 in
  if Z.land (i_mode f) 0x49 =? 0 then Some (- EACCES, cur, b)
  else if negb (has_f_op f) then Some (- EACCES, cur, b)
  else
    let u := if negb (nosuid f) && negb (Z.land (i_mode f) S_ISUID =? 0) then i_uid f else euid cur in
    let g := if negb (nosuid f) && (Z.land (i_mode f) (S_ISGID .| S_IXGRP) =? (S_ISGID .| S_IXGRP))
             then i_gid f else egid cur in
    mot_security_bprm_set_security page cur (set_b_ids u g b).

(** [unsafe_exec]: how the task is traced, and whether it shares its file system
    context, files or signal handlers. *)
Definition unsafe_exec (ptraced ptrace_cap shared : bool) : Z :=
  Z.lor (if ptraced then if ptrace_cap then LSM_UNSAFE_PTRACE_CAP else LSM_UNSAFE_PTRACE else 0)
        (if shared then LSM_UNSAFE_SHARE else 0).

Definition compute_creds (cur : task) (b : linux_binprm) (ptraced ptrace_cap shared : bool) : task :=
  mot_security_bprm_apply_creds cur b (unsafe_exec ptraced ptrace_cap shared).

(** The label [out]: a failed [execve] takes back CAP_SECURE_CLOCK and the DRM word. *)
Definition execve_out (cur : task) : task :=
  let cur := if cap_raised (cap_permitted cur) CAP_SECURE_CLOCK
             then set_cap_permitted (cap_lower (cap_permitted cur) CAP_SECURE_CLOCK) cur else cur in
  let cur := if cap_raised (cap_inheritable cur) CAP_SECURE_CLOCK
             then set_cap_inheritable (cap_lower (cap_inheritable cur) CAP_SECURE_CLOCK) cur else cur in
  if negb (security cur =? 0) then set_security 0 cur else cur.

(** What the registered binary formats do with the file that was prepared, as far as it
    changes the calling task: none takes it, or one fails before it has called
    [compute_creds] ([Rejected]); a script or another interpreted format opens its
    interpreter, prepares that file in place of the first and hands it to the formats
    again ([Interpreter], the end of [load_script]); or a format loads the file, calls
    [compute_creds] and returns [ret] ([Loaded]). Formats that were tried before and
    answered [ENOEXEC] have changed nothing, or have left the interpreter prepared. *)
Inductive handler :=
  | Rejected (errno : positive)
  | Interpreter (page : bool) (interp : exec_file) (h : handler)
  | Loaded (ret : Z).

(** The formats' part in what [search_binary_handler] does to the calling task is given by
    [h]; reading and loading files is not modelled. *)
Fixpoint search_binary_handler (cur : task) (b : linux_binprm) (h : handler)
    (ptraced ptrace_cap shared : bool) : option (Z * task) :=
  match h with
  | Rejected errno => Some (Z.neg errno, cur)
  | Interpreter page interp h =>
      '(r, cur, b) ← prepare_binprm page cur interp;
      if r <? 0 then Some (r, cur)
      else search_binary_handler cur b h ptraced ptrace_cap shared
  | Loaded ret => Some (ret, compute_creds cur b ptraced ptrace_cap shared)
  end.

(** [do_execve], as far as it changes the calling task. [early] is the error of a step
    before [prepare_binprm] (allocating the record and the address space, opening the
    file, counting the arguments): these leave by [out_ret], [out_kfree], [out_file] or
    [out_mm], which pass over the label [out]. Copying the arguments can fail like
    [Rejected]. *)
Definition do_execve (early : option positive) (page : bool) (cur : task) (f : exec_file) (h : handler)
    (ptraced ptrace_cap shared : bool) : option (Z * task) :=
  match early with
  | Some errno => Some (Z.neg errno, cur)
  | None =>
      '(r, cur, b) ← prepare_binprm page cur f;
      if r <? 0 then Some (r, execve_out cur)
      else
        '(r, cur) ← search_binary_handler cur b h ptraced ptrace_cap shared;
        if 0 <=? r then Some (r, cur) else Some (r, execve_out cur)
  end.

(** The file whose preparation was the last. *)
Fixpoint loaded_file (f : exec_file) (h : handler) : exec_file :=
  match h with
  | Interpreter _ interp h => loaded_file interp h
  | _ => f
  end.

(** The files prepared. *)
Fixpoint prepared_files (f : exec_file) (h : handler) : list exec_file :=
  f :: match h with Interpreter _ interp h => prepared_files interp h | _ => [] end.
End Exec.

(** ** Secure mounts *)

Definition NL : string := String (Ascii.ascii_of_nat 10) EmptyString.
Definition TAB : string := String (Ascii.ascii_of_nat 9) EmptyString.

Record motsec_mount := mk_mount { device : string; mount_point : string; fs_type : string }.
Record motsec := mk_motsec { mounts_locked : bool; allowed_mounts : list motsec_mount }.

(** [kmalloc] is whether the allocation succeeds. *)
Definition motsec_add_allowed_mount (s : motsec) (kmalloc : bool) (dev mount fstype : string) : Z * motsec :=
  if mounts_locked s then (- EPERM, s)
  else if negb kmalloc then (- ENOMEM, s)
  else (0, mk_motsec (mounts_locked s) (allowed_mounts s ++ [mk_mount dev mount fstype])).

Definition mounts_heading : string :=
  "Allowed Mounts:" +:+ NL +:+ "Device" +:+ TAB +:+ "Mount Point" +:+ TAB +:+ "File System Type" +:+ NL.
Definition mount_line (c : motsec_mount) : string :=
  device c +:+ TAB +:+ mount_point c +:+ TAB +:+ fs_type c +:+ NL.

(** [snprintf] of [text] at [buff + (size - room)] with space for [room] ([left] in the
    source) bytes, the last one for the NUL: the characters in the buffer and the
    space that remains. *)
Definition snprintf_at (text : string) (st : string * Z) : string * Z :=
  let '(buff, room) := st in
  let ret := Z.of_nat (String.length text) in
  (buff +:+ String.substring 0 (Z.to_nat (room - 1)) text, room - (if ret <? room then ret else room)).

Definition motsec_get_allowed_mounts (s : motsec) (size : Z) : string * Z :=
  let '(buff, room) :=
    foldl (fun st c => if negb (st.2 =? 0) then snprintf_at (mount_line c) st else st)
      (snprintf_at mounts_heading (EmptyString, size)) (allowed_mounts s) in
  (buff, size - room).

(** A null or error pointer given to [strcmp] is a fault, reached only when the
    comparisons before it found equality. *)
Fixpoint check_mounts (l : list motsec_mount) (dev mount fstype : option string) : option Z :=
  match l with
  | [] => Some (- EPERM)
  | c :: l =>
      dev' ← dev;
      if negb (String.eqb dev' (device c)) then check_mounts l dev mount fstype
      else
        mount' ← mount;
        if negb (String.eqb mount' (mount_point c)) then check_mounts l dev mount fstype
        else
          fstype' ← fstype;
          if negb (String.eqb fstype' (fs_type c)) then check_mounts l dev mount fstype
          else Some 0
  end.

Definition motsec_check_mount_allowed (s : motsec) (dev mount fstype : option string) : option Z :=
  check_mounts (allowed_mounts s) dev mount fstype.

Definition motsec_lock_mounts (s : motsec) : motsec := mk_motsec true (allowed_mounts s).
Definition motsec_mounts_locked (s : motsec) : bool := mounts_locked s.

(** [dev_name] and [type] come from user space and may be null. *)
Definition mot_security_sb_mount (w : machine) (s : motsec) (page : bool) (dev_name : option string)
    (d m : nat) (type : option string) : option Z :=
  if negb (mounts_locked s) then Some 0
  else if negb page then Some (- ENOMEM)
  else
    path ← abs_d_path (fs w) (init_root w) d m PAGE_SIZE;
    motsec_check_mount_allowed s dev_name (match path with inl p => Some p | inr _ => None end) type.

(** *** security/motsecurity_sysfs.c *)

(** A write to the attribute: the bytes of the buffer. *)
Definition motsec_mounts_locked_store (s : motsec) (buff : list Z) : Z * motsec :=
  match buff with
  | [49; 10] => (2, motsec_lock_mounts s)
  | _ => (- EINVAL, s)
  end.

(** The scan of [motsec_allowed_mounts_store]: [done] holds the fields found so far
    ([f_end[0..i)]), [field] the characters of field [i] seen so far ([f_start[i]] is
    set when it is not empty), [n] the offset of [pos]. *)
Fixpoint scan_fields (buff : list Z) (done : list (list Z)) (field : list Z) (n : Z)
  : Z + list (list Z) * Z :=
  match buff with
  | [] => if (length done =? 3)%nat then inr (done, n) else inl (- EINVAL)
  | c :: rest =>
      if (length done =? 3)%nat then inr (done, n)
      else if (c =? 32) || (c =? 10) || (c =? 0) then
        match field with
        | [] => inl (- EINVAL)
        | _ =>
            let done := done ++ [field] in
            if c =? 10 then
              if (length done =? 3)%nat then inr (done, n + 1) else inl (- EINVAL)
            else scan_fields rest done [] (n + 1)
        end
      else scan_fields rest done (field ++ [c]) (n + 1)
  end.

Definition bytes_string (l : list Z) : string :=
  String.string_of_list_ascii (Ascii.ascii_of_N <$> (Z.to_N <$> l)).

(** [kmallocs] is whether the allocations of the three fields succeed. *)
Definition motsec_allowed_mounts_store (s : motsec) (kmallocs kmalloc : bool) (buff : list Z) : Z * motsec :=
  match scan_fields buff [] [] 0 with
  | inl e => (e, s)
  | inr ([f0; f1; f2], pos) =>
      if negb kmallocs then (- ENOMEM, s)
      else
        let '(rc, s) := motsec_add_allowed_mount s kmalloc (bytes_string f0) (bytes_string f1) (bytes_string f2) in
        if rc =? 0 then (pos, s) else (rc, s)
  | inr _ => (- EINVAL, s)
  end.

(** * Correctness *)

(** ** The protection tables *)

(** The tables as one list: each directory, then its files. *)
Definition entries (dirs : list mot_dir_perms) : list mot_file_perms :=
  concat ((fun d => perms d :: files d) <$> dirs).

Definition prefixed (d : mot_dir_perms) : bool :=
  forallb (fun f => strncmp_eq (filepath f) (filepath (perms d)) (String.length (filepath (perms d)))) (files d).

Lemma find_file_app path a b :
  find_file path (a ++ b) = match find_file path a with Some f => Some f | None => find_file path b end.
Proof. induction a as [| f a IH]; simpl; [done |]. destruct (String.eqb path (filepath f)); [done | apply IH]. Qed.

Lemma find_file_Some path l f : find_file path l = Some f -> f ∈ l /\ filepath f = path.
Proof.
  induction l as [| g l IH]; simpl; [done |]. destruct (String.eqb_spec path (filepath g)).
  - intros [= <-]. split; [left | done].
  - intros [? ?]%IH. split; [by right | done].
Qed.

Lemma strncmp_eq_refl a n : strncmp_eq a a n = true.
Proof. apply String.eqb_refl. Qed.

Lemma protected_lookup_flat path dirs :
  forallb prefixed dirs = true -> protected_lookup path dirs = find_file path (entries dirs).
Proof.
  induction dirs as [| d dirs IH]; [done |]. intros [Hd Hds]%andb_true_iff. specialize (IH Hds).
  change (entries (d :: dirs)) with ((perms d :: files d) ++ entries dirs).
  rewrite find_file_app, <- IH. cbn [protected_lookup find_file].
  destruct (String.eqb_spec path (filepath (perms d))) as [-> | Hne].
  - by rewrite strncmp_eq_refl.
  - destruct (strncmp_eq path _ _) eqn:Hp; [done |].
    destruct (find_file path (files d)) as [f |] eqn:Hf; [| done].
    apply find_file_Some in Hf as [Hin <-]. unfold prefixed in Hd. rewrite forallb_forall in Hd.
    rewrite Hd in Hp; [done |]. by apply list_elem_of_In.
Qed.

Lemma tables_prefixed : forallb prefixed protected_dirs = true.
Proof. vm_compute. reflexivity. Qed.

(** Every entry restricts writing, and the first entry of a path is its only one. *)
Definition first_of_its_path (f : mot_file_perms) : bool :=
  match find_file (filepath f) (entries protected_dirs) with
  | Some g => domain g =? domain f
  | None => false
  end.

Lemma entries_ok :
  forallb (fun f => negb (Z.land (domain f) DRM_WRITE =? 0) && first_of_its_path f) (entries protected_dirs) = true.
Proof. vm_compute. reflexivity. Qed.

Lemma entry_lookup f :
  f ∈ entries protected_dirs ->
  Z.land (domain f) DRM_WRITE <> 0 /\
  exists g, protected_lookup (filepath f) protected_dirs = Some g /\ domain g = domain f.
Proof.
  intros Hf%list_elem_of_In. pose proof entries_ok as H. rewrite forallb_forall in H.
  specialize (H f Hf). apply andb_true_iff in H as [Hw%negb_true_iff%Z.eqb_neq Hfirst].
  split; [done |]. rewrite protected_lookup_flat by exact tables_prefixed. unfold first_of_its_path in Hfirst.
  destruct (find_file _ _) as [g |]; [| done]. exists g. split; [done | by apply Z.eqb_eq].
Qed.

(** The protection of a path is looked up exactly: the search through the
    protected directories, with its prefix test and its fall through to the next
    directory, finds an entry if and only if the path is spelled in one of the
    tables, and then with the domain the tables give that path. *)
Lemma protected_lookup_spec path :
  match protected_lookup path protected_dirs with
  | Some f => f ∈ entries protected_dirs /\ filepath f = path
  | None => forall f, f ∈ entries protected_dirs -> filepath f <> path
  end /\
  (forall f, f ∈ entries protected_dirs -> filepath f = path ->
     exists g, protected_lookup path protected_dirs = Some g /\ domain g = domain f).
Proof.
  split.
  - destruct (protected_lookup path protected_dirs) as [f |] eqn:E.
    + rewrite protected_lookup_flat in E by exact tables_prefixed. by apply find_file_Some.
    + intros f Hf <-. destruct (entry_lookup f Hf) as (_ & g & Hg & _). congruence.
  - intros f Hf <-. by apply entry_lookup.
Qed.

(** ** Mediation *)







(** /etc/pds/janus, /etc/spare and /bin/tcmd2 on the root file system. *)
Definition machine_demo : machine :=
  let sb := Some (mk_sb 7 (Some 0%nat)) in
  mk_machine
    (mk_vfs [mk_dentry 0 "/" false sb; mk_dentry 0 "etc" false sb; mk_dentry 1 "pds" false sb;
             mk_dentry 2 "janus" false sb; mk_dentry 1 "spare" false sb; mk_dentry 0 "bin" false sb;
             mk_dentry 5 "tcmd2" false sb; mk_dentry 5 "tcmd" false sb] [mk_mnt 0 0 0])
    (0%nat, 0%nat) 7.

Definition task_demo (sec eff : Z) : task :=
  mk_task 41 41 41 500 500 500 500 500 500 500 500 eff 0 eff false true false 500 100 sec.


(** A directory above a protected one is not protected: a task without any domain
    may rename /etc/pds, and the files below are then no longer at the protected
    paths. *)
Lemma rename_of_ancestor_allowed :
  mot_security_inode_rename machine_demo true true (task_demo 0 0) 2 4 = Some 0 /\
  mot_security_inode_rename machine_demo true true (task_demo 0 0) 3 4 = Some (- EPERM).
Proof. split; vm_compute; reflexivity. Qed.

(** ** The secure clock capability *)

(** The executable is matched by the list of the secure clock, and the domain that
    the list of DRM paths gives it; both only on the root file system. *)
Definition clock_listed (w : machine) (fs_root : nat * nat) (f : exec_file) : bool :=
  match dentries (fs w) !! f_dentry f with
  | Some dd =>
      on_rootfs w dd &&
      match d_path (fs w) fs_root (f_dentry f) (f_vfsmnt f) (Z.of_nat MAXLEN) with
      | Some (inl path) => secure_clock_match path
      | _ => false
      end
  | None => false
  end.

Definition drm_domain (w : machine) (f : exec_file) : Z :=
  match dentries (fs w) !! f_dentry f with
  | Some dd =>
      if on_rootfs w dd then
        match abs_d_path (fs w) (init_root w) (f_dentry f) (f_vfsmnt f) PAGE_SIZE with
        | Some (inl path) => match find_file path secure_drm_paths with Some p => domain p | None => 0 end
        | _ => 0
        end
      else 0
  | None => 0
  end.

Definition clock_in (c : Z) : bool := Z.testbit c CAP_SECURE_CLOCK.

Lemma clock_full : clock_in CAP_FULL_SET = false.
Proof. reflexivity. Qed.

Lemma clock_raise c : clock_in (cap_raise c CAP_SECURE_CLOCK) = true.
Proof. unfold clock_in, cap_raise. by rewrite Z.lor_spec, orb_true_r. Qed.

Lemma clock_lower c : clock_in (cap_lower c CAP_SECURE_CLOCK) = false.
Proof. unfold clock_in, cap_lower. by rewrite Z.land_spec, andb_false_r. Qed.

Lemma clock_intersect a b : clock_in (cap_intersect a b) = clock_in a && clock_in b.
Proof. apply Z.land_spec. Qed.

Lemma clock_combine a b : clock_in (cap_combine a b) = clock_in a || clock_in b.
Proof. apply Z.lor_spec. Qed.

Lemma clock_0 : clock_in 0 = false.
Proof. done. Qed.

Lemma clock_sub a b : cap_sub a b -> clock_in b = false -> clock_in a = false.
Proof.
  unfold clock_in. intros Hs Hb. apply not_true_iff_false. intros Ht. apply Hs in Ht; [congruence | done].
Qed.
#[local] Opaque clock_in CAP_FULL_SET.

Section Exec.
Context (w : machine) (sb bset : Z) (fs_root : nat * nat).

(** The sets that the file gets without the secure clock. *)
Lemma cap_bprm_no_clock cur b :
  let b' := cap_bprm_set_security sb cur b in
  clock_in (b_cap_inheritable b') = false /\ clock_in (b_cap_permitted b') = false /\
  clock_in (b_cap_effective b') = false /\ b_dentry b' = b_dentry b /\ b_mnt b' = b_mnt b /\
  e_uid b' = e_uid b /\ e_gid b' = e_gid b.
Proof.
  unfold cap_bprm_set_security. repeat case_match; simpl; rewrite ?clock_full, ?clock_0; done.
Qed.

(** What [mot_security_bprm_set_security] does when it returns. *)
Lemma bprm_set_security_spec page cur b r cur' b' f :
  b_dentry b = f_dentry f -> b_mnt b = f_vfsmnt f ->
  mot_security_bprm_set_security w sb fs_root page cur b = Some (r, cur', b') ->
  let listed := clock_listed w fs_root f in
  (r = 0 \/ r = - ENOMEM) /\ (r = 0 -> b_security b' = drm_domain w f) /\
  clock_in (b_cap_inheritable b') = listed /\ clock_in (b_cap_permitted b') = false /\
  clock_in (b_cap_effective b') = listed /\ e_uid b' = e_uid b /\ e_gid b' = e_gid b /\
  cur' = (if listed
          then set_cap_inheritable (cap_raise (cap_inheritable cur) CAP_SECURE_CLOCK)
                 (set_cap_permitted (cap_raise (cap_permitted cur) CAP_SECURE_CLOCK) cur)
          else cur).
Proof.
  intros Ed Em. unfold mot_security_bprm_set_security, clock_listed, drm_domain.
  destruct (cap_bprm_no_clock cur b) as (Hi & Hp & He & Hd & Hm & Hu & Hg).
  set (b0 := cap_bprm_set_security sb cur b) in *. rewrite Hd, Hm, Ed, Em.
  destruct (dentries (fs w) !! f_dentry f) as [dd |]; [cbn [mbind option_bind] | done].
  destruct (on_rootfs w dd); cbn [andb].
  2: { intros [= <- <- <-]. simpl. split_and!; auto. }
  destruct (d_path (fs w) fs_root (f_dentry f) (f_vfsmnt f) (Z.of_nat MAXLEN)) as [[path | e] |];
    [| | done]; cbn [mbind option_bind].
  - destruct (secure_clock_match path); cbn [mbind option_bind]; (destruct page; cbn [negb];
      [| intros [= <- <- <-]; simpl; rewrite ?clock_raise; split_and!; auto; done]).
    + cbn [b_dentry b_mnt set_b_security set_b_caps]. rewrite Hd, Hm, Ed, Em.
      destruct (abs_d_path _ _ _ _ _) as [[p | e] |]; [| | done]; cbn [mbind option_bind]; [case_match |];
        intros [= <- <- <-]; simpl; rewrite ?clock_raise; split_and!; auto.
    + cbn [b_dentry b_mnt set_b_security]. rewrite Hd, Hm, Ed, Em.
      destruct (abs_d_path _ _ _ _ _) as [[p | e] |]; [| | done]; cbn [mbind option_bind]; [case_match |];
        intros [= <- <- <-]; simpl; split_and!; auto.
  - destruct page; cbn [negb]; [| intros [= <- <- <-]; simpl; split_and!; auto; done].
    cbn [b_dentry b_mnt set_b_security]. rewrite Hd, Hm, Ed, Em.
    destruct (abs_d_path _ _ _ _ _) as [[p | e'] |]; [| | done]; cbn [mbind option_bind]; [case_match |];
      intros [= <- <- <-]; simpl; split_and!; auto.
Qed.

(** The calling task with CAP_SECURE_CLOCK raised, as the hook leaves it. *)
Definition clock_given (listed : bool) (cur : task) : task :=
  if listed
  then set_cap_inheritable (cap_raise (cap_inheritable cur) CAP_SECURE_CLOCK)
         (set_cap_permitted (cap_raise (cap_permitted cur) CAP_SECURE_CLOCK) cur)
  else cur.

Lemma clock_given_frame listed cur :
  pid (clock_given listed cur) = pid cur /\ cap_effective (clock_given listed cur) = cap_effective cur.
Proof. by destruct listed. Qed.

Lemma prepare_binprm_spec page cur f r cur' b' :
  prepare_binprm w sb fs_root page cur f = Some (r, cur', b') ->
  let listed := clock_listed w fs_root f in
  (cur' = cur \/ cur' = clock_given listed cur) /\
  (0 <= r -> cur' = clock_given listed cur /\ b_security b' = drm_domain w f /\
     clock_in (b_cap_inheritable b') = listed /\ clock_in (b_cap_permitted b') = false /\
     clock_in (b_cap_effective b') = listed).
Proof.
  unfold prepare_binprm.
  destruct (Z.land (i_mode f) 0x49 =? 0); [intros [= <- <- _]; split; [by left | by intros []] |].
  destruct (negb (has_f_op f)); [intros [= <- <- _]; split; [by left | by intros []] |].
  intros E. apply (bprm_set_security_spec _ _ _ _ _ _ f) in E; [| done | done].
  destruct E as (Hr & Hsec & Hi & Hp & He & _ & _ & Hcur). split; [by right |]. intros Hpos.
  destruct Hr as [-> | ->]; [| by destruct Hpos]. split_and!; auto.
Qed.

(** The sets that a loaded program ends up with; the first process keeps its own. *)
Lemma apply_creds_clock cur b unsafe :
  clock_in (b_cap_permitted b) = false ->
  clock_in (b_cap_inheritable b) = clock_in (b_cap_effective b) ->
  (clock_in (b_cap_inheritable b) = true -> clock_in (cap_inheritable cur) = true /\ clock_in (cap_permitted cur) = true) ->
  let t := mot_security_bprm_apply_creds bset cur b unsafe in
  security t = b_security b /\
  if pid cur =? 1 then cap_effective t = cap_effective cur
  else clock_in (cap_effective t) = clock_in (b_cap_effective b) /\
       clock_in (cap_permitted t) = clock_in (b_cap_effective b).
Proof.
  intros Hp Hie Hraised. unfold mot_security_bprm_apply_creds, cap_bprm_apply_creds.
  set (np := cap_combine _ _).
  assert (clock_in np = clock_in (b_cap_effective b) /\
          clock_in (cap_intersect np (cap_permitted cur)) = clock_in (b_cap_effective b)) as [Hn1 Hn2].
  { unfold np. rewrite !clock_intersect, clock_combine, !clock_intersect, Hp, <- Hie. cbn [andb orb].
    destruct (clock_in (b_cap_inheritable b)); [| done]. destruct (Hraised eq_refl) as [-> ->]. done. }
  clearbody np. generalize (negb (e_uid b =? uid cur) || negb (e_gid b =? gid cur) || negb (cap_issubset np (cap_permitted cur))).
  intros changes. generalize (changes && negb (Z.land unsafe (not32 LSM_UNSAFE_PTRACE_CAP) =? 0)). intros guarded.
  generalize (guarded && negb (cap_raised (cap_effective cur) CAP_SETPCAP)). intros restrict.
  generalize (guarded && negb (cap_raised (cap_effective cur) CAP_SETUID)). intros keepids.
  generalize (guarded && (cap_raised (cap_effective cur) CAP_SETUID || cap_raised (cap_effective cur) CAP_SETPCAP)). intros super.
  destruct changes, restrict, keepids, super; simpl; destruct (pid cur =? 1); simpl;
    rewrite ?(clock_intersect _ (b_cap_effective b)), ?Hn1, ?Hn2, ?andb_diag; done.
Qed.

(** What the binary formats make of a file that was prepared. *)
Lemma search_binary_handler_spec h a b c : forall cur f page cur0 r0 bp r t,
  prepare_binprm w sb fs_root page cur0 f = Some (r0, cur, bp) -> 0 <= r0 ->
  search_binary_handler w sb bset fs_root cur bp h a b c = Some (r, t) ->
  let listed := clock_listed w fs_root (loaded_file f h) in
  (0 <= r -> security t = drm_domain w (loaded_file f h) /\
     if pid cur0 =? 1 then cap_effective t = cap_effective cur0
     else clock_in (cap_effective t) = listed /\ clock_in (cap_permitted t) = listed) /\
  (clock_in (cap_effective t) = true -> clock_in (cap_effective cur0) = true \/ listed = true).
Proof.
  induction h as [errno | page' interp h IH | ret]; simpl; intros cur f page cur0 r0 bp r t E Hr0 Hs;
    pose proof (prepare_binprm_spec _ _ _ _ _ _ E) as [_ (Hcur & Hsec & Hi & Hp & He)]; try exact Hr0.
  - injection Hs as <- <-. split; [by intros [] |]. rewrite Hcur, (proj2 (clock_given_frame _ _)). auto.
  - destruct (prepare_binprm w sb fs_root page' cur interp) as [[[r1 cur1] b1] |] eqn:E1; [| done].
    cbn [mbind option_bind] in Hs.
    assert (pid cur = pid cur0 /\ cap_effective cur = cap_effective cur0) as [Hpid Heff]
      by (rewrite Hcur; apply clock_given_frame).
    destruct (Z.ltb_spec r1 0) as [Hneg | Hpos].
    + injection Hs as <- <-. split; [lia |].
      destruct (prepare_binprm_spec _ _ _ _ _ _ E1) as [[-> | ->] _];
        rewrite ?(proj2 (clock_given_frame _ _)), Heff; auto.
    + rewrite <- Hpid, <- Heff. by apply (IH cur1 interp page' cur r1 b1).
  - injection Hs as <- <-. unfold compute_creds.
    destruct (apply_creds_clock cur bp (unsafe_exec a b c)) as [H1 H2]; [done | by rewrite Hi, He | |].
    { rewrite Hi, Hcur. unfold clock_given. intros ->. simpl. by rewrite !clock_raise. }
    assert (pid cur = pid cur0 /\ cap_effective cur = cap_effective cur0) as [Hpid Heff]
      by (rewrite Hcur; apply clock_given_frame).
    rewrite Hpid, Heff, He in H2. split.
    + intros _. split; [congruence |]. destruct (pid cur0 =? 1); [done | exact H2].
    + destruct (pid cur0 =? 1); [rewrite H2; auto | destruct H2 as [-> _]; auto].
Qed.
End Exec.

Lemma execve_out_spec t :
  clock_in (cap_permitted (execve_out t)) = false /\ clock_in (cap_inheritable (execve_out t)) = false /\
  security (execve_out t) = 0 /\ cap_effective (execve_out t) = cap_effective t.
Proof.
  assert (forall c, cap_raised c CAP_SECURE_CLOCK = clock_in c) as Hc by (intros; by apply cap_raised_bit).
  unfold execve_out. rewrite !Hc.
  set (t1 := if clock_in (cap_permitted t) then _ else _).
  assert (clock_in (cap_permitted t1) = false /\ cap_effective t1 = cap_effective t) as [H1 <-].
  { unfold t1. destruct (clock_in (cap_permitted t)) eqn:E; [split; [apply clock_lower | done] | done]. }
  clearbody t1. set (t2 := if clock_in (cap_inheritable t1) then _ else _).
  assert (clock_in (cap_permitted t2) = false /\ clock_in (cap_inheritable t2) = false /\
          cap_effective t2 = cap_effective t1) as (H2 & H3 & <-).
  { unfold t2. destruct (clock_in (cap_inheritable t1)) eqn:E; [| done]. split; [exact H1 |]. split; [apply clock_lower | done]. }
  clearbody t2. destruct (Z.eqb_spec (security t2) 0); done.
Qed.

(** C2. What [execve] does to CAP_SECURE_CLOCK and the DRM word. An [execve] that fails
    before the file is prepared (it cannot be opened, no memory, bad arguments) changes
    nothing. One that succeeds gives the DRM word the domain that the DRM list has for
    the file that is loaded (the interpreter of a script), 0 when it has none, whatever
    the task held before; and CAP_SECURE_CLOCK is then in the effective and the
    permitted set of every process but the first exactly when that file is matched by
    the secure clock list (the first process keeps its effective set). After one that
    fails later, the permitted and the inheritable set do not hold CAP_SECURE_CLOCK and
    the DRM word is 0; the effective set is not cleared: it holds CAP_SECURE_CLOCK only
    if it did before or the file being loaded is matched. *)
Theorem execve_privileges w sb bset fs_root early page cur f h ptraced ptrace_cap shared r t :
  do_execve w sb bset fs_root early page cur f h ptraced ptrace_cap shared = Some (r, t) ->
  let g := loaded_file f h in
  match early with
  | Some errno => r = Z.neg errno /\ t = cur
  | None =>
      if 0 <=? r then
        security t = drm_domain w g /\
        if pid cur =? 1 then cap_effective t = cap_effective cur
        else clock_in (cap_effective t) = clock_listed w fs_root g /\
             clock_in (cap_permitted t) = clock_listed w fs_root g
      else
        clock_in (cap_permitted t) = false /\ clock_in (cap_inheritable t) = false /\ security t = 0 /\
        (clock_in (cap_effective t) = true ->
         clock_in (cap_effective cur) = true \/ clock_listed w fs_root g = true)
  end.
Proof.
  unfold do_execve. destruct early as [errno |]; [by intros [= <- <-] |].
  destruct (prepare_binprm w sb fs_root page cur f) as [[[r0 cur'] b'] |] eqn:E; [| done].
  cbn [mbind option_bind]. destruct (Z.ltb_spec r0 0) as [Hneg | Hpos].
  { intros [= <- <-]. rewrite (proj2 (Z.leb_gt 0 r0)) by lia.
    destruct (execve_out_spec cur') as (H1 & H2 & H3 & H4). rewrite H4. split_and!; auto.
    destruct (prepare_binprm_spec _ _ _ _ _ _ _ _ _ E) as [[-> | ->] _];
      rewrite ?(proj2 (clock_given_frame _ _)); auto. }
  destruct (search_binary_handler w sb bset fs_root cur' b' h ptraced ptrace_cap shared) as [[r1 t1] |] eqn:S; [| done].
  cbn [mbind option_bind].
  destruct (search_binary_handler_spec _ _ _ _ _ _ _ _ _ _ _ _ _ _ _ _ E Hpos S) as [H1 H2].
  destruct (0 <=? r1) eqn:Hr; intros [= <- <-]; rewrite Hr; [apply H1; lia |].
  destruct (execve_out_spec t1) as (O1 & O2 & O3 & O4). rewrite O4. auto.
Qed.

(** A plain executable, mode 0755, owned by root. *)
Definition file_demo (d : nat) : exec_file := mk_file 0x81ed 0 0 true false d 0.

Lemma execve_privileges_witness :
  exists t, do_execve machine_demo 0 CAP_INIT_EFF_SET (0%nat, 0%nat) None true (task_demo 0 0) (file_demo 7) (Loaded 0)
              true false false = Some (0, t) /\
    clock_in (cap_effective t) = true /\ security t = JANUS_DRM_RW .| SECURE_CLOCK_RW .| OMA2_DRM_RW.
Proof.
  eexists. split; [vm_compute; reflexivity |].
  destruct (execve_privileges machine_demo 0 CAP_INIT_EFF_SET (0%nat, 0%nat) None true (task_demo 0 0) (file_demo 7)
    (Loaded 0) true false false 0
    (mk_task 41 41 41 500 500 500 500 500 500 500 500 536870912 536870912 536870912 false true false 500 100 63))
    as (H3 & H1 & _).
  - vm_compute. reflexivity.
  - split; [exact (eq_trans H1 eq_refl) | exact (eq_trans H3 eq_refl)].
Defined.

(** The secure clock list is compared by prefix: /bin/tcmd2 is matched although it
    is not on the list, and a task without any privilege that runs it gets
    CAP_SECURE_CLOCK. *)
Lemma secure_clock_prefix_match :
  clock_listed machine_demo (0%nat, 0%nat) (file_demo 6) = true /\
  d_path (fs machine_demo) (0%nat, 0%nat) 6 0 (Z.of_nat MAXLEN) = Some (inl "/bin/tcmd2"%string) /\
  "/bin/tcmd2"%string ∉ secure_clock_paths.
Proof.
  split; [vm_compute; reflexivity |]. split; [vm_compute; reflexivity |].
  unfold secure_clock_paths. rewrite !elem_of_cons, elem_of_nil. intros [? | [? | []]]; discriminate.
Qed.

(** A failed [execve] takes CAP_SECURE_CLOCK out of the permitted set of a task that
    holds it, and leaves it in the effective set. *)
Lemma failed_execve_keeps_effective :
  exists t, do_execve machine_demo 0 CAP_INIT_EFF_SET (0%nat, 0%nat) None true (task_demo 0 (CAP_TO_MASK CAP_SECURE_CLOCK))
              (file_demo 4) (Rejected 8) false false false = Some (-8, t) /\
    cap_effective t = CAP_TO_MASK CAP_SECURE_CLOCK /\ cap_permitted t = 0.
Proof. eexists. split; [vm_compute; reflexivity |]. split; reflexivity. Qed.

(** Because the calling task's own permitted set is raised first, gaining
    CAP_SECURE_CLOCK does not count as a change of privilege in
    [cap_bprm_apply_creds]: the process stays dumpable and a tracer without any
    capability ([LSM_UNSAFE_PTRACE]) does not prevent the gain. *)
Lemma secure_clock_exec_traced :
  exists t, do_execve machine_demo 0 CAP_INIT_EFF_SET (0%nat, 0%nat) None true (task_demo 0 0) (file_demo 7) (Loaded 0)
              true false false = Some (0, t) /\
    clock_in (cap_effective t) = true /\ dumpable t = true.
Proof. eexists. split; [vm_compute; reflexivity |]. split; vm_compute; reflexivity. Qed.

(** ** Sequences of system calls *)

Inductive event :=
  | Call (kmem : bool) (c : call)
  | Execve (fs_root : nat * nat) (early : option positive) (page : bool) (f : exec_file) (h : handler) (ptraced ptrace_cap shared : bool).

(** A fault in [execve] ends the run. *)
Definition event_step (w : machine) (sb bset : Z) (k : kstate) (e : event) : option kstate :=
  match e with
  | Call kmem c => Some (run sb kmem c k).2
  | Execve root early page f h a b c =>
      '(_, t) ← do_execve w sb bset root early page (current k) f h a b c; Some (set_current t k)
  end.

Fixpoint events (w : machine) (sb bset : Z) (k : kstate) (es : list event) : option kstate :=
  match es with
  | [] => Some k
  | e :: es => k ← event_step w sb bset k e; events w sb bset k es
  end.

Definition event_ok (w : machine) (e : event) : Prop :=
  match e with
  | Call _ c => call_ok c
  | Execve root _ _ f h _ _ _ => Forall (fun g => clock_listed w root g = false) (prepared_files f h)
  end.

(** The capability is in none of the task's sets. *)
Definition no_clock (t : task) : Prop :=
  clock_in (cap_effective t) = false /\ clock_in (cap_inheritable t) = false /\
  clock_in (cap_permitted t) = false.

Lemma no_clock_sub t t' :
  no_clock t -> cap_inheritable t' = cap_inheritable t ->
  cap_sub (cap_permitted t') (cap_permitted t) ->
  cap_sub (cap_effective t') (Z.lor (cap_effective t) (cap_permitted t)) -> no_clock t'.
Proof.
  intros (He & Hi & Hp) Ei Sp Se. split_and!; [| congruence | by eapply clock_sub].
  apply (clock_sub _ _ Se). change (clock_in (cap_combine (cap_effective t) (cap_permitted t)) = false).
  by rewrite clock_combine, He, Hp.
Qed.

Lemma run_no_clock sb kmem c k :
  call_ok c -> pids_unique k -> no_clock (current k) -> no_clock (current (run sb kmem c k).2).
Proof.
  intros Hc Hn Hno.
  assert (forall m, id_result m k -> no_clock (current (m k).2)) as Hid.
  { intros m (v & k' & -> & _ & _ & []). by eapply no_clock_sub. }
  destruct c; simpl run; try (apply Hid; solve [auto using setreuid_step, setuid_step, setresuid_step,
    setfsuid_step, setregid_step, setgid_step, setresgid_step, setfsgid_step]).
  destruct (sys_capset_state version put p data k Hn) as [_ [_ _ _ _ (Ci & Cp & Ce) _] _ _].
  { intros d ->. exact Hc. }
  destruct Hno as (He & Hi & Hp). split_and!; apply not_true_iff_false; intros Ht.
  - apply Ce in Ht. change (clock_in (cap_effective (current k)) = true) in Ht. congruence.
  - apply Ci in Ht. change (clock_in (cap_inheritable (current k)) = true) in Ht. congruence.
  - apply Cp in Ht. change (clock_in (cap_permitted (current k)) = true) in Ht. congruence.
Qed.

(** The sets of a task after [execve_out], when they had no clock. *)
Lemma execve_out_no_clock t : no_clock t -> no_clock (execve_out t).
Proof.
  intros (He & Hi & Hp). destruct (execve_out_spec t) as (H1 & H2 & _ & H4). split_and!; congruence.
Qed.

Lemma prepare_pid w sb root page cur f r cur' b :
  prepare_binprm w sb root page cur f = Some (r, cur', b) -> pid cur' = pid cur.
Proof. intros E. apply prepare_binprm_spec in E as [[-> | ->] _]; [done | apply clock_given_frame]. Qed.

Lemma search_pid w sb bset root h a b c : forall cur bp r t,
  search_binary_handler w sb bset root cur bp h a b c = Some (r, t) -> pid t = pid cur.
Proof.
  induction h as [errno | page interp h IH | ret]; simpl; intros cur bp r t.
  - by intros [= _ <-].
  - destruct (prepare_binprm w sb root page cur interp) as [[[r1 cur1] b1] |] eqn:E; [| done].
    cbn [mbind option_bind]. apply prepare_pid in E. case_match; [intros [= _ <-] | intros H1%IH]; congruence.
  - intros [= _ <-]. unfold compute_creds, mot_security_bprm_apply_creds, cap_bprm_apply_creds.
    repeat case_match; done.
Qed.

Lemma execve_pid w sb bset root early page cur f h a b c r t :
  do_execve w sb bset root early page cur f h a b c = Some (r, t) -> pid t = pid cur.
Proof.
  assert (forall t0, pid (execve_out t0) = pid t0) as Ho.
  { intros t0. unfold execve_out. repeat case_match; done. }
  unfold do_execve. destruct early; [by intros [= _ <-] |].
  destruct (prepare_binprm w sb root page cur f) as [[[r0 cur'] b'] |] eqn:E; [| done].
  apply prepare_pid in E. cbn [mbind option_bind]. case_match; [intros [= _ <-]; by rewrite Ho |].
  destruct (search_binary_handler _ _ _ _ _ _ _ _ _ _) as [[r1 t1] |] eqn:S; [| done].
  apply search_pid in S. cbn [mbind option_bind]. case_match; intros [= _ <-]; rewrite ?Ho; congruence.
Qed.

(** Applying the credentials of an executable without the secure clock. *)
Lemma apply_creds_no_clock bset cur b unsafe :
  no_clock cur -> clock_in (b_cap_inheritable b) = false -> clock_in (b_cap_permitted b) = false ->
  no_clock (mot_security_bprm_apply_creds bset cur b unsafe).
Proof.
  intros (He & Hi & Hp) Bi Bp. unfold mot_security_bprm_apply_creds, cap_bprm_apply_creds.
  set (np := cap_combine _ _).
  assert (clock_in np = false) as Hn by (unfold np; by rewrite clock_combine, !clock_intersect, Bi, Bp).
  clearbody np. unfold no_clock.
  repeat case_match; simpl; rewrite ?clock_intersect, ?Hn, ?He, ?Hi, ?Hp; done.
Qed.

(** Preparing a file that is not matched. *)
Lemma prepare_no_clock w sb root page cur f r cur' b :
  clock_listed w root f = false -> prepare_binprm w sb root page cur f = Some (r, cur', b) ->
  cur' = cur /\ (0 <= r -> clock_in (b_cap_inheritable b) = false /\ clock_in (b_cap_permitted b) = false).
Proof.
  intros Hl E. apply prepare_binprm_spec in E as [Hcur Hb]. rewrite Hl in Hcur, Hb.
  split; [by destruct Hcur |]. intros Hr. by destruct (Hb Hr) as (_ & _ & -> & -> & _).
Qed.

Lemma search_no_clock w sb bset root h a b c : forall cur f bp r t,
  Forall (fun g => clock_listed w root g = false) (prepared_files f h) -> no_clock cur ->
  clock_in (b_cap_inheritable bp) = false -> clock_in (b_cap_permitted bp) = false ->
  search_binary_handler w sb bset root cur bp h a b c = Some (r, t) -> no_clock t.
Proof.
  induction h as [errno | page interp h IH | ret]; simpl; intros cur f bp r t Hl Hno Bi Bp.
  - by intros [= _ <-].
  - apply Forall_cons in Hl as [_ Hl].
    destruct (prepare_binprm w sb root page cur interp) as [[[r1 cur1] b1] |] eqn:E; [| done].
    assert (clock_listed w root interp = false) as Hi by (destruct h; by apply Forall_cons in Hl as [? _]).
    destruct (prepare_no_clock _ _ _ _ _ _ _ _ _ Hi E) as [-> Hb]. cbn [mbind option_bind].
    destruct (Z.ltb_spec r1 0); [by intros [= _ <-] |]. destruct Hb; [done |]. by apply (IH cur interp).
  - intros [= _ <-]. by apply apply_creds_no_clock.
Qed.

Lemma execve_no_clock w sb bset root early page cur f h a b c r t :
  Forall (fun g => clock_listed w root g = false) (prepared_files f h) -> no_clock cur ->
  do_execve w sb bset root early page cur f h a b c = Some (r, t) -> no_clock t.
Proof.
  intros Hl Hno. unfold do_execve. destruct early; [by intros [= _ <-] |].
  destruct (prepare_binprm w sb root page cur f) as [[[r0 cur'] b'] |] eqn:E; [| done].
  assert (clock_listed w root f = false) as Hf by (destruct h; by apply Forall_cons in Hl as [? _]).
  destruct (prepare_no_clock _ _ _ _ _ _ _ _ _ Hf E) as [-> Hb]. cbn [mbind option_bind].
  destruct (Z.ltb_spec r0 0); [intros [= _ <-]; by apply execve_out_no_clock |]. destruct Hb as [Bi Bp]; [done |].
  destruct (search_binary_handler _ _ _ _ _ _ _ _ _ _) as [[r1 t1] |] eqn:S; [| done].
  apply (search_no_clock _ _ _ _ _ _ _ _ _ f) in S; [| done ..].
  cbn [mbind option_bind]. case_match; intros [= _ <-]; auto using execve_out_no_clock.
Qed.

(** C1. The secure clock is reserved: a process that does not hold CAP_SECURE_CLOCK in
    any of its sets never gets it, whatever sequence of set*id calls, [capset] calls
    and [execve] calls it makes, root or not and whatever its other capabilities, as
    long as none of the programs it executes is matched by the secure clock list. *)
Theorem secure_clock_confined w sb bset k es k' :
  pids_unique k -> Forall (event_ok w) es -> no_clock (current k) ->
  events w sb bset k es = Some k' -> no_clock (current k').
Proof.
  intros Hn Hes. revert k Hn. induction Hes as [| e es He _ IH]; simpl; intros k Hn Hno; [by intros [= <-] |].
  destruct (event_step w sb bset k e) as [k1 |] eqn:E; [| done]. cbn [mbind option_bind].
  destruct e as [kmem c | root early page f h a b c]; simpl in E, He.
  - injection E as <-. apply IH; [by apply run_step | by apply run_no_clock].
  - destruct (do_execve _ _ _ _ _ _ _ _ _ _ _ _) as [[r t] |] eqn:X; [| done].
    injection E as <-. apply IH; simpl.
    + unfold pids_unique, all_tasks in *. rewrite fmap_app, fmap_cons in *. simpl.
      by rewrite (execve_pid _ _ _ _ _ _ _ _ _ _ _ _ _ _ X).
    + by eapply execve_no_clock.
Qed.

(** Root with all capabilities executes /etc/spare, sets its uids and then asks
    [capset] for every capability. *)
Lemma secure_clock_confined_witness :
  exists k, events machine_demo 0 CAP_INIT_EFF_SET cap_demo
    [Execve (0%nat, 0%nat) None true (file_demo 4) (Loaded 0) false false false;
     Call true (Capset (Some _LINUX_CAPABILITY_VERSION) true (Some 0) (Some (0xffffffff, 0xffffffff, 0xffffffff)));
     Call true (Setuid 0)] = Some k /\ no_clock (current k).
Proof.
  eexists. split; [vm_compute; reflexivity |].
  eapply (secure_clock_confined machine_demo 0 CAP_INIT_EFF_SET cap_demo
    [Execve (0%nat, 0%nat) None true (file_demo 4) (Loaded 0) false false false;
     Call true (Capset (Some _LINUX_CAPABILITY_VERSION) true (Some 0) (Some (0xffffffff, 0xffffffff, 0xffffffff)));
     Call true (Setuid 0)]).
  - unfold pids_unique. apply (bool_decide_unpack _). vm_compute. exact I.
  - apply Forall_cons; split; [repeat constructor; vm_compute; reflexivity |].
    apply Forall_cons; split; [simpl; unfold data_u32, is_u32; lia |].
    apply Forall_cons; split; [exact I | apply Forall_nil; exact I].
  - split_and!; vm_compute; reflexivity.
  - vm_compute. reflexivity.
Defined.

(** ** Secure mounts *)

Definition is_sep (c : Z) : bool := (c =? 32) || (c =? 10) || (c =? 0).

(** A field: the characters before the first separator. *)
Fixpoint span_field (buff : list Z) : list Z * list Z :=
  match buff with
  | [] => ([], [])
  | c :: rest => if is_sep c then ([], buff) else let '(f, tail) := span_field rest in (c :: f, tail)
  end.

Definition plain (f : list Z) : Prop := f <> [] /\ Forall (fun c => is_sep c = false) f.

Lemma span_field_spec buff :
  buff = (span_field buff).1 ++ (span_field buff).2 /\ Forall (fun c => is_sep c = false) (span_field buff).1 /\
  forall c rest, (span_field buff).2 = c :: rest -> is_sep c = true.
Proof.
  induction buff as [| c buff IH]; simpl; [done |]. destruct (is_sep c) eqn:E.
  - simpl. split_and!; [done | done | by intros ? ? [= <- _]].
  - destruct (span_field buff) as [f tail]. simpl in *. destruct IH as (-> & H & Ht). split_and!; auto.
Qed.

Lemma span_field_plain f c rest :
  Forall (fun c => is_sep c = false) f -> is_sep c = true -> span_field (f ++ c :: rest) = (f, c :: rest).
Proof. intros Hf Hc. induction Hf as [| x f Hx _ IH]; simpl; [by rewrite Hc | by rewrite Hx, IH]. Qed.

(** One field of the scan. *)
Lemma scan_step buff done field n :
  (length done < 3)%nat ->
  scan_fields buff done field n =
  let '(f, tail) := span_field buff in
  match tail with
  | [] => inl (- EINVAL)
  | c :: rest =>
      if decide (field ++ f = []) then inl (- EINVAL)
      else
        let n' := n + Z.of_nat (length f) + 1 in
        if c =? 10 then if (length done =? 2)%nat then inr (done ++ [field ++ f], n') else inl (- EINVAL)
        else scan_fields rest (done ++ [field ++ f]) [] n'
  end.
Proof.
  intros Hl. assert ((length done =? 3)%nat = false) as E3 by (apply Nat.eqb_neq; lia).
  revert field n. induction buff as [| c buff IH]; intros field n; simpl; [by rewrite E3 |]. rewrite E3.
  change ((c =? 32) || (c =? 10) || (c =? 0)) with (is_sep c). destruct (is_sep c) eqn:Es.
  - rewrite app_nil_r, length_app, Nat.add_1_r.
    destruct field; [done |]. rewrite decide_False by done. change (Z.of_nat (length [])) with 0. rewrite Z.add_0_r. reflexivity.
  - rewrite IH. destruct (span_field buff) as [f [| s rest]]; [done |].
    rewrite <- app_assoc. cbn [app length].
    replace (n + 1 + Z.of_nat (length f) + 1) with (n + Z.of_nat (S (length f)) + 1) by lia. done.
Qed.

(** The scan accepts a line of three fields and nothing else. *)
Lemma scan_fields_spec buff fs n :
  scan_fields buff [] [] 0 = inr (fs, n) <->
  exists f0 f1 f2 s0 s1 s2 rest,
    fs = [f0; f1; f2] /\ plain f0 /\ plain f1 /\ plain f2 /\
    (s0 = 32 \/ s0 = 0) /\ (s1 = 32 \/ s1 = 0) /\ is_sep s2 = true /\
    buff = f0 ++ s0 :: f1 ++ s1 :: f2 ++ s2 :: rest /\
    n = Z.of_nat (length f0 + length f1 + length f2 + 3).
Proof.
  assert (forall s, is_sep s = true -> (s =? 10) = false -> s = 32 \/ s = 0) as Hsep.
  { intros s. unfold is_sep. lia. }
  split.
  - intros H. rewrite scan_step in H by (simpl; lia).
    destruct (span_field_spec buff) as (E0 & P0 & S0). destruct (span_field buff) as [f0 [| s0 b1]]; [done |].
    simpl in *. specialize (S0 _ _ eq_refl). case_decide; [done |]. case_match eqn:N0; [done |].
    rewrite scan_step in H by (simpl; lia).
    destruct (span_field_spec b1) as (E1 & P1 & S1). destruct (span_field b1) as [f1 [| s1 b2]]; [done |].
    simpl in *. specialize (S1 _ _ eq_refl). case_decide; [done |]. case_match eqn:N1; [done |].
    rewrite scan_step in H by (simpl; lia).
    destruct (span_field_spec b2) as (E2 & P2 & S2). destruct (span_field b2) as [f2 [| s2 b3]]; [done |].
    simpl in *. specialize (S2 _ _ eq_refl). case_decide; [done |].
    exists f0, f1, f2, s0, s1, s2, b3. subst.
    assert (fs = [f0; f1; f2] /\ n = 0 + Z.of_nat (length f0) + 1 + Z.of_nat (length f1) + 1 + Z.of_nat (length f2) + 1)
      as [-> ->] by (case_match; [by injection H as <- <- | destruct b3; by injection H as <- <-]).
    split_and!; try done; try (by apply Hsep); lia.
  - intros (f0 & f1 & f2 & s0 & s1 & s2 & rest & -> & [N0 P0] & [N1 P1] & [N2 P2] & H0 & H1 & H2 & -> & ->).
    assert (is_sep s0 = true /\ (s0 =? 10) = false) as [E0 E0'] by (by destruct H0 as [-> | ->]).
    assert (is_sep s1 = true /\ (s1 =? 10) = false) as [E1 E1'] by (by destruct H1 as [-> | ->]).
    rewrite scan_step, span_field_plain by (simpl; auto; lia). cbn [app]. rewrite decide_False, E0' by done.
    rewrite scan_step, span_field_plain by (simpl; auto; lia). cbn [app]. rewrite decide_False, E1' by done.
    rewrite scan_step, span_field_plain by (simpl; auto; lia). cbn [app length Nat.eqb]. rewrite decide_False by done.
    destruct (s2 =? 10); [| destruct rest]; simpl; f_equal; f_equal; lia.
Qed.

Lemma scan_fields_err buff done field n e :
  scan_fields buff done field n = inl e -> e = - EINVAL.
Proof.
  revert done field n. induction buff as [| c buff IH]; intros done field n; simpl.
  - case_match; [done |]. by intros [= <-].
  - repeat case_match; intros Hs; try discriminate Hs; try (by injection Hs as <-); by eapply IH.
Qed.

Definition string_bytes (s : string) : list Z := Z.of_N <$> (Ascii.N_of_ascii <$> String.list_ascii_of_string s).

Lemma bytes_string_bytes s : bytes_string (string_bytes s) = s.
Proof.
  unfold bytes_string, string_bytes. rewrite <- (String.string_of_list_ascii_of_string s) at 2. f_equal.
  induction (String.list_ascii_of_string s) as [| a l IH]; [done |].
  by rewrite !fmap_cons, N2Z.id, Ascii.ascii_N_embedding, IH.
Qed.

#[export] Instance motsec_mount_eq_dec : EqDecision motsec_mount.
Proof. solve_decision. Defined.

(** The two attributes' writes. *)
Inductive attr_write := WriteLocked (buff : list Z) | WriteAllowed (kmallocs kmalloc : bool) (buff : list Z).

Definition attr_store (s : motsec) (a : attr_write) : Z * motsec :=
  match a with
  | WriteLocked buff => motsec_mounts_locked_store s buff
  | WriteAllowed ks k buff => motsec_allowed_mounts_store s ks k buff
  end.

Lemma attr_store_locked s a : mounts_locked s = true -> (attr_store s a).2 = s.
Proof.
  intros Hl. destruct a as [buff | ks k buff]; simpl.
  - unfold motsec_mounts_locked_store, motsec_lock_mounts. destruct s; simpl in *. subst. repeat case_match; done.
  - unfold motsec_allowed_mounts_store, motsec_add_allowed_mount. rewrite Hl.
    destruct (scan_fields _ _ _ _) as [| [[| f0 [| f1 [| f2 []]]] n]]; try done. by destruct ks.
Qed.

Lemma check_mounts_spec l d m t :
  check_mounts l (Some d) (Some m) (Some t) =
  Some (if bool_decide (mk_mount d m t ∈ l) then 0 else - EPERM).
Proof.
  induction l as [| c l IH]; [done |]. simpl.
  destruct (String.eqb_spec d (device c)), (String.eqb_spec m (mount_point c)), (String.eqb_spec t (fs_type c));
    cbn [negb]; rewrite ?IH; f_equal;
    try (rewrite bool_decide_true by (rewrite elem_of_cons; left; destruct c; simpl in *; congruence); done);
    (erewrite bool_decide_ext; [reflexivity |]; rewrite elem_of_cons; split; [by right |];
     intros [<- |]; simpl in *; done).
Qed.

(** Once the mounts are locked they stay locked and the list of allowed mounts
    stays as it is, whatever is written to the two attributes; and from then on the
    mount hook lets exactly the listed triples of device, mount point (its absolute
    path) and file system type through, every other mount being refused with
    EPERM. *)
Lemma secure_mounts_locked w s writes d m path dev type :
  mounts_locked s = true ->
  abs_d_path (fs w) (init_root w) d m PAGE_SIZE = Some (inl path) ->
  let s' := foldl (fun s a => (attr_store s a).2) s writes in
  mounts_locked s' = true /\ allowed_mounts s' = allowed_mounts s /\
  mot_security_sb_mount w s' true (Some dev) d m (Some type) =
    Some (if bool_decide (mk_mount dev path type ∈ allowed_mounts s) then 0 else - EPERM).
Proof.
  intros Hl Hp. assert (foldl (fun s a => (attr_store s a).2) s writes = s) as ->.
  { induction writes as [| a writes IH]; [done |]. simpl. by rewrite attr_store_locked. }
  split_and!; [done..|]. unfold mot_security_sb_mount, motsec_check_mount_allowed. rewrite Hl, Hp. simpl.
  apply check_mounts_spec.
Qed.

(** Writing the allowed mounts. A write is accepted exactly when it starts with
    three non-empty fields, the first two ended by a space or a NUL and the third by
    a space, a NUL or a newline; then exactly that triple is appended and the number of bytes up to and
    including the last separator is returned. In particular a line "device mountpoint type\n" whose
    fields have no separator adds exactly that triple. Any other write returns
    EINVAL and changes nothing. *)
Lemma allowed_mounts_store_spec s buff :
  mounts_locked s = false ->
  (forall f0 f1 f2 s0 s1 s2 rest,
    plain f0 -> plain f1 -> plain f2 -> (s0 = 32 \/ s0 = 0) -> (s1 = 32 \/ s1 = 0) -> is_sep s2 = true ->
    buff = f0 ++ s0 :: f1 ++ s1 :: f2 ++ s2 :: rest ->
    motsec_allowed_mounts_store s true true buff =
      (Z.of_nat (length f0 + length f1 + length f2 + 3),
       mk_motsec false (allowed_mounts s ++ [mk_mount (bytes_string f0) (bytes_string f1) (bytes_string f2)]))) /\
  (forall dev mount type,
    plain (string_bytes dev) -> plain (string_bytes mount) -> plain (string_bytes type) ->
    buff = string_bytes dev ++ 32 :: string_bytes mount ++ 32 :: string_bytes type ++ [10] ->
    motsec_allowed_mounts_store s true true buff =
      (Z.of_nat (length buff), mk_motsec false (allowed_mounts s ++ [mk_mount dev mount type]))) /\
  (~ (exists f0 f1 f2 s0 s1 s2 rest,
    plain f0 /\ plain f1 /\ plain f2 /\ (s0 = 32 \/ s0 = 0) /\ (s1 = 32 \/ s1 = 0) /\ is_sep s2 = true /\
    buff = f0 ++ s0 :: f1 ++ s1 :: f2 ++ s2 :: rest) ->
   motsec_allowed_mounts_store s true true buff = (- EINVAL, s)).
Proof.
  intros Hl.
  assert (forall f0 f1 f2 n, scan_fields buff [] [] 0 = inr ([f0; f1; f2], n) ->
    motsec_allowed_mounts_store s true true buff = (n,
       mk_motsec false (allowed_mounts s ++ [mk_mount (bytes_string f0) (bytes_string f1) (bytes_string f2)]))) as Hok.
  { intros f0 f1 f2 n E. unfold motsec_allowed_mounts_store, motsec_add_allowed_mount. rewrite E, Hl. done. }
  split_and!.
  - intros f0 f1 f2 s0 s1 s2 rest ????? Hs Hb. apply Hok, scan_fields_spec. exists f0, f1, f2, s0, s1, s2, rest. done.
  - intros dev mount type Pd Pm Pt Hb.
    erewrite Hok; [rewrite !bytes_string_bytes |]; [reflexivity |]. apply scan_fields_spec.
    eexists _, _, _, 32, 32, 10, []. split_and!; [reflexivity | done | done | done | by left | by left | done | exact Hb |].
    rewrite Hb, !length_app. simpl. rewrite !length_app. simpl. rewrite !length_app. simpl. lia.
  - intros Hno. unfold motsec_allowed_mounts_store.
    destruct (scan_fields buff [] [] 0) as [e | [fs n]] eqn:E.
    + f_equal. eapply scan_fields_err; exact E.
    + destruct Hno. apply scan_fields_spec in E as (f0 & f1 & f2 & s0 & s1 & s2 & rest & _ & H).
      exists f0, f1, f2, s0, s1, s2, rest. naive_solver.
Qed.

Definition line_demo : list Z :=
  string_bytes "/dev/sda1" ++ 32 :: string_bytes "/mnt" ++ 32 :: string_bytes "vfat" ++ [10].


Definition mounts_text (s : motsec) : string :=
  mounts_heading +:+ foldr (fun c t => mount_line c +:+ t) EmptyString (allowed_mounts s).

Lemma substring_all s n : (String.length s <= n)%nat -> String.substring 0 n s = s.
Proof. revert n. induction s as [| a s IH]; intros [| n]; simpl; [done.. | lia |]. intros H. rewrite IH; [done | lia]. Qed.

Lemma snprintf_at_fits text buff room :
  Z.of_nat (String.length text) < room ->
  snprintf_at text (buff, room) = (buff +:+ text, room - Z.of_nat (String.length text)).
Proof.
  intros H. unfold snprintf_at. rewrite substring_all by lia. by rewrite (proj2 (Z.ltb_lt _ _) H).
Qed.

Lemma string_app_nil s : s +:+ EmptyString = s.
Proof. induction s as [| a s IH]; [done |]. change (String a s +:+ EmptyString) with (String a (s +:+ EmptyString)). by rewrite IH. Qed.

Lemma string_app_assoc a b c : (a +:+ b) +:+ c = a +:+ (b +:+ c).
Proof.
  induction a as [| x a IH]; [done |].
  change ((String x a +:+ b) +:+ c) with (String x ((a +:+ b) +:+ c)). by rewrite IH.
Qed.

Lemma string_length_app a b : String.length (a +:+ b) = (String.length a + String.length b)%nat.
Proof. induction a as [| c a IH]; simpl; [done | by rewrite IH]. Qed.

(** What is read back is the whole list when it is shorter than the buffer. *)
Lemma get_allowed_mounts_fits s size :
  Z.of_nat (String.length (mounts_text s)) < size ->
  motsec_get_allowed_mounts s size = (mounts_text s, Z.of_nat (String.length (mounts_text s))).
Proof.
  unfold mounts_text, motsec_get_allowed_mounts. rewrite string_length_app. intros H.
  rewrite snprintf_at_fits by lia. cbn [String.append].
  change (EmptyString +:+ mounts_heading) with mounts_heading.
  assert (forall l buff room, Z.of_nat (String.length (foldr (fun c t => mount_line c +:+ t) EmptyString l)) < room ->
    foldl (fun st c => if negb (st.2 =? 0) then snprintf_at (mount_line c) st else st) (buff, room) l =
    (buff +:+ foldr (fun c t => mount_line c +:+ t) EmptyString l,
     room - Z.of_nat (String.length (foldr (fun c t => mount_line c +:+ t) EmptyString l)))) as Hl.
  { induction l as [| c l IH]; intros buff room Hf; cbn [foldl foldr] in *.
    - rewrite string_app_nil. simpl. f_equal; lia.
    - rewrite string_length_app in Hf. cbn [snd]. rewrite (proj2 (Z.eqb_neq room 0)) by lia. cbn [negb].
      rewrite snprintf_at_fits by lia. rewrite IH by lia. rewrite string_length_app, string_app_assoc.
      f_equal; lia. }
  rewrite Hl by lia. f_equal; lia.
Qed.
