(* ===== verification/FileLocks.v ===== *)
(** * File locks: fs/locks.c

    Record locks (POSIX) and whole-file locks (flock), and the waiting they cause.
    The state is the list [i_flock] of the file operated on and the waiting requests
    of the whole system; the big kernel lock makes each operation atomic. A lock
    structure is identified by its address [fl_id]. Offsets are 64-bit signed
    integers ([loff_t]) that wrap around. The locks are those of local processes:
    [fl_ops] and [fl_lmops] are null, as [flock_to_posix_lock] sets them. The answers
    of the slab allocator are arguments. *)

From stdpp Require Import gmap.
From S2P Require Import Prelude.

(** ** Locks (include/linux/fs.h, include/asm-arm/fcntl.h) *)

Definition FL_POSIX := 1.
Definition FL_FLOCK := 2.
Definition FL_ACCESS := 8.
Definition FL_LEASE := 32.
Definition FL_SLEEP := 128.

Definition F_RDLCK := 0.
Definition F_WRLCK := 1.
Definition F_UNLCK := 2.

Definition LOCK_SH := 1.
Definition LOCK_EX := 2.
Definition LOCK_UN := 8.
Definition LOCK_MAND := 32.
Definition LOCK_READ := 64.
Definition LOCK_WRITE := 128.
Definition LOCK_RW := 192.

Definition ENOLCK := 37.
Definition EDEADLK := 35.
Definition EOVERFLOW := 75.

Definition OFFSET_MAX : Z := 9223372036854775807.

(** Two's complement reading of 64 bits. *)
Definition loff (z : Z) : Z := (z + 9223372036854775808) mod 18446744073709551616 - 9223372036854775808.

Record file_lock := mk_fl {
  fl_id : nat; fl_owner : Z; fl_pid : Z; fl_file : Z; fl_flags : Z;
  fl_type : Z; fl_start : Z; fl_end : Z;
}.

Definition set_range (s e : Z) (fl : file_lock) : file_lock :=
  mk_fl (fl_id fl) (fl_owner fl) (fl_pid fl) (fl_file fl) (fl_flags fl) (fl_type fl) s e.
Definition set_type (t : Z) (fl : file_lock) : file_lock :=
  mk_fl (fl_id fl) (fl_owner fl) (fl_pid fl) (fl_file fl) (fl_flags fl) t (fl_start fl) (fl_end fl).

(** [locks_copy_lock] into the structure at [id]. *)
Definition locks_copy_lock (id : nat) (fl : file_lock) : file_lock :=
  mk_fl id (fl_owner fl) (fl_pid fl) (fl_file fl) (fl_flags fl) (fl_type fl) (fl_start fl) (fl_end fl).

Definition has_flag (fl : file_lock) (f : Z) : bool := negb (Z.land (fl_flags fl) f =? 0).
Definition IS_POSIX (fl : file_lock) : bool := has_flag fl FL_POSIX.
Definition IS_FLOCK (fl : file_lock) : bool := has_flag fl FL_FLOCK.
Definition IS_LEASE (fl : file_lock) : bool := has_flag fl FL_LEASE.

Definition locks_overlap (fl1 fl2 : file_lock) : bool :=
  (fl_start fl2 <=? fl_end fl1) && (fl_start fl1 <=? fl_end fl2).

Definition posix_same_owner (fl1 fl2 : file_lock) : bool := fl_owner fl1 =? fl_owner fl2.

Definition locks_conflict (caller_fl sys_fl : file_lock) : bool :=
  if fl_type sys_fl =? F_WRLCK then true else if fl_type caller_fl =? F_WRLCK then true else false.

Definition posix_locks_conflict (caller_fl sys_fl : file_lock) : bool :=
  if negb (IS_POSIX sys_fl) || posix_same_owner caller_fl sys_fl then false
  else if negb (locks_overlap caller_fl sys_fl) then false
  else locks_conflict caller_fl sys_fl.

Definition flock_locks_conflict (caller_fl sys_fl : file_lock) : bool :=
  if negb (IS_FLOCK sys_fl) || (fl_file caller_fl =? fl_file sys_fl) then false
  else if negb (Z.land (fl_type caller_fl) LOCK_MAND =? 0) || negb (Z.land (fl_type sys_fl) LOCK_MAND =? 0) then false
  else locks_conflict caller_fl sys_fl.

(** ** Waiting

    The waiting requests, newest first: each with the address and the owner of the
    lock it waits for (its [fl_next]). Those that wait for a POSIX lock make up
    [blocked_list], in this order; those that wait for one lock are in its
    [fl_block] list, oldest first. *)

Record wait := mk_wait { waiter : file_lock; blocker : nat; blocker_owner : Z; blocker_posix : bool }.

Definition __locks_delete_block (w : file_lock) (ws : list wait) : list wait :=
  filter (fun x => fl_id (waiter x) <> fl_id w) ws.
Definition locks_delete_block (w : file_lock) (ws : list wait) : list wait := __locks_delete_block w ws.

(** A request that is already waiting is taken off its list first. *)
Definition locks_insert_block (b w : file_lock) (ws : list wait) : list wait :=
  mk_wait w (fl_id b) (fl_owner b) (IS_POSIX b) :: __locks_delete_block w ws.

Definition locks_wake_up_blocks (id : nat) (ws : list wait) : list wait :=
  filter (fun x => blocker x <> id) ws.

(** The [next_task] loop. [None] when the fuel runs out. *)
Fixpoint deadlock_loop (fuel : nat) (ws : list wait) (caller block : Z) : option bool :=
  match fuel with
  | O => None
  | S fuel =>
      if caller =? block then Some true
      else
        match find (fun w => blocker_posix w && (fl_owner (waiter w) =? block)) ws with
        | Some w => deadlock_loop fuel ws caller (blocker_owner w)
        | None => Some false
        end
  end.

(** Every iteration moves on to the owner of another blocker, so after more
    iterations than there are waiting requests the loop never ends. *)
Definition posix_locks_deadlock (ws : list wait) (caller_fl block_fl : file_lock) : option bool :=
  deadlock_loop (S (S (length ws))) ws (fl_owner caller_fl) (fl_owner block_fl).

Definition posix_test_lock (l : list file_lock) (fl : file_lock) : option file_lock :=
  find (fun cfl => if negb (IS_POSIX cfl) then false else posix_locks_conflict cfl fl) l.

(** ** Applying a record lock *)

(** Where the walk over the owner's locks stopped: the locks before and after
    [*before], the structure [request] points to, and the other local variables. *)
Record walk := mk_walk {
  passed : list file_lock; ahead : list file_lock; request : file_lock;
  added : bool; left_ : option nat; right_ : option nat; wq : list wait;
}.

(** Writing to the structure with the address of [fl]. *)
Definition assign (fl : file_lock) (l : list file_lock) : list file_lock :=
  (fun f => if (fl_id f =? fl_id fl)%nat then fl else f) <$> l.

(** The second [while] of [__posix_lock_file]. Once [request = fl], it points to a
    lock of the list, so what is assigned to [request] is assigned to that lock;
    the caller's own structure is not in the list. *)
Fixpoint walk_own (rest done : list file_lock) (rq : file_lock) (add : bool) (lft : option nat) (ws : list wait)
  : walk :=
  match rest with
  | [] => mk_walk done [] rq add lft None ws
  | fl :: rest' =>
      if negb (posix_same_owner rq fl) then mk_walk done rest rq add lft None ws
      else if fl_type rq =? fl_type fl then
        if fl_end fl <? loff (fl_start rq - 1) then walk_own rest' (done ++ [fl]) rq add lft ws
        else if loff (fl_end rq + 1) <? fl_start fl then mk_walk done rest rq add lft None ws
        else
          let s := if fl_start rq <? fl_start fl then fl_start rq else fl_start fl in
          let e := if fl_end fl <? fl_end rq then fl_end rq else fl_end fl in
          let rq := set_range s e rq in
          let done := assign rq done in
          if add then walk_own rest' done rq add lft (locks_wake_up_blocks (fl_id fl) ws)
          else let fl := set_range s e fl in walk_own rest' (done ++ [fl]) fl true lft ws
      else
        if fl_end fl <? fl_start rq then walk_own rest' (done ++ [fl]) rq add lft ws
        else if fl_end rq <? fl_start fl then mk_walk done rest rq add lft None ws
        else
          let add := if fl_type rq =? F_UNLCK then true else add in
          let lft := if fl_start fl <? fl_start rq then Some (fl_id fl) else lft in
          if fl_end rq <? fl_end fl then mk_walk done rest rq add lft (Some (fl_id fl)) ws
          else if fl_start rq <=? fl_start fl then
            if add then walk_own rest' done rq add lft (locks_wake_up_blocks (fl_id fl) ws)
            else
              let ws := locks_wake_up_blocks (fl_id fl) ws in
              let fl := set_type (fl_type rq) (set_range (fl_start rq) (fl_end rq) fl) in
              walk_own rest' (done ++ [fl]) fl true lft ws
          else walk_own rest' (done ++ [fl]) rq add lft ws
  end.

(** The first [while]: the locks before the owner's. *)
Fixpoint skip_others (rq : file_lock) (l : list file_lock) : list file_lock * list file_lock :=
  match l with
  | [] => ([], [])
  | fl :: l' =>
      if negb (IS_POSIX fl) || negb (posix_same_owner rq fl)
      then let '(a, b) := skip_others rq l' in (fl :: a, b) else ([], l)
  end.

Definition update_lock (id : nat) (f : file_lock -> file_lock) (l : list file_lock) : list file_lock :=
  (fun x => if (fl_id x =? id)%nat then f x else x) <$> l.

(** What follows the walk. *)
Definition finish (w : walk) (new_fl new_fl2 : nat) : list file_lock * list wait :=
  let rq := request w in
  if negb (added w) && (fl_type rq =? F_UNLCK) then (passed w ++ ahead w, wq w)
  else
    let slot := if negb (added w) then locks_copy_lock new_fl rq :: ahead w else ahead w in
    let '(l, lft, ws) :=
      match right_ w with
      | None => (passed w ++ slot, left_ w, wq w)
      | Some r =>
          let '(slot, lft) :=
            if bool_decide (left_ w = Some r) then
              (match find (fun x => fl_id x =? r)%nat slot with
               | Some rfl => locks_copy_lock new_fl2 rfl :: slot
               | None => slot
               end, Some new_fl2)
            else (slot, left_ w) in
          (update_lock r (fun x => set_range (loff (fl_end rq + 1)) (fl_end x) x) (passed w ++ slot), lft,
           locks_wake_up_blocks r (wq w))
      end in
    match lft with
    | None => (l, ws)
    | Some i => (update_lock i (fun x => set_range (fl_start x) (loff (fl_start rq - 1)) x) l,
                 locks_wake_up_blocks i ws)
    end.

Record lstate := mk_lst { i_flock : list file_lock; waits : list wait }.

Definition apply_lock (rq : file_lock) (new_fl new_fl2 : nat) (st : lstate) : lstate :=
  let '(pre, rest) := skip_others rq (i_flock st) in
  let '(l, ws) := finish (walk_own rest pre rq false None (waits st)) new_fl new_fl2 in
  mk_lst l ws.

(** [new_fl] and [new_fl2] are the structures allocated in advance. [None] is a call
    that does not return. *)
Definition __posix_lock_file (rq : file_lock) (new_fl new_fl2 : option nat) (st : lstate) : option (Z * lstate) :=
  match (if negb (fl_type rq =? F_UNLCK)
         then find (fun fl => if negb (IS_POSIX fl) then false else posix_locks_conflict rq fl) (i_flock st)
         else None) with
  | Some fl =>
      if negb (has_flag rq FL_SLEEP) then Some (- EAGAIN, st)
      else
        d ← posix_locks_deadlock (waits st) rq fl;
        if (d : bool) then Some (- EDEADLK, st)
        else Some (- EAGAIN, mk_lst (i_flock st) (locks_insert_block fl rq (waits st)))
  | None =>
      if has_flag rq FL_ACCESS then Some (0, st)
      else
        match new_fl, new_fl2 with
        | Some n1, Some n2 => Some (0, apply_lock rq n1 n2 st)
        | _, _ => Some (- ENOLCK, st)
        end
  end.

(** ** Other operations on the lists *)

(** [locks_remove_posix]: the owner closes the file. *)
Fixpoint remove_posix_loop (owner : Z) (l : list file_lock) (ws : list wait) : list file_lock * list wait :=
  match l with
  | [] => ([], ws)
  | fl :: l' =>
      if IS_POSIX fl && (fl_owner fl =? owner) then remove_posix_loop owner l' (locks_wake_up_blocks (fl_id fl) ws)
      else let '(l', ws) := remove_posix_loop owner l' ws in (fl :: l', ws)
  end.

Definition locks_remove_posix (owner : Z) (st : lstate) : lstate :=
  let '(l, ws) := remove_posix_loop owner (i_flock st) (waits st) in mk_lst l ws.

(** [lease_modify(before, F_UNLCK)] deletes the lease, as [locks_delete_lock] does. A
    lock of another kind is a BUG. *)
Fixpoint remove_flock_loop (filp : Z) (l : list file_lock) (ws : list wait) : option (list file_lock * list wait) :=
  match l with
  | [] => Some ([], ws)
  | fl :: l' =>
      if fl_file fl =? filp then
        if IS_FLOCK fl || IS_POSIX fl || IS_LEASE fl
        then remove_flock_loop filp l' (locks_wake_up_blocks (fl_id fl) ws) else None
      else '(l', ws) ← remove_flock_loop filp l' ws; Some (fl :: l', ws)
  end.

Definition locks_remove_flock (filp : Z) (st : lstate) : option lstate :=
  '(l, ws) ← remove_flock_loop filp (i_flock st) (waits st); Some (mk_lst l ws).

(** The two critical sections of [flock_lock_file]. The first one finds the file's
    own lock: of the same type ([inl 0]: nothing to do), or it is deleted. *)
Fixpoint flock_drop (new_fl : file_lock) (l : list file_lock) (ws : list wait)
  : Z + list file_lock * list wait :=
  match l with
  | [] => inr ([], ws)
  | fl :: l' =>
      if IS_POSIX fl then inr (l, ws)
      else if IS_LEASE fl || negb (fl_file new_fl =? fl_file fl) then
        match flock_drop new_fl l' ws with
        | inl e => inl e
        | inr (l', ws) => inr (fl :: l', ws)
        end
      else if fl_type new_fl =? fl_type fl then inl 0
      else inr (l', locks_wake_up_blocks (fl_id fl) ws)
  end.

Fixpoint flock_find_conflict (new_fl : file_lock) (l : list file_lock) : option file_lock :=
  match l with
  | [] => None
  | fl :: l' =>
      if IS_POSIX fl then None
      else if IS_LEASE fl then flock_find_conflict new_fl l'
      else if negb (flock_locks_conflict new_fl fl) then flock_find_conflict new_fl l'
      else Some fl
  end.

Definition flock_take (new_fl : file_lock) (st : lstate) : Z * lstate :=
  match flock_find_conflict new_fl (i_flock st) with
  | Some fl =>
      (- EAGAIN,
       if has_flag new_fl FL_SLEEP then mk_lst (i_flock st) (locks_insert_block fl new_fl (waits st)) else st)
  | None => (0, mk_lst (new_fl :: i_flock st) (waits st))
  end.

(** [resched] is what the processes that run in between do to the state. *)
Definition flock_lock_file (resched : lstate -> lstate) (new_fl : file_lock) (st : lstate) : Z * lstate :=
  match flock_drop new_fl (i_flock st) (waits st) with
  | inl e => (e, st)
  | inr (l, ws) =>
      let found := negb (length l =? length (i_flock st))%nat in
      let st := mk_lst l ws in
      if fl_type new_fl =? F_UNLCK then (0, st)
      else flock_take new_fl (if found then resched st else st)
  end.

Definition locks_mandatory_locked (owner : Z) (st : lstate) : Z :=
  match find (fun fl => IS_POSIX fl && negb (fl_owner fl =? owner)) (i_flock st) with
  | Some _ => - EAGAIN
  | None => 0
  end.

(** [start + len]: an [unsigned long] added to a [loff_t]. *)
Definition lock_may_read (st : lstate) (start len : Z) : bool :=
  negb (existsb (fun fl =>
    if IS_POSIX fl then
      negb (fl_type fl =? F_RDLCK) && negb ((fl_end fl <? start) || (loff (start + len) <? fl_start fl))
    else if IS_FLOCK fl then
      negb (Z.land (fl_type fl) LOCK_MAND =? 0) && (Z.land (fl_type fl) LOCK_READ =? 0)
    else false) (i_flock st)).

Definition lock_may_write (st : lstate) (start len : Z) : bool :=
  negb (existsb (fun fl =>
    if IS_POSIX fl then negb ((fl_end fl <? start) || (loff (start + len) <? fl_start fl))
    else if IS_FLOCK fl then
      negb (Z.land (fl_type fl) LOCK_MAND =? 0) && (Z.land (fl_type fl) LOCK_WRITE =? 0)
    else false) (i_flock st)).

(** ** System calls *)

Definition flock_translate_cmd (cmd : Z) : Z :=
  if negb (Z.land cmd LOCK_MAND =? 0) then Z.land cmd (Z.lor LOCK_MAND LOCK_RW)
  else if cmd =? LOCK_SH then F_RDLCK
  else if cmd =? LOCK_EX then F_WRLCK
  else if cmd =? LOCK_UN then F_UNLCK
  else - EINVAL.

(** [fl] is the structure allocated, if any. *)
Definition flock_make_lock (filp tgid : Z) (fl : option nat) (cmd : Z) : Z + file_lock :=
  let type := flock_translate_cmd cmd in
  if type <? 0 then inl type
  else match fl with
       | None => inl (- ENOMEM)
       | Some id => inr (mk_fl id 0 tgid filp FL_FLOCK type 0 OFFSET_MAX)
       end.

(** [struct flock] and [struct flock64], and what is read of the file. *)
Record flock := mk_flock { l_type : Z; l_whence : Z; l_start : Z; l_len : Z }.
Record open_file := mk_open { filp : Z; f_pos : Z; i_size : Z; f_read : bool; f_write : bool }.

Definition assign_type (type : Z) (fl : file_lock) : Z + file_lock :=
  if (type =? F_RDLCK) || (type =? F_WRLCK) || (type =? F_UNLCK) then inr (set_type type fl) else inl (- EINVAL).

(** [off_t] has 32 bits: the position and the size are cut to it. [files] and [tgid]
    are the current process'. *)
Definition flock_to_posix_lock (f : open_file) (files tgid : Z) (id : nat) (l : flock) : Z + file_lock :=
  match (if l_whence l =? 0 then Some 0 else if l_whence l =? 1 then Some (s32 (f_pos f))
         else if l_whence l =? 2 then Some (s32 (i_size f)) else None) with
  | None => inl (- EINVAL)
  | Some start =>
      let start := s32 (start + l_start l) in
      let end_ := s32 (start + l_len l - 1) in
      let '(start, end_) := if l_len l <? 0 then (s32 (start + l_len l), s32 (start - 1)) else (start, end_) in
      if start <? 0 then inl (- EINVAL)
      else if (0 <? l_len l) && (end_ <? 0) then inl (- EOVERFLOW)
      else
        assign_type (l_type l)
          (mk_fl id files tgid (filp f) FL_POSIX 0 start (if l_len l =? 0 then OFFSET_MAX else end_))
  end.

Definition flock64_to_posix_lock (f : open_file) (files tgid : Z) (id : nat) (l : flock) : Z + file_lock :=
  match (if l_whence l =? 0 then Some 0 else if l_whence l =? 1 then Some (f_pos f)
         else if l_whence l =? 2 then Some (i_size f) else None) with
  | None => inl (- EINVAL)
  | Some start =>
      let start := loff (start + l_start l) in
      if (start <? 0) || (l_len l <? 0) then inl (- EINVAL)
      else
        let end_ := loff (start + l_len l - 1) in
        if (0 <? l_len l) && (end_ <? 0) then inl (- EOVERFLOW)
        else
          assign_type (l_type l)
            (mk_fl id files tgid (filp f) FL_POSIX 0 start (if l_len l =? 0 then OFFSET_MAX else end_))
  end.

Definition EBADF := 9.

(** The first round of [fcntl_setlk] and [fcntl_setlk64] (they differ in [convert]), up
    to the point where the process sleeps or returns, on a file system without a lock
    operation of its own. [fls] are the three structures the allocator gives, [mand]
    says that the file is subject to mandatory locking and mapped writably, [sec] is
    the answer of [security_file_lock]. *)
Definition fcntl_setlk (convert : open_file -> Z -> Z -> nat -> flock -> Z + file_lock) (f : open_file) (files tgid : Z)
    (mand : bool) (sec : Z) (sleep : bool) (l : option flock) (fls : option nat * option nat * option nat) (st : lstate)
  : option (Z * lstate) :=
  let '(fl, new_fl, new_fl2) := fls in
  match fl, l with
  | None, _ => Some (- ENOLCK, st)
  | Some _, None => Some (- EFAULT, st)
  | Some id, Some l =>
      if mand then Some (- EAGAIN, st)
      else
      match convert f files tgid id l with
      | inl e => Some (e, st)
      | inr fl =>
          let fl := if sleep then mk_fl (fl_id fl) (fl_owner fl) (fl_pid fl) (fl_file fl) (Z.lor (fl_flags fl) FL_SLEEP)
                                    (fl_type fl) (fl_start fl) (fl_end fl) else fl in
          if ((fl_type fl =? F_RDLCK) && negb (f_read f)) || ((fl_type fl =? F_WRLCK) && negb (f_write f))
          then Some (- EBADF, st)
          else if negb (sec =? 0) then Some (sec, st)
          else __posix_lock_file fl new_fl new_fl2 st
      end
  end.

Definition OFFT_OFFSET_MAX : Z := 2147483647.

(** [fcntl_getlk] and [fcntl_getlk64] ([legacy] is false), on a file system without a
    lock operation of its own: the error, and what is written back to the caller's
    structure, with [l_pid]. [out] says that the copy succeeds. *)
Definition fcntl_getlk (convert : open_file -> Z -> Z -> nat -> flock -> Z + file_lock) (legacy : bool) (f : open_file)
    (files tgid : Z) (l : option flock) (pid : Z) (out : bool) (st : lstate) : Z * option (flock * Z) :=
  match l with
  | None => (- EFAULT, None)
  | Some l =>
      if negb (l_type l =? F_RDLCK) && negb (l_type l =? F_WRLCK) then (- EINVAL, None)
      else
        match convert f files tgid 0%nat l with
        | inl e => (e, None)
        | inr file_lock =>
            match posix_test_lock (i_flock st) file_lock with
            | Some fl =>
                if legacy && ((OFFT_OFFSET_MAX <? fl_start fl) ||
                              (negb (fl_end fl =? OFFSET_MAX) && (OFFT_OFFSET_MAX <? fl_end fl)))
                then (- EOVERFLOW, None)
                else if out then
                  let off := if legacy then s32 else loff in
                  (0, Some (mk_flock (fl_type fl) 0 (off (fl_start fl))
                              (if fl_end fl =? OFFSET_MAX then 0 else off (fl_end fl - fl_start fl + 1)), fl_pid fl))
                else (- EFAULT, None)
            | None => if out then (0, Some (mk_flock F_UNLCK (l_whence l) (l_start l) (l_len l), pid)) else (- EFAULT, None)
            end
        end
  end.

(** [__steal_locks], called for every file that is open. *)
Definition __steal_locks (filp from files : Z) (l : list file_lock) : list file_lock :=
  (fun fl => if (fl_file fl =? filp) && (fl_owner fl =? from)
             then mk_fl (fl_id fl) files (fl_pid fl) (fl_file fl) (fl_flags fl) (fl_type fl) (fl_start fl) (fl_end fl)
             else fl) <$> l.

(** * Correctness *)

(** ** What a lock covers *)

Definition covers (f : file_lock) (x : Z) : Prop := fl_start f <= x <= fl_end f.

Definition offset (z : Z) : Prop := 0 <= z <= OFFSET_MAX.

Lemma loff_small z : -9223372036854775808 <= z < 9223372036854775808 -> loff z = z.
Proof. intros H. unfold loff. rewrite Z.mod_small; lia. Qed.

Lemma loff_max : loff (OFFSET_MAX + 1) = -9223372036854775808.
Proof. reflexivity. Qed.

(** The end of a lock plus one, compared with an offset: past [OFFSET_MAX] everything
    is greater. *)
Lemma after_end e s :
  0 <= e <= OFFSET_MAX -> 0 <= s -> (loff (e + 1) <? s) = false -> e < OFFSET_MAX /\ s <= e + 1.
Proof.
  intros He Hs H%Z.ltb_ge. destruct (decide (e = OFFSET_MAX)) as [-> |].
  - rewrite loff_max in H. lia.
  - unfold OFFSET_MAX in *. rewrite loff_small in H; lia.
Qed.

Definition ids (l : list file_lock) : list nat := fl_id <$> l.

Lemma ids_app a b : ids (a ++ b) = ids a ++ ids b.
Proof. apply fmap_app. Qed.

Lemma ids_assign rq l : ids (assign rq l) = ids l.
Proof.
  induction l as [| f l IH]; [done |]. unfold ids, assign in *. rewrite !fmap_cons, IH. f_equal.
  destruct (Nat.eqb_spec (fl_id f) (fl_id rq)); [done | done].
Qed.

Lemma ids_update i g l : (forall f, fl_id (g f) = fl_id f) -> ids (update_lock i g l) = ids l.
Proof.
  intros Hg. induction l as [| f l IH]; [done |]. unfold ids, update_lock in *. rewrite !fmap_cons, IH. f_equal.
  case_match; [apply Hg | done].
Qed.

Lemma elem_of_ids f l : f ∈ l -> fl_id f ∈ ids l.
Proof. apply list_elem_of_fmap_2. Qed.

Lemma same_id l f g : NoDup (ids l) -> f ∈ l -> g ∈ l -> fl_id f = fl_id g -> f = g.
Proof.
  intros N Hf Hg E. apply list_elem_of_lookup in Hf as [i Hi]. apply list_elem_of_lookup in Hg as [j Hj].
  assert (i = j) as ->; [| congruence].
  apply (NoDup_lookup (ids l) i j (fl_id f)); [done | |]; unfold ids; rewrite list_lookup_fmap.
  - by rewrite Hi.
  - by rewrite Hj, E.
Qed.

Lemma elem_of_update f i g l : f ∈ update_lock i g l -> exists f', f' ∈ l /\ f = if (fl_id f' =? i)%nat then g f' else f'.
Proof. intros H. apply list_elem_of_fmap in H as (f' & -> & H). eauto. Qed.

Lemma elem_of_update_other f i g l : f ∈ l -> fl_id f <> i -> f ∈ update_lock i g l.
Proof.
  intros H Hi. apply list_elem_of_fmap. exists f. split; [| done]. by destruct (Nat.eqb_spec (fl_id f) i).
Qed.

(** ** What every lock of the list is good for

    [Q o t x]: owner [o] was given a lock of type [t] on byte [x]. The walk over the
    owner's locks never makes a lock that covers a byte that was not given. *)
Section Good.
Context (Q : Z -> Z -> Z -> Prop).

Record good (f : file_lock) : Prop := {
  g_posix : IS_POSIX f = true;
  g_type : fl_type f = F_RDLCK \/ fl_type f = F_WRLCK;
  g_lo : 0 <= fl_start f;
  g_hi : fl_end f <= OFFSET_MAX;
  g_cov : forall x, covers f x -> Q (fl_owner f) (fl_type f) x;
}.

Record good_request (f : file_lock) : Prop := {
  r_posix : IS_POSIX f = true;
  r_range : 0 <= fl_start f <= fl_end f /\ fl_end f <= OFFSET_MAX;
  r_lock : fl_type f <> F_UNLCK -> good f;
}.

(** A lock that is at least as small. *)
Lemma good_shrink f s e :
  good f -> fl_start f <= s -> e <= fl_end f -> good (set_range s e f).
Proof.
  intros [P T L H C] Hs He. split; try done; simpl; [lia | lia |].
  intros x [H1 H2]. apply C. unfold covers in *. simpl in *. lia.
Qed.

Lemma good_copy f id : good f -> good (locks_copy_lock id f).
Proof. intros [P T L H C]. by split. Qed.

(** Joining two locks of the same type that overlap or touch. *)
Lemma good_merge f g s e :
  good f -> good g -> fl_owner f = fl_owner g -> fl_type f = fl_type g ->
  fl_start f - 1 <= fl_end g -> fl_start g <= fl_end f + 1 ->
  s = Z.min (fl_start f) (fl_start g) -> e = Z.max (fl_end f) (fl_end g) ->
  good (set_range s e f).
Proof.
  intros [P T L H C] [_ _ L' H' C'] Ho Ht H1 H2 -> ->. split; try done; simpl; [lia | lia |].
  intros x [Hx1 Hx2]. simpl in *.
  destruct (decide (covers f x)) as [Hc | Hc]; [by apply C |]. rewrite Ho, Ht. apply C'. unfold covers in *. lia.
Qed.

Lemma Forall_assign rq l : good rq -> Forall good l -> Forall good (assign rq l).
Proof. intros Hr Hl. apply Forall_fmap, (Forall_impl _ _ _ Hl). intros f Hf. simpl. by case_match. Qed.

(** The state of the walk; [s0] and [e0] are what was asked for. *)
Record walk_ok (s0 e0 : Z) (done rest : list file_lock) (rq : file_lock) (lft : option nat) : Prop := {
  w_done : Forall good done;
  w_rest : Forall good rest;
  w_rq : good_request rq;
  w_nodup : NoDup (ids (done ++ rest));
  w_lo : fl_start rq <= s0;
  w_hi : e0 <= fl_end rq;
  w_left : forall i, lft = Some i -> exists f, f ∈ done /\ fl_id f = i /\ fl_start rq <= fl_end f;
}.

Record walk_result (s0 e0 : Z) (rq0 : file_lock) (all : list nat) (w : walk) : Prop := {
  wr_passed : Forall good (passed w);
  wr_ahead : Forall good (ahead w);
  wr_rq : good_request (request w);
  wr_nodup : NoDup (ids (passed w ++ ahead w));
  wr_ids : ids (passed w ++ ahead w) ⊆ all;
  wr_same : fl_owner (request w) = fl_owner rq0 /\ fl_type (request w) = fl_type rq0;
  wr_lo : fl_start (request w) <= s0;
  wr_hi : e0 <= fl_end (request w);
  wr_right : forall r, right_ w = Some r ->
    exists f t, ahead w = f :: t /\ fl_id f = r /\ fl_start f <= fl_end (request w) < fl_end f;
  wr_left : forall i, left_ w = Some i -> right_ w = Some i \/
    exists f, f ∈ passed w /\ fl_id f = i /\ fl_start (request w) <= fl_end f;
}.

Lemma walk_stop s0 e0 done rest rq add lft ws :
  walk_ok s0 e0 done rest rq lft ->
  walk_result s0 e0 rq (ids (done ++ rest)) (mk_walk done rest rq add lft None ws).
Proof. intros []. split; try done; auto. Qed.

(** Passing a lock. *)
Lemma walk_next s0 e0 done fl fl' rest rq rq' lft lft' :
  walk_ok s0 e0 done (fl :: rest) rq lft -> good fl' -> fl_id fl' = fl_id fl -> good_request rq' ->
  fl_start rq' <= fl_start rq -> fl_end rq <= fl_end rq' ->
  (lft' = lft \/ lft' = Some (fl_id fl) /\ fl_start rq' <= fl_end fl') ->
  walk_ok s0 e0 (done ++ [fl']) rest rq' lft'.
Proof.
  intros [D R Q' N L H Lf] Hg Hid Hr Hlo Hhi Hl. apply Forall_cons in R as [_ R]. split; try done; try lia.
  - apply Forall_app. split; [done | by constructor].
  - rewrite <- app_assoc. rewrite !ids_app in *. simpl in *. by rewrite Hid.
  - intros i Hi. destruct Hl as [-> | [-> Hl]].
    + destruct (Lf i Hi) as (f & Hf & Ei & He). exists f. rewrite elem_of_app. split; [by left | split; [done | lia]].
    + injection Hi as <-. exists fl'. rewrite elem_of_app, list_elem_of_singleton. split; [by right | by split].
Qed.

(** Deleting a lock. *)
Lemma walk_drop s0 e0 done fl rest rq lft :
  walk_ok s0 e0 done (fl :: rest) rq lft -> walk_ok s0 e0 done rest rq lft.
Proof.
  intros [D R Q' N L H Lf]. apply Forall_cons in R as [_ R]. split; try done.
  rewrite ids_app in *. cbn [ids fmap list_fmap] in N. apply NoDup_app in N as (N1 & N2 & N3).
  apply NoDup_cons in N3 as [_ N3]. apply NoDup_app. split; [done |]. split; [| done].
  intros x Hx Hx'. apply (N2 x Hx). by right.
Qed.

(** Widening the lock [request] points to. *)
Lemma walk_assign s0 e0 done rest rq rq' lft :
  walk_ok s0 e0 done rest rq lft -> good rq' -> good_request rq' ->
  fl_start rq' <= fl_start rq -> fl_end rq <= fl_end rq' ->
  walk_ok s0 e0 (assign rq' done) rest rq' lft.
Proof.
  intros [D R Q' N L H Lf] Hg Hr Hlo Hhi. split; try done; try lia.
  - by apply Forall_assign.
  - by rewrite ids_app, ids_assign, <- ids_app.
  - intros i Hi. destruct (Lf i Hi) as (f & Hf & Ei & He). set (g f := if (fl_id f =? fl_id rq')%nat then rq' else f).
    exists (g f). split; [by apply (list_elem_of_fmap_2 g) |]. unfold g.
    destruct (Nat.eqb_spec (fl_id f) (fl_id rq')) as [E |]; [split; [congruence |] | split; [done | lia]].
    destruct Hr as [_ [? ?] _]. lia.
Qed.

Lemma good_is_request f : good f -> fl_start f <= fl_end f -> good_request f.
Proof. intros G H. pose proof G as [P T L E C]. split; [done | lia | done]. Qed.

Lemma good_owner_type f g s e : good f -> IS_POSIX g = true ->
  fl_owner g = fl_owner f -> fl_type g = fl_type f -> s = fl_start f -> e = fl_end f -> good (set_range s e g).
Proof.
  intros [P T L E C] Hp Ho Ht -> ->. split; simpl; try done; [by rewrite Ht |]. by rewrite Ho, Ht.
Qed.

Lemma walk_result_mono s0 e0 rq rq' all all' w :
  walk_result s0 e0 rq all w -> all ⊆ all' -> fl_owner rq = fl_owner rq' -> fl_type rq = fl_type rq' ->
  walk_result s0 e0 rq' all' w.
Proof. intros [] Ha Ho Ht. split; try done; [set_solver |]. split; naive_solver congruence. Qed.

(** The walk keeps every lock good. *)
Lemma walk_own_good s0 e0 : forall rest done rq add lft ws,
  walk_ok s0 e0 done rest rq lft ->
  walk_result s0 e0 rq (ids (done ++ rest)) (walk_own rest done rq add lft ws).
Proof.
  induction rest as [| fl rest IH]; intros done rq add lft ws W; [by apply walk_stop |]. cbn [walk_own].
  destruct (negb (posix_same_owner rq fl)) eqn:Ho; [by apply walk_stop |].
  apply negb_false_iff, Z.eqb_eq in Ho.
  pose proof (w_rest _ _ _ _ _ _ W) as Gfl. apply Forall_cons in Gfl as [Gfl _].
  pose proof (w_rq _ _ _ _ _ _ W) as [Prq [Rrq Mrq] Grq]. pose proof Gfl as [Pfl Tfl Lfl Hfl Cfl].
  assert (ids ((done ++ [fl]) ++ rest) = ids (done ++ fl :: rest)) as Eall by by rewrite <- app_assoc.
  assert (ids (done ++ rest) ⊆ ids (done ++ fl :: rest)) as Sall.
  { rewrite !ids_app. cbn [ids fmap list_fmap]. set_solver. }
  destruct (Z.eqb_spec (fl_type rq) (fl_type fl)) as [Ht | Ht].
  - assert (good rq) as Gr by (apply Grq; unfold F_UNLCK, F_RDLCK, F_WRLCK in *; lia).
    rewrite loff_small by (unfold OFFSET_MAX in *; lia).
    destruct (Z.ltb_spec (fl_end fl) (fl_start rq - 1)) as [H1 | H1].
    { rewrite <- Eall. apply IH. eapply walk_next; eauto; [by split | lia | lia]. }
    destruct (loff (fl_end rq + 1) <? fl_start fl) eqn:H2; [by apply walk_stop |].
    apply after_end in H2 as [H2 H3]; [| lia | lia].
    set (s := if fl_start rq <? fl_start fl then _ else _). set (e := if fl_end fl <? fl_end rq then _ else _).
    assert (s = Z.min (fl_start rq) (fl_start fl)) as Es by (unfold s; destruct (Z.ltb_spec (fl_start rq) (fl_start fl)); lia).
    assert (e = Z.max (fl_end rq) (fl_end fl)) as Ee by (unfold e; destruct (Z.ltb_spec (fl_end fl) (fl_end rq)); lia).
    clearbody s e.
    assert (good (set_range s e rq)) as Gm by (apply (good_merge rq fl); done || lia).
    assert (good_request (set_range s e rq)) as Rm by (apply good_is_request; [done | simpl; lia]).
    apply (walk_assign _ _ _ _ _ (set_range s e rq)) in W; [| done | done | simpl; lia | simpl; lia].
    assert (ids (assign (set_range s e rq) done ++ fl :: rest) = ids (done ++ fl :: rest)) as Ea by by rewrite !ids_app, ids_assign.
    destruct add.
    + eapply walk_result_mono; [apply IH, (walk_drop _ _ _ _ _ _ _ W) | rewrite ids_app, ids_assign, <- ids_app; done | done | done].
    + assert (good (set_range s e fl)) as Gf by (apply (good_owner_type _ _ _ _ Gm); done).
      eapply walk_result_mono; [apply IH | | done | done].
      * eapply walk_next; [exact W | exact Gf | done | by apply good_is_request; [| simpl; lia] | done | done | by left].
      * rewrite <- app_assoc, !ids_app, ids_assign. done.
  - destruct (Z.ltb_spec (fl_end fl) (fl_start rq)) as [H1 | H1].
    { rewrite <- Eall. apply IH. eapply walk_next; eauto; [by split | lia | lia]. }
    destruct (Z.ltb_spec (fl_end rq) (fl_start fl)) as [H2 | H2]; [by apply walk_stop |].
    set (add' := if fl_type rq =? F_UNLCK then true else add).
    set (lft' := if fl_start fl <? fl_start rq then Some (fl_id fl) else lft).
    destruct (Z.ltb_spec (fl_end rq) (fl_end fl)) as [H3 | H3].
    { destruct W as [D R Q' N L H Lf]. split; simpl; try done; auto.
      - intros r [= <-]. by exists fl, rest.
      - intros i. unfold lft'. case_match; [intros [= <-]; by left | right; auto]. }
    destruct (Z.leb_spec (fl_start rq) (fl_start fl)) as [H4 | H4].
    + assert (lft' = lft) as -> by (unfold lft'; destruct (Z.ltb_spec (fl_start fl) (fl_start rq)); [lia | done]).
      destruct add' eqn:Eadd.
      * eapply walk_result_mono; [apply IH, (walk_drop _ _ _ _ _ _ _ W) | done | done | done].
      * assert (good rq) as Gr by (apply Grq; intros Eu; unfold add' in Eadd; by rewrite Eu in Eadd).
        pose proof Gr as [_ Tr _ _ Cr].
        set (fl' := set_type (fl_type rq) (set_range (fl_start rq) (fl_end rq) fl)).
        assert (good fl') as Gf.
        { split; simpl; try done; [lia |]. intros x Hx. rewrite <- Ho. by apply Cr. }
        eapply walk_result_mono; [apply IH | | done | done].
        -- eapply (walk_next _ _ _ _ fl'); [exact W | done | done | apply good_is_request; [done | simpl; lia] | simpl; lia | simpl; lia | by left].
        -- rewrite <- app_assoc, !ids_app. done.
    + rewrite <- Eall. apply IH. eapply walk_next; [exact W | done | done | by split | lia | lia |].
      right. unfold lft'. destruct (Z.ltb_spec (fl_start fl) (fl_start rq)); [done | lia].
Qed.

Lemma Forall_update i g l :
  Forall good l -> (forall f, f ∈ l -> fl_id f = i -> good (g f)) -> Forall good (update_lock i g l).
Proof.
  intros Hl Hg. apply Forall_fmap, Forall_forall. intros f Hf. simpl.
  destruct (Nat.eqb_spec (fl_id f) i); [by apply Hg | by eapply Forall_forall].
Qed.

Definition left_ok (rq : file_lock) (l : list file_lock) (lft : option nat) : Prop :=
  forall i, lft = Some i -> exists f, f ∈ l /\ fl_id f = i /\ fl_start rq <= fl_end f.

(** Cutting off the locks on both sides of the request. *)
Lemma cut_left rq l lft :
  Forall good l -> NoDup (ids l) -> good_request rq -> left_ok rq l lft ->
  Forall good (match lft with
               | None => l
               | Some i => update_lock i (fun x => set_range (fl_start x) (loff (fl_start rq - 1)) x) l
               end).
Proof.
  intros Hl N [_ [Hr Hm] _] Hf. destruct lft as [i |]; [| done]. destruct (Hf i eq_refl) as (f & Hin & Hi & He).
  rewrite loff_small by (unfold OFFSET_MAX in *; lia).
  apply Forall_update; [done |]. intros f' Hf' Hi'. rewrite (same_id l f' f) by (done || congruence).
  apply good_shrink; [by eapply Forall_forall | lia | lia].
Qed.

Lemma cut_right rq r l f :
  Forall good l -> NoDup (ids l) -> f ∈ l -> fl_id f = r -> good_request rq -> fl_start f <= fl_end rq < fl_end f ->
  Forall good (update_lock r (fun x => set_range (loff (fl_end rq + 1)) (fl_end x) x) l).
Proof.
  intros Hl N Hin Hi [_ [Hr Hm] _] He. apply Forall_update; [done |]. intros f' Hf' Hi'.
  rewrite (same_id l f' f) by (done || congruence). pose proof (proj1 (Forall_forall _ _) Hl f Hin) as Gf.
  pose proof Gf as [_ _ Lf Hf _]. unfold OFFSET_MAX in *. rewrite loff_small by lia.
  apply good_shrink; [done | lia | lia].
Qed.

Lemma good_posix_list l : Forall good l -> Forall (fun f => IS_POSIX f = true) l.
Proof. intros H. eapply Forall_impl; [exact H |]. by intros f []. Qed.

Lemma finish_good s0 e0 rq0 all w n1 n2 :
  walk_result s0 e0 rq0 all w -> n1 ∉ all -> n2 ∉ all -> n1 <> n2 ->
  Forall good (finish w n1 n2).1 /\ NoDup (ids (finish w n1 n2).1) /\ ids (finish w n1 n2).1 ⊆ n1 :: n2 :: all.
Proof.
  intros [P A R N I S Lo Hi Rt Lf] H1 H2 H12. unfold finish.
  assert (Forall good (passed w ++ ahead w)) as G by by apply Forall_app.
  destruct (negb (added w) && (fl_type (request w) =? F_UNLCK)) eqn:Eu.
  { split; [done |]. split; [done |]. simpl. clear -I. set_solver. }
  set (slot := if negb (added w) then _ else _).
  assert (exists new, slot = new ++ ahead w /\ ids new ⊆ [n1] /\ NoDup (ids new) /\ Forall good new /\ (length new <= 1)%nat)
    as (new & Es & Ei & Nn & Gn & Ln).
  { unfold slot. destruct (added w); [exists []; repeat split; [set_solver | constructor | constructor | simpl; lia] |]. simpl in *. exists [locks_copy_lock n1 (request w)].
    split; [done |]. split; [cbn; set_solver |]. split; [apply NoDup_singleton |]. split; [| done]. constructor; [| done].
    apply good_copy, R. by apply Z.eqb_neq. }
  clearbody slot. subst slot.
  assert (forall x, x ∈ ids new -> x ∉ ids (passed w ++ ahead w)) as Dn by (clear -H1 Ei I; set_solver).
  assert (Permutation (passed w ++ new ++ ahead w) (new ++ passed w ++ ahead w)) as Pm by apply Permutation_app_swap_app.
  assert (Forall good (passed w ++ new ++ ahead w)) as G1 by (rewrite Pm; by apply Forall_app).
  assert (NoDup (ids (passed w ++ new ++ ahead w))) as N1.
  { unfold ids. rewrite Pm, fmap_app. apply NoDup_app. auto. }
  assert (ids (passed w ++ new ++ ahead w) ⊆ n1 :: all) as S1 by (clear -I Ei; rewrite !ids_app in *; set_solver).
  destruct (right_ w) as [r |] eqn:Er.
  - destruct (Rt r eq_refl) as (f & t & Ea & Efr & Hf).
    assert (f ∈ passed w ++ new ++ ahead w) as Hin by (rewrite Ea, !elem_of_app, elem_of_cons; auto).
    assert (r ∈ all) as Hr by (apply I; rewrite <- Efr; apply elem_of_ids; rewrite Ea, elem_of_app, elem_of_cons; auto).
    case_bool_decide as Eb.
    + replace (find (fun x => (fl_id x =? r)%nat) (new ++ ahead w)) with (Some f).
      2: { destruct new as [| g [| ? ?]]; rewrite Ea; simpl; [by rewrite Efr, Nat.eqb_refl | |].
           - destruct (Nat.eqb_spec (fl_id g) r) as [Eg |]; [| by rewrite Efr, Nat.eqb_refl].
             exfalso. apply (Dn (fl_id g)); [by left |]. rewrite Eg, <- Efr. apply elem_of_ids. rewrite elem_of_app, Ea. right. by left.
           - simpl in Ln. lia. }
      set (l := passed w ++ locks_copy_lock n2 f :: new ++ ahead w).
      assert (Permutation l (locks_copy_lock n2 f :: passed w ++ new ++ ahead w)) as Pl by (symmetry; apply Permutation_middle).
      assert (n2 ∉ ids (passed w ++ new ++ ahead w)) as Hn2 by (intros E%S1; apply elem_of_cons in E as [-> | ?]; done).
      assert (Forall good l) as Gl by (rewrite Pl; constructor; [apply good_copy; by eapply Forall_forall | done]).
      assert (NoDup (ids l)) as Nl by (unfold ids; rewrite Pl, fmap_cons; by apply NoDup_cons).
      assert (f ∈ l) as Hfl by (rewrite Pl; by right).
      set (l' := update_lock r _ l).
      assert (ids l' = ids l) as El' by by apply ids_update.
      assert (ids l ⊆ n1 :: n2 :: all) as Sl by (unfold ids; rewrite Pl, fmap_cons; clear -S1; cbn; set_solver).
      assert (Forall good l') as Gl' by (eapply cut_right; eauto).
      simpl. rewrite ids_update by done. rewrite El'. split; [| by split].
      apply (cut_left (request w) l' (Some n2)); [done | by rewrite El' | done |].
      intros i [= <-]. exists (locks_copy_lock n2 f). split; [| split; [done | simpl; destruct R; lia]].
      apply elem_of_update_other; [rewrite Pl; by left |]. simpl. congruence.
    + set (l' := update_lock r _ (passed w ++ new ++ ahead w)).
      assert (ids l' = ids (passed w ++ new ++ ahead w)) as El' by by apply ids_update.
      assert (Forall good l') as Gl' by (eapply cut_right; eauto).
      assert (left_ok (request w) l' (left_ w)) as Lo'.
      { intros i Hl. destruct (Lf i Hl) as [? | (g & Hg & Egi & Hge)]; [congruence |].
        exists g. split; [| done]. apply elem_of_update_other; [rewrite elem_of_app; by left | congruence]. }
      pose proof (cut_left (request w) l' (left_ w) Gl' ltac:(by rewrite El') R Lo') as Gc.
      destruct (left_ w); simpl in *; rewrite ?ids_update, ?El' by done; (split; [done | split; [done | clear -S1; set_solver]]).
  - assert (left_ok (request w) (passed w ++ new ++ ahead w) (left_ w)) as Lo'.
    { intros i Hl. destruct (Lf i Hl) as [? | (g & Hg & Egi & Hge)]; [done |].
      exists g. rewrite elem_of_app. auto. }
    pose proof (cut_left _ _ (left_ w) G1 N1 R Lo') as Gc.
    destruct (left_ w); simpl in *; rewrite ?ids_update by done; (split; [done | split; [done | clear -S1; set_solver]]).
Qed.
End Good.

(** ** Locks before the record locks *)

Definition nonposix (l : list file_lock) : Prop := Forall (fun f => IS_POSIX f = false) l.

Lemma assign_prefix rq h l : fl_id rq ∉ ids h -> assign rq (h ++ l) = h ++ assign rq l.
Proof.
  intros H. unfold assign. rewrite fmap_app. f_equal. rewrite <- (list_fmap_id h) at 2. apply list_fmap_ext.
  intros i f Hi%list_elem_of_lookup_2. destruct (Nat.eqb_spec (fl_id f) (fl_id rq)) as [E |]; [| done].
  destruct H. rewrite <- E. by apply elem_of_ids.
Qed.

Lemma update_prefix i g h l : i ∉ ids h -> update_lock i g (h ++ l) = h ++ update_lock i g l.
Proof.
  intros H. unfold update_lock. rewrite fmap_app. f_equal. rewrite <- (list_fmap_id h) at 2. apply list_fmap_ext.
  intros k f Hi%list_elem_of_lookup_2. destruct (Nat.eqb_spec (fl_id f) i) as [E |]; [| done].
  destruct H. rewrite <- E. by apply elem_of_ids.
Qed.

Definition add_prefix (h : list file_lock) (w : walk) : walk :=
  mk_walk (h ++ passed w) (ahead w) (request w) (added w) (left_ w) (right_ w) (wq w).

Lemma walk_own_prefix h : forall rest done rq add lft ws,
  fl_id rq ∉ ids h -> (forall i, i ∈ ids rest -> i ∉ ids h) ->
  walk_own rest (h ++ done) rq add lft ws = add_prefix h (walk_own rest done rq add lft ws).
Proof.
  induction rest as [| fl rest IH]; intros pd rq add lft ws Hrq Hr; [done |].
  assert (fl_id fl ∉ ids h) as Hfl by (apply Hr; by left).
  assert (forall i, i ∈ ids rest -> i ∉ ids h) as Hr' by (intros i Hi; apply Hr; by right).
  cbn [walk_own]. repeat (rewrite <- ?app_assoc; first [rewrite assign_prefix by done | rewrite IH by done | case_match; try done]).
Qed.

Lemma skip_others_heads rq h p :
  nonposix h -> skip_others rq (h ++ p) = (h ++ (skip_others rq p).1, (skip_others rq p).2).
Proof.
  induction h as [| f h IH]; intros H; simpl; [by destruct (skip_others rq p) |].
  apply Forall_cons in H as [-> H]. simpl. by rewrite IH.
Qed.

Lemma skip_others_app rq l : l = (skip_others rq l).1 ++ (skip_others rq l).2.
Proof. induction l as [| f l IH]; simpl; [done |]. case_match; [| done]. destruct (skip_others rq l). simpl in *. by subst. Qed.

Lemma finish_prefix h w n1 n2 :
  n1 ∉ ids h -> n2 ∉ ids h -> (forall i, left_ w = Some i -> i ∉ ids h) -> (forall i, right_ w = Some i -> i ∉ ids h) ->
  (finish (add_prefix h w) n1 n2).1 = h ++ (finish w n1 n2).1.
Proof.
  intros H1 H2 Hl Hr. unfold finish. simpl. case_match; simpl; [by rewrite app_assoc |].
  repeat (case_match; simplify_eq; simpl in *); rewrite <- ?app_assoc, ?update_prefix, ?update_prefix by auto; done.
Qed.

(** The record locks after a request that is granted. *)
Definition applied (rq : file_lock) (n1 n2 : nat) (p : list file_lock) (ws : list wait) : list file_lock :=
  i_flock (apply_lock rq n1 n2 (mk_lst p ws)).

Lemma applied_eq rq n1 n2 p ws :
  applied rq n1 n2 p ws =
  (finish (walk_own (skip_others rq p).2 (skip_others rq p).1 rq false None ws) n1 n2).1.
Proof.
  unfold applied, apply_lock. simpl. destruct (skip_others rq p) as [a b]. simpl. by destruct (finish _ _ _).
Qed.

Lemma walk_ok_start Q rq p :
  Forall (good Q) p -> NoDup (ids p) -> good_request Q rq ->
  walk_ok Q (fl_start rq) (fl_end rq) (skip_others rq p).1 (skip_others rq p).2 rq None.
Proof.
  intros G N R. rewrite (skip_others_app rq p) in G, N. apply Forall_app in G as [? ?]. by split.
Qed.

Lemma applied_good Q rq n1 n2 p ws :
  Forall (good Q) p -> NoDup (ids p) -> good_request Q rq -> n1 ∉ ids p -> n2 ∉ ids p -> n1 <> n2 ->
  Forall (good Q) (applied rq n1 n2 p ws) /\ NoDup (ids (applied rq n1 n2 p ws)) /\
  ids (applied rq n1 n2 p ws) ⊆ n1 :: n2 :: ids p.
Proof.
  intros G N R H1 H2 H12. rewrite applied_eq. pose proof (walk_ok_start Q rq p G N R) as W.
  apply (walk_own_good Q _ _ _ _ _ false None ws) in W. rewrite <- skip_others_app in W. by eapply finish_good.
Qed.

Lemma applied_heads Q rq n1 n2 h p ws :
  nonposix h -> Forall (good Q) p -> NoDup (ids (h ++ p)) -> good_request Q rq ->
  fl_id rq ∉ ids h -> n1 ∉ ids h -> n2 ∉ ids h ->
  applied rq n1 n2 (h ++ p) ws = h ++ applied rq n1 n2 p ws.
Proof.
  intros Hh G N R Hrq H1 H2. rewrite !applied_eq, skip_others_heads by done. simpl.
  rewrite ids_app in N. apply NoDup_app in N as (_ & D & N).
  assert (forall i, i ∈ ids p -> i ∉ ids h) as D' by (intros i Hp Hh'; by apply (D i)).
  rewrite walk_own_prefix; [| done |].
  2: { intros i Hi. apply D'. rewrite (skip_others_app rq p), ids_app, elem_of_app. by right. }
  pose proof (walk_ok_start Q rq p G N R) as W. apply (walk_own_good Q _ _ _ _ _ false None ws) in W.
  rewrite <- skip_others_app in W. destruct W as [_ _ _ _ I _ _ _ Rt Lf].
  assert (forall i, right_ (walk_own (skip_others rq p).2 (skip_others rq p).1 rq false None ws) = Some i -> i ∉ ids h) as Hr.
  { intros i Hi. destruct (Rt i Hi) as (f & t & E & <- & _). apply D', I, elem_of_ids. rewrite E, elem_of_app. right. by left. }
  apply finish_prefix; [done | done | | exact Hr].
  intros i Hi. destruct (Lf i Hi) as [? | (f & Hf & <- & _)]; [by apply Hr |].
  apply D', I, elem_of_ids. rewrite elem_of_app. by left.
Qed.

(** ** Record locks of different owners do not conflict *)

(** Owner [o] holds a lock of type [t] on byte [x]. *)
Definition granted (l : list file_lock) (o t x : Z) : Prop :=
  exists f, f ∈ l /\ IS_POSIX f = true /\ fl_owner f = o /\ fl_type f = t /\ covers f x.

Definition exclusive (l : list file_lock) : Prop :=
  forall o o' t t' x, granted l o t x -> granted l o' t' x -> o <> o' -> t = F_RDLCK /\ t' = F_RDLCK.

(** The order of the list and the shape of its record locks. *)
Record locks_ok (l : list file_lock) : Prop := {
  lk_split : exists h p, l = h ++ p /\ nonposix h /\ Forall (good (fun _ _ _ => True)) p;
  lk_nodup : NoDup (ids l);
  lk_excl : exclusive l;
}.

(** A request as [fcntl] makes it. *)
Record valid_request (rq : file_lock) : Prop := {
  vr_posix : IS_POSIX rq = true;
  vr_type : fl_type rq = F_RDLCK \/ fl_type rq = F_WRLCK \/ fl_type rq = F_UNLCK;
  vr_range : 0 <= fl_start rq <= fl_end rq /\ fl_end rq <= OFFSET_MAX;
}.

Lemma valid_good (Q : Z -> Z -> Z -> Prop) rq :
  valid_request rq -> (forall x, fl_type rq <> F_UNLCK -> covers rq x -> Q (fl_owner rq) (fl_type rq) x) -> good_request Q rq.
Proof.
  intros [P T R] H. split; [done | done |]. intros U. split; [done | naive_solver | lia | lia | auto].
Qed.

Lemma granted_heads h p o t x : nonposix h -> granted (h ++ p) o t x <-> granted p o t x.
Proof.
  intros Hh. split; intros (f & Hf & P & ?); exists f; (split; [| done]); [| rewrite elem_of_app; by right].
  apply elem_of_app in Hf as [Hf |]; [| done]. pose proof (proj1 (Forall_forall _ _) Hh f Hf) as Hn. simpl in Hn. congruence.
Qed.

Lemma good_granted p : Forall (good (fun _ _ _ => True)) p -> Forall (good (granted p)) p.
Proof.
  intros H. apply Forall_forall. intros f Hf. destruct (proj1 (Forall_forall _ _) H f Hf) as [P T L E _].
  split; try done. intros x Hx. by exists f.
Qed.

Lemma good_weaken (Q Q' : Z -> Z -> Z -> Prop) f : good Q f -> (forall o t x, Q o t x -> Q' o t x) -> good Q' f.
Proof. intros [P T L E C] H. split; auto. Qed.

(** No conflicting lock was found: none of another owner covers a byte of the request. *)
Lemma no_conflict rq l o t x :
  find (fun fl => if negb (IS_POSIX fl) then false else posix_locks_conflict rq fl) l = None ->
  granted l o t x -> covers rq x -> o <> fl_owner rq -> t <> F_WRLCK /\ fl_type rq <> F_WRLCK.
Proof.
  intros F (f & Hf & P & <- & <- & Hc) Hr Ho.
  pose proof (find_none _ _ F f (proj1 (list_elem_of_In _ _) Hf)) as N. simpl in N. rewrite P in N. simpl in N.
  unfold posix_locks_conflict, posix_same_owner, locks_overlap, locks_conflict in N. unfold covers in *. rewrite P in N. simpl in N.
  destruct (Z.eqb_spec (fl_owner rq) (fl_owner f)); [congruence |].
  destruct (Z.leb_spec (fl_start f) (fl_end rq)), (Z.leb_spec (fl_start rq) (fl_end f)); simpl in N; try lia.
  destruct (Z.eqb_spec (fl_type f) F_WRLCK), (Z.eqb_spec (fl_type rq) F_WRLCK); done.
Qed.

Definition request_or_held (p : list file_lock) (rq : file_lock) (o t x : Z) : Prop :=
  granted p o t x \/ o = fl_owner rq /\ t = fl_type rq /\ covers rq x /\ t <> F_UNLCK.

Lemma exclusive_applied rq p :
  valid_request rq -> exclusive p -> Forall (good (fun _ _ _ => True)) p ->
  (fl_type rq <> F_UNLCK ->
   find (fun fl => if negb (IS_POSIX fl) then false else posix_locks_conflict rq fl) p = None) ->
  forall l, Forall (good (request_or_held p rq)) l -> exclusive l.
Proof.
  intros [_ Vt _] Ex G F l Hl.
  assert (forall o t x, request_or_held p rq o t x -> o <> fl_owner rq -> covers rq x -> fl_type rq <> F_UNLCK ->
          t = F_RDLCK /\ fl_type rq = F_RDLCK) as Key.
  { intros o t x [H | (-> & _)] Ho Hc U; [| done]. destruct (no_conflict rq p o t x (F U) H Hc Ho) as [N1 N2].
    destruct H as (f & Hf & _ & _ & <- & _). destruct (g_type _ _ (proj1 (Forall_forall _ _) G f Hf)); naive_solver. }
  intros o o' t t' x (f & Hf & _ & <- & <- & Hc) (g & Hg & _ & <- & <- & Hc') Ho.
  pose proof (g_cov _ _ (proj1 (Forall_forall _ _) Hl f Hf) x Hc) as Qf.
  pose proof (g_cov _ _ (proj1 (Forall_forall _ _) Hl g Hg) x Hc') as Qg.
  destruct Qf as [Qf | (E & Et & Hr & U)].
  - destruct Qg as [Qg | (E & Et & Hr & U)]; [by eapply Ex |].
    rewrite Et in *. apply (Key (fl_owner f) (fl_type f) x); [by left | congruence | done | done].
  - rewrite Et in *. apply and_comm. apply (Key (fl_owner g) (fl_type g) x); [done | congruence | done | done].
Qed.

Lemma find_heads h p rq : nonposix h ->
  find (fun fl => if negb (IS_POSIX fl) then false else posix_locks_conflict rq fl) (h ++ p) =
  find (fun fl => if negb (IS_POSIX fl) then false else posix_locks_conflict rq fl) p.
Proof. induction h as [| f h IH]; intros H; simpl; [done |]. apply Forall_cons in H as [-> H]. simpl. auto. Qed.

Lemma exclusive_heads h p : nonposix h -> exclusive (h ++ p) <-> exclusive p.
Proof.
  intros Hh. split; intros Ex o o' t t' x H1 H2.
  - apply Ex with x; by apply granted_heads.
  - apply Ex with x; by eapply granted_heads.
Qed.

(** Structures that are not in the list. *)
Definition fresh (l : list file_lock) (new : list nat) : Prop := NoDup new /\ Forall (fun i => i ∉ ids l) new.

Lemma apply_lock_ok rq n1 n2 st :
  locks_ok (i_flock st) -> valid_request rq -> fresh (i_flock st) [fl_id rq; n1; n2] ->
  (fl_type rq <> F_UNLCK ->
   find (fun fl => if negb (IS_POSIX fl) then false else posix_locks_conflict rq fl) (i_flock st) = None) ->
  locks_ok (i_flock (apply_lock rq n1 n2 st)).
Proof.
  destruct st as [l ws]. intros [(h & p & E & Hh & G) N Ex] V [Nn Fn] F.
  cbn [i_flock] in E, N, Ex, Fn, F. subst l. change (locks_ok (applied rq n1 n2 (h ++ p) ws)).
  rewrite find_heads in F by done. apply exclusive_heads in Ex; [| done].
  assert (forall i, i ∈ [fl_id rq; n1; n2] -> i ∉ ids h /\ i ∉ ids p) as Fn'.
  { intros i Hi. pose proof (proj1 (Forall_forall _ _) Fn i Hi) as H. simpl in H.
    rewrite ids_app, elem_of_app in H. tauto. }
  pose proof (Fn' (fl_id rq) ltac:(set_solver)) as []. pose proof (Fn' n1 ltac:(set_solver)) as [].
  pose proof (Fn' n2 ltac:(set_solver)) as [].
  assert (n1 <> n2) as H12. { apply NoDup_cons in Nn as [_ Nn]. apply NoDup_cons in Nn as [Nn _]. set_solver. }
  assert (good_request (request_or_held p rq) rq) as R by (apply valid_good; [done |]; intros x U Hc; by right).
  assert (Forall (good (request_or_held p rq)) p) as G'.
  { eapply Forall_impl; [apply (good_granted p G) |]. intros f Hf. eapply good_weaken; [done |]. by left. }
  rewrite (applied_heads (request_or_held p rq)) by done.
  pose proof N as N'. rewrite ids_app in N'. apply NoDup_app in N' as (N1 & D & N2).
  destruct (applied_good (request_or_held p rq) rq n1 n2 p ws) as (Ga & Na & Ia); try done.
  split.
  - exists h, (applied rq n1 n2 p ws). split; [done |]. split; [done |]. eapply Forall_impl; [exact Ga |].
    intros f Hf. by eapply good_weaken.
  - rewrite ids_app. apply NoDup_app. split; [done |]. split; [| done]. intros i Hi Ha%Ia.
    apply elem_of_cons in Ha as [-> | [-> | Ha]%elem_of_cons]; [done | done | by apply (D i)].
  - apply exclusive_heads; [done |]. by eapply exclusive_applied.
Qed.

Lemma posix_lock_result rq new st r st' :
  __posix_lock_file rq new.1 new.2 st = Some (r, st') ->
  i_flock st' = i_flock st \/
  exists n1 n2, new = (Some n1, Some n2) /\ st' = apply_lock rq n1 n2 st /\
    (fl_type rq <> F_UNLCK ->
     find (fun fl => if negb (IS_POSIX fl) then false else posix_locks_conflict rq fl) (i_flock st) = None).
Proof.
  unfold __posix_lock_file.
  destruct (if negb (fl_type rq =? F_UNLCK) then _ else None) as [fl |] eqn:F; intros H.
  - left. destruct (negb (has_flag rq FL_SLEEP)); [by simplify_eq |].
    destruct (posix_locks_deadlock _ _ _) as [[] |]; by simplify_eq/=.
  - destruct (has_flag rq FL_ACCESS); [left; by simplify_eq |]. destruct new as [[n1 |] [n2 |]]; simplify_eq/=; auto.
    right. exists n1, n2. split; [done |]. split; [done |]. intros U. by rewrite (proj2 (Z.eqb_neq _ _) U) in F.
Qed.

Lemma Forall_subset (P : file_lock -> Prop) l l' : Forall P l -> l' ⊆ l -> Forall P l'.
Proof. rewrite !Forall_forall. auto. Qed.

(** Taking locks out. *)
Lemma locks_ok_sublist l l' : l' `sublist_of` l -> locks_ok l -> locks_ok l'.
Proof.
  intros S [(h & p & -> & Hh & G) N Ex]. split.
  - apply sublist_app_r in S as (h' & p' & -> & Sh & Sp). exists h', p'. split; [done |].
    split; [apply (Forall_subset _ h) | apply (Forall_subset _ p)]; auto using sublist_subseteq.
  - eapply sublist_NoDup; [exact N |]. clear -S. unfold ids. induction S; rewrite ?fmap_cons; by constructor.
  - intros o o' t t' x (f & Hf & Pf) (g & Hg & Pg). apply Ex with x; [exists f | exists g]; split; try done; by eapply elem_of_sublist.
Qed.

Lemma remove_posix_sublist o l ws : (remove_posix_loop o l ws).1 `sublist_of` l.
Proof.
  revert ws. induction l as [| f l IH]; intros ws; simpl; [done |]. case_match; [by apply sublist_cons |].
  specialize (IH ws). destruct (remove_posix_loop o l ws). by apply sublist_skip.
Qed.

Lemma remove_flock_sublist f l ws l' ws' : remove_flock_loop f l ws = Some (l', ws') -> l' `sublist_of` l.
Proof.
  revert ws l' ws'. induction l as [| g l IH]; intros ws l' ws'; simpl; [by intros [= <- <-] |].
  case_match; [case_match; [| done]; intros Hs%IH; by apply sublist_cons |].
  destruct (remove_flock_loop f l ws) as [[l1 ws1] |] eqn:E; simpl; [| done]. intros [= <- <-].
  apply sublist_skip. by eapply IH.
Qed.

Lemma flock_drop_sublist n l ws l' ws' : flock_drop n l ws = inr (l', ws') -> l' `sublist_of` l.
Proof.
  revert l' ws'. induction l as [| g l IH]; intros l' ws'; simpl; [by intros [= <- <-] |].
  destruct (IS_POSIX g); [by intros [= <- <-] |]. destruct (IS_LEASE g || _).
  - destruct (flock_drop n l ws) as [e | [l1 ws1]] eqn:E; [done |]. intros [= <- <-]. apply sublist_skip. by eapply IH.
  - destruct (fl_type n =? fl_type g); [done |]. intros [= <- <-]. by apply sublist_cons.
Qed.

(** What happens to the locks of a file: the critical sections of the system calls,
    in any order. [allowed] is an assumption on the record lock requests. *)
Inductive lock_step (allowed : list file_lock -> file_lock -> Prop) (st : lstate) : lstate -> Prop :=
| step_posix rq new r st' :
    valid_request rq -> allowed (i_flock st) rq ->
    (forall n1 n2, new = (Some n1, Some n2) -> fresh (i_flock st) [fl_id rq; n1; n2]) ->
    __posix_lock_file rq new.1 new.2 st = Some (r, st') -> lock_step allowed st st'
| step_close owner : lock_step allowed st (locks_remove_posix owner st)
| step_release filp st' : locks_remove_flock filp st = Some st' -> lock_step allowed st st'
| step_flock_drop new_fl l ws :
    flock_drop new_fl (i_flock st) (waits st) = inr (l, ws) -> lock_step allowed st (mk_lst l ws)
| step_flock_take new_fl :
    IS_POSIX new_fl = false -> fresh (i_flock st) [fl_id new_fl] -> lock_step allowed st (flock_take new_fl st).2
| step_unblock w : lock_step allowed st (mk_lst (i_flock st) (locks_delete_block w (waits st))).

(** What a step does to the list. *)
Lemma lock_step_list allowed st st' : lock_step allowed st st' ->
  (exists rq n1 n2, valid_request rq /\ allowed (i_flock st) rq /\ fresh (i_flock st) [fl_id rq; n1; n2] /\
    (fl_type rq <> F_UNLCK ->
     find (fun fl => if negb (IS_POSIX fl) then false else posix_locks_conflict rq fl) (i_flock st) = None) /\
    st' = apply_lock rq n1 n2 st) \/
  (exists n, IS_POSIX n = false /\ fresh (i_flock st) [fl_id n] /\ i_flock st' = n :: i_flock st) \/
  i_flock st' `sublist_of` i_flock st.
Proof.
  intros [rq new r ? V A F E | o | f ? E | n l ws E | n P F | w]; [| right.. ].
  - destruct (posix_lock_result rq new st r _ E) as [E' | (n1 & n2 & En & E' & Fi)]; [by right; right; rewrite E' |].
    left. exists rq, n1, n2. auto 10.
  - right. pose proof (remove_posix_sublist o (i_flock st) (waits st)) as S.
    unfold locks_remove_posix. by destruct (remove_posix_loop _ _ _).
  - right. unfold locks_remove_flock in E.
    destruct (remove_flock_loop _ _ _) as [[l ws] |] eqn:E'; simplify_eq/=. by eapply remove_flock_sublist.
  - right. by eapply flock_drop_sublist.
  - unfold flock_take. case_match; simpl; [right; by case_match | left; eauto].
  - by right.
Qed.

Lemma locks_ok_cons n l : IS_POSIX n = false -> fresh l [fl_id n] -> locks_ok l -> locks_ok (n :: l).
Proof.
  intros P [_ F] [(h & p & E & Hh & G) N Ex]. split.
  - exists (n :: h), p. rewrite E. split; [done |]. split; [by constructor | done].
  - apply NoDup_cons. split; [by apply Forall_inv in F | done].
  - apply (exclusive_heads [n]); [by repeat constructor | done].
Qed.

Lemma lock_step_ok allowed st st' : lock_step allowed st st' -> locks_ok (i_flock st) -> locks_ok (i_flock st').
Proof.
  intros [(rq & n1 & n2 & V & _ & F & Fi & ->) | [(n & P & F & ->) | S]]%lock_step_list Ok.
  - by apply apply_lock_ok.
  - by apply locks_ok_cons.
  - by eapply locks_ok_sublist.
Qed.

Lemma reachable_ok allowed st : rtc (lock_step allowed) (mk_lst [] []) st -> locks_ok (i_flock st).
Proof.
  intros H. remember (mk_lst [] []) as s0 eqn:E0.
  assert (locks_ok (i_flock s0)) as Ok.
  { subst s0. split; [exists [], []; repeat constructor | constructor |]. intros o o' t t' x (f & Hf & _). by apply not_elem_of_nil in Hf. }
  clear E0. induction H as [| ? ? ? St _ IH]; [done |]. apply IH. by eapply lock_step_ok.
Qed.

Definition any_request (l : list file_lock) (rq : file_lock) : Prop := True.

(** C7. Whatever sequence of record lock requests, whole-file locks, unlocks and
    closes a file has seen, two record locks of different owners that cover the same
    byte are both read locks: a write lock is exclusive. *)
Theorem record_locks_exclusive st f g x :
  rtc (lock_step any_request) (mk_lst [] []) st -> f ∈ i_flock st -> g ∈ i_flock st ->
  IS_POSIX f = true -> IS_POSIX g = true -> fl_owner f <> fl_owner g ->
  fl_start f <= x <= fl_end f -> fl_start g <= x <= fl_end g ->
  fl_type f = F_RDLCK /\ fl_type g = F_RDLCK.
Proof.
  intros H Hf Hg Pf Pg Ho Cf Cg. apply (lk_excl _ (reachable_ok _ st H) (fl_owner f) (fl_owner g) _ _ x); [| | done].
  - by exists f.
  - by exists g.
Qed.

Definition ex_lock (id : nat) (owner type s e : Z) : file_lock := mk_fl id owner owner 7 FL_POSIX type s e.
Definition ex_wait (id : nat) (owner type s e : Z) : file_lock :=
  mk_fl id owner owner 7 (Z.lor FL_POSIX FL_SLEEP) type s e.

Lemma fresh_list l new : NoDup (new ++ ids l) -> fresh l new.
Proof. intros (N & D & _)%NoDup_app. split; [done |]. by apply Forall_forall. Qed.

Lemma record_locks_exclusive_witness :
  fl_type (ex_lock 12 1 F_RDLCK 0 9) = F_RDLCK /\ fl_type (ex_lock 22 2 F_RDLCK 5 15) = F_RDLCK.
Proof.
  apply (record_locks_exclusive (mk_lst [ex_lock 12 1 F_RDLCK 0 9; ex_lock 22 2 F_RDLCK 5 15] []) _ _ 7);
    [| by left | by right; left | done | done | done | simpl; lia | simpl; lia].
  eapply rtc_l; [apply (step_posix _ _ (ex_lock 11 1 F_RDLCK 0 9) (Some 12%nat, Some 13%nat) 0) |].
  - split; [done | auto | simpl; unfold OFFSET_MAX; lia].
  - exact I.
  - intros n1 n2 [= <- <-]. apply fresh_list, (bool_decide_unpack _). vm_compute. exact I.
  - vm_compute. reflexivity.
  - eapply rtc_l; [apply (step_posix _ _ (ex_lock 21 2 F_RDLCK 5 15) (Some 22%nat, Some 23%nat) 0) |]; [| | | vm_compute; reflexivity | apply rtc_refl].
    + split; [done | auto | simpl; unfold OFFSET_MAX; lia].
    + exact I.
    + intros n1 n2 [= <- <-]. apply fresh_list, (bool_decide_unpack _). vm_compute. exact I.
Defined.

(** ** Requests from user space *)

(** The position that [l_whence] selects. *)
Definition whence_base (f : open_file) (w : Z) : option Z :=
  if w =? 0 then Some 0 else if w =? 1 then Some (f_pos f) else if w =? 2 then Some (i_size f) else None.

(** The intended result, in exact arithmetic. *)
Definition exact_lock (f : open_file) (files tgid : Z) (id : nat) (l : flock) : Z + file_lock :=
  match whence_base f (l_whence l) with
  | None => inl (- EINVAL)
  | Some base =>
      let s := base + l_start l in
      if (s <? 0) || (OFFSET_MAX <? s) || (l_len l <? 0) then inl (- EINVAL)
      else if OFFSET_MAX <? s + l_len l - 1 then inl (- EOVERFLOW)
      else if negb ((l_type l =? F_RDLCK) || (l_type l =? F_WRLCK) || (l_type l =? F_UNLCK)) then inl (- EINVAL)
      else inr (mk_fl id files tgid (filp f) FL_POSIX (l_type l) s (if l_len l =? 0 then OFFSET_MAX else s + l_len l - 1))
  end.

Lemma loff_wrap z : 9223372036854775808 <= z < 18446744073709551616 -> loff z = z - 18446744073709551616.
Proof.
  intros H. unfold loff.
  replace ((z + 9223372036854775808) mod 18446744073709551616) with (z + 9223372036854775808 - 18446744073709551616); [lia |].
  apply Z.mod_unique_pos with 1; lia.
Qed.

Definition is_off64 (z : Z) : Prop := -9223372036854775808 <= z <= 9223372036854775807.

(** A request of [fcntl64] is converted without losing a bit although the
    arithmetic wraps around: a range that starts before the file or beyond the
    largest offset is [EINVAL], one that ends beyond it is [EOVERFLOW], and any other
    one becomes exactly the lock asked for, well formed as the lock list needs it. *)
Lemma flock64_conversion_exact f files tgid id l :
  offset (f_pos f) -> offset (i_size f) -> is_off64 (l_start l) -> is_off64 (l_len l) ->
  flock64_to_posix_lock f files tgid id l = exact_lock f files tgid id l /\
  (forall fl, flock64_to_posix_lock f files tgid id l = inr fl -> valid_request fl).
Proof.
  intros Hp Hi Hs Hl.
  assert (flock64_to_posix_lock f files tgid id l = exact_lock f files tgid id l) as E.
  { unfold flock64_to_posix_lock, exact_lock. fold (whence_base f (l_whence l)).
    destruct (whence_base f (l_whence l)) as [base |] eqn:Eb; [| done].
    assert (offset base) as Hb by (unfold whence_base in Eb; repeat case_match; simplify_eq; done || unfold offset, OFFSET_MAX; lia).
    unfold offset, is_off64, OFFSET_MAX, assign_type in *. set (s := base + l_start l).
    destruct (Z.ltb_spec 9223372036854775807 s) as [H1 | H1].
    { rewrite loff_wrap by lia. replace (s - 18446744073709551616 <? 0) with true by (symmetry; apply Z.ltb_lt; lia).
      by rewrite orb_true_r. }
    rewrite loff_small by lia. destruct (Z.ltb_spec s 0) as [H2 | H2]; [by rewrite ?orb_true_l |]. cbn [orb].
    destruct (Z.ltb_spec (l_len l) 0) as [H3 | H3]; [done |].
    destruct (Z.ltb_spec 9223372036854775807 (s + l_len l - 1)) as [H4 | H4].
    - rewrite loff_wrap by lia. rewrite (proj2 (Z.ltb_lt 0 (l_len l))) by lia.
      by rewrite (proj2 (Z.ltb_lt (s + l_len l - 1 - 18446744073709551616) 0)) by lia.
    - rewrite (loff_small (s + l_len l - 1)) by lia.
      destruct (Z.ltb_spec 0 (l_len l)); [rewrite (proj2 (Z.ltb_ge (s + l_len l - 1) 0)) by lia |]; cbn [andb]; by destruct (_ || _). }
  split; [done |]. intros fl. rewrite E. unfold exact_lock. destruct (whence_base f (l_whence l)) as [base |]; [| done]. cbv zeta.
  destruct ((_ <? 0) || _ || _) eqn:H1; [done |]. destruct (OFFSET_MAX <? base + l_start l + l_len l - 1) eqn:H2; [done |].
  destruct (negb _) eqn:H3; [done |]. intros [= <-]. apply orb_false_iff in H1 as [[H1a H1b]%orb_false_iff H1c].
  apply Z.ltb_ge in H1a, H1b, H1c, H2. apply negb_false_iff in H3. split; simpl; [done | |].
  - apply orb_true_iff in H3 as [[H3 | H3]%orb_true_iff | H3]; apply Z.eqb_eq in H3; auto.
  - destruct (Z.eqb_spec (l_len l) 0); lia.
Qed.

(** The 32-bit conversion wraps around unnoticed when [l_len] is negative: a range
    before the start of the file is accepted, with an end below its start. *)
Lemma flock32_bad_range :
  flock_to_posix_lock (mk_open 7 0 0 true true) 1 1 9 (mk_flock F_WRLCK 0 (-2147483643) (-10)) =
  inr (ex_lock 9 1 F_WRLCK 2147483643 (-2147483644)).
Proof. vm_compute. reflexivity. Qed.

(** Conflicts are symmetric. *)
Lemma test_lock_finds l rq : IS_POSIX rq = true ->
  posix_test_lock l rq = find (fun fl => if negb (IS_POSIX fl) then false else posix_locks_conflict rq fl) l.
Proof.
  intros P. induction l as [| f l IH]; simpl; [done |].
  replace (if negb (IS_POSIX f) then false else posix_locks_conflict f rq)
    with (if negb (IS_POSIX f) then false else posix_locks_conflict rq f); [by case_match |].
  destruct (IS_POSIX f) eqn:Pf; simpl; [| done].
  unfold posix_locks_conflict, posix_same_owner, locks_overlap, locks_conflict. rewrite P, Pf, (Z.eqb_sym (fl_owner f)). simpl.
  rewrite (andb_comm (fl_start f <=? fl_end rq)).
  by destruct (fl_owner rq =? fl_owner f), (fl_start rq <=? fl_end f), (fl_start f <=? fl_end rq), (fl_type f =? F_WRLCK), (fl_type rq =? F_WRLCK).
Qed.

(** What the report of a lock is converted back to. *)
Lemma report_roundtrip f files tgid id fl :
  0 <= fl_start fl <= fl_end fl -> fl_end fl <= OFFSET_MAX -> fl_type fl = F_RDLCK \/ fl_type fl = F_WRLCK ->
  flock64_to_posix_lock f files tgid id
    (mk_flock (fl_type fl) 0 (loff (fl_start fl)) (if fl_end fl =? OFFSET_MAX then 0 else loff (fl_end fl - fl_start fl + 1))) =
  inr (mk_fl id files tgid (filp f) FL_POSIX (fl_type fl) (fl_start fl) (fl_end fl)).
Proof.
  intros Hr Hm Ht. unfold flock64_to_posix_lock. cbn [l_whence l_start l_len l_type]. cbn [Z.eqb]. unfold OFFSET_MAX in *.
  rewrite Z.add_0_l, !(loff_small (fl_start fl)) by lia. rewrite (proj2 (Z.ltb_ge (fl_start fl) 0)) by lia. cbn [orb].
  assert (forall a b, assign_type (fl_type fl) (mk_fl id files tgid (filp f) FL_POSIX 0 a b) =
    inr (mk_fl id files tgid (filp f) FL_POSIX (fl_type fl) a b)) as At by (intros; by destruct Ht as [-> | ->]).
  destruct (Z.eqb_spec (fl_end fl) 9223372036854775807) as [E | E]; cbn [Z.ltb Z.compare Z.eqb andb].
  - by rewrite At, E.
  - rewrite (loff_small (fl_end fl - fl_start fl + 1)) by lia. rewrite (proj2 (Z.ltb_ge (fl_end fl - fl_start fl + 1) 0)) by lia.
    replace (fl_start fl + (fl_end fl - fl_start fl + 1) - 1) with (fl_end fl) by lia. rewrite loff_small by lia.
    rewrite (proj2 (Z.ltb_ge (fl_end fl) 0)), andb_false_r by lia.
    by rewrite (proj2 (Z.eqb_neq (fl_end fl - fl_start fl + 1) 0)), At by lia.
Qed.

Lemma conversion_flags f files tgid id l rq : flock64_to_posix_lock f files tgid id l = inr rq -> fl_flags rq = FL_POSIX.
Proof. unfold flock64_to_posix_lock, assign_type. repeat case_match; intros; by simplify_eq. Qed.

Lemma conversion_type f files tgid id l rq : flock64_to_posix_lock f files tgid id l = inr rq -> fl_type rq = l_type l.
Proof. unfold flock64_to_posix_lock, assign_type. repeat case_match; intros; by simplify_eq. Qed.

(** [F_GETLK64] and [F_SETLK64] agree: when the first reports "unlocked", a set
    request with the same structure is granted; otherwise the set request fails with
    [EAGAIN], and what is reported is a lock of another owner that is in the way, in a
    form that is converted back to exactly its range and type. *)
Lemma getlk64_agrees_setlk64 f files tgid l pid st rq :
  locks_ok (i_flock st) -> (forall fl, fl ∈ i_flock st -> fl_start fl <= fl_end fl) ->
  l_type l = F_RDLCK \/ l_type l = F_WRLCK -> flock64_to_posix_lock f files tgid 0%nat l = inr rq ->
  exists r p, fcntl_getlk flock64_to_posix_lock false f files tgid (Some l) pid true st = (0, Some (r, p)) /\
    (l_type r = F_UNLCK -> forall n1 n2, __posix_lock_file rq (Some n1) (Some n2) st = Some (0, apply_lock rq n1 n2 st)) /\
    (l_type r <> F_UNLCK ->
     (forall n1 n2, __posix_lock_file rq (Some n1) (Some n2) st = Some (- EAGAIN, st)) /\
     exists fl, fl ∈ i_flock st /\ fl_owner fl <> fl_owner rq /\ posix_locks_conflict rq fl = true /\ p = fl_pid fl /\
       forall f' files' tgid' id, flock64_to_posix_lock f' files' tgid' id r =
         inr (mk_fl id files' tgid' (filp f') FL_POSIX (fl_type fl) (fl_start fl) (fl_end fl))).
Proof.
  intros Ok Hr Ht E. pose proof (conversion_flags _ _ _ _ _ _ E) as Ff. pose proof (conversion_type _ _ _ _ _ _ E) as Ft.
  assert (IS_POSIX rq = true) as P by (unfold IS_POSIX, has_flag; by rewrite Ff).
  unfold fcntl_getlk. replace (negb (l_type l =? F_RDLCK) && negb (l_type l =? F_WRLCK)) with false by (by destruct Ht as [-> | ->]).
  rewrite E, test_lock_finds by done. unfold __posix_lock_file.
  replace (negb (fl_type rq =? F_UNLCK)) with true by (rewrite Ft; by destruct Ht as [-> | ->]).
  unfold has_flag. rewrite Ff. destruct (find _ (i_flock st)) as [fl |] eqn:F.
  - eexists _, _. split; [done |]. apply find_some in F as [Hf%list_elem_of_In F].
    destruct (IS_POSIX fl) eqn:Pf; simpl in F; [| done]. destruct Ok as [(h & p & El & Hh & G) _ _].
    assert (good (fun _ _ _ => True) fl) as [_ Tf Lf Hif _].
    { rewrite El, elem_of_app in Hf. destruct Hf as [Hf | Hf]; [| by eapply Forall_forall in Hf].
      pose proof (proj1 (Forall_forall _ _) Hh fl Hf) as Hn. simpl in Hn. congruence. }
    cbn [l_type]. split; [intros U; exfalso; destruct Tf as [Tf | Tf]; by rewrite Tf in U |]. intros _. split; [done |].
    exists fl. split; [done |]. split.
    { intros Eo. unfold posix_locks_conflict, posix_same_owner in F. by rewrite Eo, Z.eqb_refl, orb_true_r in F. }
    split; [done |]. split; [done |]. intros f' files' tgid' id. apply report_roundtrip; auto.
  - eexists _, _. split; [done |]. split; [done |]. by intros [].
Qed.
