(* ===== verification/RecordLocks.v ===== *)
(** * What a record lock request does: fs/locks.c

    The functional behaviour of [__posix_lock_file] on the locks of the owner who
    makes the request: which bytes are locked afterwards, and how. *)

From stdpp Require Import gmap.
From S2P Require Import Prelude FileLocks.

(** ** What a granted request does to its owner's locks *)

(** The owner's locks, in order, without overlap. *)
Fixpoint ordered (lo : Z) (G : list file_lock) : Prop :=
  match G with
  | [] => True
  | f :: G' => lo < fl_start f /\ fl_start f <= fl_end f /\ ordered (fl_end f) G'
  end.

Record lock_of (o : Z) (f : file_lock) : Prop := {
  lo_owner : fl_owner f = o;
  lo_posix : IS_POSIX f = true;
  lo_type : fl_type f = F_RDLCK \/ fl_type f = F_WRLCK;
  lo_end : fl_end f <= OFFSET_MAX;
}.

Record group (o : Z) (G : list file_lock) : Prop := {
  gr_locks : Forall (lock_of o) G;
  gr_ordered : ordered (-1) G;
}.

Definition has (G : list file_lock) (t x : Z) : Prop := exists f, f ∈ G /\ fl_type f = t /\ covers f x.

Lemma has_nil t x : ~ has [] t x.
Proof. by intros (f & Hf%elem_of_nil & _). Qed.

Lemma has_app A B t x : has (A ++ B) t x <-> has A t x \/ has B t x.
Proof. unfold has. setoid_rewrite elem_of_app. naive_solver. Qed.

Lemma has_cons f G t x : has (f :: G) t x <-> fl_type f = t /\ covers f x \/ has G t x.
Proof. unfold has. setoid_rewrite elem_of_cons. naive_solver. Qed.

Lemma ordered_weaken lo lo' G : lo' <= lo -> ordered lo G -> ordered lo' G.
Proof. destruct G; simpl; [done | intros ? (? & ? & ?)]. split; [lia | done]. Qed.

Lemma ordered_has lo G t x : ordered lo G -> has G t x -> lo < x.
Proof.
  revert lo. induction G as [| f G IH]; intros lo O; [by intros ?%has_nil |].
  destruct O as (? & ? & O). intros [[_ [? ?]] | Hg]%has_cons; [lia |]. specialize (IH _ O Hg). lia.
Qed.

(** [A] ends before [hi]. *)
Definition below (hi : Z) (A : list file_lock) : Prop := Forall (fun f => fl_end f < hi) A.

Lemma below_has hi A t x : below hi A -> has A t x -> x < hi.
Proof. intros B (f & Hf & _ & Hc). pose proof (proj1 (Forall_forall _ _) B f Hf) as H. unfold covers in Hc. simpl in H. lia. Qed.

Lemma ordered_app lo A B :
  ordered lo (A ++ B) <-> ordered lo A /\ ordered (default lo (fl_end <$> last A)) B.
Proof.
  revert lo. induction A as [| f A IH]; intros lo; [simpl; tauto |]. rewrite last_cons. simpl. rewrite IH.
  destruct (last A); simpl; tauto.
Qed.

Lemma ordered_join lo hi A B : ordered lo A -> below hi A -> lo < hi -> ordered (hi - 1) B -> ordered lo (A ++ B).
Proof.
  intros OA BA H OB. apply ordered_app. split; [done |]. eapply ordered_weaken; [| done].
  destruct (last A) as [f |] eqn:E; simpl; [| lia]. apply last_Some in E as [A' ->].
  apply Forall_app in BA as [_ BA]. apply Forall_inv in BA. lia.
Qed.

Lemma below_ordered lo A B : ordered lo (A ++ B) -> forall f, head B = Some f -> below (fl_start f) A.
Proof.
  revert lo. induction A as [| g A IH]; intros lo O f Hf; [constructor |]. destruct O as (? & ? & O).
  constructor; [| by eapply IH]. destruct B as [| f' B]; [done |]. injection Hf as ->.
  clear IH. revert O. generalize (fl_end g). induction A as [| g' A IH]; intros z O; simpl in O; [lia |].
  destruct O as (? & ? & O). specialize (IH _ O). lia.
Qed.

Lemma ordered_lt lo D f G : ordered lo (D ++ f :: G) -> lo < fl_start f <= fl_end f.
Proof.
  revert lo. induction D as [| g D IH]; intros lo O; simpl in O; [lia |]. destruct O as (? & ? & O). apply IH in O. lia.
Qed.

Lemma ordered_tail lo D f G : ordered lo (D ++ f :: G) -> ordered lo D /\ ordered (fl_end f) G /\ below (fl_start f) D.
Proof.
  intros O. split; [by apply ordered_app in O as [? _] |]. split; [by apply ordered_app in O as [_ (_ & _ & ?)] |].
  by eapply below_ordered.
Qed.

(** The part of a lock after [e] and the part before [s]. *)
Definition cutr (e : Z) (f : file_lock) : file_lock := set_range (e + 1) (fl_end f) f.
Definition cutl (s : Z) (f : file_lock) : file_lock := set_range (fl_start f) (s - 1) f.

Definition other_head (o : Z) (b : list file_lock) : Prop := forall f, head b = Some f -> fl_owner f <> o.

Definition is_unlck (rq : file_lock) : bool := fl_type rq =? F_UNLCK.

(** The structure of the list that [request] points to. *)
Definition pointed (rq : file_lock) : list file_lock := if is_unlck rq then [] else [rq].

Lemma assign_at X rq rq' Y : NoDup (ids (X ++ rq :: Y)) -> fl_id rq' = fl_id rq ->
  assign rq' (X ++ [rq]) = X ++ [rq'].
Proof.
  intros N E. rewrite assign_prefix.
  - unfold assign. rewrite list_fmap_singleton. by rewrite E, Nat.eqb_refl.
  - rewrite E. rewrite ids_app in N. apply NoDup_app in N as (_ & N & _). intros H. apply (N _ H). by left.
Qed.

Lemma update_at X f g Y : NoDup (ids (X ++ f :: Y)) -> update_lock (fl_id f) g (X ++ f :: Y) = X ++ g f :: Y.
Proof.
  intros N. rewrite ids_app in N. apply NoDup_app in N as (_ & N & N'). rewrite update_prefix.
  2: { intros H. apply (N _ H). by left. }
  f_equal. unfold update_lock. rewrite fmap_cons, Nat.eqb_refl. f_equal.
  rewrite <- (list_fmap_id Y) at 2. apply list_fmap_ext. intros i f' Hi%list_elem_of_lookup_2.
  destruct (Nat.eqb_spec (fl_id f') (fl_id f)) as [E |]; [| done].
  apply NoDup_cons in N' as [N' _]. destruct N'. rewrite <- E. by apply elem_of_ids.
Qed.

Lemma walk_own_end b pd rq add lft ws :
  other_head (fl_owner rq) b -> walk_own b pd rq add lft ws = mk_walk pd b rq add lft None ws.
Proof.
  intros H. destruct b as [| f b]; [done |]. cbn [walk_own]. unfold posix_same_owner.
  destruct (Z.eqb_spec (fl_owner rq) (fl_owner f)) as [E |]; [| done]. by destruct (H f eq_refl).
Qed.

(** *** After the request's place is settled *)

(** What the rest of the walk makes of the owner's locks [G] that start after the
    request: it extends the request to [E] and leaves [R] (to be cut) and [Y]. *)
Record swept (t0 e : Z) (G : list file_lock) (E : Z) (R : option file_lock) (Y : list file_lock) : Prop := {
  sw_end : e <= E <= OFFSET_MAX;
  sw_unlck : t0 = F_UNLCK -> E = e;
  sw_sub : option_list R ++ Y `sublist_of` G;
  sw_cut : forall f, R = Some f -> fl_start f <= E < fl_end f;
  sw_ordered : ordered E (option_list (cutr E <$> R) ++ Y);
  sw_after : forall t x, has (option_list (cutr E <$> R) ++ Y) t x <-> E < x /\ has G t x;
  sw_merged : forall t x, e < x <= E -> has G t x <-> t = t0;
}.

Lemma swept_stop t0 e G : e <= OFFSET_MAX -> ordered e G -> swept t0 e G e None G.
Proof.
  intros H O. split; [lia | done | reflexivity | done | done | | intros t x ?; lia]. intros t x. simpl. split; [| tauto].
  intros Hh. split; [by eapply ordered_has | done].
Qed.

(** The last lock reaches past the request. *)
Lemma swept_cut t0 e f G :
  ordered (fl_end f) G -> fl_start f <= e -> e < fl_end f <= OFFSET_MAX -> swept t0 e (f :: G) e (Some f) G.
Proof.
  intros O Hs He. split; simpl; [lia | done | reflexivity | intros g [= <-]; lia | split; [lia | split; [lia | done]] | | intros t x ?; lia].
  intros t x. rewrite !has_cons. unfold cutr, covers. simpl. split.
  - intros [[-> ?] | H]; [split; [lia | left; split; [done | lia]] |]. pose proof (ordered_has _ _ _ _ O H). split; [lia | auto].
  - intros [? [[-> ?] | H]]; [left; split; [done | lia] | auto].
Qed.

(** A lock inside the request is deleted. *)
Lemma swept_delete t0 e f G E R Y : fl_end f <= e -> swept t0 e G E R Y -> swept t0 e (f :: G) E R Y.
Proof.
  intros He [S U B C O A M]. split; try done; [by apply sublist_cons | |]; intros t x.
  - rewrite A, has_cons. unfold covers. split; [tauto |]. intros [? [[_ ?] |]]; [lia | done].
  - intros Hx. rewrite has_cons, M by done. unfold covers. split; [intros [[_ ?] |]; [lia | done] | auto].
Qed.

(** A lock of the same type that touches the request is joined with it. *)
Lemma swept_merge t0 e f G E R Y :
  fl_type f = t0 -> fl_start f <= e + 1 -> t0 <> F_UNLCK ->
  ordered (fl_end f) G -> swept t0 (Z.max e (fl_end f)) G E R Y -> swept t0 e (f :: G) E R Y.
Proof.
  intros Ht Hs Hu Og [S U B C O A M]. split; try done; [lia | by apply sublist_cons | |]; intros t x.
  - rewrite A, has_cons. unfold covers. split; [tauto |]. intros [? [[_ ?] |]]; [lia | done].
  - intros Hx. rewrite has_cons. unfold covers. destruct (decide (x <= fl_end f)).
    + split; [| intros ->; left; split; [done | lia]]. intros [[<- _] | H]; [done |].
      pose proof (ordered_has _ _ _ _ Og H). lia.
    + rewrite M by lia. split; [intros [[_ ?] |]; [lia | done] | auto].
Qed.

Lemma set_range_id rq : set_range (fl_start rq) (fl_end rq) rq = rq.
Proof. by destruct rq. Qed.

Lemma lock_of_cons o f G : Forall (lock_of o) (f :: G) ->
  fl_owner f = o /\ (fl_type f = F_RDLCK \/ fl_type f = F_WRLCK) /\ fl_end f <= OFFSET_MAX /\ Forall (lock_of o) G.
Proof. by intros [[] ?]%Forall_cons. Qed.

Lemma nodup_drop X f Y : NoDup (ids (X ++ f :: Y)) -> NoDup (ids (X ++ Y)).
Proof.
  unfold ids. rewrite !fmap_app, fmap_cons, <- (Permutation_middle (fl_id <$> X)). by intros [_ ?]%NoDup_cons.
Qed.

Lemma walk_added : forall G X rq add lft ws b lo,
  Forall (lock_of (fl_owner rq)) G -> ordered lo G -> fl_start rq <= lo + 1 ->
  0 <= fl_start rq <= fl_end rq /\ fl_end rq <= OFFSET_MAX ->
  NoDup (ids (X ++ pointed rq ++ G ++ b)) -> other_head (fl_owner rq) b ->
  (is_unlck rq = false -> add = true) -> (lft <> None -> add = true) ->
  (fl_end rq = OFFSET_MAX -> Forall (fun f => fl_type f <> fl_type rq) G) ->
  exists E R Y add' ws',
    walk_own (G ++ b) (X ++ pointed rq) rq add lft ws =
      mk_walk (X ++ pointed (set_range (fl_start rq) E rq)) (option_list R ++ Y ++ b)
              (set_range (fl_start rq) E rq) add' lft (fl_id <$> R) ws' /\
    swept (fl_type rq) (fl_end rq) G E R Y /\
    (is_unlck rq = false -> add' = true) /\ (add' = false -> R = None /\ lft = None).
Proof.
  induction G as [| f G IH]; intros X rq add lft ws b lo L O Hlo [Hr Hm] N Hb Ha Hl Hx.
  { exists (fl_end rq), None, [], add, ws. rewrite set_range_id. split; [by apply walk_own_end |].
    split; [by apply swept_stop |]. split; [done |]. intros ->. split; [done |]. destruct lft; [exfalso; naive_solver | done]. }
  apply lock_of_cons in L as (Ho & Ht & He & L). destruct O as (O1 & O2 & O3).
  assert (forall add', (is_unlck rq = false -> add' = true) -> (lft <> None -> add' = true) -> fl_end rq < fl_start f ->
    exists E R Y add1 ws1,
      mk_walk (X ++ pointed rq) (f :: G ++ b) rq add' lft None ws =
      mk_walk (X ++ pointed (set_range (fl_start rq) E rq)) (option_list R ++ Y ++ b)
              (set_range (fl_start rq) E rq) add1 lft (fl_id <$> R) ws1 /\
      swept (fl_type rq) (fl_end rq) (f :: G) E R Y /\ (is_unlck rq = false -> add1 = true) /\ (add1 = false -> R = None /\ lft = None)) as Stop.
  { intros add' Ha' Hl' Hs. exists (fl_end rq), None, (f :: G), add', ws. rewrite set_range_id. split; [done |].
    split; [apply swept_stop; [done | by split] |]. split; [done |]. intros ->. split; [done |].
    destruct lft; [exfalso; naive_solver | done]. }
  assert (NoDup (ids (X ++ pointed rq ++ G ++ b))) as N'.
  { rewrite app_assoc in N |- *. by eapply nodup_drop. }
  cbn [walk_own app]. unfold posix_same_owner. rewrite Ho, Z.eqb_refl. cbn [negb].
  destruct (Z.eqb_spec (fl_type rq) (fl_type f)) as [Et | Et].
  - assert (fl_end rq < OFFSET_MAX) as Hlt.
    { destruct (decide (fl_end rq = OFFSET_MAX)) as [E |]; [| lia]. apply Hx in E. apply Forall_inv in E. congruence. }
    assert (is_unlck rq = false) as Hu by (unfold is_unlck; rewrite Et; apply Z.eqb_neq; unfold F_UNLCK, F_RDLCK, F_WRLCK in *; lia).
    rewrite (Ha Hu) in *. unfold pointed in *. change (is_unlck (set_range _ _ rq)) with (is_unlck rq) in *. rewrite Hu in *.
    unfold OFFSET_MAX in *. rewrite !loff_small by lia.
    destruct (Z.ltb_spec (fl_end f) (fl_start rq - 1)); [lia |].
    destruct (Z.ltb_spec (fl_end rq + 1) (fl_start f)); [apply (Stop true); auto; lia |].
    replace (if fl_start rq <? fl_start f then fl_start rq else fl_start f) with (fl_start rq)
      by (destruct (Z.ltb_spec (fl_start rq) (fl_start f)); lia).
    replace (if fl_end f <? fl_end rq then fl_end rq else fl_end f) with (Z.max (fl_end rq) (fl_end f))
      by (destruct (Z.ltb_spec (fl_end f) (fl_end rq)); lia).
    set (e := Z.max _ _). rewrite (assign_at _ _ _ _ N) by done.
    destruct (IH X (set_range (fl_start rq) e rq) true lft (locks_wake_up_blocks (fl_id f) ws) b (fl_end f))
      as (E & R & Y & add' & ws' & Ew & Sw & Pa & Pl); try done; [simpl; lia | simpl; unfold OFFSET_MAX; lia | change (is_unlck (set_range _ _ rq)) with (is_unlck rq); rewrite Hu; rewrite !ids_app in N' |- *; exact N' | |].
    + simpl. intros Ee. destruct G as [| g G]; [done |]. destruct O3 as (? & ? & _). apply lock_of_cons in L as (_ & _ & ? & _).
      unfold OFFSET_MAX in *. lia.
    + exists E, R, Y, add', ws'. unfold pointed in Ew. simpl in Ew.
      change (is_unlck (set_range _ _ _)) with (is_unlck rq) in Ew. rewrite Hu in Ew. split; [done |].
      split; [| auto]. apply swept_merge; [done | lia | by apply Z.eqb_neq | done | exact Sw].
  - destruct (Z.ltb_spec (fl_end f) (fl_start rq)); [lia |].
    destruct (Z.ltb_spec (fl_end rq) (fl_start f)); [by apply Stop |].
    assert ((if fl_type rq =? F_UNLCK then true else add) = true) as ->.
    { fold (is_unlck rq). destruct (is_unlck rq) eqn:Hu; auto. }
    replace (fl_start f <? fl_start rq) with false by (symmetry; apply Z.ltb_ge; lia).
    destruct (Z.ltb_spec (fl_end rq) (fl_end f)).
    + exists (fl_end rq), (Some f), G, true, ws. rewrite set_range_id. split; [done |].
      split; [apply swept_cut; [done | lia | lia] | done].
    + replace (fl_start rq <=? fl_start f) with true by (symmetry; apply Z.leb_le; lia).
      destruct (IH X rq true lft (locks_wake_up_blocks (fl_id f) ws) b (fl_end f))
        as (E & R & Y & add' & ws' & Ew & Sw & Pa & Pl); try done; [lia || (intros Em; by apply Hx, Forall_cons in Em as [_ ?]) .. |].
      exists E, R, Y, add', ws'. split; [done |]. split; [by apply swept_delete | done].
Qed.

(** *** The locks that start inside the request *)

Lemma assign_fresh rq l : fl_id rq ∉ ids l -> assign rq l = l.
Proof. intros H. rewrite <- (app_nil_r l) at 1. rewrite assign_prefix by done. apply app_nil_r. Qed.

Lemma ids_middle X f f' Y : fl_id f' = fl_id f -> ids (X ++ f' :: Y) = ids (X ++ f :: Y).
Proof. intros E. rewrite !ids_app. unfold ids. by rewrite !fmap_cons, E. Qed.

(** A request that is not in the list yet takes the place of the first lock it
    covers or joins. *)
Lemma walk_place f G X rq f' lft ws b :
  is_unlck rq = false -> fl_type f' = fl_type rq -> fl_id f' = fl_id f -> fl_owner f' = fl_owner rq ->
  Forall (lock_of (fl_owner rq)) G -> ordered (fl_end f) G -> fl_start f' <= fl_end f + 1 ->
  0 <= fl_start f' <= fl_end f' /\ fl_end f' <= OFFSET_MAX ->
  NoDup (ids (X ++ f :: G ++ b)) -> other_head (fl_owner rq) b ->
  (fl_end f' = OFFSET_MAX -> Forall (fun g => fl_type g <> fl_type rq) G) ->
  exists E R Y ws',
    walk_own (G ++ b) (X ++ [f']) f' true lft ws =
      mk_walk (X ++ [set_range (fl_start f') E f']) (option_list R ++ Y ++ b)
              (set_range (fl_start f') E f') true lft (fl_id <$> R) ws' /\
    swept (fl_type rq) (fl_end f') G E R Y.
Proof.
  intros Hu Ht Hi Ho L O Hs Hr N Hb Hx.
  assert (is_unlck f' = false) as Hu' by (unfold is_unlck; by rewrite Ht).
  destruct (walk_added G X f' true lft ws b (fl_end f)) as (E & R & Y & add' & ws' & Ew & Sw & Pa & Pl); try done.
  - by rewrite Ho.
  - unfold pointed. rewrite Hu'. simpl. by rewrite (ids_middle _ f).
  - by rewrite Ho.
  - by rewrite Ht.
  - exists E, R, Y, ws'. rewrite Ht, (Pa Hu') in *. unfold pointed in Ew.
    change (is_unlck (set_range _ _ f')) with (is_unlck f') in Ew. rewrite Hu' in Ew. done.
Qed.

(** Locks of the same type do not reach a request that extends to the largest offset. *)
Definition no_same (rq : file_lock) (G : list file_lock) : Prop :=
  fl_end rq = OFFSET_MAX -> Forall (fun f => fl_type f = fl_type rq -> fl_end f < fl_start rq - 1) G.

Definition in_list (rq : file_lock) (add : bool) : list file_lock :=
  if is_unlck rq then [] else if add then [rq] else [].

Lemma no_same_after rq lo G : no_same rq G -> ordered lo G -> fl_start rq <= lo + 1 -> fl_end rq = OFFSET_MAX ->
  Forall (fun f => fl_type f <> fl_type rq) G.
Proof.
  intros H O Hlo E. specialize (H E). clear E. revert lo O Hlo. induction H as [| f G Hf _ IH]; intros lo; [constructor |].
  intros (O1 & O2 & O3) Hlo. constructor; [intros Et; specialize (Hf Et); lia | eapply IH; [done | lia]].
Qed.

Lemma max_last lo f G rq o : ordered lo (f :: G) -> Forall (lock_of o) G -> fl_end rq < OFFSET_MAX ->
  Z.max (fl_end rq) (fl_end f) = OFFSET_MAX -> Forall (fun g => fl_type g <> fl_type rq) G.
Proof.
  intros (_ & _ & O) L H E. destruct G as [| g G]; [constructor |]. destruct O as (? & ? & _).
  apply lock_of_cons in L as (_ & _ & ? & _). lia.
Qed.

(** The request, possibly in a structure of the list. *)
Record stands_for (rq rq' : file_lock) : Prop := {
  sf_owner : fl_owner rq' = fl_owner rq;
  sf_type : fl_type rq' = fl_type rq;
  sf_posix : IS_POSIX rq' = true;
}.

Lemma walk_rest G X rq add lft ws b lo :
  Forall (lock_of (fl_owner rq)) G -> ordered lo G -> fl_start rq <= lo + 1 ->
  0 <= fl_start rq <= fl_end rq /\ fl_end rq <= OFFSET_MAX -> IS_POSIX rq = true ->
  NoDup (ids (X ++ G ++ b)) -> fl_id rq ∉ ids X -> other_head (fl_owner rq) b ->
  (is_unlck rq = false -> add = false) -> (is_unlck rq = true -> lft <> None -> add = true) ->
  no_same rq G ->
  exists rq' R Y add' ws',
    walk_own (G ++ b) X rq add lft ws =
      mk_walk (X ++ in_list rq' add') (option_list R ++ Y ++ b) rq' add' lft (fl_id <$> R) ws' /\
    swept (fl_type rq) (fl_end rq) G (fl_end rq') R Y /\ stands_for rq rq' /\ fl_start rq' = fl_start rq /\
    (is_unlck rq = true -> add' = false -> R = None /\ lft = None).
Proof.
  intros L O Hlo [Hr Hm] P N Fr Hb Ha Hl Hx. destruct (is_unlck rq) eqn:Hu.
  { destruct (walk_added G X rq add lft ws b lo) as (E & R & Y & add' & ws' & Ew & Sw & _ & Pl); try done.
    - by unfold pointed; rewrite Hu.
    - by rewrite Hu.
    - by apply Hl.
    - by eapply no_same_after.
    - assert (E = fl_end rq) as -> by (apply (sw_unlck _ _ _ _ _ _ Sw); by apply Z.eqb_eq). rewrite set_range_id in Ew.
      exists rq, R, Y, add', ws'. unfold pointed in Ew. unfold in_list. rewrite Hu in *. rewrite app_nil_r in Ew.
      rewrite app_nil_r. split; [done |]. split; [done |]. split; [by split |]. split; [done | auto]. }
  rewrite (Ha eq_refl) in *. clear Ha Hl.
  assert (forall G', ordered (fl_end rq) G' -> G' = G -> exists rq' R Y add' ws',
    mk_walk X (G' ++ b) rq false lft None ws =
      mk_walk (X ++ in_list rq' add') (option_list R ++ Y ++ b) rq' add' lft (fl_id <$> R) ws' /\
    swept (fl_type rq) (fl_end rq) G (fl_end rq') R Y /\ stands_for rq rq' /\ fl_start rq' = fl_start rq /\
    (false = true -> add' = false -> R = None /\ lft = None)) as Stop.
  { intros G' O' ->. exists rq, None, G, false, ws. unfold in_list. rewrite Hu, app_nil_r.
    split; [done |]. split; [by apply swept_stop |]. split; [by split |]. split; [done | by intros]. }
  destruct G as [| f G]; [rewrite walk_own_end by done; by apply (Stop []) |].
  pose proof O as (O1 & O2 & O3). pose proof (lo_posix _ _ (Forall_inv L)) as Pf. apply lock_of_cons in L as (Ho & Ht & He & L).
  assert (Forall (fun g => fl_end rq = OFFSET_MAX -> fl_type g <> fl_type rq) G) as Hx'.
  { apply Forall_forall. intros g Hg Em. pose proof (no_same_after _ _ _ Hx O Hlo Em) as H.
    apply Forall_cons in H as [_ H]. by eapply Forall_forall in H. }
  cbn [walk_own app]. unfold posix_same_owner. rewrite Ho, Z.eqb_refl. cbn [negb].
  destruct (Z.eqb_spec (fl_type rq) (fl_type f)) as [Et | Et].
  - assert (fl_end rq < OFFSET_MAX) as Hlt.
    { destruct (decide (fl_end rq = OFFSET_MAX)) as [E |]; [| lia]. apply Hx, Forall_inv in E. simpl in E. specialize (E (eq_sym Et)). lia. }
    unfold OFFSET_MAX in *. rewrite !loff_small by lia.
    destruct (Z.ltb_spec (fl_end f) (fl_start rq - 1)); [lia |].
    destruct (Z.ltb_spec (fl_end rq + 1) (fl_start f)); [apply (Stop (f :: G)); [split; [lia | done] | done] |].
    replace (if fl_start rq <? fl_start f then fl_start rq else fl_start f) with (fl_start rq)
      by (destruct (Z.ltb_spec (fl_start rq) (fl_start f)); lia).
    replace (if fl_end f <? fl_end rq then fl_end rq else fl_end f) with (Z.max (fl_end rq) (fl_end f))
      by (destruct (Z.ltb_spec (fl_end f) (fl_end rq)); lia).
    rewrite assign_fresh by done. set (f' := set_range (fl_start rq) (Z.max (fl_end rq) (fl_end f)) f).
    destruct (walk_place f G X rq f' lft ws b) as (E & R & Y & ws' & -> & Sw); try done; [simpl; lia | simpl; unfold OFFSET_MAX; lia | |].
    + intros Em. eapply max_last; eauto.
    + exists (set_range (fl_start f') E f'), R, Y, true, ws'. unfold in_list.
      replace (is_unlck (set_range (fl_start f') E f')) with false by (unfold is_unlck; simpl; by rewrite <- Et).
      split; [done |]. split; [apply swept_merge; [done | lia | by apply Z.eqb_neq | done | exact Sw] |].
      split; [by split | done].
  - destruct (Z.ltb_spec (fl_end f) (fl_start rq)); [lia |].
    destruct (Z.ltb_spec (fl_end rq) (fl_start f)); [apply (Stop (f :: G)); [split; [lia | done] | done] |].
    fold (is_unlck rq). rewrite Hu. replace (fl_start f <? fl_start rq) with false by (symmetry; apply Z.ltb_ge; lia).
    destruct (Z.ltb_spec (fl_end rq) (fl_end f)).
    + exists rq, (Some f), G, false, ws. unfold in_list. rewrite Hu, app_nil_r. split; [done |].
      split; [apply swept_cut; [done | lia | lia] |]. split; [by split |]. split; [done | by intros].
    + replace (fl_start rq <=? fl_start f) with true by (symmetry; apply Z.leb_le; lia).
      set (f' := set_type _ _).
      destruct (walk_place f G X rq f' lft (locks_wake_up_blocks (fl_id f) ws) b) as (E & R & Y & ws' & -> & Sw); try done.
      * simpl. lia.
      * intros Em. eapply Forall_impl; [exact Hx' |]. auto.
      * exists (set_range (fl_start f') E f'), R, Y, true, ws'. unfold in_list.
        replace (is_unlck (set_range (fl_start f') E f')) with false by done.
        split; [done |]. split; [by apply swept_delete |]. split; [by split | done].
Qed.

(** *** Cutting the locks on both sides *)

(** What is inserted when the request did not take the place of a lock. *)
Definition inserted (rq : file_lock) (add : bool) (n1 : nat) : list file_lock :=
  if is_unlck rq then [] else if add then [] else [locks_copy_lock n1 rq].

Lemma nodup_insert A B C : NoDup (ids (A ++ C)) -> NoDup (ids B) -> (forall i, i ∈ ids B -> i ∉ ids (A ++ C)) ->
  NoDup (ids (A ++ B ++ C)).
Proof.
  unfold ids. rewrite !fmap_app. intros N NB D.
  rewrite Permutation_app_swap_app. apply NoDup_app. split; [done |]. split; [| done]. by intros i Hi; apply D.
Qed.

Lemma ids_inserted rq add n1 i : i ∈ ids (inserted rq add n1) -> i = n1.
Proof. unfold inserted. case_match; [by intros ?%elem_of_nil |]. case_match; [by intros ?%elem_of_nil |]. by intros ->%list_elem_of_singleton. Qed.

Lemma nodup_inserted rq add n1 : NoDup (ids (inserted rq add n1)).
Proof. unfold inserted. repeat case_match; try apply NoDup_nil_2. apply NoDup_singleton. Qed.

Lemma finish_cut X L M rq R Y add ws n1 n2 :
  NoDup (ids ((X ++ option_list L ++ M) ++ option_list R ++ Y)) ->
  n1 ∉ ids ((X ++ option_list L ++ M) ++ option_list R ++ Y) ->
  0 <= fl_start rq <= fl_end rq /\ fl_end rq <= OFFSET_MAX -> (R <> None -> fl_end rq < OFFSET_MAX) ->
  (is_unlck rq = true -> add = false -> R = None /\ L = None) ->
  (finish (mk_walk (X ++ option_list L ++ M) (option_list R ++ Y) rq add (fl_id <$> L) (fl_id <$> R) ws) n1 n2).1 =
  X ++ option_list (cutl (fl_start rq) <$> L) ++ M ++ inserted rq add n1 ++ option_list (cutr (fl_end rq) <$> R) ++ Y.
Proof.
  intros N Fr [Hr Hm] HR Hu. unfold finish. cbn [added request passed ahead right_ left_ wq]. fold (is_unlck rq).
  destruct (is_unlck rq && negb add) eqn:Eu.
  { apply andb_true_iff in Eu as [Eu Ea%negb_true_iff]. destruct (Hu Eu Ea) as [-> ->]. rewrite Ea, Eu. simpl.
    unfold inserted. rewrite Eu. simpl. by rewrite <- app_assoc. }
  rewrite andb_comm in Eu. rewrite Eu.
  assert ((if negb add then locks_copy_lock n1 rq :: option_list R ++ Y else option_list R ++ Y) =
          inserted rq add n1 ++ option_list R ++ Y) as ->.
  { unfold inserted. destruct add, (is_unlck rq); done. }
  assert (NoDup (ids ((X ++ option_list L ++ M) ++ inserted rq add n1 ++ option_list R ++ Y))) as N'.
  { apply nodup_insert; [done | apply nodup_inserted |]. by intros i ->%ids_inserted. }
  unfold OFFSET_MAX in *. rewrite (loff_small (fl_start rq - 1)) by lia.
  destruct R as [r |]; destruct L as [l |]; simpl in N' |- *.
  - rewrite bool_decide_eq_false_2.
    2: { intros [= E]. rewrite <- app_assoc, !ids_app in N'. simpl in N'.
         apply NoDup_app in N' as (_ & _ & N'). apply NoDup_cons in N' as [N' _]. apply N'.
         rewrite E. rewrite !elem_of_app. right. right. by left. }
    rewrite (loff_small (fl_end rq + 1)) by (specialize (HR ltac:(done)); lia).
    rewrite app_assoc in N' |- *. rewrite (update_at _ r) by done.
    rewrite <- (ids_middle _ r (set_range (fl_end rq + 1) (fl_end r) r)) in N' by done. rewrite <- !app_assoc in *. cbn [app] in *.
    by rewrite (update_at X l).
  - rewrite (loff_small (fl_end rq + 1)) by (specialize (HR ltac:(done)); lia).
    rewrite app_assoc in N' |- *. rewrite (update_at _ r) by done. by rewrite <- !app_assoc.
  - rewrite <- !app_assoc in *. cbn [app] in *. by rewrite (update_at X l).
  - by rewrite <- !app_assoc.
Qed.

Lemma finish_split X f rq Y add ws n1 n2 :
  NoDup (ids (X ++ f :: Y)) -> n1 ∉ ids (X ++ f :: Y) -> n2 ∉ ids (X ++ f :: Y) -> n1 <> n2 ->
  0 <= fl_start rq /\ fl_end rq < OFFSET_MAX -> fl_start rq <= fl_end rq -> add = is_unlck rq ->
  (finish (mk_walk X (f :: Y) rq add (Some (fl_id f)) (Some (fl_id f)) ws) n1 n2).1 =
  X ++ cutl (fl_start rq) (locks_copy_lock n2 f) :: inserted rq add n1 ++ cutr (fl_end rq) f :: Y.
Proof.
  intros N F1 F2 F12 [Hs He] Hse Ea. unfold finish. cbn [added request passed ahead right_ left_ wq]. fold (is_unlck rq).
  replace (negb add && is_unlck rq) with false by (subst; by destruct (is_unlck rq)).
  assert ((if negb add then locks_copy_lock n1 rq :: f :: Y else f :: Y) = inserted rq add n1 ++ f :: Y) as ->.
  { unfold inserted. subst. by destruct (is_unlck rq). }
  rewrite bool_decide_eq_true_2 by done.
  assert (find (fun x => (fl_id x =? fl_id f)%nat) (inserted rq add n1 ++ f :: Y) = Some f) as ->.
  { unfold inserted. assert (n1 <> fl_id f) as Hn.
    { intros ->. apply F1. rewrite ids_app, elem_of_app. right. by left. }
    repeat case_match; simpl; rewrite ?Nat.eqb_refl; try done. by destruct (Nat.eqb_spec n1 (fl_id f)). }
  assert (NoDup (ids (X ++ locks_copy_lock n2 f :: inserted rq add n1 ++ f :: Y))) as N'.
  { apply (nodup_insert X (locks_copy_lock n2 f :: inserted rq add n1)); [done | |].
    - unfold ids. rewrite fmap_cons. apply NoDup_cons. split; [| apply nodup_inserted]. by intros ?%ids_inserted.
    - intros i Hi. apply elem_of_cons in Hi as [-> | ->%ids_inserted]; done. }
  unfold OFFSET_MAX in *. rewrite !loff_small by lia. cbn [fst].
  rewrite app_comm_cons, app_assoc in N' |- *. rewrite (update_at _ f) by done.
  rewrite <- (ids_middle _ f (cutr (fl_end rq) f)) in N' by done. rewrite <- app_assoc in N' |- *. cbn [app] in *.
  by rewrite (update_at X (locks_copy_lock n2 f)).
Qed.

(** *** The owner's locks afterwards *)

Definition asked (rq : file_lock) (x : Z) : Prop := fl_start rq <= x <= fl_end rq.

(** Inside the range of the request the owner has what was asked for, outside what it
    had before. *)
Record outcome (rq : file_lock) (G G' : list file_lock) : Prop := {
  oc_group : group (fl_owner rq) G';
  oc_inside : forall t x, asked rq x -> has G' t x <-> t = fl_type rq /\ t <> F_UNLCK;
  oc_outside : forall t x, ~ asked rq x -> has G' t x <-> has G t x;
}.

Lemma outcome_build rq A m B G S E :
  fl_start rq <= fl_end rq -> Forall (lock_of (fl_owner rq)) (A ++ m ++ B) ->
  ordered (-1) A -> below S A -> 0 <= S <= fl_start rq -> fl_end rq <= E -> ordered E B ->
  (is_unlck rq = true /\ m = [] /\ S = fl_start rq /\ E = fl_end rq \/
   is_unlck rq = false /\ exists f, m = [f] /\ fl_type f = fl_type rq /\ fl_start f = S /\ fl_end f = E) ->
  (forall t x, has A t x <-> x < S /\ has G t x) -> (forall t x, has B t x <-> E < x /\ has G t x) ->
  (forall t x, S <= x < fl_start rq \/ fl_end rq < x <= E -> has G t x <-> t = fl_type rq) ->
  outcome rq G (A ++ m ++ B).
Proof.
  intros Hr L OA BA HS HE OB Hm HA HB HM. unfold asked.
  assert (forall t x, has m t x <-> t = fl_type rq /\ t <> F_UNLCK /\ S <= x <= E) as Hmid.
  { intros t x. destruct Hm as [(U & -> & _) | (U & f & -> & Ht & <- & <-)].
    - apply Z.eqb_eq in U. split; [by intros ?%has_nil | intros (-> & ? & _); congruence].
    - apply Z.eqb_neq in U. rewrite <- Ht in *. rewrite has_cons. unfold covers. split; [intros [[<- ?] | ?%has_nil]; done | intros (-> & ? & ?); auto]. }
  split.
  - split; [done |]. apply (ordered_join _ S); [done | done | lia |].
    destruct Hm as [(U & -> & -> & ->) | (U & f & -> & _ & <- & <-)]; simpl; [eapply ordered_weaken, OB; lia |].
    split; [lia |]. split; [lia | done].
  - unfold asked. intros t x Hx. rewrite !has_app, Hmid, HA, HB. split; [naive_solver lia |]. intros [-> U]. right. left. split; [done | split; [done | lia]].
  - unfold asked. intros t x Hx. rewrite !has_app, Hmid, HA, HB.
    destruct (decide (x < S)); [split; [naive_solver lia | auto] |].
    destruct (decide (E < x)); [split; [naive_solver lia | auto] |].
    destruct Hm as [(U & _ & -> & ->) | (U & _)]; [lia |]. apply Z.eqb_neq in U.
    rewrite HM by lia. split; [naive_solver lia |]. intros ->. right. left. split; [done | split; [done | lia]].
Qed.

(** The lock that stands for the request, wherever it is. *)
Lemma middle rq rq' add n1 :
  valid_request rq -> stands_for rq rq' ->
  let m := in_list rq' add ++ inserted rq' add n1 in
  is_unlck rq = true /\ m = [] \/
  is_unlck rq = false /\ exists f, m = [f] /\ fl_type f = fl_type rq /\ fl_start f = fl_start rq' /\ fl_end f = fl_end rq' /\
    (fl_end rq' <= OFFSET_MAX -> lock_of (fl_owner rq) f).
Proof.
  intros [P T R] [So St Sp]. unfold in_list, inserted. replace (is_unlck rq') with (is_unlck rq) by (unfold is_unlck; by rewrite St).
  destruct (is_unlck rq) eqn:U; [by left |]. right. split; [done |]. apply Z.eqb_neq in U.
  assert (fl_type rq' = F_RDLCK \/ fl_type rq' = F_WRLCK) by (rewrite St; tauto).
  destruct add; simpl; [exists rq' | exists (locks_copy_lock n1 rq')]; (split; [done |]; split; [done |]; split; [done |]; split; [done |]);
    intros; by split.
Qed.

Lemma cutr_lock o E f : lock_of o f -> lock_of o (cutr E f).
Proof. intros []. by split. Qed.

Lemma swept_locks t0 e G E R Y o :
  swept t0 e G E R Y -> Forall (lock_of o) G -> Forall (lock_of o) (option_list (cutr E <$> R) ++ Y).
Proof.
  intros [_ _ S _ _ _ _] L. apply (Forall_subset _ _ (option_list R ++ Y)) in L; [| by apply sublist_subseteq].
  apply Forall_app in L as [LR LY]. apply Forall_app. split; [| done].
  destruct R; simpl in *; [| done]. apply Forall_cons in LR as [? _]. constructor; [by apply cutr_lock | constructor].
Qed.

(** The locks before the request, the last one cut. *)
Lemma left_part o s D L G :
  Forall (lock_of o) (D ++ option_list L) -> ordered (-1) (D ++ option_list L ++ G) -> below s D -> ordered (s - 1) G -> 0 <= s ->
  (forall f, L = Some f -> fl_start f < s <= fl_end f) ->
  let A := D ++ option_list (cutl s <$> L) in
  Forall (lock_of o) A /\ ordered (-1) A /\ below s A /\
  (forall t x, has A t x <-> x < s /\ has (D ++ option_list L ++ G) t x).
Proof.
  intros Lk O BD OG Hs HL A. unfold A. rewrite app_assoc in O. apply ordered_app in O as [O _].
  assert (forall t x, has G t x -> s <= x) as HG by (intros t x Hh; pose proof (ordered_has _ _ _ _ OG Hh); lia).
  assert (forall t x, has D t x -> x < s) as HD by (intros t x; by apply below_has).
  destruct L as [f |]; simpl in *.
  - specialize (HL f eq_refl). apply Forall_app in Lk as [LD Lf]. apply Forall_inv in Lf. apply ordered_app in O as [OD (O1 & _ & _)].
    split; [apply Forall_app; split; [done | constructor; [| done]] |]; [destruct Lf; split; simpl; auto; lia |].
    split; [apply ordered_app; split; [done | simpl; unfold cutl; simpl; split; [done | split; [lia | done]]] |].
    split; [apply Forall_app; split; [done | constructor; [simpl; lia | done]] |]. intros t x.
    rewrite !has_app, !has_cons. unfold cutl, covers. simpl. pose proof (has_nil t x). specialize (HG t x). specialize (HD t x).
    split; [intros [? | [[? ?] |]] | intros [? [? | [[? ?] |]]]]; naive_solver lia.
  - rewrite !app_nil_r in *. split; [done |]. split; [done |]. split; [done |]. intros t x. rewrite has_app.
    pose proof (has_nil t x). specialize (HG t x). specialize (HD t x). naive_solver lia.
Qed.

Lemma finish_cut_eq X L M R Y w n1 n2 :
  passed w = X ++ option_list L ++ M -> ahead w = option_list R ++ Y -> left_ w = fl_id <$> L -> right_ w = fl_id <$> R ->
  NoDup (ids (passed w ++ ahead w)) -> n1 ∉ ids (passed w ++ ahead w) ->
  0 <= fl_start (request w) <= fl_end (request w) /\ fl_end (request w) <= OFFSET_MAX ->
  (R <> None -> fl_end (request w) < OFFSET_MAX) ->
  (is_unlck (request w) = true -> added w = false -> R = None /\ L = None) ->
  (finish w n1 n2).1 =
  X ++ option_list (cutl (fl_start (request w)) <$> L) ++
  (M ++ inserted (request w) (added w) n1) ++ option_list (cutr (fl_end (request w)) <$> R) ++ Y.
Proof.
  destruct w as [p h q ad lf rt ws]. simpl. intros -> -> -> ->. intros. rewrite finish_cut by done. by rewrite <- (app_assoc M).
Qed.

Section Walk.
Context (a b : list file_lock) (rq : file_lock) (n1 n2 : nat) (V : valid_request rq) (Hb : other_head (fl_owner rq) b)
  (H12 : n1 <> n2).

(** The lists that the walk reached, ready for [finish]. *)
Definition walked (w : walk) : Prop :=
  NoDup (ids (passed w ++ ahead w)) /\ n1 ∉ ids (passed w ++ ahead w) /\ n2 ∉ ids (passed w ++ ahead w).

(** All the locks left start inside the request or after it. [L] is the lock that
    reaches into the request from the left. *)
Lemma finish_rest G D L ws add :
  Forall (lock_of (fl_owner rq)) (D ++ option_list L ++ G) -> ordered (-1) (D ++ option_list L ++ G) ->
  below (fl_start rq) D -> ordered (fl_start rq - 1) G ->
  (forall f, L = Some f -> fl_start f < fl_start rq <= fl_end f /\ fl_end f <= fl_end rq /\ fl_type f <> fl_type rq) ->
  NoDup (ids ((a ++ D ++ option_list L) ++ G ++ b)) -> fl_id rq ∉ ids (a ++ D ++ option_list L) ->
  add = (if L then is_unlck rq else false) -> no_same rq G ->
  walked (walk_own (G ++ b) (a ++ D ++ option_list L) rq add (fl_id <$> L) ws) ->
  exists G', (finish (walk_own (G ++ b) (a ++ D ++ option_list L) rq add (fl_id <$> L) ws) n1 n2).1 = a ++ G' ++ b /\
    outcome rq (D ++ option_list L ++ G) G'.
Proof.
  intros Lk O BD OG HL N Fr Ea Hx. pose proof V as [P T [Hr Hm]].
  apply Forall_app in Lk as [LD [LL LG]%Forall_app].
  destruct (walk_rest G (a ++ D ++ option_list L) rq add (fl_id <$> L) ws b (fl_start rq - 1))
    as (rq' & R & Y & add' & ws' & -> & Sw & St & Ss & Pl); try done; [lia | | |].
  { intros U. rewrite U in Ea. by destruct L. }
  { intros U ?. rewrite U in Ea. by destruct L. }
  intros (Nw & F1 & F2). cbn [passed ahead] in *.
  pose proof Sw as [SE SU SS SC SO SA SM].
  assert (0 <= fl_start rq' <= fl_end rq' /\ fl_end rq' <= OFFSET_MAX) as Hrq' by (rewrite Ss; lia).
  assert (is_unlck rq' = is_unlck rq) as Eu by (unfold is_unlck; by rewrite (sf_type _ _ St)).
  set (A := D ++ option_list (cutl (fl_start rq) <$> L)). set (m := in_list rq' add' ++ inserted rq' add' n1).
  set (B := option_list (cutr (fl_end rq') <$> R) ++ Y).
  exists (A ++ m ++ B). split.
  { rewrite (finish_cut_eq (a ++ D) L (in_list rq' add') R (Y ++ b)); cbn [passed ahead request added left_ right_ wq]; try done.
    - unfold A, m, B. rewrite Ss. by rewrite <- !app_assoc.
    - by rewrite <- !app_assoc.
    - intros HR. destruct R as [r |]; [| done]. specialize (SC r eq_refl).
      apply (Forall_subset _ _ [r]) in LG; [apply Forall_inv, lo_end in LG; lia |].
      intros f ->%list_elem_of_singleton. eapply elem_of_sublist, SS. by left.
    - rewrite Eu. intros U A'. destruct (Pl U A') as [-> E]. by destruct L. }
  destruct (left_part (fl_owner rq) (fl_start rq) D L G) as (LA & OA & BA & HA); try done; [by apply Forall_app | lia | naive_solver |].
  assert (forall t x, has (D ++ option_list L) t x -> x <= fl_end rq) as HD.
  { intros t x [Hd | (f & Hf & _ & Hc)]%has_app; [pose proof (below_has _ _ _ _ BD Hd); lia |].
    destruct L as [f' |]; [| by apply elem_of_nil in Hf]. apply list_elem_of_singleton in Hf as ->.
    specialize (HL f' eq_refl). unfold covers in Hc. lia. }
  pose proof (middle rq rq' add' n1 V St) as Mid. fold m in Mid.
  apply (outcome_build _ _ _ _ _ (fl_start rq) (fl_end rq')); try done; try lia.
  - apply Forall_app. split; [done |]. apply Forall_app. split; [| by eapply swept_locks].
    destruct Mid as [[_ ->] | (_ & f & -> & _ & _ & _ & Lf)]; constructor; [apply Lf; lia | constructor].
  - destruct Mid as [[U ->] | (U & f & -> & Tf & Sf & Ef & _)]; [left | right; rewrite <- Ss; eauto 10].
    split; [done |]. split; [done |]. split; [done |]. apply SU. by apply Z.eqb_eq.
  - intros t x. unfold B. rewrite SA, app_assoc, has_app. split; [tauto |]. intros [? [Hd%HD |]]; [lia | done].
  - intros t x [? | ?]; [lia |]. rewrite app_assoc, has_app, SM by done. split; [intros [Hd%HD |]; [lia | done] | auto].
Qed.

(** A lock of the same type that starts before the request is extended. *)
Lemma finish_merge f G D ws :
  Forall (lock_of (fl_owner rq)) (D ++ f :: G) -> ordered (-1) (D ++ f :: G) ->
  fl_type f = fl_type rq -> fl_start f < fl_start rq -> fl_start rq - 1 <= fl_end f -> fl_end rq < OFFSET_MAX ->
  NoDup (ids ((a ++ D) ++ f :: G ++ b)) -> fl_id rq ∉ ids (a ++ D) ->
  walked (walk_own ((f :: G) ++ b) (a ++ D) rq false None ws) ->
  exists G', (finish (walk_own ((f :: G) ++ b) (a ++ D) rq false None ws) n1 n2).1 = a ++ G' ++ b /\
    outcome rq (D ++ f :: G) G'.
Proof.
  intros Lk O Et Hs He Hlt N Fr. pose proof V as [P T [Hr Hm]].
  pose proof Lk as Lk'. apply Forall_app in Lk' as [LD Lf]. pose proof (lo_posix _ _ (Forall_inv Lf)) as Pf.
  apply lock_of_cons in Lf as (Ho & Tf & Ef & LG). destruct (ordered_tail _ _ _ _ O) as (OD & OG & BD).
  pose proof (ordered_lt _ _ _ _ O) as O1.
  assert (is_unlck rq = false) as U by (apply Z.eqb_neq; rewrite <- Et; unfold F_UNLCK, F_RDLCK, F_WRLCK in *; lia).
  set (e := Z.max (fl_end rq) (fl_end f)). set (f' := set_range (fl_start f) e f).
  assert (walk_own ((f :: G) ++ b) (a ++ D) rq false None ws = walk_own (G ++ b) ((a ++ D) ++ [f']) f' true None ws) as ->.
  { cbn [walk_own app]. unfold posix_same_owner. rewrite Ho, Et, !Z.eqb_refl. cbn [negb].
    unfold OFFSET_MAX in *. rewrite !loff_small by lia.
    destruct (Z.ltb_spec (fl_end f) (fl_start rq - 1)); [lia |]. destruct (Z.ltb_spec (fl_end rq + 1) (fl_start f)); [lia |].
    destruct (Z.ltb_spec (fl_start rq) (fl_start f)); [lia |]. rewrite assign_fresh by done.
    replace (if fl_end f <? fl_end rq then fl_end rq else fl_end f) with e; [done |].
    unfold e. destruct (Z.ltb_spec (fl_end f) (fl_end rq)); lia. }
  destruct (walk_place f G (a ++ D) rq f' None ws b) as (E & R & Y & ws' & -> & Sw); try done; [simpl; lia | simpl; lia | |].
  { intros Em. eapply (max_last (-1)); [| done | done | exact Em]. split; [lia | split; [lia | done]]. }
  intros (Nw & F1 & F2). cbn [passed ahead] in *. cbn [f' set_range fl_start fl_end] in Sw. fold f' in Sw.
  pose proof Sw as [SE SU SS SC SO SA SM]. set (rq' := set_range (fl_start f') E f') in *.
  set (B := option_list (cutr E <$> R) ++ Y). exists (D ++ [rq'] ++ B). split.
  { rewrite (finish_cut_eq (a ++ D) None [rq'] R (Y ++ b)); cbn [passed ahead request added left_ right_ wq]; try done.
    - unfold B, inserted. replace (is_unlck rq') with false by (unfold is_unlck; simpl; by rewrite Et). simpl.
      rewrite <- !app_assoc. simpl. by rewrite <- !app_assoc.
    - simpl. unfold e in SE. lia.
    - intros HR. destruct R as [r |]; [| done]. specialize (SC r eq_refl).
      apply (Forall_subset _ _ [r]) in LG; [apply Forall_inv, lo_end in LG; simpl; lia |].
      intros g ->%list_elem_of_singleton. eapply elem_of_sublist, SS. by left. }
  assert (forall t x, has (D ++ f :: G) t x <-> has D t x \/ fl_type f = t /\ covers f x \/ has G t x) as Hall
    by (intros t x; by rewrite has_app, has_cons).
  assert (forall t x, has D t x -> x < fl_start f) as HD by (intros t x; by apply below_has).
  assert (forall t x, has G t x -> fl_end f < x) as HG by (intros t x; by apply ordered_has).
  unfold covers, e in *.
  apply (outcome_build _ _ _ _ _ (fl_start f) E); try done; try lia.
  - apply Forall_app. split; [done |]. constructor; [split; simpl; auto; lia | by eapply swept_locks].
  - right. split; [done |]. by exists rq'.
  - intros t x. rewrite Hall. specialize (HD t x). specialize (HG t x). naive_solver lia.
  - intros t x. rewrite Hall. unfold B. rewrite SA. specialize (HD t x). naive_solver lia.
  - intros t x Hx. rewrite Hall. specialize (HD t x). specialize (HG t x). specialize (SM t x).
    destruct (decide (x <= fl_end f)); [split; [naive_solver lia | intros ->; right; left; split; [done | lia]] |].
    assert (has G t x <-> t = fl_type rq) as -> by (apply SM; lia). naive_solver lia.
Qed.

(** A lock of another type that reaches past the request on both sides is split. *)
Lemma finish_split_case f G D ws :
  Forall (lock_of (fl_owner rq)) (D ++ f :: G) -> ordered (-1) (D ++ f :: G) ->
  fl_type f <> fl_type rq -> fl_start f < fl_start rq -> fl_end rq < fl_end f ->
  walked (walk_own ((f :: G) ++ b) (a ++ D) rq false None ws) ->
  exists G', (finish (walk_own ((f :: G) ++ b) (a ++ D) rq false None ws) n1 n2).1 = a ++ G' ++ b /\
    outcome rq (D ++ f :: G) G'.
Proof.
  intros Lk O Et Hs He. pose proof V as [P T [Hr Hm]].
  pose proof Lk as Lk'. apply Forall_app in Lk' as [LD Lf]. pose proof (Forall_inv Lf) as Lof.
  apply lock_of_cons in Lf as (Ho & Tf & Ef & LG). destruct (ordered_tail _ _ _ _ O) as (OD & OG & BD).
  pose proof (ordered_lt _ _ _ _ O) as O1.
  assert (walk_own ((f :: G) ++ b) (a ++ D) rq false None ws =
          mk_walk (a ++ D) (f :: G ++ b) rq (is_unlck rq) (Some (fl_id f)) (Some (fl_id f)) ws) as ->.
  { cbn [walk_own app]. unfold posix_same_owner. rewrite Ho, !Z.eqb_refl. cbn [negb].
    destruct (Z.eqb_spec (fl_type rq) (fl_type f)); [congruence |].
    destruct (Z.ltb_spec (fl_end f) (fl_start rq)); [lia |]. destruct (Z.ltb_spec (fl_end rq) (fl_start f)); [lia |].
    destruct (Z.ltb_spec (fl_start f) (fl_start rq)); [| lia]. destruct (Z.ltb_spec (fl_end rq) (fl_end f)); [| lia].
    unfold is_unlck. by destruct (fl_type rq =? F_UNLCK). }
  intros (Nw & F1 & F2). cbn [passed ahead] in *.
  set (l := cutl (fl_start rq) (locks_copy_lock n2 f)). set (r := cutr (fl_end rq) f).
  set (m := inserted rq (is_unlck rq) n1).
  exists ((D ++ [l]) ++ m ++ r :: G). split.
  { rewrite finish_split by (done || lia). by rewrite <- !app_assoc. }
  assert (forall t x, has D t x -> x < fl_start f) as HD by (intros t x; by apply below_has).
  assert (forall t x, has G t x -> fl_end f < x) as HG by (intros t x; by apply ordered_has).
  assert (lock_of (fl_owner rq) l) as Ll by (destruct Lof; split; simpl; auto; lia).
  assert (stands_for rq rq) as St by by split.
  pose proof (middle rq rq (is_unlck rq) n1 V St) as Mid.
  replace (in_list rq (is_unlck rq) ++ inserted rq (is_unlck rq) n1) with m in Mid
    by (unfold m, in_list, inserted; by destruct (is_unlck rq)).
  apply (outcome_build _ _ _ _ _ (fl_start rq) (fl_end rq)); try done; try lia.
  - apply Forall_app. split; [apply Forall_app; split; [done | by constructor] |]. apply Forall_app.
    split; [destruct Mid as [[_ ->] | (_ & g & -> & _ & _ & _ & Lg)]; constructor; [by apply Lg | done] |].
    constructor; [by apply cutr_lock | done].
  - apply (ordered_join _ (fl_start f)); [done | done | lia |]. split; [simpl; lia |]. split; [simpl; lia | done].
  - apply Forall_app. split; [| constructor; [simpl; lia | done]]. eapply Forall_impl; [exact BD |]. simpl. intros. lia.
  - split; [simpl; lia |]. split; [simpl; lia | done].
  - destruct Mid as [[U ->] | (U & g & -> & Tg & Sg & Eg & _)]; [left | right]; eauto 10.
  - intros t x. rewrite !has_app, !has_cons. unfold covers. simpl. pose proof (has_nil t x). specialize (HD t x). specialize (HG t x).
    naive_solver lia.
  - intros t x. rewrite !has_app, !has_cons. unfold covers. simpl. specialize (HD t x). specialize (HG t x). naive_solver lia.
Qed.

Lemma walk_finish : forall G D ws,
  Forall (lock_of (fl_owner rq)) (D ++ G) -> ordered (-1) (D ++ G) -> below (fl_start rq) D ->
  NoDup (ids ((a ++ D) ++ G ++ b)) -> fl_id rq ∉ ids ((a ++ D) ++ G ++ b) -> no_same rq G ->
  walked (walk_own (G ++ b) (a ++ D) rq false None ws) ->
  exists G', (finish (walk_own (G ++ b) (a ++ D) rq false None ws) n1 n2).1 = a ++ G' ++ b /\ outcome rq (D ++ G) G'.
Proof.
  induction G as [| f G IH]; intros D ws Lk O BD N Fr Hx W; pose proof V as [P T [Hr Hm]].
  { pose proof (finish_rest [] D None ws false) as FR. simpl in FR. rewrite !app_nil_r in *. apply FR; try done.
    by rewrite ids_app, not_elem_of_app in Fr; destruct Fr. }
  assert (fl_id rq ∉ ids (a ++ D)) as Fr'. { rewrite ids_app, not_elem_of_app in Fr. by destruct Fr. }
  assert ((a ++ D ++ [f]) ++ G ++ b = (a ++ D) ++ (f :: G) ++ b) as Eq by by rewrite <- !app_assoc.
  destruct (ordered_tail _ _ _ _ O) as (OD & OG & BDf). pose proof (ordered_lt _ _ _ _ O) as O1.
  destruct (decide (fl_start rq <= fl_start f)) as [Hs | Hs].
  { pose proof (finish_rest (f :: G) D None ws false) as FR. simpl in FR. rewrite !app_nil_r in *. apply FR; try done.
    split; [lia |]. split; [lia | done]. }
  pose proof Lk as Lk'. apply Forall_app in Lk' as [LD Lf]. apply lock_of_cons in Lf as (Ho & Tf & Ef & LG).
  assert (walk_own ((f :: G) ++ b) (a ++ D) rq false None ws = walk_own (G ++ b) (a ++ D ++ [f]) rq false None ws ->
    fl_end f < fl_start rq ->
    exists G', (finish (walk_own ((f :: G) ++ b) (a ++ D) rq false None ws) n1 n2).1 = a ++ G' ++ b /\ outcome rq (D ++ f :: G) G') as Skip.
  { intros Ew He. rewrite Ew in W |- *. replace (D ++ f :: G) with ((D ++ [f]) ++ G) in * by by rewrite <- app_assoc.
    apply IH; try done.
    - apply Forall_app. split; [done | by repeat constructor].
    - by rewrite Eq.
    - by rewrite Eq.
    - intros Em. apply Hx in Em. by apply Forall_cons in Em as [_ ?]. }
  destruct (decide (fl_type f = fl_type rq)) as [Et | Et].
  - destruct (decide (fl_end f < fl_start rq - 1)) as [He | He].
    + apply Skip; [| lia]. cbn [walk_own app]. unfold posix_same_owner. rewrite Ho, Et, !Z.eqb_refl. cbn [negb].
      rewrite loff_small by (unfold OFFSET_MAX in *; lia). rewrite (proj2 (Z.ltb_lt _ _) He). by rewrite <- app_assoc.
    + apply finish_merge; try done; try lia. destruct (decide (fl_end rq = OFFSET_MAX)) as [Em |]; [| lia].
      apply Hx, Forall_inv in Em. specialize (Em Et). lia.
  - destruct (decide (fl_end f < fl_start rq)) as [He | He].
    + apply Skip; [| done]. cbn [walk_own app]. unfold posix_same_owner. rewrite Ho, !Z.eqb_refl. cbn [negb].
      destruct (Z.eqb_spec (fl_type rq) (fl_type f)); [congruence |]. rewrite (proj2 (Z.ltb_lt _ _) He). by rewrite <- app_assoc.
    + destruct (decide (fl_end rq < fl_end f)); [apply finish_split_case; try done; lia |].
      assert (walk_own ((f :: G) ++ b) (a ++ D) rq false None ws =
              walk_own (G ++ b) (a ++ D ++ option_list (Some f)) rq (is_unlck rq) (fl_id <$> Some f) ws) as Ew.
      { cbn [walk_own app]. unfold posix_same_owner. rewrite Ho, !Z.eqb_refl. cbn [negb].
        destruct (Z.eqb_spec (fl_type rq) (fl_type f)); [congruence |].
        destruct (Z.ltb_spec (fl_end f) (fl_start rq)); [lia |]. destruct (Z.ltb_spec (fl_end rq) (fl_start f)); [lia |].
        destruct (Z.ltb_spec (fl_start f) (fl_start rq)); [| lia]. destruct (Z.ltb_spec (fl_end rq) (fl_end f)); [lia |].
        destruct (Z.leb_spec (fl_start rq) (fl_start f)); [lia |]. rewrite <- app_assoc. unfold is_unlck.
        by destruct (fl_type rq =? F_UNLCK). }
      rewrite Ew in W |- *. pose proof (finish_rest G D (Some f) ws (is_unlck rq)) as FR. simpl in FR. apply FR; try done.
      * eapply ordered_weaken, OG. lia.
      * intros g [= <-]. split; [lia |]. split; [lia | done].
      * by rewrite Eq.
      * by rewrite <- Eq, ids_app, not_elem_of_app in Fr; destruct Fr.
      * intros Em. apply Hx in Em. by apply Forall_cons in Em as [_ ?].
Qed.
End Walk.

(** ** The whole list *)

(** The record locks, one group per owner. *)
Definition grouped (p : list file_lock) : Prop :=
  exists gs : list (Z * list file_lock),
    p = concat (snd <$> gs) /\ NoDup (fst <$> gs) /\ forall o g, (o, g) ∈ gs -> group o g.

(** The locks of a file: those that are not record locks first. *)
Definition list_ok (l : list file_lock) : Prop :=
  NoDup (ids l) /\ exists h p, l = h ++ p /\ nonposix h /\ grouped p.

Definition others (o : Z) (l : list file_lock) : Prop := Forall (fun f => fl_owner f <> o) l.

Lemma group_posix o g f : group o g -> f ∈ g -> lock_of o f /\ 0 <= fl_start f.
Proof.
  intros [L O] Hf. split; [by eapply Forall_forall |]. apply list_elem_of_split in Hf as (A & B & ->).
  apply ordered_lt in O. lia.
Qed.

Lemma groups_others o (gs : list (Z * list file_lock)) :
  (forall o g, (o, g) ∈ gs -> group o g) -> o ∉ (fst <$> gs) -> others o (concat (snd <$> gs)).
Proof.
  intros Hg Ho. apply Forall_forall. intros f (g & Hgf & Hf)%list_elem_of_In%in_concat.
  apply list_elem_of_In in Hgf, Hf.
  apply list_elem_of_fmap in Hgf as ([o' g'] & -> & Hin). simpl in Hf.
  destruct (group_posix o' g' f (Hg _ _ Hin) Hf) as [[<- _ _ _] _]. intros <-. apply Ho.
  by apply (list_elem_of_fmap_2 fst gs (fl_owner f, g')).
Qed.

Lemma grouped_snoc (gs : list (Z * list file_lock)) o :
  NoDup (fst <$> gs) -> (forall o g, (o, g) ∈ gs -> group o g) -> o ∉ (fst <$> gs) ->
  exists a g b, concat (snd <$> gs) = a ++ g ++ b /\ group o g /\ others o a /\ others o b /\ (g = [] -> b = []) /\
  (forall g', group o g' -> grouped (a ++ g' ++ b)).
Proof.
  intros N Hg Hin. exists (concat (snd <$> gs)), [], []. rewrite app_nil_r. split; [done |].
  split; [by split; [constructor |] |]. split; [by apply groups_others |]. split; [constructor |]. split; [done |].
  intros g' G'. rewrite app_nil_r. exists (gs ++ [(o, g')]). rewrite !fmap_app, !concat_app. simpl. rewrite app_nil_r.
  split; [done |]. split.
  - apply NoDup_app. split; [done |]. split; [| apply NoDup_singleton]. by intros i Hi ->%list_elem_of_singleton.
  - intros o1 g'' Hin'. rewrite elem_of_app, list_elem_of_singleton in Hin'. destruct Hin' as [? | [= -> ->]]; auto.
Qed.

(** The owner's group, and putting another one in its place. *)
Lemma split_group p o : grouped p -> exists a g b,
  p = a ++ g ++ b /\ group o g /\ others o a /\ others o b /\ (g = [] -> b = []) /\
  (forall g', group o g' -> grouped (a ++ g' ++ b)).
Proof.
  intros (gs & -> & N & Hg). destruct (decide (o ∈ fst <$> gs)) as [Hin | Hin]; [| by apply grouped_snoc].
  apply list_elem_of_fmap in Hin as ([o' g] & -> & Hin). simpl. apply list_elem_of_split in Hin as (g1 & g2 & ->).
  rewrite fmap_app, fmap_cons in N. rewrite fmap_app, fmap_cons, concat_app. simpl in N |- *.
  assert (o' ∉ (fst <$> g1 ++ g2) /\ NoDup (fst <$> g1 ++ g2)) as (N1 & N12).
  { rewrite <- Permutation_middle in N. apply NoDup_cons in N as [N ?]. by rewrite fmap_app. }
  assert (forall o g, (o, g) ∈ g1 ++ g2 -> group o g) as Hg'.
  { intros o1 g' Hin. apply Hg. rewrite elem_of_app, elem_of_cons. apply elem_of_app in Hin. tauto. }
  destruct g as [| f g].
  { pose proof (grouped_snoc (g1 ++ g2) o' N12 Hg' N1) as Sn. by rewrite fmap_app, concat_app in Sn. }
  assert (others o' (concat (snd <$> g1 ++ g2))) as H12 by by apply groups_others.
  rewrite fmap_app, concat_app in H12. apply Forall_app in H12 as [H1 H2].
  exists (concat (snd <$> g1)), (f :: g), (concat (snd <$> g2)). split; [done |].
  split; [apply Hg; rewrite elem_of_app; right; by left |]. split; [done |]. split; [done |]. split; [done |].
  intros g' G'. exists (g1 ++ (o', g') :: g2). rewrite !fmap_app, !fmap_cons, concat_app. split; [done |]. split; [done |].
  intros o1 g'' Hin. apply elem_of_app in Hin. rewrite elem_of_cons in Hin.
  destruct Hin as [? | [[= -> ->] | ?]]; [| done |]; apply Hg'; rewrite elem_of_app; auto.
Qed.

Lemma grouped_good p : grouped p -> Forall (good (fun _ _ _ => True)) p.
Proof.
  intros (gs & -> & _ & Hg). apply Forall_forall. intros f (g & Hgf & Hf)%list_elem_of_In%in_concat.
  apply list_elem_of_In in Hgf, Hf. apply list_elem_of_fmap in Hgf as ([o g'] & -> & Hin).
  destruct (group_posix o g' f (Hg _ _ Hin) Hf) as [[? ? ? ?] ?]. by split.
Qed.

Lemma skip_to_group rq a g b :
  others (fl_owner rq) a -> group (fl_owner rq) g -> (g = [] -> b = []) -> skip_others rq (a ++ g ++ b) = (a, g ++ b).
Proof.
  intros Ha Hg Hb. induction Ha as [| f a Hf _ IH]; simpl.
  - destruct g as [| f g]; [by rewrite (Hb eq_refl) |]. destruct (group_posix _ _ f Hg ltac:(by left)) as [[Ho Hp _ _] _].
    simpl. unfold posix_same_owner. by rewrite Ho, Hp, Z.eqb_refl.
  - rewrite IH. unfold posix_same_owner. destruct (Z.eqb_spec (fl_owner rq) (fl_owner f)); [congruence |]. by rewrite orb_true_r.
Qed.

Lemma others_head o b : others o b -> other_head o b.
Proof. intros H f Hf. destruct b; [done |]. injection Hf as ->. by apply Forall_inv in H. Qed.

(** The group of the owner is replaced by what was asked for. *)
Lemma applied_outcome rq n1 n2 a g b ws :
  valid_request rq -> grouped (a ++ g ++ b) -> group (fl_owner rq) g -> others (fl_owner rq) a -> others (fl_owner rq) b ->
  (g = [] -> b = []) -> NoDup (ids (a ++ g ++ b)) -> fresh (a ++ g ++ b) [fl_id rq; n1; n2] -> no_same rq g ->
  exists g', applied rq n1 n2 (a ++ g ++ b) ws = a ++ g' ++ b /\ outcome rq g g'.
Proof.
  intros V Gr Gg Oa Ob Hgb N [Nn Fn] Hx. apply grouped_good in Gr as Go.
  apply Forall_cons in Fn as [F0 Fn]. apply Forall_cons in Fn as [F1 Fn]. apply Forall_inv in Fn as F2.
  assert (n1 <> n2) as H12. { apply NoDup_cons in Nn as [_ Nn]. apply NoDup_cons in Nn as [Nn _]. set_solver. }
  pose proof (walk_ok_start (fun _ _ _ => True) rq _ Go N (valid_good _ _ V (fun _ _ _ => I))) as W.
  apply (walk_own_good _ _ _ _ _ _ false None ws) in W. rewrite <- skip_others_app in W.
  rewrite applied_eq. rewrite skip_to_group in * by done. cbn [fst snd] in *.
  destruct (walk_finish a b rq n1 n2 V (others_head _ _ Ob) H12 g [] ws) as (g' & Ef & Oc); rewrite ?app_nil_r in *; simpl;
    try done; [by destruct Gg | by destruct Gg | constructor | | eauto].
  destruct W as [_ _ _ Nw I _ _ _ _ _]. split; [done |]. split; intros H%I; done.
Qed.

(** ** The specification *)

(** No other owner holds a lock that is in the way. *)
Definition compatible (l : list file_lock) (rq : file_lock) : Prop :=
  fl_type rq = F_UNLCK \/
  forall o t x, granted l o t x -> o <> fl_owner rq -> asked rq x -> t = F_RDLCK /\ fl_type rq = F_RDLCK.

(** The owner holds no lock of the requested type next to or inside a request that
    extends to the largest offset. *)
Definition no_adjoining (l : list file_lock) (rq : file_lock) : Prop :=
  fl_end rq = OFFSET_MAX ->
  forall f, f ∈ l -> IS_POSIX f = true -> fl_owner f = fl_owner rq -> fl_type f = fl_type rq -> fl_end f < fl_start rq - 1.

Lemma list_ok_lock l f : list_ok l -> f ∈ l -> IS_POSIX f = true ->
  (fl_type f = F_RDLCK \/ fl_type f = F_WRLCK) /\ fl_start f <= fl_end f.
Proof.
  intros (_ & h & p & -> & Hh & (gs & -> & _ & Hg)) Hf P. apply elem_of_app in Hf as [Hf | Hf].
  { pose proof (proj1 (Forall_forall _ _) Hh f Hf) as Hn. simpl in Hn. congruence. }
  apply list_elem_of_In, in_concat in Hf as (g & Hgf & Hf). apply list_elem_of_In in Hgf, Hf.
  apply list_elem_of_fmap in Hgf as ([o g'] & -> & Hin). pose proof (Hg _ _ Hin) as G.
  destruct (group_posix _ _ f G Hf) as [[_ _ Ht _] _]. split; [done |]. destruct G as [_ O].
  apply list_elem_of_split in Hf as (A & B & E). simpl in E. rewrite E in O. apply ordered_lt in O. lia.
Qed.

Lemma compatible_find l rq : list_ok l -> valid_request rq -> fl_type rq <> F_UNLCK ->
  compatible l rq <->
  find (fun fl => if negb (IS_POSIX fl) then false else posix_locks_conflict rq fl) l = None.
Proof.
  intros Ok [P T [Hr Hm]] U. split.
  - intros [? | C]; [done |]. destruct (find _ l) as [f |] eqn:F; [| done]. exfalso. apply find_some in F as [Hf F].
    apply list_elem_of_In in Hf. destruct (IS_POSIX f) eqn:Pf; simpl in F; [| done].
    destruct (list_ok_lock l f Ok Hf Pf) as [Tf Rf]. unfold posix_locks_conflict, posix_same_owner, locks_overlap, locks_conflict in F.
    rewrite Pf in F. simpl in F. destruct (Z.eqb_spec (fl_owner rq) (fl_owner f)) as [| Ho]; [done |].
    destruct (Z.leb_spec (fl_start f) (fl_end rq)), (Z.leb_spec (fl_start rq) (fl_end f)); simpl in F; try done.
    destruct (C (fl_owner f) (fl_type f) (Z.max (fl_start rq) (fl_start f))) as [E1 E2].
    + exists f. unfold covers. repeat split; try done; lia.
    + congruence.
    + unfold asked. lia.
    + by rewrite E1, E2 in F.
  - intros F. right. intros o t x Hg Ho Hx. destruct (no_conflict rq l o t x F Hg Hx Ho) as [N1 N2].
    destruct Hg as (f & Hf & Pf & _ & <- & _). destruct (list_ok_lock l f Ok Hf Pf) as [[|] _]; [| done]. split; [done | tauto].
Qed.

Lemma granted_group a g b o t x :
  group o g -> others o a -> others o b -> granted (a ++ g ++ b) o t x <-> has g t x.
Proof.
  intros Gg Oa Ob. split.
  - intros (f & Hf & _ & Ho & Ht & Hc). exists f. split; [| done]. rewrite !elem_of_app in Hf.
    destruct Hf as [Hf | [Hf | Hf]]; [| done |]; exfalso.
    + by apply (proj1 (Forall_forall _ _) Oa f Hf).
    + by apply (proj1 (Forall_forall _ _) Ob f Hf).
  - intros (f & Hf & Ht & Hc). destruct (group_posix o g f Gg Hf) as [[Ho Hp _ _] _]. exists f.
    rewrite !elem_of_app. auto.
Qed.

Lemma granted_others a g g' b o o' t x :
  group o g -> group o g' -> o' <> o -> granted (a ++ g ++ b) o' t x <-> granted (a ++ g' ++ b) o' t x.
Proof.
  assert (forall g g', group o g -> o' <> o -> granted (a ++ g ++ b) o' t x -> granted (a ++ g' ++ b) o' t x) as H.
  { intros g1 g2 G1 Ho (f & Hf & P & E & ?). exists f. split; [| done]. rewrite !elem_of_app in *.
    destruct Hf as [? | [Hf | ?]]; [auto | | auto]. destruct (group_posix o g1 f G1 Hf) as [[E' _ _ _] _]. congruence. }
  intros. split; by apply H.
Qed.

Lemma apply_lock_spec rq n1 n2 st :
  list_ok (i_flock st) -> valid_request rq -> fresh (i_flock st) [fl_id rq; n1; n2] -> no_adjoining (i_flock st) rq ->
  list_ok (i_flock (apply_lock rq n1 n2 st)) /\
  forall o t x, granted (i_flock (apply_lock rq n1 n2 st)) o t x <->
    if decide (o = fl_owner rq /\ asked rq x) then t = fl_type rq /\ t <> F_UNLCK else granted (i_flock st) o t x.
Proof.
  destruct st as [l ws]. intros [N (h & p & E & Hh & Gp)] V Fr Hx. cbn [i_flock] in *. subst l.
  change (i_flock (apply_lock _ _ _ _)) with (applied rq n1 n2 (h ++ p) ws).
  destruct (split_group p (fl_owner rq) Gp) as (a & g & b & -> & Gg & Oa & Ob & Hgb & Hup).
  pose proof Fr as [Nn Fn]. rewrite ids_app in N. pose proof N as N'. apply NoDup_app in N' as (Nh & D & Np).
  assert (forall i, i ∈ [fl_id rq; n1; n2] -> i ∉ ids h /\ i ∉ ids (a ++ g ++ b)) as Fn'.
  { intros i Hi. pose proof (proj1 (Forall_forall _ _) Fn i Hi) as H. simpl in H. by rewrite ids_app, not_elem_of_app in H. }
  assert (fresh (a ++ g ++ b) [fl_id rq; n1; n2]) as Fr' by (split; [done |]; apply Forall_forall; intros i Hi; by apply Fn').
  pose proof (Fn' (fl_id rq) ltac:(set_solver)) as [F0 F0']. pose proof (Fn' n1 ltac:(set_solver)) as [F1 F1'].
  pose proof (Fn' n2 ltac:(set_solver)) as [F2 F2']. pose proof (grouped_good _ Gp) as Go.
  pose proof (valid_good (fun _ _ _ => True) _ V (fun _ _ _ => I)) as Rq.
  assert (n1 <> n2) as H12. { apply NoDup_cons in Nn as [_ Nn]. apply NoDup_cons in Nn as [Nn _]. clear -Nn. set_solver. }
  rewrite (applied_heads _ _ _ _ _ _ _ Hh Go ltac:(by rewrite ids_app) Rq) by done.
  destruct (applied_good _ rq n1 n2 _ ws Go Np Rq F1' F2' H12) as (_ & Na & Ia).
  destruct (applied_outcome rq n1 n2 a g b ws) as (g' & Ea & [Gg' Oi Oo]); try done.
  { intros Em. apply Forall_forall. intros f Hf Ht. destruct (group_posix _ _ f Gg Hf) as [[Ho Hp _ _] _].
    apply Hx; try done. rewrite !elem_of_app. auto. }
  rewrite Ea in *. split.
  - split; [| exists h, (a ++ g' ++ b); auto]. rewrite ids_app. apply NoDup_app. split; [done |]. split; [| done].
    intros i Hi Ha%Ia. apply elem_of_cons in Ha as [-> | [-> | Ha]%elem_of_cons]; [done | done | by apply (D i)].
  - intros o t x. rewrite (granted_heads h (a ++ g' ++ b)) by done. case_decide as Hd.
    + destruct Hd as [-> Hd]. rewrite granted_group by done. by apply Oi.
    + rewrite (granted_heads h (a ++ g ++ b)) by done. destruct (decide (o = fl_owner rq)) as [-> | Ho]; [| by apply (granted_others a g' g b (fl_owner rq))].
      rewrite !granted_group by done. apply Oo. tauto.
Qed.

(** The last branch of [__posix_lock_file], with the structures allocated in advance. *)
Lemma alloc_apply_spec rq new1 new2 st :
  list_ok (i_flock st) -> valid_request rq ->
  fresh (i_flock st) (fl_id rq :: option_list new1 ++ option_list new2) -> no_adjoining (i_flock st) rq ->
  let res := match new1, new2 with Some n1, Some n2 => Some (0, apply_lock rq n1 n2 st) | _, _ => Some (- ENOLCK, st) end in
  if decide (is_Some new1 /\ is_Some new2) then
    exists st', res = Some (0, st') /\ list_ok (i_flock st') /\
      forall o t x, granted (i_flock st') o t x <->
        if decide (o = fl_owner rq /\ asked rq x) then t = fl_type rq /\ t <> F_UNLCK else granted (i_flock st) o t x
  else res = Some (- ENOLCK, st).
Proof.
  intros Ok V Fr Hx. case_decide as Hn.
  - destruct Hn as [[n1 ->] [n2 ->]]. eexists. split; [done |]. by apply apply_lock_spec.
  - destruct new1, new2; try done. by destruct Hn.
Qed.

(** C8. What [__posix_lock_file] does with a well-formed request, unless the request
    extends to the largest offset and the owner already holds a lock of the requested
    type in it or next to it ([no_adjoining]; see [whole_file_lock_not_merged]), on a
    list in which every owner's locks are ordered and without overlap, which all
    requests but these keep it ([reachable_list_ok]).
    When no other owner's lock is in the way: with FL_ACCESS it only returns 0; when
    one of the two allocations in advance failed it returns [ENOLCK] and changes
    nothing; otherwise it returns 0, the owner then holds what it asked for on every
    byte of the range (nothing, for an unlock) and on every other byte exactly what it
    held before, the other owners' locks are unchanged, and every owner's locks stay
    ordered and without overlap. When a lock is in the way: without FL_SLEEP it returns
    [EAGAIN] and changes nothing; with FL_SLEEP it returns [EDEADLK] and changes
    nothing, or [EAGAIN] and leaves the locks as they are, with the request waiting for
    the lock that is in the way. *)
Theorem posix_lock_spec rq new1 new2 st :
  list_ok (i_flock st) -> valid_request rq ->
  fresh (i_flock st) (fl_id rq :: option_list new1 ++ option_list new2) ->
  no_adjoining (i_flock st) rq ->
  (compatible (i_flock st) rq ->
   if has_flag rq FL_ACCESS then __posix_lock_file rq new1 new2 st = Some (0, st)
   else if decide (is_Some new1 /\ is_Some new2) then
     exists st', __posix_lock_file rq new1 new2 st = Some (0, st') /\ list_ok (i_flock st') /\
       forall o t x, granted (i_flock st') o t x <->
         if decide (o = fl_owner rq /\ fl_start rq <= x <= fl_end rq) then t = fl_type rq /\ t <> F_UNLCK
         else granted (i_flock st) o t x
   else __posix_lock_file rq new1 new2 st = Some (- ENOLCK, st)) /\
  (~ compatible (i_flock st) rq ->
   if has_flag rq FL_SLEEP then
     forall r st', __posix_lock_file rq new1 new2 st = Some (r, st') ->
       r = - EDEADLK /\ st' = st \/
       r = - EAGAIN /\ exists fl, fl ∈ i_flock st /\ posix_locks_conflict rq fl = true /\
         st' = mk_lst (i_flock st) (locks_insert_block fl rq (waits st))
   else __posix_lock_file rq new1 new2 st = Some (- EAGAIN, st)).
Proof.
  intros Ok V Fr Hx. unfold __posix_lock_file.
  destruct (Z.eqb_spec (fl_type rq) F_UNLCK) as [U | U]; cbn [negb].
  - split; [| intros []; by left]. intros _. destruct (has_flag rq FL_ACCESS); [done | by apply alloc_apply_spec].
  - rewrite (compatible_find _ _ Ok V U). split.
    + intros ->. destruct (has_flag rq FL_ACCESS); [done | by apply alloc_apply_spec].
    + destruct (find _ _) as [fl |] eqn:E; [| done]. intros _. destruct (has_flag rq FL_SLEEP); cbn [negb]; [| done].
      intros r st'. destruct (posix_locks_deadlock _ _ _) as [[] |]; cbn [mbind option_bind]; [| | done]; intros [= <- <-]; [by left | right].
      apply find_some in E as [Hin Hc]. split; [done |]. exists fl. rewrite list_elem_of_In. split; [done |].
      destruct (IS_POSIX fl); done.
Qed.

(** *** The shape of the list is kept by every operation *)

Lemma ordered_sublist G' G : G' `sublist_of` G -> forall lo, ordered lo G -> ordered lo G'.
Proof.
  induction 1 as [| f G' G _ IH | f G' G _ IH]; intros lo; simpl; [done | intros (? & ? & ?); auto |].
  intros (? & ? & O). apply IH in O. eapply ordered_weaken, O. lia.
Qed.

Lemma group_sublist o g g' : g' `sublist_of` g -> group o g -> group o g'.
Proof. intros S [L O]. split; [eapply Forall_subset, sublist_subseteq, S; done | by eapply ordered_sublist]. Qed.

Lemma grouped_sublist p p' : p' `sublist_of` p -> grouped p -> grouped p'.
Proof.
  intros S (gs & -> & N & Hg). revert p' S N Hg. induction gs as [| [o g] gs IH]; simpl; intros p' S N Hg.
  { apply sublist_nil_r in S as ->. by exists []. }
  apply sublist_app_r in S as (g' & q & -> & Sg & Sq). apply NoDup_cons in N as [No N].
  assert (exists gs', q = concat (snd <$> gs') /\ (fst <$> gs') = (fst <$> gs) /\ forall o g, (o, g) ∈ gs' -> group o g) as (gs' & -> & Ef & Hg').
  { clear IH No N g' Sg. revert q Sq. induction gs as [| [o1 g1] gs IH]; simpl; intros q Sq.
    - apply sublist_nil_r in Sq as ->. exists []. split; [done |]. split; [done |]. by intros ? ? ?%elem_of_nil.
    - apply sublist_app_r in Sq as (g1' & q' & -> & Sg1 & Sq'). destruct (IH ltac:(set_solver) q' Sq') as (gs' & -> & Ef & Hg').
      exists ((o1, g1') :: gs'). split; [done |]. rewrite !fmap_cons, Ef. split; [done |]. intros o2 g2 [[= -> ->] | ?]%elem_of_cons; [| auto].
      eapply group_sublist; [done |]. apply Hg. right. by left. }
  exists ((o, g') :: gs'). split; [done |]. rewrite fmap_cons, Ef. split; [by apply NoDup_cons |].
  intros o2 g2 [[= -> ->] | ?]%elem_of_cons; [| auto]. eapply group_sublist; [done |]. apply Hg. by left.
Qed.

Lemma list_ok_sublist l l' : l' `sublist_of` l -> list_ok l -> list_ok l'.
Proof.
  intros S [N (h & p & -> & Hh & G)]. split.
  - eapply sublist_NoDup; [exact N |]. clear -S. unfold ids. induction S; rewrite ?fmap_cons; by constructor.
  - apply sublist_app_r in S as (h' & p' & -> & Sh & Sp). exists h', p'. split; [done |].
    split; [eapply Forall_subset, sublist_subseteq, Sh; done | by eapply grouped_sublist].
Qed.

Lemma list_ok_cons n l : IS_POSIX n = false -> fresh l [fl_id n] -> list_ok l -> list_ok (n :: l).
Proof.
  intros P [_ F] [N (h & p & -> & Hh & G)]. split; [apply NoDup_cons; split; [by apply Forall_inv in F | done] |].
  exists (n :: h), p. split; [done |]. split; [by constructor | done].
Qed.

(** As long as no request to the largest offset adjoins a lock of its type. *)
Lemma reachable_list_ok st : rtc (lock_step no_adjoining) (mk_lst [] []) st -> list_ok (i_flock st).
Proof.
  intros H. remember (mk_lst [] []) as s0 eqn:E0.
  assert (list_ok (i_flock s0)) as Ok.
  { subst s0. split; [constructor |]. exists [], []. split; [done |]. split; [constructor |]. exists [].
    split; [done |]. split; [constructor |]. by intros ? ? ?%elem_of_nil. }
  clear E0. induction H as [| ? ? ? St _ IH]; [done |]. apply IH.
  apply lock_step_list in St as [(rq & n1 & n2 & V & A & F & _ & ->) | [(n & P & F & ->) | S]].
  - by apply apply_lock_spec.
  - by apply list_ok_cons.
  - by eapply list_ok_sublist.
Qed.

(** *** Examples *)

Definition ex_list : list file_lock := [ex_lock 1 1 F_RDLCK 10 20; ex_lock 2 2 F_RDLCK 30 40].

Lemma ex_list_ok : list_ok ex_list.
Proof.
  split; [apply (bool_decide_unpack _); vm_compute; exact I |]. exists [], ex_list. split; [done |]. split; [constructor |].
  exists [(1, [ex_lock 1 1 F_RDLCK 10 20]); (2, [ex_lock 2 2 F_RDLCK 30 40])]. split; [done |].
  split; [apply (bool_decide_unpack _); vm_compute; exact I |].
  intros o g [[= -> ->] | [[= -> ->] | []%elem_of_nil]%elem_of_cons]%elem_of_cons.
  - split; [repeat constructor; simpl; unfold OFFSET_MAX; auto; lia | simpl; lia].
  - split; [repeat constructor; simpl; unfold OFFSET_MAX; auto; lia | simpl; lia].
Qed.

Lemma posix_lock_spec_witness :
  exists st', __posix_lock_file (ex_lock 9 1 F_WRLCK 15 16) (Some 11%nat) (Some 12%nat) (mk_lst ex_list []) = Some (0, st') /\
    list_ok (i_flock st') /\
    forall o t x, granted (i_flock st') o t x <->
      if decide (o = 1 /\ 15 <= x <= 16) then t = F_WRLCK /\ t <> F_UNLCK else granted ex_list o t x.
Proof.
  apply (posix_lock_spec (ex_lock 9 1 F_WRLCK 15 16) (Some 11%nat) (Some 12%nat) (mk_lst ex_list [])).
  - exact ex_list_ok.
  - split; [done | auto | simpl; unfold OFFSET_MAX; lia].
  - apply fresh_list, (bool_decide_unpack _). vm_compute. exact I.
  - by intros [=].
  - right. intros o t x (f & Hf & _ & <- & _ & Hc) Ho Ha. unfold asked in Ha. simpl in Ha.
    apply elem_of_cons in Hf as [-> | [-> | []%elem_of_nil]%elem_of_cons]; [by destruct Ho |].
    unfold covers in Hc. simpl in Hc. lia.
Defined.

(** [request->fl_end + 1] overflows for a request that extends to the largest offset:
    a lock of the same type inside the request is taken for one after it, and the walk
    stops there. An owner that read-locks the whole file keeps its write lock on
    30-40, although the call succeeds. *)
Lemma whole_file_lock_not_merged :
  __posix_lock_file (ex_lock 9 1 F_RDLCK 0 OFFSET_MAX) (Some 11%nat) (Some 12%nat)
    (mk_lst [ex_lock 1 1 F_RDLCK 10 20; ex_lock 2 1 F_WRLCK 30 40] []) =
  Some (0, mk_lst [ex_lock 11 1 F_RDLCK 0 OFFSET_MAX; ex_lock 1 1 F_RDLCK 10 20; ex_lock 2 1 F_WRLCK 30 40] []).
Proof. vm_compute. reflexivity. Qed.
