(* ===== verification/LockWaits.v ===== *)
(** * Waiting for record locks: fs/locks.c

    Deadlock detection ([posix_locks_deadlock]): it terminates and is exact as long as
    every owner waits for at most one lock, and a request that is made to wait never
    closes a cycle. *)

From stdpp Require Import gmap relations.
From S2P Require Import Prelude FileLocks.

(** ** Deadlocks among the waiting owners *)

(** [o] waits for a record lock of [o']. *)
Definition waits_for (ws : list wait) (o o' : Z) : Prop :=
  exists w, w ∈ ws /\ blocker_posix w = true /\ fl_owner (waiter w) = o /\ blocker_owner w = o'.

(** An owner waits for one lock at a time, and no owners wait for each other. *)
Record wait_ok (ws : list wait) : Prop := {
  wt_one : forall w w', w ∈ ws -> w' ∈ ws -> blocker_posix w = true -> blocker_posix w' = true ->
    fl_owner (waiter w) = fl_owner (waiter w') -> w = w';
  wt_acyclic : forall o, ~ tc (waits_for ws) o o;
}.

Definition idle (o : Z) (ws : list wait) : Prop := forall w, w ∈ ws -> blocker_posix w = true -> fl_owner (waiter w) <> o.

Lemma waits_for_sub ws ws' o o' : ws' ⊆ ws -> waits_for ws' o o' -> waits_for ws o o'.
Proof. intros S (w & Hw & ?). exists w. auto. Qed.

Lemma wait_ok_sub ws ws' : ws' ⊆ ws -> wait_ok ws -> wait_ok ws'.
Proof.
  intros S [W1 W2]. split; [auto |]. intros o H. apply (W2 o). eapply tc_congruence with (f := id); [| exact H].
  intros x y. by apply waits_for_sub.
Qed.

Lemma next_wait ws o : wait_ok ws ->
  match find (fun w => blocker_posix w && (fl_owner (waiter w) =? o)) ws with
  | Some w => waits_for ws o (blocker_owner w) /\ forall o', waits_for ws o o' -> o' = blocker_owner w
  | None => forall o', ~ waits_for ws o o'
  end.
Proof.
  intros [W1 _]. destruct (find _ ws) as [w |] eqn:F.
  - apply find_some in F as [Hw%list_elem_of_In [P E%Z.eqb_eq]%andb_true_iff]. split; [by exists w |].
    intros o' (w' & Hw' & P' & E' & <-). f_equal. apply W1; auto. congruence.
  - intros o' (w & Hw & P & E & _). pose proof (find_none _ _ F w (proj1 (list_elem_of_In _ _) Hw)) as N. simpl in N.
    rewrite P, E, Z.eqb_refl in N. done.
Qed.

Lemma deadlock_loop_exact ws caller : wait_ok ws -> idle caller ws -> forall fuel block seen,
  NoDup seen -> (forall s, s ∈ seen -> (exists o', waits_for ws s o') /\ tc (waits_for ws) s block) ->
  (length ws + 2 <= fuel + length seen)%nat ->
  exists d, deadlock_loop fuel ws caller block = Some d /\ (d = true <-> rtc (waits_for ws) block caller).
Proof.
  intros Ok Id. induction fuel as [| fuel IH]; intros block seen N Hs Hf.
  { exfalso. assert (seen ⊆+ ((fl_owner ∘ waiter) <$> ws)) as Hsub%submseteq_length.
    { apply NoDup_submseteq; [done |]. intros s Hin. destruct (Hs s Hin) as [(o' & w & Hw & _ & <- & _) _].
      by apply (list_elem_of_fmap_2 (fl_owner ∘ waiter)). }
    rewrite length_fmap in Hsub. lia. }
  simpl. destruct (Z.eqb_spec caller block) as [-> | Hne]; [by exists true |].
  pose proof (next_wait ws block Ok) as Nx. destruct (find _ ws) as [w |].
  - destruct Nx as [Hw Hu]. destruct (IH (blocker_owner w) (block :: seen)) as (d & Ed & Hd).
    + apply NoDup_cons. split; [| done]. intros Hin. destruct (Hs _ Hin) as [_ Hc]. by destruct (wt_acyclic _ Ok block).
    + intros s [-> | Hin]%elem_of_cons; [split; [eauto | by apply tc_once] |]. destruct (Hs _ Hin) as [? ?]. split; [done |].
      eapply tc_r; eauto.
    + simpl. lia.
    + exists d. split; [done |]. rewrite Hd. split; [by apply rtc_l |]. intros H. inversion H as [| ? o' ? Hw' Hr]; subst; [done |].
      by rewrite <- (Hu _ Hw').
  - exists false. split; [done |]. split; [done |]. intros H. inversion H as [| ? o' ? Hw' Hr]; subst; [done |]. by destruct (Nx o').
Qed.

Lemma posix_locks_deadlock_exact ws c b : wait_ok ws -> idle (fl_owner c) ws ->
  exists d, posix_locks_deadlock ws c b = Some d /\ (d = true <-> rtc (waits_for ws) (fl_owner b) (fl_owner c)).
Proof. intros Ok Id. apply (deadlock_loop_exact ws _ Ok Id _ _ []); [constructor | by intros ? ?%elem_of_nil | simpl; lia]. Qed.

(** A new edge that closes no cycle. *)
Lemma tc_new_edge (R R' : Z -> Z -> Prop) c b :
  (forall x y, R' x y -> R x y \/ x = c /\ y = b) -> ~ rtc R b c ->
  forall x y, tc R' x y -> tc R x y \/ rtc R x c /\ rtc R b y.
Proof.
  intros H Hn x y. induction 1 as [x y Hxy | x z y Hxz _ IH]; destruct (H _ _ ltac:(eassumption)) as [Hr | [-> ->]].
  - left. by apply tc_once.
  - right. split; apply rtc_refl.
  - destruct IH as [IH | [I1 I2]]; [left; by eapply tc_l | right; split; [by eapply rtc_l | done]].
  - destruct IH as [IH | [I1 I2]]; [right; split; [apply rtc_refl | by apply tc_rtc] | done].
Qed.

Lemma wait_ok_insert ws c b : wait_ok ws -> idle (fl_owner c) ws -> ~ rtc (waits_for ws) (fl_owner b) (fl_owner c) ->
  wait_ok (locks_insert_block b c ws).
Proof.
  intros [W1 W2] Id Hn. unfold locks_insert_block, __locks_delete_block.
  assert (filter (fun x => fl_id (waiter x) <> fl_id c) ws ⊆ ws) as S by (intros w [_ ?]%list_elem_of_filter; done).
  split.
  - intros w w' [-> | Hw]%elem_of_cons [-> | Hw']%elem_of_cons P P' E; try done.
    + by destruct (Id w' (S _ Hw') P').
    + by destruct (Id w (S _ Hw) P).
    + by apply W1; auto.
  - intros o Hc. destruct (tc_new_edge (waits_for ws) (waits_for (mk_wait c (fl_id b) (fl_owner b) (IS_POSIX b) :: filter (fun x => fl_id (waiter x) <> fl_id c) ws))
      (fl_owner c) (fl_owner b)) with (x := o) (y := o) as [H | [H1 H2]]; [| done | done | |].
    + intros x y (w & [-> | Hw]%elem_of_cons & P & E1 & E2); [by right |]. left. exists w. auto.
    + by apply (W2 o).
    + apply Hn. by etrans.
Qed.

(** *** The other ends of waiting *)

Lemma wake_sub i ws : locks_wake_up_blocks i ws ⊆ ws.
Proof. intros w [_ ?]%list_elem_of_filter. done. Qed.

Lemma walk_own_waits : forall rest pd rq add lft ws, wq (walk_own rest pd rq add lft ws) ⊆ ws.
Proof.
  assert (forall i ws (w : walk), wq w ⊆ locks_wake_up_blocks i ws -> wq w ⊆ ws) as Step.
  { intros i ws w H x Hx. by apply (wake_sub i), H. }
  induction rest as [| fl rest IH]; intros pd rq add lft ws; [done |]. cbn [walk_own].
  repeat case_match; first [done | apply IH | eapply Step, IH].
Qed.

Lemma finish_waits w n1 n2 : (finish w n1 n2).2 ⊆ wq w.
Proof.
  unfold finish. repeat (case_match; simplify_eq; simpl); try done; repeat (etrans; [apply wake_sub |]); done.
Qed.

Lemma apply_lock_waits rq n1 n2 st : waits (apply_lock rq n1 n2 st) ⊆ waits st.
Proof.
  unfold apply_lock. destruct (skip_others _ _) as [a b]. pose proof (finish_waits (walk_own b a rq false None (waits st)) n1 n2) as F.
  destruct (finish _ _ _) as [l ws]. simpl in *. etrans; [exact F | apply walk_own_waits].
Qed.

(** C9. As long as an owner waits for one lock at a time, a record lock request
    returns: the search for a deadlock ends. It is refused with [EDEADLK] exactly
    when it would have to wait for an owner that waits, directly or through others,
    for the one who asks; and when it is made to wait, no cycle of waiting owners
    comes about. *)
Theorem posix_lock_no_deadlock rq new_fl new_fl2 st :
  wait_ok (waits st) -> idle (fl_owner rq) (waits st) ->
  exists r st', __posix_lock_file rq new_fl new_fl2 st = Some (r, st') /\ wait_ok (waits st') /\
    (r = - EDEADLK <-> fl_type rq <> F_UNLCK /\ has_flag rq FL_SLEEP = true /\
       exists f, find (fun fl => if negb (IS_POSIX fl) then false else posix_locks_conflict rq fl) (i_flock st) = Some f /\
                 rtc (waits_for (waits st)) (fl_owner f) (fl_owner rq)).
Proof.
  intros Ok Id. unfold __posix_lock_file. destruct (Z.eqb_spec (fl_type rq) F_UNLCK) as [U | U]; cbn [negb].
  2: destruct (find _ (i_flock st)) as [f |].
  2: { destruct (has_flag rq FL_SLEEP); cbn [negb].
       - destruct (posix_locks_deadlock_exact (waits st) rq f Ok Id) as ([] & -> & Hd); simpl; eexists _, _; (split; [done |]); simpl.
         + split; [done |]. split; [intros _ | done]. split; [done |]. split; [done |]. exists f. split; [done | by apply Hd].
         + assert (~ rtc (waits_for (waits st)) (fl_owner f) (fl_owner rq)) as Hn by (intros ?%Hd; done).
           split; [by apply wait_ok_insert |]. split; [done |]. intros (_ & _ & f' & [= <-] & ?). done.
       - eexists _, _. split; [done |]. split; [done |]. split; [done | by intros (_ & ? & _)]. }
  all: destruct (has_flag rq FL_ACCESS), new_fl as [n1 |], new_fl2 as [n2 |]; eexists _, _; (split; [done |]);
    (split; [first [done | eapply wait_ok_sub, Ok; apply apply_lock_waits] |]);
    (split; [done | intros (? & _ & ? & ? & _); done]).
Qed.

Lemma posix_lock_no_deadlock_witness :
  exists r st', __posix_lock_file (ex_wait 9 1 F_WRLCK 50 60) (Some 11%nat) (Some 12%nat)
      (mk_lst [ex_lock 1 1 F_WRLCK 10 20; ex_lock 2 2 F_WRLCK 50 60] [mk_wait (ex_wait 3 2 F_WRLCK 10 20) 1 1 true]) = Some (r, st') /\
    r = - EDEADLK.
Proof.
  destruct (posix_lock_no_deadlock (ex_wait 9 1 F_WRLCK 50 60) (Some 11%nat) (Some 12%nat)
    (mk_lst [ex_lock 1 1 F_WRLCK 10 20; ex_lock 2 2 F_WRLCK 50 60] [mk_wait (ex_wait 3 2 F_WRLCK 10 20) 1 1 true]))
    as (r & st' & E & _ & Hr).
  - split.
    + intros w w' ->%list_elem_of_singleton ->%list_elem_of_singleton. done.
    + assert (forall x y, waits_for [mk_wait (ex_wait 3 2 F_WRLCK 10 20) 1 1 true] x y -> x = 2 /\ y = 1) as H.
      { intros x y (w & ->%list_elem_of_singleton & _ & <- & <-). done. }
      assert (forall x y, tc (waits_for [mk_wait (ex_wait 3 2 F_WRLCK 10 20) 1 1 true]) x y -> x = 2 /\ y = 1) as Ht.
      { intros x y. induction 1 as [x y ?%H | x z y ?%H _ ?]; lia. }
      intros o []%Ht. congruence.
  - intros w ->%list_elem_of_singleton. done.
  - exists r, st'. split; [exact E |]. apply Hr. split; [done |]. split; [done |]. eexists. split; [vm_compute; reflexivity |].
    apply rtc_once. exists (mk_wait (ex_wait 3 2 F_WRLCK 10 20) 1 1 true). split; [by left | done].
Defined.

(** An owner that waits for two locks, as two threads with shared files do: the search
    follows only the last of the waits. Owner 2 waits for owner 1 and for owner 3;
    owner 1 is made to wait for owner 2, a deadlock. *)
Lemma deadlock_missed :
  posix_locks_deadlock
    [mk_wait (ex_wait 5 2 F_WRLCK 70 80) 4 3 true; mk_wait (ex_wait 3 2 F_WRLCK 10 20) 1 1 true]
    (ex_wait 9 1 F_WRLCK 50 60) (ex_lock 2 2 F_WRLCK 50 60) = Some false.
Proof. vm_compute. reflexivity. Qed.

(** And the search need not end: owners 2 and 3 wait for each other through such a
    missed deadlock, and owner 1 asks for a lock of owner 2. *)
Lemma deadlock_search_loops : forall fuel,
  deadlock_loop fuel [mk_wait (ex_wait 5 2 F_WRLCK 70 80) 4 3 true; mk_wait (ex_wait 6 3 F_WRLCK 50 60) 2 2 true] 1 2 = None.
Proof.
  set (ws := [_; _]).
  assert (forall fuel, deadlock_loop fuel ws 1 2 = None /\ deadlock_loop fuel ws 1 3 = None) as H; [| intros fuel; apply H].
  induction fuel as [| fuel [IH1 IH2]]; [done |]. split; [exact IH2 | exact IH1].
Qed.
