(* ===== verification/Timers.v ===== *)
(** * Timers: kernel/timer.c, include/linux/timer-list.h

    The timing wheel of one processor: five vectors of lists, of which the first
    holds the timers of the next 256 ticks and each further one covers 64 times the
    span of the one before. As [timer_jiffies] moves on, the list of a vector whose
    span begins is distributed over the vectors below it ([cascade]).

    The vectors are one map from the number of the vector and the index to the list;
    a timer is known by its address [tid]. It is pending while it is in a list of the
    wheel or in the list [work] of the timers that [__run_timers] is about to call,
    that is while [timer->base] is not [NULL]. Times are 32-bit words that wrap
    around. The configuration is that of one processor without CONFIG_SMP,
    CONFIG_HIGH_RES_TIMERS and CONFIG_VST. *)

From stdpp Require Import gmap sorting.
From S2P Require Import Prelude.

Record timer_list := mk_timer { tid : Z; expires : Z }.

Definition TVN_MASK := 63.
Definition TVR_MASK := 255.

Record tvec_base := mk_base { timer_jiffies : Z; vec : gmap (Z * Z) (list timer_list); work : list timer_list }.

Definition slot (base : tvec_base) (s : Z * Z) : list timer_list := default [] (vec base !! s).
Definition set_slot (s : Z * Z) (l : list timer_list) (base : tvec_base) : tvec_base :=
  mk_base (timer_jiffies base) (<[s := l]> (vec base)) (work base).

Definition time_after_eq (a b : Z) : bool := 0 <=? s32 (a - b).
Definition time_before (a b : Z) : bool := s32 (a - b) <? 0.

Definition init_timers_cpu (jiffies : Z) : tvec_base := mk_base jiffies ∅ [].

(** The list that [internal_add_timer] selects. On 32 bits [idx > 0xffffffff] is
    never true. *)
Definition choose_vec (timer_jiffies expires : Z) : Z * Z :=
  let idx := u32 (expires - timer_jiffies) in
  if idx <? 256 then (1, Z.land expires TVR_MASK)
  else if idx <? 16384 then (2, Z.land (Z.shiftr expires 8) TVN_MASK)
  else if idx <? 1048576 then (3, Z.land (Z.shiftr expires 14) TVN_MASK)
  else if idx <? 67108864 then (4, Z.land (Z.shiftr expires 20) TVN_MASK)
  else if s32 idx <? 0 then (1, Z.land timer_jiffies TVR_MASK)
  else (5, Z.land (Z.shiftr expires 26) TVN_MASK).

Definition internal_add_timer (base : tvec_base) (timer : timer_list) : tvec_base :=
  let s := choose_vec (timer_jiffies base) (expires timer) in
  set_slot s (slot base s ++ [timer]) base.

Definition pending (id : Z) (base : tvec_base) : bool :=
  existsb (fun t => tid t =? id) (work base) ||
  existsb (fun '(_, l) => existsb (fun t => tid t =? id) l) (map_to_list (vec base)).

(** [list_del(&timer->entry)]: from the list the timer is in. *)
Definition list_del (id : Z) (base : tvec_base) : tvec_base :=
  mk_base (timer_jiffies base) (filter (fun t => tid t <> id) <$> vec base) (filter (fun t => tid t <> id) (work base)).

Definition __mod_timer (id e : Z) (base : tvec_base) : Z * tvec_base :=
  let ret := if pending id base then 1 else 0 in
  (ret, internal_add_timer (list_del id base) (mk_timer id e)).

(** [old] is the value of [timer->expires]. *)
Definition mod_timer (id old e : Z) (base : tvec_base) : Z * tvec_base :=
  if (old =? e) && pending id base then (1, base) else __mod_timer id e base.

Definition del_timer (id : Z) (base : tvec_base) : Z * tvec_base :=
  if pending id base then (1, list_del id base) else (0, base).

(** Every timer of the list goes to another list, so clearing it afterwards loses
    none. *)
Definition cascade (n index : Z) (base : tvec_base) : tvec_base :=
  set_slot (n, index) [] (foldl internal_add_timer base (slot base (n, index))).

Definition INDEX (base : tvec_base) (n : Z) : Z := Z.land (Z.shiftr (timer_jiffies base) (8 + n * 6)) TVN_MASK.

(** The conditions of the four [cascade] calls; each returns the index it is given. *)
Definition cascades (base : tvec_base) : tvec_base :=
  if negb (Z.land (timer_jiffies base) TVR_MASK =? 0) then base
  else
    let base := cascade 2 (INDEX base 0) base in
    if negb (INDEX base 0 =? 0) then base
    else
      let base := cascade 3 (INDEX base 1) base in
      if negb (INDEX base 1 =? 0) then base
      else
        let base := cascade 4 (INDEX base 2) base in
        if negb (INDEX base 2 =? 0) then base else cascade 5 (INDEX base 3) base.

(** The first half of an iteration of [__run_timers]: up to [list_splice_init]. *)
Definition start_tick (base : tvec_base) : tvec_base :=
  let index := Z.land (timer_jiffies base) TVR_MASK in
  let base := cascades base in
  let base := mk_base (u32 (timer_jiffies base + 1)) (vec base) (work base) in
  let l := slot base (1, index) in
  let base := set_slot (1, index) [] base in
  mk_base (timer_jiffies base) (vec base) l.

(** What the functions of the timers, and interrupts meanwhile, do to the timers. *)
Inductive timer_op := Add (id e : Z) | Mod (id old e : Z) | Del (id : Z).

Definition do_op (base : tvec_base) (o : timer_op) : tvec_base :=
  match o with
  | Add id e => (__mod_timer id e base).2
  | Mod id old e => (mod_timer id old e base).2
  | Del id => (del_timer id base).2
  end.

(** The loop at [repeat]: it calls the function of the first timer of [work] until
    there is none. [handler] gives what the function of a timer does, from its
    address and the number of timers called before. The list only gets shorter, so
    its length is enough fuel. The timers called are returned. *)
Fixpoint run_work (fuel : nat) (handler : Z -> nat -> list timer_op) (calls : nat) (base : tvec_base)
  : list Z * tvec_base :=
  match fuel, work base with
  | S fuel, t :: w =>
      let base := mk_base (timer_jiffies base) (vec base) w in
      let base := foldl do_op base (handler (tid t) calls) in
      let '(l, base) := run_work fuel handler (S calls) base in (tid t :: l, base)
  | _, _ => ([], base)
  end.

(** [__run_timers] while [jiffies] stands still: the timers called, tick by tick.
    [None] when the fuel runs out. *)
Fixpoint __run_timers (fuel : nat) (handler : Z -> nat -> list timer_op) (calls : nat) (jiffies : Z) (base : tvec_base)
  : option (list (list Z) * tvec_base) :=
  match fuel with
  | O => None
  | S fuel =>
      if time_after_eq jiffies (timer_jiffies base) then
        let base := start_tick base in
        let '(l, base) := run_work (length (work base)) handler calls base in
        '(ls, base) ← __run_timers fuel handler (calls + length l) jiffies base;
        Some (l :: ls, base)
      else Some ([], base)
  end.

(** ** The next event (CONFIG_NO_IDLE_HZ) *)

(** The [do]-[while] loops: the first index from [start] on, round the vector of
    [size] lists, whose list is not empty. *)
Fixpoint scan_vec (fuel : nat) (base : tvec_base) (n mask j : Z) : option Z :=
  match fuel with
  | O => None
  | S fuel => match slot base (n, j) with [] => scan_vec fuel base n mask (Z.land (j + 1) mask) | _ :: _ => Some j end
  end.

Definition earliest (e : Z) (l : list timer_list) : Z :=
  foldl (fun e nte => if time_before (expires nte) e then expires nte else e) e l.

(** The loop over [varray], from index [i]. *)
Fixpoint scan_upper (fuel : nat) (base : tvec_base) (i e : Z) : Z * list timer_list :=
  match fuel with
  | O => (e, [])
  | S fuel =>
      match scan_vec 64 base (i + 2) TVN_MASK (INDEX base i) with
      | None => scan_upper fuel base (i + 1) e
      | Some j => (earliest e (slot base (i + 2, j)),
                   if (j <? INDEX base i) && (i <? 3) then slot base (i + 3, INDEX base (i + 1)) else [])
      end
  end.

Definition next_timer_interrupt (base : tvec_base) : Z :=
  let start := Z.land (timer_jiffies base) TVR_MASK in
  let '(e, l) :=
    match scan_vec 256 base 1 TVR_MASK start with
    | Some j => (match slot base (1, j) with nte :: _ => expires nte | [] => 0 end,
                 if j <? start then slot base (2, INDEX base 0) else [])
    | None => scan_upper 4 base 0 (u32 (timer_jiffies base + 1073741823))
    end in
  earliest e l.

(** * Correctness *)

(** ** Positions in the wheel

    [J] is the tick that [timer_jiffies] stands for, not reduced modulo 2^32. *)

Definition W32 := 4294967296.

(** The ticks that a list of vector [n] spans. *)
Definition width (n : Z) : Z :=
  if n =? 2 then 256 else if n =? 3 then 16384 else if n =? 4 then 1048576 else 67108864.

(** When a timer with [expires = e] that is added at tick [J] is due. *)
Definition deadline (J e : Z) : Z := let idx := u32 (e - J) in if idx <? 2147483648 then J + idx else J.

(** A timer due at tick [D] may be in list [i] of vector [n]. *)
Definition inside (J D : Z) (s : Z * Z) : Prop :=
  let '(n, i) := s in
  n = 1 /\ i = D mod 256 /\ J <= D < J + 256 \/
  2 <= n <= 5 /\ i = (D / width n) mod 64 /\ J <= D / width n * width n /\ D < J + 64 * width n.

(** Its list is distributed after tick [J]. *)
Definition later (J D : Z) (s : Z * Z) : Prop := 2 <= s.1 -> J < D / width s.1 * width s.1.

Lemma land_255 z : Z.land z 255 = z mod 256.
Proof. apply (Z.land_ones z 8). lia. Qed.
Lemma land_63 z : Z.land z 63 = z mod 64.
Proof. apply (Z.land_ones z 6). lia. Qed.

Lemma u32_sub_u32 e J : u32 (e - u32 J) = u32 (e - J).
Proof. unfold u32. apply Zminus_mod_idemp_r. Qed.

Lemma u32_idx e J : is_u32 e -> e = u32 (J + u32 (e - J)).
Proof. intros [H1 H2]. unfold u32. rewrite Zplus_mod_idemp_r. replace (J + (e - J)) with e by lia. by rewrite Z.mod_small. Qed.

Lemma index_1 D : u32 D mod 256 = D mod 256.
Proof. unfold u32. Z.div_mod_to_equations. lia. Qed.

Lemma index_n D n : 2 <= n <= 5 -> (u32 D / width n) mod 64 = (D / width n) mod 64.
Proof.
  intros Hn. assert (n = 2 \/ n = 3 \/ n = 4 \/ n = 5) as [-> | [-> | [-> | ->]]] by lia; unfold width, u32; simpl;
    Z.div_mod_to_equations; lia.
Qed.

Lemma shift_width e n k : 2 <= n <= 5 -> k = 8 + (n - 2) * 6 -> Z.land (Z.shiftr e k) TVN_MASK = (e / width n) mod 64.
Proof.
  intros Hn ->. unfold TVN_MASK. rewrite land_63, Z.shiftr_div_pow2 by lia.
  assert (n = 2 \/ n = 3 \/ n = 4 \/ n = 5) as [-> | [-> | [-> | ->]]] by lia; done.
Qed.

(** The list chosen for a timer of level [n] or above. *)
Lemma inside_n J D n : 2 <= n <= 5 -> J + width n <= D < J + 64 * width n ->
  inside J D (n, (D / width n) mod 64) /\ later J D (n, (D / width n) mod 64).
Proof.
  intros Hn HD. assert (0 < width n) as Hw by (unfold width; repeat case_match; lia).
  assert (J < D / width n * width n) as Hl by (pose proof (Z.div_mod D (width n)); pose proof (Z.mod_pos_bound D (width n)); nia).
  split; [right | by intros _]. split; [done |]. split; [done |]. simpl. lia.
Qed.

Lemma choose_vec_inside J e : 0 <= J -> is_u32 e ->
  let s := choose_vec (u32 J) e in let D := deadline J e in
  inside J D s /\ later J D s /\ (2 <= s.1 -> e = u32 D) /\ J <= D < J + 2147483648.
Proof.
  intros HJ He s D. assert (is_u32 (u32 (e - J))) as Hi by (unfold u32, is_u32; lia || apply Z.mod_pos_bound; lia).
  pose proof (u32_idx e J He) as Ee. unfold s, choose_vec, D, deadline. rewrite u32_sub_u32.
  set (idx := u32 (e - J)) in *. clearbody idx. unfold TVR_MASK. rewrite !land_255.
  rewrite (shift_width e 2 8), (shift_width e 3 14), (shift_width e 4 20), (shift_width e 5 26) by lia.
  assert (forall n, 2 <= n <= 5 -> (e / width n) mod 64 = ((J + idx) / width n) mod 64) as Ix
    by (intros n Hn; rewrite Ee; by apply index_n).
  assert (forall n, 2 <= n <= 5 -> width n <= idx < 64 * width n -> idx < 2147483648 ->
    inside J (J + idx) (n, (e / width n) mod 64) /\ later J (J + idx) (n, (e / width n) mod 64) /\
    (2 <= n -> e = u32 (J + idx)) /\ J <= J + idx < J + 2147483648) as Case.
  { intros n Hn Hx Hs. rewrite Ix by done. destruct (inside_n J (J + idx) n Hn) as [H1 H2]; [lia |]. split; [done |]. split; [done |].
    split; [done |]. lia. }
  destruct Hi as [Hi1 Hi2].
  destruct (Z.ltb_spec idx 256) as [H1 | H1].
  { rewrite (proj2 (Z.ltb_lt idx 2147483648)) by lia. split; [left | split; [by intros ? | split; [by intros ? |]]]; simpl; try lia.
    - split; [done |]. split; [| lia]. rewrite Ee. apply index_1. }
  destruct (Z.ltb_spec idx 16384); [rewrite (proj2 (Z.ltb_lt idx 2147483648)) by lia; apply (Case 2); unfold width; simpl; lia |].
  destruct (Z.ltb_spec idx 1048576); [rewrite (proj2 (Z.ltb_lt idx 2147483648)) by lia; apply (Case 3); unfold width; simpl; lia |].
  destruct (Z.ltb_spec idx 67108864); [rewrite (proj2 (Z.ltb_lt idx 2147483648)) by lia; apply (Case 4); unfold width; simpl; lia |].
  assert (s32 idx <? 0 = negb (idx <? 2147483648)) as ->.
  { unfold s32, u32. rewrite Z.mod_small by lia. destruct (Z.ltb_spec idx 2147483648); simpl; [apply Z.ltb_ge | apply Z.ltb_lt]; lia. }
  destruct (Z.ltb_spec idx 2147483648); simpl negb; cbn [negb].
  - apply (Case 5); unfold width; simpl; lia.
  - split; [left | split; [by intros ? | split; [by intros ? |]]]; [| lia]. split; [done |]. split; [apply index_1 | lia].
Qed.

(** ** The timers of the wheel

    [P] gives the pending timers with their deadlines, those of [work] apart. [tr] are
    timers that are being moved. *)
Record wheel_ok (J : Z) (P : gmap Z Z) (tr : list timer_list) (b : tvec_base) : Prop := {
  wh_J : 0 <= J;
  wh_now : timer_jiffies b = u32 J;
  wh_in : forall s t, t ∈ slot b s -> exists D, P !! tid t = Some D /\ inside J D s /\ (2 <= s.1 -> expires t = u32 D);
  wh_tr : forall t, t ∈ tr -> P !! tid t = Some (deadline J (expires t)) /\ is_u32 (expires t);
  wh_pend : forall id D, P !! id = Some D -> (exists s t, t ∈ slot b s /\ tid t = id) \/ id ∈ tid <$> tr;
  wh_uniq : forall s s' t t', t ∈ slot b s -> t' ∈ slot b s' -> tid t = tid t' -> s = s';
  wh_nodup : forall s, NoDup (tid <$> slot b s);
  wh_trdup : NoDup (tid <$> tr);
  wh_trnew : forall s t, t ∈ slot b s -> tid t ∉ tid <$> tr;
  wh_work : NoDup (tid <$> work b);
  wh_worknew : forall t, t ∈ work b -> P !! tid t = None;
}.

(** The lists of the vectors up to [m] that are due for distribution at tick [J] are
    empty. *)
Definition distributed (m J : Z) (P : gmap Z Z) (b : tvec_base) : Prop :=
  forall s t D, t ∈ slot b s -> P !! tid t = Some D -> s.1 <= m -> later J D s.

Lemma slot_set s s' l b : slot (set_slot s l b) s' = if decide (s = s') then l else slot b s'.
Proof. unfold slot, set_slot. simpl. destruct (decide (s = s')) as [-> |]; [by rewrite lookup_insert_eq | by rewrite lookup_insert_ne]. Qed.

Lemma slot_add b t s : slot (internal_add_timer b t) s =
  if decide (choose_vec (timer_jiffies b) (expires t) = s) then slot b s ++ [t] else slot b s.
Proof. unfold internal_add_timer. rewrite slot_set. by case_decide as E; [rewrite E |]. Qed.

Lemma elem_slot_add b t s t' : t' ∈ slot (internal_add_timer b t) s <->
  t' ∈ slot b s \/ s = choose_vec (timer_jiffies b) (expires t) /\ t' = t.
Proof. rewrite slot_add. case_decide; [rewrite elem_of_app, list_elem_of_singleton |]; naive_solver. Qed.

Lemma add_transit J P t tr b : wheel_ok J P (t :: tr) b -> wheel_ok J P tr (internal_add_timer b t).
Proof.
  intros [HJ Hn Hi Ht Hp Hu Nd Td Tn Wk Wn]. rewrite fmap_cons in Td. apply NoDup_cons in Td as [Td0 Td].
  destruct (Ht t ltac:(by left)) as [Pt Et]. destruct (choose_vec_inside J (expires t) HJ Et) as (I1 & I2 & I3 & _).
  rewrite <- Hn in I1, I2, I3.
  assert (forall s t', t' ∈ slot b s -> tid t' <> tid t) as Ne by (intros s t' Hin E; apply (Tn s t' Hin); rewrite E; by left).
  split; try done.
  - intros s t' [Hin | [-> ->]]%elem_slot_add; [by apply Hi |]. eauto.
  - intros t' Hin. apply Ht. by right.
  - intros id D H. destruct (Hp id D H) as [(s & t' & Hin & E) | Hin].
    + left. exists s, t'. rewrite elem_slot_add. auto.
    + rewrite fmap_cons in Hin. apply elem_of_cons in Hin as [-> | Hin]; [| by right]. left.
      exists (choose_vec (timer_jiffies b) (expires t)), t. rewrite elem_slot_add. auto.
  - intros s s' t1 t2 [H1 | [-> ->]]%elem_slot_add [H2 | [-> ->]]%elem_slot_add E; [by eapply Hu | | | done].
    + by destruct (Ne _ _ H1).
    + by destruct (Ne _ _ H2).
  - intros s. rewrite slot_add. case_decide; [| done]. rewrite fmap_app. apply NoDup_app. split; [done |].
    split; [| apply NoDup_singleton]. intros x (t' & -> & Hin)%list_elem_of_fmap ?%list_elem_of_singleton. by apply (Ne _ _ Hin).
  - intros s t' [Hin | [-> ->]]%elem_slot_add; [| done]. intros H. apply (Tn s t' Hin). by right.
Qed.

Lemma add_distributed m J P t tr b : wheel_ok J P (t :: tr) b -> distributed m J P b -> distributed m J P (internal_add_timer b t).
Proof.
  intros [HJ Hn _ Ht _ _ _ _ _ _ _] Ds s t' D [Hin | [-> ->]]%elem_slot_add PD Hm; [by eapply Ds |].
  destruct (Ht t ltac:(by left)) as [Pt Et]. destruct (choose_vec_inside J (expires t) HJ Et) as (_ & I2 & _). rewrite Hn.
  by assert (D = deadline J (expires t)) as -> by congruence.
Qed.

Lemma add_all m J P : forall tr b, wheel_ok J P tr b -> distributed m J P b ->
  wheel_ok J P [] (foldl internal_add_timer b tr) /\ distributed m J P (foldl internal_add_timer b tr).
Proof.
  induction tr as [| t tr IH]; intros b Ok Ds; [done |]. simpl. apply IH; [by apply add_transit | by eapply add_distributed].
Qed.

(** *** Distributing a list *)

Lemma add_now b t : timer_jiffies (internal_add_timer b t) = timer_jiffies b.
Proof. done. Qed.

Lemma clear_first s l : forall b, (forall t, t ∈ l -> choose_vec (timer_jiffies b) (expires t) <> s) ->
  set_slot s [] (foldl internal_add_timer b l) = foldl internal_add_timer (set_slot s [] b) l.
Proof.
  induction l as [| t l IH]; intros b H; [done |]. simpl. rewrite IH by (intros t' Ht'; apply H; by right). f_equal.
  pose proof (H t ltac:(by left)) as Ht. unfold internal_add_timer. change (timer_jiffies (set_slot s [] b)) with (timer_jiffies b).
  rewrite slot_set, decide_False by done. unfold set_slot. simpl. f_equal. by apply insert_insert_ne.
Qed.

Lemma block_unique a b : 0 <= b - a < 64 -> a mod 64 = b mod 64 -> a = b.
Proof. intros H E. Z.div_mod_to_equations. lia. Qed.

Lemma width_pos n : 0 < width n.
Proof. unfold width. repeat case_match; lia. Qed.

(** The list due at tick [J] holds the timers of the next [width n] ticks. *)
Lemma due_list J D n i : 2 <= n <= 5 -> J mod width n = 0 -> inside J D (n, i) ->
  i = (J / width n) mod 64 -> J <= D < J + width n.
Proof.
  intros Hn Hm [(-> & _) | (_ & -> & H1 & H2)] Hi; [lia |]. pose proof (width_pos n) as Hw.
  pose proof (Z.div_mod J (width n)) as EJ. pose proof (Z.div_mod D (width n)) as ED. pose proof (Z.mod_pos_bound D (width n)) as BD.
  assert (J / width n = D / width n) as E by (apply block_unique; [nia | by symmetry]). nia.
Qed.

Lemma same_block w J D : 0 < w -> J mod w = 0 -> J <= D < J + w -> D / w * w = J.
Proof.
  intros Hw Hm HD. pose proof (Z.div_mod J w) as E. assert (D / w = J / w) as ->; [| lia].
  symmetry. apply Z.div_unique_pos with (D - J); lia.
Qed.

Lemma deadline_u32 J D : 0 <= J -> J <= D < J + 2147483648 -> deadline J (u32 D) = D.
Proof.
  intros HJ H. unfold deadline. assert (u32 (u32 D - J) = D - J) as ->.
  { unfold u32. rewrite Zminus_mod_idemp_l. apply Z.mod_small. lia. }
  rewrite (proj2 (Z.ltb_lt _ _)) by lia. lia.
Qed.

Lemma u32_u32 z : is_u32 (u32 z).
Proof. unfold is_u32, u32. apply Z.mod_pos_bound. lia. Qed.

Lemma cascade_ok n J P b : 2 <= n <= 5 -> J mod width n = 0 -> wheel_ok J P [] b -> distributed (n - 1) J P b ->
  let b' := cascade n ((J / width n) mod 64) b in wheel_ok J P [] b' /\ distributed n J P b'.
Proof.
  intros Hn Hm Ok Ds b'. unfold b', cascade. set (s0 := (n, (J / width n) mod 64)). pose proof Ok as [HJ Hnow Hi Ht Hp Hu Nd Td Tn Wk Wn].
  assert (width n <= 67108864) as Hw64 by (unfold width; repeat case_match; lia). pose proof (width_pos n) as Hw.
  assert (forall t, t ∈ slot b s0 -> exists D, P !! tid t = Some D /\ expires t = u32 D /\ J <= D < J + width n) as Due.
  { intros t Hin. destruct (Hi _ _ Hin) as (D & PD & HD & HE). exists D. split; [done |]. split; [apply HE; simpl; lia |].
    by eapply due_list. }
  assert (forall t, t ∈ slot b s0 -> P !! tid t = Some (deadline J (expires t)) /\ is_u32 (expires t)) as Dl.
  { intros t Hin. destruct (Due t Hin) as (D & PD & -> & HD). rewrite deadline_u32 by lia. split; [done | apply u32_u32]. }
  rewrite clear_first.
  2: { intros t Hin E. destruct (Due t Hin) as (D & PD & Ex & HD). destruct (Dl t Hin) as [PD' Eu].
       destruct (choose_vec_inside J (expires t) HJ Eu) as (_ & L & _). rewrite <- Hnow, E in L.
       assert (deadline J (expires t) = D) as Ed by congruence. rewrite Ed in L. specialize (L ltac:(simpl; lia)). simpl in L.
       rewrite (same_block (width n) J D) in L by done. lia. }
  apply add_all.
  - split; try done.
    + intros s t. rewrite slot_set. case_decide; [by intros ?%elem_of_nil | apply Hi].
    + intros id D H. destruct (Hp id D H) as [(s & t & Hin & E) | Hin]; [| by apply elem_of_nil in Hin].
      destruct (decide (s0 = s)) as [<- | Hs]; [right; rewrite <- E; by apply list_elem_of_fmap_2 |].
      left. exists s, t. by rewrite slot_set, decide_False.
    + intros s s' t t'. rewrite !slot_set. repeat case_decide; try (by intros ?%elem_of_nil); try (by intros _ ?%elem_of_nil). apply Hu.
    + intros s. rewrite slot_set. case_decide; [constructor | done].
    + intros s t. rewrite slot_set. case_decide as Hs; [by intros ?%elem_of_nil |]. intros Hin (t' & E & Hin')%list_elem_of_fmap.
      destruct Hs. by eapply Hu.
  - intros s t D. rewrite slot_set. case_decide as Hs; [by intros ?%elem_of_nil |]. intros Hin PD Hm'.
    destruct (decide (s.1 <= n - 1)) as [Hl | Hl]; [by eapply Ds |]. intros _.
    destruct (Hi _ _ Hin) as (D' & PD' & HD & _). assert (D' = D) as -> by congruence. destruct s as [n' i]. simpl in *.
    assert (n' = n) as -> by lia. destruct HD as [(? & _) | (_ & -> & H1 & H2)]; [lia |].
    pose proof (Z.div_mod J (width n)) as EJ. assert (D / width n <> J / width n) as Hne by (intros E; apply Hs; unfold s0; by rewrite E).
    nia.
Qed.

Lemma INDEX_eq J P tr b n k : wheel_ok J P tr b -> 2 <= n <= 5 -> k = n - 2 -> INDEX b k = (J / width n) mod 64.
Proof. intros Ok Hn ->. pose proof (wh_now _ _ _ _ Ok) as E. unfold INDEX. rewrite E, (shift_width _ n) by lia. by apply index_n. Qed.

Lemma width_divides n n' : 2 <= n <= n' -> n' <= 5 -> (width n | width n').
Proof.
  intros H H'. assert (n' = 2 \/ n' = 3 \/ n' = 4 \/ n' = 5) as [-> | [-> | [-> | ->]]] by lia;
    (assert (n = 2 \/ n = 3 \/ n = 4 \/ n = 5) as [-> | [-> | [-> | ->]]] by lia); try lia;
    apply Z.mod_divide; done.
Qed.

Lemma rest_distributed m J P b : wheel_ok J P [] b -> distributed m J P b -> 1 <= m <= 4 -> J mod width (m + 1) <> 0 ->
  distributed 5 J P b.
Proof.
  intros Ok Ds Hm Hn s t D Hin PD Hs. destruct (decide (s.1 <= m)) as [Hle | Hgt]; [by eapply Ds |]. intros _.
  destruct (wh_in _ _ _ _ Ok _ _ Hin) as (D' & PD' & HD & _). assert (D' = D) as -> by congruence. destruct s as [n i]. simpl in *.
  destruct HD as [(? & _) | (Hr & _ & H1 & _)]; [lia |]. pose proof (width_pos n).
  assert (J <> D / width n * width n); [| lia]. intros E. apply Hn. apply Z.mod_divide; [pose proof (width_pos (m + 1)); lia |].
  apply Z.divide_trans with (width n); [apply width_divides; lia |]. by exists (D / width n).
Qed.

(** The spans nest: a list of the next vector is due when the index is 0. *)
Lemma next_due J n : 0 <= J -> 2 <= n <= 4 -> J mod width n = 0 -> (J / width n) mod 64 = 0 <-> J mod width (n + 1) = 0.
Proof.
  intros HJ Hn Hm. assert (n = 2 \/ n = 3 \/ n = 4) as [-> | [-> | ->]] by lia; unfold width in *; simpl in *;
    split; intros; Z.div_mod_to_equations; lia.
Qed.

Lemma foldl_add_work l : forall b, work (foldl internal_add_timer b l) = work b.
Proof. induction l as [| t l IH]; intros b; [done |]. simpl. by rewrite IH. Qed.

Lemma cascade_work n i b : work (cascade n i b) = work b.
Proof. unfold cascade. simpl. apply foldl_add_work. Qed.

Lemma cascades_ok J P b : wheel_ok J P [] b ->
  wheel_ok J P [] (cascades b) /\ distributed 5 J P (cascades b) /\ work (cascades b) = work b.
Proof.
  intros Ok. pose proof (wh_J _ _ _ _ Ok) as HJ. unfold cascades, TVR_MASK. rewrite (wh_now _ _ _ _ Ok), land_255, index_1.
  assert (distributed 1 J P b) as D1 by (intros s t D _ _ ? ?; lia).
  destruct (Z.eqb_spec (J mod 256) 0) as [E1 | E1]; cbn [negb].
  2: { split; [done |]. split; [| done]. by apply (rest_distributed 1). }
  rewrite (INDEX_eq J P [] _ 2 0 Ok) by lia.
  destruct (cascade_ok 2 J P b) as [O2 D2]; [lia | done | done | done |].
  set (b2 := cascade 2 _ b) in *. assert (work b2 = work b) as W2 by apply cascade_work. clearbody b2.
  rewrite !(INDEX_eq J P [] b2 2 0 O2) by lia. pose proof (next_due J 2 HJ ltac:(lia) E1) as N2.
  destruct (Z.eqb_spec ((J / width 2) mod 64) 0) as [E2 | E2]; cbn [negb].
  2: { split; [done |]. split; [| done]. apply (rest_distributed 2); [done | done | lia | tauto]. }
  apply N2 in E2. rewrite (INDEX_eq J P [] b2 3 1 O2) by lia.
  destruct (cascade_ok 3 J P b2) as [O3 D3]; [lia | done | done | done |].
  set (b3 := cascade 3 _ b2) in *. assert (work b3 = work b) as W3 by (unfold b3; by rewrite cascade_work). clearbody b3.
  rewrite !(INDEX_eq J P [] b3 3 1 O3) by lia. pose proof (next_due J 3 HJ ltac:(lia) E2) as N3.
  destruct (Z.eqb_spec ((J / width 3) mod 64) 0) as [E3 | E3]; cbn [negb].
  2: { split; [done |]. split; [| done]. apply (rest_distributed 3); [done | done | lia | tauto]. }
  apply N3 in E3. rewrite (INDEX_eq J P [] b3 4 2 O3) by lia.
  destruct (cascade_ok 4 J P b3) as [O4 D4]; [lia | done | done | done |].
  set (b4 := cascade 4 _ b3) in *. assert (work b4 = work b) as W4 by (unfold b4; by rewrite cascade_work). clearbody b4.
  rewrite !(INDEX_eq J P [] b4 4 2 O4) by lia. pose proof (next_due J 4 HJ ltac:(lia) E3) as N4.
  destruct (Z.eqb_spec ((J / width 4) mod 64) 0) as [E4 | E4]; cbn [negb].
  2: { split; [done |]. split; [| done]. apply (rest_distributed 4); [done | done | lia | tauto]. }
  apply N4 in E4. rewrite (INDEX_eq J P [] b4 5 3 O4) by lia.
  destruct (cascade_ok 5 J P b4) as [O5 D5]; [lia | done | done | done |]. split; [done |]. split; [done |].
  by rewrite cascade_work.
Qed.

(** ** A tick *)

Definition due (J : Z) (P : gmap Z Z) (l : list Z) : Prop := NoDup l /\ forall id, id ∈ l <-> P !! id = Some J.

Lemma start_tick_ok J P b : wheel_ok J P [] b -> work b = [] ->
  let b' := start_tick b in
  wheel_ok (J + 1) (filter (fun '(_, D) => D <> J) P) [] b' /\ due J P (tid <$> work b').
Proof.
  intros Ok W0. destruct (cascades_ok J P b Ok) as (Ok' & Ds & W'). rewrite W0 in W'. unfold start_tick, TVR_MASK.
  rewrite (wh_now _ _ _ _ Ok), land_255, index_1. set (c := cascades b) in *. clearbody c. clear Ok W0 b.
  pose proof Ok' as [HJ Hn Hi Ht Hp Hu Nd Td Tn Wk Wn]. set (s0 := (1, J mod 256)).
  assert (forall t, t ∈ slot c s0 -> P !! tid t = Some J) as Here.
  { intros t Hin. destruct (Hi _ _ Hin) as (D & PD & [(_ & E & HD) | (? & _)] & _); [| simpl in *; lia].
    assert (D = J) as ->; [| done]. clear -E HD. Z.div_mod_to_equations. lia. }
  assert (forall s t, t ∈ slot c s -> P !! tid t = Some J -> s = s0) as There.
  { intros s t Hin PJ. pose proof (Ds s t J Hin PJ) as L. destruct (Hi _ _ Hin) as (D & PD & HD & _).
    assert (D = J) as -> by congruence. destruct s as [n i]. simpl in *.
    destruct HD as [(-> & -> & _) | (Hr & _)]; [done |]. specialize (L ltac:(lia)). unfold later in L. simpl in L.
    specialize (L ltac:(lia)). pose proof (width_pos n). pose proof (Z.mul_div_le J (width n)). lia. }
  assert (forall s, slot (mk_base (timer_jiffies c) (<[s0 := []]> (vec c)) []) s = if decide (s0 = s) then [] else slot c s) as Sl
    by (intros s; apply (slot_set s0 s [] (mk_base (timer_jiffies c) (vec c) []))).
  split; cbn [timer_jiffies vec work set_slot].
  - split; cbn [timer_jiffies work].
    + lia.
    + rewrite Hn. unfold u32. by rewrite Zplus_mod_idemp_l.
    + intros s t. change (slot _ s) with (slot (mk_base (timer_jiffies c) (<[s0 := []]> (vec c)) []) s).
      rewrite Sl. case_decide as Hs; [by intros ?%elem_of_nil |]. intros Hin. destruct (Hi _ _ Hin) as (D & PD & HD & HE).
      assert (D <> J) as HDJ by (intros ->; destruct Hs; symmetry; by eapply There).
      exists D. split; [by apply map_lookup_filter_Some |]. split; [| done].
      pose proof (Ds s t D Hin PD) as L. destruct s as [n i]. unfold later in L. simpl in *.
      destruct HD as [(-> & -> & ?) | (? & ? & ? & ?)]; [left | right]; (split; [done |]); (split; [done |]); lia.
    + by intros t ?%elem_of_nil.
    + intros id D [PD HD]%map_lookup_filter_Some. destruct (Hp id D PD) as [(s & t & Hin & E) | Hin]; [| by apply elem_of_nil in Hin].
      left. exists s, t. change (slot _ s) with (slot (mk_base (timer_jiffies c) (<[s0 := []]> (vec c)) []) s).
      rewrite Sl, decide_False; [done |]. intros <-. apply HD. rewrite <- E in PD. rewrite (Here t Hin) in PD. congruence.
    + intros s s' t t'. change (slot _ s) with (slot (mk_base (timer_jiffies c) (<[s0 := []]> (vec c)) []) s).
      change (slot _ s') with (slot (mk_base (timer_jiffies c) (<[s0 := []]> (vec c)) []) s'). rewrite !Sl.
      repeat case_decide; try (by intros ?%elem_of_nil); try (by intros _ ?%elem_of_nil). apply Hu.
    + intros s. change (slot _ s) with (slot (mk_base (timer_jiffies c) (<[s0 := []]> (vec c)) []) s). rewrite Sl.
      case_decide; [constructor | done].
    + constructor.
    + by intros s t _ ?%elem_of_nil.
    + apply Nd.
    + intros t Hin. apply map_lookup_filter_None. right. intros D PD. simpl. apply Here in Hin. intros H. apply H. congruence.
  - split; [apply Nd |]. intros id. rewrite list_elem_of_fmap. split.
    + intros (t & -> & Hin). by apply Here.
    + intros PJ. destruct (Hp id J PJ) as [(s & t & Hin & E) | Hin]; [| by apply elem_of_nil in Hin]. exists t. split; [done |].
      rewrite <- E in PJ. by rewrite (There s t Hin PJ) in Hin.
Qed.

(** ** Adding and deleting *)

Lemma slot_del id b s : slot (list_del id b) s = filter (fun t => tid t <> id) (slot b s).
Proof. unfold slot, list_del. simpl. rewrite lookup_fmap. by destruct (vec b !! s). Qed.

Lemma elem_slot_del id b s t : t ∈ slot (list_del id b) s <-> t ∈ slot b s /\ tid t <> id.
Proof. rewrite slot_del, list_elem_of_filter. naive_solver. Qed.

Lemma filter_tid id (l : list timer_list) : tid <$> filter (fun t => tid t <> id) l = filter (fun i => i <> id) (tid <$> l).
Proof.
  induction l as [| t l IH]; [done |]. rewrite fmap_cons, !filter_cons. repeat case_decide; try done. by rewrite fmap_cons, IH.
Qed.

Lemma list_del_ok J P b id : wheel_ok J P [] b -> wheel_ok J (delete id P) [] (list_del id b).
Proof.
  intros [HJ Hn Hi Ht Hp Hu Nd Td Tn Wk Wn]. split; try done.
  - intros s t [Hin Ne]%elem_slot_del. destruct (Hi _ _ Hin) as (D & ? & ?). exists D. by rewrite lookup_delete_ne.
  - by intros t ?%elem_of_nil.
  - intros i D [Hne PD]%lookup_delete_Some. destruct (Hp i D PD) as [(s & t & Hin & E) | Hin]; [| by apply elem_of_nil in Hin].
    left. exists s, t. rewrite elem_slot_del. split; [| done]. split; [done | congruence].
  - intros s s' t t' [? _]%elem_slot_del [? _]%elem_slot_del. by apply Hu.
  - intros s. rewrite slot_del, filter_tid. by apply NoDup_filter.
  - by intros s t _ ?%elem_of_nil.
  - cbn [work list_del]. rewrite filter_tid. by apply NoDup_filter.
  - cbn [work list_del]. intros t [Ne Hin]%list_elem_of_filter. by rewrite lookup_delete_ne, Wn.
Qed.

Lemma pending_spec J P b id : wheel_ok J P [] b -> pending id b = true <-> is_Some (P !! id) \/ id ∈ tid <$> work b.
Proof.
  intros Ok. unfold pending. rewrite orb_true_iff.
  assert (forall l, existsb (fun t => tid t =? id) l = true <-> id ∈ tid <$> l) as Ex.
  { intros l. rewrite existsb_exists, list_elem_of_fmap. setoid_rewrite Z.eqb_eq. setoid_rewrite <- list_elem_of_In. naive_solver. }
  rewrite Ex. assert (existsb (fun '(_, l) => existsb (fun t => tid t =? id) l) (map_to_list (vec b)) = true <-> is_Some (P !! id)) as ->; [| tauto].
  rewrite existsb_exists. split.
  - intros ([s l] & Hin%list_elem_of_In%elem_of_map_to_list & Hl%Ex). apply list_elem_of_fmap in Hl as (t & -> & Ht).
    destruct (wh_in _ _ _ _ Ok s t) as (D & ? & _); [unfold slot; by rewrite Hin | eauto].
  - intros [D PD]. destruct (wh_pend _ _ _ _ Ok id D PD) as [(s & t & Hin & E) | Hin]; [| by apply elem_of_nil in Hin].
    unfold slot in Hin. destruct (vec b !! s) as [l |] eqn:El; [| by apply elem_of_nil in Hin]. exists (s, l).
    split; [by apply list_elem_of_In, elem_of_map_to_list |]. apply Ex. rewrite <- E. by apply list_elem_of_fmap_2.
Qed.

Lemma mod_ok J P b id e : wheel_ok J P [] b -> is_u32 e ->
  wheel_ok J (<[id := deadline J e]> P) [] (__mod_timer id e b).2 /\
  tid <$> work (__mod_timer id e b).2 = filter (fun i => i <> id) (tid <$> work b).
Proof.
  intros Ok He. simpl. split; [| apply filter_tid]. apply add_transit.
  destruct (list_del_ok J P b id Ok) as [HJ Hn Hi Ht Hp Hu Nd Td Tn Wk Wn].
  assert (forall s t, t ∈ slot (list_del id b) s -> tid t <> id) as Ne by (intros s t [_ ?]%elem_slot_del; done).
  split; try done.
  - intros s t Hin. destruct (Hi _ _ Hin) as (D & PD & ?). exists D. split; [| done].
    rewrite lookup_delete_ne in PD by (intros E; by apply (Ne s t)).
    rewrite lookup_insert_ne; [done |]. intros E. by apply (Ne s t).
  - intros t ->%list_elem_of_singleton. simpl. by rewrite lookup_insert_eq.
  - intros i D HD. destruct (decide (id = i)) as [<- | Hne]; [right; by left |]. left. rewrite lookup_insert_ne in HD by done.
    destruct (Hp i D) as [? | Hin]; [by rewrite lookup_delete_ne | done | by apply elem_of_nil in Hin].
  - apply NoDup_singleton.
  - intros s t Hin E%list_elem_of_singleton. by apply (Ne s t).
  - intros t Hin. pose proof (Wn t Hin) as PN. simpl in Hin. apply list_elem_of_filter in Hin as [Hne _].
    rewrite lookup_delete_ne in PN by congruence. rewrite lookup_insert_ne by congruence. done.
Qed.

(** ** The specification: a set of deadlines *)

(** The pending timers with their deadlines, and those to be called in this tick. *)
Abbreviation astate := (gmap Z Z * list Z)%type.

Definition is_pending (id : Z) (a : astate) : bool := bool_decide (is_Some (a.1 !! id) \/ id ∈ a.2).

Definition a_add (J id e : Z) (a : astate) : astate := (<[id := deadline J e]> a.1, filter (fun i => i <> id) a.2).
Definition a_del (id : Z) (a : astate) : astate := (delete id a.1, filter (fun i => i <> id) a.2).

Definition a_op (J : Z) (a : astate) (o : timer_op) : astate :=
  match o with
  | Add id e => a_add J id e a
  | Mod id old e => if (old =? e) && is_pending id a then a else a_add J id e a
  | Del id => a_del id a
  end.

(** Calling the timers of a tick, one after the other. *)
Inductive a_work (handler : Z -> nat -> list timer_op) (J : Z) : nat -> astate -> list Z -> gmap Z Z -> Prop :=
| aw_nil calls P : a_work handler J calls (P, []) [] P
| aw_cons calls P id W l P' :
    a_work handler J (S calls) (foldl (a_op J) (P, W) (handler id calls)) l P' ->
    a_work handler J calls (P, id :: W) (id :: l) P'.

(** From tick [J] on: in every tick the timers that are due then are called, in some
    order; what a function does to the other timers takes effect at once. *)
Inductive ticks (handler : Z -> nat -> list timer_op) : nat -> Z -> gmap Z Z -> list (list Z) -> Z -> gmap Z Z -> Prop :=
| ticks_nil calls J P : ticks handler calls J P [] J P
| ticks_cons calls J P W l P' ls J' P'' :
    due J P W -> a_work handler (J + 1) calls (filter (fun '(_, D) => D <> J) P, W) l P' ->
    ticks handler (calls + length l) (J + 1) P' ls J' P'' ->
    ticks handler calls J P (l :: ls) J' P''.

Definition op_u32 (o : timer_op) : Prop := match o with Add _ e | Mod _ _ e => is_u32 e | Del _ => True end.

(** ** The wheel implements it *)

Definition represents (J : Z) (a : astate) (b : tvec_base) : Prop := wheel_ok J a.1 [] b /\ tid <$> work b = a.2.

Lemma pending_abs J a b id : represents J a b -> pending id b = is_pending id a.
Proof.
  intros [Ok E]. apply eq_true_iff_eq. unfold is_pending. rewrite bool_decide_eq_true, (pending_spec J _ b id Ok), E. done.
Qed.

Lemma del_abs J a b id : represents J a b -> represents J (a_del id a) (list_del id b).
Proof. intros [Ok E]. split; [by apply list_del_ok |]. cbn [work list_del a_del snd]. by rewrite filter_tid, E. Qed.

Lemma mod_abs J a b id e : represents J a b -> is_u32 e -> represents J (a_add J id e a) (__mod_timer id e b).2.
Proof. intros [Ok E] He. destruct (mod_ok J a.1 b id e Ok He) as [? Ew]. split; [done |]. by rewrite Ew, E. Qed.

Lemma del_absent J a b id : represents J a b -> pending id b = false -> represents J (a_del id a) b.
Proof.
  intros R. pose proof (pending_abs J a b id R) as Ep. rewrite Ep. intros Hp%bool_decide_eq_false. destruct a as [P W].
  destruct R as [Ok E]. simpl in *. unfold a_del. simpl. rewrite delete_id by (apply eq_None_not_Some; tauto). split; [done |]. simpl. rewrite E.
  clear -Hp. assert (id ∉ W) as Hn by tauto. clear Hp. induction W as [| i W IH]; [done |]. rewrite filter_cons, decide_True by set_solver.
  f_equal. apply IH. set_solver.
Qed.

Lemma do_op_abs J a b o : represents J a b -> op_u32 o -> represents J (a_op J a o) (do_op b o).
Proof.
  intros R Ho. destruct o as [id e | id old e | id]; simpl.
  - by apply mod_abs.
  - unfold mod_timer. rewrite (pending_abs J a b id R). case_match; [done |]. by apply mod_abs.
  - unfold del_timer. destruct (pending id b) eqn:Hp; simpl; [by apply del_abs | by apply del_absent].
Qed.

Lemma do_ops_abs J os : forall a b, represents J a b -> Forall op_u32 os -> represents J (foldl (a_op J) a os) (foldl do_op b os).
Proof. induction os as [| o os IH]; intros a b R H; [done |]. apply Forall_cons in H as [? ?]. simpl. apply IH; [by apply do_op_abs | done]. Qed.

(** The list of the timers to be called only gets shorter. *)
Lemma a_op_work J a o : (length (a_op J a o).2 <= length a.2)%nat.
Proof. destruct o; simpl; repeat case_match; simpl; try done; apply length_filter. Qed.

Lemma a_ops_work J os : forall a, (length (foldl (a_op J) a os).2 <= length a.2)%nat.
Proof. induction os as [| o os IH]; intros a; [done |]. simpl. pose proof (a_op_work J a o). specialize (IH (a_op J a o)). lia. Qed.

Lemma run_work_abs h J (Hh : forall id n, Forall op_u32 (h id n)) : forall fuel calls a b,
  represents J a b -> (length a.2 <= fuel)%nat ->
  exists l P' b', run_work fuel h calls b = (l, b') /\ a_work h J calls a l P' /\ represents J (P', []) b'.
Proof.
  induction fuel as [| fuel IH]; intros calls [P W] b [Ok E] Hf; simpl in *.
  { destruct W; [| simpl in Hf; lia]. exists [], P, b. split; [done |]. split; [constructor | done]. }
  destruct (work b) as [| t w] eqn:Ew; simpl in E; subst W.
  { exists [], P, b. split; [done |]. split; [constructor |]. split; [done |]. by rewrite Ew. }
  set (b1 := mk_base (timer_jiffies b) (vec b) w).
  assert (represents J (P, tid <$> w) b1) as R1.
  { split; [| done]. destruct Ok as [HJ Hn Hi Ht Hp Hu Nd Td Tn Wk Wn]. rewrite Ew, fmap_cons in Wk. apply NoDup_cons in Wk as [_ Wk].
    split; try done. intros t' Hin. apply Wn. rewrite Ew. by right. }
  pose proof (do_ops_abs J (h (tid t) calls) _ _ R1 (Hh _ _)) as R2.
  pose proof (a_ops_work J (h (tid t) calls) (P, tid <$> w)) as Hl. cbn [snd] in Hl.
  change (S (length (tid <$> w)) <= S fuel)%nat in Hf.
  destruct (IH (S calls) _ _ R2) as (l & P' & b' & Er & Aw & R3); [lia |]. exists (tid t :: l), P', b'.
  rewrite Er. split; [done |]. split; [by constructor | done].
Qed.

Lemma time_after_eq_spec Jnow J : 0 <= J -> -2147483648 <= Jnow - J < 2147483648 ->
  time_after_eq (u32 Jnow) (u32 J) = (J <=? Jnow).
Proof.
  intros HJ H. unfold time_after_eq. replace (s32 (u32 Jnow - u32 J)) with (Jnow - J).
  - destruct (Z.leb_spec J Jnow), (Z.leb_spec 0 (Jnow - J)); lia || done.
  - symmetry. unfold s32, u32. rewrite Zminus_mod_idemp_l, Zminus_mod_idemp_r.
    assert ((Jnow - J) mod 4294967296 = if 0 <=? Jnow - J then Jnow - J else Jnow - J + 4294967296) as ->.
    { destruct (Z.leb_spec 0 (Jnow - J)); symmetry; [apply Z.mod_unique_pos with 0 | apply Z.mod_unique_pos with (-1)]; lia. }
    destruct (Z.leb_spec 0 (Jnow - J)); case_match; lia.
Qed.

Lemma run_timers_abs h (Hh : forall id n, Forall op_u32 (h id n)) Jnow : forall fuel calls J P b,
  represents J (P, []) b -> 0 <= Jnow -> -1 <= Jnow - J < 2147483648 -> (Z.to_nat (Jnow + 1 - J) < fuel)%nat ->
  exists ls P' b', __run_timers fuel h calls (u32 Jnow) b = Some (ls, b') /\
    ticks h calls J P ls (Jnow + 1) P' /\ represents (Jnow + 1) (P', []) b' /\ Z.of_nat (length ls) = Jnow + 1 - J.
Proof.
  induction fuel as [| fuel IH]; intros calls J P b R H0 HJ Hf; [lia |]. cbn [__run_timers].
  pose proof R as [Ok Ew]. cbn [fst snd] in *. rewrite (wh_now _ _ _ _ Ok), time_after_eq_spec by (try apply Ok; lia).
  destruct (Z.leb_spec J Jnow) as [Hle | Hgt].
  - destruct (start_tick_ok J P b Ok) as [Ok' Du]; [by apply fmap_nil_inv in Ew |]. set (b1 := start_tick b) in *.
    destruct (run_work_abs h (J + 1) Hh (length (work b1)) calls (filter (fun '(_, D) => D <> J) P, tid <$> work b1) b1)
      as (l & P1 & b2 & Er & Aw & R2); [by split | simpl; by rewrite length_fmap |].
    rewrite Er. destruct (IH (calls + length l)%nat (J + 1) P1 b2) as (ls & P' & b' & -> & Tk & R' & Ln); [done | done | lia | lia |].
    exists (l :: ls), P', b'. split; [done |]. split; [by eapply ticks_cons |]. split; [done |]. simpl. lia.
  - assert (J = Jnow + 1) as -> by lia. exists [], P, b. split; [done |]. split; [constructor |]. split; [done |]. simpl. lia.
Qed.

(** C10. Running the timers up to the current tick calls, in every tick that has passed
    since the last run, exactly the timers that are due in it (unless the function of
    another one has removed or moved them before): the wheel, with its five vectors,
    cascading and 32-bit times that wrap around, implements a set of deadlines. The
    run ends, and its state is again one that represents such a set. *)
Theorem run_timers_refines h Jnow J P b calls :
  represents J (P, []) b -> (forall id n, Forall op_u32 (h id n)) -> J <= Jnow + 1 -> 0 <= Jnow -> Jnow - J < 2147483648 ->
  exists ls P' b', __run_timers (S (S (Z.to_nat (Jnow + 1 - J)))) h calls (u32 Jnow) b = Some (ls, b') /\
    ticks h calls J P ls (Jnow + 1) P' /\ represents (Jnow + 1) (P', []) b' /\ Z.of_nat (length ls) = Jnow + 1 - J.
Proof. intros R Hh H1 H0 H2. apply run_timers_abs; [done | done | done | lia | lia]. Qed.

(** ** A timer that nobody touches *)

Definition op_id (o : timer_op) : Z := match o with Add id _ | Mod id _ _ | Del id => id end.

Lemma a_op_other J a o id : op_id o <> id -> (a_op J a o).1 !! id = a.1 !! id /\ (id ∈ (a_op J a o).2 <-> id ∈ a.2).
Proof.
  intros Ho. assert (forall i, i <> id -> id ∈ filter (fun i' => i' <> i) a.2 <-> id ∈ a.2) as Hf.
  { intros i Hi. rewrite list_elem_of_filter. naive_solver. }
  assert (forall i e, i <> id -> (a_add J i e a).1 !! id = a.1 !! id /\ (id ∈ (a_add J i e a).2 <-> id ∈ a.2)) as Ha.
  { intros i e Hi. unfold a_add. cbn [fst snd]. rewrite lookup_insert_ne by done. auto. }
  destruct o as [i e | i old e | i]; cbn [a_op op_id] in *; [by apply Ha | |].
  - destruct (_ && _); [done | by apply Ha].
  - unfold a_del. cbn [fst snd]. rewrite lookup_delete_ne by done. auto.
Qed.

Lemma a_ops_other J os id : forall a, Forall (fun o => op_id o <> id) os ->
  (foldl (a_op J) a os).1 !! id = a.1 !! id /\ (id ∈ (foldl (a_op J) a os).2 <-> id ∈ a.2).
Proof.
  induction os as [| o os IH]; intros a H; [done |]. apply Forall_cons in H as [Ho H]. cbn [foldl]. destruct (IH (a_op J a o) H) as [-> ->].
  by apply a_op_other.
Qed.

Lemma a_work_other h J id (Hu : forall i n, Forall (fun o => op_id o <> id) (h i n)) calls a l P' :
  a_work h J calls a l P' -> P' !! id = a.1 !! id /\ (id ∈ l <-> id ∈ a.2).
Proof.
  induction 1 as [calls P | calls P i W l P' _ [IH1 IH2]]; [done |]. destruct (a_ops_other J (h i calls) id (P, W) (Hu i calls)) as [E1 E2].
  rewrite E1 in IH1. rewrite E2 in IH2. cbn [fst snd] in *. split; [done |]. by rewrite !elem_of_cons, IH2.
Qed.

Lemma ticks_other h id (Hu : forall i n, Forall (fun o => op_id o <> id) (h i n)) calls J P ls J' P' :
  ticks h calls J P ls J' P' -> forall i l, ls !! i = Some l -> id ∈ l <-> P !! id = Some (J + Z.of_nat i).
Proof.
  induction 1 as [| calls J P W l P' ls J' P'' [_ Du] Aw _ IH]; [done |]. intros i l0 Hl.
  destruct (a_work_other _ _ _ Hu _ _ _ _ Aw) as [E1 E2]. cbn [fst snd] in *. destruct i as [| i]; simpl in Hl.
  - injection Hl as <-. rewrite E2, Du. by rewrite Z.add_0_r.
  - rewrite (IH i l0 Hl), E1, map_lookup_filter_Some. replace (J + 1 + Z.of_nat i) with (J + Z.of_nat (S i)) by lia.
    split; [by intros [? _] |]. intros ?. split; [done | lia].
Qed.

(** C11. A timer that is set, at any time up to half the range of the clock ahead, and
    that is neither deleted nor set again, is called in the tick it was set for and in
    no other one; one that was set for a time in the past is called in the next tick
    that is run. *)
Theorem timer_on_time h Jnow J P b calls id e :
  represents J (P, []) b -> is_u32 e -> (forall i n, Forall op_u32 (h i n)) ->
  (forall i n, Forall (fun o => op_id o <> id) (h i n)) -> J <= Jnow + 1 -> 0 <= Jnow -> Jnow - J < 2147483648 ->
  exists ls b', __run_timers (S (S (Z.to_nat (Jnow + 1 - J)))) h calls (u32 Jnow) (__mod_timer id e b).2 = Some (ls, b') /\
    Z.of_nat (length ls) = Jnow + 1 - J /\
    forall i l, ls !! i = Some l -> id ∈ l <-> J + Z.of_nat i = deadline J e.
Proof.
  intros R He Hh Hu H1 H0 H2. pose proof (mod_abs J (P, []) b id e R He) as R'.
  destruct (run_timers_abs h Hh Jnow (S (S (Z.to_nat (Jnow + 1 - J)))) calls J (<[id := deadline J e]> P) (__mod_timer id e b).2)
    as (ls & P' & b' & Er & Tk & _ & Ln); [done | done | lia | lia |].
  exists ls, b'. split; [done |]. split; [done |]. intros i l Hl. rewrite (ticks_other h id Hu _ _ _ _ _ _ Tk i l Hl), lookup_insert_eq.
  split; [by intros [= ->] | by intros ->].
Qed.

Lemma init_represents J : 0 <= J -> represents J (∅, []) (init_timers_cpu (u32 J)).
Proof.
  intros HJ. split; [| done]. simpl. split; try done.
  - intros s t. unfold slot. simpl. rewrite lookup_empty. by intros ?%elem_of_nil.
  - by intros t ?%elem_of_nil.
  - intros s s' t t'. unfold slot. simpl. rewrite lookup_empty. by intros ?%elem_of_nil.
  - intros s. unfold slot. simpl. rewrite lookup_empty. constructor.
  - constructor.
  - intros s t. unfold slot. simpl. rewrite lookup_empty. by intros ?%elem_of_nil.
  - constructor.
Qed.

(** *** Examples *)

(** Times close to the wrap-around: timer 1 is set 10 ticks ahead, and its function
    sets timer 2 for 3 ticks later. *)
Definition ex_handler (id : Z) (n : nat) : list timer_op := if id =? 1 then [Add 2 7] else [].

Lemma ex_handler_u32 id n : Forall op_u32 (ex_handler id n).
Proof. unfold ex_handler. case_match; repeat constructor; simpl; lia. Qed.

Lemma run_timers_refines_witness :
  exists ls P' b', __run_timers 17 ex_handler 0 (u32 4294967304) (__mod_timer 1 4 (init_timers_cpu (u32 4294967290))).2 = Some (ls, b') /\
    ticks ex_handler 0 4294967290 (<[1 := 4294967300]> ∅) ls 4294967305 P' /\ represents 4294967305 (P', []) b' /\
    Z.of_nat (length ls) = 15.
Proof.
  apply (run_timers_refines ex_handler 4294967304 4294967290 (<[1 := 4294967300]> ∅)
    (__mod_timer 1 4 (init_timers_cpu (u32 4294967290))).2 0); [| apply ex_handler_u32 | lia | lia | lia].
  apply (mod_abs 4294967290 (∅, []) _ 1 4); [apply init_represents; lia | unfold is_u32; lia].
Defined.

Lemma timer_on_time_witness :
  exists ls b', __run_timers 17 (fun _ _ => []) 0 (u32 4294967304) (__mod_timer 1 4 (init_timers_cpu (u32 4294967290))).2 = Some (ls, b') /\
    Z.of_nat (length ls) = 15 /\ forall i l, ls !! i = Some l -> 1 ∈ l <-> 4294967290 + Z.of_nat i = 4294967300.
Proof.
  apply (timer_on_time (fun _ _ => []) 4294967304 4294967290 ∅ (init_timers_cpu (u32 4294967290)) 0 1 4);
    [apply init_represents; lia | unfold is_u32; lia | constructor | constructor | lia | lia | lia].
Defined.

(** When the search of [tv1] wraps around, [next_timer_interrupt] looks at the list of
    [tv2] that has been distributed already instead of the next one: timer 1 is due
    at 0x201 and timer 2 at 0x203, and the answer is 0x203. *)
Definition ex_wheel : option tvec_base :=
  '(_, b) ← __run_timers 300 (fun _ _ => []) 0 0x105 (__mod_timer 1 0x201 (init_timers_cpu 5)).2;
  Some (__mod_timer 2 0x203 b).2.

Lemma next_timer_interrupt_late :
  (next_timer_interrupt <$> ex_wheel) = Some 0x203 /\
  (b ← ex_wheel; '(ls, _) ← __run_timers 300 (fun _ _ => []) 0 0x201 b; last ls) = Some [1].
Proof. vm_compute. split; reflexivity. Qed.

(** Timers that are due in the same tick are not always called in the order they were
    set: one that waited in [tv2] comes after one that was put in [tv1] directly. *)
Lemma timers_not_fifo :
  ('(_, b) ← __run_timers 300 (fun _ _ => []) 0 0x105 (__mod_timer 1 0x203 (init_timers_cpu 5)).2;
   '(ls, _) ← __run_timers 300 (fun _ _ => []) 0 0x203 (__mod_timer 2 0x203 b).2; last ls) = Some [2; 1].
Proof. vm_compute. reflexivity. Qed.
