(* ===== verification/RadixTree.v ===== *)
(** * Radix tree: lib/radix-tree.c, include/linux/radix-tree.h

    A map from 32-bit indices to pointers, in nodes of 64 slots; an item carries two
    tags, kept as bits in its node, and every node above it records which of its
    slots have a tagged item below. A slot is [Empty] ([NULL]), an item or a node. The
    nodes above a slot are only reached from the root, so an update is written as a
    function on the slot that returns its new contents.

    [(height - 1) * 6] is the shift at a node of the given height, and 6 less at each
    level down. The answers of [radix_tree_node_alloc] are a list of booleans; a new
    node is all zero, as the slab constructor and the state in which nodes are freed
    make it. [None] is an oops: a [NULL] pointer followed, an index outside an array or
    a failed [BUG_ON]. *)

From stdpp Require Import gmap sorting.
From S2P Require Import Prelude.

Definition RADIX_TREE_MAP_SHIFT : Z := 6.
Definition RADIX_TREE_MAP_SIZE : nat := 64.
Definition RADIX_TREE_MAP_MASK : Z := 63.
Definition RADIX_TREE_MAX_PATH : nat := 7.

(** The 64 bits of [tags[tag]] are one number. *)
Inductive slot := Empty | Item (p : Z) | Node (count : Z) (tag0 tag1 : Z) (slots : list slot).

Record radix_tree_root := mk_root { height : nat; rnode : slot }.

Definition INIT_RADIX_TREE : radix_tree_root := mk_root 0 Empty.

Definition new_node : slot := Node 0 0 0 (replicate RADIX_TREE_MAP_SIZE Empty).

Definition is_null (s : slot) : bool := match s with Empty => true | _ => false end.

(** [tag] is false for tag 0 and true for tag 1. *)
Definition pick (tag : bool) (t0 t1 : Z) : Z := if tag then t1 else t0.

Definition tag_get (t : Z) (slot_offset : nat) : bool := Z.testbit t (Z.of_nat slot_offset).
Definition tag_set (t : Z) (slot_offset : nat) : Z := if tag_get t slot_offset then t else Z.setbit t (Z.of_nat slot_offset).
Definition tag_clear (t : Z) (slot_offset : nat) : Z := Z.clearbit t (Z.of_nat slot_offset).

(** [~0UL >> (32 - tmp - 1)] with a negative count is not used: the test after it
    replaces the result. *)
Definition __maxindex (height : nat) : Z :=
  let tmp := Z.of_nat height * RADIX_TREE_MAP_SHIFT in
  if 32 <=? tmp then 4294967295 else Z.shiftr (Z.shiftr 4294967295 (32 - tmp - 1)) 1.

(** The table [height_to_maxindex]. *)
Definition radix_tree_maxindex (height : nat) : option Z :=
  if (height <? RADIX_TREE_MAX_PATH)%nat then Some (__maxindex height) else None.

(** [(index >> shift) & RADIX_TREE_MAP_MASK] at a node of height [S h]. *)
Definition slot_offset (h : nat) (index : Z) : nat :=
  Z.to_nat (Z.land (Z.shiftr index (Z.of_nat h * RADIX_TREE_MAP_SHIFT)) RADIX_TREE_MAP_MASK).

(** ** Lookup *)

Fixpoint lookup_loop (h : nat) (index : Z) (s : slot) : option slot :=
  match h with
  | O => Some s
  | S h =>
      match s with
      | Empty => Some Empty
      | Item _ => None
      | Node _ _ _ ss => s' ← ss !! slot_offset h index; lookup_loop h index s'
      end
  end.

(** The item, or [Some None] for [NULL]. *)
Definition as_item (s : slot) : option (option Z) :=
  match s with Empty => Some None | Item p => Some (Some p) | Node _ _ _ _ => None end.

Definition radix_tree_lookup (root : radix_tree_root) (index : Z) : option (option Z) :=
  m ← radix_tree_maxindex (height root);
  if m <? index then Some None else s ← lookup_loop (height root) index (rnode root); as_item s.

(** ** Insertion *)

(** [while (index > radix_tree_maxindex(height)) height++;] The table ends before the
    fuel does. *)
Fixpoint extend_height (fuel : nat) (index : Z) (h : nat) : option nat :=
  match fuel with
  | O => None
  | S fuel => m ← radix_tree_maxindex h; if m <? index then extend_height fuel index (S h) else Some h
  end.

(** The [do]-[while] loop: [n] more nodes are pushed on top. *)
Fixpoint push_nodes (n : nat) (any0 any1 : bool) (alloc : list bool) (root : radix_tree_root)
  : Z * list bool * radix_tree_root :=
  match n with
  | O => (0, alloc, root)
  | S n =>
      match alloc with
      | true :: alloc =>
          let node := Node 1 (if any0 then tag_set 0 0 else 0) (if any1 then tag_set 0 0 else 0)
                        (<[0%nat := rnode root]> (replicate RADIX_TREE_MAP_SIZE Empty)) in
          push_nodes n any0 any1 alloc (mk_root (S (height root)) node)
      | false :: alloc => (- ENOMEM, alloc, root)
      | [] => (- ENOMEM, [], root)
      end
  end.

Definition radix_tree_extend (root : radix_tree_root) (index : Z) (alloc : list bool)
  : option (Z * list bool * radix_tree_root) :=
  h ← extend_height RADIX_TREE_MAX_PATH index (S (height root));
  match rnode root with
  | Empty => Some (0, alloc, mk_root h Empty)
  | Item _ => None
  | Node _ t0 t1 _ => Some (push_nodes (h - height root) (negb (t0 =? 0)) (negb (t1 =? 0)) alloc root)
  end.

(** The descent of [radix_tree_insert]. A node's count goes up when one of its slots
    is filled, by a new node or by the item. *)
Fixpoint insert_slot (h : nat) (index item : Z) (alloc : list bool) (s : slot) : option (Z * list bool * slot) :=
  match h with
  | O => match s with Empty => Some (0, alloc, Item item) | _ => Some (- EEXIST, alloc, s) end
  | S h =>
      let '(got, alloc, s) :=
        match s with
        | Empty => match alloc with
                   | true :: alloc => (true, alloc, new_node)
                   | false :: alloc => (false, alloc, Empty)
                   | [] => (false, [], Empty)
                   end
        | _ => (true, alloc, s)
        end in
      if negb got then Some (- ENOMEM, alloc, Empty)
      else
        match s with
        | Node c t0 t1 ss =>
            let o := slot_offset h index in
            old ← ss !! o;
            '(e, alloc, new) ← insert_slot h index item alloc old;
            let filled := is_null old && negb (is_null new) in
            if (h =? 0)%nat && filled && (tag_get t0 o || tag_get t1 o) then None
            else Some (e, alloc, Node (if filled then c + 1 else c) t0 t1 (<[o := new]> ss))
        | _ => None
        end
  end.

Definition radix_tree_insert (root : radix_tree_root) (index item : Z) (alloc : list bool)
  : option (Z * radix_tree_root) :=
  m ← radix_tree_maxindex (height root);
  '(e, alloc, root) ←
    (if ((index =? 0) && is_null (rnode root)) || (m <? index) then radix_tree_extend root index alloc
     else Some (0, alloc, root));
  if negb (e =? 0) then Some (e, root)
  else
    '(e, _, s) ← insert_slot (height root) index item alloc (rnode root);
    Some (e, mk_root (height root) s).

(** ** Deletion *)

(** One tag of one node of the path: unless a tag was left at a lower node, the bit is
    cleared. The first component is [tags[tag]] afterwards. *)
Definition untag (lft : bool) (t : Z) (o : nat) : bool * Z :=
  if lft then (true, t) else let t := tag_clear t o in (negb (t =? 0), t).

(** The three passes of [radix_tree_delete] over the path: down to the item, up
    clearing its tags, and up removing the slots that become empty. [inl] when there
    is no item: nothing is changed. Otherwise the item, which tags are left ([tags]),
    the new contents of the slot and the nodes freed. The second pass may end before
    the root, when it has nothing more to do. *)
Fixpoint delete_loop (h : nat) (index : Z) (s : slot) : option (unit + Z * (bool * bool) * slot * list slot) :=
  match h with
  | O => match s with
         | Empty => Some (inl tt)
         | Item p => Some (inr (p, (false, false), Empty, []))
         | Node _ _ _ _ => None
         end
  | S h =>
      match s with
      | Empty => Some (inl tt)
      | Item _ => None
      | Node c t0 t1 ss =>
          let o := slot_offset h index in
          old ← ss !! o;
          r ← delete_loop h index old;
          match r with
          | inl _ => Some (inl tt)
          | inr (p, (l0, l1), new, freed) =>
              let '(l0, t0) := untag l0 t0 o in
              let '(l1, t1) := untag l1 t1 o in
              let ss := <[o := new]> ss in
              let c := if is_null new then c - 1 else c in
              if is_null new && (c =? 0) then Some (inr (p, (l0, l1), Empty, Node c t0 t1 ss :: freed))
              else Some (inr (p, (l0, l1), Node c t0 t1 ss, freed))
          end
      end
  end.

(** The item, the new tree and the nodes freed. An item at height 0 would have no node
    to clear its tags in. *)
Definition radix_tree_delete (root : radix_tree_root) (index : Z) : option (option Z * radix_tree_root * list slot) :=
  m ← radix_tree_maxindex (height root);
  if m <? index then Some (None, root, [])
  else
    r ← delete_loop (height root) index (rnode root);
    match r with
    | inl _ => Some (None, root, [])
    | inr (p, _, s, freed) => if (height root =? 0)%nat then None else Some (Some p, mk_root (if is_null s then 0 else height root) s, freed)
    end.

(** ** Tags *)

Definition set_tag (tag : bool) (c t0 t1 : Z) (ss : list slot) (t : Z) : slot :=
  if tag then Node c t0 t ss else Node c t t1 ss.

Fixpoint tag_set_loop (h : nat) (index : Z) (tag : bool) (s : slot) : option (slot * slot) :=
  match h with
  | O => Some (s, s)
  | S h =>
      match s with
      | Node c t0 t1 ss =>
          let o := slot_offset h index in
          old ← ss !! o;
          if is_null old then None
          else
            '(r, new) ← tag_set_loop h index tag old;
            Some (r, set_tag tag c t0 t1 (<[o := new]> ss) (tag_set (pick tag t0 t1) o))
      | _ => None
      end
  end.

Definition radix_tree_tag_set (root : radix_tree_root) (index : Z) (tag : bool) : option (option Z * radix_tree_root) :=
  m ← radix_tree_maxindex (height root);
  if m <? index then Some (None, root)
  else
    '(r, s) ← tag_set_loop (height root) index tag (rnode root);
    p ← as_item r;
    Some (p, mk_root (height root) s).

(** Down to the item and up clearing the bits until a node has another one. The
    boolean says that there was one. *)
Fixpoint tag_clear_loop (h : nat) (index : Z) (tag : bool) (s : slot) : option (option (Z * bool * slot)) :=
  match h with
  | O => match s with Empty => Some None | Item p => Some (Some (p, false, s)) | Node _ _ _ _ => None end
  | S h =>
      match s with
      | Empty => Some None
      | Item _ => None
      | Node c t0 t1 ss =>
          let o := slot_offset h index in
          old ← ss !! o;
          r ← tag_clear_loop h index tag old;
          match r with
          | None => Some None
          | Some (p, lft, new) =>
              let '(lft, t) := untag lft (pick tag t0 t1) o in
              Some (Some (p, lft, set_tag tag c t0 t1 (<[o := new]> ss) t))
          end
      end
  end.

Definition radix_tree_tag_clear (root : radix_tree_root) (index : Z) (tag : bool) : option (option Z * radix_tree_root) :=
  m ← radix_tree_maxindex (height root);
  if m <? index then Some (None, root)
  else
    r ← tag_clear_loop (height root) index tag (rnode root);
    match r with
    | None => Some (None, root)
    | Some (p, _, s) => if (height root =? 0)%nat then None else Some (Some p, mk_root (height root) s)
    end.

Definition radix_tree_tagged (root : radix_tree_root) (tag : bool) : option bool :=
  match rnode root with
  | Empty => Some false
  | Item _ => None
  | Node _ t0 t1 _ => Some (negb (pick tag t0 t1 =? 0))
  end.

(** [radix_tree_tag_get]: the [BUG_ON] when a tag is set below one that is not. *)
Fixpoint tag_get_loop (h : nat) (index : Z) (tag unset : bool) (s : slot) : option bool :=
  match h with
  | O => None
  | S h =>
      match s with
      | Empty => Some false
      | Item _ => None
      | Node _ t0 t1 ss =>
          let o := slot_offset h index in
          let b := tag_get (pick tag t0 t1) o in
          let unset := unset || negb b in
          match h with
          | O => if b && unset then None else Some b
          | S _ => s' ← ss !! o; tag_get_loop h index tag unset s'
          end
      end
  end.

Definition radix_tree_tag_get (root : radix_tree_root) (index : Z) (tag : bool) : option bool :=
  m ← radix_tree_maxindex (height root);
  if m <? index then Some false
  else match rnode root with Empty => Some false | _ => tag_get_loop (height root) index tag false (rnode root) end.

(** ** The pool of nodes *)

(** [kmem] holds the answers of [kmem_cache_alloc], [nr] the number of preloaded nodes;
    [wait] is [__GFP_WAIT]. *)
Definition radix_tree_node_alloc (wait : bool) (kmem : list bool) (nr : nat) : bool * list bool * nat :=
  let (ret, kmem) := match kmem with a :: kmem => (a, kmem) | [] => (false, []) end in
  if negb ret && negb wait then match nr with O => (false, kmem, O) | S nr => (true, kmem, nr) end else (ret, kmem, nr).

(** The first [n] answers of [radix_tree_node_alloc]. *)
Fixpoint node_allocs (n : nat) (wait : bool) (kmem : list bool) (nr : nat) : list bool :=
  match n with
  | O => []
  | S n => let '(ret, kmem, nr) := radix_tree_node_alloc wait kmem nr in ret :: node_allocs n wait kmem nr
  end.

(** Preemption is on during each allocation: [env] gives its answer and the number of
    nodes in the pool of the CPU the task is on afterwards. *)
Fixpoint radix_tree_preload (nr : nat) (env : list (bool * nat)) : option (Z * nat) :=
  if (nr <? RADIX_TREE_MAX_PATH)%nat then
    match env with
    | [] => None
    | (false, nr) :: _ => Some (- ENOMEM, nr)
    | (true, nr) :: env => if (nr <? RADIX_TREE_MAX_PATH)%nat then radix_tree_preload (S nr) env else radix_tree_preload nr env
    end
  else Some (0, nr).

(** ** Searching many items

    [__lookup] and [__lookup_tag] differ in what they look for: a slot that is not
    [NULL] ([sel = None]) or one with a tag. *)

Definition hit (sel : option bool) (t0 t1 : Z) (ss : list slot) (i : nat) : option bool :=
  match sel with
  | None => s ← ss !! i; Some (negb (is_null s))
  | Some tag => if tag_get (pick tag t0 t1) i then s ← ss !! i; if is_null s then None else Some true else Some false
  end.

(** [index &= ~((1UL << shift) - 1); index += 1UL << shift;] *)
Definition next_span (h : nat) (index : Z) : Z :=
  let shift := Z.of_nat h * RADIX_TREE_MAP_SHIFT in u32 (Z.ldiff index (Z.ones shift) + Z.shiftl 1 shift).

(** The [for] loop over the slots of a node: the slot found, if any, and the index. *)
Fixpoint skip (n : nat) (sel : option bool) (h : nat) (t0 t1 : Z) (ss : list slot) (i : nat) (index : Z)
  : option (option nat * Z) :=
  match n with
  | O => Some (None, index)
  | S n =>
      b ← hit sel t0 t1 ss i;
      if (b : bool) then Some (Some i, index)
      else let index := next_span h index in
           if index =? 0 then Some (None, index) else skip n sel h t0 t1 ss (S i) index
  end.

(** The loop at the bottom level. *)
Fixpoint grab (n : nat) (sel : option bool) (t0 t1 : Z) (ss : list slot) (j : nat) (index : Z) (max_items : nat)
  : option (list Z * Z) :=
  match n with
  | O => Some ([], index)
  | S n =>
      let index := u32 (index + 1) in
      b ← hit sel t0 t1 ss j;
      if (b : bool) then
        s ← ss !! j;
        match s with
        | Item p =>
            if (max_items =? 1)%nat then Some ([p], index)
            else '(l, index) ← grab n sel t0 t1 ss (S j) index (max_items - 1); Some (p :: l, index)
        | _ => None
        end
      else grab n sel t0 t1 ss (S j) index max_items
  end.

Fixpoint __lookup (h : nat) (sel : option bool) (index : Z) (max_items : nat) (s : slot) : option (list Z * Z) :=
  match h with
  | O => Some ([], index)
  | S h =>
      match s with
      | Node _ t0 t1 ss =>
          let o := slot_offset h index in
          '(f, index) ← skip (RADIX_TREE_MAP_SIZE - o) sel h t0 t1 ss o index;
          match f with
          | None => Some ([], index)
          | Some i =>
              if (h =? 0)%nat then
                let j := slot_offset 0 index in grab (RADIX_TREE_MAP_SIZE - j) sel t0 t1 ss j index max_items
              else s' ← ss !! i; __lookup h sel index max_items s'
          end
      | _ => None
      end
  end.

Definition __lookup_tag (h : nat) (tag : bool) := __lookup h (Some tag).

(** [radix_tree_gang_lookup] and [radix_tree_gang_lookup_tag]. *)
Fixpoint gang_loop (fuel : nat) (root : radix_tree_root) (sel : option bool) (max_index cur : Z) (max_items : nat)
  : option (list Z) :=
  match fuel, max_items with
  | _, O => Some []
  | O, _ => None
  | S fuel, _ =>
      if max_index <? cur then Some []
      else
        '(l, next_index) ← __lookup (height root) sel cur max_items (rnode root);
        if next_index =? 0 then Some l
        else l' ← gang_loop fuel root sel max_index next_index (max_items - length l); Some (l ++ l')
  end.

Definition gang_lookup (fuel : nat) (root : radix_tree_root) (sel : option bool) (first_index : Z) (max_items : nat)
  : option (list Z) :=
  m ← radix_tree_maxindex (height root); gang_loop fuel root sel m first_index max_items.

Definition radix_tree_gang_lookup (fuel : nat) (root : radix_tree_root) := gang_lookup fuel root None.
Definition radix_tree_gang_lookup_tag (fuel : nat) (root : radix_tree_root) (tag : bool) := gang_lookup fuel root (Some tag).

(** * Correctness *)

(** ** What a tree holds *)

(** At height [h] only the low [6 * h] bits of an index count. *)
Definition span (h : nat) : Z := 64 ^ Z.of_nat h.

Fixpoint get (h : nat) (s : slot) (i : Z) : option Z :=
  match h with
  | O => match s with Item p => Some p | _ => None end
  | S h => match s with
           | Node _ _ _ ss => match ss !! slot_offset h i with Some s' => get h s' i | None => None end
           | _ => None
           end
  end.

(** The tag of an item is a bit of the node above it. *)
Fixpoint tagged (h : nat) (tag : bool) (s : slot) (i : Z) : bool :=
  match h with
  | O => false
  | S h => match s with
           | Node _ t0 t1 ss =>
               match h with
               | O => tag_get (pick tag t0 t1) (slot_offset 0 i)
               | S _ => match ss !! slot_offset h i with Some s' => tagged h tag s' i | None => false end
               end
           | _ => false
           end
  end.

Definition any_tag (tag : bool) (s : slot) : bool :=
  match s with Node _ t0 t1 _ => negb (pick tag t0 t1 =? 0) | _ => false end.

(** The bits of a node: of items at the bottom, else of the slots with a tag below. *)
Definition tag_ok (h : nat) (tag : bool) (t : Z) (ss : list slot) : Prop :=
  0 <= t < 2 ^ 64 /\
  forall i s, ss !! i = Some s ->
    if (h =? 0)%nat then tag_get t i = true -> is_null s = false else tag_get t i = any_tag tag s.

#[local] Notation weight := (weight_by is_null).

Fixpoint wf (h : nat) (s : slot) : Prop :=
  match s with
  | Empty => True
  | Item _ => h = O
  | Node c t0 t1 ss =>
      match h with
      | O => False
      | S h => length ss = 64%nat /\ c = filled_by is_null ss /\ Forall (wf h) ss /\ tag_ok h false t0 ss /\ tag_ok h true t1 ss
      end
  end.

(** ** Indices *)

Lemma offset_eq h i : slot_offset h i = Z.to_nat ((i / span h) mod 64).
Proof.
  unfold slot_offset, span, RADIX_TREE_MAP_SHIFT, RADIX_TREE_MAP_MASK. f_equal.
  rewrite (Z.land_ones _ 6) by lia. f_equal. rewrite Z.shiftr_div_pow2 by lia. f_equal.
  change 64 with (2 ^ 6). rewrite <- Z.pow_mul_r by lia. f_equal. lia.
Qed.

Lemma offset_lt h i : (slot_offset h i < 64)%nat.
Proof. rewrite offset_eq. pose proof (Z.mod_pos_bound (i / span h) 64). lia. Qed.

Lemma span_pos h : 0 < span h.
Proof. unfold span. apply Z.pow_pos_nonneg; lia. Qed.

Lemma span_S h : span (S h) = 64 * span h.
Proof. unfold span. rewrite Nat2Z.inj_succ, Z.pow_succ_r by lia. done. Qed.

(** The indices that are one at height [h]. *)
Definition agree (h : nat) (i j : Z) : Prop := i mod span h = j mod span h.

Lemma mod_span_S h i : i mod span (S h) = ((i / span h) mod 64) * span h + i mod span h.
Proof.
  pose proof (span_pos h). rewrite span_S, Z.mul_comm, Z.rem_mul_r by lia. lia.
Qed.

Lemma agree_S h i j : agree (S h) i j <-> slot_offset h i = slot_offset h j /\ agree h i j.
Proof.
  unfold agree. rewrite !mod_span_S, !offset_eq. pose proof (span_pos h) as Hs.
  pose proof (Z.mod_pos_bound i (span h) Hs). pose proof (Z.mod_pos_bound j (span h) Hs).
  pose proof (Z.mod_pos_bound (i / span h) 64). pose proof (Z.mod_pos_bound (j / span h) 64).
  split; [| intros [E1 E2]; apply Z2Nat.inj in E1; [congruence | lia | lia]].
  intros E. assert ((i / span h) mod 64 = (j / span h) mod 64) as E1 by nia. split; [by rewrite E1 | nia].
Qed.

#[export] Instance agree_dec h i j : Decision (agree h i j) := Z.eq_dec _ _.

Lemma agree_refl h i : agree h i i.
Proof. done. Qed.

(** *** Counting and replacing slots *)

Lemma null_empty s : is_null s = true -> s = Empty.
Proof. by destruct s. Qed.

Lemma lookup_child {ss : list slot} (L : length ss = 64%nat) h i : exists s, ss !! slot_offset h i = Some s.
Proof. apply lookup_lt_is_Some_2. rewrite L. apply offset_lt. Qed.

(** A node with one slot replaced. *)
Lemma get_insert h c t0 t1 ss i new j : length ss = 64%nat ->
  get (S h) (Node c t0 t1 (<[slot_offset h i := new]> ss)) j =
  if decide (slot_offset h i = slot_offset h j) then get h new j else get (S h) (Node c t0 t1 ss) j.
Proof.
  intros L. simpl. destruct (decide (slot_offset h i = slot_offset h j)) as [<- | H].
  - by rewrite list_lookup_insert_eq by (rewrite L; apply offset_lt).
  - by rewrite list_lookup_insert_ne.
Qed.

Lemma tagged_insert h tag c t0 t1 t0' t1' ss i new j : length ss = 64%nat ->
  tagged (S (S h)) tag (Node c t0' t1' (<[slot_offset (S h) i := new]> ss)) j =
  if decide (slot_offset (S h) i = slot_offset (S h) j) then tagged (S h) tag new j else tagged (S (S h)) tag (Node c t0 t1 ss) j.
Proof.
  intros L. cbn [tagged]. destruct (decide (slot_offset (S h) i = slot_offset (S h) j)) as [<- | H].
  - by rewrite list_lookup_insert_eq by (rewrite L; apply offset_lt).
  - by rewrite list_lookup_insert_ne.
Qed.

Lemma tag_get_set t o o' : tag_get (tag_set t o) o' = (bool_decide (o = o') || tag_get t o').
Proof.
  unfold tag_set. destruct (tag_get t o) eqn:E.
  - case_bool_decide as H; [by subst | done].
  - unfold tag_get in *. case_bool_decide as H; [subst; apply Z.setbit_eq; lia |]. rewrite Z.setbit_neq by lia. done.
Qed.

Lemma tag_get_clear t o o' : tag_get (tag_clear t o) o' = negb (bool_decide (o = o')) && tag_get t o'.
Proof.
  unfold tag_clear, tag_get. case_bool_decide as H; [subst; by rewrite Z.clearbit_eq |]. by rewrite Z.clearbit_neq by lia.
Qed.

Lemma tag_range t : 0 <= t < 2 ^ 64 <-> 0 <= t /\ forall n, 64 <= n -> Z.testbit t n = false.
Proof.
  split.
  - intros [H0 H1]. split; [done |]. intros n Hn. destruct (decide (t = 0)) as [-> | Ht]; [apply Z.bits_0 |].
    apply Z.bits_above_log2; [done |]. apply Z.lt_le_trans with 64; [apply Z.log2_lt_pow2; lia | done].
  - intros [H0 H]. split; [done |]. destruct (decide (t = 0)) as [-> | Ht]; [lia |].
    apply Z.log2_lt_pow2; [lia |]. destruct (decide (64 <= Z.log2 t)) as [Hl |]; [| lia].
    pose proof (Z.bit_log2 t ltac:(lia)) as Hb. rewrite H in Hb by done. done.
Qed.

Lemma tag_set_range t o : (o < 64)%nat -> 0 <= t < 2 ^ 64 -> 0 <= tag_set t o < 2 ^ 64.
Proof.
  intros Ho [H0 H]%tag_range. apply tag_range. unfold tag_set. case_match; [done |]. split.
  - rewrite Z.setbit_spec'. apply Z.lor_nonneg. split; [done | lia].
  - intros n Hn. rewrite Z.setbit_neq by lia. auto.
Qed.

Lemma tag_clear_range t o : 0 <= t < 2 ^ 64 -> 0 <= tag_clear t o < 2 ^ 64.
Proof.
  intros [H0 H]%tag_range. apply tag_range. unfold tag_clear. split.
  - rewrite Z.clearbit_spec'. apply Z.ldiff_nonneg. auto.
  - intros n Hn. rewrite Z.clearbit_eqb, H by done. done.
Qed.

(** A word of tags is 0 exactly when no bit is set. *)
Lemma tag_zero t : 0 <= t < 2 ^ 64 -> t = 0 <-> forall o, (o < 64)%nat -> tag_get t o = false.
Proof.
  intros [H0 H]%tag_range. split; [intros ->; intros; apply Z.bits_0 |]. intros Hz. apply Z.bits_inj'. intros n Hn. rewrite Z.bits_0.
  destruct (decide (64 <= n)); [auto |]. specialize (Hz (Z.to_nat n) ltac:(lia)). unfold tag_get in Hz. by rewrite Z2Nat.id in Hz.
Qed.

(** ** Replacing a slot of a well-formed node *)

Lemma wf_node h c t0 t1 ss : wf (S h) (Node c t0 t1 ss) ->
  length ss = 64%nat /\ c = filled_by is_null ss /\ Forall (wf h) ss /\ forall tag, tag_ok h tag (pick tag t0 t1) ss.
Proof. intros (L & C & F & T0 & T1). split; [done |]. split; [done |]. split; [done |]. by intros []. Qed.

Lemma slot_wf_replace h c t0 t1 ss o old new c' t0' t1' :
  wf (S h) (Node c t0 t1 ss) -> ss !! o = Some old -> wf h new -> c' = c - weight old + weight new ->
  (forall tag, tag_ok h tag (pick tag t0' t1') (<[o := new]> ss)) -> wf (S h) (Node c' t0' t1' (<[o := new]> ss)).
Proof.
  intros (L & C & F & _) Ho Wn -> T. split; [by rewrite length_insert |]. split; [by rewrite (filled_by_insert is_null _ _ _ _ Ho), C |].
  split; [by apply Forall_insert |]. split; [apply (T false) | apply (T true)].
Qed.

(** The tags stay right when the slot keeps the tags below it. *)
Lemma tag_ok_same h tag t ss o old new :
  tag_ok h tag t ss -> ss !! o = Some old -> (is_null old = false -> is_null new = false) -> any_tag tag new = any_tag tag old ->
  tag_ok h tag t (<[o := new]> ss).
Proof.
  intros [R T] Ho Hn Ha. split; [done |]. intros i s Hi.
  destruct (decide (o = i)) as [<- | Hne].
  - rewrite list_lookup_insert_eq in Hi by (by eapply lookup_lt_Some). injection Hi as <-. specialize (T o old Ho).
    case_match; [auto | by rewrite Ha].
  - rewrite list_lookup_insert_ne in Hi by done. by apply T.
Qed.

Lemma wf_empty h : wf h Empty.
Proof. by destruct h. Qed.

Lemma wf_new_node h : wf (S h) new_node.
Proof.
  split; [done |]. split; [done |]. split; [apply Forall_replicate, wf_empty |].
  split; (split; [lia |]); intros i s [-> _]%lookup_replicate; unfold tag_get; rewrite Z.bits_0; by case_match.
Qed.

Lemma get_new_node h j : get (S h) new_node j = None.
Proof.
  unfold new_node. cbn [get]. rewrite lookup_replicate_2 by apply offset_lt. by destruct h.
Qed.

Lemma tagged_new_node h tag j : tagged (S h) tag new_node j = false.
Proof.
  unfold new_node. cbn [tagged]. destruct h.
  - destruct tag; apply Z.bits_0.
  - rewrite lookup_replicate_2 by apply offset_lt. done.
Qed.

Lemma get_empty h j : get h Empty j = None.
Proof. by destruct h. Qed.

Lemma tagged_empty h tag j : tagged h tag Empty j = false.
Proof. by destruct h. Qed.

(** Replacing a slot by one that holds other items at some indices. *)
Lemma get_replace h c t0 t1 c' t0' t1' ss index old new (f : Z -> option Z) :
  length ss = 64%nat -> ss !! slot_offset h index = Some old ->
  (forall j, get h new j = if decide (agree h index j) then f j else get h old j) ->
  forall j, get (S h) (Node c' t0' t1' (<[slot_offset h index := new]> ss)) j =
    if decide (agree (S h) index j) then f j else get (S h) (Node c t0 t1 ss) j.
Proof.
  intros L Ho Hg j. rewrite get_insert by done. destruct (decide (slot_offset h index = slot_offset h j)) as [E | E].
  - rewrite Hg. destruct (decide (agree h index j)), (decide (agree (S h) index j)) as [A | A]; try done.
    + destruct A. by apply agree_S.
    + by apply agree_S in A as [_ ?].
    + simpl. by rewrite <- E, Ho.
  - rewrite decide_False; [done |]. by intros [? _]%agree_S.
Qed.

(** The same for the tags, above the bottom level. *)
Lemma tagged_replace h tag c t0 t1 c' t0' t1' ss index old new (f : Z -> bool) :
  length ss = 64%nat -> ss !! slot_offset (S h) index = Some old ->
  (forall j, tagged (S h) tag new j = if decide (agree (S h) index j) then f j else tagged (S h) tag old j) ->
  forall j, tagged (S (S h)) tag (Node c' t0' t1' (<[slot_offset (S h) index := new]> ss)) j =
    if decide (agree (S (S h)) index j) then f j else tagged (S (S h)) tag (Node c t0 t1 ss) j.
Proof.
  intros L Ho Hg j. rewrite (tagged_insert h tag c' t0 t1) by done. destruct (decide (slot_offset (S h) index = slot_offset (S h) j)) as [E | E].
  - rewrite Hg. destruct (decide (agree (S h) index j)), (decide (agree (S (S h)) index j)) as [A | A]; try done.
    + destruct A. by apply agree_S.
    + by apply agree_S in A as [_ ?].
    + cbn [tagged]. by rewrite <- E, Ho.
  - rewrite decide_False; [done |]. by intros [? _]%agree_S.
Qed.

Lemma get_agree h s i j : agree h i j -> get h s i = get h s j.
Proof.
  revert s. induction h as [| h IH]; intros s A; [done |]. apply agree_S in A as [E A]. simpl. destruct s; try done.
  rewrite E. case_match; [by apply IH | done].
Qed.

Lemma tagged_agree h tag s i j : agree h i j -> tagged h tag s i = tagged h tag s j.
Proof.
  revert s. induction h as [| h IH]; intros s A; [done |]. apply agree_S in A as [E A]. cbn [tagged]. destruct s; try done.
  destruct h; [by rewrite E |]. rewrite E. case_match; [by apply IH | done].
Qed.

(** ** Insertion *)

(** The first [n] answers of the allocator are nodes. *)
Definition enough (n : nat) (alloc : list bool) : Prop := take n alloc = replicate n true.

Lemma enough_S n alloc : enough (S n) alloc -> enough n alloc.
Proof.
  unfold enough. revert alloc. induction n as [| n IH]; intros [| a alloc] H; simpl in *; try done. injection H as -> H. f_equal. by apply IH.
Qed.

Definition insert_done (h n : nat) (index item : Z) (s s' : slot) (alloc : list bool) (e : Z) : Prop :=
  e = 0 /\ get h s index = None /\ is_null s' = false /\
    (forall j, get h s' j = if decide (agree h index j) then Some item else get h s j) \/
  e = - EEXIST /\ is_Some (get h s index) /\ s' = s \/
  e = - ENOMEM /\ get h s index = None /\ (is_null s = false -> is_null s' = false) /\ (forall j, get h s' j = get h s j) /\ ~ enough n alloc.

(** What the descent from a slot of height [h] does. [n] nodes are enough for it. *)
Definition insert_ok (h n : nat) (index item : Z) (alloc : list bool) (s : slot) (r : option (Z * list bool * slot)) : Prop :=
  exists e alloc' s', r = Some (e, alloc', s') /\ wf h s' /\ insert_done h n index item s s' alloc e /\
    (forall tag, any_tag tag s' = any_tag tag s) /\ (forall tag j, tagged h tag s' j = tagged h tag s j).

(** An empty slot of a bottom node has no tag. *)
Lemma no_stale_tag h t0 t1 ss o old b :
  (forall tag, tag_ok h tag (pick tag t0 t1) ss) -> ss !! o = Some old ->
  (h =? 0)%nat && (is_null old && b) && (tag_get t0 o || tag_get t1 o) = false.
Proof.
  intros T Ho. destruct h; [| done]. cbn [Nat.eqb andb]. destruct (is_null old) eqn:En; [| done].
  pose proof (proj2 (T false) _ _ Ho) as T0. pose proof (proj2 (T true) _ _ Ho) as T1. simpl in T0, T1. rewrite En in T0, T1.
  destruct (tag_get t0 o); [by specialize (T0 eq_refl) |]. destruct (tag_get t1 o); [by specialize (T1 eq_refl) |].
  by destruct b.
Qed.

Lemma insert_node_spec h index item alloc c t0 t1 ss : wf (S h) (Node c t0 t1 ss) ->
  (forall s, wf h s -> insert_ok h h index item alloc s (insert_slot h index item alloc s)) ->
  insert_ok (S h) h index item alloc (Node c t0 t1 ss)
    (old ← ss !! slot_offset h index;
     '(e, alloc, new) ← insert_slot h index item alloc old;
     let filled := is_null old && negb (is_null new) in
     if (h =? 0)%nat && filled && (tag_get t0 (slot_offset h index) || tag_get t1 (slot_offset h index)) then None
     else Some (e, alloc, Node (if filled then c + 1 else c) t0 t1 (<[slot_offset h index := new]> ss))).
Proof.
  intros W IH. pose proof (wf_node _ _ _ _ _ W) as (L & C & F & T).
  destruct (lookup_child L h index) as [old Ho]. rewrite Ho. cbn [mbind option_bind].
  pose proof (proj1 (Forall_lookup _ _) F _ _ Ho) as Wo. destruct (IH old Wo) as (e & al & new & -> & Wn & D & An & Tn).
  cbn [mbind option_bind].
  assert (is_null old = false -> is_null new = false) as Nn by (destruct D as [(_ & _ & ? & _) | [(_ & _ & ->) | (_ & _ & ? & _)]]; auto).
  assert (get (S h) (Node c t0 t1 ss) index = get h old index) as Gi by (cbn [get]; by rewrite Ho).
  cbv zeta. rewrite (no_stale_tag h t0 t1 ss) by done.
  eexists _, _, _. split; [done |]. split.
  { eapply slot_wf_replace; [exact W | exact Ho | done | | intros tag; eapply tag_ok_same; eauto].
    unfold weight_by. destruct (is_null old); simpl; [destruct (is_null new); simpl; lia | rewrite (Nn eq_refl); lia]. }
  split; [| split; [by intros [] |]].
  2: { intros tag j. destruct h as [| h]; [done |]. rewrite (tagged_insert h tag _ t0 t1) by done. case_decide as E; [| done].
       rewrite Tn. cbn [tagged]. by rewrite <- E, Ho. }
  destruct D as [(-> & G & _ & Hg) | [(-> & G & ->) | (-> & G & _ & Hg & Ne)]].
  - left. split; [done |]. split; [by rewrite Gi |]. split; [done |]. by eapply get_replace.
  - right. left. split; [done |]. split; [by rewrite Gi |]. replace (is_null old && negb (is_null old)) with false by (by destruct old).
    by rewrite list_insert_id.
  - right. right. split; [done |]. split; [by rewrite Gi |]. split; [done |]. split; [| done]. intros j. rewrite get_insert by done.
    case_decide as E; [| done]. rewrite Hg. cbn [get]. by rewrite <- E, Ho.
Qed.

(** No node for an empty slot. *)
Lemma insert_no_node h index item alloc alloc' : ~ enough (S h) alloc ->
  insert_ok (S h) (S h) index item alloc Empty (Some (- ENOMEM, alloc', Empty)).
Proof.
  intros Ne. exists (- ENOMEM), alloc', Empty. split; [done |]. split; [done |]. split; [| done].
  right. right. by rewrite !get_empty.
Qed.

Lemma insert_slot_spec : forall h index item alloc s, wf h s ->
  insert_ok h h index item alloc s (insert_slot h index item alloc s).
Proof.
  induction h as [| h IH]; intros index item alloc s W.
  { destruct s as [| p |]; [| | done]; cbn [insert_slot].
    - exists 0, alloc, (Item item). split; [done |]. split; [done |]. split; [left | done]. split; [done |]. split; [done |]. split; [done |].
      intros j. simpl. rewrite decide_True; [done |]. unfold agree, span. by rewrite !Z.mod_1_r.
    - exists (- EEXIST), alloc, (Item p). split; [done |]. split; [done |]. split; [right; left | done]. split; [done |]. split; [by eexists | done]. }
  cbn [insert_slot]. destruct s as [| p | c t0 t1 ss]; [| done |].
  - destruct alloc as [| [] alloc]; [by apply insert_no_node | | by apply insert_no_node].
    destruct (insert_node_spec h index item alloc 0 0 0 _ (wf_new_node h) (IH index item alloc)) as (e & al & s' & E & W' & D & An & Tn).
    exists e, al, s'. split; [exact E |]. split; [done |].
    split; [| split; [intros tag; rewrite An; by destruct tag | intros tag j; rewrite Tn, tagged_empty; apply tagged_new_node]].
    assert (forall j, get (S h) (Node 0 0 0 (replicate RADIX_TREE_MAP_SIZE Empty)) j = get (S h) Empty j) as Gn
      by (intros j; rewrite get_empty; apply get_new_node).
    destruct D as [(-> & _ & Nn & Hg) | [(_ & [p Gp] & _) | (-> & _ & Nn & Hg & Ne)]].
    + left. split; [done |]. split; [done |]. split; [done |]. intros j. rewrite Hg. case_decide; [done |]. apply Gn.
    + by rewrite Gn in Gp.
    + right. right. split; [done |]. split; [done |]. split; [done |]. split; [intros j; by rewrite Hg, Gn |].
      intros En. apply Ne. by injection En.
  - destruct (insert_node_spec h index item alloc c t0 t1 ss W (IH index item alloc)) as (e & al & s' & E & W' & D & An & Tn).
    exists e, al, s'. split; [exact E |]. split; [done |]. split; [| done].
    destruct D as [D | [D | (-> & G & Nn & Hg & Ne)]]; [by left | by right; left |]. right. right.
    split; [done |]. split; [done |]. split; [done |]. split; [done |]. intros En. by apply Ne, enough_S.
Qed.

(** ** The whole tree *)

(** [maxindex] is the largest index below the span of the height. *)
Definition maxindex (h : nat) : Z := Z.min (span h - 1) 4294967295.

Lemma radix_tree_maxindex_eq h : (h <= 6)%nat -> radix_tree_maxindex h = Some (maxindex h).
Proof. intros H. do 7 (destruct h as [| h]; [by vm_compute |]). lia. Qed.

Lemma maxindex_6 : maxindex 6 = 4294967295.
Proof. done. Qed.

Lemma maxindex_S h : (h <= 5)%nat -> maxindex h = span h - 1.
Proof. intros H. do 6 (destruct h as [| h]; [by vm_compute |]). lia. Qed.

Lemma maxindex_mono h h' : (h <= h')%nat -> maxindex h <= maxindex h'.
Proof. intros H. unfold maxindex, span. pose proof (Z.pow_le_mono_r 64 (Z.of_nat h) (Z.of_nat h')). lia. Qed.

(** The invariant. A tree without a node has height 0, except after an insertion that
    found no memory for the first node. *)
Definition in_range (h : nat) (s : slot) : Prop := forall i, 4294967295 < i < span h -> get h s i = None.

Definition root_ok (root : radix_tree_root) : Prop :=
  (height root <= 6)%nat /\ wf (height root) (rnode root) /\ in_range (height root) (rnode root) /\
  (height root = 0%nat -> rnode root = Empty).

Definition settled (root : radix_tree_root) : Prop := rnode root = Empty -> height root = 0%nat.

Definition index_ok (i : Z) : Prop := 0 <= i <= 4294967295.

(** The map the tree stands for, and its two sets of tagged indices. *)
Definition items (root : radix_tree_root) (i : Z) : option Z :=
  if maxindex (height root) <? i then None else get (height root) (rnode root) i.

Definition tags (root : radix_tree_root) (tag : bool) (i : Z) : bool :=
  negb (maxindex (height root) <? i) && tagged (height root) tag (rnode root) i.

Lemma agree_eq h i j : (h <= 6)%nat -> index_ok i -> index_ok j -> i <= maxindex h -> j <= maxindex h -> agree h i j -> i = j.
Proof.
  unfold agree, maxindex, index_ok. intros. rewrite !Z.mod_small in * by lia. done.
Qed.

(** A slot pushed one level down is at the same indices. *)
Lemma offset_small h i : 0 <= i < span h -> slot_offset h i = 0%nat.
Proof. intros H. by rewrite offset_eq, Z.div_small. Qed.

Lemma offset_large h i : span h <= i < span (S h) -> slot_offset h i <> 0%nat.
Proof.
  rewrite span_S. intros H. rewrite offset_eq. pose proof (span_pos h).
  assert (1 <= i / span h) by (apply Z.div_le_lower_bound; lia).
  assert (i / span h < 64) by (apply Z.div_lt_upper_bound; lia). rewrite Z.mod_small by lia. lia.
Qed.

Lemma maxindex_cases h i : (h <= 5)%nat -> index_ok i ->
  (i <= maxindex h /\ i <= maxindex (S h) /\ slot_offset h i = 0%nat) \/
  (maxindex h < i /\ i <= maxindex (S h) /\ slot_offset h i <> 0%nat) \/ (maxindex h < i /\ maxindex (S h) < i).
Proof.
  intros Hh [H0 H1]. pose proof (maxindex_mono h (S h)) as Hm. rewrite maxindex_S in * by done.
  destruct (decide (i < span h)).
  - left. split; [lia |]. split; [lia |]. by apply offset_small.
  - right. destruct (decide (i <= maxindex (S h))) as [Hi |]; [left | right; lia].
    split; [lia |]. split; [done |]. apply offset_large. unfold maxindex in Hi. lia.
Qed.

(** The node pushed on top of [s]. *)
Definition top (any : bool -> bool) (s : slot) : slot :=
  Node 1 (if any false then tag_set 0 0 else 0) (if any true then tag_set 0 0 else 0)
    (<[0%nat := s]> (replicate RADIX_TREE_MAP_SIZE Empty)).

Lemma top_slot s o : (o < 64)%nat ->
  (<[0%nat := s]> (replicate RADIX_TREE_MAP_SIZE Empty)) !! o = Some (if decide (o = 0%nat) then s else Empty).
Proof.
  intros Ho. case_decide as E; [by subst |]. rewrite list_lookup_insert_ne by done. by apply lookup_replicate_2.
Qed.

Lemma top_tag_ok h tag (any : bool) s : any = any_tag tag s ->
  tag_ok (S h) tag (if any then tag_set 0 0 else 0) (<[0%nat := s]> (replicate RADIX_TREE_MAP_SIZE Empty)).
Proof.
  intros ->. split; [destruct (any_tag tag s); by vm_compute |]. intros i s' Hi. pose proof (lookup_lt_Some _ _ _ Hi) as Hl.
  rewrite length_insert, length_replicate in Hl. rewrite top_slot in Hi by done. injection Hi as <-. cbn [Nat.eqb]. case_decide as E.
  - subst i. by destruct (any_tag tag s).
  - unfold tag_get. destruct (any_tag tag s); [| apply Z.bits_0]. apply (Z.pow2_bits_false 0). lia.
Qed.

Lemma wf_top h s : wf (S h) s -> is_null s = false -> wf (S (S h)) (top (fun tag => any_tag tag s) s).
Proof.
  intros W N. split; [done |]. split; [simpl; unfold weight_by; by rewrite N |]. split; [apply Forall_insert; [apply Forall_replicate, wf_empty | done] |].
  split; by apply top_tag_ok.
Qed.

Lemma any_tag_top tag any s : any_tag tag (top any s) = any tag.
Proof. destruct tag; simpl; by destruct (any _). Qed.

Lemma in_range_top h any s : (h <= 5)%nat -> in_range (S h) (top any s).
Proof.
  intros Hh i Hi. unfold top. cbn [get]. rewrite top_slot, decide_False; [apply get_empty | | apply offset_lt].
  apply offset_large. pose proof (maxindex_S h Hh) as M. unfold maxindex in M. lia.
Qed.

Lemma push_one h s : (1 <= h <= 5)%nat -> wf h s -> is_null s = false ->
  let root' := mk_root (S h) (top (fun tag => any_tag tag s) s) in
  root_ok root' /\ settled root' /\ (forall i, index_ok i -> items root' i = items (mk_root h s) i) /\
  (forall tag i, index_ok i -> tags root' tag i = tags (mk_root h s) tag i).
Proof.
  intros Hh W N root'. destruct h as [| h]; [lia |].
  split; [split; [simpl; lia | split; [by apply wf_top | split; [apply in_range_top; lia | done]]] |]. split; [done |].
  split; [intros i Hi; unfold items | intros tag i Hi; unfold tags]; cbn [root' height rnode];
    destruct (maxindex_cases (S h) i ltac:(lia) Hi) as [(H1 & H2 & E) | [(H1 & H2 & E) | (H1 & H2)]].
  - rewrite !(proj2 (Z.ltb_ge _ _)) by done. unfold top. cbn [get]. by rewrite top_slot, decide_True by (done || apply offset_lt).
  - rewrite (proj2 (Z.ltb_ge _ _)), (proj2 (Z.ltb_lt _ _)) by done. unfold top. cbn [get].
    rewrite top_slot, decide_False by (done || apply offset_lt). done.
  - by rewrite !(proj2 (Z.ltb_lt _ _)) by done.
  - rewrite !(proj2 (Z.ltb_ge _ _)) by done. unfold top. cbn [tagged]. by rewrite top_slot, decide_True by (done || apply offset_lt).
  - rewrite (proj2 (Z.ltb_ge _ _)), (proj2 (Z.ltb_lt _ _)) by done. unfold top. cbn [tagged].
    rewrite top_slot, decide_False by (done || apply offset_lt). done.
  - by rewrite !(proj2 (Z.ltb_lt _ _)) by done.
Qed.

(** Two trees with the same contents. *)
Definition same (root root' : radix_tree_root) : Prop :=
  (forall i, index_ok i -> items root' i = items root i) /\ (forall tag i, index_ok i -> tags root' tag i = tags root tag i).

Lemma same_refl root : same root root.
Proof. done. Qed.

Lemma same_trans r1 r2 r3 : same r1 r2 -> same r2 r3 -> same r1 r3.
Proof. intros [A B] [C D]. split; intros; [rewrite C | rewrite D]; auto. Qed.

Lemma enough_cons n alloc : enough (S n) (true :: alloc) <-> enough n alloc.
Proof. unfold enough. simpl. split; [by injection 1 | by intros ->]. Qed.

Lemma push_nodes_spec n any alloc h s : (1 <= h)%nat -> (h + n <= 6)%nat -> wf h s -> in_range h s -> is_null s = false -> (forall tag, any tag = any_tag tag s) ->
  exists e alloc' root', push_nodes n (any false) (any true) alloc (mk_root h s) = (e, alloc', root') /\
    root_ok root' /\ is_null (rnode root') = false /\ same (mk_root h s) root' /\
    (e = 0 /\ height root' = (h + n)%nat /\ (forall k, enough (n + k) alloc -> enough k alloc') \/ e = - ENOMEM /\ ~ enough n alloc).
Proof.
  revert any alloc h s. induction n as [| n IH]; intros any alloc h s H1 Hn W B N A.
  { exists 0, alloc, (mk_root h s). split; [done |]. split; [split; [simpl; lia | split; [done | split; [done | simpl; lia]]] |].
    split; [done |]. split; [done |]. left. split; [done |]. split; [simpl; lia | done]. }
  assert (root_ok (mk_root h s)) as R by (split; [simpl; lia | split; [done | split; [done | simpl; lia]]]).
  cbn [push_nodes]. destruct alloc as [| [] alloc].
  - exists (- ENOMEM), [], (mk_root h s). repeat (split; [done |]). by right.
  - destruct (push_one h s ltac:(lia) W N) as ((_ & W' & B' & _) & _ & Hi & Ht). cbn [height rnode] in *.
    destruct (IH any alloc (S h) (top any s)) as (e & al & r & E & R' & N' & S' & D); [lia | lia | | | done | by intros []; rewrite any_tag_top |].
    { unfold top in *. by rewrite !A. } { unfold top in *. by rewrite !A. }
    exists e, al, r. split; [exact E |]. split; [done |]. split; [done |]. split.
    + eapply same_trans; [| exact S']. unfold top in *. rewrite !A. by split.
    + destruct D as [(-> & Hh & D) | (-> & D)]; [left | right].
      * split; [done |]. split; [lia |]. intros k En. apply D. by apply enough_cons.
      * split; [done |]. by rewrite enough_cons.
  - exists (- ENOMEM), alloc, (mk_root h s). repeat (split; [done |]). by right.
Qed.

(** *** Insertion into the tree *)

Lemma enough_le n m alloc : (m <= n)%nat -> enough n alloc -> enough m alloc.
Proof.
  unfold enough. intros Hm E. rewrite <- (Nat.min_l m n Hm), <- take_take, E, take_replicate. done.
Qed.

Lemma insert_root_node h index item alloc s : wf (S h) s -> is_null s = false ->
  insert_ok (S h) h index item alloc s (insert_slot (S h) index item alloc s).
Proof.
  intros W N. destruct s as [| p | c t0 t1 ss]; [done | done |].
  apply (insert_node_spec h index item alloc c t0 t1 ss W). intros s. apply insert_slot_spec.
Qed.

Lemma extend_height_spec index fuel h : index_ok index -> (h <= 6)%nat -> (6 < fuel + h)%nat ->
  exists h', extend_height fuel index h = Some h' /\ (h <= h' <= 6)%nat /\ index <= maxindex h'.
Proof.
  intros Hi. revert h. induction fuel as [| fuel IH]; intros h Hh Hf; [lia |].
  cbn [extend_height]. rewrite radix_tree_maxindex_eq by done. cbn [mbind option_bind]. destruct (Z.ltb_spec (maxindex h) index) as [Hl | Hl].
  - assert (h <> 6%nat) by (intros ->; rewrite maxindex_6 in Hl; destruct Hi; lia).
    destruct (IH (S h)) as (h' & -> & ? & ?); [lia | lia |]. exists h'. split; [done |]. split; [lia | done].
  - exists h. split; [done |]. split; [lia | done].
Qed.

Lemma root_ok_empty h : (h <= 6)%nat -> root_ok (mk_root h Empty).
Proof. intros H. split; [done |]. split; [apply wf_empty |]. split; [intros ? _; apply get_empty | done]. Qed.

Lemma same_empty h h' : same (mk_root h Empty) (mk_root h' Empty).
Proof.
  split; intros; unfold items, tags; cbn [height rnode]; rewrite ?get_empty, ?tagged_empty, ?andb_false_r; by repeat case_match.
Qed.

(** What [radix_tree_extend] and the test before it leave. *)
Definition extend_ok (root : radix_tree_root) (index : Z) (alloc : list bool) (r : option (Z * list bool * radix_tree_root)) : Prop :=
  exists e alloc' root', r = Some (e, alloc', root') /\ root_ok root' /\ same root root' /\
    is_null (rnode root') = is_null (rnode root) /\
    (e = 0 /\ (1 <= height root')%nat /\ index <= maxindex (height root') /\
       (is_null (rnode root) = true -> alloc' = alloc) /\ (enough 10 alloc -> enough 5 alloc') \/
     e = - ENOMEM /\ is_null (rnode root) = false /\ ~ enough 5 alloc).

Lemma extend_spec root index alloc : root_ok root -> settled root -> index_ok index ->
  (index = 0 -> rnode root = Empty) -> (rnode root <> Empty -> maxindex (height root) < index) ->
  extend_ok root index alloc (radix_tree_extend root index alloc).
Proof.
  intros (Hh & W & B & H0) S Hi Hz Hm. destruct root as [h s]. cbn [height rnode settled] in *. unfold settled in S. cbn [height rnode] in S.
  assert (h <= 5)%nat as H5.
  { destruct (decide (h = 6%nat)) as [-> |]; [| lia]. destruct s as [| p | c t0 t1 ss]; [by specialize (S eq_refl) | done |].
    specialize (Hm ltac:(done)). rewrite maxindex_6 in Hm. destruct Hi. lia. }
  unfold radix_tree_extend. cbn [height rnode].
  destruct (extend_height_spec index RADIX_TREE_MAX_PATH (Datatypes.S h) Hi) as (h' & -> & Hh' & Hi'); [lia | unfold RADIX_TREE_MAX_PATH; lia |].
  cbn [mbind option_bind]. destruct s as [| p | c t0 t1 ss].
  - exists 0, alloc, (mk_root h' Empty). split; [done |]. split; [apply root_ok_empty; lia |]. split; [apply same_empty |]. split; [done |]. left.
    split; [done |]. split; [simpl; lia |]. split; [done |]. split; [done |]. apply enough_le. lia.
  - destruct h; [by specialize (H0 eq_refl) | done].
  - assert (1 <= h)%nat by (destruct h; [by specialize (H0 eq_refl) | lia]).
    destruct (push_nodes_spec (h' - h) (fun tag => any_tag tag (Node c t0 t1 ss)) alloc h (Node c t0 t1 ss)) as (e & al & r & E & R & N & Sm & D);
      [done | lia | done | done | done | done |].
    exists e, al, r. split; [exact (f_equal Some E) |]. split; [done |]. split; [done |]. split; [by rewrite N |].
    destruct D as [(-> & Hr & D) | (-> & D)]; [left | right].
    + split; [done |]. replace (height r) with h' by lia. split; [lia |]. split; [done |]. split; [done |].
      intros En. apply D. eapply enough_le; [| exact En]. lia.
    + split; [done |]. split; [done |]. intros En. apply D. eapply enough_le; [| exact En]. lia.
Qed.

(** A descent that had [n] nodes, as an update of the whole tree. *)
Definition insert_result (root : radix_tree_root) (index item : Z) (alloc : list bool) (e : Z) (root' : radix_tree_root) : Prop :=
  match items root index with
  | Some _ => e = - EEXIST /\ root' = root
  | None =>
      e = 0 /\ settled root' /\ (forall i, index_ok i -> items root' i = if decide (i = index) then Some item else items root i) \/
      e = - ENOMEM /\ (forall i, index_ok i -> items root' i = items root i) /\ ~ enough 10 alloc /\ (rnode root <> Empty -> settled root')
  end.

Lemma insert_in_root h index item alloc s n : (1 <= h <= 6)%nat -> wf h s -> in_range h s -> index_ok index -> index <= maxindex h ->
  insert_ok h n index item alloc s (insert_slot h index item alloc s) ->
  exists e alloc' s', insert_slot h index item alloc s = Some (e, alloc', s') /\ root_ok (mk_root h s') /\
    (forall tag i, index_ok i -> tags (mk_root h s') tag i = tags (mk_root h s) tag i) /\
    match items (mk_root h s) index with
    | Some _ => e = - EEXIST /\ s' = s
    | None =>
        e = 0 /\ s' <> Empty /\ (forall i, index_ok i -> items (mk_root h s') i = if decide (i = index) then Some item else items (mk_root h s) i) \/
        e = - ENOMEM /\ (forall i, index_ok i -> items (mk_root h s') i = items (mk_root h s) i) /\ ~ enough n alloc /\ (s <> Empty -> s' <> Empty)
    end.
Proof.
  intros Hh W B Hi Hm (e & al & s' & E & W' & D & _ & T). exists e, al, s'. split; [exact E |].
  assert (in_range h s') as B'.
  { intros i Hi'. destruct D as [(_ & _ & _ & Hg) | [(_ & _ & ->) | (_ & _ & _ & Hg & _)]]; [| by apply B | rewrite Hg; by apply B].
    rewrite Hg. rewrite decide_False; [by apply B |]. intros A. unfold agree in A. rewrite !Z.mod_small in A; [destruct Hi; lia | lia |].
    destruct Hi. unfold maxindex in Hm. lia. }
  split; [split; [simpl; lia | split; [done | split; [done | simpl; lia]]] |]. split; [intros; unfold tags; cbn [height rnode]; by rewrite T |].
  unfold items. cbn [height rnode]. rewrite (proj2 (Z.ltb_ge _ _)) by done.
  destruct D as [(-> & G & N & Hg) | [(-> & [p G] & ->) | (-> & G & N & Hg & Ne)]]; rewrite G; [left | done | right].
  - split; [done |]. split; [by intros -> |]. intros i Hi'. destruct (Z.ltb_spec (maxindex h) i) as [Hl | Hl].
    + rewrite decide_False by lia. done.
    + rewrite Hg. destruct (decide (agree h index i)) as [A | A], (decide (i = index)) as [-> | Hne]; try done.
      destruct Hne. symmetry. apply (agree_eq h); auto; lia.
  - split; [done |]. split; [intros; by rewrite Hg |]. split; [done |]. intros Hs. destruct s; [done | |]; specialize (N eq_refl); by destruct s'.
Qed.

(** Insertion into a map, or the right error and no change. Ten nodes are enough. *)
Lemma radix_tree_insert_spec root index item alloc : root_ok root -> settled root -> index_ok index ->
  exists e root', radix_tree_insert root index item alloc = Some (e, root') /\ root_ok root' /\
    (forall tag i, index_ok i -> tags root' tag i = tags root tag i) /\ insert_result root index item alloc e root'.
Proof.
  intros R S Hi. pose proof R as (Hh & W & B & H0). unfold radix_tree_insert, insert_result. rewrite radix_tree_maxindex_eq by done. cbn [mbind option_bind].
  destruct (((index =? 0) && is_null (rnode root)) || (maxindex (height root) <? index)) eqn:C.
  - assert (items root index = None) as In.
    { unfold items. case_match eqn:M; [done |]. rewrite orb_false_r in C. apply andb_true_iff in C as [_ C].
      destruct root as [h []]; try done. apply get_empty. }
    assert (extend_ok root index alloc (radix_tree_extend root index alloc)) as (e & al & r & -> & R' & Sm & N & D).
    { apply extend_spec; try done.
      - intros ->. destruct (rnode root); [done | |]; simpl in C; apply Z.ltb_lt in C; pose proof (span_pos (height root)); unfold maxindex in C; lia.
      - intros Hn. apply orb_true_iff in C as [C | C]; [| lia]. apply andb_true_iff in C as [_ C]. by destruct (rnode root). }
    cbn [mbind option_bind]. rewrite In. destruct D as [(-> & H1 & Hm & Ha & En) | (-> & Nr & En)]; cbn [Z.eqb negb].
    2: { exists (- ENOMEM), r. split; [done |]. split; [done |]. split; [apply Sm |]. right. split; [done |]. split; [apply Sm |].
         split; [intros En'; apply En; eapply enough_le; [| exact En']; lia |]. intros _ E. rewrite E in N. by rewrite Nr in N. }
    destruct R' as (Hh' & W' & B' & _). destruct r as [h' s']. cbn [height rnode] in *.
    assert (exists n, insert_ok h' n index item al s' (insert_slot h' index item al s') /\ (enough 10 alloc -> enough n al)) as (n & K & Hn).
    { destruct (is_null s') eqn:N'.
      - exists h'. split; [by apply insert_slot_spec |]. rewrite Ha by done. apply enough_le. lia.
      - destruct h' as [| h']; [lia |]. exists h'. split; [by apply insert_root_node |]. intros E10. eapply enough_le; [| by apply En]. lia. }
    destruct (insert_in_root h' index item al s' n ltac:(lia) W' B' Hi Hm K) as (e & al' & s'' & -> & R'' & T & D). cbn [mbind option_bind].
    exists e, (mk_root h' s''). split; [done |]. split; [done |]. split; [intros; rewrite T by done; by apply Sm |].
    rewrite (proj1 Sm) in D by done. rewrite In in D. destruct D as [(-> & Hs & D) | (-> & D & Ne & Hs)]; [left | right].
    + split; [done |]. split; [by intros ? |]. intros i Hi'. rewrite D by done. by rewrite (proj1 Sm).
    + split; [done |]. split; [intros; rewrite D by done; by apply Sm |]. split; [auto |]. intros Hr ?. destruct Hs; [| done]. intros ->. by destruct (rnode root).
  - apply orb_false_iff in C as [C Hm]. apply Z.ltb_ge in Hm. destruct root as [h s]. cbn [height rnode mbind option_bind negb Z.eqb] in *.
    assert (s <> Empty) as Hs.
    { intros ->. unfold settled in S. cbn [height rnode] in S. rewrite S in * by done. destruct Hi. change (maxindex 0) with 0 in Hm.
      replace index with 0 in C by lia. done. }
    destruct h as [| h]; [by specialize (H0 eq_refl) |].
    destruct (insert_in_root (Datatypes.S h) index item alloc s h ltac:(lia) W B Hi Hm) as (e & al' & s'' & -> & R'' & T & D).
    { apply insert_root_node; [done | by destruct s]. }
    cbn [mbind option_bind]. exists e, (mk_root (Datatypes.S h) s''). split; [done |]. split; [done |]. split; [done |].
    destruct (items _ index); [by destruct D as [-> ->] |]. destruct D as [(-> & Hs' & D) | (-> & D & Ne & Hs')]; [left | right].
    + by split; [| split; [intros ? |]].
    + split; [done |]. split; [done |]. split; [intros En; apply Ne; eapply enough_le; [| exact En]; lia |]. intros _ ?. by destruct Hs'.
Qed.

(** ** Lookup and tags of a well-formed tree *)

Lemma wf_slot {h c t0 t1 ss} (W : wf (S h) (Node c t0 t1 ss)) index :
  exists old, ss !! slot_offset h index = Some old /\ wf h old /\
    (forall j, slot_offset h index = slot_offset h j -> get (S h) (Node c t0 t1 ss) j = get h old j).
Proof.
  pose proof (wf_node _ _ _ _ _ W) as (L & _ & F & _). destruct (lookup_child L h index) as [old Ho]. exists old. split; [done |].
  split; [exact (proj1 (Forall_lookup _ _) F _ _ Ho) |]. intros j E. cbn [get]. by rewrite <- E, Ho.
Qed.

Lemma lookup_loop_spec h index s : wf h s -> exists s', lookup_loop h index s = Some s' /\ as_item s' = Some (get h s index).
Proof.
  revert s. induction h as [| h IH]; intros s W.
  { exists s. by destruct s. }
  destruct s as [| p | c t0 t1 ss]; [by exists Empty | done |]. destruct (wf_slot W index) as (old & Ho & Wo & G).
  cbn [lookup_loop]. rewrite Ho, G by done. by apply IH.
Qed.

Lemma tagged_SS h tag c t0 t1 ss j : tagged (S (S h)) tag (Node c t0 t1 ss) j =
  match ss !! slot_offset (S h) j with Some s' => tagged (S h) tag s' j | None => false end.
Proof. done. Qed.

(** A tagged index has an item, and every node above it says so. *)
Lemma tagged_get h tag s i : wf h s -> tagged h tag s i = true -> is_Some (get h s i) /\ any_tag tag s = true.
Proof.
  revert s. induction h as [| h IH]; intros s W T; [done |]. destruct s as [| p | c t0 t1 ss]; [done | done |].
  pose proof (wf_node _ _ _ _ _ W) as (_ & _ & _ & Tg). destruct (wf_slot W i) as (old & Ho & Wo & G). rewrite G by done.
  destruct (Tg tag) as [Rg To]. specialize (To _ _ Ho).
  assert (forall o, tag_get (pick tag t0 t1) o = true -> any_tag tag (Node c t0 t1 ss) = true) as An.
  { intros o Hb. simpl. destruct (pick tag t0 t1 =? 0) eqn:E; [| done]. apply Z.eqb_eq in E. rewrite E in Hb. unfold tag_get in Hb. by rewrite Z.bits_0 in Hb. }
  destruct h as [| h].
  - cbn [tagged] in T. split; [| by eapply An]. specialize (To T). destruct old as [| q |]; [done | by eexists | done].
  - cbn [tagged] in T. rewrite Ho in T. destruct (IH old Wo T) as [Is An']. split; [done |]. eapply An. by rewrite To.
Qed.

Lemma any_tag_tagged h tag s : wf h s -> any_tag tag s = true -> exists i, 0 <= i < span h /\ tagged h tag s i = true.
Proof.
  revert s. induction h as [| h IH]; intros s W A; [by destruct s |]. destruct s as [| p | c t0 t1 ss]; [done | done |].
  pose proof (wf_node _ _ _ _ _ W) as (L & _ & F & Tg). destruct (Tg tag) as [Rg To].
  assert (exists o, (o < 64)%nat /\ tag_get (pick tag t0 t1) o = true) as (o & Ho & B).
  { destruct (decide (Exists (fun o => tag_get (pick tag t0 t1) o = true) (seq 0 64))) as [(o & Ho & B)%Exists_exists | N].
    - apply elem_of_seq in Ho. exists o. split; [lia | done].
    - simpl in A. apply negb_true_iff, Z.eqb_neq in A. destruct A. apply tag_zero; [done |]. intros o Ho. apply not_true_is_false. intros B. apply N.
      apply Exists_exists. exists o. split; [apply elem_of_seq; lia | done]. }
  pose proof (span_pos h) as Hs.
  assert (forall i, 0 <= i < span h -> slot_offset h (Z.of_nat o * span h + i) = o /\ agree h i (Z.of_nat o * span h + i)) as Off.
  { intros i Hi. unfold agree. rewrite offset_eq, Z.div_add_l, Z.div_small, (Z.add_comm (_ * _)), Z.mod_add by lia. split; [rewrite Z.mod_small by lia; lia | done]. }
  assert (exists s, ss !! o = Some s) as [s Hss] by (apply lookup_lt_is_Some_2; lia).
  destruct h as [| h].
  - exists (Z.of_nat o). rewrite span_S. split; [change (span 0) with 1; lia |]. cbn [tagged]. destruct (Off 0) as [E _]; [change (span 0) with 1; lia |].
    change (span 0) with 1 in E. replace (Z.of_nat o * 1 + 0) with (Z.of_nat o) in E by lia. by rewrite E.
  - specialize (To _ _ Hss). cbn [Nat.eqb] in To. rewrite B in To. pose proof (proj1 (Forall_lookup _ _) F _ _ Hss) as Wo.
    destruct (IH s Wo (eq_sym To)) as (i & Hi & T). destruct (Off i Hi) as [E Ag]. exists (Z.of_nat o * span (S h) + i).
    rewrite (span_S (S h)). split; [nia |]. rewrite tagged_SS, E, Hss, <- T. symmetry. by apply tagged_agree.
Qed.

Lemma tag_get_loop_spec h index tag unset s : wf (S h) s -> (unset = true -> tagged (S h) tag s index = false) ->
  tag_get_loop (S h) index tag unset s = Some (tagged (S h) tag s index).
Proof.
  revert unset s. induction h as [| h IH]; intros unset s W U.
  - destruct s as [| p | c t0 t1 ss]; [done | done |]. cbn [tag_get_loop tagged] in *. destruct (tag_get _ _) eqn:E; [| done].
    destruct unset; [by specialize (U eq_refl) | done].
  - destruct s as [| p | c t0 t1 ss]; [done | done |]. destruct (wf_slot W index) as (old & Ho & Wo & _).
    pose proof (wf_node _ _ _ _ _ W) as (_ & _ & _ & Tg). destruct (Tg tag) as [_ To]. specialize (To _ _ Ho). cbn [Nat.eqb] in To.
    change (tag_get_loop (S (S h)) index tag unset (Node c t0 t1 ss)) with
      (s' ← ss !! slot_offset (S h) index; tag_get_loop (S h) index tag (unset || negb (tag_get (pick tag t0 t1) (slot_offset (S h) index))) s').
    rewrite tagged_SS in *. rewrite Ho in *. cbn [mbind option_bind]. apply IH; [done |]. intros [Hu | Hu]%orb_true_iff; [auto |].
    destruct (tagged (S h) tag old index) eqn:E; [| done]. destruct (tagged_get _ _ _ _ Wo E) as [_ A]. rewrite To, A in Hu. done.
Qed.

(** ** Setting and clearing tags, deleting *)

(** The new bits are right when they are at the other slots what they were and at the
    replaced slot what it holds. *)
Lemma tag_ok_insert h tag t t' ss o new : tag_ok h tag t ss -> (o < length ss)%nat -> 0 <= t' < 2 ^ 64 ->
  (forall i, i <> o -> tag_get t' i = tag_get t i) ->
  (if (h =? 0)%nat then tag_get t' o = true -> is_null new = false else tag_get t' o = any_tag tag new) ->
  tag_ok h tag t' (<[o := new]> ss).
Proof.
  intros [_ T] Ho R Ht Hn. split; [done |]. intros i s Hi. destruct (decide (i = o)) as [-> | Hne].
  - rewrite list_lookup_insert_eq in Hi by done. by injection Hi as <-.
  - rewrite list_lookup_insert_ne in Hi by done. rewrite Ht by done. by apply T.
Qed.

Lemma tag_nonzero t o : tag_get t o = true -> t <> 0.
Proof. intros H ->. unfold tag_get in H. by rewrite Z.bits_0 in H. Qed.

Lemma any_tag_0 tag s : wf 0 s -> any_tag tag s = false.
Proof. by destruct s. Qed.

Lemma untag_spec h tag t ss o old new : tag_ok h tag t ss -> ss !! o = Some old -> wf h new -> (any_tag tag new = true -> any_tag tag old = true) ->
  let r := untag (any_tag tag new) t o in
  tag_ok h tag r.2 (<[o := new]> ss) /\ r.1 = negb (r.2 =? 0) /\ (r.1 = true -> t <> 0) /\
  (forall i, i <> o -> tag_get r.2 i = tag_get t i) /\ (h = 0%nat -> tag_get r.2 o = false).
Proof.
  intros T Ho Wn A. pose proof T as [R To]. specialize (To _ _ Ho). pose proof (lookup_lt_Some _ _ _ Ho) as Hl.
  unfold untag. destruct (any_tag tag new) eqn:En; cbn [fst snd].
  - assert (h <> 0%nat) as Hh by (intros ->; by rewrite any_tag_0 in En). rewrite (proj2 (Nat.eqb_neq _ _) Hh) in To. rewrite A in To by done.
    pose proof (tag_nonzero _ _ To) as Nz. split; [| split; [symmetry; apply negb_true_iff; by apply Z.eqb_neq | done]].
    eapply tag_ok_insert; [done | done | done | done |]. rewrite (proj2 (Nat.eqb_neq _ _) Hh). by rewrite En.
  - assert (forall i, i <> o -> tag_get (tag_clear t o) i = tag_get t i) as Ne by (intros i Hi; by rewrite tag_get_clear, bool_decide_false).
    assert (tag_get (tag_clear t o) o = false) as Eo by (by rewrite tag_get_clear, bool_decide_true).
    split; [eapply tag_ok_insert; [done | done | by apply tag_clear_range | done |]; rewrite Eo, En; by case_match |].
    split; [done |]. split; [| done]. intros Nz ->. unfold tag_clear in Nz. by rewrite Z.clearbit_spec', Z.ldiff_0_l in Nz.
Qed.

(** Clearing the tag of an item at one level. *)
Lemma tagged_untag h tag c t0 t1 c' t0' t1' ss index old new :
  length ss = 64%nat -> ss !! slot_offset h index = Some old ->
  (forall i, i <> slot_offset h index -> tag_get (pick tag t0' t1') i = tag_get (pick tag t0 t1) i) ->
  (h = 0%nat -> tag_get (pick tag t0' t1') (slot_offset h index) = false) ->
  (forall j, tagged h tag new j = if decide (agree h index j) then false else tagged h tag old j) ->
  forall j, tagged (S h) tag (Node c' t0' t1' (<[slot_offset h index := new]> ss)) j =
    if decide (agree (S h) index j) then false else tagged (S h) tag (Node c t0 t1 ss) j.
Proof.
  intros L Ho Ne Eo Hg. destruct h as [| h]; [| by eapply tagged_replace]. intros j. cbn [tagged].
  destruct (decide (agree 1 index j)) as [A | A].
  - apply agree_S in A as [<- _]. by apply Eo.
  - apply Ne. intros E. apply A, agree_S. split; [done |]. unfold agree. change (span 0) with 1. by rewrite !Z.mod_1_r.
Qed.

Lemma agree_0 i j : agree 0 i j.
Proof. unfold agree. change (span 0) with 1. by rewrite !Z.mod_1_r. Qed.

Lemma no_items_no_tags h tag t : tag_ok h tag t (replicate 64 Empty) -> t = 0.
Proof.
  intros [R T]. apply tag_zero; [done |]. intros o Ho. specialize (T o Empty (lookup_replicate_2 _ _ _ Ho)). case_match; [| done].
  destruct (tag_get t o); [by specialize (T eq_refl) | done].
Qed.

Definition pick_b (tag b0 b1 : bool) : bool := if tag then b1 else b0.

Definition delete_ok (h : nat) (index p : Z) (s : slot) (r : option (unit + Z * (bool * bool) * slot * list slot)) : Prop :=
  exists l0 l1 s' freed, r = Some (inr (p, (l0, l1), s', freed)) /\ wf h s' /\
    (forall j, get h s' j = if decide (agree h index j) then None else get h s j) /\
    (forall tag j, tagged h tag s' j = if decide (agree h index j) then false else tagged h tag s j) /\
    (forall tag, pick_b tag l0 l1 = any_tag tag s' /\ (any_tag tag s' = true -> any_tag tag s = true)) /\
    Forall (fun n => n = new_node) freed.

Lemma delete_loop_spec h index s : wf h s ->
  match get h s index with
  | None => delete_loop h index s = Some (inl tt)
  | Some p => delete_ok h index p s (delete_loop h index s)
  end.
Proof.
  revert s. induction h as [| h IH]; intros s W.
  { destruct s as [| p |]; [done | | done]. exists false, false, Empty, []. cbn [get tagged].
    split; [done |]. split; [done |]. split; [intros j; by rewrite decide_True by apply agree_0 |].
    split; [intros tag j; by case_decide |]. split; [by intros [] | done]. }
  destruct s as [| p | c t0 t1 ss]; [done | done |]. destruct (wf_slot W index) as (old & Ho & Wo & G). rewrite (G index) by done.
  specialize (IH old Wo). cbn [delete_loop]. rewrite Ho. cbn [mbind option_bind].
  destruct (get h old index) as [p |] eqn:Gp; [| by rewrite IH].
  destruct IH as (l0 & l1 & new & freed & -> & Wn & Hg & Ht & Hl & Hf). cbn [mbind option_bind].
  pose proof (wf_node _ _ _ _ _ W) as (L & C & _ & Tg).
  destruct (Hl false) as [E0 A0], (Hl true) as [E1 A1]. cbn [pick_b] in E0, E1. subst l0 l1.
  pose proof (untag_spec h false t0 ss _ old new (Tg false) Ho Wn A0) as U0. pose proof (untag_spec h true t1 ss _ old new (Tg true) Ho Wn A1) as U1.
  destruct (untag (any_tag false new) t0 _) as [l0 t0'], (untag (any_tag true new) t1 _) as [l1 t1']. cbn [fst snd] in U0, U1.
  destruct U0 as (K0 & -> & Z0 & Ne0 & Eo0), U1 as (K1 & -> & Z1 & Ne1 & Eo1).
  assert (is_null old = false) as No by (destruct old; [by rewrite get_empty in Gp | done | done]).
  set (c' := if is_null new then c - 1 else c).
  assert (wf (S h) (Node c' t0' t1' (<[slot_offset h index := new]> ss))) as W'.
  { eapply slot_wf_replace; [done | done | done | | by intros []]. unfold c', weight_by. rewrite No. destruct (is_null new); lia. }
  pose proof (get_replace h c t0 t1 c' t0' t1' ss index old new (fun _ => None) L Ho Hg) as Gn.
  assert (forall tag j, tagged (S h) tag (Node c' t0' t1' (<[slot_offset h index := new]> ss)) j =
    if decide (agree (S h) index j) then false else tagged (S h) tag (Node c t0 t1 ss) j) as Tn
    by (intros [] j; by apply (tagged_untag h _ c t0 t1 c' t0' t1' ss index old new)).
  destruct (is_null new && (c' =? 0)) eqn:Z.
  - apply andb_true_iff in Z as [Nn Z%Z.eqb_eq]. destruct W' as (L' & C' & _ & _). rewrite C' in Z.
    pose proof (filled_by_0 is_null Empty _ null_empty Z) as Re. rewrite L' in Re. rewrite Re in *. apply no_items_no_tags in K0, K1. subst t0' t1'.
    eexists _, _, Empty, _. split; [done |]. split; [done |].
    rewrite C', Z in *. split; [intros j; rewrite <- Gn; symmetry; apply get_new_node |].
    split; [intros tag j; rewrite <- Tn; symmetry; apply tagged_new_node |]. split; [by intros [] |]. by constructor.
  - eexists _, _, _, _. split; [done |]. split; [done |]. split; [done |]. split; [done |]. split; [| done].
    intros []; (split; [done |]); cbn [any_tag pick]; intros Nz; apply negb_true_iff, Z.eqb_neq; auto.
Qed.

(** One word of tags replaced. *)
Lemma set_tag_eq tag c t0 t1 ss t : set_tag tag c t0 t1 ss t = Node c (pick tag t t0) (pick tag t1 t) ss.
Proof. by destruct tag. Qed.

Lemma pick_set tag tag' t0 t1 t : pick tag' (pick tag t t0) (pick tag t1 t) = if decide (tag = tag') then t else pick tag' t0 t1.
Proof. by destruct tag, tag'. Qed.

Lemma any_tag_node tag c t0 t1 ss : any_tag tag (Node c t0 t1 ss) = negb (pick tag t0 t1 =? 0).
Proof. done. Qed.

(** The other tag of a node whose slot [o] is replaced by one with the same other tags. *)
Lemma tagged_keep h tag c t0 t1 t0' t1' ss index old new : length ss = 64%nat -> ss !! slot_offset h index = Some old ->
  pick tag t0' t1' = pick tag t0 t1 -> (forall j, tagged h tag new j = tagged h tag old j) ->
  forall j, tagged (S h) tag (Node c t0' t1' (<[slot_offset h index := new]> ss)) j = tagged (S h) tag (Node c t0 t1 ss) j.
Proof.
  intros L Ho E Ht j. destruct h as [| h]; [cbn [tagged]; by rewrite E |].
  rewrite (tagged_insert h tag c t0 t1) by done. case_decide as D; [| done]. by rewrite Ht, tagged_SS, <- D, Ho.
Qed.

Lemma get_keep h c t0 t1 t0' t1' ss index old new : length ss = 64%nat -> ss !! slot_offset h index = Some old ->
  (forall j, get h new j = get h old j) ->
  forall j, get (S h) (Node c t0' t1' (<[slot_offset h index := new]> ss)) j = get (S h) (Node c t0 t1 ss) j.
Proof.
  intros L Ho Hg j. rewrite get_insert by done. case_decide as D; [| done]. rewrite Hg. cbn [get]. by rewrite <- D, Ho.
Qed.

(** What changing one tag of the item at [index] to [b] does to a slot. *)
Definition retag_ok (h : nat) (index : Z) (tag b : bool) (s s' : slot) : Prop :=
  wf h s' /\ is_null s' = is_null s /\ (forall j, get h s' j = get h s j) /\
  (forall tag' j, tagged h tag' s' j = if decide (tag = tag' /\ agree h index j /\ h <> 0%nat) then b else tagged h tag' s j) /\
  (forall tag', tag' <> tag -> any_tag tag' s' = any_tag tag' s).

(** From a slot to the node that holds it. *)
Lemma retag_node h index tag b c t0 t1 ss old new t : wf (S h) (Node c t0 t1 ss) -> ss !! slot_offset h index = Some old -> wf h old ->
  is_null old = false -> retag_ok h index tag b old new ->
  tag_ok h tag t (<[slot_offset h index := new]> ss) ->
  (forall i, i <> slot_offset h index -> tag_get t i = tag_get (pick tag t0 t1) i) -> (h = 0%nat -> tag_get t (slot_offset h index) = b) ->
  retag_ok (S h) index tag b (Node c t0 t1 ss) (set_tag tag c t0 t1 (<[slot_offset h index := new]> ss) t).
Proof.
  intros W Ho Wo N (Wn & Nn & Hg & Ht & Ha) T Ne Eo. pose proof (wf_node _ _ _ _ _ W) as (L & C & F & Tg). rewrite set_tag_eq.
  split; [| split; [done | split; [by eapply get_keep | split]]].
  - eapply slot_wf_replace; [done | done | done | unfold weight_by; rewrite Nn; lia |]. intros tag'. rewrite pick_set. destruct (decide (tag = tag')) as [<- | D]; [exact T |].
    eapply tag_ok_same; [done | done | by rewrite Nn | apply Ha; congruence].
  - intros tag' j. destruct (decide (tag = tag')) as [<- | Hne].
    2: { rewrite decide_False by (by intros [? _]). eapply tagged_keep; [done | done | by rewrite pick_set, decide_False |].
         intros j'. rewrite Ht, decide_False; [done |]. by intros [? _]. }
    destruct h as [| h].
    + cbn [tagged]. rewrite pick_set, decide_True by done. destruct (decide (slot_offset 0 index = slot_offset 0 j)) as [E | E].
      * rewrite <- E, Eo by done. rewrite decide_True; [done |]. split; [done |]. split; [| done]. apply agree_S. split; [done | apply agree_0].
      * rewrite Ne by done. rewrite decide_False; [done |]. intros (_ & [? _]%agree_S & _). done.
    + rewrite (tagged_insert h tag c t0 t1) by done. destruct (decide (slot_offset (S h) index = slot_offset (S h) j)) as [E | E].
      * rewrite Ht. rewrite tagged_SS, <- E, Ho. destruct (decide (tag = tag /\ agree (S h) index j /\ S h <> 0%nat)) as [(_ & A & _) | A].
        -- rewrite decide_True; [done |]. split; [done |]. split; [| done]. by apply agree_S.
        -- rewrite decide_False; [done |]. intros (_ & [_ A']%agree_S & _). by apply A.
      * rewrite decide_False; [done |]. intros (_ & [? _]%agree_S & _). done.
  - intros tag' Hne. rewrite !any_tag_node, pick_set, decide_False by congruence. done.
Qed.

Lemma tag_set_loop_spec h index tag s p : wf h s -> get h s index = Some p ->
  exists r s', tag_set_loop h index tag s = Some (r, s') /\ as_item r = Some (Some p) /\ retag_ok h index tag true s s' /\
    (h <> 0%nat -> any_tag tag s' = true).
Proof.
  revert s. induction h as [| h IH]; intros s W G.
  { destruct s as [| q |]; [done | | done]. injection G as ->. exists (Item p), (Item p). split; [done |]. split; [done |]. split; [| done].
    split; [done |]. split; [done |]. split; [done |]. split; [| done]. intros tag' j. rewrite decide_False; [done |]. by intros (_ & _ & ?). }
  destruct s as [| q | c t0 t1 ss]; [done | done |]. destruct (wf_slot W index) as (old & Ho & Wo & Gi). rewrite Gi in G by done.
  assert (is_null old = false) as N by (destruct old; [by rewrite get_empty in G | done | done]).
  destruct (IH old Wo G) as (r & new & E & Hr & K & A). cbn [tag_set_loop]. rewrite Ho. cbn [mbind option_bind]. rewrite N, E. cbn [mbind option_bind].
  eexists r, _. split; [done |]. split; [done |].
  assert (tag_get (tag_set (pick tag t0 t1) (slot_offset h index)) (slot_offset h index) = true) as Eo by (by rewrite tag_get_set, bool_decide_true).
  assert (forall i, i <> slot_offset h index -> tag_get (tag_set (pick tag t0 t1) (slot_offset h index)) i = tag_get (pick tag t0 t1) i) as Ne
    by (intros i Hi; by rewrite tag_get_set, bool_decide_false).
  pose proof (wf_node _ _ _ _ _ W) as (L & _ & _ & Tg). split.
  - apply retag_node with old; [done | done | done | done | done | | done | done].
    eapply tag_ok_insert; [apply Tg | by eapply lookup_lt_Some | | done |].
    + apply tag_set_range; [apply offset_lt | apply Tg].
    + destruct K as (_ & Nn & _). rewrite Eo, Nn. destruct h; cbn [Nat.eqb]; [by intros _ |]. symmetry. by apply A.
  - intros _. rewrite set_tag_eq, any_tag_node, pick_set, decide_True by done. apply negb_true_iff, Z.eqb_neq. by eapply tag_nonzero.
Qed.

Lemma tag_clear_loop_spec h index tag s : wf h s ->
  match get h s index with
  | None => tag_clear_loop h index tag s = Some None
  | Some p => exists lft s', tag_clear_loop h index tag s = Some (Some (p, lft, s')) /\ retag_ok h index tag false s s' /\
      lft = any_tag tag s' /\ (lft = true -> any_tag tag s = true)
  end.
Proof.
  revert s. induction h as [| h IH]; intros s W.
  { destruct s as [| q |]; [done | | done]. exists false, (Item q). split; [done |]. split; [| done].
    split; [done |]. split; [done |]. split; [done |]. split; [| done]. intros tag' j. rewrite decide_False; [done |]. by intros (_ & _ & ?). }
  destruct s as [| q | c t0 t1 ss]; [done | done |]. destruct (wf_slot W index) as (old & Ho & Wo & Gi). rewrite (Gi index) by done.
  specialize (IH old Wo). cbn [tag_clear_loop]. rewrite Ho. cbn [mbind option_bind].
  destruct (get h old index) as [p |] eqn:G; [| by rewrite IH].
  assert (is_null old = false) as N by (destruct old; [by rewrite get_empty in G | done | done]).
  destruct IH as (lft & new & -> & K & -> & A). cbn [mbind option_bind].
  pose proof (wf_node _ _ _ _ _ W) as (L & _ & _ & Tg).
  pose proof (untag_spec h tag _ ss _ old new (Tg tag) Ho (proj1 K) A) as U. destruct (untag _ _ _) as [l t]. cbn [fst snd] in U.
  destruct U as (T & -> & Nz & Ne & Eo). eexists _, _. split; [done |]. split; [by eapply retag_node |].
  rewrite set_tag_eq, any_tag_node, pick_set, decide_True by done. split; [done |]. intros Hl. specialize (Nz Hl).
  rewrite any_tag_node. by apply negb_true_iff, Z.eqb_neq.
Qed.

(** ** The operations on a tree *)

Lemma tags_items root tag i : root_ok root -> tags root tag i = true -> is_Some (items root i).
Proof.
  intros (_ & W & _) [M T]%andb_true_iff. unfold items. apply negb_true_iff in M. rewrite M. by apply (tagged_get _ tag).
Qed.

Lemma get_Some_height root p index : root_ok root -> get (height root) (rnode root) index = Some p -> height root <> 0%nat.
Proof. intros (_ & _ & _ & H0) G E. specialize (H0 E). rewrite H0, get_empty in G. done. Qed.

Lemma radix_tree_lookup_spec root index : root_ok root -> radix_tree_lookup root index = Some (items root index).
Proof.
  intros (Hh & W & _). unfold radix_tree_lookup, items. rewrite radix_tree_maxindex_eq by done. cbn [mbind option_bind].
  case_match; [done |]. destruct (lookup_loop_spec _ index _ W) as (s & -> & E). exact E.
Qed.

(** The tree without the item at [index]; the nodes freed are as clean as new ones. *)
Definition deleted (root : radix_tree_root) (index : Z) (root' : radix_tree_root) (freed : list slot) : Prop :=
  root_ok root' /\ (settled root -> settled root') /\
  (forall i, index_ok i -> items root' i = if decide (i = index) then None else items root i) /\
  (forall tag i, index_ok i -> tags root' tag i = if decide (i = index) then false else tags root tag i) /\
  Forall (fun n => n = new_node) freed.

Lemma deleted_absent root index : root_ok root -> items root index = None -> deleted root index root [].
Proof.
  intros R En. split; [done |]. split; [done |]. split; [intros i _; case_decide; [by subst | done] |]. split; [| done].
  intros tag i _. case_decide as E; [subst i | done]. destruct (tags root tag index) eqn:T; [| done].
  destruct (tags_items _ _ _ R T) as [p Hp]. congruence.
Qed.

Lemma deleted_present root index s' freed : root_ok root -> index_ok index -> height root <> 0%nat -> index <= maxindex (height root) ->
  wf (height root) s' ->
  (forall j, get (height root) s' j = if decide (agree (height root) index j) then None else get (height root) (rnode root) j) ->
  (forall tag j, tagged (height root) tag s' j = if decide (agree (height root) index j) then false else tagged (height root) tag (rnode root) j) ->
  Forall (fun n => n = new_node) freed -> deleted root index (mk_root (if is_null s' then 0 else height root) s') freed.
Proof.
  intros (Hh & W & B & H0) Hi Hz M W' Hg Ht Hf.
  assert (forall (A : Type) i (x y : A), index_ok i -> i <= maxindex (height root) ->
    (if decide (agree (height root) index i) then x else y) = if decide (i = index) then x else y) as Same.
  { intros A i x y Hi' Hl. destruct (decide (agree _ index i)), (decide (i = index)) as [-> | Hne]; try done.
    destruct Hne. symmetry. by apply (agree_eq (height root)). }
  unfold deleted. destruct (is_null s') eqn:N.
  - destruct s'; try done. split; [apply root_ok_empty; lia |]. split; [done |]. split; [| split; [| done]].
    + intros i Hi'. unfold items. cbn [height rnode]. rewrite get_empty. destruct (Z.ltb_spec (maxindex (height root)) i) as [Hl | Hl].
      * case_decide; by case_match.
      * rewrite <- Same, <- Hg, get_empty by done. by case_match.
    + intros tag i Hi'. unfold tags. cbn [height rnode]. rewrite tagged_empty, andb_false_r. destruct (Z.ltb_spec (maxindex (height root)) i) as [Hl | Hl]; simpl.
      * by case_decide.
      * by rewrite <- Same, <- Ht, tagged_empty by done.
  - split; [split; [done | split; [done | split; [| done]]] |]. { intros i Hi'. cbn [height rnode]. rewrite Hg. case_decide; [done | by apply B]. }
    split; [intros _ E; cbn [rnode] in E; by subst s' |]. split; [| split; [| done]].
    + intros i Hi'. unfold items. cbn [height rnode]. destruct (Z.ltb_spec (maxindex (height root)) i) as [Hl | Hl]; [by case_decide |].
      by rewrite <- Same, <- Hg by done.
    + intros tag i Hi'. unfold tags. cbn [height rnode]. destruct (Z.ltb_spec (maxindex (height root)) i) as [Hl | Hl]; simpl; [by case_decide |].
      by rewrite <- Same, <- Ht by done.
Qed.

Lemma radix_tree_delete_spec root index : root_ok root -> index_ok index ->
  exists root' freed, radix_tree_delete root index = Some (items root index, root', freed) /\ deleted root index root' freed.
Proof.
  intros R Hi. pose proof R as (Hh & W & B & H0). unfold radix_tree_delete. rewrite radix_tree_maxindex_eq by done. cbn [mbind option_bind].
  destruct (items root index) as [p |] eqn:I; pose proof I as G; unfold items in G.
  - destruct (Z.ltb_spec (maxindex (height root)) index) as [M | M]; [done |].
    pose proof (delete_loop_spec _ index _ W) as D. rewrite G in D. destruct D as (l0 & l1 & s' & freed & -> & W' & Hg & Ht & _ & Hf).
    cbn [mbind option_bind]. pose proof (get_Some_height _ _ _ R G) as Hz. rewrite (proj2 (Nat.eqb_neq _ _) Hz).
    eexists _, freed. split; [done |]. by apply deleted_present.
  - exists root, []. split; [| by apply deleted_absent]. case_match; [done |]. pose proof (delete_loop_spec _ index _ W) as D. rewrite G in D. by rewrite D.
Qed.

(** A slot with one tag changed, as the tree. *)
Lemma retag_root root index tag b s' : root_ok root -> index_ok index -> height root <> 0%nat -> index <= maxindex (height root) ->
  retag_ok (height root) index tag b (rnode root) s' ->
  let root' := mk_root (height root) s' in
  root_ok root' /\ (settled root -> settled root') /\ (forall i, index_ok i -> items root' i = items root i) /\
  (forall tag' i, index_ok i -> tags root' tag' i = if decide (tag = tag' /\ i = index) then b else tags root tag' i).
Proof.
  intros (Hh & W & B & H0) Hi Hz Hm (W' & N & Hg & Ht & _) root'. unfold root_ok, settled, items, tags. cbn [root' height rnode].
  split; [| split; [| split]].
  - split; [done |]. split; [done |]. split; [intros i Hi'; rewrite Hg; by apply B | done].
  - intros S ->. apply S. by destruct (rnode root).
  - intros i _. by rewrite Hg.
  - intros tag' i Hi'. destruct (Z.ltb_spec (maxindex (height root)) i) as [Hl | Hl]; simpl; [rewrite decide_False by (intros [_ ->]; lia); done |].
    rewrite Ht. destruct (decide (tag = tag' /\ agree (height root) index i /\ height root <> 0%nat)) as [(-> & A & _) | A].
    + rewrite decide_True; [done |]. split; [done |]. symmetry. by apply (agree_eq (height root)).
    + rewrite decide_False; [done |]. intros [-> ->]. by apply A.
Qed.

Lemma radix_tree_tag_set_spec root index tag p : root_ok root -> index_ok index -> items root index = Some p ->
  exists root', radix_tree_tag_set root index tag = Some (Some p, root') /\ root_ok root' /\ (settled root -> settled root') /\
    (forall i, index_ok i -> items root' i = items root i) /\
    (forall tag' i, index_ok i -> tags root' tag' i = if decide (tag = tag' /\ i = index) then true else tags root tag' i).
Proof.
  intros R Hi Hp. pose proof R as (Hh & W & _). unfold items in Hp. unfold radix_tree_tag_set. rewrite radix_tree_maxindex_eq by done. cbn [mbind option_bind].
  destruct (Z.ltb_spec (maxindex (height root)) index) as [M | M]; [done |].
  destruct (tag_set_loop_spec _ index tag _ p W Hp) as (r & s' & -> & Hr & K & _). cbn [mbind option_bind]. rewrite Hr. cbn [mbind option_bind].
  eexists. split; [done |]. apply (retag_root root); auto. by eapply get_Some_height.
Qed.

Lemma radix_tree_tag_clear_spec root index tag : root_ok root -> index_ok index ->
  exists root', radix_tree_tag_clear root index tag = Some (items root index, root') /\ root_ok root' /\ (settled root -> settled root') /\
    (forall i, index_ok i -> items root' i = items root i) /\
    (forall tag' i, index_ok i -> tags root' tag' i = if decide (tag = tag' /\ i = index) then false else tags root tag' i).
Proof.
  intros R Hi. pose proof R as (Hh & W & _). unfold radix_tree_tag_clear. rewrite radix_tree_maxindex_eq by done. cbn [mbind option_bind].
  pose proof (tag_clear_loop_spec _ index tag _ W) as D. destruct (items root index) as [p |] eqn:I; pose proof I as G; unfold items in G.
  - destruct (Z.ltb_spec (maxindex (height root)) index) as [M | M]; [done |]. rewrite G in D. destruct D as (l & s' & -> & K & _).
    cbn [mbind option_bind]. pose proof (get_Some_height _ _ _ R G) as Hz.
    rewrite (proj2 (Nat.eqb_neq _ _) Hz). eexists. split; [done |]. by apply (retag_root root).
  - exists root. split; [case_match; [done |]; rewrite G in D; by rewrite D |]. split; [done |]. split; [done |]. split; [done |].
    intros tag' i _. case_decide as E; [| done]. destruct E as [-> ->]. destruct (tags root tag' index) eqn:T; [| done].
    destruct (tags_items _ _ _ R T) as [p Hp]. congruence.
Qed.

Lemma radix_tree_tag_get_spec root index tag : root_ok root -> radix_tree_tag_get root index tag = Some (tags root tag index).
Proof.
  intros (Hh & W & _ & H0). unfold radix_tree_tag_get, tags. rewrite radix_tree_maxindex_eq by done. cbn [mbind option_bind].
  case_match; [done |]. destruct (rnode root) as [| p | c t0 t1 ss] eqn:E; [by rewrite tagged_empty | |].
  - destruct (height root); [by specialize (H0 eq_refl) | done].
  - destruct (height root); [done |]. by apply tag_get_loop_spec.
Qed.

Lemma radix_tree_tagged_spec root tag : root_ok root ->
  exists b, radix_tree_tagged root tag = Some b /\ (b = true <-> exists i, index_ok i /\ tags root tag i = true).
Proof.
  intros R. pose proof R as (Hh & W & B & H0). exists (any_tag tag (rnode root)). split.
  { unfold radix_tree_tagged. destruct (rnode root) as [| p | c t0 t1 ss] eqn:E; [done | | done]. destruct (height root); [by specialize (H0 eq_refl) | done]. }
  split.
  - intros A. destruct (any_tag_tagged _ _ _ W A) as (i & Hi & T). destruct (tagged_get _ _ _ _ W T) as [[p G] _].
    assert (i <= 4294967295) as Hm by (destruct (decide (i <= 4294967295)); [done |]; rewrite B in G by lia; done).
    exists i. split; [split; lia |]. unfold tags. rewrite T, (proj2 (Z.ltb_ge _ _)); [done |]. unfold maxindex. lia.
  - intros (i & _ & [_ T]%andb_true_iff). by apply (tagged_get _ _ _ _ W T).
Qed.

(** ** Searching many items *)

(** [ps] lists, in ascending order, the places of [[a, b)] where [f] has a value. *)
Definition listing (f : Z -> option Z) (a b : Z) (ps : list (Z * Z)) : Prop :=
  StronglySorted (fun x y => x.1 < y.1) ps /\ forall i p, (i, p) ∈ ps <-> a <= i < b /\ f i = Some p.

Lemma listing_nil f a b : (forall i, a <= i < b -> f i = None) -> listing f a b [].
Proof.
  intros H. split; [constructor |]. intros i p. split; [by intros ?%not_elem_of_nil |]. intros [Hi Hf]. by rewrite H in Hf.
Qed.

Lemma listing_one f a p : f a = Some p -> listing f a (a + 1) [(a, p)].
Proof.
  intros H. split; [repeat constructor |]. intros i q. rewrite list_elem_of_singleton. split.
  - intros [= -> ->]. split; [lia | done].
  - intros [Hi Hf]. replace i with a in * by lia. congruence.
Qed.

Lemma listing_app f a b c ps qs : a <= b <= c -> listing f a b ps -> listing f b c qs -> listing f a c (ps ++ qs).
Proof.
  intros Hb [S1 H1] [S2 H2]. split.
  - apply StronglySorted_app_2; [| done | done]. intros [i p] [j q] [Hi _]%H1 [Hj _]%H2. simpl. lia.
  - intros i p. rewrite elem_of_app, H1, H2. split; [intros [[? ?] | [? ?]]; (split; [lia | done]) |].
    intros [Hi Hf]. destruct (decide (i < b)); [left | right]; (split; [lia | done]).
Qed.

Lemma listing_ext f g a b ps : (forall i, a <= i < b -> f i = g i) -> listing f a b ps -> listing g a b ps.
Proof.
  intros E [S H]. split; [done |]. intros i p. rewrite H. split; intros [Hi Hf]; (split; [done |]); [by rewrite <- E | by rewrite E].
Qed.

Lemma listing_exists f a b : exists ps, listing f a b ps.
Proof.
  destruct (decide (a <= b)) as [Hab |]; [| exists []; apply listing_nil; lia].
  remember (Z.to_nat (b - a)) as n eqn:En. revert a Hab En. induction n as [| n IH]; intros a Hab En; [exists []; apply listing_nil; lia |].
  destruct (IH (a + 1)) as [ps Hps]; [lia | lia |]. destruct (f a) as [p |] eqn:Ef.
  - exists ([(a, p)] ++ ps). apply listing_app with (a + 1); [lia | by apply listing_one | done].
  - exists ([] ++ ps). apply listing_app with (a + 1); [lia | | done]. apply listing_nil. intros i Hi. by replace i with a by lia.
Qed.

(** What the search looks for below a slot. *)
Definition found (h : nat) (sel : option bool) (s : slot) (i : Z) : option Z :=
  match sel with None => get h s i | Some tag => if tagged h tag s i then get h s i else None end.

(** The index after the last one searched: 0 stands for the end of the range. *)
Definition stop (index : Z) : Z := if index =? 0 then 4294967296 else index.

Lemma found_child h sel c t0 t1 ss o s j : ss !! o = Some s -> slot_offset (S h) j = o ->
  found (S (S h)) sel (Node c t0 t1 ss) j = found (S h) sel s j.
Proof.
  intros Ho E. assert (get (S (S h)) (Node c t0 t1 ss) j = get (S h) s j) as G by (cbn [get]; by rewrite E, Ho).
  unfold found. rewrite G. destruct sel as [tag |]; [| done]. by rewrite tagged_SS, E, Ho.
Qed.

Lemma hit_spec h sel c t0 t1 ss i : wf (S h) (Node c t0 t1 ss) -> (i < 64)%nat ->
  exists s b, ss !! i = Some s /\ wf h s /\ hit sel t0 t1 ss i = Some b /\ (b = true -> is_null s = false) /\
    (b = false -> forall j, slot_offset h j = i -> found (S h) sel (Node c t0 t1 ss) j = None) /\
    (h = 0%nat -> b = true -> exists p, s = Item p /\ forall j, slot_offset 0 j = i -> found 1 sel (Node c t0 t1 ss) j = Some p).
Proof.
  intros W Hi. pose proof (wf_node _ _ _ _ _ W) as (L & _ & F & T). destruct (lookup_lt_is_Some_2 ss i) as [s Hs]; [by rewrite L |].
  pose proof (proj1 (Forall_lookup _ _) F _ _ Hs) as Ws. exists s.
  assert (forall j, slot_offset h j = i -> get (S h) (Node c t0 t1 ss) j = get h s j) as G by (intros j E; cbn [get]; by rewrite E, Hs).
  destruct sel as [tag |]; cbn [hit].
  - destruct (T tag) as [_ To]. specialize (To _ _ Hs). destruct (tag_get (pick tag t0 t1) i) eqn:B.
    + assert (is_null s = false) as N by (destruct h; [by apply To | by destruct s]). exists true. rewrite Hs. cbn [mbind option_bind]. rewrite N.
      split; [done |]. split; [done |]. split; [done |]. split; [done |]. split; [done |]. intros -> _.
      destruct s as [| p |]; [done | | done]. exists p. split; [done |]. intros j E. cbn [found tagged get]. by rewrite E, B, Hs.
    + exists false. split; [done |]. split; [done |]. split; [done |]. split; [done |]. split; [| done]. intros _ j E. unfold found.
      destruct (tagged (S h) tag (Node c t0 t1 ss) j) eqn:Tj; [| done]. destruct h as [| h]; [cbn [tagged] in Tj; by rewrite E, B in Tj |].
      rewrite tagged_SS, E, Hs in Tj. destruct (tagged_get _ _ _ _ Ws Tj) as [_ A]. by rewrite A in To.
  - exists (negb (is_null s)). rewrite Hs. split; [done |]. split; [done |]. split; [done |]. split; [by intros ?%negb_true_iff |]. split.
    + intros N%negb_false_iff j E. cbn [found]. rewrite G by done. destruct s; [apply get_empty | done | done].
    + intros -> N%negb_true_iff. destruct s as [| p |]; [done | | done]. exists p. split; [done |]. intros j E. cbn [found]. by rewrite G.
Qed.

(** Where a slot's indices are. *)
Lemma offset_block h B i j : 0 <= B -> (i < 64)%nat -> B * span (S h) + Z.of_nat i * span h <= j < B * span (S h) + (Z.of_nat i + 1) * span h ->
  slot_offset h j = i /\ j / span (S h) = B.
Proof.
  intros HB Hi Hj. pose proof (span_pos h) as Hs. rewrite span_S in *.
  assert (j / span h = 64 * B + Z.of_nat i) as E by (symmetry; apply Z.div_unique with (j - (64 * B + Z.of_nat i) * span h); nia).
  split; [rewrite offset_eq, E, Z.add_comm, Z.mul_comm, Z.mod_add, Z.mod_small by lia; lia |].
  rewrite Z.mul_comm, <- Z.div_div, E by lia. symmetry. apply Z.div_unique with (Z.of_nat i); lia.
Qed.

Lemma block_offset h j : 0 <= j -> let B := j / span (S h) in
  B * span (S h) + Z.of_nat (slot_offset h j) * span h <= j < B * span (S h) + (Z.of_nat (slot_offset h j) + 1) * span h.
Proof.
  intros Hj B. pose proof (span_pos h) as Hs. rewrite offset_eq. pose proof (Z.mod_pos_bound (j / span h) 64 ltac:(lia)).
  rewrite Z2Nat.id by lia. unfold B. rewrite span_S, (Z.mul_comm 64 (span h)), <- (Z.div_div j (span h) 64) by lia.
  pose proof (Z.div_mod (j / span h) 64 ltac:(lia)). pose proof (Z.div_mod j (span h) ltac:(lia)). pose proof (Z.mod_pos_bound j (span h) Hs). nia.
Qed.

(** The next slot begins where this one ends; past the last index it is 0. *)
Lemma next_span_spec h index : (h <= 5)%nat -> index_ok index ->
  stop (next_span h index) = (index / span h + 1) * span h /\ 0 <= next_span h index <= 4294967295 /\ stop (next_span h index) <= 4294967296.
Proof.
  intros Hh Hi. pose proof (span_pos h) as Hs.
  assert (next_span h index = ((index / span h + 1) * span h) mod 4294967296) as E.
  { unfold next_span, u32, RADIX_TREE_MAP_SHIFT. rewrite Z.ldiff_ones_r, Z.shiftl_mul_pow2, Z.shiftr_div_pow2, Z.shiftl_mul_pow2 by lia.
    replace (2 ^ (Z.of_nat h * 6)) with (span h) by (unfold span; change 64 with (2 ^ 6); rewrite <- Z.pow_mul_r by lia; f_equal; lia).
    f_equal. lia. }
  assert (exists k, 4294967296 = k * span h /\ 0 < k) as (k & Hk & Hk0).
  { exists (4294967296 / span h). clear - Hh. do 6 (destruct h as [| h]; [by vm_compute |]). lia. }
  destruct Hi as [H0 H1]. assert (index / span h < k) by (apply Z.div_lt_upper_bound; nia). pose proof (Z.div_pos index (span h) H0 Hs).
  rewrite E. set (x := (index / span h + 1) * span h) in *. assert (0 < x <= 4294967296) as Hx by (unfold x; nia).
  unfold stop. destruct (decide (x = 4294967296)) as [-> |]; [by vm_compute |]. rewrite Z.mod_small by lia.
  rewrite (proj2 (Z.eqb_neq x 0)) by lia. lia.
Qed.

(** The indices of slot [i] of the node that holds block [B]. *)
Definition in_slot (h : nat) (B : Z) (i : nat) (j : Z) : Prop :=
  B * span (S h) + Z.of_nat i * span h <= j < B * span (S h) + (Z.of_nat i + 1) * span h.

Lemma in_slot_next h B i j : 0 <= B -> (i < 64)%nat -> in_slot h B i j -> (j / span h + 1) * span h = B * span (S h) + (Z.of_nat i + 1) * span h.
Proof.
  unfold in_slot. rewrite span_S. intros HB Hi Hj. pose proof (span_pos h).
  assert (j / span h = 64 * B + Z.of_nat i) as -> by (symmetry; apply Z.div_unique with (j - (64 * B + Z.of_nat i) * span h); nia). lia.
Qed.

Lemma in_slot_none h sel B i s a b : 0 <= B -> (i < 64)%nat ->
  (forall j, slot_offset h j = i -> found (S h) sel s j = None) ->
  B * span (S h) + Z.of_nat i * span h <= a -> b <= B * span (S h) + (Z.of_nat i + 1) * span h -> listing (found (S h) sel s) a b [].
Proof.
  intros HB Hi Hn Ha Hb. apply listing_nil. intros j Hj. apply Hn. apply (offset_block h B i); [done | done | lia].
Qed.

Section search.
Context (h : nat) (sel : option bool) (c t0 t1 : Z) (ss : list slot).
Context (Hh : (h <= 5)%nat) (W : wf (S h) (Node c t0 t1 ss)).

Lemma skip_spec B n i index : 0 <= B -> (i + n = 64)%nat ->
  (n = 0%nat -> index = (B + 1) * span (S h)) -> (n <> 0%nat -> in_slot h B i index) -> index_ok index ->
  exists f index', skip n sel h t0 t1 ss i index = Some (f, index') /\ index_ok index' /\
    match f with
    | Some i' => (i' < 64)%nat /\ index <= index' /\ in_slot h B i' index' /\ hit sel t0 t1 ss i' = Some true /\
        listing (found (S h) sel (Node c t0 t1 ss)) index index' []
    | None => listing (found (S h) sel (Node c t0 t1 ss)) index (stop index') [] /\ index <= stop index' /\
        (n <> 0%nat -> index < stop index') /\ stop index' <= (B + 1) * span (S h) /\ stop index' <= 4294967296
    end.
Proof.
  intros HB. revert i index. induction n as [| n IH]; intros i index Hn E0 Hs Hi.
  { exists None, index. split; [done |]. split; [done |]. specialize (E0 eq_refl). pose proof (span_pos (S h)). pose proof Hi as [? ?].
    assert (stop index = index) as -> by (unfold stop; rewrite (proj2 (Z.eqb_neq index 0)); nia).
    split; [apply listing_nil; lia |]. split; [lia |]. split; [done |]. lia. }
  specialize (Hs ltac:(done)). cbn [skip]. destruct (hit_spec h sel c t0 t1 ss i W ltac:(lia)) as (s & b & _ & _ & Eh & _ & Hf & _).
  rewrite Eh. cbn [mbind option_bind]. destruct b.
  { exists (Some i), index. split; [done |]. split; [done |]. split; [lia |]. split; [lia |]. split; [done |]. split; [done |]. apply listing_nil. lia. }
  destruct (next_span_spec h index Hh Hi) as (En & Hr & Hx). rewrite (in_slot_next h B i) in En by (done || lia).
  pose proof (span_pos h) as Hp. pose proof Hs as [Hs1 Hs2].
  assert (listing (found (S h) sel (Node c t0 t1 ss)) index (stop (next_span h index)) []) as L1
    by (apply (in_slot_none h sel B i); auto; lia).
  set (nx := next_span h index) in *. destruct (Z.eqb_spec nx 0) as [Ez | Ez].
  { exists None, nx. split; [done |]. split; [done |]. split; [done |]. split; [lia |]. split; [lia |]. rewrite span_S in *. nia. }
  assert (stop nx = nx) as Es by (unfold stop; by rewrite (proj2 (Z.eqb_neq nx 0))).
  destruct (IH (S i) nx) as (f & index' & -> & Hi' & K).
  - lia.
  - intros ->. rewrite <- Es, En. rewrite span_S. replace i with 63%nat by lia. lia.
  - intros _. unfold in_slot. rewrite <- Es, En. lia.
  - done.
  - exists f, index'. split; [done |]. split; [done |]. rewrite Es in *. destruct f as [i' |].
    + destruct K as (? & ? & ? & ? & L2). split; [done |]. split; [lia |]. split; [done |]. split; [done |]. by apply (listing_app _ index nx index' [] []); [lia | |].
    + destruct K as (L2 & ? & ? & ? & ?). split; [by apply (listing_app _ index nx (stop index') [] []); [lia | |] |]. lia.
Qed.
End search.

Lemma grab_spec sel c t0 t1 ss B n j x max_items : wf 1 (Node c t0 t1 ss) -> 0 <= B -> (j + n = 64)%nat -> x = B * 64 + Z.of_nat j ->
  (n <> 0%nat -> x <= 4294967295) -> 0 < x \/ n <> 0%nat -> x <= 4294967296 -> (1 <= max_items)%nat ->
  exists index' ps, grab n sel t0 t1 ss j (u32 x) max_items = Some (ps.*2, index') /\ index_ok index' /\ (length ps <= max_items)%nat /\
    listing (found 1 sel (Node c t0 t1 ss)) x (stop index') ps /\ x <= stop index' /\ (n <> 0%nat -> x < stop index') /\
    stop index' <= (B + 1) * 64 /\ stop index' <= 4294967296.
Proof.
  intros W HB. revert j x max_items. induction n as [| n IH]; intros j x max_items Hn Hx Hlt Hpos Hle Hm.
  { assert (0 < x) by (by destruct Hpos). assert (stop (u32 x) = x /\ index_ok (u32 x)) as [Es Hi].
    { unfold stop, u32, index_ok. destruct (decide (x = 4294967296)) as [-> |]; [by vm_compute |]. rewrite Z.mod_small by lia.
      rewrite (proj2 (Z.eqb_neq x 0)) by lia. lia. }
    exists (u32 x), []. split; [done |]. split; [done |]. split; [simpl; lia |]. rewrite Es. split; [apply listing_nil; lia |]. lia. }
  specialize (Hlt ltac:(done)). assert (u32 x = x) as Ux by (unfold u32; rewrite Z.mod_small; lia).
  assert (stop (u32 (x + 1)) = x + 1 /\ index_ok (u32 (x + 1))) as [Es Hi].
  { unfold stop, u32, index_ok. destruct (decide (x = 4294967295)) as [-> |]; [by vm_compute |]. rewrite Z.mod_small by lia.
    rewrite (proj2 (Z.eqb_neq (x + 1) 0)) by lia. lia. }
  cbn [grab]. rewrite Ux. destruct (hit_spec 0 sel c t0 t1 ss j W ltac:(lia)) as (s & b & Hs & _ & -> & _ & Hf & Ht). cbn [mbind option_bind].
  assert (slot_offset 0 x = j) as Ox by (apply (offset_block 0 B j); [done | lia | change (span 1) with 64; change (span 0) with 1; lia]).
  assert (forall m, (1 <= m)%nat -> exists index' ps, grab n sel t0 t1 ss (S j) (u32 (x + 1)) m = Some (ps.*2, index') /\ index_ok index' /\ (length ps <= m)%nat /\
    listing (found 1 sel (Node c t0 t1 ss)) (x + 1) (stop index') ps /\ x + 1 <= stop index' /\ (n <> 0%nat -> x + 1 < stop index') /\
    stop index' <= (B + 1) * 64 /\ stop index' <= 4294967296) as Rec by (intros m Hm'; apply IH; lia).
  destruct b.
  - destruct (Ht eq_refl eq_refl) as (p & -> & Hp). rewrite Hs. cbn [mbind option_bind].
    assert (listing (found 1 sel (Node c t0 t1 ss)) x (x + 1) [(x, p)]) as L1 by (apply listing_one; auto).
    destruct (Nat.eqb_spec max_items 1) as [-> | Hm1].
    + exists (u32 (x + 1)), [(x, p)]. split; [done |]. split; [done |]. split; [done |]. rewrite Es. split; [done |]. lia.
    + destruct (Rec (max_items - 1)%nat ltac:(lia)) as (index' & ps & -> & Hi' & Hl & L2 & ? & ? & ? & ?). cbn [mbind option_bind].
      exists index', ([(x, p)] ++ ps). split; [done |]. split; [done |]. split; [simpl; lia |]. split; [apply listing_app with (x + 1); [lia | done | done] |]. lia.
  - destruct (Rec max_items Hm) as (index' & ps & -> & Hi' & Hl & L2 & ? & ? & ? & ?). exists index', ps. split; [done |]. split; [done |]. split; [done |].
    split; [| lia]. apply (listing_app _ x (x + 1) (stop index') [] ps); [lia | | done]. apply listing_nil. intros i Hi2. replace i with x by lia. by apply Hf.
Qed.

Lemma __lookup_spec h sel index max_items s : (h <= 5)%nat -> wf (S h) s -> is_null s = false -> index_ok index -> (1 <= max_items)%nat ->
  exists index' ps, __lookup (S h) sel index max_items s = Some (ps.*2, index') /\ index_ok index' /\ (length ps <= max_items)%nat /\
    listing (found (S h) sel s) index (stop index') ps /\ index < stop index' /\
    stop index' <= (index / span (S h) + 1) * span (S h) /\ stop index' <= 4294967296.
Proof.
  revert index s. induction h as [| h IH]; intros index s Hh W N Hi Hm; (destruct s as [| p | c t0 t1 ss]; [done | done |]).
  - pose proof Hi as [H0 H1]. pose proof (Z.div_pos index (span 1) H0 (span_pos 1)) as HB. pose proof (block_offset 0 index H0) as Hb. cbv zeta in Hb.
    destruct (skip_spec 0 sel c t0 t1 ss Hh W (index / span 1) (64 - slot_offset 0 index) (slot_offset 0 index) index HB) as (f & index' & E & Hi' & K);
      [pose proof (offset_lt 0 index); lia | pose proof (offset_lt 0 index); lia | done | done |].
    cbn [__lookup]. unfold RADIX_TREE_MAP_SIZE. rewrite E. cbn [mbind option_bind]. destruct f as [i' |].
    + destruct K as (Hl & Hle & Hs & Hit & L1). destruct (offset_block 0 (index / span 1) i' index' HB Hl Hs) as [-> Eb]. cbn [Nat.eqb].
      unfold in_slot in Hs. change (span 1) with 64 in *. change (span 0) with 1 in *. pose proof Hi' as [? ?].
      destruct (grab_spec sel c t0 t1 ss (index / 64) (64 - i') i' index' max_items W HB) as (nx & ps & Eg & Hn & Hlen & L2 & ? & Hlt & ? & ?);
        [lia | lia | lia | lia | lia | done |].
      replace (u32 index') with index' in Eg by (unfold u32; rewrite Z.mod_small; lia). exists nx, ps. split; [exact Eg |]. split; [done |]. split; [done |].
      split; [apply (listing_app _ index index' (stop nx) [] ps); [lia | done | done] |]. specialize (Hlt ltac:(lia)). lia.
    + destruct K as (L1 & ? & Hlt & ? & ?). exists index', []. split; [done |]. split; [done |]. split; [simpl; lia |]. split; [done |].
      pose proof (offset_lt 0 index). specialize (Hlt ltac:(lia)). lia.
  - pose proof Hi as [H0 H1]. pose proof (Z.div_pos index (span (S (S h))) H0 (span_pos _)) as HB. pose proof (block_offset (S h) index H0) as Hb. cbv zeta in Hb.
    destruct (skip_spec (S h) sel c t0 t1 ss Hh W (index / span (S (S h))) (64 - slot_offset (S h) index) (slot_offset (S h) index) index HB) as (f & index' & E & Hi' & K);
      [pose proof (offset_lt (S h) index); lia | pose proof (offset_lt (S h) index); lia | done | done |].
    change (__lookup (S (S h)) sel index max_items (Node c t0 t1 ss)) with
      ('(f, index) ← skip (RADIX_TREE_MAP_SIZE - slot_offset (S h) index) sel (S h) t0 t1 ss (slot_offset (S h) index) index;
       match f with None => Some ([], index) | Some i => s' ← ss !! i; __lookup (S h) sel index max_items s' end).
    unfold RADIX_TREE_MAP_SIZE. rewrite E. cbn [mbind option_bind]. destruct f as [i' |].
    + destruct K as (Hl & Hle & Hs & Hit & L1). destruct (hit_spec (S h) sel c t0 t1 ss i' W Hl) as (s' & b & Hs' & Ws & Eh & Nn & _).
      rewrite Hit in Eh. injection Eh as <-. rewrite Hs'. cbn [mbind option_bind].
      destruct (IH index' s' ltac:(lia) Ws (Nn eq_refl) Hi' Hm) as (nx & ps & -> & Hn & Hlen & L2 & Hlt & Hend & ?).
      rewrite (in_slot_next (S h) (index / span (S (S h))) i') in Hend by done. exists nx, ps. split; [done |]. split; [done |]. split; [done |].
      pose proof Hs as [Hs1 Hs2]. pose proof (span_pos (S h)). split.
      * apply (listing_app _ index index' (stop nx) [] ps); [lia | done |]. eapply listing_ext; [| exact L2]. intros j Hj. symmetry.
        eapply found_child; [exact Hs' |]. apply (offset_block (S h) (index / span (S (S h))) i' j HB Hl). lia.
      * rewrite (span_S (S h)) in *. split; [lia |]. split; [nia | done].
    + destruct K as (L1 & ? & Hlt & ? & ?). exists index', []. split; [done |]. split; [done |]. split; [simpl; lia |]. split; [done |].
      pose proof (offset_lt (S h) index). specialize (Hlt ltac:(lia)). lia.
Qed.

(** ** Gang lookup *)

Definition wanted (root : radix_tree_root) (sel : option bool) (i : Z) : option Z :=
  match sel with None => items root i | Some tag => if tags root tag i then items root i else None end.

Lemma wanted_found root sel i : i <= maxindex (height root) -> wanted root sel i = found (height root) sel (rnode root) i.
Proof. intros H. unfold wanted, found, items, tags. rewrite (proj2 (Z.ltb_ge _ _)) by done. by destruct sel. Qed.

Lemma wanted_none root sel i : maxindex (height root) < i -> wanted root sel i = None.
Proof. intros H. unfold wanted, items. rewrite (proj2 (Z.ltb_lt _ _)) by done. destruct sel as [tag |]; [by destruct (tags root tag i) | done]. Qed.

(** The list [l] is the first [max_items] items of a listing. *)
Lemma gang_loop_spec fuel root sel cur max_items : root_ok root -> settled root -> index_ok cur -> (Z.to_nat (4294967296 - cur) <= fuel)%nat ->
  exists e ps, gang_loop fuel root sel (maxindex (height root)) cur max_items = Some ps.*2 /\ cur <= e <= 4294967296 /\
    listing (wanted root sel) cur e ps /\ (length ps = max_items \/ (length ps <= max_items)%nat /\ e = 4294967296).
Proof.
  intros R S. pose proof R as (Hh & W & _ & H0). revert cur max_items. induction fuel as [| fuel IH]; intros cur max_items Hc Hf; [destruct Hc; lia |].
  destruct max_items as [| m]; [exists cur, []; destruct Hc; split; [done |]; split; [lia |]; split; [apply listing_nil; lia | by left] |].
  cbn [gang_loop]. destruct (Z.ltb_spec (maxindex (height root)) cur) as [Hm | Hm].
  { exists 4294967296, []. destruct Hc. split; [done |]. split; [lia |]. split; [| right; split; [simpl; lia | done]].
    apply listing_nil. intros i Hi. apply wanted_none. lia. }
  destruct (height root) as [| h] eqn:Eh.
  { change (maxindex 0) with 0 in Hm. destruct Hc. replace cur with 0 by lia. exists 4294967296, []. split; [done |]. split; [lia |].
    split; [| right; split; [simpl; lia | done]]. apply listing_nil. intros i Hi. unfold wanted, items, tags. rewrite Eh, (H0 eq_refl).
    destruct sel; simpl; by repeat case_match. }
  assert (is_null (rnode root) = false) as N by (destruct (rnode root) eqn:Er; [specialize (S Er); congruence | done | done]).
  destruct (__lookup_spec h sel cur (Datatypes.S m) (rnode root) ltac:(lia) W N Hc ltac:(lia)) as (nx & ps & -> & Hn & Hl & L & Hlt & Hend & H32).
  cbn [mbind option_bind]. pose proof Hc as [Hc0 Hc1].
  assert (listing (wanted root sel) cur (stop nx) ps) as L1.
  { eapply listing_ext; [| exact L]. intros i Hi. rewrite wanted_found, Eh; [done |]. rewrite Eh. unfold maxindex.
    rewrite Z.div_small in Hend by (unfold maxindex in Hm; lia). lia. }
  destruct (Z.eqb_spec nx 0) as [Ez | Ez].
  { exists (stop nx), ps. split; [done |]. split; [lia |]. split; [done |]. right. split; [done |]. by rewrite Ez. }
  assert (stop nx = nx) as Es by (unfold stop; by rewrite (proj2 (Z.eqb_neq nx 0))). rewrite Es in *.
  destruct (IH nx (Datatypes.S m - length ps)%nat Hn ltac:(lia)) as (e & qs & E2 & He & L2 & D).
  rewrite length_fmap, E2. cbn [mbind option_bind]. exists e, (ps ++ qs). split; [by rewrite fmap_app |]. split; [lia |].
  split; [apply listing_app with nx; [lia | done | done] |]. rewrite length_app. destruct D as [D | [D ?]]; [left; lia | right; split; [lia | done]].
Qed.

(** C13. On a tree that is not empty with a raised height (the state that a first insertion
    without memory leaves, [failed_first_insert], and no other call),
    [radix_tree_gang_lookup] and [radix_tree_gang_lookup_tag] end, and return exactly the first [max_items] items (with the tag) at or after [first_index], in ascending
    order of index: none is missed, at the wraparound of the index neither, and none is
    returned twice. *)
Theorem gang_lookup_first fuel root sel first_index max_items :
  root_ok root -> settled root -> index_ok first_index -> (Z.to_nat (4294967296 - first_index) <= fuel)%nat ->
  exists ps, listing (wanted root sel) first_index 4294967296 ps /\
    gang_lookup fuel root sel first_index max_items = Some (take max_items ps.*2).
Proof.
  intros R S Hi Hf. unfold gang_lookup. rewrite radix_tree_maxindex_eq by apply R. cbn [mbind option_bind].
  destruct (gang_loop_spec fuel root sel first_index max_items R S Hi Hf) as (e & ps & -> & He & L & D).
  destruct (listing_exists (wanted root sel) e 4294967296) as [qs Lq]. exists (ps ++ qs). split; [apply listing_app with e; [lia | done | done] |]. f_equal.
  rewrite fmap_app. destruct D as [<- | [Hl ->]].
  - rewrite take_app_le by (by rewrite length_fmap). rewrite take_ge; [done |]. by rewrite length_fmap.
  - destruct qs as [| [i q] qs]; [by rewrite app_nil_r, take_ge by (by rewrite length_fmap) |].
    destruct (proj1 (proj2 Lq i q) ltac:(left)) as [? _]. lia.
Qed.

(** C14. On a tree that is not empty with a raised height ([settled]),
    [radix_tree_insert] does what its result says: 0, the item is in the tree and
    nothing else changed; [-EEXIST], there was an item and the tree is the same;
    [-ENOMEM], the contents are the same. It never fails for want of memory when the
    first ten allocations succeed, and no tag is changed. *)
Theorem radix_tree_insert_total root index item alloc : root_ok root -> settled root -> index_ok index ->
  exists e root', radix_tree_insert root index item alloc = Some (e, root') /\ root_ok root' /\
    (forall tag i, index_ok i -> tags root' tag i = tags root tag i) /\
    match items root index with
    | Some _ => e = - EEXIST /\ root' = root
    | None =>
        e = 0 /\ settled root' /\ (forall i, index_ok i -> items root' i = if decide (i = index) then Some item else items root i) \/
        e = - ENOMEM /\ (forall i, index_ok i -> items root' i = items root i) /\ ~ enough 10 alloc /\ (rnode root <> Empty -> settled root')
    end.
Proof. apply radix_tree_insert_spec. Qed.

(** ** A map with tags

    The abstract state maps an index to its item and its two tags. *)

Definition entry : Type := Z * bool * bool.
Definition e_item (e : entry) : Z := e.1.1.
Definition e_tag (tag : bool) (e : entry) : bool := if tag then e.2 else e.1.2.
Definition set_e_tag (tag b : bool) (e : entry) : entry := if tag then (e.1, b) else (e.1.1, b, e.2).

Inductive op :=
  | Insert (index item : Z) (alloc : list bool)
  | Lookup (index : Z)
  | Delete (index : Z)
  | TagSet (index : Z) (tag : bool)
  | TagClear (index : Z) (tag : bool)
  | TagGet (index : Z) (tag : bool)
  | Tagged (tag : bool).

Inductive answer := Code (e : Z) | Pointer (p : option Z) | Flag (b : bool).

(** The answer, the map afterwards. [None] where the caller breaks the contract:
    "Setting a tag on a not-present item is a bug." *)
Definition spec_op (m : gmap Z entry) (o : op) : option (answer * gmap Z entry) :=
  match o with
  | Insert index item _ =>
      Some (match m !! index with Some _ => (Code (- EEXIST), m) | None => (Code 0, <[index := (item, false, false)]> m) end)
  | Lookup index => Some (Pointer (e_item <$> m !! index), m)
  | Delete index => Some (Pointer (e_item <$> m !! index), delete index m)
  | TagSet index tag => e ← m !! index; Some (Pointer (Some (e_item e)), <[index := set_e_tag tag true e]> m)
  | TagClear index tag => Some (Pointer (e_item <$> m !! index), alter (set_e_tag tag false) index m)
  | TagGet index tag => Some (Flag (default false (e_tag tag <$> m !! index)), m)
  | Tagged tag => Some (Flag (bool_decide (map_Exists (fun _ e => e_tag tag e = true) m)), m)
  end.

(** One call on the map. An insertion at a vacant index may also fail for want of
    memory, and changes nothing then, if not all of its first ten allocations would
    succeed. *)
Definition spec_step (m : gmap Z entry) (o : op) (a : answer) (m' : gmap Z entry) : Prop :=
  spec_op m o = Some (a, m') \/
  exists index item alloc, o = Insert index item alloc /\ m !! index = None /\ ~ enough 10 alloc /\
    a = Code (- ENOMEM) /\ m' = m.

(** What the callers have to see to: indices fit 32 bits, tags are only set on items
    that are present ("Setting a tag on a not-present item is a bug"), and the first
    node of an insertion into an empty tree can be allocated. *)
Definition expected (m : gmap Z entry) (o : op) : Prop :=
  match o with
  | Insert index _ alloc => index_ok index /\ (m <> ∅ \/ head alloc = Some true)
  | TagSet index _ => index_ok index /\ is_Some (m !! index)
  | Lookup index | Delete index | TagClear index _ | TagGet index _ => index_ok index
  | Tagged _ => True
  end.

(** A sequence of calls with the answers it gets. *)
Inductive spec_runs : gmap Z entry -> list op -> list answer -> gmap Z entry -> Prop :=
  | runs_nil m : spec_runs m [] [] m
  | runs_cons m o os a m1 l m2 :
      expected m o -> spec_step m o a m1 -> spec_runs m1 os l m2 -> spec_runs m (o :: os) (a :: l) m2.

(** The same operation on a tree; the nodes it frees last. *)
Definition run_op (root : radix_tree_root) (o : op) : option (answer * radix_tree_root * list slot) :=
  match o with
  | Insert index item alloc => '(e, root) ← radix_tree_insert root index item alloc; Some (Code e, root, [])
  | Lookup index => p ← radix_tree_lookup root index; Some (Pointer p, root, [])
  | Delete index => '(p, root, freed) ← radix_tree_delete root index; Some (Pointer p, root, freed)
  | TagSet index tag => '(p, root) ← radix_tree_tag_set root index tag; Some (Pointer p, root, [])
  | TagClear index tag => '(p, root) ← radix_tree_tag_clear root index tag; Some (Pointer p, root, [])
  | TagGet index tag => b ← radix_tree_tag_get root index tag; Some (Flag b, root, [])
  | Tagged tag => b ← radix_tree_tagged root tag; Some (Flag b, root, [])
  end.

Fixpoint run (root : radix_tree_root) (os : list op) : option (list answer * radix_tree_root * list slot) :=
  match os with
  | [] => Some ([], root, [])
  | o :: os => '(a, root, f) ← run_op root o; '(l, root, g) ← run root os; Some (a :: l, root, f ++ g)
  end.

(** The tree stands for the map. *)
Definition represents (root : radix_tree_root) (m : gmap Z entry) : Prop :=
  root_ok root /\ settled root /\ map_Forall (fun i _ => index_ok i) m /\
  (forall i, index_ok i -> items root i = e_item <$> m !! i) /\
  (forall tag i, index_ok i -> tags root tag i = default false (e_tag tag <$> m !! i)).

Lemma represents_init : represents INIT_RADIX_TREE ∅.
Proof.
  split; [apply (root_ok_empty 0); lia |]. split; [done |]. split; [apply map_Forall_empty |].
  split; intros; rewrite lookup_empty; unfold items, tags; cbn; [by case_match | apply andb_false_r].
Qed.

Lemma alter_Some (f : entry -> entry) (m : gmap Z entry) i e : m !! i = Some e -> alter f i m = <[i := f e]> m.
Proof.
  intros H. apply map_eq. intros j. destruct (decide (i = j)) as [<- | Hne]; [by rewrite lookup_alter_eq, lookup_insert_eq, H |].
  by rewrite lookup_alter_ne, lookup_insert_ne.
Qed.

Lemma alter_None (f : entry -> entry) (m : gmap Z entry) i : m !! i = None -> alter f i m = m.
Proof.
  intros H. apply map_eq. intros j. destruct (decide (i = j)) as [<- | Hne]; [by rewrite lookup_alter_eq, H |]. by rewrite lookup_alter_ne.
Qed.

Lemma e_tag_set tag tag' b e : e_tag tag' (set_e_tag tag b e) = if decide (tag = tag') then b else e_tag tag' e.
Proof. destruct e as [[p b0] b1]. by destruct tag, tag'. Qed.

Lemma item_set_e_tag tag b e : e_item (set_e_tag tag b e) = e_item e.
Proof. destruct e as [[p b0] b1]. by destruct tag. Qed.

(** A tag of one entry changed. *)
Lemma represents_retag root root' m index tag b e : represents root m -> index_ok index -> m !! index = Some e ->
  root_ok root' -> (settled root -> settled root') -> (forall i, index_ok i -> items root' i = items root i) ->
  (forall tag' i, index_ok i -> tags root' tag' i = if decide (tag = tag' /\ i = index) then b else tags root tag' i) ->
  represents root' (<[index := set_e_tag tag b e]> m).
Proof.
  intros (R & S & D & HI & HT) Hi He R' S' HI' HT'. split; [done |]. split; [auto |]. split; [by apply map_Forall_insert_2 |]. split.
  - intros i Hi'. rewrite HI', HI by done. destruct (decide (i = index)) as [-> | Hne].
    + rewrite lookup_insert_eq. rewrite He. simpl. by rewrite item_set_e_tag.
    + by rewrite lookup_insert_ne by done.
  - intros tag' i Hi'. rewrite HT' by done. destruct (decide (i = index)) as [-> | Hne].
    + rewrite lookup_insert_eq. simpl. rewrite e_tag_set. destruct (decide (tag = tag')) as [-> | Ht]; [by rewrite decide_True |].
      rewrite decide_False by (by intros [? _]). rewrite HT, He by done. done.
    + rewrite decide_False by (by intros [_ ?]). rewrite lookup_insert_ne by done. auto.
Qed.

Definition simulated (root : radix_tree_root) (o : op) (a : answer) (m' : gmap Z entry) : Prop :=
  exists root' freed, run_op root o = Some (a, root', freed) /\ represents root' m' /\ Forall (fun n => n = new_node) freed.

(** The first node of an empty tree stays, whatever fails after it. *)
Lemma insert_first_node root index item alloc e root' : root_ok root -> settled root -> index_ok index ->
  rnode root = Empty -> head alloc = Some true ->
  radix_tree_insert root index item alloc = Some (e, root') -> rnode root' <> Empty.
Proof.
  intros R S Hi En Ha. pose proof (S En) as H0. unfold radix_tree_insert. rewrite H0, En.
  change (radix_tree_maxindex 0) with (Some 0). cbn [mbind option_bind is_null]. rewrite andb_true_r.
  assert ((index =? 0) || (0 <? index) = true) as -> by (destruct Hi; lia).
  assert (extend_ok root index alloc (radix_tree_extend root index alloc)) as (e1 & al & r & E1 & _ & _ & N & D).
  { apply extend_spec; try done. }
  rewrite E1. cbn [mbind option_bind]. rewrite En in N, D.
  destruct D as [(-> & Hh & _ & Hal & _) | (_ & ? & _)]; [| done]. rewrite (Hal eq_refl). cbn [Z.eqb negb].
  destruct (height r) as [| h]; [lia |]. destruct (rnode r); [| done..]. destruct alloc as [| [] alloc]; try done.
  cbn [insert_slot negb]. unfold new_node. destruct (replicate _ _ !! _); [| done]. cbn [mbind option_bind].
  destruct (insert_slot h index item alloc _) as [[[e2 al2] s2] |]; [| done]. cbn [mbind option_bind].
  case_match; [done |]. cbn [mbind option_bind]. by intros [= _ <-].
Qed.

Lemma represents_vacant root m : represents root m -> rnode root = Empty -> m = ∅.
Proof.
  intros (_ & _ & D & HI & _) En. apply map_empty. intros i. destruct (m !! i) as [e |] eqn:Hm; [| done].
  pose proof (map_Forall_lookup_1 _ _ _ _ D Hm) as Hi. specialize (HI i Hi). rewrite Hm in HI.
  destruct root as [h s]. simpl in En. subst s. unfold items in HI. cbn [height rnode] in HI.
  case_match; [done |]. by rewrite get_empty in HI.
Qed.

Lemma simulate_insert root m index item alloc : represents root m -> expected m (Insert index item alloc) ->
  exists a m', spec_step m (Insert index item alloc) a m' /\ simulated root (Insert index item alloc) a m'.
Proof.
  intros Rep [Hi Ha]. pose proof Rep as (R & S & D & HI & HT).
  destruct (radix_tree_insert_spec root index item alloc R S Hi) as (e & root' & Er & R' & T & K).
  unfold insert_result in K. rewrite HI in K by done. destruct (m !! index) as [en |] eqn:Hm; simpl in K.
  - destruct K as [-> ->]. exists (Code (- EEXIST)), m. split; [left; simpl; by rewrite Hm |].
    exists root, []. cbn [run_op]. by rewrite Er.
  - destruct K as [(-> & S' & I) | (-> & I & Ne & S')].
    + exists (Code 0), (<[index := (item, false, false)]> m). split; [left; simpl; by rewrite Hm |].
      exists root', []. cbn [run_op]. rewrite Er. split; [done |]. split; [| done]. split; [done |]. split; [done |].
      split; [by apply map_Forall_insert_2 |]. split.
      * intros i Hi'. rewrite I by done. case_decide as Ed; [subst; by rewrite lookup_insert_eq |]. rewrite lookup_insert_ne by done. auto.
      * intros tag i Hi'. rewrite T, HT by done. destruct (decide (i = index)) as [-> | Hne]; [| by rewrite lookup_insert_ne by done].
        rewrite lookup_insert_eq, Hm. by destruct tag.
    + exists (Code (- ENOMEM)), m. split; [right; by exists index, item, alloc |]. exists root', []. cbn [run_op]. rewrite Er.
      split; [done |]. split; [| done]. split; [done |]. split; [| split; [done |]; split; intros; [rewrite I | rewrite T]; auto].
      destruct (rnode root) eqn:En; [| by apply S'..]. destruct Ha as [Ha | Ha]; [by destruct Ha; eapply represents_vacant |].
      intros Hn. by destruct (insert_first_node _ _ _ _ _ _ R S Hi En Ha Er).
Qed.

Lemma simulate_delete root m index : represents root m -> index_ok index ->
  simulated root (Delete index) (Pointer (e_item <$> m !! index)) (delete index m).
Proof.
  intros (R & S & D & HI & HT) Hi. unfold simulated, run_op.
  destruct (radix_tree_delete_spec root index R Hi) as (root' & freed & -> & R' & S' & I & T & F). cbn [mbind option_bind]. rewrite HI by done.
  eexists _, _. split; [done |]. split; [| done]. split; [done |]. split; [auto |]. split; [by apply map_Forall_delete |]. split.
  - intros i Hi'. rewrite I by done. case_decide as Ed; [subst; by rewrite lookup_delete_eq |]. rewrite lookup_delete_ne by done. auto.
  - intros tag i Hi'. rewrite T by done. case_decide as Ed; [subst; by rewrite lookup_delete_eq |]. rewrite lookup_delete_ne by done. auto.
Qed.

Lemma simulate_tagged root m tag : represents root m ->
  simulated root (Tagged tag) (Flag (bool_decide (map_Exists (fun _ e => e_tag tag e = true) m))) m.
Proof.
  intros Rep. pose proof Rep as (R & S & D & HI & HT). unfold simulated, run_op.
  destruct (radix_tree_tagged_spec root tag R) as (b & -> & Hb). cbn [mbind option_bind].
  exists root, []. split; [| by split]. do 4 f_equal. apply eq_bool_prop_intro. rewrite bool_decide_spec, Is_true_true, Hb. split.
  - intros (i & Hi & T). rewrite HT in T by done. destruct (m !! i) as [e |] eqn:Hm; [| done]. by exists i, e.
  - intros (i & e & Hm & T). exists i. pose proof (map_Forall_lookup_1 _ _ _ _ D Hm) as Hi. split; [done |]. by rewrite HT, Hm.
Qed.

Lemma simulate_other root m o a m' : represents root m -> expected m o ->
  (forall index item alloc, o <> Insert index item alloc) -> spec_op m o = Some (a, m') -> simulated root o a m'.
Proof.
  intros Rep Ok No E. pose proof Rep as (R & S & D & HI & HT).
  destruct o as [index item alloc | index | index | index tag | index tag | index tag | tag]; [by destruct (No index item alloc) | | | | | |];
    cbn [expected] in Ok; unfold spec_op in E.
  - injection E as <- <-. exists root, []. cbn [run_op]. by rewrite radix_tree_lookup_spec, HI.
  - injection E as <- <-. by apply simulate_delete.
  - destruct Ok as [Ok _]. destruct (m !! index) as [e |] eqn:Hm; [| done]. injection E as <- <-.
    destruct (radix_tree_tag_set_spec root index tag (e_item e) R Ok) as (root' & Et & R' & S' & I & T); [by rewrite HI, Hm |].
    exists root', []. cbn [run_op]. rewrite Et. split; [done |]. split; [by eapply represents_retag | done].
  - injection E as <- <-. destruct (radix_tree_tag_clear_spec root index tag R Ok) as (root' & Et & R' & S' & I & T).
    exists root', []. cbn [run_op]. rewrite Et, HI by done. split; [done |]. split; [| done]. destruct (m !! index) as [e |] eqn:Hm.
    + replace (alter (set_e_tag tag false) index m) with (<[index := set_e_tag tag false e]> m) by (symmetry; by apply alter_Some).
      by eapply represents_retag.
    + rewrite alter_None by done. split; [done |]. split; [auto |]. split; [done |]. split; [intros i Hi'; rewrite I; auto |].
      intros tag' i Hi'. rewrite T by done. case_decide as Ed; [| auto]. destruct Ed as [_ ->]. by rewrite Hm.
  - injection E as <- <-. exists root, []. cbn [run_op]. by rewrite radix_tree_tag_get_spec, HT.
  - injection E as <- <-. by apply simulate_tagged.
Qed.

(** Every expected call returns, with an answer that the map gives. *)
Lemma simulate root m o : represents root m -> expected m o ->
  exists a m', spec_step m o a m' /\ simulated root o a m'.
Proof.
  intros Rep Ok. destruct o as [index item alloc | | | index tag | | |]; [by apply simulate_insert | ..];
    (eassert (exists a m', spec_op m _ = Some (a, m')) as (a & m' & E);
     [| exists a, m'; split; [left; exact E | by apply (simulate_other root m)]]); try (by eexists _, _).
  destruct Ok as [_ [e He]]. eexists _, _. cbn [spec_op]. rewrite He. done.
Qed.

Global Instance expected_dec m o : Decision (expected m o).
Proof. destruct o; simpl; unfold index_ok; apply _. Defined.

Lemma run_simulates os : forall root m0, represents root m0 ->
  exists os1 os2 l root' freed m, os = os1 ++ os2 /\ run root os1 = Some (l, root', freed) /\ spec_runs m0 os1 l m /\
    represents root' m /\ Forall (fun n => n = new_node) freed /\
    match os2 with [] => True | o :: _ => ~ expected m o end.
Proof.
  induction os as [| o os IH]; intros root m0 Rep.
  { exists [], [], [], root, [], m0. split_and!; try done. constructor. }
  destruct (decide (expected m0 o)) as [Ok | Ok].
  2: { exists [], (o :: os), [], root, [], m0. split_and!; try done. constructor. }
  destruct (simulate root m0 o Rep Ok) as (a & m1 & St & root1 & f & E & Rep1 & F).
  destruct (IH root1 m1 Rep1) as (os1 & os2 & l & root2 & g & m & -> & Er & Sr & Rep2 & G & Hx).
  exists (o :: os1), os2, (a :: l), root2, (f ++ g), m. split; [done |]. cbn [run]. rewrite E. cbn [mbind option_bind].
  rewrite Er. cbn [mbind option_bind]. split; [done |]. split; [by econstructor |]. split; [done |].
  split; [by apply Forall_app | done].
Qed.

(** C12. Take any sequence of insertions, lookups, deletions and changes and queries of
    tags on an empty tree, with any allocations failing, up to the first call that
    breaks the callers' part ([expected]): an index beyond 32 bits, a tag set on an
    absent item, or an insertion into an empty tree whose first node cannot be
    allocated (that leaves the height raised, see [failed_first_insert]). Every call
    before it returns, none follows a [NULL] pointer or fails a [BUG_ON], and the
    answers and the tree are those of the same calls on a map from indices to items
    with two tags; an insertion may fail with [ENOMEM] only if one of its first ten
    allocations fails, and leaves the map as it is. Every node freed on the way is as
    clean as a new one, so the cache may hand it out again. *)
Theorem radix_tree_refines os :
  exists os1 os2 l root freed m, os = os1 ++ os2 /\ run INIT_RADIX_TREE os1 = Some (l, root, freed) /\
    spec_runs ∅ os1 l m /\ represents root m /\ Forall (fun n => n = new_node) freed /\
    match os2 with [] => True | o :: _ => ~ expected m o end.
Proof. apply run_simulates, represents_init. Qed.

(** With ten nodes for every insertion the map decides every answer. *)
Definition ample (o : op) : Prop := match o with Insert _ _ alloc => enough 10 alloc | _ => True end.

Global Instance ample_dec o : Decision (ample o).
Proof. destruct o; simpl; unfold enough; apply _. Defined.

Fixpoint spec_run (m : gmap Z entry) (os : list op) : option (list answer * gmap Z entry) :=
  match os with
  | [] => Some ([], m)
  | o :: os =>
      if decide (expected m o /\ ample o)
      then '(a, m) ← spec_op m o; '(l, m) ← spec_run m os; Some (a :: l, m) else None
  end.

Lemma run_exact os : forall root m0 l m, represents root m0 -> spec_run m0 os = Some (l, m) ->
  exists root' freed, run root os = Some (l, root', freed) /\ represents root' m /\ Forall (fun n => n = new_node) freed.
Proof.
  induction os as [| o os IH]; intros root m0 l m Rep E; cbn [spec_run run] in *.
  - injection E as <- <-. by exists root, [].
  - destruct (decide _) as [[Ok Am] | _]; [| done].
    destruct (simulate root m0 o Rep Ok) as (a & m1 & St & root1 & f & Er & Rep1 & F).
    assert (spec_op m0 o = Some (a, m1)) as Es by (by destruct St as [| (i & item & alloc & -> & _ & Ne & _)]).
    rewrite Es, Er in *. cbn [mbind option_bind] in *.
    destruct (spec_run m1 os) as [[l1 m2] |] eqn:E2; [| done]. cbn [mbind option_bind] in E. injection E as <- <-.
    destruct (IH root1 m1 l1 m2 Rep1 E2) as (root2 & g & -> & Rep2 & G). cbn [mbind option_bind].
    exists root2, (f ++ g). split; [done |]. split; [done |]. by apply Forall_app.
Qed.

(** ** Examples *)

Definition ten : list bool := replicate 10 true.

Definition example_ops : list op :=
  [Insert 4294967291 100 ten; Insert 3 101 ten; Insert 4294967295 102 ten; Insert 3 103 ten; TagSet 4294967295 true;
   TagSet 3 true; TagClear 3 true; Tagged true; TagGet 3 true; Delete 3; Lookup 3; Lookup 4294967291; Tagged false].

Definition example_root : radix_tree_root :=
  match run INIT_RADIX_TREE example_ops with Some (_, root, _) => root | None => INIT_RADIX_TREE end.

Lemma example_run : exists root freed,
  run INIT_RADIX_TREE example_ops =
    Some ([Code 0; Code 0; Code 0; Code (- EEXIST); Pointer (Some 102); Pointer (Some 101); Pointer (Some 101); Flag true; Flag false;
           Pointer (Some 101); Pointer None; Pointer (Some 100); Flag false], root, freed) /\
  represents root {[4294967291 := (100, false, false); 4294967295 := (102, false, true)]} /\ Forall (fun n => n = new_node) freed.
Proof. apply (run_exact example_ops _ ∅); [apply represents_init | vm_compute; reflexivity]. Qed.

Lemma example_root_ok : root_ok example_root /\ settled example_root.
Proof.
  destruct example_run as (root & freed & E & (R & S & _) & _). unfold example_root. by rewrite E.
Qed.

Lemma gang_lookup_first_witness : exists ps,
  listing (wanted example_root (Some true)) 4294967290 4294967296 ps /\ gang_lookup 6 example_root (Some true) 4294967290 5 = Some (take 5 ps.*2).
Proof.
  apply (gang_lookup_first 6 example_root (Some true) 4294967290 5); [apply example_root_ok | apply example_root_ok | split; lia | vm_compute; lia].
Defined.

Lemma radix_tree_insert_total_witness : exists e root',
  radix_tree_insert INIT_RADIX_TREE 5 7 [true] = Some (e, root') /\ root_ok root' /\
  (forall tag i, index_ok i -> tags root' tag i = tags INIT_RADIX_TREE tag i) /\
  match items INIT_RADIX_TREE 5 with
  | Some _ => e = - EEXIST /\ root' = INIT_RADIX_TREE
  | None =>
      e = 0 /\ settled root' /\ (forall i, index_ok i -> items root' i = if decide (i = 5) then Some 7 else items INIT_RADIX_TREE i) \/
      e = - ENOMEM /\ (forall i, index_ok i -> items root' i = items INIT_RADIX_TREE i) /\ ~ enough 10 [true] /\
        (rnode INIT_RADIX_TREE <> Empty -> settled root')
  end.
Proof.
  apply (radix_tree_insert_total INIT_RADIX_TREE 5 7 [true]); [apply (root_ok_empty 0); lia | done | split; lia].
Defined.

Example gang_lookup_example : gang_lookup 5 example_root None 7 9 = Some [100; 102].
Proof. by vm_compute. Qed.

(** ** Where the promises of the comments end *)

(** A successful [radix_tree_preload] leaves at least [RADIX_TREE_MAX_PATH] nodes. *)
Lemma radix_tree_preload_fills nr env n : radix_tree_preload nr env = Some (0, n) -> (RADIX_TREE_MAX_PATH <= n)%nat.
Proof.
  revert nr. induction env as [| [a k] env IH]; intros nr; cbn [radix_tree_preload];
    (destruct (Nat.ltb_spec nr RADIX_TREE_MAX_PATH); [| intros [=]; lia]); [done |].
  destruct a; [| intros [=]]. destruct (Nat.ltb_spec k RADIX_TREE_MAX_PATH); apply IH.
Qed.

(** They are not enough, as the comment of [radix_tree_preload] says they are: with one
    item at 0 an item at the last index needs ten. *)
Definition preload_root : radix_tree_root :=
  match radix_tree_insert INIT_RADIX_TREE 0 1 [true] with Some (_, root) => root | None => INIT_RADIX_TREE end.

Lemma preload_not_enough :
  radix_tree_preload 0 (zip (replicate 7 true) (seq 0 7)) = Some (0, 7%nat) /\
  fst <$> radix_tree_insert preload_root 4294967295 2 (node_allocs 10 false [] 7) = Some (- ENOMEM) /\
  fst <$> radix_tree_insert preload_root 4294967295 2 (node_allocs 10 false [] 9) = Some (- ENOMEM) /\
  fst <$> radix_tree_insert preload_root 4294967295 2 (node_allocs 10 false [] 10) = Some 0.
Proof. by vm_compute. Qed.

(** A first insertion that finds no memory leaves the height of the empty tree raised. A
    search then follows the [NULL] root, and more such insertions at 0 raise the height
    past the end of [height_to_maxindex]. *)
Lemma failed_first_insert :
  radix_tree_insert INIT_RADIX_TREE 0 1 [] = Some (- ENOMEM, mk_root 1 Empty) /\
  gang_lookup 9 (mk_root 1 Empty) None 0 1 = None /\
  radix_tree_insert (mk_root 5 Empty) 0 1 [] = Some (- ENOMEM, mk_root 6 Empty) /\
  radix_tree_insert (mk_root 6 Empty) 0 1 [] = None.
Proof. by vm_compute. Qed.
