(* ===== verification/Idr.v ===== *)
(** * Identifiers for pointers: lib/idr.c, include/linux/idr.h

    A map from small integers to pointers that chooses the integers itself: a tree of
    layers with 32 slots each, in which a bit of [bitmap] says that nothing is free below
    that slot. A slot is [Null], a user's pointer (in the lowest layer) or a layer. Layers
    are only reached from the root or from the list [id_free], so a walk keeps the layers
    above it in [pa], each with the slot it went down by, and a change is written back when
    the walk goes up.

    [id_free] is linked by [ary[0]]; here the links are the list, and slot 0 of its layers is
    [Null]. Answers of the slab allocator are arguments; a new layer is zero, as the
    constructor makes it. [find_next_bit] is ARM's (arch/arm/lib/findbit.S), which returns the size when there is no
    bit. [None] is undefined behaviour: running out of the array [pa], or shifting by 32 or
    more. *)

From stdpp Require Import list gmap.
From S2P Require Import Prelude.

Definition IDR_BITS : Z := 5.
Definition IDR_FULL : Z := 4294967295.
Definition IDR_SIZE : nat := 32.
Definition IDR_MASK : Z := 31.
Definition MAX_ID_BIT : Z := 2147483648.
Definition MAX_ID_MASK : Z := MAX_ID_BIT - 1.
Definition MAX_LEVEL : nat := 7.
Definition IDR_FREE_MAX : Z := 14.

Inductive idr_layer := Null | Ptr (p : Z) | Layer (bitmap : Z) (ary : list idr_layer) (count : Z).

Record idr := mk_idr { top : idr_layer; id_free : list idr_layer; layers : nat; id_free_cnt : Z }.

Definition idr_init : idr := mk_idr Null [] 0 0.

Definition zero_layer : idr_layer := Layer 0 (replicate IDR_SIZE Null) 0.

Definition is_null (p : idr_layer) : bool := match p with Null => true | _ => false end.

Definition set_top (p : idr_layer) (idp : idr) : idr := mk_idr p (id_free idp) (layers idp) (id_free_cnt idp).
Definition set_layers (n : nat) (idp : idr) : idr := mk_idr (top idp) (id_free idp) n (id_free_cnt idp).

(** [p->ary[0] = NULL]. *)
Definition clear_link (p : idr_layer) : idr_layer := match p with Layer b ary c => Layer b (<[0%nat := Null]> ary) c | _ => p end.

Definition alloc_layer (idp : idr) : idr_layer * idr :=
  match id_free idp with
  | [] => (Null, idp)
  | p :: rest => (clear_link p, mk_idr (top idp) rest (layers idp) (id_free_cnt idp - 1))
  end.

Definition free_layer (idp : idr) (p : idr_layer) : idr :=
  mk_idr (top idp) (clear_link p :: id_free idp) (layers idp) (id_free_cnt idp + 1).

(** The loop of idr_pre_get: at most 14 layers are needed. *)
Fixpoint pre_get_loop (n : nat) (alloc : nat -> bool) (idp : idr) : Z * idr :=
  if id_free_cnt idp <? IDR_FREE_MAX then
    match n with
    | O => (0, idp)
    | S n => if alloc n then pre_get_loop n alloc (free_layer idp zero_layer) else (0, idp)
    end
  else (1, idp).

Definition idr_pre_get (idp : idr) (alloc : nat -> bool) : Z * idr := pre_get_loop (Z.to_nat (IDR_FREE_MAX - id_free_cnt idp)) alloc idp.

(** ** Allocation *)

Definition digit (l : nat) (id : Z) : nat := Z.to_nat (Z.land (Z.shiftr id (IDR_BITS * Z.of_nat l)) IDR_MASK).

Fixpoint next_bit (k : nat) (bm : Z) (n : nat) : nat :=
  match k with O => n | S k => if Z.testbit bm (Z.of_nat n) then n else next_bit k bm (S n) end.

(** [find_next_bit(&bm, IDR_SIZE, n)] *)
Definition find_next_bit32 (bm : Z) (n : nat) : nat := next_bit (IDR_SIZE - n) bm n.

(** A layer of [pa], with the slot below which the walk is. *)
Record frame := mk_frame { f_bitmap : Z; f_ary : list idr_layer; f_count : Z; f_slot : nat }.

Definition plug (f : frame) (p : idr_layer) : idr_layer := Layer (f_bitmap f) (<[f_slot f := p]> (f_ary f)) (f_count f).

Fixpoint unwind (pa : list frame) (p : idr_layer) : idr_layer := match pa with [] => p | f :: pa => unwind pa (plug f p) end.

(** [while (p->bitmap == IDR_FULL)]: layers that have become full are marked in the layer above. *)
Fixpoint mark_full (pa : list frame) (n : Z) (p : idr_layer) : idr_layer :=
  match pa, p with
  | f :: rest, Layer bitmap _ _ =>
      if bitmap =? IDR_FULL then
        let n := Z.shiftr n IDR_BITS in
        mark_full rest n (plug (mk_frame (Z.setbit (f_bitmap f) (Z.land n IDR_MASK)) (f_ary f) (f_count f) (f_slot f)) p)
      else unwind pa p
  | _, _ => p
  end.

(** The loop of sub_alloc: the result, the new [*starting_id] and the new state. *)
Fixpoint alloc_loop (fuel : nat) (ptr : Z) (idp : idr) (p : idr_layer) (l : nat) (pa : list frame) (id : Z) : option (Z * Z * idr) :=
  match fuel, p with
  | S fuel, Layer bitmap ary count =>
      let n := digit l id in
      let m := find_next_bit32 (not32 bitmap) n in
      if (m =? IDR_SIZE)%nat then
        let id := s32 (Z.lor id (Z.shiftl 1 (IDR_BITS * Z.of_nat (S l)) - 1) + 1) in
        match pa with
        | [] => Some (-2, id, set_top p idp)
        | f :: pa => alloc_loop fuel ptr idp (plug f p) (S l) pa id
        end
      else
        let sh := IDR_BITS * Z.of_nat l in
        let id := if (m =? n)%nat then id else s32 (Z.shiftl (Z.lxor (Z.lxor (Z.shiftr id sh) (Z.of_nat n)) (Z.of_nat m)) sh) in
        if (MAX_ID_BIT <=? u32 id) || (id <? 0) then Some (-3, id, set_top (unwind pa p) idp)
        else
          match l with
          | O => Some (id, id, set_top (mark_full pa id (Layer (Z.setbit bitmap (Z.of_nat m)) (<[m := Ptr ptr]> ary) (count + 1))) idp)
          | S l =>
              child ← ary !! m;
              if is_null child then
                let '(new, idp) := alloc_layer idp in
                if is_null new then Some (-1, id, set_top (unwind pa p) idp)
                else alloc_loop fuel ptr idp new l (mk_frame bitmap (<[m := new]> ary) (count + 1) m :: pa) id
              else alloc_loop fuel ptr idp child l (mk_frame bitmap ary count m :: pa) id
          end
  | _, _ => None
  end.

(** The walk of a tree of six layers needs less. *)
Definition alloc_fuel : nat := 100.

Definition sub_alloc (idp : idr) (ptr starting_id : Z) : option (Z * Z * idr) :=
  if (MAX_LEVEL <=? layers idp)%nat then None else alloc_loop alloc_fuel ptr idp (top idp) (layers idp - 1) [] starting_id.

(** Giving back the [k] layers that were put on top. *)
Fixpoint tear_down (k : nat) (p : idr_layer) (idp : idr) : option idr :=
  match k, p with
  | O, _ => Some idp
  | S k, Layer _ ary _ => p ← ary !! 0%nat; tear_down k p (free_layer idp (Layer 0 (<[0%nat := Null]> ary) 0))
  | _, _ => None
  end.

(** The loop that adds layers on top; [None] in the result is a failed allocation. *)
Fixpoint add_layers (fuel : nat) (id : Z) (p : idr_layer) (n built : nat) (idp : idr) : option (option (idr_layer * nat) * idr) :=
  if (n <? MAX_LEVEL)%nat && (Z.shiftl 1 (Z.of_nat n * IDR_BITS) <=? id) then
    match fuel, p with
    | S fuel, Layer bitmap _ count =>
        if count =? 0 then add_layers fuel id p (S n) built idp
        else
          let '(new, idp) := alloc_layer idp in
          match new with
          | Layer nb nary _ => add_layers fuel id (Layer (if bitmap =? IDR_FULL then Z.setbit nb 0 else nb) (<[0%nat := p]> nary) 1) (S n) (S built) idp
          | Null => idp ← tear_down built p idp; Some (None, idp)
          | Ptr _ => None
          end
    | _, _ => None
    end
  else Some (Some (p, n), idp).

(** From the label [build_up] on; every round but the last adds a layer. *)
Fixpoint build_up (fuel : nat) (idp : idr) (ptr id : Z) : option (Z * idr) :=
  match fuel with
  | O => None
  | S fuel =>
      let '(p, n, idp) := (if is_null (top idp) then let '(p, idp) := alloc_layer idp in (p, 1%nat, idp) else (top idp, layers idp, idp)) in
      if is_null p then Some (-1, idp)
      else
        '(r, idp) ← add_layers MAX_LEVEL id p n 0 idp;
        match r with
        | None => Some (-1, idp)
        | Some (p, n) =>
            '(v, id, idp) ← sub_alloc (set_layers n (set_top p idp)) ptr id;
            if v =? -2 then build_up fuel idp ptr id else Some (v, idp)
        end
  end.

Definition idr_get_new_above_int (idp : idr) (ptr starting_id : Z) : option (Z * idr) := build_up (S MAX_LEVEL) idp ptr starting_id.

(** The result and, when it is 0, the identifier. *)
Definition idr_get_new_above (idp : idr) (ptr starting_id : Z) : option (Z * option Z * idr) :=
  '(rv, idp) ← idr_get_new_above_int idp ptr starting_id;
  Some (if rv <? 0 then (if rv =? -1 then (- EAGAIN, None, idp) else (- ENOSPC, None, idp)) else (0, Some rv, idp)).

Definition idr_get_new (idp : idr) (ptr : Z) : option (Z * option Z * idr) :=
  '(rv, idp) ← idr_get_new_above_int idp ptr 0;
  Some (if rv <? 0 then (if rv =? -1 then (- EAGAIN, None, idp) else (- ENOSPC, None, idp)) else (0, Some rv, idp)).

(** ** Removal and lookup *)

(** [--count] of a layer one of whose slots was cleared: the layer's new contents and the layers to free. *)
Definition release (b : Z) (ary : list idr_layer) (c : Z) (freed : list idr_layer) : bool * idr_layer * list idr_layer :=
  if c - 1 =? 0 then (true, Null, freed ++ [Layer b ary 0]) else (true, Layer b ary (c - 1), freed).

(** Both loops of sub_remove: down clearing the bits of the way, and up as long as layers become empty. The first component is false for an identifier that is not
    allocated. *)
Fixpoint remove_loop (l : nat) (id : Z) (p : idr_layer) : option (bool * idr_layer * list idr_layer) :=
  match p with
  | Null => Some (false, Null, [])
  | Ptr _ => None
  | Layer b ary c =>
      let n := digit l id in
      match l with
      | O => Some (if Z.testbit b (Z.of_nat n) then release (Z.clearbit b (Z.of_nat n)) (<[n := Null]> ary) c [] else (false, p, []))
      | S l =>
          child ← ary !! n;
          '(found, new, freed) ← remove_loop l id child;
          let b := Z.clearbit b (Z.of_nat n) in
          let ary := <[n := new]> ary in
          Some (if (found : bool) && is_null new then release b ary c freed else (found, Layer b ary c, freed))
      end
  end.

Definition sub_remove (idp : idr) (id : Z) : option (bool * idr) :=
  if (MAX_LEVEL <=? layers idp)%nat then None
  else
    '(found, p, freed) ← remove_loop (layers idp - 1) id (top idp);
    let idp := foldl free_layer (set_top p idp) freed in
    Some (found, if (found : bool) && is_null p then set_layers 0 idp else idp).

(** "We can drop a layer" *)
Definition drop_layer (idp : idr) : option idr :=
  match top idp with
  | Layer _ ary count =>
      if (count =? 1) && (1 <? layers idp)%nat then
        p ← ary !! 0%nat;
        Some (if is_null p then idp else set_layers (layers idp - 1) (set_top p (free_layer idp (Layer 0 ary 0))))
      else Some idp
  | _ => Some idp
  end.

(** Whether the identifier was allocated, and the layer that goes back to the slab. *)
Definition idr_remove (idp : idr) (id : Z) : option (bool * option idr_layer * idr) :=
  let id := Z.land id MAX_ID_MASK in
  '(found, idp) ← sub_remove idp id;
  idp ← drop_layer idp;
  Some (if IDR_FREE_MAX <=? id_free_cnt idp then let '(p, idp) := alloc_layer idp in (found, Some p, idp) else (found, None, idp)).

Fixpoint idr_find_loop (n : nat) (id : Z) (p : idr_layer) : option idr_layer :=
  match n, p with
  | O, _ | _, Null => Some p
  | S n, Layer _ ary _ => p ← ary !! digit n id; idr_find_loop n id p
  | S _, Ptr _ => None
  end.

(** The pointer; 0 is [NULL]. *)
Definition idr_find (idp : idr) (id : Z) : option Z :=
  let n := Z.of_nat (layers idp) * IDR_BITS in
  let id := Z.land id MAX_ID_MASK in
  if 32 <=? n then None
  else if Z.shiftl 1 n <=? id then Some 0
  else p ← idr_find_loop (layers idp) id (top idp); match p with Null => Some 0 | Ptr p => Some p | Layer _ _ _ => None end.

(** ** Digits *)

Definition width (l : nat) : Z := 32 ^ Z.of_nat l.

Lemma width_positive l : 0 < width l.
Proof. unfold width. lia. Qed.

Lemma width_S l : width (S l) = 32 * width l.
Proof. unfold width. rewrite Nat2Z.inj_succ, Z.pow_succ_r by lia. done. Qed.

Lemma width_shift l : 2 ^ (IDR_BITS * Z.of_nat l) = width l.
Proof. unfold width, IDR_BITS. change 32 with (2 ^ 5). rewrite <- Z.pow_mul_r by lia. done. Qed.

Lemma width_mono l l' : (l <= l')%nat -> width l <= width l'.
Proof. intros H. unfold width. apply Z.pow_le_mono_r; lia. Qed.

Lemma digit_eq l id : digit l id = Z.to_nat ((id / width l) mod 32).
Proof. unfold digit. rewrite Z.shiftr_div_pow2, width_shift by (unfold IDR_BITS; lia). f_equal. change IDR_MASK with (2 ^ 5 - 1). by rewrite land_pow2_mask. Qed.

Lemma digit_lt l id : (digit l id < 32)%nat.
Proof. rewrite digit_eq. pose proof (Z.mod_pos_bound (id / width l) 32 ltac:(lia)). lia. Qed.

Lemma mod_width_S l i : i mod width (S l) = Z.of_nat (digit l i) * width l + i mod width l.
Proof.
  rewrite digit_eq, Z2Nat.id by (apply Z.mod_pos_bound; lia). rewrite width_S, (Z.mul_comm 32), Z.rem_mul_r by (pose proof (width_positive l); lia). lia.
Qed.

(** An identifier by its part above a layer, its slot in the layer and the rest. *)
Lemma digit_of l a n r : 0 <= n < 32 -> 0 <= r < width l -> digit l (a * width (S l) + n * width l + r) = Z.to_nat n.
Proof.
  intros Hn Hr. pose proof (width_positive l). rewrite digit_eq, width_S. replace (a * (32 * width l) + n * width l + r) with ((a * 32 + n) * width l + r) by lia.
  rewrite Z.div_add_l, (Z.div_small r) by lia. f_equal. rewrite Z.add_0_r, Z.add_comm, Z.mod_add by lia. apply Z.mod_small. lia.
Qed.

Lemma mod_of l a r : 0 <= r < width l -> (a * width l + r) mod width l = r.
Proof. intros Hr. rewrite Z.add_comm, Z.mod_add by lia. by apply Z.mod_small. Qed.

Lemma split_id l id : id = id / width l * width l + id mod width l.
Proof. pose proof (Z_div_mod_eq_full id (width l)). lia. Qed.

Lemma high_low a r k : 0 <= r < k -> (a * k + r) / k = a /\ (a * k + r) mod k = r.
Proof. intros Hr. rewrite Z.div_add_l, (Z.div_small r), (Z.add_comm (a * k)), Z.mod_add by lia. split; [lia | by apply Z.mod_small]. Qed.

Lemma low_ones x k : 0 <= k -> Z.lor x (2 ^ k - 1) = x / 2 ^ k * 2 ^ k + (2 ^ k - 1).
Proof.
  intros Hk. pose proof (Z.pow_pos_nonneg 2 k ltac:(lia) Hk). assert (Hlow : (x / 2 ^ k * 2 ^ k + (2 ^ k - 1)) / 2 ^ k = x / 2 ^ k /\ (x / 2 ^ k * 2 ^ k + (2 ^ k - 1)) mod 2 ^ k = 2 ^ k - 1).
  { apply high_low. lia. }
  replace (2 ^ k - 1) with (Z.ones k) by (rewrite Z.ones_equiv; lia). replace (2 ^ k - 1) with (Z.ones k) in Hlow by (rewrite Z.ones_equiv; lia). destruct Hlow as [Hd Hm].
  apply Z.bits_inj'. intros i Hi. rewrite Z.lor_spec. destruct (Z.ltb_spec i k).
  - rewrite Z.ones_spec_low, orb_true_r by lia. erewrite <- Z.mod_pow2_bits_low by eassumption. rewrite Hm. symmetry. apply Z.ones_spec_low. lia.
  - rewrite Z.ones_spec_high, orb_false_r by lia. replace i with (i - k + k) by lia. rewrite <- !Z.div_pow2_bits by lia. by rewrite Hd.
Qed.

Lemma climb_id l id : Z.lor id (Z.shiftl 1 (IDR_BITS * Z.of_nat l) - 1) + 1 = (id / width l + 1) * width l.
Proof. rewrite Z.shiftl_1_l, low_ones by (unfold IDR_BITS; lia). rewrite width_shift. lia. Qed.

Lemma xor_digit x m : 0 <= m < 32 -> Z.lxor (Z.lxor x (x mod 32)) m = x / 32 * 32 + m.
Proof.
  intros Hm. assert (H : (x / 32 * 32 + m) / 32 = x / 32 /\ (x / 32 * 32 + m) mod 32 = m). { by apply high_low. }
  destruct H as [Hd Hr]. change 32 with (2 ^ 5) in *. apply Z.bits_inj'. intros i Hi. rewrite !Z.lxor_spec. destruct (Z.ltb_spec i 5).
  - rewrite Z.mod_pow2_bits_low, xorb_nilpotent, xorb_false_l by lia. rewrite <- Hr at 1. by apply Z.mod_pow2_bits_low.
  - rewrite Z.mod_pow2_bits_high, xorb_false_r by lia. rewrite <- (Z.mod_small m (2 ^ 5)) at 1 by lia. rewrite Z.mod_pow2_bits_high, xorb_false_r by lia.
    replace i with (i - 5 + 5) by lia. rewrite <- !Z.div_pow2_bits by lia. by rewrite Hd.
Qed.

Lemma slot_id l id m : 0 <= m < 32 ->
  Z.shiftl (Z.lxor (Z.lxor (Z.shiftr id (IDR_BITS * Z.of_nat l)) (Z.of_nat (digit l id))) m) (IDR_BITS * Z.of_nat l) = id / width (S l) * width (S l) + m * width l.
Proof.
  intros Hm. rewrite digit_eq, Z2Nat.id by (apply Z.mod_pos_bound; lia). rewrite Z.shiftr_div_pow2, width_shift by (unfold IDR_BITS; lia). rewrite xor_digit by done.
  rewrite Z.shiftl_mul_pow2, width_shift by (unfold IDR_BITS; lia). rewrite width_S, Z.div_div by (pose proof (width_positive l); lia). rewrite (Z.mul_comm (width l) 32). lia.
Qed.

Lemma next_bit_spec b k : forall n, (n + k = 32)%nat -> let m := next_bit k (not32 b) n in
  (n <= m <= 32)%nat /\ (forall i, (n <= i < m)%nat -> Z.testbit b (Z.of_nat i) = true) /\ ((m < 32)%nat -> Z.testbit b (Z.of_nat m) = false).
Proof.
  induction k as [| k IH]; intros n Hn; cbn [next_bit].
  - split; [lia | split; intros; lia].
  - assert (Z.testbit (not32 b) (Z.of_nat n) = negb (Z.testbit b (Z.of_nat n))) as -> by (unfold not32; rewrite u32_testbit, Z.lnot_spec by lia; by replace (Z.of_nat n <? 32) with true by lia). destruct (Z.testbit b (Z.of_nat n)) eqn:E; cbn [negb].
    + destruct (IH (S n) ltac:(lia)) as (H1 & H2 & H3). split; [lia |]. split; [| done]. intros i Hi. destruct (decide (i = n)) as [-> | Hne]; [done |]. apply H2. lia.
    + split; [lia |]. split; [intros; lia | done].
Qed.

Lemma next_free_spec b n : (n < 32)%nat -> let m := find_next_bit32 (not32 b) n in
  (n <= m <= 32)%nat /\ (forall i, (n <= i < m)%nat -> Z.testbit b (Z.of_nat i) = true) /\ ((m < 32)%nat -> Z.testbit b (Z.of_nat m) = false).
Proof. intros Hn. apply next_bit_spec. unfold IDR_SIZE. lia. Qed.

(** ** Well-formed trees *)

(** Nothing is free below the slot. [l] is the number of layers below it. *)
Definition full (l : nat) (p : idr_layer) : bool :=
  match l, p with O, Ptr _ => true | S _, Layer b _ _ => b =? IDR_FULL | _, _ => false end.

#[local] Notation weight := (weight_by is_null).

Fixpoint wf (l : nat) (p : idr_layer) : Prop :=
  match l, p with
  | _, Null => True
  | O, Ptr _ => True
  | S l, Layer b ary c => length ary = 32%nat /\ is_u32 b /\ c = filled_by is_null ary /\ forall i s, ary !! i = Some s -> wf l s /\ Z.testbit b (Z.of_nat i) = full l s
  | _, _ => False
  end.

(** The pointer of an identifier; digits above the tree do not count. *)
Fixpoint get (l : nat) (p : idr_layer) (id : Z) : option Z :=
  match l, p with
  | O, Ptr v => Some v
  | S l, Layer _ ary _ => match ary !! digit l id with Some s => get l s id | None => None end
  | _, _ => None
  end.

Lemma wf_null l : wf l Null.
Proof. by destruct l. Qed.

Lemma get_null l id : get l Null id = None.
Proof. by destruct l. Qed.

Lemma full_bits b : is_u32 b -> b = IDR_FULL <-> forall i, (i < 32)%nat -> Z.testbit b (Z.of_nat i) = true.
Proof.
  intros Hb. split.
  - intros -> i Hi. change IDR_FULL with (Z.ones 32). apply Z.ones_spec_low. lia.
  - intros H. change IDR_FULL with (Z.ones 32). apply Z.bits_inj'. intros i Hi. destruct (Z.ltb_spec i 32).
    + rewrite Z.ones_spec_low by lia. rewrite <- (Z2Nat.id i) by lia. apply H. lia.
    + rewrite Z.ones_spec_high by lia. by apply u32_bits_above.
Qed.

Lemma get_same_low l p : forall i j, i mod width l = j mod width l -> get l p i = get l p j.
Proof.
  revert p. induction l as [| l IH]; intros p i j E; [done |]. destruct p as [| | b ary c]; [done | done |]. cbn [get]. rewrite !mod_width_S in E.
  pose proof (digit_lt l i). pose proof (digit_lt l j). pose proof (Z.mod_pos_bound i _ (width_positive l)). pose proof (Z.mod_pos_bound j _ (width_positive l)).
  assert (digit l i = digit l j) as Hd by nia. rewrite Hd in E |- *. destruct (ary !! digit l j) as [s |]; [| done]. apply IH. lia.
Qed.

(** Moving an identifier into the block of another one. *)
Lemma get_move l p a i : get l p (a * width l + i mod width l) = get l p i.
Proof. apply get_same_low. by rewrite mod_of by (apply Z.mod_pos_bound, width_positive). Qed.

Lemma wf_child {l b ary c} : wf (S l) (Layer b ary c) -> forall i, (i < 32)%nat -> exists s, ary !! i = Some s /\ wf l s /\ Z.testbit b (Z.of_nat i) = full l s.
Proof. intros (L & _ & _ & H) i Hi. destruct (lookup_lt_is_Some_2 ary i ltac:(lia)) as [s Hs]. exists s. split; [done | by apply H]. Qed.

Lemma full_used l : forall p, wf l p -> full l p = true -> forall i, get l p i <> None.
Proof.
  induction l as [| l IH]; intros p W F i; destruct p as [| v | b ary c]; try done. cbn [full] in F. apply Z.eqb_eq in F. cbn [get].
  destruct (wf_child W _ (digit_lt l i)) as (s & -> & Ws & E). apply IH; [done |]. rewrite <- E. apply full_bits; [apply W | done | apply digit_lt].
Qed.

Lemma not_full_free l : forall p, wf l p -> full l p = false -> exists j, 0 <= j < width l /\ get l p j = None.
Proof.
  induction l as [| l IH]; intros p W F.
  - exists 0. split; [done |]. by destruct p.
  - destruct p as [| v | b ary c]; [| done |].
    + exists 0. split; [pose proof (width_positive (S l)); lia | done].
    + cbn [full] in F. apply Z.eqb_neq in F. destruct (decide (Forall (fun i => Z.testbit b (Z.of_nat i) = true) (seq 0 32))) as [H | H].
      * destruct F. apply full_bits; [apply W |]. intros i Hi. rewrite Forall_forall in H. apply H, elem_of_seq. lia.
      * apply not_Forall_Exists in H; [| intros i; apply _]. apply Exists_exists in H as (i & Hi%elem_of_seq & Hb). destruct (wf_child W i ltac:(lia)) as (s & Es & Ws & E).
        apply not_true_is_false in Hb. rewrite Hb in E. destruct (IH s Ws (eq_sym E)) as (j & Hj & Hg). exists (Z.of_nat i * width l + j).
        assert (digit l (Z.of_nat i * width l + j) = i) as Hd. { pose proof (digit_of l 0 (Z.of_nat i) j ltac:(lia) Hj) as Hd. rewrite Nat2Z.id in Hd. by rewrite Z.mul_0_l in Hd. }
        split; [rewrite width_S; nia |]. cbn [get]. rewrite Hd, Es. rewrite <- Hg. apply get_same_low. rewrite mod_of by done. symmetry. by apply Z.mod_small.
Qed.

Lemma free_not_full l p i : wf l p -> get l p i = None -> full l p = false.
Proof. intros W G. apply not_true_is_false. intros F. by apply (full_used l p W F i). Qed.

(** ** Changing one slot *)

Lemma null_eq p : is_null p = true -> p = Null.
Proof. by destruct p. Qed.

Lemma wf_update l b b' ary c c' m old new : wf (S l) (Layer b ary c) -> ary !! m = Some old -> wf l new -> is_u32 b' -> c' = c - weight old + weight new ->
  (forall i, (i < 32)%nat -> Z.testbit b' (Z.of_nat i) = if decide (i = m) then full l new else Z.testbit b (Z.of_nat i)) -> wf (S l) (Layer b' (<[m := new]> ary) c').
Proof.
  intros (L & Hb & Hc & H) Hm Wn Hb' Hc' Hbits. cbn [wf]. rewrite length_insert. split; [done |]. split; [done |]. split; [rewrite (filled_by_insert is_null _ _ _ _ Hm); lia |].
  intros i s Hs. pose proof (lookup_lt_Some _ _ _ Hs) as Hi. rewrite length_insert in Hi. rewrite (Hbits i) by lia. destruct (decide (i = m)) as [-> | Hne].
  - rewrite list_lookup_insert_eq in Hs by lia. by injection Hs as <-.
  - rewrite list_lookup_insert_ne in Hs by done. by apply H.
Qed.

Lemma get_update l b b' ary c c' m new i : length ary = 32%nat -> (m < 32)%nat ->
  get (S l) (Layer b' (<[m := new]> ary) c') i = if decide (digit l i = m) then get l new i else get (S l) (Layer b ary c) i.
Proof.
  intros L Hm. cbn [get]. destruct (decide (digit l i = m)) as [-> | Hne]; [by rewrite list_lookup_insert_eq by lia | by rewrite list_lookup_insert_ne by done].
Qed.

Lemma setbit_u32 b i : is_u32 b -> (i < 32)%nat -> is_u32 (Z.setbit b (Z.of_nat i)).
Proof. intros Hb Hi. unfold Z.setbit. apply lor_u32; [done |]. rewrite Z.shiftl_1_l. unfold is_u32. split; [lia |]. change 4294967296 with (2 ^ 32). apply Z.pow_lt_mono_r; lia. Qed.

Lemma clearbit_u32 b i : is_u32 b -> is_u32 (Z.clearbit b i).
Proof. intros Hb. unfold Z.clearbit. rewrite Z.ldiff_land, Z.land_comm. by apply (land_range _ b 32). Qed.

Lemma setbit_at b i m : Z.testbit (Z.setbit b (Z.of_nat m)) (Z.of_nat i) = if decide (i = m) then true else Z.testbit b (Z.of_nat i).
Proof. destruct (decide (i = m)) as [-> | Hne]; [apply Z.setbit_eq; lia | apply Z.setbit_neq; lia]. Qed.

Lemma clearbit_at b i m : Z.testbit (Z.clearbit b (Z.of_nat m)) (Z.of_nat i) = if decide (i = m) then false else Z.testbit b (Z.of_nat i).
Proof. destruct (decide (i = m)) as [-> | Hne]; [apply Z.clearbit_eq | apply Z.clearbit_neq; lia]. Qed.

Lemma wf_zero l : wf (S l) zero_layer.
Proof.
  unfold zero_layer. cbn [wf]. split; [done |]. split; [unfold is_u32; lia |]. split; [done |]. intros i s Hs. apply lookup_replicate in Hs as [-> Hi]. split; [apply wf_null |].
  rewrite Z.testbit_0_l. by destruct l.
Qed.

Lemma get_zero l i : get (S l) zero_layer i = None.
Proof. cbn [get zero_layer]. rewrite lookup_replicate_2 by apply digit_lt. apply get_null. Qed.

(** ** The search for a free identifier *)

Definition take_free (n : nat) (idp : idr) : idr := mk_idr (top idp) (drop n (id_free idp)) (layers idp) (id_free_cnt idp - Z.of_nat n).

(** The layers in reserve are zero and counted. *)
Definition free_ok (idp : idr) : Prop := Forall (fun p => p = zero_layer) (id_free idp) /\ id_free_cnt idp = Z.of_nat (length (id_free idp)).

Lemma alloc_layer_ok idp : free_ok idp -> match id_free idp with [] => alloc_layer idp = (Null, idp) | _ => alloc_layer idp = (zero_layer, take_free 1 idp) end.
Proof. intros [H _]. unfold alloc_layer, take_free. destruct (id_free idp) as [| p rest]; [done |]. apply Forall_cons in H as [-> _]. done. Qed.

Lemma take_free_ok n idp : (n <= length (id_free idp))%nat -> free_ok idp -> free_ok (take_free n idp).
Proof. intros Hn [H1 H2]. split; [by apply Forall_drop |]. cbn. rewrite length_drop, H2. lia. Qed.

Lemma take_free_add n m idp : take_free n (take_free m idp) = take_free (m + n) idp.
Proof. unfold take_free. cbn. rewrite drop_drop. f_equal. lia. Qed.

Lemma take_free_0 idp : take_free 0 idp = idp.
Proof. destruct idp. unfold take_free. cbn. f_equal. lia. Qed.

(** Identifiers in the same subtree of [l] layers. *)
Definition same_block (l : nat) (i j : Z) : Prop := i / width l = j / width l.

Definition no_free (l : nat) (p : idr_layer) (id : Z) : Prop := forall j, id <= j -> same_block l j id -> get l p j <> None.

Definition first_free (l : nat) (p : idr_layer) (id j : Z) : Prop :=
  id <= j /\ same_block l j id /\ get l p j = None /\ forall i, id <= i < j -> get l p i <> None.

(** Where the way to [id] goes through the last slot of a layer, the search must not come back from below that slot: then either something is free there at or
    after [id] or nothing at all. *)
Definition no_wrap (l : nat) (p : idr_layer) (id : Z) : Prop := forall k, (1 <= k < l)%nat -> digit k id = 31%nat ->
  (exists j, id <= j /\ same_block k j id /\ get l p j = None) \/ (forall j, same_block k j id -> get l p j <> None).

(** The search ends: with the first free identifier, or for lack of layers. [n] layers were taken. *)
Definition found (l : nat) (p : idr_layer) (id ptr : Z) (idp : idr) (pa : list frame) (r : option (Z * Z * idr)) : Prop :=
  exists n p' x, (n <= l)%nat /\ (n <= length (id_free idp))%nat /\ wf (S l) p' /\ is_null p' = false /\
  ((exists j, first_free (S l) p id j /\ (forall i, get (S l) p' i = if decide (i mod width (S l) = j mod width (S l)) then Some ptr else get (S l) p i) /\
      r = Some (j, x, set_top (mark_full pa (j / width l) p') (take_free n idp))) \/
   (length (id_free idp) < l)%nat /\ (forall i, get (S l) p' i = get (S l) p i) /\ r = Some (-1, x, set_top (unwind pa p') (take_free n idp))).

(** The search leaves the layer at its end. *)
Definition climb (fuel : nat) (ptr : Z) (idp : idr) (p : idr_layer) (l : nat) (pa : list frame) (id : Z) : option (Z * Z * idr) :=
  let id := (id / width (S l) + 1) * width (S l) in
  match pa with [] => Some (-2, id, set_top p idp) | f :: pa => alloc_loop fuel ptr idp (plug f p) (S l) pa id end.

Fixpoint need (l : nat) : nat := match l with O => 1 | S l => 2 + 2 * need l end.

Definition in_bounds (l : nat) (id : Z) : Prop := 0 <= id /\ (id / width (S l) + 1) * width (S l) < 2147483648.

Lemma same_block_digit l i j : 0 <= i -> i <= j -> same_block (S l) j i -> (digit l i <= digit l j)%nat /\ (digit l i = digit l j -> same_block l j i).
Proof.
  unfold same_block. intros H0 Hij E. rewrite !digit_eq. pose proof (width_positive l). rewrite width_S, (Z.mul_comm 32), <- !Z.div_div in E by lia.
  pose proof (Z.div_le_mono i j (width l) ltac:(lia) Hij). pose proof (Z.div_pos i (width l) ltac:(lia) ltac:(lia)).
  pose proof (Z.mod_pos_bound (i / width l) 32 ltac:(lia)). pose proof (Z.mod_pos_bound (j / width l) 32 ltac:(lia)).
  pose proof (Z_div_mod_eq_full (i / width l) 32). pose proof (Z_div_mod_eq_full (j / width l) 32). split; lia.
Qed.

Lemma same_block_up l k i j : (l <= k)%nat -> same_block l i j -> same_block k i j.
Proof.
  unfold same_block. intros H E. induction H as [| k Hk IH]; [done |]. pose proof (width_positive k). rewrite width_S, (Z.mul_comm 32), <- !Z.div_div by lia. by rewrite IH.
Qed.

Lemma same_block_digits l k i j : (l <= k)%nat -> same_block l i j -> digit k i = digit k j.
Proof. intros H E. rewrite !digit_eq. by rewrite (same_block_up l k i j H E). Qed.

Lemma mark_full_not pa n l p : is_null p = false -> wf (S l) p -> full (S l) p = false -> mark_full pa n p = unwind pa p.
Proof. intros Hn W F. destruct p as [| v | b ary c]; [done | done |]. cbn [full] in F. destruct pa as [| f pa]; [done |]. cbn [mark_full]. by rewrite F. Qed.

(** The bitmap of a layer after a change below slot [m], where something was free. *)
Definition marked (l : nat) (b : Z) (m : nat) (child : idr_layer) : Z := if full (S l) child then Z.setbit b (Z.of_nat m) else b.

Lemma marked_u32 l b m child : is_u32 b -> (m < 32)%nat -> is_u32 (marked l b m child).
Proof. intros Hb Hm. unfold marked. destruct (full (S l) child); [by apply setbit_u32 | done]. Qed.

Lemma marked_at l b m child i : Z.testbit b (Z.of_nat m) = false -> Z.testbit (marked l b m child) (Z.of_nat i) = if decide (i = m) then full (S l) child else Z.testbit b (Z.of_nat i).
Proof. intros Hb. unfold marked. destruct (full (S l) child); [apply setbit_at |]. by destruct (decide (i = m)) as [-> |]. Qed.

Lemma div_width_S l j : Z.shiftr (j / width l) IDR_BITS = j / width (S l).
Proof. unfold IDR_BITS. rewrite Z.shiftr_div_pow2, Z.div_div by (pose proof (width_positive l); lia). rewrite width_S. f_equal. lia. Qed.

Lemma digit_land l j : Z.of_nat (digit l j) = Z.land (j / width l) IDR_MASK.
Proof. rewrite digit_eq, Z2Nat.id by (apply Z.mod_pos_bound; lia). change IDR_MASK with (2 ^ 5 - 1). by rewrite land_pow2_mask. Qed.

Lemma mark_below l b ary c m x child pa j : is_u32 b -> (m < 32)%nat -> Z.testbit b (Z.of_nat m) = false -> digit (S l) j = m -> wf (S l) child -> is_null child = false ->
  mark_full (mk_frame b (<[m := x]> ary) c m :: pa) (j / width l) child = mark_full pa (j / width (S l)) (Layer (marked l b m child) (<[m := child]> ary) c).
Proof.
  intros Hb Hm Hbit Hj W N. destruct (full (S l) child) eqn:F.
  - unfold marked. rewrite F. destruct child as [| | b2 ary2 c2]; [done | done |]. cbn [full] in F. cbn [mark_full]. rewrite F, div_width_S, <- digit_land, Hj.
    unfold plug. cbn [f_bitmap f_ary f_count f_slot]. by rewrite list_insert_insert_eq.
  - assert (marked l b m child =? IDR_FULL = false) as Hf.
    { apply Z.eqb_neq. intros E. pose proof (proj1 (full_bits _ (marked_u32 l b m child Hb Hm)) E m Hm) as E1. rewrite marked_at in E1 by done. rewrite decide_True in E1 by done. congruence. }
    rewrite (mark_full_not _ _ l) by done. cbn [unwind]. unfold plug. cbn [f_bitmap f_ary f_count f_slot]. rewrite list_insert_insert_eq.
    assert (marked l b m child = b) as -> by (unfold marked; by rewrite F). destruct pa as [| f pa]; [done |]. cbn [mark_full]. unfold marked in Hf. rewrite F in Hf. by rewrite Hf.
Qed.

(** Going down to slot [m], the first one at or after [id] with something free, and finding it there. *)
Lemma found_below l b ary c m old child id id1 ptr idp pa k r : wf (S (S l)) (Layer b ary c) -> ary !! m = Some old -> (m < 32)%nat -> is_null child = false ->
  (forall i, get (S l) child i = get (S l) old i) -> (is_null old = true -> k = 1%nat /\ (1 <= length (id_free idp))%nat) -> (is_null old = false -> k = 0%nat) ->
  Z.testbit b (Z.of_nat m) = false -> digit (S l) id1 = m -> same_block (S (S l)) id1 id -> id <= id1 -> (forall i, id <= i < id1 -> get (S (S l)) (Layer b ary c) i <> None) ->
  found l child id1 ptr (take_free k idp) (mk_frame b (<[m := child]> ary) (c + 1 - weight old) m :: pa) r -> found (S l) (Layer b ary c) id ptr idp pa r.
Proof.
  intros W Hm Hlt Hc Hg Hk1 Hk0 Hbit Hd Hsb Hle Hbelow (n & c' & x & Hn1 & Hn2 & Wc & Nc & R). assert (L : length ary = 32%nat) by apply W. cbn [id_free take_free] in Hn2, R. rewrite length_drop in Hn2, R.
  assert (k <= 1 /\ k <= length (id_free idp))%nat as [K1 K2]. { destruct (is_null old); [destruct Hk1 as [-> ?]; [done |] | rewrite Hk0 by done]; lia. }
  set (p' := Layer (marked l b m c') (<[m := c']> ary) (c + 1 - weight old)).
  assert (wf (S (S l)) p') as W'.
  { eapply (wf_update (S l) b); [exact W | done | done | apply marked_u32; [apply W | done] | unfold weight_by at 3; rewrite Nc; lia | intros i Hi; by apply marked_at]. }
  assert (forall i, get (S (S l)) p' i = if decide (digit (S l) i = m) then get (S l) c' i else get (S (S l)) (Layer b ary c) i) as G' by (intros i; by apply get_update).
  assert (forall i, digit (S l) i = m -> get (S (S l)) (Layer b ary c) i = get (S l) old i) as Gold by (intros i Ei; cbn [get]; by rewrite Ei, Hm).
  exists (k + n)%nat, p', x. split; [lia |]. split; [lia |]. split; [done |]. split; [done |]. rewrite take_free_add in R. destruct R as [(j & (F1 & F2 & F3 & F4) & Gc & ->) | (Hs & Gc & ->)]; [left | right].
  - assert (digit (S l) j = m) as Hj by (rewrite <- Hd; by apply (same_block_digits (S l))). exists j. split; [| split].
    + split; [lia |]. split; [by transitivity (id1 / width (S (S l))); [apply (same_block_up (S l)); [lia |] |] |]. split; [by rewrite Gold, <- Hg by done |].
      intros i Hi. destruct (Z.ltb_spec i id1) as [Hlow | Hhigh]; [apply Hbelow; lia |]. assert (same_block (S l) i id1) as Hi1.
      { unfold same_block in *. pose proof (width_positive (S l)). pose proof (Z.div_le_mono id1 i (width (S l)) ltac:(lia) ltac:(lia)). pose proof (Z.div_le_mono i j (width (S l)) ltac:(lia) ltac:(lia)). lia. }
      rewrite Gold, <- Hg by (rewrite <- Hd; by apply (same_block_digits (S l))). apply F4. lia.
    + intros i. rewrite G'. destruct (decide (digit (S l) i = m)) as [Ei | Ei].
      * rewrite Gc, Hg, Gold by done. rewrite !(mod_width_S (S l)), Ei, Hj. destruct (decide (i mod width (S l) = j mod width (S l))), (decide (_ + _ = _ + _)); [done | lia | lia | done].
      * rewrite decide_False; [done |]. intros E. apply Ei. rewrite <- Hj. rewrite !(mod_width_S (S l)) in E. pose proof (Z.mod_pos_bound i _ (width_positive (S l))). pose proof (Z.mod_pos_bound j _ (width_positive (S l))). nia.
    + by rewrite mark_below by (done || apply W).
  - split; [lia |]. split.
    + intros i. rewrite G'. destruct (decide (digit (S l) i = m)) as [Ei |]; [| done]. by rewrite Gc, Hg, Gold.
    + do 2 f_equal. f_equal. cbn [unwind]. unfold plug. cbn [f_bitmap f_ary f_count f_slot]. rewrite list_insert_insert_eq. unfold p', marked.
      destruct (wf_child W m Hlt) as (s & Es & Ws & Ef). rewrite Hm in Es. injection Es as <-. rewrite Hbit in Ef. destruct (not_full_free _ _ Ws (eq_sym Ef)) as (j & _ & Hj).
      by rewrite (free_not_full (S l) c' j) by (rewrite ?Gc, ?Hg; done).
Qed.

(** Where the search goes from [id] when slot [m] is the first one with something free. *)
Definition landing (l : nat) (id : Z) (m : nat) : Z := if (m =? digit l id)%nat then id else id / width (S l) * width (S l) + Z.of_nat m * width l.

Lemma landing_spec l id m : in_bounds l id -> (digit l id <= m < 32)%nat ->
  digit l (landing l id m) = m /\ same_block (S l) (landing l id m) id /\ id <= landing l id m < 2147483648 /\ (m <> digit l id -> landing l id m mod width l = 0) /\
  (forall j, id <= j < landing l id m -> (digit l id <= digit l j < m)%nat).
Proof.
  intros [H0 Hb] Hm. pose proof (width_positive l) as Sp. pose proof (width_S l) as SS. pose proof (Z.mod_pos_bound id (width (S l)) (width_positive _)) as Hr. pose proof (split_id (S l) id) as Hs.
  pose proof (mod_width_S l id) as Hd. pose proof (Z.mod_pos_bound id (width l) Sp) as Hr0. unfold landing. destruct (Nat.eqb_spec m (digit l id)) as [E | Hne].
  { split; [done |]. split; [done |]. split; [nia |]. split; [done | lia]. }
  set (i1 := _ * width (S l) + _). assert (i1 = id / width (S l) * width (S l) + Z.of_nat m * width l + 0) as E1 by (unfold i1; lia). assert (same_block (S l) i1 id) as Hsb.
  { unfold same_block, i1. rewrite Z.div_add_l by lia. rewrite (Z.div_small (_ * width l)) by nia. lia. }
  assert (digit l i1 = m) as Hd1. { rewrite E1, digit_of by lia. apply Nat2Z.id. }
  split; [done |]. split; [done |]. split; [unfold i1; nia |]. split.
  - intros _. replace i1 with ((id / width (S l) * 32 + Z.of_nat m) * width l) by (unfold i1; lia). by apply Z.mod_mul; lia.
  - intros j Hj. assert (same_block (S l) j id) as Hjb. { unfold same_block in *. pose proof (Z.div_le_mono id j (width (S l)) ltac:(lia) ltac:(lia)). pose proof (Z.div_le_mono j i1 (width (S l)) ltac:(lia) ltac:(lia)). lia. }
    split; [apply same_block_digit; lia || done |]. pose proof (Z.mod_pos_bound j (width l) Sp). pose proof (mod_width_S l j) as Hdj. pose proof (split_id (S l) j) as Hsj. unfold same_block in Hjb. rewrite Hjb in Hsj. unfold i1 in Hj. nia.
Qed.

Lemma landing_code l id m : in_bounds l id -> (digit l id <= m < 32)%nat ->
  (if (m =? digit l id)%nat then id else s32 (Z.shiftl (Z.lxor (Z.lxor (Z.shiftr id (IDR_BITS * Z.of_nat l)) (Z.of_nat (digit l id))) (Z.of_nat m)) (IDR_BITS * Z.of_nat l))) = landing l id m.
Proof.
  intros B Hm. destruct (landing_spec l id m B Hm) as (_ & _ & H & _). unfold landing in *. destruct (m =? digit l id)%nat; [done |]. destruct B as [H0 _]. rewrite slot_id by lia. apply s32_id. lia.
Qed.

Lemma in_range_ok id : 0 <= id < 2147483648 -> (MAX_ID_BIT <=? u32 id) || (id <? 0) = false.
Proof. intros H. rewrite u32_id by (unfold is_u32; lia). unfold MAX_ID_BIT. lia. Qed.

Lemma loop_climb fuel ptr idp b ary c l pa id : in_bounds l id -> find_next_bit32 (not32 b) (digit l id) = 32%nat ->
  alloc_loop (S fuel) ptr idp (Layer b ary c) l pa id = climb fuel ptr idp (Layer b ary c) l pa id.
Proof. intros [H0 Hb] E. cbn [alloc_loop]. rewrite E. cbn [Nat.eqb IDR_SIZE]. rewrite climb_id, s32_id by (pose proof (Z.div_pos id (width (S l)) H0 (width_positive _)); pose proof (width_positive (S l)); nia). done. Qed.

Lemma loop_leaf fuel ptr idp b ary c pa id m : in_bounds 0 id -> find_next_bit32 (not32 b) (digit 0 id) = m -> (digit 0 id <= m < 32)%nat ->
  alloc_loop (S fuel) ptr idp (Layer b ary c) 0 pa id =
  Some (landing 0 id m, landing 0 id m, set_top (mark_full pa (landing 0 id m) (Layer (Z.setbit b (Z.of_nat m)) (<[m := Ptr ptr]> ary) (c + 1))) idp).
Proof.
  intros B E Hm. cbn [alloc_loop]. rewrite E. destruct (Nat.eqb_spec m IDR_SIZE) as [-> | _]; [unfold IDR_SIZE in Hm; lia |]. rewrite landing_code by done.
  destruct (landing_spec 0 id m B Hm) as (_ & _ & H & _). destruct B as [H0 _]. by rewrite in_range_ok by lia.
Qed.

Lemma loop_down fuel ptr idp b ary c l pa id m old : in_bounds (S l) id -> find_next_bit32 (not32 b) (digit (S l) id) = m -> (digit (S l) id <= m < 32)%nat -> ary !! m = Some old -> free_ok idp ->
  alloc_loop (S fuel) ptr idp (Layer b ary c) (S l) pa id =
  if is_null old then
    match id_free idp with
    | [] => Some (-1, landing (S l) id m, set_top (unwind pa (Layer b ary c)) idp)
    | _ => alloc_loop fuel ptr (take_free 1 idp) zero_layer l (mk_frame b (<[m := zero_layer]> ary) (c + 1) m :: pa) (landing (S l) id m)
    end
  else alloc_loop fuel ptr idp old l (mk_frame b (<[m := old]> ary) c m :: pa) (landing (S l) id m).
Proof.
  intros B E Hm Ho Ok. cbn [alloc_loop]. rewrite E. destruct (Nat.eqb_spec m IDR_SIZE) as [-> | _]; [unfold IDR_SIZE in Hm; lia |]. rewrite landing_code by done.
  destruct (landing_spec (S l) id m B Hm) as (_ & _ & H & _). destruct B as [H0 _]. rewrite in_range_ok by lia. rewrite Ho. cbn [mbind option_bind]. destruct (is_null old) eqn:N.
  - pose proof (alloc_layer_ok idp Ok) as A. destruct (id_free idp) as [| q rest]; by rewrite A.
  - by rewrite (list_insert_id ary m old).
Qed.

(** What is before the landing place is used. *)
Lemma used_between l b ary c n m j : wf (S l) (Layer b ary c) -> (forall i, (n <= i < m)%nat -> Z.testbit b (Z.of_nat i) = true) -> (n <= digit l j < m)%nat -> get (S l) (Layer b ary c) j <> None.
Proof. intros W H Hj. destruct (wf_child W _ (digit_lt l j)) as (s & Es & Ws & E). cbn [get]. rewrite Es. apply full_used; [done |]. rewrite <- E. by apply H. Qed.

Lemma in_bounds_down l id i : in_bounds (S l) id -> id <= i -> same_block (S (S l)) i id -> in_bounds l i.
Proof.
  intros [H0 Hb] Hi E. split; [lia |]. unfold same_block in E. rewrite <- E in Hb. pose proof (width_positive (S l)). rewrite (width_S (S l)) in Hb. rewrite (Z.mul_comm 32), <- Z.div_div in Hb by lia.
  pose proof (Z_div_mod_eq_full (i / width (S l)) 32). pose proof (Z.mod_pos_bound (i / width (S l)) 32 ltac:(lia)). nia.
Qed.

(** A search that begins at the start of a subtree never needs to come back. *)
Lemma no_wrap_start l p id : id mod width l = 0 -> no_wrap l p id.
Proof.
  intros E k Hk Hd. exfalso. assert (id mod width (S k) = 0) as E1.
  { assert (width l = width (S k) * width (l - S k)) as Hs. { unfold width. rewrite <- Z.pow_add_r by lia. f_equal. lia. }
    rewrite Hs in E. pose proof (width_positive (S k)). pose proof (width_positive (l - S k)). rewrite Z.rem_mul_r in E by lia. pose proof (Z.mod_pos_bound id (width (S k)) ltac:(lia)). pose proof (Z.mod_pos_bound (id / width (S k)) (width (l - S k)) ltac:(lia)). nia. }
  rewrite mod_width_S, Hd in E1. pose proof (width_positive k). pose proof (Z.mod_pos_bound id (width k) ltac:(lia)). lia.
Qed.

(** A subtree with something free has it at or after its start. *)
Lemma start_free l p id : wf l p -> full l p = false -> id mod width l = 0 -> ~ no_free l p id.
Proof.
  intros W F E N. destruct (not_full_free l p W F) as (j & Hj & G). pose proof (split_id l id) as Hs. apply (N (id / width l * width l + j)).
  - lia.
  - unfold same_block. rewrite Z.div_add_l, (Z.div_small j) by lia. lia.
  - rewrite <- (Z.mod_small j (width l)) by done. by rewrite get_move.
Qed.

(** The search below a layer ends with an identifier (or for lack of layers), or nothing is free and it goes up. *)
Definition search_ok (l : nat) (fuel : nat) (ptr : Z) (idp : idr) (p : idr_layer) (pa : list frame) (id : Z) : Prop :=
  found l p id ptr idp pa (alloc_loop fuel ptr idp p l pa id) \/
  (no_free (S l) p id /\ exists fuel', (fuel <= fuel' + need l)%nat /\ alloc_loop fuel ptr idp p l pa id = climb fuel' ptr idp p l pa id).

Definition search_at (l : nat) : Prop := forall fuel ptr idp p pa id, (need l <= fuel)%nat -> wf (S l) p -> is_null p = false -> free_ok idp -> in_bounds l id -> no_wrap (S l) p id ->
  search_ok l fuel ptr idp p pa id.

(** Nothing is free in the slots from that of [id] on. *)
Lemma exhausted l b ary c id : wf (S l) (Layer b ary c) -> 0 <= id -> find_next_bit32 (not32 b) (digit l id) = 32%nat -> no_free (S l) (Layer b ary c) id.
Proof.
  intros W H0 E j Hj Hs. destruct (next_free_spec b (digit l id) (digit_lt l id)) as (_ & H & _). rewrite E in H. eapply used_between; [done | exact H |].
  split; [by apply same_block_digit | apply digit_lt].
Qed.

Lemma search_leaf : search_at 0.
Proof.
  intros fuel ptr idp p pa id Hf W N Ok B _. destruct p as [| v | b ary c]; [done | done |]. destruct fuel as [| fuel]; [cbn in Hf; lia |].
  destruct (next_free_spec b (digit 0 id) (digit_lt 0 id)) as (Hm & Hset & Hclr). set (m := find_next_bit32 (not32 b) (digit 0 id)) in *. destruct (decide (m = 32%nat)) as [E | Hne].
  { right. split; [apply exhausted; [done | apply B | done] |]. exists fuel. split; [cbn; lia | by apply loop_climb]. }
  left. rewrite (loop_leaf _ _ _ _ _ _ _ _ m) by (done || lia). destruct (landing_spec 0 id m B ltac:(lia)) as (L1 & L2 & L3 & _ & L5). destruct (wf_child W m ltac:(lia)) as (s & Es & Ws & Ef).
  rewrite Hclr in Ef by lia. assert (s = Null) as -> by (destruct s; [done | discriminate Ef | done]). assert (length ary = 32%nat) as L by apply W. set (p' := Layer _ _ (c + 1)).
  exists 0%nat, p', (landing 0 id m). split; [lia |]. split; [lia |]. split.
  { eapply (wf_update 0 b); [exact W | done | done | apply setbit_u32; [apply W | lia] | cbn; lia |]. intros i Hi. apply setbit_at. }
  split; [done |]. left. exists (landing 0 id m). split; [| split].
  - split; [lia |]. split; [done |]. split; [cbn [get]; by rewrite L1, Es |]. intros i Hi. eapply used_between; [done | exact Hset | by apply L5].
  - intros i. unfold p'. rewrite (get_update 0 b _ ary c) by lia. rewrite !(mod_width_S 0), L1. change (width 0) with 1. rewrite !Z.mod_1_r. pose proof (digit_lt 0 i).
    destruct (decide (digit 0 i = m)), (decide (_ + 0 = _)); [done | lia | lia | done].
  - change (width 0) with 1. by rewrite Z.div_1_r, take_free_0.
Qed.

(** Trying slot [m]: the search ends below it, or comes back to the next slot. *)
Lemma search_slot l : search_at l -> forall fuel ptr idp b ary c pa id m old, (need l <= fuel)%nat -> wf (S (S l)) (Layer b ary c) -> free_ok idp -> in_bounds (S l) id ->
  find_next_bit32 (not32 b) (digit (S l) id) = m -> (m < 32)%nat -> ary !! m = Some old -> no_wrap (S l) old (landing (S l) id m) ->
  found (S l) (Layer b ary c) id ptr idp pa (alloc_loop (S fuel) ptr idp (Layer b ary c) (S l) pa id) \/
  (no_free (S l) old (landing (S l) id m) /\ exists fuel', (fuel <= fuel' + need l)%nat /\
   alloc_loop (S fuel) ptr idp (Layer b ary c) (S l) pa id = alloc_loop fuel' ptr idp (Layer b ary c) (S l) pa ((landing (S l) id m / width (S l) + 1) * width (S l))).
Proof.
  intros IH fuel ptr idp b ary c pa id m old Hf W Ok B Em Hm Ho NW. destruct (next_free_spec b (digit (S l) id) (digit_lt _ _)) as (Hr & Hset & Hclr). rewrite Em in Hr, Hset, Hclr.
  destruct (wf_child W m Hm) as (s & Es & Ws & Ef). rewrite Ho in Es. injection Es as <-. rewrite Hclr in Ef by done. destruct (landing_spec (S l) id m B ltac:(lia)) as (L1 & L2 & L3 & _ & L5).
  assert (forall i, id <= i < landing (S l) id m -> get (S (S l)) (Layer b ary c) i <> None) as Hbelow by (intros i Hi; eapply used_between; [done | exact Hset | by apply L5]).
  assert (in_bounds l (landing (S l) id m)) as B1 by (eapply in_bounds_down; [exact B | lia | done]).
  rewrite (loop_down _ _ _ _ _ _ _ _ _ m old) by (done || lia). destruct (is_null old) eqn:N.
  - left. destruct (id_free idp) as [| q rest] eqn:Hfree.
    { exists 0%nat, (Layer b ary c), (landing (S l) id m). rewrite Hfree. cbn [length]. split; [lia |]. split; [lia |]. split; [done |]. split; [done |]. right. split; [lia |]. split; [done |]. by rewrite take_free_0. }
    assert (forall i, get (S l) zero_layer i = get (S l) old i) as Hz. { intros i. destruct old; [| done | done]. by rewrite get_zero. }
    destruct (IH fuel ptr (take_free 1 idp) zero_layer (mk_frame b (<[m := zero_layer]> ary) (c + 1) m :: pa) (landing (S l) id m)) as [F | [F _]]; [done | apply wf_zero | done | | done | | |].
    + apply take_free_ok; [rewrite Hfree; cbn; lia | done].
    + intros k Hk Hd. left. exists (landing (S l) id m). split; [lia |]. split; [done |]. apply get_zero.
    + eapply (found_below l b ary c m old zero_layer id _ ptr idp pa 1); try done; [rewrite Hfree; cbn; split; [done | lia] | by rewrite N | apply Hclr; done | lia |]. unfold weight_by. rewrite N. by rewrite Z.sub_0_r.
    + destruct (F (landing (S l) id m) ltac:(lia) ltac:(done)). apply get_zero.
  - destruct (IH fuel ptr idp old (mk_frame b (<[m := old]> ary) c m :: pa) (landing (S l) id m)) as [F | [F (fuel' & Hf' & E)]]; [done | done | done | done | done | done | left | right].
    + eapply (found_below l b ary c m old old id _ ptr idp pa 0); try done; [by rewrite N | apply Hclr; done | lia |]. rewrite take_free_0. unfold weight_by. rewrite N. by replace (c + 1 - 1) with c by lia.
    + split; [done |]. exists fuel'. split; [done |]. rewrite E. unfold climb, plug. cbn [f_bitmap f_ary f_count f_slot]. by rewrite list_insert_insert_eq, list_insert_id.
Qed.

(** From the start of a slot. *)
Lemma search_start l : search_at l -> forall fuel ptr idp p pa id, (1 + need l <= fuel)%nat -> wf (S (S l)) p -> is_null p = false -> free_ok idp -> in_bounds (S l) id -> id mod width (S l) = 0 ->
  found (S l) p id ptr idp pa (alloc_loop fuel ptr idp p (S l) pa id) \/
  (no_free (S (S l)) p id /\ exists fuel', (fuel <= fuel' + 1)%nat /\ alloc_loop fuel ptr idp p (S l) pa id = climb fuel' ptr idp p (S l) pa id).
Proof.
  intros IH fuel ptr idp p pa id Hf W N Ok B E0. destruct p as [| v | b ary c]; [done | done |]. destruct fuel as [| fuel]; [lia |].
  destruct (next_free_spec b (digit (S l) id) (digit_lt _ id)) as (Hm & Hset & Hclr). set (m := find_next_bit32 (not32 b) (digit (S l) id)) in *. destruct (decide (m = 32%nat)) as [E | Hne].
  { right. split; [apply exhausted; [done | apply B | done] |]. exists fuel. split; [lia | by apply loop_climb]. }
  left. destruct (wf_child W m ltac:(lia)) as (s & Es & Ws & Ef). rewrite Hclr in Ef by lia. destruct (landing_spec (S l) id m B ltac:(lia)) as (_ & _ & _ & L4 & _).
  assert (landing (S l) id m mod width (S l) = 0) as L0. { destruct (decide (m = digit (S l) id)) as [E | Hd]; [| by apply L4]. unfold landing. by rewrite E, Nat.eqb_refl. }
  destruct (search_slot l IH fuel ptr idp b ary c pa id m s) as [F | [F _]]; [lia | done | done | done | done | lia | done | by apply no_wrap_start | done |].
  destruct (start_free (S l) s _ Ws (eq_sym Ef) L0 F).
Qed.

Lemma found_from l p id id2 ptr idp pa r : found l p id2 ptr idp pa r -> id <= id2 -> same_block (S l) id2 id -> (forall i, id <= i < id2 -> get (S l) p i <> None) -> found l p id ptr idp pa r.
Proof.
  intros (n & p' & x & H1 & H2 & H3 & H4 & R) Hle Hsb Hu. exists n, p', x. do 4 (split; [done |]). destruct R as [(j & (F1 & F2 & F3 & F4) & R) | R]; [left | by right].
  exists j. split; [| done]. split; [lia |]. split; [by transitivity (id2 / width (S l)) |]. split; [done |]. intros i Hi. destruct (Z.ltb_spec i id2); [apply Hu; lia | apply F4; lia].
Qed.

(** The start of the next slot is in the same layer unless the slot was the last one. *)
Lemma next_slot l id : in_bounds (S l) id -> digit (S l) id <> 31%nat -> let id2 := (id / width (S l) + 1) * width (S l) in
  id < id2 /\ same_block (S (S l)) id2 id /\ in_bounds (S l) id2 /\ id2 mod width (S l) = 0 /\ forall i, id <= i < id2 -> same_block (S l) i id.
Proof.
  intros [H0 Hb] Hd. cbn zeta. pose proof (width_positive (S l)) as Sp. pose proof (Z.mod_pos_bound id (width (S l)) Sp). pose proof (split_id (S l) id) as Hs. set (id2 := (id / width (S l) + 1) * width (S l)) in *.
  assert (id2 / width (S l) = id / width (S l) + 1) as Hq by (unfold id2; by apply Z.div_mul; lia).
  assert (same_block (S (S l)) id2 id) as Hsb.
  { unfold same_block. rewrite (width_S (S l)), (Z.mul_comm 32), <- !Z.div_div by lia. rewrite Hq. rewrite digit_eq in Hd. pose proof (Z.mod_pos_bound (id / width (S l)) 32 ltac:(lia)).
    pose proof (Z_div_mod_eq_full (id / width (S l)) 32) as Hdm. symmetry. apply (Z.div_unique _ 32 _ ((id / width (S l)) mod 32 + 1)); lia. }
  split; [unfold id2; lia |]. split; [done |]. split; [split; [unfold id2; pose proof (Z.div_pos id _ H0 Sp); nia | unfold same_block in Hsb; by rewrite Hsb] |]. split; [unfold id2; apply Z.mod_mul; lia |].
  intros i Hi. unfold same_block. pose proof (Z.div_le_mono id i _ Sp ltac:(lia)). assert (i / width (S l) < id / width (S l) + 1) by (apply Z.div_lt_upper_bound; [done | unfold id2 in Hi; lia]). lia.
Qed.

Lemma search_all l : search_at l.
Proof.
  induction l as [| l IH]; [apply search_leaf |]. intros fuel ptr idp p pa id Hf W N Ok B NW. destruct p as [| v | b ary c]; [done | done |]. destruct fuel as [| fuel]; [cbn in Hf; lia |]. cbn [need] in Hf.
  destruct (next_free_spec b (digit (S l) id) (digit_lt _ id)) as (Hm & Hset & Hclr). set (m := find_next_bit32 (not32 b) (digit (S l) id)) in *. destruct (decide (m = 32%nat)) as [E | Hne].
  { right. split; [apply exhausted; [done | apply B | done] |]. exists fuel. split; [cbn; lia | by apply loop_climb]. }
  destruct (wf_child W m ltac:(lia)) as (s & Es & Ws & Ef). rewrite Hclr in Ef by lia. destruct (landing_spec (S l) id m B ltac:(lia)) as (L1 & _ & _ & L4 & _).
  assert (no_wrap (S l) s (landing (S l) id m)) as NWs.
  { destruct (decide (m = digit (S l) id)) as [E | Hd]; [| by apply no_wrap_start, L4]. assert (landing (S l) id m = id) as -> by (unfold landing; by rewrite E, Nat.eqb_refl).
    assert (forall k j, (k <= S l)%nat -> same_block k j id -> get (S (S l)) (Layer b ary c) j = get (S l) s j) as Hg. { intros k j Hk Hj. cbn [get]. by rewrite (same_block_digits k (S l) j id), <- E, Es. }
    intros k Hk Hd. destruct (NW k ltac:(lia) Hd) as [(j & J1 & J2 & J3) | J]; [left; exists j | right; intros j Hj]; rewrite <- (Hg k) by (lia || done); auto. }
  destruct (search_slot l IH fuel ptr idp b ary c pa id m s) as [F | [F (fuel' & Hf' & E)]]; [lia | done | done | done | done | lia | done | done | by left |].
  assert (m = digit (S l) id) as Em. { destruct (decide (m = digit (S l) id)) as [E1 | Hd]; [done |]. destruct (start_free (S l) s _ Ws (eq_sym Ef) (L4 Hd) F). }
  assert (landing (S l) id m = id) as El by (unfold landing; by rewrite Em, Nat.eqb_refl). rewrite El in F, E.
  assert (forall j, same_block (S l) j id -> get (S (S l)) (Layer b ary c) j = get (S l) s j) as Hg. { intros j Hj. cbn [get]. by rewrite (same_block_digits (S l) (S l) j id), <- Em, Es. }
  assert (digit (S l) id <> 31%nat) as H31.
  { intros H31. destruct (NW (S l) ltac:(lia) H31) as [(j & J1 & J2 & J3) | J]; [apply (F j J1 J2); by rewrite <- Hg |]. destruct (not_full_free _ _ Ws (eq_sym Ef)) as (j & Hj & G).
    pose proof (get_move (S l) s (id / width (S l)) j) as Gm. rewrite G in Gm. assert (same_block (S l) (id / width (S l) * width (S l) + j mod width (S l)) id) as Hb.
    { unfold same_block. rewrite (Z.mod_small j) by done. rewrite Z.div_add_l, (Z.div_small j) by lia. lia. }
    rewrite <- Hg in Gm by done. by apply (J _ Hb). }
  destruct (next_slot l id B H31) as (N1 & N2 & N3 & N4 & N5). set (id2 := (id / width (S l) + 1) * width (S l)) in *.
  assert (forall i, id <= i < id2 -> get (S (S l)) (Layer b ary c) i <> None) as Hu. { intros i Hi. rewrite Hg by (by apply N5). apply F; [lia | by apply N5]. }
  unfold search_ok. rewrite E. destruct (search_start l IH fuel' ptr idp (Layer b ary c) pa id2) as [R | [R (fuel2 & Hf2 & E2)]]; [lia | done | done | done | done | done | left | right].
  - eapply found_from; [exact R | lia | done | done].
  - split.
    + intros j Hj Hs. destruct (Z.ltb_spec j id2); [apply Hu; lia |]. apply R; [done |]. unfold same_block in *. congruence.
    + exists fuel2. split; [cbn [need]; lia |]. rewrite E2. unfold climb. unfold same_block in N2. by rewrite N2.
Qed.

(** ** Adding layers on top *)

(** What a tree of [n] layers holds. *)
Definition view (n : nat) (p : idr_layer) (i : Z) : option Z := if decide (0 <= i < width n) then get n p i else None.

Definition give (k : nat) (idp : idr) : idr := mk_idr (top idp) (replicate k zero_layer ++ id_free idp) (layers idp) (id_free_cnt idp + Z.of_nat k).

Lemma give_take k idp : free_ok idp -> (k <= length (id_free idp))%nat -> give k (take_free k idp) = idp.
Proof.
  intros [F C] Hk. destruct idp as [t f n c]. unfold give, take_free. cbn in *. f_equal; [| lia]. rewrite <- (take_drop k f) at 2. f_equal.
  apply replicate_as_Forall. split; [rewrite length_take; lia |]. apply Forall_take. eapply Forall_impl; [exact F | by intros x ->].
Qed.

Lemma give_S k idp : give k (free_layer idp zero_layer) = give (S k) idp.
Proof.
  unfold give, free_layer. cbn [top id_free layers id_free_cnt]. f_equal; [| lia]. change (clear_link zero_layer) with zero_layer. rewrite replicate_S_end, <- app_assoc. done.
Qed.

(** [k] layers on top of [q]. *)
Fixpoint stacked (k : nat) (p q : idr_layer) : Prop :=
  match k with O => p = q | S k => exists b c p1, p = Layer b (<[0%nat := p1]> (replicate IDR_SIZE Null)) c /\ stacked k p1 q end.

Lemma tear_down_ok k q : forall p idp, stacked k p q -> tear_down k p idp = Some (give k idp).
Proof.
  induction k as [| k IH]; intros p idp H.
  - cbn. destruct idp. unfold give. cbn. do 2 f_equal. lia.
  - destruct H as (b & c & p1 & -> & H). cbn [tear_down]. rewrite list_lookup_insert_eq by (cbn; lia). cbn [mbind option_bind]. rewrite (IH p1 _ H), list_insert_insert_eq.
    change (Layer 0 (<[0%nat := Null]> (replicate IDR_SIZE Null)) 0) with zero_layer. by rewrite give_S.
Qed.

Lemma empty_layer n b ary : wf (S n) (Layer b ary 0) -> Layer b ary 0 = zero_layer.
Proof.
  intros W. pose proof W as (L & Hb & Hc & H). apply eq_sym, (filled_by_0 is_null Null _ null_eq) in Hc. rewrite L in Hc. assert (b = 0) as ->; [| by rewrite Hc]. apply Z.bits_inj'. intros i Hi. rewrite Z.testbit_0_l.
  destruct (Z.ltb_spec i 32); [| by apply u32_bits_above]. destruct (wf_child W (Z.to_nat i) ltac:(lia)) as (s & Es & _ & E). rewrite Z2Nat.id in E by done. rewrite E.
  rewrite Hc in Es. apply lookup_replicate in Es as [-> _]. by destruct n.
Qed.

Definition pushed (p : idr_layer) : idr_layer :=
  Layer (match p with Layer b _ _ => if b =? IDR_FULL then Z.setbit 0 0 else 0 | _ => 0 end) (<[0%nat := p]> (replicate IDR_SIZE Null)) 1.

Lemma digit_0 n i : 0 <= i < width (S n) -> digit n i = 0%nat <-> i < width n.
Proof.
  intros Hi. pose proof (width_positive n). rewrite digit_eq. rewrite width_S in Hi. pose proof (Z.div_pos i (width n) ltac:(lia) ltac:(lia)). assert (i / width n < 32) by (apply Z.div_lt_upper_bound; lia).
  rewrite Z.mod_small by lia. pose proof (Z_div_mod_eq_full i (width n)). pose proof (Z.mod_pos_bound i (width n) ltac:(lia)). split; intros E; [nia |]. rewrite Z.div_small by lia. done.
Qed.

Lemma pushed_ok n p : wf (S n) p -> is_null p = false -> wf (S (S n)) (pushed p) /\ forall i, view (S (S n)) (pushed p) i = view (S n) p i.
Proof.
  intros W N. destruct p as [| v | b ary c]; [done | done |]. split.
  - apply (wf_update (S n) 0 (marked n 0 0 (Layer b ary c)) (replicate IDR_SIZE Null) 0 1 0 Null); [apply wf_zero | done | done | apply marked_u32; [unfold is_u32; lia | lia] | done | intros i Hi; by apply marked_at].
  - intros i. unfold view, pushed. pose proof (width_positive (S n)). pose proof (width_S (S n)). destruct (decide (0 <= i < width (S (S n)))) as [Hi | Hi]; [| by rewrite decide_False by lia].
    rewrite (get_update (S n) 0 _ _ 0) by (done || lia). pose proof (digit_0 (S n) i Hi) as Hd. destruct (decide (digit (S n) i = 0%nat)) as [E | E].
    + by rewrite decide_True by (apply Hd in E; lia).
    + rewrite decide_False by lia. apply (get_zero (S n)).
Qed.

Lemma zero_view n i : view n zero_layer i = None.
Proof. unfold view. destruct (decide _); [| done]. destruct n; [done | apply get_zero]. Qed.

(** Layers are added until the identifier fits, or the ones added are given back for lack of more. *)
Lemma add_layers_ok id : id < width 6 -> forall fuel p n built q idp0, (7 <= n + fuel)%nat -> (1 <= n <= 6)%nat -> wf n p -> is_null p = false -> free_ok idp0 -> (built <= length (id_free idp0))%nat -> stacked built p q ->
  (exists p' n' k, add_layers fuel id p n built (take_free built idp0) = Some (Some (p', n'), take_free (built + k) idp0) /\ (n <= n' <= 6)%nat /\ (built + k <= length (id_free idp0))%nat /\ (k <= n' - n)%nat /\
     id < width n' /\ wf n' p' /\ is_null p' = false /\ (forall i, view n' p' i = view n p i) /\ (n' = n -> p' = p /\ k = 0%nat) /\ (n' <> n -> width n <= id)) \/
  (add_layers fuel id p n built (take_free built idp0) = Some (None, idp0) /\ (length (id_free idp0) < built + (6 - n))%nat).
Proof.
  intros Hid fuel. induction fuel as [| fuel IH]; intros p n built q idp0 Hf Hn W N Ok Hb St; [lia |]. destruct n as [| n]; [lia |]. destruct p as [| v | b ary c]; [done | done |].
  assert (Z.shiftl 1 (Z.of_nat (S n) * IDR_BITS) = width (S n)) as Hsh by (rewrite Z.shiftl_1_l, Z.mul_comm; apply width_shift).
  cbn [add_layers]. rewrite Hsh. replace (S n <? MAX_LEVEL)%nat with true by (unfold MAX_LEVEL; symmetry; apply Nat.ltb_lt; lia). cbn [andb]. destruct (Z.leb_spec (width (S n)) id) as [Hle | Hlt].
  2: { left. exists (Layer b ary c), (S n), 0%nat. rewrite Nat.add_0_r. split_and!; try done; lia. }
  assert (S n <> 6)%nat as Hn6 by (intros E; rewrite E in Hle; lia). destruct (Z.eqb_spec c 0) as [-> | Hc].
  - pose proof (empty_layer n b ary W) as Hz. rewrite Hz in *. destruct (IH zero_layer (S (S n)) built q idp0) as [(p' & n' & k & E & R) | (E & R)]; [lia | lia | apply wf_zero | done | done | done | done | left | right].
    + exists p', n', k. rewrite E. destruct R as (R1 & R2 & R3 & R4 & R5 & R6 & R7 & R8 & R9). split_and!; try done; try lia. intros i. by rewrite R7, !zero_view.
    + split; [done | lia].
  - pose proof (alloc_layer_ok (take_free built idp0) (take_free_ok _ _ Hb Ok)) as A. cbn [id_free take_free] in A. destruct (drop built (id_free idp0)) as [| x rest] eqn:Hd; rewrite A.
    + right. pose proof (f_equal length Hd) as Hl. rewrite length_drop in Hl. cbn in Hl. rewrite (tear_down_ok _ q _ _ St). cbn [mbind option_bind]. rewrite give_take by done. split; [done | lia].
    + pose proof (f_equal length Hd) as Hl. rewrite length_drop in Hl. cbn in Hl. destruct (pushed_ok n (Layer b ary c) W eq_refl) as [Wp Vp]. cbn [zero_layer]. rewrite take_free_add.
      destruct (IH (pushed (Layer b ary c)) (S (S n)) (S built) q idp0) as [(p' & n' & k & E & R) | (E & R)]; [lia | lia | done | done | done | lia | by eexists _, _, _ | left | right].
      * exists p', n', (S k). rewrite Nat.add_1_r. replace (built + S k)%nat with (S built + k)%nat by lia. unfold pushed in E. rewrite E. destruct R as (R1 & R2 & R3 & R4 & R5 & R6 & R7 & R8 & R9). split_and!; try done; try lia. intros i. by rewrite R7, Vp.
      * rewrite Nat.add_1_r. unfold pushed in E. rewrite E. split; [done | lia].
Qed.

(** ** The operations on the whole *)

Definition idr_ok (idp : idr) : Prop := free_ok idp /\ (layers idp <= 6)%nat /\ wf (layers idp) (top idp) /\ (is_null (top idp) = true <-> layers idp = 0%nat).

Definition contents (idp : idr) : Z -> option Z := view (layers idp) (top idp).

(** [no_wrap] for all layers there are or could be. *)
Definition search_safe (f : Z -> option Z) (start : Z) : Prop := forall k, (1 <= k)%nat -> digit k start = 31%nat ->
  (exists j, start <= j /\ same_block k j start /\ f j = None) \/ (forall j, same_block k j start -> f j <> None).

Definition least_free (f : Z -> option Z) (start j : Z) : Prop := start <= j /\ f j = None /\ forall i, start <= i < j -> f i <> None.

Lemma block_inside n k i j : (k <= n)%nat -> 0 <= i < width n -> same_block k j i -> 0 <= j < width n.
Proof.
  intros Hk Hi E. apply (same_block_up k n) in E; [| done]. unfold same_block in E. rewrite (Z.div_small i) in E by done. apply Z.div_small_iff in E; [| pose proof (width_positive n); lia]. pose proof (width_positive n). lia.
Qed.

Lemma block_of_inside n i j : 0 <= i < width n -> 0 <= j < width n -> same_block n i j.
Proof. intros Hi Hj. unfold same_block. by rewrite !Z.div_small by done. Qed.

Lemma view_get n p i : 0 <= i < width n -> view n p i = get n p i.
Proof. intros Hi. unfold view. by rewrite decide_True. Qed.

Lemma safe_no_wrap n p id : 0 <= id < width n -> search_safe (view n p) id -> no_wrap n p id.
Proof.
  intros Hid H k Hk Hd. assert (forall j, same_block k j id -> view n p j = get n p j) as V by (intros j Hj; apply view_get, (block_inside n k id); [lia | done | done]).
  destruct (H k ltac:(lia) Hd) as [(j & J1 & J2 & J3) | J]; [left; exists j | right; intros j Hj]; rewrite <- V by done; auto.
Qed.

Lemma search_safe_ext f g start : (forall i, f i = g i) -> search_safe f start -> search_safe g start.
Proof. intros E H k Hk Hd. destruct (H k Hk Hd) as [(j & J1 & J2 & J3) | J]; [left; exists j; by rewrite <- E | right; intros j Hj; rewrite <- E; by apply J]. Qed.

Lemma first_layer idp : idr_ok idp ->
  let x := (if is_null (top idp) then let '(p, idp) := alloc_layer idp in (p, 1%nat, idp) else (top idp, layers idp, idp)) in
  x = (Null, 1%nat, idp) /\ id_free idp = [] \/
  exists p n k, x = (p, n, take_free k idp) /\ (k <= 1)%nat /\ (k <= length (id_free idp))%nat /\ is_null p = false /\ wf n p /\ (1 <= n <= 6)%nat /\ (forall i, view n p i = contents idp i) /\
    (p = top idp /\ n = layers idp /\ k = 0%nat \/ forall i, view n p i = None).
Proof.
  intros (Ok & L & W & T). destruct (is_null (top idp)) eqn:N; cbn zeta.
  - pose proof (alloc_layer_ok idp Ok) as A. destruct (id_free idp) as [| q rest] eqn:Hf; rewrite A; [by left | right]. exists zero_layer, 1%nat, 1%nat. split_and!; try done; try (cbn; lia); [apply wf_zero | |].
    + intros i. rewrite zero_view. unfold contents, view. destruct (top idp); [| done | done]. rewrite get_null. by destruct (decide _).
    + right. intros i. apply zero_view.
  - right. exists (top idp), (layers idp), 0%nat. rewrite take_free_0. assert (layers idp <> 0%nat) by (intros E; apply T in E; done). split_and!; try done; try lia. by left.
Qed.

Lemma need_enough l : (l <= 5)%nat -> (need l <= alloc_fuel)%nat.
Proof. intros H. unfold alloc_fuel. do 6 (destruct l as [| l]; [cbn; lia |]). lia. Qed.

(** sub_alloc on a tree that has room for the identifier. *)
Lemma sub_alloc_ok idp ptr id : idr_ok idp -> layers idp <> 0%nat -> 0 <= id < width (layers idp) -> search_safe (contents idp) id ->
  (exists j x idp', sub_alloc idp ptr id = Some (j, x, idp') /\ j < width (layers idp) /\ least_free (contents idp) id j /\ idr_ok idp' /\ (forall i, contents idp' i = if decide (i = j) then Some ptr else contents idp i)) \/
  (exists x idp', sub_alloc idp ptr id = Some (-1, x, idp') /\ (length (id_free idp) < layers idp)%nat /\ idr_ok idp' /\ (forall i, contents idp' i = contents idp i)) \/
  (sub_alloc idp ptr id = Some (-2, width (layers idp), idp) /\ forall j, id <= j < width (layers idp) -> contents idp j <> None).
Proof.
  intros (Ok & L & W & T) Hl Hid Hsafe. unfold sub_alloc, contents in *. destruct (layers idp) as [| l] eqn:El; [done |]. replace (MAX_LEVEL <=? S l)%nat with false by (unfold MAX_LEVEL; symmetry; apply Nat.leb_gt; lia).
  cbn [Nat.sub]. rewrite Nat.sub_0_r. assert (is_null (top idp) = false) as N by (apply not_true_is_false; intros E; apply T in E; lia).
  assert (width (S l) <= 1073741824) as Hsp by (apply (width_mono (S l) 6); lia). assert (in_bounds l id) as B by (split; [lia |]; rewrite Z.div_small by done; lia).
  assert (forall i p', get (S l) p' i = get (S l) (top idp) i -> view (S l) p' i = view (S l) (top idp) i) as Hview by (intros i p' E; unfold view; by rewrite E).
  destruct (search_all l alloc_fuel ptr idp (top idp) [] id (need_enough l ltac:(lia)) W N Ok B (safe_no_wrap _ _ _ Hid Hsafe)) as [(n & p' & x & H1 & H2 & W' & N' & R) | (R & fuel' & _ & E)].
  - assert (idr_ok (set_top p' (take_free n idp))) as Ok'. { split; [apply (take_free_ok n idp H2 Ok) |]. cbn [layers top set_top take_free]. rewrite El, N'. split; [lia |]. split; [done |]. split; [done | lia]. }
    destruct R as [(j & (F1 & F2 & F3 & F4) & G & E) | (Hs & G & E)]; rewrite E; [left | right; left].
    + assert (0 <= j < width (S l)) as Hj by (by apply (block_inside (S l) (S l) id)). exists j, x, (set_top p' (take_free n idp)). cbn [mark_full layers top set_top take_free]. rewrite El.
      split; [by destruct p' |]. split; [lia |]. split.
      { split; [done |]. split; [by rewrite view_get |]. intros i Hi. rewrite view_get by lia. by apply F4. }
      split; [done |]. intros i. unfold view. destruct (decide (0 <= i < width (S l))) as [Hi | Hi]; [| by rewrite decide_False by (intros ->; lia)].
      rewrite G, !Z.mod_small by done. done.
    + exists x, (set_top p' (take_free n idp)). split; [done |]. split; [lia |]. split; [done |]. intros i. cbn [layers top set_top take_free]. rewrite El. apply Hview, G.
  - right. right. rewrite E. unfold climb. rewrite Z.div_small by done. split; [do 2 f_equal; [f_equal; lia | by destruct idp] |]. intros j Hj. rewrite view_get by lia. apply R; [lia |]. apply block_of_inside; lia.
Qed.

(** How a call of the allocation ends: with the least free identifier, or for lack of layers with nothing changed. *)
Definition allocates (idp : idr) (ptr id : Z) (r : option (Z * idr)) : Prop :=
  (exists j idp', r = Some (j, idp') /\ 0 <= j < width 6 /\ least_free (contents idp) id j /\ idr_ok idp' /\ (forall i, contents idp' i = if decide (i = j) then Some ptr else contents idp i)) \/
  (exists idp', r = Some (-1, idp') /\ (length (id_free idp) < 12)%nat /\ idr_ok idp' /\ (forall i, contents idp' i = contents idp i)).

Lemma least_free_ext f g start j : (forall i, f i = g i) -> least_free f start j -> least_free g start j.
Proof. intros E (H1 & H2 & H3). split; [done |]. split; [by rewrite <- E |]. intros i Hi. rewrite <- E. by apply H3. Qed.

(** One round from [build_up] on: it ends the call, or the tree is used up from the identifier on and nothing was changed. *)
Lemma build_round fuel idp ptr id : idr_ok idp -> 0 <= id < width 6 -> search_safe (contents idp) id ->
  allocates idp ptr id (build_up (S fuel) idp ptr id) \/
  (id < width (layers idp) /\ (1 <= layers idp)%nat /\ (forall j, id <= j < width (layers idp) -> contents idp j <> None) /\ build_up (S fuel) idp ptr id = build_up fuel idp ptr (width (layers idp))).
Proof.
  intros Ok Hid Hsafe. unfold allocates. cbn [build_up]. destruct (first_layer idp Ok) as [[-> Hf] | (p & n & k & -> & Hk1 & Hk2 & N & W & Hn & V & Hp)].
  { left. right. exists idp. cbn. split; [done |]. rewrite Hf. split; [cbn; lia |]. done. }
  rewrite N. pose proof (take_free_ok k idp Hk2 (proj1 Ok)) as Okf. assert (length (id_free (take_free k idp)) = length (id_free idp) - k)%nat as Lf by apply length_drop.
  destruct (add_layers_ok id ltac:(lia) MAX_LEVEL p n 0 p (take_free k idp)) as [(p' & n' & k' & E & G1 & G2 & G3 & G4 & G5 & G6 & G7 & G8 & G9) | (E & G)]; [unfold MAX_LEVEL; lia | done | done | done | done | lia | done | |];
    rewrite take_free_0 in E; rewrite E; cbn [mbind option_bind].
  2: { left. right. exists (take_free k idp). split; [done |]. split; [lia |]. destruct Hp as [(-> & -> & ->) | Hp]; [by rewrite take_free_0 |]. 
       destruct (decide (k = 0%nat)) as [-> | Hk0]; [by rewrite take_free_0 |]. split; [| done]. destruct Ok as (_ & A & B & C). by split. }
  cbn [Nat.add]. set (idp1 := set_layers n' (set_top p' (take_free k' (take_free k idp)))).
  assert (idr_ok idp1) as Ok1. { split; [apply (take_free_ok k' (take_free k idp) G2 Okf) |]. cbn [layers top set_layers set_top idp1]. split; [lia |]. split; [done |]. rewrite G6. split; [done | lia]. }
  assert (forall i, contents idp1 i = contents idp i) as V1 by (intros i; unfold contents at 1; cbn [layers top set_layers set_top idp1]; by rewrite G7).
  assert (length (id_free idp1) = length (id_free idp) - k - k')%nat as L1 by (cbn [id_free idp1 set_layers set_top take_free]; rewrite !length_drop; lia).
  destruct (sub_alloc_ok idp1 ptr id Ok1) as [(j & x & idp' & -> & S1 & S2 & S3 & S4) | [(x & idp' & -> & S1 & S2 & S3) | (-> & S1)]]; [cbn; lia | cbn; lia | by eapply search_safe_ext; [| exact Hsafe] | | |]; cbn [mbind option_bind].
  - left. left. exists j, idp'. assert (0 <= j) by (destruct S2; lia). destruct (Z.eqb_spec j (-2)); [lia |]. split; [done |]. cbn [layers idp1 set_layers] in S1. pose proof (width_mono n' 6 ltac:(lia)).
    split; [lia |]. split; [by eapply least_free_ext |]. split; [done |]. intros i. by rewrite S4, V1.
  - left. right. exists idp'. split; [done |]. cbn [layers idp1 set_layers] in S1. split; [lia |]. split; [done |]. intros i. by rewrite S3, V1.
  - right. cbn [layers idp1 set_layers] in S1. assert (view n p id <> None) as Hu by (rewrite V, <- V1; apply S1; lia). destruct Hp as [(-> & -> & ->) | Hp]; [| by rewrite Hp in Hu].
    assert (n' = layers idp) as ->. { destruct (decide (n' = layers idp)) as [| Hne]; [done |]. specialize (G9 Hne). destruct Hu. unfold view. by rewrite decide_False by lia. }
    destruct (G8 eq_refl) as [-> ->]. assert (idp1 = idp) as E1 by (unfold idp1; rewrite !take_free_0; by destruct idp). split; [done |]. split; [lia |]. split; [intros j Hj; rewrite <- V1; by apply S1 |]. cbn [Z.eqb layers set_layers idp1]. by rewrite E1.
Qed.

Lemma digit_width n k : digit k (width n) <> 31%nat.
Proof.
  rewrite digit_eq. pose proof (width_positive k). destruct (decide (k <= n)%nat) as [H1 | H1].
  - assert (width n = width (n - k) * width k) as -> by (unfold width; rewrite <- Z.pow_add_r by lia; f_equal; lia). rewrite Z.div_mul by lia. destruct (n - k)%nat as [| d]; [done |].
    rewrite width_S, Z.mul_comm, Z.mod_mul by lia. done.
  - rewrite Z.div_small; [done |]. split; [pose proof (width_positive n); lia |]. assert (width k = width n * width (k - n)) as -> by (unfold width; rewrite <- Z.pow_add_r by lia; f_equal; lia).
    destruct (k - n)%nat as [| d] eqn:E; [lia |]. rewrite width_S. pose proof (width_positive n). pose proof (width_positive d). nia.
Qed.

Lemma get_new_above_ok idp ptr id j0 : idr_ok idp -> 0 <= id <= j0 -> j0 < width 6 -> contents idp j0 = None -> search_safe (contents idp) id ->
  allocates idp ptr id (idr_get_new_above_int idp ptr id).
Proof.
  intros Ok Hid Hj Hc Hs. unfold idr_get_new_above_int. destruct (build_round MAX_LEVEL idp ptr id Ok ltac:(lia) Hs) as [A | (B1 & B2 & B3 & E)]; [done |]. rewrite E.
  pose proof (proj1 (proj2 Ok)) as L. assert (width (layers idp) <= j0) as Hj0. { destruct (Z.ltb_spec j0 (width (layers idp))) as [H |]; [| done]. by destruct (B3 j0 ltac:(lia)). }
  change MAX_LEVEL with (S 6). destruct (build_round 6 idp ptr (width (layers idp)) Ok) as [A | (A & _)]; [pose proof (width_positive (layers idp)); lia | intros k Hk Hd; by destruct (digit_width (layers idp) k) | | lia].
  destruct A as [(j & idp' & R & Hj1 & (F1 & F2 & F3) & H) | A]; [left | by right]. exists j, idp'. split; [done |]. split; [done |]. split; [| done]. split; [lia |]. split; [done |].
  intros i Hi. destruct (Z.ltb_spec i (width (layers idp))); [apply B3; lia | apply F3; lia].
Qed.

(** ** Lookup, removal and reserve *)

Lemma idr_find_loop_ok l id : forall p, wf l p -> exists q, idr_find_loop l id p = Some q /\ match q with Null => get l p id = None | Ptr v => get l p id = Some v | Layer _ _ _ => False end.
Proof.
  induction l as [| l IH]; intros p W.
  - exists p. destruct p; done.
  - destruct p as [| v | b ary c]; [by exists Null | done |]. destruct (wf_child W _ (digit_lt l id)) as (s & Es & Ws & _). cbn [idr_find_loop get]. rewrite Es. by apply IH.
Qed.

Lemma mask_id id : 0 <= id < 2147483648 -> Z.land id MAX_ID_MASK = id.
Proof. intros H. change MAX_ID_MASK with (2 ^ 31 - 1). rewrite land_pow2_mask by lia. by apply Z.mod_small. Qed.

Lemma find_ok idp id : idr_ok idp -> 0 <= id < 2147483648 -> idr_find idp id = Some (default 0 (contents idp id)).
Proof.
  intros (_ & L & W & _) Hid. unfold idr_find, contents, view. rewrite mask_id by done. replace (32 <=? Z.of_nat (layers idp) * IDR_BITS) with false by (unfold IDR_BITS; lia).
  rewrite Z.shiftl_1_l, Z.mul_comm, width_shift. destruct (Z.leb_spec (width (layers idp)) id); [by rewrite decide_False by lia |]. rewrite decide_True by lia.
  destruct (idr_find_loop_ok _ id _ W) as (q & -> & Hq). cbn [mbind option_bind]. destruct q; [by rewrite Hq | by rewrite Hq | done].
Qed.

(** What clearing one slot leaves: the layer, or nothing and a zero layer to free. *)
Lemma release_spec l b ary c freed : wf (S l) (Layer b ary (c - 1)) -> Forall (fun p => p = zero_layer) freed -> exists p freed', release b ary c freed = (true, p, freed') /\ wf (S l) p /\
  (forall i, get (S l) p i = get (S l) (Layer b ary (c - 1)) i) /\ Forall (fun p => p = zero_layer) freed'.
Proof.
  intros W F. unfold release. destruct (Z.eqb_spec (c - 1) 0) as [E | E].
  - rewrite E in *. pose proof (empty_layer _ _ _ W) as Z0. exists Null, (freed ++ [Layer b ary 0]). split; [done |]. split; [done |]. split; [intros i; by rewrite Z0, get_zero |]. apply Forall_app. split; [done |]. by repeat constructor.
  - eexists _, _. done.
Qed.

Lemma clearbit_same b n : Z.testbit b (Z.of_nat n) = false -> Z.clearbit b (Z.of_nat n) = b.
Proof. intros H. apply Z.bits_inj'. intros i Hi. destruct (decide (i = Z.of_nat n)) as [-> | Hne]; [by rewrite Z.clearbit_eq | by apply Z.clearbit_neq]. Qed.

Lemma full_null l p : full l p = true -> is_null p = false.
Proof. by destruct l, p. Qed.

(** Taking an identifier out below a layer; one that is not there changes nothing. *)
Definition removes (l : nat) (id : Z) (p : idr_layer) (r : option (bool * idr_layer * list idr_layer)) : Prop :=
  match get (S l) p id with
  | None => r = Some (false, p, [])
  | Some _ => exists p' freed, r = Some (true, p', freed) /\ wf (S l) p' /\ Forall (fun q => q = zero_layer) freed /\
      forall i, get (S l) p' i = if decide (i mod width (S l) = id mod width (S l)) then None else get (S l) p i
  end.

Lemma same_low l i j : i mod width (S l) = j mod width (S l) <-> digit l i = digit l j /\ i mod width l = j mod width l.
Proof.
  rewrite !mod_width_S. pose proof (Z.mod_pos_bound i _ (width_positive l)). pose proof (Z.mod_pos_bound j _ (width_positive l)). split; [intros E; assert (digit l i = digit l j) by nia; split; [done | lia] | by intros [-> ->]].
Qed.

(** The layer after the change of slot [n] and of its bit. *)
Lemma cleared_ok l b ary c n old new d : wf (S l) (Layer b ary c) -> ary !! n = Some old -> wf l new -> full l new = false -> c - d = c - weight old + weight new ->
  wf (S l) (Layer (Z.clearbit b (Z.of_nat n)) (<[n := new]> ary) (c - d)).
Proof. intros W Ho Wn Fn Hc. eapply wf_update; [exact W | done | done | apply clearbit_u32, W | done |]. intros i Hi. rewrite clearbit_at. by destruct (decide (i = n)). Qed.

Lemma get_layer l b ary c i : get (S l) (Layer b ary c) i = match ary !! digit l i with Some s => get l s i | None => None end.
Proof. done. Qed.

Lemma remove_loop_ok l id : forall p, wf (S l) p -> removes l id p (remove_loop l id p).
Proof.
  induction l as [| l IH]; intros p W; (destruct p as [| v | b ary c]; [done | done |]); assert (length ary = 32%nat) as L by apply W.
  - destruct (wf_child W _ (digit_lt 0 id)) as (s & Es & Ws & Eb). unfold removes. rewrite (get_layer 0). cbn [remove_loop]. rewrite Es, Eb. destruct s as [| v | ? ? ?]; [done | | done]. cbn [full]. change (get 0 (Ptr v) id) with (Some v). cbv iota.
    destruct (release_spec 0 (Z.clearbit b (Z.of_nat (digit 0 id))) (<[digit 0 id := Null]> ary) c []) as (p' & freed & -> & W' & G & F); [eapply cleared_ok; [exact W | exact Es | done | done | cbn; lia] | done |].
    exists p', freed. split; [done |]. split; [done |]. split; [done |]. intros i. rewrite G, (get_update 0 b _ ary c) by (done || apply digit_lt). pose proof (same_low 0 i id) as Hl. change (width 0) with 1 in Hl. rewrite !Z.mod_1_r in Hl.
    destruct (decide (digit 0 i = digit 0 id)), (decide (_ = _)); tauto || done.
  - destruct (wf_child W _ (digit_lt (S l) id)) as (s & Es & Ws & Eb). specialize (IH s Ws). unfold removes in *. rewrite (get_layer (S l)). cbn [remove_loop]. rewrite Es. cbn [mbind option_bind].
    destruct (get (S l) s id) as [v |] eqn:Gs.
    + destruct IH as (s' & freed & -> & W' & F & G). cbn [mbind option_bind andb]. assert (full (S l) s' = false) as Fs. { eapply (free_not_full _ _ id); [done |]. rewrite G. by rewrite decide_True. }
      assert (is_null s = false) as Ns by (destruct s; done). 
      assert (forall bb cc i, get (S (S l)) (Layer bb (<[digit (S l) id := s']> ary) cc) i = if decide (i mod width (S (S l)) = id mod width (S (S l))) then None else get (S (S l)) (Layer b ary c) i) as G2.
      { intros bb cc i. rewrite (get_update (S l) b _ ary c) by (done || apply digit_lt). pose proof (same_low (S l) i id) as Hl. destruct (decide (digit (S l) i = digit (S l) id)) as [E |]; [| rewrite decide_False; tauto].
        rewrite G, get_layer, E, Es. destruct (decide (i mod width (S l) = _)), (decide (i mod width (S (S l)) = _)); tauto || done. }
      destruct (is_null s') eqn:N'.
      * destruct (release_spec (S l) (Z.clearbit b (Z.of_nat (digit (S l) id))) (<[digit (S l) id := s']> ary) c freed) as (p' & freed' & -> & Wp & Gp & Fp); [| done |].
        { eapply cleared_ok; [exact W | exact Es | done | done |]. unfold weight_by. rewrite Ns, N'. lia. }
        exists p', freed'. split; [done |]. split; [done |]. split; [done |]. intros i. by rewrite Gp, G2.
      * eexists _, freed. split; [done |]. split; [| split; [done | by apply G2]]. replace c with (c - 0) by lia. eapply cleared_ok; [exact W | exact Es | done | done |]. unfold weight_by. rewrite Ns, N'. lia.
    + rewrite IH. cbn [mbind option_bind andb]. rewrite clearbit_same, list_insert_id by (done || (rewrite Eb; by eapply free_not_full)). done.
Qed.

Lemma free_all freed : forall idp, Forall (fun p => p = zero_layer) freed -> foldl free_layer idp freed = give (length freed) idp.
Proof.
  induction freed as [| p freed IH]; intros idp F; cbn [foldl length].
  - destruct idp. unfold give. cbn. f_equal. lia.
  - apply Forall_cons in F as [-> F]. rewrite IH by done. apply give_S.
Qed.

Lemma give_ok k idp : free_ok idp -> free_ok (give k idp).
Proof. intros [F C]. split; cbn; [apply Forall_app; split; [by apply Forall_replicate | done] | rewrite length_app, length_replicate, C; lia]. Qed.

Definition without (f : Z -> option Z) (id i : Z) : option Z := if decide (i = id) then None else f i.

Lemma sub_remove_ok idp id : idr_ok idp -> 0 <= id < width (layers idp) -> contents idp id <> None -> exists idp' k, sub_remove idp id = Some (true, idp') /\ idr_ok idp' /\
  (forall i, contents idp' i = without (contents idp) id i) /\ length (id_free idp') = (length (id_free idp) + k)%nat.
Proof.
  intros (Ok & L & W & T) Hid Hu. unfold sub_remove, contents in *. rewrite view_get in Hu by done. destruct (layers idp) as [| l] eqn:El.
  { pose proof (proj2 T eq_refl) as N. destruct (top idp); done. }
  replace (MAX_LEVEL <=? S l)%nat with false by (unfold MAX_LEVEL; symmetry; apply Nat.leb_gt; lia). cbn [Nat.sub]. rewrite Nat.sub_0_r. pose proof (remove_loop_ok l id (top idp) W) as R. unfold removes in R.
  destruct (get (S l) (top idp) id) as [v |]; [| done]. destruct R as (p' & freed & -> & W' & F & G). cbn [mbind option_bind andb]. rewrite free_all by done.
  eexists _, (length freed). split; [done |]. destruct (is_null p') eqn:N; cbn [layers top id_free set_layers set_top give].
  - destruct p'; [| done | done]. split; [split; [by apply (give_ok (length freed) idp) | split; [cbn; lia | done]] |]. split; [| rewrite length_app, length_replicate; lia].
    intros i. unfold without. replace (view 0 Null i) with (@None Z) by (unfold view; by destruct (decide _)). destruct (decide (i = id)) as [| Hne]; [done |]. unfold view. destruct (decide _) as [Hi |]; [| done].
    specialize (G i). rewrite get_null, !Z.mod_small, decide_False in G by done. done.
  - rewrite El. split; [split; [by apply (give_ok (length freed) idp) | cbn [layers top set_top give]; rewrite El, N; split; [lia | done]] |]. split; [| rewrite length_app, length_replicate; lia].
    intros i. unfold view, without. destruct (decide (0 <= i < width (S l))) as [Hi |]; [| by destruct (decide (i = id))]. by rewrite G, !Z.mod_small by done.
Qed.

(** A single branch at slot 0 is the whole tree. *)
Lemma drop_layer_ok idp : idr_ok idp -> exists idp' k, drop_layer idp = Some idp' /\ idr_ok idp' /\ (forall i, contents idp' i = contents idp i) /\ length (id_free idp') = (length (id_free idp) + k)%nat.
Proof.
  intros Ok. assert (exists idp' k, Some idp = Some idp' /\ idr_ok idp' /\ (forall i, contents idp' i = contents idp i) /\ length (id_free idp') = (length (id_free idp) + k)%nat) as Same by (exists idp, 0%nat; split_and!; done || lia).
  destruct Ok as (F & L & W & T). unfold drop_layer. destruct (top idp) as [| | b ary c] eqn:Et; [done | done |]. destruct ((c =? 1) && (1 <? layers idp)%nat) eqn:E; [| done]. apply andb_true_iff in E as [->%Z.eqb_eq Hl%Nat.ltb_lt].
  destruct (layers idp) as [| [| l]] eqn:El; [lia | lia |]. destruct (wf_child W 0 ltac:(lia)) as (s & Es & Ws & _). rewrite Es. cbn [mbind option_bind]. destruct (is_null s) eqn:N; [done |]. clear Same.
  pose proof W as (La & Hb & Hc & _). pose proof (filled_by_insert is_null ary 0 s Null Es) as Hf. unfold weight_by in Hf. rewrite N, <- Hc in Hf. cbn in Hf. apply (filled_by_0 is_null Null _ null_eq) in Hf. rewrite length_insert, La in Hf.
  eexists _, 1%nat. split; [done |]. cbn [Nat.sub]. split; [split |].
  - destruct F as [F1 F2]. split; cbn; [| lia]. constructor; [| done]. unfold clear_link, zero_layer. by rewrite Hf.
  - cbn [layers top set_layers set_top]. rewrite N. split; [lia |]. split; [done |]. split; [done | lia].
  - split; [| cbn; lia]. intros i. unfold contents. cbn [layers top set_layers set_top]. rewrite El, Et. unfold view. pose proof (width_positive (S l)). pose proof (width_S (S l)).
    destruct (decide (0 <= i < width (S (S l)))) as [Hi | Hi]; [| by rewrite decide_False by lia]. pose proof (digit_0 (S l) i Hi) as Hd. rewrite get_layer. destruct (decide (0 <= i < width (S l))) as [Hi2 | Hi2].
    + rewrite (proj2 Hd) by lia. by rewrite Es.
    + assert (digit (S l) i <> 0%nat) as Hd0 by (intros E; apply Hd in E; lia). rewrite <- (list_lookup_insert_ne ary 0 (digit (S l) i) Null) by done. rewrite Hf, lookup_replicate_2 by apply digit_lt. by rewrite get_null.
Qed.

Lemma remove_ok idp id : idr_ok idp -> 0 <= id < width (layers idp) -> contents idp id <> None -> exists r idp', idr_remove idp id = Some (true, r, idp') /\ idr_ok idp' /\
  (forall i, contents idp' i = without (contents idp) id i) /\ (r = None \/ r = Some zero_layer) /\ ((13 <= length (id_free idp))%nat -> (13 <= length (id_free idp'))%nat).
Proof.
  intros Ok Hid Hu. pose proof (width_mono (layers idp) 6 (proj1 (proj2 Ok))) as Hs. change (width 6) with 1073741824 in Hs. unfold idr_remove. rewrite mask_id by lia.
  destruct (sub_remove_ok idp id Ok Hid Hu) as (idp1 & k1 & -> & Ok1 & C1 & L1). cbn [mbind option_bind]. destruct (drop_layer_ok idp1 Ok1) as (idp2 & k2 & -> & Ok2 & C2 & L2). cbn [mbind option_bind].
  assert (forall i, contents idp2 i = without (contents idp) id i) as C by (intros i; by rewrite C2). destruct (Z.leb_spec IDR_FREE_MAX (id_free_cnt idp2)) as [H14 | H14].
  - destruct Ok2 as (F & Ok2). pose proof (proj2 F) as Cnt. rewrite Cnt in H14. pose proof (alloc_layer_ok idp2 F) as A. destruct (id_free idp2) as [| q rest] eqn:Hf; [cbn in H14; unfold IDR_FREE_MAX in H14; lia |]. rewrite A.
    eexists _, _. split; [done |]. split; [split; [apply take_free_ok; [rewrite Hf; cbn; lia | done] | done] |]. split; [done |]. split; [by right |]. intros _. cbn [id_free take_free]. rewrite Hf, skipn_cons, drop_0. cbn [length] in H14. unfold IDR_FREE_MAX in H14. lia.
  - eexists _, _. split; [done |]. split; [done |]. split; [done |]. split; [by left |]. lia.
Qed.

Lemma pre_get_ok n alloc : forall idp, idr_ok idp -> id_free_cnt idp + Z.of_nat n >= IDR_FREE_MAX -> exists r idp', pre_get_loop n alloc idp = (r, idp') /\ idr_ok idp' /\ (forall i, contents idp' i = contents idp i) /\ (length (id_free idp) <= length (id_free idp'))%nat /\
  (r = 1 /\ (14 <= length (id_free idp'))%nat \/ r = 0 /\ exists k, alloc k = false).
Proof.
  induction n as [| n IH]; intros idp Ok Hn; cbn [pre_get_loop]; (destruct (Z.ltb_spec (id_free_cnt idp) IDR_FREE_MAX) as [H | H]; [| exists 1, idp; split_and!; try done; left; split; [done |]; destruct Ok as ([_ C] & _); unfold IDR_FREE_MAX in H; lia]); [lia |].
  destruct (alloc n) eqn:A; [| exists 0, idp; split_and!; try done; right; split; [done | by exists n]].
  destruct (IH (free_layer idp zero_layer)) as (r & idp' & -> & R1 & R2 & R3 & R4); [| cbn; lia | exists r, idp'; split_and!; try done; cbn in R3; lia].
  destruct Ok as ([F C] & L). split; [| done]. split; cbn; [by constructor | lia].
Qed.

(** ** The promise to the callers *)

Inductive op := Pre_get (alloc : nat -> bool) | Get_new (ptr : Z) | Get_new_above (ptr start : Z) | Remove (id : Z) | Find (id : Z).

(** The result and the new identifier, if there is one; for a removal 1 is the warning. *)
Definition exec (x : op) (idp : idr) : option (Z * option Z * idr) :=
  match x with
  | Pre_get alloc => let '(r, idp) := idr_pre_get idp alloc in Some (r, None, idp)
  | Get_new ptr => idr_get_new idp ptr
  | Get_new_above ptr start => idr_get_new_above idp ptr start
  | Remove id => '(found, _, idp) ← idr_remove idp id; Some (if (found : bool) then 0 else 1, None, idp)
  | Find id => v ← idr_find idp id; Some (v, None, idp)
  end.

(** The identifiers in use with their pointers, and whether layers are in reserve. *)
Record ids := mk_ids { held : gmap Z Z; ready : bool }.

(** What callers must keep to: fewer than 2^30 identifiers, removing only what is in use. *)
Definition allowed (s : ids) (x : op) : Prop :=
  match x with
  | Pre_get _ => True
  | Get_new _ => exists j, 0 <= j < 1073741824 /\ held s !! j = None
  | Get_new_above _ start => 0 <= start /\ (exists j, start <= j < 1073741824 /\ held s !! j = None) /\ search_safe (fun i => held s !! i) start
  | Remove id => is_Some (held s !! id)
  | Find id => 0 <= id < 2147483648
  end.

Definition new_id (s : ids) (ptr start : Z) (a : Z * option Z) (s' : ids) : Prop :=
  (exists j, a = (0, Some j) /\ least_free (fun i => held s !! i) start j /\ s' = mk_ids (<[j := ptr]> (held s)) false) \/ (a = (- EAGAIN, None) /\ ready s = false /\ s' = s).

Definition correct (s : ids) (x : op) (a : Z * option Z) (s' : ids) : Prop :=
  match x with
  | Pre_get alloc => a = (1, None) /\ s' = mk_ids (held s) true \/ a = (0, None) /\ (exists k, alloc k = false) /\ s' = s
  | Get_new ptr => new_id s ptr 0 a s'
  | Get_new_above ptr start => new_id s ptr start a s'
  | Remove id => a = (0, None) /\ s' = mk_ids (delete id (held s)) (ready s)
  | Find id => a = (default 0 (held s !! id), None) /\ s' = s
  end.

(** Every call of the sequence, as long as it is allowed, returns a correct answer. *)
Fixpoint behaves (s : ids) (xs : list op) (idp : idr) : Prop :=
  match xs with
  | [] => True
  | x :: xs => allowed s x -> exists a idp' s', exec x idp = Some (a.1, a.2, idp') /\ correct s x a s' /\ behaves s' xs idp'
  end.

Definition matches (idp : idr) (s : ids) : Prop := idr_ok idp /\ (forall i, contents idp i = held s !! i) /\ (ready s = true -> (13 <= length (id_free idp))%nat).

Lemma search_safe_low f start : 0 <= start < 992 -> search_safe f start.
Proof.
  intros H k Hk Hd. exfalso. rewrite digit_eq in Hd. pose proof (width_positive k). assert (32 <= width k) by (apply (width_mono 1 k); lia). assert (start / width k < 31) by (apply Z.div_lt_upper_bound; nia).
  pose proof (Z.div_pos start (width k) ltac:(lia) ltac:(lia)). rewrite Z.mod_small in Hd by lia. lia.
Qed.

Lemma search_safe_free (f : Z -> option Z) start : f start = None -> search_safe f start.
Proof. intros H k _ _. left. exists start. split; [lia | done]. Qed.

Lemma new_id_ok idp s ptr start r : matches idp s -> 0 <= start -> (exists j, start <= j < 1073741824 /\ held s !! j = None) -> search_safe (fun i => held s !! i) start ->
  r = idr_get_new_above_int idp ptr start ->
  exists a idp' s', (let '(rv, idp) := default (0, idp) r in r = Some (rv, idp) /\ (if rv <? 0 then (if rv =? -1 then (- EAGAIN, None, idp) else (- ENOSPC, None, idp)) else (0, Some rv, idp)) = (a.1, a.2, idp')) /\
    new_id s ptr start a s' /\ matches idp' s'.
Proof.
  intros (Ok & C & Rd) Hs (j0 & Hj & Hf) Safe ->. destruct (get_new_above_ok idp ptr start j0) as [(j & idp' & -> & J1 & J2 & J3 & J4) | (idp' & -> & F1 & F2 & F3)];
    [done | lia | change (width 6) with 1073741824; lia | by rewrite C | by eapply search_safe_ext; [| exact Safe] | |].
  - exists (0, Some j), idp', (mk_ids (<[j := ptr]> (held s)) false). cbn [default from_option]. split; [split; [done |]; by replace (j <? 0) with false by lia |]. split.
    + left. exists j. split; [done |]. split; [by eapply least_free_ext; [| exact J2] |]. done.
    + split; [done |]. split; [| done]. intros i. rewrite J4. cbn [held]. destruct (decide (i = j)) as [-> | Hne]; [by rewrite lookup_insert_eq | by rewrite lookup_insert_ne, C].
  - exists (- EAGAIN, None), idp', s. split; [done |]. assert (ready s = false) as Hr. { destruct (ready s); [specialize (Rd eq_refl); lia | done]. } split; [by right |]. split; [done |]. split; [intros i; by rewrite F3 | by rewrite Hr].
Qed.

Lemma exec_ok x idp s : matches idp s -> allowed s x -> exists a idp' s', exec x idp = Some (a.1, a.2, idp') /\ correct s x a s' /\ matches idp' s'.
Proof.
  intros M A. destruct x as [alloc | ptr | ptr start | id | id]; cbn [exec allowed correct] in *.
  - destruct M as (Ok & C & Rd). unfold idr_pre_get. destruct (pre_get_ok (Z.to_nat (IDR_FREE_MAX - id_free_cnt idp)) alloc idp Ok ltac:(lia)) as (r & idp' & -> & O1 & O2 & O3 & [[-> L] | [-> F]]).
    + exists (1, None), idp', (mk_ids (held s) true). split; [done |]. split; [by left |]. split; [done |]. split; [intros i; by rewrite O2 | cbn; lia].
    + exists (0, None), idp', s. split; [done |]. split; [by right |]. split; [done |]. split; [intros i; by rewrite O2 | intros Hr; specialize (Rd Hr); lia].
  - destruct (new_id_ok idp s ptr 0 _ M ltac:(lia) A (search_safe_low _ 0 ltac:(lia)) eq_refl) as (a & idp' & s' & E & H). exists a, idp', s'. split; [| done]. unfold idr_get_new.
    destruct (idr_get_new_above_int idp ptr 0) as [[rv idp1] |]; cbn in E |- *; destruct E as [E1 E2]; [by rewrite E2 | done].
  - destruct A as (A1 & A2 & A3). destruct (new_id_ok idp s ptr start _ M A1 A2 A3 eq_refl) as (a & idp' & s' & E & H). exists a, idp', s'. split; [| done]. unfold idr_get_new_above.
    destruct (idr_get_new_above_int idp ptr start) as [[rv idp1] |]; cbn in E |- *; destruct E as [E1 E2]; [by rewrite E2 | done].
  - destruct M as (Ok & C & Rd). assert (contents idp id <> None) as Hu by (rewrite C; destruct A as [v ->]; done). assert (0 <= id < width (layers idp)) as Hid.
    { unfold contents, view in Hu. by destruct (decide (0 <= id < width (layers idp))). }
    destruct (remove_ok idp id Ok Hid Hu) as (r & idp' & -> & O1 & O2 & _ & O3). exists (0, None), idp', (mk_ids (delete id (held s)) (ready s)). split; [done |]. split; [done |]. split; [done |]. split; [| cbn; auto].
    intros i. rewrite O2. unfold without. cbn [held]. destruct (decide (i = id)) as [-> | Hne]; [by rewrite lookup_delete_eq | by rewrite lookup_delete_ne, C].
  - pose proof M as (Ok & C & _). rewrite (find_ok idp id Ok A), C. exists (default 0 (held s !! id), None), idp, s. done.
Qed.

Lemma behaves_ok xs : forall idp s, matches idp s -> behaves s xs idp.
Proof. induction xs as [| x xs IH]; intros idp s M; [done |]. intros A. destruct (exec_ok x idp s M A) as (a & idp' & s' & E & C & M'). exists a, idp', s'. auto. Qed.

(** C15. An idr behaves as a map from identifiers to pointers through any sequence of
    calls, up to the first one in which the caller does not do its part ([allowed]).
    The callers' part: idr_get_new and idr_get_new_above are only called while an
    identifier below 2^30 is free from the start on; the start is one from which the
    search does not come back from below the last slot of a layer ([search_safe]: all
    starts below 992 and all that are themselves free are such); only identifiers in use
    are removed; and idr_find is given a 31-bit identifier. Then idr_get_new gives the
    least identifier that is not in use, idr_get_new_above the least one from the start
    on, they fail only for lack of memory and never when idr_pre_get has succeeded since
    the last identifier was given out, idr_remove frees exactly its identifier and
    idr_find returns its pointer, or NULL. ([wrapped_search], [remove_aliases] and
    [seven_layers] are what happens otherwise.) *)
Theorem idr_refines xs : behaves (mk_ids ∅ false) xs idr_init.
Proof. apply behaves_ok. split; [| split; [| done]]; [split; [by split | by split; [cbn; lia |]] |]. intros i. unfold contents, view. by destruct (decide _). Qed.

(** ** Examples *)

(** The calls of a caller that keeps to its part, with the states the map goes through. *)
Lemma idr_refines_witness :
  let xs := [Pre_get (fun _ => true); Get_new 7; Find 0; Get_new_above 8 40; Remove 0] in
  behaves (mk_ids ∅ false) xs idr_init /\
  allowed (mk_ids ∅ true) (Get_new 7) /\ allowed (mk_ids {[0 := 7]} false) (Find 0) /\
  allowed (mk_ids {[0 := 7]} false) (Get_new_above 8 40) /\ allowed (mk_ids {[0 := 7]} false) (Remove 0).
Proof.
  split; [apply idr_refines |]. cbn [allowed held]. split; [exists 0; split; [lia | done] |]. split; [lia |].
  split; [| by exists 7]. split; [lia |]. split; [exists 40; split; [lia | done] |]. apply search_safe_low. lia.
Defined.

Definition reserve (idp : idr) : idr := (idr_pre_get idp (fun _ => true)).2.

Definition ex_new (ptr start : Z) (idp : idr) : idr := match idr_get_new_above (reserve idp) ptr start with Some (_, _, idp) => idp | None => idp end.

(** Identifier 1023 is taken and the next one from 1023 on is asked for: the search goes on in slot 0 of the layer it has left; identifier 1024 is given out, but not found, and
    identifier 0, which nobody has, is. *)
Lemma wrapped_search : let idp := ex_new 7 1023 idr_init in
  (fst <$> idr_get_new_above (reserve idp) 8 1023) = Some (0, Some 1024) /\ idr_find (ex_new 8 1023 idp) 1024 = Some 0 /\ idr_find (ex_new 8 1023 idp) 0 = Some 8.
Proof. by vm_compute. Qed.

(** Removing an identifier above the tree takes another one out: 32 for 0. *)
Lemma remove_aliases : let idp := ex_new 7 0 idr_init in idr_find idp 0 = Some 7 /\ idr_find idp 32 = Some 0 /\ match idr_remove idp 32 with Some (found, _, idp) => found = true /\ idr_find idp 0 = Some 0 | None => False end.
Proof. by vm_compute. Qed.

(** An identifier of 2^30 or more needs a seventh layer, for which [pa] has no room. *)
Lemma seven_layers : idr_get_new_above (reserve idr_init) 7 1073741824 = None.
Proof. by vm_compute. Qed.
