(* ===== verification/IpcUtil.v ===== *)
(** * Identifiers of System V IPC objects: ipc/util.c, ipc/util.h, include/linux/ipc.h

    Semaphore sets, message queues and shared segments are kept in a table of
    pointers; the identifier a process sees combines the place in the table with a
    sequence number, so that an identifier of a removed object is not taken for the
    object that has its place now. The table is a list of optional objects; an object
    of any type has a [kern_ipc_perm] ([IpcObject]). [None] is an oops. The reference
    counts that keep a removed object's memory for those who hold a pointer to it are
    with the users of the table; the copying of permissions to user space is not
    modelled. *)

From stdpp Require Import list gmap.
From S2P Require Import Prelude.

Definition IPCMNI : Z := 32768.
Definition SEQ_MULTIPLIER : Z := IPCMNI.
Definition USHRT_MAX : Z := 65535.
Definition IPC_PRIVATE : Z := 0.
Definition IPC_CREAT : Z := 512.
Definition IPC_EXCL : Z := 1024.
Definition IPC_NOWAIT : Z := 2048.
Definition IPC_64 : Z := 256.
Definition CAP_IPC_OWNER : Z := 15.

Record kern_ipc_perm := mk_perm {
  deleted : bool; p_key : Z; p_uid : Z; p_gid : Z; p_cuid : Z; p_cgid : Z; p_mode : Z; p_seq : Z }.

(** What the table needs of the objects in it. *)
Class IpcObject (A : Type) := {
  perm : A -> kern_ipc_perm;
  with_perm : kern_ipc_perm -> A -> A;
  perm_with_perm : forall p a, perm (with_perm p a) = p
}.

(** The calling process. *)
Record subject := mk_subject { s_euid : Z; s_egid : Z; s_in_group_p : Z -> bool; s_capable : Z -> bool }.

Section ids.
Context {A : Type} `{IO : IpcObject A}.

Record ipc_ids := mk_ids { in_use : Z; max_id : Z; ids_seq : Z; seq_max : Z; entries : list (option A) }.

(** [alloc] is the answer of [ipc_rcu_alloc]; without memory the table is [nullentry]. *)
Definition ipc_init_ids (size : Z) (alloc : bool) : ipc_ids :=
  let size := if IPCMNI <? size then IPCMNI else size in
  let seq_limit := 2147483647 / SEQ_MULTIPLIER in
  mk_ids 0 (-1) 0 (if USHRT_MAX <? seq_limit then USHRT_MAX else seq_limit)
    (replicate (Z.to_nat (if alloc then size else 0)) None).

(** The [for] loop of [ipc_findkey] from [id] on, [n] entries left. *)
Fixpoint findkey_loop (n : nat) (es : list (option A)) (id : nat) (key : Z) : option Z :=
  match n with
  | O => Some (-1)
  | S n =>
      p ← es !! id;
      match p with
      | Some a => if key =? p_key (perm a) then Some (Z.of_nat id) else findkey_loop n es (S id) key
      | None => findkey_loop n es (S id) key
      end
  end.

Definition ipc_findkey (ids : ipc_ids) (key : Z) : option Z :=
  findkey_loop (Z.to_nat (max_id ids + 1)) (entries ids) 0 key.

(** The new array has room for [newsize] entries and the old ones at the same places. *)
Definition grow_ary (ids : ipc_ids) (newsize : Z) (alloc : bool) : Z * ipc_ids :=
  let size := Z.of_nat (length (entries ids)) in
  let newsize := if IPCMNI <? newsize then IPCMNI else newsize in
  if newsize <=? size then (newsize, ids)
  else if negb alloc then (size, ids)
  else (newsize, mk_ids (in_use ids) (max_id ids) (ids_seq ids) (seq_max ids)
                   (entries ids ++ replicate (Z.to_nat (newsize - size)) None)).

(** The first free place below [size], from [id] on. *)
Fixpoint free_slot (n : nat) (es : list (option A)) (id : nat) : option (option nat) :=
  match n with
  | O => Some None
  | S n => p ← es !! id; match p with None => Some (Some id) | Some _ => free_slot n es (S id) end
  end.

Definition ipc_addid (ids : ipc_ids) (new : A) (size : Z) (alloc : bool) (cur : subject) : option (Z * ipc_ids) :=
  let '(size, ids) := grow_ary ids size alloc in
  r ← free_slot (Z.to_nat size) (entries ids) 0;
  match r with
  | None => Some (-1, ids)
  | Some id =>
      let q := perm new in
      let seq' := u16 (ids_seq ids + 1) in
      let new := with_perm (mk_perm false (p_key q) (s_euid cur) (s_egid cur) (s_euid cur) (s_egid cur) (p_mode q) (ids_seq ids)) new in
      Some (Z.of_nat id,
            mk_ids (in_use ids + 1) (if max_id ids <? Z.of_nat id then Z.of_nat id else max_id ids)
              (if seq_max ids <? seq' then 0 else seq') (seq_max ids) (<[id := Some new]> (entries ids)))
  end.

(** [do { lid--; } while (p[lid] == NULL)], ending at -1. *)
Fixpoint last_used (es : list (option A)) (lid : nat) : option Z :=
  match lid with
  | O => Some (-1)
  | S lid => p ← es !! lid; match p with Some _ => Some (Z.of_nat lid) | None => last_used es lid end
  end.

Definition ipc_rmid (ids : ipc_ids) (id : Z) : option (A * ipc_ids) :=
  let lid := Z.to_nat (Z.rem id SEQ_MULTIPLIER) in
  p ← entries ids !! lid;
  a ← p;
  let es := <[lid := None]> (entries ids) in
  m ← (if Z.of_nat lid =? max_id ids then last_used es lid else Some (max_id ids));
  let q := perm a in
  Some (with_perm (mk_perm true (p_key q) (p_uid q) (p_gid q) (p_cuid q) (p_cgid q) (p_mode q) (p_seq q)) a,
        mk_ids (in_use ids - 1) m (ids_seq ids) (seq_max ids) es).

(** Identifiers are not negative: the system calls refuse them. [NULL] for one outside the table, a free place or a removed object. *)
Definition ipc_lock (ids : ipc_ids) (id : Z) : option A :=
  match entries ids !! Z.to_nat (Z.rem id SEQ_MULTIPLIER) with
  | Some (Some a) => if deleted (perm a) then None else Some a
  | _ => None
  end.

(** Writing through the pointer that [ipc_lock] returned. *)
Definition ipc_store (ids : ipc_ids) (id : Z) (a : A) : ipc_ids :=
  mk_ids (in_use ids) (max_id ids) (ids_seq ids) (seq_max ids) (<[Z.to_nat (Z.rem id SEQ_MULTIPLIER) := Some a]> (entries ids)).

(** [ipc_lock_by_ptr] and the test of [deleted]: the object at address [ptr], if it is in the table. *)
Fixpoint find_ptr (addr : A -> Z) (es : list (option A)) (ptr : Z) (lid : nat) : option (nat * A) :=
  match es with
  | [] => None
  | Some a :: es => if addr a =? ptr then Some (lid, a) else find_ptr addr es ptr (S lid)
  | None :: es => find_ptr addr es ptr (S lid)
  end.

Definition ipc_checkid (a : A) (uid : Z) : bool := negb (Z.quot uid SEQ_MULTIPLIER =? p_seq (perm a)).

(** [flag] is a short; 0 is success and -1 failure. *)
Definition ipcperms (cur : subject) (ipcp : kern_ipc_perm) (flag : Z) : Z :=
  let requested_mode := Z.lor (Z.lor (Z.shiftr flag 6) (Z.shiftr flag 3)) flag in
  let granted_mode :=
    if (s_euid cur =? p_cuid ipcp) || (s_euid cur =? p_uid ipcp) then Z.shiftr (p_mode ipcp) 6
    else if s_in_group_p cur (p_cgid ipcp) || s_in_group_p cur (p_gid ipcp) then Z.shiftr (p_mode ipcp) 3
    else p_mode ipcp in
  if negb (Z.land (Z.ldiff requested_mode granted_mode) 7 =? 0) && negb (s_capable cur CAP_IPC_OWNER) then -1 else 0.

End ids.

Arguments ipc_ids : clear implicits.

Definition ipc_buildid (id seq : Z) : Z := s32 (SEQ_MULTIPLIER * seq + id).

(** The version and the command. *)
Definition ipc_parse_version (cmd : Z) : Z * Z :=
  if negb (Z.land cmd IPC_64 =? 0) then (IPC_64, Z.lxor cmd IPC_64) else (0, cmd).

(** * Correctness *)

Section ids_facts.
Context {A : Type} `{IO : IpcObject A}.
Implicit Types (ids : ipc_ids A) (es : list (option A)).

Definition used (es : list (option A)) : Z := Z.of_nat (length (filter (fun o : option A => is_Some o) es)).

Definition live (ids : ipc_ids A) (lid : nat) (a : A) : Prop := entries ids !! lid = Some (Some a).

Definition ids_ok (ids : ipc_ids A) : Prop :=
  in_use ids = used (entries ids) /\ -1 <= max_id ids < Z.of_nat (length (entries ids)) /\
  (forall lid a, live ids lid a -> Z.of_nat lid <= max_id ids) /\
  (0 <= max_id ids -> exists a, live ids (Z.to_nat (max_id ids)) a) /\
  Z.of_nat (length (entries ids)) <= IPCMNI /\ 0 <= ids_seq ids <= 65535 /\ seq_max ids = 65535 /\
  (forall lid a, live ids lid a -> deleted (perm a) = false /\ 0 <= p_seq (perm a) <= 65535).

Lemma used_insert (es : list (option A)) i (o o' : option A) : es !! i = Some o ->
  used (<[i := o']> es) = used es - (if o then 1 else 0) + (if o' then 1 else 0).
Proof.
  unfold used. revert i. induction es as [| x es IH]; intros [| i] Hi; simpl in *; [done | done | |].
  - injection Hi as ->. destruct o, o'; simpl; rewrite ?filter_cons_True, ?filter_cons_False by (by eexists || by intros [? ?]); simpl; lia.
  - specialize (IH i Hi). rewrite !filter_cons. case_decide; simpl; lia.
Qed.

Lemma used_app_none es n : used (es ++ replicate n None) = used es.
Proof.
  unfold used. rewrite filter_app. replace (filter _ (replicate n None)) with (@nil (option A)); [by rewrite app_nil_r |].
  induction n; simpl; [done |]. rewrite filter_cons_False; [done |]. by intros [? ?].
Qed.

Lemma init_ok size alloc : 0 <= size -> ids_ok (ipc_init_ids size alloc).
Proof.
  intros Hs. unfold ids_ok, ipc_init_ids, live. cbn [in_use max_id ids_seq seq_max entries].
  assert (forall n lid (a : A), replicate n None !! lid = Some (Some a) -> False) as No by (intros n lid a [? _]%lookup_replicate; done).
  split; [by rewrite <- (app_nil_l (replicate _ _)), used_app_none |]. split; [split; [done |]; apply Z.lt_le_trans with 0; [done | apply Nat2Z.is_nonneg] |].
  split; [by intros ? ? ?%No |]. split; [lia |].
  split; [rewrite length_replicate; unfold IPCMNI; destruct alloc; [destruct (Z.ltb_spec 32768 size) |]; lia |]. split; [lia |]. split; [done |]. by intros ? ? ?%No.
Qed.

(** A key is found at its first place. *)
Lemma findkey_loop_spec n es id key : (id + n <= length es)%nat ->
  exists r, findkey_loop n es id key = Some r /\
    (r = -1 /\ (forall i a, (id <= i < id + n)%nat -> es !! i = Some (Some a) -> p_key (perm a) <> key) \/
     exists i a, r = Z.of_nat i /\ (id <= i < id + n)%nat /\ es !! i = Some (Some a) /\ p_key (perm a) = key).
Proof.
  revert id. induction n as [| n IH]; intros id Hl; cbn [findkey_loop].
  { exists (-1). split; [done |]. left. split; [done |]. lia. }
  destruct (lookup_lt_is_Some_2 es id) as [o Ho]; [lia |]. rewrite Ho. cbn [mbind option_bind].
  assert ((forall a, o = Some a -> p_key (perm a) <> key) -> exists r, findkey_loop n es (S id) key = Some r /\
    (r = -1 /\ (forall i a, (id <= i < id + S n)%nat -> es !! i = Some (Some a) -> p_key (perm a) <> key) \/
     exists i a, r = Z.of_nat i /\ (id <= i < id + S n)%nat /\ es !! i = Some (Some a) /\ p_key (perm a) = key)) as Next.
  { intros Hk. destruct (IH (S id) ltac:(lia)) as (r & -> & D). exists r. split; [done |].
    destruct D as [(-> & D) | (i & a & -> & ? & ?)]; [left | right; exists i, a; split; [done |]; split; [lia | done]].
    split; [done |]. intros i a Hi Ha. destruct (decide (i = id)) as [-> |]; [apply Hk; congruence |]. apply (D i a); [lia | done]. }
  destruct o as [a |]; [| by apply Next]. destruct (Z.eqb_spec key (p_key (perm a))) as [E | E]; [| apply Next; congruence].
  exists (Z.of_nat id). split; [done |]. right. exists id, a. split; [done |]. split; [lia | done].
Qed.

Lemma ipc_findkey_spec ids key : ids_ok ids ->
  exists r, ipc_findkey ids key = Some r /\
    (r = -1 /\ (forall i a, live ids i a -> p_key (perm a) <> key) \/
     exists i a, r = Z.of_nat i /\ live ids i a /\ p_key (perm a) = key).
Proof.
  intros (_ & Hm & Hl & _). destruct (findkey_loop_spec (Z.to_nat (max_id ids + 1)) (entries ids) 0 key) as (r & E & D); [lia |].
  exists r. split; [done |]. destruct D as [(-> & D) | (i & a & -> & _ & ?)]; [left | right; by exists i, a].
  split; [done |]. intros i a La. apply (D i a); [| done]. specialize (Hl i a La). lia.
Qed.

Lemma grow_ary_spec ids newsize alloc : ids_ok ids -> 0 <= newsize ->
  exists size ids', grow_ary ids newsize alloc = (size, ids') /\ ids_ok ids' /\ 0 <= size <= Z.of_nat (length (entries ids')) /\
    ids_seq ids' = ids_seq ids /\ in_use ids' = in_use ids /\ (forall lid a, live ids' lid a <-> live ids lid a).
Proof.
  intros Hok Hn. unfold grow_ary. set (m := if IPCMNI <? newsize then IPCMNI else newsize). assert (0 <= m <= 32768) as Hm by (unfold m, IPCMNI; case_match; lia).
  destruct (Z.leb_spec m (Z.of_nat (length (entries ids)))); [exists m, ids; split; [done |]; split; [done |]; split; [lia | done] |].
  destruct alloc; [| exists (Z.of_nat (length (entries ids))), ids; split; [done |]; split; [done |]; split; [lia | done]].
  eexists _, _. split; [done |].
  assert (forall lid a, (entries ids ++ replicate (Z.to_nat (m - Z.of_nat (length (entries ids)))) None) !! lid = Some (Some a) <-> live ids lid a) as L.
  { intros lid a. unfold live. split; [| by apply lookup_app_l_Some]. intros [? | [_ [? _]%lookup_replicate]]%lookup_app_Some; done. }
  destruct Hok as (Hu & Hmx & Hmax & Hlast & Hlen & Hs & Hsm & Hp).
  split; [| cbn [entries ids_seq in_use]; split; [rewrite length_app, length_replicate; lia | done]].
  unfold ids_ok, live. cbn [in_use max_id ids_seq seq_max entries]. rewrite used_app_none, length_app, length_replicate.
  split; [done |]. split; [lia |]. split; [intros lid a La; apply (Hmax lid a); by apply L |].
  split; [intros H0; destruct (Hlast H0) as [a La]; exists a; by apply L |]. split; [unfold IPCMNI; lia |]. split; [done |]. split; [done |].
  intros lid a La. apply (Hp lid a). by apply L.
Qed.

Lemma free_slot_spec n es id : (id + n <= length es)%nat ->
  exists r, free_slot n es id = Some r /\
    match r with
    | Some i => (id <= i < id + n)%nat /\ es !! i = Some None /\ forall j, (id <= j < i)%nat -> exists a, es !! j = Some (Some a)
    | None => forall j, (id <= j < id + n)%nat -> exists a, es !! j = Some (Some a)
    end.
Proof.
  revert id. induction n as [| n IH]; intros id Hl; cbn [free_slot]; [exists None; split; [done |]; lia |].
  destruct (lookup_lt_is_Some_2 es id) as [o Ho]; [lia |]. rewrite Ho. cbn [mbind option_bind]. destruct o as [a |].
  - destruct (IH (S id) ltac:(lia)) as (r & -> & D). exists r. split; [done |]. destruct r as [i |].
    + destruct D as (? & ? & D). split; [lia |]. split; [done |]. intros j Hj. destruct (decide (j = id)) as [-> |]; [by exists a |]. apply D. lia.
    + intros j Hj. destruct (decide (j = id)) as [-> |]; [by exists a |]. apply D. lia.
  - exists (Some id). split; [done |]. split; [lia |]. split; [done |]. lia.
Qed.

Lemma live_insert ids ids' lid o i b : entries ids' = <[lid := o]> (entries ids) -> (lid < length (entries ids))%nat ->
  live ids' i b <-> (i = lid /\ o = Some b) \/ (i <> lid /\ live ids i b).
Proof.
  intros E Hl. unfold live. rewrite E. destruct (decide (i = lid)) as [-> | Hne].
  - rewrite list_lookup_insert_eq by done. split; [intros [= ->]; by left | intros [[_ ->] | [? _]]; done].
  - rewrite list_lookup_insert_ne by done. split; [by right | intros [[? _] | [_ ?]]; done].
Qed.

(** The object as [ipc_addid] sets it up. *)
Definition fresh_perm (cur : subject) (seq : Z) (q : kern_ipc_perm) : kern_ipc_perm :=
  mk_perm false (p_key q) (s_euid cur) (s_egid cur) (s_euid cur) (s_egid cur) (p_mode q) seq.

Lemma next_seq ids : ids_ok ids ->
  (if seq_max ids <? u16 (ids_seq ids + 1) then 0 else u16 (ids_seq ids + 1)) = (ids_seq ids + 1) mod 65536.
Proof.
  intros (_ & _ & _ & _ & _ & Hs & -> & _). unfold u16. pose proof (Z.mod_pos_bound (ids_seq ids + 1) 65536 ltac:(lia)).
  destruct (Z.ltb_spec 65535 ((ids_seq ids + 1) mod 65536)); lia.
Qed.

Lemma ipc_addid_spec ids new size alloc cur : ids_ok ids -> 0 <= size ->
  exists r ids', ipc_addid ids new size alloc cur = Some (r, ids') /\ ids_ok ids' /\
    (r = -1 /\ ids_seq ids' = ids_seq ids /\ in_use ids' = in_use ids /\ (forall i b, live ids' i b <-> live ids i b) \/
     exists lid, r = Z.of_nat lid /\ Z.of_nat lid < IPCMNI /\ (forall b, ~ live ids lid b) /\ ids_seq ids' = (ids_seq ids + 1) mod 65536 /\
       in_use ids' = in_use ids + 1 /\
       forall i b, live ids' i b <-> (i = lid /\ b = with_perm (fresh_perm cur (ids_seq ids) (perm new)) new) \/ (i <> lid /\ live ids i b)).
Proof.
  intros Hok Hn. unfold ipc_addid. destruct (grow_ary_spec ids size alloc Hok Hn) as (sz & g & -> & Gok & Hsz & Es & Eu & L).
  destruct (free_slot_spec (Z.to_nat sz) (entries g) 0) as (r & -> & D); [lia |]. cbn [mbind option_bind]. destruct r as [lid |].
  2: { exists (-1), g. split; [done |]. split; [done |]. by left. }
  destruct D as (Hlid & Hfree & _). rewrite next_seq by done. set (new' := with_perm _ _). set (ids' := mk_ids _ _ _ _ _).
  assert ((lid < length (entries g))%nat) as Hl by (by eapply lookup_lt_Some).
  assert (forall i b, live ids' i b <-> (i = lid /\ b = new') \/ (i <> lid /\ live g i b)) as Lv.
  { intros i b. rewrite (live_insert g ids' lid (Some new') i b eq_refl Hl). naive_solver. }
  assert (new' = with_perm (fresh_perm cur (ids_seq ids) (perm new)) new) as En by (unfold new', fresh_perm; by rewrite Es).
  pose proof Gok as (Gu & Gm & Gmax & Glast & Glen & Gs & Gsm & Gp).
  exists (Z.of_nat lid), ids'. split; [done |]. split.
  - unfold ids_ok, ids'. cbn [in_use max_id ids_seq seq_max entries]. rewrite (used_insert _ _ _ _ Hfree), length_insert. fold ids'.
    split; [rewrite Gu; lia |]. split; [case_match; lia |].
    split; [intros i b [[-> _] | [_ Lb]]%Lv; [case_match; lia |]; specialize (Gmax i b Lb); case_match; lia |].
    split. { intros H0. destruct (Z.ltb_spec (max_id g) (Z.of_nat lid)) as [Hlt | Hlt].
      - exists new'. apply Lv. left. split; [lia | done].
      - destruct (Glast H0) as [a La]. destruct (decide (Z.to_nat (max_id g) = lid)) as [-> |]; [exists new'; apply Lv; by left |].
        exists a. apply Lv. by right. }
    split; [done |]. split; [pose proof (Z.mod_pos_bound (ids_seq g + 1) 65536 ltac:(lia)); lia |]. split; [done |].
    intros i b [[-> ->] | [_ Lb]]%Lv; [| by apply (Gp i)]. rewrite En, perm_with_perm. cbn [deleted p_seq fresh_perm]. split; [done | lia].
  - right. exists lid. split; [done |]. split; [unfold IPCMNI in *; lia |]. split; [intros b Lb%L; unfold live in Lb; congruence |].
    cbn [ids_seq in_use ids']. split; [by rewrite Es |]. split; [by rewrite Eu |]. intros i b. rewrite Lv, L, En. done.
Qed.

Lemma last_used_spec es lid : (lid <= length es)%nat ->
  exists m, last_used es lid = Some m /\ -1 <= m < Z.of_nat lid /\ (0 <= m -> exists a, es !! Z.to_nat m = Some (Some a)) /\
    forall i a, (i < lid)%nat -> es !! i = Some (Some a) -> Z.of_nat i <= m.
Proof.
  induction lid as [| lid IH]; intros Hl; cbn [last_used].
  { exists (-1). split; [done |]. split; [lia |]. split; [lia |]. lia. }
  destruct (lookup_lt_is_Some_2 es lid) as [o Ho]; [lia |]. rewrite Ho. cbn [mbind option_bind]. destruct o as [a |].
  - exists (Z.of_nat lid). split; [done |]. split; [lia |]. split; [intros _; exists a; by rewrite Nat2Z.id |]. lia.
  - destruct IH as (m & -> & Hm & Ha & Hi); [lia |]. exists m. split; [done |]. split; [lia |]. split; [done |].
    intros i a Hlt Hs. destruct (decide (i = lid)) as [-> |]; [congruence |]. apply (Hi i a); [lia | done].
Qed.

(** The place of an identifier. *)
Definition place (id : Z) : nat := Z.to_nat (Z.rem id SEQ_MULTIPLIER).

Lemma ipc_rmid_spec ids id a : ids_ok ids -> live ids (place id) a ->
  exists a' ids', ipc_rmid ids id = Some (a', ids') /\ ids_ok ids' /\ ids_seq ids' = ids_seq ids /\ in_use ids' = in_use ids - 1 /\
    (forall i b, live ids' i b <-> i <> place id /\ live ids i b).
Proof.
  intros (Hu & Hm & Hmax & Hlast & Hlen & Hs & Hsm & Hp) La. unfold ipc_rmid. fold (place id). rewrite La. cbn [mbind option_bind].
  pose proof (lookup_lt_Some _ _ _ La) as Hl. pose proof (Hmax _ _ La) as Hle.
  assert (exists m, (if Z.of_nat (place id) =? max_id ids then last_used (<[place id := None]> (entries ids)) (place id) else Some (max_id ids)) = Some m /\
    -1 <= m < Z.of_nat (length (entries ids)) /\ (0 <= m -> exists b, <[place id := None]> (entries ids) !! Z.to_nat m = Some (Some b)) /\
    forall i b, <[place id := None]> (entries ids) !! i = Some (Some b) -> Z.of_nat i <= m) as (m & -> & Hm' & Hb & Hi).
  { assert (forall i b, <[place id := None]> (entries ids) !! i = Some (Some b) -> i <> place id /\ live ids i b) as Li.
    { intros i b Hb. destruct (decide (i = place id)) as [-> | Hne]; [rewrite list_lookup_insert_eq in Hb by done; congruence |].
      rewrite list_lookup_insert_ne in Hb by done. done. }
    destruct (Z.eqb_spec (Z.of_nat (place id)) (max_id ids)) as [E | E].
    - destruct (last_used_spec (<[place id := None]> (entries ids)) (place id)) as (m & -> & ? & ? & Hi); [rewrite length_insert; lia |].
      exists m. split; [done |]. split; [lia |]. split; [done |]. intros i b Hb. destruct (Li i b Hb) as [Hne Lb]. specialize (Hmax i b Lb).
      apply (Hi i b); [lia | done].
    - exists (max_id ids). split; [done |]. split; [lia |]. split; [| intros i b [_ Lb]%Li; by apply (Hmax i b)].
      intros H0. destruct (Hlast H0) as [b Lb]. exists b. rewrite list_lookup_insert_ne by lia. done. }
  cbn [mbind option_bind]. eexists _, _. split; [done |].
  set (ids' := mk_ids _ _ _ _ _).
  assert (forall i b, live ids' i b <-> i <> place id /\ live ids i b) as Lv.
  { intros i b. rewrite (live_insert ids ids' (place id) None i b eq_refl Hl). naive_solver. }
  split; [| split; [done |]; split; [done |]; exact Lv].
  unfold ids_ok, ids'. cbn [in_use max_id ids_seq seq_max entries]. rewrite (used_insert _ _ _ _ La), length_insert. fold ids'.
  split; [rewrite Hu; lia |]. split; [done |]. split; [done |]. split; [done |]. split; [done |]. split; [done |]. split; [done |].
  intros i b [_ Lb]%Lv. by apply (Hp i).
Qed.

Lemma ipc_store_spec ids id a a' : ids_ok ids -> live ids (place id) a -> p_seq (perm a') = p_seq (perm a) -> deleted (perm a') = false ->
  ids_ok (ipc_store ids id a') /\ forall i b, live (ipc_store ids id a') i b <-> (i = place id /\ b = a') \/ (i <> place id /\ live ids i b).
Proof.
  intros (Hu & Hm & Hmax & Hlast & Hlen & Hs & Hsm & Hp) La Hq Hd. pose proof (lookup_lt_Some _ _ _ La) as Hl.
  assert (forall i b, live (ipc_store ids id a') i b <-> (i = place id /\ b = a') \/ (i <> place id /\ live ids i b)) as Lv.
  { intros i b. rewrite (live_insert ids (ipc_store ids id a') (place id) (Some a') i b eq_refl Hl). naive_solver. }
  split; [| done]. unfold ids_ok, ipc_store. cbn [in_use max_id ids_seq seq_max entries]. fold (place id). fold (ipc_store ids id a').
  rewrite (used_insert _ _ _ _ La), length_insert.
  split; [rewrite Hu; lia |]. split; [done |]. split; [intros i b [[-> _] | [_ Lb]]%Lv; [by apply (Hmax _ a) | by apply (Hmax i b)] |].
  split. { intros H0. destruct (Hlast H0) as [b Lb]. destruct (decide (Z.to_nat (max_id ids) = place id)) as [E |].
    - exists a'. apply Lv. by left. - exists b. apply Lv. by right. }
  split; [done |]. split; [done |]. split; [done |]. intros i b [[-> ->] | [_ Lb]]%Lv; [| by apply (Hp i)]. rewrite Hq, Hd. split; [done |]. exact (proj2 (Hp _ _ La)).
Qed.

Lemma live_range ids lid (a : A) : ids_ok ids -> live ids lid a ->
  0 <= Z.of_nat lid < IPCMNI /\ 0 <= p_seq (perm a) <= 65535.
Proof.
  intros (_ & _ & _ & _ & Hl & _ & _ & Hp) L. pose proof (lookup_lt_Some _ _ _ L). split; [lia |]. by apply (Hp lid a).
Qed.

Lemma rmid_entries ids ids' id a : ipc_rmid ids id = Some (a, ids') -> entries ids' = <[place id := None]> (entries ids).
Proof.
  unfold ipc_rmid. fold (place id). destruct (entries ids !! place id) as [[b |] |]; cbn [mbind option_bind]; [| done | done].
  destruct (if Z.of_nat (place id) =? max_id ids then _ else _); cbn [mbind option_bind]; [| done]. by intros [= _ <-].
Qed.

Lemma find_ptr_spec (addr : A -> Z) es ptr n : match find_ptr addr es ptr n with
  | Some (lid, a) => (n <= lid)%nat /\ es !! (lid - n)%nat = Some (Some a) /\ addr a = ptr
  | None => forall i a, es !! i = Some (Some a) -> addr a <> ptr end.
Proof.
  revert n. induction es as [| [a |] es IH]; intros n; cbn [find_ptr]; [by intros i a | |].
  - destruct (Z.eqb_spec (addr a) ptr) as [E | E]; [by rewrite Nat.sub_diag |]. specialize (IH (S n)). destruct (find_ptr addr es ptr (S n)) as [[lid b] |].
    + destruct IH as (? & Hb & ?). split; [lia |]. split; [| done]. by replace (lid - n)%nat with (S (lid - S n)) by lia.
    + intros [| i] b; cbn; [by intros [= <-] | apply IH].
  - specialize (IH (S n)). destruct (find_ptr addr es ptr (S n)) as [[lid b] |].
    + destruct IH as (? & Hb & ?). split; [lia |]. split; [| done]. by replace (lid - n)%nat with (S (lid - S n)) by lia.
    + intros [| i] b; cbn; [done | apply IH].
Qed.

Lemma find_ptr_live (addr : A -> Z) ids ptr : match find_ptr addr (entries ids) ptr 0 with
  | Some (lid, a) => live ids lid a /\ addr a = ptr
  | None => forall lid a, live ids lid a -> addr a <> ptr end.
Proof. pose proof (find_ptr_spec addr (entries ids) ptr 0) as H. destruct (find_ptr addr (entries ids) ptr 0) as [[lid a] |]; [| done]. rewrite Nat.sub_0_r in H. tauto. Qed.

Lemma addid_entries ids new size alloc cur r ids' : ids_ok ids -> 0 <= size -> ipc_addid ids new size alloc cur = Some (r, ids') ->
  exists n, r = -1 /\ entries ids' = entries ids ++ replicate n None \/
    exists lid, r = Z.of_nat lid /\ (entries ids ++ replicate n None) !! lid = Some None /\
      entries ids' = <[lid := Some (with_perm (fresh_perm cur (ids_seq ids) (perm new)) new)]> (entries ids ++ replicate n None).
Proof.
  intros Ok Hs E. unfold ipc_addid in E. destruct (grow_ary ids size alloc) as [sz g] eqn:Eg.
  assert (exists n, entries g = entries ids ++ replicate n None) as (n & En).
  { unfold grow_ary in Eg. destruct ((if IPCMNI <? size then IPCMNI else size) <=? Z.of_nat (length (entries ids))); [injection Eg as _ <-; exists 0%nat; by rewrite app_nil_r |].
    destruct alloc; cbn in Eg; [injection Eg as _ <-; by eexists | injection Eg as _ <-; exists 0%nat; by rewrite app_nil_r]. }
  destruct (grow_ary_spec ids size alloc Ok Hs) as (sz' & g' & Eg' & _ & Hsz & Es & _). rewrite Eg in Eg'. injection Eg' as <- <-. exists n.
  destruct (free_slot_spec (Z.to_nat sz) (entries g) 0) as (o & Eo & D); [lia |]. rewrite Eo in E. cbn [mbind option_bind] in E. rewrite <- En. destruct o as [lid |]; injection E as <- <-; [right | by left].
  destruct D as (_ & Hf & _). exists lid. split; [done |]. split; [done |]. cbn [entries]. unfold fresh_perm. by rewrite Es.
Qed.

Lemma place_small lid : Z.of_nat lid < IPCMNI -> place (Z.of_nat lid) = lid.
Proof. intros H. unfold place, SEQ_MULTIPLIER, IPCMNI in *. rewrite Z.rem_small by lia. lia. Qed.

(** ** Identifiers *)

(** An identifier fits an [int] and gives back its place and its sequence number. *)
Lemma ipc_buildid_spec lid seq : 0 <= lid < IPCMNI -> 0 <= seq <= 65535 ->
  ipc_buildid lid seq = SEQ_MULTIPLIER * seq + lid /\ 0 <= ipc_buildid lid seq <= 2147483647 /\
  place (ipc_buildid lid seq) = Z.to_nat lid /\ Z.quot (ipc_buildid lid seq) SEQ_MULTIPLIER = seq.
Proof.
  unfold ipc_buildid, place, SEQ_MULTIPLIER, IPCMNI. intros Hl Hs. rewrite s32_id by lia. split; [done |]. split; [lia |].
  rewrite Z.rem_mod_nonneg, Z.quot_div_nonneg by lia. rewrite Z.add_comm, Z.mul_comm, Z.mod_add, Z.div_add, Z.mod_small, Z.div_small by lia. done.
Qed.

Lemma ipc_checkid_spec a lid seq : 0 <= lid < IPCMNI -> 0 <= seq <= 65535 ->
  ipc_checkid a (ipc_buildid lid seq) = false <-> p_seq (perm a) = seq.
Proof.
  intros Hl Hs. unfold ipc_checkid. destruct (ipc_buildid_spec lid seq Hl Hs) as (_ & _ & _ & ->). rewrite negb_false_iff, Z.eqb_eq. split; congruence.
Qed.

Lemma ipc_lock_live ids id a : ids_ok ids -> ipc_lock ids id = Some a <-> live ids (place id) a.
Proof.
  intros (_ & _ & _ & _ & _ & _ & _ & Hp). unfold ipc_lock. fold (place id). split.
  - unfold live. destruct (entries ids !! place id) as [[b |] |]; [| done | done]. case_match; [done |]. by intros [= ->].
  - intros La. rewrite La. destruct (Hp _ _ La) as [-> _]. done.
Qed.

(** Any use of the table: additions, counted by [n], removals, and changes of objects
    that leave their sequence number alone. *)
Inductive evolves : nat -> ipc_ids A -> ipc_ids A -> Prop :=
  | ev_refl ids : evolves 0 ids ids
  | ev_add n ids ids1 ids2 new size alloc cur r : evolves n ids ids1 -> 0 <= size ->
      ipc_addid ids1 new size alloc cur = Some (r, ids2) -> evolves (if r =? -1 then n else S n) ids ids2
  | ev_rm n ids ids1 ids2 id a : evolves n ids ids1 -> ipc_rmid ids1 id = Some (a, ids2) -> evolves n ids ids2
  | ev_store n ids ids1 id a a' : evolves n ids ids1 -> ipc_lock ids1 id = Some a ->
      p_seq (perm a') = p_seq (perm a) -> deleted (perm a') = false -> evolves n ids (ipc_store ids1 id a').

Lemma ipc_rmid_live ids id r : ipc_rmid ids id = Some r -> exists a, live ids (place id) a.
Proof.
  unfold ipc_rmid, live. fold (place id). destruct (entries ids !! place id) as [[a |] |]; [by exists a | done | done].
Qed.

(** What a free place holds later was numbered later. *)
Lemma evolves_spec n ids ids' lid : ids_ok ids -> evolves n ids ids' -> (forall a, ~ live ids lid a) ->
  ids_ok ids' /\ ids_seq ids' = (ids_seq ids + Z.of_nat n) mod 65536 /\
  forall a, live ids' lid a -> exists k, 0 <= k < Z.of_nat n /\ p_seq (perm a) = (ids_seq ids + k) mod 65536.
Proof.
  intros Hok Ev Hfree. induction Ev as [ids | n ids ids1 ids2 new size alloc cur r Ev IH Hsz E | n ids ids1 ids2 id a Ev IH E | n ids ids1 id a a' Ev IH E Hq Hd].
  - split; [done |]. split; [| by intros a ?%Hfree]. destruct Hok as (_ & _ & _ & _ & _ & Hs & _). rewrite Z.mod_small; lia.
  - destruct (IH Hok Hfree) as (Ok1 & Hs & Hk). destruct (ipc_addid_spec ids1 new size alloc cur Ok1 Hsz) as (r' & i2 & E' & Ok2 & D).
    rewrite E in E'. injection E' as <- <-. split; [done |]. destruct D as [(-> & Es & _ & L) | (l & -> & _ & _ & Es & _ & L)].
    + cbn. split; [by rewrite Es |]. intros b Lb%L. by apply Hk.
    + rewrite (proj2 (Z.eqb_neq (Z.of_nat l) (-1))) by lia. split; [rewrite Es, Hs, Z.add_mod_idemp_l by lia; f_equal; lia |].
      intros b [[-> ->] | [_ Lb]]%L.
      * exists (Z.of_nat n). split; [lia |]. rewrite perm_with_perm. cbn [p_seq fresh_perm]. done.
      * destruct (Hk b Lb) as (k & ? & ?). exists k. split; [lia | done].
  - destruct (IH Hok Hfree) as (Ok1 & Hs & Hk). destruct (ipc_rmid_live _ _ _ E) as [b Lb].
    destruct (ipc_rmid_spec ids1 id b Ok1 Lb) as (a' & i2 & E' & Ok2 & Es & _ & L). rewrite E in E'. injection E' as <- <-.
    split; [done |]. split; [by rewrite Es |]. intros c [_ Lc]%L. by apply Hk.
  - destruct (IH Hok Hfree) as (Ok1 & Hs & Hk). apply ipc_lock_live in E; [| done].
    destruct (ipc_store_spec ids1 id a a' Ok1 E Hq Hd) as [Ok2 L]. split; [done |]. split; [done |].
    intros c [[-> ->] | [_ Lc]]%L; [rewrite Hq |]; by apply Hk.
Qed.
End ids_facts.

(** The identifier of a removed object stays dead: however the table is used
    afterwards, a lookup with the old identifier finds no object or one that
    [ipc_checkid] refuses, until the sequence counter, of 65536 values, has come round
    to the number of the removed object. *)
Lemma stale_id_refused {A : Type} `{IO : IpcObject A} (ids ids1 ids2 : ipc_ids A) n lid a a' o :
  ids_ok ids -> live ids lid a -> ipc_rmid ids (ipc_buildid (Z.of_nat lid) (p_seq (perm a))) = Some (a', ids1) ->
  evolves n ids1 ids2 -> Z.of_nat n <= (p_seq (perm a) - ids_seq ids) mod 65536 ->
  ipc_lock ids2 (ipc_buildid (Z.of_nat lid) (p_seq (perm a))) = Some o ->
  ipc_checkid o (ipc_buildid (Z.of_nat lid) (p_seq (perm a))) = true.
Proof.
  intros Hok La Erm Ev Hn Elock. pose proof Hok as (_ & _ & _ & _ & Hlen & Hs & _ & Hp). destruct (Hp _ _ La) as [_ Hq].
  pose proof (lookup_lt_Some _ _ _ La) as Hl. destruct (ipc_buildid_spec (Z.of_nat lid) (p_seq (perm a))) as (_ & _ & Epl & _); [lia | done |].
  rewrite Nat2Z.id in Epl. destruct (ipc_rmid_spec ids (ipc_buildid (Z.of_nat lid) (p_seq (perm a))) a Hok) as (b & i1 & E & Ok1 & Es & _ & L); [by rewrite Epl |].
  rewrite E in Erm. injection Erm as -> ->. rewrite Epl in L.
  destruct (evolves_spec n ids1 ids2 lid Ok1 Ev) as (Ok2 & _ & Hk); [intros c [? _]%L; done |].
  apply ipc_lock_live in Elock; [| done]. rewrite Epl in Elock. destruct (Hk o Elock) as (k & Hkn & Ek).
  destruct (ipc_checkid o _) eqn:Ec; [done |]. apply ipc_checkid_spec in Ec; [| lia | done]. exfalso.
  rewrite Ek, Es in Ec. rewrite <- Ec, Zminus_mod_idemp_l in Hn. replace (ids_seq ids + k - ids_seq ids) with k in Hn by lia.
  pose proof (Z.mod_le k 65536 ltac:(lia) ltac:(lia)). lia.
Qed.

(** A bare permission structure as an object. *)
#[local] Instance perm_object : IpcObject kern_ipc_perm :=
  {| perm p := p; with_perm p _ := p; perm_with_perm _ _ := eq_refl |}.

Definition ex_cur : subject := mk_subject 500 500 (fun _ => false) (fun _ => false).
Definition ex_perm : kern_ipc_perm := mk_perm false 7 0 0 0 0 384 0.
Definition ex_ids : ipc_ids kern_ipc_perm :=
  default (ipc_init_ids 4 true) (snd <$> ipc_addid (ipc_init_ids 4 true) ex_perm 4 true ex_cur).
Definition ex_ids1 : ipc_ids kern_ipc_perm := default ex_ids (snd <$> ipc_rmid ex_ids 0).
Definition ex_ids2 : ipc_ids kern_ipc_perm := default ex_ids1 (snd <$> ipc_addid ex_ids1 ex_perm 4 true ex_cur).

Definition ex_obj : kern_ipc_perm := mk_perm false 7 500 500 500 500 384 0.
Definition ex_obj2 : kern_ipc_perm := mk_perm false 7 500 500 500 500 384 1.
