(* ===== verification/Sem.v ===== *)
(** * System V semaphores: ipc/sem.c, include/linux/sem.h

    A set of semaphores is an array of values with a queue of sleeping requests and a
    list of undo structures. A request is a list of operations that is performed as a
    whole or not at all; with [SEM_UNDO] the process remembers what to take back when
    it exits. Undo structures and the lists they are on are in maps from addresses.

    Every part of a system call that runs under the lock of the set is one function on
    the whole state; between the parts the other tasks run, and [pcs] says where in a
    call each task is: in [kmalloc], about to take the lock, asleep, copying from user
    space, exiting. The first lookup of [find_undo] and the lock after it are one part,
    and so are the test of [u->semid] in [exit_sem] and the lock after it. [None] is an
    oops: a pointer to freed memory or a failed [BUG_ON]. The status of a sleeper, which
    [update_queue] sets in two stages, changes at once here. The limits are those of
    arch/arm/configs/motorola_ljap_defconfig, so no request and no array is too long for
    the buffers on the stack. The security hooks are those of security/dummy.c, which
    return 0. Not modelled: the statistics ([IPC_STAT], [IPC_INFO], [SEM_STAT], /proc)
    and the length of a timeout. The theorems here are about single requests and the
    queue; SemSafe.v has the system of all tasks. *)

From stdpp Require Import list gmap.
From S2P Require Import Prelude IpcUtil.

Definition SEM_UNDO : Z := 4096.
Definition SEMMNI : Z := 128.
Definition SEMMSL : Z := 250.
Definition SEMMNS : Z := SEMMNI * SEMMSL.
Definition SEMOPM : Z := 32.
Definition SEMVMX : Z := 32767.
Definition SEMAEM : Z := SEMVMX.
Definition S_IRWXUGO : Z := 511.
Definition S_IRUGO : Z := 292.
Definition S_IWUGO : Z := 146.
Definition CAP_SYS_ADMIN : Z := 21.

(** ** Data *)

Record sem := mk_sem { semval : Z; sempid : Z }.
Record sembuf := mk_sembuf { sem_num : nat; sem_op : Z; sem_flg : Z }.
Record sem_undo := mk_undo { un_semid : Z; semadj : list Z }.

(** The sleeping task, its undo structure, its process and its operations. *)
Record sem_queue := mk_queue { q_sleeper : Z; q_undo : option Z; q_pid : Z; q_sops : list sembuf }.

(** [sem_nsems] is the length of [sem_base]; [sma_ptr] is the address of the structure. *)
Record sem_array := mk_sma {
  sem_perm : kern_ipc_perm; sem_otime : Z; sem_ctime : Z; sem_base : list sem;
  sem_pending : list sem_queue; sma_undo : list Z; sma_ptr : Z }.

Record sem_undo_list := mk_ulist { refcnt : Z; proc_list : list Z }.

#[export] Instance sem_array_object : IpcObject sem_array := {|
  perm := sem_perm;
  with_perm p a := mk_sma p (sem_otime a) (sem_ctime a) (sem_base a) (sem_pending a) (sma_undo a) (sma_ptr a);
  perm_with_perm _ _ := eq_refl |}.

Definition set_base (b : list sem) (a : sem_array) : sem_array :=
  mk_sma (sem_perm a) (sem_otime a) (sem_ctime a) b (sem_pending a) (sma_undo a) (sma_ptr a).
Definition set_pending (q : list sem_queue) (a : sem_array) : sem_array :=
  mk_sma (sem_perm a) (sem_otime a) (sem_ctime a) (sem_base a) q (sma_undo a) (sma_ptr a).
Definition set_undo (u : list Z) (a : sem_array) : sem_array :=
  mk_sma (sem_perm a) (sem_otime a) (sem_ctime a) (sem_base a) (sem_pending a) u (sma_ptr a).
Definition set_otime (t : Z) (a : sem_array) : sem_array :=
  mk_sma (sem_perm a) t (sem_ctime a) (sem_base a) (sem_pending a) (sma_undo a) (sma_ptr a).
Definition set_ctime (t : Z) (a : sem_array) : sem_array :=
  mk_sma (sem_perm a) (sem_otime a) t (sem_base a) (sem_pending a) (sma_undo a) (sma_ptr a).

Definition has (flag x : Z) : bool := negb (Z.land x flag =? 0).

(** ** Performing a request *)

Inductive outcome := Performed | Out_of_range | Would_block (nowait : bool).

(** The first loop of [try_atomic_semop]: the semaphores after the operations that
    went through and those operations, last one first. [adj] is [un->semadj]. *)
Fixpoint semop_loop (sops : list sembuf) (adj : option (list Z)) (base : list sem) (past : list sembuf)
  : option (outcome * list sem * list sembuf) :=
  match sops with
  | [] => Some (Performed, base, past)
  | sop :: sops =>
      curr ← base !! sem_num sop;
      let blocked := Would_block (has IPC_NOWAIT (sem_flg sop)) in
      let result := semval curr in
      if (sem_op sop =? 0) && negb (result =? 0) then Some (blocked, base, past)
      else
        let result := result + sem_op sop in
        if result <? 0 then Some (blocked, base, past)
        else if SEMVMX <? result then Some (Out_of_range, base, past)
        else
          fits ← (if has SEM_UNDO (sem_flg sop)
                  then l ← adj; x ← l !! sem_num sop;
                       let undo := x - sem_op sop in Some (negb ((undo <? - SEMAEM - 1) || (SEMAEM <? undo)))
                  else Some true);
          if negb fits then Some (Out_of_range, base, past)
          else semop_loop sops adj (<[sem_num sop := mk_sem result (sempid curr)]> base) (sop :: past)
  end.

(** The second loop, from the last operation back: the process and the undo values. *)
Fixpoint commit_loop (past : list sembuf) (pid : Z) (base : list sem) (adj : option (list Z))
  : option (list sem * option (list Z)) :=
  match past with
  | [] => Some (base, adj)
  | sop :: past =>
      curr ← base !! sem_num sop;
      let base := <[sem_num sop := mk_sem (semval curr) pid]> base in
      if has SEM_UNDO (sem_flg sop) then
        l ← adj; x ← l !! sem_num sop;
        commit_loop past pid base (Some (<[sem_num sop := s16 (x - sem_op sop)]> l))
      else commit_loop past pid base adj
  end.

(** The loop at [undo]. *)
Fixpoint rollback_loop (past : list sembuf) (base : list sem) : option (list sem) :=
  match past with
  | [] => Some base
  | sop :: past =>
      curr ← base !! sem_num sop;
      rollback_loop past (<[sem_num sop := mk_sem (semval curr - sem_op sop) (sempid curr)]> base)
  end.

(** 0 when performed, 1 when the caller has to sleep. *)
Definition try_atomic_semop (base : list sem) (adj : option (list Z)) (sops : list sembuf) (pid : Z)
  : option (Z * list sem * option (list Z)) :=
  '(o, base, past) ← semop_loop sops adj base [];
  match o with
  | Performed => '(base, adj) ← commit_loop past pid base adj; Some (0, base, adj)
  | Out_of_range => base ← rollback_loop past base; Some (- ERANGE, base, adj)
  | Would_block nowait => base ← rollback_loop past base; Some (if nowait then - EAGAIN else 1, base, adj)
  end.

(** [un->semadj] for a pointer that may be [NULL], and the new values written back. *)
Definition adj_of (us : gmap Z sem_undo) (un : option Z) : option (list Z) :=
  match un with Some p => semadj <$> us !! p | None => None end.

Definition store_adj (us : gmap Z sem_undo) (un : option Z) (adj : option (list Z)) : gmap Z sem_undo :=
  match un, adj with
  | Some p, Some l => alter (fun u => mk_undo (un_semid u) l) p us
  | _, _ => us
  end.

(** The same on a set and an undo structure given by its address. *)
Definition try_array (now : Z) (a : sem_array) (us : gmap Z sem_undo) (sops : list sembuf) (un : option Z) (pid : Z)
  : option (Z * sem_array * gmap Z sem_undo) :=
  '(e, base, adj) ← try_atomic_semop (sem_base a) (adj_of us un) sops pid;
  let a := set_base base a in
  Some (e, if e =? 0 then set_otime now a else a, store_adj us un adj).

(** ** The queue *)

(** The scan of [update_queue]: the set and the undo structures afterwards, the requests
    that stay, and the tasks woken with their results, in order. *)
Fixpoint update_loop (now : Z) (qs : list sem_queue) (a : sem_array) (us : gmap Z sem_undo)
  : option (sem_array * gmap Z sem_undo * list sem_queue * list (Z * Z)) :=
  match qs with
  | [] => Some (a, us, [], [])
  | q :: qs =>
      '(e, a, us) ← try_array now a us (q_sops q) (q_undo q) (q_pid q);
      '(a, us, kept, woken) ← update_loop now qs a us;
      Some (if e <=? 0 then (a, us, kept, (q_sleeper q, e) :: woken) else (a, us, q :: kept, woken))
  end.

Definition update_queue (now : Z) (a : sem_array) (us : gmap Z sem_undo)
  : option (sem_array * gmap Z sem_undo * list (Z * Z)) :=
  '(a, us, kept, woken) ← update_loop now (sem_pending a) a us;
  Some (set_pending kept a, us, woken).

Definition append_to_queue (a : sem_array) (q : sem_queue) : sem_array := set_pending (sem_pending a ++ [q]) a.
Definition prepend_to_queue (a : sem_array) (q : sem_queue) : sem_array := set_pending (q :: sem_pending a) a.

Definition remove_from_queue (a : sem_array) (t : Z) : sem_array :=
  set_pending (filter (fun q => q_sleeper q <> t) (sem_pending a)) a.

Definition count_sops (p : sembuf -> bool) (a : sem_array) : Z :=
  foldr (fun q n => Z.of_nat (length (filter (fun s => p s = true) (q_sops q))) + n) 0 (sem_pending a).

Definition count_semncnt (a : sem_array) (semnum : nat) : Z :=
  count_sops (fun s => (sem_num s =? semnum)%nat && (sem_op s <? 0) && negb (has IPC_NOWAIT (sem_flg s))) a.
Definition count_semzcnt (a : sem_array) (semnum : nat) : Z :=
  count_sops (fun s => (sem_num s =? semnum)%nat && (sem_op s =? 0) && negb (has IPC_NOWAIT (sem_flg s))) a.

(** ** The system *)

(** A call in progress: the set, the operations, whether there is a timeout, and the
    thread group of the caller. *)
Record request := mk_req { r_semid : Z; r_sops : list sembuf; r_timeout : bool; r_tgid : Z }.

Definition r_max (r : request) : nat := foldr Nat.max 0%nat (sem_num <$> r_sops r).
Definition r_undos (r : request) : bool := existsb (fun s => has SEM_UNDO (sem_flg s)) (r_sops r).
Definition r_alter (r : request) : bool := existsb (fun s => negb (sem_op s =? 0)) (r_sops r).

(** Where a task is between two sections: in [kmalloc] of [find_undo], before the lock
    of [sys_semtimedop], asleep, in [copy_from_user] of [SETALL], in [exit_sem]. *)
Inductive pc :=
  | FindUndo (r : request) (ptr : Z) (nsems : nat)
  | TrySemop (r : request) (un : option Z)
  | Asleep (r : request)
  | Setall (semid ptr : Z) (nsems : nat)
  | Exiting (ul : Z) (tgid : Z).

Record world := mk_world {
  sem_ids : ipc_ids sem_array; used_sems : Z;
  undos : gmap Z sem_undo; ulists : gmap Z sem_undo_list; undo_list_of : gmap Z Z;
  status_of : gmap Z Z; next_addr : Z; pcs : gmap Z pc }.

Definition set_ids v w := mk_world v (used_sems w) (undos w) (ulists w) (undo_list_of w) (status_of w) (next_addr w) (pcs w).
Definition set_used v w := mk_world (sem_ids w) v (undos w) (ulists w) (undo_list_of w) (status_of w) (next_addr w) (pcs w).
Definition set_undos v w := mk_world (sem_ids w) (used_sems w) v (ulists w) (undo_list_of w) (status_of w) (next_addr w) (pcs w).
Definition set_ulists v w := mk_world (sem_ids w) (used_sems w) (undos w) v (undo_list_of w) (status_of w) (next_addr w) (pcs w).
Definition set_list_of v w := mk_world (sem_ids w) (used_sems w) (undos w) (ulists w) v (status_of w) (next_addr w) (pcs w).
Definition set_status v w := mk_world (sem_ids w) (used_sems w) (undos w) (ulists w) (undo_list_of w) v (next_addr w) (pcs w).
Definition set_next v w := mk_world (sem_ids w) (used_sems w) (undos w) (ulists w) (undo_list_of w) (status_of w) v (pcs w).
Definition set_pcs v w := mk_world (sem_ids w) (used_sems w) (undos w) (ulists w) (undo_list_of w) (status_of w) (next_addr w) v.

Definition sem_init (alloc : bool) : world := mk_world (ipc_init_ids SEMMNI alloc) 0 ∅ ∅ ∅ ∅ 1 ∅.

(** The tasks that [update_queue] or [freeary] woke have their results. *)
Definition wake (woken : list (Z * Z)) (w : world) : world :=
  set_status (foldr (fun '(t, e) m => <[t := e]> m) (status_of w) woken) w.

Definition sem_lock (w : world) (id : Z) : option sem_array := ipc_lock (sem_ids w) id.

(** Writing the set of identifier [id] back. *)
Definition store (id : Z) (a : sem_array) (w : world) : world := set_ids (ipc_store (sem_ids w) id a) w.

Definition lock_by_ptr (w : world) (ptr : Z) : option (nat * sem_array) := find_ptr sma_ptr (entries (sem_ids w)) ptr 0.

(** A section ends the call with a result, or the call goes on. *)
Definition ret (e : Z) (w : world) : option (option Z * world) := Some (Some e, w).
Definition goto (t : Z) (p : pc) (w : world) : option (option Z * world) := Some (None, set_pcs (<[t := p]> (pcs w)) w).
Definition leave (t : Z) (w : world) : world := set_pcs (delete t (pcs w)) w.

(** ** semget *)

(** [sma_alloc] and [ary_alloc] are the answers of [ipc_rcu_alloc] for the set and for a
    longer table. *)
Definition newary (cur : subject) (key nsems semflg now : Z) (sma_alloc ary_alloc : bool) (w : world)
  : option (option Z * world) :=
  if nsems =? 0 then ret (- EINVAL) w
  else if SEMMNS <? used_sems w + nsems then ret (- ENOSPC) w
  else if negb sma_alloc then ret (- ENOMEM) w
  else
    let sma := mk_sma (mk_perm false key 0 0 0 0 (Z.land semflg S_IRWXUGO) 0) 0 now
                 (replicate (Z.to_nat nsems) (mk_sem 0 0)) [] [] (next_addr w) in
    let seq := ids_seq (sem_ids w) in
    '(id, ids) ← ipc_addid (sem_ids w) sma SEMMNI ary_alloc cur;
    let w := set_next (next_addr w + 1) (set_ids ids w) in
    if id =? -1 then ret (- ENOSPC) w
    else ret (ipc_buildid id seq) (set_used (used_sems w + nsems) w).

Definition sys_semget (cur : subject) (key nsems semflg now : Z) (sma_alloc ary_alloc : bool) (w : world)
  : option (option Z * world) :=
  if (nsems <? 0) || (SEMMSL <? nsems) then ret (- EINVAL) w
  else if key =? IPC_PRIVATE then newary cur key nsems semflg now sma_alloc ary_alloc w
  else
    id ← ipc_findkey (sem_ids w) key;
    if id =? -1 then
      if negb (has IPC_CREAT semflg) then ret (- ENOENT) w
      else newary cur key nsems semflg now sma_alloc ary_alloc w
    else if has IPC_CREAT semflg && has IPC_EXCL semflg then ret (- EEXIST) w
    else
      a ← sem_lock w id;
      if Z.of_nat (length (sem_base a)) <? nsems then ret (- EINVAL) w
      else if negb (ipcperms cur (sem_perm a) semflg =? 0) then ret (- EACCES) w
      else ret (ipc_buildid id (p_seq (sem_perm a))) w.

(** ** Undo structures *)

(** The allocation of a list, if the task has none yet. *)
Definition get_undo_list (t : Z) (alloc : bool) (w : world) : option (Z * world) :=
  match undo_list_of w !! t with
  | Some ul => Some (ul, w)
  | None =>
      if negb alloc then None
      else let ul := next_addr w in
           Some (ul, set_next (ul + 1) (set_list_of (<[t := ul]> (undo_list_of w)) (set_ulists (<[ul := mk_ulist 1 []]> (ulists w)) w)))
  end.

(** The walk of [lookup_undo]: the structure found, the list without the dead ones met
    before it, and the memory without them. *)
Fixpoint lookup_undo_loop (l : list Z) (semid : Z) (us : gmap Z sem_undo) : option (option Z * list Z * gmap Z sem_undo) :=
  match l with
  | [] => Some (None, [], us)
  | p :: l =>
      u ← us !! p;
      if un_semid u =? semid then Some (Some p, p :: l, us)
      else if un_semid u =? -1 then lookup_undo_loop l semid (delete p us)
      else '(r, l, us) ← lookup_undo_loop l semid us; Some (r, p :: l, us)
  end.

Definition lookup_undo (ul semid : Z) (w : world) : option (option Z * world) :=
  l ← ulists w !! ul;
  '(r, pl, us) ← lookup_undo_loop (proc_list l) semid (undos w);
  Some (r, set_undos us (set_ulists (<[ul := mk_ulist (refcnt l) pl]> (ulists w)) w)).

(** [find_undo] up to [kmalloc]. *)
Definition find_undo (t : Z) (r : request) (alloc : bool) (w : world) : option (option Z * world) :=
  match get_undo_list t alloc w with
  | None => ret (- ENOMEM) (leave t w)
  | Some (ul, w) =>
      '(un, w) ← lookup_undo ul (r_semid r) w;
      match un with
      | Some u => goto t (TrySemop r (Some u)) w
      | None =>
          match sem_lock w (r_semid r) with
          | None => ret (- EINVAL) (leave t w)
          | Some a =>
              if ipc_checkid a (r_semid r) then ret (- EIDRM) (leave t w)
              else goto t (FindUndo r (sma_ptr a) (length (sem_base a))) w
          end
      end
  end.

(** The rest of [find_undo], with the answer of [kmalloc]. *)
Definition find_undo_alloc (t : Z) (r : request) (ptr : Z) (nsems : nat) (alloc : bool) (w : world) : option (option Z * world) :=
  if negb alloc then ret (- ENOMEM) (leave t w)
  else
    ul ← undo_list_of w !! t;
    '(un, w) ← lookup_undo ul (r_semid r) w;
    match un with
    | Some u => goto t (TrySemop r (Some u)) w
    | None =>
        match lock_by_ptr w ptr with
        | None => ret (- EIDRM) (leave t w)
        | Some (lid, a) =>
            l ← ulists w !! ul;
            let new := next_addr w in
            let w := set_next (new + 1) w in
            let w := set_undos (<[new := mk_undo (r_semid r) (replicate nsems 0)]> (undos w)) w in
            let w := set_ulists (<[ul := mk_ulist (refcnt l) (new :: proc_list l)]> (ulists w)) w in
            goto t (TrySemop r (Some new)) (store (Z.of_nat lid) (set_undo (new :: sma_undo a) a) w)
        end
    end.

(** ** semop *)

(** [sys_semtimedop] up to its first sleep. [readable] says whether the operations can
    be copied from user space; a timeout that cannot is [Some None], another one has
    seconds and nanoseconds. *)
Definition semtimedop (t tgid semid : Z) (sops : list sembuf) (readable : bool) (timeout : option (option (Z * Z)))
    (alloc : bool) (w : world) : option (option Z * world) :=
  let nsops := Z.of_nat (length sops) in
  if (nsops <? 1) || (semid <? 0) then ret (- EINVAL) w
  else if SEMOPM <? nsops then ret (- E2BIG) w
  else if negb readable then ret (- EFAULT) w
  else
    let start := fun has_timeout =>
      let r := mk_req semid sops has_timeout tgid in
      if r_undos r then find_undo t r alloc w else goto t (TrySemop r None) w in
    match timeout with
    | None => start false
    | Some None => ret (- EFAULT) w
    | Some (Some (tv_sec, tv_nsec)) =>
        if (tv_sec <? 0) || (tv_nsec <? 0) || (1000000000 <=? tv_nsec) then ret (- EINVAL) w else start true
    end.

(** From the lock on. *)
Definition semop_locked (t : Z) (cur : subject) (r : request) (un : option Z) (now : Z) (alloc : bool) (w : world)
  : option (option Z * world) :=
  match sem_lock w (r_semid r) with
  | None => ret (- EINVAL) (leave t w)
  | Some a =>
      if ipc_checkid a (r_semid r) then ret (- EIDRM) (leave t w)
      else
        gone ← (match un with Some u => v ← undos w !! u; Some (un_semid v =? -1) | None => Some false end);
        if (gone : bool) then find_undo t r alloc w
        else if (length (sem_base a) <=? r_max r)%nat then ret (- EFBIG) (leave t w)
        else if negb (ipcperms cur (sem_perm a) (if r_alter r then S_IWUGO else S_IRUGO) =? 0) then ret (- EACCES) (leave t w)
        else
          '(e, a, us) ← try_array now a (undos w) (r_sops r) un (r_tgid r);
          let w := set_undos us w in
          if e <=? 0 then
            if r_alter r then
              '(a, us, woken) ← update_queue now a us;
              ret e (leave t (wake woken (store (r_semid r) a (set_undos us w))))
            else ret e (leave t (store (r_semid r) a w))
          else
            let q := mk_queue t un (r_tgid r) (r_sops r) in
            let a := if r_alter r then append_to_queue a q else prepend_to_queue a q in
            goto t (Asleep r) (set_status (<[t := - EINTR]> (status_of w)) (store (r_semid r) a w))
  end.

(** After [schedule]: the task was woken, or got a signal, or its time is over. A task
    that nobody has woken is still in the queue: [queue.prev] is not [NULL]. *)
Definition semop_wake (t : Z) (r : request) (expired : bool) (w : world) : option (option Z * world) :=
  status ← status_of w !! t;
  let w := set_status (delete t (status_of w)) w in
  if negb (status =? - EINTR) then ret status (leave t w)
  else
    a ← sem_lock w (r_semid r);
    if existsb (fun q => q_sleeper q =? t) (sem_pending a) then
      ret (if r_timeout r && expired then - EAGAIN else - EINTR) (leave t (store (r_semid r) (remove_from_queue a t) w))
    else None.

(** ** semctl *)

(** The common beginning of [semctl_main]. *)
Definition semctl_open (cur : subject) (semid flag : Z) (w : world) : Z + sem_array :=
  match sem_lock w semid with
  | None => inl (- EINVAL)
  | Some a =>
      if ipc_checkid a semid then inl (- EIDRM)
      else if negb (ipcperms cur (sem_perm a) flag =? 0) then inl (- EACCES)
      else inr a
  end.

Inductive query := GETVAL | GETPID | GETNCNT | GETZCNT.

Definition semctl_query (cur : subject) (semid semnum : Z) (cmd : query) (w : world) : option (option Z * world) :=
  match semctl_open cur semid S_IRUGO w with
  | inl e => ret e w
  | inr a =>
      if (semnum <? 0) || (Z.of_nat (length (sem_base a)) <=? semnum) then ret (- EINVAL) w
      else
        curr ← sem_base a !! Z.to_nat semnum;
        ret (match cmd with
             | GETVAL => semval curr
             | GETPID => sempid curr
             | GETNCNT => count_semncnt a (Z.to_nat semnum)
             | GETZCNT => count_semzcnt a (Z.to_nat semnum)
             end) w
  end.

(** The values [GETALL] copies to user space. *)
Definition semctl_getall (cur : subject) (semid : Z) (w : world) : Z + list Z :=
  match semctl_open cur semid S_IRUGO w with inl e => inl e | inr a => inr (semval <$> sem_base a) end.

(** [un->semadj[i] = 0] for the structures of a set, for one [i] or for all. *)
Fixpoint clear_adj (l : list Z) (i : nat) (us : gmap Z sem_undo) : option (gmap Z sem_undo) :=
  match l with
  | [] => Some us
  | p :: l =>
      u ← us !! p;
      if (i <? length (semadj u))%nat then clear_adj l i (<[p := mk_undo (un_semid u) (<[i := 0]> (semadj u))]> us) else None
  end.

Fixpoint clear_all_adj (l : list Z) (nsems : nat) (us : gmap Z sem_undo) : option (gmap Z sem_undo) :=
  match l with
  | [] => Some us
  | p :: l =>
      u ← us !! p;
      if (nsems <=? length (semadj u))%nat
      then clear_all_adj l nsems (<[p := mk_undo (un_semid u) (replicate nsems 0 ++ drop nsems (semadj u))]> us)
      else None
  end.

(** [update_queue] and the end of a call that changed the set [a]. *)
Definition update_and_store (semid now : Z) (a : sem_array) (us : gmap Z sem_undo) (w : world) : option world :=
  '(a, us, woken) ← update_queue now a us;
  Some (wake woken (store semid a (set_undos us w))).

Definition semctl_setval (cur : subject) (tgid semid semnum val now : Z) (w : world) : option (option Z * world) :=
  match semctl_open cur semid S_IWUGO w with
  | inl e => ret e w
  | inr a =>
      if (semnum <? 0) || (Z.of_nat (length (sem_base a)) <=? semnum) then ret (- EINVAL) w
      else if (SEMVMX <? val) || (val <? 0) then ret (- ERANGE) w
      else
        us ← clear_adj (sma_undo a) (Z.to_nat semnum) (undos w);
        let a := set_ctime now (set_base (<[Z.to_nat semnum := mk_sem val tgid]> (sem_base a)) a) in
        w ← update_and_store semid now a us w;
        ret 0 w
  end.

(** [SETALL] until it has dropped the lock, and from the copy on: [array] is what the
    user's memory holds, [None] when it cannot be read. *)
Definition semctl_setall (t : Z) (cur : subject) (semid : Z) (w : world) : option (option Z * world) :=
  match semctl_open cur semid S_IWUGO w with
  | inl e => ret e w
  | inr a => goto t (Setall semid (sma_ptr a) (length (sem_base a))) w
  end.

Definition setall_copied (t semid ptr : Z) (nsems : nat) (array : option (list Z)) (now : Z) (w : world) : option (option Z * world) :=
  match array with
  | None => ret (- EFAULT) (leave t w)
  | Some sem_io =>
      let sem_io := resize nsems 0 (u16 <$> sem_io) in
      if existsb (fun v => SEMVMX <? v) sem_io then ret (- ERANGE) (leave t w)
      else
        match lock_by_ptr w ptr with
        | None => ret (- EIDRM) (leave t w)
        | Some (lid, a) =>
            if (length sem_io =? length (sem_base a))%nat then
              us ← clear_all_adj (sma_undo a) nsems (undos w);
              let a := set_ctime now (set_base (zip_with (fun s v => mk_sem v (sempid s)) (sem_base a) sem_io) a) in
              w ← update_and_store (Z.of_nat lid) now a us w;
              ret 0 (leave t w)
            else None
        end
  end.

(** [un->semid = -1]. *)
Fixpoint kill_undos (l : list Z) (us : gmap Z sem_undo) : option (gmap Z sem_undo) :=
  match l with
  | [] => Some us
  | p :: l => u ← us !! p; kill_undos l (<[p := mk_undo (-1) (semadj u)]> us)
  end.

Definition freeary (a : sem_array) (id : Z) (w : world) : option world :=
  us ← kill_undos (sma_undo a) (undos w);
  let w := wake ((fun q => (q_sleeper q, - EIDRM)) <$> sem_pending a) (set_undos us w) in
  '(_, ids) ← ipc_rmid (sem_ids w) id;
  Some (set_used (used_sems w - Z.of_nat (length (sem_base a))) (set_ids ids w)).

Inductive down_cmd := IPC_RMID | IPC_SET (setbuf : option (Z * Z * Z)).

Definition semctl_down (cur : subject) (semid : Z) (cmd : down_cmd) (now : Z) (w : world) : option (option Z * world) :=
  match cmd with
  | IPC_SET None => ret (- EFAULT) w
  | _ =>
      match sem_lock w semid with
      | None => ret (- EINVAL) w
      | Some a =>
          if ipc_checkid a semid then ret (- EIDRM) w
          else
            let ipcp := sem_perm a in
            if negb (s_euid cur =? p_cuid ipcp) && negb (s_euid cur =? p_uid ipcp) && negb (s_capable cur CAP_SYS_ADMIN)
            then ret (- EPERM) w
            else
              match cmd with
              | IPC_RMID => w ← freeary a semid w; ret 0 w
              | IPC_SET None => ret (- EFAULT) w
              | IPC_SET (Some (uid, gid, mode)) =>
                  let p := mk_perm (deleted ipcp) (p_key ipcp) uid gid (p_cuid ipcp) (p_cgid ipcp)
                             (Z.lor (Z.ldiff (p_mode ipcp) S_IRWXUGO) (Z.land mode S_IRWXUGO)) (p_seq ipcp) in
                  ret 0 (store semid (set_ctime now (with_perm p a)) w)
              end
      end
  end.

(** ** fork and exit *)

Definition copy_semundo (t child : Z) (share alloc : bool) (w : world) : option (option Z * world) :=
  if share then
    match get_undo_list t alloc w with
    | None => ret (- ENOMEM) w
    | Some (ul, w) =>
        l ← ulists w !! ul;
        ret 0 (set_list_of (<[child := ul]> (undo_list_of w)) (set_ulists (<[ul := mk_ulist (refcnt l + 1) (proc_list l)]> (ulists w)) w))
    end
  else ret 0 w.

(** The adjustments of one structure. *)
Definition adjust (tgid : Z) (s : sem) (x : Z) : sem :=
  if x =? 0 then s
  else
    let v := semval s + x in
    let v := if v <? 0 then 0 else v in
    let v := if SEMVMX <? v then SEMVMX else v in
    mk_sem v tgid.

(** [exit_sem] until the list is its own. *)
Definition exit_sem (t tgid : Z) (w : world) : option (option Z * world) :=
  match undo_list_of w !! t with
  | None => ret 0 w
  | Some ul =>
      l ← ulists w !! ul;
      let w := set_list_of (delete t (undo_list_of w)) w in
      let w := set_ulists (<[ul := mk_ulist (refcnt l - 1) (proc_list l)]> (ulists w)) w in
      if refcnt l - 1 =? 0 then goto t (Exiting ul tgid) w else ret 0 w
  end.

(** One round of its loop, and the end: [kfree(undo_list)]. *)
Definition exit_round (t ul tgid now : Z) (w : world) : option (option Z * world) :=
  l ← ulists w !! ul;
  match proc_list l with
  | [] => ret 0 (leave t (set_ulists (delete ul (ulists w)) w))
  | u :: pl =>
      un ← undos w !! u;
      let next := fun w => set_undos (delete u (undos w)) (set_ulists (<[ul := mk_ulist (refcnt l) pl]> (ulists w)) w) in
      if un_semid un =? -1 then Some (None, next w)
      else
        match sem_lock w (un_semid un) with
        | None => Some (None, next w)
        | Some a =>
            if ipc_checkid a (un_semid un) then None
            else if negb (bool_decide (u ∈ sma_undo a)) then Some (None, next w)
            else if (length (semadj un) <? length (sem_base a))%nat then None
            else
              let a := set_undo (filter (fun p => p <> u) (sma_undo a)) a in
              let a := set_otime now (set_base (zip_with (adjust tgid) (sem_base a) (semadj un)) a) in
              w ← update_and_store (un_semid un) now a (undos w) w;
              Some (None, next w)
        end
  end.

(** ** All tasks together *)

(** One section of one task's call, with what its environment answers. *)
Inductive action :=
  | A_semget (cur : subject) (key nsems semflg now : Z) (sma_alloc ary_alloc : bool)
  | A_semop (t tgid semid : Z) (sops : list sembuf) (readable : bool) (timeout : option (option (Z * Z))) (alloc : bool)
  | A_alloc (t : Z) (alloc : bool)
  | A_lock (t : Z) (cur : subject) (now : Z) (alloc : bool)
  | A_wake (t : Z) (expired : bool)
  | A_query (cur : subject) (semid semnum : Z) (cmd : query)
  | A_setval (cur : subject) (tgid semid semnum val now : Z)
  | A_setall (t : Z) (cur : subject) (semid : Z)
  | A_copied (t : Z) (array : option (list Z)) (now : Z)
  | A_down (cur : subject) (semid : Z) (cmd : down_cmd) (now : Z)
  | A_fork (t child : Z) (share alloc : bool)
  | A_exit (t tgid : Z)
  | A_round (t now : Z).

(** [sys_semctl] refuses a negative identifier first. *)
Definition semctl_guard (semid : Z) (k : option (option Z * world)) (w : world) : option (option Z * world) :=
  if semid <? 0 then ret (- EINVAL) w else k.

(** An action whose task is not at that point does nothing. *)
Definition exec (x : action) (w : world) : option (option Z * world) :=
  match x with
  | A_semget cur key nsems semflg now b1 b2 => sys_semget cur key nsems semflg now b1 b2 w
  | A_semop t tgid semid sops readable timeout alloc =>
      match pcs w !! t with None => semtimedop t tgid semid sops readable timeout alloc w | Some _ => Some (None, w) end
  | A_alloc t alloc =>
      match pcs w !! t with Some (FindUndo r ptr nsems) => find_undo_alloc t r ptr nsems alloc w | _ => Some (None, w) end
  | A_lock t cur now alloc =>
      match pcs w !! t with Some (TrySemop r un) => semop_locked t cur r un now alloc w | _ => Some (None, w) end
  | A_wake t expired => match pcs w !! t with Some (Asleep r) => semop_wake t r expired w | _ => Some (None, w) end
  | A_query cur semid semnum cmd => semctl_guard semid (semctl_query cur semid semnum cmd w) w
  | A_setval cur tgid semid semnum val now => semctl_guard semid (semctl_setval cur tgid semid semnum val now w) w
  | A_setall t cur semid =>
      match pcs w !! t with None => semctl_guard semid (semctl_setall t cur semid w) w | Some _ => Some (None, w) end
  | A_copied t array now =>
      match pcs w !! t with Some (Setall semid ptr nsems) => setall_copied t semid ptr nsems array now w | _ => Some (None, w) end
  | A_down cur semid cmd now => semctl_guard semid (semctl_down cur semid cmd now w) w
  | A_fork t child share alloc =>
      match pcs w !! t, pcs w !! child, undo_list_of w !! child with
      | None, None, None => if t =? child then Some (None, w) else copy_semundo t child share alloc w
      | _, _, _ => Some (None, w)
      end
  | A_exit t tgid => match pcs w !! t with None => exit_sem t tgid w | Some _ => Some (None, w) end
  | A_round t now => match pcs w !! t with Some (Exiting ul tgid) => exit_round t ul tgid now w | _ => Some (None, w) end
  end.

Fixpoint run_sem (xs : list action) (w : world) : option world :=
  match xs with [] => Some w | x :: xs => '(_, w) ← exec x w; run_sem xs w end.

(** * Correctness *)

(** ** A request is performed as a whole *)

(** The operations of [sops] on semaphore [i], summed up. *)
Definition delta (sops : list sembuf) (i : nat) : Z :=
  foldr (fun s n => (if (sem_num s =? i)%nat then sem_op s else 0) + n) 0 sops.

Definition undo_delta (sops : list sembuf) (i : nat) : Z :=
  foldr (fun s n => (if (sem_num s =? i)%nat && has SEM_UNDO (sem_flg s) then sem_op s else 0) + n) 0 sops.

(** The verdict on one operation when the semaphore has value [v] and the caller's undo
    value is [x]: [None] when it can be performed. *)
Definition verdict (s : sembuf) (v x : Z) : option Z :=
  if bool_decide (sem_op s = 0 /\ v <> 0) || bool_decide (v + sem_op s < 0)
  then Some (if has IPC_NOWAIT (sem_flg s) then - EAGAIN else 1)
  else if bool_decide (SEMVMX < v + sem_op s) then Some (- ERANGE)
  else if has SEM_UNDO (sem_flg s) && negb (bool_decide (- SEMAEM - 1 <= x - sem_op s <= SEMAEM)) then Some (- ERANGE)
  else None.

(** The value and the undo value that operation [k] finds. *)
Definition value_at (base : list sem) (sops : list sembuf) (k : nat) (s : sembuf) : Z :=
  semval (nth (sem_num s) base (mk_sem 0 0)) + delta (take k sops) (sem_num s).
Definition adj_at (adj : option (list Z)) (s : sembuf) : Z := nth (sem_num s) (default [] adj) 0.

(** Operation [k] is the first that cannot be performed, and why. *)
Definition fails_at (base : list sem) (adj : option (list Z)) (sops : list sembuf) (k : nat) (e : Z) : Prop :=
  (exists s, sops !! k = Some s /\ verdict s (value_at base sops k s) (adj_at adj s) = Some e) /\
  forall j s, (j < k)%nat -> sops !! j = Some s -> verdict s (value_at base sops j s) (adj_at adj s) = None.

Definition applicable (base : list sem) (adj : option (list Z)) (sops : list sembuf) : Prop :=
  forall j s, sops !! j = Some s -> verdict s (value_at base sops j s) (adj_at adj s) = None.

(** The operands exist. *)
Definition sops_ok (nsems : nat) (adj : option (list Z)) (sops : list sembuf) : Prop :=
  Forall (fun s => (sem_num s < nsems)%nat /\ (has SEM_UNDO (sem_flg s) = true -> exists l, adj = Some l /\ length l = nsems)) sops.

(** The semaphores with [sops] added. *)
Definition add_all (sops : list sembuf) (base : list sem) : list sem :=
  imap (fun i c => mk_sem (semval c + delta sops i) (sempid c)) base.

Lemma delta_app s1 s2 i : delta (s1 ++ s2) i = delta s1 i + delta s2 i.
Proof. induction s1 as [| s s1 IH]; simpl; [done |]. rewrite IH. lia. Qed.

Lemma add_all_nil base : add_all [] base = base.
Proof.
  apply list_eq. intros i. unfold add_all. rewrite list_lookup_imap. destruct (base !! i) as [[v p] |]; simpl; [by rewrite Z.add_0_r | done].
Qed.

Lemma length_add_all sops base : length (add_all sops base) = length base.
Proof. apply length_imap. Qed.

Lemma add_all_lookup sops base i : add_all sops base !! i = (fun c => mk_sem (semval c + delta sops i) (sempid c)) <$> base !! i.
Proof. unfold add_all. by rewrite list_lookup_imap. Qed.

Lemma add_all_snoc sops s base c : add_all sops base !! sem_num s = Some c ->
  <[sem_num s := mk_sem (semval c + sem_op s) (sempid c)]> (add_all sops base) = add_all (sops ++ [s]) base.
Proof.
  intros Hc. apply list_eq. intros i. pose proof (lookup_lt_Some _ _ _ Hc) as Hl. destruct (decide (i = sem_num s)) as [-> | Hne].
  - rewrite list_lookup_insert_eq by done. rewrite add_all_lookup in *. destruct (base !! sem_num s) as [d |]; [| done].
    injection Hc as <-. simpl. rewrite delta_app. simpl. rewrite Nat.eqb_refl. do 2 f_equal; lia.
  - rewrite list_lookup_insert_ne by done. rewrite !add_all_lookup. destruct (base !! i) as [d |]; [| done]. simpl. rewrite delta_app. simpl.
    rewrite (proj2 (Nat.eqb_neq _ _)) by done. do 2 f_equal. lia.
Qed.

Lemma rollback_spec past base : Forall (fun s => (sem_num s < length base)%nat) past ->
  rollback_loop (reverse past) (add_all past base) = Some base.
Proof.
  induction past as [| s past IH] using rev_ind; intros F; [simpl; by rewrite add_all_nil |].
  apply Forall_app in F as [F Fs]. rewrite Forall_singleton in Fs. rewrite reverse_snoc. simpl.
  destruct (lookup_lt_is_Some_2 (add_all past base) (sem_num s)) as [c Hc]; [rewrite length_add_all; exact Fs |].
  pose proof (lookup_lt_Some _ _ _ Hc) as Hl. rewrite <- (add_all_snoc past s base c Hc). rewrite list_lookup_insert_eq by done. cbn [mbind option_bind semval sempid].
  rewrite list_insert_insert_eq. replace (semval c + sem_op s - sem_op s) with (semval c) by lia.
  rewrite (list_insert_id (add_all past base)); [by apply IH |]. rewrite Hc. by destruct c.
Qed.

Definition code (o : outcome) : Z :=
  match o with Performed => 0 | Out_of_range => - ERANGE | Would_block nowait => if nowait then - EAGAIN else 1 end.

Lemma semop_loop_spec base adj full : sops_ok (length base) adj full ->
  forall sops past, full = past ++ sops ->
  (forall j s, (j < length past)%nat -> full !! j = Some s -> verdict s (value_at base full j s) (adj_at adj s) = None) ->
  (semop_loop sops adj (add_all past base) (reverse past) = Some (Performed, add_all full base, reverse full) /\ applicable base adj full) \/
  exists k o, semop_loop sops adj (add_all past base) (reverse past) = Some (o, add_all (take k full) base, reverse (take k full)) /\
    fails_at base adj full k (code o) /\ o <> Performed.
Proof.
  intros Ok. induction sops as [| s sops IH]; intros past E Hp.
  { rewrite app_nil_r in E. subst past. left. split; [done |]. intros j s Hj. apply Hp; [by eapply lookup_lt_Some | done]. }
  assert (full !! length past = Some s) as Hs by (rewrite E; by rewrite list_lookup_middle).
  assert (take (length past) full = past) as Ht by (rewrite E; apply take_app_length).
  pose proof (proj1 (Forall_lookup _ _) Ok _ _ Hs) as [Hn Hu].
  destruct (lookup_lt_is_Some_2 base (sem_num s) Hn) as [c Hc].
  assert (value_at base full (length past) s = semval c + delta past (sem_num s)) as Ev
    by (unfold value_at; rewrite Ht; by rewrite (nth_lookup_Some _ _ _ _ Hc)).
  assert (forall o, o <> Performed -> verdict s (semval c + delta past (sem_num s)) (adj_at adj s) = Some (code o) ->
    exists k o', Some (o, add_all past base, reverse past) = Some (o', add_all (take k full) base, reverse (take k full)) /\
      fails_at base adj full k (code o') /\ o' <> Performed) as Fail.
  { intros o Ho Hv. exists (length past), o. rewrite Ht. split; [done |]. split; [| done]. split; [exists s; by rewrite Ev | done]. }
  assert (verdict s (semval c + delta past (sem_num s)) (adj_at adj s) = None ->
    let base' := <[sem_num s := mk_sem (semval c + delta past (sem_num s) + sem_op s) (sempid c)]> (add_all past base) in
    (semop_loop sops adj base' (s :: reverse past) = Some (Performed, add_all full base, reverse full) /\ applicable base adj full) \/
    exists k o, semop_loop sops adj base' (s :: reverse past) = Some (o, add_all (take k full) base, reverse (take k full)) /\
      fails_at base adj full k (code o) /\ o <> Performed) as Next.
  { intros Hv base'. pose proof (add_all_snoc past s base (mk_sem (semval c + delta past (sem_num s)) (sempid c))) as Es. cbn [semval sempid] in Es.
    unfold base'. rewrite Es by (by rewrite add_all_lookup, Hc).
    rewrite <- reverse_snoc. apply IH; [by rewrite <- app_assoc |]. intros j s' Hj Hs'. rewrite length_app in Hj. simpl in Hj.
    destruct (decide (j = length past)) as [-> |]; [| apply Hp; [lia | done]]. replace s' with s by congruence. by rewrite Ev. }
  clear IH Hp. cbn [semop_loop]. rewrite add_all_lookup, Hc. cbn [fmap option_fmap option_map mbind option_bind semval sempid].
  unfold verdict in Fail, Next. set (v := semval c + delta past (sem_num s)) in *.
  destruct (Z.eqb_spec (sem_op s) 0) as [E0 | E0], (Z.eqb_spec v 0) as [V0 | V0]; cbn [andb negb];
    try (right; apply Fail; [done |]; rewrite (bool_decide_true (sem_op s = 0 /\ v <> 0)) by done; done);
    rewrite (bool_decide_false (sem_op s = 0 /\ v <> 0)) in Fail, Next by (by intros [? ?]); cbn [orb] in Fail, Next.
  all: destruct (Z.ltb_spec (v + sem_op s) 0) as [L0 | L0];
    [right; apply Fail; [done |]; by rewrite bool_decide_true | rewrite (bool_decide_false (v + sem_op s < 0)) in Fail, Next by lia].
  all: destruct (Z.ltb_spec SEMVMX (v + sem_op s)) as [L1 | L1];
    [right; apply Fail; [done |]; by rewrite bool_decide_true | rewrite (bool_decide_false (SEMVMX < v + sem_op s)) in Fail, Next by lia].
  all: destruct (has SEM_UNDO (sem_flg s)) eqn:Eu; [| by apply Next].
  all: destruct (Hu eq_refl) as (l & -> & Hll); destruct (lookup_lt_is_Some_2 l (sem_num s)) as [x Hx]; [lia |]; cbn [mbind option_bind]; rewrite Hx; cbn [mbind option_bind].
  all: assert (adj_at (Some l) s = x) as Ex by (unfold adj_at; simpl; by rewrite (nth_lookup_Some _ _ _ _ Hx)); rewrite Ex in Fail, Next; cbn [andb] in Fail, Next.
  all: destruct ((x - sem_op s <? - SEMAEM - 1) || (SEMAEM <? x - sem_op s)) eqn:Er; cbn [negb];
    [right; apply Fail; [done |]; rewrite bool_decide_false; [done | lia] | apply Next; rewrite bool_decide_true; [done | lia]].
Qed.

(** The process recorded and the undo values after a request. *)
Definition performed (pid : Z) (sops : list sembuf) (base : list sem) : list sem :=
  imap (fun i c => mk_sem (semval c + delta sops i) (if bool_decide (i ∈ sem_num <$> sops) then pid else sempid c)) base.

Definition taken_back (sops : list sembuf) (adj : list Z) : list Z := imap (fun i x => s16 (x - undo_delta sops i)) adj.

Definition adj_short (adj : option (list Z)) : Prop := forall l, adj = Some l -> Forall (fun x => -32768 <= x < 32768) l.

Definition set_pids (pid : Z) (sops : list sembuf) (base : list sem) : list sem :=
  imap (fun i c => mk_sem (semval c) (if bool_decide (i ∈ sem_num <$> sops) then pid else sempid c)) base.

Lemma s16_range z : -32768 <= s16 z < 32768.
Proof. unfold s16, u16. pose proof (Z.mod_pos_bound z 65536 ltac:(lia)). destruct (Z.ltb_spec (z mod 65536) 32768); lia. Qed.

Lemma s16_sub x y : s16 (s16 x - y) = s16 (x - y).
Proof.
  assert (u16 (s16 x - y) = u16 (x - y)) as E.
  { unfold s16. destruct (u16 x <? 32768); unfold u16; [by rewrite Zminus_mod_idemp_l |].
    replace (x mod 65536 - 65536 - y) with (x mod 65536 - y + (-1) * 65536) by lia. by rewrite Z.mod_add, Zminus_mod_idemp_l by lia. }
  unfold s16 at 1 3. by rewrite E.
Qed.

Lemma commit_spec pid past base adj : sops_ok (length base) adj past -> adj_short adj ->
  commit_loop past pid base adj = Some (set_pids pid past base, taken_back past <$> adj).
Proof.
  revert base adj. induction past as [| s past IH]; intros base adj Ok Sh; simpl.
  { f_equal. f_equal.
    - apply list_eq. intros i. unfold set_pids. rewrite list_lookup_imap. by destruct (base !! i) as [[] |].
    - destruct adj as [l |]; [| done]. simpl. f_equal. specialize (Sh l eq_refl). apply list_eq. intros i. unfold taken_back. rewrite list_lookup_imap.
      destruct (l !! i) as [x |] eqn:Hx; [| done]. simpl. rewrite Z.sub_0_r, s16_id; [done |]. by eapply Forall_lookup in Sh. }
  apply Forall_cons in Ok as [[Hn Hu] Ok']. destruct (lookup_lt_is_Some_2 base (sem_num s) Hn) as [c Hc]. rewrite Hc. cbn [mbind option_bind].
  set (base' := <[sem_num s := mk_sem (semval c) pid]> base).
  assert (set_pids pid past base' = set_pids pid (s :: past) base) as Ep.
  { apply list_eq. intros i. unfold set_pids, base'. rewrite !list_lookup_imap. destruct (decide (i = sem_num s)) as [-> | Hne].
    - rewrite list_lookup_insert_eq, Hc by done. simpl. rewrite (bool_decide_true (sem_num s ∈ sem_num s :: _)) by set_solver. by case_bool_decide.
    - rewrite list_lookup_insert_ne by done. destruct (base !! i) as [d |]; [| done]. simpl. do 2 f_equal.
      rewrite (bool_decide_ext _ (i ∈ sem_num <$> s :: past)); [done |]. rewrite fmap_cons, elem_of_cons. naive_solver. }
  assert (length base' = length base) as Lb by apply length_insert.
  destruct (has SEM_UNDO (sem_flg s)) eqn:Eu.
  - destruct (Hu eq_refl) as (l & -> & Hl). destruct (lookup_lt_is_Some_2 l (sem_num s)) as [x Hx]; [lia |]. cbn [mbind option_bind]. rewrite Hx. cbn [mbind option_bind].
    specialize (Sh l eq_refl). rewrite IH.
    + rewrite Ep. simpl. do 3 f_equal. apply list_eq. intros i. unfold taken_back. rewrite !list_lookup_imap. simpl. rewrite Eu, andb_true_r.
      destruct (Nat.eqb_spec (sem_num s) i) as [<- | Hne].
      * rewrite list_lookup_insert_eq, Hx by lia. simpl. rewrite s16_sub. do 2 f_equal. lia.
      * rewrite list_lookup_insert_ne by done. done.
    + unfold sops_ok in *. rewrite Lb. eapply Forall_impl; [exact Ok' |]. intros s' [? Hu']. split; [done |]. intros Es.
      eexists. split; [done |]. by rewrite length_insert.
    + intros l' [= <-]. apply Forall_insert; [done | apply s16_range].
  - rewrite IH; [| by rewrite Lb | done]. rewrite Ep. do 2 f_equal. destruct adj as [l |]; [| done]. simpl. f_equal. apply list_eq. intros i. unfold taken_back.
    rewrite !list_lookup_imap. simpl. by rewrite Eu, andb_false_r.
Qed.

Lemma undo_delta_app s1 s2 i : undo_delta (s1 ++ s2) i = undo_delta s1 i + undo_delta s2 i.
Proof. induction s1 as [| s s1 IH]; simpl; [done |]. rewrite IH. lia. Qed.

Lemma undo_delta_reverse sops i : undo_delta (reverse sops) i = undo_delta sops i.
Proof.
  induction sops as [| s sops IH]; [done |]. rewrite reverse_cons, undo_delta_app, IH. simpl. lia.
Qed.

Lemma semop_atomic_spec base adj sops pid : sops_ok (length base) adj sops -> adj_short adj ->
  (applicable base adj sops /\ try_atomic_semop base adj sops pid = Some (0, performed pid sops base, taken_back sops <$> adj)) \/
  (exists k e, fails_at base adj sops k e /\ e <> 0 /\ try_atomic_semop base adj sops pid = Some (e, base, adj)).
Proof.
  intros Ok Sh. unfold try_atomic_semop. pose proof (semop_loop_spec base adj sops Ok sops [] eq_refl ltac:(simpl; lia)) as L.
  rewrite add_all_nil in L. change (reverse []) with (@nil sembuf) in L. destruct L as [(-> & A) | (k & o & -> & F & No)]; cbn [mbind option_bind].
  - left. split; [done |]. rewrite commit_spec; [| | done].
    2: { unfold sops_ok. rewrite length_add_all. by apply Forall_reverse. }
    cbn [mbind option_bind]. do 2 f_equal; [f_equal |].
    + apply list_eq. intros i. unfold set_pids, performed. rewrite !list_lookup_imap, add_all_lookup. destruct (base !! i) as [c |]; [| done]. simpl.
      do 2 f_equal. rewrite (bool_decide_ext _ (i ∈ sem_num <$> sops)); [done |]. rewrite fmap_reverse. by rewrite elem_of_reverse.
    + destruct adj as [l |]; [| done]. simpl. f_equal. unfold taken_back. apply imap_ext. intros i x _. by rewrite undo_delta_reverse.
  - right. exists k, (code o). assert (code o <> 0) as Hc by (by destruct o as [| | []]). split; [done |]. split; [done |].
    assert (rollback_loop (reverse (take k sops)) (add_all (take k sops) base) = Some base) as R.
    { apply rollback_spec. apply Forall_take. eapply Forall_impl; [exact Ok |]. by intros s [? _]. }
    destruct o as [| | nowait]; [done | |]; rewrite R; done.
Qed.

(** C17. [try_atomic_semop] performs a list of operations as a whole or not at all. It
    returns 0 exactly when every operation can be performed after the ones before it;
    then the values are the sums, the process is recorded at every semaphore named and
    the undo values go down by the operations with [SEM_UNDO]. Otherwise the first
    operation that cannot be performed decides the result (1 to sleep, [-EAGAIN],
    [-ERANGE]), and nothing is changed. *)
Theorem semop_atomic base adj sops pid : sops_ok (length base) adj sops -> adj_short adj ->
  (applicable base adj sops /\ try_atomic_semop base adj sops pid = Some (0, performed pid sops base, taken_back sops <$> adj)) \/
  (exists k e, fails_at base adj sops k e /\ e <> 0 /\ try_atomic_semop base adj sops pid = Some (e, base, adj)).
Proof. apply semop_atomic_spec. Qed.

(** ** Taking operations back *)

(** A process issues requests one after the other; a request that cannot be performed
    changes nothing. *)
Fixpoint issue (rs : list (list sembuf)) (pid : Z) (base : list sem) (adj : option (list Z)) : option (list sem * option (list Z)) :=
  match rs with
  | [] => Some (base, adj)
  | sops :: rs => '(_, base, adj) ← try_atomic_semop base adj sops pid; issue rs pid base adj
  end.

Definition vals_ok (base : list sem) : Prop := Forall (fun s => 0 <= semval s <= SEMVMX) base.

Lemma delta_undo sops i : Forall (fun s => has SEM_UNDO (sem_flg s) = true) sops -> undo_delta sops i = delta sops i.
Proof.
  induction 1 as [| s sops Hs _ IH]; simpl; [done |]. rewrite Hs, andb_true_r, IH. done.
Qed.

(** The last operation on a semaphore leaves it in range. *)
Lemma applicable_range base adj sops i c : base !! i = Some c -> 0 <= semval c <= SEMVMX -> applicable base adj sops ->
  0 <= semval c + delta sops i <= SEMVMX.
Proof.
  intros Hc Hr. induction sops as [| s sops IH] using rev_ind; intros A; [simpl; lia |].
  assert (applicable base adj sops) as A'.
  { intros j s' Hj. specialize (A j s' (lookup_app_l_Some _ _ _ _ Hj)). unfold value_at in *. rewrite take_app_le in A; [done |].
    apply lookup_lt_Some in Hj. lia. }
  specialize (IH A'). rewrite delta_app. simpl. destruct (Nat.eqb_spec (sem_num s) i) as [E | E]; [| lia].
  specialize (A (length sops) s ltac:(by rewrite list_lookup_middle)). unfold value_at, verdict in A.
  rewrite take_app_length, E, (nth_lookup_Some _ _ _ _ Hc) in A.
  destruct (bool_decide (semval c + delta sops i + sem_op s < 0)) eqn:B0; [by rewrite orb_true_r in A |]. rewrite orb_false_r in A.
  destruct (bool_decide (sem_op s = 0 /\ _)); [done |].
  destruct (bool_decide (SEMVMX < semval c + delta sops i + sem_op s)) eqn:B1; [done |].
  apply bool_decide_eq_false in B0, B1. lia.
Qed.

Lemma performed_ok base adj sops pid : vals_ok base -> applicable base adj sops -> vals_ok (performed pid sops base).
Proof.
  intros V A. apply Forall_lookup. intros i c. unfold performed. rewrite list_lookup_imap. destruct (base !! i) as [d |] eqn:Hd; [| done].
  intros [= <-]. simpl. eapply applicable_range; [done | | done]. by eapply Forall_lookup in V.
Qed.

(** The undo values are what is missing to the values [base0] at the beginning. *)
Definition owed (base0 base : list sem) (adj : list Z) : Prop :=
  forall i c0, base0 !! i = Some c0 -> exists c x, base !! i = Some c /\ adj !! i = Some x /\ x = semval c0 - semval c.

Lemma issue_spec rs pid base0 base adj :
  Forall (Forall (fun s => (sem_num s < length base0)%nat /\ has SEM_UNDO (sem_flg s) = true)) rs ->
  vals_ok base0 -> vals_ok base -> length base = length base0 -> length adj = length base0 -> owed base0 base adj ->
  exists base' adj', issue rs pid base (Some adj) = Some (base', Some adj') /\ vals_ok base' /\ length base' = length base0 /\
    length adj' = length base0 /\ owed base0 base' adj'.
Proof.
  intros F V0. revert base adj. induction F as [| sops rs Fs Frs IH]; intros base adj V Lb La O; [by exists base, adj |].
  assert (Forall (fun x => -32768 <= x < 32768) adj) as Sh.
  { apply Forall_lookup. intros i x Hx. destruct (lookup_lt_is_Some_2 base0 i) as [c0 Hc0]; [rewrite <- La; by eapply lookup_lt_Some |].
    destruct (O i c0 Hc0) as (c & x' & Hc & Hx' & ->). rewrite Hx in Hx'. injection Hx' as ->.
    pose proof (proj1 (Forall_lookup _ _) V0 _ _ Hc0) as R0. pose proof (proj1 (Forall_lookup _ _) V _ _ Hc) as R1. unfold SEMVMX in *. simpl in *. lia. }
  destruct (semop_atomic_spec base (Some adj) sops pid) as [(A & E) | (k & e & _ & _ & E)].
  - eapply Forall_impl; [exact Fs |]. intros s [? _]. split; [lia |]. intros _. exists adj. split; [done | lia].
  - by intros l [= <-].
  - cbn [issue]. rewrite E. cbn [mbind option_bind]. apply IH; [by eapply performed_ok | unfold performed; by rewrite length_imap | simpl; unfold taken_back; by rewrite length_imap |].
    intros i c0 Hc0. destruct (O i c0 Hc0) as (c & x & Hc & Hx & ->). unfold performed, taken_back. rewrite !list_lookup_imap, Hc, Hx. simpl.
    eexists _, _. split; [done |]. split; [done |]. simpl. rewrite delta_undo by (eapply Forall_impl; [exact Fs |]; by intros s [_ ?]).
    pose proof (proj1 (Forall_lookup _ _) V0 _ _ Hc0) as R0. pose proof (applicable_range base (Some adj) sops i c Hc) as R1.
    specialize (R1 (proj1 (Forall_lookup _ _) V _ _ Hc) A). simpl in R0. rewrite s16_id; unfold SEMVMX in *; lia.
  - cbn [issue]. rewrite E. cbn [mbind option_bind]. by apply IH.
Qed.

(** A process that is alone and whose requests all have [SEM_UNDO] leaves no trace: the
    adjustments of [exit_sem] give every semaphore the value it had before the first
    request, whatever requests were performed or refused. *)
Lemma undo_restores_alone rs pid tgid base :
  vals_ok base -> Forall (Forall (fun s => (sem_num s < length base)%nat /\ has SEM_UNDO (sem_flg s) = true)) rs ->
  exists base' adj', issue rs pid base (Some (replicate (length base) 0)) = Some (base', Some adj') /\
    semval <$> zip_with (adjust tgid) base' adj' = semval <$> base.
Proof.
  intros V F. destruct (issue_spec rs pid base base (replicate (length base) 0)) as (base' & adj' & E & V' & L1 & L2 & O); try done.
  - apply length_replicate.
  - intros i c Hc. exists c, 0. split; [done |]. split; [apply lookup_replicate_2; by eapply lookup_lt_Some | lia].
  - exists base', adj'. split; [done |]. apply list_eq. intros i. rewrite !list_lookup_fmap, lookup_zip_with.
    destruct (base !! i) as [c |] eqn:Hc.
    + destruct (O i c Hc) as (c' & x & Hc' & Hx & ->). rewrite Hc', Hx. simpl. f_equal. pose proof (proj1 (Forall_lookup _ _) V _ _ Hc) as R.
      simpl in R. unfold adjust. destruct (Z.eqb_spec (semval c - semval c') 0); [lia |]. cbn [semval].
      replace (semval c' + (semval c - semval c')) with (semval c) by lia. rewrite (proj2 (Z.ltb_ge (semval c) 0)) by lia. rewrite (proj2 (Z.ltb_ge _ _)) by lia. done.
    + assert (base' !! i = None) as -> by (apply lookup_ge_None_2; apply lookup_ge_None_1 in Hc; lia). done.
Qed.

(** What happens to the semaphores of a set while a process uses them, with the undo
    values of the process and the values [due]: those the semaphores would have
    without it. The process has a request performed or refused (all its operations with
    [SEM_UNDO], no semaphore named twice), other processes change the values by their
    operations, [SETVAL] sets one semaphore and [SETALL] all of them, and both clear the
    undo values. *)
Inductive meanwhile (pid : Z) : list sem * list Z * list Z -> list sem * list Z * list Z -> Prop :=
  | own_request base adj due sops e base' adj' :
      NoDup (sem_num <$> sops) ->
      Forall (fun s => (sem_num s < length base)%nat /\ has SEM_UNDO (sem_flg s) = true) sops ->
      try_atomic_semop base (Some adj) sops pid = Some (e, base', Some adj') ->
      meanwhile pid (base, adj, due) (base', adj', due)
  | others_change base adj due base' :
      length base' = length base -> vals_ok base' ->
      meanwhile pid (base, adj, due)
        (base', adj, imap (fun i d => d + (semval (nth i base' (mk_sem 0 0)) - semval (nth i base (mk_sem 0 0)))) due)
  | one_set base adj due i v p :
      0 <= v <= SEMVMX -> meanwhile pid (base, adj, due) (<[i := mk_sem v p]> base, <[i := 0]> adj, <[i := v]> due)
  | all_set base adj due base' :
      length base' = length base -> vals_ok base' ->
      meanwhile pid (base, adj, due) (base', replicate (length base) 0, semval <$> base').

(** The undo values are what is missing to the values that are due. *)
Definition accounted (n : nat) (st : list sem * list Z * list Z) : Prop :=
  let '(base, adj, due) := st in
  vals_ok base /\ length base = n /\ length adj = n /\ length due = n /\ adj_short (Some adj) /\
  forall i c x d, base !! i = Some c -> adj !! i = Some x -> due !! i = Some d -> semval c + x = d.

Lemma insert_same {A} (l : list A) i y x : <[i := y]> l !! i = Some x -> y = x.
Proof. by intros [(_ & -> & _) | (? & _)]%list_lookup_insert_Some. Qed.

Lemma delta_absent sops i : i ∉ (sem_num <$> sops) -> delta sops i = 0.
Proof.
  induction sops as [| s sops IH]; [done |]. rewrite fmap_cons, not_elem_of_cons. intros [H1 H2]. simpl.
  rewrite (proj2 (Nat.eqb_neq _ _)) by done. by rewrite IH.
Qed.

(** The change that a request without a semaphore named twice makes was checked. *)
Lemma applicable_undo base adj sops i x : NoDup (sem_num <$> sops) ->
  Forall (fun s => has SEM_UNDO (sem_flg s) = true) sops -> applicable base (Some adj) sops ->
  adj !! i = Some x -> -32768 <= x < 32768 -> -32768 <= x - delta sops i < 32768.
Proof.
  intros Nd Fu A Hx Hr. destruct (decide (i ∈ sem_num <$> sops)) as [Hi | Hi]; [| rewrite delta_absent by done; lia].
  apply list_elem_of_fmap in Hi as (s & -> & Hs). apply list_elem_of_split in Hs as (l1 & l2 & ->).
  rewrite fmap_app, fmap_cons in Nd. apply NoDup_app in Nd as (_ & N1 & N2). apply NoDup_cons in N2 as [N2 _].
  rewrite delta_app. simpl. rewrite Nat.eqb_refl, (delta_absent l2) by done.
  rewrite (delta_absent l1) by (intros H; apply (N1 _ H); by left).
  specialize (A (length l1) s ltac:(by rewrite list_lookup_middle)). unfold verdict, adj_at in A. simpl in A.
  rewrite (nth_lookup_Some _ _ _ _ Hx) in A. rewrite Forall_app, Forall_cons in Fu. destruct Fu as (_ & Hu & _).
  rewrite Hu in A. cbn [andb] in A. unfold SEMAEM, SEMVMX in A. repeat case_match; try done.
  match goal with H : negb (bool_decide _) = false |- _ => apply negb_false_iff, bool_decide_eq_true in H end. lia.
Qed.

Lemma own_request_accounted n pid base adj due sops e base' adj' :
  accounted n (base, adj, due) -> NoDup (sem_num <$> sops) ->
  Forall (fun s => (sem_num s < length base)%nat /\ has SEM_UNDO (sem_flg s) = true) sops ->
  try_atomic_semop base (Some adj) sops pid = Some (e, base', Some adj') -> accounted n (base', adj', due).
Proof.
  intros (V & Lb & La & Ld & Sh & O) Nd F E.
  assert (Forall (fun s => has SEM_UNDO (sem_flg s) = true) sops) as Fu by (eapply Forall_impl; [exact F |]; by intros s [_ ?]).
  destruct (semop_atomic_spec base (Some adj) sops pid) as [(A & E1) | (k & e1 & _ & _ & E1)].
  - eapply Forall_impl; [exact F |]. intros s [? _]. split; [lia |]. intros _. exists adj. split; [done | lia].
  - done.
  - rewrite E in E1. injection E1 as _ -> ->. unfold accounted, performed, taken_back. rewrite !length_imap.
    split; [by eapply performed_ok |]. split; [done |]. split; [done |]. split; [done |]. split.
    + intros l [= <-]. apply Forall_lookup. intros i x. rewrite list_lookup_imap. destruct (adj !! i); [| done].
      intros [= <-]. apply s16_range.
    + intros i c x d. rewrite !list_lookup_imap. destruct (base !! i) as [c0 |] eqn:Hc; [| done].
      destruct (adj !! i) as [x0 |] eqn:Hx; [| done]. intros [= <-] [= <-] Hd. simpl.
      rewrite delta_undo by done. pose proof (O i c0 x0 d Hc Hx Hd) as Hv.
      pose proof (applicable_undo base adj sops i x0 Nd Fu A Hx (proj1 (Forall_lookup _ _) (Sh _ eq_refl) _ _ Hx)) as Hr.
      rewrite s16_id by lia. lia.
  - rewrite E in E1. by injection E1 as _ -> ->.
Qed.

Lemma meanwhile_accounted n pid st st' : meanwhile pid st st' -> accounted n st -> accounted n st'.
Proof.
  intros [base adj due sops e base' adj' Nd F E | base adj due base' L V' | base adj due j v p Hv | base adj due base' L V'].
  - intros A. by eapply own_request_accounted.
  - intros (V & Lb & La & Ld & Sh & O). unfold accounted. rewrite length_imap. split_and!; try done; [congruence |].
    intros i c x d Hc Hx. rewrite list_lookup_imap. destruct (due !! i) as [d0 |] eqn:Hd; [| done]. intros [= <-].
    destruct (lookup_lt_is_Some_2 base i) as [c0 Hc0]; [apply lookup_lt_Some in Hc; lia |].
    rewrite (nth_lookup_Some _ _ _ _ Hc), (nth_lookup_Some _ _ _ _ Hc0). pose proof (O i c0 x d0 Hc0 Hx Hd). lia.
  - intros (V & Lb & La & Ld & Sh & O). unfold accounted. rewrite !length_insert. split_and!; try done.
    + by apply Forall_insert.
    + intros l [= <-]. apply Forall_insert; [by apply Sh | lia].
    + intros i c x d. destruct (decide (j = i)) as [-> | Hne]; [| rewrite !list_lookup_insert_ne by done; by apply O].
      intros <-%insert_same <-%insert_same <-%insert_same. simpl. lia.
  - intros (V & Lb & La & Ld & Sh & O). unfold accounted. rewrite length_replicate, length_fmap. split_and!; try lia; try done.
    + intros l [= <-]. apply Forall_replicate. lia.
    + intros i c x d Hc Hx. rewrite list_lookup_fmap, Hc. apply lookup_replicate in Hx as [-> _]. intros [= <-]. lia.
Qed.

(** C18. Exit takes back what the process did and nothing else. While the process issues
    requests with [SEM_UNDO] that name no semaphore twice, performed or refused, other
    processes may change the values, and [SETVAL] and [SETALL] may set them: the
    adjustments of [exit_sem] then give every semaphore the value from before the first
    request, or the one that it was set to last, plus the sum of the changes that others
    made since, brought into the range from 0 to [SEMVMX]. Without others that is the
    value before the first request. *)
Theorem undo_restores pid tgid base0 base adj due :
  vals_ok base0 -> rtc (meanwhile pid) (base0, replicate (length base0) 0, semval <$> base0) (base, adj, due) ->
  semval <$> zip_with (adjust tgid) base adj = (fun v => Z.max 0 (Z.min SEMVMX v)) <$> due.
Proof.
  intros V H. remember (base0, replicate (length base0) 0, semval <$> base0) as st0 eqn:E0.
  remember (base, adj, due) as st eqn:E. assert (accounted (length base0) st) as A.
  { assert (accounted (length base0) st0) as A0.
    { subst st0. simpl. rewrite length_replicate, length_fmap. split_and!; try done.
      - intros l [= <-]. apply Forall_replicate. lia.
      - intros i c x d Hc Hx. rewrite list_lookup_fmap, Hc. apply lookup_replicate in Hx as [-> _]. intros [= <-]. lia. }
    clear E0 E. induction H as [| ? ? ? St _ IH]; [done |]. eauto using meanwhile_accounted. }
  subst st. destruct A as (Vb & Lb & La & Ld & Sh & O). apply list_eq. intros i. rewrite !list_lookup_fmap, lookup_zip_with.
  destruct (base !! i) as [c |] eqn:Hc.
  - pose proof (lookup_lt_Some _ _ _ Hc) as Hi. destruct (lookup_lt_is_Some_2 adj i) as [x Hx]; [lia |].
    destruct (lookup_lt_is_Some_2 due i) as [d Hd]; [lia |]. rewrite Hx, Hd. simpl. f_equal.
    pose proof (O i c x d Hc Hx Hd) as <-. pose proof (proj1 (Forall_lookup _ _) Vb _ _ Hc) as R. simpl in R. unfold adjust.
    destruct (Z.eqb_spec x 0); [lia |]. cbn [semval]. destruct (Z.ltb_spec (semval c + x) 0); [unfold SEMVMX in *; simpl; lia |].
    destruct (Z.ltb_spec SEMVMX (semval c + x)); lia.
  - apply lookup_ge_None_1 in Hc. by rewrite (lookup_ge_None_2 due) by lia.
Qed.

(** ** Waking sleepers *)

(** The operands of a queued request exist. *)
Definition queue_ok (nsems : nat) (us : gmap Z sem_undo) (q : sem_queue) : Prop :=
  sops_ok nsems (adj_of us (q_undo q)) (q_sops q) /\ adj_short (adj_of us (q_undo q)).

(** A request that has to sleep. *)
Definition stuck (base : list sem) (us : gmap Z sem_undo) (q : sem_queue) : Prop :=
  exists k, fails_at base (adj_of us (q_undo q)) (q_sops q) k 1.

Definition alters (q : sem_queue) : Prop := exists s, s ∈ q_sops q /\ sem_op s <> 0.

Lemma set_base_id a : set_base (sem_base a) a = a.
Proof. by destruct a. Qed.

Lemma store_adj_id us un : store_adj us un (adj_of us un) = us.
Proof.
  unfold store_adj, adj_of. destruct un as [p |]; [| done]. destruct (us !! p) as [u |] eqn:E; [| done]. simpl.
  apply map_eq. intros p'. destruct (decide (p = p')) as [<- |]; [| by rewrite lookup_alter_ne].
  rewrite lookup_alter_eq, E. simpl. by destruct u.
Qed.

Lemma fails_code base adj sops k e : fails_at base adj sops k e -> e = 1 \/ e = - EAGAIN \/ e = - ERANGE.
Proof.
  intros [(s & _ & V) _]. unfold verdict in V. repeat case_match; simplify_eq; tauto.
Qed.

Lemma try_array_spec now a us sops un pid :
  sops_ok (length (sem_base a)) (adj_of us un) sops -> adj_short (adj_of us un) ->
  (applicable (sem_base a) (adj_of us un) sops /\
   try_array now a us sops un pid =
     Some (0, set_otime now (set_base (performed pid sops (sem_base a)) a), store_adj us un (taken_back sops <$> adj_of us un))) \/
  (exists k e, fails_at (sem_base a) (adj_of us un) sops k e /\ e <> 0 /\ try_array now a us sops un pid = Some (e, a, us)).
Proof.
  intros Ok Sh. unfold try_array. destruct (semop_atomic_spec _ _ _ pid Ok Sh) as [(A & E) | (k & e & F & N & E)]; rewrite E; cbn [mbind option_bind].
  - left. by split.
  - right. exists k, e. rewrite (proj2 (Z.eqb_neq e 0)) by done. by rewrite set_base_id, store_adj_id.
Qed.

(** What stays the same: the undo structures, up to their values. *)
Definition same_undos (us us' : gmap Z sem_undo) : Prop :=
  forall p, match us !! p, us' !! p with
            | Some u, Some u' => un_semid u' = un_semid u /\ length (semadj u') = length (semadj u) /\
                (Forall (fun x => -32768 <= x < 32768) (semadj u) -> Forall (fun x => -32768 <= x < 32768) (semadj u'))
            | None, None => True
            | _, _ => False
            end.

Lemma same_undos_refl us : same_undos us us.
Proof. intros p. by destruct (us !! p). Qed.

Lemma same_undos_trans us1 us2 us3 : same_undos us1 us2 -> same_undos us2 us3 -> same_undos us1 us3.
Proof.
  intros H12 H23 p. specialize (H12 p). specialize (H23 p). destruct (us1 !! p), (us2 !! p), (us3 !! p); try done. naive_solver congruence.
Qed.

Lemma same_undos_store us un sops : same_undos us (store_adj us un (taken_back sops <$> adj_of us un)).
Proof.
  unfold store_adj, adj_of. destruct un as [p |]; [| apply same_undos_refl]. destruct (us !! p) as [u |] eqn:E; [| apply same_undos_refl]. simpl.
  intros p'. destruct (decide (p = p')) as [<- | Hne].
  - rewrite lookup_alter_eq, E. simpl. split; [done |]. unfold taken_back. split; [apply length_imap |]. intros _. apply Forall_lookup. intros i x.
    rewrite list_lookup_imap. intros (y & _ & ->)%fmap_Some. apply s16_range.
  - rewrite lookup_alter_ne by done. by destruct (us !! p').
Qed.

Lemma same_undos_adj us us' un : same_undos us us' ->
  (forall l, adj_of us un = Some l -> exists l', adj_of us' un = Some l' /\ length l' = length l) /\ (adj_short (adj_of us un) -> adj_short (adj_of us' un)).
Proof.
  intros H. unfold adj_of, adj_short. destruct un as [p |]; [| done]. specialize (H p). destruct (us !! p), (us' !! p); try done. simpl. naive_solver.
Qed.

Lemma queue_ok_same n us us' q : same_undos us us' -> queue_ok n us q -> queue_ok n us' q.
Proof.
  intros H [Ok Sh]. destruct (same_undos_adj us us' (q_undo q) H) as [Hl Hs]. split; [| auto]. eapply Forall_impl; [exact Ok |].
  intros s [? Hu]. split; [done |]. intros (l & El & Ll)%Hu. destruct (Hl l El) as (l' & ? & ?). exists l'. split; [done | lia].
Qed.

(** Same values and undo values: the same requests are stuck. *)
Definition same_values (base base' : list sem) (us us' : gmap Z sem_undo) : Prop :=
  (forall i, semval <$> base' !! i = semval <$> base !! i) /\ forall un, adj_of us' un = adj_of us un.

Lemma same_values_trans b1 b2 b3 u1 u2 u3 : same_values b1 b2 u1 u2 -> same_values b2 b3 u2 u3 -> same_values b1 b3 u1 u3.
Proof. intros [A B] [C D]. split; intros; [rewrite C; apply A | rewrite D; apply B]. Qed.

Lemma same_values_nth base base' us us' i : same_values base base' us us' -> semval (nth i base' (mk_sem 0 0)) = semval (nth i base (mk_sem 0 0)).
Proof. intros [A _]. specialize (A i). rewrite !nth_lookup. destruct (base !! i), (base' !! i); simplify_eq/=; congruence. Qed.

Lemma stuck_same base base' us us' q : same_values base base' us us' -> stuck base us q -> stuck base' us' q.
Proof.
  intros S (k & (s & Hs & V) & Hj). exists k. unfold fails_at, value_at in *. rewrite (proj2 S). split.
  - exists s. split; [done |]. rewrite (same_values_nth _ _ _ _ _ S). done.
  - intros j s' Hlt Hs'. rewrite (same_values_nth _ _ _ _ _ S). by apply Hj.
Qed.

Lemma delta_idle sops i : (forall s, s ∈ sops -> sem_op s = 0) -> delta sops i = 0 /\ undo_delta sops i = 0.
Proof.
  induction sops as [| s sops IH]; intros H; [done |]. simpl. destruct IH as [-> ->]; [set_solver |]. rewrite (H s) by set_solver. by repeat case_match.
Qed.

Lemma idle_same_values q base us : ~ alters q -> adj_short (adj_of us (q_undo q)) ->
  same_values base (performed (q_pid q) (q_sops q) base) us (store_adj us (q_undo q) (taken_back (q_sops q) <$> adj_of us (q_undo q))).
Proof.
  intros Na Sh. assert (forall s, s ∈ q_sops q -> sem_op s = 0) as Z0.
  { intros s Hs. destruct (decide (sem_op s = 0)); [done |]. destruct Na. by exists s. }
  split.
  - intros i. unfold performed. rewrite list_lookup_imap. destruct (base !! i) as [c |]; [| done]. simpl. destruct (delta_idle _ i Z0) as [-> _]. f_equal. lia.
  - assert (taken_back (q_sops q) <$> adj_of us (q_undo q) = adj_of us (q_undo q)) as ->; [| by rewrite store_adj_id].
    destruct (adj_of us (q_undo q)) as [l |]; [| done]. simpl. f_equal. apply list_eq. intros i. unfold taken_back. rewrite list_lookup_imap.
    destruct (l !! i) as [x |] eqn:Hx; [| done]. simpl. destruct (delta_idle _ i Z0) as [_ ->]. rewrite Z.sub_0_r, s16_id; [done |].
    specialize (Sh l eq_refl). by eapply Forall_lookup in Sh.
Qed.

(** The results of a scan, one for each request. *)
Definition scan_result (qs : list sem_queue) (es : list Z) (kept : list sem_queue) (woken : list (Z * Z)) : Prop :=
  length es = length qs /\ kept = (zip qs es ≫= fun '(q, e) => if e <=? 0 then [] else [q]) /\
  woken = (zip qs es ≫= fun '(q, e) => if e <=? 0 then [(q_sleeper q, e)] else []).

Lemma update_loop_spec now qs a us : vals_ok (sem_base a) -> Forall (queue_ok (length (sem_base a)) us) qs ->
  exists a' us' es kept woken, update_loop now qs a us = Some (a', us', kept, woken) /\ scan_result qs es kept woken /\
    Forall (fun e => e = 0 \/ e = 1 \/ e = - EAGAIN \/ e = - ERANGE) es /\
    (exists b t, a' = set_otime t (set_base b a) /\ length b = length (sem_base a) /\ vals_ok b) /\ same_undos us us' /\
    ((forall j q, qs !! j = Some q -> es !! j = Some 0 -> ~ alters q) -> same_values (sem_base a) (sem_base a') us us') /\
    (forall i q, qs !! i = Some q -> es !! i = Some 1 ->
       (forall j q', (i < j)%nat -> qs !! j = Some q' -> es !! j = Some 0 -> ~ alters q') -> stuck (sem_base a') us' q).
Proof.
  revert a us. induction qs as [| q qs IH]; intros a us V F.
  { exists a, us, [], [], []. split; [done |]. split; [done |]. split; [done |]. split; [exists (sem_base a), (sem_otime a); by destruct a |].
    split; [apply same_undos_refl |]. split; [| done]. done. }
  inversion_clear F as [| ? ? Fq Fqs]. destruct Fq as [Ok Sh]. cbn [update_loop].
  destruct (try_array_spec now a us (q_sops q) (q_undo q) (q_pid q) Ok Sh) as [(A & E) | (k & e & Fl & Ne & E)]; rewrite E; cbn [mbind option_bind].
  - set (us1 := store_adj us _ _). set (a1 := set_otime now _).
    assert (same_undos us us1) as S1 by apply same_undos_store.
    assert (length (sem_base a1) = length (sem_base a)) as L1 by apply length_imap.
    destruct (IH a1 us1) as (a' & us' & es & kept & woken & -> & (Le & -> & ->) & Fe & (b & t & -> & Lb & Vb) & S2 & Sv & St).
    { by eapply performed_ok. } { rewrite L1. eapply Forall_impl; [exact Fqs |]. intros q'. by apply queue_ok_same. }
    cbn [mbind option_bind]. eexists _, _, (0 :: es), _, _. split; [done |]. split; [split; [simpl; lia | split; done] |]. split; [constructor; [by left | done] |].
    split; [exists b, t; split; [done | split; [by rewrite Lb, L1 | done]] |]. split; [by eapply same_undos_trans |]. split.
    + intros H. eapply same_values_trans; [apply (idle_same_values q); [by apply (H 0%nat) | done] |]. apply Sv. intros j q' Hj He. by apply (H (S j)).
    + intros [| i] q' Hi He Hl; [done |]. eapply St; [done | done |]. intros j q'' Hlt Hj Hej. apply (Hl (S j)); [lia | done | done].
  - destruct (IH a us V Fqs) as (a' & us' & es & kept & woken & -> & (Le & -> & ->) & Fe & Hb & S2 & Sv & St).
    cbn [mbind option_bind]. pose proof (fails_code _ _ _ _ _ Fl) as Ec.
    exists a', us', (e :: es), (zip (q :: qs) (e :: es) ≫= fun '(q, e) => if e <=? 0 then [] else [q]),
      (zip (q :: qs) (e :: es) ≫= fun '(q, e) => if e <=? 0 then [(q_sleeper q, e)] else []).
    split; [simpl; by destruct (e <=? 0) |]. split; [split; [simpl; lia | done] |].
    split; [constructor; [by right | done] |]. split; [done |]. split; [done |]. split.
    + intros H. apply Sv. intros j q' Hj He. by apply (H (S j)).
    + intros [| i] q' Hi He Hl.
      * injection Hi as ->. injection He as ->. eapply stuck_same; [| by exists k]. apply Sv. intros j q'' Hj Hej. apply (Hl (S j)); [lia | done | done].
      * eapply St; [done | done |]. intros j q'' Hlt Hj Hej. apply (Hl (S j)); [lia | done | done].
Qed.

(** [update_queue] gives every request of the queue one turn, in order: those that
    can be performed, or fail, at their turn leave the queue and their tasks are woken
    with the result, the others stay in their order. A request that stays cannot be
    performed afterwards either, unless one behind it in the queue was performed and
    changed a value. *)
Lemma update_queue_wakes now a us : vals_ok (sem_base a) -> Forall (queue_ok (length (sem_base a)) us) (sem_pending a) ->
  exists a' us' woken es, update_queue now a us = Some (a', us', woken) /\
    scan_result (sem_pending a) es (sem_pending a') woken /\ vals_ok (sem_base a') /\
    forall i q, sem_pending a !! i = Some q -> es !! i = Some 1 ->
      (forall j q', (i < j)%nat -> sem_pending a !! j = Some q' -> es !! j = Some 0 -> ~ alters q') ->
      q ∈ sem_pending a' /\ stuck (sem_base a') us' q.
Proof.
  intros V F. destruct (update_loop_spec now (sem_pending a) a us V F) as (a' & us' & es & kept & woken & E & R & _ & (b & t & -> & _ & Vb) & _ & _ & St).
  unfold update_queue. rewrite E. cbn [mbind option_bind]. eexists _, us', woken, es. split; [done |]. cbn [sem_pending set_pending sem_base].
  split; [done |]. split; [done |]. intros i q Hq He Hl. split; [| by eapply St].
  destruct R as (Le & -> & _). apply list_elem_of_bind. exists (q, 1). split; [by left |].
  apply list_elem_of_lookup. exists i. by rewrite lookup_zip_with, Hq, He.
Qed.

(** ** Examples *)

Definition ex_user : subject := mk_subject 500 500 (fun _ => false) (fun _ => false).
Definition op (n : nat) (v flg : Z) : sembuf := mk_sembuf n v flg.

(** Each operation is checked against the undo value before the request: together they
    can leave the range of a short, and the process would give back 25536. *)
Lemma undo_wraps : try_atomic_semop [mk_sem 0 0] (Some [-20000]) [op 0 10000 SEM_UNDO; op 0 10000 SEM_UNDO] 7 =
  Some (0, [mk_sem 20000 7], Some [25536]).
Proof. vm_compute. reflexivity. Qed.

Lemma semop_atomic_witness : let base := [mk_sem 2 0; mk_sem 0 0] in let sops := [op 0 (-1) SEM_UNDO; op 1 3 0] in let adj := Some [0; 0] in
  (applicable base adj sops /\ try_atomic_semop base adj sops 7 = Some (0, performed 7 sops base, taken_back sops <$> adj)) \/
  (exists k e, fails_at base adj sops k e /\ e <> 0 /\ try_atomic_semop base adj sops 7 = Some (e, base, adj)).
Proof.
  apply semop_atomic.
  - repeat constructor; intros _; by exists [0; 0].
  - intros l [= <-]. repeat constructor; lia.
Defined.

(** A process takes one unit and gives three, another one takes two of these, and
    exit takes all three back: the second semaphore stays at 0. *)
Lemma undo_restores_witness :
  semval <$> zip_with (adjust 7) [mk_sem 1 7; mk_sem 1 8] [1; -3] = (fun v => Z.max 0 (Z.min SEMVMX v)) <$> [2; -2].
Proof.
  apply (undo_restores 7 7 [mk_sem 2 0; mk_sem 0 0]); [repeat constructor; vm_compute; congruence |].
  eapply rtc_l; [eapply (own_request _ _ _ _ [op 0 (-1) SEM_UNDO; op 1 3 SEM_UNDO]) |].
  - apply (bool_decide_unpack _). vm_compute. exact I.
  - repeat constructor; vm_compute; lia.
  - vm_compute. reflexivity.
  - apply rtc_once, (others_change 7 [mk_sem 1 7; mk_sem 3 7] [1; -3] [2; 0] [mk_sem 1 7; mk_sem 1 8]); [done |].
    repeat constructor; vm_compute; congruence.
Defined.

Definition ex_set : sem_array :=
  mk_sma (mk_perm false 0 500 500 500 500 438 0) 0 0 [mk_sem 2 0]
    [mk_queue 11 None 11 [op 0 0 0]; mk_queue 10 None 10 [op 0 (-2) 0]; mk_queue 13 None 13 [op 0 (-1) 0]] [] 1.
