(* ===== verification/SemSafe.v ===== *)
(** * System V semaphores: the whole system

    The invariant of the state of Sem.v and that every section of every system call, of
    fork and of exit preserves it, and the runs of all tasks together: [sem_system_safe].
    The sections of [Sem.exec] are taken one by one; each leaves a state that satisfies
    [inv] and has used at most one sequence number ([good]). *)

From stdpp Require Import list gmap.
From S2P Require Import Prelude IpcUtil Sem.

(** ** Invariant of the system *)

(** The identifier of the set at place [lid]. *)
Definition sid (lid : nat) (a : sem_array) : Z := ipc_buildid (Z.of_nat lid) (p_seq (sem_perm a)).

(** The undo structure [u] is on the list of task [t]. *)
Definition owner (w : world) (t u : Z) : Prop :=
  exists ul l, undo_list_of w !! t = Some ul /\ ulists w !! ul = Some l /\ u ∈ proc_list l.

(** The number of tasks that share a list. *)
Definition users (w : world) (ul : Z) : Z := Z.of_nat (size (filter (fun kv => kv.2 = ul) (undo_list_of w))).

(** An identifier that was given out and whose set is gone. *)
Definition dead (w : world) (id : Z) : Prop :=
  Z.quot id SEQ_MULTIPLIER < ids_seq (sem_ids w) /\ forall lid a, live (sem_ids w) lid a -> sid lid a <> id.

(** What a sleeper waits for. *)
Definition waits (q : sem_queue) : Prop := exists s, s ∈ q_sops q /\ sem_op s <= 0 /\ has IPC_NOWAIT (sem_flg s) = false.

Definition pending_ok (w : world) (lid : nat) (a : sem_array) (q : sem_queue) : Prop :=
  Forall (fun s => (sem_num s < length (sem_base a))%nat /\ (has SEM_UNDO (sem_flg s) = true -> is_Some (q_undo q))) (q_sops q) /\
  (forall u, q_undo q = Some u -> u ∈ sma_undo a /\ owner w (q_sleeper q) u) /\
  (exists r, pcs w !! q_sleeper q = Some (Asleep r) /\ r_semid r = sid lid a) /\
  status_of w !! q_sleeper q = Some (- EINTR) /\ waits q.

Definition array_ok (w : world) (lid : nat) (a : sem_array) : Prop :=
  vals_ok (sem_base a) /\ sma_ptr a < next_addr w /\ NoDup (sma_undo a) /\
  (forall u, u ∈ sma_undo a -> exists un, undos w !! u = Some un /\ un_semid un = sid lid a /\ length (semadj un) = length (sem_base a)) /\
  NoDup (q_sleeper <$> sem_pending a) /\ Forall (pending_ok w lid a) (sem_pending a).

Definition pc_ok (w : world) (t : Z) (p : pc) : Prop :=
  match p with
  | FindUndo r ptr nsems =>
      0 <= r_semid r /\ ptr < next_addr w /\ is_Some (undo_list_of w !! t) /\
      forall lid a, live (sem_ids w) lid a -> sma_ptr a = ptr -> length (sem_base a) = nsems /\ sid lid a = r_semid r
  | TrySemop r un =>
      0 <= r_semid r /\ (r_undos r = true -> is_Some un) /\
      forall u, un = Some u -> u < next_addr w /\
        ((exists v, undos w !! u = Some v /\ un_semid v = r_semid r /\ owner w t u) \/
         (dead w (r_semid r) /\ forall v, undos w !! u = Some v -> un_semid v = -1))
  | Asleep r =>
      exists st, status_of w !! t = Some st /\
        (st = - EINTR -> exists lid a, live (sem_ids w) lid a /\ sid lid a = r_semid r /\ t ∈ q_sleeper <$> sem_pending a)
  | Setall _ ptr nsems =>
      ptr < next_addr w /\ forall lid a, live (sem_ids w) lid a -> sma_ptr a = ptr -> length (sem_base a) = nsems
  | Exiting ul _ => is_Some (ulists w !! ul) /\ forall t', undo_list_of w !! t' <> Some ul
  end.

Definition total (es : list (option sem_array)) : Z :=
  foldr (fun o n => (match o with Some a => Z.of_nat (length (sem_base a)) | None => 0 end) + n) 0 es.

(** [G]: undo structures that have just been taken off their set. *)
Record inv (G : list Z) (w : world) : Prop := {
  inv_ids : ids_ok (sem_ids w);
  inv_seq : forall lid a, live (sem_ids w) lid a -> p_seq (sem_perm a) < ids_seq (sem_ids w);
  inv_arr : forall lid a, live (sem_ids w) lid a -> array_ok w lid a;
  inv_ptr : forall lid a lid' a', live (sem_ids w) lid a -> live (sem_ids w) lid' a' -> sma_ptr a = sma_ptr a' -> lid = lid';
  inv_addr : forall u un, undos w !! u = Some un -> u < next_addr w /\ Forall (fun x => -32768 <= x < 32768) (semadj un);
  inv_undo : forall u un, undos w !! u = Some un -> un_semid un <> -1 -> u ∉ G ->
    exists lid a, live (sem_ids w) lid a /\ sid lid a = un_semid un /\ u ∈ sma_undo a;
  inv_list : forall ul l, ulists w !! ul = Some l ->
    ul < next_addr w /\ NoDup (proc_list l) /\ (forall u, u ∈ proc_list l -> is_Some (undos w !! u)) /\ refcnt l = users w ul;
  inv_own : forall ul l ul' l' u, ulists w !! ul = Some l -> ulists w !! ul' = Some l' -> u ∈ proc_list l -> u ∈ proc_list l' -> ul = ul';
  inv_task : forall t ul, undo_list_of w !! t = Some ul -> is_Some (ulists w !! ul);
  inv_pc : forall t p, pcs w !! t = Some p -> pc_ok w t p;
  inv_exit : forall t t' ul g g', pcs w !! t = Some (Exiting ul g) -> pcs w !! t' = Some (Exiting ul g') -> t = t';
  inv_used : used_sems w = total (entries (sem_ids w))
}.

(** *** Identifiers and sets *)

Lemma sid_place ids lid a : ids_ok ids -> live ids lid a -> place (sid lid a) = lid /\ 0 <= sid lid a /\ Z.quot (sid lid a) SEQ_MULTIPLIER = p_seq (sem_perm a).
Proof.
  intros Hok L. destruct (live_range _ _ _ Hok L) as [Hl Hp]. destruct (ipc_buildid_spec (Z.of_nat lid) (p_seq (sem_perm a)) Hl Hp) as (_ & ? & E & Q).
  unfold sid. rewrite E, Q, Nat2Z.id. split; [done |]. lia.
Qed.

(** A lookup that passes [ipc_checkid] finds the set of that identifier. *)
Lemma lock_sid w id a : ids_ok (sem_ids w) -> 0 <= id -> sem_lock w id = Some a ->
  live (sem_ids w) (place id) a /\ (ipc_checkid a id = false -> sid (place id) a = id).
Proof.
  intros Hok Hid E. apply ipc_lock_live in E; [| done]. split; [done |]. unfold ipc_checkid. intros Q%negb_false_iff%Z.eqb_eq. simpl in Q.
  destruct (live_range _ _ _ Hok E) as [Hl Hp]. pose proof (proj1 (ipc_buildid_spec _ _ Hl Hp)) as B. unfold sid. change (sem_perm a) with (perm a). rewrite B. change (perm a) with (sem_perm a). rewrite <- Q.
  unfold place. rewrite Z2Nat.id by (apply Z.rem_nonneg; [done | exact Hid]). symmetry. apply Z.quot_rem'.
Qed.

Lemma sid_lock w lid a : ids_ok (sem_ids w) -> live (sem_ids w) lid a ->
  sem_lock w (sid lid a) = Some a /\ ipc_checkid a (sid lid a) = false.
Proof.
  intros Hok L. destruct (sid_place _ _ _ Hok L) as (P & _ & Q). split; [apply ipc_lock_live; [done | by rewrite P] |].
  unfold ipc_checkid. rewrite Q. simpl. by rewrite Z.eqb_refl.
Qed.

Lemma sid_inj ids lid a lid' a' : ids_ok ids -> live ids lid a -> live ids lid' a' -> sid lid a = sid lid' a' -> lid = lid' /\ a = a'.
Proof.
  intros Hok L L' E. destruct (sid_place _ _ _ Hok L) as (P & _). destruct (sid_place _ _ _ Hok L') as (P' & _).
  rewrite E, P' in P. subst lid'. split; [done |]. unfold live in *. congruence.
Qed.

Lemma lock_by_ptr_live w ptr lid a : lock_by_ptr w ptr = Some (lid, a) -> live (sem_ids w) lid a /\ sma_ptr a = ptr.
Proof. intros E. pose proof (find_ptr_live sma_ptr (sem_ids w) ptr) as H. unfold lock_by_ptr in E. by rewrite E in H. Qed.

Lemma total_insert es i o o' : es !! i = Some o ->
  total (<[i := o']> es) = total es - (match o with Some a => Z.of_nat (length (sem_base a)) | None => 0 end)
                           + (match o' with Some a => Z.of_nat (length (sem_base a)) | None => 0 end).
Proof.
  revert i. induction es as [| x es IH]; intros [| i] H; simpl in *; [done | done | injection H as ->; lia |]. rewrite (IH i H). lia.
Qed.

(** *** Changing one part of the state *)

Lemma same_undos_fwd us us' p u : same_undos us us' -> us !! p = Some u ->
  exists u', us' !! p = Some u' /\ un_semid u' = un_semid u /\ length (semadj u') = length (semadj u).
Proof. intros H E. specialize (H p). rewrite E in H. destruct (us' !! p) as [u' |]; [| done]. exists u'. naive_solver. Qed.

Lemma same_undos_bwd us us' p u' : same_undos us us' -> us' !! p = Some u' ->
  exists u, us !! p = Some u /\ un_semid u' = un_semid u /\
    (Forall (fun x => -32768 <= x < 32768) (semadj u) -> Forall (fun x => -32768 <= x < 32768) (semadj u')).
Proof. intros H E. specialize (H p). rewrite E in H. destruct (us !! p) as [u |]; [| done]. exists u. naive_solver. Qed.

(** No queued request is of task [t]. *)
Definition not_queued (w : world) (t : Z) : Prop :=
  forall lid a q, live (sem_ids w) lid a -> q ∈ sem_pending a -> q_sleeper q <> t.

Lemma not_asleep_not_queued G w t : inv G w -> (forall r, pcs w !! t <> Some (Asleep r)) -> not_queued w t.
Proof.
  intros I H lid a q L Hq E. destruct (inv_arr _ _ I lid a L) as (_ & _ & _ & _ & _ & F). apply (proj1 (Forall_forall _ _) F) in Hq as (_ & _ & (r & Hr & _) & _).
  rewrite E in Hr. by destruct (H r).
Qed.

Definition put_pc (t : Z) (o : option pc) (w : world) : world := set_pcs (partial_alter (fun _ => o) t (pcs w)) w.

Lemma pcs_put t o w t' : pcs (put_pc t o w) !! t' = if decide (t = t') then o else pcs w !! t'.
Proof. unfold put_pc. cbn. case_decide as E; [subst; apply lookup_partial_alter_eq | by apply lookup_partial_alter_ne]. Qed.

Lemma inv_put_pc G w t o : inv G w -> not_queued w t ->
  (forall p, o = Some p -> pc_ok w t p) ->
  (forall ul g t' g', o = Some (Exiting ul g) -> pcs w !! t' = Some (Exiting ul g') -> t' = t) -> inv G (put_pc t o w).
Proof.
  intros I Nq Ho He. destruct I as [Ids Seq Arr Ptr Addr Und Lst Own Tsk Pc Ext Use]. constructor; try done.
  - intros lid a L. destruct (Arr lid a L) as (V & P & N & U & S & F). split; [done |]. split; [done |]. split; [done |]. split; [done |]. split; [done |].
    apply Forall_forall. intros q Hq. apply (proj1 (Forall_forall _ _) F) in Hq as Hok. destruct Hok as (H1 & H2 & (r & Hr & Er) & H4).
    split; [done |]. split; [done |]. split; [| done]. exists r. rewrite pcs_put, decide_False; [done |]. intros E. by apply (Nq lid a q L Hq).
  - intros t' p. rewrite pcs_put. case_decide as E; [subst t'; intros Hp; by apply Ho | apply Pc].
  - intros t1 t2 ul g1 g2. rewrite !pcs_put. repeat case_decide; subst; try done.
    + intros H1 H2. symmetry. by eapply He. + intros H1 H2. by eapply He. + apply Ext.
Qed.

Lemma leave_put t w : leave t w = put_pc t None w.
Proof. done. Qed.

Lemma goto_put t p w : set_pcs (<[t := p]> (pcs w)) w = put_pc t (Some p) w.
Proof. done. Qed.

Lemma inv_leave G w t : inv G w -> not_queued w t -> inv G (leave t w).
Proof. intros I N. rewrite leave_put. by apply inv_put_pc. Qed.

Lemma inv_goto G w t p : inv G w -> not_queued w t -> pc_ok w t p -> (forall ul g, p <> Exiting ul g) -> inv G (set_pcs (<[t := p]> (pcs w)) w).
Proof.
  intros I N P Ne. rewrite goto_put. apply inv_put_pc; [done | done | by intros p' [= <-] |]. intros ul g t' g' [= ->]. by destruct (Ne ul g).
Qed.

Lemma inv_status G w t m : inv G w -> (forall r, pcs w !! t <> Some (Asleep r)) -> (forall t', t' <> t -> m !! t' = status_of w !! t') ->
  inv G (set_status m w).
Proof.
  intros I Na Hm. pose proof (not_asleep_not_queued _ _ _ I Na) as Nq. destruct I as [Ids Seq Arr Ptr Addr Und Lst Own Tsk Pc Ext Use]. constructor; try done.
  - intros lid a L. destruct (Arr lid a L) as (V & P & N & U & S & F). split; [done |]. split; [done |]. split; [done |]. split; [done |]. split; [done |].
    apply Forall_forall. intros q Hq. apply (proj1 (Forall_forall _ _) F) in Hq as Hok. destruct Hok as (H1 & H2 & H3 & H4 & H5).
    split; [done |]. split; [done |]. split; [done |]. split; [| done]. cbn. rewrite Hm; [done |]. by apply (Nq lid a q).
  - intros t' p Hp. specialize (Pc t' p Hp). destruct p as [| | r | |]; try done. destruct Pc as (st & Hst & H). exists st. split; [| done]. cbn.
    rewrite Hm; [done |]. intros ->. by destruct (Na r).
Qed.

Lemma wake_lookup woken m t : foldr (fun '(t, e) m => <[t := e]> m) m woken !! t = m !! t /\ t ∉ woken.*1 \/
  exists e, (t, e) ∈ woken /\ foldr (fun '(t, e) m => <[t := e]> m) (m : gmap Z Z) woken !! t = Some e.
Proof.
  induction woken as [| [t' e] woken IH]; simpl; [left; split; [done | set_solver] |]. destruct (decide (t' = t)) as [-> | Hne].
  - right. exists e. split; [by left |]. by rewrite lookup_insert_eq.
  - rewrite lookup_insert_ne by done. destruct IH as [[-> Hn] | (e' & Hin & ->)]; [left; split; [done | set_solver] | right; exists e'; split; [by right | done]].
Qed.

(** The set [a] at place [lid] becomes [a'], some sleepers are woken. *)
Record changed (G : list Z) (a a' : sem_array) (woken : list (Z * Z)) : Prop := {
  ch_ptr : sma_ptr a' = sma_ptr a;
  ch_seq : p_seq (sem_perm a') = p_seq (sem_perm a);
  ch_del : deleted (sem_perm a') = false;
  ch_len : length (sem_base a') = length (sem_base a);
  ch_val : vals_ok (sem_base a');
  ch_nodup : NoDup (sma_undo a');
  ch_sub : forall u, u ∈ sma_undo a' -> u ∈ sma_undo a;
  ch_sup : forall u, u ∈ sma_undo a -> u ∉ G -> u ∈ sma_undo a';
  ch_pend : sublist (sem_pending a') (sem_pending a);
  ch_qun : forall q u, q ∈ sem_pending a' -> q_undo q = Some u -> u ∈ sma_undo a';
  ch_kept : forall q, q ∈ sem_pending a -> q ∈ sem_pending a' \/ q_sleeper q ∈ woken.*1;
  ch_woken : forall t e, (t, e) ∈ woken -> e <> - EINTR /\ t ∉ q_sleeper <$> sem_pending a' /\ t ∈ q_sleeper <$> sem_pending a
}.

Lemma inv_update G w id a a' us' woken : inv G w -> live (sem_ids w) (place id) a -> changed G a a' woken -> same_undos (undos w) us' ->
  inv G (wake woken (store id a' (set_undos us' w))).
Proof.
  intros I L [Cp Cs Cd Cl Cv Cn Csub Csup Cpe Cq Ck Cw] Su. pose proof I as [Ids Seq Arr Ptr Addr Und Lst Own Tsk Pc Ext Use].
  destruct (ipc_store_spec (sem_ids w) id a a' Ids L Cs Cd) as [Ids' Lv].
  assert (sid (place id) a' = sid (place id) a) as Es by (unfold sid; by rewrite Cs).
  assert (forall i b, live (sem_ids w) i b -> exists b', live (ipc_store (sem_ids w) id a') i b' /\ sid i b' = sid i b /\ sma_ptr b' = sma_ptr b /\
    length (sem_base b') = length (sem_base b) /\ (forall u, u ∈ sma_undo b -> u ∉ G -> u ∈ sma_undo b')) as Fwd.
  { intros i b Lb. destruct (decide (i = place id)) as [-> | Hne]; [| exists b; split; [apply Lv; by right | done]].
    assert (b = a) as -> by (unfold live in *; congruence). exists a'. split; [apply Lv; by left | done]. }
  assert (forall i b', live (ipc_store (sem_ids w) id a') i b' -> exists b, live (sem_ids w) i b /\ sid i b' = sid i b /\ sma_ptr b' = sma_ptr b /\
    length (sem_base b') = length (sem_base b) /\ p_seq (sem_perm b') = p_seq (sem_perm b)) as Bwd.
  { intros i b' [[-> ->] | [Hne Lb]]%Lv; [by exists a | by exists b']. }
  destruct (Arr _ _ L) as (_ & Pa & _ & Ua & Sa & Fa).
  assert (forall u un, undos w !! u = Some un -> exists un', us' !! u = Some un' /\ un_semid un' = un_semid un /\ length (semadj un') = length (semadj un)) as Uf
    by (intros u un; by apply same_undos_fwd).
  constructor; cbn [sem_ids used_sems undos ulists undo_list_of status_of next_addr pcs wake store set_status set_ids set_undos].
  - done.
  - intros i b' (b & Lb & _ & _ & _ & Eq)%Bwd. rewrite Eq. by apply (Seq i b).
  - intros i b [[-> ->] | [Hne Lb]]%Lv.
    + split; [done |]. split; [cbn; by rewrite Cp |]. split; [done |]. split; [| split].
      * intros u Hu%Csub. destruct (Ua u Hu) as (un & Hun & E1 & E2). destruct (Uf u un Hun) as (un' & ? & E3 & E4). exists un'. cbn. rewrite Es, Cl, E3, E4. done.
      * eapply sublist_NoDup; [exact Sa |]. by apply fmap_sub.
      * apply Forall_forall. intros q Hq. assert (q ∈ sem_pending a) as Hqa by (by eapply elem_of_sublist).
        apply (proj1 (Forall_forall _ _) Fa) in Hqa as (H1 & H2 & H3 & H4 & H5).
        split; [by rewrite Cl |]. split; [intros u Hu; split; [by eapply Cq | by apply H2] |]. cbn. rewrite Es. split; [done |]. split; [| done].
        destruct (wake_lookup woken (status_of w) (q_sleeper q)) as [[-> _] | (e & Hin & _)]; [done |].
        destruct (Cw _ _ Hin) as (_ & Hn & _). destruct Hn. apply list_elem_of_fmap. by exists q.
    + destruct (Arr i b Lb) as (V & P & N & U & S & F). split; [done |]. split; [done |]. split; [done |]. split; [| split; [done |]].
      * intros u Hu. destruct (U u Hu) as (un & Hun & E1 & E2). destruct (Uf u un Hun) as (un' & ? & E3 & E4). exists un'. cbn. rewrite E3, E4. done.
      * apply Forall_forall. intros q Hq. apply (proj1 (Forall_forall _ _) F) in Hq as Hok. destruct Hok as (H1 & H2 & (r & Hr & Er) & H4 & H5).
        split; [done |]. split; [done |]. split; [by exists r |]. split; [| done]. cbn.
        destruct (wake_lookup woken (status_of w) (q_sleeper q)) as [[-> _] | (e & Hin & _)]; [done |]. exfalso.
        destruct (Cw _ _ Hin) as (_ & _ & (q' & E & Hq')%list_elem_of_fmap). apply (proj1 (Forall_forall _ _) Fa) in Hq' as (_ & _ & (r' & Hr' & Er') & _).
        rewrite <- E, Hr in Hr'. injection Hr' as <-. rewrite Er in Er'. by apply (sid_inj (sem_ids w) i b (place id) a Ids Lb L) in Er' as [? _].
  - intros i b i' b' (c & Lc & _ & Ec & _)%Bwd (c' & Lc' & _ & Ec' & _)%Bwd E. apply (Ptr i c i' c' Lc Lc'). congruence.
  - intros u un' Hun'. destruct (same_undos_bwd _ _ _ _ Su Hun') as (un & Hun & _ & Hs). destruct (Addr u un Hun). split; [done | auto].
  - intros u un' Hun' Hn Hg. destruct (same_undos_bwd _ _ _ _ Su Hun') as (un & Hun & Eu & _). rewrite Eu in *.
    destruct (Und u un Hun Hn Hg) as (i & b & Lb & E & Hu). destruct (Fwd i b Lb) as (b' & Lb' & Eb & _ & _ & Hs). exists i, b'. rewrite Eb. auto.
  - intros ul l Hl. destruct (Lst ul l Hl) as (? & ? & Hu & ?). split; [done |]. split; [done |]. split; [| done].
    intros u Hin. destruct (Hu u Hin) as [un Hun]. destruct (Uf u un Hun) as (un' & ? & _). by exists un'.
  - done.
  - done.
  - intros t p Hp. specialize (Pc t p Hp). destruct p as [r ptr n | r un | r | sm ptr n | ul g]; cbn in *.
    + destruct Pc as (? & ? & ? & H). split; [done |]. split; [done |]. split; [done |]. intros i b' (b & Lb & -> & -> & -> & _)%Bwd. by apply (H i b).
    + destruct Pc as (? & ? & H). split; [done |]. split; [done |]. intros u Hu. destruct (H u Hu) as (? & D). split; [done |]. destruct D as [(v & Hv & Ev & Ow) | ((Hd & Hs) & Hv)].
      * left. destruct (Uf u v Hv) as (v' & Hv' & Ev' & _). exists v'. rewrite Ev'. done.
      * right. split; [split; [done |]; intros i b' (b & Lb & -> & _)%Bwd; by apply (Hs i b) |].
        intros v' Hv'. destruct (same_undos_bwd _ _ _ _ Su Hv') as (v & Hv0 & -> & _). by apply Hv.
    + destruct Pc as (st & Hst & H). destruct (wake_lookup woken (status_of w) t) as [[-> Hn] | (e & Hin & ->)].
      * exists st. split; [done |]. intros E. destruct (H E) as (i & b & Lb & Eb & Ht). destruct (decide (i = place id)) as [-> | Hne].
        -- assert (b = a) as -> by (unfold live in *; congruence). exists (place id), a'. split; [apply Lv; by left |]. split; [by rewrite Es |].
           apply list_elem_of_fmap in Ht as (q & -> & Hq). destruct (Ck q Hq) as [? | ?]; [apply list_elem_of_fmap; by exists q | done].
        -- exists i, b. split; [apply Lv; by right | done].
      * exists e. split; [done |]. intros ->. by destruct (Cw _ _ Hin) as [? _].
    + destruct Pc as (? & H). split; [done |]. intros i b' (b & Lb & _ & -> & -> & _)%Bwd. by apply (H i b).
    + done.
  - done.
  - rewrite Use. unfold ipc_store. cbn [entries]. fold (place id). rewrite (total_insert _ _ _ _ L). lia.
Qed.

(** *** Scanning the queue of a set *)

Lemma pending_queue_ok G w lid a q : inv G w -> live (sem_ids w) lid a -> q ∈ sem_pending a -> queue_ok (length (sem_base a)) (undos w) q.
Proof.
  intros I L Hq. destruct (inv_arr _ _ I lid a L) as (_ & _ & _ & U & _ & F). apply (proj1 (Forall_forall _ _) F) in Hq as (Hs & Hu & _). split.
  - eapply Forall_impl; [exact Hs |]. intros s [Hn Hun]. split; [done |]. intros [u Eu]%Hun. destruct (Hu u Eu) as [Hin _].
    destruct (U u Hin) as (un & E & _ & El). exists (semadj un). rewrite Eu. cbn. by rewrite E.
  - intros l El. destruct (q_undo q) as [u |]; [| done]. cbn in El. apply fmap_Some in El as (un & E & ->). by apply (inv_addr _ _ I u).
Qed.

Lemma scan_facts qs es kept woken : scan_result qs es kept woken -> NoDup (q_sleeper <$> qs) ->
  sublist kept qs /\ (forall q, q ∈ qs -> q ∈ kept \/ q_sleeper q ∈ woken.*1) /\
  (forall t e, (t, e) ∈ woken -> e ∈ es /\ t ∉ q_sleeper <$> kept /\ t ∈ q_sleeper <$> qs).
Proof.
  intros (Le & -> & ->). revert es Le. induction qs as [| q qs IH]; intros [| e es] Le N; simplify_eq/=.
  { split; [constructor |]. split; [set_solver |]. set_solver. }
  apply NoDup_cons in N as [Nq N]. destruct (IH es Le N) as (Hs & Hk & Hw). clear IH.
  assert (forall t, t ∈ q_sleeper <$> (zip qs es ≫= fun '(q, e) => if e <=? 0 then [] else [q]) -> t ∈ q_sleeper <$> qs) as Sub.
  { intros t (q' & -> & Hq')%list_elem_of_fmap. apply list_elem_of_fmap. exists q'. split; [done |]. by eapply elem_of_sublist. }
  destruct (e <=? 0) eqn:E0; simpl.
  - split; [by constructor |]. split.
    + intros q' [-> | Hq']%elem_of_cons; [right; by left |]. destruct (Hk q' Hq'); [by left | right; by right].
    + intros t e' [[= -> ->] | Hin]%elem_of_cons; [split; [by left |]; split; [intros ?%Sub; done | by left] |].
      destruct (Hw t e' Hin) as (? & ? & ?). split; [by right |]. split; [done | by right].
  - split; [by constructor |]. split.
    + intros q' [-> | Hq']%elem_of_cons; [left; by left |]. destruct (Hk q' Hq'); [left; by right | by right].
    + intros t e' Hin. destruct (Hw t e' Hin) as (? & ? & ?). split; [by right |]. split; [| by right].
      intros [-> | ?]%elem_of_cons; done.
Qed.

(** The set was changed to [b], nobody was woken yet. *)
Lemma update_queue_ok G w now id a b us1 : inv G w -> live (sem_ids w) (place id) a -> changed G a b [] -> sem_pending b = sem_pending a ->
  same_undos (undos w) us1 ->
  exists a' us' woken, update_queue now b us1 = Some (a', us', woken) /\ changed G a a' woken /\ same_undos (undos w) us' /\ sma_undo a' = sma_undo b.
Proof.
  intros I L [Cp Cs Cd Cl Cv Cn Csub Csup Cpe Cq Ck Cw] Ep Su. destruct (inv_arr _ _ I _ a L) as (_ & _ & _ & _ & Na & _).
  destruct (update_loop_spec now (sem_pending b) b us1) as (a1 & us' & es & kept & woken & E & R & Fe & (base & t & -> & Lb & Vb) & S2 & _).
  - done.
  - apply Forall_forall. intros q Hq. rewrite Cl. apply (queue_ok_same _ (undos w)); [done |]. eapply pending_queue_ok; [done | done | by rewrite <- Ep].
  - unfold update_queue. rewrite E. cbn [mbind option_bind]. eexists _, us', woken. split; [done |]. split; [| split; [by eapply same_undos_trans | done]].
    rewrite Ep in R. destruct (scan_facts _ _ _ _ R Na) as (Hs & Hk & Hw).
    constructor; cbn [sma_ptr sem_perm sem_base sma_undo sem_pending set_pending set_otime set_base]; try done.
    + by rewrite Lb.
    + intros q u Hq. apply Cq. rewrite Ep. by eapply elem_of_sublist.
    + intros t' e Hin. destruct (Hw t' e Hin) as (He & ? & ?). split; [| done].
      apply (proj1 (Forall_forall _ _) Fe) in He. unfold EINTR, EAGAIN, ERANGE in *. lia.
Qed.

Lemma update_and_store_ok G w now id a b us1 : inv G w -> live (sem_ids w) (place id) a -> changed G a b [] -> sem_pending b = sem_pending a ->
  same_undos (undos w) us1 ->
  exists w', update_and_store id now b us1 w = Some w' /\ inv G w' /\ pcs w' = pcs w /\ ids_seq (sem_ids w') = ids_seq (sem_ids w) /\
    ulists w' = ulists w /\ undo_list_of w' = undo_list_of w /\ same_undos (undos w) (undos w') /\
    forall i c, live (sem_ids w') i c -> (i = place id /\ sma_undo c = sma_undo b) \/ (i <> place id /\ live (sem_ids w) i c).
Proof.
  intros I L C Ep Su. destruct (update_queue_ok G w now id a b us1 I L C Ep Su) as (a' & us' & woken & E & C' & S' & Eu).
  unfold update_and_store. rewrite E. cbn [mbind option_bind]. eexists. split; [done |]. split; [by eapply inv_update |].
  do 4 (split; [done |]). split; [done |]. intros i c. destruct (ipc_store_spec (sem_ids w) id a a' (inv_ids _ _ I) L (ch_seq _ _ _ _ C') (ch_del _ _ _ _ C')) as [_ Lv].
  intros [[-> ->] | ?]%Lv; [by left | by right].
Qed.

(** The values of a set replaced, everything else as it was. *)
Lemma changed_base G w lid a base ot ct : inv G w -> live (sem_ids w) lid a -> length base = length (sem_base a) -> vals_ok base ->
  changed G a (set_ctime ct (set_otime ot (set_base base a))) [].
Proof.
  intros I L Lb Vb. destruct (inv_arr _ _ I lid a L) as (_ & _ & N & _ & _ & F). destruct (inv_ids _ _ I) as (_ & _ & _ & _ & _ & _ & _ & Hp).
  constructor; try done.
  - by apply (Hp lid a).
  - intros q u Hq Hu. apply (proj1 (Forall_forall _ _) F) in Hq as (_ & H & _). by apply H.
  - by left.
  - by intros t e ?%not_elem_of_nil.
Qed.

(** *** semctl *)

(** A section ends in a good state, [c] sets newer at most. *)
Definition good (c : Z) (w : world) (r : option (option Z * world)) : Prop :=
  exists o w', r = Some (o, w') /\ inv [] w' /\ ids_seq (sem_ids w') <= ids_seq (sem_ids w) + c.

Lemma good_ret w e : inv [] w -> good 0 w (ret e w).
Proof. intros I. eexists _, w. split; [done |]. split; [done |]. lia. Qed.

Lemma good_leave w t e : inv [] w -> (forall r, pcs w !! t <> Some (Asleep r)) -> good 0 w (ret e (leave t w)).
Proof. intros I N. eexists _, (leave t w). split; [done |]. split; [apply inv_leave; [done | by eapply not_asleep_not_queued] |]. cbn. lia. Qed.

Lemma good_goto w t p : inv [] w -> (forall r, pcs w !! t <> Some (Asleep r)) -> pc_ok w t p -> (forall ul g, p <> Exiting ul g) -> good 0 w (goto t p w).
Proof.
  intros I N P E. eexists _, _. split; [done |]. split; [apply inv_goto; [done | by eapply not_asleep_not_queued | done | done] |]. cbn. lia.
Qed.

Lemma good_trans w w1 r : ids_seq (sem_ids w1) = ids_seq (sem_ids w) -> good 0 w1 r -> good 0 w r.
Proof. intros E (o & w' & -> & I & H). exists o, w'. split; [done |]. split; [done |]. lia. Qed.

Lemma wake_nil w : wake [] w = w.
Proof. by destruct w. Qed.

Lemma set_undos_id w : set_undos (undos w) w = w.
Proof. by destruct w. Qed.

Lemma semctl_open_spec w cur semid flag : inv [] w -> 0 <= semid ->
  match semctl_open cur semid flag w with inl _ => True | inr a => live (sem_ids w) (place semid) a /\ sid (place semid) a = semid end.
Proof.
  intros I H. unfold semctl_open. destruct (sem_lock w semid) as [a |] eqn:E; [| done]. destruct (lock_sid w semid a (inv_ids _ _ I) H E) as [L S].
  destruct (ipc_checkid a semid) eqn:C; [done |]. destruct (negb (ipcperms cur (sem_perm a) flag =? 0)); [done |]. split; [done | by apply S].
Qed.

Lemma semctl_query_good w cur semid semnum cmd : inv [] w -> 0 <= semid -> good 0 w (semctl_query cur semid semnum cmd w).
Proof.
  intros I H. unfold semctl_query. destruct (semctl_open cur semid S_IRUGO w) as [e | a]; [by apply good_ret |].
  destruct ((semnum <? 0) || (Z.of_nat (length (sem_base a)) <=? semnum)) eqn:B; [by apply good_ret |].
  destruct (lookup_lt_is_Some_2 (sem_base a) (Z.to_nat semnum)) as [c Hc]; [lia |]. rewrite Hc. cbn [mbind option_bind]. by apply good_ret.
Qed.

Lemma same_undos_insert us p u l : us !! p = Some u -> length l = length (semadj u) ->
  (Forall (fun x => -32768 <= x < 32768) (semadj u) -> Forall (fun x => -32768 <= x < 32768) l) -> same_undos us (<[p := mk_undo (un_semid u) l]> us).
Proof.
  intros E L F p'. destruct (decide (p = p')) as [<- | Hne]; [by rewrite E, lookup_insert_eq |]. rewrite lookup_insert_ne by done. by destruct (us !! p').
Qed.

Lemma clear_adj_spec l i us : (forall p, p ∈ l -> exists u, us !! p = Some u /\ (i < length (semadj u))%nat) ->
  exists us', clear_adj l i us = Some us' /\ same_undos us us'.
Proof.
  revert us. induction l as [| p l IH]; intros us H; cbn [clear_adj]; [exists us; split; [done | apply same_undos_refl] |].
  destruct (H p ltac:(by left)) as (u & Hu & Hl). rewrite Hu. cbn [mbind option_bind]. rewrite (proj2 (Nat.ltb_lt _ _)) by done.
  assert (same_undos us (<[p := mk_undo (un_semid u) (<[i := 0]> (semadj u))]> us)) as S1.
  { apply same_undos_insert; [done | apply length_insert |]. intros F. by apply Forall_insert. }
  destruct (IH (<[p := mk_undo (un_semid u) (<[i := 0]> (semadj u))]> us)) as (us' & -> & S2).
  - intros p' Hp'. destruct (H p' ltac:(by right)) as (u' & Hu' & Hl'). destruct (same_undos_fwd _ _ _ _ S1 Hu') as (v & ? & _ & E). exists v. split; [done | lia].
  - exists us'. split; [done |]. by eapply same_undos_trans.
Qed.

Lemma clear_all_adj_spec l n us : (forall p, p ∈ l -> exists u, us !! p = Some u /\ (n <= length (semadj u))%nat) ->
  exists us', clear_all_adj l n us = Some us' /\ same_undos us us'.
Proof.
  revert us. induction l as [| p l IH]; intros us H; cbn [clear_all_adj]; [exists us; split; [done | apply same_undos_refl] |].
  destruct (H p ltac:(by left)) as (u & Hu & Hl). rewrite Hu. cbn [mbind option_bind]. rewrite (proj2 (Nat.leb_le _ _)) by done.
  set (l' := replicate n 0 ++ drop n (semadj u)).
  assert (same_undos us (<[p := mk_undo (un_semid u) l']> us)) as S1.
  { apply same_undos_insert; [done | unfold l'; rewrite length_app, length_replicate, length_drop; lia |]. intros F. apply Forall_app.
    split; [by apply Forall_replicate | by apply Forall_drop]. }
  destruct (IH (<[p := mk_undo (un_semid u) l']> us)) as (us' & -> & S2).
  - intros p' Hp'. destruct (H p' ltac:(by right)) as (u' & Hu' & Hl'). destruct (same_undos_fwd _ _ _ _ S1 Hu') as (v & ? & _ & E). exists v. split; [done | lia].
  - exists us'. split; [done |]. by eapply same_undos_trans.
Qed.

Lemma set_ctime_otime a base now : set_ctime now (set_base base a) = set_ctime now (set_otime (sem_otime a) (set_base base a)).
Proof. done. Qed.

Lemma semctl_setval_good w cur tgid semid semnum val now : inv [] w -> 0 <= semid -> good 0 w (semctl_setval cur tgid semid semnum val now w).
Proof.
  intros I H. unfold semctl_setval. pose proof (semctl_open_spec w cur semid S_IWUGO I H) as S. destruct (semctl_open cur semid S_IWUGO w) as [e | a]; [by apply good_ret |].
  destruct S as [L E]. destruct ((semnum <? 0) || (Z.of_nat (length (sem_base a)) <=? semnum)) eqn:B; [by apply good_ret |].
  destruct ((SEMVMX <? val) || (val <? 0)) eqn:Bv; [by apply good_ret |].
  destruct (inv_arr _ _ I _ _ L) as (V & _ & _ & U & _).
  destruct (clear_adj_spec (sma_undo a) (Z.to_nat semnum) (undos w)) as (us & -> & S1).
  { intros p Hp. destruct (U p Hp) as (un & ? & _ & ?). exists un. split; [done | lia]. }
  cbn [mbind option_bind]. rewrite set_ctime_otime.
  destruct (update_and_store_ok [] w now semid a (set_ctime now (set_otime (sem_otime a) (set_base (<[Z.to_nat semnum := mk_sem val tgid]> (sem_base a)) a))) us I L)
    as (w' & -> & I' & _ & Sq & _); [| done | done |].
  { eapply changed_base; [done | done | apply length_insert |]. apply Forall_insert; [done |]. simpl. lia. }
  cbn [mbind option_bind]. eexists _, w'. split; [done |]. split; [done |]. lia.
Qed.

Lemma semctl_setall_good w t cur semid : inv [] w -> 0 <= semid -> pcs w !! t = None -> good 0 w (semctl_setall t cur semid w).
Proof.
  intros I H Ht. unfold semctl_setall. pose proof (semctl_open_spec w cur semid S_IWUGO I H) as S. destruct (semctl_open cur semid S_IWUGO w) as [e | a]; [by apply good_ret |].
  destruct S as [L E]. apply good_goto; [done | by rewrite Ht | | done]. destruct (inv_arr _ _ I _ _ L) as (_ & P & _). split; [done |].
  intros lid b Lb Eb. pose proof (inv_ptr _ _ I _ _ _ _ Lb L Eb) as ->. unfold live in *. congruence.
Qed.

Lemma setall_copied_good w t semid ptr nsems array now : inv [] w -> pcs w !! t = Some (Setall semid ptr nsems) ->
  good 0 w (setall_copied t semid ptr nsems array now w).
Proof.
  intros I Ht. assert (forall r, pcs w !! t <> Some (Asleep r)) as Na by (intros r; rewrite Ht; done).
  pose proof (inv_pc _ _ I _ _ Ht) as [_ Hp]. unfold setall_copied. destruct array as [io |]; [| by apply good_leave].
  set (sem_io := resize nsems 0 (u16 <$> io)). destruct (existsb (fun v => SEMVMX <? v) sem_io) eqn:Ev; [by apply good_leave |].
  destruct (lock_by_ptr w ptr) as [[lid a] |] eqn:El; [| by apply good_leave]. apply lock_by_ptr_live in El as [L E].
  specialize (Hp lid a L E). destruct (live_range _ _ _ (inv_ids _ _ I) L) as [Hlid _].
  assert (length sem_io = nsems) as Li by apply length_resize. rewrite Li, Hp, Nat.eqb_refl.
  destruct (inv_arr _ _ I _ _ L) as (V & _ & _ & U & _).
  destruct (clear_all_adj_spec (sma_undo a) nsems (undos w)) as (us & -> & S1).
  { intros p Hin. destruct (U p Hin) as (un & ? & _ & ?). exists un. split; [done | lia]. }
  cbn [mbind option_bind]. rewrite set_ctime_otime.
  destruct (update_and_store_ok [] w now (Z.of_nat lid) a
    (set_ctime now (set_otime (sem_otime a) (set_base (zip_with (fun s v => mk_sem v (sempid s)) (sem_base a) sem_io) a))) us I)
    as (w' & -> & I' & Ep & Sq & _); [by rewrite place_small by lia | | done | done |].
  { eapply changed_base; [done | exact L | rewrite length_zip_with; lia |]. apply Forall_lookup. intros i c. rewrite lookup_zip_with. intros Hc.
    apply bind_Some in Hc as (s & Hs & Hc). apply fmap_Some in Hc as (v & Hv & ->). simpl.
    assert (SEMVMX <? v = false) as Hle.
    { apply not_true_is_false. intros Ht'. enough (existsb (fun v => SEMVMX <? v) sem_io = true) by congruence. apply existsb_exists. exists v.
      split; [| done]. apply list_elem_of_In. by eapply list_elem_of_lookup_2. }
    assert (Forall (fun x => 0 <= x) sem_io) as Fp.
    { apply Forall_resize; [lia |]. apply Forall_fmap, Forall_true. intros x. cbn. unfold u16. apply Z.mod_pos_bound. lia. }
    pose proof (proj1 (Forall_lookup _ _) Fp _ _ Hv). simpl in *. lia. }
  cbn [mbind option_bind]. eexists _, _. split; [done |]. split; [apply inv_leave; [done | eapply not_asleep_not_queued; [done | by rewrite Ep]] |]. cbn. lia.
Qed.

Lemma inv_next G w n : inv G w -> next_addr w <= n -> inv G (set_next n w).
Proof.
  intros [Ids Seq Arr Ptr Addr Und Lst Own Tsk Pc Ext Use] Hn. constructor; try done.
  - intros lid a L. destruct (Arr lid a L) as (V & P & ?). split; [done |]. split; [cbn; lia | done].
  - intros u un Hu. destruct (Addr u un Hu). split; [cbn; lia | done].
  - intros ul l Hl. destruct (Lst ul l Hl) as (? & ?). split; [cbn; lia | done].
  - intros t p Hp. specialize (Pc t p Hp). destruct p as [r ptr n' | r un | r | sm ptr n' | ul g]; cbn in *; try done.
    + destruct Pc as (? & ? & ?). split; [done |]. split; [lia | done].
    + destruct Pc as (? & ? & H). split; [done |]. split; [done |]. intros u Hu. destruct (H u Hu). split; [lia | done].
    + destruct Pc. split; [lia | done].
Qed.

Lemma semctl_set_good w semid a p now : inv [] w -> live (sem_ids w) (place semid) a -> p_seq p = p_seq (sem_perm a) -> deleted p = false ->
  good 0 w (ret 0 (store semid (set_ctime now (with_perm p a)) w)).
Proof.
  intros I L Hs Hd. eexists _, _. split; [done |]. split; [| cbn; lia].
  rewrite <- (wake_nil (store _ _ _)). rewrite <- (set_undos_id w) at 1.
  apply (inv_update [] w semid a); [done | done | | apply same_undos_refl].
  destruct (changed_base [] w _ a (sem_base a) (sem_otime a) now I L eq_refl (proj1 (inv_arr _ _ I _ _ L))) as [Cp Cs Cd Cl Cv Cn Csub Csup Cpe Cq Ck Cw].
  by constructor.
Qed.

(** *** Removing a set *)

Lemma kill_undos_spec l us : (forall p, p ∈ l -> is_Some (us !! p)) ->
  exists us', kill_undos l us = Some us' /\ forall p, us' !! p = (fun u => mk_undo (if bool_decide (p ∈ l) then -1 else un_semid u) (semadj u)) <$> us !! p.
Proof.
  revert us. induction l as [| p l IH]; intros us H; cbn [kill_undos].
  { exists us. split; [done |]. intros p. destruct (us !! p) as [[] |]; [| done]. done. }
  destruct (H p ltac:(by left)) as [u Hu]. rewrite Hu. cbn [mbind option_bind].
  destruct (IH (<[p := mk_undo (-1) (semadj u)]> us)) as (us' & -> & Hus).
  { intros p' Hp'. destruct (decide (p = p')) as [<- |]; [rewrite lookup_insert_eq; by eexists |]. rewrite lookup_insert_ne by done. apply H. by right. }
  exists us'. split; [done |]. intros p'. rewrite Hus. destruct (decide (p = p')) as [<- | Hne].
  - rewrite lookup_insert_eq, Hu. simpl. rewrite (bool_decide_true (p ∈ p :: l)) by (by left). by case_bool_decide.
  - rewrite lookup_insert_ne by done. destruct (us !! p') as [v |]; [| done]. simpl. do 2 f_equal.
    rewrite (bool_decide_ext (p' ∈ p :: l) (p' ∈ l)); [done |]. rewrite elem_of_cons. naive_solver.
Qed.

Lemma freeary_good w semid a : inv [] w -> 0 <= semid -> live (sem_ids w) (place semid) a -> sid (place semid) a = semid ->
  exists w', freeary a semid w = Some w' /\ inv [] w' /\ ids_seq (sem_ids w') = ids_seq (sem_ids w).
Proof.
  intros I H L Es. pose proof I as [Ids Seq Arr Ptr Addr Und Lst Own Tsk Pc Ext Use]. destruct (Arr _ _ L) as (_ & _ & _ & Ua & _ & Fa).
  destruct (kill_undos_spec (sma_undo a) (undos w)) as (us & Ek & Hus). { intros p Hp. destruct (Ua p Hp) as (un & ? & _). by exists un. }
  destruct (ipc_rmid_spec (sem_ids w) semid a Ids L) as (a' & ids' & Er & Ids' & Sq & _ & Lv).
  unfold freeary. rewrite Ek. cbn [mbind option_bind sem_ids wake set_status set_undos]. rewrite Er. cbn [mbind option_bind]. eexists. split; [done |].
  split; [| done]. set (woken := (fun q => (q_sleeper q, - EIDRM)) <$> sem_pending a).
  assert (forall t e, (t, e) ∈ woken -> e = - EIDRM /\ t ∈ q_sleeper <$> sem_pending a) as Hw.
  { intros t e (q & [= -> ->] & Hq)%list_elem_of_fmap. split; [done |]. apply list_elem_of_fmap. by exists q. }
  assert (forall t, t ∈ q_sleeper <$> sem_pending a -> t ∈ woken.*1) as Hw'.
  { intros t (q & -> & Hq)%list_elem_of_fmap. apply list_elem_of_fmap. exists (q_sleeper q, - EIDRM). split; [done |]. apply list_elem_of_fmap. by exists q. }
  assert (forall i b u, i <> place semid -> live (sem_ids w) i b -> u ∈ sma_undo b -> us !! u = undos w !! u) as Keep.
  { intros i b u Hne Lb Hu. rewrite Hus. destruct (Arr i b Lb) as (_ & _ & _ & U & _). destruct (U u Hu) as (un & -> & E & _). simpl.
    rewrite bool_decide_false; [by destruct un |]. intros Hua. destruct (Ua u Hua) as (un' & Hun' & E' & _).
    destruct (U u Hu) as (un2 & Hun2 & E2 & _). assert (un' = un2) as -> by congruence. rewrite E2 in E'.
    by apply (sid_inj _ i b _ a Ids Lb L) in E' as [? _]. }
  constructor; cbn [sem_ids used_sems undos ulists undo_list_of status_of next_addr pcs wake set_status set_ids set_undos set_used]; fold woken.
  - done.
  - intros i b [_ Lb]%Lv. rewrite Sq. by apply (Seq i b).
  - intros i b [Hne Lb]%Lv. destruct (Arr i b Lb) as (V & P & N & U & S & F). split; [done |]. split; [done |]. split; [done |]. split; [| split; [done |]].
    + intros u Hu. destruct (U u Hu) as (un & ? & ?). exists un. cbn. by rewrite (Keep i b u Hne Lb Hu).
    + apply Forall_forall. intros q Hq. apply (proj1 (Forall_forall _ _) F) in Hq as (H1 & H2 & (r & Hr & Er') & H4 & H5).
      split; [done |]. split; [done |]. split; [by exists r |]. split; [| done]. cbn.
      destruct (wake_lookup woken (status_of w) (q_sleeper q)) as [[-> _] | (e & Hin & _)]; [done |]. exfalso.
      destruct (Hw _ _ Hin) as (_ & (q' & E & Hq')%list_elem_of_fmap). apply (proj1 (Forall_forall _ _) Fa) in Hq' as (_ & _ & (r' & Hr' & Er2) & _).
      rewrite <- E, Hr in Hr'. injection Hr' as <-. rewrite Er' in Er2. by apply (sid_inj _ i b _ a Ids Lb L) in Er2 as [? _].
  - intros i b i' b' [_ Lb]%Lv [_ Lb']%Lv. by apply Ptr.
  - intros u un. rewrite Hus. intros (v & Hv & ->)%fmap_Some. by apply (Addr u v).
  - intros u un. rewrite Hus. intros (v & Hv & ->)%fmap_Some. cbn. case_bool_decide as Hin; [done |]. intros Hn Hg.
    destruct (Und u v Hv Hn Hg) as (i & b & Lb & Eb & Hu). exists i, b. split; [| done]. apply Lv. split; [| done]. intros ->.
    assert (b = a) as -> by (unfold live in *; congruence). done.
  - intros ul l Hl. destruct (Lst ul l Hl) as (? & ? & Hu & ?). split; [done |]. split; [done |]. split; [| done].
    intros u Hin. rewrite Hus. destruct (Hu u Hin) as [un ->]. by eexists.
  - done.
  - done.
  - intros t p Hp. specialize (Pc t p Hp). destruct p as [r ptr n | r un | r | sm ptr n | ul g]; cbn in *.
    + destruct Pc as (? & ? & ? & HH). split; [done |]. split; [done |]. split; [done |]. intros i b [_ Lb]%Lv. by apply (HH i b).
    + destruct Pc as (? & ? & HH). split; [done |]. split; [done |]. intros u Hu. destruct (HH u Hu) as (? & D). split; [done |].
      destruct D as [(v & Hv & Ev & Ow) | ((Hd & Hs) & Hv)].
      * destruct (decide (u ∈ sma_undo a)) as [Hin | Hin].
        -- right. destruct (Ua u Hin) as (v' & Hv' & Ev' & _). assert (v' = v) as -> by congruence. rewrite <- Ev, Ev'. split; [split |].
           ++ cbn. rewrite Sq. destruct (sid_place _ _ _ Ids L) as (_ & _ & ->). by apply (Seq _ a L).
           ++ intros i b [Hne Lb]%Lv E. by apply (sid_inj _ i b _ a Ids Lb L) in E as [? _].
           ++ intros v2. cbn. rewrite Hus, Hv. simpl. rewrite bool_decide_true by done. by intros [= <-].
        -- left. exists v. cbn. rewrite Hus, Hv. simpl. rewrite bool_decide_false by done. split; [by destruct v | done].
      * right. split; [split; [cbn; by rewrite Sq |]; intros i b [_ Lb]%Lv; by apply (Hs i b) |].
        intros v'. rewrite Hus. intros (v & Hv0 & ->)%fmap_Some. cbn. case_bool_decide; [done | by apply Hv].
    + destruct Pc as (st & Hst & HH). destruct (wake_lookup woken (status_of w) t) as [[-> Hn] | (e & Hin & ->)].
      * exists st. split; [done |]. intros E. destruct (HH E) as (i & b & Lb & Eb & Ht). exists i, b. split; [| done]. apply Lv. split; [| done]. intros ->.
        assert (b = a) as -> by (unfold live in *; congruence). by apply Hn, Hw'.
      * exists e. split; [done |]. intros ->. by destruct (Hw _ _ Hin) as [? _].
    + destruct Pc as (? & HH). split; [done |]. intros i b [_ Lb]%Lv. by apply (HH i b).
    + done.
  - done.
  - rewrite (rmid_entries _ _ _ _ Er), (total_insert _ _ _ _ L), Use. lia.
Qed.

Lemma semctl_down_good w cur semid cmd now : inv [] w -> 0 <= semid -> good 0 w (semctl_down cur semid cmd now w).
Proof.
  intros I H. assert (good 0 w (match sem_lock w semid with
      | None => ret (- EINVAL) w
      | Some a =>
          if ipc_checkid a semid then ret (- EIDRM) w
          else if negb (s_euid cur =? p_cuid (sem_perm a)) && negb (s_euid cur =? p_uid (sem_perm a)) && negb (s_capable cur CAP_SYS_ADMIN)
            then ret (- EPERM) w
            else
              match cmd with
              | IPC_RMID => w ← freeary a semid w; ret 0 w
              | IPC_SET None => ret (- EFAULT) w
              | IPC_SET (Some (uid, gid, mode)) =>
                  let p := mk_perm (deleted (sem_perm a)) (p_key (sem_perm a)) uid gid (p_cuid (sem_perm a)) (p_cgid (sem_perm a))
                             (Z.lor (Z.ldiff (p_mode (sem_perm a)) S_IRWXUGO) (Z.land mode S_IRWXUGO)) (p_seq (sem_perm a)) in
                  ret 0 (store semid (set_ctime now (with_perm p a)) w)
              end
      end)) as G.
  { destruct (sem_lock w semid) as [a |] eqn:E; [| by apply good_ret]. destruct (lock_sid w semid a (inv_ids _ _ I) H E) as [L S].
    destruct (ipc_checkid a semid) eqn:C; [by apply good_ret |]. specialize (S eq_refl). case_match; [by apply good_ret |].
    destruct cmd as [| [[[uid gid] mode] |]]; [| | by apply good_ret].
    - destruct (freeary_good w semid a I H L S) as (w' & -> & I' & Sq). cbn [mbind option_bind]. eexists _, w'. split; [done |]. split; [done |]. lia.
    - apply (semctl_set_good w semid a); [done | done | done |]. destruct (inv_ids _ _ I) as (_ & _ & _ & _ & _ & _ & _ & Hp). by apply (Hp _ a L). }
  unfold semctl_down. destruct cmd as [| [s |]]; [exact G | exact G | by apply good_ret].
Qed.

(** *** Undo lists *)

Lemma owner_mono w w' t u : undo_list_of w' = undo_list_of w ->
  (forall ul l, ulists w !! ul = Some l -> u ∈ proc_list l -> exists l', ulists w' !! ul = Some l' /\ u ∈ proc_list l') ->
  owner w t u -> owner w' t u.
Proof. intros E H (ul & l & Ht & Hl & Hu). destruct (H ul l Hl Hu) as (l' & ? & ?). exists ul, l'. by rewrite E. Qed.

(** Freeing a structure that is on no set: [pl] is its list without it. *)
Lemma inv_free G G' w ul l p un pl : inv G w -> ulists w !! ul = Some l -> p ∈ proc_list l -> undos w !! p = Some un ->
  (forall i b, live (sem_ids w) i b -> p ∉ sma_undo b) -> (forall t, owner w t p -> un_semid un = -1) ->
  (forall u, u <> p -> u ∈ proc_list l <-> u ∈ pl) -> p ∉ pl -> NoDup pl -> (forall x, x ∉ G' -> x <> p -> x ∉ G) ->
  inv G' (set_undos (delete p (undos w)) (set_ulists (<[ul := mk_ulist (refcnt l) pl]> (ulists w)) w)).
Proof.
  intros I Hl Hp Hun Hnone Hown Hpl Npl Ndpl HG. pose proof I as [Ids Seq Arr Ptr Addr Und Lst Own Tsk Pc Ext Use].
  set (w' := set_undos _ _).
  assert (forall t u, u <> p -> owner w t u -> owner w' t u) as Ow.
  { intros t u Hne. apply owner_mono; [done |]. intros ul' l' Hl' Hu. cbn. destruct (decide (ul = ul')) as [<- | Hne'].
    - rewrite lookup_insert_eq. eexists. split; [done |]. cbn. apply Hpl; [done |]. congruence.
    - rewrite lookup_insert_ne by done. by exists l'. }
  assert (forall ul' l', ulists w' !! ul' = Some l' -> exists l0, ulists w !! ul' = Some l0 /\ (forall u, u ∈ proc_list l' -> u ∈ proc_list l0 /\ u <> p) /\
    refcnt l' = refcnt l0 /\ NoDup (proc_list l')) as Lb.
  { intros ul' l'. cbn. destruct (decide (ul = ul')) as [<- | Hne].
    - rewrite lookup_insert_eq. intros [= <-]. exists l. split; [done |]. cbn. split; [| done]. intros u Hu. assert (u <> p) by (by intros ->). split; [by apply Hpl | done].
    - rewrite lookup_insert_ne by done. intros Hl'. exists l'. split; [done |]. destruct (Lst ul' l' Hl') as (_ & N & _). split; [| done]. intros u Hu. split; [done |].
      intros ->. by apply Hne, (Own ul l ul' l' p). }
  constructor; try done.
  - intros i b L. destruct (Arr i b L) as (V & P & N & U & S & F). split; [done |]. split; [done |]. split; [done |]. split; [| split; [done |]].
    + intros u Hu. destruct (U u Hu) as (v & ? & ?). exists v. cbn. rewrite lookup_delete_ne; [done |]. intros ->. by apply (Hnone i b L).
    + apply Forall_forall. intros q Hq. apply (proj1 (Forall_forall _ _) F) in Hq as (H1 & H2 & H3). split; [done |]. split; [| done].
      intros u Hu. destruct (H2 u Hu) as [Hin Ho]. split; [done |]. apply Ow; [| done]. intros ->. by apply (Hnone i b L).
  - intros u v. cbn. intros [_ Hv]%lookup_delete_Some. by apply (Addr u v).
  - intros u v. cbn. intros [Hne Hv]%lookup_delete_Some Hn Hg. apply (Und u v); [done | done |]. by apply HG.
  - intros ul' l' Hl'. destruct (Lb ul' l' Hl') as (l0 & Hl0 & Hu & Er & Nd). destruct (Lst ul' l0 Hl0) as (? & _ & Hsome & Er0).
    split; [done |]. split; [done |]. split; [| by rewrite Er]. intros u Hin. destruct (Hu u Hin). cbn. rewrite lookup_delete_ne by done. by apply Hsome.
  - intros u1 l1 u2 l2 u H1 H2 Hu1 Hu2. destruct (Lb _ _ H1) as (k1 & ? & K1 & _). destruct (Lb _ _ H2) as (k2 & ? & K2 & _).
    eapply (Own u1 k1 u2 k2 u); try done; [by apply K1 | by apply K2].
  - intros t ul' Ht. cbn. destruct (decide (ul = ul')) as [<- |]; [rewrite lookup_insert_eq; by eexists |]. rewrite lookup_insert_ne by done. by apply (Tsk t).
  - intros t q Hq. specialize (Pc t q Hq). destruct q as [r ptr n | r un' | r | sm ptr n | ul' g]; cbn in *; try done.
    + destruct Pc as (? & ? & H). split; [done |]. split; [done |]. intros u Hu. destruct (H u Hu) as (? & D). split; [done |]. destruct D as [(v & Hv & Ev & Ho) | (D & Hv)].
      * left. exists v. assert (u <> p) as Hne by (intros ->; assert (v = un) as -> by congruence; specialize (Hown t Ho); lia).
        rewrite lookup_delete_ne by done. split; [done |]. split; [done |]. by apply Ow.
      * right. split; [done |]. intros v [_ Hv']%lookup_delete_Some. by apply Hv.
    + destruct Pc as ([l0 Hl0] & H). split; [| done]. destruct (decide (ul = ul')) as [<- |]; [rewrite lookup_insert_eq; by eexists |]. rewrite lookup_insert_ne by done. by exists l0.
Qed.

Lemma dead_not_on_set G w p un : inv G w -> undos w !! p = Some un -> un_semid un = -1 -> forall i b, live (sem_ids w) i b -> p ∉ sma_undo b.
Proof.
  intros I Hun E i b L Hin. destruct (inv_arr _ _ I i b L) as (_ & _ & _ & U & _). destruct (U p Hin) as (v & Hv & Ev & _).
  assert (v = un) as -> by congruence. destruct (sid_place _ _ _ (inv_ids _ _ I) L) as (_ & ? & _). lia.
Qed.

Lemma lookup_undo_loop_ok semid rest : forall w ul l pre, inv [] w -> ulists w !! ul = Some l -> proc_list l = pre ++ rest ->
  exists r rest' us', lookup_undo_loop rest semid (undos w) = Some (r, rest', us') /\
    inv [] (set_undos us' (set_ulists (<[ul := mk_ulist (refcnt l) (pre ++ rest')]> (ulists w)) w)) /\
    forall p, r = Some p -> p ∈ rest' /\ exists u, us' !! p = Some u /\ un_semid u = semid.
Proof.
  induction rest as [| p rest IH]; intros w ul l pre I Hl El; cbn [lookup_undo_loop].
  { exists None, [], (undos w). split; [done |]. split; [| done]. rewrite <- El. replace (mk_ulist (refcnt l) (proc_list l)) with l by (by destruct l).
    rewrite insert_id by done. by destruct w. }
  destruct (inv_list _ _ I ul l Hl) as (_ & Nd & Hs & _). rewrite El in Nd, Hs. destruct (Hs p ltac:(set_solver)) as [un Hun]. rewrite Hun. cbn [mbind option_bind].
  destruct (Z.eqb_spec (un_semid un) semid) as [E | E].
  { exists (Some p), (p :: rest), (undos w). split; [done |]. rewrite <- El. replace (mk_ulist (refcnt l) (proc_list l)) with l by (by destruct l).
    rewrite insert_id by done. split; [by destruct w |]. intros p' [= <-]. split; [by left |]. by exists un. }
  destruct (Z.eqb_spec (un_semid un) (-1)) as [E1 | E1].
  - assert (p ∉ pre ++ rest /\ NoDup (pre ++ rest)) as [Np Nd'].
    { apply NoDup_app in Nd as (N1 & N2 & N3). apply NoDup_cons in N3 as [N4 N5]. split; [set_solver |]. apply NoDup_app. split; [done |]. split; [set_solver | done]. }
    set (w1 := set_undos (delete p (undos w)) (set_ulists (<[ul := mk_ulist (refcnt l) (pre ++ rest)]> (ulists w)) w)).
    assert (inv [] w1) as I1.
    { apply (inv_free [] [] w ul l p un (pre ++ rest)); [done | done | rewrite El; set_solver | done | by eapply dead_not_on_set | done | | done | done | done].
      intros u Hne. rewrite El. set_solver. }
    destruct (IH w1 ul (mk_ulist (refcnt l) (pre ++ rest)) pre I1) as (r & rest' & us' & Er & I2 & Hr); [cbn; by rewrite lookup_insert_eq | done |].
    cbn [undos w1 set_undos] in Er. exists r, rest', us'. split; [exact Er |]. split; [| done].
    cbn [ulists w1 set_undos set_ulists] in I2. rewrite insert_insert_eq in I2. exact I2.
  - destruct (IH w ul l (pre ++ [p]) I Hl) as (r & rest' & us' & -> & I2 & Hr); [by rewrite <- app_assoc |]. cbn [mbind option_bind].
    exists r, (p :: rest'), us'. split; [done |]. split; [by rewrite <- app_assoc in I2 |]. intros p' Hp'. destruct (Hr p' Hp') as (? & ?). split; [by right | done].
Qed.

Lemma lookup_undo_ok w t ul semid : inv [] w -> undo_list_of w !! t = Some ul ->
  exists r w', lookup_undo ul semid w = Some (r, w') /\ inv [] w' /\ sem_ids w' = sem_ids w /\ pcs w' = pcs w /\ undo_list_of w' = undo_list_of w /\
    next_addr w' = next_addr w /\ forall p, r = Some p -> exists u, undos w' !! p = Some u /\ un_semid u = semid /\ owner w' t p.
Proof.
  intros I Ht. destruct (inv_task _ _ I t ul Ht) as [l Hl].
  destruct (lookup_undo_loop_ok semid (proc_list l) w ul l [] I Hl eq_refl) as (r & rest' & us' & E & I' & Hr).
  unfold lookup_undo. rewrite Hl. cbn [mbind option_bind]. rewrite E. cbn [mbind option_bind]. eexists r, _. split; [done |]. split; [exact I' |].
  split; [done |]. split; [done |]. split; [done |]. split; [done |]. intros p Hp. destruct (Hr p Hp) as (Hin & u & Hu & Eu). exists u. split; [done |]. split; [done |].
  exists ul, (mk_ulist (refcnt l) rest'). cbn. split; [done |]. split; [by rewrite lookup_insert_eq | done].
Qed.

Lemma users_insert w t ul x : undo_list_of w !! t = None ->
  users (set_list_of (<[t := ul]> (undo_list_of w)) w) x = users w x + (if decide (ul = x) then 1 else 0).
Proof.
  intros Ht. unfold users. cbn. rewrite map_filter_insert. cbn. case_decide as E.
  - subst x. rewrite map_size_insert_None; [lia |]. apply map_lookup_filter_None. left. done.
  - rewrite delete_id by done. lia.
Qed.

Lemma users_delete w t ul x : undo_list_of w !! t = Some ul ->
  users (set_list_of (delete t (undo_list_of w)) w) x = users w x - (if decide (ul = x) then 1 else 0).
Proof.
  intros Ht. unfold users. cbn. rewrite map_filter_delete. case_decide as E.
  - subst x. rewrite map_size_delete_Some by (exists ul; by apply map_lookup_filter_Some).
    assert (0 < size (filter (fun kv : Z * Z => kv.2 = ul) (undo_list_of w)))%nat; [| lia].
    apply Nat.neq_0_lt_0. intros Z0%map_size_empty_inv. pose proof (map_lookup_filter_Some_2 (fun kv : Z * Z => kv.2 = ul) (undo_list_of w) t ul Ht eq_refl) as Hf.
    rewrite Z0 in Hf. by rewrite lookup_empty in Hf.
  - rewrite delete_id; [lia |]. apply map_lookup_filter_None. right. intros y Hy. cbn. congruence.
Qed.

Lemma list_fresh G w : inv G w -> ulists w !! next_addr w = None /\ forall t, undo_list_of w !! t <> Some (next_addr w).
Proof.
  intros I. assert (ulists w !! next_addr w = None) as N.
  { destruct (ulists w !! next_addr w) as [l |] eqn:E; [| done]. destruct (inv_list _ _ I _ _ E) as [? _]. lia. }
  split; [done |]. intros t Ht. destruct (inv_task _ _ I t _ Ht) as [l Hl]. congruence.
Qed.

Lemma users_zero w ul : (forall t, undo_list_of w !! t <> Some ul) -> users w ul = 0.
Proof.
  intros H. unfold users. enough (filter (fun kv : Z * Z => kv.2 = ul) (undo_list_of w) = ∅) as -> by done.
  apply map_empty. intros t. apply map_lookup_filter_None. right. intros x Hx E. cbn in E. subst x. by apply (H t).
Qed.

Lemma inv_new_list G w t ul : inv G w -> ulists w !! ul = None -> (forall t', undo_list_of w !! t' <> Some ul) -> ul < next_addr w ->
  undo_list_of w !! t = None ->
  inv G (set_list_of (<[t := ul]> (undo_list_of w)) (set_ulists (<[ul := mk_ulist 1 []]> (ulists w)) w)).
Proof.
  intros I Nl Nt Hlt Ht. set (w1 := set_list_of _ _). pose proof I as [Ids Seq Arr Ptr Addr Und Lst Own Tsk Pc Ext Use].
  assert (forall x, users w1 x = users w x + (if decide (ul = x) then 1 else 0)) as Us by (intros x; by apply (users_insert w)).
  assert (forall t' u, owner w t' u -> owner w1 t' u) as Ow.
  { intros t' u (x & l & Hx & Hl & Hu). exists x, l. cbn. split; [| split; [| done]]; (rewrite lookup_insert_ne; [done |]; intros ->; congruence). }
  assert (forall x l, ulists w1 !! x = Some l -> x = ul /\ l = mk_ulist 1 [] \/ x <> ul /\ ulists w !! x = Some l) as Lb.
  { intros x l. cbn. destruct (decide (ul = x)) as [<- |]; [rewrite lookup_insert_eq; intros [= <-]; by left | rewrite lookup_insert_ne by done; by right]. }
  assert (forall x, is_Some (ulists w !! x) -> is_Some (ulists w1 !! x)) as Ls.
  { intros x Hx. cbn. destruct (decide (ul = x)) as [<- |]; [rewrite lookup_insert_eq; by eexists | by rewrite lookup_insert_ne by done]. }
  constructor; try done.
  - intros i b L. destruct (Arr i b L) as (V & P & N & U & S & F). split; [done |]. split; [done |]. split; [done |]. split; [done |]. split; [done |].
    apply Forall_forall. intros q Hq. apply (proj1 (Forall_forall _ _) F) in Hq as (H1 & H2 & H3). split; [done |]. split; [| done].
    intros u Hu. destruct (H2 u Hu). split; [done | by apply Ow].
  - intros x l [[-> ->] | [Hne Hl]]%Lb.
    + split; [done |]. split; [constructor |]. split; [set_solver |]. rewrite Us, decide_True, users_zero by done. done.
    + destruct (Lst x l Hl) as (? & ? & ? & Er). split; [done |]. split; [done |]. split; [done |]. rewrite Us, decide_False by done. lia.
  - intros x1 l1 x2 l2 u [[-> ->] | [_ H1]]%Lb [[-> ->] | [_ H2]]%Lb; cbn; try set_solver.
  - intros t' x. cbn. destruct (decide (t = t')) as [<- |].
    + rewrite lookup_insert_eq. intros [= <-]. rewrite lookup_insert_eq. by eexists.
    + rewrite lookup_insert_ne by done. intros Hx. apply Ls. by apply (Tsk t').
  - intros t' p Hp. specialize (Pc t' p Hp). destruct p as [r ptr n | r un | r | sm ptr n | x g]; cbn in *; try done.
    + destruct Pc as (? & ? & Hs & H). split; [done |]. split; [done |]. split; [| done]. destruct (decide (t = t')) as [<- |]; [rewrite lookup_insert_eq; by eexists |].
      by rewrite lookup_insert_ne by done.
    + destruct Pc as (? & ? & H). split; [done |]. split; [done |]. intros u Hu. destruct (H u Hu) as (? & D). split; [done |].
      destruct D as [(v & ? & ? & Ho) | D]; [left; exists v; split; [done |]; split; [done | by apply Ow] | by right].
    + destruct Pc as (Hs & H). split; [by apply Ls |]. intros s. destruct (decide (t = s)) as [<- |]; [| by rewrite lookup_insert_ne by done].
      rewrite lookup_insert_eq. intros [= ->]. destruct Hs. congruence.
Qed.

Lemma get_undo_list_ok w t alloc ul w' : inv [] w -> get_undo_list t alloc w = Some (ul, w') ->
  inv [] w' /\ undo_list_of w' !! t = Some ul /\ sem_ids w' = sem_ids w /\ pcs w' = pcs w /\
  (forall t', t' <> t -> undo_list_of w' !! t' = undo_list_of w !! t').
Proof.
  intros I. unfold get_undo_list. destruct (undo_list_of w !! t) as [x |] eqn:Ht; [intros [= <- <-]; done |].
  destruct alloc; [| done]. cbn [negb]. intros [= <- <-]. cbn. rewrite lookup_insert_eq. split; [| split; [done |]; split; [done |]; split; [done |]].
  2: { intros t' Hne. by rewrite lookup_insert_ne. }
  destruct (list_fresh _ _ I) as [Nl Nt]. apply (inv_new_list [] (set_next (next_addr w + 1) w)); [apply inv_next; [done | lia] | done | done | cbn; lia | done].
Qed.

(** The task stays where it is, or its call ends or goes on, after [find_undo]. *)
Lemma find_undo_good w t r alloc : inv [] w -> 0 <= r_semid r -> (forall r', pcs w !! t <> Some (Asleep r')) -> good 0 w (find_undo t r alloc w).
Proof.
  intros I Hr Na. unfold find_undo. destruct (get_undo_list t alloc w) as [[ul w1] |] eqn:E; [| by apply good_leave].
  destruct (get_undo_list_ok w t alloc ul w1 I E) as (I1 & Ht & Ei & Ep & _).
  destruct (lookup_undo_ok w1 t ul (r_semid r) I1 Ht) as (un & w2 & -> & I2 & Ei2 & Ep2 & El2 & _ & Hun). cbn [mbind option_bind].
  assert (forall r', pcs w2 !! t <> Some (Asleep r')) as Na2 by (by rewrite Ep2, Ep).
  apply (good_trans w w2); [by rewrite Ei2, Ei |]. destruct un as [u |].
  - destruct (Hun u eq_refl) as (v & Hv & Ev & Ho). apply good_goto; [done | done | | done]. split; [done |]. split; [by eexists |].
    intros u' [= <-]. split; [by apply (inv_addr _ _ I2 u v) |]. left. by exists v.
  - destruct (sem_lock w2 (r_semid r)) as [a |] eqn:El; [| by apply good_leave]. destruct (lock_sid w2 _ a (inv_ids _ _ I2) Hr El) as [L S].
    destruct (ipc_checkid a (r_semid r)) eqn:C; [by apply good_leave |]. specialize (S eq_refl). apply good_goto; [done | done | | done].
    destruct (inv_arr _ _ I2 _ _ L) as (_ & P & _). split; [done |]. split; [done |]. split; [rewrite El2, Ht; by eexists |].
    intros lid b Lb Eb. pose proof (inv_ptr _ _ I2 _ _ _ _ Lb L Eb) as ->. assert (b = a) as -> by (unfold live in *; congruence). done.
Qed.

(** *** A new undo structure *)

Lemma undo_fresh G w : inv G w -> undos w !! next_addr w = None.
Proof. intros I. destruct (undos w !! next_addr w) as [u |] eqn:E; [| done]. destruct (inv_addr _ _ I _ _ E) as [? _]. lia. Qed.

Definition link_undo (lid : nat) (a : sem_array) (ul : Z) (l : sem_undo_list) (semid : Z) (w : world) : world :=
  let new := next_addr w in
  store (Z.of_nat lid) (set_undo (new :: sma_undo a) a)
    (set_ulists (<[ul := mk_ulist (refcnt l) (new :: proc_list l)]> (ulists w))
       (set_undos (<[new := mk_undo semid (replicate (length (sem_base a)) 0)]> (undos w)) (set_next (new + 1) w))).

Lemma inv_link w lid a ul l : inv [] w -> live (sem_ids w) lid a -> ulists w !! ul = Some l -> inv [] (link_undo lid a ul l (sid lid a) w).
Proof.
  intros I L Hl. pose proof I as [Ids Seq Arr Ptr Addr Und Lst Own Tsk Pc Ext Use]. pose proof (undo_fresh _ _ I) as Fr.
  destruct (live_range _ _ _ Ids L) as [Hlid _]. pose proof (place_small lid ltac:(lia)) as Pl. set (a' := set_undo (next_addr w :: sma_undo a) a).
  assert (deleted (sem_perm a) = false) as Hd by (destruct Ids as (_ & _ & _ & _ & _ & _ & _ & Hp); by apply (Hp lid a)).
  destruct (ipc_store_spec (sem_ids w) (Z.of_nat lid) a a' Ids ltac:(by rewrite Pl) eq_refl Hd) as [Ids' Lv]. rewrite Pl in Lv.
  set (w' := link_undo lid a ul l (sid lid a) w). set (new := next_addr w) in *.
  assert (forall u v, undos w !! u = Some v -> undos w' !! u = Some v) as Uf by (intros u v Hu; cbn; rewrite lookup_insert_ne; unfold new in *; congruence).
  assert (forall t u, owner w t u -> owner w' t u) as Ow.
  { intros t u. apply owner_mono; [done |]. intros x k Hk Hu. cbn. destruct (decide (ul = x)) as [<- |]; [| rewrite lookup_insert_ne by done; by exists k].
    rewrite lookup_insert_eq. assert (k = l) as -> by congruence. eexists. split; [done |]. by right. }
  assert (forall x k, ulists w' !! x = Some k -> exists k0, ulists w !! x = Some k0 /\ refcnt k = refcnt k0 /\
    (k = k0 \/ x = ul /\ proc_list k = new :: proc_list k0)) as Lb.
  { intros x k. cbn. destruct (decide (ul = x)) as [<- |]; [rewrite lookup_insert_eq; intros [= <-]; exists l; auto | rewrite lookup_insert_ne by done; intros Hk; exists k; auto]. }
  assert (forall x k, ulists w !! x = Some k -> new ∉ proc_list k) as Nin.
  { intros x k Hk Hin. destruct (Lst x k Hk) as (_ & _ & Hs & _). destruct (Hs _ Hin). congruence. }
  assert (forall i b', live (sem_ids w') i b' -> exists b, live (sem_ids w) i b /\ sid i b' = sid i b /\ sma_ptr b' = sma_ptr b /\
    sem_base b' = sem_base b /\ sem_pending b' = sem_pending b /\ p_seq (sem_perm b') = p_seq (sem_perm b)) as Bwd.
  { intros i b' [[-> ->] | [_ Lb']]%Lv; [by exists a | by exists b']. }
  assert (forall i b, live (sem_ids w) i b -> exists b', live (sem_ids w') i b' /\ sid i b' = sid i b /\ forall u, u ∈ sma_undo b -> u ∈ sma_undo b') as Fwd.
  { intros i b Lb'. destruct (decide (i = lid)) as [-> | Hne]; [| exists b; split; [apply Lv; by right | done]].
    assert (b = a) as -> by (unfold live in *; congruence). exists a'. split; [apply Lv; by left |]. split; [done |]. intros u Hu. by right. }
  assert (forall i b q, live (sem_ids w) i b -> pending_ok w i b q -> forall b', sid i b' = sid i b -> sem_base b' = sem_base b ->
    (forall u, u ∈ sma_undo b -> u ∈ sma_undo b') -> pending_ok w' i b' q) as Pq.
  { intros i b q _ (H1 & H2 & H3 & H4) b' E1 E2 Hu. split; [by rewrite E2 |]. split; [intros u Eu; destruct (H2 u Eu); split; [by apply Hu | by apply Ow] |].
    rewrite E1. done. }
  constructor; try done.
  - intros i b' (b & Lb' & _ & _ & _ & _ & ->)%Bwd. by apply (Seq i b).
  - intros i b [[-> ->] | [Hne Lb']]%Lv.
    + destruct (Arr lid a L) as (V & P & N & U & S & F). split; [done |]. split; [cbn; lia |]. split; [| split; [| split; [done |]]].
      * cbn. constructor; [| done]. intros Hin. destruct (U _ Hin) as (v & Hv & _). congruence.
      * cbn. intros u [-> | Hu]%elem_of_cons; [rewrite lookup_insert_eq; eexists; split; [done |]; split; [done | apply length_replicate] |].
        destruct (U u Hu) as (v & Hv & ?). exists v. split; [exact (Uf u v Hv) | done].
      * eapply Forall_impl; [exact F |]. intros q Hq. apply (Pq lid a q L Hq); [done | done |]. intros u Hu. by right.
    + destruct (Arr i b Lb') as (V & P & N & U & S & F). split; [done |]. split; [cbn; lia |]. split; [done |]. split; [| split; [done |]].
      * intros u Hu. destruct (U u Hu) as (v & Hv & ?). exists v. split; [exact (Uf u v Hv) | done].
      * eapply Forall_impl; [exact F |]. intros q Hq. by apply (Pq i b q Lb' Hq).
  - intros i b i' b' (c & Lc & _ & Ec & _)%Bwd (c' & Lc' & _ & Ec' & _)%Bwd E. apply (Ptr i c i' c' Lc Lc'). congruence.
  - intros u v. cbn. fold new. intros [[<- <-] | [Hne Hv]]%lookup_insert_Some; [split; [lia | by apply Forall_replicate] |]. destruct (Addr u v Hv). split; [lia | done].
  - intros u v. cbn. fold new. intros [[<- <-] | [Hne Hv]]%lookup_insert_Some Hn Hg.
    + exists lid, a'. split; [apply Lv; by left |]. split; [done |]. by left.
    + destruct (Und u v Hv Hn Hg) as (i & b & Lb' & E & Hu). destruct (Fwd i b Lb') as (b' & ? & E' & Hs). exists i, b'. rewrite E'. auto.
  - intros x k Hk. destruct (Lb x k Hk) as (k0 & Hk0 & Er & D). destruct (Lst x k0 Hk0) as (? & N & Hs & Er0). pose proof (Nin x k0 Hk0) as Nn.
    split; [cbn; lia |]. rewrite Er. destruct D as [-> | [-> ->]].
    + split; [done |]. split; [| done]. intros u Hu. destruct (Hs u Hu) as [v Hv]. exists v. by apply Uf.
    + split; [by constructor |]. split; [| done]. intros u [-> | Hu]%elem_of_cons; [cbn; rewrite lookup_insert_eq; by eexists |].
      destruct (Hs u Hu) as [v Hv]. exists v. by apply Uf.
  - intros x1 k1 x2 k2 u H1 H2 Hu1 Hu2. destruct (Lb _ _ H1) as (c1 & K1 & _ & D1), (Lb _ _ H2) as (c2 & K2 & _ & D2).
    pose proof (Nin _ _ K1). pose proof (Nin _ _ K2). destruct D1 as [-> | [-> E1]], D2 as [-> | [-> E2]]; try done; rewrite ?E1, ?E2, ?elem_of_cons in *.
    + by eapply (Own x1 c1 x2 c2 u). + destruct Hu2 as [-> | ?]; [done |]. by eapply (Own x1 c1 ul c2 u). + destruct Hu1 as [-> | ?]; [done |]. by eapply (Own ul c1 x2 c2 u).
  - intros t x Hx. cbn. destruct (decide (ul = x)) as [<- |]; [rewrite lookup_insert_eq; by eexists |]. rewrite lookup_insert_ne by done. by apply (Tsk t).
  - intros t p Hp. specialize (Pc t p Hp). destruct p as [r ptr n | r un | r | sm ptr n | x g]; cbn in *; fold new.
    + destruct Pc as (? & ? & ? & H). split; [done |]. split; [lia |]. split; [done |]. intros i b' (b & Lb' & -> & -> & -> & _)%Bwd. by apply (H i b).
    + destruct Pc as (? & ? & H). split; [done |]. split; [done |]. intros u Hu. destruct (H u Hu) as (Hlt & D). split; [lia |]. destruct D as [(v & Hv & Ev & Ho) | ((Hd' & Hs) & Hv)].
      * left. exists v. split; [by apply Uf |]. split; [done | by apply Ow].
      * right. split; [split; [done |]; intros i b' (b & Lb' & -> & _)%Bwd; by apply (Hs i b) |]. rewrite lookup_insert_ne; [done |]. unfold new. lia.
    + destruct Pc as (st & Hst & H). exists st. split; [done |]. intros E. destruct (H E) as (i & b & Lb' & Eb & Ht). destruct (decide (i = lid)) as [-> | Hne].
      * exists lid, a'. assert (b = a) as -> by (unfold live in *; congruence). split; [apply Lv; by left | done].
      * exists i, b. split; [apply Lv; by right | done].
    + destruct Pc as (? & H). split; [lia |]. intros i b' (b & Lb' & _ & -> & -> & _)%Bwd. by apply (H i b).
    + destruct Pc as ([k Hk] & H). split; [| done]. destruct (decide (ul = x)) as [<- |]; [rewrite lookup_insert_eq; by eexists |]. rewrite lookup_insert_ne by done. by exists k.
  - cbn. rewrite Use. unfold ipc_store. cbn [entries]. fold (place (Z.of_nat lid)). rewrite Pl, (total_insert _ _ _ _ L). cbn. lia.
Qed.

Lemma find_undo_alloc_good w t r ptr nsems alloc : inv [] w -> pcs w !! t = Some (FindUndo r ptr nsems) ->
  good 0 w (find_undo_alloc t r ptr nsems alloc w).
Proof.
  intros I Ht. pose proof (inv_pc _ _ I _ _ Ht) as (Hr & _ & [ul Hul] & Hp). unfold find_undo_alloc.
  assert (forall r', pcs w !! t <> Some (Asleep r')) as Na by (by rewrite Ht). destruct alloc; [| by apply good_leave]. cbn [negb]. rewrite Hul. cbn [mbind option_bind].
  destruct (lookup_undo_ok w t ul (r_semid r) I Hul) as (un & w1 & -> & I1 & Ei & Ep & El & _ & Hun). cbn [mbind option_bind].
  apply (good_trans w w1); [by rewrite Ei |]. rewrite <- Ep in Na, Ht. destruct un as [u |].
  - destruct (Hun u eq_refl) as (v & Hv & Ev & Ho). apply good_goto; [done | done | | done]. split; [done |]. split; [by eexists |].
    intros u' [= <-]. split; [by apply (inv_addr _ _ I1 u v) |]. left. by exists v.
  - destruct (lock_by_ptr w1 ptr) as [[lid a] |] eqn:E; [| by apply good_leave]. apply lock_by_ptr_live in E as [L Ea].
    rewrite Ei in L. destruct (Hp lid a L Ea) as [<- Es]. rewrite <- Ei in L. rewrite <- El in Hul. destruct (inv_task _ _ I1 t ul Hul) as [l Hl]. rewrite Hl. cbn [mbind option_bind].
    pose proof (inv_link w1 lid a ul l I1 L Hl) as I2. rewrite Es in I2.
    eapply (good_trans w1 (link_undo lid a ul l (r_semid r) w1)); [done |]. apply good_goto; [exact I2 | done | | done].
    split; [done |]. split; [by eexists |]. intros u [= <-]. split; [cbn; lia |]. left. cbn. rewrite lookup_insert_eq. eexists. split; [done |]. split; [done |].
    exists ul. cbn. rewrite lookup_insert_eq. eexists. split; [done |]. split; [done |]. by left.
Qed.

(** *** semop *)

Lemma semtimedop_good w t tgid semid sops readable timeout alloc : inv [] w -> pcs w !! t = None ->
  good 0 w (semtimedop t tgid semid sops readable timeout alloc w).
Proof.
  intros I Ht. assert (forall r, pcs w !! t <> Some (Asleep r)) as Na by (by rewrite Ht). unfold semtimedop.
  destruct ((Z.of_nat (length sops) <? 1) || (semid <? 0)) eqn:B; [by apply good_ret |]. destruct (SEMOPM <? _); [by apply good_ret |].
  destruct readable; [| by apply good_ret]. cbn [negb].
  assert (forall b, let r := mk_req semid sops b tgid in good 0 w (if r_undos r then find_undo t r alloc w else goto t (TrySemop r None) w)) as G.
  { intros b r. destruct (r_undos r) eqn:U; [apply find_undo_good; [done | cbn; lia | done] |].
    apply good_goto; [done | done | | done]. split; [cbn; lia |]. split; [congruence | done]. }
  destruct timeout as [[[sec nsec] |] |]; [| by apply good_ret | apply G]. case_match; [by apply good_ret | apply G].
Qed.

(** A request that has to sleep waits for a value. *)
Lemma fails_waits base adj sops k t un pid : vals_ok base -> sops_ok (length base) adj sops -> fails_at base adj sops k 1 -> waits (mk_queue t un pid sops).
Proof.
  intros V Ok [(s & Hs & Hv) Hj]. exists s. split; [by eapply list_elem_of_lookup_2 |].
  assert (0 <= value_at base sops k s) as Hp.
  { pose proof (proj1 (Forall_lookup _ _) Ok _ _ Hs) as [Hn _]. destruct (lookup_lt_is_Some_2 base (sem_num s) Hn) as [c Hc].
    unfold value_at. rewrite (nth_lookup_Some _ _ _ _ Hc). eapply (applicable_range base adj (take k sops)); [done | by eapply Forall_lookup in V |].
    intros j s' [Hs' Hlt]%lookup_take_Some. unfold value_at. rewrite take_take, Nat.min_l by lia. by apply Hj. }
  unfold verdict in Hv. destruct (has IPC_NOWAIT (sem_flg s)); [by repeat case_match |]. split; [| done].
  destruct (bool_decide (sem_op s = 0 /\ _) || bool_decide (_ < 0)) eqn:B; [| by repeat case_match].
  apply orb_true_iff in B as [B%bool_decide_eq_true | B%bool_decide_eq_true]; lia.
Qed.

Lemma inv_enqueue w t r un semid a qs : inv [] w -> pcs w !! t = Some (TrySemop r un) -> live (sem_ids w) (place semid) a -> sid (place semid) a = r_semid r ->
  let q := mk_queue t un (r_tgid r) (r_sops r) in qs ≡ₚ q :: sem_pending a ->
  Forall (fun s => (sem_num s < length (sem_base a))%nat /\ (has SEM_UNDO (sem_flg s) = true -> is_Some un)) (r_sops r) ->
  (forall u, un = Some u -> u ∈ sma_undo a /\ owner w t u) -> waits q ->
  inv [] (set_pcs (<[t := Asleep r]> (pcs w)) (set_status (<[t := - EINTR]> (status_of w)) (store semid (set_pending qs a) w))).
Proof.
  intros I Ht L Es q Hqs Fs Hun Hw. assert (forall r', pcs w !! t <> Some (Asleep r')) as Na by (by rewrite Ht).
  pose proof (not_asleep_not_queued _ _ _ I Na) as Nq. pose proof I as [Ids Seq Arr Ptr Addr Und Lst Own Tsk Pc Ext Use].
  assert (deleted (sem_perm a) = false) as Hd by (destruct Ids as (_ & _ & _ & _ & _ & _ & _ & Hp); by apply (Hp (place semid) a)).
  set (a' := set_pending qs a). destruct (ipc_store_spec (sem_ids w) semid a a' Ids L eq_refl Hd) as [Ids' Lv]. set (w' := set_pcs _ _).
  assert (forall i b', live (sem_ids w') i b' -> exists b, live (sem_ids w) i b /\ sid i b' = sid i b /\ sma_ptr b' = sma_ptr b /\
    sem_base b' = sem_base b /\ p_seq (sem_perm b') = p_seq (sem_perm b)) as Bwd.
  { intros i b' [[-> ->] | [_ Lb']]%Lv; [by exists a | by exists b']. }
  assert (forall i b q', live (sem_ids w) i b -> q' ∈ sem_pending b -> pending_ok w i b q' -> forall b', sid i b' = sid i b -> sem_base b' = sem_base b ->
    sma_undo b' = sma_undo b -> pending_ok w' i b' q') as Pq.
  { intros i b q' Lb Hq (H1 & H2 & (r' & Hr' & Er') & H4 & H5) b' E1 E2 E3. pose proof (Nq i b q' Lb Hq). split; [by rewrite E2 |].
    split; [intros u Eu; rewrite E3; by apply H2 |]. rewrite E1. cbn. rewrite !lookup_insert_ne by done. eauto. }
  destruct (Arr _ _ L) as (V & P & N & U & S & F). constructor; try done.
  - intros i b' (b & Lb' & _ & _ & _ & ->)%Bwd. by apply (Seq i b).
  - intros i b [[-> ->] | [Hne Lb]]%Lv.
    + split; [done |]. split; [done |]. split; [done |]. split; [done |]. cbn [sem_pending a' set_pending]. split.
      * rewrite Hqs. simpl. constructor; [| done]. intros (q' & E & Hq')%list_elem_of_fmap. by apply (Nq _ a q' L Hq').
      * rewrite Hqs. constructor; [| apply Forall_forall; intros q' Hq'; apply (Pq _ a q' L Hq'); [by apply (proj1 (Forall_forall _ _) F) | done | done | done]].
        split; [done |]. split; [done |]. cbn. rewrite !lookup_insert_eq. split; [exists r; by rewrite <- Es | done].
    + destruct (Arr i b Lb) as (V' & P' & N' & U' & S' & F'). split; [done |]. split; [done |]. split; [done |]. split; [done |]. split; [done |].
      apply Forall_forall. intros q' Hq'. apply (Pq i b q' Lb Hq'); [by apply (proj1 (Forall_forall _ _) F') | done | done | done].
  - intros i b i' b' (c & Lc & _ & Ec & _)%Bwd (c' & Lc' & _ & Ec' & _)%Bwd E. apply (Ptr i c i' c' Lc Lc'). congruence.
  - intros u v Hv Hn Hg. destruct (Und u v Hv Hn Hg) as (i & b & Lb & E & Hu). destruct (decide (i = place semid)) as [-> |].
    + assert (b = a) as -> by (unfold live in *; congruence). exists (place semid), a'. split; [apply Lv; by left | done].
    + exists i, b. split; [apply Lv; by right | done].
  - intros t' p Hp. cbn in Hp. apply lookup_insert_Some in Hp as [[<- <-] | [Hne Hp]].
    + exists (- EINTR). cbn. rewrite lookup_insert_eq. split; [done |]. intros _. exists (place semid), a'. split; [apply Lv; by left |]. split; [done |].
      cbn. rewrite Hqs. by left.
    + specialize (Pc t' p Hp). destruct p as [r' ptr n | r' un' | r' | sm ptr n | x g]; cbn in *; try done.
      * destruct Pc as (? & ? & ? & H). split; [done |]. split; [done |]. split; [done |]. intros i b' (b & Lb' & -> & -> & -> & _)%Bwd. by apply (H i b).
      * destruct Pc as (? & ? & H). split; [done |]. split; [done |]. intros u Hu. destruct (H u Hu) as (? & D). split; [done |]. destruct D as [D | ((Hd' & Hs) & Hv)]; [by left |].
        right. split; [split; [done |]; intros i b' (b & Lb' & -> & _)%Bwd; by apply (Hs i b) | done].
      * destruct Pc as (st & Hst & H). exists st. rewrite lookup_insert_ne by done. split; [done |]. intros E. destruct (H E) as (i & b & Lb & Eb & Hin).
        destruct (decide (i = place semid)) as [-> |]; [| exists i, b; split; [apply Lv; by right | done]].
        assert (b = a) as -> by (unfold live in *; congruence). exists (place semid), a'. split; [apply Lv; by left |]. split; [done |]. cbn. rewrite Hqs. by right.
      * destruct Pc as (? & H). split; [done |]. intros i b' (b & Lb' & _ & -> & -> & _)%Bwd. by apply (H i b).
  - intros t1 t2 ul g1 g2. cbn. intros [[_ ?] | [_ H1]]%lookup_insert_Some [[_ ?] | [_ H2]]%lookup_insert_Some; try done. by eapply Ext.
  - cbn. rewrite Use. unfold ipc_store. cbn [entries]. fold (place semid). rewrite (total_insert _ _ _ _ L). cbn. lia.
Qed.

(** The operands of a request whose set is locked. *)
Lemma locked_operands w t r un a : inv [] w -> pcs w !! t = Some (TrySemop r un) -> live (sem_ids w) (place (r_semid r)) a ->
  sid (place (r_semid r)) a = r_semid r -> (r_max r < length (sem_base a))%nat ->
  Forall (fun s => (sem_num s < length (sem_base a))%nat /\ (has SEM_UNDO (sem_flg s) = true -> is_Some un)) (r_sops r) /\
  (forall u, un = Some u -> u ∈ sma_undo a /\ owner w t u) /\
  queue_ok (length (sem_base a)) (undos w) (mk_queue t un (r_tgid r) (r_sops r)).
Proof.
  intros I Ht L Es Hm. pose proof (inv_pc _ _ I _ _ Ht) as (Hr & Hus & Hun). destruct (inv_arr _ _ I _ _ L) as (_ & _ & _ & U & _).
  assert (forall u, un = Some u -> u ∈ sma_undo a /\ owner w t u) as Hu.
  { intros u Eu. destruct (Hun u Eu) as (_ & [(v & Hv & Ev & Ho) | ((_ & Hd) & _)]); [| by destruct (Hd _ _ L)].
    split; [| done]. destruct (inv_undo _ _ I u v Hv ltac:(lia) ltac:(set_solver)) as (i & b & Lb & Eb & Hin).
    rewrite Ev, <- Es in Eb. by apply (sid_inj _ _ _ _ _ (inv_ids _ _ I) Lb L) in Eb as [_ ->]. }
  assert (Forall (fun s => (sem_num s < length (sem_base a))%nat /\ (has SEM_UNDO (sem_flg s) = true -> is_Some un)) (r_sops r)) as F.
  { apply Forall_forall. intros s Hs. split.
    - assert (sem_num s <= r_max r)%nat; [| lia]. unfold r_max. clear -Hs. induction (r_sops r) as [| s' l IH]; [by apply not_elem_of_nil in Hs |].
      cbn. apply elem_of_cons in Hs as [-> | Hs]; [lia |]. specialize (IH Hs). lia.
    - intros E. apply Hus. unfold r_undos. apply existsb_exists. exists s. split; [by apply list_elem_of_In | done]. }
  split; [done |]. split; [done |]. split.
  - eapply Forall_impl; [exact F |]. intros s [Hn Hs]. split; [done |]. intros [u Eu]%Hs. destruct (Hu u Eu) as [Hin _].
    destruct (U u Hin) as (v & Hv & _ & El). exists (semadj v). cbn. rewrite Eu. cbn. by rewrite Hv.
  - intros l El. cbn in El. destruct un as [u |]; [| done]. cbn in El. apply fmap_Some in El as (v & E & ->). by apply (inv_addr _ _ I u).
Qed.

(** The end of [sys_semtimedop] for a request that need not sleep. *)
Lemma semop_finish_good w t r un a a1 us1 e now : inv [] w -> pcs w !! t = Some (TrySemop r un) -> live (sem_ids w) (place (r_semid r)) a ->
  changed [] a a1 [] -> sem_pending a1 = sem_pending a -> same_undos (undos w) us1 ->
  good 0 w (if r_alter r then
              '(a, us, woken) ← update_queue now a1 us1;
              ret e (leave t (wake woken (store (r_semid r) a (set_undos us (set_undos us1 w)))))
            else ret e (leave t (store (r_semid r) a1 (set_undos us1 w)))).
Proof.
  intros I Ht L C Ep Su.
  assert (forall a' us' woken, changed [] a a' woken -> same_undos (undos w) us' -> good 0 w (ret e (leave t (wake woken (store (r_semid r) a' (set_undos us' w)))))) as G.
  { intros a' us' woken C' S'. pose proof (inv_update [] w (r_semid r) a a' us' woken I L C' S') as I'.
    eexists _, _. split; [done |]. split; [apply inv_leave; [exact I' | eapply not_asleep_not_queued; [exact I' | cbn; by rewrite Ht]] |]. cbn. lia. }
  destruct (r_alter r).
  - destruct (update_queue_ok [] w now (r_semid r) a a1 us1 I L C Ep Su) as (a' & us' & woken & -> & C' & S' & _). cbn [mbind option_bind].
    by apply (G a' us' woken).
  - rewrite <- (wake_nil (store _ _ _)). by apply (G a1 us1 []).
Qed.

Lemma semop_locked_good w t cur r un now alloc : inv [] w -> pcs w !! t = Some (TrySemop r un) -> good 0 w (semop_locked t cur r un now alloc w).
Proof.
  intros I Ht. assert (forall r', pcs w !! t <> Some (Asleep r')) as Na by (by rewrite Ht). pose proof (inv_pc _ _ I _ _ Ht) as (Hr & Hus & Hun).
  unfold semop_locked. destruct (sem_lock w (r_semid r)) as [a |] eqn:El; [| by apply good_leave].
  destruct (lock_sid w _ a (inv_ids _ _ I) Hr El) as [L S]. destruct (ipc_checkid a (r_semid r)) eqn:Ec; [by apply good_leave |]. specialize (S eq_refl).
  assert ((match un with Some u => v ← undos w !! u; Some (un_semid v =? -1) | None => Some false end) = Some false) as ->.
  { destruct un as [u |]; [| done]. destruct (Hun u eq_refl) as (_ & [(v & -> & Ev & _) | ((_ & Hd) & _)]); [| by destruct (Hd _ _ L)].
    cbn. rewrite Ev, (proj2 (Z.eqb_neq _ _)) by lia. done. }
  cbn [mbind option_bind]. destruct (length (sem_base a) <=? r_max r)%nat eqn:Em; [by apply good_leave |]. apply Nat.leb_gt in Em.
  destruct (negb _); [by apply good_leave |]. destruct (locked_operands w t r un a I Ht L S Em) as (F & Hu & [Ok Sh]). cbn in Ok, Sh.
  destruct (inv_arr _ _ I _ _ L) as (V & _).
  destruct (try_array_spec now a (undos w) (r_sops r) un (r_tgid r) Ok Sh) as [(A & ->) | (k & e & Fl & Ne & ->)]; cbn [mbind option_bind].
  - cbn [Z.leb Z.compare]. eapply semop_finish_good; [done | done | done | | done | apply same_undos_store].
    eapply (changed_base [] w _ a _ now (sem_ctime a)); [done | done | apply length_imap | by eapply performed_ok].
  - destruct (e <=? 0) eqn:E0.
    + eapply semop_finish_good; [done | done | done | | done | apply same_undos_refl].
      pose proof (changed_base [] w _ a (sem_base a) (sem_otime a) (sem_ctime a) I L eq_refl V) as C. by destruct a.
    + assert (e = 1) as -> by (destruct (fails_code _ _ _ _ _ Fl) as [? | [? | ?]]; unfold EAGAIN, ERANGE in *; lia).
      set (q := mk_queue t un (r_tgid r) (r_sops r)). rewrite set_undos_id.
      assert (waits q) as Wq by (by eapply fails_waits).
      assert (forall qs, qs ≡ₚ q :: sem_pending a -> good 0 w (goto t (Asleep r) (set_status (<[t := - EINTR]> (status_of w)) (store (r_semid r) (set_pending qs a) w)))) as G.
      { intros qs Hqs. eexists _, _. split; [done |]. split; [| cbn; lia]. exact (inv_enqueue w t r un (r_semid r) a qs I Ht L S Hqs F Hu Wq). }
      destruct (r_alter r); apply G; [by rewrite Permutation_app_comm | done].
Qed.

Lemma remove_changed w semid a t : inv [] w -> live (sem_ids w) (place semid) a -> t ∈ q_sleeper <$> sem_pending a ->
  changed [] a (remove_from_queue a t) [(t, - EAGAIN)].
Proof.
  intros I L Hin. destruct (inv_arr _ _ I _ a L) as (V & _ & N & _ & _ & F). destruct (inv_ids _ _ I) as (_ & _ & _ & _ & _ & _ & _ & Hp).
  constructor; try done.
  - by apply (Hp (place semid) a).
  - cbn. apply sublist_filter.
  - intros q u [_ Hq]%list_elem_of_filter Hu. apply (proj1 (Forall_forall _ _) F) in Hq as (_ & H & _). by apply H.
  - intros q Hq. destruct (decide (q_sleeper q = t)) as [-> | Hne]; [right; by left | left]. by apply list_elem_of_filter.
  - intros t' e [= -> ->]%list_elem_of_singleton. split; [done |]. split; [| done]. intros (q & -> & [? _]%list_elem_of_filter)%list_elem_of_fmap. done.
Qed.

Lemma semop_wake_good w t r expired : inv [] w -> pcs w !! t = Some (Asleep r) -> good 0 w (semop_wake t r expired w).
Proof.
  intros I Ht. pose proof (inv_pc _ _ I _ _ Ht) as (st & Hst & Hs). unfold semop_wake. rewrite Hst. cbn [mbind option_bind].
  destruct (Z.eqb_spec st (- EINTR)) as [-> | Hne]; cbn [negb].
  - destruct (Hs eq_refl) as (lid & a & L & Es & Hin). destruct (sid_lock _ _ _ (inv_ids _ _ I) L) as [El _]. rewrite Es in El.
    change (sem_lock (set_status (delete t (status_of w)) w) (r_semid r)) with (sem_lock w (r_semid r)). rewrite El. cbn [mbind option_bind].
    assert (existsb (fun q => q_sleeper q =? t) (sem_pending a) = true) as ->.
    { apply list_elem_of_fmap in Hin as (q & -> & Hq). apply existsb_exists. exists q. split; [by apply list_elem_of_In | apply Z.eqb_refl]. }
    pose proof (proj1 (sid_place _ _ _ (inv_ids _ _ I) L)) as Pl. rewrite Es in Pl. rewrite <- Pl in L.
    pose proof (inv_update [] w (r_semid r) a _ (undos w) [(t, - EAGAIN)] I L (remove_changed w _ a t I L Hin) (same_undos_refl _)) as I1.
    set (w1 := wake _ _) in I1. assert (inv [] (leave t w1)) as I2.
    { apply inv_leave; [done |]. destruct I1 as [Ids1 _ Arr1 _ _ _ _ _ _ Pc1 _ _]. intros i b q Lb Hq E.
      destruct (Arr1 i b Lb) as (_ & _ & _ & _ & _ & F). apply (proj1 (Forall_forall _ _) F) in Hq as (_ & _ & _ & H4 & _).
      rewrite E in H4. cbn in H4. rewrite lookup_insert_eq in H4. done. }
    pose proof (inv_status [] (leave t w1) t (delete t (status_of w)) I2) as I3. cbn in I3. rewrite lookup_delete_eq in I3.
    specialize (I3 ltac:(done) ltac:(intros t' Hne; rewrite lookup_delete_ne, lookup_insert_ne by done; done)).
    eexists _, _. split; [done |]. split; [| cbn; lia]. exact I3.
  - eexists _, _. split; [done |]. split; [| cbn; lia].
    assert (inv [] (leave t w)) as I2.
    { apply inv_leave; [done |]. intros i b q Lb Hq E. destruct (inv_arr _ _ I i b Lb) as (_ & _ & _ & _ & _ & F).
      apply (proj1 (Forall_forall _ _) F) in Hq as (_ & _ & _ & H4 & _). rewrite E in H4. congruence. }
    apply (inv_status [] (leave t w) t (delete t (status_of w)) I2).
    + cbn. by rewrite lookup_delete_eq.
    + intros t' Hne'. cbn. by rewrite lookup_delete_ne.
Qed.

(** *** semget *)

Lemma total_app_none es n : total (es ++ replicate n None) = total es.
Proof.
  induction es as [| o es IH]; cbn [total foldr app] in *; [| unfold total in IH; rewrite IH; done].
  induction n as [| n IH]; [done |]. cbn. unfold total in IH. cbn in IH. lia.
Qed.

Lemma addid_total ids sma size alloc cur r ids' : ipc_addid ids sma size alloc cur = Some (r, ids') -> ids_ok ids -> 0 <= size ->
  total (entries ids') = total (entries ids) + (if r =? -1 then 0 else Z.of_nat (length (sem_base sma))).
Proof.
  intros E Ok Hs. destruct (addid_entries ids sma size alloc cur r ids' Ok Hs E) as (n & D). destruct D as [(-> & ->) | (lid & -> & Hf & ->)].
  - rewrite total_app_none. cbn. lia.
  - rewrite (total_insert _ _ _ _ Hf), total_app_none, (proj2 (Z.eqb_neq (Z.of_nat lid) (-1))) by lia. cbn. lia.
Qed.

(** A set at a free place, with a new address and the next sequence number. *)
Lemma inv_add_set w lid a ids' n : inv [] w -> ids_ok ids' -> ids_seq ids' = ids_seq (sem_ids w) + 1 ->
  (forall b, ~ live (sem_ids w) lid b) -> (forall i b, live ids' i b <-> (i = lid /\ b = a) \/ (i <> lid /\ live (sem_ids w) i b)) ->
  p_seq (sem_perm a) = ids_seq (sem_ids w) -> vals_ok (sem_base a) -> sma_ptr a = next_addr w -> sem_pending a = [] -> sma_undo a = [] ->
  n = total (entries ids') -> inv [] (set_used n (set_next (next_addr w + 1) (set_ids ids' w))).
Proof.
  intros I Ids' Sq Fr Lv Es Va Ea Ep Eu En. pose proof I as [Ids Seq Arr Ptr Addr Und Lst Own Tsk Pc Ext Use].
  assert (live ids' lid a) as La by (apply Lv; by left).
  assert (forall i b, live (sem_ids w) i b -> live ids' i b) as Fwd by (intros i b Lb; apply Lv; right; split; [by intros ->; apply (Fr b) | done]).
  assert (forall i b, live ids' i b -> sma_ptr b < next_addr w -> live (sem_ids w) i b) as Bwd by (intros i b [[-> ->] | [_ Lb]]%Lv Hlt; [lia | done]).
  constructor; try done.
  - intros i b [[-> ->] | [_ Lb]]%Lv; cbn; [lia |]. specialize (Seq i b Lb). lia.
  - intros i b [[-> ->] | [_ Lb]]%Lv.
    + split; [done |]. split; [cbn; lia |]. rewrite Ep, Eu. split; [constructor |]. split; [set_solver |]. split; [constructor | done].
    + destruct (Arr i b Lb) as (V & P & ?). split; [done |]. split; [cbn; lia | done].
  - intros i b i' b' [[-> ->] | [_ Lb]]%Lv [[-> ->] | [_ Lb']]%Lv E; try done; [destruct (Arr _ _ Lb') as (_ & ? & _); lia | destruct (Arr _ _ Lb) as (_ & ? & _); lia |].
    by apply (Ptr i b i' b').
  - intros u v Hv. destruct (Addr u v Hv). split; [cbn; lia | done].
  - intros u v Hv Hn Hg. destruct (Und u v Hv Hn Hg) as (i & b & Lb & ?). exists i, b. split; [by apply Fwd | done].
  - intros ul l Hl. destruct (Lst ul l Hl) as (? & ?). split; [cbn; lia | done].
  - intros t p Hp. specialize (Pc t p Hp). destruct p as [r ptr m | r un | r | sm ptr m | ul g]; cbn in *; try done.
    + destruct Pc as (? & ? & ? & H). split; [done |]. split; [lia |]. split; [done |]. intros i b Lb Eb. apply (H i b); [apply Bwd; [done | lia] | done].
    + destruct Pc as (? & ? & H). split; [done |]. split; [done |]. intros u Hu. destruct (H u Hu) as (? & D). split; [lia |].
      destruct D as [D | ((Hd & Hs) & Hv)]; [by left | right]. split; [| done]. split; [cbn; lia |]. cbn.
      intros i b [[-> ->] | [_ Lb]]%Lv; [| by apply (Hs i b)]. intros E. destruct (sid_place _ _ _ Ids' La) as (_ & _ & Eq). rewrite E in Eq. lia.
    + destruct Pc as (st & ? & H). exists st. split; [done |]. intros E. destruct (H E) as (i & b & Lb & ?). exists i, b. split; [by apply Fwd | done].
    + destruct Pc as (? & H). split; [lia |]. intros i b Lb Eb. apply (H i b); [apply Bwd; [done | lia] | done].
Qed.

(** The table may have grown. *)
Lemma inv_same_live w ids' : inv [] w -> ids_ok ids' -> ids_seq ids' = ids_seq (sem_ids w) -> (forall i b, live ids' i b <-> live (sem_ids w) i b) ->
  total (entries ids') = total (entries (sem_ids w)) -> inv [] (set_ids ids' w).
Proof.
  intros [Ids Seq Arr Ptr Addr Und Lst Own Tsk Pc Ext Use] Ids' Sq Lv En. constructor; try done; cbn.
  - intros i b Lb%Lv. rewrite Sq. by apply (Seq i b).
  - intros i b Lb%Lv. by apply (Arr i b).
  - intros i b i' b' Lb%Lv Lb'%Lv. by apply (Ptr i b i' b').
  - intros u v Hv Hn Hg. destruct (Und u v Hv Hn Hg) as (i & b & Lb & ?). exists i, b. split; [by apply Lv | done].
  - intros t p Hp. specialize (Pc t p Hp). destruct p as [r ptr m | r un | r | sm ptr m | ul g]; cbn in *; try done.
    + destruct Pc as (? & ? & ? & H). split; [done |]. split; [done |]. split; [done |]. intros i b Lb%Lv. by apply (H i b).
    + destruct Pc as (? & ? & H). split; [done |]. split; [done |]. intros u Hu. destruct (H u Hu) as (? & D). split; [done |].
      destruct D as [D | ((Hd & Hs) & Hv)]; [by left | right]. split; [| done]. split; [cbn; lia |]. intros i b Lb%Lv. by apply (Hs i b).
    + destruct Pc as (st & ? & H). exists st. split; [done |]. intros E. destruct (H E) as (i & b & Lb & ?). exists i, b. split; [by apply Lv | done].
    + destruct Pc as (? & H). split; [done |]. intros i b Lb%Lv. by apply (H i b).
  - by rewrite En.
Qed.

Lemma good_more w r : good 0 w r -> good 1 w r.
Proof. intros (o & w' & E & I & H). exists o, w'. split; [done |]. split; [done |]. lia. Qed.

Lemma newary_good w cur key nsems semflg now b1 b2 : inv [] w -> ids_seq (sem_ids w) < 65535 -> 0 <= nsems ->
  good 1 w (newary cur key nsems semflg now b1 b2 w).
Proof.
  intros I Hs Hn. unfold newary. destruct (nsems =? 0); [by apply good_more, good_ret |]. destruct (SEMMNS <? _); [by apply good_more, good_ret |].
  destruct b1; [| by apply good_more, good_ret]. cbn [negb]. set (sma := mk_sma _ _ _ _ _ _ _).
  destruct (ipc_addid_spec (sem_ids w) sma SEMMNI b2 cur (inv_ids _ _ I) ltac:(done)) as (r & ids' & E & Ok' & D).
  pose proof (addid_total _ _ _ _ _ _ _ E (inv_ids _ _ I) ltac:(done)) as Et. rewrite E. cbn [mbind option_bind]. rewrite <- (inv_used _ _ I) in Et.
  destruct (inv_ids _ _ I) as (_ & _ & _ & _ & _ & Hseq & _).
  destruct D as [(-> & Sq & _ & Lv) | (lid & -> & _ & Fr & Sq & _ & Lv)].
  - cbn [Z.eqb]. cbn in Et. eexists _, _. split; [done |]. split; [| cbn; lia]. apply (inv_next [] (set_ids ids' w)); [| cbn; lia].
    apply inv_same_live; try done. rewrite Et, (inv_used _ _ I). lia.
  - rewrite (proj2 (Z.eqb_neq (Z.of_nat lid) (-1))) in * by lia. rewrite Z.mod_small in Sq by lia. eexists _, _. split; [done |].
    split; [| cbn; lia]. eapply inv_add_set; [done | done | done | exact Fr | exact Lv | done | | done | done | done |].
    + by apply Forall_replicate.
    + cbn. rewrite Et. cbn. rewrite length_replicate. lia.
Qed.

Lemma sys_semget_good w cur key nsems semflg now b1 b2 : inv [] w -> ids_seq (sem_ids w) < 65535 ->
  good 1 w (sys_semget cur key nsems semflg now b1 b2 w).
Proof.
  intros I Hs. unfold sys_semget. destruct ((nsems <? 0) || (SEMMSL <? nsems)) eqn:B; [by apply good_more, good_ret |].
  destruct (key =? IPC_PRIVATE); [apply newary_good; [done | done | lia] |].
  destruct (ipc_findkey_spec (sem_ids w) key (inv_ids _ _ I)) as (r & -> & D). cbn [mbind option_bind].
  destruct (Z.eqb_spec r (-1)) as [E | E]; [case_match; [by apply good_more, good_ret | apply newary_good; [done | done | lia]] |].
  destruct (has IPC_CREAT semflg && has IPC_EXCL semflg); [by apply good_more, good_ret |].
  destruct D as [[? _] | (i & a & -> & L & _)]; [done |]. destruct (live_range _ _ _ (inv_ids _ _ I) L) as [Hi _].
  unfold sem_lock. rewrite (proj2 (ipc_lock_live _ _ a (inv_ids _ _ I))) by (by rewrite place_small by lia).
  cbn [mbind option_bind]. repeat case_match; by apply good_more, good_ret.
Qed.

(** *** fork and exit *)

(** Which task shares which list changes, the lists do not. *)
Lemma inv_lists w m ls : inv [] w -> let w' := set_list_of m (set_ulists ls w) in
  (forall t p, pcs w !! t = Some p -> m !! t = undo_list_of w !! t) -> (forall ul, proc_list <$> ls !! ul = proc_list <$> ulists w !! ul) ->
  (forall ul l, ls !! ul = Some l -> refcnt l = users w' ul) -> (forall t ul, m !! t = Some ul -> is_Some (ulists w !! ul)) ->
  (forall t ul g t', pcs w !! t = Some (Exiting ul g) -> m !! t' <> Some ul) -> inv [] w'.
Proof.
  intros [Ids Seq Arr Ptr Addr Und Lst Own Tsk Pc Ext Use] w' Hm Hl Hr Ht He.
  assert (forall ul l, ls !! ul = Some l -> exists k, ulists w !! ul = Some k /\ proc_list k = proc_list l) as Bwd.
  { intros ul l E. specialize (Hl ul). rewrite E in Hl. destruct (ulists w !! ul) as [k |]; [| done]. injection Hl as ->. by exists k. }
  assert (forall ul, is_Some (ulists w !! ul) -> is_Some (ls !! ul)) as Fwd.
  { intros ul [k E]. specialize (Hl ul). rewrite E in Hl. destruct (ls !! ul); [by eexists | done]. }
  assert (forall t u, is_Some (pcs w !! t) -> owner w t u -> owner w' t u) as Ow.
  { intros t u [p Hp] (ul & k & Hk & Ek & Hu). exists ul. cbn. rewrite (Hm t p Hp). specialize (Hl ul). rewrite Ek in Hl. destruct (ls !! ul) as [l |]; [| done].
    injection Hl as Hl. exists l. rewrite Hl. done. }
  constructor; try done.
  - intros i b Lb. destruct (Arr i b Lb) as (V & P & N & U & S & F). split; [done |]. split; [done |]. split; [done |]. split; [done |]. split; [done |].
    eapply Forall_impl; [exact F |]. intros q (H1 & H2 & (r & Hq & Er) & H4). split; [done |]. split; [| by eauto].
    intros u Hu. destruct (H2 u Hu) as [? Ho]. split; [done |]. apply Ow; [by eexists | done].
  - intros ul l E. cbn in E. destruct (Bwd ul l E) as (k & Ek & <-). destruct (Lst ul k Ek) as (? & ? & ? & _). split; [done |]. split; [done |]. split; [done | by apply Hr].
  - cbn. intros u1 l1 u2 l2 u E1 E2 H1 H2. destruct (Bwd _ _ E1) as (k1 & K1 & P1), (Bwd _ _ E2) as (k2 & K2 & P2). rewrite <- P1 in H1. rewrite <- P2 in H2. by eapply (Own u1 k1 u2 k2 u).
  - cbn. intros t ul E. apply Fwd. by apply (Ht t).
  - intros t p Hp. specialize (Pc t p Hp). destruct p as [r ptr n | r un | r | sm ptr n | ul g]; cbn in *; try done.
    + by rewrite (Hm t _ Hp).
    + destruct Pc as (? & ? & H). split; [done |]. split; [done |]. intros u Hu. destruct (H u Hu) as (? & D). split; [done |].
      destruct D as [(v & ? & ? & Ho) | D]; [left; exists v; split; [done |]; split; [done |]; apply Ow; [by eexists | done] | by right].
    + destruct Pc as [Hs _]. split; [by apply Fwd |]. intros t'. by eapply He.
Qed.

Lemma copy_semundo_good w t child share alloc : inv [] w -> pcs w !! child = None -> undo_list_of w !! child = None -> t <> child ->
  good 0 w (copy_semundo t child share alloc w).
Proof.
  intros I Hp Hc Hne. unfold copy_semundo. destruct share; [| by apply good_ret].
  destruct (get_undo_list t alloc w) as [[ul w1] |] eqn:E; [| by apply good_ret].
  destruct (get_undo_list_ok w t alloc ul w1 I E) as (I1 & Ht & Ei & Ep & Eo). destruct (inv_task _ _ I1 t ul Ht) as [l Hl]. rewrite Hl. cbn [mbind option_bind].
  eexists _, _. split; [done |]. split; [| cbn; rewrite Ei; lia].
  assert (undo_list_of w1 !! child = None) as Hc1 by (by rewrite Eo). rewrite <- Ep in Hp.
  apply (inv_lists w1); [done | | | | |].
  - intros t' p Hp'. rewrite lookup_insert_ne; [done |]. intros ->. congruence.
  - intros x. destruct (decide (ul = x)) as [<- |]; [by rewrite lookup_insert_eq, Hl | by rewrite lookup_insert_ne by done].
  - intros x k Hk. pose proof (users_insert w1 child ul x Hc1) as Us. change (users (set_list_of ?m (set_ulists _ w1)) x) with (users (set_list_of m w1) x). rewrite Us.
    apply lookup_insert_Some in Hk as [[<- <-] | [Hn Hk]]; [rewrite decide_True by done; cbn; destruct (inv_list _ _ I1 _ _ Hl) as (_ & _ & _ & ->); lia |].
    rewrite decide_False by done. destruct (inv_list _ _ I1 _ _ Hk) as (_ & _ & _ & ->). lia.
  - intros t' x [[_ <-] | [_ Hx]]%lookup_insert_Some; [by eexists | by apply (inv_task _ _ I1 t')].
  - intros t' x g t2 Hx. destruct (inv_pc _ _ I1 _ _ Hx) as [_ Hnone]. intros [[_ <-] | [_ ?]]%lookup_insert_Some; [by apply (Hnone t) | by apply (Hnone t2)].
Qed.

Lemma users_zero_inv w ul t : users w ul = 0 -> undo_list_of w !! t <> Some ul.
Proof.
  unfold users. intros E H. assert (size (filter (fun kv : Z * Z => kv.2 = ul) (undo_list_of w)) = 0%nat) as Z0%map_size_empty_inv by lia.
  pose proof (map_lookup_filter_Some_2 (fun kv : Z * Z => kv.2 = ul) (undo_list_of w) t ul H eq_refl) as Hf. rewrite Z0 in Hf. by rewrite lookup_empty in Hf.
Qed.

Lemma exit_sem_good w t tgid : inv [] w -> pcs w !! t = None -> good 0 w (exit_sem t tgid w).
Proof.
  intros I Hp. unfold exit_sem. destruct (undo_list_of w !! t) as [ul |] eqn:Ht; [| by apply good_ret].
  destruct (inv_task _ _ I t ul Ht) as [l Hl]. rewrite Hl. cbn [mbind option_bind]. cbn [ulists set_list_of].
  set (m := delete t (undo_list_of w)). set (ls := <[ul := mk_ulist (refcnt l - 1) (proc_list l)]> (ulists w)).
  assert (forall x, users (set_list_of m w) x = users w x - (if decide (ul = x) then 1 else 0)) as Us by (intros x; by apply users_delete).
  assert (inv [] (set_list_of m (set_ulists ls w))) as I1.
  { apply inv_lists; [done | | | | |].
    - intros t' p Hp'. unfold m. rewrite lookup_delete_ne; [done |]. intros ->. congruence.
    - intros x. unfold ls. destruct (decide (ul = x)) as [<- |]; [by rewrite lookup_insert_eq, Hl | by rewrite lookup_insert_ne by done].
    - intros x k Hk. change (users (set_list_of m (set_ulists ls w)) x) with (users (set_list_of m w) x). rewrite Us.
      apply lookup_insert_Some in Hk as [[<- <-] | [Hn Hk]]; [rewrite decide_True by done; cbn; destruct (inv_list _ _ I _ _ Hl) as (_ & _ & _ & ->); lia |].
      rewrite decide_False by done. destruct (inv_list _ _ I _ _ Hk) as (_ & _ & _ & ->). lia.
    - intros t' x [_ Hx]%lookup_delete_Some. by apply (inv_task _ _ I t').
    - intros t' x g t2 Hx [_ ?]%lookup_delete_Some. destruct (inv_pc _ _ I _ _ Hx) as [_ Hnone]. by apply (Hnone t2). }
  change (set_ulists ls (set_list_of m w)) with (set_list_of m (set_ulists ls w)). eapply (good_trans w (set_list_of m (set_ulists ls w))); [done |].
  destruct (Z.eqb_spec (refcnt l - 1) 0) as [E | E]; [| by apply good_ret].
  eexists _, _. split; [done |]. split; [| cbn; lia]. rewrite goto_put. apply inv_put_pc; [done | | |].
  - eapply not_asleep_not_queued; [done |]. cbn. by rewrite Hp.
  - intros p [= <-]. split; [cbn; unfold ls; rewrite lookup_insert_eq; by eexists |]. intros t'. apply users_zero_inv.
    change (users (set_list_of m w) ul = 0). rewrite Us, decide_True by done. destruct (inv_list _ _ I _ _ Hl) as (_ & _ & _ & <-). lia.
  - intros ul' g t' g' [= <- <-] Hx. cbn in Hx. destruct (inv_pc _ _ I _ _ Hx) as [_ Hnone]. by destruct (Hnone t).
Qed.

Lemma inv_drop_list w ul : inv [] w -> (forall t, undo_list_of w !! t <> Some ul) -> (forall t g, pcs w !! t <> Some (Exiting ul g)) ->
  inv [] (set_ulists (delete ul (ulists w)) w).
Proof.
  intros [Ids Seq Arr Ptr Addr Und Lst Own Tsk Pc Ext Use] Hn He.
  assert (forall t u, owner w t u -> owner (set_ulists (delete ul (ulists w)) w) t u) as Ow.
  { intros t u (x & l & Hx & Hl & Hu). exists x, l. cbn. rewrite lookup_delete_ne by (intros ->; by apply (Hn t)). done. }
  constructor; try done; cbn.
  - intros i b Lb. destruct (Arr i b Lb) as (V & P & N & U & S & F). split; [done |]. split; [done |]. split; [done |]. split; [done |]. split; [done |].
    eapply Forall_impl; [exact F |]. intros q (H1 & H2 & H3). split; [done |]. split; [| done]. intros u Hu. destruct (H2 u Hu). split; [done | by apply Ow].
  - intros x l [_ Hl]%lookup_delete_Some. by apply Lst.
  - intros x1 l1 x2 l2 u [_ H1]%lookup_delete_Some [_ H2]%lookup_delete_Some. by apply Own.
  - intros t x Hx. rewrite lookup_delete_ne by (intros ->; by apply (Hn t)). by apply (Tsk t).
  - intros t p Hp. specialize (Pc t p Hp). destruct p as [r ptr n | r un | r | sm ptr n | x g]; cbn in *; try done.
    + destruct Pc as (? & ? & H). split; [done |]. split; [done |]. intros u Hu. destruct (H u Hu) as (? & D). split; [done |].
      destruct D as [(v & ? & ? & Ho) | D]; [left; exists v; split; [done |]; split; [done | by apply Ow] | by right].
    + rewrite lookup_delete_ne; [done |]. intros ->. by apply (He t g).
Qed.

Lemma inv_weaken G w : inv [] w -> inv G w.
Proof. intros [Ids Seq Arr Ptr Addr Und Lst Own Tsk Pc Ext Use]. constructor; try done. intros u v Hv Hn _. apply (Und u v Hv Hn). set_solver. Qed.

Lemma adjust_ok tgid s x : 0 <= semval s <= SEMVMX -> 0 <= semval (adjust tgid s x) <= SEMVMX.
Proof. intros H. unfold adjust, SEMVMX in *. destruct (x =? 0); [done |]. cbn. destruct (Z.ltb_spec (semval s + x) 0), (Z.ltb_spec 32767 (semval s + x)); cbn; lia. Qed.

(** The structure [u] of a list that no task has any more: its set without it. *)
Lemma unlink_changed w ul l u un lid a tgid now : inv [] w -> ulists w !! ul = Some l -> u ∈ proc_list l -> (forall t, undo_list_of w !! t <> Some ul) ->
  undos w !! u = Some un -> live (sem_ids w) lid a -> length (semadj un) = length (sem_base a) ->
  let b := set_otime now (set_base (zip_with (adjust tgid) (sem_base a) (semadj un)) (set_undo (filter (fun p => p <> u) (sma_undo a)) a)) in
  changed [u] a b [].
Proof.
  intros I Hl Hu Hnone Hun L Hlen b. destruct (inv_arr _ _ I _ _ L) as (V & _ & N & _ & _ & F). destruct (inv_ids _ _ I) as (_ & _ & _ & _ & _ & _ & _ & Hp).
  constructor; cbn; try done.
  - by apply (Hp lid a).
  - rewrite length_zip_with. lia.
  - apply Forall_lookup. intros i c. rewrite lookup_zip_with. intros (s & Hs & Hc)%bind_Some. apply fmap_Some in Hc as (x & _ & ->).
    apply adjust_ok. by eapply Forall_lookup in V.
  - by apply NoDup_filter.
  - intros p [_ ?]%list_elem_of_filter. done.
  - intros p Hp' Hne. apply list_elem_of_filter. split; [set_solver | done].
  - intros q p Hq Ep. apply (proj1 (Forall_forall _ _) F) in Hq as (_ & H & _). destruct (H p Ep) as [Hin (x & k & Hx & Hk & Hpk)].
    apply list_elem_of_filter. split; [| done]. intros ->. assert (x = ul) as -> by (by eapply (inv_own _ _ I x k ul l u)). by apply (Hnone (q_sleeper q)).
  - by left.
  - set_solver.
Qed.

Lemma exit_round_good w t ul tgid now : inv [] w -> pcs w !! t = Some (Exiting ul tgid) -> good 0 w (exit_round t ul tgid now w).
Proof.
  intros I Ht. pose proof (inv_pc _ _ I _ _ Ht) as [[l Hl] Hnone]. unfold exit_round. rewrite Hl. cbn [mbind option_bind].
  destruct (inv_list _ _ I _ _ Hl) as (_ & Nd & Hs & _). destruct (proc_list l) as [| u pl] eqn:El.
  { eexists _, _. split; [done |]. split; [| cbn; lia]. apply (inv_drop_list (leave t w)).
    - apply inv_leave; [done |]. eapply not_asleep_not_queued; [done | by rewrite Ht].
    - done.
    - intros t' g. cbn. intros [Hne Hx]%lookup_delete_Some. by apply Hne, (inv_exit _ _ I t t' ul tgid g). }
  destruct (Hs u ltac:(by left)) as [un Hun]. rewrite Hun. cbn [mbind option_bind]. apply NoDup_cons in Nd as [Nu Nd].
  assert (u ∈ proc_list l) as Hu by (rewrite El; by left).
  assert (forall w', inv [u] w' -> ulists w' = ulists w -> undo_list_of w' = undo_list_of w -> ids_seq (sem_ids w') = ids_seq (sem_ids w) -> is_Some (undos w' !! u) ->
    (forall i b, live (sem_ids w') i b -> u ∉ sma_undo b) ->
    good 0 w (Some (None, set_undos (delete u (undos w')) (set_ulists (<[ul := mk_ulist (refcnt l) pl]> (ulists w')) w')))) as G.
  { intros w' I' E1 E2 E3 [un' Hun'] Hoff. eexists _, _. split; [done |]. split; [| cbn; lia].
    apply (inv_free [u] [] w' ul l u un' pl); [done | by rewrite E1 | done | done | done | | | done | done |].
    - intros t' (x & k & Hx & Hk & Hin). rewrite E1 in Hk. rewrite E2 in Hx. assert (x = ul) as -> by (by eapply (inv_own _ _ I x k ul l u)). by destruct (Hnone t').
    - intros p Hne. rewrite El, elem_of_cons. naive_solver.
    - set_solver. }
  destruct (Z.eqb_spec (un_semid un) (-1)) as [E | E].
  { apply (G w); [by apply inv_weaken | done | done | done | by eexists | by eapply dead_not_on_set]. }
  destruct (inv_undo _ _ I u un Hun E ltac:(set_solver)) as (lid & a & L & Es & Hin). destruct (sid_lock _ _ _ (inv_ids _ _ I) L) as [Elk Eck].
  rewrite Es in Elk, Eck. rewrite Elk, Eck, bool_decide_true by done. cbn [negb].
  destruct (inv_arr _ _ I _ _ L) as (_ & _ & _ & U & _). destruct (U u Hin) as (un' & Hun' & _ & Elen). assert (un' = un) as -> by congruence. clear Hun'.
  rewrite (proj2 (Nat.ltb_ge _ _)) by lia. pose proof (proj1 (sid_place _ _ _ (inv_ids _ _ I) L)) as Pl. rewrite Es in Pl.
  pose proof (unlink_changed w ul l u un lid a tgid now I Hl Hu Hnone Hun L Elen) as C. cbv zeta in C. cbv zeta. set (b := set_otime _ _) in C |- *.
  destruct (update_and_store_ok [u] w now (un_semid un) a b (undos w) (inv_weaken _ _ I)) as (w' & -> & I' & _ & Sq & E1 & E2 & Su & Lv);
    [by rewrite Pl | done | done | apply same_undos_refl |]. cbn [mbind option_bind].
  apply (G w'); [done | done | done | done | | ].
  - destruct (same_undos_fwd _ _ _ _ Su Hun) as (v & ? & _). by exists v.
  - intros i c [[-> ->] | [Hne Lc]]%Lv; [by intros [? _]%list_elem_of_filter |]. intros Hc. destruct (inv_arr _ _ I i c Lc) as (_ & _ & _ & Uc & _).
    destruct (Uc u Hc) as (v & Hv & Ev & _). assert (v = un) as -> by congruence. rewrite <- Es in Ev. apply Hne.
    rewrite Pl. symmetry. by apply (sid_inj _ lid a i c (inv_ids _ _ I) L Lc).
Qed.

(** *** Every run *)

Definition is_semget (x : action) : bool := match x with A_semget _ _ _ _ _ _ _ => true | _ => false end.

Lemma exec_good x w : inv [] w -> (is_semget x = true -> ids_seq (sem_ids w) < 65535) -> good (if is_semget x then 1 else 0) w (exec x w).
Proof.
  intros I Hs. assert (good 0 w (Some (None, w))) as Idle by (eexists _, w; split; [done |]; split; [done | lia]).
  destruct x; cbn [exec is_semget].
  - apply sys_semget_good; [done | by apply Hs].
  - destruct (pcs w !! t) eqn:Ht; [done | by apply semtimedop_good].
  - destruct (pcs w !! t) as [[] |] eqn:Ht; try done. by apply find_undo_alloc_good.
  - destruct (pcs w !! t) as [[] |] eqn:Ht; try done. by apply semop_locked_good.
  - destruct (pcs w !! t) as [[] |] eqn:Ht; try done. by apply semop_wake_good.
  - unfold semctl_guard. destruct (Z.ltb_spec semid 0); [by apply good_ret | by apply semctl_query_good].
  - unfold semctl_guard. destruct (Z.ltb_spec semid 0); [by apply good_ret | by apply semctl_setval_good].
  - destruct (pcs w !! t) eqn:Ht; [done |]. unfold semctl_guard. destruct (Z.ltb_spec semid 0); [by apply good_ret | by apply semctl_setall_good].
  - destruct (pcs w !! t) as [[] |] eqn:Ht; try done. by apply setall_copied_good.
  - unfold semctl_guard. destruct (Z.ltb_spec semid 0); [by apply good_ret | by apply semctl_down_good].
  - destruct (pcs w !! t) eqn:Ht, (pcs w !! child) eqn:Hc, (undo_list_of w !! child) eqn:Hu; try done.
    destruct (Z.eqb_spec t child); [done | by apply copy_semundo_good].
  - destruct (pcs w !! t) eqn:Ht; [done | by apply exit_sem_good].
  - destruct (pcs w !! t) as [[] |] eqn:Ht; try done. by apply exit_round_good.
Qed.

Lemma sem_init_inv alloc : inv [] (sem_init alloc).
Proof.
  assert (forall i b, ~ live (sem_ids (sem_init alloc)) i b) as Nl by (intros i b [? _]%lookup_replicate; done).
  constructor; try done; cbn.
  - by apply init_ok.
  - intros i b L. by apply Nl in L. - intros i b L. by apply Nl in L. - intros i b i' b' L. by apply Nl in L.
  - pose proof (total_app_none [] (Z.to_nat (if alloc then 128 else 0))) as T. destruct alloc; exact (eq_sym T).
Qed.

Lemma run_sem_inv xs w : inv [] w -> ids_seq (sem_ids w) + Z.of_nat (length (filter (fun x => is_semget x = true) xs)) <= 65535 ->
  exists w', run_sem xs w = Some w' /\ inv [] w'.
Proof.
  revert w. induction xs as [| x xs IH]; intros w I Hs; cbn [run_sem]; [by exists w |]. rewrite filter_cons in Hs.
  destruct (exec_good x w I) as (o & w1 & -> & I1 & Hs1).
  - intros E. rewrite decide_True in Hs by done. cbn [length] in Hs. lia.
  - cbn [mbind option_bind]. apply IH; [done |]. destruct (is_semget x); case_decide; cbn [length] in Hs; (done || lia).
Qed.

Lemma count_sops_nonneg p a : 0 <= count_sops p a.
Proof. unfold count_sops. induction (sem_pending a) as [| q qs IH]; cbn [foldr]; lia. Qed.

Lemma count_sops_pos p a q s : q ∈ sem_pending a -> s ∈ q_sops q -> p s = true -> 0 < count_sops p a.
Proof.
  intros (l1 & l2 & E)%list_elem_of_split Hs Hp. assert (s ∈ filter (fun s => p s = true) (q_sops q)) as Hf by (by apply list_elem_of_filter).
  pose proof (count_sops_nonneg p (set_pending l2 a)) as R. unfold count_sops in *. cbn [sem_pending set_pending] in R. rewrite E. clear E.
  induction l1 as [| q' l1 IH]; cbn [app foldr]; [| lia].
  destruct (filter (fun s => p s = true) (q_sops q)); [by apply not_elem_of_nil in Hf | cbn [length]; lia].
Qed.

Lemma waits_count w lid a q : pending_ok w lid a q -> q ∈ sem_pending a ->
  exists n, (n < length (sem_base a))%nat /\ 0 < count_semncnt a n + count_semzcnt a n.
Proof.
  intros (F & _ & _ & _ & s & Hs & Hop & Hnw) Hq. apply (proj1 (Forall_forall _ _) F) in Hs as Hn. exists (sem_num s). split; [by apply Hn |].
  pose proof (fun p => count_sops_nonneg p a) as Pos.
  unfold count_semncnt, count_semzcnt. set (p1 := fun s' => _ && (sem_op s' <? 0) && _). set (p0 := fun s' => _ && (sem_op s' =? 0) && _).
  destruct (decide (sem_op s = 0)) as [E | E].
  - enough (0 < count_sops p0 a) by (specialize (Pos p1); lia). eapply count_sops_pos; [done | done |].
    unfold p0. by rewrite Nat.eqb_refl, E, Hnw.
  - enough (0 < count_sops p1 a) by (specialize (Pos p0); lia). eapply count_sops_pos; [done | done |].
    unfold p1. rewrite Nat.eqb_refl, Hnw, (proj2 (Z.ltb_lt _ _)) by lia. done.
Qed.

(** What holds between two sections, whatever the tasks do. *)
Definition sem_safe (w : world) : Prop :=
  (forall lid a, live (sem_ids w) lid a -> vals_ok (sem_base a) /\
     forall u, u ∈ sma_undo a -> exists un, undos w !! u = Some un /\ un_semid un = sid lid a /\ length (semadj un) = length (sem_base a)) /\
  (forall ul l u, ulists w !! ul = Some l -> u ∈ proc_list l -> exists un, undos w !! u = Some un /\
     (un_semid un = -1 \/ exists lid a, live (sem_ids w) lid a /\ sid lid a = un_semid un /\ u ∈ sma_undo a)) /\
  (forall ul l, ulists w !! ul = Some l -> refcnt l = users w ul) /\
  (forall t r, pcs w !! t = Some (Asleep r) -> status_of w !! t = Some (- EINTR) ->
     exists lid a q, live (sem_ids w) lid a /\ sid lid a = r_semid r /\ q ∈ sem_pending a /\ q_sleeper q = t /\
       exists n, (n < length (sem_base a))%nat /\ 0 < count_semncnt a n + count_semzcnt a n) /\
  used_sems w = total (entries (sem_ids w)).

Lemma inv_safe w : inv [] w -> sem_safe w.
Proof.
  intros I. split; [| split; [| split; [| split]]].
  - intros lid a L. destruct (inv_arr _ _ I lid a L) as (V & _ & _ & U & _). done.
  - intros ul l u Hl Hu. destruct (inv_list _ _ I ul l Hl) as (_ & _ & Hs & _). destruct (Hs u Hu) as [un Hun]. exists un. split; [done |].
    destruct (decide (un_semid un = -1)) as [E | E]; [by left | right]. apply (inv_undo _ _ I u un Hun E). set_solver.
  - intros ul l Hl. apply (inv_list _ _ I ul l Hl).
  - intros t r Ht Hst. destruct (inv_pc _ _ I _ _ Ht) as (st & Hst' & H). rewrite Hst in Hst'. injection Hst' as <-.
    destruct (H eq_refl) as (lid & a & L & Es & (q & -> & Hq)%list_elem_of_fmap). exists lid, a, q. do 4 (split; [done |]).
    destruct (inv_arr _ _ I lid a L) as (_ & _ & _ & _ & _ & F). apply (proj1 (Forall_forall _ _) F) in Hq as Hok. by eapply waits_count.
  - apply (inv_used _ _ I).
Qed.

(** C16. Semaphores are safe under every interleaving of the system calls of any number
    of tasks, forks, exits, signals, timeouts and failing allocations, as long as fewer
    than 65536 sets are created: no freed undo structure or list is used and no
    [BUG_ON] fails ([run_sem] is never [None]); every value stays within 0 and SEMVMX;
    the undo structures of a set belong to it and are long enough; those of a process
    are allocated, and dead or on their set; the reference counts are the numbers of
    tasks; [used_sems] is the number of semaphores; and a task that sleeps and was not
    woken is in the queue of its set, with semncnt + semzcnt > 0 for a semaphore. *)
Theorem sem_system_safe alloc xs : Z.of_nat (length (filter (fun x => is_semget x = true) xs)) <= 65535 ->
  exists w, run_sem xs (sem_init alloc) = Some w /\ sem_safe w.
Proof.
  intros H. destruct (run_sem_inv xs (sem_init alloc) (sem_init_inv alloc)) as (w & E & I); [cbn; lia |].
  exists w. split; [done | by apply inv_safe].
Qed.

(** ** Examples *)

(** Task 10 wants to take 2, task 11 waits for zero, task 12 adds 1 to the value 1. *)
Definition ex_run : list action := [
  A_semget ex_user 0 1 438 100 true true; A_setval ex_user 9 0 0 1 100;
  A_semop 10 10 0 [op 0 (-2) 0] true None true; A_lock 10 ex_user 101 true;
  A_semop 11 11 0 [op 0 0 0] true None true; A_lock 11 ex_user 102 true;
  A_semop 12 12 0 [op 0 1 SEM_UNDO] true None true; A_alloc 12 true; A_lock 12 ex_user 103 true].

(** Then the value is 0, task 10 was woken, and task 11 still sleeps: [update_queue] had
    looked at its request before it performed the one behind it, and does not look again. *)
Lemma lost_wakeup :
  (fun w => ((fun a => (semval <$> sem_base a, q_sleeper <$> sem_pending a)) <$> sem_lock w 0, status_of w !! 10, status_of w !! 11)) <$>
    run_sem ex_run (sem_init true) = Some (Some ([0], [11]), Some 0, Some (- EINTR)).
Proof. vm_compute. reflexivity. Qed.

Lemma sem_system_safe_witness : exists w, run_sem ex_run (sem_init true) = Some w /\ sem_safe w.
Proof. apply (sem_system_safe true ex_run). vm_compute. discriminate. Defined.
