(* ===== verification/Msg.v ===== *)
(** * Message queues: ipc/msg.c, ipc/msgutil.c, include/linux/msg.h

    A queue holds messages in order of arrival, the receivers that sleep because no message
    fits what they ask for, and the senders that sleep because it is full. A message is a
    chain of pages; messages live in [heap] by their addresses, so that a use after [kfree],
    a second [kfree] and a leak show. A sender hands its message directly to a sleeping
    receiver, by writing [r_msg] on the receiver's stack, which is in [pcs] here.

    As in Sem.v, what runs under the lock of a queue is one function on the whole state, and
    what a task does after the lock with a message that only it can reach belongs to that
    function; between the functions other tasks run. [woken] holds the tasks for which
    [wake_up_process] was called since they last went to sleep. [pipelined_send] and
    [expunge_all] set [r_msg] to [NULL] while they wake the receiver; on one processor with
    preemption disabled nobody sees that. [None] is an oops. The security hooks are those of
    security/dummy.c, which return 0. [msg_ctlmax] and [msg_ctlmnb] can be set with sysctl and
    are arguments; [msg_ctlmni] has its first value. Not modelled: the statistics ([IPC_STAT],
    [IPC_INFO], [MSG_STAT], [MSG_INFO], /proc). *)

From stdpp Require Import list gmap.
From S2P Require Import Prelude IpcUtil.

Definition MSG_NOERROR : Z := 4096.
Definition MSG_EXCEPT : Z := 8192.
Definition MSGMNI : Z := 16.
Definition INT_MAX : Z := 2147483647.
Definition ENOMSG : Z := 42.
Definition ERESTARTNOHAND : Z := 514.
Definition MODE_ALL : Z := 511.
Definition MODE_READ : Z := 292.
Definition MODE_WRITE : Z := 146.
Definition CAP_ADMIN : Z := 21.
Definition CAP_RESOURCE : Z := 24.

Definition flagged (flag x : Z) : bool := negb (Z.land x flag =? 0).

(** ** Messages: ipc/msgutil.c *)

(** The text follows the structure in its page; the rest is in segments of a page each. *)
Record msg_msg := mk_msg { m_type : Z; m_ts : Z; m_text : list Z; m_segs : list (list Z) }.

Definition DATALEN_MSG : Z := 4096 - 24.
Definition DATALEN_SEG : Z := 4096 - 4.

(** User memory: a byte that cannot be read is [None]. *)
Definition copy_from_user (src : list (option Z)) (n : Z) : option (list Z) :=
  let c := take (Z.to_nat n) src in
  if Z.of_nat (length c) =? n then mapM id c else None.

(** The [while] loop; [alloc k] is the answer of the [k]-th [kmalloc]. Running out of fuel is [None]. *)
Fixpoint load_segs (fuel : nat) (alloc : nat -> bool) (k : nat) (src : list (option Z)) (len : Z) : option (Z + list (list Z)) :=
  if 0 <? len then
    match fuel with
    | O => None
    | S fuel =>
        let alen := if DATALEN_SEG <? len then DATALEN_SEG else len in
        if negb (alloc k) then Some (inl (- ENOMEM))
        else
          match copy_from_user src alen with
          | None => Some (inl (- EFAULT))
          | Some seg =>
              r ← load_segs fuel alloc (S k) (drop (Z.to_nat alen) src) (len - alen);
              Some (match r with inl e => inl e | inr segs => inr (seg :: segs) end)
          end
    end
  else Some (inr []).

Definition load_msg (alloc : nat -> bool) (src : list (option Z)) (len : Z) : option (Z + (list Z * list (list Z))) :=
  let alen := if DATALEN_MSG <? len then DATALEN_MSG else len in
  if negb (alloc 0%nat) then Some (inl (- ENOMEM))
  else
    match copy_from_user src alen with
    | None => Some (inl (- EFAULT))
    | Some text =>
        r ← load_segs (Z.to_nat (len / DATALEN_SEG + 1)) alloc 1 (drop (Z.to_nat alen) src) (len - alen);
        Some (match r with inl e => inl e | inr segs => inr (text, segs) end)
    end.

(** Reading [n] bytes of an allocation that holds [c]. *)
Definition chunk (c : list Z) (n : Z) : option (list Z) := if n <=? Z.of_nat (length c) then Some (take (Z.to_nat n) c) else None.

(** [room] bytes of user memory can be written. *)
Fixpoint store_segs (segs : list (list Z)) (len room : Z) : option (option (list Z)) :=
  if 0 <? len then
    match segs with
    | [] => None
    | seg :: segs =>
        let alen := if DATALEN_SEG <? len then DATALEN_SEG else len in
        c ← chunk seg alen;
        if room <? alen then Some None
        else r ← store_segs segs (len - alen) (room - alen); Some (option_map (app c) r)
    end
  else Some (Some []).

(** The bytes that reach the user, or [Some None] for -1. *)
Definition store_msg (m : msg_msg) (len room : Z) : option (option (list Z)) :=
  let alen := if DATALEN_MSG <? len then DATALEN_MSG else len in
  c ← chunk (m_text m) alen;
  if room <? alen then Some None
  else r ← store_segs (m_segs m) (len - alen) (room - alen); Some (option_map (app c) r).

(** ** Queues *)

Inductive search_mode := SEARCH_ANY | SEARCH_EQUAL | SEARCH_NOTEQUAL | SEARCH_LESSEQUAL.

Record msg_receiver := mk_rcv { r_tsk : Z; r_mode : search_mode; r_msgtype : Z; r_maxsize : Z }.

(** Messages by address, senders by task; [q_ptr] is the address of the structure. *)
Record msg_queue := mk_msq {
  q_perm : kern_ipc_perm; q_stime : Z; q_rtime : Z; q_ctime : Z; q_cbytes : Z; q_qnum : Z; q_qbytes : Z; q_lspid : Z; q_lrpid : Z;
  q_messages : list Z; q_receivers : list msg_receiver; q_senders : list Z; q_ptr : Z }.

#[export] Instance msg_queue_object : IpcObject msg_queue := {|
  perm := q_perm;
  with_perm p q := mk_msq p (q_stime q) (q_rtime q) (q_ctime q) (q_cbytes q) (q_qnum q) (q_qbytes q) (q_lspid q) (q_lrpid q) (q_messages q) (q_receivers q) (q_senders q) (q_ptr q);
  perm_with_perm _ _ := eq_refl |}.

Definition set_messages (ms : list Z) (cbytes qnum : Z) (q : msg_queue) : msg_queue :=
  mk_msq (q_perm q) (q_stime q) (q_rtime q) (q_ctime q) cbytes qnum (q_qbytes q) (q_lspid q) (q_lrpid q) ms (q_receivers q) (q_senders q) (q_ptr q).
Definition set_receivers (rs : list msg_receiver) (q : msg_queue) : msg_queue :=
  mk_msq (q_perm q) (q_stime q) (q_rtime q) (q_ctime q) (q_cbytes q) (q_qnum q) (q_qbytes q) (q_lspid q) (q_lrpid q) (q_messages q) rs (q_senders q) (q_ptr q).
Definition set_senders (ss : list Z) (q : msg_queue) : msg_queue :=
  mk_msq (q_perm q) (q_stime q) (q_rtime q) (q_ctime q) (q_cbytes q) (q_qnum q) (q_qbytes q) (q_lspid q) (q_lrpid q) (q_messages q) (q_receivers q) ss (q_ptr q).
Definition set_sent (pid now : Z) (q : msg_queue) : msg_queue :=
  mk_msq (q_perm q) now (q_rtime q) (q_ctime q) (q_cbytes q) (q_qnum q) (q_qbytes q) pid (q_lrpid q) (q_messages q) (q_receivers q) (q_senders q) (q_ptr q).
Definition set_received (pid now : Z) (q : msg_queue) : msg_queue :=
  mk_msq (q_perm q) (q_stime q) now (q_ctime q) (q_cbytes q) (q_qnum q) (q_qbytes q) (q_lspid q) pid (q_messages q) (q_receivers q) (q_senders q) (q_ptr q).
Definition set_limits (p : kern_ipc_perm) (qbytes now : Z) (q : msg_queue) : msg_queue :=
  mk_msq p (q_stime q) (q_rtime q) now (q_cbytes q) (q_qnum q) qbytes (q_lspid q) (q_lrpid q) (q_messages q) (q_receivers q) (q_senders q) (q_ptr q).

(** What a receiver finds in [r_msg]: an error or a message. *)
Inductive r_msg := R_err (e : Z) | R_msg (a : Z).

(** A task in [schedule] of sys_msgsnd, with its message, or of sys_msgrcv. *)
Inductive pc :=
  | Sending (ptr a flg : Z)
  | Receiving (ptr msgsz msgtyp : Z) (mode : search_mode) (flg : Z) (r : r_msg).

Record world := mk_world {
  msg_ids : ipc_ids msg_queue; msg_bytes : Z; msg_hdrs : Z; heap : gmap Z msg_msg; woken : gset Z; next_addr : Z; pcs : gmap Z pc }.

Definition set_ids v w := mk_world v (msg_bytes w) (msg_hdrs w) (heap w) (woken w) (next_addr w) (pcs w).
Definition set_counts b h w := mk_world (msg_ids w) b h (heap w) (woken w) (next_addr w) (pcs w).
Definition set_heap v w := mk_world (msg_ids w) (msg_bytes w) (msg_hdrs w) v (woken w) (next_addr w) (pcs w).
Definition set_woken v w := mk_world (msg_ids w) (msg_bytes w) (msg_hdrs w) (heap w) v (next_addr w) (pcs w).
Definition set_next v w := mk_world (msg_ids w) (msg_bytes w) (msg_hdrs w) (heap w) (woken w) v (pcs w).
Definition set_pcs v w := mk_world (msg_ids w) (msg_bytes w) (msg_hdrs w) (heap w) (woken w) (next_addr w) v.

Definition msg_init (alloc : bool) : world := mk_world (ipc_init_ids MSGMNI alloc) 0 0 ∅ ∅ 1 ∅.

(** The result of a call, with the type and the text a receiver gets. *)
Record answer := mk_answer { a_val : Z; a_type : option Z; a_text : list Z }.

Definition ret (e : Z) (w : world) : option (option answer * world) := Some (Some (mk_answer e None []), w).

Definition leave (t : Z) (w : world) : world := set_pcs (delete t (pcs w)) w.

(** Going to sleep: [current->state = TASK_INTERRUPTIBLE], unlock, [schedule]. *)
Definition sleep (t : Z) (p : pc) (w : world) : option (option answer * world) :=
  Some (None, set_woken (woken w ∖ {[t]}) (set_pcs (<[t := p]> (pcs w)) w)).

Definition wake_task (t : Z) (w : world) : world := set_woken ({[t]} ∪ woken w) w.

Definition free_msg (a : Z) (w : world) : option world := _ ← heap w !! a; Some (set_heap (delete a (heap w)) w).

Definition msg_lock (w : world) (id : Z) : option msg_queue := ipc_lock (msg_ids w) id.
Definition store (lid : nat) (q : msg_queue) (w : world) : world := set_ids (ipc_store (msg_ids w) (Z.of_nat lid) q) w.

(** [ipc_lock_by_ptr]; [None] is a queue that was deleted. *)
Definition lock_by_ptr (w : world) (ptr : Z) : option (nat * msg_queue) := find_ptr q_ptr (entries (msg_ids w)) ptr 0.

(** Writing [r_msg] in the frame of a task that sleeps in sys_msgrcv. *)
Definition set_r_msg (t : Z) (r : r_msg) (w : world) : option world :=
  match pcs w !! t with
  | Some (Receiving ptr sz typ mode flg _) => Some (set_pcs (<[t := Receiving ptr sz typ mode flg r]> (pcs w)) w)
  | _ => None
  end.

(** ** msgget *)

Definition newque (cur : subject) (key msgflg ctlmnb now : Z) (alloc ary_alloc : bool) (w : world) : option (option answer * world) :=
  if negb alloc then ret (- ENOMEM) w
  else
    let msq := mk_msq (mk_perm false key 0 0 0 0 (Z.land msgflg MODE_ALL) 0) 0 0 now 0 0 (u32 ctlmnb) 0 0 [] [] [] (next_addr w) in
    let seq := ids_seq (msg_ids w) in
    '(id, ids) ← ipc_addid (msg_ids w) msq MSGMNI ary_alloc cur;
    let w := set_next (next_addr w + 1) (set_ids ids w) in
    if id =? -1 then ret (- ENOSPC) w else ret (ipc_buildid id seq) w.

Definition sys_msgget (cur : subject) (key msgflg ctlmnb now : Z) (alloc ary_alloc : bool) (w : world) : option (option answer * world) :=
  if key =? IPC_PRIVATE then newque cur key msgflg ctlmnb now alloc ary_alloc w
  else
    id ← ipc_findkey (msg_ids w) key;
    if id =? -1 then
      if negb (flagged IPC_CREAT msgflg) then ret (- ENOENT) w else newque cur key msgflg ctlmnb now alloc ary_alloc w
    else if flagged IPC_CREAT msgflg && flagged IPC_EXCL msgflg then ret (- EEXIST) w
    else
      q ← msg_lock w id;
      if negb (ipcperms cur (q_perm q) msgflg =? 0) then ret (- EACCES) w else ret (ipc_buildid id (p_seq (q_perm q))) w.

(** ** Waking *)

(** Nobody is taken off the list: a sender that runs again does that itself. *)
Definition ss_wakeup (ss : list Z) (w : world) : world := foldl (fun w t => wake_task t w) w ss.

Fixpoint expunge_all (rs : list msg_receiver) (res : Z) (w : world) : option world :=
  match rs with
  | [] => Some w
  | r :: rs => w ← set_r_msg (r_tsk r) (R_err res) (wake_task (r_tsk r) w); expunge_all rs res w
  end.

(** ** msgctl *)

Fixpoint free_msgs (ms : list Z) (w : world) : option world :=
  match ms with
  | [] => Some w
  | a :: ms => w ← free_msg a (set_counts (msg_bytes w) (s32 (msg_hdrs w - 1)) w); free_msgs ms w
  end.

Definition freeque (q : msg_queue) (id : Z) (w : world) : option world :=
  w ← expunge_all (q_receivers q) (- EIDRM) w;
  let w := ss_wakeup (q_senders q) w in
  '(q, ids) ← ipc_rmid (msg_ids w) id;
  w ← free_msgs (q_messages q) (set_ids ids w);
  Some (set_counts (s32 (msg_bytes w - q_cbytes q)) (msg_hdrs w) w).

(** [IPC_SET] with the limit, user, group and mode of the buffer, if it can be read. *)
Inductive ctl_cmd := IPC_RMID | IPC_SET (setbuf : option (Z * Z * Z * Z)).

Definition sys_msgctl (cur : subject) (msqid : Z) (cmd : ctl_cmd) (ctlmnb now : Z) (w : world) : option (option answer * world) :=
  if msqid <? 0 then ret (- EINVAL) w
  else
    match cmd with
    | IPC_SET None => ret (- EFAULT) w
    | _ =>
        match msg_lock w msqid with
        | None => ret (- EINVAL) w
        | Some q =>
            if ipc_checkid q msqid then ret (- EIDRM) w
            else
              let ipcp := q_perm q in
              if negb (s_euid cur =? p_cuid ipcp) && negb (s_euid cur =? p_uid ipcp) && negb (s_capable cur CAP_ADMIN) then ret (- EPERM) w
              else
                match cmd with
                | IPC_SET (Some (qbytes, uid, gid, mode)) =>
                    if (u32 ctlmnb <? qbytes) && negb (s_capable cur CAP_RESOURCE) then ret (- EPERM) w
                    else
                      let p := mk_perm (deleted ipcp) (p_key ipcp) uid gid (p_cuid ipcp) (p_cgid ipcp)
                                 (Z.lor (Z.ldiff (p_mode ipcp) MODE_ALL) (Z.land MODE_ALL mode)) (p_seq ipcp) in
                      let q := set_limits p qbytes now q in
                      w ← expunge_all (q_receivers q) (- EAGAIN) w;
                      ret 0 (store (place msqid) q (ss_wakeup (q_senders q) w))
                | IPC_SET None => ret (- EFAULT) w
                | IPC_RMID => w ← freeque q msqid w; ret 0 w
                end
        end
    end.

(** ** msgsnd *)

Definition testmsg (m : msg_msg) (type : Z) (mode : search_mode) : bool :=
  match mode with
  | SEARCH_ANY => true
  | SEARCH_LESSEQUAL => m_type m <=? type
  | SEARCH_EQUAL => m_type m =? type
  | SEARCH_NOTEQUAL => negb (m_type m =? type)
  end.

(** The receivers before the current one are in [kept]. *)
Fixpoint pipelined_loop (rs kept : list msg_receiver) (a : Z) (m : msg_msg) (now : Z) (q : msg_queue) (w : world) : option (bool * msg_queue * world) :=
  match rs with
  | [] => Some (false, set_receivers kept q, w)
  | r :: rs =>
      if testmsg m (r_msgtype r) (r_mode r) then
        let w := wake_task (r_tsk r) w in
        if r_maxsize r <? m_ts m then
          w ← set_r_msg (r_tsk r) (R_err (- E2BIG)) w;
          pipelined_loop rs kept a m now q w
        else
          w ← set_r_msg (r_tsk r) (R_msg a) w;
          Some (true, set_received (r_tsk r) now (set_receivers (kept ++ rs) q), w)
      else pipelined_loop rs (kept ++ [r]) a m now q w
  end.

Definition pipelined_send (a : Z) (m : msg_msg) (now : Z) (q : msg_queue) (w : world) : option (bool * msg_queue * world) :=
  pipelined_loop (q_receivers q) [] a m now q w.

Definition fits (m : msg_msg) (q : msg_queue) : bool := ((m_ts m ⊕ q_cbytes q) <=? q_qbytes q) && ((1 ⊕ q_qnum q) <=? q_qbytes q).

(** The error exits of sys_msgsnd. *)
Definition snd_fail (t e a : Z) (w : world) : option (option answer * world) := w ← free_msg a w; ret e (leave t w).

(** One round of the loop, from [ipcperms] on. *)
Definition snd_try (t tgid : Z) (cur : subject) (flg now : Z) (lid : nat) (q : msg_queue) (a : Z) (w : world) : option (option answer * world) :=
  if negb (ipcperms cur (q_perm q) MODE_WRITE =? 0) then snd_fail t (- EACCES) a w
  else
    m ← heap w !! a;
    if fits m q then
      '(sent, q, w) ← pipelined_send a m now (set_sent tgid now q) w;
      if (sent : bool) then ret 0 (leave t (store lid q w))
      else
        let q := set_messages (q_messages q ++ [a]) (q_cbytes q ⊕ m_ts m) (q_qnum q ⊕ 1) q in
        ret 0 (leave t (set_counts (s32 (msg_bytes w + m_ts m)) (s32 (msg_hdrs w + 1)) (store lid q w)))
    else if flagged IPC_NOWAIT flg then snd_fail t (- EAGAIN) a w
    else sleep t (Sending (q_ptr q) a flg) (store lid (set_senders (q_senders q ++ [t]) q) w).

(** The memory that messages take, with their headers. *)
Definition heap_size (h : gmap Z msg_msg) : Z := foldr (fun am n => 24 + m_ts am.2 + n) 0 (map_to_list h).

(** All messages are in memory at once, so [kmalloc] fails before they fill the address space. *)
Definition sys_msgsnd (t tgid : Z) (cur : subject) (msqid : Z) (mtype : option Z) (src : list (option Z)) (msgsz msgflg ctlmax now : Z) (alloc : nat -> bool) (w : world)
  : option (option answer * world) :=
  if (u32 ctlmax <? msgsz) || (s32 msgsz <? 0) || (msqid <? 0) then ret (- EINVAL) w
  else
    match mtype with
    | None => ret (- EFAULT) w
    | Some mtype =>
        if mtype <? 1 then ret (- EINVAL) w
        else
          r ← load_msg (fun k => alloc k && (heap_size (heap w) + 24 + msgsz <? 4294967296)) src msgsz;
          match r with
          | inl e => ret e w
          | inr (text, segs) =>
              let a := next_addr w in
              let w := set_next (a + 1) (set_heap (<[a := mk_msg mtype msgsz text segs]> (heap w)) w) in
              match msg_lock w msqid with
              | None => snd_fail t (- EINVAL) a w
              | Some q =>
                  if ipc_checkid q msqid then snd_fail t (- EIDRM) a w
                  else snd_try t tgid cur msgflg now (place msqid) q a w
              end
          end
    end.

(** After [schedule]. *)
Definition snd_wake (t tgid : Z) (cur : subject) (signal_pending : bool) (now ptr a flg : Z) (w : world) : option (option answer * world) :=
  match lock_by_ptr w ptr with
  | None => snd_fail t (- EIDRM) a w
  | Some (lid, q) =>
      if decide (t ∈ q_senders q) then
        let q := set_senders (filter (fun x => x <> t) (q_senders q)) q in
        let w := store lid q w in
        if signal_pending then snd_fail t (- ERESTARTNOHAND) a w else snd_try t tgid cur flg now lid q a (leave t w)
      else None
  end.

(** ** msgrcv *)

Definition convert_mode (msgtyp msgflg : Z) : Z * search_mode :=
  if msgtyp =? 0 then (msgtyp, SEARCH_ANY)
  else if msgtyp <? 0 then (s32 (- msgtyp), SEARCH_LESSEQUAL)
  else if flagged MSG_EXCEPT msgflg then (msgtyp, SEARCH_NOTEQUAL)
  else (msgtyp, SEARCH_EQUAL).

(** The walk over the queue; with SEARCH_LESSEQUAL it goes on for a lower type. *)
Fixpoint find_msg (h : gmap Z msg_msg) (ms : list Z) (msgtyp : Z) (mode : search_mode) (found : option Z) : option (option Z) :=
  match ms with
  | [] => Some found
  | a :: ms =>
      m ← h !! a;
      if testmsg m msgtyp mode then
        if (match mode with SEARCH_LESSEQUAL => true | _ => false end) && negb (m_type m =? 1) then find_msg h ms (m_type m - 1) mode (Some a)
        else Some (Some a)
      else find_msg h ms msgtyp mode found
  end.

(** The end of the call: [dst] is whether the type and how much of the text can be written. *)
Definition deliver (t a msgsz : Z) (dst : bool * Z) (w : world) : option (option answer * world) :=
  m ← heap w !! a;
  let msgsz := if m_ts m <? msgsz then m_ts m else msgsz in
  out ← (if dst.1 then r ← store_msg m msgsz dst.2; Some (match r with Some text => mk_answer msgsz (Some (m_type m)) text | None => mk_answer (- EFAULT) (Some (m_type m)) [] end)
         else Some (mk_answer (- EFAULT) None []));
  w ← free_msg a w;
  Some (Some out, leave t w).

Definition rcv_try (t tgid : Z) (cur : subject) (msgsz msgtyp : Z) (mode : search_mode) (flg now : Z) (dst : bool * Z) (lid : nat) (q : msg_queue) (w : world) : option (option answer * world) :=
  if negb (ipcperms cur (q_perm q) MODE_READ =? 0) then ret (- EACCES) (leave t w)
  else
    found ← find_msg (heap w) (q_messages q) msgtyp mode None;
    match found with
    | Some a =>
        m ← heap w !! a;
        if (msgsz <? m_ts m) && negb (flagged MSG_NOERROR flg) then ret (- E2BIG) (leave t w)
        else
          let q := set_received tgid now (set_messages (filter (fun x => x <> a) (q_messages q)) (q_cbytes q ⊖ m_ts m) (q_qnum q ⊖ 1) q) in
          let w := ss_wakeup (q_senders q) (set_counts (s32 (msg_bytes w - m_ts m)) (s32 (msg_hdrs w - 1)) (store lid q w)) in
          deliver t a msgsz dst w
    | None =>
        if flagged IPC_NOWAIT flg then ret (- ENOMSG) (leave t w)
        else
          let r := mk_rcv t mode msgtyp (if flagged MSG_NOERROR flg then INT_MAX else msgsz) in
          sleep t (Receiving (q_ptr q) msgsz msgtyp mode flg (R_err (- EAGAIN))) (store lid (set_receivers (q_receivers q ++ [r]) q) w)
    end.

Definition sys_msgrcv (t tgid : Z) (cur : subject) (msqid msgsz msgtyp msgflg now : Z) (dst : bool * Z) (w : world) : option (option answer * world) :=
  if (msqid <? 0) || (s32 msgsz <? 0) then ret (- EINVAL) w
  else
    let '(msgtyp, mode) := convert_mode msgtyp msgflg in
    match msg_lock w msqid with
    | None => ret (- EINVAL) w
    | Some q =>
        if ipc_checkid q msqid then ret (- EIDRM) w
        else rcv_try t tgid cur msgsz msgtyp mode msgflg now dst (place msqid) q w
    end.

(** After [schedule]: a message or an error is taken without the lock. *)
Definition rcv_wake (t tgid : Z) (cur : subject) (signal_pending : bool) (now : Z) (dst : bool * Z) (ptr msgsz msgtyp : Z) (mode : search_mode) (flg : Z) (r : r_msg) (w : world)
  : option (option answer * world) :=
  match r with
  | R_msg a => deliver t a msgsz dst w
  | R_err e =>
      if negb (e =? - EAGAIN) then ret e (leave t w)
      else
        '(lid, q) ← lock_by_ptr w ptr;
        if existsb (fun r => r_tsk r =? t) (q_receivers q) then
          let q := set_receivers (filter (fun r => r_tsk r <> t) (q_receivers q)) q in
          let w := leave t (store lid q w) in
          if signal_pending then ret (- ERESTARTNOHAND) w
          else rcv_try t tgid cur msgsz msgtyp mode flg now dst lid q w
        else None
  end.

(** ** All tasks together *)

Inductive action :=
  | A_msgget (cur : subject) (key msgflg ctlmnb now : Z) (alloc ary_alloc : bool)
  | A_msgctl (cur : subject) (msqid : Z) (cmd : ctl_cmd) (ctlmnb now : Z)
  | A_msgsnd (t tgid : Z) (cur : subject) (msqid : Z) (mtype : option Z) (src : list (option Z)) (msgsz msgflg ctlmax now : Z) (alloc : nat -> bool)
  | A_msgrcv (t tgid : Z) (cur : subject) (msqid msgsz msgtyp msgflg now : Z) (dst : bool * Z)
  | A_run (t tgid : Z) (cur : subject) (signal_pending : bool) (now : Z) (dst : bool * Z).

(** [A_run]: the task comes back from [schedule], because it was woken or for a signal. An
    action whose task is not at that point does nothing. *)
Definition exec (x : action) (w : world) : option (option answer * world) :=
  match x with
  | A_msgget cur key msgflg ctlmnb now b1 b2 => sys_msgget cur key msgflg ctlmnb now b1 b2 w
  | A_msgctl cur msqid cmd ctlmnb now => sys_msgctl cur msqid cmd ctlmnb now w
  | A_msgsnd t tgid cur msqid mtype src msgsz msgflg ctlmax now alloc =>
      match pcs w !! t with None => sys_msgsnd t tgid cur msqid mtype src (u32 msgsz) msgflg ctlmax now alloc w | Some _ => Some (None, w) end
  | A_msgrcv t tgid cur msqid msgsz msgtyp msgflg now dst =>
      match pcs w !! t with None => sys_msgrcv t tgid cur msqid (u32 msgsz) msgtyp msgflg now dst w | Some _ => Some (None, w) end
  | A_run t tgid cur sig now dst =>
      match pcs w !! t with
      | Some (Sending ptr a flg) => snd_wake t tgid cur sig now ptr a flg w
      | Some (Receiving ptr msgsz msgtyp mode flg r) => rcv_wake t tgid cur sig now dst ptr msgsz msgtyp mode flg r w
      | None => Some (None, w)
      end
  end.

Fixpoint run_msg (xs : list action) (w : world) : option world :=
  match xs with [] => Some w | x :: xs => '(_, w) ← exec x w; run_msg xs w end.

(** * Correctness *)

(** ** Messages *)

(** The segments hold [len] bytes, all full but the last. *)
Fixpoint segs_shape (segs : list (list Z)) (len : Z) : Prop :=
  match segs with
  | [] => len <= 0
  | seg :: segs => 0 < len /\ Z.of_nat (length seg) = Z.min DATALEN_SEG len /\ segs_shape segs (len - DATALEN_SEG)
  end.

Definition msg_ok (m : msg_msg) : Prop :=
  0 <= m_ts m < 2147483648 /\ Z.of_nat (length (m_text m)) = Z.min DATALEN_MSG (m_ts m) /\ segs_shape (m_segs m) (m_ts m - DATALEN_MSG).

(** The text of a message. *)
Definition text_of (m : msg_msg) : list Z := m_text m ++ concat (m_segs m).

Lemma copy_from_user_some src n c : 0 <= n -> copy_from_user src n = Some c -> take (Z.to_nat n) src = Some <$> c /\ Z.of_nat (length c) = n.
Proof.
  intros Hn. unfold copy_from_user. destruct (Z.eqb_spec (Z.of_nat (length (take (Z.to_nat n) src))) n) as [E |]; [| done]. intros H. apply mapM_Some in H.
  assert (take (Z.to_nat n) src = Some <$> c) as Ht by (clear E; induction H as [| x y l k Hx _ IH]; [done |]; cbn; rewrite <- IH; unfold id in Hx; by rewrite Hx). split; [done |]. rewrite <- E, Ht. by rewrite length_fmap.
Qed.

Lemma copy_from_user_all n (data : list Z) rest : 0 <= n -> copy_from_user ((Some <$> data) ++ rest) n = Some (take (Z.to_nat n) data) \/ Z.of_nat (length data) < n.
Proof.
  intros Hn. destruct (Z.le_gt_cases n (Z.of_nat (length data))) as [H |]; [left | by right]. unfold copy_from_user. rewrite take_app_le by (rewrite length_fmap; lia). rewrite <- fmap_take, length_fmap, length_take. rewrite (proj2 (Z.eqb_eq _ _)) by lia. apply mapM_Some_2. clear H.
  induction (take (Z.to_nat n) data); constructor; done.
Qed.

Lemma seg_len len : (if DATALEN_SEG <? len then DATALEN_SEG else len) = Z.min DATALEN_SEG len.
Proof. destruct (Z.ltb_spec DATALEN_SEG len); lia. Qed.

Lemma msg_len len : (if DATALEN_MSG <? len then DATALEN_MSG else len) = Z.min DATALEN_MSG len.
Proof. destruct (Z.ltb_spec DATALEN_MSG len); lia. Qed.

Lemma load_segs_spec fuel alloc : forall k src len, len <= Z.of_nat fuel * DATALEN_SEG -> exists r, load_segs fuel alloc k src len = Some r /\
  match r with
  | inl e => (e = - ENOMEM /\ exists j, alloc j = false) \/ (e = - EFAULT /\ ~ exists data, take (Z.to_nat len) src = Some <$> data /\ Z.of_nat (length data) = len)
  | inr segs => segs_shape segs len /\ (0 <= len -> take (Z.to_nat len) src = Some <$> concat segs)
  end.
Proof.
  unfold DATALEN_SEG. change (4096 - 4) with 4092. induction fuel as [| fuel IH]; intros k src len Hf; cbn [load_segs]; (destruct (Z.ltb_spec 0 len) as [Hl | Hl]; [| eexists; split; [done |]; split; [cbn; lia |]; intros ?; by replace len with 0 by lia]); [lia |].
  rewrite seg_len. change DATALEN_SEG with 4092. destruct (alloc k) eqn:Ha; cbn [negb]; [| eexists; split; [done |]; left; eauto]. set (n := Z.min 4092 len). destruct (copy_from_user src n) as [seg |] eqn:Hc.
  - apply copy_from_user_some in Hc as [Ht Hn]; [| lia]. destruct (IH (S k) (drop (Z.to_nat n) src) (len - n) ltac:(lia)) as (r & -> & Hr). cbn [mbind option_bind]. eexists. split; [done |]. assert (Z.to_nat len = (Z.to_nat n + Z.to_nat (len - n))%nat) as Hsum by lia. destruct r as [e | segs].
    + destruct Hr as [H | [-> H]]; [by left | right]. split; [done |]. intros (data & Hd & Hlen). apply H. exists (drop (Z.to_nat n) data). rewrite length_drop. split; [| lia]. rewrite fmap_drop, <- Hd. rewrite skipn_firstn_comm. f_equal. lia.
    + destruct Hr as [Hs Ht']. split.
      * cbn [segs_shape]. change DATALEN_SEG with 4092. split; [done |]. split; [done |]. destruct (Z.le_gt_cases len 4092) as [Hle |]; [| by replace (len - 4092) with (len - n) by lia]. destruct segs; cbn in Hs |- *; [lia |]. lia.
      * intros _. cbn [concat]. rewrite Hsum, fmap_app, <- Ht, <- Ht' by lia. symmetry. apply take_take_drop.
  - eexists. split; [done |]. right. split; [done |]. intros (data & Hd & Hlen). pose proof (copy_from_user_all n data (drop (Z.to_nat len) src) ltac:(lia)) as [E | E]; [| lia]. rewrite <- Hd, take_drop in E. congruence.
Qed.

Lemma load_msg_spec alloc src len : 0 <= len -> exists r, load_msg alloc src len = Some r /\
  match r with
  | inl e => (e = - ENOMEM /\ exists j, alloc j = false) \/ (e = - EFAULT /\ ~ exists data, take (Z.to_nat len) src = Some <$> data /\ Z.of_nat (length data) = len)
  | inr (text, segs) => Z.of_nat (length text) = Z.min DATALEN_MSG len /\ segs_shape segs (len - DATALEN_MSG) /\ take (Z.to_nat len) src = Some <$> (text ++ concat segs)
  end.
Proof.
  intros Hl. unfold load_msg. rewrite msg_len. destruct (alloc 0%nat) eqn:Ha; cbn [negb]; [| eexists; split; [done |]; left; eauto]. change DATALEN_MSG with 4072. set (n := Z.min 4072 len). destruct (copy_from_user src n) as [text |] eqn:Hc.
  - apply copy_from_user_some in Hc as [Ht Hn]; [| lia]. destruct (load_segs_spec (Z.to_nat (len / DATALEN_SEG + 1)) alloc 1 (drop (Z.to_nat n) src) (len - n)) as (r & -> & Hr).
    { change DATALEN_SEG with 4092. pose proof (Z.div_pos len 4092 ltac:(lia) ltac:(lia)). pose proof (Z.mul_succ_div_gt len 4092 ltac:(lia)). lia. }
    cbn [mbind option_bind]. eexists. split; [done |]. assert (Z.to_nat len = (Z.to_nat n + Z.to_nat (len - n))%nat) as Hsum by lia. destruct r as [e | segs].
    + destruct Hr as [H | [-> H]]; [by left | right]. split; [done |]. intros (data & Hd & Hlen). apply H. exists (drop (Z.to_nat n) data). rewrite length_drop. split; [| lia]. rewrite fmap_drop, <- Hd. rewrite skipn_firstn_comm. f_equal. lia.
    + destruct Hr as [Hs Ht']. split; [done |]. split; [destruct (Z.le_gt_cases len 4072) as [Hle |]; [| by replace (len - 4072) with (len - n) by lia]; destruct segs; cbn in Hs |- *; lia |].
      rewrite Hsum, fmap_app, <- Ht, <- Ht' by lia. symmetry. apply take_take_drop.
  - eexists. split; [done |]. right. split; [done |]. intros (data & Hd & Hlen). pose proof (copy_from_user_all n data (drop (Z.to_nat len) src) ltac:(lia)) as [E | E]; [| lia]. rewrite <- Hd, take_drop in E. congruence.
Qed.

Lemma chunk_take c n : n <= Z.of_nat (length c) -> chunk c n = Some (take (Z.to_nat n) c).
Proof. intros H. unfold chunk. by rewrite (proj2 (Z.leb_le _ _)). Qed.

Lemma store_segs_spec segs : forall len n room, segs_shape segs len -> n <= Z.max 0 len -> store_segs segs n room = Some (if (n <=? room) || (n <=? 0) then Some (take (Z.to_nat n) (concat segs)) else None).
Proof.
  induction segs as [| seg segs IH]; intros len n room Hs Hn; cbn [store_segs segs_shape concat] in *.
  - rewrite (proj2 (Z.ltb_ge 0 n)) by lia. rewrite (proj2 (Z.leb_le n 0)) by lia. rewrite orb_true_r. by rewrite take_nil.
  - destruct (Z.ltb_spec 0 n) as [H0 |]; [| rewrite (proj2 (Z.leb_le n 0)), orb_true_r by lia; by replace (Z.to_nat n) with 0%nat by lia]. destruct Hs as (_ & Hl & Hs). rewrite seg_len. set (a := Z.min DATALEN_SEG n). rewrite chunk_take by lia. cbn [mbind option_bind]. rewrite (proj2 (Z.leb_gt n 0)), orb_false_r by lia.
    destruct (Z.ltb_spec room a) as [Hr | Hr]; [by rewrite (proj2 (Z.leb_gt n room)) by lia |]. rewrite (IH (len - DATALEN_SEG)) by (done || lia). cbn [mbind option_bind].
    destruct (Z.leb_spec n room) as [Hnr | Hnr].
    + rewrite (proj2 (Z.leb_le (n - a) (room - a))) by lia. cbn [orb option_map]. do 2 f_equal. replace (Z.to_nat n) with (Z.to_nat a + Z.to_nat (n - a))%nat by lia. destruct (Z.le_gt_cases n DATALEN_SEG) as [Hle |].
      * replace (Z.to_nat (n - a)) with 0%nat by lia. rewrite take_0, app_nil_r, Nat.add_0_r. by rewrite take_app_le by lia.
      * rewrite (take_ge seg (Z.to_nat a)) by (change DATALEN_SEG with 4092 in *; lia). rewrite take_app_add'; [done |]. change DATALEN_SEG with 4092 in *. lia.
    + rewrite (proj2 (Z.leb_gt (n - a) (room - a))), (proj2 (Z.leb_gt (n - a) 0)) by (change DATALEN_SEG with 4092 in *; lia). done.
Qed.

Lemma store_msg_spec m n room : msg_ok m -> 0 <= n <= m_ts m -> store_msg m n room = Some (if n <=? room then Some (take (Z.to_nat n) (text_of m)) else None).
Proof.
  intros (H0 & Hl & Hs) Hn. unfold store_msg, text_of. rewrite msg_len. change DATALEN_MSG with 4072 in *. set (a := Z.min 4072 n). rewrite chunk_take by lia. cbn [mbind option_bind]. destruct (Z.ltb_spec room a) as [Hr | Hr]; [by rewrite (proj2 (Z.leb_gt n room)) by lia |].
  rewrite (store_segs_spec _ (m_ts m - 4072)) by (done || lia). cbn [mbind option_bind]. destruct (Z.leb_spec n room) as [Hnr | Hnr].
  - rewrite (proj2 (Z.leb_le (n - a) (room - a))) by lia. cbn [orb option_map]. do 2 f_equal. replace (Z.to_nat n) with (Z.to_nat a + Z.to_nat (n - a))%nat by lia. destruct (Z.le_gt_cases n 4072) as [Hle |].
    + replace (Z.to_nat (n - a)) with 0%nat by lia. rewrite take_0, app_nil_r, Nat.add_0_r. by rewrite take_app_le by lia.
    + rewrite (take_ge (m_text m) (Z.to_nat a)) by lia. rewrite take_app_add'; [done | lia].
  - rewrite (proj2 (Z.leb_gt (n - a) (room - a))), (proj2 (Z.leb_gt (n - a) 0)) by lia. done.
Qed.

(** C22. load_msg always ends; it fails only when memory runs out or the sender's buffer cannot be read, and otherwise keeps exactly the bytes of the
    buffer, however many pages they take: store_msg gives a receiver that asks for [n] bytes the first [n] of them, or nothing if the receiver's buffer has no room. *)
Theorem load_store_roundtrip alloc src len mtype : 0 <= len < 2147483648 -> exists r, load_msg alloc src len = Some r /\
  match r with
  | inl e => e = - ENOMEM /\ (exists j, alloc j = false) \/ e = - EFAULT /\ ~ exists data, take (Z.to_nat len) src = Some <$> data /\ Z.of_nat (length data) = len
  | inr (text, segs) => exists data, take (Z.to_nat len) src = Some <$> data /\ Z.of_nat (length data) = len /\
      forall n room, 0 <= n <= len -> store_msg (mk_msg mtype len text segs) n room = Some (if n <=? room then Some (take (Z.to_nat n) data) else None)
  end.
Proof.
  intros Hl. destruct (load_msg_spec alloc src len ltac:(lia)) as (r & E & Hr). exists r. split; [done |]. destruct r as [e | [text segs]]; [done |]. destruct Hr as (H1 & H2 & H3). exists (text ++ concat segs). split; [done |].
  assert (msg_ok (mk_msg mtype len text segs)) as Hok by (split; [cbn; lia | done]). split; [| intros n room Hn; by rewrite (store_msg_spec (mk_msg mtype len text segs) n room Hok Hn)].
  assert (forall ss k, segs_shape ss k -> Z.of_nat (length (concat ss)) = Z.max 0 k) as Hlen. { change DATALEN_SEG with 4092. induction ss as [| s ss IH]; intros k; cbn [segs_shape concat]; [cbn; lia |]. intros (Hk & Hs & Hss). change DATALEN_SEG with 4092 in *. rewrite length_app. apply IH in Hss. lia. }
  rewrite length_app. apply Hlen in H2. change DATALEN_MSG with 4072 in *. lia.
Qed.

(** ** Which message a receiver gets *)

#[global] Instance search_mode_dec : EqDecision search_mode.
Proof. solve_decision. Defined.

Definition msgs_in (h : gmap Z msg_msg) (ms : list Z) : Prop := forall a, a ∈ ms -> exists m, h !! a = Some m /\ 1 <= m_type m.

(** What [msgrcv] asks for with [msgtyp] and [msgflg]: with a negative type, one up to and
    including its absolute value (the comment of [convert_mode] says "< abs(msgtype)").
    The least [long] has no absolute value, and asks for nothing. *)
Definition wanted (msgtyp msgflg : Z) (m : msg_msg) : bool :=
  if msgtyp =? 0 then true
  else if msgtyp <? 0 then negb (msgtyp =? -2147483648) && (m_type m <=? - msgtyp)
  else if flagged MSG_EXCEPT msgflg then negb (m_type m =? msgtyp) else m_type m =? msgtyp.

Lemma msgs_in_cons h a ms : msgs_in h (a :: ms) -> (exists m, h !! a = Some m /\ 1 <= m_type m) /\ msgs_in h ms.
Proof. intros H. split; [apply H; by left |]. intros b Hb. apply H. by right. Qed.

(** The message [a] is the first of the least type of all. *)
Definition first_least (h : gmap Z msg_msg) (ms : list Z) (a : Z) (m : msg_msg) : Prop :=
  exists pre post, ms = pre ++ a :: post /\ h !! a = Some m /\ (forall b n, b ∈ pre -> h !! b = Some n -> m_type m < m_type n) /\ (forall b n, b ∈ post -> h !! b = Some n -> m_type m <= m_type n).

Lemma first_least_cons h ms a m b n : first_least h ms a m -> h !! b = Some n -> m_type m < m_type n -> first_least h (b :: ms) a m.
Proof.
  intros (pre & post & -> & Ha & H1 & H2) Hb Hlt. exists (b :: pre), post. split; [done |]. split; [done |]. split; [| done]. intros c k Hc Hk. apply elem_of_cons in Hc as [-> | Hc]; [congruence | eauto].
Qed.

Lemma find_least h ms : forall typ found, msgs_in h ms -> exists r, find_msg h ms typ SEARCH_LESSEQUAL found = Some r /\
  (r = found /\ (forall a m, a ∈ ms -> h !! a = Some m -> typ < m_type m) \/ exists a m, r = Some a /\ m_type m <= typ /\ first_least h ms a m).
Proof.
  induction ms as [| a ms IH]; intros typ found Hin; cbn [find_msg]. { exists found. split; [done |]. left. split; [done |]. intros a m Ha. by apply elem_of_nil in Ha. }
  apply msgs_in_cons in Hin as [(m & Hm & H1) Hin]. rewrite Hm. cbn [mbind option_bind testmsg andb]. destruct (Z.leb_spec (m_type m) typ) as [Hle | Hgt].
  - assert (forall P, (forall b n, b ∈ ms -> h !! b = Some n -> m_type m <= m_type n) -> (exists a0 m0, Some a = Some a0 /\ m_type m0 <= typ /\ first_least h (a :: ms) a0 m0) \/ P) as Hfirst.
    { intros P Hp. left. exists a, m. split; [done |]. split; [done |]. exists [], ms. split; [done |]. split; [done |]. split; [| done]. intros b n Hb. by apply elem_of_nil in Hb. }
    destruct (Z.eqb_spec (m_type m) 1) as [E1 | E1]; cbn [negb].
    + eexists. split; [done |]. apply or_comm, Hfirst. intros b n Hb Hn. destruct (Hin b Hb) as (n' & Hn' & ?). rewrite Hn in Hn'. simplify_eq. lia.
    + destruct (IH (m_type m - 1) (Some a) Hin) as (r & Hr & Hcase). exists r. split; [done |]. destruct Hcase as [[-> Hall] | (a' & m' & -> & Hle' & Hf)].
      * apply or_comm, Hfirst. intros b n Hb Hn. specialize (Hall b n Hb Hn). lia.
      * right. exists a', m'. split; [done |]. split; [lia |]. eapply first_least_cons; [done | done | lia].
  - destruct (IH typ found Hin) as (r & Hr & Hcase). exists r. split; [done |]. destruct Hcase as [[-> Hall] | (a' & m' & -> & Hle' & Hf)].
    + left. split; [done |]. intros b n Hb Hn. apply elem_of_cons in Hb as [-> | Hb]; [congruence | eauto].
    + right. exists a', m'. split; [done |]. split; [done |]. eapply first_least_cons; [done | done | lia].
Qed.

Lemma find_first h ms typ mode found : mode <> SEARCH_LESSEQUAL -> msgs_in h ms -> exists r, find_msg h ms typ mode found = Some r /\
  (r = found /\ (forall a m, a ∈ ms -> h !! a = Some m -> testmsg m typ mode = false) \/
   exists pre a m post, r = Some a /\ ms = pre ++ a :: post /\ h !! a = Some m /\ testmsg m typ mode = true /\ forall b n, b ∈ pre -> h !! b = Some n -> testmsg n typ mode = false).
Proof.
  intros Hmode. induction ms as [| a ms IH]; intros Hin; cbn [find_msg]. { exists found. split; [done |]. left. split; [done |]. intros a m Ha. by apply elem_of_nil in Ha. }
  apply msgs_in_cons in Hin as [(m & Hm & _) Hin]. rewrite Hm. cbn [mbind option_bind]. destruct (testmsg m typ mode) eqn:Et.
  - exists (Some a). split; [by destruct mode |]. right. exists [], a, m, ms. split; [done |]. split; [done |]. split; [done |]. split; [done |]. intros b n Hb. by apply elem_of_nil in Hb.
  - destruct (IH Hin) as (r & Hr & Hcase). exists r. split; [done |]. destruct Hcase as [[-> Hall] | (pre & a' & m' & post & -> & -> & Ha & Hte & Hpre)].
    + left. split; [done |]. intros b n Hb Hn. apply elem_of_cons in Hb as [-> | Hb]; [congruence | eauto].
    + right. exists (a :: pre), a', m', post. split; [done |]. split; [done |]. split; [done |]. split; [done |]. intros b n Hb Hn. apply elem_of_cons in Hb as [-> | Hb]; [congruence | eauto].
Qed.

(** What the walk of [rcv_try] gives: nothing, or a message on the queue. *)
Lemma find_msg_none h ms typ mode : msgs_in h ms -> exists r, find_msg h ms typ mode None = Some r /\
  match r with None => forall a m, a ∈ ms -> h !! a = Some m -> testmsg m typ mode = false | Some a => a ∈ ms end.
Proof.
  intros Hin. destruct (decide (mode = SEARCH_LESSEQUAL)) as [-> | Hm].
  - destruct (find_least h ms typ None Hin) as (r & E & [[-> H] | (a & m & -> & _ & pre & post & -> & _)]); eexists; (split; [exact E |]); [| set_solver]. intros a m Ha Hm. cbn. specialize (H a m Ha Hm). lia.
  - destruct (find_first h ms typ mode None Hm Hin) as (r & E & [[-> H] | (pre & a & m & post & -> & -> & _)]); eexists; (split; [exact E |]); [done | set_solver].
Qed.

Lemma convert_wanted msgtyp msgflg m : -2147483648 <= msgtyp < 2147483648 -> 1 <= m_type m ->
  testmsg m (convert_mode msgtyp msgflg).1 (convert_mode msgtyp msgflg).2 = wanted msgtyp msgflg m.
Proof.
  intros H Hm. unfold convert_mode, wanted. destruct (Z.eqb_spec msgtyp 0); [done |].
  destruct (Z.ltb_spec msgtyp 0); [| by destruct (flagged MSG_EXCEPT msgflg)].
  destruct (Z.eqb_spec msgtyp (-2147483648)) as [-> |]; cbn [fst snd testmsg negb andb]; [| by rewrite s32_id by lia].
  change (s32 (- -2147483648)) with (-2147483648). lia.
Qed.

(** C20. The search of msgrcv ends with a message exactly if one on the queue is wanted: with a type of 0 the first of all, with a positive type the first of
    that type (or of another one, with MSG_EXCEPT), with a negative one the first of the least type among those up to and including its absolute value (the
    comment of convert_mode leaves the absolute value itself out); with the least long, whose absolute value overflows, none is found. *)
Theorem msgrcv_picks h ms msgtyp msgflg : -2147483648 <= msgtyp < 2147483648 -> msgs_in h ms ->
  exists r, find_msg h ms (convert_mode msgtyp msgflg).1 (convert_mode msgtyp msgflg).2 None = Some r /\
  match r with
  | None => forall a m, a ∈ ms -> h !! a = Some m -> wanted msgtyp msgflg m = false
  | Some a => exists pre m post, ms = pre ++ a :: post /\ h !! a = Some m /\ wanted msgtyp msgflg m = true /\
      if msgtyp <? 0 then (forall b n, b ∈ pre -> h !! b = Some n -> m_type m < m_type n) /\ (forall b n, b ∈ post -> h !! b = Some n -> m_type m <= m_type n)
      else forall b n, b ∈ pre -> h !! b = Some n -> wanted msgtyp msgflg n = false
  end.
Proof.
  intros Ht Hin.
  assert (forall a m, a ∈ ms -> h !! a = Some m -> testmsg m (convert_mode msgtyp msgflg).1 (convert_mode msgtyp msgflg).2 = wanted msgtyp msgflg m) as Hw.
  { intros a m Ha Hm. apply convert_wanted; [done |]. destruct (Hin a Ha) as (m' & Hm' & ?). congruence. }
  destruct (Z.ltb_spec msgtyp 0) as [Hneg | Hpos].
  - assert ((convert_mode msgtyp msgflg).2 = SEARCH_LESSEQUAL) as Ec by (unfold convert_mode; by rewrite (proj2 (Z.eqb_neq msgtyp 0)), (proj2 (Z.ltb_lt msgtyp 0)) by lia).
    rewrite Ec in *. destruct (find_least h ms (convert_mode msgtyp msgflg).1 None Hin) as (r & -> & Hcase). exists r. split; [done |]. destruct Hcase as [[-> H] | (a & m & -> & Hle & pre & post & -> & Ha & H1 & H2)].
    + intros a m Ha Hm. rewrite <- (Hw a) by done. cbn. specialize (H a m Ha Hm). lia.
    + exists pre, m, post. split; [done |]. split; [done |]. split; [rewrite <- (Hw a) by (done || set_solver); cbn; lia | done].
  - assert ((convert_mode msgtyp msgflg).2 <> SEARCH_LESSEQUAL) as Hm. { unfold convert_mode. rewrite (proj2 (Z.ltb_ge msgtyp 0)) by lia. destruct (msgtyp =? 0); [done |]. by destruct (flagged MSG_EXCEPT msgflg). }
    destruct (find_first h ms (convert_mode msgtyp msgflg).1 _ None Hm Hin) as (r & -> & Hcase). exists r. split; [done |]. destruct Hcase as [[-> H] | (pre & a & m & post & -> & -> & Ha & Hte & Hpre)].
    + intros a m Ha Hm'. rewrite <- (Hw a) by done. eauto.
    + exists pre, m, post. split; [done |]. split; [done |]. split; [by rewrite <- (Hw a) by (done || set_solver) |]. intros b n Hb Hn. rewrite <- (Hw b) by (done || set_solver). eauto.
Qed.

(** The absolute value of the least [long] is itself: such a receiver is never served, although every type is below 2^31. *)
Lemma convert_mode_min m : 1 <= m_type m -> testmsg m (convert_mode (-2147483648) 0).1 (convert_mode (-2147483648) 0).2 = false.
Proof. intros H. change (convert_mode (-2147483648) 0) with (-2147483648, SEARCH_LESSEQUAL). cbn [fst snd testmsg]. lia. Qed.

(** ** Examples *)

Lemma load_store_roundtrip_witness : exists r, load_msg (fun _ => true) (Some <$> [7; 8; 9]) 3 = Some r /\ match r with inl _ => False | inr (text, segs) => store_msg (mk_msg 1 3 text segs) 2 10 = Some (Some [7; 8]) end.
Proof.
  destruct (load_store_roundtrip (fun _ => true) (Some <$> [7; 8; 9]) 3 1) as (r & E & H); [lia |]. exists r. split; [exact E |]. destruct r as [e | [text segs]]; [vm_compute in E; discriminate E |]. destruct H as (data & Hd & _ & H). rewrite (H 2 10) by lia. cbn in Hd. destruct data as [| x [| y [| z data]]]; try discriminate Hd. injection Hd as <- <- <- _. reflexivity.
Defined.

Lemma msgrcv_picks_witness : find_msg {[ 1 := mk_msg 5 0 [] []; 2 := mk_msg 3 0 [] []; 3 := mk_msg 4 0 [] [] ]} [1; 2; 3] 4 SEARCH_LESSEQUAL None = Some (Some 2).
Proof.
  destruct (msgrcv_picks {[ 1 := mk_msg 5 0 [] []; 2 := mk_msg 3 0 [] []; 3 := mk_msg 4 0 [] [] ]} [1; 2; 3] (-4) 0) as (r & E & _); [lia | | transitivity (Some r); [exact E | vm_compute in E; injection E as <-; reflexivity]].
  intros a Ha. repeat (apply elem_of_cons in Ha as [-> | Ha]); [by eexists | by eexists | by eexists | by apply elem_of_nil in Ha].
Defined.
