(* ===== verification/MsgSafe.v ===== *)
(** * Message queues: the whole system

    The invariant of the state of Msg.v and that every system call of every task preserves
    it, in every interleaving: [msg_system_safe]. As in SemSafe.v the sections are taken one by
    one; [inv G w] allows for messages [G] that only the running task knows. *)

From stdpp Require Import list gmap.
From S2P Require Import Prelude IpcUtil Msg.

(** ** The invariant *)

Definition held_by_queue (o : option msg_queue) : list Z := match o with Some q => q_messages q | None => [] end.

(** The messages on queues, and those that a sleeping task holds. *)
Definition on_queues (es : list (option msg_queue)) : list Z := es ≫= held_by_queue.

Definition held_by (p : pc) : list Z :=
  match p with Sending _ a _ => [a] | Receiving _ _ _ _ _ (R_msg a) => [a] | Receiving _ _ _ _ _ (R_err _) => [] end.

Definition with_tasks (ps : gmap Z pc) : list Z := map_to_list (held_by <$> ps) ≫= snd.

Definition addresses (h : gmap Z msg_msg) : list Z := (map_to_list h).*1.

Definition size_of (h : gmap Z msg_msg) (a : Z) : Z := match h !! a with Some m => m_ts m | None => 0 end.

Definition bytes (h : gmap Z msg_msg) (ms : list Z) : Z := foldr (fun a n => size_of h a + n) 0 ms.

Definition pc_ptr (p : pc) : Z := match p with Sending ptr _ _ => ptr | Receiving ptr _ _ _ _ _ => ptr end.

Record queue_ok (w : world) (q : msg_queue) : Prop := {
  qo_bytes : q_cbytes q = bytes (heap w) (q_messages q);
  qo_num : q_qnum q = Z.of_nat (length (q_messages q));
  qo_rdup : NoDup (r_tsk <$> q_receivers q);
  qo_rcv : forall r, r ∈ q_receivers q -> exists sz flg, pcs w !! r_tsk r = Some (Receiving (q_ptr q) sz (r_msgtype r) (r_mode r) flg (R_err (- EAGAIN)));
  qo_sdup : NoDup (q_senders q);
  qo_snd : forall t, t ∈ q_senders q -> exists a flg, pcs w !! t = Some (Sending (q_ptr q) a flg);
  qo_match : forall r a m, r ∈ q_receivers q -> a ∈ q_messages q -> heap w !! a = Some m -> testmsg m (r_msgtype r) (r_mode r) = false;
  qo_full : forall t a flg m, t ∈ q_senders q -> t ∉ woken w -> pcs w !! t = Some (Sending (q_ptr q) a flg) -> heap w !! a = Some m -> fits m q = false
}.

Definition pc_ok (w : world) (t : Z) (p : pc) : Prop :=
  match p with
  | Sending ptr a _ =>
      ptr < next_addr w /\ (forall lid q, live (msg_ids w) lid q -> q_ptr q = ptr -> t ∈ q_senders q) /\
      ((forall lid q, live (msg_ids w) lid q -> q_ptr q <> ptr) -> t ∈ woken w)
  | Receiving ptr sz _ _ _ r =>
      0 <= sz /\
      (r = R_err (- EAGAIN) -> exists lid q, live (msg_ids w) lid q /\ q_ptr q = ptr /\ t ∈ r_tsk <$> q_receivers q) /\
      (r <> R_err (- EAGAIN) -> t ∈ woken w)
  end.

Record inv (G : list Z) (w : world) : Prop := {
  i_ids : ids_ok (msg_ids w);
  i_ptr : forall lid q lid' q', live (msg_ids w) lid q -> live (msg_ids w) lid' q' -> q_ptr q = q_ptr q' -> lid = lid';
  i_addr : forall lid q, live (msg_ids w) lid q -> q_ptr q < next_addr w;
  i_heap : forall a m, heap w !! a = Some m -> a < next_addr w /\ msg_ok m /\ 1 <= m_type m;
  i_mem : heap_size (heap w) < 4294967296;
  i_held : on_queues (entries (msg_ids w)) ++ with_tasks (pcs w) ++ G ≡ₚ addresses (heap w);
  i_queue : forall lid q, live (msg_ids w) lid q -> queue_ok w q;
  i_pc : forall t p, pcs w !! t = Some p -> pc_ok w t p;
  i_bytes : u32 (msg_bytes w) = u32 (bytes (heap w) (on_queues (entries (msg_ids w))));
  i_hdrs : u32 (msg_hdrs w) = u32 (Z.of_nat (length (on_queues (entries (msg_ids w)))))
}.

(** ** Arithmetic and lists *)

Lemma u32_eq x y : u32 x = u32 y <-> exists k, x = y + k * 4294967296.
Proof.
  unfold u32. split.
  - intros H. exists (x / 4294967296 - y / 4294967296). pose proof (Z.div_mod x 4294967296 ltac:(lia)). pose proof (Z.div_mod y 4294967296 ltac:(lia)). lia.
  - intros [k ->]. by rewrite Z.mod_add by lia.
Qed.

Lemma u32_off x : exists k, u32 x = x + k * 4294967296.
Proof. apply u32_eq, u32_idemp. Qed.

Lemma u32_s32 x : u32 (s32 x) = u32 x.
Proof. apply u32_eq. unfold s32. destruct (u32_off x) as [k E]. destruct (u32 x <? 2147483648); [exists k | exists (k - 1)]; lia. Qed.

Lemma u32_shift x y d : u32 x = u32 y -> u32 (x + d) = u32 (y + d).
Proof. rewrite !u32_eq. intros [k ->]. exists k. lia. Qed.

Lemma on_queues_insert es i o o' : es !! i = Some o -> on_queues (<[i := o']> es) ++ held_by_queue o ≡ₚ held_by_queue o' ++ on_queues es.
Proof.
  unfold on_queues. revert i. induction es as [| x es IH]; intros [| i] H; [done | done | |]; cbn in *.
  - injection H as ->. rewrite <- app_assoc. by rewrite (Permutation_app_comm (held_by_queue o)).
  - rewrite <- app_assoc, (IH i H). by rewrite !app_assoc, (Permutation_app_comm (held_by_queue x)).
Qed.

Lemma on_queues_none es n : on_queues (es ++ replicate n None) = on_queues es.
Proof. unfold on_queues. rewrite bind_app. assert (replicate n None ≫= held_by_queue = []) as -> by (induction n; done). apply app_nil_r. Qed.

Lemma in_queue es lid q a : es !! lid = Some (Some q) -> a ∈ q_messages q -> a ∈ on_queues es.
Proof. intros H Ha. apply list_elem_of_bind. exists (Some q). split; [done |]. by eapply list_elem_of_lookup_2. Qed.

Lemma with_tasks_insert ps t p : ps !! t = None -> with_tasks (<[t := p]> ps) ≡ₚ held_by p ++ with_tasks ps.
Proof. intros H. unfold with_tasks. rewrite fmap_insert, map_to_list_insert by (by rewrite lookup_fmap, H). done. Qed.

Lemma with_tasks_delete ps t p : ps !! t = Some p -> with_tasks ps ≡ₚ held_by p ++ with_tasks (delete t ps).
Proof. intros H. rewrite <- with_tasks_insert by apply lookup_delete_eq. by rewrite insert_delete_id. Qed.

Lemma with_tasks_same ps ps' : (forall t, held_by <$> ps' !! t = held_by <$> ps !! t) -> with_tasks ps' = with_tasks ps.
Proof. intros H. unfold with_tasks. assert (held_by <$> ps' = held_by <$> ps) as -> by (apply map_eq; intros t; rewrite !lookup_fmap; apply H). done. Qed.

Lemma in_task ps t p a : ps !! t = Some p -> a ∈ held_by p -> a ∈ with_tasks ps.
Proof. intros H Ha. rewrite (with_tasks_delete ps t p H). set_solver. Qed.

Lemma addresses_insert h a m : h !! a = None -> addresses (<[a := m]> h) ≡ₚ a :: addresses h.
Proof. intros H. unfold addresses. by rewrite map_to_list_insert by done. Qed.

Lemma addresses_delete h a m : h !! a = Some m -> addresses h ≡ₚ a :: addresses (delete a h).
Proof. intros H. rewrite <- (addresses_insert (delete a h) a m) by apply lookup_delete_eq. by rewrite insert_delete_id. Qed.

Lemma addresses_elem h a : a ∈ addresses h <-> is_Some (h !! a).
Proof.
  unfold addresses. rewrite list_elem_of_fmap. split; [intros ([b m] & -> & Hb%elem_of_map_to_list); by eexists | intros [m Hm]; exists (a, m); split; [done |]; by apply elem_of_map_to_list].
Qed.

Lemma addresses_nodup h : NoDup (addresses h).
Proof. apply NoDup_fst_map_to_list. Qed.

Lemma bytes_app h l1 l2 : bytes h (l1 ++ l2) = bytes h l1 + bytes h l2.
Proof. unfold bytes. induction l1 as [| a l1 IH]; cbn; [done | lia]. Qed.

Lemma bytes_perm h l1 l2 : l1 ≡ₚ l2 -> bytes h l1 = bytes h l2.
Proof. unfold bytes. induction 1; cbn; lia. Qed.

Lemma bytes_ext h h' l : (forall a, a ∈ l -> h' !! a = h !! a) -> bytes h' l = bytes h l.
Proof. unfold bytes, size_of. induction l as [| a l IH]; intros H; cbn; [done |]. rewrite (H a ltac:(by left)), IH; [done |]. intros b Hb. apply H. by right. Qed.

Lemma heap_size_eq h : heap_size h = bytes h (addresses h) + 24 * Z.of_nat (length (addresses h)).
Proof.
  unfold heap_size, addresses, bytes. assert (forall l, (forall a m, (a, m) ∈ l -> h !! a = Some m) -> foldr (fun am n => 24 + m_ts am.2 + n) 0 l = foldr (fun a n => size_of h a + n) 0 l.*1 + 24 * Z.of_nat (length l.*1)) as H.
  { induction l as [| [a m] l IH]; intros Hl; cbn [foldr fmap list_fmap length fst snd]; [done |]. rewrite IH by (intros b n Hb; apply Hl; by right). assert (size_of h a = m_ts m) as -> by (unfold size_of; by rewrite (Hl a m) by (by left)). cbn [fst snd]. lia. }
  apply H. intros a m. apply elem_of_map_to_list.
Qed.

(** ** Changing the state *)

Lemma held_nodup G w : inv G w -> NoDup (on_queues (entries (msg_ids w)) ++ with_tasks (pcs w) ++ G).
Proof. intros I. rewrite (i_held _ _ I). apply addresses_nodup. Qed.

Lemma held_in_heap G w a : inv G w -> a ∈ on_queues (entries (msg_ids w)) ++ with_tasks (pcs w) ++ G -> exists m, heap w !! a = Some m.
Proof. intros I Ha. rewrite (i_held _ _ I) in Ha. by apply addresses_elem in Ha. Qed.

Lemma queue_in_heap G w lid q a : inv G w -> live (msg_ids w) lid q -> a ∈ q_messages q -> exists m, heap w !! a = Some m.
Proof. intros I L Ha. eapply held_in_heap; [done |]. apply elem_of_app. left. by eapply in_queue. Qed.

Lemma queue_msgs_in G w lid q : inv G w -> live (msg_ids w) lid q -> msgs_in (heap w) (q_messages q).
Proof. intros I L a Ha. destruct (queue_in_heap _ _ _ _ _ I L Ha) as [m Hm]. exists m. split; [done |]. apply (i_heap _ _ I a m Hm). Qed.

(** Tasks that are in no call, or in one on the queue [q]. *)
Definition near (w : world) (q : msg_queue) (t : Z) : Prop := forall p, pcs w !! t = Some p -> pc_ptr p = q_ptr q.

Lemma far_task G w q lid q2 lid2 t : inv G w -> live (msg_ids w) lid q -> live (msg_ids w) lid2 q2 -> lid2 <> lid -> near w q t -> t ∉ r_tsk <$> q_receivers q2 /\ t ∉ q_senders q2.
Proof.
  intros I L L2 Hne Hn. pose proof (i_queue _ _ I _ _ L2) as Q. assert (q_ptr q2 <> q_ptr q) as Hp by (intros E; apply Hne; by eapply i_ptr).
  split; [intros (r & -> & Hr)%list_elem_of_fmap; destruct (qo_rcv _ _ Q r Hr) as (sz & flg & Hpc) | intros Ht; destruct (qo_snd _ _ Q t Ht) as (a & flg & Hpc)]; apply Hn in Hpc; cbn in Hpc; congruence.
Qed.

(** A queue that is not touched. *)
Lemma queue_ok_other w w' q2 : queue_ok w q2 -> (forall a, a ∈ q_messages q2 -> heap w' !! a = heap w !! a) ->
  (forall t, t ∈ r_tsk <$> q_receivers q2 \/ t ∈ q_senders q2 -> pcs w' !! t = pcs w !! t /\ (t ∈ woken w -> t ∈ woken w')) ->
  (forall t a flg m, t ∈ q_senders q2 -> pcs w !! t = Some (Sending (q_ptr q2) a flg) -> heap w' !! a = Some m -> heap w !! a = Some m) -> queue_ok w' q2.
Proof.
  intros [Q1 Q2 Q3 Q4 Q5 Q6 Q7 Q8] Hh Ht Hs. constructor; try done.
  - rewrite (bytes_ext _ _ _ Hh). done.
  - intros r Hr. destruct (Ht (r_tsk r)) as [-> _]; [left; apply list_elem_of_fmap; eauto | eauto].
  - intros t Hin. destruct (Ht t) as [-> _]; eauto.
  - intros r a m Hr Ha. rewrite (Hh a Ha). eauto.
  - intros t a flg m Hin Hw Hp Hm. destruct (Ht t) as [E Hwk]; [by right |]. rewrite E in Hp. eapply Q8; [done | tauto | done | by eapply Hs].
Qed.

Lemma live_store w lid q q' : ids_ok (msg_ids w) -> live (msg_ids w) lid q -> p_seq (q_perm q') = p_seq (q_perm q) -> deleted (q_perm q') = false ->
  ids_ok (msg_ids (store lid q' w)) /\ (forall i b, live (msg_ids (store lid q' w)) i b <-> (i = lid /\ b = q') \/ (i <> lid /\ live (msg_ids w) i b)) /\ entries (msg_ids (store lid q' w)) = <[lid := Some q']> (entries (msg_ids w)).
Proof.
  intros Ok L Hs Hd. destruct (live_range _ _ _ Ok L) as [Hl _]. pose proof (place_small lid ltac:(lia)) as P. destruct (ipc_store_spec (msg_ids w) (Z.of_nat lid) q q' Ok) as [K Lv]; [by rewrite P | done | done |]. rewrite P in Lv. split; [done |]. split; [done |]. cbn. unfold place in P. by rewrite P.
Qed.

(** One queue and the tasks [T] on it change. *)
Lemma inv_change G G' w w' lid q q' (T : gset Z) : inv G w -> live (msg_ids w) lid q -> p_seq (q_perm q') = p_seq (q_perm q) -> deleted (q_perm q') = false -> q_ptr q' = q_ptr q ->
  msg_ids w' = msg_ids (store lid q' w) -> heap w' = heap w -> next_addr w' = next_addr w ->
  (forall t, t ∉ T -> pcs w' !! t = pcs w !! t /\ (t ∈ woken w -> t ∈ woken w') /\ (t ∈ q_senders q -> t ∈ q_senders q') /\ (t ∈ r_tsk <$> q_receivers q -> t ∈ r_tsk <$> q_receivers q')) ->
  (forall t, t ∈ T -> near w q t) -> (forall t p, t ∈ T -> pcs w' !! t = Some p -> pc_ok w' t p) -> queue_ok w' q' ->
  q_messages q' ++ with_tasks (pcs w') ++ G' ≡ₚ q_messages q ++ with_tasks (pcs w) ++ G ->
  u32 (msg_bytes w') = u32 (msg_bytes w + (bytes (heap w) (q_messages q') - bytes (heap w) (q_messages q))) ->
  u32 (msg_hdrs w') = u32 (msg_hdrs w + (Z.of_nat (length (q_messages q')) - Z.of_nat (length (q_messages q)))) -> inv G' w'.
Proof.
  intros I L Hs Hd Hp Ei Eh En Ht Hn Hpc Hq Hm Hb Hh. destruct (live_store w lid q q' (i_ids _ _ I) L Hs Hd) as (Ok & Lv & Ee). rewrite <- Ei in Ok, Lv, Ee.
  pose proof (on_queues_insert _ _ _ (Some q') L) as P. rewrite <- Ee in P. cbn [held_by_queue] in P. constructor; try done.
  - intros i b i' b' Lb Lb' E. apply Lv in Lb, Lb'. destruct Lb as [[-> ->] | [Hi Lb]], Lb' as [[-> ->] | [Hi' Lb']]; [done | | | by eapply (i_ptr _ _ I)]; rewrite Hp in E; [by eapply (i_ptr _ _ I) | by eapply (i_ptr _ _ I)].
  - intros i b Lb. apply Lv in Lb. rewrite En. destruct Lb as [[-> ->] | [Hi Lb]]; [rewrite Hp |]; by eapply (i_addr _ _ I).
  - intros a m. rewrite Eh, En. apply (i_heap _ _ I).
  - rewrite Eh. apply (i_mem _ _ I).
  - rewrite Eh, <- (i_held _ _ I). apply (Permutation_app_inv_l (q_messages q)). rewrite app_assoc, (Permutation_app_comm (q_messages q) (on_queues _)), P, <- app_assoc, (app_assoc (q_messages q')), (Permutation_app_comm (q_messages q') (on_queues _)), <- app_assoc, Hm.
    by rewrite app_assoc, (Permutation_app_comm (on_queues _) (q_messages q)), <- app_assoc.
  - intros i b Lb. apply Lv in Lb as [[-> ->] | [Hi Lb]]; [done |]. apply (queue_ok_other w); [by eapply (i_queue _ _ I) | by rewrite Eh | | by rewrite Eh]. intros t Hor.
    assert (t ∉ T) as HT. { intros HT. destruct (far_task _ _ _ _ _ _ t I L Lb Hi (Hn t HT)). tauto. } destruct (Ht t HT) as (? & ? & _). done.
  - intros t p Hpt. destruct (decide (t ∈ T)) as [HT | HT]; [by apply Hpc |]. destruct (Ht t HT) as (E1 & E2 & E3 & E4). rewrite E1 in Hpt. pose proof (i_pc _ _ I t p Hpt) as K. destruct p as [ptr a flg | ptr sz typ mode flg r]; cbn in K |- *.
    + destruct K as (K1 & K2 & K3). rewrite En. split; [done |]. split.
      * intros i b Lb Eb. apply Lv in Lb as [[-> ->] | [Hi Lb]]; [apply E3, (K2 lid q L); congruence | by apply (K2 i b)].
      * intros Hno. apply E2, K3. intros i b Lb Eb. destruct (decide (i = lid)) as [-> | Hi]; [| by apply (Hno i b); [apply Lv; right |]]. assert (b = q) as -> by (unfold live in *; congruence). apply (Hno lid q'); [apply Lv; by left | congruence].
    + destruct K as (K1 & K2 & K3). split; [done |]. split; [| intros H; by apply E2, K3]. intros H. destruct (K2 H) as (i & b & Lb & Eb & Hin). destruct (decide (i = lid)) as [-> | Hi].
      * assert (b = q) as -> by (unfold live in *; congruence). exists lid, q'. split; [apply Lv; by left |]. split; [congruence | by apply E4].
      * exists i, b. split; [apply Lv; by right | done].
  - rewrite Hb, Eh. apply (bytes_perm (heap w)) in P. rewrite !bytes_app in P. rewrite (u32_shift _ _ _ (i_bytes _ _ I)). f_equal. lia.
  - rewrite Hh. apply Permutation_length in P. rewrite !length_app in P. rewrite (u32_shift _ _ _ (i_hdrs _ _ I)). f_equal. lia.
Qed.

Lemma u32_keep x n : u32 x = u32 (x + (n - n)).
Proof. f_equal. lia. Qed.

Lemma inv_perm G G' w : inv G w -> G ≡ₚ G' -> inv G' w.
Proof. intros I P. destruct I. constructor; try done. by rewrite <- P. Qed.

Lemma bytes_nonneg G w l : inv G w -> 0 <= bytes (heap w) l.
Proof.
  intros I. unfold bytes. induction l as [| a l IH]; cbn; [done |]. unfold size_of at 1. destruct (heap w !! a) as [m |] eqn:E; [| done]. destruct (i_heap _ _ I a m E) as (_ & [H _] & _). lia.
Qed.

(** Messages that are held in different places have room beside each other. *)
Lemma held_bound G w l1 l2 : inv G w -> on_queues (entries (msg_ids w)) ++ with_tasks (pcs w) ++ G ≡ₚ l1 ++ l2 -> bytes (heap w) l1 + 24 * Z.of_nat (length l1) < 4294967296.
Proof.
  intros I P. pose proof (i_mem _ _ I) as M. rewrite heap_size_eq, <- (bytes_perm _ _ _ (i_held _ _ I)), <- (Permutation_length (i_held _ _ I)), (bytes_perm _ _ _ P), (Permutation_length P), bytes_app, length_app in M. pose proof (bytes_nonneg _ _ l2 I). lia.
Qed.

Lemma inv_new_msg G w m : inv G w -> msg_ok m -> 1 <= m_type m -> heap_size (heap w) + 24 + m_ts m < 4294967296 ->
  inv (next_addr w :: G) (set_next (next_addr w + 1) (set_heap (<[next_addr w := m]> (heap w)) w)).
Proof.
  intros I Hm Ht Hs. set (a := next_addr w). assert (heap w !! a = None) as Hf. { destruct (heap w !! a) as [n |] eqn:E; [| done]. destruct (i_heap _ _ I a n E). lia. }
  assert (forall b, is_Some (heap w !! b) -> <[a := m]> (heap w) !! b = heap w !! b) as Hold. { intros b [n Hn]. apply lookup_insert_ne. congruence. }
  assert (forall b, b ∈ on_queues (entries (msg_ids w)) -> <[a := m]> (heap w) !! b = heap w !! b) as Hq. { intros b Hb. apply Hold. destruct (held_in_heap _ _ b I) as [n ->]; [apply elem_of_app; by left | by eexists]. }
  pose proof I as I0. destruct I as [I1 I2 I3 I4 I5 I6 I7 I8 I9 I10]. constructor; cbn; try done.
  - intros lid q L. specialize (I3 lid q L). lia.
  - intros b n. rewrite lookup_insert. case_decide; [intros [= <-]; subst b; split; [lia | done] |]. intros Hn. destruct (I4 b n Hn). split; [lia | done].
  - rewrite heap_size_eq, (bytes_perm _ _ _ (addresses_insert _ _ m Hf)), (Permutation_length (addresses_insert _ _ m Hf)). rewrite heap_size_eq in Hs. cbn [bytes foldr length]. unfold size_of at 1. rewrite lookup_insert_eq.
    fold (bytes (<[a := m]> (heap w)) (addresses (heap w))). rewrite (bytes_ext (heap w)) by (intros b Hb%addresses_elem; by apply Hold). lia.
  - rewrite (addresses_insert _ _ m Hf), <- I6. rewrite !app_assoc, <- Permutation_middle. done.
  - intros lid q L. apply (queue_ok_other w); [by eapply I7 | | done |].
    + intros b Hb. apply Hq. by eapply in_queue.
    + intros t b flg n Ht' Hp. cbn. rewrite Hold; [done |]. destruct (held_in_heap _ _ b I0) as [k ->]; [| by eexists]. apply elem_of_app. right. apply elem_of_app. left. eapply in_task; [exact Hp | cbn; set_solver].
  - intros t p Hp. specialize (I8 t p Hp). destruct p; cbn in *; [| done]. destruct I8 as (? & ?). split; [lia | done].
  - rewrite I9. f_equal. symmetry. by apply bytes_ext.
Qed.

Lemma msg_inv_free G w a : inv (a :: G) w -> free_msg a w = Some (set_heap (delete a (heap w)) w) /\ inv G (set_heap (delete a (heap w)) w).
Proof.
  intros I. destruct (held_in_heap _ _ a I) as [m Hm]; [set_solver |]. split; [unfold free_msg; by rewrite Hm |]. pose proof (held_nodup _ _ I) as N. rewrite !app_assoc, <- Permutation_middle in N. apply NoDup_cons in N as [Na N].
  assert (forall b, b ∈ on_queues (entries (msg_ids w)) ++ with_tasks (pcs w) -> delete a (heap w) !! b = heap w !! b) as Hother. { intros b Hb. apply lookup_delete_ne. intros ->. apply Na. rewrite elem_of_app. by left. }
  pose proof (i_held _ _ I) as P. rewrite (addresses_delete _ _ _ Hm), !app_assoc, <- Permutation_middle in P. apply Permutation_cons_inv in P. rewrite <- !app_assoc in P.
  assert (bytes (delete a (heap w)) (on_queues (entries (msg_ids w))) = bytes (heap w) (on_queues (entries (msg_ids w)))) as Hb by (apply bytes_ext; intros b Hb; apply Hother, elem_of_app; by left).
  pose proof (i_mem _ _ I) as M. rewrite heap_size_eq, (bytes_perm _ _ _ (addresses_delete _ _ _ Hm)), (Permutation_length (addresses_delete _ _ _ Hm)) in M. pose proof (bytes_nonneg _ _ [a] I) as Hpos. pose proof I as [I1 I2 I3 I4 I5 I6 I7 I8 I9 I10]. constructor; cbn; try done.
  - intros b n [_ Hn]%lookup_delete_Some. by apply I4.
  - rewrite heap_size_eq. rewrite (bytes_ext (heap w)) by (intros b Hb'%addresses_elem; destruct Hb' as [n [Hne Hn]%lookup_delete_Some]; by rewrite lookup_delete_ne). cbn in M, Hpos. unfold bytes in *. lia.
  - intros lid q L. apply (queue_ok_other w); [by eapply I7 | | done |].
    + intros b Hb'. apply Hother, elem_of_app. left. by eapply in_queue.
    + intros t b flg n Ht' Hp. cbn. by intros [_ Hn]%lookup_delete_Some.
  - by rewrite Hb.
Qed.

(** ** Leaving a call *)

Lemma leave_id t w : pcs w !! t = None -> leave t w = w.
Proof. intros H. unfold leave, set_pcs. rewrite delete_id by done. by destruct w. Qed.

Lemma inv_leave_call G w t p : inv G w -> pcs w !! t = Some p -> (forall lid q, live (msg_ids w) lid q -> t ∉ r_tsk <$> q_receivers q /\ t ∉ q_senders q) -> inv (held_by p ++ G) (leave t w).
Proof.
  intros I Hp Hno. pose proof I as [I1 I2 I3 I4 I5 I6 I7 I8 I9 I10]. constructor; cbn; try done.
  - rewrite (with_tasks_delete _ _ _ Hp) in I6. rewrite <- I6. by rewrite !app_assoc, <- (app_assoc _ (with_tasks _) (held_by p)), (Permutation_app_comm (with_tasks _) (held_by p)), !app_assoc.
  - intros lid q L. destruct (Hno lid q L) as [H1 H2]. apply (queue_ok_other w); [by eapply I7 | done | | done]. intros t' Ht'. cbn. rewrite lookup_delete_ne; [done |]. intros ->. tauto.
  - intros t' p' [_ Hp']%lookup_delete_Some. by apply I8.
Qed.

(** ** A queue with fewer tasks *)

Lemma queue_ok_sub w w' q q' : queue_ok w q -> heap w' = heap w -> q_messages q' = q_messages q -> q_cbytes q' = q_cbytes q -> q_qnum q' = q_qnum q -> q_qbytes q' = q_qbytes q -> q_ptr q' = q_ptr q ->
  sublist (q_receivers q') (q_receivers q) -> sublist (q_senders q') (q_senders q) ->
  (forall t, t ∈ r_tsk <$> q_receivers q' \/ t ∈ q_senders q' -> pcs w' !! t = pcs w !! t /\ (t ∈ woken w -> t ∈ woken w')) -> queue_ok w' q'.
Proof.
  intros [Q1 Q2 Q3 Q4 Q5 Q6 Q7 Q8] Eh Em Ec En Eb Ep Sr Ss Ht. assert (forall r, r ∈ q_receivers q' -> r ∈ q_receivers q) as Ir by (intros r Hr; eapply elem_of_submseteq; [exact Hr | by apply sublist_submseteq]). assert (forall t, t ∈ q_senders q' -> t ∈ q_senders q) as Is by (intros t Hr; eapply elem_of_submseteq; [exact Hr | by apply sublist_submseteq]). constructor.
  - by rewrite Ec, Eh, Em.
  - by rewrite En, Em.
  - eapply sublist_NoDup; [exact Q3 | by apply fmap_sub].
  - intros r Hr. destruct (Ht (r_tsk r)) as [-> _]; [left; apply list_elem_of_fmap; eauto |]. rewrite Ep. eauto.
  - by eapply sublist_NoDup.
  - intros t Hin. destruct (Ht t) as [-> _]; [by right |]. rewrite Ep. eauto.
  - intros r a m Hr. rewrite Em, Eh. eauto.
  - intros t a flg m Hin Hw Hp Hm. destruct (Ht t) as [E Hwk]; [by right |]. rewrite E, Ep in Hp. rewrite Eh in Hm. unfold fits. rewrite Ec, En, Eb. eapply (Q8 t); [auto | tauto | done | done].
Qed.

Lemma not_sender w q t p : queue_ok w q -> pcs w !! t = Some p -> (forall a flg, p <> Sending (q_ptr q) a flg) -> t ∉ q_senders q.
Proof. intros Q Hp Hn Ht. destruct (qo_snd _ _ Q t Ht) as (a & flg & E). rewrite Hp in E. injection E as ->. by eapply Hn. Qed.

Lemma not_receiver w q t p : queue_ok w q -> pcs w !! t = Some p -> (forall sz typ mode flg, p <> Receiving (q_ptr q) sz typ mode flg (R_err (- EAGAIN))) -> t ∉ r_tsk <$> q_receivers q.
Proof. intros Q Hp Hn (r & -> & Hr)%list_elem_of_fmap. destruct (qo_rcv _ _ Q r Hr) as (sz & flg & E). rewrite Hp in E. injection E as ->. by eapply Hn. Qed.

Lemma not_on_queue w q t : queue_ok w q -> pcs w !! t = None -> t ∉ r_tsk <$> q_receivers q /\ t ∉ q_senders q.
Proof.
  intros Q Hn. split; [intros (r & -> & Hr)%list_elem_of_fmap; destruct (qo_rcv _ _ Q r Hr) as (? & ? & ?) | intros Ht; destruct (qo_snd _ _ Q t Ht) as (? & ? & ?)]; congruence.
Qed.

(** The identity of a queue and the fields that only report what happened. *)
Definition same_queue (q q' : msg_queue) : Prop :=
  q_ptr q' = q_ptr q /\ p_seq (q_perm q') = p_seq (q_perm q) /\ deleted (q_perm q') = deleted (q_perm q).

Lemma live_deleted G w lid q : inv G w -> live (msg_ids w) lid q -> deleted (q_perm q) = false.
Proof. intros I L. destruct (i_ids _ _ I) as (_ & _ & _ & _ & _ & _ & _ & H). by apply (H lid q). Qed.

Lemma inv_report G w lid q q' : inv G w -> live (msg_ids w) lid q -> same_queue q q' -> q_messages q' = q_messages q -> q_cbytes q' = q_cbytes q -> q_qnum q' = q_qnum q -> q_qbytes q' = q_qbytes q -> q_receivers q' = q_receivers q -> q_senders q' = q_senders q -> inv G (store lid q' w).
Proof.
  intros I L (Ep & Es & Ed) Em Ec En Eb Er Esn. eapply (inv_change G G w _ lid q q' ∅); [done | done | done | rewrite Ed; by eapply live_deleted | done | done | done | done | | set_solver | set_solver | | | rewrite Em; apply u32_keep | rewrite Em; apply u32_keep].
  - intros t _. rewrite Er, Esn. done.
  - eapply queue_ok_sub; [by eapply (i_queue _ _ I) | done | done | done | done | done | done | by rewrite Er | by rewrite Esn | done].
  - by rewrite Em.
Qed.

(** A sender takes itself off the list and has its message in hand. *)
Lemma inv_snd_del G w lid q t a flg : inv G w -> live (msg_ids w) lid q -> pcs w !! t = Some (Sending (q_ptr q) a flg) ->
  inv (a :: G) (leave t (store lid (set_senders (filter (fun x => x <> t) (q_senders q)) q) w)).
Proof.
  intros I L Hp. pose proof (i_queue _ _ I _ _ L) as Q. pose proof (not_receiver _ _ _ _ Q Hp ltac:(done)) as Hnr. eapply (inv_change G _ w _ lid q (set_senders (filter (fun x => x <> t) (q_senders q)) q) {[t]}); try done; [exact (live_deleted _ _ _ _ I L) | | | | | | apply u32_keep | apply u32_keep].
  - intros t' Ht'. assert (t <> t') by set_solver. cbn. rewrite lookup_delete_ne by done. split; [done |]. split; [done |]. split; [| done]. intros Hin. apply list_elem_of_filter. auto.
  - intros t' ->%elem_of_singleton p. rewrite Hp. by intros [= <-].
  - intros t' p ->%elem_of_singleton. cbn. by rewrite lookup_delete_eq.
  - eapply queue_ok_sub; [done | done | done | done | done | done | done | done | cbn; apply sublist_filter |]. cbn. intros t' Ht'. rewrite lookup_delete_ne; [done |]. intros <-. destruct Ht' as [? | Hf]; [done |]. apply list_elem_of_filter in Hf. naive_solver.
  - cbn. rewrite (with_tasks_delete _ _ _ Hp). cbn. apply Permutation_app_head. by rewrite <- Permutation_middle.
Qed.

(** A receiver takes itself off the list. *)
Lemma inv_rcv_del G w lid q t sz typ mode flg : inv G w -> live (msg_ids w) lid q -> pcs w !! t = Some (Receiving (q_ptr q) sz typ mode flg (R_err (- EAGAIN))) ->
  inv G (leave t (store lid (set_receivers (filter (fun r => r_tsk r <> t) (q_receivers q)) q) w)).
Proof.
  intros I L Hp. pose proof (i_queue _ _ I _ _ L) as Q. pose proof (not_sender _ _ _ _ Q Hp ltac:(done)) as Hns. eapply (inv_change G _ w _ lid q (set_receivers (filter (fun r => r_tsk r <> t) (q_receivers q)) q) {[t]}); try done; [exact (live_deleted _ _ _ _ I L) | | | | | | apply u32_keep | apply u32_keep].
  - intros t' Ht'. assert (t <> t') by set_solver. cbn. rewrite lookup_delete_ne by done. split; [done |]. split; [done |]. split; [done |]. intros (r & -> & Hr)%list_elem_of_fmap. apply list_elem_of_fmap. exists r. split; [done |]. apply list_elem_of_filter. auto.
  - intros t' ->%elem_of_singleton p. rewrite Hp. by intros [= <-].
  - intros t' p ->%elem_of_singleton. cbn. by rewrite lookup_delete_eq.
  - eapply queue_ok_sub; [done | done | done | done | done | done | done | cbn; apply sublist_filter | done |]. cbn. intros t' Ht'. rewrite lookup_delete_ne; [done |]. intros <-. destruct Ht' as [Hf | ?]; [| done]. apply list_elem_of_fmap in Hf as (r & Er & Hr). apply list_elem_of_filter in Hr. naive_solver.
  - cbn. by rewrite (with_tasks_delete _ _ _ Hp).
Qed.

(** ** Sending *)

Lemma store_store lid x y w ps wk b h : store lid x (set_counts b h (set_pcs ps (set_woken wk (store lid y w)))) = store lid x (set_counts b h (set_pcs ps (set_woken wk w))).
Proof. unfold store, ipc_store, set_ids. cbn. by rewrite list_insert_insert_eq. Qed.

Lemma store_twice lid x y w : store lid x (store lid y w) = store lid x w.
Proof. unfold store, ipc_store, set_ids. cbn. by rewrite list_insert_insert_eq. Qed.

(** A receiver on the list is given an error, or a message that the running task holds. *)
Lemma inv_drop_receiver G G' w lid q l1 r l2 res : inv G w -> live (msg_ids w) lid q -> q_receivers q = l1 ++ r :: l2 -> res <> R_err (- EAGAIN) ->
  G ≡ₚ (match res with R_msg a => [a] | R_err _ => [] end) ++ G' ->
  exists w1, set_r_msg (r_tsk r) res (wake_task (r_tsk r) w) = Some w1 /\ msg_ids w1 = msg_ids w /\ heap w1 = heap w /\ msg_bytes w1 = msg_bytes w /\ msg_hdrs w1 = msg_hdrs w /\ next_addr w1 = next_addr w /\
    (forall t, pcs w !! t = None -> pcs w1 !! t = None) /\ (exists ps wk, w1 = set_pcs ps (set_woken wk w)) /\ inv G' (store lid (set_receivers (l1 ++ l2) q) w1).
Proof.
  intros I L Er Hres HG. pose proof (i_queue _ _ I _ _ L) as Q. destruct (qo_rcv _ _ Q r) as (sz & flg & Hp); [rewrite Er; set_solver |]. unfold set_r_msg. change (pcs (wake_task (r_tsk r) w)) with (pcs w). rewrite Hp. eexists. split; [done |]. do 5 (split; [done |]).
  split. { intros t Ht. cbn. rewrite lookup_insert_ne; [done |]. congruence. } split. { eexists _, _. unfold wake_task. reflexivity. }
  pose proof (qo_rdup _ _ Q) as N. rewrite Er, fmap_app in N. cbn in N. assert (r_tsk r ∉ r_tsk <$> (l1 ++ l2)) as Hnr. { rewrite fmap_app. apply NoDup_app in N as (_ & N1 & N2). apply NoDup_cons in N2 as [N2 _]. rewrite elem_of_app. intros [H | H]; [by apply (N1 (r_tsk r) H); left | done]. }
  pose proof (not_sender _ _ _ _ Q Hp ltac:(done)) as Hns. eapply (inv_change G _ w _ lid q (set_receivers (l1 ++ l2) q) {[r_tsk r]}); try done; [exact (live_deleted _ _ _ _ I L) | | | | | | apply u32_keep | apply u32_keep].
  - intros t Ht. assert (r_tsk r <> t) by set_solver. cbn. rewrite lookup_insert_ne by done. split; [done |]. split; [set_solver |]. split; [done |]. rewrite Er, !fmap_app. cbn. set_solver.
  - intros t ->%elem_of_singleton p. rewrite Hp. by intros [= <-].
  - intros t p ->%elem_of_singleton. cbn. rewrite lookup_insert_eq. intros [= <-]. cbn. pose proof (i_pc _ _ I _ _ Hp) as (K & _). split; [done |]. split; [done |]. set_solver.
  - eapply queue_ok_sub; [done | done | done | done | done | done | done | | done |]; cbn; [rewrite Er; apply sublist_app; [done | by apply sublist_cons] |]. intros t Ht. rewrite lookup_insert_ne; [set_solver |]. intros <-. tauto.
  - cbn. rewrite <- insert_delete_eq, with_tasks_insert by apply lookup_delete_eq. rewrite (with_tasks_delete _ _ _ Hp), HG. cbn. destruct res as [e | a]; cbn; [done |]. apply Permutation_app_head. by rewrite <- Permutation_middle.
Qed.

Lemma pipelined_ok lid a m now G : forall rs kept q0 q w, ids_ok (msg_ids w) -> live (msg_ids w) lid q0 -> same_queue q0 q -> deleted (q_perm q) = false ->
  inv (a :: G) (store lid (set_receivers (kept ++ rs) q) w) -> (forall r, r ∈ kept -> testmsg m (r_msgtype r) (r_mode r) = false) ->
  exists sent q' w', pipelined_loop rs kept a m now q w = Some (sent, q', w') /\ msg_ids w' = msg_ids w /\ heap w' = heap w /\ msg_bytes w' = msg_bytes w /\ msg_hdrs w' = msg_hdrs w /\
    same_queue q q' /\ q_messages q' = q_messages q /\ q_cbytes q' = q_cbytes q /\ q_qnum q' = q_qnum q /\ (forall t, pcs w !! t = None -> pcs w' !! t = None) /\
    if (sent : bool) then inv G (store lid q' w') else inv (a :: G) (store lid q' w') /\ forall r, r ∈ q_receivers q' -> testmsg m (r_msgtype r) (r_mode r) = false.
Proof.
  induction rs as [| r rs IH]; intros kept q0 q w Ok L0 S0 Hd I Hk; cbn [pipelined_loop].
  { rewrite app_nil_r in I. eexists _, _, _. split; [done |]. do 9 (split; [done |]). done. }
  set (Q := set_receivers (kept ++ r :: rs) q) in *. destruct S0 as (Sp & Ss & Sd). destruct (live_store w lid q0 Q Ok L0) as (_ & Lv & _); [done | done |]. assert (live (msg_ids (store lid Q w)) lid Q) as LQ by (apply Lv; by left).
  assert (forall res G', res <> R_err (- EAGAIN) -> a :: G ≡ₚ (match res with R_msg a => [a] | R_err _ => [] end) ++ G' ->
    exists w1, set_r_msg (r_tsk r) res (wake_task (r_tsk r) w) = Some w1 /\ msg_ids w1 = msg_ids w /\ heap w1 = heap w /\ msg_bytes w1 = msg_bytes w /\ msg_hdrs w1 = msg_hdrs w /\ (forall t, pcs w !! t = None -> pcs w1 !! t = None) /\
      inv G' (store lid (set_receivers (kept ++ rs) q) w1)) as Hdrop.
  { intros res G' Hres HG. destruct (inv_drop_receiver _ G' _ lid Q kept r rs res I LQ eq_refl Hres HG) as (w1 & E & _ & _ & _ & _ & _ & Hn & (ps & wk & Ew) & I1). subst w1. exists (set_pcs ps (set_woken wk w)).
    assert (store lid (set_receivers (kept ++ rs) Q) (set_pcs ps (set_woken wk (store lid Q w))) = store lid (set_receivers (kept ++ rs) q) (set_pcs ps (set_woken wk w))) as Est.
    { pose proof (store_store lid (set_receivers (kept ++ rs) Q) Q w ps wk (msg_bytes w) (msg_hdrs w)) as E1. exact E1. } rewrite Est in I1. split; [| done].
    unfold set_r_msg in E |- *. change (pcs (wake_task (r_tsk r) (store lid Q w))) with (pcs w) in E. change (pcs (wake_task (r_tsk r) w)) with (pcs w). destruct (pcs w !! r_tsk r) as [[] |]; try done. injection E as E1 E2. unfold set_pcs, set_woken, wake_task. cbn. by rewrite E1, E2. }
  destruct (testmsg m (r_msgtype r) (r_mode r)) eqn:Et.
  - destruct (r_maxsize r <? m_ts m).
    + destruct (Hdrop (R_err (- E2BIG)) (a :: G) ltac:(done) ltac:(done)) as (w1 & -> & Ei & Eh & Eb & Ehd & Hn & I1). cbn [mbind option_bind].
      destruct (IH kept q0 q w1) as (sent & q' & w' & E & Ei' & Eh' & Eb' & Ehd' & S' & Em' & Ec' & En' & Hn' & Hres); [by rewrite Ei | by rewrite Ei | done | done | done | done |]. exists sent, q', w'. split; [done |]. split; [congruence |]. split; [congruence |]. split; [congruence |]. split; [congruence |]. do 4 (split; [done |]). split; [auto | done].
    + destruct (Hdrop (R_msg a) G ltac:(done) ltac:(done)) as (w1 & -> & Ei & Eh & Eb & Ehd & Hn & I1). cbn [mbind option_bind]. eexists true, _, w1. split; [done |]. do 4 (split; [done |]). do 5 (split; [done |]).
      destruct (live_store w1 lid q0 (set_receivers (kept ++ rs) q)) as (_ & Lv1 & _); [by rewrite Ei | by rewrite Ei | done | done |].
      pose proof (inv_report G _ lid (set_receivers (kept ++ rs) q) (set_received (r_tsk r) now (set_receivers (kept ++ rs) q)) I1 (proj2 (Lv1 _ _) (or_introl (conj eq_refl eq_refl)))) as I2. rewrite store_twice in I2. by apply I2.
  - destruct (IH (kept ++ [r]) q0 q w) as (sent & q' & w' & Hres); [done | done | done | done | by rewrite <- app_assoc | | by exists sent, q', w']. intros r' [Hr' | ->%list_elem_of_singleton]%elem_of_app; auto.
Qed.

Lemma queue_split es lid q : es !! lid = Some (Some q) -> on_queues es ≡ₚ q_messages q ++ on_queues (<[lid := None]> es).
Proof. intros H. pose proof (on_queues_insert es lid (Some q) None H) as P. cbn in P. by rewrite <- P, Permutation_app_comm. Qed.

Lemma size_at h a m : h !! a = Some m -> size_of h a = m_ts m.
Proof. intros H. unfold size_of. by rewrite H. Qed.

(** The message in hand is put on the queue. *)
Lemma inv_send G w lid q a m : inv (a :: G) w -> live (msg_ids w) lid q -> heap w !! a = Some m -> (forall r, r ∈ q_receivers q -> testmsg m (r_msgtype r) (r_mode r) = false) ->
  inv G (set_counts (s32 (msg_bytes w + m_ts m)) (s32 (msg_hdrs w + 1)) (store lid (set_messages (q_messages q ++ [a]) (q_cbytes q ⊕ m_ts m) (q_qnum q ⊕ 1) q) w)).
Proof.
  intros I L Hm Hno. pose proof (i_queue _ _ I _ _ L) as Q. pose proof (queue_split _ _ _ L) as P. set (ms := q_messages q) in *. pose proof (size_at _ _ _ Hm) as Sa. pose proof (bytes_nonneg _ _ ms I) as B0. destruct (i_heap _ _ I a m Hm) as (_ & [Hts _] & _).
  assert (bytes (heap w) (ms ++ [a]) = bytes (heap w) ms + m_ts m) as Eb by (rewrite bytes_app; cbn; lia).
  assert (bytes (heap w) ms + m_ts m + 24 * (Z.of_nat (length ms) + 1) < 4294967296) as Bd.
  { pose proof (held_bound _ _ (ms ++ [a]) (on_queues (<[lid := None]> (entries (msg_ids w))) ++ with_tasks (pcs w) ++ G) I) as H. rewrite Eb, length_app in H. cbn [length] in H. apply Z.le_lt_trans with (2 := H ltac:(rewrite P, <- !app_assoc; apply Permutation_app_head; cbn [app]; by rewrite !app_assoc, <- Permutation_middle)). lia. }
  assert (u32 (bytes (heap w) ms + m_ts m) = bytes (heap w) ms + m_ts m) as U1 by (apply u32_id; unfold is_u32; lia). assert (u32 (Z.of_nat (length ms) + 1) = Z.of_nat (length ms) + 1) as U2 by (apply u32_id; unfold is_u32; lia).
  rewrite (qo_bytes _ _ Q), (qo_num _ _ Q). fold ms. rewrite U1, U2. match goal with |- inv _ (set_counts _ _ (store _ ?x _)) => eapply (inv_change (a :: G) _ w _ lid q x ∅) end; [done | done | done | exact (live_deleted _ _ _ _ I L) | done | done | done | done | by intros t _ | set_solver | set_solver | | | |].
  - destruct Q as [Q1 Q2 Q3 Q4 Q5 Q6 Q7 Q8]. constructor; try done; cbn [q_messages q_cbytes q_qnum set_messages heap set_counts store set_ids].
    + fold ms. rewrite length_app. cbn [length]. lia.
    + intros r b n Hr Hb Hn. apply elem_of_app in Hb as [Hb | ->%list_elem_of_singleton]; [by apply (Q7 r b n Hr Hb) |]. cbn in Hn. rewrite Hm in Hn. injection Hn as <-. by apply Hno.
    + intros t b flg n Ht Hw Hp Hn. pose proof (Q8 t b flg n Ht Hw Hp Hn) as F. cbn in Hn, Hp. destruct (i_heap _ _ I b n Hn) as (_ & [Hn' _] & _).
      pose proof (held_bound _ _ (b :: ms ++ [a]) (on_queues (<[lid := None]> (entries (msg_ids w))) ++ with_tasks (delete t (pcs w)) ++ G) I) as H. cbn [bytes foldr] in H. fold (bytes (heap w) (ms ++ [a])) in H. rewrite Eb, (size_at _ _ _ Hn) in H. cbn [length] in H. rewrite length_app in H. cbn [length] in H.
      assert (m_ts n + (bytes (heap w) ms + m_ts m) + 24 * Z.of_nat (length ms + 2) < 4294967296) as Bd2.
      { apply Z.le_lt_trans with (2 := H ltac:(rewrite P, (with_tasks_delete _ _ _ Hp); cbn [held_by app]; rewrite <- !app_assoc; cbn [app]; rewrite <- !Permutation_middle; constructor; constructor; done)). lia. }
      unfold fits in F |- *. rewrite Q1, Q2 in F. cbn [q_cbytes q_qnum q_qbytes set_messages]. fold ms in F. rewrite (u32_id (m_ts n + bytes (heap w) ms)), (u32_id (1 + Z.of_nat (length ms))) in F by (unfold is_u32; lia). rewrite (u32_id (m_ts n + _)), (u32_id (1 + _)) by (unfold is_u32; lia). lia.
  - cbn. fold ms. by rewrite <- app_assoc, <- Permutation_middle.
  - cbn [msg_bytes set_counts]. rewrite u32_s32. f_equal. cbn [q_messages set_messages]. fold ms. rewrite Eb. lia.
  - cbn [msg_hdrs set_counts]. rewrite u32_s32. f_equal. cbn [q_messages set_messages]. fold ms. rewrite length_app. cbn. lia.
Qed.

(** ** Going to sleep *)

Lemma inv_snd_sleep G w lid q t a m flg : inv (a :: G) w -> live (msg_ids w) lid q -> pcs w !! t = None -> heap w !! a = Some m -> fits m q = false ->
  inv G (set_woken (woken w ∖ {[t]}) (set_pcs (<[t := Sending (q_ptr q) a flg]> (pcs w)) (store lid (set_senders (q_senders q ++ [t]) q) w))).
Proof.
  intros I L Hp Hm F. pose proof (i_queue _ _ I _ _ L) as Q. destruct (not_on_queue _ _ _ Q Hp) as [Nr Ns]. eapply (inv_change (a :: G) _ w _ lid q (set_senders (q_senders q ++ [t]) q) {[t]}); try done; [exact (live_deleted _ _ _ _ I L) | | | | | | apply u32_keep | apply u32_keep].
  - intros t' Ht'. assert (t <> t') by set_solver. cbn. rewrite lookup_insert_ne by done. split; [done |]. set_solver.
  - intros t' ->%elem_of_singleton p. by rewrite Hp.
  - intros t' p ->%elem_of_singleton. cbn. rewrite lookup_insert_eq. intros [= <-]. destruct (live_store w lid q (set_senders (q_senders q ++ [t]) q) (i_ids _ _ I) L eq_refl (live_deleted _ _ _ _ I L)) as (_ & Lv & _). cbn. split; [by eapply (i_addr _ _ I) |]. split.
    + intros i b Lb Eb. apply Lv in Lb as [[-> ->] | [Hi Lb]]; [cbn; set_solver |]. destruct Hi. by eapply (i_ptr _ _ I).
    + intros Hno. destruct (Hno lid (set_senders (q_senders q ++ [t]) q)); [apply Lv; by left | done].
  - destruct Q as [Q1 Q2 Q3 Q4 Q5 Q6 Q7 Q8]. constructor; try done; cbn.
    + intros r Hr. rewrite lookup_insert_ne; [by apply Q4 |]. intros ->. apply Nr, list_elem_of_fmap. eauto.
    + apply NoDup_app. split; [done |]. split; [intros x Hx ->%list_elem_of_singleton; done | apply NoDup_singleton].
    + intros t' [Ht' | ->%list_elem_of_singleton]%elem_of_app; [rewrite lookup_insert_ne; [by apply Q6 | by intros ->] | rewrite lookup_insert_eq; eauto].
    + intros t' b fl n [Ht' | ->%list_elem_of_singleton]%elem_of_app Hw; [rewrite lookup_insert_ne by (by intros ->); apply Q8; [done | set_solver] | rewrite lookup_insert_eq; intros [= <- <-] Hn; rewrite Hm in Hn; by injection Hn as <-].
  - cbn. rewrite with_tasks_insert by done. cbn. apply Permutation_app_head. by rewrite <- Permutation_middle.
Qed.

Lemma inv_rcv_sleep G w lid q t sz typ mode flg mx : inv G w -> live (msg_ids w) lid q -> pcs w !! t = None -> 0 <= sz -> (forall a m, a ∈ q_messages q -> heap w !! a = Some m -> testmsg m typ mode = false) ->
  inv G (set_woken (woken w ∖ {[t]}) (set_pcs (<[t := Receiving (q_ptr q) sz typ mode flg (R_err (- EAGAIN))]> (pcs w)) (store lid (set_receivers (q_receivers q ++ [mk_rcv t mode typ mx]) q) w))).
Proof.
  intros I L Hp Hsz Hno. pose proof (i_queue _ _ I _ _ L) as Q. destruct (not_on_queue _ _ _ Q Hp) as [Nr Ns]. set (q' := set_receivers _ q). eapply (inv_change G _ w _ lid q q' {[t]}); try done; [exact (live_deleted _ _ _ _ I L) | | | | | | apply u32_keep | apply u32_keep].
  - intros t' Ht'. assert (t <> t') by set_solver. cbn. rewrite lookup_insert_ne by done. split; [done |]. split; [set_solver |]. split; [done |]. rewrite fmap_app. set_solver.
  - intros t' ->%elem_of_singleton p. by rewrite Hp.
  - intros t' p ->%elem_of_singleton. cbn. rewrite lookup_insert_eq. intros [= <-]. destruct (live_store w lid q q' (i_ids _ _ I) L eq_refl (live_deleted _ _ _ _ I L)) as (_ & Lv & _). cbn. split; [done |]. split; [| done]. intros _. exists lid, q'. split; [apply Lv; by left |]. split; [done |]. cbn. rewrite fmap_app. set_solver.
  - destruct Q as [Q1 Q2 Q3 Q4 Q5 Q6 Q7 Q8]. constructor; try done; cbn.
    + rewrite fmap_app. apply NoDup_app. split; [done |]. split; [intros x Hx ->%list_elem_of_singleton; done | apply NoDup_singleton].
    + intros r [Hr | ->%list_elem_of_singleton]%elem_of_app; [rewrite lookup_insert_ne; [by apply Q4 |]; intros ->; apply Nr, list_elem_of_fmap; eauto | cbn; rewrite lookup_insert_eq; eauto].
    + intros t' Ht'. rewrite lookup_insert_ne; [by apply Q6 | by intros ->].
    + intros r a m [Hr | ->%list_elem_of_singleton]%elem_of_app Ha Hm; [by eapply Q7 | cbn; by eapply Hno].
    + intros t' b fl n Ht' Hw. rewrite lookup_insert_ne by (by intros ->). apply Q8; [done | set_solver].
  - cbn. by rewrite with_tasks_insert.
Qed.

(** ** Receiving *)

Lemma ss_wakeup_eq ss w : ss_wakeup ss w = set_woken (list_to_set ss ∪ woken w) w.
Proof.
  revert w. induction ss as [| t ss IH]; intros w; cbn [ss_wakeup foldl list_to_set]; [unfold set_woken; rewrite (left_id_L ∅ (∪)); by destruct w |]. unfold ss_wakeup in IH. rewrite IH. unfold wake_task, set_woken. cbn. f_equal. set_solver.
Qed.

(** A message is taken off the queue, and the senders are woken. *)
Lemma inv_dequeue G w lid q a m pid now : inv G w -> live (msg_ids w) lid q -> a ∈ q_messages q -> heap w !! a = Some m ->
  inv (a :: G) (ss_wakeup (q_senders q) (set_counts (s32 (msg_bytes w - m_ts m)) (s32 (msg_hdrs w - 1))
    (store lid (set_received pid now (set_messages (filter (fun x => x <> a) (q_messages q)) (q_cbytes q ⊖ m_ts m) (q_qnum q ⊖ 1) q)) w))).
Proof.
  intros I L Ha Hm. pose proof (i_queue _ _ I _ _ L) as Q. rewrite ss_wakeup_eq. pose proof (queue_split _ _ _ L) as P. set (ms := q_messages q) in *.
  assert (NoDup ms) as N. { pose proof (held_nodup _ _ I) as N. rewrite P, <- app_assoc in N. by apply NoDup_app in N as [N _]. } pose proof (filter_present a ms N Ha) as Pf. set (ms' := filter _ ms) in *.
  pose proof (bytes_perm (heap w) _ _ Pf) as Eb. cbn [bytes foldr] in Eb. fold (bytes (heap w) ms') in Eb. rewrite (size_at _ _ _ Hm) in Eb. pose proof (Permutation_length Pf) as El. cbn [length] in El. pose proof (bytes_nonneg _ _ ms' I) as B0. destruct (i_heap _ _ I a m Hm) as (_ & [Hts _] & _).
  pose proof (held_bound _ _ ms (on_queues (<[lid := None]> (entries (msg_ids w))) ++ with_tasks (pcs w) ++ G) I ltac:(by rewrite P, <- app_assoc)) as Bd.
  rewrite (qo_bytes _ _ Q), (qo_num _ _ Q). fold ms. rewrite Eb, (u32_id (m_ts m + bytes (heap w) ms' - m_ts m)), (u32_id (Z.of_nat (length ms) - 1)) by (unfold is_u32; lia).
  match goal with |- inv _ (set_woken _ (set_counts _ _ (store _ ?x _))) => eapply (inv_change G _ w _ lid q x ∅) end; [done | done | done | exact (live_deleted _ _ _ _ I L) | done | done | done | done | set_solver | set_solver | set_solver | | | |].
  - destruct Q as [Q1 Q2 Q3 Q4 Q5 Q6 Q7 Q8]. constructor; try done; cbn [q_messages q_cbytes q_qnum q_receivers q_senders set_messages set_received].
    + fold ms'. cbn [heap set_woken set_counts store set_ids]. lia.
    + fold ms'. lia.
    + intros r b n Hr Hb. apply (Q7 r b n Hr). apply list_elem_of_filter in Hb. tauto.
    + intros t b fl n Ht Hw. cbn in Hw. set_solver.
  - cbn. fold ms ms'. rewrite Pf. cbn [app]. by rewrite !app_assoc, <- Permutation_middle.
  - cbn [msg_bytes set_counts set_woken]. rewrite u32_s32. f_equal. cbn [q_messages set_messages set_received]. fold ms ms'. lia.
  - cbn [msg_hdrs set_counts set_woken]. rewrite u32_s32. f_equal. cbn [q_messages set_messages set_received]. fold ms ms'. lia.
Qed.

(** ** The calls *)

(** A section ends in a good state. *)
Definition good (r : option (option answer * world)) : Prop := exists o w', r = Some (o, w') /\ inv [] w'.

Lemma good_answer e w : inv [] w -> good (ret e w).
Proof. intros I. by eexists _, _. Qed.

Lemma snd_fail_good t e a w : inv [a] (leave t w) -> good (snd_fail t e a w).
Proof. intros I. destruct (msg_inv_free _ _ _ I) as [E I']. unfold snd_fail. unfold free_msg in E |- *. cbn [heap leave set_pcs] in E. destruct (heap w !! a); [| done]. cbn [mbind option_bind]. by apply good_answer. Qed.

Lemma deliver_good t a sz dst w : inv [a] (leave t w) -> 0 <= sz -> good (deliver t a sz dst w).
Proof.
  intros I Hsz. destruct (msg_inv_free _ _ _ I) as [E I']. destruct (held_in_heap _ _ a I) as [m Hm]; [set_solver |]. destruct (i_heap _ _ I a m Hm) as (_ & Hok & _). cbn in Hm. unfold deliver. rewrite Hm. cbn [mbind option_bind]. unfold free_msg in E |- *. rewrite Hm.
  destruct dst as [[] room]; cbn [fst snd mbind option_bind]; [| by eexists _, _]. rewrite (store_msg_spec m _ room Hok) by (pose proof Hok as [Ht _]; destruct (Z.ltb_spec (m_ts m) sz); lia). cbn [mbind option_bind]. by eexists _, _.
Qed.

Lemma snd_try_good t tgid cur flg now lid q a w : inv [a] w -> pcs w !! t = None -> live (msg_ids w) lid q -> good (snd_try t tgid cur flg now lid q a w).
Proof.
  intros I Hp L. unfold snd_try. assert (forall e, good (snd_fail t e a w)) as Hfail by (intros e; apply snd_fail_good; by rewrite leave_id). destruct (negb _); [done |]. destruct (held_in_heap _ _ a I) as [m Hm]; [set_solver |]. rewrite Hm. cbn [mbind option_bind]. destruct (fits m q) eqn:F.
  - pose proof (inv_report _ _ lid q (set_sent tgid now q) I L) as I1. unfold pipelined_send.
    destruct (pipelined_ok lid a m now [] (q_receivers q) [] q (set_sent tgid now q) w (i_ids _ _ I) L) as (sent & q' & w' & E & Ei & Eh & Eb & Ehd & (Ep & Es & Ed) & Em & Ec & En & Hn & Hres); [done | exact (live_deleted _ _ _ _ I L) | apply I1; done | by intros r Hr%elem_of_nil |].
    change (q_receivers (set_sent tgid now q)) with (q_receivers q). rewrite E. cbn [mbind option_bind]. destruct sent.
    + rewrite leave_id by (cbn; auto). by apply good_answer.
    + destruct Hres as [I2 Hno]. rewrite leave_id by (cbn; auto). destruct (live_store w' lid q q') as (_ & Lv & _); [rewrite Ei; apply (i_ids _ _ I) | by rewrite Ei | exact Es | rewrite Ed; exact (live_deleted _ _ _ _ I L) |].
      pose proof (inv_send _ _ lid q' a m I2 (proj2 (Lv _ _) (or_introl (conj eq_refl eq_refl)))) as I3. rewrite store_twice in I3. apply good_answer, I3; [cbn; by rewrite Eh | done].
  - destruct (flagged IPC_NOWAIT flg); [done |]. eexists _, _. split; [done |]. exact (inv_snd_sleep [] w lid q t a m flg I L Hp Hm F).
Qed.

Lemma lock_live G w id q : inv G w -> msg_lock w id = Some q -> live (msg_ids w) (place id) q.
Proof. intros I E. by apply ipc_lock_live; [apply (i_ids _ _ I) |]. Qed.

Lemma sys_msgsnd_good t tgid cur msqid mtype src sz flg ctlmax now alloc w : inv [] w -> pcs w !! t = None -> is_u32 sz -> good (sys_msgsnd t tgid cur msqid mtype src sz flg ctlmax now alloc w).
Proof.
  intros I Hp Hsz. unfold sys_msgsnd. destruct ((u32 ctlmax <? sz) || (s32 sz <? 0) || (msqid <? 0)) eqn:Hg; [by apply good_answer |]. destruct mtype as [mtype |]; [| by apply good_answer]. destruct (Z.ltb_spec mtype 1); [by apply good_answer |].
  apply orb_false_iff in Hg as [[_ Hg]%orb_false_iff _]. assert (0 <= sz < 2147483648) as Hr. { unfold s32 in Hg. rewrite (u32_id sz Hsz) in Hg. unfold is_u32 in Hsz. destruct (Z.ltb_spec sz 2147483648); [lia |]. lia. }
  set (al := fun k : nat => alloc k && (heap_size (heap w) + 24 + sz <? 4294967296)). destruct (load_msg_spec al src sz ltac:(lia)) as (r & E & Hres). pose proof E as E'. rewrite E. cbn [mbind option_bind]. destruct r as [e | [text segs]]; [by apply good_answer |]. destruct Hres as (H1 & H2 & _). set (m := mk_msg mtype sz text segs). set (w1 := set_next _ _).
  assert (heap_size (heap w) + 24 + sz < 4294967296) as Hmem. { unfold load_msg in E'. destruct (al 0%nat) eqn:Ea; [| done]. unfold al in Ea. apply andb_true_iff in Ea as [_ Ea]. lia. }
  assert (inv [next_addr w] w1) as I1 by (apply inv_new_msg; [done | split; [cbn; lia | done] | done | done]). assert (forall e, good (snd_fail t e (next_addr w) w1)) as Hfail by (intros e; apply snd_fail_good; by rewrite leave_id).
  destruct (msg_lock w1 msqid) as [q |] eqn:El; [| done]. destruct (ipc_checkid q msqid); [done |]. apply snd_try_good; [done | done |]. by eapply lock_live.
Qed.

Lemma snd_wake_good t tgid cur sig now ptr a flg w : inv [] w -> pcs w !! t = Some (Sending ptr a flg) -> good (snd_wake t tgid cur sig now ptr a flg w).
Proof.
  intros I Hp. unfold snd_wake, lock_by_ptr. pose proof (find_ptr_live q_ptr (msg_ids w) ptr) as Hf. destruct (find_ptr q_ptr (entries (msg_ids w)) ptr 0) as [[lid q] |].
  - destruct Hf as [L Eq]. subst ptr. destruct (i_pc _ _ I _ _ Hp) as (_ & Hin & _). rewrite decide_True by (by eapply Hin). pose proof (inv_snd_del _ _ lid q t a flg I L Hp) as I1. set (q' := set_senders _ q) in *. destruct sig; [by apply snd_fail_good |].
    destruct (live_store w lid q q' (i_ids _ _ I) L eq_refl (live_deleted _ _ _ _ I L)) as (_ & Lv & _). apply snd_try_good; [done | cbn; apply lookup_delete_eq | apply Lv; by left].
  - apply snd_fail_good. apply (inv_leave_call _ _ _ _ I Hp). intros lid q L. pose proof (i_queue _ _ I _ _ L) as Q. specialize (Hf lid q L). split; [eapply not_receiver; done | eapply not_sender; [done | done |]; intros; congruence].
Qed.

Lemma rcv_try_good t tgid cur sz typ mode flg now dst lid q w : inv [] w -> pcs w !! t = None -> live (msg_ids w) lid q -> 0 <= sz -> good (rcv_try t tgid cur sz typ mode flg now dst lid q w).
Proof.
  intros I Hp L Hsz. unfold rcv_try. rewrite (leave_id t w Hp). destruct (negb _); [by apply good_answer |]. destruct (find_msg_none (heap w) (q_messages q) typ mode (queue_msgs_in _ _ _ _ I L)) as (r & -> & Hr). cbn [mbind option_bind]. destruct r as [a |].
  - destruct (queue_in_heap _ _ _ _ _ I L Hr) as [m Hm]. rewrite Hm. cbn [mbind option_bind]. destruct ((sz <? m_ts m) && _); [by apply good_answer |]. apply deliver_good; [| done]. rewrite leave_id by (rewrite ss_wakeup_eq; done). exact (inv_dequeue [] w lid q a m tgid now I L Hr Hm).
  - destruct (flagged IPC_NOWAIT flg); [by apply good_answer |]. eexists _, _. split; [done |]. exact (inv_rcv_sleep [] w lid q t sz typ mode flg _ I L Hp Hsz Hr).
Qed.

Lemma sys_msgrcv_good t tgid cur msqid sz typ flg now dst w : inv [] w -> pcs w !! t = None -> is_u32 sz -> good (sys_msgrcv t tgid cur msqid sz typ flg now dst w).
Proof.
  intros I Hp [Hsz _]. unfold sys_msgrcv. destruct (_ || _); [by apply good_answer |]. destruct (convert_mode typ flg) as [typ' mode]. destruct (msg_lock w msqid) as [q |] eqn:El; [| by apply good_answer]. destruct (ipc_checkid q msqid); [by apply good_answer |]. apply rcv_try_good; [done | done | by eapply lock_live | done].
Qed.

Lemma rcv_wake_good t tgid cur sig now dst ptr sz typ mode flg r w : inv [] w -> pcs w !! t = Some (Receiving ptr sz typ mode flg r) -> good (rcv_wake t tgid cur sig now dst ptr sz typ mode flg r w).
Proof.
  intros I Hp. pose proof (i_pc _ _ I _ _ Hp) as (Hsz & Hw & _). assert (r <> R_err (- EAGAIN) -> inv (held_by (Receiving ptr sz typ mode flg r) ++ []) (leave t w)) as Hleave.
  { intros Hr. apply (inv_leave_call _ _ _ _ I Hp). intros lid q L. pose proof (i_queue _ _ I _ _ L) as Q. split; [eapply not_receiver; [done | done |]; intros; congruence | by eapply not_sender]. }
  unfold rcv_wake. destruct r as [e | a]; [| by apply deliver_good, Hsz; apply Hleave]. destruct (Z.eqb_spec e (- EAGAIN)) as [-> | He]; cbn [negb]; [| apply good_answer, Hleave; congruence].
  destruct (Hw eq_refl) as (lid & q & L & Eq & Hin). unfold lock_by_ptr. pose proof (find_ptr_live q_ptr (msg_ids w) ptr) as Hf. destruct (find_ptr q_ptr (entries (msg_ids w)) ptr 0) as [[lid' q'] |]; [| by destruct (Hf lid q L)]. destruct Hf as [L' Eq']. cbn [mbind option_bind].
  assert (lid' = lid) as -> by (apply (i_ptr _ _ I lid' q' lid q L' L); congruence). assert (q' = q) as -> by (unfold live in *; congruence). subst ptr.
  assert (existsb (fun r => r_tsk r =? t) (q_receivers q) = true) as ->. { apply existsb_exists. apply list_elem_of_fmap in Hin as (r & -> & Hr). exists r. split; [by apply list_elem_of_In | lia]. }
  pose proof (inv_rcv_del _ _ lid q t sz typ mode flg I L Hp) as I1. set (q1 := set_receivers _ q) in *. destruct sig; [by apply good_answer |]. destruct (live_store w lid q q1 (i_ids _ _ I) L eq_refl (live_deleted _ _ _ _ I L)) as (_ & Lv & _). apply rcv_try_good; [done | cbn; apply lookup_delete_eq | apply Lv; by left | done].
Qed.

(** ** msgctl *)

Definition with_error (e : Z) (p : pc) : pc := match p with Receiving ptr sz typ mode flg _ => Receiving ptr sz typ mode flg (R_err e) | Sending _ _ _ => p end.

Lemma expunge_all_spec res rs : forall w, (forall r, r ∈ rs -> exists ptr sz typ mode flg x, pcs w !! r_tsk r = Some (Receiving ptr sz typ mode flg x)) ->
  exists ps, expunge_all rs res w = Some (set_pcs ps (set_woken (list_to_set (r_tsk <$> rs) ∪ woken w) w)) /\
    forall t, ps !! t = if decide (t ∈ r_tsk <$> rs) then with_error res <$> pcs w !! t else pcs w !! t.
Proof.
  induction rs as [| r rs IH]; intros w H; cbn [expunge_all].
  { exists (pcs w). split; [f_equal; unfold set_pcs, set_woken; cbn; rewrite (left_id_L ∅ (∪)); by destruct w |]. intros t. rewrite decide_False; [done |]. apply not_elem_of_nil. }
  destruct (H r ltac:(by left)) as (ptr & sz & typ & mode & flg & x & Hp). unfold set_r_msg at 1. change (pcs (wake_task (r_tsk r) w)) with (pcs w). rewrite Hp. cbn [mbind option_bind]. set (p' := Receiving ptr sz typ mode flg (R_err res)). set (w1 := set_pcs _ _).
  destruct (IH w1) as (ps & -> & Hps).
  { intros r' Hr'. destruct (H r' ltac:(by right)) as (ptr' & sz' & typ' & mode' & flg' & x' & Hp'). cbn. rewrite lookup_insert. case_decide; [| by eexists _, _, _, _, _, _]. unfold p'. by eexists _, _, _, _, _, _. }
  exists ps. split. { f_equal. unfold w1, set_pcs, set_woken, wake_task. cbn. f_equal. set_solver. }
  intros t. rewrite (Hps t), fmap_cons. unfold w1. cbn [pcs set_pcs]. rewrite lookup_insert. destruct (decide (r_tsk r = t)) as [<- | Hne].
  - rewrite (decide_True (P := r_tsk r ∈ r_tsk r :: _)) by (by left). rewrite Hp. by destruct (decide (r_tsk r ∈ r_tsk <$> rs)).
  - rewrite (decide_ext (t ∈ r_tsk r :: (r_tsk <$> rs)) (t ∈ r_tsk <$> rs)); [done |]. rewrite elem_of_cons. split; [intros [? | ?]; [congruence | done] | by right].
Qed.

Lemma receivers_in_pcs w q : queue_ok w q -> forall r, r ∈ q_receivers q -> exists ptr sz typ mode flg x, pcs w !! r_tsk r = Some (Receiving ptr sz typ mode flg x).
Proof. intros Q r Hr. destruct (qo_rcv _ _ Q r Hr) as (sz & flg & ->). by eexists _, _, _, _, _, _. Qed.

Lemma ipc_set_good w msqid q p qbytes now : inv [] w -> live (msg_ids w) (place msqid) q -> p_seq p = p_seq (q_perm q) -> deleted p = false ->
  good (w1 ← expunge_all (q_receivers q) (- EAGAIN) w; ret 0 (store (place msqid) (set_limits p qbytes now q) (ss_wakeup (q_senders q) w1))).
Proof.
  intros I L Es Ed. pose proof (i_queue _ _ I _ _ L) as Q. destruct (expunge_all_spec (- EAGAIN) (q_receivers q) w (receivers_in_pcs w q Q)) as (ps & -> & Hps). cbn [mbind option_bind].
  assert (ps = pcs w) as ->. { apply map_eq. intros t. rewrite Hps. case_decide as Hd; [| done]. apply list_elem_of_fmap in Hd as (r & -> & Hr). destruct (qo_rcv _ _ Q r Hr) as (sz & flg & ->). done. }
  apply good_answer. rewrite ss_wakeup_eq. set (q' := set_limits p qbytes now q). eapply (inv_change [] _ w _ (place msqid) q q' ∅); [done | done | done | done | done | done | done | done | set_solver | set_solver | set_solver | | done | apply u32_keep | apply u32_keep].
  destruct Q as [Q1 Q2 Q3 Q4 Q5 Q6 Q7 Q8]. constructor; try done. intros t a flg m Ht Hw. cbn in Hw, Ht. set_solver.
Qed.

(** The queue is no longer in the table; its messages are in the hands of [freeque]. *)
Lemma inv_remove w lid q ids' ps wk b h : inv [] w -> live (msg_ids w) lid q -> ids_ok ids' -> (forall i c, live ids' i c <-> i <> lid /\ live (msg_ids w) i c) -> entries ids' = <[lid := None]> (entries (msg_ids w)) ->
  (forall t, ps !! t = if decide (t ∈ r_tsk <$> q_receivers q) then with_error (- EIDRM) <$> pcs w !! t else pcs w !! t) -> (forall t, t ∈ woken w \/ t ∈ r_tsk <$> q_receivers q \/ t ∈ q_senders q -> t ∈ wk) ->
  u32 b = u32 (msg_bytes w - bytes (heap w) (q_messages q)) -> u32 h = u32 (msg_hdrs w - Z.of_nat (length (q_messages q))) ->
  inv (q_messages q) (set_counts b h (set_ids ids' (set_pcs ps (set_woken wk w)))).
Proof.
  intros I L Ok Lv Ee Hps Hwk Hb Hh. pose proof (i_queue _ _ I _ _ L) as Q. pose proof (queue_split _ _ _ L) as P. rewrite <- Ee in P.
  assert (with_tasks ps = with_tasks (pcs w)) as Ht. { apply with_tasks_same. intros t. rewrite Hps. case_decide as Hd; [| done]. apply list_elem_of_fmap in Hd as (r & -> & Hr). destruct (qo_rcv _ _ Q r Hr) as (sz & flg & ->). done. }
  constructor; cbn; try done.
  - intros i c i' c' [_ Lc]%Lv [_ Lc']%Lv. by eapply (i_ptr _ _ I).
  - intros i c [_ Lc]%Lv. by eapply (i_addr _ _ I).
  - apply (i_heap _ _ I).
  - apply (i_mem _ _ I).
  - rewrite Ht, <- (i_held _ _ I), P, app_nil_r, <- app_assoc. by rewrite app_assoc, Permutation_app_comm.
  - intros i c [Hi Lc]%Lv. apply (queue_ok_other w); [by eapply (i_queue _ _ I) | done | | done]. cbn. intros t Hor. split; [| intros Hw; apply Hwk; by left]. rewrite Hps. case_decide as Hd; [| done].
    destruct (far_task [] w q lid c i t I L Lc Hi) as [F1 F2]; [| tauto]. apply list_elem_of_fmap in Hd as (r & -> & Hr). destruct (qo_rcv _ _ Q r Hr) as (sz & flg & Hp). intros p. rewrite Hp. by intros [= <-].
  - intros t p. rewrite Hps. case_decide as Hd.
    + pose proof Hd as Hd'. apply list_elem_of_fmap in Hd' as (r & -> & Hr). destruct (qo_rcv _ _ Q r Hr) as (sz & flg & Hp). rewrite Hp. intros [= <-]. destruct (i_pc _ _ I _ _ Hp) as (Hsz & _). cbn. split; [done |]. split; [done |]. intros _. apply Hwk. auto.
    + intros Hp. pose proof (i_pc _ _ I t p Hp) as K. destruct p as [ptr a flg | ptr sz typ mode flg r]; cbn in K |- *.
      * destruct K as (K1 & K2 & K3). split; [done |]. split; [intros i c [_ Lc]%Lv; by apply (K2 i c) |]. intros Hno. apply Hwk. destruct (decide (ptr = q_ptr q)) as [-> | Hne]; [right; right; by apply (K2 lid q L) | left]. apply K3. intros i c Lc Ec. destruct (decide (i = lid)) as [-> | Hi]; [| by apply (Hno i c); [apply Lv |]]. assert (c = q) as -> by (unfold live in *; congruence). congruence.
      * destruct K as (K1 & K2 & K3). split; [done |]. split; [| intros H; apply Hwk; left; by apply K3]. intros H. destruct (K2 H) as (i & c & Lc & Ec & Hin). exists i, c. split; [| done]. apply Lv. split; [| done]. intros ->. assert (c = q) as -> by (unfold live in *; congruence). done.
  - rewrite Hb. apply (bytes_perm (heap w)) in P. rewrite bytes_app in P. transitivity (u32 (msg_bytes w + - bytes (heap w) (q_messages q))); [done |]. rewrite (u32_shift _ _ _ (i_bytes _ _ I)). f_equal. lia.
  - rewrite Hh. apply Permutation_length in P. rewrite length_app in P. transitivity (u32 (msg_hdrs w + - Z.of_nat (length (q_messages q)))); [done |]. rewrite (u32_shift _ _ _ (i_hdrs _ _ I)). f_equal. lia.
Qed.

Lemma free_msgs_spec ms b h : forall w, inv ms (set_counts b h w) -> exists hd hp, free_msgs ms w = Some (set_counts (msg_bytes w) hd (set_heap hp w)) /\ u32 hd = u32 (msg_hdrs w - Z.of_nat (length ms)) /\ inv [] (set_counts b h (set_heap hp w)).
Proof.
  induction ms as [| a ms IH]; intros w I; cbn [free_msgs]; [exists (msg_hdrs w), (heap w); split; [by destruct w |]; split; [f_equal; cbn; lia | by destruct w] |].
  destruct (msg_inv_free _ _ _ I) as [E I1]. unfold free_msg in E |- *. cbn [heap set_counts] in E |- *. destruct (heap w !! a); [| done]. cbn [mbind option_bind]. set (w1 := set_heap _ _). destruct (IH w1) as (hd & hp & -> & Hhd & I2); [exact I1 |]. exists hd, hp. split; [done |]. split; [| exact I2].
  rewrite Hhd. transitivity (u32 (s32 (msg_hdrs w - 1) + - Z.of_nat (length ms))); [done |]. rewrite (u32_shift _ _ _ (u32_s32 (msg_hdrs w - 1))). f_equal. cbn [length]. lia.
Qed.

Lemma freeque_good w msqid q : inv [] w -> live (msg_ids w) (place msqid) q -> exists w', freeque q msqid w = Some w' /\ inv [] w'.
Proof.
  intros I L. pose proof (i_queue _ _ I _ _ L) as Q. unfold freeque. destruct (expunge_all_spec (- EIDRM) (q_receivers q) w (receivers_in_pcs w q Q)) as (ps & -> & Hps). cbn [mbind option_bind]. rewrite ss_wakeup_eq. cbn [woken set_pcs set_woken msg_ids].
  destruct (ipc_rmid_spec (msg_ids w) msqid q (i_ids _ _ I) L) as (q1 & ids' & Er & Ok & _ & _ & Lv). pose proof (rmid_entries _ _ _ _ Er) as Ee. rewrite Er. cbn [mbind option_bind].
  assert (q_messages q1 = q_messages q /\ q_cbytes q1 = q_cbytes q) as [-> ->]. { unfold ipc_rmid in Er. fold (place msqid) in Er. rewrite L in Er. cbn [mbind option_bind] in Er. apply bind_Some in Er as (m & _ & [= <- _]). done. }
  set (wk := list_to_set (q_senders q) ∪ _). set (b := s32 (msg_bytes w - q_cbytes q)).
  assert (forall h, u32 h = u32 (msg_hdrs w - Z.of_nat (length (q_messages q))) -> inv (q_messages q) (set_counts b h (set_ids ids' (set_pcs ps (set_woken wk w))))) as I1.
  { intros h Hh. apply (inv_remove w (place msqid) q); [done | done | done | done | done | done | unfold wk; set_solver | unfold b; by rewrite u32_s32, (qo_bytes _ _ Q) | done]. }
  destruct (free_msgs_spec (q_messages q) b (msg_hdrs w - Z.of_nat (length (q_messages q))) (set_ids ids' (set_pcs ps (set_woken wk w))) (I1 _ eq_refl)) as (hd & hp & Ef & Hhd & _). change (set_woken wk (set_pcs ps _)) with (set_pcs ps (set_woken wk w)). rewrite Ef. cbn [mbind option_bind]. eexists. split; [done |].
  destruct (free_msgs_spec (q_messages q) b hd (set_ids ids' (set_pcs ps (set_woken wk w))) (I1 _ Hhd)) as (hd' & hp' & Ef' & _ & I2). rewrite Ef in Ef'. injection Ef' as <- <-. exact I2.
Qed.

Lemma sys_msgctl_good cur msqid cmd ctlmnb now w : inv [] w -> good (sys_msgctl cur msqid cmd ctlmnb now w).
Proof.
  intros I. unfold sys_msgctl. destruct (msqid <? 0); [by apply good_answer |]. assert (good (match msg_lock w msqid with None => ret (- EINVAL) w | Some q => if ipc_checkid q msqid then ret (- EIDRM) w else let ipcp := q_perm q in
    if negb (s_euid cur =? p_cuid ipcp) && negb (s_euid cur =? p_uid ipcp) && negb (s_capable cur CAP_ADMIN) then ret (- EPERM) w else match cmd with
    | IPC_SET (Some (qbytes, uid, gid, mode)) => if (u32 ctlmnb <? qbytes) && negb (s_capable cur CAP_RESOURCE) then ret (- EPERM) w else
        let p := mk_perm (deleted ipcp) (p_key ipcp) uid gid (p_cuid ipcp) (p_cgid ipcp) (Z.lor (Z.ldiff (p_mode ipcp) MODE_ALL) (Z.land MODE_ALL mode)) (p_seq ipcp) in
        let q := set_limits p qbytes now q in w ← expunge_all (q_receivers q) (- EAGAIN) w; ret 0 (store (place msqid) q (ss_wakeup (q_senders q) w))
    | IPC_SET None => ret (- EFAULT) w | IPC_RMID => w ← freeque q msqid w; ret 0 w end end)) as H; [| destruct cmd as [| [[[[? ?] ?] ?] |]]; [exact H | exact H | by apply good_answer]].
  destruct (msg_lock w msqid) as [q |] eqn:El; [| by apply good_answer]. apply (lock_live _ _ _ _ I) in El as L. destruct (ipc_checkid q msqid); [by apply good_answer |]. cbn zeta. destruct (_ && _ && _); [by apply good_answer |]. destruct cmd as [| [[[[qbytes uid] gid] mode] |]]; [| | by apply good_answer].
  - destruct (freeque_good w msqid q I L) as (w' & -> & I'). cbn [mbind option_bind]. by apply good_answer.
  - destruct (_ && _); [by apply good_answer |]. apply (ipc_set_good w msqid q _ qbytes now I L); [done | exact (live_deleted _ _ _ _ I L)].
Qed.

(** ** msgget *)

Definition empty_queue (ptr : Z) (q : msg_queue) : Prop := q_ptr q = ptr /\ q_messages q = [] /\ q_receivers q = [] /\ q_senders q = [] /\ q_cbytes q = 0 /\ q_qnum q = 0.

Lemma inv_new_ids w ids' : inv [] w -> ids_ok ids' -> (forall i c, live (msg_ids w) i c -> live ids' i c) -> (forall i c, live ids' i c -> live (msg_ids w) i c \/ empty_queue (next_addr w) c) ->
  (forall i c i' c', live ids' i c -> live ids' i' c' -> q_ptr c = next_addr w -> q_ptr c' = next_addr w -> i = i') -> on_queues (entries ids') ≡ₚ on_queues (entries (msg_ids w)) -> inv [] (set_next (next_addr w + 1) (set_ids ids' w)).
Proof.
  intros I Ok Fwd Bwd Uniq P. pose proof I as [I1 I2 I3 I4 I5 I6 I7 I8 I9 I10]. assert (forall i c, live ids' i c -> q_ptr c <= next_addr w) as Hle. { intros i c Lc. destruct (Bwd i c Lc) as [Lc' | (-> & _)]; [specialize (I3 _ _ Lc'); lia | done]. }
  assert (forall i c, live ids' i c -> q_ptr c < next_addr w -> live (msg_ids w) i c) as Bwd'. { intros i c Lc Hlt. destruct (Bwd i c Lc) as [| (E & _)]; [done | lia]. }
  constructor; cbn; try done.
  - intros i c i' c' Lc Lc' E. destruct (decide (q_ptr c = next_addr w)) as [En | Hn]; [by apply (Uniq i c i' c'); congruence |]. pose proof (Hle i c Lc). apply (I2 i c i' c'); [apply Bwd'; [done | lia] | apply Bwd'; [done | lia] | done].
  - intros i c Lc. specialize (Hle i c Lc). lia.
  - intros a m Hm. destruct (I4 a m Hm). split; [lia | done].
  - rewrite P. done.
  - intros i c Lc. destruct (Bwd i c Lc) as [Lc' | (E1 & E2 & E3 & E4 & E5 & E6)]; [apply (queue_ok_other w); [by eapply I7 | done | done | done] |]. constructor; rewrite ?E2, ?E3, ?E4, ?E5, ?E6; try done; [apply NoDup_nil_2 | by intros r Hr%elem_of_nil | apply NoDup_nil_2 | by intros t Ht%elem_of_nil | by intros r a m Hr%elem_of_nil | by intros t a flg m Ht%elem_of_nil].
  - intros t p Hp. specialize (I8 t p Hp). destruct p as [ptr a flg | ptr sz typ mode flg r]; cbn in *.
    + destruct I8 as (K1 & K2 & K3). split; [lia |]. split; [intros i c Lc Ec; apply (K2 i c); [apply Bwd'; [done | lia] | done] |]. intros Hno. apply K3. intros i c Lc. by apply (Hno i c), Fwd.
    + destruct I8 as (K1 & K2 & K3). split; [done |]. split; [| done]. intros H. destruct (K2 H) as (i & c & Lc & ?). exists i, c. split; [by apply Fwd | done].
  - rewrite I9. f_equal. by apply bytes_perm.
  - rewrite I10. f_equal. by rewrite P.
Qed.

Lemma newque_good cur key flg ctlmnb now b1 b2 w : inv [] w -> good (newque cur key flg ctlmnb now b1 b2 w).
Proof.
  intros I. unfold newque. destruct b1; cbn [negb]; [| by apply good_answer]. set (msq := mk_msq _ _ _ _ _ _ _ _ _ _ _ _ _). destruct (ipc_addid_spec (msg_ids w) msq MSGMNI b2 cur (i_ids _ _ I) ltac:(done)) as (r & ids' & E & Ok & D).
  destruct (addid_entries (msg_ids w) msq MSGMNI b2 cur r ids' (i_ids _ _ I) ltac:(done) E) as (n & D'). rewrite E. cbn [mbind option_bind]. assert (forall i c, live (msg_ids w) i c -> q_ptr c <> next_addr w) as Hold by (intros i c Lc; pose proof (i_addr _ _ I _ _ Lc); lia).
  assert (inv [] (set_next (next_addr w + 1) (set_ids ids' w))) as I'; [| destruct (r =? -1); by apply good_answer]. destruct D as [(-> & _ & _ & Lv) | (lid & -> & _ & Fr & _ & _ & Lv)].
  - destruct D' as [(_ & Ee) | (lid & ? & _)]; [| lia]. apply inv_new_ids; [done | done | intros i c; by apply Lv | intros i c; rewrite Lv; by left | | by rewrite Ee, on_queues_none]. intros i c i' c' Lc%Lv Lc' Ec. by destruct (Hold i c Lc).
  - destruct D' as [(? & _) | (lid' & El & Hf & Ee)]; [lia |]. assert (lid' = lid) as -> by lia. set (new := with_perm _ _) in *. apply inv_new_ids; [done | done | | | |].
    + intros i c Lc. apply Lv. right. split; [| done]. intros ->. by apply (Fr c).
    + intros i c [[-> ->] | [_ Lc]]%Lv; [right | by left]. done.
    + intros i c i' c' [[-> ->] | [_ Lc]]%Lv [[-> ->] | [_ Lc']]%Lv Ec Ec'; [done | by destruct (Hold i' c' Lc') | by destruct (Hold i c Lc) | by destruct (Hold i c Lc)].
    + pose proof (on_queues_insert _ _ _ (Some new) Hf) as P. rewrite <- Ee in P. cbn [held_by_queue] in P. rewrite app_nil_r in P. rewrite P, on_queues_none. done.
Qed.

Lemma sys_msgget_good cur key flg ctlmnb now b1 b2 w : inv [] w -> good (sys_msgget cur key flg ctlmnb now b1 b2 w).
Proof.
  intros I. unfold sys_msgget. destruct (key =? IPC_PRIVATE); [by apply newque_good |]. pose proof (ipc_findkey_spec (msg_ids w) key (i_ids _ _ I)) as (id & -> & Hid). cbn [mbind option_bind]. destruct (Z.eqb_spec id (-1)) as [-> | Hne]; [destruct (negb _); [by apply good_answer | by apply newque_good] |]. destruct (_ && _); [by apply good_answer |].
  destruct Hid as [[-> _] | (lid & q & -> & L & _)]; [done |]. destruct (live_range _ _ _ (i_ids _ _ I) L) as [Hl _]. assert (msg_lock w (Z.of_nat lid) = Some q) as ->. { apply ipc_lock_live; [apply (i_ids _ _ I) |]. rewrite place_small by lia. done. } cbn [mbind option_bind]. destruct (negb _); by apply good_answer.
Qed.

(** ** Every run *)

Lemma exec_msg_good x w : inv [] w -> good (exec x w).
Proof.
  intros I. assert (good (Some (None, w))) as Idle by (by eexists _, _). destruct x; cbn [exec].
  - by apply sys_msgget_good.
  - by apply sys_msgctl_good.
  - destruct (pcs w !! t) eqn:Hp; [done |]. apply sys_msgsnd_good; [done | done | apply u32_range].
  - destruct (pcs w !! t) eqn:Hp; [done |]. apply sys_msgrcv_good; [done | done | apply u32_range].
  - destruct (pcs w !! t) as [[] |] eqn:Hp; [by apply snd_wake_good | by apply rcv_wake_good | done].
Qed.

Lemma msg_init_inv alloc : inv [] (msg_init alloc).
Proof.
  assert (forall i c, ~ live (msg_ids (msg_init alloc)) i c) as Nl by (intros i c [? _]%lookup_replicate; done). assert (on_queues (entries (msg_ids (msg_init alloc))) = []) as E by (apply (on_queues_none [])).
  constructor; cbn -[entries msg_ids]; try done; rewrite ?E; try done; try (intros i c L; by apply Nl in L).
  - by apply init_ok.
  - intros i c i' c' L. by apply Nl in L.
Qed.

Lemma run_msg_inv xs w : inv [] w -> exists w', run_msg xs w = Some w' /\ inv [] w'.
Proof.
  revert w. induction xs as [| x xs IH]; intros w I; cbn [run_msg]; [by exists w |]. destruct (exec_msg_good x w I) as (o & w1 & -> & I1). cbn [mbind option_bind]. by apply IH.
Qed.

(** What holds between two sections. *)
Definition msg_safe (w : world) : Prop :=
  (on_queues (entries (msg_ids w)) ++ with_tasks (pcs w) ≡ₚ addresses (heap w)) /\
  (forall lid q, live (msg_ids w) lid q -> q_cbytes q = bytes (heap w) (q_messages q) /\ q_qnum q = Z.of_nat (length (q_messages q))) /\
  (u32 (msg_bytes w) = u32 (bytes (heap w) (on_queues (entries (msg_ids w)))) /\ u32 (msg_hdrs w) = u32 (Z.of_nat (length (on_queues (entries (msg_ids w)))))) /\
  (forall t ptr sz typ mode flg r, pcs w !! t = Some (Receiving ptr sz typ mode flg r) -> t ∉ woken w ->
     r = R_err (- EAGAIN) /\ exists lid q, live (msg_ids w) lid q /\ q_ptr q = ptr /\ forall a m, a ∈ q_messages q -> heap w !! a = Some m -> testmsg m typ mode = false) /\
  (forall t ptr a flg, pcs w !! t = Some (Sending ptr a flg) -> t ∉ woken w ->
     exists lid q m, live (msg_ids w) lid q /\ q_ptr q = ptr /\ heap w !! a = Some m /\ (q_qbytes q < m_ts m + q_cbytes q \/ q_qbytes q < 1 + q_qnum q)).

Lemma inv_msg_safe w : inv [] w -> msg_safe w.
Proof.
  intros I. split; [rewrite <- (i_held _ _ I); by rewrite app_nil_r |]. split; [intros lid q L; destruct (i_queue _ _ I _ _ L); done |]. split; [split; apply I |]. split.
  - intros t ptr sz typ mode flg r Hp Hw. destruct (i_pc _ _ I _ _ Hp) as (_ & H1 & H2). assert (r = R_err (- EAGAIN)) as ->. { destruct r as [e | a]; [destruct (decide (e = - EAGAIN)) as [-> | He]; [done |] |]; exfalso; apply Hw, H2; congruence. } split; [done |].
    destruct (H1 eq_refl) as (lid & q & L & Eq & (r & Er & Hr)%list_elem_of_fmap). exists lid, q. split; [done |]. split; [done |]. intros a m Ha Hm. pose proof (i_queue _ _ I _ _ L) as Q. pose proof (qo_match _ _ Q r a m Hr Ha Hm) as Hno. destruct (qo_rcv _ _ Q r Hr) as (sz' & flg' & Hp'). rewrite <- Er, Hp in Hp'. injection Hp' as _ _ -> -> _. done.
  - intros t ptr a flg Hp Hw. destruct (i_pc _ _ I _ _ Hp) as (_ & H1 & H2). unfold lock_by_ptr in *. pose proof (find_ptr_live q_ptr (msg_ids w) ptr) as Hf. destruct (find_ptr q_ptr (entries (msg_ids w)) ptr 0) as [[lid q] |]; [| by destruct Hw; apply H2]. destruct Hf as [L Eq]. subst ptr. pose proof (i_queue _ _ I _ _ L) as Q.
    destruct (held_in_heap _ _ a I) as [m Hm]. { apply elem_of_app. right. apply elem_of_app. left. eapply in_task; [exact Hp | cbn; set_solver]. } exists lid, q, m. split; [done |]. split; [done |]. split; [done |].
    pose proof (qo_full _ _ Q t a flg m (H1 lid q L eq_refl) Hw Hp Hm) as F. unfold fits in F. pose proof (qo_bytes _ _ Q) as Ec. pose proof (qo_num _ _ Q) as En. pose proof (queue_split _ _ _ L) as P.
    pose proof (held_bound _ _ (a :: q_messages q) (on_queues (<[lid := None]> (entries (msg_ids w))) ++ with_tasks (delete t (pcs w)) ++ []) I) as H. cbn [bytes foldr length] in H. fold (bytes (heap w) (q_messages q)) in H. rewrite (size_at _ _ _ Hm) in H.
    specialize (H ltac:(rewrite P, (with_tasks_delete _ _ _ Hp); cbn [held_by app]; rewrite <- !app_assoc; cbn [app]; rewrite <- !Permutation_middle; done)). pose proof (bytes_nonneg _ _ (q_messages q) I). destruct (i_heap _ _ I a m Hm) as (_ & [Hts _] & _). rewrite (u32_id (m_ts m + q_cbytes q)), (u32_id (1 + q_qnum q)) in F by (unfold is_u32; lia). lia.
Qed.

(** C19. Message queues are safe under every interleaving of the system calls of any number of tasks, with signals, removal of queues, changes of their limits and failing
    allocations: no freed queue, message or stack frame is used ([run_msg] is never [None]); every message in memory is in exactly one place, on a queue or with one task, so
    none is lost, given out twice, leaked or freed twice; the counters of every queue and of the system are exact; a task that sleeps in msgrcv and was not woken has no
    message on its queue that it asks for, and one that sleeps in msgsnd and was not woken has no room on its queue: no wake-up is lost. *)
Theorem msg_system_safe alloc xs : exists w, run_msg xs (msg_init alloc) = Some w /\ msg_safe w.
Proof. destruct (run_msg_inv xs (msg_init alloc) (msg_init_inv alloc)) as (w & E & I). exists w. split; [done | by apply inv_msg_safe]. Qed.

(** ** Direct delivery *)

Lemma find_msg_last h ms a m typ mode : (forall b n, b ∈ ms -> h !! b = Some n -> testmsg n typ mode = false) -> (forall b, b ∈ ms -> is_Some (h !! b)) -> h !! a = Some m -> testmsg m typ mode = true -> find_msg h (ms ++ [a]) typ mode None = Some (Some a).
Proof.
  intros Hno Hin Ha Ht. induction ms as [| b ms IH]; cbn [app find_msg].
  - rewrite Ha. cbn [mbind option_bind]. rewrite Ht. by destruct (_ && _).
  - destruct (Hin b ltac:(by left)) as [n Hn]. rewrite Hn. cbn [mbind option_bind]. rewrite (Hno b n ltac:(by left) Hn). apply IH; intros; [eapply Hno; [by right | done] | apply Hin; by right].
Qed.

(** Receivers before the one that gets the message either want another one or have too small a buffer. *)
Definition passed_over (m : msg_msg) (r : msg_receiver) : Prop := testmsg m (r_msgtype r) (r_mode r) = true -> r_maxsize r < m_ts m.

Lemma pipelined_sent a m now rs : forall kept q w sent q' w', pipelined_loop rs kept a m now q w = Some (sent, q', w') -> q_messages q' = q_messages q /\
  if sent : bool then exists rs1 r rs2, rs = rs1 ++ r :: rs2 /\ (forall x, x ∈ rs1 -> passed_over m x) /\ testmsg m (r_msgtype r) (r_mode r) = true /\ m_ts m <= r_maxsize r /\
    exists ptr sz typ mode flg, pcs w' !! r_tsk r = Some (Receiving ptr sz typ mode flg (R_msg a))
  else forall x, x ∈ rs -> passed_over m x.
Proof.
  unfold passed_over. induction rs as [| r rs IH]; intros kept q w sent q' w' E; cbn [pipelined_loop] in E.
  { injection E as <- <- <-. split; [done | by intros x Hx%elem_of_nil]. }
  destruct (testmsg m (r_msgtype r) (r_mode r)) eqn:Ht; [destruct (Z.ltb_spec (r_maxsize r) (m_ts m)) as [Hs | Hs] |].
  2: { unfold set_r_msg in E. destruct (pcs (wake_task (r_tsk r) w) !! r_tsk r) as [[| ptr sz typ mode flg x] |]; try discriminate E. injection E as <- <- <-. split; [done |].
       exists [], r, rs. repeat split; [by intros y Hy%elem_of_nil | done | lia |]. exists ptr, sz, typ, mode, flg. apply lookup_insert_eq. }
  1: destruct (set_r_msg _ _ _) as [w1 |]; [cbn [mbind option_bind] in E | discriminate E].
  all: apply IH in E as [Em E]; split; [exact Em |]; destruct sent.
  1, 3: destruct E as (rs1 & r' & rs2 & -> & Hp & H); exists (r :: rs1), r', rs2; split; [done |]; split; [| exact H]; intros y [-> | Hy]%elem_of_cons; [| by apply Hp].
  3, 4: intros y [-> | Hy]%elem_of_cons; [| by apply E].
  all: congruence || done.
Qed.

(** C21. In every reachable state pipelined_send hands the message to the first sleeping receiver that asks for it and has room, by its [r_msg], or to nobody if there is none;
    and that is what queueing the message would come to: the search by that receiver of the queue with the new message at its end finds this very message. So no
    receiver gets a message while an older one that it asked for is waiting. *)
Theorem handover_as_queued alloc xs w lid q a m now sent q' w' : run_msg xs (msg_init alloc) = Some w -> live (msg_ids w) lid q -> a ∉ q_messages q ->
  pipelined_send a m now q (set_heap (<[a := m]> (heap w)) w) = Some (sent, q', w') -> q_messages q' = q_messages q /\
  if sent : bool then exists rs1 r rs2, q_receivers q = rs1 ++ r :: rs2 /\ (forall x, x ∈ rs1 -> passed_over m x) /\ m_ts m <= r_maxsize r /\
    (exists ptr sz typ mode flg, pcs w' !! r_tsk r = Some (Receiving ptr sz typ mode flg (R_msg a))) /\
    find_msg (<[a := m]> (heap w)) (q_messages q ++ [a]) (r_msgtype r) (r_mode r) None = Some (Some a)
  else forall x, x ∈ q_receivers q -> passed_over m x.
Proof.
  intros E L Ha Hs. destruct (run_msg_inv xs (msg_init alloc) (msg_init_inv alloc)) as (w1 & E' & I). rewrite E in E'. injection E' as <-. pose proof (i_queue _ _ I _ _ L) as Q.
  apply pipelined_sent in Hs as [Hm Hs]. split; [done |]. destruct sent; [| exact Hs]. destruct Hs as (rs1 & r & rs2 & Er & Hp & Ht & Hz & Hd). exists rs1, r, rs2. do 4 (split; [done |]).
  assert (forall b, b ∈ q_messages q -> <[a := m]> (heap w) !! b = heap w !! b) as Hold by (intros b Hb; apply lookup_insert_ne; congruence).
  eapply find_msg_last; [| | apply lookup_insert_eq | done].
  - intros b n Hb Hn. rewrite Hold in Hn by done. eapply (qo_match _ _ Q); [| done | done]. rewrite Er. set_solver.
  - intros b Hb. rewrite Hold by done. destruct (queue_in_heap _ _ _ _ _ I L Hb) as [n Hn]. by eexists.
Qed.

(** ** Examples *)

Definition ex_root : subject := mk_subject 0 0 (fun _ => false) (fun _ => true).
Definition send (t typ : Z) (text : list Z) : action := A_msgsnd t t ex_root 0 (Some typ) (Some <$> text) (Z.of_nat (length text)) 0 8192 100 (fun _ => true).
Definition receive (t sz typ : Z) : action := A_msgrcv t t ex_root 0 sz typ 0 100 (true, 8192).

(** Task 10 waits for type 2, task 11 for any type; a message of type 3 goes to task 11 and one of type 2 to task 10, a third one is queued. *)
Definition ex_run : list action := [A_msgget ex_root 0 0 16384 100 true true; receive 10 8 2; receive 11 8 0; send 12 3 [1; 2]; send 12 2 [3]; send 12 5 [4; 5; 6]].

Definition ex_world (n : nat) : world := default (msg_init true) (run_msg (take n ex_run) (msg_init true)).

Example direct_delivery : pcs (ex_world 6) !! 11 = Some (Receiving 1 8 0 SEARCH_ANY 0 (R_msg 2)) /\ pcs (ex_world 6) !! 10 = Some (Receiving 1 8 2 SEARCH_EQUAL 0 (R_msg 3)) /\
  (q_messages <$> msg_lock (ex_world 6) 0) = Some [4] /\ (fst <$> exec (A_run 11 11 ex_root false 101 (true, 8192)) (ex_world 6)) = Some (Some (mk_answer 2 (Some 3) [1; 2])).
Proof. vm_compute. repeat split. Qed.

Lemma handover_as_queued_witness : match entries (msg_ids (ex_world 3)) !! 0%nat with
  | Some (Some q) => find_msg (<[9 := mk_msg 2 0 [] []]> (heap (ex_world 3))) (q_messages q ++ [9]) 2 SEARCH_EQUAL None = Some (Some 9)
  | _ => False
  end.
Proof.
  destruct (entries (msg_ids (ex_world 3)) !! 0%nat) as [[q |] |] eqn:E; [| vm_compute in E; discriminate E | vm_compute in E; discriminate E].
  destruct (pipelined_send 9 (mk_msg 2 0 [] []) 100 q (set_heap (<[9 := mk_msg 2 0 [] []]> (heap (ex_world 3))) (ex_world 3))) as [[[sent q'] w'] |] eqn:Es;
    vm_compute in E; injection E as <-; [| vm_compute in Es; discriminate Es].
  refine (_ (handover_as_queued true (take 3 ex_run) (ex_world 3) 0 _ 9 (mk_msg 2 0 [] []) 100 sent q' w' _ _ _ Es)); [| vm_compute; reflexivity | vm_compute; reflexivity | apply not_elem_of_nil].
  intros [_ H]. destruct sent; [| vm_compute in Es; discriminate Es]. destruct H as ([| x rs1] & r & rs2 & Er & Hp & _ & _ & H); cbn in Er; injection Er as <- Er; [exact H |].
  specialize (Hp _ ltac:(left) eq_refl). discriminate Hp.
Defined.
