(* ===== verification/Buddy.v ===== *)
(** * The page allocator: mm/page_alloc.c, include/linux/mmzone.h

    A zone is an array of pages. Free pages are in blocks of 2^order pages, on one list
    for each order; a bit for each pair of neighbouring blocks (buddies) of an order says
    that exactly one of the two is on the list, so that a block that is freed can be
    joined with its buddy. Single pages go through two lists of the processor (hot and
    cold) first. [__alloc_pages] chooses the zone.

    A page is given by its index in [zone_mem_map]. The parts under [zone->lock] or with
    interrupts off are functions on the zone; [None] is a failed [BUG_ON], an access
    outside a bitmap or taking a page off a list it is not on. Options: one processor,
    no CONFIG_PREEMPT_RT, no CONFIG_HUGETLB_PAGE (so no compound pages), no NUMA. The
    flags and reference counts of pages, which [free_pages_check] and [prep_new_page]
    test and set, and the statistics are not modelled: [free_hot_cold_page] and
    [__free_pages_ok] are what [__free_pages] does when the last reference is dropped.
    Reclaim ([try_to_free_pages]) and the tasks that run meanwhile are arguments. *)

From stdpp Require Import list gmap fin_sets.
From S2P Require Import Prelude.

Definition MAX_ORDER : nat := 11.

(** ** Data *)

(** The list of free blocks, by their first pages, and the words of the bitmap. *)
Record free_area := mk_area { free_list : list Z; area_map : list Z }.

Record per_cpu_pages := mk_pcp { pcp_count : Z; pcp_low : Z; pcp_high : Z; pcp_batch : Z; pcp_list : list Z }.

(** [hot] and [cold] are [pageset[0].pcp]. *)
Record zone := mk_zone {
  free_pages : Z; areas : list free_area; hot : per_cpu_pages; cold : per_cpu_pages;
  pages_min : Z; pages_low : Z; pages_high : Z; protection : list Z;
  all_unreclaimable : bool; pages_scanned : Z; spanned_pages : Z; present_pages : Z }.

Definition set_free v z := mk_zone v (areas z) (hot z) (cold z) (pages_min z) (pages_low z) (pages_high z) (protection z) (all_unreclaimable z) (pages_scanned z) (spanned_pages z) (present_pages z).
Definition set_areas v z := mk_zone (free_pages z) v (hot z) (cold z) (pages_min z) (pages_low z) (pages_high z) (protection z) (all_unreclaimable z) (pages_scanned z) (spanned_pages z) (present_pages z).
Definition set_pcps h c z := mk_zone (free_pages z) (areas z) h c (pages_min z) (pages_low z) (pages_high z) (protection z) (all_unreclaimable z) (pages_scanned z) (spanned_pages z) (present_pages z).
Definition set_scanned u n z := mk_zone (free_pages z) (areas z) (hot z) (cold z) (pages_min z) (pages_low z) (pages_high z) (protection z) u n (spanned_pages z) (present_pages z).

Definition set_area (order : nat) (a : free_area) (z : zone) : zone := set_areas (<[order := a]> (areas z)) z.

Definition pcp_of (is_cold : bool) (z : zone) : per_cpu_pages := if is_cold then cold z else hot z.
Definition set_pcp (is_cold : bool) (p : per_cpu_pages) (z : zone) : zone :=
  if is_cold then set_pcps (hot z) p z else set_pcps p (cold z) z.

Definition pow2 (order : nat) : Z := Z.shiftl 1 (Z.of_nat order).

(** ** Lists and bits *)

Definition list_del (p : Z) (l : list Z) : option (list Z) := if decide (p ∈ l) then Some (filter (fun q => q <> p) l) else None.
Definition list_add (p : Z) (l : list Z) : list Z := p :: l.
Definition list_add_tail (p : Z) (l : list Z) : list Z := l ++ [p].

Definition __test_and_change_bit (nr : Z) (p : list Z) : option (bool * list Z) :=
  oldval ← p !! Z.to_nat (Z.shiftr nr 5);
  let mask := Z.shiftl 1 (Z.land nr 31) in
  Some (negb (Z.land oldval mask =? 0), <[Z.to_nat (Z.shiftr nr 5) := Z.lxor oldval mask]> p).

Definition __change_bit (nr : Z) (p : list Z) : option (list Z) :=
  oldval ← p !! Z.to_nat (Z.shiftr nr 5);
  Some (<[Z.to_nat (Z.shiftr nr 5) := Z.lxor oldval (Z.shiftl 1 (Z.land nr 31))]> p).

(** ** The buddy system *)

Definition bad_range (z : zone) (page : Z) : bool := (spanned_pages z <=? page) || (page <? 0).

(** The loop of [__free_pages_bulk], with [n] orders above [order]. *)
Fixpoint merge_loop (n order : nat) (page_idx index mask : Z) (z : zone) : option (nat * Z * zone) :=
  match n with
  | O => Some (order, page_idx, z)
  | S n =>
      area ← areas z !! order;
      '(bit, map) ← __test_and_change_bit index (area_map area);
      if negb bit then Some (order, page_idx, set_area order (mk_area (free_list area) map) z)
      else
        let buddy1 := Z.lxor page_idx (pow2 order) in
        if bad_range z buddy1 || bad_range z page_idx then None
        else
          l ← list_del buddy1 (free_list area);
          let z := set_area order (mk_area l map) z in
          let mask := u32 (Z.shiftl mask 1) in
          merge_loop n (S order) (Z.land page_idx mask) (Z.shiftr index 1) mask z
  end.

Definition __free_pages_bulk (page_idx : Z) (z : zone) (order : nat) : option zone :=
  let mask := u32 (Z.shiftl 4294967295 (Z.of_nat order)) in
  if negb (Z.land page_idx (not32 mask) =? 0) then None
  else
    let index := Z.shiftr page_idx (1 + Z.of_nat order) in
    let z := set_free (u32 (free_pages z + pow2 order)) z in
    '(order, page_idx, z) ← merge_loop (MAX_ORDER - 1 - order) order page_idx index mask z;
    area ← areas z !! order;
    Some (set_area order (mk_area (list_add page_idx (free_list area)) (area_map area)) z).

(** Its loop takes pages from the end of the list: [rl] is the list backwards. *)
Fixpoint free_bulk_loop (rl : list Z) (count : Z) (order : nat) (ret : Z) (z : zone) : option (Z * list Z * zone) :=
  match rl with
  | [] => Some (ret, [], z)
  | page :: rl =>
      if count =? 0 then Some (ret, page :: rl, z)
      else z ← __free_pages_bulk page z order; free_bulk_loop rl (count - 1) order (ret + 1) z
  end.

(** The number of pages freed and the rest of the list. *)
Definition free_pages_bulk (z : zone) (count : Z) (l : list Z) (order : nat) : option (Z * list Z * zone) :=
  '(ret, rl, z) ← free_bulk_loop (reverse l) count order 0 (set_scanned false 0 z);
  Some (ret, reverse rl, z).

Definition __free_pages_ok (page : Z) (order : nat) (z : zone) : option zone :=
  '(_, _, z) ← free_pages_bulk z 1 [page] order; Some z.

(** [n] is [high - low]. *)
Fixpoint expand (n : nat) (page index : Z) (high : nat) (z : zone) : option zone :=
  match n with
  | O => Some z
  | S n =>
      let high := pred high in
      let size := pow2 high in
      if bad_range z (page + size) then None
      else
        area ← areas z !! high;
        map ← __change_bit (Z.shiftr (index + size) (1 + Z.of_nat high)) (area_map area);
        expand n page index high (set_area high (mk_area (list_add (page + size) (free_list area)) map) z)
  end.

(** The loop of [__rmqueue], with [n] orders left. *)
Fixpoint rmqueue_loop (n current_order order : nat) (z : zone) : option (option Z * zone) :=
  match n with
  | O => Some (None, z)
  | S n =>
      area ← areas z !! current_order;
      match free_list area with
      | [] => rmqueue_loop n (S current_order) order z
      | page :: l =>
          map ← (if (current_order =? MAX_ORDER - 1)%nat then Some (area_map area)
                 else __change_bit (Z.shiftr page (1 + Z.of_nat current_order)) (area_map area));
          let z := set_free (u32 (free_pages z - pow2 order)) (set_area current_order (mk_area l map) z) in
          z ← expand (current_order - order) page page current_order z;
          Some (Some page, z)
      end
  end.

Definition __rmqueue (z : zone) (order : nat) : option (option Z * zone) := rmqueue_loop (MAX_ORDER - order) order order z.

Fixpoint rmqueue_bulk_loop (count order : nat) (allocated : Z) (l : list Z) (z : zone) : option (Z * list Z * zone) :=
  match count with
  | O => Some (allocated, l, z)
  | S count =>
      '(page, z) ← __rmqueue z order;
      match page with
      | None => Some (allocated, l, z)
      | Some page => rmqueue_bulk_loop count order (allocated + 1) (list_add_tail page l) z
      end
  end.

Definition rmqueue_bulk (z : zone) (order : nat) (count : Z) (l : list Z) : option (Z * list Z * zone) :=
  rmqueue_bulk_loop (Z.to_nat count) order 0 l z.

(** ** The lists of the processor *)

Definition free_hot_cold_page (page : Z) (is_cold : bool) (z : zone) : option zone :=
  let pcp := pcp_of is_cold z in
  '(count, l, z) ← (if pcp_high pcp <=? pcp_count pcp then
                      '(n, l, z) ← free_pages_bulk z (pcp_batch pcp) (pcp_list pcp) 0;
                      Some (pcp_count pcp - n, l, z)
                    else Some (pcp_count pcp, pcp_list pcp, z));
  Some (set_pcp is_cold (mk_pcp (count + 1) (pcp_low pcp) (pcp_high pcp) (pcp_batch pcp) (list_add page l)) z).

Definition buffered_rmqueue (z : zone) (order : nat) (is_cold : bool) : option (option Z * zone) :=
  '(page, z) ← (if (order =? 0)%nat then
       let pcp := pcp_of is_cold z in
       '(n, l, z) ← (if pcp_count pcp <=? pcp_low pcp then rmqueue_bulk z 0 (pcp_batch pcp) (pcp_list pcp) else Some (0, pcp_list pcp, z));
       let count := pcp_count pcp + n in
       let pcp' := fun count l => set_pcp is_cold (mk_pcp count (pcp_low pcp) (pcp_high pcp) (pcp_batch pcp) l) z in
       if count =? 0 then Some (None, pcp' count l)
       else page ← head l; l ← list_del page l; Some (Some page, pcp' (count - 1) l)
     else Some (None, z));
  '(page, z) ← (match page with None => __rmqueue z order | Some page => Some (Some page, z) end);
  match page with
  | Some page => if bad_range z page then None else Some (Some page, z)
  | None => Some (None, z)
  end.

(** [drain_local_pages]: both lists go back to the buddy system. *)
Definition drain_pcp (is_cold : bool) (z : zone) : option zone :=
  let pcp := pcp_of is_cold z in
  '(n, l, z) ← free_pages_bulk z (pcp_count pcp) (pcp_list pcp) 0;
  Some (set_pcp is_cold (mk_pcp (pcp_count pcp - n) (pcp_low pcp) (pcp_high pcp) (pcp_batch pcp) l) z).

Definition __drain_pages (z : zone) : option zone := z ← drain_pcp false z; drain_pcp true z.

(** The number of pages of the free block that starts at [page], 0 when there is none. *)
Fixpoint head_search (n : nat) (page : Z) (z : zone) : option Z :=
  match n with
  | O => Some 0
  | S order => area ← areas z !! order; if decide (page ∈ free_list area) then Some (pow2 order) else head_search order page z
  end.

Definition is_head_of_free_region (z : zone) (page : Z) : option Z := head_search MAX_ORDER page z.

(** ** Setting up a zone *)

Definition pages_to_bitmap_size (order nr_pages : Z) : Z :=
  let bitmap_size := Z.shiftr (u32 (nr_pages - 1)) (order + 4) in
  Z.land (bitmap_size + 1 + 3) (not32 3).

(** The bitmaps come from [alloc_bootmem_node], which clears them; the last order has none. *)
Definition zone_init_free_lists (size : Z) : list free_area :=
  ((fun order => mk_area [] (replicate (Z.to_nat (pages_to_bitmap_size (Z.of_nat order) size / 4)) 0)) <$> seq 0 (MAX_ORDER - 1)) ++ [mk_area [] []].

Definition PAGE_SIZE : Z := 4096.

Definition init_batch (realsize : Z) : Z :=
  let batch := realsize / 1024 in
  let batch := if 256 * 1024 <? batch * PAGE_SIZE then 256 * 1024 / PAGE_SIZE else batch in
  let batch := batch / 4 in
  if batch <? 1 then 1 else batch.

(** [free_area_init_core] for one zone of [size] pages of which [realsize] are present;
    the watermarks are set later. *)
Definition init_zone (size realsize : Z) : zone :=
  let batch := init_batch realsize in
  mk_zone 0 (zone_init_free_lists size) (mk_pcp 0 (2 * batch) (6 * batch) batch []) (mk_pcp 0 0 (2 * batch) batch [])
    0 0 0 [0; 0; 0] false 0 size realsize.

(** [setup_per_zone_pages_min] for a zone that is not high memory. *)
Definition setup_per_zone_pages_min (min_free_kbytes lowmem_pages : Z) (z : zone) : zone :=
  let pages_min := u32 (Z.shiftr min_free_kbytes 2 * present_pages z) / lowmem_pages in
  mk_zone (free_pages z) (areas z) (hot z) (cold z) pages_min (u32 (pages_min * 5) / 4) (u32 (pages_min * 6) / 4)
    (protection z) (all_unreclaimable z) (pages_scanned z) (spanned_pages z) (present_pages z).

(** ** Choosing a zone *)











(** * Correctness *)

(** ** Blocks *)

Lemma pow2_spec o : pow2 o = 2 ^ Z.of_nat o.
Proof. unfold pow2. rewrite Z.shiftl_1_l. done. Qed.

Lemma pow2_pos o : 0 < pow2 o.
Proof. rewrite pow2_spec. apply Z.pow_pos_nonneg; lia. Qed.

Lemma pow2_S o : pow2 (S o) = 2 * pow2 o.
Proof. rewrite !pow2_spec, Nat2Z.inj_succ, Z.pow_succ_r by lia. done. Qed.

Lemma pow2_le o o' : (o <= o')%nat -> exists d, 0 < d /\ pow2 o' = d * pow2 o.
Proof.
  intros H. exists (2 ^ (Z.of_nat o' - Z.of_nat o)). rewrite !pow2_spec. split; [apply Z.pow_pos_nonneg; lia |].
  rewrite <- Z.pow_add_r by lia. f_equal. lia.
Qed.

(** The pages of the block of order [o] that starts at [q]. *)
Definition in_block (o : nat) (q p : Z) : Prop := q <= p < q + pow2 o.

(** [k] is the number of the block among those of its order. *)
Definition aligned (o : nat) (q : Z) : Prop := exists k, 0 <= k /\ q = k * pow2 o.

Definition block_ok (size : Z) (o : nat) (q : Z) : Prop := (o < MAX_ORDER)%nat /\ aligned o q /\ q + pow2 o <= size.

(** The number of the block next to block [k]. *)
Definition sibling (k : Z) : Z := if Z.even k then k + 1 else k - 1.

(** Of two blocks with a common page, the one of smaller order lies in the other. *)
Lemma nested o q o' q' p : (o <= o')%nat -> aligned o q -> aligned o' q' -> in_block o q p -> in_block o' q' p ->
  forall x, in_block o q x -> in_block o' q' x.
Proof.
  intros Ho (k & Hk & ->) (k' & Hk' & ->) Hp Hp' x Hx. destruct (pow2_le o o' Ho) as (d & Hd & E). unfold in_block in *. rewrite E in *.
  pose proof (pow2_pos o) as P. assert (k' * d <= k < k' * d + d) as K by (split; nia). split; nia.
Qed.

Lemma same_start o q q' p : aligned o q -> aligned o q' -> in_block o q p -> in_block o q' p -> q = q'.
Proof.
  intros (k & Hk & ->) (k' & Hk' & ->). unfold in_block. pose proof (pow2_pos o). intros H1 H2. assert (k = k') by nia. by subst.
Qed.

Lemma first_in_block o q : in_block o q q.
Proof. unfold in_block. pose proof (pow2_pos o). lia. Qed.

Lemma sibling_spec k : 0 <= k -> 0 <= sibling k /\ sibling k <> k /\ sibling k / 2 = k / 2 /\ sibling (sibling k) = k /\
  (k = 2 * (k / 2) /\ sibling k = 2 * (k / 2) + 1 \/ k = 2 * (k / 2) + 1 /\ sibling k = 2 * (k / 2)).
Proof.
  intros Hk. unfold sibling. rewrite Zeven_mod. pose proof (Z.div_mod k 2 ltac:(lia)) as D. pose proof (Z.mod_pos_bound k 2 ltac:(lia)) as M.
  destruct (Z.eqb_spec (k mod 2) 0) as [E | E].
  - rewrite Zeven_mod. replace ((k + 1) mod 2) with 1 by (apply (Z.mod_unique _ _ (k / 2)); lia). cbn.
    replace ((k + 1) / 2) with (k / 2) by (apply (Z.div_unique _ _ _ 1); lia). lia.
  - rewrite Zeven_mod. replace ((k - 1) mod 2) with 0 by (apply (Z.mod_unique _ _ (k / 2)); lia). cbn.
    replace ((k - 1) / 2) with (k / 2) by (apply (Z.div_unique _ _ _ 0); lia). lia.
Qed.

(** The two halves of a block. *)
Lemma in_halves o i p : in_block (S o) (i * pow2 (S o)) p <-> in_block o (2 * i * pow2 o) p \/ in_block o ((2 * i + 1) * pow2 o) p.
Proof. unfold in_block. rewrite pow2_S. pose proof (pow2_pos o). split; [intros ?; lia | intros [? | ?]; lia]. Qed.

Lemma in_siblings o k p : 0 <= k -> in_block (S o) (k / 2 * pow2 (S o)) p <-> in_block o (k * pow2 o) p \/ in_block o (sibling k * pow2 o) p.
Proof.
  intros Hk. rewrite in_halves. destruct (sibling_spec k Hk) as (_ & _ & _ & _ & [[E1 E2] | [E1 E2]]); rewrite E2, <- E1; tauto.
Qed.

(** ** Free lists and bits, for themselves *)

Definition upd {A} (f : nat -> A) (o : nat) (x : A) : nat -> A := fun o' => if decide (o' = o) then x else f o'.
Definition flip (B : nat -> Z -> bool) (o : nat) (i : Z) : nat -> Z -> bool := fun o' i' => if decide (o' = o /\ i' = i) then negb (B o' i') else B o' i'.

Definition free_page (L : nat -> list Z) (p : Z) : Prop := exists o q, q ∈ L o /\ in_block o q p.

(** Block [k] of order [o] is on its list. *)
Definition on (L : nat -> list Z) (o : nat) (k : Z) : bool := bool_decide (k * pow2 o ∈ L o).

Record lists_ok (size : Z) (L : nat -> list Z) (B : nat -> Z -> bool) : Prop := {
  lo_block : forall o q, q ∈ L o -> block_ok size o q;
  lo_nodup : forall o, NoDup (L o);
  lo_disj : forall o q o' q' p, q ∈ L o -> q' ∈ L o' -> in_block o q p -> in_block o' q' p -> o = o' /\ q = q';
  lo_bit : forall o k, (o < MAX_ORDER - 1)%nat -> 0 <= k -> k * pow2 o < size -> B o (k / 2) = xorb (on L o k) (on L o (sibling k));
  lo_pair : forall o k, (o < MAX_ORDER - 1)%nat -> 0 <= k -> on L o k = true -> on L o (sibling k) = false
}.

Lemma upd_eq {A} (f : nat -> A) o x : upd f o x o = x.
Proof. unfold upd. by rewrite decide_True. Qed.

Lemma upd_ne {A} (f : nat -> A) o x o' : o' <> o -> upd f o x o' = f o'.
Proof. unfold upd. intros. by rewrite decide_False. Qed.

Lemma on_spec L o k : on L o k = true <-> k * pow2 o ∈ L o.
Proof. apply bool_decide_eq_true. Qed.

Lemma on_ext L L' o k : (k * pow2 o ∈ L o <-> k * pow2 o ∈ L' o) -> on L o k = on L' o k.
Proof. intros H. unfold on. by apply bool_decide_ext. Qed.

Lemma mul_pow2_inj o k k' : k * pow2 o = k' * pow2 o -> k = k'.
Proof. pose proof (pow2_pos o). nia. Qed.

(** The bits after block [k] of order [o] came on its list or went off it. *)
Lemma flip_bits size L B L' o k : (o < MAX_ORDER - 1)%nat -> 0 <= k ->
  (forall o k, (o < MAX_ORDER - 1)%nat -> 0 <= k -> k * pow2 o < size -> B o (k / 2) = xorb (on L o k) (on L o (sibling k))) ->
  (forall o', o' <> o -> L' o' = L o') -> (forall j, j <> k -> on L' o j = on L o j) -> on L' o k = negb (on L o k) ->
  forall o1 j, (o1 < MAX_ORDER - 1)%nat -> 0 <= j -> j * pow2 o1 < size -> flip B o (k / 2) o1 (j / 2) = xorb (on L' o1 j) (on L' o1 (sibling j)).
Proof.
  intros Ho Hk HB Hne Hj Hon o1 j Ho1 Hj0 Hs. unfold flip. specialize (HB o1 j Ho1 Hj0 Hs). destruct (decide (o1 = o)) as [-> | No].
  2: { rewrite decide_False by (by intros [? _]). rewrite HB. unfold on. by rewrite Hne. }
  destruct (sibling_spec j Hj0) as (Sj & Nj & Dj & Ij & Cj), (sibling_spec k Hk) as (Sk & Nk & Dk & Ik & Ck).
  destruct (decide (j / 2 = k / 2)) as [E | E].
  - rewrite decide_True by done. rewrite HB. assert (j = k \/ j = sibling k) as [-> | ->] by lia.
    + rewrite Hon, (Hj (sibling k)) by done. by destruct (on L o k), (on L o (sibling k)).
    + rewrite Ik, Hon, (Hj (sibling k)) by done. by destruct (on L o k), (on L o (sibling k)).
  - rewrite decide_False by (by intros [_ ?]). rewrite HB, (Hj j), (Hj (sibling j)); [done | congruence | congruence].
Qed.

Definition flipb (B : nat -> Z -> bool) (o : nat) (k : Z) : nat -> Z -> bool := if (o <? MAX_ORDER - 1)%nat then flip B o (k / 2) else B.

Lemma on_upd_ne L o l o' j : o' <> o -> on (upd L o l) o' j = on L o' j.
Proof. intros H. unfold on. by rewrite upd_ne. Qed.

(** The pair condition after an update of the list of order [o]. *)
Lemma flipb_bits size L B l o k : 0 <= k -> lists_ok size L B ->
  (forall j, j <> k -> j * pow2 o ∈ l <-> j * pow2 o ∈ L o) -> (k * pow2 o ∈ l <-> k * pow2 o ∉ L o) ->
  forall o1 j, (o1 < MAX_ORDER - 1)%nat -> 0 <= j -> j * pow2 o1 < size ->
    flipb B o k o1 (j / 2) = xorb (on (upd L o l) o1 j) (on (upd L o l) o1 (sibling j)).
Proof.
  intros Hk Ok Hj Hkk o1 j Ho1 Hj0 Hs. unfold flipb. destruct (Nat.ltb_spec o (MAX_ORDER - 1)) as [Ho | Ho].
  - apply (flip_bits size L); [done | done | apply (lo_bit _ _ _ Ok) | intros; by apply upd_ne | | | done | done | done].
    + intros i Hi. apply on_ext. rewrite upd_eq. by apply Hj.
    + unfold on. rewrite upd_eq. destruct (decide (k * pow2 o ∈ L o)) as [Hin | Hin].
      * rewrite (bool_decide_true (_ ∈ L o)), bool_decide_false by tauto. done.
      * rewrite (bool_decide_false (_ ∈ L o)), bool_decide_true by tauto. done.
  - rewrite !on_upd_ne by lia. by apply (lo_bit _ _ _ Ok).
Qed.

Lemma lists_ins size L B o k : lists_ok size L B -> 0 <= k -> block_ok size o (k * pow2 o) -> (forall p, in_block o (k * pow2 o) p -> ~ free_page L p) ->
  ((o < MAX_ORDER - 1)%nat -> on L o (sibling k) = false) -> lists_ok size (upd L o (k * pow2 o :: L o)) (flipb B o k).
Proof.
  intros Ok Hk Hb Hf Hs. set (q := k * pow2 o) in *.
  assert (q ∉ L o) as Nq by (intros Hq; apply (Hf q (first_in_block o q)); exists o, q; split; [done | apply first_in_block]).
  assert (forall o1 x, x ∈ upd L o (q :: L o) o1 -> (o1 = o /\ x = q) \/ x ∈ L o1) as Inv.
  { intros o1 x. unfold upd. case_decide as E; [subst o1 | auto]. intros [-> | ?]%elem_of_cons; auto. }
  constructor.
  - intros o1 x [[-> ->] | Hx]%Inv; [done | by apply (lo_block _ _ _ Ok)].
  - intros o1. unfold upd. case_decide as E; [subst o1; constructor; [done | apply (lo_nodup _ _ _ Ok)] | apply (lo_nodup _ _ _ Ok)].
  - intros o1 x o2 y p [[-> ->] | Hx]%Inv [[-> ->] | Hy]%Inv Px Py; [done | | |].
    + exfalso. apply (Hf p Px). by exists o2, y.
    + exfalso. apply (Hf p Py). by exists o1, x.
    + by apply (lo_disj _ _ _ Ok o1 x o2 y p).
  - apply (flipb_bits size L); [done | done | |].
    + intros j Hj. rewrite elem_of_cons. split; [intros [E | ?]; [by apply mul_pow2_inj in E | done] | by right].
    + split; [done | intros _; by left].
  - intros o1 j Ho1 Hj0. destruct (decide (o1 = o)) as [-> | No]; [| rewrite !on_upd_ne by done; by apply (lo_pair _ _ _ Ok)].
    intros Hon%on_spec. rewrite upd_eq in Hon. apply not_true_is_false. intros Hon'%on_spec. rewrite upd_eq in Hon'.
    destruct (sibling_spec j Hj0) as (Sj & Nj & _ & Ij & _).
    apply elem_of_cons in Hon as [E | Hon], Hon' as [E' | Hon'].
    + apply mul_pow2_inj in E, E'. congruence.
    + apply mul_pow2_inj in E. subst j. specialize (Hs Ho1). apply on_spec in Hon'. congruence.
    + apply mul_pow2_inj in E'. specialize (Hs Ho1). rewrite <- E', Ij in Hs. apply on_spec in Hon. congruence.
    + apply on_spec in Hon, Hon'. rewrite (lo_pair _ _ _ Ok o j Ho1 Hj0 Hon) in Hon'. done.
Qed.

Lemma free_ins L o q p : free_page (upd L o (q :: L o)) p <-> free_page L p \/ in_block o q p.
Proof.
  unfold free_page. split.
  - intros (o1 & x & Hx & Hp). unfold upd in Hx. case_decide as E; [subst o1 | left; by exists o1, x].
    apply elem_of_cons in Hx as [-> | Hx]; [by right | left; by exists o, x].
  - intros [(o1 & x & Hx & Hp) | Hp].
    + exists o1, x. split; [| done]. unfold upd. case_decide; [subst; by right | done].
    + exists o, q. split; [rewrite upd_eq; by left | done].
Qed.

Lemma lists_del size L B o k : lists_ok size L B -> 0 <= k -> k * pow2 o ∈ L o ->
  lists_ok size (upd L o (filter (fun x => x <> k * pow2 o) (L o))) (flipb B o k).
Proof.
  intros Ok Hk Hq. set (q := k * pow2 o) in *.
  assert (forall o1 x, x ∈ upd L o (filter (fun x => x <> q) (L o)) o1 -> x ∈ L o1) as Inv.
  { intros o1 x. unfold upd. case_decide as E; [subst o1; by intros [_ ?]%list_elem_of_filter | done]. }
  constructor.
  - intros o1 x Hx%Inv. by apply (lo_block _ _ _ Ok).
  - intros o1. unfold upd. case_decide as E; [subst o1; apply NoDup_filter |]; apply (lo_nodup _ _ _ Ok).
  - intros o1 x o2 y p Hx%Inv Hy%Inv. by apply (lo_disj _ _ _ Ok).
  - apply (flipb_bits size L); [done | done | |].
    + intros j Hj. rewrite list_elem_of_filter. split; [by intros [_ ?] |]. intros ?. split; [| done]. intros E. by apply mul_pow2_inj in E.
    + rewrite list_elem_of_filter. split; [by intros [? _] | done].
  - intros o1 j Ho1 Hj0 Hon%on_spec%Inv. apply not_true_is_false. intros Hon'%on_spec%Inv. apply on_spec in Hon, Hon'.
    rewrite (lo_pair _ _ _ Ok o1 j Ho1 Hj0 Hon) in Hon'. done.
Qed.

Lemma free_del size L B o q p : lists_ok size L B -> q ∈ L o ->
  free_page (upd L o (filter (fun x => x <> q) (L o))) p <-> free_page L p /\ ~ in_block o q p.
Proof.
  intros Ok Hq. unfold free_page. split.
  - intros (o1 & x & Hx & Hp). assert (x ∈ L o1 /\ (o1 = o -> x <> q)) as [Hx' Hne].
    { unfold upd in Hx. case_decide as E; [subst o1 | done]. apply list_elem_of_filter in Hx as [? ?]. done. }
    split; [by exists o1, x |]. intros Hpq. destruct (lo_disj _ _ _ Ok o1 x o q p Hx' Hq Hp Hpq) as [-> ->]. by apply Hne.
  - intros [(o1 & x & Hx & Hp) Hn]. exists o1, x. split; [| done]. unfold upd. case_decide as E; [subst o1 | done].
    apply list_elem_of_filter. split; [| done]. by intros ->.
Qed.

Lemma lists_ext size L L' B B' : (forall o, L o = L' o) -> (forall o i, (o < MAX_ORDER - 1)%nat -> 0 <= i -> i * pow2 (S o) < size -> B o i = B' o i) ->
  lists_ok size L B -> lists_ok size L' B'.
Proof.
  intros EL EB [H1 H2 H3 H4 H5]. assert (forall o k, on L' o k = on L o k) as On by (intros; unfold on; by rewrite EL).
  constructor.
  - intros o q. rewrite <- EL. apply H1.
  - intros o. rewrite <- EL. apply H2.
  - intros o q o' q' p. rewrite <- !EL. apply H3.
  - intros o k Ho Hk Hs. rewrite !On, <- H4 by done. symmetry. apply EB; [done | apply Z.div_pos; lia |].
    rewrite pow2_S. pose proof (pow2_pos o). pose proof (Z.mul_div_le k 2 ltac:(lia)). nia.
  - intros o k. rewrite !On. apply H5.
Qed.

(** ** Counting *)

Definition total (L : nat -> list Z) : Z := foldr (fun o n => Z.of_nat (length (L o)) * pow2 o + n) 0 (seq 0 MAX_ORDER).

Lemma total_upd L o l : (o < MAX_ORDER)%nat -> total (upd L o l) = total L + (Z.of_nat (length l) - Z.of_nat (length (L o))) * pow2 o.
Proof.
  intros Ho. unfold total. assert (o ∈ seq 0 MAX_ORDER) as Hin by (apply elem_of_seq; lia). pose proof (NoDup_seq 0 MAX_ORDER) as N.
  induction (seq 0 MAX_ORDER) as [| x s IH]; [by apply not_elem_of_nil in Hin |]. apply NoDup_cons in N as [Nx N]. cbn [foldr].
  destruct (decide (x = o)) as [-> | Hne].
  - rewrite upd_eq. enough (foldr (fun o' n => Z.of_nat (length (upd L o l o')) * pow2 o' + n) 0 s = foldr (fun o' n => Z.of_nat (length (L o')) * pow2 o' + n) 0 s) as -> by lia.
    clear IH N Hin. induction s as [| y s IH]; [done |]. cbn. apply not_elem_of_cons in Nx as [? ?]. rewrite upd_ne by done. by rewrite IH.
  - rewrite upd_ne by done. rewrite IH; [lia | set_solver | done].
Qed.

Lemma length_del q (l : list Z) : NoDup l -> q ∈ l -> Z.of_nat (length (filter (fun x => x <> q) l)) = Z.of_nat (length l) - 1.
Proof.
  intros N Hq. apply list_elem_of_split in Hq as (l1 & l2 & ->). apply NoDup_app in N as (_ & N2 & N3). apply NoDup_cons in N3 as [N4 _].
  rewrite filter_app, filter_cons_False by (intros H; by apply H). rewrite !filter_absent; [rewrite !length_app; cbn; lia | done | set_solver].
Qed.

(** ** Bit operations *)

Lemma lxor_sibling o k : 0 <= k -> Z.lxor (k * pow2 o) (pow2 o) = sibling k * pow2 o.
Proof.
  intros Hk. assert (forall h, Z.lxor (2 * h) 1 = 2 * h + 1) as X.
  { intros h. rewrite <- Z.add_nocarry_lxor; [done |]. change 1 with (2 ^ 1 - 1). rewrite land_pow2_mask by lia. rewrite Z.mul_comm. apply Z.mod_mul. lia. }
  assert (Z.lxor k 1 = sibling k) as E.
  { destruct (sibling_spec k Hk) as (_ & _ & _ & _ & [[E1 E2] | [E1 E2]]); rewrite E2; [rewrite E1 at 1; apply X |].
    rewrite E1 at 1. rewrite <- X, Z.lxor_assoc, Z.lxor_nilpotent. apply Z.lxor_0_r. }
  rewrite <- E, pow2_spec, <- !Z.shiftl_mul_pow2 by lia. rewrite Z.shiftl_lxor. by rewrite Z.shiftl_1_l.
Qed.

Definition order_mask (o : nat) : Z := u32 (Z.shiftl 4294967295 (Z.of_nat o)).

Lemma order_mask_S o : u32 (Z.shiftl (order_mask o) 1) = order_mask (S o).
Proof.
  unfold order_mask, u32. rewrite Z.shiftl_mul_pow2 by lia. rewrite Z.mul_mod_idemp_l by lia. rewrite !Z.shiftl_mul_pow2 by lia.
  rewrite Nat2Z.inj_succ, Z.pow_succ_r by lia. f_equal. lia.
Qed.

Lemma order_mask_bit o j : 0 <= j -> Z.testbit (order_mask o) j = (j <? 32) && (Z.of_nat o <=? j).
Proof.
  intros Hj. unfold order_mask. rewrite u32_testbit by done. destruct (Z.ltb_spec j 32) as [H | H]; [| done]. cbn [andb].
  destruct (Z.leb_spec (Z.of_nat o) j) as [H' | H']; [| apply Z.shiftl_spec_low; lia]. rewrite Z.shiftl_spec by lia.
  change 4294967295 with (Z.ones 32). apply Z.ones_spec_low. lia.
Qed.

Lemma is_u32_size p size : 0 <= p < size -> size <= 1048576 -> is_u32 p.
Proof. unfold is_u32. lia. Qed.

Lemma land_mask o p : is_u32 p -> Z.land p (order_mask o) = p / pow2 o * pow2 o.
Proof.
  intros Hu. rewrite pow2_spec, <- Z.shiftl_mul_pow2, <- Z.shiftr_div_pow2 by lia. apply Z.bits_inj'. intros j Hj. rewrite Z.land_spec, order_mask_bit by done.
  destruct (Z.leb_spec (Z.of_nat o) j) as [H | H].
  - rewrite Z.shiftl_spec, Z.shiftr_spec by lia. replace (j - Z.of_nat o + Z.of_nat o) with j by lia.
    destruct (Z.ltb_spec j 32); [by rewrite andb_true_r |]. rewrite (u32_bits_above _ j) by done. done.
  - rewrite andb_false_r, andb_false_r. symmetry. apply Z.shiftl_spec_low. lia.
Qed.

Lemma land_order_mask o k : 0 <= k -> is_u32 (k * pow2 o) -> Z.land (k * pow2 o) (order_mask (S o)) = k / 2 * pow2 (S o).
Proof. intros Hk Hu. rewrite land_mask by done. rewrite pow2_S at 1. pose proof (pow2_pos o). by rewrite Z.div_mul_cancel_r by lia. Qed.

Lemma aligned_mask o k : 0 <= k -> Z.land (k * pow2 o) (not32 (order_mask o)) = 0.
Proof.
  intros Hk. apply Z.bits_inj'. intros j Hj. rewrite Z.land_spec, Z.bits_0. unfold not32. rewrite u32_testbit, Z.lnot_spec, order_mask_bit by done.
  rewrite pow2_spec, <- Z.shiftl_mul_pow2 by lia. destruct (Z.leb_spec (Z.of_nat o) j).
  - destruct (j <? 32); cbn; by rewrite andb_false_r.
  - rewrite Z.shiftl_spec_low by lia. done.
Qed.

Lemma pair_index o k : Z.shiftr (k * pow2 o) (1 + Z.of_nat o) = k / 2.
Proof.
  rewrite Z.shiftr_div_pow2 by lia. rewrite Z.pow_add_r, <- pow2_spec by lia. pose proof (pow2_pos o). by rewrite Z.div_mul_cancel_r by lia.
Qed.

Lemma change_bit_spec i m : 0 <= i -> (Z.to_nat (Z.shiftr i 5) < length m)%nat ->
  exists m', __test_and_change_bit i m = Some (bitof m i, m') /\ __change_bit i m = Some m' /\ length m' = length m /\
    forall j, 0 <= j -> bitof m' j = if decide (j = i) then negb (bitof m j) else bitof m j.
Proof.
  intros Hi Hl. destruct (lookup_lt_is_Some_2 m _ Hl) as [w Hw]. destruct (map_word_bit i Hi) as (Ei & Hs & Hm).
  eexists. unfold __test_and_change_bit, __change_bit, bitof at 1. rewrite Hw. cbn [mbind option_bind]. rewrite land_one_bit by lia.
  split; [done |]. split; [done |]. split; [apply length_insert |]. intros j Hj. destruct (map_word_bit j Hj) as (Ej & Hsj & Hmj). unfold bitof.
  destruct (decide (Z.to_nat (Z.shiftr j 5) = Z.to_nat (Z.shiftr i 5))) as [E | E].
  - rewrite E, list_lookup_insert_eq, Hw by done. rewrite Z.lxor_spec, Z.shiftl_1_l, Z.pow2_bits_eqb by lia.
    destruct (Z.eqb_spec (Z.land i 31) (Z.land j 31)) as [Eb | Eb].
    + rewrite decide_True by lia. by destruct (Z.testbit w (Z.land j 31)).
    + rewrite decide_False by lia. by rewrite xorb_false_r.
  - rewrite list_lookup_insert_ne by congruence. rewrite decide_False by (intros ->; done). done.
Qed.

(** ** A zone *)

Definition lists_of (z : zone) (o : nat) : list Z := match areas z !! o with Some a => free_list a | None => [] end.
Definition bits_of (z : zone) (o : nat) (i : Z) : bool := match areas z !! o with Some a => bitof (area_map a) i | None => false end.

(** The bitmaps have a bit for every pair. *)
Definition maps_ok (size : Z) (z : zone) : Prop :=
  length (areas z) = MAX_ORDER /\
  forall o a i, (o < MAX_ORDER - 1)%nat -> areas z !! o = Some a -> 0 <= i -> i * pow2 (S o) < size -> (Z.to_nat (Z.shiftr i 5) < length (area_map a))%nat.

Lemma lists_of_set o a z o' : (o < length (areas z))%nat -> lists_of (set_area o a z) o' = upd (lists_of z) o (free_list a) o'.
Proof.
  intros Ho. unfold lists_of, upd, set_area. cbn. case_decide as E; [subst o'; by rewrite list_lookup_insert_eq | by rewrite list_lookup_insert_ne].
Qed.

Lemma bits_of_set o a z o' i : (o < length (areas z))%nat -> bits_of (set_area o a z) o' i = if decide (o' = o) then bitof (area_map a) i else bits_of z o' i.
Proof.
  intros Ho. unfold bits_of, set_area. cbn. case_decide as E; [subst o'; by rewrite list_lookup_insert_eq | by rewrite list_lookup_insert_ne].
Qed.

Lemma maps_ok_set size z o a b : maps_ok size z -> areas z !! o = Some a -> length (area_map b) = length (area_map a) -> maps_ok size (set_area o b z).
Proof.
  intros [Hl Hm] Ha Hb. split; [cbn; by rewrite length_insert |]. intros o' c i Ho' Hc Hi Hs. cbn in Hc. destruct (decide (o' = o)) as [-> | Hne].
  - rewrite list_lookup_insert_eq in Hc by (by eapply lookup_lt_Some). injection Hc as <-. rewrite Hb. by apply (Hm o).
  - rewrite list_lookup_insert_ne in Hc by done. by apply (Hm o').
Qed.

(** The list of order [o] becomes [l] and the bit of the pair of block [k] is changed. *)
Lemma change_area size z o k a l m' : lists_ok size (upd (lists_of z) o l) (flipb (bits_of z) o k) -> (o < MAX_ORDER - 1)%nat -> areas z !! o = Some a ->
  (forall j, 0 <= j -> bitof m' j = if decide (j = k / 2) then negb (bitof (area_map a) j) else bitof (area_map a) j) ->
  lists_ok size (lists_of (set_area o (mk_area l m') z)) (bits_of (set_area o (mk_area l m') z)).
Proof.
  intros Ok Ho Ha Hm. pose proof (lookup_lt_Some _ _ _ Ha) as Hl. eapply lists_ext; [| | exact Ok].
  - intros o'. by rewrite lists_of_set.
  - intros o' i Ho' Hi _. rewrite bits_of_set by done. unfold flipb. rewrite (proj2 (Nat.ltb_lt _ _)) by done. unfold flip.
    destruct (decide (o' = o)) as [-> | Hne]; [| rewrite decide_False by (by intros [? _]); done]. cbn [area_map]. rewrite Hm by done. unfold bits_of. rewrite Ha.
    destruct (decide (i = k / 2)) as [E | E]; [by rewrite decide_True | rewrite decide_False by (by intros [_ ?]); done].
Qed.

(** ** Freeing a block *)

Ltac order_lia := unfold MAX_ORDER in *; lia.

Section zone_facts.
Context (size : Z) (Hsize : size <= 1048576).

(** The block [k] of order [o] is not free, not even in part. *)
Definition fresh (L : nat -> list Z) (o : nat) (k : Z) : Prop := forall p, in_block o (k * pow2 o) p -> ~ free_page L p.

Lemma fresh_not_on L o k : fresh L o k -> on L o k = false.
Proof. intros F. apply not_true_is_false. intros H%on_spec. apply (F _ (first_in_block _ _)). exists o, (k * pow2 o). split; [done | apply first_in_block]. Qed.

Lemma block_ok_index o k : 0 <= k -> block_ok size o (k * pow2 o) -> 0 <= k / 2 /\ k / 2 * pow2 (S o) < size /\ k * pow2 o < size.
Proof.
  intros Hk (_ & _ & Hs). pose proof (pow2_pos o). pose proof (Z.mul_div_le k 2 ltac:(lia)). split; [apply Z.div_pos; lia |]. rewrite pow2_S. split; nia.
Qed.

(** Whether the buddy of a block that is being freed is free. *)
Lemma buddy_bit L B o k : lists_ok size L B -> (o < MAX_ORDER - 1)%nat -> 0 <= k -> block_ok size o (k * pow2 o) -> fresh L o k ->
  B o (k / 2) = on L o (sibling k).
Proof.
  intros Ok Ho Hk Hb F. destruct (block_ok_index o k Hk Hb) as (_ & _ & Hs). rewrite (lo_bit _ _ _ Ok o k Ho Hk Hs), (fresh_not_on _ _ _ F). done.
Qed.

Lemma in_block_dec o q p : in_block o q p \/ ~ in_block o q p.
Proof. unfold in_block. lia. Qed.

(** Joining two free halves. *)
Lemma join_fresh L o k p : 0 <= k -> on L o (sibling k) = true ->
  (free_page L p /\ ~ in_block o (sibling k * pow2 o) p) \/ in_block (S o) (k / 2 * pow2 (S o)) p <-> free_page L p \/ in_block o (k * pow2 o) p.
Proof.
  intros Hk Hon%on_spec. rewrite in_siblings by done. split.
  - intros [[? _] | [? | Hp]]; [by left | by right | left; by exists o, (sibling k * pow2 o)].
  - intros [Hf | ?]; [| tauto]. destruct (in_block_dec o (sibling k * pow2 o) p); tauto.
Qed.

Lemma merge_loop_spec n : forall o k z, (o + n = MAX_ORDER - 1)%nat -> lists_ok size (lists_of z) (bits_of z) -> maps_ok size z -> spanned_pages z = size ->
  0 <= k -> block_ok size o (k * pow2 o) -> fresh (lists_of z) o k ->
  exists o' k' z', merge_loop n o (k * pow2 o) (k / 2) (order_mask o) z = Some (o', k' * pow2 o', z') /\ z' = set_areas (areas z') z /\
    maps_ok size z' /\ (o' < MAX_ORDER)%nat /\
    let L' := upd (lists_of z') o' (k' * pow2 o' :: lists_of z' o') in
    lists_ok size L' (bits_of z') /\ (forall p, free_page L' p <-> free_page (lists_of z) p \/ in_block o (k * pow2 o) p) /\
    total L' = total (lists_of z) + pow2 o.
Proof.
  induction n as [| n IH]; intros o k z Ho Ok Mo Sp Hk Hb Fr; cbn [merge_loop].
  - exists o, k, z. split; [done |]. split; [by destruct z |]. split; [done |]. split; [order_lia |]. cbv zeta.
    split; [| split; [intros p; apply free_ins | rewrite total_upd by order_lia; cbn [length]; lia]].
    eapply lists_ext; [done | | apply (lists_ins size _ _ o k Ok Hk Hb Fr); intros; order_lia].
    intros o' i Ho' _ _. unfold flipb. rewrite (proj2 (Nat.ltb_ge _ _)) by order_lia. done.
  - assert (o < MAX_ORDER - 1)%nat as Hlt by order_lia. destruct (lookup_lt_is_Some_2 (areas z) o) as [a Ha]; [destruct Mo as [-> _]; order_lia |]. rewrite Ha. cbn [mbind option_bind].
    pose proof (lookup_lt_Some _ _ _ Ha) as Hl. assert (lists_of z o = free_list a) as Ela by (unfold lists_of; by rewrite Ha).
    destruct (block_ok_index o k Hk Hb) as (Hi & Hs & _). destruct (change_bit_spec (k / 2) (area_map a) Hi) as (m' & -> & _ & Lm & Hm).
    { apply (proj2 Mo o a (k / 2) Hlt Ha Hi Hs). }
    cbn [mbind option_bind]. assert (bitof (area_map a) (k / 2) = on (lists_of z) o (sibling k)) as ->.
    { rewrite <- (buddy_bit (lists_of z) (bits_of z) o k Ok Hlt Hk Hb Fr). unfold bits_of. by rewrite Ha. }
    destruct (sibling_spec k Hk) as (Sk & Nk & Dk & _). destruct (on (lists_of z) o (sibling k)) eqn:Eon; cbn [negb].
    + assert (sibling k * pow2 o ∈ lists_of z o) as Hin by (by apply on_spec). destruct (lo_block _ _ _ Ok _ _ Hin) as (_ & _ & Hsib). pose proof (pow2_pos o) as Pp.
      rewrite lxor_sibling by done. assert (bad_range z (sibling k * pow2 o) || bad_range z (k * pow2 o) = false) as ->.
      { unfold bad_range. rewrite Sp. destruct Hb as (_ & _ & Hbs). repeat (apply orb_false_iff; split); [apply Z.leb_gt | apply Z.ltb_ge | apply Z.leb_gt | apply Z.ltb_ge]; nia. }
      unfold list_del. rewrite <- Ela, decide_True by done. cbn [mbind option_bind]. set (z1 := set_area o _ z).
      rewrite order_mask_S, land_order_mask by (first [done | apply (is_u32_size _ size); [destruct Hb as (_ & _ & ?); nia | done]]).
      replace (Z.shiftr (k / 2) 1) with (k / 2 / 2) by (rewrite Z.shiftr_div_pow2 by lia; done).
      assert (lists_ok size (lists_of z1) (bits_of z1)) as Ok1.
      { apply (change_area size z o (sibling k) a); [apply lists_del; done | done | done |]. by rewrite Dk. }
      assert (forall p, free_page (lists_of z1) p <-> free_page (lists_of z) p /\ ~ in_block o (sibling k * pow2 o) p) as F1.
      { intros p. rewrite <- (free_del size _ _ o (sibling k * pow2 o) p Ok Hin). unfold free_page. unfold z1. by setoid_rewrite lists_of_set. }
      assert (total (lists_of z1) = total (lists_of z) - pow2 o) as T1.
      { transitivity (total (upd (lists_of z) o (filter (fun x => x <> sibling k * pow2 o) (lists_of z o)))).
        - unfold total. apply foldr_ext; [| done | done]. intros o1 x. unfold z1. by rewrite lists_of_set.
        - rewrite total_upd, length_del by (try done; try apply (lo_nodup _ _ _ Ok); order_lia). lia. }
      assert (fresh (lists_of z1) (S o) (k / 2)) as Fr1.
      { intros p Hp [Hf Hn]%F1. apply in_siblings in Hp as [Hp | Hp]; [by apply (Fr p) | done | done]. }
      assert (block_ok size (S o) (k / 2 * pow2 (S o))) as Hb1.
      { split; [order_lia |]. split; [by exists (k / 2) |]. destruct Hb as (_ & _ & Hbs). rewrite pow2_S. destruct (sibling_spec k Hk) as (_ & _ & _ & _ & [[E1 E2] | [E1 E2]]); rewrite E2 in Hsib; nia. }
      destruct (IH (S o) (k / 2) z1) as (o' & k' & z' & -> & Ez & Mo' & Ho' & Ok' & F' & T'); try done; [order_lia | |].
      { eapply maps_ok_set; [done | done | done]. }
      exists o', k', z'. split; [done |]. split; [rewrite Ez; done |]. split; [done |]. split; [done |]. split; [done |]. split.
      * intros p. rewrite F', F1. by apply join_fresh.
      * rewrite T', T1, pow2_S. lia.
    + exists o, k, (set_area o (mk_area (free_list a) m') z). split; [done |]. split; [done |]. split; [by eapply maps_ok_set |]. split; [order_lia |]. cbv zeta.
      rewrite lists_of_set, upd_eq by done. cbn [free_list].
      assert (forall o1, upd (lists_of (set_area o (mk_area (free_list a) m') z)) o (k * pow2 o :: free_list a) o1 = upd (lists_of z) o (k * pow2 o :: lists_of z o) o1) as EL.
      { intros o1. rewrite Ela. unfold upd at 1 2. case_decide; [done |]. rewrite lists_of_set by done. by rewrite upd_ne. }
      split; [| split].
      * pose proof (lists_ins size _ _ o k Ok Hk Hb Fr ltac:(done)) as Ok1. eapply lists_ext; [intros; symmetry; apply EL | | exact Ok1].
        intros o1 i Ho1 Hi1 _. rewrite bits_of_set by done. unfold flipb. rewrite (proj2 (Nat.ltb_lt _ _)) by done. unfold flip.
        destruct (decide (o1 = o)) as [-> | Hne]; [| rewrite decide_False by (by intros [? _]); done]. cbn [area_map]. rewrite Hm by done. unfold bits_of. rewrite Ha.
        destruct (decide (i = k / 2)) as [E | E]; [by rewrite decide_True | rewrite decide_False by (by intros [_ ?]); done].
      * intros p. rewrite <- (free_ins (lists_of z) o). unfold free_page. by setoid_rewrite EL.
      * transitivity (total (upd (lists_of z) o (k * pow2 o :: lists_of z o))).
        -- unfold total. apply foldr_ext; [| done | done]. intros o1 x. by rewrite EL.
        -- rewrite total_upd by order_lia. cbn [length]. lia.
Qed.

Record core_ok (z : zone) : Prop := {
  co_lists : lists_ok size (lists_of z) (bits_of z);
  co_maps : maps_ok size z;
  co_span : spanned_pages z = size;
  co_free : free_pages z = total (lists_of z)
}.

(** Only the free lists, their bitmaps and the number of free pages differ. *)
Definition framed (z z' : zone) : Prop := z' = set_free (free_pages z') (set_areas (areas z') z).

Lemma total_ext L L' : (forall o, L o = L' o) -> total L = total L'.
Proof. intros E. unfold total. apply foldr_ext; [| done | done]. intros o x. by rewrite E. Qed.

Lemma free_ext L L' p : (forall o, L o = L' o) -> free_page L p <-> free_page L' p.
Proof. intros E. unfold free_page. by setoid_rewrite E. Qed.

Lemma total_nonneg L : 0 <= total L.
Proof.
  unfold total. induction (seq 0 MAX_ORDER) as [| o s IH]; [done |]. cbn [foldr]. pose proof (pow2_pos o). nia.
Qed.

Lemma area_ok z o : maps_ok size z -> (o < MAX_ORDER)%nat -> exists a, areas z !! o = Some a /\ lists_of z o = free_list a.
Proof. intros [Hl _] Ho. destruct (lookup_lt_is_Some_2 (areas z) o) as [a Ha]; [lia |]. exists a. split; [done |]. unfold lists_of. by rewrite Ha. Qed.

Lemma free_pages_bulk_spec z o k : core_ok z -> 0 <= k -> block_ok size o (k * pow2 o) -> fresh (lists_of z) o k -> free_pages z + pow2 o < 4294967296 ->
  exists z', __free_pages_bulk (k * pow2 o) z o = Some z' /\ core_ok z' /\ framed z z' /\ free_pages z' = free_pages z + pow2 o /\
    forall p, free_page (lists_of z') p <-> free_page (lists_of z) p \/ in_block o (k * pow2 o) p.
Proof.
  intros [Ok Mo Sp Fp] Hk Hb Fr Hmax. unfold __free_pages_bulk. fold (order_mask o). rewrite aligned_mask by done. cbn [Z.eqb negb]. rewrite pair_index.
  assert (0 <= free_pages z) as Hp by (rewrite Fp; apply total_nonneg). pose proof (pow2_pos o) as Pp. rewrite u32_id by (unfold is_u32; lia).
  set (z0 := set_free (free_pages z + pow2 o) z).
  destruct (merge_loop_spec (MAX_ORDER - 1 - o) o k z0) as (o' & k' & z' & -> & Ez & Mo' & Ho' & Ok' & F' & T'); try done; [destruct Hb; order_lia |].
  cbn [mbind option_bind]. destruct (area_ok z' o' Mo' Ho') as (a & Ha & Ela). rewrite Ha. cbn [mbind option_bind]. eexists. split; [done |].
  pose proof (lookup_lt_Some _ _ _ Ha) as Hl. set (a' := mk_area _ _).
  assert (forall o1, lists_of (set_area o' a' z') o1 = upd (lists_of z') o' (k' * pow2 o' :: lists_of z' o') o1) as EL.
  { intros o1. rewrite lists_of_set by done. cbn [free_list a' list_add]. by rewrite Ela. }
  assert (free_pages z' = free_pages z + pow2 o) as Ef by (rewrite Ez; done).
  split; [| split; [unfold framed; cbn; rewrite Ez; done | split; [done |]]].
  - constructor; [| by eapply maps_ok_set | rewrite Ez; done | rewrite (total_ext _ _ EL), T'; change (free_pages z' = total (lists_of z) + pow2 o); lia].
    eapply lists_ext; [intros; symmetry; apply EL | | exact Ok']. intros o1 i _ _ _. rewrite bits_of_set by done. cbn [area_map a'].
    case_decide; [subst; unfold bits_of; by rewrite Ha | done].
  - intros p. rewrite (free_ext _ _ p EL). apply F'.
Qed.

(** ** Taking a block *)

Lemma expand_spec n : forall h k z, lists_ok size (lists_of z) (bits_of z) -> maps_ok size z -> spanned_pages z = size -> (n <= h)%nat ->
  0 <= k -> block_ok size h (k * pow2 h) -> fresh (lists_of z) h k ->
  exists z', expand n (k * pow2 h) (k * pow2 h) h z = Some z' /\ z' = set_areas (areas z') z /\ lists_ok size (lists_of z') (bits_of z') /\ maps_ok size z' /\
    total (lists_of z') = total (lists_of z) + pow2 h - pow2 (h - n) /\
    forall p, free_page (lists_of z') p <-> free_page (lists_of z) p \/ (in_block h (k * pow2 h) p /\ ~ in_block (h - n) (k * pow2 h) p).
Proof.
  induction n as [| n IH]; intros h k z Ok Mo Sp Hn Hk Hb Fr; cbn [expand].
  - exists z. split; [done |]. split; [by destruct z |]. split; [done |]. split; [done |]. rewrite Nat.sub_0_r. split; [lia |]. tauto.
  - destruct h as [| h]; [lia |]. cbn [Nat.pred]. pose proof (pow2_pos h) as Pp. pose proof (pow2_S h) as PS. destruct Hb as (Ho & Ha0 & Hbs).
    replace (k * pow2 (S h) + pow2 h) with ((2 * k + 1) * pow2 h) by lia.
    assert (bad_range z ((2 * k + 1) * pow2 h) = false) as ->.
    { unfold bad_range. rewrite Sp. apply orb_false_iff. split; [apply Z.leb_gt | apply Z.ltb_ge]; nia. }
    destruct (area_ok z h Mo ltac:(order_lia)) as (a & Ha & Ela). rewrite Ha. cbn [mbind option_bind].
    pose proof (lookup_lt_Some _ _ _ Ha) as Hl. rewrite pair_index. assert ((2 * k + 1) / 2 = k) as Ek by (symmetry; apply (Z.div_unique _ _ _ 1); lia).
    destruct (change_bit_spec ((2 * k + 1) / 2) (area_map a)) as (m' & _ & -> & Lm & Hm); [lia | |].
    { rewrite Ek. apply (proj2 Mo h a k); [order_lia | done | done | nia]. }
    cbn [mbind option_bind]. unfold list_add. rewrite <- Ela. set (z1 := set_area h _ z).
    assert (fresh (lists_of z) h (2 * k + 1)) as Fu by (intros p Hp; apply Fr; apply in_halves; by right).
    assert (fresh (lists_of z) h (2 * k)) as Fl by (intros p Hp; apply Fr; apply in_halves; by left).
    assert (block_ok size h ((2 * k + 1) * pow2 h)) as Hbu by (split; [order_lia |]; split; [by exists (2 * k + 1); split; [lia |] | nia]).
    assert (block_ok size h (2 * k * pow2 h)) as Hbl by (split; [order_lia |]; split; [by exists (2 * k); split; [lia |] | nia]).
    assert (sibling (2 * k + 1) = 2 * k) as Es by (destruct (sibling_spec (2 * k + 1) ltac:(lia)) as (_ & _ & _ & _ & H); lia).
    assert (lists_ok size (lists_of z1) (bits_of z1)) as Ok1.
    { apply (change_area size z h (2 * k + 1) a); [| order_lia | done | done]. apply lists_ins; [done | lia | done | done |]. intros _. rewrite Es. by apply fresh_not_on. }
    assert (forall o1, lists_of z1 o1 = upd (lists_of z) h ((2 * k + 1) * pow2 h :: lists_of z h) o1) as EL by (intros; unfold z1; by rewrite lists_of_set).
    assert (forall p, free_page (lists_of z1) p <-> free_page (lists_of z) p \/ in_block h ((2 * k + 1) * pow2 h) p) as F1.
    { intros p. rewrite (free_ext _ _ p EL). apply free_ins. }
    replace (k * pow2 (S h)) with (2 * k * pow2 h) by lia.
    destruct (IH h (2 * k) z1) as (z' & -> & Ez & Ok' & Mo' & T' & F'); [done | by eapply maps_ok_set | done | lia | lia | done | |].
    { intros p Hp [Hf | Hf]%F1; [by apply (Fl p) |]. unfold in_block in *. lia. }
    exists z'. split; [done |]. split; [rewrite Ez; done |]. split; [done |]. split; [done |]. cbn [Nat.sub]. split.
    + rewrite T', (total_ext _ _ EL), total_upd by order_lia. cbn [length]. lia.
    + intros p. rewrite F', F1. replace (2 * k * pow2 h) with (k * pow2 (S h)) at 3 by lia. rewrite in_halves.
      assert (in_block h ((2 * k + 1) * pow2 h) p -> ~ in_block (h - n) (2 * k * pow2 h) p) as X; [| tauto].
      destruct (pow2_le (h - n) h ltac:(lia)) as (d & Hd & Ed). pose proof (pow2_pos (h - n)). unfold in_block. nia.
Qed.

Lemma pow2_mono o o' : (o <= o')%nat -> pow2 o <= pow2 o'.
Proof. intros H. destruct (pow2_le o o' H) as (d & ? & ->). pose proof (pow2_pos o). nia. Qed.

Lemma rmqueue_loop_spec z o : core_ok z -> free_pages z < 4294967296 -> forall n c, (c + n = MAX_ORDER)%nat -> (o <= c)%nat -> (forall o', (o <= o' < c)%nat -> lists_of z o' = []) ->
  (rmqueue_loop n c o z = Some (None, z) /\ forall o', (o <= o' < MAX_ORDER)%nat -> lists_of z o' = []) \/
  exists k z', rmqueue_loop n c o z = Some (Some (k * pow2 o), z') /\ 0 <= k /\ block_ok size o (k * pow2 o) /\ core_ok z' /\ framed z z' /\
    free_pages z' = free_pages z - pow2 o /\ (forall p, in_block o (k * pow2 o) p -> free_page (lists_of z) p) /\
    forall p, free_page (lists_of z') p <-> free_page (lists_of z) p /\ ~ in_block o (k * pow2 o) p.
Proof.
  intros [Ok Mo Sp Fp] Hmax. induction n as [| n IH]; intros c Hc Ho Hempty; cbn [rmqueue_loop].
  { left. split; [done |]. intros o' Ho'. apply Hempty. lia. }
  destruct (area_ok z c Mo ltac:(lia)) as (a & Ha & Ela). rewrite Ha. cbn [mbind option_bind]. pose proof (lookup_lt_Some _ _ _ Ha) as Hl.
  destruct (free_list a) as [| q l] eqn:El.
  { apply IH; [lia | lia |]. intros o' Ho'. destruct (decide (o' = c)) as [-> |]; [done | apply Hempty; lia]. }
  right. assert (q ∈ lists_of z c) as Hq by (rewrite Ela; by left). destruct (lo_block _ _ _ Ok c q Hq) as (Hc' & (k & Hk & ->) & Hbs).
  assert (filter (fun x => x <> k * pow2 c) (lists_of z c) = l) as Ef.
  { rewrite Ela, filter_cons_False by (intros H; by apply H). apply filter_absent. pose proof (lo_nodup _ _ _ Ok c) as N. rewrite Ela in N. by apply NoDup_cons in N as [? _]. }
  pose proof (lists_del size _ _ c k Ok Hk Hq) as Ok1. rewrite Ef in Ok1.
  assert (exists map z1, (if (c =? MAX_ORDER - 1)%nat then Some (area_map a) else __change_bit (Z.shiftr (k * pow2 c) (1 + Z.of_nat c)) (area_map a)) = Some map /\
    z1 = set_area c (mk_area l map) z /\ lists_ok size (lists_of z1) (bits_of z1) /\ maps_ok size z1) as (map & z1 & -> & Ez1 & Ok2 & Mo1).
  { rewrite pair_index. destruct (Nat.eqb_spec c (MAX_ORDER - 1)) as [E | E].
    - eexists _, _. split; [done |]. split; [done |]. split; [| by eapply maps_ok_set]. eapply lists_ext; [| | exact Ok1].
      + intros o1. by rewrite lists_of_set.
      + intros o1 i Ho1 _ _. rewrite bits_of_set by done. unfold flipb. rewrite (proj2 (Nat.ltb_ge _ _)) by order_lia. rewrite decide_False by lia. done.
    - destruct (block_ok_index c k Hk) as (Hi & Hs & _); [split; [done |]; split; [by exists k | done] |].
      destruct (change_bit_spec (k / 2) (area_map a) Hi) as (m' & _ & -> & Lm & Hm); [apply (proj2 Mo c a (k / 2)); [order_lia | done | done | done] |].
      eexists _, _. split; [done |]. split; [done |]. split; [| by eapply maps_ok_set]. apply (change_area size z c k a); [done | order_lia | done | done]. }
  cbn [mbind option_bind]. rewrite <- Ez1.
  assert (forall o1, lists_of z1 o1 = upd (lists_of z) c (filter (fun x => x <> k * pow2 c) (lists_of z c)) o1) as EL by (intros; rewrite Ez1, lists_of_set, Ef by done; done).
  assert (forall p, free_page (lists_of z1) p <-> free_page (lists_of z) p /\ ~ in_block c (k * pow2 c) p) as F1.
  { intros p. rewrite (free_ext _ _ p EL). by apply (free_del size _ (bits_of z)). }
  assert (total (lists_of z1) = total (lists_of z) - pow2 c) as T1.
  { rewrite (total_ext _ _ EL), total_upd, length_del by (first [done | apply (lo_nodup _ _ _ Ok)]). lia. }
  pose proof (pow2_mono o c Ho) as Pm. pose proof (pow2_pos o) as Pp. pose proof (total_nonneg (lists_of z1)) as Tn.
  destruct (expand_spec (c - o) c k (set_free (u32 (free_pages z - pow2 o)) z1)) as (z' & E & Ez & Ok' & Mo' & T' & F'); [done | done | by rewrite Ez1 | lia | done | | |].
  { split; [done |]. split; [by exists k | done]. } { by intros p Hp [_ Hn]%F1. }
  rewrite E. cbn [mbind option_bind]. replace (c - (c - o))%nat with o in * by lia.
  destruct (pow2_le o c Ho) as (d & Hd & Ed). assert (k * pow2 c = k * d * pow2 o) as Eq by (rewrite Ed; lia).
  exists (k * d), z'. rewrite <- Eq. split; [done |]. split; [nia |]. split; [split; [lia |]; split; [exists (k * d); split; [nia | done] | lia] |].
  assert (free_pages z' = free_pages z - pow2 o) as Ef' by (rewrite Ez; cbn; rewrite Fp, u32_id; [done |]; unfold is_u32; lia).
  assert (forall p, in_block o (k * pow2 c) p -> in_block c (k * pow2 c) p) as Sub by (unfold in_block; lia).
  assert (forall p, in_block c (k * pow2 c) p -> free_page (lists_of z) p) as Fc by (intros p Hp; by exists c, (k * pow2 c)).
  split; [constructor; [done | done | rewrite Ez; cbn; by rewrite Ez1 |] |].
  - rewrite Ef', T'. cbn [lists_of]. change (lists_of (set_free _ z1)) with (lists_of z1). rewrite T1, Fp. lia.
  - split; [unfold framed; rewrite Ez, Ez1; done |]. split; [done |]. split; [by auto |]. intros p. rewrite F'.
    change (lists_of (set_free _ z1)) with (lists_of z1). rewrite F1. destruct (in_block_dec c (k * pow2 c) p) as [Hp | Hp]; [specialize (Fc p Hp); tauto |].
    assert (~ in_block o (k * pow2 c) p) by auto. tauto.
Qed.

Lemma rmqueue_spec z o : core_ok z -> free_pages z < 4294967296 -> (o <= MAX_ORDER)%nat ->
  (__rmqueue z o = Some (None, z) /\ forall o', (o <= o')%nat -> lists_of z o' = []) \/
  exists k z', __rmqueue z o = Some (Some (k * pow2 o), z') /\ 0 <= k /\ block_ok size o (k * pow2 o) /\ core_ok z' /\ framed z z' /\
    free_pages z' = free_pages z - pow2 o /\ (forall p, in_block o (k * pow2 o) p -> free_page (lists_of z) p) /\
    forall p, free_page (lists_of z') p <-> free_page (lists_of z) p /\ ~ in_block o (k * pow2 o) p.
Proof.
  intros C Hmax Ho. destruct (rmqueue_loop_spec z o C Hmax (MAX_ORDER - o) o) as [[E H] | H]; [lia | lia | intros; lia | | by right].
  left. split; [done |]. intros o' Ho'. destruct (decide (o' < MAX_ORDER)%nat); [apply H; lia |].
  unfold lists_of. destruct (areas z !! o') eqn:Ea; [| done]. apply lookup_lt_Some in Ea. destruct (co_maps _ C) as [Hl _]. lia.
Qed.

(** ** Free blocks are as large as they can be *)

Definition all_free (L : nat -> list Z) (o : nat) (k : Z) : Prop := forall p, in_block o (k * pow2 o) p -> free_page L p.

Lemma aligned_num o k : 0 <= k -> aligned o (k * pow2 o).
Proof. intros H. by exists k. Qed.

(** No free block is smaller than a block around it whose pages are all free. *)
Lemma no_small_block L B o k : lists_ok size L B -> 0 <= k -> (o < MAX_ORDER)%nat -> all_free L o k ->
  forall o1 q1, (o1 < o)%nat -> q1 ∈ L o1 -> in_block o (k * pow2 o) q1 -> False.
Proof.
  intros Ok Hk Ho Af o1. induction (lt_wf o1) as [o1 _ IH]. intros q1 Hlt Hq1 Hin.
  destruct (lo_block _ _ _ Ok o1 q1 Hq1) as (_ & (k1 & Hk1 & ->) & _). destruct (sibling_spec k1 Hk1) as (Sk & Nk & _ & _).
  set (ps := sibling k1 * pow2 o1).
  assert (in_block (S o1) (k1 / 2 * pow2 (S o1)) (k1 * pow2 o1)) as Pk by (apply in_siblings; [done | left; apply first_in_block]).
  assert (in_block (S o1) (k1 / 2 * pow2 (S o1)) ps) as Pp by (apply in_siblings; [done | right; apply first_in_block]).
  assert (aligned (S o1) (k1 / 2 * pow2 (S o1))) as Ap by (apply aligned_num, Z.div_pos; lia).
  assert (in_block o (k * pow2 o) ps) as Hps by (eapply (nested (S o1) _ o); [lia | exact Ap | by apply aligned_num | exact Pk | exact Hin | exact Pp]).
  destruct (Af ps Hps) as (o2 & q2 & Hq2 & Hc). destruct (lo_block _ _ _ Ok o2 q2 Hq2) as (_ & A2 & _).
  destruct (lt_eq_lt_dec o2 o1) as [[H | ->] | H].
  - apply (IH o2 H q2); [lia | done |]. eapply (nested o2 q2 o); [lia | done | by apply aligned_num | exact Hc | exact Hps | apply first_in_block].
  - assert (ps = q2) as <- by (eapply (same_start o1); [by apply aligned_num | done | apply first_in_block | done]).
    assert (on L o1 k1 = true) as On by (by apply on_spec). assert (on L o1 (sibling k1) = true) as On' by (by apply on_spec).
    rewrite (lo_pair _ _ _ Ok o1 k1) in On'; [done | order_lia | done | done].
  - assert (in_block o2 q2 (k1 * pow2 o1)) as Hov by (eapply (nested (S o1) _ o2 q2); [lia | exact Ap | done | exact Pp | exact Hc | exact Pk]).
    destruct (lo_disj _ _ _ Ok o1 _ o2 q2 _ Hq1 Hq2 (first_in_block _ _) Hov). lia.
Qed.

Lemma covering_block L B o k : lists_ok size L B -> 0 <= k -> (o < MAX_ORDER)%nat -> all_free L o k ->
  exists o' q', (o <= o')%nat /\ q' ∈ L o' /\ forall p, in_block o (k * pow2 o) p -> in_block o' q' p.
Proof.
  intros Ok Hk Ho Af. destruct (Af _ (first_in_block _ _)) as (o' & q' & Hq' & Hc). destruct (lo_block _ _ _ Ok o' q' Hq') as (_ & A & _).
  destruct (decide (o <= o')%nat) as [H | H].
  - exists o', q'. split; [done |]. split; [done |]. eapply nested; [done | by apply aligned_num | done | apply first_in_block | done].
  - exfalso. apply (no_small_block L B o k Ok Hk Ho Af o' q'); [lia | done |].
    eapply (nested o' q' o); [lia | done | by apply aligned_num | exact Hc | apply first_in_block | apply first_in_block].
Qed.

Lemma free_list_max L B o k : lists_ok size L B -> 0 <= k ->
  k * pow2 o ∈ L o <-> (o < MAX_ORDER)%nat /\ all_free L o k /\ ((S o < MAX_ORDER)%nat -> ~ all_free L (S o) (k / 2)).
Proof.
  intros Ok Hk. destruct (sibling_spec k Hk) as (Sk & Nk & _). split.
  - intros Hq. destruct (lo_block _ _ _ Ok o _ Hq) as (Ho & _). split; [done |]. split; [intros p Hp; by exists o, (k * pow2 o) |]. intros HS Af.
    destruct (covering_block L B (S o) (k / 2) Ok ltac:(apply Z.div_pos; lia) HS Af) as (o' & q' & Ho' & Hq' & Hc).
    destruct (lo_disj _ _ _ Ok o _ o' q' (k * pow2 o) Hq Hq' (first_in_block _ _)); [| lia]. apply Hc, in_siblings; [done | left; apply first_in_block].
  - intros (Ho & Af & Hmax). destruct (covering_block L B o k Ok Hk Ho Af) as (o' & q' & Ho' & Hq' & Hc). destruct (lo_block _ _ _ Ok o' q' Hq') as (Hlt & A & _).
    destruct (decide (o' = o)) as [-> | Hne].
    + rewrite (same_start o (k * pow2 o) q' (k * pow2 o)); [done | by apply aligned_num | done | apply first_in_block | apply Hc, first_in_block].
    + exfalso. apply Hmax; [lia |]. intros p Hp. exists o', q'. split; [done |].
      eapply (nested (S o) (k / 2 * pow2 (S o)) o' q'); [lia | apply aligned_num, Z.div_pos; lia | done | | apply Hc, first_in_block | done].
      apply in_siblings; [done | left; apply first_in_block].
Qed.

Lemma rmqueue_none z o : core_ok z -> free_pages z < 4294967296 -> (o < MAX_ORDER)%nat ->
  __rmqueue z o = Some (None, z) <-> forall k, 0 <= k -> ~ all_free (lists_of z) o k.
Proof.
  intros C Hmax Ho. destruct (rmqueue_spec z o C Hmax ltac:(lia)) as [[-> H] | (k & z' & -> & Hk & _ & _ & _ & _ & Hf & _)].
  - split; [| done]. intros _ k Hk Af. destruct (covering_block _ _ o k (co_lists _ C) Hk Ho Af) as (o' & q' & Ho' & Hq' & _). rewrite H in Hq' by lia. by apply not_elem_of_nil in Hq'.
  - split; [done |]. intros H. by destruct (H k Hk).
Qed.

(** ** Pages outside the buddy system *)

Definition pages_of (o : nat) (q : Z) : gset Z := list_to_set (seqZ q (pow2 o)).

Lemma elem_pages_of o q p : p ∈ pages_of o q <-> in_block o q p.
Proof. unfold pages_of, in_block. rewrite elem_of_list_to_set, elem_of_seqZ. done. Qed.

Lemma size_pages_of o q : Z.of_nat (base.size (pages_of o q)) = pow2 o.
Proof. unfold pages_of. rewrite size_list_to_set by apply NoDup_seqZ. rewrite length_seqZ. pose proof (pow2_pos o). lia. Qed.

Lemma pow2_0 : pow2 0 = 1.
Proof. done. Qed.

Lemma pages_of_0 p : pages_of 0 p = {[p]}.
Proof. apply leibniz_equiv. intros x. rewrite elem_pages_of, elem_of_singleton. unfold in_block. rewrite pow2_0. lia. Qed.

(** [X] is the set of the pages that are not free in the buddy system. *)
Definition outside (z : zone) (X : gset Z) : Prop :=
  core_ok z /\ (forall p, p ∈ X -> 0 <= p < size /\ ~ free_page (lists_of z) p) /\ size = free_pages z + Z.of_nat (base.size X).

Lemma outside_max z X : outside z X -> 0 <= free_pages z <= size.
Proof. intros (C & _ & E). rewrite (co_free _ C) in *. pose proof (total_nonneg (lists_of z)). lia. Qed.

Lemma outside_rmqueue z X o : outside z X ->
  (__rmqueue z o = Some (None, z) /\ forall k, 0 <= k -> (o < MAX_ORDER)%nat -> ~ all_free (lists_of z) o k) \/
  exists k z', __rmqueue z o = Some (Some (k * pow2 o), z') /\ 0 <= k /\ block_ok size o (k * pow2 o) /\ framed z z' /\
    pages_of o (k * pow2 o) ## X /\ outside z' (X ∪ pages_of o (k * pow2 o)).
Proof.
  intros Ox. pose proof (outside_max _ _ Ox) as Hm. destruct Ox as (C & HX & E). destruct (decide (o < MAX_ORDER)%nat) as [Ho | Ho].
  2: { left. split; [| intros; lia]. unfold __rmqueue. by replace (MAX_ORDER - o)%nat with 0%nat by lia. }
  destruct (rmqueue_spec z o C ltac:(lia) ltac:(lia)) as [[Er H] | (k & z' & Er & Hk & Hb & C' & Fr & Ef & Hf & F')].
  - left. split; [done |]. intros k Hk _. by apply (proj1 (rmqueue_none z o C ltac:(lia) Ho) Er k Hk).
  - right. exists k, z'. split; [done |]. split; [done |]. split; [done |]. split; [done |].
    assert (pages_of o (k * pow2 o) ## X) as D by (intros p Hp%elem_pages_of Hx; by apply (HX p Hx), Hf).
    split; [done |]. split; [done |]. split.
    + intros p [Hp | Hp]%elem_of_union; rewrite F'; [by destruct (HX p Hp); tauto |]. apply elem_pages_of in Hp. split; [| tauto].
      destruct Hb as (_ & _ & ?). unfold in_block in Hp. pose proof (pow2_pos o). nia.
    + rewrite size_union, Nat2Z.inj_add, size_pages_of, Ef by done. lia.
Qed.

Lemma outside_free z X o k : outside z X -> 0 <= k -> block_ok size o (k * pow2 o) -> pages_of o (k * pow2 o) ⊆ X ->
  exists z', __free_pages_bulk (k * pow2 o) z o = Some z' /\ framed z z' /\ outside z' (X ∖ pages_of o (k * pow2 o)).
Proof.
  intros Ox Hk Hb Hs. pose proof (outside_max _ _ Ox) as Hm. destruct Ox as (C & HX & E).
  destruct (free_pages_bulk_spec z o k C Hk Hb) as (z' & Er & C' & Fr & Ef & F').
  - intros p Hp. apply HX, Hs. by apply elem_pages_of.
  - pose proof (pow2_mono o MAX_ORDER ltac:(destruct Hb; lia)) as Pm. change (pow2 MAX_ORDER) with 2048 in Pm. lia.
  - exists z'. split; [done |]. split; [done |]. split; [done |]. split.
    + intros p [Hp Hn]%elem_of_difference. destruct (HX p Hp) as [? Hf]. split; [done |]. intros [? | Hb']%F'; [done |]. by apply Hn, elem_pages_of.
    + rewrite size_difference, Ef by done. pose proof (subseteq_size _ _ Hs). pose proof (size_pages_of o (k * pow2 o)). lia.
Qed.

Lemma framed_refl z : framed z z.
Proof. unfold framed. by destruct z. Qed.

Lemma framed_trans z1 z2 z3 : framed z1 z2 -> framed z2 z3 -> framed z1 z3.
Proof. unfold framed. intros E1 E2. rewrite E2, E1. done. Qed.

Lemma free_bulk_loop_spec rl : forall count ret z X, outside z X -> NoDup rl -> list_to_set rl ⊆ X ->
  exists freed rest z', rl = freed ++ rest /\ free_bulk_loop rl count 0 ret z = Some (ret + Z.of_nat (length freed), rest, z') /\ framed z z' /\
    outside z' (X ∖ list_to_set freed) /\ (0 <= count -> length freed = Nat.min (Z.to_nat count) (length rl)).
Proof.
  induction rl as [| p rl IH]; intros count ret z X Ox N Hs; cbn [free_bulk_loop].
  { exists [], [], z. split; [done |]. cbn. rewrite Z.add_0_r. split; [done |]. split; [apply framed_refl |]. split; [by rewrite difference_empty_L | lia]. }
  destruct (Z.eqb_spec count 0) as [-> | Hc].
  { exists [], (p :: rl), z. split; [done |]. cbn [length list_to_set]. rewrite Z.add_0_r. split; [done |]. split; [apply framed_refl |]. split; [by rewrite difference_empty_L | done]. }
  apply NoDup_cons in N as [Np N]. cbn [list_to_set] in Hs. assert (p ∈ X) as Hp by set_solver. destruct (proj1 (proj2 Ox) p Hp) as [Hr _].
  destruct (outside_free z X 0 p Ox) as (z1 & E1 & Fr1 & Ox1); [lia | split; [order_lia |]; split; [apply aligned_num; lia | rewrite pow2_0; lia] | |].
  { rewrite pow2_0, Z.mul_1_r, pages_of_0. set_solver. }
  rewrite pow2_0, Z.mul_1_r in E1, Ox1. rewrite pages_of_0 in Ox1. rewrite E1. cbn [mbind option_bind].
  destruct (IH (count - 1) (ret + 1) z1 (X ∖ {[p]}) Ox1 N) as (freed & rest & z' & -> & E' & Fr' & Ox' & Hl).
  { intros x Hx. assert (x <> p) by (intros ->; apply Np; by apply elem_of_list_to_set in Hx). set_solver. }
  exists (p :: freed), rest, z'. split; [done |]. rewrite E'. cbn [length]. split; [do 3 f_equal; lia |]. split; [by eapply framed_trans |]. split.
  - cbn [list_to_set]. by rewrite <- difference_difference_l_L.
  - intros H. rewrite Hl by lia. cbn [app length]. lia.
Qed.

Lemma rmqueue_bulk_loop_spec n : forall alloc l z X, outside z X ->
  exists new z', rmqueue_bulk_loop n 0 alloc l z = Some (alloc + Z.of_nat (length new), l ++ new, z') /\ framed z z' /\ NoDup new /\
    list_to_set new ## X /\ outside z' (X ∪ list_to_set new).
Proof.
  induction n as [| n IH]; intros alloc l z X Ox; cbn [rmqueue_bulk_loop].
  { exists [], z. cbn. rewrite Z.add_0_r, app_nil_r, union_empty_r_L. split; [done |]. split; [apply framed_refl |]. split; [constructor |]. split; [set_solver | done]. }
  destruct (outside_rmqueue z X 0 Ox) as [[-> _] | (k & z1 & -> & _ & _ & Fr1 & D1 & Ox1)]; cbn [mbind option_bind].
  { exists [], z. cbn. rewrite Z.add_0_r, app_nil_r, union_empty_r_L. split; [done |]. split; [apply framed_refl |]. split; [constructor |]. split; [set_solver | done]. }
  rewrite pow2_0, Z.mul_1_r, pages_of_0 in *. destruct (IH (alloc + 1) (list_add_tail k l) z1 _ Ox1) as (new & z' & -> & Fr' & N' & D' & Ox').
  exists (k :: new), z'. unfold list_add_tail. rewrite <- app_assoc. cbn [app length list_to_set]. split; [do 3 f_equal; lia |]. split; [by eapply framed_trans |].
  split; [constructor; [intros Hk; apply (D' k); [by apply elem_of_list_to_set | set_solver] | done] |]. split; [set_solver |]. by rewrite union_assoc_L.
Qed.

(** ** The lists of the processor *)

(** [owned] is the set of the pages that are handed out. *)
Definition pinv (c : bool) (z : zone) (owned : gset Z) : Prop :=
  let a := pcp_of c z in let b := pcp_of (negb c) z in
  outside z (owned ∪ list_to_set (pcp_list a ++ pcp_list b)) /\ NoDup (pcp_list a ++ pcp_list b) /\ owned ## list_to_set (pcp_list a ++ pcp_list b) /\
  pcp_count a = Z.of_nat (length (pcp_list a)) /\ pcp_count b = Z.of_nat (length (pcp_list b)).

Lemma pinv_swap c z owned : pinv c z owned -> pinv (negb c) z owned.
Proof.
  intros (Ox & N & D & Ea & Eb). unfold pinv. rewrite negb_involutive.
  assert (list_to_set (pcp_list (pcp_of (negb c) z) ++ pcp_list (pcp_of c z)) =@{gset Z} list_to_set (pcp_list (pcp_of c z) ++ pcp_list (pcp_of (negb c) z))) as ->.
  { rewrite !list_to_set_app_L. apply union_comm_L. }
  split; [done |]. split; [by rewrite Permutation_app_comm |]. done.
Qed.

Lemma outside_frame z z' X : lists_of z' = lists_of z -> bits_of z' = bits_of z -> areas z' = areas z -> spanned_pages z' = spanned_pages z -> free_pages z' = free_pages z ->
  outside z X -> outside z' X.
Proof.
  intros E1 E2 E3 E4 E5 ([C1 C2 C3 C4] & HX & E). split; [| by rewrite E1, E5]. constructor; [by rewrite E1, E2 | | by rewrite E4 | by rewrite E1, E5].
  destruct C2. split; by rewrite E3.
Qed.

Lemma outside_set_pcp c p z X : outside z X -> outside (set_pcp c p z) X.
Proof. destruct c; by apply outside_frame. Qed.

Lemma outside_scanned u n z X : outside z X -> outside (set_scanned u n z) X.
Proof. by apply outside_frame. Qed.

Lemma framed_pcp c z z' : framed z z' -> pcp_of c z' = pcp_of c z.
Proof. intros ->. by destruct c. Qed.

Lemma pcp_set c p z : pcp_of c (set_pcp c p z) = p /\ pcp_of (negb c) (set_pcp c p z) = pcp_of (negb c) z.
Proof. by destruct c. Qed.

Lemma lts_reverse (l : list Z) : list_to_set (reverse l) =@{gset Z} list_to_set l.
Proof. apply list_to_set_perm_L, reverse_Permutation. Qed.

(** [free_pages_bulk] on a list of single pages. *)
Lemma free_list_spec z count l X : outside z X -> NoDup l -> list_to_set l ⊆ X ->
  exists freed rest z', l = rest ++ freed /\ free_pages_bulk z count l 0 = Some (Z.of_nat (length freed), rest, z') /\
    (forall c, pcp_of c z' = pcp_of c z) /\ outside z' (X ∖ list_to_set freed) /\ (0 <= count -> length freed = Nat.min (Z.to_nat count) (length l)).
Proof.
  intros Ox N Hs. unfold free_pages_bulk.
  destruct (free_bulk_loop_spec (reverse l) count 0 (set_scanned false 0 z) X) as (freed & rest & z' & El & -> & Fr & Ox' & Hl).
  - by apply outside_scanned. - by rewrite reverse_Permutation. - by rewrite lts_reverse.
  - cbn [mbind option_bind]. exists (reverse freed), (reverse rest), z'. rewrite length_reverse, lts_reverse. rewrite length_reverse in Hl.
    split; [by rewrite <- reverse_app, <- El, reverse_involutive |]. split; [done |]. split; [| done]. intros c. rewrite (framed_pcp c _ _ Fr). by destruct c.
Qed.

Lemma set_minus_part (owned A F : gset Z) : F ⊆ A -> owned ## A -> (owned ∪ A) ∖ F = owned ∪ A ∖ F.
Proof. intros. apply leibniz_equiv. set_solver. Qed.

Lemma free_hot_cold_page_ok c z owned p : pinv c z owned -> p ∈ owned -> exists z', free_hot_cold_page p c z = Some z' /\ pinv c z' (owned ∖ {[p]}).
Proof.
  intros (Ox & N & D & Ea & Eb) Hp. unfold free_hot_cold_page. set (a := pcp_of c z) in *. set (b := pcp_of (negb c) z) in *.
  assert (exists rest z1, (if pcp_high a <=? pcp_count a then '(n, l, z) ← free_pages_bulk z (pcp_batch a) (pcp_list a) 0; Some (pcp_count a - n, l, z)
    else Some (pcp_count a, pcp_list a, z)) = Some (Z.of_nat (length rest), rest, z1) /\ pcp_of (negb c) z1 = b /\ NoDup (rest ++ pcp_list b) /\
    list_to_set (rest ++ pcp_list b) ⊆@{gset Z} list_to_set (pcp_list a ++ pcp_list b) /\ outside z1 (owned ∪ list_to_set (rest ++ pcp_list b)))
    as (rest & z1 & -> & Ec & N1 & S1 & Ox1).
  { destruct (pcp_high a <=? pcp_count a); [| exists (pcp_list a), z; rewrite Ea; done].
    destruct (free_list_spec z (pcp_batch a) (pcp_list a) _ Ox) as (freed & rest & z' & El & -> & Pc & Ox' & _); [by apply NoDup_app in N as [? _] | rewrite list_to_set_app_L; set_solver |].
    cbn [mbind option_bind]. exists rest, z'. rewrite Ea, El, length_app, Nat2Z.inj_add. rewrite El in N, D, Ox'.
    split; [do 3 f_equal; lia |]. split; [by rewrite Pc |]. rewrite <- app_assoc in N. apply NoDup_app in N as (N1 & N2 & N3). apply NoDup_app in N3 as (N4 & N5 & N6).
    split; [apply NoDup_app; split; [done |]; split; [set_solver | done] |]. split; [rewrite !list_to_set_app_L; set_solver |].
    replace (owned ∪ list_to_set (rest ++ pcp_list b)) with ((owned ∪ list_to_set ((rest ++ freed) ++ pcp_list b)) ∖ list_to_set freed); [done |].
    apply leibniz_equiv. intros x. rewrite !list_to_set_app_L, !elem_of_difference, !elem_of_union, !elem_of_list_to_set.
    specialize (N2 x). specialize (N5 x). specialize (D x). rewrite !list_to_set_app_L, !elem_of_union, !elem_of_list_to_set in D. rewrite elem_of_app in N2. tauto. }
  cbn [mbind option_bind]. eexists. split; [done |]. unfold pinv. destruct (pcp_set c (mk_pcp (Z.of_nat (length rest) + 1) (pcp_low a) (pcp_high a) (pcp_batch a) (list_add p rest)) z1) as [-> ->].
  rewrite Ec. cbn [pcp_list pcp_count list_add app length].
  assert (p ∉ rest ++ pcp_list b) as Np by (intros H; apply (D p Hp), S1; by apply elem_of_list_to_set).
  split; [| split; [by constructor |]; split; [| split; [lia | done]]].
  - apply outside_set_pcp. cbn [list_to_set]. replace (owned ∖ {[p]} ∪ ({[p]} ∪ list_to_set (rest ++ pcp_list b))) with (owned ∪ list_to_set (rest ++ pcp_list b)); [done |].
    apply leibniz_equiv. intros x. rewrite !elem_of_union, elem_of_difference, !elem_of_singleton. destruct (decide (x = p)); [subst |]; tauto.
  - cbn [list_to_set]. set_solver.
Qed.

Lemma drain_pcp_ok c z owned : pinv c z owned -> exists z', drain_pcp c z = Some z' /\ pinv c z' owned /\ pcp_list (pcp_of c z') = [] /\ pcp_of (negb c) z' = pcp_of (negb c) z.
Proof.
  intros (Ox & N & D & Ea & Eb). unfold drain_pcp. set (a := pcp_of c z) in *. set (b := pcp_of (negb c) z) in *.
  destruct (free_list_spec z (pcp_count a) (pcp_list a) _ Ox) as (freed & rest & z1 & El & -> & Pc & Ox' & Hl); [by apply NoDup_app in N as [? _] | rewrite list_to_set_app_L; set_solver |].
  assert (rest = []) as ->. { apply nil_length_inv. specialize (Hl ltac:(lia)). rewrite El, length_app in Hl. rewrite El, length_app in Ea. lia. }
  cbn [app] in El. cbn [mbind option_bind]. eexists. split; [done |]. unfold pinv. set (a' := mk_pcp _ _ _ _ _). destruct (pcp_set c a' z1) as [-> ->].
  rewrite Pc. fold b. cbn [pcp_list pcp_count a' app length]. split; [| done]. rewrite El in N, D, Ox'. apply NoDup_app in N as (N1 & N2 & N3).
  split; [| split; [done |]; split; [set_solver |]; split; [rewrite Ea, El; lia | done]].
  apply outside_set_pcp. replace (owned ∪ list_to_set (pcp_list b)) with ((owned ∪ list_to_set (freed ++ pcp_list b)) ∖ list_to_set freed); [done |].
  apply leibniz_equiv. intros x. rewrite !list_to_set_app_L, !elem_of_difference, !elem_of_union, !elem_of_list_to_set.
  specialize (N2 x). specialize (D x). rewrite !list_to_set_app_L, !elem_of_union, !elem_of_list_to_set in D. tauto.
Qed.

Lemma pinv_make c z l b low high batch owned : pcp_of (negb c) z = b -> outside z (owned ∪ list_to_set (l ++ pcp_list b)) -> NoDup (l ++ pcp_list b) ->
  owned ## list_to_set (l ++ pcp_list b) -> pcp_count b = Z.of_nat (length (pcp_list b)) ->
  pinv c (set_pcp c (mk_pcp (Z.of_nat (length l)) low high batch l) z) owned.
Proof.
  intros Eb Ox N D Hb. unfold pinv. destruct (pcp_set c (mk_pcp (Z.of_nat (length l)) low high batch l) z) as [-> ->]. rewrite Eb. cbn [pcp_list pcp_count].
  split; [by apply outside_set_pcp | done].
Qed.

Lemma bad_range_block z X o q : outside z X -> block_ok size o q -> bad_range z q = false.
Proof.
  intros (C & _) (_ & (k & Hk & ->) & Hs). unfold bad_range. rewrite (co_span _ C). pose proof (pow2_pos o). apply orb_false_iff.
  split; [apply Z.leb_gt; nia | apply Z.ltb_ge; nia].
Qed.

(** The result of an allocation of order [o]. *)
Definition allocated (c : bool) (owned : gset Z) (o : nat) (r : option Z) (z' : zone) : Prop :=
  match r with
  | Some q => block_ok size o q /\ pages_of o q ## owned /\ pinv c z' (owned ∪ pages_of o q)
  | None => pinv c z' owned /\ (o = 0%nat -> pcp_list (pcp_of c z') = []) /\ forall k, 0 <= k -> (o < MAX_ORDER)%nat -> ~ all_free (lists_of z') o k
  end.

(** From the buddy system. *)
Lemma rmqueue_allocated c z owned o : pinv c z owned -> (o = 0%nat -> pcp_list (pcp_of c z) = []) ->
  exists r z', __rmqueue z o = Some (r, z') /\ allocated c owned o r z'.
Proof.
  intros I He. pose proof I as (Ox & N & D & Ea & Eb). destruct (outside_rmqueue z _ o Ox) as [[-> Hn] | (k & z' & -> & Hk & Hb & Fr & Dj & Ox')].
  { exists None, z. done. }
  exists (Some (k * pow2 o)), z'. split; [done |]. split; [done |]. split; [set_solver |]. unfold pinv. rewrite !(framed_pcp _ _ _ Fr).
  split; [| split; [done |]; split; [set_solver | done]].
  replace (owned ∪ pages_of o (k * pow2 o) ∪ _) with (owned ∪ list_to_set (pcp_list (pcp_of c z) ++ pcp_list (pcp_of (negb c) z)) ∪ pages_of o (k * pow2 o)); [done |].
  apply leibniz_equiv. set_solver.
Qed.

(** The first part of [buffered_rmqueue], for a single page. *)
Lemma refill_ok c z owned : pinv c z owned ->
  exists n l z', (if pcp_count (pcp_of c z) <=? pcp_low (pcp_of c z) then rmqueue_bulk z 0 (pcp_batch (pcp_of c z)) (pcp_list (pcp_of c z)) else Some (0, pcp_list (pcp_of c z), z)) = Some (n, l, z') /\
    pcp_count (pcp_of c z) + n = Z.of_nat (length l) /\ pcp_of (negb c) z' = pcp_of (negb c) z /\
    let b := pcp_list (pcp_of (negb c) z) in outside z' (owned ∪ list_to_set (l ++ b)) /\ NoDup (l ++ b) /\ owned ## list_to_set (l ++ b).
Proof.
  intros (Ox & N & D & Ea & Eb). destruct (_ <=? _); [| exists 0, (pcp_list (pcp_of c z)), z; split; [done |]; split; [lia | done]].
  unfold rmqueue_bulk. destruct (rmqueue_bulk_loop_spec (Z.to_nat (pcp_batch (pcp_of c z))) 0 (pcp_list (pcp_of c z)) z _ Ox) as (new & z' & -> & Fr & Nn & Dn & Ox').
  eexists _, _, z'. split; [done |]. rewrite (framed_pcp _ _ _ Fr). split; [rewrite length_app; lia |]. split; [done |]. cbv zeta.
  set (a := pcp_list (pcp_of c z)) in *. set (b := pcp_list (pcp_of (negb c) z)) in *.
  assert (list_to_set ((a ++ new) ++ b) =@{gset Z} list_to_set (a ++ b) ∪ list_to_set new) as -> by (rewrite !list_to_set_app_L; apply leibniz_equiv; set_solver).
  split; [by rewrite union_assoc_L |]. split; [| set_solver].
  rewrite <- app_assoc, (Permutation_app_comm new b), app_assoc. apply NoDup_app. split; [done |]. split; [| done].
  intros x Hx Hxn. apply (Dn x); [by apply elem_of_list_to_set |]. apply elem_of_union_r. by apply elem_of_list_to_set.
Qed.

Lemma buffered_rmqueue_ok c z owned o : pinv c z owned -> exists r z', buffered_rmqueue z o c = Some (r, z') /\ allocated c owned o r z'.
Proof.
  intros I. unfold buffered_rmqueue.
  assert (forall z, pinv c z owned -> (o = 0%nat -> pcp_list (pcp_of c z) = []) -> exists r z',
    ('(page, z) ← __rmqueue z o; match page with Some page => if bad_range z page then None else Some (Some page, z) | None => Some (None, z) end) = Some (r, z') /\
    allocated c owned o r z') as Slow.
  { intros z1 I1 He. destruct (rmqueue_allocated c z1 owned o I1 He) as (r & z' & -> & A). cbn [mbind option_bind]. destruct r as [q |]; [| by exists None, z'].
    destruct A as (Hb & Hd & I'). rewrite (bad_range_block z' _ o q (proj1 I') Hb). by exists (Some q), z'. }
  destruct (Nat.eqb_spec o 0) as [-> | Ho]; [| cbn [mbind option_bind]; by apply Slow].
  destruct (refill_ok c z owned I) as (n & l & z1 & -> & Ec & Eb & Ox1 & N1 & D1). cbn [mbind option_bind]. rewrite Ec.
  set (b := pcp_of (negb c) z) in *. destruct I as (_ & _ & _ & _ & Hb).
  destruct l as [| p l]; cbn [length].
  - cbn [Z.of_nat Z.eqb mbind option_bind]. apply Slow; [apply (pinv_make c z1 [] b); done | intros _; by rewrite (proj1 (pcp_set c _ z1))].
  - rewrite (proj2 (Z.eqb_neq (Z.of_nat (S (length l))) 0)) by lia. cbn [head mbind option_bind]. unfold list_del. rewrite decide_True by (by left). cbn [mbind option_bind].
    cbn [app] in N1. apply NoDup_cons in N1 as [Np N1]. rewrite filter_cons_False by (intros H; by apply H). rewrite filter_absent by set_solver.
    replace (Z.of_nat (S (length l)) - 1) with (Z.of_nat (length l)) by lia.
    assert (pinv c (set_pcp c (mk_pcp (Z.of_nat (length l)) (pcp_low (pcp_of c z)) (pcp_high (pcp_of c z)) (pcp_batch (pcp_of c z)) l) z1) (owned ∪ {[p]})) as I'.
    { apply (pinv_make c z1 l b); [done | | done | | done].
      - cbn [app list_to_set] in Ox1. by rewrite <- union_assoc_L.
      - cbn [app list_to_set] in D1. assert (p ∉@{gset Z} list_to_set (l ++ pcp_list b)) by (by rewrite elem_of_list_to_set). set_solver. }
    assert (0 <= p < size) as Hr. { apply (proj1 (proj2 Ox1)). cbn [app list_to_set]. set_solver. }
    assert (block_ok size 0 p) as Hbk by (split; [order_lia |]; split; [exists p; rewrite pow2_0; lia | rewrite pow2_0; lia]).
    rewrite (bad_range_block _ _ 0 p (proj1 I') Hbk). eexists _, _. split; [done |]. split; [done |]. rewrite pages_of_0. split; [| done].
    cbn [app list_to_set] in D1. set_solver.
Qed.

Lemma free_pages_ok_ok c z owned o k : pinv c z owned -> 0 <= k -> block_ok size o (k * pow2 o) -> pages_of o (k * pow2 o) ⊆ owned ->
  exists z', __free_pages_ok (k * pow2 o) o z = Some z' /\ pinv c z' (owned ∖ pages_of o (k * pow2 o)).
Proof.
  intros (Ox & N & D & Ea & Eb) Hk Hb Hs. unfold __free_pages_ok, free_pages_bulk. cbn [reverse rev_append free_bulk_loop Z.eqb].
  change (reverse [k * pow2 o]) with [k * pow2 o]. cbn [free_bulk_loop]. cbn [Z.eqb].
  destruct (outside_free (set_scanned false 0 z) _ o k (outside_scanned false 0 z _ Ox) Hk Hb) as (z' & -> & Fr & Ox'); [set_solver |].
  cbn [mbind option_bind]. exists z'. split; [done |]. unfold pinv. rewrite !(framed_pcp _ _ _ Fr).
  assert (forall c', pcp_of c' (set_scanned false 0 z) = pcp_of c' z) as Pc by (by intros []). rewrite !Pc.
  split; [| split; [done |]; split; [set_solver | done]].
  replace (owned ∖ pages_of o (k * pow2 o) ∪ _) with ((owned ∪ list_to_set (pcp_list (pcp_of c z) ++ pcp_list (pcp_of (negb c) z))) ∖ pages_of o (k * pow2 o)); [done |].
  apply leibniz_equiv. set_solver.
Qed.

(** ** A new zone *)

Lemma bitmap_words o i : 0 < size -> 0 <= i -> i * pow2 (S o) < size -> (o < MAX_ORDER - 1)%nat ->
  (Z.to_nat (Z.shiftr i 5) < Z.to_nat (pages_to_bitmap_size (Z.of_nat o) size / 4))%nat.
Proof.
  intros H0 Hi Hs Ho. unfold pages_to_bitmap_size. rewrite u32_id by (unfold is_u32; lia). rewrite !Z.shiftr_div_pow2 by lia. set (B := (size - 1) / 2 ^ (Z.of_nat o + 4)).
  assert (0 < 2 ^ (Z.of_nat o + 4)) as P by (apply Z.pow_pos_nonneg; lia).
  assert (0 <= B < 1048576) as HB by (split; [apply Z.div_pos; lia | apply Z.div_lt_upper_bound; nia]).
  change (not32 3) with (order_mask 2). rewrite land_mask by (unfold is_u32; lia). change (pow2 2) with 4. rewrite Z.div_mul by lia.
  assert (8 * pow2 (S o) = 2 ^ (Z.of_nat o + 4)) as E by (rewrite pow2_spec, Nat2Z.inj_succ; change 8 with (2 ^ 3); rewrite <- Z.pow_add_r by lia; f_equal; lia).
  assert (i / 8 <= B) as Hb.
  { unfold B. rewrite <- E. apply Z.div_le_lower_bound; [nia |]. pose proof (Z.mul_div_le i 8 ltac:(lia)). pose proof (pow2_pos (S o)). nia. }
  change (2 ^ 5) with 32. pose proof (Z.mul_div_le i 32 ltac:(lia)). pose proof (Z.mul_succ_div_gt i 8 ltac:(lia)). pose proof (Z.mul_succ_div_gt (B + 1 + 3) 4 ltac:(lia)).
  pose proof (Z.div_pos i 32 Hi ltac:(lia)). lia.
Qed.

Lemma init_areas o a : zone_init_free_lists size !! o = Some a -> free_list a = [] /\ (forall i, bitof (area_map a) i = false) /\
  ((o < MAX_ORDER - 1)%nat -> length (area_map a) = Z.to_nat (pages_to_bitmap_size (Z.of_nat o) size / 4)).
Proof.
  unfold zone_init_free_lists. intros [H | [Hl H]]%lookup_app_Some.
  - rewrite list_lookup_fmap in H. apply fmap_Some in H as (o' & [-> Hlt]%lookup_seq & ->). cbn [free_list area_map]. split; [done |].
    split; [| intros _; apply length_replicate]. intros i. unfold bitof. destruct (replicate _ _ !! _) as [w |] eqn:E; [| done].
    apply lookup_replicate in E as [-> _]. apply Z.bits_0.
  - rewrite length_fmap, length_seq in *. apply list_lookup_singleton_Some in H as [Ho <-]. cbn [free_list area_map]. split; [done |]. split; [done |]. order_lia.
Qed.

Definition all_pages : gset Z := list_to_set (seqZ 0 size).

Lemma init_zone_ok realsize : 0 < size -> pinv false (init_zone size realsize) all_pages.
Proof.
  intros H0. set (z := init_zone size realsize).
  assert (forall o, lists_of z o = []) as El by (intros o; unfold lists_of; destruct (areas z !! o) eqn:E; [by apply init_areas in E as [? _] | done]).
  assert (forall o i, bits_of z o i = false) as Eb by (intros o i; unfold bits_of; destruct (areas z !! o) eqn:E; [by apply init_areas in E as (_ & -> & _) | done]).
  assert (forall p, ~ free_page (lists_of z) p) as Nf by (intros p (o & q & Hq & _); rewrite El in Hq; by apply not_elem_of_nil in Hq).
  unfold pinv. cbn [pcp_of negb z init_zone hot cold pcp_list pcp_count app list_to_set length]. rewrite union_empty_r_L.
  split; [| split; [constructor | split; [set_solver | done]]]. split; [| split].
  - constructor.
    + constructor.
      * intros o q. rewrite El. by intros ?%not_elem_of_nil.
      * intros o. rewrite El. constructor.
      * intros o q o' q' p. rewrite El. by intros ?%not_elem_of_nil.
      * intros o k _ _ _. rewrite Eb. unfold on. rewrite El. done.
      * intros o k _ _. unfold on. rewrite El. done.
    + split; [done |]. intros o a i Ho Ha Hi Hs. destruct (init_areas o a Ha) as (_ & _ & E). rewrite (E Ho). by apply bitmap_words.
    + done.
    + rewrite (total_ext _ (fun _ => []) El). reflexivity.
  - intros p. unfold all_pages. rewrite elem_of_list_to_set, elem_of_seqZ. intros ?. split; [lia | apply Nf].
  - cbn. unfold all_pages. rewrite size_list_to_set by apply NoDup_seqZ. rewrite length_seqZ. lia.
Qed.
End zone_facts.

(** ** Sequences of calls *)

Inductive page_op := Alloc (order : nat) (is_cold : bool) | Free (page : Z) (order : nat) (is_cold : bool) | Drain.

(** [Free] is [__free_pages] or [free_cold_page] when the last reference goes. *)
Definition exec_op (op : page_op) (z : zone) : option (option Z * zone) :=
  match op with
  | Alloc order is_cold => buffered_rmqueue z order is_cold
  | Free page order is_cold => z ← (if (order =? 0)%nat then free_hot_cold_page page is_cold z else __free_pages_ok page order z); Some (None, z)
  | Drain => z ← __drain_pages z; Some (None, z)
  end.

(** The callers free aligned blocks of pages that were handed out. *)
Definition legal (owned : gset Z) (op : page_op) : bool :=
  match op with
  | Free page order _ => (order <? MAX_ORDER)%nat && (page mod pow2 order =? 0) && bool_decide (pages_of order page ⊆ owned)
  | _ => true
  end.

Definition owned_after (owned : gset Z) (op : page_op) (r : option Z) : gset Z :=
  match op, r with
  | Alloc order _, Some page => owned ∪ pages_of order page
  | Free page order _, _ => owned ∖ pages_of order page
  | _, _ => owned
  end.

(** The calls that are legal are executed; for each, the pages handed out before and the result. *)
Fixpoint run_pages (ops : list page_op) (z : zone) (owned : gset Z) : option (zone * gset Z * list (gset Z * page_op * option Z)) :=
  match ops with
  | [] => Some (z, owned, [])
  | op :: ops =>
      if legal owned op then
        '(r, z) ← exec_op op z;
        '(z, owned', hist) ← run_pages ops z (owned_after owned op r);
        Some (z, owned', (owned, op, r) :: hist)
      else run_pages ops z owned
  end.

(** An allocation gives an aligned block of the zone, none of whose pages is handed out. *)
Definition result_ok (size : Z) (h : gset Z * page_op * option Z) : Prop :=
  match h with
  | (owned, Alloc order _, Some page) => block_ok size order page /\ pages_of order page ## owned
  | _ => True
  end.

Lemma pinv_any size c c' z owned : pinv size c z owned -> pinv size c' z owned.
Proof. intros I. destruct (decide (c' = c)) as [-> | Hne]; [done |]. replace c' with (negb c) by (by destruct c, c'). by apply pinv_swap. Qed.

Lemma exec_op_ok size op z owned : size <= 1048576 -> pinv size false z owned -> legal owned op = true ->
  exists r z', exec_op op z = Some (r, z') /\ pinv size false z' (owned_after owned op r) /\ result_ok size (owned, op, r).
Proof.
  intros Hs I Hleg. destruct op as [o c | p o c |]; cbn [exec_op].
  - destruct (buffered_rmqueue_ok size Hs c z owned o (pinv_any _ _ _ _ _ I)) as (r & z' & -> & A). exists r, z'. split; [done |].
    destruct r as [q |]; cbn in A |- *; [destruct A as (? & ? & I'); split; [by eapply pinv_any | done] | destruct A as (I' & _); split; [by eapply pinv_any | done]].
  - cbn [legal] in Hleg. apply andb_true_iff in Hleg as [[Ho%Nat.ltb_lt Hm%Z.eqb_eq]%andb_true_iff Hsub%bool_decide_eq_true].
    pose proof (pow2_pos o) as Pp. pose proof (Z.div_mod p (pow2 o) ltac:(lia)) as Dm. rewrite Hm, Z.add_0_r, Z.mul_comm in Dm.
    assert (forall x, x ∈ owned -> 0 <= x < size) as Hr by (intros x Hx; apply (proj1 (proj2 (proj1 I))); set_solver).
    assert (0 <= p < size) as Hp by (apply Hr, Hsub, elem_pages_of, first_in_block).
    assert (0 <= p / pow2 o) as Hk by (apply Z.div_pos; lia).
    assert (block_ok size o p) as Hb.
    { split; [done |]. split; [by exists (p / pow2 o) |]. assert (0 <= p + pow2 o - 1 < size); [| lia]. apply Hr, Hsub, elem_pages_of. unfold in_block. lia. }
    destruct (Nat.eqb_spec o 0) as [-> | Hne].
    + rewrite pages_of_0 in Hsub. destruct (free_hot_cold_page_ok size Hs c z owned p (pinv_any _ _ _ _ _ I) ltac:(set_solver)) as (z' & -> & I').
      cbn [mbind option_bind]. eexists _, z'. split; [done |]. cbn [owned_after]. rewrite pages_of_0. split; [by eapply pinv_any | done].
    + rewrite Dm in Hb, Hsub. destruct (free_pages_ok_ok size Hs false z owned o (p / pow2 o) I Hk Hb Hsub) as (z' & E & I'). rewrite <- Dm in E, I'. rewrite E.
      cbn [mbind option_bind]. by eexists _, z'.
  - unfold __drain_pages. destruct (drain_pcp_ok size Hs false z owned I) as (z1 & -> & I1 & _). cbn [mbind option_bind].
    destruct (drain_pcp_ok size Hs true z1 owned (pinv_any _ _ _ _ _ I1)) as (z2 & -> & I2 & _). cbn [mbind option_bind]. eexists _, z2. split; [done |].
    split; [by eapply pinv_any | done].
Qed.

Lemma run_pages_ok size ops : size <= 1048576 -> forall z owned, pinv size false z owned ->
  exists z' owned' hist, run_pages ops z owned = Some (z', owned', hist) /\ pinv size false z' owned' /\ Forall (result_ok size) hist.
Proof.
  intros Hs. induction ops as [| op ops IH]; intros z owned I; cbn [run_pages]; [by exists z, owned, [] |].
  destruct (legal owned op) eqn:Hl; [| by apply IH]. destruct (exec_op_ok size op z owned Hs I Hl) as (r & z1 & -> & I1 & R). cbn [mbind option_bind].
  destruct (IH z1 (owned_after owned op r) I1) as (z' & owned' & hist & -> & I' & F). cbn [mbind option_bind]. eexists _, _, _. split; [done |]. split; [done |]. by constructor.
Qed.

(** C26. The page allocator is safe for every sequence of allocations of any order, frees
    and drains by callers that free what they were given: no [BUG_ON] fails and no access
    is outside a bitmap or list ([run_pages] is never [None]), every allocation gives an
    aligned block inside the zone with none of its pages handed out already, and no page
    is lost: the free pages, those on the two lists of the processor and those handed
    out add up to the zone. The zone may have any size, not only a multiple of the
    largest block. *)
Theorem buddy_refines size realsize ops : 0 < size <= 1048576 ->
  exists z owned hist, run_pages ops (init_zone size realsize) (all_pages size) = Some (z, owned, hist) /\ Forall (result_ok size) hist /\
    size = free_pages z + pcp_count (hot z) + pcp_count (cold z) + Z.of_nat (base.size owned).
Proof.
  intros Hs. destruct (run_pages_ok size ops ltac:(lia) _ _ (init_zone_ok size ltac:(lia) realsize ltac:(lia))) as (z & owned & hist & E & I & F).
  exists z, owned, hist. split; [done |]. split; [done |]. destruct I as ((_ & _ & Ec) & N & D & Ea & Eb). cbn [pcp_of negb] in *.
  rewrite size_union, size_list_to_set, length_app in Ec by done. lia.
Qed.

(** C27. Free memory is always joined: a block is on the list of its order exactly if its
    pages are all free and it cannot be joined to a larger block of free pages, so the
    lists depend on the set of free pages alone; and [__rmqueue] fails exactly if there
    is no aligned run of free pages of that order. *)
Theorem free_blocks_maximal size realsize ops z owned hist : 0 < size <= 1048576 ->
  run_pages ops (init_zone size realsize) (all_pages size) = Some (z, owned, hist) ->
  (forall o k, 0 <= k -> k * pow2 o ∈ lists_of z o <->
     (o < MAX_ORDER)%nat /\ all_free (lists_of z) o k /\ ((S o < MAX_ORDER)%nat -> ~ all_free (lists_of z) (S o) (k / 2))) /\
  (forall o, (o < MAX_ORDER)%nat -> __rmqueue z o = Some (None, z) <-> forall k, 0 <= k -> ~ all_free (lists_of z) o k).
Proof.
  intros Hs Er. destruct (run_pages_ok size ops ltac:(lia) _ _ (init_zone_ok size ltac:(lia) realsize ltac:(lia))) as (z' & owned' & hist' & E & I & _).
  rewrite Er in E. injection E as <- <- <-. pose proof (outside_max size ltac:(lia) _ _ (proj1 I)) as Hm. destruct I as ((C & _) & _). split.
  - intros o k Hk. by apply (free_list_max size _ _ o k (co_lists _ _ C)).
  - intros o Ho. apply (rmqueue_none size ltac:(lia)); [done | lia | done].
Qed.

(** ** Choosing a zone *)













(** ** Examples *)

(** The comment of [free_pages_bulk] says that a count of 0 frees the whole list. *)
Lemma free_pages_bulk_zero z l o : free_pages_bulk z 0 l o = Some (0, l, set_scanned false 0 z).
Proof.
  unfold free_pages_bulk. destruct (reverse l) as [| p rl] eqn:E; cbn [free_bulk_loop Z.eqb mbind option_bind].
  - apply (f_equal reverse) in E. rewrite reverse_involutive in E. by subst l.
  - rewrite <- E, reverse_involutive. done.
Qed.

(** A zone of 21 pages: its pages are given to the allocator, some blocks are taken. *)
Definition ex_ops : list page_op :=
  [Free 0 4 false; Free 16 2 false; Free 20 0 false; Drain; Alloc 2 false; Alloc 0 true; Alloc 3 false; Free 0 3 false; Drain].

Definition ex_state : zone * gset Z * list (gset Z * page_op * option Z) := default (init_zone 21 21, ∅, []) (run_pages ex_ops (init_zone 21 21) (all_pages 21)).

Lemma buddy_refines_witness : exists z owned hist, run_pages ex_ops (init_zone 21 21) (all_pages 21) = Some (z, owned, hist) /\ Forall (result_ok 21) hist /\
    21 = free_pages z + pcp_count (hot z) + pcp_count (cold z) + Z.of_nat (base.size owned).
Proof. apply (buddy_refines 21 21 ex_ops). lia. Defined.

Lemma free_blocks_maximal_witness : let z := ex_state.1.1 in
  (forall o k, 0 <= k -> k * pow2 o ∈ lists_of z o <->
     (o < MAX_ORDER)%nat /\ all_free (lists_of z) o k /\ ((S o < MAX_ORDER)%nat -> ~ all_free (lists_of z) (S o) (k / 2))) /\
  (forall o, (o < MAX_ORDER)%nat -> __rmqueue z o = Some (None, z) <-> forall k, 0 <= k -> ~ all_free (lists_of z) o k).
Proof. apply (free_blocks_maximal 21 21 ex_ops ex_state.1.1 ex_state.1.2 ex_state.2); [lia | vm_compute; reflexivity]. Defined.

