(* ===== verification/RbTree.v ===== *)
(** * Red-black trees: lib/rbtree.c, include/linux/rbtree.h

    Nodes are in a map from addresses; 0 is [NULL], and reading or writing a node that is
    not there is [None] (an oops). The code for a left child and for a right child is the
    same with the sides exchanged: it is written once here, for a side [d], and the
    functions of the C file are the instances. Loops take fuel, one more than twice the
    number of nodes, which the theorems show to be enough.

    A tree with the addresses of its nodes is laid out in the map ([at_]), and a place in
    it is a context ([frame]s from the place up to the root). Each function is shown to do
    on the map what a function on trees does, and that one to keep the tree red-black. So
    a root stands for the sequence of its nodes ([repr]). *)

From stdpp Require Import list gmap.
From S2P Require Import Prelude.

Inductive color := Red | Black.
Inductive dir := L | R.

#[export] Instance color_eq_dec : EqDecision color.
Proof. solve_decision. Defined.
#[export] Instance dir_eq_dec : EqDecision dir.
Proof. solve_decision. Defined.

Definition opp (d : dir) : dir := match d with L => R | R => L end.

Record rb_node := mk_node { rb_parent : Z; rb_color : color; rb_right : Z; rb_left : Z }.

(** The nodes in memory and [root->rb_node]. *)
Record state := mk_state { nodes : gmap Z rb_node; rb_root : Z }.

Definition child (d : dir) (n : rb_node) : Z := match d with L => rb_left n | R => rb_right n end.
Definition with_child (d : dir) (v : Z) (n : rb_node) : rb_node :=
  match d with L => mk_node (rb_parent n) (rb_color n) (rb_right n) v | R => mk_node (rb_parent n) (rb_color n) v (rb_left n) end.
Definition with_parent (v : Z) (n : rb_node) : rb_node := mk_node v (rb_color n) (rb_right n) (rb_left n).
Definition with_color (c : color) (n : rb_node) : rb_node := mk_node (rb_parent n) c (rb_right n) (rb_left n).

Definition get (p : Z) (s : state) : option rb_node := nodes s !! p.
Definition upd (p : Z) (f : rb_node -> rb_node) (s : state) : option state :=
  n ← nodes s !! p; Some (mk_state (<[p := f n]> (nodes s)) (rb_root s)).
Definition set_root (p : Z) (s : state) : state := mk_state (nodes s) p.

(** [if (p) p->... = ...]. *)
Definition upd_if (p : Z) (f : rb_node -> rb_node) (s : state) : option state := if p =? 0 then Some s else upd p f s.

(** Whether there is no node or a black one. *)
Definition is_black (p : Z) (s : state) : option bool :=
  if p =? 0 then Some true else n ← get p s; Some (bool_decide (rb_color n = Black)).

(** [if (parent) { if (old is the child of parent at d) ... else ... } else root->rb_node = new]. *)
Definition relink (d : dir) (parent old new : Z) (s : state) : option state :=
  if parent =? 0 then Some (set_root new s)
  else
    n ← get parent s;
    upd parent (with_child (if child d n =? old then d else opp d) new) s.

(** ** Rotations *)

Definition rotate (d : dir) (node : Z) (s : state) : option state :=
  n ← get node s;
  let right := child (opp d) n in
  r ← get right s;
  s ← upd node (with_child (opp d) (child d r)) s;
  s ← upd_if (child d r) (with_parent node) s;
  s ← upd right (with_child d node) s;
  n ← get node s;
  s ← upd right (with_parent (rb_parent n)) s;
  s ← relink d (rb_parent n) node right s;
  upd node (with_parent right) s.

Definition __rb_rotate_left : Z -> state -> option state := rotate L.
Definition __rb_rotate_right : Z -> state -> option state := rotate R.

(** ** Insertion *)

(** [link] is the side of [parent] that [rb_link] points to; without a parent it is the root. *)
Definition rb_link_node (node parent : Z) (link : dir) (s : state) : option state :=
  s ← upd node (fun _ => mk_node parent Red 0 0) s;
  if parent =? 0 then Some (set_root node s) else upd parent (with_child link node) s.

(** The body of the loop of [rb_insert_color] when the parent is the child of [gparent] at
    side [d]: the next [node]. *)
Definition insert_step (d : dir) (node parent gparent : Z) (s : state) : option (Z * state) :=
  g ← get gparent s;
  let uncle := child (opp d) g in
  black ← is_black uncle s;
  if negb black then
    s ← upd uncle (with_color Black) s;
    s ← upd parent (with_color Black) s;
    s ← upd gparent (with_color Red) s;
    Some (gparent, s)
  else
    p ← get parent s;
    '(parent, node, s) ← (if child (opp d) p =? node then s ← rotate d parent s; Some (node, parent, s) else Some (parent, node, s));
    s ← upd parent (with_color Black) s;
    s ← upd gparent (with_color Red) s;
    s ← rotate (opp d) gparent s;
    Some (node, s).

Fixpoint insert_color_loop (fuel : nat) (node : Z) (s : state) : option state :=
  match fuel with
  | O => None
  | S fuel =>
      n ← get node s;
      let parent := rb_parent n in
      black ← is_black parent s;
      if (black : bool) then Some s
      else
        p ← get parent s;
        let gparent := rb_parent p in
        g ← get gparent s;
        '(node, s) ← insert_step (if rb_left g =? parent then L else R) node parent gparent s;
        insert_color_loop fuel node s
  end.

Definition loop_fuel (s : state) : nat := S (2 * size (nodes s)).

Definition rb_insert_color (node : Z) (s : state) : option state :=
  s ← insert_color_loop (loop_fuel s) node s;
  upd (rb_root s) (with_color Black) s.

(** ** Removal *)

(** The second half of the body of the loop of [__rb_erase_color], from where [other] is black. *)
Definition erase_black (d : dir) (parent other : Z) (s : state) : option (state + (Z * Z * state)) :=
  o ← get other s;
  black_in ← is_black (child d o) s;
  black_out ← is_black (child (opp d) o) s;
  if (black_in && black_out : bool) then
    s ← upd other (with_color Red) s;
    n ← get parent s;
    Some (inr (parent, rb_parent n, s))
  else
    '(other, s) ← (if (black_out : bool) then
        s ← upd_if (child d o) (with_color Black) s;
        s ← upd other (with_color Red) s;
        s ← rotate (opp d) other s;
        p ← get parent s;
        Some (child (opp d) p, s)
      else Some (other, s));
    p ← get parent s;
    s ← upd other (with_color (rb_color p)) s;
    s ← upd parent (with_color Black) s;
    o ← get other s;
    s ← upd_if (child (opp d) o) (with_color Black) s;
    s ← rotate d parent s;
    Some (inl s).

(** The body of the loop when [node] is the child of [parent] at side [d]: the next [node]
    and [parent], or [inl] when the loop is left. *)
Definition erase_step (d : dir) (parent : Z) (s : state) : option (state + (Z * Z * state)) :=
  p ← get parent s;
  let other := child (opp d) p in
  o ← get other s;
  match rb_color o with
  | Red =>
      s ← upd other (with_color Black) s;
      s ← upd parent (with_color Red) s;
      s ← rotate d parent s;
      p ← get parent s;
      erase_black d parent (child (opp d) p) s
  | Black => erase_black d parent other s
  end.

Fixpoint erase_loop (fuel : nat) (node parent : Z) (s : state) : option (Z * state) :=
  match fuel with
  | O => None
  | S fuel =>
      black ← is_black node s;
      if negb black || (node =? rb_root s) then Some (node, s)
      else
        p ← get parent s;
        r ← erase_step (if rb_left p =? node then L else R) parent s;
        match r with
        | inl s => Some (rb_root s, s)
        | inr (node, parent, s) => erase_loop fuel node parent s
        end
  end.

Definition __rb_erase_color (node parent : Z) (s : state) : option state :=
  '(node, s) ← erase_loop (loop_fuel s) node parent s;
  upd_if node (with_color Black) s.

(** [while ((left = node->rb_left) != NULL) node = left;], or to the other side. *)
Fixpoint descend (fuel : nat) (d : dir) (node : Z) (s : state) : option Z :=
  match fuel with
  | O => None
  | S fuel => n ← get node s; if child d n =? 0 then Some node else descend fuel d (child d n) s
  end.

(** A node with at most one child. *)
Definition unlink (node child : Z) (s : state) : option (Z * color * state) :=
  n ← get node s;
  s ← upd_if child (with_parent (rb_parent n)) s;
  s ← relink L (rb_parent n) node child s;
  Some (rb_parent n, rb_color n, s).

(** A node [old] with two children: the next node is unlinked and takes its place. *)
Definition unlink_next (old : Z) (s : state) : option (Z * Z * color * state) :=
  o ← get old s;
  node ← descend (loop_fuel s) L (rb_right o) s;
  n ← get node s;
  let child := rb_right n in
  '(parent, color, s) ← unlink node child s;
  n ← get node s;
  let parent := if rb_parent n =? old then node else parent in
  o ← get old s;
  s ← upd node (fun _ => mk_node (rb_parent o) (rb_color o) (rb_right o) (rb_left o)) s;
  s ← relink L (rb_parent o) old node s;
  s ← upd (rb_left o) (with_parent node) s;
  s ← upd_if (rb_right o) (with_parent node) s;
  Some (child, parent, color, s).

Definition rb_erase (node : Z) (s : state) : option state :=
  n ← get node s;
  '(child, parent, color, s) ← (if rb_left n =? 0 then '(parent, color, s) ← unlink node (rb_right n) s; Some (rb_right n, parent, color, s)
    else if rb_right n =? 0 then '(parent, color, s) ← unlink node (rb_left n) s; Some (rb_left n, parent, color, s)
    else unlink_next node s);
  match color with Black => __rb_erase_color child parent s | Red => Some s end.

(** ** Walking, replacing *)

Definition rb_end (d : dir) (s : state) : option Z := if rb_root s =? 0 then Some 0 else descend (loop_fuel s) d (rb_root s) s.
Definition rb_first : state -> option Z := rb_end L.
Definition rb_last : state -> option Z := rb_end R.

(** [while (node->rb_parent && node == node->rb_parent->rb_right) node = node->rb_parent;
    return node->rb_parent;], or from the other side. *)
Fixpoint ascend (fuel : nat) (d : dir) (node : Z) (s : state) : option Z :=
  match fuel with
  | O => None
  | S fuel =>
      n ← get node s;
      if rb_parent n =? 0 then Some 0
      else p ← get (rb_parent n) s; if child d p =? node then ascend fuel d (rb_parent n) s else Some (rb_parent n)
  end.

Definition rb_step (d : dir) (node : Z) (s : state) : option Z :=
  n ← get node s;
  if child d n =? 0 then ascend (loop_fuel s) d node s else descend (loop_fuel s) (opp d) (child d n) s.
Definition rb_next : Z -> state -> option Z := rb_step R.
Definition rb_prev : Z -> state -> option Z := rb_step L.

Definition rb_replace_node (victim new : Z) (s : state) : option state :=
  v ← get victim s;
  s ← relink L (rb_parent v) victim new s;
  s ← upd_if (rb_left v) (with_parent new) s;
  s ← upd_if (rb_right v) (with_parent new) s;
  v ← get victim s;
  upd new (fun _ => v) s.

(** * Trees in memory *)

Inductive tree := E | T (c : color) (l : tree) (p : Z) (r : tree).

#[export] Instance tree_eq_dec : EqDecision tree.
Proof. solve_decision. Defined.

(** A node with [a] at side [d] and [b] at the other one. *)
Definition mkd (d : dir) (c : color) (a : tree) (p : Z) (b : tree) : tree := match d with L => T c a p b | R => T c b p a end.
Definition nd (d : dir) (par : Z) (c : color) (x y : Z) : rb_node := match d with L => mk_node par c y x | R => mk_node par c x y end.

Definition ptr_of (t : tree) : Z := match t with E => 0 | T _ _ p _ => p end.
Definition tcolor (t : tree) : color := match t with E => Black | T c _ _ _ => c end.

(** The nodes in order. *)
Fixpoint addrs (t : tree) : list Z := match t with E => [] | T _ l p r => addrs l ++ p :: addrs r end.

(** The tree is in [h], below [par]. *)
Fixpoint at_ (h : gmap Z rb_node) (par : Z) (t : tree) : Prop :=
  match t with
  | E => True
  | T c l p r => h !! p = Some (mk_node par c (ptr_of r) (ptr_of l)) /\ at_ h p l /\ at_ h p r
  end.

(** A node above a place: the place is at side [f_dir] of [f_ptr]. *)
Record frame := F { f_dir : dir; f_color : color; f_ptr : Z; f_sib : tree }.

Definition up (C : list frame) : Z := match C with [] => 0 | f :: _ => f_ptr f end.

Fixpoint ctx_at (h : gmap Z rb_node) (root : Z) (C : list frame) (x : Z) : Prop :=
  match C with
  | [] => root = x
  | F d c p sb :: C => h !! p = Some (nd d (up C) c x (ptr_of sb)) /\ at_ h p sb /\ ctx_at h root C p
  end.

Definition caddrs (C : list frame) : list Z := C ≫= fun f => f_ptr f :: addrs (f_sib f).

(** The tree is in memory with its place focused; [X] are the addresses of the whole. *)
Definition zip_at (X : list Z) (s : state) (C : list frame) (t : tree) : Prop :=
  at_ (nodes s) (up C) t /\ ctx_at (nodes s) (rb_root s) C (ptr_of t) /\ addrs t ++ caddrs C ≡ₚ X /\ NoDup X /\ 0 ∉ X.

(** Nothing but the nodes [X] is touched. *)
Definition outside_same (X : list Z) (s s' : state) : Prop := forall p, p ∉ X -> nodes s' !! p = nodes s !! p.

Lemma opp_opp d : opp (opp d) = d.
Proof. by destruct d. Qed.

Lemma mkd_opp d c a p b : mkd (opp d) c a p b = mkd d c b p a.
Proof. by destruct d. Qed.

Lemma nd_opp d par c x y : nd (opp d) par c x y = nd d par c y x.
Proof. by destruct d. Qed.

Lemma child_nd d par c x y : child d (nd d par c x y) = x.
Proof. by destruct d. Qed.

Lemma child_nd_opp d par c x y : child (opp d) (nd d par c x y) = y.
Proof. by destruct d. Qed.

Lemma parent_nd d par c x y : rb_parent (nd d par c x y) = par.
Proof. by destruct d. Qed.

Lemma color_nd d par c x y : rb_color (nd d par c x y) = c.
Proof. by destruct d. Qed.

Lemma with_child_nd d par c x y v : with_child d v (nd d par c x y) = nd d par c v y.
Proof. by destruct d. Qed.

Lemma with_child_nd_opp d par c x y v : with_child (opp d) v (nd d par c x y) = nd d par c x v.
Proof. by destruct d. Qed.

Lemma with_parent_nd d par c x y v : with_parent v (nd d par c x y) = nd d v c x y.
Proof. by destruct d. Qed.

Lemma with_color_nd d par c x y c' : with_color c' (nd d par c x y) = nd d par c' x y.
Proof. by destruct d. Qed.

#[local] Hint Rewrite child_nd child_nd_opp parent_nd color_nd with_child_nd with_child_nd_opp with_parent_nd with_color_nd opp_opp : rb.

Lemma ptr_mkd d c a p b : ptr_of (mkd d c a p b) = p.
Proof. by destruct d. Qed.

Lemma color_mkd d c a p b : tcolor (mkd d c a p b) = c.
Proof. by destruct d. Qed.

Lemma addrs_mkd d c a p b : addrs (mkd d c a p b) ≡ₚ p :: addrs a ++ addrs b.
Proof. destruct d; cbn; rewrite <- Permutation_middle; [done |]. by rewrite (Permutation_app_comm (addrs b)). Qed.

Lemma at_mkd h par d c a p b : at_ h par (mkd d c a p b) <-> h !! p = Some (nd d par c (ptr_of a) (ptr_of b)) /\ at_ h p a /\ at_ h p b.
Proof. destruct d; cbn; tauto. Qed.

Lemma tree_mkd d t : t = E \/ exists c a p b, t = mkd d c a p b.
Proof. destruct t as [| c l p r]; [by left | right]. destruct d; [by exists c, l, p, r | by exists c, r, p, l]. Qed.

Lemma ptr_in t : ptr_of t = 0 \/ ptr_of t ∈ addrs t.
Proof. destruct t; [by left | right]. cbn. apply elem_of_app. right. by left. Qed.

Lemma at_insert h par t p n : p ∉ addrs t -> at_ (<[p := n]> h) par t <-> at_ h par t.
Proof.
  revert par. induction t as [| c l IHl q r IHr]; intros par Hp; cbn in *; [done |]. apply not_elem_of_app in Hp as [Hl [Hq Hr]%not_elem_of_cons].
  rewrite lookup_insert_ne by done. by rewrite IHl, IHr.
Qed.

Lemma ctx_insert h root C x p n : p ∉ caddrs C -> ctx_at (<[p := n]> h) root C x <-> ctx_at h root C x.
Proof.
  revert x. induction C as [| [d c q sb] C IH]; intros x Hp; cbn in *; [done |]. apply not_elem_of_cons in Hp as [Hq [Hs HC]%not_elem_of_app].
  rewrite lookup_insert_ne by done. by rewrite at_insert, IH.
Qed.

(** The whole tree with a new parent for its root. *)
Lemma at_reparent h par par' t : at_ h par t -> NoDup (addrs t) -> t <> E ->
  exists n, h !! ptr_of t = Some n /\ at_ (<[ptr_of t := with_parent par' n]> h) par' t.
Proof.
  intros A N Hne. destruct t as [| c l p r]; [done |]. cbn in *. destruct A as (Hp & Al & Ar). eexists. split; [done |].
  apply NoDup_app in N as (_ & N2 & [N3 _]%NoDup_cons). rewrite lookup_insert_eq. split; [done |]. rewrite !at_insert by set_solver. done.
Qed.

(** Moving the focus. *)
Lemma zip_up X s d c p sb C t : zip_at X s (F d c p sb :: C) t <-> zip_at X s C (mkd d c t p sb).
Proof.
  unfold zip_at. rewrite at_mkd, ptr_mkd, addrs_mkd. cbn [ctx_at up f_ptr]. change (caddrs (F d c p sb :: C)) with (p :: addrs sb ++ caddrs C).
  rewrite <- Permutation_middle. rewrite (app_assoc (addrs t)). cbn [app]. tauto.
Qed.

Lemma zip_side X s d c p sb C t : zip_at X s (F d c p sb :: C) t <-> zip_at X s (F (opp d) c p t :: C) sb.
Proof. by rewrite !zip_up, mkd_opp. Qed.

Lemma zip_get X s C d c a p b : zip_at X s C (mkd d c a p b) -> get p s = Some (nd d (up C) c (ptr_of a) (ptr_of b)).
Proof. intros (A & _). rewrite at_mkd in A. apply A. Qed.

Lemma zip_nonnull X s C d c a p b : zip_at X s C (mkd d c a p b) -> p <> 0.
Proof. intros (_ & _ & P & _ & N0) ->. apply N0. rewrite <- P, addrs_mkd. by left. Qed.

Lemma zip_black X s C t : zip_at X s C t -> is_black (ptr_of t) s = Some (bool_decide (tcolor t = Black)).
Proof.
  intros Z. destruct t as [| c l p r]; [done |]. unfold is_black. cbn [ptr_of tcolor]. pose proof (zip_nonnull X s C L c l p r Z) as Hp.
  rewrite (proj2 (Z.eqb_neq _ _)) by done. by rewrite (zip_get X s C L c l p r Z).
Qed.

Lemma outside_refl X s : outside_same X s s.
Proof. done. Qed.

Lemma outside_trans X s1 s2 s3 : outside_same X s1 s2 -> outside_same X s2 s3 -> outside_same X s1 s3.
Proof. intros H1 H2 p Hp. by rewrite H2, H1. Qed.

(** Writing to the focused node. *)
Lemma zip_upd X s C d c a p b c' : zip_at X s C (mkd d c a p b) ->
  exists s', upd p (with_color c') s = Some s' /\ zip_at X s' C (mkd d c' a p b) /\ outside_same X s s'.
Proof.
  intros Z. pose proof (zip_get _ _ _ _ _ _ _ _ Z) as G. destruct Z as (A & K & P & N & N0). unfold upd. unfold get in G. rewrite G. cbn [mbind option_bind].
  rewrite with_color_nd. eexists. split; [done |]. rewrite at_mkd in A. destruct A as (_ & Aa & Ab). rewrite addrs_mkd in P.
  assert (NoDup (p :: (addrs a ++ addrs b) ++ caddrs C)) as ND by (by rewrite P). apply NoDup_cons in ND as [Np _].
  unfold zip_at. cbn [nodes rb_root]. rewrite at_mkd, ptr_mkd, addrs_mkd, lookup_insert_eq, !at_insert, ctx_insert by set_solver. rewrite ptr_mkd in K.
  split; [done |]. intros q Hq. cbn. rewrite lookup_insert_ne; [done |]. intros ->. apply Hq. rewrite <- P. by left.
Qed.

(** What a pointer write does to the rest. *)
Lemma at_ext h h' par t : (forall p, p ∈ addrs t -> h' !! p = h !! p) -> at_ h par t -> at_ h' par t.
Proof.
  revert par. induction t as [| c l IHl p r IHr]; intros par Hs A; cbn in *; [done |]. destruct A as (Hp & Al & Ar). rewrite Hs by set_solver.
  split; [done |]. split; [apply IHl | apply IHr]; [set_solver | done | set_solver | done].
Qed.

Lemma ctx_ext h h' root C x : (forall p, p ∈ caddrs C -> h' !! p = h !! p) -> ctx_at h root C x -> ctx_at h' root C x.
Proof.
  revert x. induction C as [| [d c p sb] C IH]; intros x Hs K; [done |]. cbn [ctx_at] in *. change (caddrs (F d c p sb :: C)) with (p :: addrs sb ++ caddrs C) in Hs.
  destruct K as (Hp & A & K). rewrite Hs by set_solver. split; [done |]. split; [eapply at_ext; [| done]; set_solver | apply IH; [set_solver | done]].
Qed.

Lemma upd_some p f s n : nodes s !! p = Some n -> upd p f s = Some (mk_state (<[p := f n]> (nodes s)) (rb_root s)).
Proof. intros H. unfold upd. by rewrite H. Qed.

Lemma reparent par par' t s : at_ (nodes s) par t -> NoDup (addrs t) -> 0 ∉ addrs t ->
  exists s', upd_if (ptr_of t) (with_parent par') s = Some s' /\ at_ (nodes s') par' t /\ rb_root s' = rb_root s /\ outside_same (addrs t) s s'.
Proof.
  intros A N N0. destruct t as [| c l p r]; [by exists s |]. cbn [ptr_of at_] in *. destruct A as (Hp & Al & Ar). cbn [addrs] in N, N0.
  apply NoDup_app in N as (_ & N2 & [N3 _]%NoDup_cons). unfold upd_if. rewrite (proj2 (Z.eqb_neq _ _)) by set_solver.
  rewrite (upd_some _ _ _ _ Hp). eexists. split; [done |]. cbn [nodes rb_root]. rewrite lookup_insert_eq, !at_insert by set_solver.
  split; [done |]. split; [done |]. intros q Hq. cbn in *. by rewrite lookup_insert_ne by set_solver.
Qed.

Lemma caddrs_cons d c p sb C : caddrs (F d c p sb :: C) = p :: addrs sb ++ caddrs C.
Proof. done. Qed.

Lemma child_either d d' par c x y old : x = old -> y <> old -> (if child d (nd d' par c x y) =? old then d else opp d) = d'.
Proof. intros -> Hy. destruct d, d'; cbn; rewrite ?Z.eqb_refl, ?(proj2 (Z.eqb_neq _ _) Hy); done. Qed.

Lemma relink_spec d C old new s : ctx_at (nodes s) (rb_root s) C old -> old <> 0 -> old ∉ caddrs C -> NoDup (caddrs C) -> 0 ∉ caddrs C ->
  exists s', relink d (up C) old new s = Some s' /\ ctx_at (nodes s') (rb_root s') C new /\ outside_same (caddrs C) s s'.
Proof.
  intros K H0 Ho N N0. unfold relink. destruct C as [| [d' c p sb] C]; [by eexists |]. cbn [up f_ptr ctx_at] in *. rewrite caddrs_cons in *.
  destruct K as (Hp & A & K). apply NoDup_cons in N as [N1 N2]. rewrite (proj2 (Z.eqb_neq _ _)) by set_solver. unfold get. rewrite Hp. cbn [mbind option_bind].
  rewrite child_either; [| done | destruct (ptr_in sb); set_solver]. rewrite (upd_some _ _ _ _ Hp), with_child_nd. eexists. split; [done |]. cbn [nodes rb_root].
  rewrite lookup_insert_eq, at_insert, ctx_insert by set_solver. split; [done |]. intros q Hq. cbn. by rewrite lookup_insert_ne by set_solver.
Qed.

(** The addresses of a place, apart. *)
Lemma zip_apart X s C t : zip_at X s C t -> NoDup (addrs t) /\ NoDup (caddrs C) /\ (forall p, p ∈ addrs t -> p ∉ caddrs C) /\ 0 ∉ addrs t /\ 0 ∉ caddrs C.
Proof.
  intros (_ & _ & P & N & N0). rewrite <- P in N, N0. apply NoDup_app in N as (N1 & N2 & N3). apply not_elem_of_app in N0 as [? ?]. done.
Qed.

Lemma nodup_mkd d c a p b : NoDup (addrs (mkd d c a p b)) -> p ∉ addrs a /\ p ∉ addrs b /\ NoDup (addrs a) /\ NoDup (addrs b) /\ (forall q, q ∈ addrs a -> q ∉ addrs b).
Proof. rewrite addrs_mkd, NoDup_cons, NoDup_app. set_solver. Qed.

Lemma elem_mkd q d c a p b : q ∈ addrs (mkd d c a p b) <-> q = p \/ q ∈ addrs a \/ q ∈ addrs b.
Proof. rewrite addrs_mkd. set_solver. Qed.

Lemma outside_mono X Y s s' : outside_same X s s' -> (forall p, p ∈ X -> p ∈ Y) -> outside_same Y s s'.
Proof. intros H S p Hp. apply H. auto. Qed.

Lemma rotate_addrs d c c' a x b y e : addrs (mkd d c' (mkd d c a x b) y e) = addrs (mkd d c a x (mkd d c' b y e)).
Proof. destruct d; cbn; by rewrite <- !app_assoc. Qed.

(** Addresses in different parts are different. *)
Ltac apart := let H := fresh in solve [done | intros H; subst; unfold not in *; eauto 9].
Ltac bool_ne := rewrite (proj2 (Z.eqb_neq _ _)) by apart.
Ltac keep := repeat first [rewrite lookup_insert_eq | rewrite lookup_insert_ne by apart | match goal with H : outside_same _ _ ?s |- context [nodes ?s !! ?p] => rewrite (H p) by apart end | match goal with |- context [nodes ?s !! _] => is_var s; unfold s; cbn [nodes] end].
Ltac keep_at := match goal with H : at_ ?h _ ?t |- at_ ?h' _ ?t => eapply at_ext; [| exact H]; intros; cbn [nodes]; by keep end.

Lemma rotate_spec X s C d c c' a x b y e : zip_at X s C (mkd d c a x (mkd d c' b y e)) ->
  exists s', rotate d x s = Some s' /\ zip_at X s' C (mkd d c' (mkd d c a x b) y e) /\ outside_same X s s'.
Proof.
  intros Z. pose proof (zip_apart _ _ _ _ Z) as (N1 & N2 & N3 & N4 & N5). destruct Z as (A & K & P & N & N0).
  apply nodup_mkd in N1 as (M1 & M2 & M3 & M4 & M5). pose proof (nodup_mkd _ _ _ _ _ M4) as (M6 & M7 & M8 & M9 & M10).
  setoid_rewrite elem_mkd in N3. setoid_rewrite elem_mkd in N3. setoid_rewrite elem_mkd in M5. setoid_rewrite elem_mkd in M2. setoid_rewrite elem_mkd in N4. setoid_rewrite elem_mkd in N4.
  rewrite at_mkd, at_mkd, ptr_mkd in A. destruct A as (Hx & Aa & Hy & Ab & Ae). rewrite ptr_mkd in K.
  unfold rotate, get. rewrite Hx. cbn [mbind option_bind]. rewrite child_nd_opp, Hy. cbn [mbind option_bind]. rewrite child_nd, (upd_some _ _ _ _ Hx), with_child_nd_opp. cbn [mbind option_bind].
  set (s1 := mk_state _ _). assert (at_ (nodes s1) y b) as Ab1 by keep_at.
  destruct (reparent y x b s1 Ab1 M8 ltac:(apart)) as (s2 & -> & Ab2 & R2 & O2). cbn [mbind option_bind].
  assert (nodes s2 !! y = Some (nd d x c' (ptr_of b) (ptr_of e))) as Hy2 by (by keep).
  rewrite (upd_some _ _ _ _ Hy2), with_child_nd. cbn [mbind option_bind nodes].
  assert (nodes s2 !! x = Some (nd d (up C) c (ptr_of a) (ptr_of b))) as Hx2 by (by keep).
  rewrite lookup_insert_ne, Hx2 by apart. cbn [mbind option_bind]. rewrite parent_nd. erewrite upd_some by (cbn [nodes]; apply lookup_insert_eq). cbn [mbind option_bind nodes rb_root].
  rewrite with_parent_nd, insert_insert_eq. set (s4 := mk_state _ (rb_root s2)).
  assert (ctx_at (nodes s4) (rb_root s4) C x) as K4. { cbn [rb_root s4]. rewrite R2. eapply ctx_ext; [| exact K]. intros q Hq. by keep. }
  destruct (relink_spec d C x y s4 K4 ltac:(apart) ltac:(apart) N2 N5) as (s5 & -> & K5 & O5). cbn [mbind option_bind].
  assert (nodes s5 !! x = Some (nd d (up C) c (ptr_of a) (ptr_of b))) as Hx5 by (by keep).
  rewrite (upd_some _ _ _ _ Hx5), with_parent_nd. eexists. split; [done |]. split.
  - unfold zip_at. cbn [nodes rb_root]. rewrite !at_mkd, !ptr_mkd, lookup_insert_eq. rewrite lookup_insert_ne by apart.
    assert (nodes s5 !! y = nodes s4 !! y) as -> by (apply O5; apart). cbn [nodes s4]. rewrite lookup_insert_eq, rotate_addrs.
    rewrite !at_insert, ctx_insert by apart. repeat split; try done.
    + eapply at_ext; [| exact Aa]. intros q Hq. by keep.
    + eapply at_ext; [| exact Ab2]. intros q Hq. by keep.
    + eapply at_ext; [| exact Ae]. intros q Hq. by keep.
  - intros q Hq. rewrite <- P, elem_of_app, !elem_mkd in Hq. cbn [nodes]. by keep.
Qed.

(** * Red-black trees *)

(** No red node has a red child. *)
Fixpoint nored (t : tree) : Prop :=
  match t with
  | E => True
  | T c l _ r => (c = Red -> tcolor l = Black /\ tcolor r = Black) /\ nored l /\ nored r
  end.

(** Every way down has [n] black nodes. *)
Fixpoint bal (t : tree) (n : nat) : Prop :=
  match t, n with
  | E, _ => n = 0%nat
  | T Red l _ r, _ => bal l n /\ bal r n
  | T Black l _ r, S n => bal l n /\ bal r n
  | T Black _ _ _, O => False
  end.

Definition grow (c : color) (n : nat) : nat := match c with Red => n | Black => S n end.

Definition cblack (C : list frame) : Prop := match C with [] => False | f :: _ => f_color f = Black end.

(** What surrounds a place is red-black if the place gets a black node or none, and black if there is no place above. *)
Fixpoint cnored (C : list frame) : Prop :=
  match C with
  | [] => True
  | F _ c _ sb :: C => (c = Red -> tcolor sb = Black /\ cblack C) /\ nored sb /\ cnored C
  end.

Fixpoint cbal (C : list frame) (n : nat) : Prop :=
  match C with
  | [] => True
  | F _ c _ sb :: C => bal sb n /\ cbal C (grow c n)
  end.

Definition plug (C : list frame) (t : tree) : tree := foldl (fun t f => mkd (f_dir f) (f_color f) t (f_ptr f) (f_sib f)) t C.

Definition blacken (t : tree) : tree := match t with E => E | T _ l p r => T Black l p r end.

Lemma nored_mkd d c a p b : nored (mkd d c a p b) <-> (c = Red -> tcolor a = Black /\ tcolor b = Black) /\ nored a /\ nored b.
Proof. destruct d; cbn; tauto. Qed.

Lemma bal_mkd d c a p b n : bal (mkd d c a p b) (grow c n) <-> bal a n /\ bal b n.
Proof. destruct d, c, n; cbn; tauto. Qed.

Lemma bal_red d a p b n : bal (mkd d Red a p b) n <-> bal a n /\ bal b n.
Proof. apply (bal_mkd d Red). Qed.

Lemma bal_black d a p b n : bal (mkd d Black a p b) (S n) <-> bal a n /\ bal b n.
Proof. apply (bal_mkd d Black). Qed.

Lemma blacken_mkd d c a p b : blacken (mkd d c a p b) = mkd d Black a p b.
Proof. by destruct d. Qed.

Lemma blacken_black t : tcolor t = Black -> blacken t = t.
Proof. destruct t as [| [] ? ? ?]; done. Qed.

Lemma blacken_addrs t : addrs (blacken t) = addrs t.
Proof. by destruct t. Qed.

Lemma plug_cons d c p sb C t : plug (F d c p sb :: C) t = plug C (mkd d c t p sb).
Proof. done. Qed.

Lemma plug_addrs C t t' : addrs t = addrs t' -> addrs (plug C t) = addrs (plug C t').
Proof.
  revert t t'. induction C as [| [d c p sb] C IH]; intros t t' Ha; [done |]. rewrite !plug_cons. apply IH. destruct d; cbn; by rewrite Ha.
Qed.

Lemma plug_nored C t : nored t -> cnored C -> (tcolor t = Red -> C = [] \/ cblack C) -> nored (plug C t).
Proof.
  revert t. induction C as [| [d c p sb] C IH]; intros t Ht K Hc; [done |]. cbn [cnored] in K. destruct K as (K1 & K2 & K3). rewrite plug_cons.
  apply IH; [| done | rewrite color_mkd; intros Hr; right; by apply K1]. rewrite nored_mkd. split; [| done]. intros ->.
  split; [| by apply K1]. destruct (tcolor t); [| done]. destruct Hc as [| ]; done.
Qed.

Lemma plug_bal C t n : bal t n -> cbal C n -> exists m, bal (plug C t) m.
Proof.
  revert t n. induction C as [| [d c p sb] C IH]; intros t n Ht K; [by exists n |]. destruct K as [K1 K2]. rewrite plug_cons. eapply IH; [| done]. by rewrite bal_mkd.
Qed.


Lemma zip_plug X s C t : zip_at X s C t <-> zip_at X s [] (plug C t).
Proof. revert t. induction C as [| [d c p sb] C IH]; intros t; [done |]. by rewrite plug_cons, <- IH, zip_up. Qed.

Lemma ptr_ne t t' : t <> E -> 0 ∉ addrs t -> (forall p, p ∈ addrs t -> p ∉ addrs t') -> ptr_of t' <> ptr_of t.
Proof.
  intros Hne N0 D Heq. assert (ptr_of t ∈ addrs t) as Hi by (destruct t; [done |]; cbn; set_solver). destruct (ptr_in t') as [E0 | E0]; [| apply (D _ Hi); by rewrite <- Heq].
  apply N0. by rewrite <- E0, Heq.
Qed.

Lemma zip_sib_ne X s d c p sb C t : zip_at X s (F d c p sb :: C) t -> t <> E \/ sb <> E -> ptr_of sb <> ptr_of t.
Proof.
  intros Z H. pose proof (zip_apart _ _ _ _ Z) as (_ & _ & D & Z1 & Z2). rewrite caddrs_cons in *. destruct H as [H | H]; [apply ptr_ne; set_solver |].
  apply not_eq_sym, ptr_ne; set_solver.
Qed.

Lemma side_nd d par c x y : x <> y -> (if rb_left (nd d par c x y) =? x then L else R) = d.
Proof. intros H. destruct d; cbn; [by rewrite Z.eqb_refl |]. by rewrite (proj2 (Z.eqb_neq _ _)) by done. Qed.

(** ** Insertion *)

Ltac zip := rewrite ?zip_up, ?mkd_opp in *; assumption.
Ltac zget H := rewrite H; cbn [mbind option_bind]; autorewrite with rb.
Ltac step_to H := let s := fresh "s" in let E := fresh "E" in let Z := fresh "Z" in let O := fresh "O" in destruct H as (s & E & Z & O); rewrite E; cbn [mbind option_bind]; clear E.

Lemma insert_step_red X s C d c d2 p sb g ua u ub t : zip_at X s (F d2 Red p sb :: F d c g (mkd d Red ua u ub) :: C) t ->
  exists s', insert_step d (ptr_of t) p g s = Some (g, s') /\ zip_at X s' C (mkd d Red (mkd d2 Black t p sb) g (mkd d Black ua u ub)) /\ outside_same X s s'.
Proof.
  intros Z. unfold insert_step. assert (zip_at X s C (mkd d c (mkd d2 Red t p sb) g (mkd d Red ua u ub))) as Z0 by zip. rewrite (zip_get _ _ _ _ _ _ _ _ Z0). cbn [mbind option_bind].
  rewrite child_nd_opp. assert (zip_at X s (F (opp d) c g (mkd d2 Red t p sb) :: C) (mkd d Red ua u ub)) as Z1 by zip. rewrite (zip_black _ _ _ _ Z1). rewrite color_mkd, ptr_mkd.
  cbn [mbind option_bind]. rewrite bool_decide_false by done. cbn [negb].
  step_to (zip_upd _ _ _ _ _ _ _ _ Black Z1).
  assert (zip_at X s0 (F d c g (mkd d Black ua u ub) :: C) (mkd d2 Red t p sb)) as Z3 by zip. step_to (zip_upd _ _ _ _ _ _ _ _ Black Z3).
  assert (zip_at X s1 C (mkd d c (mkd d2 Black t p sb) g (mkd d Black ua u ub))) as Z5 by zip. step_to (zip_upd _ _ _ _ _ _ _ _ Red Z5).
  eexists. split; [done |]. split; [done |]. eauto using outside_trans.
Qed.

Lemma insert_step_outer X s C d c p sb g u t : zip_at X s (F d Red p sb :: F d c g u :: C) t -> t <> E -> tcolor u = Black ->
  exists s', insert_step d (ptr_of t) p g s = Some (ptr_of t, s') /\ zip_at X s' C (mkd d Black t p (mkd d Red sb g u)) /\ outside_same X s s'.
Proof.
  intros Z Ht Hu. unfold insert_step. assert (zip_at X s C (mkd d c (mkd d Red t p sb) g u)) as Z0 by zip. zget (zip_get _ _ _ _ _ _ _ _ Z0).
  assert (zip_at X s (F (opp d) c g (mkd d Red t p sb) :: C) u) as Z1 by zip. zget (zip_black _ _ _ _ Z1). rewrite bool_decide_true by done. cbn [negb].
  assert (zip_at X s (F d c g u :: C) (mkd d Red t p sb)) as Z2 by zip. zget (zip_get _ _ _ _ _ _ _ _ Z2).
  rewrite (proj2 (Z.eqb_neq _ _)) by (eapply zip_sib_ne; eauto). cbn [mbind option_bind]. step_to (zip_upd _ _ _ _ _ _ _ _ Black Z2).
  assert (zip_at X s0 C (mkd d c (mkd d Black t p sb) g u)) as Z4 by zip. step_to (zip_upd _ _ _ _ _ _ _ _ Red Z4).
  assert (zip_at X s1 C (mkd (opp d) Red u g (mkd (opp d) Black sb p t))) as Z6 by zip. step_to (rotate_spec _ _ _ _ _ _ _ _ _ _ _ Z6).
  eexists. split; [done |]. rewrite !mkd_opp in Z7. eauto using outside_trans.
Qed.

Lemma insert_step_inner X s C d c p sb g u ct a x b : zip_at X s (F (opp d) Red p sb :: F d c g u :: C) (mkd d ct a x b) -> tcolor u = Black ->
  exists s', insert_step d x p g s = Some (p, s') /\ zip_at X s' C (mkd d Black (mkd d Red sb p a) x (mkd d Red b g u)) /\ outside_same X s s'.
Proof.
  intros Z Hu. unfold insert_step. assert (zip_at X s C (mkd d c (mkd d Red sb p (mkd d ct a x b)) g u)) as Z0 by zip. zget (zip_get _ _ _ _ _ _ _ _ Z0).
  assert (zip_at X s (F (opp d) c g (mkd d Red sb p (mkd d ct a x b)) :: C) u) as Z1 by zip. zget (zip_black _ _ _ _ Z1). rewrite bool_decide_true by done. cbn [negb].
  assert (zip_at X s (F d c g u :: C) (mkd d Red sb p (mkd d ct a x b))) as Z2 by zip. zget (zip_get _ _ _ _ _ _ _ _ Z2). rewrite ptr_mkd, Z.eqb_refl.
  step_to (rotate_spec _ _ _ _ _ _ _ _ _ _ _ Z2). step_to (zip_upd _ _ _ _ _ _ _ _ Black Z3).
  assert (zip_at X s1 C (mkd d c (mkd d Black (mkd d Red sb p a) x b) g u)) as Z5 by zip. step_to (zip_upd _ _ _ _ _ _ _ _ Red Z5).
  assert (zip_at X s2 C (mkd (opp d) Red u g (mkd (opp d) Black b x (mkd d Red sb p a)))) as Z7 by zip. step_to (rotate_spec _ _ _ _ _ _ _ _ _ _ _ Z7).
  eexists. split; [done |]. rewrite !mkd_opp in Z8. eauto using outside_trans.
Qed.

(** A tree that is red-black but for the color of its root. *)
Definition shape (X : list Z) (s : state) (xs : list Z) (t : tree) : Prop := zip_at X s [] t /\ nored t /\ (exists n, bal t n) /\ addrs t = xs.

Lemma insert_loop_stop X s C t fuel : zip_at X s C t -> t <> E -> C = [] \/ cblack C -> (0 < fuel)%nat -> insert_color_loop fuel (ptr_of t) s = Some s.
Proof.
  intros Z Ht HC Hf. destruct fuel as [| fuel]; [lia |]. destruct (tree_mkd L t) as [-> | (c & a & x & b & ->)]; [done |]. cbn [insert_color_loop]. rewrite ptr_mkd.
  zget (zip_get _ _ _ _ _ _ _ _ Z). destruct C as [| [d c' p sb] C]; [done |]. destruct HC as [| HC]; [done |]. cbn in HC. subst c'. cbn [up f_ptr].
  rewrite zip_up in Z. pose proof (zip_black _ _ _ _ Z) as B. rewrite ptr_mkd, color_mkd in B. by rewrite B.
Qed.

Lemma above_cases C : (C = [] \/ cblack C) \/ exists d p sb C', C = F d Red p sb :: C'.
Proof. destruct C as [| [d [] p sb] C]; [left; by left | right; by exists d, p, sb, C | left; by right]. Qed.

(** One turn of the loop under a red parent. *)
Lemma insert_loop_turn X s d2 p sb d c g u C t fuel : zip_at X s (F d2 Red p sb :: F d c g u :: C) t -> t <> E ->
  insert_color_loop (S fuel) (ptr_of t) s = '(node, s') ← insert_step d (ptr_of t) p g s; insert_color_loop fuel node s'.
Proof.
  intros Z Ht. destruct (tree_mkd L t) as [-> | (ct & a & x & b & ->)]; [done |]. cbn [insert_color_loop]. rewrite ptr_mkd. zget (zip_get _ _ _ _ _ _ _ _ Z). cbn [up f_ptr].
  assert (zip_at X s (F d c g u :: C) (mkd d2 Red (mkd L ct a x b) p sb)) as Z1 by zip. pose proof (zip_black _ _ _ _ Z1) as B. rewrite ptr_mkd, color_mkd in B. zget B.
  rewrite bool_decide_false by done. zget (zip_get _ _ _ _ _ _ _ _ Z1). cbn [up f_ptr]. assert (zip_at X s C (mkd d c (mkd d2 Red (mkd L ct a x b) p sb) g u)) as Z2 by zip.
  zget (zip_get _ _ _ _ _ _ _ _ Z2). rewrite ptr_mkd, side_nd; [done |]. pose proof (zip_sib_ne _ _ _ _ _ _ _ _ Z1) as S. rewrite ptr_mkd in S. apply not_eq_sym, S. left. by destruct d2.
Qed.

(** The turn with no red uncle makes the place black. *)
Lemma insert_step_last X s C d2 d p sb g u t n : zip_at X s (F d2 Red p sb :: F d Black g u :: C) t -> tcolor t = Red -> tcolor u = Black -> tcolor sb = Black ->
  nored t -> nored sb -> nored u -> bal t n -> bal sb n -> bal u n ->
  exists s' f t', insert_step d (ptr_of t) p g s = Some (ptr_of t', s') /\ t' <> E /\ f_color f = Black /\ zip_at X s' (f :: C) t' /\ outside_same X s s' /\
    nored (plug [f] t') /\ bal (plug [f] t') (S n) /\ addrs (plug [f] t') = addrs (mkd d Black (mkd d2 Red t p sb) g u).
Proof.
  intros Z Hr Bu Bs Nt Ns Nu Ht Hs Hu. destruct (decide (d2 = d)) as [-> | Hd].
  - destruct (insert_step_outer X s C d Black p sb g u t Z) as (s' & E1 & Z1 & O1); [by intros -> | done |]. exists s', (F d Black p (mkd d Red sb g u)), t.
    split; [done |]. split; [by intros -> |]. split; [done |]. split; [by rewrite zip_up |]. split; [done |]. rewrite plug_cons. cbn [plug foldl].
    rewrite !nored_mkd, bal_black, bal_red. split; [naive_solver |]. split; [done |]. destruct d; cbn; by rewrite <- !app_assoc.
  - assert (d2 = opp d) as -> by (by destruct d, d2). destruct (tree_mkd d t) as [-> | (ct & a & x & b & ->)]; [done |]. rewrite color_mkd in Hr. subst ct. rewrite ptr_mkd.
    destruct (insert_step_inner X s C d Black p sb g u Red a x b Z Bu) as (s' & E1 & Z1 & O1). exists s', (F d Black x (mkd d Red b g u)), (mkd d Red sb p a).
    rewrite ptr_mkd. split; [done |]. split; [by destruct d |]. split; [done |]. split; [by rewrite zip_up |]. split; [done |]. rewrite plug_cons. cbn [plug foldl].
    rewrite nored_mkd in Nt. rewrite bal_red in Ht. rewrite !nored_mkd, bal_black, !bal_red, mkd_opp. split; [naive_solver |]. split; [tauto |].
    destruct d; cbn; by rewrite <- !app_assoc; cbn; rewrite <- ?app_assoc.
Qed.

Lemma insert_color_loop_spec C : forall X s t n fuel, zip_at X s C t -> tcolor t = Red -> nored t -> bal t n -> cnored C -> cbal C n -> (length C < fuel)%nat ->
  exists s' t', insert_color_loop fuel (ptr_of t) s = Some s' /\ shape X s' (addrs (plug C t)) t' /\ outside_same X s s'.
Proof.
  induction C as [C IH] using (induction_ltof1 _ length). unfold ltof in IH. intros X s t n fuel Z Hr Ht Hb KC KB Hf. assert (t <> E) as Hne by (by intros ->).
  destruct (above_cases C) as [HC | (d2 & p & sb & C' & ->)].
  { exists s, (plug C t). split; [eapply insert_loop_stop; [done | done | done | lia] |]. split; [| done]. split; [by rewrite <- zip_plug |]. split; [by apply plug_nored |]. split; [by eapply plug_bal | done]. }
  cbn [cnored] in KC. destruct KC as (KC1 & Hsb & KC). destruct (KC1 eq_refl) as [Bsb Bg]. clear KC1. destruct C' as [| [d cg g u] C]; [done |]. cbn in Bg. subst cg.
  cbn [cbal grow] in KB. destruct KB as (Kp & Ku & KB). cbn [cnored] in KC. destruct KC as (_ & Hu & KC). cbn in Hf. destruct fuel as [| fuel]; [lia |].
  rewrite (insert_loop_turn _ _ _ _ _ _ _ _ _ _ _ _ Z Hne), !plug_cons. destruct (decide (tcolor u = Red)) as [Ru | Bu].
  - destruct (tree_mkd d u) as [-> | (cu & ua & q & ub & ->)]; [done |]. rewrite color_mkd in Ru. subst cu.
    destruct (insert_step_red _ _ _ _ _ _ _ _ _ _ _ _ _ Z) as (s1 & -> & Z1 & O1). cbn [mbind option_bind]. rewrite nored_mkd in Hu. rewrite bal_red in Ku.
    destruct (IH C ltac:(cbn; lia) X s1 _ (S n) fuel Z1) as (s2 & t2 & E2 & S2 & O2); [apply color_mkd | | | done | done | lia |].
    + rewrite !nored_mkd, !color_mkd. naive_solver.
    + by rewrite bal_red, !bal_black.
    + rewrite ptr_mkd in E2. exists s2, t2. split; [done |]. split; [| by eapply outside_trans]. erewrite plug_addrs; [done |]. by destruct d, d2.
  - assert (tcolor u = Black) as Bu' by (by destruct (tcolor u)). destruct (insert_step_last _ _ _ _ _ _ _ _ _ _ n Z) as (s1 & f & t1 & -> & Hn1 & Hf1 & Z1 & O1 & N1 & B1 & A1); try done.
    cbn [mbind option_bind]. exists s1, (plug (f :: C) t1). rewrite (insert_loop_stop X s1 (f :: C) t1 fuel Z1 Hn1 ltac:(by right)) by lia. split; [done |]. split; [| done].
    split; [by rewrite <- zip_plug |]. destruct f as [fd fc fp fs]. cbn in Hf1. subst fc. rewrite plug_cons in *. cbn [plug foldl] in N1, B1, A1.
    split; [apply plug_nored; [done | done | by rewrite color_mkd] |]. split; [by eapply plug_bal |]. by apply plug_addrs.
Qed.

(** The root stands for the nodes in order. *)
Definition repr (s : state) (xs : list Z) : Prop := exists t, shape xs s xs t /\ tcolor t = Black.

(** ** Places in a tree *)

Lemma plug_inv_nored C t : nored (plug C t) -> tcolor (plug C t) = Black -> cnored C /\ nored t /\ (tcolor t = Red -> cblack C).
Proof.
  revert t. induction C as [| [d c p sb] C IH]; intros t Hn Hb; [cbn in *; split; [done |]; split; [done |]; congruence |]. rewrite plug_cons in *. destruct (IH _ Hn Hb) as (K & Ht & Hc).
  rewrite nored_mkd in Ht. rewrite color_mkd in Hc. destruct Ht as (H1 & H2 & H3). cbn [cnored cblack f_color]. split; [| split; [done |]].
  - split; [| done]. intros ->. split; [by apply H1 | by apply Hc].
  - intros Hr. destruct c; [| done]. destruct (H1 eq_refl). congruence.
Qed.

Lemma bal_mkd_inv d c a p b n : bal (mkd d c a p b) n -> exists m, n = grow c m /\ bal a m /\ bal b m.
Proof. destruct d, c, n; cbn; try done; intros [? ?]; eexists; done. Qed.

Lemma plug_inv_bal C t m : bal (plug C t) m -> exists n, bal t n /\ cbal C n.
Proof.
  revert t. induction C as [| [d c p sb] C IH]; intros t Hb; [by exists m |]. rewrite plug_cons in Hb. destruct (IH _ Hb) as (n & Ht & K).
  apply bal_mkd_inv in Ht as (k & -> & Ht & Hs). by exists k.
Qed.

Lemma plug_app C C' t : plug (C ++ C') t = plug C' (plug C t).
Proof. apply foldl_app. Qed.

Lemma focus t p : p ∈ addrs t -> exists C c l r, t = plug C (T c l p r).
Proof.
  induction t as [| c l IHl q r IHr]; cbn; [by intros ?%elem_of_nil |]. rewrite elem_of_app, elem_of_cons. intros [H | [-> | H]].
  - destruct (IHl H) as (C & c' & l' & r' & ->). exists (C ++ [F L c q r]), c', l', r'. by rewrite plug_app.
  - by exists [], c, l, r.
  - destruct (IHr H) as (C & c' & l' & r' & ->). exists (C ++ [F R c q l]), c', l', r'. by rewrite plug_app.
Qed.

(** The nodes in the order of side [d] first. *)
Definition in_order (d : dir) (xs : list Z) : list Z := match d with L => xs | R => reverse xs end.
Definition daddrs (d : dir) (t : tree) : list Z := in_order d (addrs t).

Lemma daddrs_mkd d c a p b : daddrs d (mkd d c a p b) = daddrs d a ++ p :: daddrs d b.
Proof. destruct d; unfold daddrs, in_order; cbn [addrs mkd]; [done |]. by rewrite reverse_app, reverse_cons, <- app_assoc. Qed.

Lemma daddrs_opp d t : daddrs (opp d) t = reverse (daddrs d t).
Proof. destruct d; unfold daddrs, in_order; cbn [opp]; [done |]. by rewrite reverse_involutive. Qed.

(** The nodes before and after a place. *)
Fixpoint beyond (d : dir) (C : list frame) : list Z :=
  match C with
  | [] => []
  | F d' _ p sb :: C => (if decide (d' = d) then p :: daddrs d sb else []) ++ beyond d C
  end.

Lemma daddrs_plug d C t : daddrs d (plug C t) = reverse (beyond (opp d) C) ++ daddrs d t ++ beyond d C.
Proof.
  revert t. induction C as [| [d' c p sb] C IH]; intros t; [cbn; by rewrite app_nil_r |]. rewrite plug_cons, IH. cbn [beyond]. rewrite reverse_app. destruct (decide (d' = d)) as [-> | Hd].
  - rewrite decide_False by (by destruct d). rewrite daddrs_mkd, reverse_nil, app_nil_r, <- !app_assoc. by cbn [app].
  - assert (d' = opp d) as -> by (by destruct d, d'). rewrite decide_True by done. 
    rewrite mkd_opp, daddrs_mkd, reverse_cons, daddrs_opp, reverse_involutive, <- !app_assoc. by cbn [app].
Qed.

Lemma addrs_plug C t : addrs (plug C t) = reverse (beyond R C) ++ addrs t ++ beyond L C.
Proof. apply (daddrs_plug L). Qed.

Lemma split_unique (l1 l2 k1 k2 : list Z) p : NoDup (l1 ++ p :: l2) -> l1 ++ p :: l2 = k1 ++ p :: k2 -> l1 = k1 /\ l2 = k2.
Proof.
  revert k1. induction l1 as [| x l1 IH]; intros [| y k1] N Heq; cbn in *.
  - by simplify_eq.
  - apply NoDup_cons in N as [N _]. simplify_eq. set_solver.
  - apply NoDup_cons in N as [N _]. simplify_eq. set_solver.
  - apply NoDup_cons in N as [_ N]. injection Heq as -> Heq. by destruct (IH k1 N Heq) as [-> ->].
Qed.

(** ** Fuel *)

Lemma at_dom h par t p : at_ h par t -> p ∈ addrs t -> is_Some (h !! p).
Proof.
  revert par. induction t as [| c l IHl q r IHr]; intros par A Hp; cbn in *; [by apply elem_of_nil in Hp |]. destruct A as (Hq & Al & Ar).
  apply elem_of_app in Hp as [Hp | [-> | Hp]%elem_of_cons]; eauto.
Qed.

Lemma zip_fuel X s C t : zip_at X s C t -> (length X <= size (nodes s) /\ length C + length (addrs t) <= length X)%nat.
Proof.
  intros Z. assert (forall p, p ∈ X -> is_Some (nodes s !! p)) as HX.
  { intros p Hp. apply zip_plug in Z. destruct Z as (A & _ & P & _). rewrite <- P in Hp. cbn in Hp. rewrite app_nil_r in Hp. by eapply at_dom. }
  destruct Z as (_ & _ & P & N & _). split.
  - rewrite <- size_dom, <- (size_list_to_set (C := gset Z) X N). apply subseteq_size. intros p Hp. apply elem_of_dom, HX. by apply elem_of_list_to_set in Hp.
  - apply Permutation_length in P. rewrite length_app in P. assert (length C <= length (caddrs C))%nat; [| lia]. clear. induction C as [| [d c p sb] C IH]; [done |].
    rewrite caddrs_cons. cbn. rewrite length_app. lia.
Qed.

(** ** A new node *)

(** A node may be linked at side [link] of [parent], between [l1] and [l2]. *)
Definition vacant (s : state) (parent : Z) (link : dir) (l1 l2 : list Z) : Prop :=
  parent = 0 /\ l1 = [] /\ l2 = [] \/
  match link with L => exists k, l2 = parent :: k | R => exists k, l1 = k ++ [parent] end /\ exists n, get parent s = Some n /\ child link n = 0.

Lemma vacant_split s parent link l1 l2 : vacant s parent link l1 l2 -> parent <> 0 -> exists k1 k2, l1 ++ l2 = k1 ++ parent :: k2.
Proof. intros [[-> _] | [H _]] H0; [done |]. destruct link, H as [k ->]; [by eexists l1, _ |]. exists k, l2. by rewrite <- app_assoc. Qed.

Lemma ptr_null t : 0 ∉ addrs t -> ptr_of t = 0 -> t = E.
Proof. intros N0 H. destruct (ptr_in t) as [_ |]; [| by rewrite H in *]. destruct t; [done |]. cbn in *. set_solver. Qed.

(** The place as a context. *)
Lemma vacant_place s parent link l1 l2 : repr s (l1 ++ l2) -> vacant s parent link l1 l2 ->
  exists C, zip_at (l1 ++ l2) s C E /\ cnored C /\ cbal C 0 /\ up C = parent /\ (C = [] \/ exists f C', C = f :: C' /\ f_dir f = link) /\ reverse (beyond R C) = l1 /\ beyond L C = l2.
Proof.
  intros (t & (Z & Nt & [m Bt] & A) & Hb) V. pose proof (zip_apart _ _ _ _ Z) as (ND & _ & _ & N0 & _). destruct V as [(-> & -> & ->) | [Hl (n & Gn & Hn)]].
  { exists []. destruct t as [| c l p r]; [| cbn in A; by destruct (addrs l)]. split_and!; try done. by left. }
  assert (parent ∈ addrs t) as Hp by (rewrite A; destruct link, Hl as [k ->]; set_solver). destruct (focus t parent Hp) as (C & c & l & r & ->).
  apply zip_plug in Z. destruct (tree_mkd link (T c l parent r)) as [| (c' & a & p' & b & Heq)]; [done |]. rewrite Heq in *. assert (p' = parent) as -> by (destruct link; by simplify_eq/=). clear Heq.
  rewrite (zip_get _ _ _ _ _ _ _ _ Z) in Gn. injection Gn as <-. rewrite child_nd in Hn.
  assert (a = E) as ->. { apply ptr_null; [| done]. destruct Z as (_ & _ & P & _ & NX). rewrite <- P, elem_of_app, elem_mkd in NX. naive_solver. }
  assert (plug C (mkd link c' E parent b) = plug (F link c' parent b :: C) E) as HP by done. rewrite HP in *. destruct (plug_inv_nored _ _ Nt Hb) as (K1 & _ & _).
  destruct (plug_inv_bal _ _ _ Bt) as (n & Bn & K2). cbn in Bn. subst n. exists (F link c' parent b :: C). split; [by rewrite zip_up |]. split; [done |]. split; [done |]. split; [done |].
  split; [right; by eexists _, _ |]. rewrite addrs_plug in A, ND. cbn [addrs app] in A, ND. rewrite A in ND. symmetry in A. destruct link, Hl as [k ->]; cbn [beyond] in *; rewrite ?decide_True, ?decide_False in * by done; cbn [app] in *.
  - destruct (split_unique _ _ _ _ _ ND A) as [H1 H2]. by rewrite H2.
  - rewrite <- app_assoc in ND. rewrite reverse_cons in *. rewrite <- !(app_assoc _ [parent]) in A. destruct (split_unique _ _ _ _ _ ND A) as [H1 H2]. by rewrite <- H1, H2.
Qed.

Lemma link_spec xs s C node link : zip_at xs s C E -> is_Some (nodes s !! node) -> node <> 0 -> node ∉ xs -> (C = [] \/ exists f C', C = f :: C' /\ f_dir f = link) ->
  exists s', rb_link_node node (up C) link s = Some s' /\ zip_at (node :: xs) s' C (T Red E node E) /\ outside_same (node :: xs) s s'.
Proof.
  intros Z [n Hn] H0 Hx HC. pose proof (zip_apart _ _ _ _ Z) as (_ & ND & _ & _ & N0). destruct Z as (_ & K & P & NX & N0X). cbn [addrs app] in P. rewrite <- P in Hx.
  unfold rb_link_node. rewrite (upd_some _ _ _ _ Hn). cbn [mbind option_bind]. destruct C as [| [d c p sb] C]; cbn [up f_ptr].
  - eexists. split; [done |]. split; [| intros q Hq; cbn; apply lookup_insert_ne; set_solver]. unfold zip_at. cbn. rewrite lookup_insert_eq. split; [done |]. split; [done |]. rewrite NoDup_cons. rewrite <- P in *. set_solver.
  - destruct HC as [| (f & C' & [= <- <-] & <-)]; [done |]. cbn [f_dir]. rewrite caddrs_cons in *. cbn [ctx_at ptr_of] in K. destruct K as (Hp & A & K). apply NoDup_cons in ND as [ND1 ND2].
    assert (p <> node) as Hpn by set_solver. rewrite (proj2 (Z.eqb_neq _ _)) by set_solver. erewrite upd_some by (cbn [nodes]; rewrite lookup_insert_ne by done; exact Hp). rewrite with_child_nd.
    eexists. split; [done |]. cbn [nodes rb_root]. split.
    + unfold zip_at. cbn [at_ ctx_at ptr_of nodes rb_root up f_ptr addrs app]. rewrite caddrs_cons, lookup_insert_ne, !lookup_insert_eq, !at_insert, !ctx_insert by set_solver. split; [done |].
      split; [done |]. rewrite P. split; [done |]. rewrite NoDup_cons. rewrite <- P at 1. set_solver.
    + intros q Hq. cbn. rewrite <- P in Hq. rewrite !lookup_insert_ne by set_solver. done.
Qed.

Lemma shape_blacken X s xs t : shape X s xs t -> t <> E -> exists s', upd (rb_root s) (with_color Black) s = Some s' /\ shape X s' xs (blacken t) /\ outside_same X s s'.
Proof.
  intros (Z & N & [n B] & A) Ht. destruct (tree_mkd L t) as [| (c & a & p & b & ->)]; [done |]. destruct (zip_upd X s [] L c a p b Black Z) as (s' & E1 & Z1 & O1).
  assert (rb_root s = p) as -> by (by destruct Z as (_ & K & _)). exists s'. split; [done |]. split; [| done]. rewrite blacken_mkd. split; [done |]. rewrite nored_mkd in *. split; [naive_solver |].
  split; [| done]. apply bal_mkd_inv in B as (m & _ & B1 & B2). exists (S m). by rewrite bal_black.
Qed.

#[export] Instance zip_at_perm : Proper ((≡ₚ) ==> (=) ==> (=) ==> (=) ==> iff) zip_at.
Proof. intros X Y P s s' -> C C' -> t t' ->. unfold zip_at. by rewrite P. Qed.

Lemma shape_perm X Y s xs t : X ≡ₚ Y -> shape X s xs t -> shape Y s xs t.
Proof. intros P [Z H]. split; [by rewrite <- P | done]. Qed.

(** C34. linking a node at a vacant place of a tree and calling rb_insert_color puts it at its place in the order; the tree is a red-black tree again, and nothing but its nodes is
    written. *)
Theorem rb_insert_spec s parent link l1 l2 node : repr s (l1 ++ l2) -> vacant s parent link l1 l2 -> is_Some (get node s) -> node <> 0 -> node ∉ l1 ++ l2 ->
  exists s1 s2, rb_link_node node parent link s = Some s1 /\ rb_insert_color node s1 = Some s2 /\ repr s2 (l1 ++ node :: l2) /\ outside_same (node :: l1 ++ l2) s s2.
Proof.
  intros R V Hn H0 Hx. destruct (vacant_place _ _ _ _ _ R V) as (C & Z & K1 & K2 & <- & HC & A1 & A2). destruct (link_spec _ _ _ _ _ Z Hn H0 Hx HC) as (s1 & E1 & Z1 & O1).
  pose proof (zip_fuel _ _ _ _ Z1) as [F1 F2]. destruct (insert_color_loop_spec C _ s1 (T Red E node E) 0 (loop_fuel s1) Z1) as (s2 & t & E2 & S2 & O2); try done.
  { unfold loop_fuel. lia. }
  rewrite addrs_plug, A1, A2 in S2. cbn [addrs app] in S2. assert (t <> E) as Ht. { destruct S2 as (_ & _ & _ & A). intros ->. by destruct l1. }
  destruct (shape_blacken _ _ _ _ S2 Ht) as (s3 & E3 & S3 & O3). exists s1, s3. split; [done |]. cbn [ptr_of] in E2. split; [unfold rb_insert_color; rewrite E2; exact E3 |].
  split; [| eauto using outside_trans]. exists (blacken t). split; [| by destruct t]. eapply shape_perm; [| done]. apply Permutation_middle.
Qed.

(** ** Removal: the colors *)

Lemma zip_black_child X s C d c a p b : zip_at X s C (mkd d c a p b) ->
  is_black (ptr_of a) s = Some (bool_decide (tcolor a = Black)) /\ is_black (ptr_of b) s = Some (bool_decide (tcolor b = Black)).
Proof. intros Z. split; eapply zip_black; [rewrite <- zip_up in Z; exact Z |]. rewrite <- mkd_opp, <- zip_up in Z. exact Z. Qed.

Lemma upd_if_some p f s : p <> 0 -> upd_if p f s = upd p f s.
Proof. intros H. unfold upd_if. by rewrite (proj2 (Z.eqb_neq _ _)). Qed.

(** The out-side child of [other] is made black and [parent] rotated: the end of the loop. *)
Lemma erase_step_end X s C d c t p a o b : zip_at X s C (mkd d c t p (mkd d Black a o b)) ->
  exists s', (p' ← get p s; s ← upd o (with_color (rb_color p')) s; s ← upd p (with_color Black) s; o' ← get o s; s ← upd_if (child (opp d) o') (with_color Black) s;
    s ← rotate d p s; Some (inl s)) = Some (inl s' : state + (Z * Z * state)) /\ zip_at X s' C (mkd d c (mkd d Black t p a) o (blacken b)) /\ outside_same X s s'.
Proof.
  intros Z. zget (zip_get _ _ _ _ _ _ _ _ Z). assert (zip_at X s (F (opp d) c p t :: C) (mkd d Black a o b)) as Z1 by zip. step_to (zip_upd _ _ _ _ _ _ _ _ c Z1).
  assert (zip_at X s0 C (mkd d c t p (mkd d c a o b))) as Z3 by zip. step_to (zip_upd _ _ _ _ _ _ _ _ Black Z3).
  assert (zip_at X s1 (F (opp d) Black p t :: C) (mkd d c a o b)) as Z5 by zip. zget (zip_get _ _ _ _ _ _ _ _ Z5).
  assert (exists s2, upd_if (ptr_of b) (with_color Black) s1 = Some s2 /\ zip_at X s2 C (mkd d Black t p (mkd d c a o (blacken b))) /\ outside_same X s1 s2) as H.
  { destruct (tree_mkd L b) as [-> | (cb & b1 & q & b2 & ->)]; [exists s1; split; [done |]; split; [zip | done] |]. rewrite ptr_mkd, blacken_mkd.
    assert (zip_at X s1 (F (opp d) c o a :: F (opp d) Black p t :: C) (mkd L cb b1 q b2)) as Z7 by zip. rewrite upd_if_some by (by eapply zip_nonnull).
    destruct (zip_upd _ _ _ _ _ _ _ _ Black Z7) as (s2 & -> & Z8 & O8). exists s2. split; [done |]. split; [zip | done]. }
  destruct H as (s2 & -> & Z7 & O7). cbn [mbind option_bind]. step_to (rotate_spec _ _ _ _ _ _ _ _ _ _ _ Z7). eexists. split; [done |]. split; [done |]. eauto 6 using outside_trans.
Qed.

(** Both children of [other] are black: it becomes red, and the place moves up. *)
Lemma erase_black_up X s C d c t p a o b : zip_at X s C (mkd d c t p (mkd d Black a o b)) -> tcolor a = Black -> tcolor b = Black ->
  exists s', erase_black d p o s = Some (inr (p, up C, s')) /\ zip_at X s' C (mkd d c t p (mkd d Red a o b)) /\ outside_same X s s'.
Proof.
  intros Z Ha Hb. unfold erase_black. assert (zip_at X s (F (opp d) c p t :: C) (mkd d Black a o b)) as Z1 by zip. zget (zip_get _ _ _ _ _ _ _ _ Z1).
  destruct (zip_black_child _ _ _ _ _ _ _ _ Z1) as [-> ->]. cbn [mbind option_bind]. rewrite !bool_decide_true by done. cbn [andb]. step_to (zip_upd _ _ _ _ _ _ _ _ Red Z1).
  assert (zip_at X s0 C (mkd d c t p (mkd d Red a o b))) as Z3 by zip. zget (zip_get _ _ _ _ _ _ _ _ Z3). by exists s0.
Qed.

(** Otherwise the loop is left. *)
Lemma erase_black_end X s C d c t p a o b n : zip_at X s C (mkd d c t p (mkd d Black a o b)) -> tcolor a = Red \/ tcolor b = Red ->
  nored a -> nored b -> nored t -> tcolor t = Black -> bal t n -> bal a n -> bal b n ->
  exists s' t', erase_black d p o s = Some (inl s') /\ zip_at X s' C t' /\ outside_same X s s' /\
    nored t' /\ tcolor t' = c /\ bal t' (grow c (S n)) /\ addrs t' = addrs (mkd d c t p (mkd d Black a o b)).
Proof.
  intros Z Hr Na Nb Nt Bt Ht Ba Bb. unfold erase_black. assert (zip_at X s (F (opp d) c p t :: C) (mkd d Black a o b)) as Z1 by zip. zget (zip_get _ _ _ _ _ _ _ _ Z1).
  destruct (zip_black_child _ _ _ _ _ _ _ _ Z1) as [-> ->]. cbn [mbind option_bind]. destruct (decide (tcolor b = Black)) as [Hb | Hb].
  - destruct Hr as [Ha | Ha]; [| congruence]. rewrite bool_decide_false, bool_decide_true by congruence. cbn [andb]. destruct (tree_mkd d a) as [-> | (ca & a1 & q & a2 & ->)]; [done |].
    rewrite color_mkd in Ha. subst ca. rewrite nored_mkd in Na. rewrite bal_red in Ba. destruct Na as (Na & Na1 & Na2). destruct (Na eq_refl) as [Ca1 Ca2]. destruct Ba as [Ba1 Ba2]. rewrite ptr_mkd.
    assert (zip_at X s (F d Black o b :: F (opp d) c p t :: C) (mkd d Red a1 q a2)) as Z2 by zip. rewrite (upd_if_some q) by (by eapply zip_nonnull).
    step_to (zip_upd _ _ _ _ _ _ _ _ Black Z2). assert (zip_at X s0 (F (opp d) c p t :: C) (mkd d Black (mkd d Black a1 q a2) o b)) as Z4 by zip. step_to (zip_upd _ _ _ _ _ _ _ _ Red Z4).
    assert (zip_at X s1 (F (opp d) c p t :: C) (mkd (opp d) Red b o (mkd (opp d) Black a2 q a1))) as Z6 by (rewrite !mkd_opp; done). step_to (rotate_spec _ _ _ _ _ _ _ _ _ _ _ Z6).
    rewrite !mkd_opp in Z5. assert (zip_at X s2 C (mkd d c t p (mkd d Black a1 q (mkd d Red a2 o b)))) as Z8 by zip. zget (zip_get _ _ _ _ _ _ _ _ Z8). rewrite ptr_mkd.
    destruct (erase_step_end _ _ _ _ _ _ _ _ _ _ Z8) as (s3 & -> & Z9 & O9). rewrite blacken_mkd in Z9. eexists s3, _. split; [done |]. split; [done |]. split; [eauto 6 using outside_trans |].
    rewrite !nored_mkd, !color_mkd, bal_mkd, !bal_black. split; [naive_solver |]. split; [done |]. split; [done |]. destruct d; cbn; rewrite <- ?app_assoc; cbn; by rewrite <- ?app_assoc.
  - rewrite (bool_decide_false (tcolor b = Black)) by done. rewrite andb_false_r. cbn [mbind option_bind]. destruct (tree_mkd d b) as [-> | (cb & b1 & q & b2 & ->)]; [done |]. rewrite color_mkd in Hb.
    destruct cb; [| done]. rewrite nored_mkd in Nb. rewrite bal_red in Bb. destruct Nb as (Nb & Nb1 & Nb2). destruct (Nb eq_refl) as [Cb1 Cb2]. destruct Bb as [Bb1 Bb2].
    destruct (erase_step_end _ _ _ _ _ _ _ _ _ _ Z) as (s3 & -> & Z9 & O9). rewrite blacken_mkd in Z9. eexists s3, _. split; [done |]. split; [done |]. split; [done |].
    rewrite !nored_mkd, !color_mkd, bal_mkd, !bal_black. split; [naive_solver |]. split; [done |]. split; [done |]. destruct d; cbn; rewrite <- ?app_assoc; cbn; by rewrite <- ?app_assoc.
Qed.

Lemma plug_black C t : cnored C -> (tcolor t = Red -> cblack C) -> tcolor (plug C t) = Black.
Proof.
  revert t. induction C as [| [d c p sb] C IH]; intros t K H; [cbn in *; destruct (tcolor t); tauto |]. rewrite plug_cons. cbn [cnored] in K. apply IH; [tauto |]. rewrite color_mkd. tauto.
Qed.

Lemma root_in_ctx h root f C x : ctx_at h root (f :: C) x -> root ∈ caddrs (f :: C).
Proof.
  revert f x. induction C as [| g C IH]; intros [d c p sb] x (_ & _ & K); [cbn in K; subst; rewrite caddrs_cons; by left |]. rewrite caddrs_cons. right. apply elem_of_app. right. by eapply IH.
Qed.

Lemma zip_root_ne X s f C t : zip_at X s (f :: C) t -> rb_root s <> ptr_of t.
Proof.
  intros Z. pose proof (zip_apart _ _ _ _ Z) as (_ & _ & D & _ & N0). destruct Z as (_ & K & _). apply root_in_ctx in K. intros Heq. rewrite Heq in K.
  destruct (ptr_in t) as [E0 | E0]; [by rewrite E0 in K | by eapply D].
Qed.

Lemma zip_root_in X s C t : zip_at X s C t -> t <> E -> rb_root s <> 0.
Proof.
  intros Z Ht. pose proof (zip_apart _ _ _ _ Z) as (_ & _ & _ & N0 & N1). destruct Z as (_ & K & _). destruct C as [| f C].
  - cbn in K. rewrite K. intros H. by apply ptr_null in H.
  - apply root_in_ctx in K. intros H. by rewrite H in K.
Qed.

Definition rebalanced (X : list Z) (s : state) (xs : list Z) (r : option (Z * state)) : Prop :=
  exists node s1 s' t', r = Some (node, s1) /\ upd_if node (with_color Black) s1 = Some s' /\ shape X s' xs t' /\ tcolor t' = Black /\ outside_same X s s'.

Lemma plug_shape X s C t n : zip_at X s C t -> nored t -> bal t n -> cnored C -> cbal C n -> (tcolor t = Red -> cblack C) -> shape X s (addrs (plug C t)) (plug C t).
Proof. intros Z Nt Bt K1 K2 Hc. split; [by rewrite <- zip_plug |]. split; [apply plug_nored; tauto |]. split; [by eapply plug_bal | done]. Qed.

(** The place has a red node, which becomes black. *)
Lemma erase_loop_red X s C t n fuel : zip_at X s C t -> nored (blacken t) -> bal t n -> tcolor t = Red -> cnored C -> cbal C (S n) -> (0 < fuel)%nat ->
  rebalanced X s (addrs (plug C t)) (erase_loop fuel (ptr_of t) (up C) s).
Proof.
  intros Z Nt Bt Hr K1 K2 Hf. destruct fuel as [| fuel]; [lia |]. destruct (tree_mkd L t) as [-> | (c & a & p & b & ->)]; [done |]. rewrite color_mkd in Hr. subst c.
  pose proof (zip_black _ _ _ _ Z) as B. rewrite color_mkd, bool_decide_false in B by done. destruct (zip_upd _ _ _ _ _ _ _ _ Black Z) as (s1 & E1 & Z1 & O1). rewrite blacken_mkd in Nt. rewrite bal_red in Bt.
  exists p, s, s1, (plug C (mkd L Black a p b)). cbn [erase_loop]. rewrite B. cbn [mbind option_bind negb orb]. rewrite ptr_mkd. split; [done |]. rewrite upd_if_some by (by eapply zip_nonnull).
  split; [done |]. split; [| split; [by apply plug_black; rewrite ?color_mkd | done]]. rewrite (plug_addrs C _ (mkd L Black a p b)) by done. eapply plug_shape; eauto; [by rewrite bal_black | by rewrite color_mkd].
Qed.

(** The place is the root. *)
Lemma erase_loop_root X s t n par fuel : zip_at X s [] t -> nored (blacken t) -> bal t n -> (0 < fuel)%nat -> rebalanced X s (addrs t) (erase_loop fuel (ptr_of t) par s).
Proof.
  intros Z Nt Bt Hf. destruct fuel as [| fuel]; [lia |]. assert (rb_root s = ptr_of t) as Hr by (by destruct Z as (_ & K & _)).
  exists (ptr_of t), s. cbn [erase_loop]. rewrite (zip_black _ _ _ _ Z), Hr. cbn [mbind option_bind]. rewrite Z.eqb_refl, orb_true_r.
  destruct (tree_mkd L t) as [-> | (c & a & p & b & ->)]; [exists s, E; split; [done |]; split; [done |]; split; [| done]; split; [done |]; split; [done |]; split; [by exists 0%nat | done] |].
  rewrite ptr_mkd in *. destruct (zip_upd _ _ _ _ _ _ _ _ Black Z) as (s1 & E1 & Z1 & O1). exists s1, (mkd L Black a p b). split; [done |]. rewrite upd_if_some by (by eapply zip_nonnull). split; [done |].
  split; [| by rewrite color_mkd]. split; [done |]. split; [by rewrite blacken_mkd in Nt |]. split; [| done]. apply bal_mkd_inv in Bt as (m & _ & B1 & B2). exists (S m). by rewrite bal_black.
Qed.

(** The loop is left in the middle. *)
Lemma erase_leave X s0 s C t n : zip_at X s C t -> nored t -> bal t n -> cnored C -> cbal C n -> (tcolor t = Red -> cblack C) -> t <> E -> outside_same X s0 s ->
  rebalanced X s0 (addrs (plug C t)) (Some (rb_root s, s)).
Proof.
  intros Z Nt Bt K1 K2 Hc Ht O. pose proof (plug_shape _ _ _ _ _ Z Nt Bt K1 K2 Hc) as S. exists (rb_root s), s. rewrite upd_if_some by (by eapply zip_root_in).
  destruct (shape_blacken _ _ _ _ S) as (s' & E1 & S1 & O1).
  { intros HE. destruct S as (_ & _ & _ & _). apply Ht. assert (addrs (plug C t) = []) as HA by (by rewrite HE). rewrite addrs_plug in HA. destruct t; [done |]. cbn in HA. exfalso.
    apply (f_equal length) in HA. rewrite !length_app in HA. cbn in HA. lia. }
  exists s', (blacken (plug C t)). split; [done |]. split; [done |]. split; [done |]. split; [by destruct (plug C t) | by eapply outside_trans].
Qed.

Lemma erase_loop_turn X s d c p sb C t fuel : zip_at X s (F d c p sb :: C) t -> tcolor t = Black -> sb <> E ->
  erase_loop (S fuel) (ptr_of t) p s = r ← erase_step d p s; match r with inl s => Some (rb_root s, s) | inr (node, parent, s) => erase_loop fuel node parent s end.
Proof.
  intros Z Ht Hs. cbn [erase_loop]. rewrite (zip_black _ _ _ _ Z), bool_decide_true by done. cbn [mbind option_bind negb orb].
  rewrite (proj2 (Z.eqb_neq _ _)) by (apply not_eq_sym; by eapply zip_root_ne). pose proof Z as Z1. rewrite zip_up in Z1. zget (zip_get _ _ _ _ _ _ _ _ Z1). rewrite side_nd; [done |].
  apply not_eq_sym. eapply zip_sib_ne; eauto.
Qed.

Lemma bal_nonempty t n : bal t (S n) -> tcolor t = Black -> forall d, exists a p b, t = mkd d Black a p b.
Proof. intros B H d. destruct (tree_mkd d t) as [-> | (c & a & p & b & ->)]; [done |]. rewrite color_mkd in H. subst. by exists a, p, b. Qed.

(** The half of the turn with a black [other]: the loop is left, or goes on from [parent]. *)
Lemma erase_black_turn X s0 s C d c t p a o b n (go : Z -> Z -> state -> option (Z * state)) : zip_at X s C (mkd d c t p (mkd d Black a o b)) ->
  nored t -> tcolor t = Black -> nored a -> nored b -> bal t n -> bal a n -> bal b n -> cnored C -> cbal C (grow c (S n)) -> (c = Red -> cblack C) -> outside_same X s0 s ->
  (forall s' t', zip_at X s' C t' -> ptr_of t' = p -> tcolor t' = c -> nored (blacken t') -> bal t' (grow c n) -> addrs t' = addrs (mkd d c t p (mkd d Black a o b)) -> outside_same X s0 s' ->
     rebalanced X s0 (addrs (plug C t')) (go p (up C) s')) ->
  rebalanced X s0 (addrs (plug C (mkd d c t p (mkd d Black a o b))))
    (r ← erase_black d p o s; match r with inl s => Some (rb_root s, s) | inr (node, parent, s) => go node parent s end).
Proof.
  intros Z Nt Ct Na Nb Bt Ba Bb K1 K2 Hc O Hgo. destruct (decide (tcolor a = Black /\ tcolor b = Black)) as [[Ha Hb] | Hr].
  - destruct (erase_black_up _ _ _ _ _ _ _ _ _ _ Z Ha Hb) as (s1 & -> & Z1 & O1). cbn [mbind option_bind].
    assert (addrs (mkd d c t p (mkd d Red a o b)) = addrs (mkd d c t p (mkd d Black a o b))) as HA by (by destruct d). rewrite <- (plug_addrs C _ _ HA).
    apply Hgo; [done | apply ptr_mkd | apply color_mkd | | | done | by eapply outside_trans].
    + rewrite blacken_mkd, !nored_mkd. naive_solver.
    + by rewrite bal_mkd, bal_red.
  - assert (tcolor a = Red \/ tcolor b = Red) as Hr' by (destruct (tcolor a), (tcolor b); tauto).
    destruct (erase_black_end _ _ _ _ _ _ _ _ _ _ n Z Hr') as (s1 & t1 & -> & Z1 & O1 & N1 & C1 & B1 & A1); try done. cbn [mbind option_bind]. rewrite <- (plug_addrs C _ _ A1).
    apply (erase_leave _ _ _ _ _ _ Z1 N1 B1 K1 K2); [by rewrite C1 | | by eapply outside_trans]. intros ->.
    assert (p ∈ addrs E) as Hp by (rewrite A1, elem_mkd; by left). by apply elem_of_nil in Hp.
Qed.

Lemma rebalanced_from X s0 s xs r : rebalanced X s xs r -> outside_same X s0 s -> rebalanced X s0 xs r.
Proof. intros (node & s1 & s' & t' & H1 & H2 & H3 & H4 & H5) O. exists node, s1, s', t'. split_and!; try done. by eapply outside_trans. Qed.

Lemma erase_loop_spec C : forall X s0 s t n fuel, zip_at X s C t -> nored (blacken t) -> bal t n -> cnored C -> cbal C (S n) -> (length C < fuel)%nat -> outside_same X s0 s ->
  rebalanced X s0 (addrs (plug C t)) (erase_loop fuel (ptr_of t) (up C) s).
Proof.
  induction C as [| [d c p sb] C IH]; intros X s0 s t n fuel Z Nt Bt K1 K2 Hf O; [eapply rebalanced_from; [by eapply erase_loop_root; [| | | lia] | done] |].
  destruct (decide (tcolor t = Red)) as [Hr | Hr]; [eapply rebalanced_from; [by eapply erase_loop_red; eauto; lia | done] |]. assert (tcolor t = Black) as Ct by (by destruct (tcolor t)).
  rewrite blacken_black in Nt by done. cbn [cnored] in K1. destruct K1 as (Kc & Ns & K1). cbn [cbal] in K2. destruct K2 as [Bs K2]. destruct fuel as [| fuel]; [lia |]. cbn [length] in Hf. cbn [up f_ptr].
  rewrite (erase_loop_turn _ _ _ _ _ _ _ _ _ Z Ct) by (by intros ->). rewrite plug_cons. rewrite zip_up in Z. unfold erase_step. zget (zip_get _ _ _ _ _ _ _ _ Z).
  destruct (decide (tcolor sb = Red)) as [Rs | Rs].
  - destruct (tree_mkd d sb) as [-> | (cs & sa & o & so & ->)]; [done |]. rewrite color_mkd in Rs. subst cs. destruct c; [destruct (Kc eq_refl) as [Hk _]; by rewrite color_mkd in Hk |]. rewrite nored_mkd in Ns. rewrite bal_red in Bs. destruct Ns as (Nc & Na & No).
    destruct (Nc eq_refl) as [Ca Co]. destruct Bs as [Ba Bo]. destruct (bal_nonempty _ _ Ba Ca d) as (a & q & b & ->). assert (zip_at X s (F (opp d) Black p t :: C) (mkd d Red (mkd d Black a q b) o so)) as Z1 by zip.
    rewrite ptr_mkd. zget (zip_get _ _ _ _ _ _ _ _ Z1). destruct (zip_upd _ _ _ _ _ _ _ _ Black Z1) as (s1 & -> & Z2 & O2). cbn [mbind option_bind].
    assert (zip_at X s1 C (mkd d Black t p (mkd d Black (mkd d Black a q b) o so))) as Z3 by zip. destruct (zip_upd _ _ _ _ _ _ _ _ Red Z3) as (s2 & -> & Z4 & O4). cbn [mbind option_bind].
    destruct (rotate_spec _ _ _ _ _ _ _ _ _ _ _ Z4) as (s3 & -> & Z5 & O5). cbn [mbind option_bind]. assert (zip_at X s3 (F d Black o so :: C) (mkd d Red t p (mkd d Black a q b))) as Z6 by zip.
    zget (zip_get _ _ _ _ _ _ _ _ Z6). rewrite ptr_mkd. assert (outside_same X s0 s3) as O3 by eauto 6 using outside_trans.
    rewrite (plug_addrs C _ (mkd d Black (mkd d Red t p (mkd d Black a q b)) o so)) by (destruct d; cbn; rewrite <- ?app_assoc; cbn; by rewrite <- ?app_assoc). rewrite <- plug_cons.
    rewrite nored_mkd in Na. rewrite bal_black in Ba. cbn [grow] in K2. eapply erase_black_turn; try done; try tauto.
    intros s' t' Z' <- Cr Nb' Bt' _ O'. eapply rebalanced_from; [| done]. eapply erase_loop_red; try done. lia.
  - assert (tcolor sb = Black) as Cs by (by destruct (tcolor sb)). destruct (bal_nonempty _ _ Bs Cs d) as (a & o & b & ->). assert (zip_at X s (F (opp d) c p t :: C) (mkd d Black a o b)) as Z1 by zip.
    rewrite ptr_mkd. zget (zip_get _ _ _ _ _ _ _ _ Z1). rewrite nored_mkd in Ns. rewrite bal_black in Bs. eapply erase_black_turn; try done; try tauto.
    intros s' t' Z' <- Cr Nb' Bt' _ O'. eapply (IH X s0 s' t' (grow c n)); try done; [by destruct c | lia].
Qed.

(** ** Removal: the links *)

Lemma unlink_spec X s C d c p a : zip_at X s C (mkd d c E p a) ->
  exists s', unlink p (ptr_of a) s = Some (up C, c, s') /\ zip_at (addrs a ++ caddrs C) s' C a /\ outside_same (addrs a ++ caddrs C) s s' /\ X ≡ₚ p :: addrs a ++ caddrs C.
Proof.
  intros Z. pose proof (zip_apart _ _ _ _ Z) as (N1 & N2 & N3 & N4 & N5). destruct Z as (A & K & P & N & N0). apply nodup_mkd in N1 as (_ & M2 & _ & M4 & _). setoid_rewrite elem_mkd in N3. rewrite elem_mkd in N4.
  rewrite at_mkd in A. destruct A as (Hp & _ & Aa). rewrite ptr_mkd in K. rewrite addrs_mkd in P. cbn [addrs app] in P. assert (p ∉ caddrs C) as Hc by eauto. unfold unlink, get. rewrite Hp. cbn [mbind option_bind]. rewrite parent_nd, color_nd.
  destruct (reparent p (up C) a s Aa M4 ltac:(naive_solver)) as (s1 & -> & A1 & R1 & O1). cbn [mbind option_bind].
  assert (ctx_at (nodes s1) (rb_root s1) C p) as K1. { rewrite R1. eapply ctx_ext; [| exact K]. intros q Hq. apply O1. naive_solver. }
  destruct (relink_spec L C p (ptr_of a) s1 K1 ltac:(naive_solver) Hc N2 N5) as (s2 & -> & K2 & O2). cbn [mbind option_bind]. exists s2. split; [done |]. split; [| split; [| by rewrite <- P]].
  - split; [| split; [done |]]. { eapply at_ext; [| exact A1]. intros q Hq. apply O2. naive_solver. }
    split; [done |]. split; [| apply not_elem_of_app; naive_solver]. apply NoDup_app. naive_solver.
  - intros q Hq. apply not_elem_of_app in Hq as [Hq1 Hq2]. by rewrite (O2 q Hq2), (O1 q Hq1).
Qed.

(** The facts about [new] in the place of [old], in whatever order they are written. *)
Lemma swap_spec X s C c l old r new : zip_at X s C (T c l old r) -> is_Some (nodes s !! new) -> new ∉ X -> new <> 0 ->
  exists o s1 s2 s3 s4, get old s = Some o /\ rb_parent o = up C /\ rb_left o = ptr_of l /\ rb_right o = ptr_of r /\ upd new (fun _ => o) s = Some s1 /\
    relink L (up C) old new s1 = Some s2 /\ upd_if (ptr_of l) (with_parent new) s2 = Some s3 /\ upd_if (ptr_of r) (with_parent new) s3 = Some s4 /\
    zip_at (new :: addrs l ++ addrs r ++ caddrs C) s4 C (T c l new r) /\ outside_same (new :: X) s s4.
Proof.
  intros Z [w Hw] Hx H0. pose proof (zip_apart _ _ _ _ Z) as (N1 & N2 & N3 & N4 & N5). destruct Z as (A & K & P & N & N0). change (T c l old r) with (mkd L c l old r) in *. apply nodup_mkd in N1 as (M1 & M2 & M3 & M4 & M5).
  setoid_rewrite elem_mkd in N3. rewrite elem_mkd in N4. rewrite <- P, elem_of_app, elem_mkd in Hx. rewrite at_mkd in A. destruct A as (Ho & Al & Ar). rewrite ptr_mkd in K. exists (nd L (up C) c (ptr_of l) (ptr_of r)).
  set (s1 := mk_state (<[new := nd L (up C) c (ptr_of l) (ptr_of r)]> (nodes s)) (rb_root s)). exists s1.
  assert (ctx_at (nodes s1) (rb_root s1) C old) as K1. { eapply ctx_ext; [| exact K]. intros q Hq. by keep. }
  destruct (relink_spec L C old new s1 K1 ltac:(naive_solver) ltac:(naive_solver) N2 N5) as (s2 & E2 & K2 & O2).
  assert (at_ (nodes s2) old l) as Al2 by keep_at. destruct (reparent old new l s2 Al2 M3 ltac:(naive_solver)) as (s3 & E3 & Al3 & R3 & O3).
  assert (at_ (nodes s3) old r) as Ar3 by (eapply at_ext; [| exact Ar]; intros; by keep). destruct (reparent old new r s3 Ar3 M4 ltac:(naive_solver)) as (s4 & E4 & Ar4 & R4 & O4). exists s2, s3, s4.
  split; [done |]. do 3 (split; [done |]). split; [by rewrite (upd_some _ _ _ _ Hw) |]. do 3 (split; [done |]). split.
  - split; [| split; [| split; [| split]]].
    + cbn [at_]. split; [keep; done |]. split; [eapply at_ext; [| exact Al3]; intros; by keep | done].
    + cbn [ptr_of]. rewrite R4, R3. eapply ctx_ext; [| exact K2]. intros; by keep.
    + cbn [addrs]. rewrite <- app_assoc. cbn [app]. by rewrite <- Permutation_middle.
    + rewrite NoDup_cons, !NoDup_app, !elem_of_app. split; [tauto |]. split; [done |]. split; [| by eauto 7]. intros q Hq. rewrite elem_of_app. intros [H | H]; [by eapply M5 | eapply N3; eauto].
    + rewrite elem_of_cons, !elem_of_app. intros [H | H]; [by apply H0 | tauto].
  - intros q Hq. rewrite <- P, elem_of_cons, elem_of_app, elem_mkd in Hq. by keep.
Qed.

(** Going down one side. *)
Lemma descend_spec d fuel : forall X s C t, zip_at X s C t -> t <> E -> (length (addrs t) <= fuel)%nat ->
  exists D c p b, descend fuel d (ptr_of t) s = Some p /\ t = plug D (mkd d c E p b) /\ Forall (fun f => f_dir f = d) D.
Proof.
  induction fuel as [| fuel IH]; intros X s C t Z Ht Hf; (destruct (tree_mkd d t) as [-> | (c & a & p & b & ->)]; [done |]); rewrite addrs_mkd in Hf; cbn [length] in Hf; [lia |]. rewrite length_app in Hf.
  rewrite ptr_mkd. cbn [descend]. zget (zip_get _ _ _ _ _ _ _ _ Z). destruct (decide (a = E)) as [-> | Ha]; [by exists [], c, p, b |]. rewrite <- zip_up in Z.
  rewrite (proj2 (Z.eqb_neq _ _)). 2:{ intros H0. apply Ha. apply ptr_null; [| done]. by apply zip_apart in Z as (_ & _ & _ & ? & _). }
  destruct (IH _ _ _ _ Z Ha ltac:(lia)) as (D & c' & q & b' & -> & -> & HD). exists (D ++ [F d c p b]), c', q, b'. split; [done |]. rewrite plug_app. split; [done |]. rewrite Forall_app. split; [done |]. by constructor.
Qed.

Lemma after_same d D : Forall (fun f => f_dir f = d) D -> beyond (opp d) D = [].
Proof. induction 1 as [| [d' c p sb] D Hd _ IH]; [done |]. cbn in Hd. subst d'. cbn [beyond]. rewrite decide_False by (by destruct d). done. Qed.

Lemma descend_addrs d D c p b : Forall (fun f => f_dir f = d) D -> daddrs d (plug D (mkd d c E p b)) = p :: daddrs d (plug D b).
Proof. intros HD. rewrite !daddrs_plug, (after_same _ _ HD), reverse_nil, daddrs_mkd. by destruct d. Qed.

Lemma up_app D f C : up (D ++ f :: C) = match D with [] => f_ptr f | g :: _ => f_ptr g end.
Proof. by destruct D. Qed.

Lemma up_in D C : D = [] \/ up (D ++ C) ∈ caddrs D.
Proof. destruct D as [| [d c p sb] D]; [by left | right]. rewrite caddrs_cons. by left. Qed.

Lemma caddrs_app D C : caddrs (D ++ C) = caddrs D ++ caddrs C.
Proof. apply bind_app. Qed.

Lemma plug_caddrs D t : addrs (plug D t) ≡ₚ addrs t ++ caddrs D.
Proof.
  revert t. induction D as [| [d c p sb] D IH]; intros t; [cbn; by rewrite app_nil_r |]. rewrite plug_cons, IH, addrs_mkd, caddrs_cons. cbn [app]. rewrite <- Permutation_middle. by rewrite <- app_assoc.
Qed.

(** The next node in the place of [old]. *)
Lemma unlink_next_spec X s C c l old r : zip_at X s C (T c l old r) -> l <> E -> r <> E ->
  exists D cn node b s', unlink_next old s = Some (ptr_of b, up (D ++ F R c node l :: C), cn, s') /\ r = plug D (mkd L cn E node b) /\ Forall (fun f => f_dir f = L) D /\
    zip_at (node :: addrs l ++ addrs (plug D b) ++ caddrs C) s' (D ++ F R c node l :: C) b /\ outside_same X s s'.
Proof.
  intros Z Hl Hr. pose proof (zip_fuel _ _ _ _ Z) as [F1 F2]. cbn [addrs] in F2. rewrite length_app in F2. cbn [length] in F2. unfold unlink_next. pose proof (zip_get X s C L _ _ _ _ Z) as G. zget G. cbn [nd rb_right].
  assert (zip_at X s (F R c old l :: C) r) as Z1 by (by rewrite zip_up). destruct (descend_spec L (loop_fuel s) _ _ _ _ Z1 Hr) as (D & cn & node & b & -> & -> & HD). { unfold loop_fuel. lia. }
  assert (zip_at X s (D ++ F R c old l :: C) (mkd L cn E node b)) as Z2 by (rewrite zip_plug, plug_app, <- zip_plug; done). exists D, cn, node, b. cbn [mbind option_bind]. zget (zip_get _ _ _ _ _ _ _ _ Z2). cbn [nd rb_right].
  pose proof (zip_nonnull _ _ _ _ _ _ _ _ Z2) as Hn0. destruct (unlink_spec _ _ _ _ _ _ _ Z2) as (s1 & -> & Z3 & O3 & PX). cbn [mbind option_bind].
  assert (NoDup X) as NX by apply Z. rewrite PX in NX. apply NoDup_cons in NX as [Nn _]. assert (nodes s1 !! node = nodes s !! node) as Hsame by (by apply O3).
  pose proof (zip_get _ _ _ _ _ _ _ _ Z2) as Gn. assert (get node s1 = get node s) as -> by exact Hsame. rewrite Gn. unfold get in Gn. cbn [mbind option_bind nd rb_parent].
  assert (zip_at (addrs b ++ caddrs (D ++ F R c old l :: C)) s1 C (T c l old (plug D b))) as Z4. { rewrite zip_plug, plug_app, <- zip_plug, zip_up in Z3. exact Z3. }
  destruct (swap_spec _ _ _ _ _ _ _ node Z4 ltac:(rewrite Hsame, Gn; by eexists) Nn Hn0) as (o & s2 & s3 & s4 & s5 & Go & Ho1 & Ho2 & Ho3 & E2 & E3 & E4 & E5 & Z5 & O5).
  rewrite Go. cbn [mbind option_bind]. replace (mk_node _ _ _ _) with o by (by destruct o). rewrite E2. cbn [mbind option_bind]. rewrite Ho1, E3. cbn [mbind option_bind]. rewrite Ho2.
  rewrite <- (upd_if_some (ptr_of l)). 2:{ intros H0. apply Hl, ptr_null; [| done]. apply zip_apart in Z4 as (_ & _ & _ & N0 & _). cbn in N0. set_solver. }
  rewrite E4. cbn [mbind option_bind]. rewrite Ho3, E5. cbn [mbind option_bind]. exists s5. split; [| split; [done |]; split; [done |]; split].
  - do 2 f_equal. do 2 f_equal. f_equal. rewrite !up_app. destruct D as [| [dd dc dp ds] D]; cbn [f_ptr]; [by rewrite Z.eqb_refl |]. rewrite (proj2 (Z.eqb_neq _ _)); [done |].
    intros ->. apply zip_apart in Z4 as (ND & _). cbn [addrs] in ND. apply NoDup_app in ND as (_ & _ & [ND _]%NoDup_cons). apply ND. rewrite plug_caddrs, caddrs_cons. set_solver.
  - rewrite zip_plug, plug_app, <- zip_plug, zip_up. exact Z5.
  - apply (outside_trans _ _ s1); [eapply outside_mono; [done |] | eapply outside_mono; [done |]]; intros q; rewrite PX; [by right | done].
Qed.

Lemma repr_intro X s xs t : shape X s xs t -> tcolor t = Black -> repr s xs.
Proof. intros S H. exists t. split; [| done]. eapply shape_perm; [| done]. destruct S as ((_ & _ & P & _) & _ & _ & A). cbn in P. rewrite app_nil_r in P. by rewrite <- P, A. Qed.

Lemma nored_blacken t : nored t -> nored (blacken t).
Proof. destruct t; cbn; [done |]. naive_solver. Qed.

(** What is left when a node of color [c] has gone from the place. *)
Lemma erase_rest X s K b c n : zip_at X s K b -> nored b -> bal b n -> cnored K -> cbal K (grow c n) -> (c = Red -> tcolor b = Black) ->
  exists s', match c with Black => __rb_erase_color (ptr_of b) (up K) s | Red => Some s end = Some s' /\ repr s' (addrs (plug K b)) /\ outside_same X s s'.
Proof.
  intros Z Nb Bb K1 K2 Hc. destruct c.
  - exists s. split; [done |]. split; [| done]. assert (tcolor b = Red -> cblack K) by (rewrite Hc; done). eapply repr_intro; [by eapply plug_shape | by apply plug_black].
  - pose proof (zip_fuel _ _ _ _ Z) as [F1 F2]. destruct (erase_loop_spec K X s s b n (loop_fuel s) Z (nored_blacken _ Nb) Bb K1 K2) as (node & s1 & s2 & t & E1 & E2 & S2 & C2 & O2); [unfold loop_fuel; lia | done |].
    exists s2. unfold __rb_erase_color. rewrite E1. split; [done |]. split; [by eapply repr_intro | done].
Qed.

Lemma ctx_rename D c x y l C n : cnored (D ++ F R c x l :: C) -> cbal (D ++ F R c x l :: C) n -> cnored (D ++ F R c y l :: C) /\ cbal (D ++ F R c y l :: C) n.
Proof.
  revert n. induction D as [| [d c' p sb] D IH]; intros n K1 K2; [done |]. cbn [app cnored cbal] in *. destruct K1 as (H1 & H2 & H3), K2 as [H4 H5]. destruct (IH _ H3 H5) as [I1 I2].
  split; [| done]. split; [| done]. intros Hc. destruct (H1 Hc) as [H6 H7]. split; [done |]. by destruct D.
Qed.

Lemma place_addrs C t l1 p l2 : addrs (plug C t) = l1 ++ p :: l2 -> NoDup (l1 ++ p :: l2) -> forall d c a, t = mkd d c E p a -> addrs (plug C a) = l1 ++ l2.
Proof.
  intros H N d c a ->. rewrite addrs_plug in *. assert (addrs (mkd d c E p a) = match d with L => p :: addrs a | R => addrs a ++ [p] end) as Ha by (by destruct d). rewrite Ha in H. clear Ha. symmetry in H. destruct d.
  - cbn [app] in H. destruct (split_unique _ _ _ _ _ N H) as [-> ->]. done.
  - rewrite <- app_assoc, app_assoc in H. cbn [app] in H. destruct (split_unique _ _ _ _ _ N H) as [-> ->]. by rewrite <- app_assoc.
Qed.

(** A node with a child at one side only. *)
Lemma erase_one s l1 node l2 C d c a : zip_at (l1 ++ node :: l2) s C (mkd d c E node a) -> nored (mkd d c E node a) -> cnored C ->
  (exists n, bal (mkd d c E node a) n /\ cbal C n) -> addrs (plug C (mkd d c E node a)) = l1 ++ node :: l2 ->
  exists s1 s', unlink node (ptr_of a) s = Some (up C, c, s1) /\ match c with Black => __rb_erase_color (ptr_of a) (up C) s1 | Red => Some s1 end = Some s' /\
    repr s' (l1 ++ l2) /\ outside_same (l1 ++ node :: l2) s s'.
Proof.
  intros Z Nt K1 (m & Bt & K2) A. assert (NoDup (l1 ++ node :: l2)) as ND by apply Z. destruct (unlink_spec _ _ _ _ _ _ _ Z) as (s1 & E1 & Z1 & O1 & P).
  rewrite nored_mkd in Nt. destruct Nt as (Nc & _ & Na). apply bal_mkd_inv in Bt as (n & -> & _ & Ba). destruct (erase_rest _ _ _ _ c n Z1 Na Ba K1 K2) as (s2 & E2 & R2 & O2); [naive_solver |].
  exists s1, s2. split; [done |]. split; [done |]. rewrite (place_addrs _ _ _ _ _ A ND d c a eq_refl) in R2. split; [done |]. eapply outside_mono; [by eapply outside_trans |]. intros q Hq. rewrite P. by right.
Qed.

(** A node with two children. *)
Lemma erase_two s l1 node l2 C c l r : zip_at (l1 ++ node :: l2) s C (T c l node r) -> l <> E -> r <> E -> nored (plug C (T c l node r)) -> tcolor (plug C (T c l node r)) = Black ->
  (exists m, bal (plug C (T c l node r)) m) -> addrs (plug C (T c l node r)) = l1 ++ node :: l2 ->
  exists child parent color s1 s', unlink_next node s = Some (child, parent, color, s1) /\ match color with Black => __rb_erase_color child parent s1 | Red => Some s1 end = Some s' /\
    repr s' (l1 ++ l2) /\ outside_same (l1 ++ node :: l2) s s'.
Proof.
  intros Z Hl Hr Nt Ct [m Bt] A. assert (NoDup (l1 ++ node :: l2)) as ND by apply Z. destruct (unlink_next_spec _ _ _ _ _ _ _ Z Hl Hr) as (D & cn & next & b & s1 & E1 & -> & HD & Z1 & O1).
  assert (plug C (T c l node (plug D (mkd L cn E next b))) = plug (D ++ F R c node l :: C) (mkd L cn E next b)) as HP by (by rewrite plug_app). rewrite HP in Nt, Ct, Bt.
  destruct (plug_inv_nored _ _ Nt Ct) as (K1 & Nb & Hb). destruct (plug_inv_bal _ _ _ Bt) as (n & Bb & K2). rewrite nored_mkd in Nb. rewrite color_mkd in Hb. apply bal_mkd_inv in Bb as (k & -> & _ & Bb).
  destruct (ctx_rename _ _ _ next _ _ _ K1 K2) as [K3 K4]. destruct (erase_rest _ _ _ _ cn k Z1 (proj2 (proj2 Nb)) Bb K3 K4) as (s2 & E2 & R2 & O2); [naive_solver |].
  eexists _, _, _, s1, s2. split; [exact E1 |]. split; [exact E2 |]. pose proof (descend_addrs L D cn next b HD : addrs _ = next :: addrs _) as HA. split.
  - rewrite addrs_plug in A. cbn [addrs] in A. rewrite HA, <- app_assoc, (app_assoc (reverse _)) in A. cbn [app] in A. symmetry in A. destruct (split_unique _ _ _ _ _ ND A) as [-> ->].
    rewrite plug_app, plug_cons, addrs_plug in R2. cbn [addrs mkd] in R2. rewrite <- !app_assoc in *. done.
  - eapply outside_trans; [done |]. eapply outside_mono; [done |]. intros q Hq. destruct Z as (_ & _ & P & _). rewrite <- P. cbn [addrs]. rewrite HA. set_solver.
Qed.

(** C35. rb_erase takes the node out of the order of the tree and leaves a red-black tree; nothing but the nodes of the tree is written. *)
Theorem rb_erase_spec s l1 node l2 : repr s (l1 ++ node :: l2) ->
  exists s', rb_erase node s = Some s' /\ repr s' (l1 ++ l2) /\ outside_same (l1 ++ node :: l2) s s'.
Proof.
  intros (t & (Z & Nt & [m Bt] & A) & Ct). destruct (focus t node) as (C & c & l & r & ->); [rewrite A; set_solver |]. apply zip_plug in Z. destruct (plug_inv_nored _ _ Nt Ct) as (K1 & Ns & _).
  destruct (plug_inv_bal _ _ _ Bt) as (n & Bs & K2). unfold rb_erase. zget (zip_get _ _ _ L _ _ _ _ Z). cbn [nd rb_left rb_right]. pose proof (zip_apart _ _ _ _ Z) as (_ & _ & _ & N0 & _). cbn [addrs] in N0. apply not_elem_of_app in N0 as [Nl [_ Nr]%not_elem_of_cons].
  destruct (decide (l = E)) as [-> | Hl].
  { destruct (erase_one s l1 node l2 C L c r) as (s1 & s' & E1 & E2 & H); eauto. exists s'. cbn [ptr_of Z.eqb]. rewrite E1. done. }
  rewrite (proj2 (Z.eqb_neq _ _)) by (intros H; by apply Hl, ptr_null). destruct (decide (r = E)) as [-> | Hr].
  { destruct (erase_one s l1 node l2 C R c l) as (s1 & s' & E1 & E2 & H); eauto. exists s'. cbn [ptr_of Z.eqb]. rewrite E1. done. }
  rewrite (proj2 (Z.eqb_neq _ _)) by (intros H; by apply Hr, ptr_null). destruct (erase_two s l1 node l2 C c l r) as (ch & pa & co & s1 & s' & E1 & E2 & H); eauto. exists s'. rewrite E1. done.
Qed.

(** ** Walking, replacing *)

Lemma ascend_spec d fuel : forall X s C t, zip_at X s C t -> t <> E -> (length C < fuel)%nat -> ascend fuel d (ptr_of t) s = Some (hd 0 (beyond (opp d) C)).
Proof.
  induction fuel as [| fuel IH]; intros X s C t Z Ht Hf; [lia |]. destruct (tree_mkd L t) as [-> | (c & a & p & b & ->)]; [done |]. cbn [ascend]. rewrite ptr_mkd. zget (zip_get _ _ _ _ _ _ _ _ Z).
  destruct C as [| [d' c' q sb] C]; cbn [up f_ptr]; [done |]. pose proof Z as Z1. rewrite zip_up in Z1. rewrite (proj2 (Z.eqb_neq _ _)) by (by eapply zip_nonnull). zget (zip_get _ _ _ _ _ _ _ _ Z1). rewrite ptr_mkd.
  pose proof (zip_sib_ne _ _ _ _ _ _ _ _ Z ltac:(left; done)) as Hs. rewrite ptr_mkd in Hs. cbn [beyond]. destruct (decide (d' = d)) as [-> | Hd].
  - rewrite child_nd, Z.eqb_refl, decide_False by (by destruct d). rewrite <- (ptr_mkd d c' (mkd L c a p b) q sb) at 1. cbn [app]. apply (IH X s); [done | by destruct d | cbn in Hf; lia].
  - assert (d' = opp d) as -> by (by destruct d, d'). rewrite decide_True by done. rewrite <- (opp_opp d) at 1. by rewrite child_nd_opp, (proj2 (Z.eqb_neq _ _)).
Qed.

Lemma end_spec d s xs : repr s xs -> rb_end d s = Some (hd 0 (in_order d xs)).
Proof.
  intros (t & (Z & _ & _ & A) & _). pose proof (zip_fuel _ _ _ _ Z) as [F1 F2]. unfold rb_end. assert (rb_root s = ptr_of t) as -> by (by destruct Z as (_ & K & _)).
  destruct (decide (t = E)) as [-> | Ht]; [cbn in A; subst; by destruct d |]. rewrite (proj2 (Z.eqb_neq _ _)). 2:{ intros H. apply Ht, ptr_null; [| done]. by apply zip_apart in Z as (_ & _ & _ & ? & _). }
  destruct (descend_spec d (loop_fuel s) _ _ _ _ Z Ht) as (D & c & p & b & -> & -> & HD); [unfold loop_fuel; lia |]. rewrite <- A. fold (daddrs d (plug D (mkd d c E p b))). by rewrite descend_addrs.
Qed.

Lemma in_order_split d l1 p l2 : in_order d (l1 ++ p :: l2) = match d with L => l1 | R => reverse l2 end ++ p :: match d with L => l2 | R => reverse l1 end.
Proof. destruct d; cbn [in_order]; [done |]. by rewrite reverse_app, reverse_cons, <- app_assoc. Qed.

Lemma step_spec d s l1 p l2 : repr s (l1 ++ p :: l2) -> rb_step d p s = Some (hd 0 (match opp d with L => l2 | R => reverse l1 end)).
Proof.
  intros (t & (Z & _ & _ & A) & _). destruct (focus t p) as (C & c & l & r & ->); [rewrite A; set_solver |]. apply zip_plug in Z. pose proof (zip_fuel _ _ _ _ Z) as [F1 F2].
  destruct (tree_mkd d (T c l p r)) as [| (c' & a & p' & b & Heq)]; [done |]. rewrite Heq in *. assert (p' = p) as -> by (destruct d; by simplify_eq/=). clear Heq. unfold rb_step. zget (zip_get _ _ _ _ _ _ _ _ Z).
  apply (f_equal (in_order (opp d))) in A. fold (daddrs (opp d) (plug C (mkd d c' a p b))) in A. rewrite daddrs_plug, <- mkd_opp, daddrs_mkd, in_order_split, <- app_assoc, app_assoc in A. cbn [app] in A. symmetry in A.
  apply split_unique in A as [_ ->]. 2:{ rewrite <- in_order_split. destruct Z as (_ & _ & _ & N & _). destruct d; cbn [opp in_order]; [by rewrite reverse_Permutation | done]. }
  destruct (decide (a = E)) as [-> | Ha].
  - cbn [ptr_of Z.eqb]. pose proof (ascend_spec d (loop_fuel s) _ _ _ _ Z ltac:(by destruct d)) as H. rewrite ptr_mkd in H. rewrite H by (unfold loop_fuel; lia). by destruct d.
  - rewrite <- zip_up in Z. pose proof (zip_fuel _ _ _ _ Z) as [F3 F4]. rewrite (proj2 (Z.eqb_neq _ _)). 2:{ intros H. apply Ha, ptr_null; [| done]. by apply zip_apart in Z as (_ & _ & _ & ? & _). }
    destruct (descend_spec (opp d) (loop_fuel s) _ _ _ _ Z Ha) as (D & c2 & q & b2 & -> & -> & HD); [unfold loop_fuel; lia |]. by rewrite descend_addrs.
Qed.

(** rb_first and rb_last return the ends of the order and rb_next and rb_prev the neighbours of a node, NULL where there is none. *)
Lemma rb_walk s xs : repr s xs ->
  rb_first s = Some (hd 0 xs) /\ rb_last s = Some (hd 0 (reverse xs)) /\
  forall l1 p l2, xs = l1 ++ p :: l2 -> rb_next p s = Some (hd 0 l2) /\ rb_prev p s = Some (hd 0 (reverse l1)).
Proof.
  intros H. split; [by apply (end_spec L) |]. split; [by apply (end_spec R) |]. intros l1 p l2 ->. split; [by apply (step_spec R s l1 p l2) | by apply (step_spec L s l1 p l2)].
Qed.

Lemma replace_links X s C c l victim r new : zip_at X s C (T c l victim r) -> is_Some (nodes s !! new) -> new ∉ X -> new <> 0 ->
  exists s', rb_replace_node victim new s = Some s' /\ zip_at (new :: addrs l ++ addrs r ++ caddrs C) s' C (T c l new r) /\ outside_same (new :: X) s s'.
Proof.
  intros Z [w Hw] Hx H0. pose proof (zip_apart _ _ _ _ Z) as (N1 & N2 & N3 & N4 & N5). destruct Z as (A & K & P & N & N0). change (T c l victim r) with (mkd L c l victim r) in *. apply nodup_mkd in N1 as (M1 & M2 & M3 & M4 & M5).
  setoid_rewrite elem_mkd in N3. rewrite elem_mkd in N4. rewrite <- P, elem_of_app, elem_mkd in Hx. rewrite at_mkd in A. destruct A as (Ho & Al & Ar). rewrite ptr_mkd in K.
  unfold rb_replace_node. rewrite (Ho : get victim s = _). cbn [mbind option_bind nd rb_parent rb_left rb_right].
  destruct (relink_spec L C victim new s K ltac:(naive_solver) ltac:(naive_solver) N2 N5) as (s2 & -> & K2 & O2). cbn [mbind option_bind].
  assert (at_ (nodes s2) victim l) as Al2 by keep_at. destruct (reparent victim new l s2 Al2 M3 ltac:(naive_solver)) as (s3 & -> & Al3 & R3 & O3). cbn [mbind option_bind].
  assert (at_ (nodes s3) victim r) as Ar3 by (eapply at_ext; [| exact Ar]; intros; by keep). destruct (reparent victim new r s3 Ar3 M4 ltac:(naive_solver)) as (s4 & -> & Ar4 & R4 & O4). cbn [mbind option_bind].
  assert (get victim s4 = nodes s !! victim) as -> by (unfold get; by keep). rewrite Ho. cbn [mbind option_bind]. assert (nodes s4 !! new = Some w) as Hw4 by (by keep). rewrite (upd_some _ _ _ _ Hw4). eexists. split; [done |]. split.
  - split; [| split; [| split; [| split]]]; cbn [nodes rb_root].
    + cbn [at_]. rewrite lookup_insert_eq. split; [done |]. rewrite !at_insert by naive_solver. split; [eapply at_ext; [| exact Al3]; intros; by keep | done].
    + cbn [ptr_of]. rewrite R4, R3, ctx_insert by naive_solver. eapply ctx_ext; [| exact K2]. intros; by keep.
    + cbn [addrs]. rewrite <- app_assoc. cbn [app]. by rewrite <- Permutation_middle.
    + rewrite NoDup_cons, !NoDup_app, !elem_of_app. split; [tauto |]. split; [done |]. split; [| by eauto 7]. intros q Hq. rewrite elem_of_app. intros [H | H]; [by eapply M5 | eapply N3; eauto].
    + rewrite elem_of_cons, !elem_of_app. intros [H | H]; [by apply H0 | tauto].
  - intros q Hq. rewrite <- P, elem_of_cons, elem_of_app, elem_mkd in Hq. cbn [nodes]. by keep.
Qed.

Lemma rb_replace_node_spec s l1 victim l2 new : repr s (l1 ++ victim :: l2) -> is_Some (get new s) -> new ∉ l1 ++ victim :: l2 -> new <> 0 ->
  exists s', rb_replace_node victim new s = Some s' /\ repr s' (l1 ++ new :: l2) /\ outside_same (new :: l1 ++ victim :: l2) s s'.
Proof.
  intros (t & (Z & Nt & [m Bt] & A) & Ct) Hn Hx H0. assert (NoDup (l1 ++ victim :: l2)) as ND by apply Z. destruct (focus t victim) as (C & c & l & r & ->); [rewrite A; set_solver |]. apply zip_plug in Z.
  destruct (plug_inv_nored _ _ Nt Ct) as (K1 & Ns & Hc). destruct (plug_inv_bal _ _ _ Bt) as (n & Bs & K2). destruct (replace_links _ _ _ _ _ _ _ new Z Hn Hx H0) as (s' & E1 & Z1 & O1).
  exists s'. split; [done |]. split; [| done]. assert (l1 ++ new :: l2 = addrs (plug C (T c l new r))) as ->.
  { rewrite addrs_plug in *. cbn [addrs] in *. rewrite <- app_assoc, app_assoc in A |- *. cbn [app] in *. symmetry in A. by destruct (split_unique _ _ _ _ _ ND A) as [-> ->]. }
  eapply repr_intro; [eapply plug_shape; eauto | by apply plug_black].
Qed.

(** ** Depth *)

Fixpoint height (t : tree) : nat := match t with E => 0%nat | T _ l _ r => S (Nat.max (height l) (height r)) end.

Lemma height_bal t n : nored t -> bal t n -> (height t <= 2 * n + match tcolor t with Red => 1 | Black => 0 end)%nat.
Proof.
  revert n. induction t as [| c l IHl p r IHr]; intros n Nt Bt; cbn [height]; [lia |]. apply (bal_mkd_inv L) in Bt as (m & -> & Bl & Br). destruct Nt as (Hc & Nl & Nr). specialize (IHl _ Nl Bl). specialize (IHr _ Nr Br).
  cbn [tcolor]. destruct c; cbn [grow].
  - destruct (Hc eq_refl) as [Cl Cr]. rewrite Cl in IHl. rewrite Cr in IHr. lia.
  - destruct (tcolor l), (tcolor r); lia.
Qed.

Lemma size_bal t n : bal t n -> (2 ^ n <= S (length (addrs t)))%nat.
Proof.
  revert n. induction t as [| c l IHl p r IHr]; intros n Bt; [cbn in Bt; subst; done |]. apply (bal_mkd_inv L) in Bt as (m & -> & Bl & Br). specialize (IHl _ Bl). specialize (IHr _ Br).
  cbn [addrs]. rewrite length_app. cbn [length]. destruct c; cbn [grow]; rewrite ?Nat.pow_succ_r'; lia.
Qed.

(** The links followed on a way down, by a search for instance. *)
Fixpoint follow (ds : list dir) (p : Z) (s : state) : option Z :=
  match ds with
  | [] => Some p
  | d :: ds => if p =? 0 then None else n ← get p s; follow ds (child d n) s
  end.

Lemma follow_height ds : forall X s C t p, zip_at X s C t -> follow ds (ptr_of t) s = Some p -> p <> 0 -> (length ds < height t)%nat.
Proof.
  induction ds as [| d ds IH]; intros X s C t p Z Hf Hp; cbn [follow] in Hf; [destruct t; cbn in *; [congruence | lia] |].
  destruct (tree_mkd d t) as [-> | (c & a & q & b & ->)]; [done |]. rewrite ptr_mkd, (proj2 (Z.eqb_neq _ _)), (zip_get _ _ _ _ _ _ _ _ Z) in Hf by (by eapply zip_nonnull).
  cbn [mbind option_bind] in Hf. rewrite child_nd in Hf. rewrite <- zip_up in Z. specialize (IH _ _ _ _ _ Z Hf Hp). destruct d; cbn; lia.
Qed.

(** in a tree of n nodes no way down from the root has more than 2 log2 (n + 1) nodes. *)
Lemma rb_depth s xs ds p : repr s xs -> follow ds (rb_root s) s = Some p -> p <> 0 -> (length ds < 2 * Nat.log2 (S (length xs)))%nat.
Proof.
  intros (t & (Z & Nt & [n Bt] & A) & Ct) Hf Hp. assert (rb_root s = ptr_of t) as Hr by (by destruct Z as (_ & K & _)). rewrite Hr in Hf. pose proof (follow_height _ _ _ _ _ _ Z Hf Hp) as H1.
  pose proof (height_bal _ _ Nt Bt) as H2. rewrite Ct in H2. pose proof (size_bal _ _ Bt) as H3. rewrite A in H3. apply Nat.log2_le_pow2 in H3; lia.
Qed.

(** ** Examples *)

Fixpoint load (par : Z) (t : tree) (h : gmap Z rb_node) : gmap Z rb_node :=
  match t with E => h | T c l p r => <[p := mk_node par c (ptr_of r) (ptr_of l)]> (load p l (load p r h)) end.

(** Two nodes apart from a tree of six. *)
Definition ex_tree : tree := T Black (T Black E 10 E) 20 (T Red (T Black E 30 E) 40 (T Black E 50 (T Red E 60 E))).
Definition ex_state : state := mk_state (load 0 ex_tree {[ 45 := mk_node 7 Black 8 9; 70 := mk_node 0 Red 0 0 ]}) 20.

Lemma ex_repr : repr ex_state [10; 20; 30; 40; 50; 60].
Proof.
  exists ex_tree. split; [| done]. split; [| split; [by cbn; repeat split | split; [by exists 2%nat; cbn; repeat split | done]]]. split; [by cbn; repeat split |]. split; [done |]. split; [done |].
  split; [by apply (bool_decide_unpack _); vm_compute | by apply (bool_decide_unpack _); vm_compute].
Qed.

Lemma rb_insert_spec_witness : exists s1 s2, rb_link_node 45 50 L ex_state = Some s1 /\ rb_insert_color 45 s1 = Some s2 /\ repr s2 [10; 20; 30; 40; 45; 50; 60] /\ outside_same [45; 10; 20; 30; 40; 50; 60] ex_state s2.
Proof.
  apply (rb_insert_spec ex_state 50 L [10; 20; 30; 40] [50; 60] 45); [exact ex_repr | | by eexists | done | by apply (bool_decide_unpack _); vm_compute].
  right. split; [by eexists | by eexists].
Defined.

Lemma rb_erase_spec_witness : exists s', rb_erase 20 ex_state = Some s' /\ repr s' [10; 30; 40; 50; 60] /\ outside_same [10; 20; 30; 40; 50; 60] ex_state s'.
Proof. exact (rb_erase_spec ex_state [10] 20 [30; 40; 50; 60] ex_repr). Defined.

(** Inserting the nodes 1 to 7 in this order, each at the end. *)
Example insert_run : (fold_left (fun s p => s ← s; q ← rb_last s; s ← rb_link_node p q R s; rb_insert_color p s) [1; 2; 3; 4; 5; 6; 7]
    (Some (mk_state (list_to_map ((fun p => (p, mk_node 0 Red 0 0)) <$> [1; 2; 3; 4; 5; 6; 7])) 0)) ≫= fun s => Some (rb_root s, nodes s !! 4)) = Some (2, Some (mk_node 2 Red 6 3)).
Proof. vm_compute. reflexivity. Qed.
