(* ===== verification/Sched.v ===== *)
(** * The scheduler: kernel/sched.c on one processor

    Run queues, priorities, time slices, sleeping and waking, forking and exit, nice values
    and scheduling policies. HZ is 100. A task is known by its number; [current] is the
    [curr] of the run queue. A function that would follow a NULL pointer, use an index out of
    range, damage a list or fail a [BUG_ON] returns [None]. The clock ([sched_clock], in
    nanoseconds) and [jiffies] are arguments, as is everything else from outside: pending
    signals, capabilities, the answer of a security hook. Statistics, tracing and memory
    maps are left out, and so is what is for several processors only.

    SchedInv.v proves that every operation keeps the arrays, bitmaps, counters and tasks in
    agreement, SchedFair.v that no task starves. *)

From stdpp Require Import list gmap.
From S2P Require Import Prelude Bitops.

(** ** Constants *)

Definition HZ := 100.
Definition MAX_RT_PRIO := 100.
Definition MAX_PRIO := 140.
Definition MIN_TIMESLICE := Z.max (5 * HZ / 1000) 1.
Definition DEF_TIMESLICE := 100 * HZ / 1000.
Definition MAX_BONUS := 10.
Definition MAX_SLEEP_AVG := DEF_TIMESLICE * MAX_BONUS.
Definition STARVATION_LIMIT := MAX_SLEEP_AVG.
Definition JIFFIES_TO_NS (t : Z) : Z := t * (1000000000 / HZ).
Definition NS_TO_JIFFIES (t : Z) : Z := t / (1000000000 / HZ).
Definition NS_MAX_SLEEP_AVG := JIFFIES_TO_NS MAX_SLEEP_AVG.
Definition GRANULARITY := 1.

Definition TASK_RUNNING := 0.
Definition TASK_RUNNING_MUTEX := 1.
Definition TASK_INTERRUPTIBLE := 2.
Definition TASK_UNINTERRUPTIBLE := 4.
Definition TASK_STOPPED := 8.
Definition TASK_TRACED := 16.
Definition EXIT_DEAD := 64.

Definition SCHED_NORMAL := 0.
Definition SCHED_FIFO := 1.
Definition SCHED_RR := 2.

Definition NICE_TO_PRIO (nice : Z) : Z := MAX_RT_PRIO + nice + 20.
Definition PRIO_TO_NICE (prio : Z) : Z := prio - MAX_RT_PRIO - 20.

(** ** Data *)

Record task_struct := mk_task {
  state : Z; dead : bool; prio : Z; static_prio : Z;
  policy : Z; rt_priority : Z; array : option bool; sleep_avg : Z;
  timestamp : Z; time_slice : Z; first_time_slice : bool; activated : Z;
  mm : bool; need_resched : bool; uid : Z; euid : Z
}.

Definition set_state (v : Z) (t : task_struct) : task_struct :=
  mk_task v (dead t) (prio t) (static_prio t) (policy t) (rt_priority t) (array t) (sleep_avg t) (timestamp t) (time_slice t) (first_time_slice t) (activated t) (mm t) (need_resched t) (uid t) (euid t).
Definition set_dead (v : bool) (t : task_struct) : task_struct :=
  mk_task (state t) v (prio t) (static_prio t) (policy t) (rt_priority t) (array t) (sleep_avg t) (timestamp t) (time_slice t) (first_time_slice t) (activated t) (mm t) (need_resched t) (uid t) (euid t).
Definition set_prio (v : Z) (t : task_struct) : task_struct :=
  mk_task (state t) (dead t) v (static_prio t) (policy t) (rt_priority t) (array t) (sleep_avg t) (timestamp t) (time_slice t) (first_time_slice t) (activated t) (mm t) (need_resched t) (uid t) (euid t).
Definition set_static_prio (v : Z) (t : task_struct) : task_struct :=
  mk_task (state t) (dead t) (prio t) v (policy t) (rt_priority t) (array t) (sleep_avg t) (timestamp t) (time_slice t) (first_time_slice t) (activated t) (mm t) (need_resched t) (uid t) (euid t).
Definition set_policy (v : Z) (t : task_struct) : task_struct :=
  mk_task (state t) (dead t) (prio t) (static_prio t) v (rt_priority t) (array t) (sleep_avg t) (timestamp t) (time_slice t) (first_time_slice t) (activated t) (mm t) (need_resched t) (uid t) (euid t).
Definition set_rt_priority (v : Z) (t : task_struct) : task_struct :=
  mk_task (state t) (dead t) (prio t) (static_prio t) (policy t) v (array t) (sleep_avg t) (timestamp t) (time_slice t) (first_time_slice t) (activated t) (mm t) (need_resched t) (uid t) (euid t).
Definition set_array_of (v : option bool) (t : task_struct) : task_struct :=
  mk_task (state t) (dead t) (prio t) (static_prio t) (policy t) (rt_priority t) v (sleep_avg t) (timestamp t) (time_slice t) (first_time_slice t) (activated t) (mm t) (need_resched t) (uid t) (euid t).
Definition set_sleep_avg (v : Z) (t : task_struct) : task_struct :=
  mk_task (state t) (dead t) (prio t) (static_prio t) (policy t) (rt_priority t) (array t) v (timestamp t) (time_slice t) (first_time_slice t) (activated t) (mm t) (need_resched t) (uid t) (euid t).
Definition set_timestamp (v : Z) (t : task_struct) : task_struct :=
  mk_task (state t) (dead t) (prio t) (static_prio t) (policy t) (rt_priority t) (array t) (sleep_avg t) v (time_slice t) (first_time_slice t) (activated t) (mm t) (need_resched t) (uid t) (euid t).
Definition set_time_slice (v : Z) (t : task_struct) : task_struct :=
  mk_task (state t) (dead t) (prio t) (static_prio t) (policy t) (rt_priority t) (array t) (sleep_avg t) (timestamp t) v (first_time_slice t) (activated t) (mm t) (need_resched t) (uid t) (euid t).
Definition set_first_time_slice (v : bool) (t : task_struct) : task_struct :=
  mk_task (state t) (dead t) (prio t) (static_prio t) (policy t) (rt_priority t) (array t) (sleep_avg t) (timestamp t) (time_slice t) v (activated t) (mm t) (need_resched t) (uid t) (euid t).
Definition set_activated (v : Z) (t : task_struct) : task_struct :=
  mk_task (state t) (dead t) (prio t) (static_prio t) (policy t) (rt_priority t) (array t) (sleep_avg t) (timestamp t) (time_slice t) (first_time_slice t) v (mm t) (need_resched t) (uid t) (euid t).
Definition set_need_resched (v : bool) (t : task_struct) : task_struct :=
  mk_task (state t) (dead t) (prio t) (static_prio t) (policy t) (rt_priority t) (array t) (sleep_avg t) (timestamp t) (time_slice t) (first_time_slice t) (activated t) (mm t) v (uid t) (euid t).

Record prio_array := mk_array { nr_active : Z; bitmap : list Z; queue : list (list Z) }.

Record runqueue := mk_rq {
  nr_running : Z; nr_uninterruptible : Z; nr_switches : Z; expired_timestamp : Z;
  timestamp_last_tick : Z; curr : Z; idle : Z; active : bool;
  expired : bool; array0 : prio_array; array1 : prio_array; best_expired_prio : Z
}.

Definition set_nr_running (v : Z) (r : runqueue) : runqueue :=
  mk_rq v (nr_uninterruptible r) (nr_switches r) (expired_timestamp r) (timestamp_last_tick r) (curr r) (idle r) (active r) (expired r) (array0 r) (array1 r) (best_expired_prio r).
Definition set_nr_uninterruptible (v : Z) (r : runqueue) : runqueue :=
  mk_rq (nr_running r) v (nr_switches r) (expired_timestamp r) (timestamp_last_tick r) (curr r) (idle r) (active r) (expired r) (array0 r) (array1 r) (best_expired_prio r).
Definition set_nr_switches (v : Z) (r : runqueue) : runqueue :=
  mk_rq (nr_running r) (nr_uninterruptible r) v (expired_timestamp r) (timestamp_last_tick r) (curr r) (idle r) (active r) (expired r) (array0 r) (array1 r) (best_expired_prio r).
Definition set_expired_timestamp (v : Z) (r : runqueue) : runqueue :=
  mk_rq (nr_running r) (nr_uninterruptible r) (nr_switches r) v (timestamp_last_tick r) (curr r) (idle r) (active r) (expired r) (array0 r) (array1 r) (best_expired_prio r).
Definition set_timestamp_last_tick (v : Z) (r : runqueue) : runqueue :=
  mk_rq (nr_running r) (nr_uninterruptible r) (nr_switches r) (expired_timestamp r) v (curr r) (idle r) (active r) (expired r) (array0 r) (array1 r) (best_expired_prio r).
Definition set_curr (v : Z) (r : runqueue) : runqueue :=
  mk_rq (nr_running r) (nr_uninterruptible r) (nr_switches r) (expired_timestamp r) (timestamp_last_tick r) v (idle r) (active r) (expired r) (array0 r) (array1 r) (best_expired_prio r).
Definition set_active (v : bool) (r : runqueue) : runqueue :=
  mk_rq (nr_running r) (nr_uninterruptible r) (nr_switches r) (expired_timestamp r) (timestamp_last_tick r) (curr r) (idle r) v (expired r) (array0 r) (array1 r) (best_expired_prio r).
Definition set_expired (v : bool) (r : runqueue) : runqueue :=
  mk_rq (nr_running r) (nr_uninterruptible r) (nr_switches r) (expired_timestamp r) (timestamp_last_tick r) (curr r) (idle r) (active r) v (array0 r) (array1 r) (best_expired_prio r).
Definition set_array0 (v : prio_array) (r : runqueue) : runqueue :=
  mk_rq (nr_running r) (nr_uninterruptible r) (nr_switches r) (expired_timestamp r) (timestamp_last_tick r) (curr r) (idle r) (active r) (expired r) v (array1 r) (best_expired_prio r).
Definition set_array1 (v : prio_array) (r : runqueue) : runqueue :=
  mk_rq (nr_running r) (nr_uninterruptible r) (nr_switches r) (expired_timestamp r) (timestamp_last_tick r) (curr r) (idle r) (active r) (expired r) (array0 r) v (best_expired_prio r).
Definition set_best_expired_prio (v : Z) (r : runqueue) : runqueue :=
  mk_rq (nr_running r) (nr_uninterruptible r) (nr_switches r) (expired_timestamp r) (timestamp_last_tick r) (curr r) (idle r) (active r) (expired r) (array0 r) (array1 r) v.

Record sched := mk_sched { tasks : gmap Z task_struct; rq : runqueue }.

Definition get_task (p : Z) (s : sched) : option task_struct := tasks s !! p.
Definition upd_task (p : Z) (f : task_struct -> task_struct) (s : sched) : option sched :=
  t ← tasks s !! p; Some (mk_sched (<[p := f t]> (tasks s)) (rq s)).
Definition upd_rq (f : runqueue -> runqueue) (s : sched) : sched := mk_sched (tasks s) (f (rq s)).

Definition get_array (b : bool) (r : runqueue) : prio_array := if b then array1 r else array0 r.
Definition set_array (b : bool) (a : prio_array) (r : runqueue) : runqueue := if b then set_array1 a r else set_array0 a r.
Definition upd_array (b : bool) (f : prio_array -> prio_array) (s : sched) : sched := upd_rq (fun r => set_array b (f (get_array b r)) r) s.

Definition set_nr_active (v : Z) (a : prio_array) : prio_array := mk_array v (bitmap a) (queue a).
Definition set_bitmap (v : list Z) (a : prio_array) : prio_array := mk_array (nr_active a) v (queue a).
Definition set_queue (v : list (list Z)) (a : prio_array) : prio_array := mk_array (nr_active a) (bitmap a) v.

(** ** Bitmaps *)

Definition __set_bit (nr : Z) (m : list Z) : option (list Z) :=
  w ← m !! Z.to_nat (Z.shiftr nr 5); Some (<[Z.to_nat (Z.shiftr nr 5) := Z.lor w (Z.shiftl 1 (Z.land nr 31))]> m).
Definition __clear_bit (nr : Z) (m : list Z) : option (list Z) :=
  w ← m !! Z.to_nat (Z.shiftr nr 5); Some (<[Z.to_nat (Z.shiftr nr 5) := Z.land w (not32 (Z.shiftl 1 (Z.land nr 31)))]> m).

(** [ffs] is [fls] of the lowest bit, and [fls] a single instruction that counts as [generic_fls] does. *)
Definition __ffs (x : Z) : Z := generic_fls (Z.land x (u32 (- x))) - 1.

(** [for (off = 0; v = b[off], off < 4; off++) if (v) break;]. *)
Fixpoint first_word (n : nat) (off : nat) (b : list Z) : option (Z * nat) :=
  v ← b !! off;
  match n with
  | O => Some (v, off)
  | S n => if negb (v =? 0) then Some (v, off) else first_word n (S off) b
  end.

Definition sched_find_first_bit (b : list Z) : option Z :=
  '(v, off) ← first_word 4 0 b; Some (__ffs v + Z.of_nat off * 32).

(** ** Lists

    The [run_list] of a task is on at most one list: adding it twice would damage the list,
    and removing it when it is on none follows bad pointers. *)

Definition linked (p : Z) (s : sched) : bool :=
  existsb (fun q => bool_decide (p ∈ q)) (queue (array0 (rq s)) ++ queue (array1 (rq s))).

Definition del_queue (p : Z) (a : prio_array) : prio_array := set_queue (filter (fun x => x <> p) <$> queue a) a.

Definition list_del (p : Z) (s : sched) : option sched :=
  if linked p s then Some (upd_array false (del_queue p) (upd_array true (del_queue p) s)) else None.

Definition list_add_tail (p : Z) (b : bool) (i : Z) (s : sched) : option sched :=
  if linked p s then None
  else
    q ← queue (get_array b (rq s)) !! Z.to_nat i;
    Some (upd_array b (fun a => set_queue (<[Z.to_nat i := q ++ [p]]> (queue a)) a) s).

(** [list_add_tail(&p->run_list, &parent->run_list)]: in front of [parent]. *)
Fixpoint insert_before (p parent : Z) (q : list Z) : list Z :=
  match q with [] => [] | x :: q => if x =? parent then p :: x :: q else x :: insert_before p parent q end.

Definition list_add_before (p parent : Z) (s : sched) : option sched :=
  if linked p s then None
  else if linked parent s then
    let f := fun a => set_queue (insert_before p parent <$> queue a) a in Some (upd_array false f (upd_array true f s))
  else None.

(** ** Priorities and time slices *)

Definition rt_task (t : task_struct) : bool := prio t <? MAX_RT_PRIO.

Definition SCALE_PRIO (x prio : Z) : Z := Z.max (Z.quot (x * (MAX_PRIO - prio)) 20) MIN_TIMESLICE.

Definition task_timeslice (t : task_struct) : Z :=
  if static_prio t <? NICE_TO_PRIO 0 then SCALE_PRIO (DEF_TIMESLICE * 4) (static_prio t) else SCALE_PRIO DEF_TIMESLICE (static_prio t).

Definition CURRENT_BONUS (t : task_struct) : Z := NS_TO_JIFFIES (sleep_avg t) * MAX_BONUS / MAX_SLEEP_AVG.

Definition TASK_NICE (t : task_struct) : Z := PRIO_TO_NICE (static_prio t).

Definition DELTA (t : task_struct) : Z := Z.quot (TASK_NICE t * MAX_BONUS) 40 + 2.

Definition TASK_INTERACTIVE (t : task_struct) : bool := prio t <=? static_prio t - DELTA t.

Definition INTERACTIVE_SLEEP (t : task_struct) : Z :=
  JIFFIES_TO_NS (Z.quot (MAX_SLEEP_AVG * (MAX_BONUS / 2 + DELTA t + 1)) MAX_BONUS - 1).

Definition TIMESLICE_GRANULARITY (t : task_struct) : Z :=
  let n := MAX_BONUS ⊖ CURRENT_BONUS t in GRANULARITY * Z.shiftl 1 ((if n =? 0 then 1 else n) - 1).

Definition __effective_prio (t : task_struct) : Z :=
  let bonus := s32 (CURRENT_BONUS t ⊖ MAX_BONUS / 2) in
  let prio := static_prio t - bonus in
  let prio := if prio <? MAX_RT_PRIO then MAX_RT_PRIO else prio in
  if prio >? MAX_PRIO - 1 then MAX_PRIO - 1 else prio.

Definition effective_prio (t : task_struct) : Z := if rt_task t then prio t else __effective_prio t.

(** The average sleep is an [unsigned long]: the products and sums wrap around at 2^32. *)
Definition recalc_sleep (t : task_struct) (now : Z) : task_struct :=
  let __sleep_time := u64 (now - timestamp t) in
  let sleep_time := if __sleep_time >? NS_MAX_SLEEP_AVG then NS_MAX_SLEEP_AVG else u32 __sleep_time in
  if sleep_time >? 0 then
    if mm t && negb (activated t =? -1) && (sleep_time >? INTERACTIVE_SLEEP t) then set_sleep_avg (JIFFIES_TO_NS (MAX_SLEEP_AVG - DEF_TIMESLICE)) t
    else
      let n := MAX_BONUS ⊖ CURRENT_BONUS t in
      let sleep_time := u32 (sleep_time * (if n =? 0 then 1 else n)) in
      let '(t, sleep_time) :=
        if (activated t =? -1) && mm t then
          if sleep_avg t >=? INTERACTIVE_SLEEP t then (t, 0)
          else if (sleep_avg t ⊕ sleep_time) >=? INTERACTIVE_SLEEP t then (set_sleep_avg (INTERACTIVE_SLEEP t) t, 0)
          else (t, sleep_time)
        else (t, sleep_time) in
      let t := set_sleep_avg (sleep_avg t ⊕ sleep_time) t in
      if sleep_avg t >? NS_MAX_SLEEP_AVG then set_sleep_avg NS_MAX_SLEEP_AVG t else t
  else t.

Definition recalc_task_prio (t : task_struct) (now : Z) : task_struct :=
  let t := recalc_sleep t now in set_prio (effective_prio t) t.

(** ** Priority arrays *)

Definition dequeue_task (p : Z) (b : bool) (s : sched) : option sched :=
  t ← get_task p s;
  let s := upd_array b (fun a => set_nr_active (nr_active a ⊖ 1) a) s in
  s ← list_del p s;
  let a := get_array b (rq s) in
  q ← queue a !! Z.to_nat (prio t);
  if bool_decide (q = []) then m ← __clear_bit (prio t) (bitmap a); Some (upd_array b (set_bitmap m) s)
  else Some s.

Definition enqueue_task (p : Z) (b : bool) (s : sched) : option sched :=
  t ← get_task p s;
  s ← list_add_tail p b (prio t) s;
  m ← __set_bit (prio t) (bitmap (get_array b (rq s)));
  let s := upd_array b (fun a => set_nr_active (nr_active a ⊕ 1) (set_bitmap m a)) s in
  upd_task p (set_array_of (Some b)) s.

Definition requeue_task (p : Z) (b : bool) (s : sched) : option sched :=
  t ← get_task p s;
  s ← list_del p s;
  list_add_tail p b (prio t) s.

(** ** Waking and sleeping *)

Definition __activate_task (p : Z) (s : sched) : option sched :=
  s ← enqueue_task p (active (rq s)) s;
  Some (upd_rq (fun r => set_nr_running (nr_running r ⊕ 1) r) s).

Definition __activate_task_after (p parent : Z) (s : sched) : option sched :=
  s ← list_add_before p parent s;
  pt ← get_task parent s;
  b ← array pt;
  s ← upd_task p (set_array_of (Some b)) s;
  let s := upd_array b (fun a => set_nr_active (nr_active a ⊕ 1) a) s in
  Some (upd_rq (fun r => set_nr_running (nr_running r ⊕ 1) r) s).

Definition activate_task (p now : Z) (in_interrupt : bool) (s : sched) : option sched :=
  s ← upd_task p (fun t => recalc_task_prio t now) s;
  s ← upd_task p (fun t => if activated t =? 0 then set_activated (if in_interrupt then 2 else 1) t else t) s;
  s ← upd_task p (set_timestamp now) s;
  __activate_task p s.

Definition deactivate_task (p : Z) (s : sched) : option sched :=
  let s := upd_rq (fun r => set_nr_running (nr_running r ⊖ 1) r) s in
  t ← get_task p s;
  b ← array t;
  s ← dequeue_task p b s;
  upd_task p (set_array_of None) s.

Definition resched_task : Z -> sched -> option sched := fun p => upd_task p (set_need_resched true).

Definition TASK_PREEMPTS_CURR (p : Z) (s : sched) : option bool :=
  t ← get_task p s; c ← get_task (curr (rq s)) s; Some (prio t <? prio c).

(** [cpu == this_cpu]. The result is 1 when the task was put on the run queue. *)
Definition try_to_wake_up (p st : Z) (sync mutex : bool) (now : Z) (in_interrupt : bool) (s : sched) : option (Z * sched) :=
  t ← get_task p s;
  let old_state := state t in
  if Z.land old_state st =? 0 then Some (0, s)
  else
    '(success, s) ← (match array t with
      | Some _ => Some (0, s)
      | None =>
          s ← (if old_state =? TASK_UNINTERRUPTIBLE then
                 upd_task p (set_activated (-1)) (upd_rq (fun r => set_nr_uninterruptible (nr_uninterruptible r ⊖ 1) r) s)
               else Some s);
          s ← activate_task p now in_interrupt s;
          s ← (if negb sync then b ← TASK_PREEMPTS_CURR p s; if (b : bool) then resched_task (curr (rq s)) s else Some s else Some s);
          Some (1, s)
      end);
    s ← upd_task p (set_state (if mutex then TASK_RUNNING_MUTEX else TASK_RUNNING)) s;
    Some (success, s).

Definition wake_up_process (p now : Z) (in_interrupt : bool) (s : sched) : option (Z * sched) :=
  try_to_wake_up p (Z.lor (Z.lor (Z.lor (Z.lor TASK_STOPPED TASK_TRACED) TASK_RUNNING_MUTEX) TASK_INTERRUPTIBLE) TASK_UNINTERRUPTIBLE) false false now in_interrupt s.

Definition wake_up_process_mutex (p now : Z) (in_interrupt : bool) (s : sched) : option (Z * sched) :=
  try_to_wake_up p (Z.lor (Z.lor (Z.lor (Z.lor TASK_STOPPED TASK_TRACED) TASK_RUNNING_MUTEX) TASK_INTERRUPTIBLE) TASK_UNINTERRUPTIBLE) false true now in_interrupt s.

Definition wake_up_state (p st now : Z) (in_interrupt : bool) (s : sched) : option (Z * sched) :=
  try_to_wake_up p (Z.lor st TASK_RUNNING_MUTEX) false false now in_interrupt s.

(** ** The tick *)

Definition EXPIRED_STARVING (jiffies : Z) (s : sched) : option bool :=
  c ← get_task (curr (rq s)) s;
  let r := rq s in
  Some (negb (expired_timestamp r =? 0) && ((jiffies ⊖ expired_timestamp r) >=? u32 (STARVATION_LIMIT * nr_running r + 1))
        || (static_prio c >? best_expired_prio r)).

(** The slice of a task that is not a real-time task has ended. *)
Definition slice_end (p jiffies : Z) (s : sched) : option sched :=
  s ← dequeue_task p (active (rq s)) s;
  s ← upd_task p (set_need_resched true) s;
  s ← upd_task p (fun t => set_prio (effective_prio t) t) s;
  s ← upd_task p (fun t => set_first_time_slice false (set_time_slice (task_timeslice t) t)) s;
  let s := if expired_timestamp (rq s) =? 0 then upd_rq (set_expired_timestamp jiffies) s else s in
  t ← get_task p s;
  starving ← EXPIRED_STARVING jiffies s;
  if negb (TASK_INTERACTIVE t) || starving then
    s ← enqueue_task p (expired (rq s)) s;
    Some (if static_prio t <? best_expired_prio (rq s) then upd_rq (set_best_expired_prio (static_prio t)) s else s)
  else enqueue_task p (active (rq s)) s.

Definition dec_time_slice (t : task_struct) : task_struct := set_time_slice (time_slice t ⊖ 1) t.

Definition scheduler_tick (now jiffies : Z) (s : sched) : option sched :=
  let s := upd_rq (set_timestamp_last_tick now) s in
  let p := curr (rq s) in
  if p =? idle (rq s) then Some s
  else
    t ← get_task p s;
    if negb (bool_decide (array t = Some (active (rq s)))) then upd_task p (set_need_resched true) s
    else if rt_task t then
      if policy t =? SCHED_RR then
        s ← upd_task p dec_time_slice s;
        t ← get_task p s;
        if time_slice t =? 0 then
          s ← upd_task p (fun t => set_need_resched true (set_first_time_slice false (set_time_slice (task_timeslice t) t))) s;
          requeue_task p (active (rq s)) s
        else Some s
      else Some s
    else
      s ← upd_task p dec_time_slice s;
      t ← get_task p s;
      if time_slice t =? 0 then slice_end p jiffies s
      else if TASK_INTERACTIVE t && ((task_timeslice t ⊖ time_slice t) mod TIMESLICE_GRANULARITY t =? 0)
              && (time_slice t >=? TIMESLICE_GRANULARITY t) && bool_decide (array t = Some (active (rq s))) then
        s ← requeue_task p (active (rq s)) s;
        upd_task p (set_need_resched true) s
      else Some s.

(** ** Choosing a task *)

Definition run_time (t : task_struct) (now : Z) : Z :=
  let d := u64 (now - timestamp t) in
  (if d <? NS_MAX_SLEEP_AVG then u32 d else NS_MAX_SLEEP_AVG) / (if CURRENT_BONUS t =? 0 then 1 else CURRENT_BONUS t).

(** A task that goes to sleep or is dead leaves the run queue. *)
Definition leave_cpu (prev : Z) (signal_pending preempt_active : bool) (s : sched) : option sched :=
  t ← get_task prev s;
  s ← (if negb (Z.ldiff (state t) TASK_RUNNING_MUTEX =? 0) && negb preempt_active then
         if negb (Z.land (state t) TASK_INTERRUPTIBLE =? 0) && signal_pending then upd_task prev (set_state TASK_RUNNING) s
         else
           deactivate_task prev (if state t =? TASK_UNINTERRUPTIBLE then upd_rq (fun r => set_nr_uninterruptible (nr_uninterruptible r ⊕ 1) r) s else s)
       else Some s);
  t ← get_task prev s;
  if dead t then
    s ← (if negb (state t =? TASK_RUNNING) then Some s else deactivate_task prev s);
    upd_task prev (set_state EXIT_DEAD) s
  else Some s.

Definition switch_arrays (r : runqueue) : runqueue :=
  if nr_active (get_array (active r) r) =? 0 then
    set_best_expired_prio MAX_PRIO (set_expired_timestamp 0 (set_expired (active r) (set_active (expired r) r)))
  else r.

(** The task that gets the processor. *)
Definition pick_next (now : Z) (s : sched) : option (Z * sched) :=
  if nr_running (rq s) =? 0 then Some (idle (rq s), upd_rq (set_expired_timestamp 0) s)
  else
    let s := upd_rq switch_arrays s in
    let a := get_array (active (rq s)) (rq s) in
    idx ← sched_find_first_bit (bitmap a);
    q ← queue a !! Z.to_nat idx;
    next ← head q;
    t ← get_task next s;
    s ← (if negb (rt_task t) && (activated t >? 0) then
           let delta := u64 (now - timestamp t) in
           let delta := if activated t =? 1 then u64 (delta * (30 * 128 / 100)) / 128 else delta in
           b ← array t;
           s ← dequeue_task next b s;
           s ← upd_task next (fun t => recalc_task_prio t (u64 (timestamp t + delta))) s;
           enqueue_task next b s
         else Some s);
    s ← upd_task next (set_activated 0) s;
    Some (next, s).

Definition __schedule (now : Z) (signal_pending preempt_active : bool) (s : sched) : option sched :=
  let prev := curr (rq s) in
  pt ← get_task prev s;
  let run := run_time pt now in
  s ← leave_cpu prev signal_pending preempt_active s;
  '(next, s) ← pick_next now s;
  s ← upd_task prev (set_need_resched false) s;
  s ← upd_task prev (fun t => let v := sleep_avg t ⊖ run in set_sleep_avg (if s32 v <=? 0 then 0 else v) t) s;
  s ← upd_task prev (set_timestamp now) s;
  if prev =? next then Some s
  else
    s ← upd_task next (set_timestamp now) s;
    Some (upd_rq (fun r => set_curr next (set_nr_switches (u64 (nr_switches r + 1)) r)) s).

(** ** Fork and exit *)

Definition sched_fork (p now jiffies : Z) (s : sched) : option sched :=
  s ← upd_task p (fun t => set_array_of None (set_state TASK_RUNNING t)) s;
  c ← get_task (curr (rq s)) s;
  s ← upd_task p (fun t => set_first_time_slice true (set_time_slice (Z.shiftr (time_slice c ⊕ 1) 1) t)) s;
  s ← upd_task (curr (rq s)) (fun t => set_time_slice (Z.shiftr (time_slice t) 1) t) s;
  s ← upd_task p (set_timestamp now) s;
  c ← get_task (curr (rq s)) s;
  if time_slice c =? 0 then s ← upd_task (curr (rq s)) (set_time_slice 1) s; scheduler_tick now jiffies s
  else Some s.

Definition penalty (weight : Z) (t : task_struct) : task_struct :=
  set_sleep_avg (JIFFIES_TO_NS (CURRENT_BONUS t * weight / 100 * MAX_SLEEP_AVG / MAX_BONUS)) t.

Definition wake_up_new_task (p : Z) (clone_vm : bool) (s : sched) : option sched :=
  t ← get_task p s;
  if negb (state t =? TASK_RUNNING) then None
  else
    s ← upd_task p (penalty 95) s;
    s ← upd_task p (fun t => set_prio (effective_prio t) t) s;
    let current := curr (rq s) in
    c ← get_task current s;
    s ← (if negb clone_vm then
           s ← (match array c with
                | None => __activate_task p s
                | Some _ => s ← upd_task p (set_prio (prio c)) s; __activate_task_after p current s
                end);
           resched_task current s
         else
           s ← __activate_task p s;
           t ← get_task p s;
           b ← TASK_PREEMPTS_CURR p s;
           if rt_task t && b then resched_task current s else Some s);
    upd_task current (penalty 100) s.

Definition sched_exit (p parent : Z) (s : sched) : option sched :=
  t ← get_task p s;
  s ← (if first_time_slice t then
         upd_task parent (fun pt => let v := time_slice pt ⊕ time_slice t in set_time_slice (if v >? task_timeslice t then task_timeslice t else v) pt) s
       else Some s);
  upd_task parent (fun pt => if sleep_avg t <? sleep_avg pt then set_sleep_avg (sleep_avg pt / 4 * 3 + sleep_avg t / 4) pt else pt) s.

(** ** Nice values and policies *)

Definition task_running (p : Z) (s : sched) : bool := curr (rq s) =? p.

Definition set_user_nice (p nice : Z) (s : sched) : option sched :=
  t ← get_task p s;
  if (TASK_NICE t =? nice) || (nice <? -20) || (nice >? 19) then Some s
  else if rt_task t then upd_task p (set_static_prio (NICE_TO_PRIO nice)) s
  else
    s ← (match array t with Some b => dequeue_task p b s | None => Some s end);
    let delta := NICE_TO_PRIO nice - prio t in
    s ← upd_task p (fun t => set_prio (prio t + delta) (set_static_prio (NICE_TO_PRIO nice) t)) s;
    match array t with
    | Some b =>
        s ← enqueue_task p b s;
        if (delta <? 0) || ((delta >? 0) && task_running p s) then resched_task (curr (rq s)) s else Some s
    | None => Some s
    end.

Definition mutex_getprio (t : task_struct) : Z :=
  if negb (policy t =? SCHED_NORMAL) then 100 - 1 - rt_priority t else __effective_prio t.

(** Whether a new priority makes the current task give way. *)
Definition prio_changed (p oldprio : Z) (s : sched) : option sched :=
  t ← get_task p s;
  if task_running p s then if prio t >? oldprio then resched_task (curr (rq s)) s else Some s
  else b ← TASK_PREEMPTS_CURR p s; if (b : bool) then resched_task (curr (rq s)) s else Some s.

Definition mutex_setprio (p new : Z) (s : sched) : option sched :=
  if (new <? 0) || (new >? MAX_PRIO) then None
  else
    t ← get_task p s;
    s ← (match array t with Some b => dequeue_task p b s | None => Some s end);
    s ← upd_task p (set_prio new) s;
    match array t with
    | Some b =>
        s ← enqueue_task p (if new <? MAX_RT_PRIO then active (rq s) else b) s;
        prio_changed p (prio t) s
    | None => Some s
    end.

Definition task_prio (t : task_struct) : Z := prio t - MAX_RT_PRIO.

Definition sys_nice (increment : Z) (capable : bool) (hook : Z -> Z) (s : sched) : option (Z * sched) :=
  if (increment <? 0) && negb capable then Some (- EPERM, s)
  else
    let increment := if increment <? -40 then -40 else increment in
    let increment := if increment >? 40 then 40 else increment in
    c ← get_task (curr (rq s)) s;
    let nice := PRIO_TO_NICE (static_prio c) + increment in
    let nice := if nice <? -20 then -20 else nice in
    let nice := if nice >? 19 then 19 else nice in
    if negb (hook nice =? 0) then Some (hook nice, s)
    else s ← set_user_nice (curr (rq s)) nice s; Some (0, s).

Definition __setscheduler (p policy prio : Z) (s : sched) : option sched :=
  t ← get_task p s;
  match array t with
  | Some _ => None
  | None =>
      upd_task p (fun t =>
        let t := set_rt_priority prio (set_policy policy t) in
        set_prio (if negb (policy =? SCHED_NORMAL) then 100 - 1 - rt_priority t else static_prio t) t) s
  end.

(** A policy of -1 stands for the policy the task has. *)
Definition sched_setscheduler (p pol prio_arg : Z) (capable : bool) (hook : Z) (s : sched) : option (Z * sched) :=
  t ← get_task p s;
  c ← get_task (curr (rq s)) s;
  if (0 <=? pol) && negb (pol =? SCHED_FIFO) && negb (pol =? SCHED_RR) && negb (pol =? SCHED_NORMAL) then Some (- EINVAL, s)
  else
    let pol := if pol <? 0 then policy t else pol in
    if (prio_arg <? 0) || (prio_arg >? 100 - 1) then Some (- EINVAL, s)
    else if negb (Bool.eqb (pol =? SCHED_NORMAL) (prio_arg =? 0)) then Some (- EINVAL, s)
    else if ((pol =? SCHED_FIFO) || (pol =? SCHED_RR)) && negb capable then Some (- EPERM, s)
    else if negb (euid c =? euid t) && negb (euid c =? uid t) && negb capable then Some (- EPERM, s)
    else if negb (hook =? 0) then Some (hook, s)
    else
      s ← (match array t with Some _ => deactivate_task p s | None => Some s end);
      s ← __setscheduler p pol prio_arg s;
      s ← (match array t with Some _ => s ← __activate_task p s; prio_changed p (prio t) s | None => Some s end);
      Some (0, s).

Definition sys_sched_get_priority_max (policy : Z) : Z :=
  if (policy =? SCHED_FIFO) || (policy =? SCHED_RR) then 100 - 1 else if policy =? SCHED_NORMAL then 0 else - EINVAL.
Definition sys_sched_get_priority_min (policy : Z) : Z :=
  if (policy =? SCHED_FIFO) || (policy =? SCHED_RR) then 1 else if policy =? SCHED_NORMAL then 0 else - EINVAL.

Definition sys_sched_yield (now : Z) (s : sched) : option sched :=
  let current := curr (rq s) in
  c ← get_task current s;
  b ← array c;
  let target := if rt_task c then active (rq s) else expired (rq s) in
  s ← (if negb (Bool.eqb b target) then s ← dequeue_task current b s; enqueue_task current target s else requeue_task current b s);
  __schedule now false false s.

(** The loop over all processes. *)
Fixpoint normalize_rt_tasks (ps : list Z) (s : sched) : option sched :=
  match ps with
  | [] => Some s
  | p :: ps =>
      t ← get_task p s;
      if negb (rt_task t) then normalize_rt_tasks ps s
      else
        s ← (match array t with Some _ => deactivate_task p s | None => Some s end);
        s ← __setscheduler p SCHED_NORMAL 0 s;
        s ← (match array t with Some _ => s ← __activate_task p s; resched_task (curr (rq s)) s | None => Some s end);
        normalize_rt_tasks ps s
  end.

(** ** Start *)

Definition init_array : option prio_array :=
  m ← __set_bit MAX_PRIO (replicate 5 0); Some (mk_array 0 m (replicate 140 [])).

Definition init_idle (p : Z) (s : sched) : option sched :=
  s ← upd_task p (fun t => set_state TASK_RUNNING (set_prio MAX_PRIO (set_array_of None (set_sleep_avg 0 t)))) s;
  let r := rq s in
  let s := mk_sched (tasks s) (mk_rq (nr_running r) (nr_uninterruptible r) (nr_switches r) (expired_timestamp r) (timestamp_last_tick r) p p
    (active r) (expired r) (array0 r) (array1 r) (best_expired_prio r)) in
  upd_task p (set_need_resched true) s.

(** The run queue is zeroed memory; the current task becomes the idle task. *)
Definition sched_init (current : Z) (ts : gmap Z task_struct) : option sched :=
  a ← init_array;
  init_idle current (mk_sched ts (mk_rq 0 0 0 0 0 0 0 false true a a MAX_PRIO)).

(** ** All calls together *)

(** The child starts as a copy of the current task. *)
Definition dup_task_struct (p : Z) (s : sched) : option sched :=
  c ← get_task (curr (rq s)) s; Some (mk_sched (<[p := c]> (tasks s)) (rq s)).

Definition copy_process (p now jiffies : Z) (s : sched) : option sched :=
  s ← dup_task_struct p s; sched_fork p now jiffies s.

Inductive event :=
  | Tick (now jiffies : Z)
  | Schedule (now : Z) (signal_pending preempt_active : bool)
  | SetState (v : Z)
  | Die (now : Z)
  | Wake (p st : Z) (sync mutex : bool) (now : Z) (in_interrupt : bool)
  | Fork (p now jiffies : Z)
  | WakeNew (p : Z) (clone_vm : bool)
  | Exit (p parent : Z)
  | Release (p : Z)
  | SetNice (p nice : Z)
  | SysNice (increment : Z) (capable : bool) (hook : Z -> Z)
  | SetScheduler (p pol prio_arg : Z) (capable : bool) (hook : Z)
  | MutexSetprio (p new : Z)
  | Normalize (ps : list Z)
  | Yield (now : Z).

(** The end of [do_exit]: the task is marked dead and gives up the processor. *)
Definition do_exit (now : Z) (s : sched) : option sched :=
  s ← upd_task (curr (rq s)) (set_dead true) s;
  __schedule now false false s.

(** The current task sets its own state; a task that is no longer used is freed. *)
Definition step (e : event) (s : sched) : option sched :=
  match e with
  | Tick now jiffies => scheduler_tick now jiffies s
  | Schedule now sig pre => __schedule now sig pre s
  | SetState v => upd_task (curr (rq s)) (set_state v) s
  | Die now => do_exit now s
  | Wake p st sync mutex now irq => snd <$> try_to_wake_up p st sync mutex now irq s
  | Fork p now jiffies => copy_process p now jiffies s
  | WakeNew p vm => wake_up_new_task p vm s
  | Exit p parent => sched_exit p parent s
  | Release p => Some (mk_sched (delete p (tasks s)) (rq s))
  | SetNice p nice => set_user_nice p nice s
  | SysNice inc cap hook => snd <$> sys_nice inc cap hook s
  | SetScheduler p pol prio cap hook => snd <$> sched_setscheduler p pol prio cap hook s
  | MutexSetprio p new => mutex_setprio p new s
  | Normalize ps => normalize_rt_tasks ps s
  | Yield now => sys_sched_yield now s
  end.
