(* ===== verification/SchedInv.v ===== *)
(** * The invariant of the scheduler: kernel/sched.c

    [sched_ok] says that the two priority arrays, their bitmaps and counters and the fields
    of the tasks agree. Every operation of Sched.v keeps it and none fails; the scheduler
    picks the right task; priorities and slices stay within their bounds. A state is
    reached from boot, when tasks may have slices of up to HZ ticks as [INIT_TASK] has. *)

From stdpp Require Import list gmap.
From S2P Require Import Prelude Bitops Sched.

(** * Proofs: bitmaps *)

Lemma bit_same_word i j : 0 <= i -> 0 <= j -> (Z.shiftr j 5 = Z.shiftr i 5 /\ Z.land j 31 = Z.land i 31) <-> j = i.
Proof. intros Hi Hj. destruct (map_word_bit i Hi) as (H1 & _), (map_word_bit j Hj) as (H2 & _). split; [lia | by intros ->]. Qed.

Definition bitmap_ok (m : list Z) : Prop := length m = 5%nat /\ Forall is_u32 m.

Lemma bitmap_word m i : bitmap_ok m -> 0 <= i < 160 -> exists w, m !! Z.to_nat (Z.shiftr i 5) = Some w /\ is_u32 w.
Proof.
  intros [Hl Hw] Hi. destruct (lookup_lt_is_Some_2 m (Z.to_nat (Z.shiftr i 5))) as [w H].
  { rewrite Hl. destruct (map_word_bit i ltac:(lia)) as (H1 & H2 & H3). lia. }
  exists w. split; [done |]. by eapply Forall_lookup_1 in Hw.
Qed.

Lemma one_bit_u32 i : is_u32 (Z.shiftl 1 (Z.land i 31)).
Proof.
  rewrite Z.shiftl_1_l. assert (0 <= Z.land i 31 < 32) as H by (change 31 with (2 ^ 5 - 1); rewrite land_pow2_mask by lia; apply Z.mod_pos_bound; lia).
  split; [apply Z.pow_nonneg; lia |]. change 4294967296 with (2 ^ 32). apply Z.pow_lt_mono_r; lia.
Qed.

Lemma set_bit_spec m i : bitmap_ok m -> 0 <= i < 160 ->
  exists m', __set_bit i m = Some m' /\ bitmap_ok m' /\ forall j, 0 <= j -> bitof m' j = if decide (j = i) then true else bitof m j.
Proof.
  intros Hm Hi. destruct (bitmap_word m i Hm Hi) as (w & Hw & Hu). destruct Hm as [Hl Hf]. unfold __set_bit. rewrite Hw. cbn [mbind option_bind]. eexists. split; [done |]. split.
  { split; [by rewrite length_insert |]. apply Forall_insert; [done |]. apply lor_u32; [done | apply one_bit_u32]. }
  intros j Hj. rewrite (bitof_insert _ _ _ w) by (done || lia). destruct (map_word_bit j Hj) as (_ & _ & Hj5). rewrite Z.lor_spec, Z.shiftl_1_l, Z.pow2_bits_eqb by (destruct (map_word_bit i); lia).
  destruct (decide (Z.shiftr j 5 = Z.shiftr i 5)) as [E | E].
  - destruct (Z.eqb_spec (Z.land i 31) (Z.land j 31)) as [Eb | Eb].
    + rewrite decide_True by (apply bit_same_word; [lia | lia | by split]). by rewrite orb_true_r.
    + rewrite decide_False by (intros ->; done). rewrite orb_false_r. unfold bitof. by rewrite E, Hw.
  - rewrite decide_False by (intros ->; done). done.
Qed.

Lemma clear_bit_spec m i : bitmap_ok m -> 0 <= i < 160 ->
  exists m', __clear_bit i m = Some m' /\ bitmap_ok m' /\ forall j, 0 <= j -> bitof m' j = if decide (j = i) then false else bitof m j.
Proof.
  intros Hm Hi. destruct (bitmap_word m i Hm Hi) as (w & Hw & Hu). destruct Hm as [Hl Hf]. unfold __clear_bit. rewrite Hw. cbn [mbind option_bind]. eexists. split; [done |]. split.
  { split; [by rewrite length_insert |]. apply Forall_insert; [done |]. apply land_u32; [done | apply u32_range]. }
  intros j Hj. rewrite (bitof_insert _ _ _ w) by (done || lia). destruct (map_word_bit j Hj) as (_ & _ & Hj5). destruct (map_word_bit i ltac:(lia)) as (_ & _ & Hi5).
  unfold not32. rewrite Z.land_spec, u32_testbit, Z.lnot_spec, Z.shiftl_1_l, Z.pow2_bits_eqb by lia. rewrite (proj2 (Z.ltb_lt _ _)) by lia. cbn [andb].
  destruct (decide (Z.shiftr j 5 = Z.shiftr i 5)) as [E | E].
  - destruct (Z.eqb_spec (Z.land i 31) (Z.land j 31)) as [Eb | Eb].
    + rewrite decide_True by (apply bit_same_word; [lia | lia | by split]). by rewrite andb_false_r.
    + rewrite decide_False by (intros ->; done). rewrite andb_true_r. unfold bitof. by rewrite E, Hw.
  - rewrite decide_False by (intros ->; done). done.
Qed.

Lemma lowest_bit w : 0 < w -> exists k m, 0 <= k /\ 0 <= m /\ w = (2 * m + 1) * 2 ^ k.
Proof.
  intros H. destruct w as [| p | p]; try lia. clear H. induction p as [p _ | p (k & m & Hk & Hm & IH) |].
  - exists 0, (Z.pos p). lia.
  - exists (k + 1), m. rewrite Z.pow_add_r by lia. lia.
  - exists 0, 0. lia.
Qed.

Lemma land_opposite m : 0 <= m -> Z.land (2 * m + 1) (- (2 * m + 1)) = 1.
Proof.
  intros Hm. assert (- (2 * m + 1) = Z.lnot (2 * m)) as -> by (unfold Z.lnot; lia). apply Z.bits_inj'. intros n Hn. rewrite Z.land_spec, Z.lnot_spec by done.
  destruct (decide (n = 0)) as [-> | H0]; [by rewrite Z.testbit_odd_0, Z.testbit_even_0 |]. replace n with (Z.succ (n - 1)) by lia.
  rewrite Z.testbit_odd_succ, Z.testbit_even_succ by lia. change 1 with (2 * 0 + 1). rewrite Z.testbit_odd_succ, Z.bits_0 by lia. apply andb_negb_r.
Qed.

Lemma ffs_spec w : is_u32 w -> w <> 0 -> 0 <= __ffs w < 32 /\ Z.testbit w (__ffs w) = true /\ forall j, 0 <= j < __ffs w -> Z.testbit w j = false.
Proof.
  intros Hu Hn. destruct (lowest_bit w) as (k & m & Hk & Hm & E); [unfold is_u32 in Hu; lia |]. pose proof (Z.pow_pos_nonneg 2 k ltac:(lia) Hk) as Hp.
  assert (k < 32) as Hk32. { apply (Z.pow_lt_mono_r_iff 2); [lia | lia |]. unfold is_u32 in Hu. change (2 ^ 32) with 4294967296. nia. }
  assert (Z.land w (u32 (- w)) = 2 ^ k) as HL.
  { assert (Z.land w (u32 (- w)) = Z.land w (- w)) as ->.
    { apply Z.bits_inj'. intros n H0. rewrite !Z.land_spec, u32_testbit by done. destruct (Z.ltb_spec n 32) as [| Hge]; [done |]. rewrite (u32_bits_above w n Hu Hge). done. }
    rewrite E. replace (- ((2 * m + 1) * 2 ^ k)) with (- (2 * m + 1) * 2 ^ k) by lia. rewrite <- !Z.shiftl_mul_pow2, <- Z.shiftl_land, land_opposite by lia. by rewrite Z.shiftl_1_l. }
  assert (__ffs w = k) as ->.
  { unfold __ffs. rewrite HL. destruct (generic_fls_bounds (2 ^ k)) as (H1 & H2 & H3).
    { split; [done |]. change 4294967296 with (2 ^ 32). apply Z.pow_lt_mono_r; lia. }
    apply (Z.pow_le_mono_r_iff 2) in H2; [| lia | lia]. apply (Z.pow_lt_mono_r_iff 2) in H3; lia. }
  split; [lia |]. rewrite E. split.
  - rewrite <- Z.shiftl_mul_pow2, Z.shiftl_spec, Z.sub_diag by lia. apply Z.testbit_odd_0.
  - intros j Hj. rewrite <- Z.shiftl_mul_pow2 by lia. by rewrite Z.shiftl_spec_low by lia.
Qed.

Lemma first_word_spec n : forall off b, (off + n < length b)%nat ->
  exists v o, first_word n off b = Some (v, o) /\ b !! o = Some v /\ (off <= o <= off + n)%nat /\ (v <> 0 \/ o = (off + n)%nat) /\ forall k, (off <= k < o)%nat -> b !! k = Some 0.
Proof.
  induction n as [| n IH]; intros off b Hl; cbn [first_word]; destruct (lookup_lt_is_Some_2 b off ltac:(lia)) as [v Hv]; rewrite Hv; cbn [mbind option_bind].
  - exists v, off. split_and!; try done; try lia.
  - destruct (Z.eqb_spec v 0) as [-> | Hne]; cbn [negb].
    + destruct (IH (S off) b ltac:(lia)) as (v & o & E & Ho & Hr & Hv0 & Hz). exists v, o. split_and!; try done; try lia.
      intros k Hk. destruct (decide (k = off)) as [-> |]; [done | apply Hz; lia].
    + exists v, off. split_and!; try done; try lia.
Qed.

Lemma bitof_word m o j : 0 <= j < 32 -> bitof m (Z.of_nat o * 32 + j) = match m !! o with Some w => Z.testbit w j | None => false end.
Proof.
  intros Hj. unfold bitof. assert (Z.shiftr (Z.of_nat o * 32 + j) 5 = Z.of_nat o /\ Z.land (Z.of_nat o * 32 + j) 31 = j) as [-> ->]; [| by rewrite Nat2Z.id].
  destruct (map_word_bit (Z.of_nat o * 32 + j) ltac:(lia)) as (H1 & H2 & H3). lia.
Qed.

Lemma find_first_spec m : bitmap_ok m -> bitof m 140 = true ->
  exists i, sched_find_first_bit m = Some i /\ 0 <= i <= 140 /\ bitof m i = true /\ forall j, 0 <= j < i -> bitof m j = false.
Proof.
  intros [Hl Hu] H140. destruct (first_word_spec 4 0 m) as (v & o & E & Ho & Hr & Hv & Hz); [lia |]. unfold sched_find_first_bit. rewrite E. cbn [mbind option_bind]. eexists. split; [done |].
  assert (v <> 0) as Hv0. { destruct Hv as [| Ho4]; [done |]. cbn in Ho4. subst o. intros ->. change 140 with (Z.of_nat 4 * 32 + 12) in H140. rewrite bitof_word, Ho in H140 by lia. done. }
  assert (is_u32 v) as Huv by (by eapply Forall_lookup_1 in Hu). destruct (ffs_spec v Huv Hv0) as (F1 & F2 & F3). rewrite (Z.add_comm (__ffs v)). rewrite bitof_word, Ho, F2 by done.
  assert (forall j, 0 <= j < Z.of_nat o * 32 + __ffs v -> bitof m j = false) as Hlow.
  { intros j Hj. assert (j = Z.of_nat (Z.to_nat (j / 32)) * 32 + j mod 32) as -> by (pose proof (Z.div_mod j 32 ltac:(lia)); pose proof (Z.div_pos j 32 ltac:(lia) ltac:(lia)); lia).
    pose proof (Z.mod_pos_bound j 32 ltac:(lia)) as Hm. rewrite bitof_word by done. assert (j / 32 <= Z.of_nat o) as Hjo by (apply Z.lt_succ_r, Z.div_lt_upper_bound; lia).
    destruct (decide (Z.to_nat (j / 32) = o)) as [Heq | Hne].
    - rewrite Heq, Ho. apply F3. pose proof (Z.div_mod j 32 ltac:(lia)). pose proof (Z.div_pos j 32 ltac:(lia) ltac:(lia)). lia.
    - rewrite Hz; [by rewrite Z.bits_0 |]. pose proof (Z.div_pos j 32 ltac:(lia) ltac:(lia)). lia. }
  split_and!; try done; try lia. destruct (Z.le_gt_cases (Z.of_nat o * 32 + __ffs v) 140) as [| Hgt]; [done |]. rewrite Hlow in H140 by lia. done.
Qed.

(** * Proofs: the priority arrays *)

Definition with_arrays (a0 a1 : prio_array) (r : runqueue) : runqueue := set_array0 a0 (set_array1 a1 r).

(** The queue of a priority. *)
Definition qv (r : runqueue) (b : bool) (i : nat) : list Z := default [] (queue (get_array b r) !! i).

Definition queued (r : runqueue) : list Z := concat (queue (array0 r)) ++ concat (queue (array1 r)).

Definition array_ok (a : prio_array) : Prop :=
  length (queue a) = 140%nat /\ bitmap_ok (bitmap a) /\ bitof (bitmap a) 140 = true /\
  (forall i, (i < 140)%nat -> bitof (bitmap a) (Z.of_nat i) = negb (bool_decide (default [] (queue a !! i) = []))) /\
  nr_active a = Z.of_nat (length (concat (queue a))).

(** The arrays hold the tasks that [loc] places, each once. *)
Definition arrays_ok (loc : Z -> option (bool * Z)) (r : runqueue) : Prop :=
  (forall b, array_ok (get_array b r)) /\ NoDup (queued r) /\ Z.of_nat (length (queued r)) < 4294967296 /\
  (forall b i p, p ∈ qv r b i <-> loc p = Some (b, Z.of_nat i)) /\ (forall p b i, loc p = Some (b, i) -> 0 <= i < 140).

Lemma arrays_ok_ext loc loc' r : (forall p, loc p = loc' p) -> arrays_ok loc r -> arrays_ok loc' r.
Proof. intros H (H1 & H2 & H3 & H4 & H5). split_and!; try done; [| intros p b i; rewrite <- H; apply H5]. intros b i p. by rewrite <- H. Qed.

Lemma elem_concat (p : Z) (Q : list (list Z)) : p ∈ concat Q <-> exists q, p ∈ q /\ q ∈ Q.
Proof. induction Q as [| q Q IH]; cbn; [set_solver |]. rewrite elem_of_app, IH. set_solver. Qed.

Lemma elem_concat_default (p : Z) (Q : list (list Z)) : p ∈ concat Q <-> exists i, p ∈ default [] (Q !! i).
Proof.
  split.
  - intros H. apply elem_concat in H as (q & Hp & Hq). apply list_elem_of_lookup in Hq as [i Hi]. exists i. by rewrite Hi.
  - intros [i H]. destruct (Q !! i) as [q |] eqn:E; cbn in H; [| by apply elem_of_nil in H]. apply elem_concat. exists q. split; [done |]. by eapply list_elem_of_lookup_2.
Qed.

Lemma elem_queued p r : p ∈ queued r <-> exists b i, p ∈ qv r b i.
Proof.
  unfold queued. rewrite elem_of_app, !elem_concat_default. split.
  - intros [[i H] | [i H]]; [by exists false, i | by exists true, i].
  - intros [[] [i H]]; [right | left]; by exists i.
Qed.

Lemma queued_loc loc r p : arrays_ok loc r -> p ∈ queued r <-> is_Some (loc p).
Proof.
  intros (_ & _ & _ & H4 & H5). rewrite elem_queued. split.
  - intros (b & i & H). apply H4 in H. by eexists.
  - intros [[b i] H]. exists b, (Z.to_nat i). apply H4. destruct (H5 _ _ _ H). by rewrite Z2Nat.id by lia.
Qed.

Lemma linked_queued p s : linked p s = bool_decide (p ∈ queued (rq s)).
Proof.
  unfold linked. apply eq_true_iff_eq. rewrite existsb_exists, bool_decide_eq_true. unfold queued. rewrite elem_of_app. split.
  - intros (q & Hq & Hp). apply bool_decide_eq_true in Hp. apply in_app_iff in Hq as [Hq | Hq]; [left | right]; apply elem_concat; exists q; (split; [done | by apply list_elem_of_In]).
  - intros [H | H]; apply elem_concat in H as (q & Hp & Hq); exists q; rewrite bool_decide_eq_true, in_app_iff, <- !list_elem_of_In; tauto.
Qed.

Lemma filter_concat (p : Z) Q : concat (filter (fun x => x <> p) <$> Q) = filter (fun x => x <> p) (concat Q).
Proof. induction Q as [| q Q IH]; [done |]. cbn. by rewrite filter_app, IH. Qed.

Lemma concat_insert Q i q (q' : list Z) p : Q !! i = Some q -> q' ≡ₚ p :: q -> concat (<[i := q']> Q) ≡ₚ p :: concat Q.
Proof.
  revert i. induction Q as [| x Q IH]; intros [| i] Hi P; cbn in *; simplify_eq.
  - by rewrite P.
  - rewrite (IH _ Hi P). by rewrite Permutation_middle.
Qed.

Lemma get_array_upd b b' f s : get_array b (rq (upd_array b' f s)) = if decide (b = b') then f (get_array b (rq s)) else get_array b (rq s).
Proof. by destruct b, b'. Qed.

Lemma get_set_array b b' a r : get_array b (set_array b' a r) = if decide (b = b') then a else get_array b r.
Proof. by destruct b, b'. Qed.

Lemma qv_set r b a b' i : qv (set_array b a r) b' i = if decide (b' = b) then default [] (queue a !! i) else qv r b' i.
Proof. unfold qv. rewrite get_set_array. by destruct (decide (b' = b)). Qed.

Lemma queued_split b r : queued r ≡ₚ concat (queue (get_array b r)) ++ concat (queue (get_array (negb b) r)).
Proof. destruct b; [| done]. apply Permutation_app_comm. Qed.

Lemma queued_set b a r : queued (set_array b a r) ≡ₚ concat (queue a) ++ concat (queue (get_array (negb b) r)).
Proof. rewrite (queued_split b), !get_set_array, decide_True, decide_False by (by destruct b). done. Qed.

(** One array changes: a task comes or goes. *)
Lemma arrays_ok_set loc loc' r b a : arrays_ok loc r -> array_ok a -> (forall i p, p ∈ default [] (queue a !! i) <-> loc' p = Some (b, Z.of_nat i)) ->
  (forall p i, loc' p = Some (negb b, i) <-> loc p = Some (negb b, i)) -> (forall p b i, loc' p = Some (b, i) -> 0 <= i < 140) ->
  NoDup (concat (queue a) ++ concat (queue (get_array (negb b) r))) -> Z.of_nat (length (concat (queue a) ++ concat (queue (get_array (negb b) r)))) < 4294967296 ->
  arrays_ok loc' (set_array b a r).
Proof.
  intros (H1 & _ & _ & H4 & _) Ha Hq Ho Hi N Hl. split; [| split; [| split; [| split]]]; [| by rewrite queued_set | by rewrite queued_set | | done].
  - intros b'. rewrite get_set_array. by destruct (decide (b' = b)).
  - intros b' i p. rewrite qv_set. destruct (decide (b' = b)) as [-> | Hb]; [apply Hq |]. assert (b' = negb b) as -> by (by destruct b, b'). by rewrite Ho, H4.
Qed.

Lemma del_queue_absent p a : p ∉ concat (queue a) -> del_queue p a = a.
Proof.
  intros H. unfold del_queue, set_queue. rewrite fmap_id_on; [by destruct a |]. intros q Hq. apply filter_absent. intros Hp. apply H, elem_concat. by exists q.
Qed.

Lemma default_fmap_filter (p : Z) (Q : list (list Z)) i : default [] ((filter (fun x => x <> p) <$> Q) !! i) = filter (fun x => x <> p) (default [] (Q !! i)).
Proof. rewrite list_lookup_fmap. by destruct (Q !! i). Qed.

Definition no_loc (loc : Z -> option (bool * Z)) (p : Z) : Z -> option (bool * Z) := fun q => if decide (q = p) then None else loc q.
Definition set_loc (loc : Z -> option (bool * Z)) (p : Z) (b : bool) (i : Z) : Z -> option (bool * Z) := fun q => if decide (q = p) then Some (b, i) else loc q.

Lemma list_del_gen s p b : linked p s = true -> p ∉ concat (queue (get_array (negb b) (rq s))) -> list_del p s = Some (upd_array b (del_queue p) s).
Proof.
  intros Hl Hn. unfold list_del. rewrite Hl. f_equal. apply del_queue_absent in Hn. destruct s as [ts r]. unfold upd_array, upd_rq. cbn [rq tasks]. f_equal.
  destruct b; cbn [negb get_array set_array rq] in *; destruct r; cbn in *; rewrite Hn; done.
Qed.

Lemma queued_linked loc s p b i : arrays_ok loc (rq s) -> loc p = Some (b, i) -> linked p s = true /\ p ∉ concat (queue (get_array (negb b) (rq s))).
Proof.
  intros A Hl. split; [rewrite linked_queued, bool_decide_true; [done | eapply queued_loc; [done | by eexists]] |].
  destruct A as (_ & N & _ & H4 & _). intros H. apply elem_concat_default in H as [j H]. apply (H4 (negb b) j) in H. rewrite Hl in H. by destruct b.
Qed.

(** The array without the task. *)
Lemma del_array_ok loc r p b i m : arrays_ok loc r -> loc p = Some (b, i) -> bitmap_ok m -> (forall j, 0 <= j -> bitof m j = if decide (j = i /\ filter (fun x => x <> p) (qv r b (Z.to_nat i)) = []) then false else bitof (bitmap (get_array b r)) j) ->
  arrays_ok (no_loc loc p) (set_array b (mk_array (nr_active (get_array b r) ⊖ 1) m (filter (fun x => x <> p) <$> queue (get_array b r))) r) /\
  queued r ≡ₚ p :: concat (filter (fun x => x <> p) <$> queue (get_array b r)) ++ concat (queue (get_array (negb b) r)).
Proof.
  intros A Hl Hm Hbit. pose proof A as (H1 & N & Hlen & H4 & H5). destruct (H1 b) as (L1 & L2 & L3 & L4 & L5). destruct (H5 _ _ _ Hl) as [I0 I1].
  assert (p ∈ concat (queue (get_array b r))) as Hp. { apply elem_concat_default. exists (Z.to_nat i). apply (H4 b). by rewrite Z2Nat.id. }
  rewrite (queued_split b) in N. rewrite (queued_split b) in Hlen. pose proof N as (N1 & _ & _)%NoDup_app. pose proof (filter_present p _ N1 Hp) as P1. rewrite <- filter_concat in P1.
  assert (queued r ≡ₚ p :: concat (filter (fun x => x <> p) <$> queue (get_array b r)) ++ concat (queue (get_array (negb b) r))) as PQ by (rewrite (queued_split b), P1 at 1; done).
  split; [| done]. apply (arrays_ok_set loc); [done | | | | | |].
  - split_and!; cbn [queue bitmap nr_active].
    + by rewrite length_fmap.
    + done.
    + rewrite Hbit by lia. rewrite decide_False by lia. done.
    + intros j Hj. rewrite Hbit by lia. rewrite default_fmap_filter. fold (qv r b j). rewrite L4 by done. fold (qv r b j). destruct (decide (Z.of_nat j = i)) as [Ej | Ej].
      * assert (Z.to_nat i = j) as -> by lia. destruct (decide (Z.of_nat j = i /\ filter (fun x => x <> p) (qv r b j) = [])) as [[_ He] | Hd]; [by rewrite He |].
        assert (filter (fun x => x <> p) (qv r b j) <> []) as Hne by tauto. rewrite !bool_decide_false; [done | done |]. intros He. by rewrite He in Hne.
      * rewrite decide_False by tauto. rewrite filter_absent; [done |]. intros H. apply H4 in H. rewrite Hl in H. naive_solver.
    + rewrite L5. apply Permutation_length in P1. cbn [length] in P1. rewrite length_app in Hlen. rewrite u32_id; [lia |]. unfold is_u32. lia.
  - intros j q. cbn [queue]. rewrite default_fmap_filter, list_elem_of_filter. unfold no_loc. destruct (decide (q = p)) as [-> | Hne]; [naive_solver |]. rewrite <- (H4 b j q). unfold qv. naive_solver.
  - intros q j. unfold no_loc. destruct (decide (q = p)) as [-> |]; [| done]. rewrite Hl. split; [done | intros [= Hb]; by destruct b].
  - intros q b' j. unfold no_loc. destruct (decide (q = p)); [done | apply H5].
  - cbn [queue]. rewrite P1 in N. cbn [app] in N. by apply NoDup_cons in N as [_ N].
  - cbn [queue]. rewrite length_app in *. apply Permutation_length in P1. cbn [length] in P1. lia.
Qed.

(** Only the arrays of the run queue change. *)
Definition same_rest (r r' : runqueue) : Prop := exists a0 a1, r' = with_arrays a0 a1 r.

Lemma same_rest_set b a r : same_rest r (set_array b a r).
Proof. exists (if b then array0 r else a), (if b then a else array1 r). by destruct b, r. Qed.

Lemma same_rest_trans r1 r2 r3 : same_rest r1 r2 -> same_rest r2 r3 -> same_rest r1 r3.
Proof. intros (a & a' & ->) (c & c' & ->). by exists c, c'. Qed.

Lemma dequeue_spec loc s p t b : arrays_ok loc (rq s) -> tasks s !! p = Some t -> loc p = Some (b, prio t) ->
  exists r, dequeue_task p b s = Some (mk_sched (tasks s) r) /\ same_rest (rq s) r /\ arrays_ok (no_loc loc p) r /\ queued (rq s) ≡ₚ p :: queued r /\
    forall b' i, qv r b' i = filter (fun x => x <> p) (qv (rq s) b' i).
Proof.
  intros A Ht Hl. pose proof A as (H1 & N & Hlen & H4 & H5). destruct (H1 b) as (L1 & L2 & L3 & L4 & L5). destruct (H5 _ _ _ Hl) as [I0 I1]. unfold dequeue_task, get_task. rewrite Ht. cbn [mbind option_bind].
  set (s1 := upd_array b (fun a => set_nr_active (nr_active a ⊖ 1) a) s).
  assert (list_del p s1 = Some (upd_array b (del_queue p) s1)) as ->.
  { destruct (queued_linked loc s p b _ A Hl) as [Q1 Q2]. apply list_del_gen; [unfold linked, s1 in *; by destruct b |]. unfold s1. rewrite get_array_upd, decide_False by (by destruct b). done. }
  cbn [mbind option_bind]. assert (get_array b (rq (upd_array b (del_queue p) s1)) = mk_array (nr_active (get_array b (rq s)) ⊖ 1) (bitmap (get_array b (rq s))) (filter (fun x => x <> p) <$> queue (get_array b (rq s)))) as Hg.
  { unfold s1. rewrite !get_array_upd, !decide_True by done. done. }
  rewrite Hg. cbn [queue bitmap]. destruct (lookup_lt_is_Some_2 (queue (get_array b (rq s))) (Z.to_nat (prio t)) ltac:(lia)) as [q Hq]. rewrite list_lookup_fmap, Hq. cbn [fmap option_fmap option_map mbind option_bind].
  assert (qv (rq s) b (Z.to_nat (prio t)) = q) as Hqv by (unfold qv; by rewrite Hq).
  assert (forall m, bitmap_ok m -> (forall j, 0 <= j -> bitof m j = if decide (j = prio t /\ filter (fun x => x <> p) q = []) then false else bitof (bitmap (get_array b (rq s))) j) ->
    let r := set_array b (mk_array (nr_active (get_array b (rq s)) ⊖ 1) m (filter (fun x => x <> p) <$> queue (get_array b (rq s)))) (rq s) in
    same_rest (rq s) r /\ arrays_ok (no_loc loc p) r /\ queued (rq s) ≡ₚ p :: queued r /\ forall b' i, qv r b' i = filter (fun x => x <> p) (qv (rq s) b' i)) as Hend.
  { intros m Hm Hbit r. rewrite <- Hqv in Hbit. destruct (del_array_ok loc (rq s) p b (prio t) m A Hl Hm Hbit) as [A' P]. split; [apply same_rest_set |]. split; [done |]. split; [by rewrite P; unfold r; rewrite queued_set |].
    intros b' i. unfold r. rewrite qv_set. destruct (decide (b' = b)) as [-> | Hb]; [by cbn [queue]; rewrite default_fmap_filter |]. rewrite filter_absent; [done |]. intros H. apply H4 in H. rewrite Hl in H. congruence. }
  case_bool_decide as He.
  - destruct (clear_bit_spec (bitmap (get_array b (rq s))) (prio t) L2 ltac:(lia)) as (m & -> & Hm & Hbit). cbn [mbind option_bind].
    eexists. split; [| apply (Hend m Hm)]; [unfold upd_array, upd_rq; cbn [tasks rq]; f_equal; f_equal; unfold s1; destruct s as [ts []], b; done |].
    intros j Hj. rewrite Hbit by done. destruct (decide (j = prio t)); [by rewrite decide_True | by rewrite decide_False by tauto].
  - eexists. split; [| apply (Hend (bitmap (get_array b (rq s))) L2)]; [unfold upd_array, upd_rq; cbn [tasks rq]; f_equal; f_equal; unfold s1; destruct s as [ts []], b; done |].
    intros j Hj. by rewrite decide_False by tauto.
Qed.

(** The array with one more task, at priority [i]. *)
Lemma add_array_ok loc r p b i q q' m : arrays_ok loc r -> loc p = None -> 0 <= i < 140 -> queue (get_array b r) !! Z.to_nat i = Some q -> q' ≡ₚ p :: q ->
  Z.of_nat (length (queued r)) + 1 < 4294967296 -> bitmap_ok m -> (forall j, 0 <= j -> bitof m j = if decide (j = i) then true else bitof (bitmap (get_array b r)) j) ->
  let r' := set_array b (mk_array (nr_active (get_array b r) ⊕ 1) m (<[Z.to_nat i := q']> (queue (get_array b r)))) r in
  arrays_ok (set_loc loc p b i) r' /\ queued r' ≡ₚ p :: queued r.
Proof.
  intros A Hl Hi Hq P Hlt Hm Hbit r'. pose proof A as (H1 & N & Hlen & H4 & H5). destruct (H1 b) as (L1 & L2 & L3 & L4 & L5). pose proof (concat_insert _ _ _ _ _ Hq P) as PC.
  assert (queued r' ≡ₚ p :: queued r) as PQ by (unfold r'; rewrite queued_set, (queued_split b r); cbn [queue]; by rewrite PC). split; [| done].
  assert (p ∉ queued r) as Hnew by (rewrite (queued_loc loc) by done; rewrite Hl; by intros [? ?]).
  assert (Hlen' : (Z.to_nat i < length (queue (get_array b r)))%nat) by lia. unfold r'. apply (arrays_ok_set loc); [done | | | | | |].
  - split_and!; cbn [queue bitmap nr_active].
    + by rewrite length_insert.
    + done.
    + rewrite Hbit by lia. rewrite decide_False by lia. done.
    + intros j Hj. rewrite Hbit by lia. destruct (decide (Z.of_nat j = i)) as [Ej | Ej].
      * assert (Z.to_nat i = j) as <- by lia. rewrite list_lookup_insert_eq by done. cbn. rewrite bool_decide_false; [done |]. intros ->. by apply Permutation_nil_cons in P.
      * rewrite list_lookup_insert_ne by lia. by apply L4.
    + rewrite L5, PC. cbn [length]. rewrite (queued_split b), length_app in Hlt. rewrite u32_id; [lia |]. unfold is_u32. lia.
  - intros j x. cbn [queue]. unfold set_loc. destruct (decide (j = Z.to_nat i)) as [-> | Hj].
    + rewrite list_lookup_insert_eq by done. cbn [default from_option id]. rewrite P, elem_of_cons. pose proof (H4 b (Z.to_nat i) x) as Hx. unfold qv in Hx. rewrite Hq in Hx. cbn in Hx. rewrite Hx, Z2Nat.id by lia.
      destruct (decide (x = p)) as [-> |]; naive_solver.
    + rewrite list_lookup_insert_ne by done. fold (qv r b j). rewrite H4. destruct (decide (x = p)) as [-> |]; [| done]. rewrite Hl. split; [done | intros [= ?]; lia].
  - intros x j. unfold set_loc. destruct (decide (x = p)) as [-> |]; [| done]. rewrite Hl. split; [intros [= Hb _]; by destruct b | done].
  - intros x b' j. unfold set_loc. destruct (decide (x = p)); [intros [= _ <-]; lia | apply H5].
  - cbn [queue]. rewrite PC. cbn [app]. rewrite (queued_split b) in N, Hnew. by apply NoDup_cons.
  - cbn [queue]. rewrite PC. cbn [app length]. rewrite (queued_split b) in Hlt. lia.
Qed.

Lemma enqueue_spec loc s p t b : arrays_ok loc (rq s) -> tasks s !! p = Some t -> loc p = None -> 0 <= prio t < 140 -> Z.of_nat (length (queued (rq s))) + 1 < 4294967296 ->
  exists r, enqueue_task p b s = Some (mk_sched (<[p := set_array_of (Some b) t]> (tasks s)) r) /\ same_rest (rq s) r /\ arrays_ok (set_loc loc p b (prio t)) r /\ queued r ≡ₚ p :: queued (rq s) /\
    forall b' i, qv r b' i = if decide (b' = b /\ i = Z.to_nat (prio t)) then qv (rq s) b' i ++ [p] else qv (rq s) b' i.
Proof.
  intros A Ht Hl Hp Hlt. pose proof A as (H1 & N & Hlen & H4 & H5). destruct (H1 b) as (L1 & L2 & L3 & L4 & L5). unfold enqueue_task, get_task. rewrite Ht. cbn [mbind option_bind]. unfold list_add_tail.
  rewrite linked_queued, bool_decide_false by (rewrite (queued_loc loc) by done; rewrite Hl; by intros [? ?]). destruct (lookup_lt_is_Some_2 (queue (get_array b (rq s))) (Z.to_nat (prio t)) ltac:(lia)) as [q Hq].
  rewrite Hq. cbn [mbind option_bind]. rewrite get_array_upd, decide_True by done. cbn [set_queue bitmap]. destruct (set_bit_spec (bitmap (get_array b (rq s))) (prio t) L2 ltac:(lia)) as (m & -> & Hm & Hbit).
  cbn [mbind option_bind]. destruct (add_array_ok loc (rq s) p b (prio t) q (q ++ [p]) m A Hl Hp Hq ltac:(symmetry; apply Permutation_cons_append) Hlt Hm Hbit) as [A' P'].
  exists (set_array b (mk_array (nr_active (get_array b (rq s)) ⊕ 1) m (<[Z.to_nat (prio t) := q ++ [p]]> (queue (get_array b (rq s))))) (rq s)). split; [| split; [apply same_rest_set |]; split; [done |]; split; [done |]].
  - unfold upd_task, upd_array, upd_rq. cbn [tasks rq]. rewrite Ht. cbn [mbind option_bind]. f_equal. f_equal. destruct (rq s), b; done.
  - intros b' i. rewrite qv_set. destruct (decide (b' = b)) as [-> | Hb]; [| by rewrite decide_False by tauto]. cbn [queue]. unfold qv. destruct (decide (i = Z.to_nat (prio t))) as [-> | Hne].
    + rewrite decide_True, list_lookup_insert_eq, Hq by (done || lia). done.
    + rewrite decide_False, list_lookup_insert_ne by naive_solver. done.
Qed.

(** [__activate_task_after]: the task goes in front of another one on its queue. *)
Lemma insert_before_perm p x q : x ∈ q -> insert_before p x q ≡ₚ p :: q.
Proof.
  induction q as [| y q IH]; [by intros ?%elem_of_nil |]. cbn. destruct (Z.eqb_spec y x) as [-> | Hne]; [done |]. intros [-> | H]%elem_of_cons; [done |]. rewrite IH by done. by rewrite Permutation_swap.
Qed.

Lemma insert_before_absent p x q : x ∉ q -> insert_before p x q = q.
Proof. induction q as [| y q IH]; [done |]. intros [Hy Hq]%not_elem_of_cons. cbn. rewrite (proj2 (Z.eqb_neq _ _)) by congruence. by rewrite IH. Qed.

Lemma requeue_spec loc s p t b : arrays_ok loc (rq s) -> tasks s !! p = Some t -> loc p = Some (b, prio t) ->
  exists r, requeue_task p b s = Some (mk_sched (tasks s) r) /\ same_rest (rq s) r /\ arrays_ok loc r /\
    forall b' i, qv r b' i = filter (fun x => x <> p) (qv (rq s) b' i) ++ if decide (b' = b /\ i = Z.to_nat (prio t)) then [p] else [].
Proof.
  intros A Ht Hl. pose proof A as (H1 & N & Hlen & H4 & H5). destruct (H1 b) as (L1 & L2 & L3 & L4 & L5). destruct (H5 _ _ _ Hl) as [I0 I1]. destruct (queued_linked loc s p b _ A Hl) as [Q1 Q2].
  set (a := get_array b (rq s)) in *. destruct (lookup_lt_is_Some_2 (queue a) (Z.to_nat (prio t)) ltac:(lia)) as [q Hq]. assert (qv (rq s) b (Z.to_nat (prio t)) = q) as Hqv by (unfold qv; fold a; by rewrite Hq).
  assert (p ∈ q) as Hpq by (rewrite <- Hqv; apply H4; by rewrite Z2Nat.id).
  assert (exists m, bitmap_ok m /\ forall j, 0 <= j -> bitof m j = if decide (j = prio t /\ filter (fun x => x <> p) q = []) then false else bitof (bitmap a) j) as (m & Hm & Hbit).
  { destruct (decide (filter (fun x => x <> p) q = [])) as [He | He].
    - destruct (clear_bit_spec (bitmap a) (prio t) L2 ltac:(lia)) as (m & _ & Hm & Hbit). exists m. split; [done |]. intros j Hj. rewrite Hbit by done. destruct (decide (j = prio t)); [by rewrite decide_True | by rewrite decide_False by tauto].
    - exists (bitmap a). split; [done |]. intros j Hj. by rewrite decide_False by tauto. }
  rewrite <- Hqv in Hbit. destruct (del_array_ok loc (rq s) p b (prio t) m A Hl Hm Hbit) as [A1 P1]. fold a in A1, P1. rewrite Hqv in Hbit. set (r1 := set_array b _ _) in A1.
  assert (get_array b r1 = mk_array (nr_active a ⊖ 1) m (filter (fun x => x <> p) <$> queue a)) as G1 by (unfold r1; rewrite get_set_array, decide_True by done; done).
  assert (queue (get_array b r1) !! Z.to_nat (prio t) = Some (filter (fun x => x <> p) q)) as Hq1 by (rewrite G1; cbn [queue]; by rewrite list_lookup_fmap, Hq).
  assert (queued (rq s) ≡ₚ p :: queued r1) as P2 by (rewrite P1; unfold r1; by rewrite queued_set). assert (Z.of_nat (length (queued r1)) + 1 < 4294967296) as Hlt1 by (apply Permutation_length in P2; cbn in P2; lia).
  destruct (add_array_ok (no_loc loc p) r1 p b (prio t) _ (filter (fun x => x <> p) q ++ [p]) (bitmap a) A1 ltac:(unfold no_loc; by rewrite decide_True) ltac:(done) Hq1 ltac:(symmetry; apply Permutation_cons_append) Hlt1 L2) as [A2 _].
  { intros j Hj. rewrite G1. cbn [bitmap]. rewrite Hbit by done. destruct (decide (j = prio t)) as [-> |]; [| by rewrite decide_False by tauto]. rewrite <- (Z2Nat.id (prio t)), L4, Hq by lia. cbn. rewrite bool_decide_false; [done |]. intros ->. by apply elem_of_nil in Hpq. }
  rewrite G1 in A2. cbn [queue nr_active bitmap] in A2.
  assert (u32 (nr_active a ⊖ 1 + 1) = nr_active a) as Hn. { rewrite L5. apply Permutation_length in P1. cbn [length] in P1. rewrite (queued_split b) in P1, Hlen. fold a in P1, Hlen. rewrite !length_app in P1. rewrite length_app in Hlen.
    rewrite u32_id by (rewrite u32_id; unfold is_u32; lia). rewrite u32_id; [lia | unfold is_u32; lia]. }
  rewrite Hn in A2. unfold r1 in A2. set (a2 := mk_array _ _ _) in A2.
  assert (forall a1 a2 r, set_array b a2 (set_array b a1 r) = set_array b a2 r) as Hss by (intros ? ? ?; by destruct b). rewrite Hss in A2. exists (set_array b a2 (rq s)). split; [| split; [apply same_rest_set |]; split].
  - unfold requeue_task, get_task. rewrite Ht. cbn [mbind option_bind]. rewrite (list_del_gen s p b Q1 Q2). cbn [mbind option_bind]. unfold list_add_tail.
    assert (linked p (upd_array b (del_queue p) s) = false) as ->. { rewrite linked_queued, bool_decide_false; [done |]. unfold upd_array, upd_rq. cbn [rq]. rewrite queued_set. fold a. cbn [del_queue set_queue queue].
      rewrite filter_concat, elem_of_app, list_elem_of_filter. fold a in Q2. tauto. }
    rewrite get_array_upd, decide_True by done. fold a. cbn [del_queue set_queue queue]. rewrite list_lookup_fmap, Hq. cbn [fmap option_fmap option_map mbind option_bind]. unfold upd_array, upd_rq. cbn [rq tasks]. f_equal. f_equal.
    rewrite Hss. f_equal. rewrite get_set_array, decide_True by done. done.
  - eapply arrays_ok_ext; [| exact A2]. intros x. unfold set_loc, no_loc. destruct (decide (x = p)) as [-> |]; done.
  - intros b' i. rewrite qv_set. destruct (decide (b' = b)) as [-> | Hb].
    + unfold a2. cbn [queue]. destruct (decide (i = Z.to_nat (prio t))) as [-> | Hne].
      * rewrite decide_True, list_lookup_insert_eq by (rewrite ?length_fmap; done || lia). by rewrite Hqv.
      * rewrite decide_False, app_nil_r, list_lookup_insert_ne, default_fmap_filter by naive_solver. done.
    + rewrite decide_False, app_nil_r by tauto. rewrite filter_absent; [done |]. intros H. apply H4 in H. rewrite Hl in H. congruence.
Qed.

(** * The invariant *)

Definition loc_of (ts : gmap Z task_struct) (p : Z) : option (bool * Z) := t ← ts !! p; b ← array t; Some (b, prio t).

Definition task_ok (t : task_struct) : Prop :=
  100 <= static_prio t <= 139 /\ 0 <= sleep_avg t <= NS_MAX_SLEEP_AVG /\ 1 <= time_slice t <= 100 /\ 0 <= prio t <= 140 /\ 0 <= policy t <= 2.

(** The fields of the tasks and of the run queue apart from the arrays. *)
Record rest_ok (s : sched) : Prop := {
  ro_tasks : forall p t, tasks s !! p = Some t -> task_ok t;
  ro_expired : expired (rq s) = negb (active (rq s));
  ro_rt : forall p t b, tasks s !! p = Some t -> array t = Some b -> rt_task t = true -> b = active (rq s);
  ro_idle : exists t, tasks s !! idle (rq s) = Some t /\ array t = None /\ state t = TASK_RUNNING /\ dead t = false /\ prio t = MAX_PRIO;
  ro_curr : is_Some (tasks s !! curr (rq s));
  ro_size : Z.of_nat (size (tasks s)) < 4294967296
}.

Definition core_ok (s : sched) : Prop :=
  arrays_ok (loc_of (tasks s)) (rq s) /\ nr_running (rq s) = Z.of_nat (length (queued (rq s))) /\ rest_ok s.

(** The current task is on the run queue, but for the idle task, which never is. *)
Definition curr_ok (s : sched) : Prop := forall t, tasks s !! curr (rq s) = Some t -> curr (rq s) = idle (rq s) \/ array t <> None.

Definition sched_ok (s : sched) : Prop := core_ok s /\ curr_ok s.

Lemma loc_of_some ts p t b : ts !! p = Some t -> array t = Some b -> loc_of ts p = Some (b, prio t).
Proof. intros H1 H2. unfold loc_of. rewrite H1. cbn. by rewrite H2. Qed.

Lemma loc_of_none ts p t : ts !! p = Some t -> array t = None -> loc_of ts p = None.
Proof. intros H1 H2. unfold loc_of. rewrite H1. cbn. by rewrite H2. Qed.

Lemma loc_of_insert ts p t q : loc_of (<[p := t]> ts) q = if decide (q = p) then b ← array t; Some (b, prio t) else loc_of ts q.
Proof. unfold loc_of. destruct (decide (q = p)) as [-> |]; [by rewrite lookup_insert_eq | by rewrite lookup_insert_ne by congruence]. Qed.

Lemma loc_of_same ts p t t' : ts !! p = Some t -> array t' = array t -> prio t' = prio t -> forall q, loc_of (<[p := t']> ts) q = loc_of ts q.
Proof. intros Ht Ha Hp q. rewrite loc_of_insert. destruct (decide (q = p)) as [-> |]; [| done]. unfold loc_of. rewrite Ht. cbn. by rewrite Ha, Hp. Qed.

Lemma no_loc_insert ts p t q : no_loc (loc_of (<[p := t]> ts)) p q = no_loc (loc_of ts) p q.
Proof. unfold no_loc. destruct (decide (q = p)); [done |]. rewrite loc_of_insert, decide_False by done. done. Qed.

Lemma queued_size ts r p : arrays_ok (no_loc (loc_of ts) p) r -> is_Some (ts !! p) -> (length (queued r) + 1 <= size ts)%nat.
Proof.
  intros A Hp. destruct A as (HA & N & HA2 & HA3 & HA4). assert (arrays_ok (no_loc (loc_of ts) p) r) as A by done. assert (NoDup (p :: queued r)) as N'.
  { apply NoDup_cons. split; [| done]. rewrite queued_loc by done. unfold no_loc. rewrite decide_True by done. by intros [? ?]. }
  replace (length (queued r) + 1)%nat with (length (p :: queued r)) by (cbn; lia). rewrite <- size_dom, <- (size_list_to_set (C := gset Z) _ N'). apply subseteq_size. intros q Hq.
  apply elem_of_list_to_set in Hq. apply elem_of_dom. apply elem_of_cons in Hq as [-> | Hq]; [done |]. apply (queued_loc _ _ _ A) in Hq. unfold no_loc in Hq. destruct (decide (q = p)) as [-> |]; [done |].
  unfold loc_of in Hq. destruct (ts !! q); [by eexists | by destruct Hq].
Qed.

Lemma upd_task_some p f s t : tasks s !! p = Some t -> upd_task p f s = Some (mk_sched (<[p := f t]> (tasks s)) (rq s)).
Proof. intros H. unfold upd_task. by rewrite H. Qed.

Lemma get_task_insert p t ts r : get_task p (mk_sched (<[p := t]> ts) r) = Some t.
Proof. apply lookup_insert_eq. Qed.

Lemma upd_arrays_same ts p t t' r : ts !! p = Some t -> array t' = array t -> prio t' = prio t -> arrays_ok (loc_of ts) r -> arrays_ok (loc_of (<[p := t']> ts)) r.
Proof. intros H1 H2 H3. apply arrays_ok_ext. intros q. symmetry. by eapply loc_of_same. Qed.

(** A queued task is taken out, and put in again where it now belongs. *)
Lemma take_spec s p t b : arrays_ok (loc_of (tasks s)) (rq s) -> tasks s !! p = Some t -> array t = Some b ->
  exists r, dequeue_task p b s = Some (mk_sched (tasks s) r) /\ same_rest (rq s) r /\ arrays_ok (no_loc (loc_of (tasks s)) p) r /\ queued (rq s) ≡ₚ p :: queued r /\
    forall b' i, qv r b' i = filter (fun x => x <> p) (qv (rq s) b' i).
Proof. intros A Ht Ha. apply (dequeue_spec (loc_of (tasks s)) s p t b A Ht). by apply loc_of_some. Qed.

Lemma requeue_put_spec s p t b : arrays_ok (no_loc (loc_of (tasks s)) p) (rq s) -> tasks s !! p = Some t -> 0 <= prio t < 140 -> Z.of_nat (size (tasks s)) < 4294967296 ->
  exists r, enqueue_task p b s = Some (mk_sched (<[p := set_array_of (Some b) t]> (tasks s)) r) /\ same_rest (rq s) r /\
    arrays_ok (loc_of (<[p := set_array_of (Some b) t]> (tasks s))) r /\ queued r ≡ₚ p :: queued (rq s) /\
    forall b' i, qv r b' i = if decide (b' = b /\ i = Z.to_nat (prio t)) then qv (rq s) b' i ++ [p] else qv (rq s) b' i.
Proof.
  intros A Ht Hp Hs. pose proof (queued_size _ _ _ A ltac:(by eexists)) as Hq. destruct (enqueue_spec _ s p t b A Ht) as (r & E & R & A' & P & Q); [unfold no_loc; by rewrite decide_True | done | lia |].
  exists r. split; [done |]. split; [done |]. split; [| done]. eapply arrays_ok_ext; [| exact A']. intros q. rewrite loc_of_insert. unfold set_loc, no_loc. destruct (decide (q = p)); [done | done].
Qed.

(** ** Changes to one task *)

(** What the rest of the run queue is about. *)
Definition rq_same (r r' : runqueue) : Prop := active r' = active r /\ expired r' = expired r /\ idle r' = idle r /\ curr r' = curr r.

Lemma same_rest_rq r r' : same_rest r r' -> rq_same r r' /\ nr_running r' = nr_running r /\ nr_uninterruptible r' = nr_uninterruptible r /\ expired_timestamp r' = expired_timestamp r /\ best_expired_prio r' = best_expired_prio r.
Proof. intros (a0 & a1 & ->). done. Qed.

Lemma rest_upd s p t t' r : rest_ok s -> tasks s !! p = Some t -> rq_same (rq s) r -> task_ok t' ->
  (p = idle (rq s) -> array t' = None /\ state t' = TASK_RUNNING /\ dead t' = false /\ prio t' = MAX_PRIO) -> (forall b, array t' = Some b -> rt_task t' = true -> b = active (rq s)) ->
  rest_ok (mk_sched (<[p := t']> (tasks s)) r).
Proof.
  intros [R1 R2 R3 R4 R5 R6] Ht (Ra & Re & Ri & Rc) Hok Hidle Hrt. split; cbn [tasks rq]; rewrite ?Ra, ?Re, ?Ri, ?Rc.
  - intros q u. rewrite lookup_insert. case_decide; [by intros [= <-] | apply R1].
  - done.
  - intros q u b. rewrite lookup_insert. case_decide; [intros [= <-]; apply Hrt | apply R3].
  - destruct R4 as (u & Hu & H). rewrite lookup_insert. case_decide as Hd; [exists t'; split; [done | by apply Hidle] | by exists u].
  - rewrite lookup_insert. case_decide; [by eexists | done].
  - by rewrite map_size_insert_Some by done.
Qed.

Lemma curr_upd s p t' r : curr_ok s -> rq_same (rq s) r -> (p = curr (rq s) -> p <> idle (rq s) -> array t' <> None) -> curr_ok (mk_sched (<[p := t']> (tasks s)) r).
Proof.
  intros C (Ra & Re & Ri & Rc) H t. cbn [tasks rq]. rewrite Ri, Rc, lookup_insert. case_decide as Hd; [| apply C]. intros [= <-]. subst p. destruct (decide (curr (rq s) = idle (rq s))); [by left | right; by apply H].
Qed.

(** Changes that concern neither the place of a task nor its state. *)
Lemma soft_core s p t t' : core_ok s -> tasks s !! p = Some t -> array t' = array t -> prio t' = prio t -> state t' = state t -> dead t' = dead t -> task_ok t' -> core_ok (mk_sched (<[p := t']> (tasks s)) (rq s)).
Proof.
  intros (A & N & R) Ht Ha Hp Hs Hd Hok. split; [by eapply upd_arrays_same |]. split; [done |]. eapply rest_upd; [done | done | done | done | |].
  - intros ->. destruct (ro_idle _ R) as (u & Hu & H). rewrite Hu in Ht. simplify_eq. by rewrite Ha, Hp, Hs, Hd.
  - intros b. unfold rt_task. rewrite Ha, Hp. by eapply ro_rt.
Qed.

Lemma soft_upd s p t t' : sched_ok s -> tasks s !! p = Some t -> array t' = array t -> prio t' = prio t -> state t' = state t -> dead t' = dead t -> task_ok t' -> sched_ok (mk_sched (<[p := t']> (tasks s)) (rq s)).
Proof.
  intros [K C] Ht Ha Hp Hs Hd Hok. split; [by eapply soft_core |]. apply curr_upd; [done | done |]. intros -> Hi. rewrite Ha. destruct (C t Ht); done.
Qed.

(** Changes to the other fields of the run queue. *)
Lemma rq_core s r : core_ok s -> rq_same (rq s) r -> nr_running r = nr_running (rq s) -> array0 r = array0 (rq s) -> array1 r = array1 (rq s) -> core_ok (mk_sched (tasks s) r).
Proof.
  intros (A & N & R) H Hn H0 H1. unfold core_ok. cbn [tasks rq]. assert (queued r = queued (rq s)) as HQ by (unfold queued; by rewrite H0, H1). rewrite HQ, Hn. split.
  - destruct A as (A1 & A2 & A3 & A4 & A5). assert (forall b, get_array b r = get_array b (rq s)) as HG by (intros []; cbn; done). split_and!; [intros b; by rewrite HG | by rewrite HQ | by rewrite HQ | | done].
    intros b i p. unfold qv. rewrite HG. apply A4.
  - split; [done |]. destruct R as [R1 R2 R3 R4 R5 R6], H as (Ha & He & Hi & Hc). split; cbn [tasks rq]; rewrite ?Ha, ?He, ?Hi, ?Hc; done.
Qed.

Lemma rq_upd s r : sched_ok s -> rq_same (rq s) r -> nr_running r = nr_running (rq s) -> array0 r = array0 (rq s) -> array1 r = array1 (rq s) -> sched_ok (mk_sched (tasks s) r).
Proof. intros [K C] H Hn H0 H1. split; [by apply rq_core |]. destruct H as (Ha & He & Hi & Hc). intros t. cbn. rewrite Hc, Hi. apply C. Qed.

Lemma same_rest_nr r r' : same_rest r r' -> nr_running r' = nr_running r.
Proof. by intros (a0 & a1 & ->). Qed.

Lemma same_rest_same r r' : same_rest r r' -> rq_same r r'.
Proof. by intros (a0 & a1 & ->). Qed.

Lemma rq_same_trans r1 r2 r3 : rq_same r1 r2 -> rq_same r2 r3 -> rq_same r1 r3.
Proof. unfold rq_same. intuition congruence. Qed.

(** ** Priorities and slices *)

Lemma bonus_eq t : CURRENT_BONUS t = sleep_avg t / 10000000 * 10 / 100.
Proof. done. Qed.

Lemma ns_max : NS_MAX_SLEEP_AVG = 1000000000.
Proof. done. Qed.

Lemma bonus_range t : task_ok t -> 0 <= CURRENT_BONUS t <= 10.
Proof.
  intros (_ & [H0 H1] & _). rewrite ns_max in H1. rewrite bonus_eq. assert (0 <= sleep_avg t / 10000000 <= 100) by (split; [apply Z.div_pos | apply Z.div_le_upper_bound]; lia).
  split; [apply Z.div_pos | apply Z.div_le_upper_bound]; lia.
Qed.

Lemma effective_range t : task_ok t -> 100 <= __effective_prio t <= 139.
Proof. intros H. unfold __effective_prio, MAX_RT_PRIO, MAX_PRIO. destruct (Z.ltb_spec (static_prio t - s32 (CURRENT_BONUS t ⊖ MAX_BONUS / 2)) 100); repeat case_match; lia. Qed.

Lemma timeslice_range t : task_ok t -> 1 <= task_timeslice t <= 80.
Proof.
  intros (Hs & _). unfold task_timeslice, SCALE_PRIO, MIN_TIMESLICE, DEF_TIMESLICE, MAX_PRIO. change (100 * HZ / 1000) with 10. change (Z.max (5 * HZ / 1000) 1) with 1. change (NICE_TO_PRIO 0) with 120.
  destruct (Z.ltb_spec (static_prio t) 120); rewrite Z.quot_div_nonneg by lia.
  - assert (10 * 4 * (140 - static_prio t) / 20 <= 80) by (apply Z.div_le_upper_bound; lia). lia.
  - assert (10 * (140 - static_prio t) / 20 <= 10) by (apply Z.div_le_upper_bound; lia). lia.
Qed.

(** A record update keeps a task well formed. *)
Ltac task_ok := unfold task_ok in *; cbn [static_prio sleep_avg time_slice prio policy set_state set_prio set_static_prio set_policy set_rt_priority set_array_of set_sleep_avg set_timestamp set_time_slice
  set_first_time_slice set_activated set_need_resched] in *; try tauto; try (intuition lia).

(** Average sleep and priority change, nothing else. *)
Definition same_but_prio (t t' : task_struct) : Prop :=
  array t' = array t /\ state t' = state t /\ dead t' = dead t /\ time_slice t' = time_slice t /\ static_prio t' = static_prio t /\ policy t' = policy t /\ mm t' = mm t /\
  need_resched t' = need_resched t /\ activated t' = activated t /\ timestamp t' = timestamp t.

Lemma recalc_sleep_spec t now : task_ok t -> task_ok (recalc_sleep t now) /\ prio (recalc_sleep t now) = prio t /\ same_but_prio t (recalc_sleep t now).
Proof.
  intros H. unfold recalc_sleep. set (st := if _ >? NS_MAX_SLEEP_AVG then _ else _). destruct (st >? 0); [| done]. destruct (mm t && negb (activated t =? -1) && (st >? INTERACTIVE_SLEEP t)).
  { split; [| done]. task_ok. rewrite ns_max. change (JIFFIES_TO_NS (MAX_SLEEP_AVG - DEF_TIMESLICE)) with 900000000. intuition lia. }
  set (n := if MAX_BONUS ⊖ CURRENT_BONUS t =? 0 then _ else _).
  assert (forall u z, same_but_prio t u -> prio u = prio t -> let u' := set_sleep_avg (sleep_avg u ⊕ z) u in let w := if sleep_avg u' >? NS_MAX_SLEEP_AVG then set_sleep_avg NS_MAX_SLEEP_AVG u' else u' in
    task_ok w /\ prio w = prio t /\ same_but_prio t w) as Hclamp.
  { intros u z (S1 & S2 & S3 & S4 & S5 & S6 & S7) Hp u' w. assert (prio w = prio t /\ same_but_prio t w) as [Hw1 Hw2] by (unfold w, u'; case_match; done). split; [| done].
    assert (0 <= sleep_avg w <= NS_MAX_SLEEP_AVG) as Hw3. { unfold w, u'. cbn [sleep_avg set_sleep_avg]. pose proof (u32_range (sleep_avg u + z)) as [Hr _]. rewrite ns_max in *. destruct (Z.gtb_spec (sleep_avg u ⊕ z) 1000000000); cbn; lia. }
    destruct Hw2 as (_ & _ & _ & W4 & W5 & W6 & _). unfold task_ok in *. rewrite Hw1, W4, W5, W6. tauto. }
  destruct ((activated t =? -1) && mm t); [| by apply Hclamp]. destruct (sleep_avg t >=? INTERACTIVE_SLEEP t); [by apply Hclamp |].
  destruct ((sleep_avg t ⊕ u32 (st * n)) >=? INTERACTIVE_SLEEP t); by apply Hclamp.
Qed.

Lemma recalc_spec t now : task_ok t -> task_ok (recalc_task_prio t now) /\ same_but_prio t (recalc_task_prio t now) /\
  (if rt_task t then prio (recalc_task_prio t now) = prio t else 100 <= prio (recalc_task_prio t now) <= 139).
Proof.
  intros H. destruct (recalc_sleep_spec t now H) as (H1 & H2 & H3). unfold recalc_task_prio. pose proof (effective_range _ H1) as He.
  assert (rt_task (recalc_sleep t now) = rt_task t) as Hr by (unfold rt_task; by rewrite H2). unfold effective_prio. rewrite Hr. destruct (rt_task t); cbn [prio set_prio].
  - split; [| split; [| done]]; [task_ok | done].
  - split; [| split; [| done]]; [task_ok | done].
Qed.

(** ** The tick *)

(** Task [p] leaves its queue and goes to the end of another one. *)
Definition moved (r r' : runqueue) (p : Z) (b : bool) (i : Z) : Prop :=
  forall b' k, qv r' b' k = filter (fun x => x <> p) (qv r b' k) ++ if decide (b' = b /\ k = Z.to_nat i) then [p] else [].

Lemma move_spec ts r p t0 t1 b b' (f : runqueue -> runqueue) : arrays_ok (loc_of ts) r -> ts !! p = Some t0 -> array t0 = Some b -> 0 <= prio t1 < 140 -> Z.of_nat (size ts) < 4294967296 ->
  (forall r, array0 (f r) = array0 r /\ array1 (f r) = array1 r) ->
  forall t', array t' = array t0 -> prio t' = prio t0 ->
  exists r1 r2, dequeue_task p b (mk_sched (<[p := t']> ts) r) = Some (mk_sched (<[p := t']> ts) r1) /\ same_rest r r1 /\
    enqueue_task p b' (mk_sched (<[p := t1]> ts) (f r1)) = Some (mk_sched (<[p := set_array_of (Some b') t1]> ts) r2) /\ same_rest (f r1) r2 /\
    arrays_ok (loc_of (<[p := set_array_of (Some b') t1]> ts)) r2 /\ queued r2 ≡ₚ queued r /\ moved r r2 p b' (prio t1).
Proof.
  intros A Ht Hb Hp Hs Hf t' Ha Hpr. assert (arrays_ok (loc_of (<[p := t']> ts)) r) as A' by (by eapply upd_arrays_same).
  destruct (take_spec (mk_sched (<[p := t']> ts) r) p t' b A' (lookup_insert_eq _ _ _) ltac:(congruence)) as (r1 & E1 & R1 & A1 & P1 & Q1). cbn [tasks rq] in *.
  assert (arrays_ok (no_loc (loc_of (<[p := t1]> ts)) p) (f r1)) as A2.
  { assert (forall b, get_array b (f r1) = get_array b r1) as HG by (intros []; apply Hf). assert (queued (f r1) = queued r1) as HQ by (unfold queued; destruct (Hf r1) as [-> ->]; done).
    destruct A1 as (B1 & B2 & B3 & B4 & B5). split_and!; [intros b0; by rewrite HG | by rewrite HQ | by rewrite HQ | |].
    - intros b0 i q. unfold qv. rewrite HG, no_loc_insert, <- (no_loc_insert ts p t'). apply B4.
    - intros q b0 i. rewrite no_loc_insert, <- (no_loc_insert ts p t'). apply B5. }
  destruct (requeue_put_spec (mk_sched (<[p := t1]> ts) (f r1)) p t1 b' A2 (lookup_insert_eq _ _ _) Hp) as (r2 & E2 & R2 & A3 & P2 & Q2). { cbn [tasks]. by rewrite map_size_insert_Some. }
  cbn [tasks rq] in *. rewrite insert_insert_eq in *. exists r1, r2. split_and!; try done.
  - rewrite P2, P1. f_equiv. unfold queued. by destruct (Hf r1) as [-> ->].
  - intros b0 k. rewrite Q2. assert (qv (f r1) b0 k = qv r1 b0 k) as -> by (unfold qv; destruct b0; cbn; destruct (Hf r1) as [H0 H1]; congruence). rewrite Q1. case_decide; [done | by rewrite app_nil_r].
Qed.

Definition starving (jiffies ets nr sp best : Z) : bool := negb (ets =? 0) && ((jiffies ⊖ ets) >=? u32 (STARVATION_LIMIT * nr + 1)) || (sp >? best).

Definition stamp (jiffies ets : Z) : Z := if ets =? 0 then jiffies else ets.

Definition end_prio (t : task_struct) : task_struct := set_prio (__effective_prio t) t.

(** The array the task goes to when its slice ends. *)
Definition end_array (jiffies : Z) (r : runqueue) (t : task_struct) : bool :=
  if negb (TASK_INTERACTIVE (end_prio t)) || starving jiffies (stamp jiffies (expired_timestamp r)) (nr_running r) (static_prio t) (best_expired_prio r) then expired r else active r.

Definition end_task (jiffies : Z) (r : runqueue) (t : task_struct) : task_struct :=
  set_array_of (Some (end_array jiffies r t)) (set_first_time_slice false (set_time_slice (task_timeslice t) (end_prio (set_need_resched true t)))).

Lemma slice_end_spec ts r t0 j : let p := curr r in sched_ok (mk_sched ts r) -> ts !! p = Some t0 -> p <> idle r -> array t0 = Some (active r) -> rt_task t0 = false ->
  exists r2, slice_end p j (mk_sched (<[p := dec_time_slice t0]> ts) r) = Some (mk_sched (<[p := end_task j r (dec_time_slice t0)]> ts) r2) /\
    sched_ok (mk_sched (<[p := end_task j r (dec_time_slice t0)]> ts) r2) /\ rq_same r r2 /\ nr_running r2 = nr_running r /\ expired_timestamp r2 = stamp j (expired_timestamp r) /\
    best_expired_prio r2 <= best_expired_prio r /\ moved r r2 p (end_array j r (dec_time_slice t0)) (__effective_prio t0).
Proof.
  intros p [(A & N & R) C] Ht Hi Ha Hrt. cbn [tasks rq] in *. set (t := dec_time_slice t0). pose proof (ro_tasks _ R _ _ Ht) as Hok. pose proof (effective_range _ Hok) as He.
  set (f := if expired_timestamp r =? 0 then set_expired_timestamp j else fun r => r). set (t1 := set_first_time_slice false (set_time_slice (task_timeslice t) (end_prio (set_need_resched true t)))).
  set (b' := end_array j r t). destruct (move_spec ts r p t0 t1 (active r) b' f A Ht Ha) with (t' := t) as (r1 & r2 & E1 & R1 & E2 & R2 & A2 & P2 & M2); [change (0 <= __effective_prio t0 < 140); lia | apply R | unfold f; intros r0; by case_match | done | done |].
  assert (rt_task t = false) as Hrt' by done. assert (f r1 = with_arrays (array0 r1) (array1 r1) (f r)) as Hfr by (destruct R1 as (a0 & a1 & ->); unfold f; case_match; by destruct r).
  assert (rq_same r (f r1) /\ nr_running (f r1) = nr_running r /\ expired_timestamp (f r1) = stamp j (expired_timestamp r) /\ best_expired_prio (f r1) = best_expired_prio r) as (F1 & F2 & F3 & F4).
  { rewrite Hfr. unfold f, stamp. destruct (Z.eqb_spec (expired_timestamp r) 0); done. }
  assert (expired (f r1) = expired r /\ active (f r1) = active r /\ curr (f r1) = p) as (F5 & F6 & F7) by (destruct F1 as (? & ? & ? & ?); done).
  pose proof (same_rest_same _ _ R2) as S2. pose proof (same_rest_nr _ _ R2) as N2. assert (rq_same r r2) as S3 by (by eapply rq_same_trans).
  assert (expired_timestamp r2 = stamp j (expired_timestamp r) /\ best_expired_prio r2 = best_expired_prio r) as [T2 B2] by (destruct R2 as (? & ? & ->); cbn; done).
  assert (sched_ok (mk_sched (<[p := set_array_of (Some b') t1]> ts) r2)) as Hok2.
  { assert (task_ok (set_array_of (Some b') t1)) as Hok1. { pose proof (timeslice_range t0 Hok) as Hts. unfold task_ok in *. change (prio (set_array_of (Some b') t1)) with (__effective_prio t0). change (time_slice (set_array_of (Some b') t1)) with (task_timeslice t0). cbn [static_prio sleep_avg policy t1 t set_array_of end_prio set_prio set_need_resched dec_time_slice set_time_slice set_first_time_slice]. intuition lia. }
    split; [split; [done |]; split; [cbn [rq]; rewrite P2; cbn in N; congruence |] | apply (curr_upd (mk_sched ts r)); [done | done | done]].
    apply (rest_upd (mk_sched ts r) p t0); [done | done | done | done | done |]. intros b _ Hrt2. exfalso. unfold rt_task in Hrt2. change (prio (set_array_of (Some b') t1)) with (__effective_prio t0) in Hrt2. unfold MAX_RT_PRIO in Hrt2. lia. }
  assert (EXPIRED_STARVING j (mk_sched (<[p := t1]> ts) (f r1)) = Some (starving j (stamp j (expired_timestamp r)) (nr_running r) (static_prio t) (best_expired_prio r))) as HS.
  { unfold EXPIRED_STARVING, get_task. cbn [tasks rq]. rewrite F7, lookup_insert_eq. cbn [mbind option_bind]. by rewrite F2, F3, F4. }
  unfold slice_end. cbn [rq]. rewrite E1. cbn [mbind option_bind]. do 3 (erewrite upd_task_some by (cbn [tasks]; apply lookup_insert_eq); cbn [mbind option_bind tasks rq]; rewrite insert_insert_eq).
  assert (effective_prio (set_need_resched true t) = __effective_prio t0) as -> by (unfold effective_prio; by rewrite (Hrt' : rt_task (set_need_resched true t) = false)).
  change (set_first_time_slice false _) with t1. assert ((if expired_timestamp r1 =? 0 then upd_rq (set_expired_timestamp j) (mk_sched (<[p := t1]> ts) r1) else mk_sched (<[p := t1]> ts) r1) = mk_sched (<[p := t1]> ts) (f r1)) as ->.
  { unfold f. assert (expired_timestamp r1 = expired_timestamp r) as -> by (by destruct R1 as (? & ? & ->)). by case_match. }
  rewrite get_task_insert. cbn [mbind option_bind]. rewrite HS. cbn [mbind option_bind]. change (TASK_INTERACTIVE t1) with (TASK_INTERACTIVE (end_prio t)).
  assert (end_task j r t = set_array_of (Some b') t1) as -> by done. change (end_array j r t) with b'. unfold b', end_array in E2 |- *. change (static_prio t1) with (static_prio t).
  destruct (negb (TASK_INTERACTIVE (end_prio t)) || starving j (stamp j (expired_timestamp r)) (nr_running r) (static_prio t) (best_expired_prio r)) eqn:HB; cbn [rq].
  - rewrite F5, E2. cbn [mbind option_bind rq]. assert (b' = expired r) as Hb' by (unfold b', end_array; by rewrite HB). rewrite <- Hb'. destruct (Z.ltb_spec (static_prio t) (best_expired_prio r2)) as [Hlt | Hge].
    + eexists. split; [done |]. cbn [upd_rq rq tasks]. split; [by apply (rq_upd _ _ Hok2) |]. split; [done |]. split; [cbn; congruence |]. split; [done |]. split; [change (static_prio t <= best_expired_prio r); lia |]. exact M2.
    + exists r2. split; [done |]. split; [done |]. split; [done |]. split; [congruence |]. split; [done |]. split; [lia |]. exact M2.
  - rewrite F6, E2. assert (b' = active r) as Hb' by (unfold b', end_array; by rewrite HB). rewrite <- Hb'. exists r2. split; [done |]. split; [done |]. split; [done |]. split; [congruence |]. split; [done |]. split; [lia |]. exact M2.
Qed.

Lemma requeue_core s p t b : core_ok s -> tasks s !! p = Some t -> array t = Some b ->
  exists r, requeue_task p b s = Some (mk_sched (tasks s) r) /\ core_ok (mk_sched (tasks s) r) /\ same_rest (rq s) r /\ moved (rq s) r p b (prio t).
Proof.
  intros (A & N & R) Ht Hb. destruct (requeue_spec (loc_of (tasks s)) s p t b A Ht (loc_of_some _ _ _ _ Ht Hb)) as (r & E & Sr & A' & Q). exists r. split; [done |]. split; [| split; [done | exact Q]]. split; [done |].
  pose proof (same_rest_same _ _ Sr) as (S1 & S2 & S3 & S4). cbn [tasks rq]. split; [| destruct R as [R1 R2 R3 R4 R5 R6]; split; cbn [tasks rq]; rewrite ?S1, ?S2, ?S3, ?S4; done].
  rewrite (same_rest_nr _ _ Sr), N. f_equal. apply Permutation_length. apply NoDup_Permutation; [apply A | apply A' |]. intros q. by rewrite (queued_loc _ _ _ A), (queued_loc _ _ _ A').
Qed.

Lemma curr_rq s ts' r : curr_ok s -> rq_same (rq s) r -> ts' = tasks s -> curr_ok (mk_sched ts' r).
Proof. intros C (_ & _ & Hi & Hc) ->. intros t. cbn. rewrite Hc, Hi. apply C. Qed.

(** A tick for a task that is not a real-time task. *)
Lemma tick_normal now j s t : sched_ok s -> let p := curr (rq s) in p <> idle (rq s) -> tasks s !! p = Some t -> array t = Some (active (rq s)) -> rt_task t = false ->
  exists t' r', scheduler_tick now j s = Some (mk_sched (<[p := t']> (tasks s)) r') /\ sched_ok (mk_sched (<[p := t']> (tasks s)) r') /\ rq_same (rq s) r' /\ nr_running r' = nr_running (rq s) /\
    if time_slice t =? 1 then t' = end_task j (rq s) (dec_time_slice t) /\ moved (rq s) r' p (end_array j (rq s) (dec_time_slice t)) (__effective_prio t) /\ expired_timestamp r' = stamp j (expired_timestamp (rq s))
    else (exists nr : bool, t' = (if nr then set_need_resched true else fun t => t) (dec_time_slice t) /\ if nr then moved (rq s) r' p (active (rq s)) (prio t) else forall b i, qv r' b i = qv (rq s) b i) /\
      expired_timestamp r' = expired_timestamp (rq s).
Proof.
  intros Hok p Hi Ht Ha Hrt. set (s1 := upd_rq (set_timestamp_last_tick now) s). assert (sched_ok s1) as Hok1 by (by apply rq_upd). pose proof Hok1 as [(A & N & R) C]. pose proof (ro_tasks _ R _ _ Ht) as Htk.
  unfold scheduler_tick. fold s1. cbn zeta. change (curr (rq s1)) with p. change (idle (rq s1)) with (idle (rq s)). rewrite (proj2 (Z.eqb_neq _ _)) by done. rewrite (Ht : get_task p s1 = Some t). cbn [mbind option_bind].
  change (active (rq s1)) with (active (rq s)). rewrite bool_decide_true by done. cbn [negb]. rewrite Hrt. rewrite (upd_task_some p _ s1 t Ht). cbn [mbind option_bind]. rewrite get_task_insert. cbn [mbind option_bind].
  assert (time_slice (dec_time_slice t) = time_slice t - 1) as Hts. { cbn. apply u32_id. destruct Htk as (_ & _ & H & _). unfold is_u32. lia. } rewrite Hts.
  destruct (Z.eqb_spec (time_slice t) 1) as [H1 | H1].
  - rewrite H1. cbn [Z.sub Z.eqb Z.add Z.opp Z.pos_sub]. destruct (slice_end_spec (tasks s) (rq s1) t j Hok1 Ht Hi Ha Hrt) as (r2 & E & K & S & Nr & T & _ & M). change (tasks s1) with (tasks s). change (curr (rq s1)) with p in *.
    eexists _, r2. rewrite E. split; [done |]. split; [done |]. split; [done |]. split; [done |]. split; [done |]. split; [exact M | done].
  - rewrite (proj2 (Z.eqb_neq _ _)) by (destruct Htk as (_ & _ & H & _); lia).
    assert (sched_ok (mk_sched (<[p := dec_time_slice t]> (tasks s)) (rq s1))) as Hok2. { apply (soft_upd s1 p t); try done. unfold task_ok in *. rewrite Hts. cbn [static_prio sleep_avg policy prio dec_time_slice set_time_slice]. intuition lia. }
    destruct (_ && _ && _ && _).
    + destruct (requeue_core (mk_sched (<[p := dec_time_slice t]> (tasks s)) (rq s1)) p (dec_time_slice t) (active (rq s)) (proj1 Hok2) (lookup_insert_eq _ _ _) Ha) as (r & E & K & Sr & M). cbn [tasks rq] in *.
      change (tasks s1) with (tasks s). cbn [rq]. change (active (rq s1)) with (active (rq s)). rewrite E. cbn [mbind option_bind]. rewrite (upd_task_some p _ _ (dec_time_slice t)) by (cbn [tasks]; apply lookup_insert_eq). cbn [tasks rq]. rewrite insert_insert_eq.
      eexists _, r. split; [done |]. pose proof (same_rest_same _ _ Sr) as S. split; [| split; [done |]; split; [by apply (same_rest_nr _ _ Sr) |]].
      { assert (sched_ok (mk_sched (<[p := dec_time_slice t]> (tasks s)) r)) as Hok3 by (split; [done |]; eapply curr_rq; [exact (proj2 Hok2) | done | done]).
        pose proof (soft_upd _ p (dec_time_slice t) (set_need_resched true (dec_time_slice t)) Hok3 (lookup_insert_eq _ _ _)) as H. cbn [tasks rq] in H. rewrite insert_insert_eq in H. apply H; try done.
        change (task_ok (dec_time_slice t)). eapply (ro_tasks _ (proj2 (proj2 K)) p), lookup_insert_eq. }
      split; [| by destruct Sr as (? & ? & ->)]. exists true. split; [done | exact M].
    + eexists _, (rq s1). split; [done |]. split; [done |]. split; [done |]. split; [done |]. split; [| done]. exists false. done.
Qed.

Lemma requeue_ok s p t b : sched_ok s -> tasks s !! p = Some t -> array t = Some b -> exists r, requeue_task p b s = Some (mk_sched (tasks s) r) /\ sched_ok (mk_sched (tasks s) r) /\ rq_same (rq s) r.
Proof.
  intros [K C] Ht Hb. destruct (requeue_core s p t b K Ht Hb) as (r & E & K' & Sr & _). exists r. pose proof (same_rest_same _ _ Sr) as S. split; [done |]. split; [| done]. split; [done |]. by eapply curr_rq.
Qed.

Lemma resched_ok s p : sched_ok s -> is_Some (tasks s !! p) -> exists s', resched_task p s = Some s' /\ sched_ok s' /\ rq s' = rq s.
Proof.
  intros H [t Ht]. unfold resched_task. rewrite (upd_task_some _ _ _ _ Ht). eexists. split; [done |]. split; [| done]. apply (soft_upd s p t); try done. by pose proof (ro_tasks _ (proj2 (proj2 (proj1 H))) _ _ Ht).
Qed.

(** Who is there stays there. *)
Definition same_dom (s s' : sched) : Prop := forall p, is_Some (tasks s' !! p) <-> is_Some (tasks s !! p).

Lemma tick_ok now j s : sched_ok s -> exists s', scheduler_tick now j s = Some s' /\ sched_ok s' /\ rq_same (rq s) (rq s').
Proof.
  intros Hok. set (s1 := upd_rq (set_timestamp_last_tick now) s). assert (sched_ok s1) as Hok1 by (by apply rq_upd). pose proof Hok1 as [(A & N & R) C]. set (p := curr (rq s)).
  destruct (decide (p = idle (rq s))) as [Hi | Hi].
  { exists s1. unfold scheduler_tick. fold s1. cbn zeta. change (curr (rq s1)) with p. change (idle (rq s1)) with (idle (rq s)). by rewrite (proj2 (Z.eqb_eq _ _) Hi). }
  destruct (ro_curr _ R) as [t Ht]. change (tasks s !! p = Some t) in Ht. pose proof (ro_tasks _ R _ _ Ht) as Htk.
  destruct (decide (array t = Some (active (rq s)) /\ rt_task t = false)) as [[Ha Hrt] | Hn].
  { destruct (tick_normal now j s t Hok Hi Ht Ha Hrt) as (t' & r' & E & K & S & _). eauto. }
  unfold scheduler_tick. fold s1. cbn zeta. change (curr (rq s1)) with p. change (idle (rq s1)) with (idle (rq s)). rewrite (proj2 (Z.eqb_neq _ _) Hi). rewrite (Ht : get_task p s1 = Some t). cbn [mbind option_bind].
  change (active (rq s1)) with (active (rq s)). case_bool_decide as Ha; cbn [negb]; [| destruct (resched_ok s1 p Hok1 ltac:(by eexists)) as (s' & E & K & S); exists s'; by rewrite S].
  destruct (rt_task t) eqn:Hrt; [| tauto]. destruct (policy t =? SCHED_RR); [| by exists s1]. rewrite (upd_task_some p _ s1 t Ht). cbn [mbind option_bind]. rewrite get_task_insert. cbn [mbind option_bind].
  assert (time_slice (dec_time_slice t) = time_slice t - 1) as Hts. { cbn. apply u32_id. destruct Htk as (_ & _ & H & _). unfold is_u32. lia. } rewrite Hts. destruct (Z.eqb_spec (time_slice t - 1) 0) as [H1 | H1].
  - erewrite upd_task_some by (cbn [tasks]; apply lookup_insert_eq). cbn [mbind option_bind tasks rq]. rewrite insert_insert_eq. set (t' := set_need_resched true _).
    assert (sched_ok (mk_sched (<[p := t']> (tasks s1)) (rq s1))) as Hok2. { apply (soft_upd s1 p t); try done. pose proof (timeslice_range t Htk). unfold task_ok in *. change (time_slice t') with (task_timeslice t). cbn [static_prio sleep_avg policy prio t' dec_time_slice set_time_slice set_first_time_slice set_need_resched]. intuition lia. }
    destruct (requeue_ok _ p t' (active (rq s)) Hok2 (lookup_insert_eq _ _ _) Ha) as (r & E & K & S). cbn [tasks rq] in *. change (active (rq s1)) with (active (rq s)). rewrite E. eauto.
  - eexists. split; [done |]. split; [| done]. apply (soft_upd s1 p t); try done. unfold task_ok in *. rewrite Hts. cbn [static_prio sleep_avg policy prio dec_time_slice set_time_slice]. intuition lia.
Qed.

(** ** Waking and sleeping *)

Lemma queued_bound s : core_ok s -> Z.of_nat (length (queued (rq s))) < 4294967296.
Proof. by intros ((_ & _ & H & _) & _). Qed.

(** A task that is not queued goes to the active array. *)
Lemma activate_core s p t : arrays_ok (no_loc (loc_of (tasks s)) p) (rq s) -> nr_running (rq s) = Z.of_nat (length (queued (rq s))) -> rest_ok s -> tasks s !! p = Some t -> p <> idle (rq s) -> 0 <= prio t < 140 ->
  let s' := set_array_of (Some (active (rq s))) t in
  exists r, __activate_task p s = Some (mk_sched (<[p := s']> (tasks s)) r) /\ core_ok (mk_sched (<[p := s']> (tasks s)) r) /\ rq_same (rq s) r /\ nr_running r = nr_running (rq s) + 1 /\
    nr_uninterruptible r = nr_uninterruptible (rq s) /\ forall b i, qv r b i = if decide (b = active (rq s) /\ i = Z.to_nat (prio t)) then qv (rq s) b i ++ [p] else qv (rq s) b i.
Proof.
  intros A N R Ht Hi Hp s'. destruct (requeue_put_spec s p t (active (rq s)) A Ht Hp (ro_size _ R)) as (r & E & Sr & A' & P & Q). unfold __activate_task. rewrite E. cbn [mbind option_bind upd_rq tasks rq].
  pose proof (same_rest_same _ _ Sr) as S. pose proof (same_rest_nr _ _ Sr) as Nr. pose proof (queued_size _ _ _ A ltac:(by eexists)) as Hq. pose proof (ro_size _ R) as Hsz.
  assert (nr_running r ⊕ 1 = nr_running (rq s) + 1) as Hn by (rewrite Nr, N; apply u32_id; unfold is_u32; lia). eexists. split; [done |]. split; [| split; [done |]; split; [done |]; split; [by destruct Sr as (? & ? & ->) | done]].
  assert (core_ok (mk_sched (<[p := s']> (tasks s)) (set_nr_running (nr_running r ⊕ 1) r))); [| done]. split; [done |]. split.
  - cbn [rq nr_running set_nr_running]. rewrite Hn, N. change (queued (set_nr_running (nr_running r ⊕ 1) r)) with (queued r). rewrite P. cbn [length]. lia.
  - apply (rest_upd s p t); [done | done | done | | done |].
    + pose proof (ro_tasks _ R _ _ Ht). done.
    + intros b [= <-] _. done.
Qed.

Lemma activate_new s p t : core_ok s -> tasks s !! p = Some t -> array t = None -> arrays_ok (no_loc (loc_of (tasks s)) p) (rq s).
Proof.
  intros (A & _) Ht Ha. eapply arrays_ok_ext; [| exact A]. intros q. unfold no_loc. case_decide as Hd; [| done]. subst q. by eapply loc_of_none.
Qed.

Lemma deactivate_core s p t b : core_ok s -> tasks s !! p = Some t -> array t = Some b -> p <> idle (rq s) ->
  exists r, deactivate_task p s = Some (mk_sched (<[p := set_array_of None t]> (tasks s)) r) /\ core_ok (mk_sched (<[p := set_array_of None t]> (tasks s)) r) /\ rq_same (rq s) r /\ nr_running r = nr_running (rq s) - 1 /\
    expired_timestamp r = expired_timestamp (rq s) /\ forall b i, qv r b i = filter (fun x => x <> p) (qv (rq s) b i).
Proof.
  intros (A & N & R) Ht Hb Hi. set (s1 := upd_rq (fun r => set_nr_running (nr_running r ⊖ 1) r) s). unfold deactivate_task. fold s1. cbn zeta. rewrite (Ht : get_task p s1 = Some t). cbn [mbind option_bind]. rewrite Hb. cbn [mbind option_bind].
  assert (arrays_ok (loc_of (tasks s1)) (rq s1)) as A1 by done. destruct (take_spec s1 p t b A1 Ht Hb) as (r & E & Sr & A2 & P & Q). rewrite E. cbn [mbind option_bind]. rewrite (upd_task_some p _ _ t) by done. cbn [tasks rq].
  exists r. change (tasks s1) with (tasks s). split; [done |]. pose proof (same_rest_same _ _ Sr) as S. pose proof (same_rest_nr _ _ Sr) as Nr. cbn [s1 upd_rq rq nr_running set_nr_running] in Nr.
  pose proof (queued_bound s ltac:(done)) as Hqb. assert (queued (rq s) ≡ₚ p :: queued r) as P' by exact P. apply Permutation_length in P'. cbn [length] in P'. assert (nr_running r = nr_running (rq s) - 1) as Hn by (rewrite Nr, N; apply u32_id; unfold is_u32; lia).
  split; [| split; [done |]; split; [done |]; split; [by destruct Sr as (? & ? & ->) | exact Q]]. split; [| split].
  - cbn [tasks rq]. eapply arrays_ok_ext; [| exact A2]. intros q. rewrite loc_of_insert. unfold no_loc. case_decide; done.
  - cbn [rq]. rewrite Hn, N. lia.
  - apply (rest_upd s p t); [done | done | exact S | | done | done]. by pose proof (ro_tasks _ R _ _ Ht).
Qed.

Lemma life_upd s p t t' : sched_ok s -> tasks s !! p = Some t -> p <> idle (rq s) -> array t' = array t -> prio t' = prio t -> task_ok t' -> sched_ok (mk_sched (<[p := t']> (tasks s)) (rq s)).
Proof.
  intros [(A & N & R) C] Ht Hi Ha Hp Hok. split; [split; [by eapply upd_arrays_same |]; split; [done |] |].
  - apply (rest_upd s p t); [done | done | done | done | done |]. intros b Hb Hr. unfold rt_task in Hr. rewrite Ha in Hb. rewrite Hp in Hr. by eapply (ro_rt _ R p t).
  - apply curr_upd; [done | done |]. intros -> _. rewrite Ha. destruct (C t Ht); done.
Qed.

Lemma state_upd s p t v : sched_ok s -> tasks s !! p = Some t -> p <> idle (rq s) -> sched_ok (mk_sched (<[p := set_state v t]> (tasks s)) (rq s)).
Proof. intros Hok Ht Hi. apply (life_upd s p t); try done. apply (ro_tasks _ (proj2 (proj2 (proj1 Hok))) _ _ Ht). Qed.

(** What a woken task looks like on the run queue. *)
Definition woken (old_state now : Z) (in_interrupt : bool) (t : task_struct) : task_struct :=
  let t := recalc_task_prio (if old_state =? TASK_UNINTERRUPTIBLE then set_activated (-1) t else t) now in
  set_timestamp now (if activated t =? 0 then set_activated (if in_interrupt then 2 else 1) t else t).

Lemma woken_spec old now irq t : task_ok t -> task_ok (woken old now irq t) /\ array (woken old now irq t) = array t /\ (if rt_task t then prio (woken old now irq t) = prio t else 100 <= prio (woken old now irq t) <= 139).
Proof.
  intros H. unfold woken. set (t0 := if old =? TASK_UNINTERRUPTIBLE then _ else _). assert (task_ok t0 /\ array t0 = array t /\ rt_task t0 = rt_task t /\ prio t0 = prio t) as (H0 & Ha & Hr & Hp) by (unfold t0; by case_match).
  destruct (recalc_spec t0 now H0) as (H1 & (S1 & _) & H3). rewrite Hr in H3. set (t1 := recalc_task_prio t0 now) in *.
  assert (forall t2, t2 = set_timestamp now (if activated t1 =? 0 then set_activated (if irq then 2 else 1) t1 else t1) -> task_ok t2 /\ array t2 = array t1 /\ prio t2 = prio t1) as Hx by (intros t2 ->; destruct (activated t1 =? 0); (split; [exact H1 | done])).
  destruct (Hx _ eq_refl) as (X1 & X2 & X3). rewrite X2, X3, S1, Ha. split; [done |]. split; [done |]. rewrite <- Hp. destruct (rt_task t); congruence.
Qed.

Lemma activate_spec s p t now irq : core_ok s -> tasks s !! p = Some t -> array t = None -> p <> idle (rq s) ->
  let t' := set_array_of (Some (active (rq s))) (woken 0 now irq t) in
  exists r, activate_task p now irq s = Some (mk_sched (<[p := t']> (tasks s)) r) /\ core_ok (mk_sched (<[p := t']> (tasks s)) r) /\ rq_same (rq s) r /\ nr_running r = nr_running (rq s) + 1 /\
    nr_uninterruptible r = nr_uninterruptible (rq s) /\ forall b i, qv r b i = if decide (b = active (rq s) /\ i = Z.to_nat (prio t')) then qv (rq s) b i ++ [p] else qv (rq s) b i.
Proof.
  intros K Ht Ha Hi t'. pose proof K as (A & N & R). pose proof (ro_tasks _ R _ _ Ht) as Hok. destruct (woken_spec 0 now irq t Hok) as (W1 & W2 & W3). unfold activate_task.
  rewrite (upd_task_some _ _ _ _ Ht). cbn [mbind option_bind]. do 2 (erewrite upd_task_some by (cbn [tasks]; apply lookup_insert_eq); cbn [mbind option_bind tasks rq]; rewrite insert_insert_eq).
  change (set_timestamp now _) with (woken 0 now irq t). set (s1 := mk_sched (<[p := woken 0 now irq t]> (tasks s)) (rq s)).
  assert (0 <= prio (woken 0 now irq t) < 140) as Hp. { destruct Hok as (_ & _ & _ & Hp & _). unfold rt_task, MAX_RT_PRIO in W3. destruct (Z.ltb_spec (prio t) 100); lia. }
  destruct (activate_core s1 p (woken 0 now irq t)) as (r & E & K' & S & Nr & U & Q); cbn [s1 tasks rq]; try done.
  - eapply arrays_ok_ext; [| by eapply activate_new]. intros q. symmetry. apply no_loc_insert.
  - apply (rest_upd s p t); [done | done | done | done | done |]. intros b Hb. congruence.
  - apply lookup_insert_eq.
  - cbn [s1 tasks rq] in *. rewrite insert_insert_eq in *. exists r. done.
Qed.

Lemma preempt_ok s p (c : bool) : sched_ok s -> is_Some (tasks s !! p) ->
  exists s', (if c then b ← TASK_PREEMPTS_CURR p s; if (b : bool) then resched_task (curr (rq s)) s else Some s else Some s) = Some s' /\ sched_ok s' /\ rq s' = rq s /\
    (forall q t, tasks s' !! q = Some t -> exists t0, tasks s !! q = Some t0 /\ (t = t0 \/ q = curr (rq s) /\ t = set_need_resched true t0)) /\ (forall t, tasks s !! p = Some t -> p <> curr (rq s) -> tasks s' !! p = Some t) /\
    (c = true -> forall t tc, tasks s !! p = Some t -> tasks s !! curr (rq s) = Some tc -> prio t < prio tc -> tasks s' !! curr (rq s) = Some (set_need_resched true tc)).
Proof.
  intros H [t Ht]. destruct c; [| exists s; split_and!; try done; intros; eauto]. destruct (ro_curr _ (proj2 (proj2 (proj1 H)))) as [tc Hc]. unfold TASK_PREEMPTS_CURR, get_task. rewrite Ht, Hc. cbn [mbind option_bind].
  destruct (Z.ltb_spec (prio t) (prio tc)) as [Hlt | Hge]; [| exists s; split_and!; try done; try (intros; by eauto); try (intros; simplify_eq; by eauto); try (intros; simplify_eq; lia)].
  unfold resched_task. rewrite (upd_task_some _ _ _ _ Hc). eexists. split; [done |]. split; [apply (soft_upd s _ tc); try done; by pose proof (ro_tasks _ (proj2 (proj2 (proj1 H))) _ _ Hc) |]. cbn [tasks rq]. split; [done |]. split; [| split].
  - intros q t1. rewrite lookup_insert. case_decide as Hd; [| eauto]. intros [= <-]. subst q. eauto.
  - intros t1 Ht1 Hne. simplify_eq. by rewrite lookup_insert_ne by congruence.
  - intros _ t1 tc1 H1 H2 _. simplify_eq. apply lookup_insert_eq.
Qed.

Lemma sleeper_not_idle s p t st : core_ok s -> tasks s !! p = Some t -> Z.land (state t) st <> 0 -> p <> idle (rq s).
Proof. intros (_ & _ & R) Ht Hs ->. destruct (ro_idle _ R) as (u & Hu & _ & Hst & _). simplify_eq. by rewrite Hst in Hs. Qed.

Definition run_state (mutex : bool) : Z := if mutex then TASK_RUNNING_MUTEX else TASK_RUNNING.

(** Waking a task that is asleep. *)
Lemma wake_sleeper s p st sync mutex now irq t : sched_ok s -> tasks s !! p = Some t -> Z.land (state t) st <> 0 -> array t = None ->
  let t' := set_state (run_state mutex) (set_array_of (Some (active (rq s))) (woken (state t) now irq t)) in
  exists s', try_to_wake_up p st sync mutex now irq s = Some (1, s') /\ sched_ok s' /\ rq_same (rq s) (rq s') /\ nr_running (rq s') = nr_running (rq s) + 1 /\
    nr_uninterruptible (rq s') = (if state t =? TASK_UNINTERRUPTIBLE then nr_uninterruptible (rq s) ⊖ 1 else nr_uninterruptible (rq s)) /\ tasks s' !! p = Some t' /\
    (forall b i, qv (rq s') b i = if decide (b = active (rq s) /\ i = Z.to_nat (prio t')) then qv (rq s) b i ++ [p] else qv (rq s) b i) /\
    (sync = false -> forall tc, tasks s !! curr (rq s) = Some tc -> prio t' < prio tc -> tasks s' !! curr (rq s) = Some (set_need_resched true tc)).
Proof.
  intros Hok Ht Hst Ha t'. pose proof Hok as [K C]. pose proof (sleeper_not_idle s p t st K Ht Hst) as Hi. unfold try_to_wake_up. rewrite (Ht : get_task p s = Some t). cbn [mbind option_bind]. rewrite (proj2 (Z.eqb_neq _ _) Hst), Ha.
  assert (p <> curr (rq s)) as Hc by (intros ->; destruct (C t Ht); congruence). set (t0 := if state t =? TASK_UNINTERRUPTIBLE then set_activated (-1) t else t).
  set (r0 := if state t =? TASK_UNINTERRUPTIBLE then set_nr_uninterruptible (nr_uninterruptible (rq s) ⊖ 1) (rq s) else rq s).
  assert (sched_ok (mk_sched (<[p := t0]> (tasks s)) r0)) as Hok0.
  { assert (sched_ok (mk_sched (<[p := t0]> (tasks s)) (rq s))) as H0. { pose proof (ro_tasks _ (proj2 (proj2 K)) _ _ Ht) as Hk. apply (soft_upd s p t); try done; unfold t0; by case_match. }
    apply (rq_upd _ r0 H0); unfold r0, rq_same; by case_match. }
  assert ((if state t =? TASK_UNINTERRUPTIBLE then upd_task p (set_activated (-1)) (upd_rq (fun r => set_nr_uninterruptible (nr_uninterruptible r ⊖ 1) r) s) else Some s) = Some (mk_sched (<[p := t0]> (tasks s)) r0)) as ->.
  { unfold t0, r0. case_match; [by rewrite (upd_task_some _ _ _ t) by done |]. rewrite insert_id by done. by destruct s. }
  cbn [mbind option_bind]. assert (array t0 = None) as Ha0 by (unfold t0; by case_match). assert (rq_same (rq s) r0) as S0 by (unfold r0; by case_match). assert (nr_running r0 = nr_running (rq s)) as N0 by (unfold r0; by case_match).
  assert (forall b i, qv r0 b i = qv (rq s) b i) as Q0 by (intros [] i; unfold r0; by case_match). pose proof S0 as (Sa & _ & Si & Sc).
  destruct (activate_spec (mk_sched (<[p := t0]> (tasks s)) r0) p t0 now irq (proj1 Hok0) (lookup_insert_eq _ _ _) Ha0) as (r1 & E1 & K1 & S1 & N1 & U1 & Q1); [cbn; congruence |]. cbn [tasks rq] in *. rewrite insert_insert_eq in *.
  assert (woken 0 now irq t0 = woken (state t) now irq t) as Hw by (unfold woken, t0; by destruct (state t =? TASK_UNINTERRUPTIBLE)). rewrite Hw, Sa in *. rewrite E1. cbn [mbind option_bind]. set (t1 := set_array_of (Some (active (rq s))) (woken (state t) now irq t)) in *.
  assert (rq_same (rq s) r1) as S01 by (by eapply rq_same_trans). pose proof S01 as (_ & _ & _ & Sc1).
  assert (sched_ok (mk_sched (<[p := t1]> (tasks s)) r1)) as Hok1. { split; [done |]. apply (curr_upd s); [done | done |]. intros ->. done. }
  destruct (preempt_ok _ p (negb sync) Hok1 ltac:(cbn [tasks]; rewrite lookup_insert_eq; by eexists)) as (s2 & E2 & Hok2 & R2 & F2 & P2 & N2). rewrite E2. cbn [rq] in R2, N2. cbn [mbind option_bind].
  assert (tasks s2 !! p = Some t1) as Hp2 by (apply P2; [cbn [tasks]; apply lookup_insert_eq | cbn [rq]; congruence]). rewrite (upd_task_some _ _ _ _ Hp2). cbn [mbind option_bind].
  eexists. split; [done |]. cbn [tasks rq]. rewrite R2. split; [rewrite <- R2; apply state_upd; [done | done | rewrite R2; destruct S1 as (_ & _ & Si1 & _); congruence] |]. split; [done |]. split; [congruence |]. split; [rewrite U1; unfold r0; by destruct (state t =? TASK_UNINTERRUPTIBLE) |].
  split; [by rewrite lookup_insert_eq |]. split; [intros b i; by rewrite Q1, Q0 |]. intros -> tc Htc Hlt. rewrite lookup_insert_ne by congruence. rewrite <- Sc1. apply (N2 eq_refl t1 tc).
  - cbn [tasks]. apply lookup_insert_eq.
  - cbn [tasks]. rewrite lookup_insert_ne by congruence. congruence.
  - exact Hlt.
Qed.

Lemma wake_ok s p st sync mutex now irq : sched_ok s -> is_Some (tasks s !! p) -> exists n s', try_to_wake_up p st sync mutex now irq s = Some (n, s') /\ sched_ok s' /\ rq_same (rq s) (rq s').
Proof.
  intros Hok [t Ht]. destruct (decide (Z.land (state t) st = 0)) as [H0 | H0].
  { exists 0, s. unfold try_to_wake_up. rewrite (Ht : get_task p s = Some t). cbn [mbind option_bind]. by rewrite H0. }
  destruct (array t) as [b |] eqn:Ha; [| destruct (wake_sleeper s p st sync mutex now irq t Hok Ht H0 Ha) as (s' & E & K & S & _); eauto].
  unfold try_to_wake_up. rewrite (Ht : get_task p s = Some t). cbn [mbind option_bind]. rewrite (proj2 (Z.eqb_neq _ _) H0), Ha. cbn [mbind option_bind]. rewrite (upd_task_some _ _ _ _ Ht). cbn [mbind option_bind].
  eexists _, _. split; [done |]. split; [| done]. apply state_upd; [done | done |]. eapply sleeper_not_idle; [apply Hok | done | done].
Qed.

(** ** Choosing a task *)

(** Changes of the state of a task that need not be current. *)
Lemma state_core s p t v : core_ok s -> tasks s !! p = Some t -> p <> idle (rq s) -> core_ok (mk_sched (<[p := set_state v t]> (tasks s)) (rq s)).
Proof.
  intros (A & N & R) Ht Hi. pose proof (ro_tasks _ R _ _ Ht) as Hok. split; [by eapply upd_arrays_same |]. split; [done |]. apply (rest_upd s p t); [done | done | done | done | done |]. intros b Hb Hr. by eapply (ro_rt _ R p t).
Qed.

(** The task that leaves the processor stays on the run queue exactly if it stays runnable. *)
Lemma leave_spec s sig pre t : sched_ok s -> let p := curr (rq s) in tasks s !! p = Some t ->
  exists t' r', leave_cpu p sig pre s = Some (mk_sched (<[p := t']> (tasks s)) r') /\ core_ok (mk_sched (<[p := t']> (tasks s)) r') /\ rq_same (rq s) r' /\
    prio t' = prio t /\ static_prio t' = static_prio t /\ time_slice t' = time_slice t /\ sleep_avg t' = sleep_avg t /\
    (state t = TASK_RUNNING -> dead t = false -> t' = t /\ r' = rq s) /\ (p = idle (rq s) -> t' = t).
Proof.
  intros Hok p Ht. pose proof Hok as [K C]. unfold leave_cpu. rewrite (Ht : get_task p s = Some t). cbn [mbind option_bind].
  destruct (decide (p = idle (rq s))) as [Hi | Hi].
  { destruct (ro_idle _ (proj2 (proj2 K))) as (u & Hu & _ & Hst & Hd & _). rewrite <- Hi, Ht in Hu. injection Hu as <-. rewrite Hst. change (negb (Z.ldiff TASK_RUNNING TASK_RUNNING_MUTEX =? 0)) with false. cbn [andb mbind option_bind]. rewrite (Ht : get_task p s = Some t). cbn [mbind option_bind]. rewrite Hd.
    exists t, (rq s). rewrite insert_id by done. destruct s. done. }
  destruct (C t Ht) as [? | Ha]; [done |]. destruct (array t) as [b |] eqn:Hb; [| done]. clear Ha.
  set (busy := negb (Z.ldiff (state t) TASK_RUNNING_MUTEX =? 0) && negb pre). set (stay := negb (Z.land (state t) TASK_INTERRUPTIBLE =? 0) && sig).
  assert (exists t1 r1, (if busy then if stay then upd_task p (set_state TASK_RUNNING) s else deactivate_task p (if state t =? TASK_UNINTERRUPTIBLE then upd_rq (fun r => set_nr_uninterruptible (nr_uninterruptible r ⊕ 1) r) s else s) else Some s)
      = Some (mk_sched (<[p := t1]> (tasks s)) r1) /\ core_ok (mk_sched (<[p := t1]> (tasks s)) r1) /\ rq_same (rq s) r1 /\ (t1 = set_state TASK_RUNNING t \/ t1 = set_array_of None t /\ state t <> TASK_RUNNING \/ t1 = t) /\ (busy = false -> t1 = t /\ r1 = rq s)) as (t1 & r1 & -> & K1 & S1 & T1 & B1).
  { destruct busy eqn:HB; [destruct stay |].
    - rewrite (upd_task_some _ _ _ _ Ht). eexists _, _. split; [done |]. split; [by apply state_core |]. split; [done |]. split; [by left | done].
    - set (s0 := if state t =? TASK_UNINTERRUPTIBLE then _ else s). assert (core_ok s0 /\ tasks s0 = tasks s /\ rq_same (rq s) (rq s0)) as (K0 & T0 & S0). { unfold s0. case_match; [| done]. split; [by apply rq_core | done]. }
      destruct (deactivate_core s0 p t b K0 ltac:(by rewrite T0) Hb) as (r & E & K' & S & _); [destruct S0 as (_ & _ & H & _); congruence |]. rewrite T0 in *. exists (set_array_of None t), r. split; [done |]. split; [done |]. split; [by eapply rq_same_trans |]. split; [| done].
      right. left. split; [done |]. intros H. unfold busy in HB. rewrite H in HB. done.
    - exists t, (rq s). rewrite insert_id by done. split; [by destruct s |]. split; [by destruct s |]. split; [done |]. split; [by right; right | done]. }
  cbn [mbind option_bind]. rewrite get_task_insert. cbn [mbind option_bind].
  assert (prio t1 = prio t /\ static_prio t1 = static_prio t /\ time_slice t1 = time_slice t /\ sleep_avg t1 = sleep_avg t /\ dead t1 = dead t) as (P1 & P2 & P3 & P4 & P5) by (destruct T1 as [-> | [[-> _] | ->]]; done).
  assert (state t = TASK_RUNNING -> busy = false) as HB by (intros H; unfold busy; by rewrite H). destruct (dead t1) eqn:Hd.
  - assert (exists t2 r2, (if negb (state t1 =? TASK_RUNNING) then Some (mk_sched (<[p := t1]> (tasks s)) r1) else deactivate_task p (mk_sched (<[p := t1]> (tasks s)) r1)) = Some (mk_sched (<[p := t2]> (tasks s)) r2) /\
      core_ok (mk_sched (<[p := t2]> (tasks s)) r2) /\ rq_same (rq s) r2 /\ (t2 = t1 \/ t2 = set_array_of None t1)) as (t2 & r2 & -> & K2 & S2 & T2).
    { destruct (Z.eqb_spec (state t1) TASK_RUNNING) as [Hs1 | Hs1]; cbn [negb]; [| exists t1, r1; split_and!; try done; by left]. assert (array t1 = Some b) as Hb1 by (destruct T1 as [-> | [[-> H] | ->]]; done).
      destruct (deactivate_core _ p t1 b K1 (lookup_insert_eq _ _ _) Hb1) as (r & E & K' & S & _); [cbn; destruct S1 as (_ & _ & H & _); congruence |]. cbn [tasks rq] in *. rewrite insert_insert_eq in *. exists (set_array_of None t1), r. split_and!; try done; [by eapply rq_same_trans | by right]. }
    cbn [mbind option_bind]. rewrite (upd_task_some p _ _ t2) by (cbn [tasks]; apply lookup_insert_eq). cbn [tasks rq]. rewrite insert_insert_eq. exists (set_state EXIT_DEAD t2), r2. split; [done |].
    pose proof (state_core _ p t2 EXIT_DEAD K2 (lookup_insert_eq _ _ _) ltac:(cbn; destruct S2 as (_ & _ & H & _); congruence)) as K3. cbn [tasks rq] in K3. rewrite insert_insert_eq in K3. split; [done |]. split; [done |].
    assert (prio t2 = prio t1 /\ static_prio t2 = static_prio t1 /\ time_slice t2 = time_slice t1 /\ sleep_avg t2 = sleep_avg t1) as (Q1 & Q2 & Q3 & Q4) by (destruct T2 as [-> | ->]; done).
    cbn [prio static_prio time_slice sleep_avg set_state]. split_and!; try congruence; done.
  - exists t1, r1. split_and!; try done. intros H _. by apply B1, HB.
Qed.

Lemma array_empty s b : core_ok s -> nr_active (get_array b (rq s)) = 0 <-> forall p t, tasks s !! p = Some t -> array t <> Some b.
Proof.
  intros (A & _ & _). pose proof A as (H1 & _ & _ & H4 & H5). destruct (H1 b) as (_ & _ & _ & _ & Hn). rewrite Hn. split.
  - intros H0 p t Ht Hb. pose proof (loc_of_some _ _ _ _ Ht Hb) as Hl. destruct (H5 _ _ _ Hl) as [I0 I1]. rewrite <- (Z2Nat.id (prio t)) in Hl by lia. apply H4 in Hl. destruct (concat (queue (get_array b (rq s)))) eqn:E; [| done].
    assert (p ∈ concat (queue (get_array b (rq s)))) as Hp by (apply elem_concat_default; by eexists). rewrite E in Hp. by apply elem_of_nil in Hp.
  - intros H. destruct (concat (queue (get_array b (rq s)))) as [| p l] eqn:E; [done |]. exfalso. assert (p ∈ concat (queue (get_array b (rq s)))) as Hp by (rewrite E; by left). apply elem_concat_default in Hp as [i Hp].
    apply (H4 b i) in Hp. unfold loc_of in Hp. destruct (tasks s !! p) as [t |] eqn:Ht; [| done]. cbn in Hp. destruct (array t) as [b' |] eqn:Hb; [| done]. cbn in Hp. simplify_eq. by eapply H.
Qed.

(** The array the next task is taken from. *)
Definition pick_array (s : sched) : bool := if nr_active (get_array (active (rq s)) (rq s)) =? 0 then expired (rq s) else active (rq s).

Lemma switch_core s : core_ok s -> let r := switch_arrays (rq s) in core_ok (mk_sched (tasks s) r) /\ active r = pick_array s /\ (forall b i, qv r b i = qv (rq s) b i) /\ curr r = curr (rq s) /\ idle r = idle (rq s) /\ nr_running r = nr_running (rq s) /\
  expired_timestamp r = (if nr_active (get_array (active (rq s)) (rq s)) =? 0 then 0 else expired_timestamp (rq s)).
Proof.
  intros K. pose proof K as (A & N & R). unfold switch_arrays, pick_array. destruct (Z.eqb_spec (nr_active (get_array (active (rq s)) (rq s))) 0) as [H0 | H0]; [| by destruct s].
  split; [| done]. split; [done |]. split; [done |]. rewrite (array_empty s _ K) in H0. destruct R as [R1 R2 R3 R4 R5 R6]. split; cbn [tasks rq]; try done.
  - cbn. by rewrite R2, negb_involutive.
  - intros p t b Ht Hb Hr. pose proof (R3 p t b Ht Hb Hr) as ->. exfalso. by eapply H0.
Qed.

Lemma first_nonempty s b : core_ok s -> nr_active (get_array b (rq s)) <> 0 ->
  exists i q p, sched_find_first_bit (bitmap (get_array b (rq s))) = Some i /\ queue (get_array b (rq s)) !! Z.to_nat i = Some (p :: q) /\ 0 <= i < 140 /\ forall j, (j < Z.to_nat i)%nat -> qv (rq s) b j = [].
Proof.
  intros (A & _ & _) Hn. destruct A as (H1 & _ & _ & H4 & H5). destruct (H1 b) as (L1 & L2 & L3 & L4 & L5). destruct (find_first_spec _ L2 L3) as (i & E & Hi & Hb & Hlow).
  assert (exists k, (k < 140)%nat /\ qv (rq s) b k <> []) as (k & Hk & Hq).
  { destruct (concat (queue (get_array b (rq s)))) as [| p l] eqn:EC; [by rewrite L5 in Hn |]. assert (p ∈ concat (queue (get_array b (rq s)))) as Hp by (rewrite EC; by left). apply elem_concat_default in Hp as [k Hp]. exists k.
    split; [| unfold qv; intros H; rewrite H in Hp; by apply elem_of_nil in Hp]. rewrite <- L1. apply lookup_lt_is_Some. destruct (queue (get_array b (rq s)) !! k); [by eexists | by apply elem_of_nil in Hp]. }
  assert (i < 140) as Hi2. { destruct (Z.le_gt_cases i (Z.of_nat k)); [lia |]. pose proof (Hlow (Z.of_nat k) ltac:(lia)) as Hf. rewrite L4 in Hf by done. apply negb_false_iff, bool_decide_eq_true in Hf. done. }
  destruct (lookup_lt_is_Some_2 (queue (get_array b (rq s))) (Z.to_nat i) ltac:(lia)) as [q Eq]. rewrite <- (Z2Nat.id i), L4, Eq in Hb by lia. cbn in Hb. apply negb_true_iff, bool_decide_eq_false in Hb. destruct q as [| p q]; [done |].
  exists i, q, p. split_and!; try done; try lia. intros j Hj. pose proof (Hlow (Z.of_nat j) ltac:(lia)) as Hf. rewrite L4 in Hf by lia. apply negb_false_iff, bool_decide_eq_true in Hf. done.
Qed.

(** [p] heads the first queue that is not empty. *)
Definition is_first (r : runqueue) (b : bool) (i : nat) (p : Z) : Prop := head (qv r b i) = Some p /\ forall j, (j < i)%nat -> qv r b j = [].

Lemma queued_task s b i p : core_ok s -> p ∈ qv (rq s) b i -> exists t, tasks s !! p = Some t /\ array t = Some b /\ prio t = Z.of_nat i /\ p <> idle (rq s).
Proof.
  intros (A & _ & R) Hp. destruct A as (_ & _ & _ & H4 & _). apply H4 in Hp. unfold loc_of in Hp. destruct (tasks s !! p) as [t |] eqn:Ht; [| done]. cbn in Hp. destruct (array t) as [b' |] eqn:Hb; [| done]. cbn in Hp. simplify_eq.
  exists t. split_and!; try done. intros ->. destruct (ro_idle _ R) as (u & Hu & Hn & _). by simplify_eq.
Qed.

Lemma pick_spec now s : core_ok s ->
  exists next s', pick_next now s = Some (next, s') /\ core_ok s' /\ curr (rq s') = curr (rq s) /\ idle (rq s') = idle (rq s) /\ nr_running (rq s') = nr_running (rq s) /\
    if nr_running (rq s) =? 0 then next = idle (rq s) /\ tasks s' = tasks s
    else exists t t', tasks s !! next = Some t /\ array t = Some (pick_array s) /\ is_first (rq s) (pick_array s) (Z.to_nat (prio t)) next /\ tasks s' = <[next := t']> (tasks s) /\ array t' = array t /\ next <> idle (rq s) /\
      time_slice t' = time_slice t /\ static_prio t' = static_prio t /\ state t' = state t /\ dead t' = dead t /\ need_resched t' = need_resched t /\ (if rt_task t then prio t' = prio t else 100 <= prio t' <= 139) /\ active (rq s') = pick_array s /\
      expired_timestamp (rq s') = (if nr_active (get_array (active (rq s)) (rq s)) =? 0 then 0 else expired_timestamp (rq s)).
Proof.
  intros K. pose proof K as (A & N & R). unfold pick_next. destruct (Z.eqb_spec (nr_running (rq s)) 0) as [H0 | H0].
  { eexists _, _. split; [done |]. split; [by apply rq_core |]. done. }
  destruct (switch_core s K) as (K1 & Ha1 & Q1 & C1 & I1 & N1 & T1). set (r1 := switch_arrays (rq s)) in *. change (upd_rq switch_arrays s) with (mk_sched (tasks s) r1). set (s1 := mk_sched (tasks s) r1) in *. cbn zeta. change (rq s1) with r1. rewrite Ha1.
  assert (nr_active (get_array (pick_array s) r1) <> 0) as Hne.
  { assert (forall b, get_array b r1 = get_array b (rq s)) as HG by (intros b; unfold r1, switch_arrays; case_match; [by destruct b | done]). rewrite HG. unfold pick_array. destruct (Z.eqb_spec (nr_active (get_array (active (rq s)) (rq s))) 0) as [E0 | E0]; [| done].
    rewrite (ro_expired _ R). intros E1. apply H0. rewrite N. destruct A as (H1 & _). destruct (H1 (active (rq s))) as (_ & _ & _ & _ & L1), (H1 (negb (active (rq s)))) as (_ & _ & _ & _ & L2). rewrite (queued_split (active (rq s))), length_app. lia. }
  destruct (first_nonempty s1 (pick_array s) K1 Hne) as (i & q & p & Ef & Eq & Hi & Hlow). change (rq s1) with r1 in Ef, Eq. rewrite Ef. cbn [mbind option_bind]. rewrite Eq. cbn [mbind option_bind head].
  assert (qv r1 (pick_array s) (Z.to_nat i) = p :: q) as Hqv by (unfold qv; by rewrite Eq). destruct (queued_task s1 (pick_array s) (Z.to_nat i) p K1 ltac:(change (rq s1) with r1; rewrite Hqv; by left)) as (t & Ht & Hb & Hp & Hidle).
  rewrite Z2Nat.id in Hp by lia. change (tasks s1 !! p = Some t) with (tasks s !! p = Some t) in Ht. change (idle (rq s1)) with (idle r1) in Hidle. rewrite I1 in Hidle. rewrite (Ht : get_task p s1 = Some t). cbn [mbind option_bind]. pose proof (ro_tasks _ R _ _ Ht) as Hok.
  set (D := if activated t =? 1 then _ else _).
  assert (exists t1 s2, (if negb (rt_task t) && (activated t >? 0) then
       b ← array t; s ← dequeue_task p b s1; s ← upd_task p (fun t0 => recalc_task_prio t0 (u64 (timestamp t0 + D))) s; enqueue_task p b s else Some s1)
      = Some s2 /\ tasks s2 = <[p := t1]> (tasks s) /\ core_ok s2 /\ rq_same r1 (rq s2) /\ nr_running (rq s2) = nr_running r1 /\ expired_timestamp (rq s2) = expired_timestamp r1 /\ array t1 = array t /\ time_slice t1 = time_slice t /\ static_prio t1 = static_prio t /\ state t1 = state t /\ dead t1 = dead t /\
      need_resched t1 = need_resched t /\ (if rt_task t then prio t1 = prio t else 100 <= prio t1 <= 139) /\ task_ok t1) as (t1 & s2 & E2 & T2 & K2 & S2 & N2 & X2 & F1 & F2 & F3 & F4 & F5 & F6 & F7 & F8).
  { destruct (negb (rt_task t) && (activated t >? 0)) eqn:HB.
    - apply andb_true_iff in HB as [Hrt _]. apply negb_true_iff in Hrt. rewrite Hb. cbn [mbind option_bind]. set (t1 := recalc_task_prio t (u64 (timestamp t + D))). destruct (recalc_spec t (u64 (timestamp t + D)) Hok) as (G1 & (G2 & G3 & G4 & G5 & G6 & G7 & _ & G8 & _) & G9). fold t1 in G1, G2, G3, G4, G5, G6, G7, G8, G9. rewrite Hrt in *.
      destruct (move_spec (tasks s) r1 p t t1 (pick_array s) (pick_array s) (fun r => r) (proj1 K1) Ht Hb ltac:(lia) (ro_size _ R) ltac:(done) t eq_refl eq_refl) as (r2 & r3 & E1 & R2 & E3 & R3 & A3 & P3 & _).
      rewrite insert_id in E1 by done. fold s1 in E1. rewrite E1. cbn [mbind option_bind]. rewrite (upd_task_some p _ _ t) by done. cbn [mbind option_bind tasks rq]. change (tasks s1) with (tasks s). fold t1. rewrite E3.
      exists (set_array_of (Some (pick_array s)) t1). eexists. split; [done |]. split; [done |]. assert (same_rest r1 r3) as SR by (by eapply same_rest_trans). pose proof (same_rest_same _ _ SR) as SS.
      split; [| split; [done |]; split; [by apply (same_rest_nr _ _ SR) |]; split; [by destruct SR as (? & ? & ->) |]; cbn [array time_slice static_prio state dead need_resched prio set_array_of]; split_and!; try done; try congruence; lia].
      split; [done |]. split; [cbn [rq]; rewrite P3, (same_rest_nr _ _ SR), N1; exact (proj1 (proj2 K1)) || (rewrite <- N1; apply (proj1 (proj2 K1))) |].
      apply (rest_upd s1 p t); [apply K1 | done | exact SS | done | cbn; congruence |]. intros b _ Hr. exfalso. unfold rt_task, MAX_RT_PRIO in Hr. cbn [prio set_array_of] in Hr. lia.
    - exists t, s1. rewrite insert_id by done. split; [done |]. split; [done |]. split; [done |]. split_and!; try done. destruct (rt_task t) eqn:Hrt; [done |]. unfold rt_task, MAX_RT_PRIO in Hrt. lia. }
  rewrite E2. cbn [mbind option_bind]. rewrite (upd_task_some p _ _ t1) by (rewrite T2; apply lookup_insert_eq). cbn [mbind option_bind]. rewrite T2, insert_insert_eq.
  assert (core_ok (mk_sched (<[p := set_activated 0 t1]> (tasks s)) (rq s2))) as K3.
  { pose proof (soft_core s2 p t1 (set_activated 0 t1) K2 ltac:(rewrite T2; apply lookup_insert_eq)) as H. rewrite T2, insert_insert_eq in H. by apply H. }
  destruct S2 as (S2a & S2e & S2i & S2c). eexists p, _. split; [done |]. split; [done |]. cbn [tasks rq]. split; [congruence |]. split; [congruence |]. split; [congruence |].
  exists t, (set_activated 0 t1). split; [done |]. split; [done |]. split. { rewrite Hp. split; [by rewrite <- Q1, Hqv |]. intros j Hj. rewrite <- Q1. by apply Hlow. }
  split; [done |]. cbn [array time_slice static_prio state dead need_resched prio set_activated]. split_and!; try done; congruence.
Qed.

(** The account of the task that leaves the processor. *)
Definition charged (now run : Z) (t : task_struct) : task_struct :=
  set_timestamp now (set_sleep_avg (if s32 (sleep_avg t ⊖ run) <=? 0 then 0 else sleep_avg t ⊖ run) (set_need_resched false t)).

Lemma charged_ok now run t : task_ok t -> 0 <= run <= NS_MAX_SLEEP_AVG -> task_ok (charged now run t).
Proof.
  intros H Hr. rewrite ns_max in Hr. unfold task_ok in *. rewrite ns_max in *. cbn [static_prio sleep_avg time_slice prio policy charged set_timestamp set_sleep_avg set_need_resched].
  assert (0 <= (if s32 (sleep_avg t ⊖ run) <=? 0 then 0 else sleep_avg t ⊖ run) <= 1000000000); [| intuition lia]. destruct (Z.leb_spec (s32 (sleep_avg t ⊖ run)) 0) as [| Hp]; [lia |].
  pose proof (u32_range (sleep_avg t - run)) as Hu. destruct (Z.le_gt_cases run (sleep_avg t)); [rewrite u32_id; unfold is_u32; lia |]. exfalso. revert Hp. unfold s32, u32. rewrite (Z.mod_small (_ mod _)) by (apply Z.mod_pos_bound; lia).
  assert ((sleep_avg t - run) mod 4294967296 = sleep_avg t - run + 4294967296) as Hm by (rewrite <- (Z.mod_small (sleep_avg t - run + 4294967296) 4294967296) by lia; rewrite <- (Z.mod_add _ 1) by lia; f_equal; lia).
  rewrite Hm. destruct (Z.ltb_spec (sleep_avg t - run + 4294967296) 2147483648); lia.
Qed.

Lemma run_time_range t now : task_ok t -> 0 <= run_time t now <= NS_MAX_SLEEP_AVG.
Proof.
  intros H. unfold run_time. set (x := if _ <? NS_MAX_SLEEP_AVG then _ else _). assert (0 <= x <= NS_MAX_SLEEP_AVG) as Hx.
  { unfold x. rewrite ns_max. destruct (Z.ltb_spec (u64 (now - timestamp t)) 1000000000); [| lia]. assert (0 <= u64 (now - timestamp t)) by (apply Z.mod_pos_bound; lia). rewrite u32_id; unfold is_u32; lia. }
  pose proof (bonus_range t H) as Hb. destruct (Z.eqb_spec (CURRENT_BONUS t) 0); [rewrite Z.div_1_r; done |]. split; [apply Z.div_pos; lia |]. apply Z.div_le_upper_bound; [lia |]. nia.
Qed.

(** What one call of [__schedule] does, with the state after the current task has left. *)
Lemma schedule_spec now sig pre s pt : sched_ok s -> tasks s !! curr (rq s) = Some pt ->
  exists s1 pt1 s2 s', leave_cpu (curr (rq s)) sig pre s = Some s1 /\ core_ok s1 /\ tasks s1 = <[curr (rq s) := pt1]> (tasks s) /\ pick_next now s1 = Some (curr (rq s'), s2) /\ __schedule now sig pre s = Some s' /\ sched_ok s' /\
    active (rq s') = active (rq s2) /\ idle (rq s') = idle (rq s) /\ expired_timestamp (rq s') = expired_timestamp (rq s2) /\ nr_running (rq s') = nr_running (rq s2) /\
    (forall p t2, tasks s2 !! p = Some t2 -> exists t', tasks s' !! p = Some t' /\ array t' = array t2 /\ prio t' = prio t2 /\ time_slice t' = time_slice t2 /\ static_prio t' = static_prio t2 /\ state t' = state t2 /\ dead t' = dead t2 /\
       need_resched t' = (if decide (p = curr (rq s)) then false else need_resched t2)) /\
    (forall p, tasks s' !! p = None <-> tasks s2 !! p = None).
Proof.
  intros Hok Ht. pose proof Hok as [K C]. set (prev := curr (rq s)). destruct (leave_spec s sig pre pt Hok Ht) as (pt1 & r1 & E1 & K1 & S1 & _ & _ & _ & _ & _ & Hidle). fold prev in E1, K1, Hidle. set (s1 := mk_sched (<[prev := pt1]> (tasks s)) r1) in *.
  destruct (pick_spec now s1 K1) as (next & s2 & E2 & K2 & C2 & I2 & N2 & Hcase). destruct S1 as (S1a & S1e & S1i & S1c). change (rq s1) with r1 in *. rewrite S1c in C2. rewrite S1i in I2.
  assert (exists u, tasks s2 !! prev = Some u) as [u Hu]. { destruct (ro_curr _ (proj2 (proj2 K2))) as [u Hu]. rewrite C2 in Hu. by exists u. }
  assert (exists un, tasks s2 !! next = Some un /\ (next = idle (rq s) \/ array un <> None)) as (un & Hun & Hna).
  { destruct (Z.eqb_spec (nr_running r1) 0) as [Hz | Hz]; [destruct Hcase as [-> HT] | destruct Hcase as (t & t' & H1 & H2 & _ & HT & H3 & _)].
    - destruct (ro_idle _ (proj2 (proj2 K2))) as (v & Hv & _). rewrite I2 in Hv. exists v. rewrite S1i. split; [done | by left].
    - exists t'. rewrite HT, lookup_insert_eq. split; [done |]. right. congruence. }
  pose proof (ro_tasks _ (proj2 (proj2 K)) _ _ Ht) as Hpt. pose proof (run_time_range pt now Hpt) as Hrun. pose proof (charged_ok now _ u (ro_tasks _ (proj2 (proj2 K2)) _ _ Hu) Hrun) as Hch.
  set (u' := charged now (run_time pt now) u) in *. assert (core_ok (mk_sched (<[prev := u']> (tasks s2)) (rq s2))) as K3 by (by apply (soft_core s2 prev u)).
  unfold __schedule. fold prev. rewrite (Ht : get_task prev s = Some pt). cbn [mbind option_bind]. rewrite E1. cbn [mbind option_bind]. rewrite E2. cbn [mbind option_bind].
  rewrite (upd_task_some _ _ _ _ Hu). cbn [mbind option_bind]. do 2 (erewrite upd_task_some by (cbn [tasks]; apply lookup_insert_eq); cbn [mbind option_bind tasks rq]; rewrite insert_insert_eq). change (set_timestamp now _) with u'.
  destruct (Z.eqb_spec prev next) as [Hpn | Hpn].
  - subst next. exists s1, pt1, s2, (mk_sched (<[prev := u']> (tasks s2)) (rq s2)). split; [done |]. split; [done |]. split; [done |]. cbn [rq tasks]. rewrite C2. fold prev. split; [done |]. split; [done |]. split.
    { split; [done |]. intros v. cbn [rq tasks]. rewrite C2, I2. fold prev. rewrite lookup_insert_eq. intros [= <-]. rewrite Hu in Hun. simplify_eq. exact Hna. }
    split; [done |]. split; [congruence |]. split; [done |]. split; [done |]. split.
    + intros p t2 Hp. rewrite lookup_insert. case_decide as Hd; [subst p; rewrite Hu in Hp; simplify_eq; exists u'; rewrite decide_True by done; done | exists t2; rewrite decide_False by congruence; done].
    + intros p. rewrite lookup_insert. case_decide as Hd; [subst p; rewrite Hu; done | done].
  - rewrite (upd_task_some next _ _ un) by (cbn [tasks]; rewrite lookup_insert_ne by done; exact Hun). cbn [mbind option_bind tasks rq upd_rq]. set (un' := set_timestamp now un).
    assert (core_ok (mk_sched (<[next := un']> (<[prev := u']> (tasks s2))) (rq s2))) as K4.
    { refine (soft_core (mk_sched (<[prev := u']> (tasks s2)) (rq s2)) next un un' K3 _ _ _ _ _ _); try done; [cbn [tasks]; by rewrite lookup_insert_ne | by pose proof (ro_tasks _ (proj2 (proj2 K2)) _ _ Hun)]. }
    exists s1, pt1, s2, (mk_sched (<[next := un']> (<[prev := u']> (tasks s2))) (set_curr next (set_nr_switches (u64 (nr_switches (rq s2) + 1)) (rq s2)))). split; [done |]. split; [done |]. split; [done |]. cbn [rq tasks curr active idle expired_timestamp nr_running set_curr set_nr_switches]. split; [done |]. split; [done |]. split.
    { destruct K4 as (A4 & N4 & [R1 R2 R3 R4 R5 R6]). split; [split; [done |]; split; [done |]; split; cbn [rq tasks] in *; try done |].
      - cbn. rewrite lookup_insert_eq. by eexists.
      - intros v. cbn. rewrite lookup_insert_eq, I2. intros [= <-]. exact Hna. }
    split; [done |]. split; [congruence |]. split; [done |]. split; [done |]. split.
    + intros p t2 Hp. rewrite !lookup_insert. case_decide as Hd; [subst p; rewrite Hun in Hp; simplify_eq; exists un'; rewrite decide_False by done; done |].
      case_decide as Hd2; [subst p; rewrite Hu in Hp; simplify_eq; exists u'; rewrite decide_True by done; done | exists t2; rewrite decide_False by congruence; done].
    + intros p. rewrite !lookup_insert. case_decide as Hd; [subst p; by rewrite Hun |]. case_decide as Hd2; [subst p; by rewrite Hu | done].
Qed.

(** ** Fork and exit *)

Lemma add_task s p t : sched_ok s -> tasks s !! p = None -> array t = None -> task_ok t -> Z.of_nat (size (tasks s)) + 1 < 4294967296 -> sched_ok (mk_sched (<[p := t]> (tasks s)) (rq s)).
Proof.
  intros [(A & N & [R1 R2 R3 R4 R5 R6]) C] Hp Ha Hok Hs. split; [split; [| split; [done |]] |].
  - eapply arrays_ok_ext; [| exact A]. intros q. cbn [tasks]. rewrite loc_of_insert. case_decide as Hd; [| done]. subst q. rewrite Ha. unfold loc_of. by rewrite Hp.
  - split; cbn [tasks rq]; try done.
    + intros q u. rewrite lookup_insert. case_decide; [by intros [= <-] | apply R1].
    + intros q u b. rewrite lookup_insert. case_decide; [intros [= <-]; congruence | apply R3].
    + destruct R4 as (u & Hu & H). exists u. rewrite lookup_insert_ne by congruence. done.
    + rewrite lookup_insert. case_decide; [by eexists | done].
    + rewrite map_size_insert_None by done. lia.
  - intros u. cbn [tasks rq]. rewrite lookup_insert_ne; [apply C |]. intros ->. destruct R5. congruence.
Qed.

Lemma half_slice n : 1 <= n <= 100 -> 1 <= Z.shiftr (n ⊕ 1) 1 <= 100 /\ 0 <= Z.shiftr n 1 <= 100.
Proof.
  intros H. rewrite u32_id by (unfold is_u32; lia). rewrite !Z.shiftr_div_pow2 by lia. change (2 ^ 1) with 2. pose proof (Z.div_mod (n + 1) 2 ltac:(lia)). pose proof (Z.mod_pos_bound (n + 1) 2 ltac:(lia)). pose proof (Z.div_mod n 2 ltac:(lia)). pose proof (Z.mod_pos_bound n 2 ltac:(lia)). lia.
Qed.

(** The current task is copied to a new one. *)
Lemma fork_ok s p now j : sched_ok s -> tasks s !! p = None -> Z.of_nat (size (tasks s)) + 1 < 4294967296 ->
  exists s', copy_process p now j s = Some s' /\ sched_ok s' /\ rq_same (rq s) (rq s').
Proof.
  intros Hok Hp Hs. pose proof Hok as [(A & N & R) C]. destruct (ro_curr _ R) as [c Hc]. pose proof (ro_tasks _ R _ _ Hc) as Hck. set (cur := curr (rq s)) in *. assert (cur <> p) as Hne by congruence.
  unfold copy_process, dup_task_struct. fold cur. rewrite (Hc : get_task cur s = Some c). cbn [mbind option_bind]. unfold sched_fork. erewrite upd_task_some by (cbn [tasks]; apply lookup_insert_eq). cbn [mbind option_bind tasks rq]. rewrite insert_insert_eq. fold cur.
  assert (forall t, get_task cur (mk_sched (<[p := t]> (tasks s)) (rq s)) = Some c) as Hgc by (intros t; unfold get_task; cbn [tasks]; by rewrite lookup_insert_ne by congruence). rewrite Hgc. cbn [mbind option_bind].
  erewrite upd_task_some by (cbn [tasks]; apply lookup_insert_eq). cbn [mbind option_bind tasks rq]. rewrite insert_insert_eq. rewrite (upd_task_some cur _ _ c) by (apply Hgc). cbn [mbind option_bind tasks rq].
  set (t1 := set_first_time_slice true _). set (c1 := set_time_slice (Z.shiftr (time_slice c) 1) c). rewrite (insert_insert_ne (M := gmap Z)) by congruence. erewrite upd_task_some by (cbn [tasks]; apply lookup_insert_eq). cbn [mbind option_bind tasks rq]. rewrite insert_insert_eq.
  set (t2 := set_timestamp now t1). fold cur. assert (forall c', get_task cur (mk_sched (<[p := t2]> (<[cur := c']> (tasks s))) (rq s)) = Some c') as Hg2 by (intros c'; unfold get_task; cbn [tasks]; rewrite lookup_insert_ne by congruence; apply lookup_insert_eq).
  rewrite Hg2. cbn [mbind option_bind]. destruct (half_slice (time_slice c) ltac:(apply Hck)) as [H1 H2].
  assert (task_ok t2) as Ht2. { unfold task_ok in *. cbn [static_prio sleep_avg time_slice prio policy t2 t1 set_timestamp set_first_time_slice set_time_slice set_array_of set_state]. intuition lia. }
  assert (forall n, 1 <= n <= 100 -> sched_ok (mk_sched (<[p := t2]> (<[cur := set_time_slice n c]> (tasks s))) (rq s))) as Hfin.
  { intros n Hn. assert (sched_ok (mk_sched (<[cur := set_time_slice n c]> (tasks s)) (rq s))) as H3. { refine (soft_upd s cur c _ Hok Hc _ _ _ _ _); try done. unfold task_ok in *. cbn [static_prio sleep_avg time_slice prio policy set_time_slice]. intuition lia. }
    refine (add_task (mk_sched (<[cur := set_time_slice n c]> (tasks s)) (rq s)) p t2 H3 _ _ Ht2 _); [cbn [tasks]; by rewrite lookup_insert_ne | done | cbn [tasks]; by rewrite map_size_insert_Some]. }
  destruct (Z.eqb_spec (time_slice c1) 0) as [Hz | Hz].
  - rewrite (upd_task_some cur _ _ c1) by (apply Hg2). cbn [mbind option_bind tasks rq]. rewrite (insert_insert_ne (M := gmap Z)) by congruence. rewrite insert_insert_eq.
    change (set_time_slice 1 c1) with (set_time_slice 1 c). destruct (tick_ok now j _ (Hfin 1 ltac:(lia))) as (s' & E & K & S). exists s'. done.
  - eexists. split; [done |]. split; [| done]. apply Hfin. cbn [time_slice c1 set_time_slice] in Hz. lia.
Qed.

Lemma fmap_insert_before p q (Q : list (list Z)) i l : NoDup (concat Q) -> Q !! i = Some l -> q ∈ l -> insert_before p q <$> Q = <[i := insert_before p q l]> Q.
Proof.
  revert i. induction Q as [| x Q IH]; intros [| i] N Hi Hq; cbn in *; simplify_eq; apply NoDup_app in N as (N1 & N2 & N3).
  - f_equal. apply fmap_id_on. intros y Hy. apply insert_before_absent. intros Hqy. apply (N2 q Hq). apply elem_concat. by exists y.
  - rewrite (IH i) by done. f_equal. apply insert_before_absent. intros Hqx. apply (N2 q Hqx). apply elem_concat. exists l. split; [done |]. by eapply list_elem_of_lookup_2.
Qed.

Lemma activate_after_core s p t q c b : core_ok s -> tasks s !! p = Some t -> array t = None -> p <> idle (rq s) -> tasks s !! q = Some c -> array c = Some b -> prio t = prio c ->
  exists r, __activate_task_after p q s = Some (mk_sched (<[p := set_array_of (Some b) t]> (tasks s)) r) /\ core_ok (mk_sched (<[p := set_array_of (Some b) t]> (tasks s)) r) /\ rq_same (rq s) r.
Proof.
  intros K Ht Ha Hi Hc Hb Hpr. pose proof K as (A & N & R). pose proof A as (H1 & ND & Hlen & H4 & H5). destruct (H1 b) as (L1 & L2 & L3 & L4 & L5). pose proof (loc_of_some _ _ _ _ Hc Hb) as Hl. destruct (H5 _ _ _ Hl) as [I0 I1].
  destruct (queued_linked _ s q b _ A Hl) as [Q1 Q2]. pose proof (loc_of_none _ _ _ Ht Ha) as Hlp. set (a := get_array b (rq s)) in *.
  destruct (lookup_lt_is_Some_2 (queue a) (Z.to_nat (prio c)) ltac:(lia)) as [l Hq]. assert (q ∈ l) as Hql. { rewrite <- (Z2Nat.id (prio c)) in Hl by lia. apply (H4 b) in Hl. unfold qv in Hl. fold a in Hl. by rewrite Hq in Hl. }
  pose proof (queued_size _ _ _ (activate_new s p t K Ht Ha) ltac:(by eexists)) as Hqs. pose proof (ro_size _ R) as Hsz.
  assert (bitof (bitmap a) (prio c) = true) as Hbit. { rewrite <- (Z2Nat.id (prio c)), L4, Hq by lia. cbn. rewrite bool_decide_false; [done |]. intros ->. by apply elem_of_nil in Hql. }
  destruct (add_array_ok _ (rq s) p b (prio c) l (insert_before p q l) (bitmap a) A Hlp ltac:(done) Hq (insert_before_perm p q l Hql) ltac:(lia) L2) as [A2 P2]. { intros j Hj. case_decide as Hd; [by subst j | done]. } fold a in A2, P2.
  set (a2 := mk_array _ _ _) in A2, P2. assert (NoDup (concat (queue a))) as NDa. { rewrite (queued_split b) in ND. by apply NoDup_app in ND as (ND & _). }
  set (f := fun a => set_queue (insert_before p q <$> queue a) a). assert (f (get_array (negb b) (rq s)) = get_array (negb b) (rq s)) as Hfo.
  { unfold f, set_queue. rewrite fmap_id_on; [by destruct (get_array (negb b) (rq s)) |]. intros x Hx. apply insert_before_absent. intros Hqx. apply Q2. apply elem_concat. by exists x. }
  assert (upd_array false f (upd_array true f s) = mk_sched (tasks s) (set_array b (f a) (rq s))) as Hff. { unfold upd_array, upd_rq. cbn [tasks rq]. f_equal. destruct (rq s), b; cbn in *; unfold a in *; cbn in *; by rewrite Hfo. }
  unfold __activate_task_after, list_add_before. rewrite Q1, linked_queued, bool_decide_false by (rewrite (queued_loc _ _ _ A), Hlp; by intros [? ?]). cbn zeta. fold f. rewrite Hff. cbn [mbind option_bind].
  rewrite (Hc : get_task q (mk_sched (tasks s) _) = Some c). cbn [mbind option_bind]. rewrite Hb. cbn [mbind option_bind]. rewrite (upd_task_some p _ _ t) by done. cbn [mbind option_bind tasks rq].
  assert (nr_running (rq s) ⊕ 1 = nr_running (rq s) + 1) as Hn by (rewrite N; apply u32_id; unfold is_u32; lia).
  exists (set_nr_running (nr_running (rq s) ⊕ 1) (set_array b a2 (rq s))). assert (set_nr_active (nr_active (f a) ⊕ 1) (f a) = a2) as Hfa. { unfold a2, f, set_nr_active, set_queue. cbn. by rewrite (fmap_insert_before p q (queue a) (Z.to_nat (prio c)) l). }
  split; [| split].
  - unfold upd_array, upd_rq. cbn [tasks rq]. f_equal. f_equal. rewrite get_set_array, decide_True by done. rewrite Hfa. destruct (rq s), b; done.
  - split; [| split].
    + cbn [tasks rq]. assert (arrays_ok (loc_of (<[p := set_array_of (Some b) t]> (tasks s))) (set_array b a2 (rq s))) as A3; [| by destruct (rq s), b]. eapply arrays_ok_ext; [| exact A2]. intros x. rewrite loc_of_insert. unfold set_loc. case_decide; [| done]. cbn. by rewrite Hpr.
    + change (nr_running (rq s) ⊕ 1 = Z.of_nat (length (queued (set_nr_running (nr_running (rq s) ⊕ 1) (set_array b a2 (rq s)))))). assert (queued (set_nr_running (nr_running (rq s) ⊕ 1) (set_array b a2 (rq s))) = queued (set_array b a2 (rq s))) as -> by (by destruct (rq s), b). rewrite Hn, N, P2. cbn [length]. lia.
    + apply (rest_upd s p t); [done | done | by destruct (rq s), b | by pose proof (ro_tasks _ R _ _ Ht) | done |]. intros b' [= <-] Hr. eapply (ro_rt _ R q c); [done | done |]. unfold rt_task in *. cbn [prio set_array_of] in Hr. by rewrite <- Hpr.
  - by destruct (rq s), b.
Qed.

Lemma penalty_ok w t : 0 <= w <= 100 -> task_ok t -> task_ok (penalty w t).
Proof.
  intros Hw H. pose proof (bonus_range t H) as Hb. unfold task_ok in *. rewrite ns_max in *. cbn [static_prio sleep_avg time_slice prio policy penalty set_sleep_avg]. assert (0 <= JIFFIES_TO_NS (CURRENT_BONUS t * w / 100 * MAX_SLEEP_AVG / MAX_BONUS) <= 1000000000); [| intuition lia].
  unfold JIFFIES_TO_NS. change (1000000000 / HZ) with 10000000. change MAX_SLEEP_AVG with 100. change MAX_BONUS with 10. assert (0 <= CURRENT_BONUS t * w / 100 <= 10) as Hx by (split; [apply Z.div_pos; nia | apply Z.div_le_upper_bound; nia]).
  assert (0 <= CURRENT_BONUS t * w / 100 * 100 / 10 <= 100) by (split; [apply Z.div_pos | apply Z.div_le_upper_bound]; lia). lia.
Qed.

(** A task that has been forked and not been started. *)
Definition newborn (p : Z) (s : sched) : Prop := exists t, tasks s !! p = Some t /\ array t = None /\ state t = TASK_RUNNING /\ p <> idle (rq s).

Lemma not_queued_not_curr s p t : sched_ok s -> tasks s !! p = Some t -> array t = None -> p <> idle (rq s) -> p <> curr (rq s).
Proof. intros [_ C] Ht Ha Hi ->. destruct (C t Ht); congruence. Qed.

Lemma activated_ok s p t' r : sched_ok s -> core_ok (mk_sched (<[p := t']> (tasks s)) r) -> rq_same (rq s) r -> array t' <> None -> sched_ok (mk_sched (<[p := t']> (tasks s)) r).
Proof. intros [_ C] K S Ha. split; [done |]. by apply curr_upd. Qed.

Lemma new_task_ok s p vm : sched_ok s -> newborn p s -> exists s', wake_up_new_task p vm s = Some s' /\ sched_ok s' /\ rq_same (rq s) (rq s').
Proof.
  intros Hok (t & Ht & Ha & Hst & Hi). pose proof Hok as [K C]. pose proof K as (A & N & R). pose proof (not_queued_not_curr s p t Hok Ht Ha Hi) as Hc. pose proof (ro_tasks _ R _ _ Ht) as Htk. destruct (ro_curr _ R) as [c Hcur]. set (cur := curr (rq s)) in *.
  unfold wake_up_new_task. rewrite (Ht : get_task p s = Some t). cbn [mbind option_bind]. rewrite Hst. cbn [Z.eqb TASK_RUNNING negb]. rewrite (upd_task_some _ _ _ _ Ht). cbn [mbind option_bind]. erewrite upd_task_some by (cbn [tasks]; apply lookup_insert_eq). cbn [mbind option_bind tasks rq]. rewrite insert_insert_eq.
  set (t1 := set_prio _ _). fold cur. pose proof (penalty_ok 95 t ltac:(lia) Htk) as Hpk. assert (0 <= prio t1 < 140 /\ task_ok t1) as [Hp1 Htk1].
  { pose proof (effective_range _ Hpk) as He. assert (0 <= prio t1 < 140) as Hp. { cbn [prio t1 set_prio]. unfold effective_prio, rt_task, MAX_RT_PRIO. destruct Hpk as (_ & _ & _ & Hp & _). destruct (Z.ltb_spec (prio (penalty 95 t)) 100); lia. }
    split; [done |]. unfold task_ok in *. cbn [static_prio sleep_avg time_slice policy t1 set_prio] in *. intuition lia. }
  assert (get_task cur (mk_sched (<[p := t1]> (tasks s)) (rq s)) = Some c) as Hgc by (unfold get_task; cbn [tasks]; by rewrite lookup_insert_ne by congruence). rewrite Hgc. cbn [mbind option_bind].
  assert (forall t2, array t2 = None -> task_ok t2 -> sched_ok (mk_sched (<[p := t2]> (tasks s)) (rq s))) as Hpre.
  { intros t2 Ha2 Hk2. split; [split; [| split; [done |]] | by apply curr_upd].
    - cbn [tasks rq]. eapply arrays_ok_ext; [| exact A]. intros q. rewrite loc_of_insert. case_decide as Hd; [| done]. subst q. rewrite Ha2. cbn. by eapply loc_of_none.
    - apply (rest_upd s p t); try done. intros b Hb. congruence. }
  assert (forall s2, sched_ok s2 -> rq_same (rq s) (rq s2) -> exists s', upd_task cur (penalty 100) s2 = Some s' /\ sched_ok s' /\ rq_same (rq s) (rq s')) as Hpost.
  { intros s2 H2 S2. destruct (ro_curr _ (proj2 (proj2 (proj1 H2)))) as [c2 Hc2]. destruct S2 as (Sa & Se & Si & Sc). rewrite Sc in Hc2. fold cur in Hc2. rewrite (upd_task_some _ _ _ _ Hc2). eexists. split; [done |]. split; [| done].
    apply (soft_upd s2 cur c2); try done. apply penalty_ok; [lia |]. by apply (ro_tasks _ (proj2 (proj2 (proj1 H2))) cur). }
  assert (forall s2, sched_ok s2 -> rq_same (rq s) (rq s2) -> exists s', resched_task cur s2 = Some s' /\ sched_ok s' /\ rq_same (rq s) (rq s')) as Hres.
  { intros s2 H2 S2. pose proof S2 as (_ & _ & _ & Sc). destruct (resched_ok s2 cur H2) as (s' & E & H' & S'); [unfold cur; rewrite <- Sc; apply (ro_curr _ (proj2 (proj2 (proj1 H2)))) |]. exists s'. rewrite S'. done. }
  assert (forall t2, array t2 = None -> task_ok t2 -> 0 <= prio t2 < 140 -> exists s', __activate_task p (mk_sched (<[p := t2]> (tasks s)) (rq s)) = Some s' /\ sched_ok s' /\ rq_same (rq s) (rq s') /\ is_Some (tasks s' !! p)) as Hact.
  { intros t2 Ha2 Hk2 Hp2. pose proof (Hpre t2 Ha2 Hk2) as H2. destruct (activate_core (mk_sched (<[p := t2]> (tasks s)) (rq s)) p t2) as (r & E & K' & S & _); [eapply activate_new; [apply H2 | apply lookup_insert_eq | done] | apply H2 | apply H2 | apply lookup_insert_eq | done | done |].
    eexists. split; [done |]. split; [| split; [done | cbn [tasks]; rewrite lookup_insert_eq; by eexists]]. apply (activated_ok (mk_sched (<[p := t2]> (tasks s)) (rq s))); [done | done | done | done]. }
  destruct vm; cbn [negb].
  - destruct (Hact t1 Ha Htk1 Hp1) as (s2 & -> & H2 & S2 & [u Hu]). cbn [mbind option_bind]. rewrite (Hu : get_task p s2 = Some u). cbn [mbind option_bind]. pose proof S2 as (_ & _ & _ & Sc). destruct (ro_curr _ (proj2 (proj2 (proj1 H2)))) as [c2 Hc2].
    unfold TASK_PREEMPTS_CURR. rewrite (Hu : get_task p s2 = Some u), (Hc2 : get_task (curr (rq s2)) s2 = Some c2). cbn [mbind option_bind]. destruct (rt_task u && (prio u <? prio c2)).
    + destruct (Hres s2 H2 S2) as (s3 & -> & H3 & S3). cbn [mbind option_bind]. by apply Hpost.
    + cbn [mbind option_bind]. by apply Hpost.
  - assert (exists s2, match array c with None => __activate_task p (mk_sched (<[p := t1]> (tasks s)) (rq s)) | Some _ => s0 ← upd_task p (set_prio (prio c)) (mk_sched (<[p := t1]> (tasks s)) (rq s)); __activate_task_after p cur s0 end = Some s2 /\ sched_ok s2 /\ rq_same (rq s) (rq s2)) as (s2 & -> & H2 & S2).
    { destruct (array c) as [b |] eqn:Hb; [| destruct (Hact t1 Ha Htk1 Hp1) as (s2 & E & H2 & S2 & _); eauto]. erewrite upd_task_some by (cbn [tasks]; apply lookup_insert_eq). cbn [mbind option_bind tasks rq]. rewrite insert_insert_eq. set (t2 := set_prio (prio c) t1).
      assert (task_ok t2) as Hk2. { pose proof (ro_tasks _ R _ _ Hcur) as Hck. unfold task_ok in *. cbn [static_prio sleep_avg time_slice policy prio t2 set_prio] in *. intuition lia. }
      pose proof (Hpre t2 Ha Hk2) as H2. destruct (activate_after_core _ p t2 cur c b (proj1 H2) (lookup_insert_eq _ _ _) Ha Hi) as (r & E & K' & S); [cbn [tasks]; by rewrite lookup_insert_ne | done | done |].
      eexists. split; [done |]. split; [| done]. apply (activated_ok (mk_sched (<[p := t2]> (tasks s)) (rq s))); done. }
    cbn [mbind option_bind]. destruct (Hres s2 H2 S2) as (s3 & -> & H3 & S3). cbn [mbind option_bind]. by apply Hpost.
Qed.

Lemma exit_ok s p parent : sched_ok s -> is_Some (tasks s !! p) -> is_Some (tasks s !! parent) -> exists s', sched_exit p parent s = Some s' /\ sched_ok s' /\ rq s' = rq s.
Proof.
  intros Hok [t Ht] [u Hu]. pose proof Hok as [(A & N & R) C]. pose proof (ro_tasks _ R _ _ Ht) as Htk. pose proof (ro_tasks _ R _ _ Hu) as Huk. pose proof (timeslice_range t Htk) as Hts. unfold sched_exit. rewrite (Ht : get_task p s = Some t). cbn [mbind option_bind].
  set (u1 := if first_time_slice t then set_time_slice (if time_slice u ⊕ time_slice t >? task_timeslice t then task_timeslice t else time_slice u ⊕ time_slice t) u else u).
  assert ((if first_time_slice t then upd_task parent (fun pt => set_time_slice (if time_slice pt ⊕ time_slice t >? task_timeslice t then task_timeslice t else time_slice pt ⊕ time_slice t) pt) s else Some s) = Some (mk_sched (<[parent := u1]> (tasks s)) (rq s))) as ->.
  { unfold u1. case_match; [by rewrite (upd_task_some _ _ _ u) by done |]. rewrite insert_id by done. by destruct s. }
  cbn [mbind option_bind]. erewrite upd_task_some by (cbn [tasks]; apply lookup_insert_eq). cbn [tasks rq]. rewrite insert_insert_eq.
  assert (task_ok u1) as H1. { unfold u1. destruct (first_time_slice t); [| done]. assert (1 <= (if time_slice u ⊕ time_slice t >? task_timeslice t then task_timeslice t else time_slice u ⊕ time_slice t) <= 100) as Hx.
    { destruct Htk as (_ & _ & T1 & _), Huk as (_ & _ & T2 & _). rewrite u32_id by (unfold is_u32; lia). destruct (Z.gtb_spec (time_slice u + time_slice t) (task_timeslice t)); lia. }
    unfold task_ok in *. cbn [static_prio sleep_avg time_slice policy prio set_time_slice] in *. intuition lia. }
  eexists. split; [done |]. split; [| done]. apply (soft_upd s parent u); try done; try (unfold u1; by repeat case_match). destruct (Z.ltb_spec (sleep_avg t) (sleep_avg u1)) as [Hlt |]; [| done].
  destruct Htk as (_ & Sv & _). unfold task_ok in *. rewrite ns_max in *. cbn [static_prio sleep_avg time_slice policy prio set_sleep_avg] in *. assert (0 <= sleep_avg u1 / 4 * 3 + sleep_avg t / 4 <= 1000000000); [| intuition lia].
  pose proof (Z.div_pos (sleep_avg u1) 4 ltac:(lia) ltac:(lia)). pose proof (Z.div_pos (sleep_avg t) 4 ltac:(lia) ltac:(lia)). pose proof (Z.mul_div_le (sleep_avg u1) 4 ltac:(lia)). pose proof (Z.mul_div_le (sleep_avg t) 4 ltac:(lia)). lia.
Qed.

(** ** Nice values and policies *)

(** A queued task changes and goes to a queue again. *)
Lemma move_ok s p t t1 b b' : sched_ok s -> tasks s !! p = Some t -> array t = Some b -> task_ok t1 -> prio t1 < 140 -> (rt_task t1 = true -> b' = active (rq s)) ->
  exists r1 r2, dequeue_task p b s = Some (mk_sched (tasks s) r1) /\ rq_same (rq s) r1 /\ enqueue_task p b' (mk_sched (<[p := t1]> (tasks s)) r1) = Some (mk_sched (<[p := set_array_of (Some b') t1]> (tasks s)) r2) /\
    sched_ok (mk_sched (<[p := set_array_of (Some b') t1]> (tasks s)) r2) /\ rq_same (rq s) r2.
Proof.
  intros [K C] Ht Hb Hk Hp Hrt. pose proof K as (A & N & R). assert (p <> idle (rq s)) as Hi by (intros ->; destruct (ro_idle _ R) as (u & Hu & Hn & _); congruence).
  assert (0 <= prio t1) as Hp0 by apply Hk. destruct (move_spec (tasks s) (rq s) p t t1 b b' (fun r => r) A Ht Hb ltac:(lia) (ro_size _ R) ltac:(done) t eq_refl eq_refl) as (r1 & r2 & E1 & R1 & E2 & R2 & A2 & P2 & _).
  rewrite insert_id in E1 by done. assert (same_rest (rq s) r2) as SR by (by eapply same_rest_trans). pose proof (same_rest_same _ _ SR) as SS. exists r1, r2. split; [by destruct s |]. split; [by apply same_rest_same |]. split; [done |]. split; [| done]. split; [split; [done |]; split |].
  - cbn [rq]. by rewrite P2, (same_rest_nr _ _ SR).
  - apply (rest_upd s p t); [done | done | done | done | done |]. intros b0 [= <-]. exact Hrt.
  - by apply curr_upd.
Qed.

(** A task that is not queued changes. *)
Lemma idle_upd s p t t1 : sched_ok s -> tasks s !! p = Some t -> array t = None -> p <> idle (rq s) -> array t1 = None -> task_ok t1 -> sched_ok (mk_sched (<[p := t1]> (tasks s)) (rq s)).
Proof.
  intros Hok Ht Ha Hi Ha1 Hk. pose proof Hok as [(A & N & R) C]. pose proof (not_queued_not_curr s p t Hok Ht Ha Hi) as Hc. split; [split; [| split; [done |]] | by apply curr_upd].
  - cbn [tasks rq]. eapply arrays_ok_ext; [| exact A]. intros q. rewrite loc_of_insert. case_decide as Hd; [| done]. subst q. rewrite Ha1. cbn. by eapply loc_of_none.
  - apply (rest_upd s p t); try done. intros b Hb. congruence.
Qed.

Lemma nice_ok s p nice : sched_ok s -> is_Some (tasks s !! p) -> p <> idle (rq s) -> exists s', set_user_nice p nice s = Some s' /\ sched_ok s' /\ rq_same (rq s) (rq s').
Proof.
  intros Hok [t Ht] Hi. pose proof Hok as [(A & N & R) C]. pose proof (ro_tasks _ R _ _ Ht) as Htk. unfold set_user_nice. rewrite (Ht : get_task p s = Some t). cbn [mbind option_bind].
  destruct ((TASK_NICE t =? nice) || (nice <? -20) || (nice >? 19)) eqn:HB; [by exists s |]. apply orb_false_iff in HB as [HB H3]. apply orb_false_iff in HB as [_ H2]. assert (100 <= NICE_TO_PRIO nice <= 139) as Hn by (unfold NICE_TO_PRIO, MAX_RT_PRIO; lia).
  destruct (rt_task t) eqn:Hrt.
  { rewrite (upd_task_some _ _ _ _ Ht). eexists. split; [done |]. split; [| done]. apply (soft_upd s p t); try done. unfold task_ok in *. cbn [static_prio sleep_avg time_slice policy prio set_static_prio] in *. intuition lia. }
  set (t1 := set_prio (prio t + (NICE_TO_PRIO nice - prio t)) (set_static_prio (NICE_TO_PRIO nice) t)). assert (prio t1 = NICE_TO_PRIO nice) as Hp1 by (cbn; lia).
  assert (task_ok t1) as Hk1. { unfold task_ok in *. rewrite Hp1. cbn [static_prio sleep_avg time_slice policy t1 set_prio set_static_prio] in *. intuition lia. }
  destruct (array t) as [b |] eqn:Hb.
  - destruct (move_ok s p t t1 b b Hok Ht Hb Hk1 ltac:(lia)) as (r1 & r2 & E1 & S1 & E2 & K2 & S2); [unfold rt_task, MAX_RT_PRIO; rewrite Hp1; lia |]. rewrite E1. cbn [mbind option_bind]. rewrite (upd_task_some p _ _ t) by done. cbn [mbind option_bind tasks rq].
    change (set_prio _ _) with t1. rewrite E2. cbn [mbind option_bind]. destruct (_ || _); [| eauto]. destruct (resched_ok _ (curr r2) K2 (ro_curr _ (proj2 (proj2 (proj1 K2))))) as (s' & E & K' & S'). cbn [rq] in *. exists s'. rewrite E, S'. done.
  - cbn [mbind option_bind]. rewrite (upd_task_some p _ _ t) by done. cbn [mbind option_bind]. eexists. split; [done |]. split; [| done]. by apply (idle_upd s p t).
Qed.

Lemma prio_changed_ok s p old : sched_ok s -> is_Some (tasks s !! p) -> exists s', prio_changed p old s = Some s' /\ sched_ok s' /\ rq s' = rq s.
Proof.
  intros Hok [t Ht]. unfold prio_changed. rewrite (Ht : get_task p s = Some t). cbn [mbind option_bind]. destruct (ro_curr _ (proj2 (proj2 (proj1 Hok)))) as [c Hc]. destruct (resched_ok s (curr (rq s)) Hok ltac:(by eexists)) as (s' & E & H).
  destruct (task_running p s); [destruct (prio t >? old); eauto |]. unfold TASK_PREEMPTS_CURR. rewrite (Ht : get_task p s = Some t), (Hc : get_task (curr (rq s)) s = Some c). cbn [mbind option_bind]. destruct (prio t <? prio c); eauto.
Qed.

Lemma mutex_setprio_ok s p new : sched_ok s -> is_Some (tasks s !! p) -> p <> idle (rq s) -> 0 <= new < 140 -> exists s', mutex_setprio p new s = Some s' /\ sched_ok s' /\ rq_same (rq s) (rq s').
Proof.
  intros Hok [t Ht] Hi Hn. pose proof Hok as [(A & N & R) C]. pose proof (ro_tasks _ R _ _ Ht) as Htk. unfold mutex_setprio, MAX_PRIO, MAX_RT_PRIO. rewrite (proj2 (Z.ltb_ge new 0)), (proj2 (Z.gtb_ltb new 140) eq_refl) || (replace ((new <? 0) || (new >? 140)) with false by lia).
  rewrite (Ht : get_task p s = Some t). cbn [mbind option_bind]. set (t1 := set_prio new t). assert (task_ok t1) as Hk1. { unfold task_ok in *. cbn [static_prio sleep_avg time_slice policy prio t1 set_prio] in *. intuition lia. }
  destruct (array t) as [b |] eqn:Hb.
  - destruct (move_ok s p t t1 b (if new <? 100 then active (rq s) else b) Hok Ht Hb Hk1 ltac:(cbn; lia)) as (r1 & r2 & E1 & S1 & E2 & K2 & S2); [unfold rt_task, MAX_RT_PRIO; cbn; by destruct (new <? 100) |]. rewrite E1. cbn [mbind option_bind]. rewrite (upd_task_some p _ _ t) by done. cbn [mbind option_bind tasks rq].
    destruct S1 as (Sa & _). rewrite Sa. fold t1. rewrite E2. cbn [mbind option_bind]. destruct (prio_changed_ok _ p (prio t) K2) as (s' & E & K' & S'); [cbn [tasks]; rewrite lookup_insert_eq; by eexists |]. exists s'. rewrite S'. done.
  - cbn [mbind option_bind]. rewrite (upd_task_some p _ _ t) by done. cbn [mbind option_bind]. eexists. split; [done |]. split; [| done]. by apply (idle_upd s p t).
Qed.

(** Off the run queue, [__setscheduler], and on it again. *)
Definition new_policy (pol prio_arg : Z) (t : task_struct) : task_struct :=
  let t := set_rt_priority prio_arg (set_policy pol t) in set_prio (if negb (pol =? SCHED_NORMAL) then 100 - 1 - rt_priority t else static_prio t) t.

Lemma change_policy_ok s p t pol a : sched_ok s -> tasks s !! p = Some t -> p <> idle (rq s) -> 0 <= pol <= 2 -> 0 <= a <= 99 ->
  forall (fin : sched -> option sched), (forall s1, sched_ok s1 -> is_Some (tasks s1 !! p) -> rq_same (rq s) (rq s1) -> exists s', fin s1 = Some s' /\ sched_ok s' /\ rq_same (rq s1) (rq s')) ->
  exists s', (s1 ← (match array t with Some _ => deactivate_task p s | None => Some s end); s1 ← __setscheduler p pol a s1; match array t with Some _ => s1 ← __activate_task p s1; fin s1 | None => Some s1 end) = Some s' /\ sched_ok s' /\ rq_same (rq s) (rq s').
Proof.
  intros Hok Ht Hi Hpol Ha fin Hfin. pose proof Hok as [K C]. pose proof K as (A & N & R). pose proof (ro_tasks _ R _ _ Ht) as Htk. set (t1 := new_policy pol a t).
  assert (task_ok t1 /\ 0 <= prio t1 < 140 /\ array t1 = array t) as (Hk1 & Hp1 & Ha1).
  { assert (0 <= prio t1 < 140) as Hp. { destruct Htk as (Hs & _). unfold t1, new_policy, SCHED_NORMAL. cbn. destruct (Z.eqb_spec pol 0); cbn [negb]; lia. } split; [| done]. unfold task_ok in *. assert (policy t1 = pol) as -> by done. assert (static_prio t1 = static_prio t /\ sleep_avg t1 = sleep_avg t /\ time_slice t1 = time_slice t) as (-> & -> & ->) by done. intuition lia. }
  destruct (array t) as [b |] eqn:Hb.
  - destruct (deactivate_core s p t b K Ht Hb Hi) as (r1 & -> & K1 & S1 & N1 & _). cbn [mbind option_bind]. unfold __setscheduler. rewrite get_task_insert. cbn [mbind option_bind array set_array_of]. erewrite upd_task_some by (cbn [tasks]; apply lookup_insert_eq). cbn [mbind option_bind tasks rq]. rewrite insert_insert_eq.
    change (set_prio _ _) with (set_array_of None t1). set (t2 := set_array_of None t1). pose proof S1 as (Sa & Se & Si & Sc).
    destruct (activate_core (mk_sched (<[p := t2]> (tasks s)) r1) p t2) as (r2 & E2 & K2 & S2 & _).
    + pose proof (activate_new _ p (set_array_of None t) K1 (lookup_insert_eq _ _ _) eq_refl) as H. cbn [tasks rq] in *. eapply arrays_ok_ext; [| exact H]. intros q. by rewrite !no_loc_insert.
    + apply K1.
    + pose proof (rest_upd _ p (set_array_of None t) t2 r1 (proj2 (proj2 K1)) (lookup_insert_eq _ _ _)) as H. cbn [tasks rq] in H. rewrite insert_insert_eq in H. apply H; try done. intros ->. congruence.
    + apply lookup_insert_eq.
    + cbn [rq]. congruence.
    + done.
    + cbn [tasks rq] in *. rewrite insert_insert_eq in *. rewrite E2. cbn [mbind option_bind]. assert (rq_same (rq s) r2) as SS by (by eapply rq_same_trans).
      destruct (Hfin (mk_sched (<[p := set_array_of (Some (active r1)) t2]> (tasks s)) r2)) as (s' & E & K' & S'); [by apply activated_ok | cbn [tasks]; rewrite lookup_insert_eq; by eexists | done |]. exists s'. split; [done |]. split; [done |]. by eapply rq_same_trans.
  - cbn [mbind option_bind]. unfold __setscheduler. rewrite (Ht : get_task p s = Some t). cbn [mbind option_bind]. rewrite Hb. rewrite (upd_task_some p _ _ t) by done. cbn [mbind option_bind]. eexists. split; [done |]. split; [| done]. by apply (idle_upd s p t t1).
Qed.

Ltac unchanged := eexists _, _; split; [done |]; split; done.

Lemma setscheduler_ok s p pol a cap hook : sched_ok s -> is_Some (tasks s !! p) -> p <> idle (rq s) -> exists n s', sched_setscheduler p pol a cap hook s = Some (n, s') /\ sched_ok s' /\ rq_same (rq s) (rq s').
Proof.
  intros Hok [t Ht] Hi. pose proof Hok as [(A & N & R) C]. pose proof (ro_tasks _ R _ _ Ht) as Htk. destruct (ro_curr _ R) as [c Hc]. unfold sched_setscheduler. rewrite (Ht : get_task p s = Some t), (Hc : get_task (curr (rq s)) s = Some c). cbn [mbind option_bind].
  destruct ((0 <=? pol) && negb (pol =? SCHED_FIFO) && negb (pol =? SCHED_RR) && negb (pol =? SCHED_NORMAL)) eqn:H1; [unchanged |]. set (pol' := if pol <? 0 then policy t else pol). destruct ((a <? 0) || (a >? 100 - 1)) eqn:H2; [unchanged |]. destruct (negb (Bool.eqb (pol' =? SCHED_NORMAL) (a =? 0))); [unchanged |]. destruct (((pol' =? SCHED_FIFO) || (pol' =? SCHED_RR)) && negb cap); [unchanged |].
  destruct (negb (euid c =? euid t) && negb (euid c =? uid t) && negb cap); [unchanged |]. destruct (negb (hook =? 0)); [unchanged |].
  assert (0 <= pol' <= 2) as Hpol. { unfold pol', SCHED_FIFO, SCHED_RR, SCHED_NORMAL in *. destruct Htk as (_ & _ & _ & _ & Hp). destruct (Z.ltb_spec pol 0); [done |]. destruct (Z.eqb_spec pol 1), (Z.eqb_spec pol 2), (Z.eqb_spec pol 0), (Z.leb_spec 0 pol); cbn in H1; done || lia. }
  destruct (change_policy_ok s p t pol' a Hok Ht Hi Hpol ltac:(lia) (prio_changed p (prio t))) as (s' & E & K & S). { intros s1 K1 H _. destruct (prio_changed_ok s1 p (prio t) K1 H) as (s' & E & K & S). exists s'. rewrite S. done. }
  apply bind_Some in E as (s1 & E1 & E). apply bind_Some in E as (s2 & E2 & E3). rewrite E1. cbn [mbind option_bind]. rewrite E2. cbn [mbind option_bind]. rewrite E3. cbn [mbind option_bind]. eauto.
Qed.

Lemma sys_nice_ok s inc cap hook : sched_ok s -> curr (rq s) <> idle (rq s) -> exists n s', sys_nice inc cap hook s = Some (n, s') /\ sched_ok s' /\ rq_same (rq s) (rq s').
Proof.
  intros Hok Hi. destruct (ro_curr _ (proj2 (proj2 (proj1 Hok)))) as [c Hc]. unfold sys_nice. destruct ((inc <? 0) && negb cap); [unchanged |]. rewrite (Hc : get_task (curr (rq s)) s = Some c). cbn [mbind option_bind]. match goal with |- context [if negb (hook ?n =? 0) then _ else _] => destruct (negb (hook n =? 0)) end; [unchanged |].
  edestruct (nice_ok s (curr (rq s))) as (s' & E & K & S); [exact Hok | by eexists | exact Hi |]. rewrite E. cbn [mbind option_bind]. eauto.
Qed.

Lemma schedule_ok s now sig pre : sched_ok s -> exists s', __schedule now sig pre s = Some s' /\ sched_ok s'.
Proof. intros Hok. destruct (ro_curr _ (proj2 (proj2 (proj1 Hok)))) as [c Hc]. destruct (schedule_spec now sig pre s c Hok Hc) as (s1 & pt1 & s2 & s' & _ & _ & _ & _ & E & K & _). eauto. Qed.

Lemma yield_ok s now : sched_ok s -> curr (rq s) <> idle (rq s) -> exists s', sys_sched_yield now s = Some s' /\ sched_ok s'.
Proof.
  intros Hok Hi. pose proof Hok as [(A & N & R) C]. destruct (ro_curr _ R) as [c Hc]. set (cur := curr (rq s)) in *. pose proof (ro_tasks _ R _ _ Hc) as Hck. unfold sys_sched_yield. fold cur. rewrite (Hc : get_task cur s = Some c). cbn [mbind option_bind].
  destruct (C c Hc) as [? | Ha]; [done |]. destruct (array c) as [b |] eqn:Hb; [| done]. cbn [mbind option_bind]. set (target := if rt_task c then active (rq s) else expired (rq s)).
  assert (exists s1, (if negb (Bool.eqb b target) then s0 ← dequeue_task cur b s; enqueue_task cur target s0 else requeue_task cur b s) = Some s1 /\ sched_ok s1) as (s1 & -> & K1); [| cbn [mbind option_bind]; by apply schedule_ok].
  destruct (negb (Bool.eqb b target)); [| destruct (requeue_ok s cur c b Hok Hc Hb) as (r & E & K & _); eauto]. assert (prio c < 140) as Hp. { destruct A as (_ & _ & _ & _ & H5). pose proof (H5 _ _ _ (loc_of_some _ _ _ _ Hc Hb)). lia. }
  destruct (move_ok s cur c c b target Hok Hc Hb Hck Hp) as (r1 & r2 & E1 & _ & E2 & K & _); [unfold target; by intros -> |]. rewrite E1. cbn [mbind option_bind]. rewrite insert_id in E2 by done. rewrite E2. eauto.
Qed.

(** No change of policy makes a task appear or vanish. *)
Lemma upd_dom p f s s' : upd_task p f s = Some s' -> same_dom s s'.
Proof. intros E q. unfold upd_task in E. apply bind_Some in E as (t & Ht & [= <-]). cbn [tasks]. rewrite lookup_insert. case_decide as Hd; [| done]. subst q. rewrite Ht. split; by eexists. Qed.

Lemma dequeue_tasks p b s s' : dequeue_task p b s = Some s' -> tasks s' = tasks s.
Proof.
  unfold dequeue_task, list_del. intros (t & _ & E)%bind_Some. apply bind_Some in E as (s1 & E1 & E). case_match; [| done]. injection E1 as <-. apply bind_Some in E as (q & _ & E). case_match; [apply bind_Some in E as (m & _ & E) |]; by injection E as <-.
Qed.

Lemma enqueue_dom p b s s' : enqueue_task p b s = Some s' -> same_dom s s'.
Proof.
  unfold enqueue_task, list_add_tail. intros (t & _ & E)%bind_Some. apply bind_Some in E as (s1 & E1 & E). case_match; [done |]. apply bind_Some in E1 as (q & _ & [= <-]). apply bind_Some in E as (m & _ & E). by apply upd_dom in E.
Qed.

Lemma policy_dom s p t pol a fin s1 s2 s' : (forall s s', fin s = Some s' -> same_dom s s') -> (match array t with Some _ => deactivate_task p s | None => Some s end) = Some s1 -> __setscheduler p pol a s1 = Some s2 ->
  (match array t with Some _ => s3 ← __activate_task p s2; fin s3 | None => Some s2 end) = Some s' -> same_dom s s'.
Proof.
  intros Hf E1 E2 E3. unfold __setscheduler in E2. apply bind_Some in E2 as (t1 & _ & E2). destruct (array t1); [done |]. apply upd_dom in E2. destruct (array t).
  - unfold deactivate_task in E1. apply bind_Some in E1 as (t2 & _ & E1). apply bind_Some in E1 as (b2 & _ & E1). apply bind_Some in E1 as (s4 & E4 & E1). apply dequeue_tasks in E4. apply upd_dom in E1. apply bind_Some in E3 as (s5 & E5 & E3). apply Hf in E3.
    unfold __activate_task in E5. apply bind_Some in E5 as (s6 & E6 & [= <-]). apply enqueue_dom in E6. intros q. rewrite (E3 q). cbn [tasks upd_rq] in *. rewrite (E6 q), (E2 q), (E1 q). by rewrite E4.
  - injection E1 as <-. injection E3 as <-. done.
Qed.

Lemma normalize_ok ps : forall s, sched_ok s -> Forall (fun p => is_Some (tasks s !! p) /\ p <> idle (rq s)) ps -> exists s', normalize_rt_tasks ps s = Some s' /\ sched_ok s'.
Proof.
  induction ps as [| p ps IH]; intros s Hok Hps; [by exists s |]. apply Forall_cons in Hps as [[[t Ht] Hi] Hps]. cbn [normalize_rt_tasks]. rewrite (Ht : get_task p s = Some t). cbn [mbind option_bind]. destruct (negb (rt_task t)); [by apply IH |].
  destruct (change_policy_ok s p t SCHED_NORMAL 0 Hok Ht Hi ltac:(done) ltac:(done) (fun s1 => resched_task (curr (rq s1)) s1)) as (s' & E & K & (Sa & Se & Si & Sc)).
  { intros s1 K1 _ _. destruct (resched_ok s1 (curr (rq s1)) K1 (ro_curr _ (proj2 (proj2 (proj1 K1))))) as (s2 & E2 & K2 & S2). exists s2. rewrite S2. done. }
  apply bind_Some in E as (s1 & E1 & E). apply bind_Some in E as (s2 & E2 & E3). rewrite E1. cbn [mbind option_bind]. rewrite E2. cbn [mbind option_bind]. rewrite E3. cbn [mbind option_bind]. apply IH; [done |].
  pose proof (policy_dom s p t _ _ (fun s1 => resched_task (curr (rq s1)) s1) s1 s2 s' ltac:(intros ? ?; apply upd_dom) E1 E2 E3) as Hdom. rewrite Si. eapply Forall_impl; [exact Hps |]. intros q [H1 H2]. split; [by apply Hdom | done].
Qed.

(** ** All calls together *)

(** When a call may be made. The idle task neither sleeps nor yields and keeps its priority. *)
Definition allowed (e : event) (s : sched) : Prop :=
  match e with
  | Tick _ _ | Schedule _ _ _ => True
  | SetState _ | Die _ | SysNice _ _ _ | Yield _ => curr (rq s) <> idle (rq s)
  | Wake p _ _ _ _ _ => is_Some (tasks s !! p)
  | Fork p _ _ => tasks s !! p = None /\ Z.of_nat (size (tasks s)) + 1 < 4294967296
  | WakeNew p _ => newborn p s
  | Exit p parent => is_Some (tasks s !! p) /\ is_Some (tasks s !! parent)
  | Release p => p <> curr (rq s) /\ p <> idle (rq s) /\ exists t, tasks s !! p = Some t /\ array t = None
  | SetNice p _ | SetScheduler p _ _ _ _ => is_Some (tasks s !! p) /\ p <> idle (rq s)
  | MutexSetprio p new => is_Some (tasks s !! p) /\ p <> idle (rq s) /\ 0 <= new < MAX_PRIO
  | Normalize ps => Forall (fun p => is_Some (tasks s !! p) /\ p <> idle (rq s)) ps
  end.

Lemma release_ok s p t : sched_ok s -> p <> curr (rq s) -> p <> idle (rq s) -> tasks s !! p = Some t -> array t = None -> sched_ok (mk_sched (delete p (tasks s)) (rq s)).
Proof.
  intros [(A & N & [R1 R2 R3 R4 R5 R6]) C] Hc Hi Ht Ha. split; [split; [| split; [done |]] |].
  - eapply arrays_ok_ext; [| exact A]. intros q. cbn [tasks]. unfold loc_of. destruct (decide (q = p)) as [-> | Hd]; [rewrite lookup_delete_eq, Ht; cbn; by rewrite Ha | by rewrite lookup_delete_ne by congruence].
  - split; cbn [tasks rq]; try done.
    + intros q u [_ Hq]%lookup_delete_Some. eauto.
    + intros q u b [_ Hq]%lookup_delete_Some. eauto.
    + destruct R4 as (u & Hu & H). exists u. by rewrite lookup_delete_ne.
    + by rewrite lookup_delete_ne.
    + rewrite map_size_delete, Ht. lia.
  - intros u. cbn [tasks rq]. rewrite lookup_delete_ne by done. apply C.
Qed.

Lemma step_ok e s : sched_ok s -> allowed e s -> exists s', step e s = Some s' /\ sched_ok s'.
Proof.
  intros Hok Ha. destruct e; cbn [step allowed] in *.
  - destruct (tick_ok now jiffies s Hok) as (s' & E & K & _). eauto.
  - by apply schedule_ok.
  - destruct (ro_curr _ (proj2 (proj2 (proj1 Hok)))) as [c Hc]. rewrite (upd_task_some _ _ _ _ Hc). eexists. split; [done |]. by apply state_upd.
  - destruct (ro_curr _ (proj2 (proj2 (proj1 Hok)))) as [c Hc]. unfold do_exit. rewrite (upd_task_some _ _ _ _ Hc). apply schedule_ok. apply (life_upd s _ c); try done. apply (ro_tasks _ (proj2 (proj2 (proj1 Hok))) _ _ Hc).
  - destruct (wake_ok s p st sync mutex now in_interrupt Hok Ha) as (n & s' & -> & K & _). eauto.
  - destruct Ha as [H1 H2]. destruct (fork_ok s p now jiffies Hok H1 H2) as (s' & E & K & _). eauto.
  - destruct (new_task_ok s p clone_vm Hok Ha) as (s' & E & K & _). eauto.
  - destruct Ha as [H1 H2]. destruct (exit_ok s p parent Hok H1 H2) as (s' & E & K & _). eauto.
  - destruct Ha as (H1 & H2 & t & Ht & Hn). eexists. split; [done |]. by eapply release_ok.
  - destruct Ha as [H1 H2]. destruct (nice_ok s p nice Hok H1 H2) as (s' & E & K & _). eauto.
  - destruct (sys_nice_ok s increment capable hook Hok Ha) as (n & s' & -> & K & _). eauto.
  - destruct Ha as [H1 H2]. destruct (setscheduler_ok s p pol prio_arg capable hook Hok H1 H2) as (n & s' & -> & K & _). eauto.
  - destruct Ha as (H1 & H2 & H3). destruct (mutex_setprio_ok s p new Hok H1 H2 H3) as (s' & E & K & _). eauto.
  - by apply normalize_ok.
  - by apply yield_ok.
Qed.

Definition empty_array : prio_array := mk_array 0 [0; 0; 0; 0; 4096] (replicate 140 []).

Lemma init_array_eq : init_array = Some empty_array.
Proof. reflexivity. Qed.

Lemma concat_replicate_nil n : concat (replicate n ([] : list Z)) = [].
Proof. induction n; done. Qed.

Lemma empty_array_ok : array_ok empty_array.
Proof.
  split; [done |]. split; [split; [done |]; repeat constructor; unfold is_u32; lia |]. split; [done |]. split; [| by cbn [queue nr_active empty_array]; rewrite concat_replicate_nil].
  intros i Hi. cbn [queue bitmap empty_array]. rewrite lookup_replicate_2 by done. rewrite bool_decide_true by done. pose proof (all_from_spec (fun z => negb (bitof [0; 0; 0; 0; 4096] z)) 140 0 (Z.of_nat i) ltac:(vm_compute; reflexivity) ltac:(lia)) as H. cbn beta in H. by apply negb_true_iff in H.
Qed.

Lemma sched_init_ok current ts t : ts !! current = Some t -> dead t = false -> (forall p t, ts !! p = Some t -> array t = None /\ task_ok t) -> Z.of_nat (size ts) < 4294967296 -> exists s, sched_init current ts = Some s /\ sched_ok s.
Proof.
  intros Ht Hd Hall Hs. unfold sched_init. rewrite init_array_eq. cbn [mbind option_bind]. unfold init_idle. rewrite (upd_task_some _ _ _ t) by done. cbn [mbind option_bind tasks rq nr_running nr_uninterruptible nr_switches expired_timestamp timestamp_last_tick active expired array0 array1 best_expired_prio].
  erewrite upd_task_some by (cbn [tasks]; apply lookup_insert_eq). cbn [tasks rq]. rewrite insert_insert_eq. set (r := mk_rq _ _ _ _ _ _ _ _ _ _ _ _). set (t' := set_need_resched true _). eexists. split; [done |].
  assert (task_ok t') as Hk. { destruct (Hall _ _ Ht) as [_ Hk]. unfold task_ok in *. rewrite ns_max in *. cbn [static_prio sleep_avg time_slice policy prio t' set_need_resched set_state set_prio set_array_of set_sleep_avg]. change MAX_PRIO with 140. intuition lia. }
  assert (forall p u, <[current := t']> ts !! p = Some u -> array u = None /\ task_ok u) as Hall'. { intros p u. rewrite lookup_insert. case_decide; [by intros [= <-] | apply Hall]. }
  split; [split; [| split; [done |]] |].
  - split; [intros []; apply empty_array_ok |]. assert (queued r = []) as HQ by (unfold queued, r; cbn [array0 array1 queue empty_array]; by rewrite concat_replicate_nil). cbn [rq tasks]. rewrite HQ. split; [constructor |]. split; [done |].
    assert (forall p, loc_of (<[current := t']> ts) p = None) as Hno. { intros p. unfold loc_of. destruct (<[current := t']> ts !! p) as [u |] eqn:Hu; [| done]. cbn. destruct (Hall' _ _ Hu) as [-> _]. done. }
    split; [| intros p b i; by rewrite Hno]. intros b i p. rewrite Hno. split; [| done]. intros Hp. assert (p ∈ queued r) as Hq by (apply elem_queued; by exists b, i). rewrite HQ in Hq. by apply elem_of_nil in Hq.
  - split; cbn [tasks rq r expired active idle curr]; try done.
    + intros p u Hu. by apply (Hall' p).
    + intros p u b Hu Hb. destruct (Hall' _ _ Hu). congruence.
    + exists t'. rewrite lookup_insert_eq. done.
    + rewrite lookup_insert_eq. by eexists.
    + by rewrite map_size_insert_Some.
  - intros u Hu. by left.
Qed.

(** The states of a system that starts with [sched_init]. *)
Inductive reachable : sched -> Prop :=
  | reach_init current ts t s : ts !! current = Some t -> dead t = false -> (forall p t, ts !! p = Some t -> array t = None /\ task_ok t) -> Z.of_nat (size ts) < 4294967296 -> sched_init current ts = Some s -> reachable s
  | reach_step s e s' : reachable s -> allowed e s -> step e s = Some s' -> reachable s'.

Lemma sched_reachable_ok s : reachable s -> sched_ok s.
Proof.
  induction 1 as [current ts t s H1 H2 H3 H4 E | s e s' _ IH Ha E].
  - destruct (sched_init_ok current ts t H1 H2 H3 H4) as (s' & E' & K). congruence.
  - destruct (step_ok e s IH Ha) as (s2 & E2 & K). congruence.
Qed.

(** C29. In every state that ticks, scheduling, sleeping, waking, forking, exits, changes of nice values, policies and priorities and yields lead to, the two arrays agree
    with the tasks: each runnable task is once on the queue of its priority in the array it names, the bitmaps and counters are exact, real-time tasks are only in the active
    array, slices are between 1 and 100 ticks and average sleeps within their bound; and no call fails. *)
Theorem sched_invariant s e : reachable s -> allowed e s -> sched_ok s /\ exists s', step e s = Some s' /\ sched_ok s'.
Proof. intros H Ha. pose proof (sched_reachable_ok s H) as K. split; [done | by apply step_ok]. Qed.

(** ** Who runs *)

(** C30. __schedule gives the processor to the idle task only if no task is runnable any more; otherwise to the first task of the best queue of the active array, or of the
    expired array when the active one is empty; if a real-time task is runnable, the one that is chosen has the best priority of all. *)
Theorem schedule_picks now sig pre s : sched_ok s ->
  exists s1 s', leave_cpu (curr (rq s)) sig pre s = Some s1 /\ __schedule now sig pre s = Some s' /\ sched_ok s' /\
    (curr (rq s') = idle (rq s) <-> forall p t, tasks s1 !! p = Some t -> array t = None) /\
    (curr (rq s') <> idle (rq s) -> exists t, tasks s1 !! curr (rq s') = Some t /\ array t = Some (pick_array s1) /\ is_first (rq s1) (pick_array s1) (Z.to_nat (prio t)) (curr (rq s')) /\
       forall q u, tasks s1 !! q = Some u -> array u <> None -> (array u = Some (pick_array s1) \/ rt_task u = true) -> prio t <= prio u).
Proof.
  intros Hok. destruct (ro_curr _ (proj2 (proj2 (proj1 Hok)))) as [c Hc]. destruct (schedule_spec now sig pre s c Hok Hc) as (s1 & pt1 & s2 & s' & E1 & K1 & T1 & E2 & E & K & _ & I & _). exists s1, s'. split; [done |]. split; [done |]. split; [done |].
  destruct (leave_spec s sig pre c Hok Hc) as (t1 & r1 & E1' & _ & (_ & _ & Si & _) & _). rewrite E1' in E1. injection E1 as E1. assert (idle (rq s1) = idle (rq s)) as I1 by (subst s1; done).
  destruct (pick_spec now s1 K1) as (next & s2' & E2' & _ & _ & _ & _ & Hcase). rewrite E2 in E2'. injection E2' as <- <-. pose proof K1 as (A1 & N1 & R1). destruct (Z.eqb_spec (nr_running (rq s1)) 0) as [H0 | H0].
  - destruct Hcase as [Hn _]. rewrite Hn, I1. split; [| done]. split; [| done]. intros _ p t Ht. destruct (array t) as [b |] eqn:Hb; [| done]. exfalso. assert (p ∈ queued (rq s1)) as Hq by (eapply queued_loc; [done |]; rewrite (loc_of_some _ _ _ _ Ht Hb); by eexists).
    rewrite N1 in H0. destruct (queued (rq s1)); [by apply elem_of_nil in Hq | cbn in H0; lia].
  - destruct Hcase as (t & t' & Ht & Hb & Hf & _ & _ & Hi & _). split.
    + split; [intros H; rewrite H, I1 in Hi; done |]. intros H. rewrite (H _ _ Ht) in Hb. done.
    + intros _. exists t. split; [done |]. split; [done |]. split; [done |]. intros q u Hu Hbu Hor.
      assert (array u = Some (pick_array s1)) as Hbu'. { destruct Hor as [| Hrt]; [done |]. destruct (array u) as [b |] eqn:Eb; [| done]. pose proof (ro_rt _ R1 q u b Hu Eb Hrt) as ->. unfold pick_array. destruct (Z.eqb_spec (nr_active (get_array (active (rq s1)) (rq s1))) 0) as [Hz |]; [| done].
        apply (array_empty s1 _ K1) with (p := q) (t := u) in Hz; done. }
      destruct (Z.le_gt_cases (prio t) (prio u)) as [| Hgt]; [done |]. exfalso. destruct Hf as [_ Hlow]. pose proof A1 as (_ & _ & _ & H4 & H5). pose proof (loc_of_some _ _ _ _ Hu Hbu') as Hl. destruct (H5 _ _ _ Hl) as [J0 J1].
      rewrite <- (Z2Nat.id (prio u)) in Hl by lia. apply H4 in Hl. rewrite Hlow in Hl by lia. by apply elem_of_nil in Hl.
Qed.

(** C33. In every state the system can reach, what is used as an index or a shift is in range: the priority of a queued task is below MAX_PRIO, so it names a queue and
    a bit of the bitmap, its bonus is at most MAX_BONUS and its slice is never 0, so that counting it down does not wrap around. A slice has at most HZ ticks, with which the
    boot task starts, and a new one at most 80. *)
Theorem sched_ranges s p t : reachable s -> tasks s !! p = Some t ->
  (array t <> None -> 0 <= prio t < MAX_PRIO) /\ 0 <= CURRENT_BONUS t <= MAX_BONUS /\ MIN_TIMESLICE <= time_slice t <= HZ /\ MIN_TIMESLICE <= task_timeslice t <= 80 /\ MAX_RT_PRIO <= static_prio t < MAX_PRIO /\ 1 <= TIMESLICE_GRANULARITY t <= 512.
Proof.
  intros Hr Ht. pose proof (sched_reachable_ok s Hr) as [(A & _ & R) _]. pose proof (ro_tasks _ R _ _ Ht) as Hk. pose proof (bonus_range t Hk) as Hb. pose proof (timeslice_range t Hk) as Hts. destruct Hk as (H1 & H2 & H3 & H4 & _).
  split. { intros Ha. destruct (array t) as [b |] eqn:Eb; [| done]. destruct A as (_ & _ & _ & _ & H5). apply (H5 _ _ _ (loc_of_some _ _ _ _ Ht Eb)). }
  split; [done |]. change MIN_TIMESLICE with 1. split; [done |]. split; [done |]. unfold MAX_RT_PRIO, MAX_PRIO. split; [lia |]. unfold TIMESLICE_GRANULARITY. change MAX_BONUS with 10. set (n := CURRENT_BONUS t) in *. change GRANULARITY with 1. rewrite Z.mul_1_l.
  rewrite u32_id by (unfold is_u32; lia). cbn zeta. assert (0 <= (if 10 - n =? 0 then 1 else 10 - n) - 1 <= 9) as Hn by (case_match; lia). rewrite Z.shiftl_1_l. split; [change 1 with (2 ^ 0) at 1 | change 512 with (2 ^ 9)]; apply Z.pow_le_mono_r; lia.
Qed.

(** ** Priorities *)

Lemma effective_near t : task_ok t -> static_prio t - 5 <= __effective_prio t <= static_prio t + 5.
Proof.
  intros Hk. pose proof (bonus_range t Hk) as Hb. destruct Hk as (H1 & _). unfold __effective_prio. change (MAX_BONUS / 2) with 5. unfold MAX_RT_PRIO, MAX_PRIO.
  assert (s32 (CURRENT_BONUS t ⊖ 5) = CURRENT_BONUS t - 5) as ->. { assert (CURRENT_BONUS t = 0 \/ CURRENT_BONUS t = 1 \/ CURRENT_BONUS t = 2 \/ CURRENT_BONUS t = 3 \/ CURRENT_BONUS t = 4 \/ CURRENT_BONUS t = 5 \/ CURRENT_BONUS t = 6 \/ CURRENT_BONUS t = 7 \/ CURRENT_BONUS t = 8 \/ CURRENT_BONUS t = 9 \/ CURRENT_BONUS t = 10) as H by lia.
    destruct H as [-> | [-> | [-> | [-> | [-> | [-> | [-> | [-> | [-> | [-> | ->]]]]]]]]]]; reflexivity. }
  repeat case_match; lia.
Qed.

(** C32. The bonus moves a priority by at most 5, so nice values decide between tasks that are far enough apart, whatever they have slept: a task 11 or more nice levels
    below another one never has a priority as good, as the comment on effective_prio promises for nice 0 against +19 and for -20 against 0; and its slices are not longer. *)
Theorem nice_dominates t u : task_ok t -> task_ok u -> static_prio t + 11 <= static_prio u -> __effective_prio t < __effective_prio u /\ task_timeslice u <= task_timeslice t.
Proof.
  intros Ht Hu H. pose proof (effective_near t Ht) as E1. pose proof (effective_near u Hu) as E2. split; [lia |]. destruct Ht as (H1 & _), Hu as (H2 & _). unfold task_timeslice, SCALE_PRIO. change MIN_TIMESLICE with 1. change DEF_TIMESLICE with 10. unfold MAX_PRIO. change (NICE_TO_PRIO 0) with 120.
  assert (forall a b, 0 <= a <= b -> Z.max (Z.quot a 20) 1 <= Z.max (Z.quot b 20) 1) as Hm. { intros a b Hab. pose proof (Z.quot_le_mono a b 20 ltac:(lia) ltac:(lia)). lia. }
  destruct (Z.ltb_spec (static_prio t) 120), (Z.ltb_spec (static_prio u) 120); apply Hm; lia.
Qed.

(** ** A small system *)

Definition ex_task (st nice : Z) : task_struct := mk_task st false (NICE_TO_PRIO nice) (NICE_TO_PRIO nice) SCHED_NORMAL 0 None 0 0 10 false 0 true false 0 0.

Definition ex_tasks : gmap Z task_struct := {[ 0 := ex_task 0 0; 1 := ex_task TASK_INTERRUPTIBLE 0; 2 := ex_task TASK_UNINTERRUPTIBLE 5 ]}.

Fixpoint run (es : list event) (s : sched) : option sched :=
  match es with [] => Some s | e :: es => s ← step e s; run es s end.

(** Both tasks are woken and the scheduler runs. *)
Definition ex_events : list event := [Wake 1 TASK_INTERRUPTIBLE false false 1000 true; Wake 2 TASK_UNINTERRUPTIBLE false false 2000 false; Schedule 3000 false false].

Definition ex_sched (n : nat) : sched := default (mk_sched ∅ (mk_rq 0 0 0 0 0 0 0 false true empty_array empty_array 0)) (s ← sched_init 0 ex_tasks; run (take n ex_events) s).

Lemma ex_tasks_ok : forall p t, ex_tasks !! p = Some t -> array t = None /\ task_ok t.
Proof.
  intros p t H. unfold ex_tasks in H. rewrite !lookup_insert, lookup_singleton in H. repeat case_decide; try (injection H as <-; split; [done | unfold task_ok; cbn; unfold NICE_TO_PRIO, MAX_RT_PRIO, SCHED_NORMAL; rewrite ns_max; lia]); done.
Qed.

Lemma ex_reachable : reachable (ex_sched 0) /\ reachable (ex_sched 1) /\ reachable (ex_sched 2) /\ reachable (ex_sched 3).
Proof.
  assert (reachable (ex_sched 0)) as R0. { destruct (sched_init_ok 0 ex_tasks (ex_task 0 0) eq_refl eq_refl ex_tasks_ok ltac:(done)) as (s & E & _). unfold ex_sched. rewrite E. cbn. by eapply (reach_init 0 ex_tasks (ex_task 0 0)); [| | apply ex_tasks_ok | |]. }
  assert (reachable (ex_sched 1)) as R1. { apply (reach_step (ex_sched 0) (Wake 1 TASK_INTERRUPTIBLE false false 1000 true)); [done | by vm_compute; eexists | by vm_compute]. }
  assert (reachable (ex_sched 2)) as R2. { apply (reach_step (ex_sched 1) (Wake 2 TASK_UNINTERRUPTIBLE false false 2000 false)); [done | by vm_compute; eexists | by vm_compute]. }
  split; [done |]. split; [done |]. split; [done |]. apply (reach_step (ex_sched 2) (Schedule 3000 false false)); [done | done | by vm_compute].
Qed.

Lemma sched_invariant_witness : reachable (ex_sched 2) /\ exists s', step (Schedule 3000 false false) (ex_sched 2) = Some s' /\ sched_ok s'.
Proof. split; [apply ex_reachable |]. apply (sched_invariant (ex_sched 2) (Schedule 3000 false false)); [apply ex_reachable | exact I]. Defined.

Lemma schedule_picks_witness : exists s1 s', leave_cpu 0 false false (ex_sched 2) = Some s1 /\ __schedule 3000 false false (ex_sched 2) = Some s' /\ sched_ok s'.
Proof. destruct (schedule_picks 3000 false false (ex_sched 2)) as (s1 & s' & H1 & H2 & H3 & _); [apply sched_reachable_ok, ex_reachable |]. exists s1, s'. split; [exact H1 |]. split; [exact H2 | exact H3]. Defined.

Lemma sched_ranges_witness : exists t, tasks (ex_sched 3) !! 1 = Some t /\ array t <> None /\ 0 <= prio t < MAX_PRIO.
Proof.
  destruct (tasks (ex_sched 3) !! 1) as [t |] eqn:E; [| vm_compute in E; discriminate E]. assert (array t <> None) as Ha by (vm_compute in E; injection E as <-; discriminate). exists t. split; [reflexivity |]. split; [exact Ha |].
  apply (sched_ranges (ex_sched 3) 1 t); [apply ex_reachable | exact E | exact Ha].
Defined.

Lemma nice_dominates_witness : __effective_prio (ex_task 0 0) < __effective_prio (set_sleep_avg NS_MAX_SLEEP_AVG (ex_task 0 19)).
Proof.
  apply (nice_dominates (ex_task 0 0) (set_sleep_avg NS_MAX_SLEEP_AVG (ex_task 0 19))); [| | vm_compute; discriminate]; vm_compute; repeat split; intros H; discriminate H.
Defined.

(** ** Where the code does not do what it means to *)

(** The product in recalc_task_prio wraps around: after 420 ms of sleep a task has the best bonus, after 430 ms nearly the worst. *)
Lemma recalc_wraps : let t := ex_task 0 0 in __effective_prio (recalc_sleep t 20000000) = 123 /\ __effective_prio (recalc_sleep t 420000000) = 115 /\ sleep_avg (recalc_sleep t 430000000) = 5032704 /\ __effective_prio (recalc_sleep t 430000000) = 125.
Proof. vm_compute. repeat split. Qed.

(** The row of the table of TASK_INTERACTIVE for nice -10 has seven ones, the code gives six. *)
Lemma interactive_row : (fun b => let t := ex_task 0 (-10) in TASK_INTERACTIVE (set_prio (static_prio t + b) t)) <$> [-5; -4; -3; -2; -1; 0; 1; 2; 3; 4; 5] = [true; true; true; true; true; true; false; false; false; false; false].
Proof. reflexivity. Qed.

(** mutex_setprio accepts MAX_PRIO, for which there is no queue. *)
Lemma mutex_setprio_max : (MAX_PRIO >? MAX_PRIO) = false /\ mutex_setprio 1 MAX_PRIO (ex_sched 3) = None.
Proof. vm_compute. split; reflexivity. Qed.

(** sched_exit cuts what the parent has left to the slice of the child: with a child of nice 19 to one tick. *)
Lemma exit_cuts : exists s', sched_exit 2 1 (mk_sched {[ 1 := set_time_slice 10 (ex_task 0 0); 2 := set_first_time_slice true (set_time_slice 1 (ex_task 0 19)) ]} (rq (ex_sched 0))) = Some s' /\ (time_slice <$> tasks s' !! 1) = Some 1.
Proof. eexists. split; [vm_compute; reflexivity | reflexivity]. Qed.
