(* ===== verification/SchedFair.v ===== *)
(** * No task is left waiting: kernel/sched.c

    Several tasks of ordinary (not real-time) priority compute and none sleeps, wakes or
    is created: only ticks happen, and
    after a tick the scheduler runs if it is wanted. Every task then gets the processor
    within a bounded number of ticks, whatever bonus the tasks have for interactivity: the
    slices run down, and once the first expired task has waited for the starvation limit
    no task comes back to the active array. *)

From stdpp Require Import list gmap.
From S2P Require Import Prelude Sched SchedInv.

(** A tick, and the scheduler if the current task is to give way. *)
Definition cpu_tick (now jiffies : Z) (s : sched) : option sched :=
  s ← scheduler_tick now jiffies s;
  c ← get_task (curr (rq s)) s;
  if need_resched c then __schedule now false false s else Some s.

Fixpoint cpu_ticks (k : nat) (clock : Z -> Z) (jiffies : Z) (s : sched) : option sched :=
  match k with
  | O => Some s
  | S k => s ← cpu_tick (clock jiffies) jiffies s; cpu_ticks k clock (jiffies + 1) s
  end.

(** All runnable tasks compute and none is a real-time task; one of them has the processor. *)
Definition busy (s : sched) : Prop :=
  sched_ok s /\ curr (rq s) <> idle (rq s) /\ (forall t, tasks s !! curr (rq s) = Some t -> array t = Some (active (rq s))) /\
  forall p t, tasks s !! p = Some t -> array t <> None -> rt_task t = false /\ state t = TASK_RUNNING /\ dead t = false.

(** Where the tasks are and what is left of their slices. *)
Definition view (s : sched) : gmap Z (option bool * Z) := (fun t => (array t, time_slice t)) <$> tasks s.

Lemma view_lookup s p : view s !! p = (fun t => (array t, time_slice t)) <$> tasks s !! p.
Proof. apply lookup_fmap. Qed.

Lemma view_some s p v : view s !! p = Some v -> exists t, tasks s !! p = Some t /\ array t = v.1 /\ time_slice t = v.2.
Proof. rewrite view_lookup. destruct (tasks s !! p) as [t |]; [| done]. intros [= <-]. by exists t. Qed.

Lemma view_eq s s' : (forall p t, tasks s !! p = Some t -> exists t', tasks s' !! p = Some t' /\ array t' = array t /\ time_slice t' = time_slice t) -> (forall p, tasks s' !! p = None <-> tasks s !! p = None) -> view s' = view s.
Proof.
  intros H1 H2. apply map_eq. intros p. rewrite !view_lookup. destruct (tasks s !! p) as [t |] eqn:E; [destruct (H1 p t E) as (t' & -> & Ha & Hs); cbn; by rewrite Ha, Hs |]. by rewrite (proj2 (H2 p) E).
Qed.

(** What a call of the scheduler does when everyone computes. *)
Lemma busy_schedule now s : sched_ok s -> curr (rq s) <> idle (rq s) -> (forall p t, tasks s !! p = Some t -> array t <> None -> rt_task t = false /\ state t = TASK_RUNNING /\ dead t = false) ->
  exists s', __schedule now false false s = Some s' /\ busy s' /\ view s' = view s /\ nr_running (rq s') = nr_running (rq s) /\ active (rq s') = pick_array s /\
    expired_timestamp (rq s') = (if nr_active (get_array (active (rq s)) (rq s)) =? 0 then 0 else expired_timestamp (rq s)).
Proof.
  intros Hok Hi Hall. destruct (ro_curr _ (proj2 (proj2 (proj1 Hok)))) as [c Hc]. destruct (proj2 Hok c Hc) as [? | Ha]; [done |]. destruct (Hall _ _ Hc Ha) as (Hrt & Hst & Hd).
  destruct (schedule_spec now false false s c Hok Hc) as (s1 & pt1 & s2 & s' & E1 & K1 & _ & E2 & E & K & Act & Idl & Ets & Nr & Hsame & Hdom).
  destruct (leave_spec s false false c Hok Hc) as (t1 & r1 & E1' & _ & _ & _ & _ & _ & _ & Hrun & _). destruct (Hrun Hst Hd) as [-> ->]. rewrite insert_id in E1' by done. assert (s1 = s) as ->. { rewrite E1' in E1. injection E1 as <-. by destruct s. }
  destruct (pick_spec now s K1) as (next & s2' & E2' & K2 & C2 & I2 & N2 & Hcase). rewrite E2 in E2'. injection E2' as <- <-.
  assert (nr_running (rq s) <> 0) as Hnr. { destruct K1 as (A & N & _). rewrite N. destruct (array c) as [b |] eqn:Hb; [| done]. assert (curr (rq s) ∈ queued (rq s)) as Hq by (eapply queued_loc; [done |]; rewrite (loc_of_some _ _ _ _ Hc Hb); by eexists). destruct (queued (rq s)); [by apply elem_of_nil in Hq | done]. }
  rewrite (proj2 (Z.eqb_neq _ _) Hnr) in Hcase. destruct Hcase as (t & t' & Ht & Hb & _ & T2 & Hb' & Hni & Hts' & _ & Hst' & Hd' & _ & Hp' & Act2 & Ets2). exists s'. split; [done |].
  assert (view s2 = view s) as V2. { apply view_eq; rewrite T2; intros p; rewrite lookup_insert; [intros u Hu | split]; case_decide as Hdec; try done; [subst p; rewrite Ht in Hu; simplify_eq; eauto | eauto | subst p; congruence]. }
  assert (view s' = view s2) as V3 by (apply view_eq; [intros p u Hu; destruct (Hsame p u Hu) as (u' & ? & ? & _ & ? & _); eauto | done]).
  split; [| split; [congruence |]; split; [congruence |]; split; [congruence |]; congruence]. split; [done |]. split; [congruence |]. split.
  - intros u Hu. assert (tasks s2 !! curr (rq s') = Some t') as Hn by (rewrite T2; apply lookup_insert_eq). destruct (Hsame _ _ Hn) as (u' & Hu' & Hau & _). rewrite Hu in Hu'. simplify_eq. congruence.
  - intros p u Hu Hau. destruct (tasks s2 !! p) as [u2 |] eqn:Hu2; [| apply Hdom in Hu2; congruence]. destruct (Hsame p u2 Hu2) as (u' & Hu' & A' & P' & _ & _ & S' & D' & _). rewrite Hu in Hu'. injection Hu' as <-. rewrite A' in Hau. unfold rt_task. rewrite P', S', D'.
    rewrite T2, lookup_insert in Hu2. case_decide as Hdec; [| by apply (Hall p)]. injection Hu2 as <-. destruct (Hall _ _ Ht ltac:(congruence)) as (Hr & Hs & Hdd). rewrite Hr in Hp'. unfold MAX_RT_PRIO. split; [lia |]. split; congruence.
Qed.

(** ** What is left in an array *)

Definition weight (b : bool) (v : option bool * Z) : Z := if decide (v.1 = Some b) then v.2 else 0.

Definition total (b : bool) (m : gmap Z (option bool * Z)) : Z := map_fold (fun _ v n => weight b v + n) 0 m.

Lemma total_delete b m p v : m !! p = Some v -> total b m = weight b v + total b (delete p m).
Proof. intros H. unfold total. apply (map_fold_delete_L (fun _ v n => weight b v + n)); [| done]. intros. lia. Qed.

Lemma left_insert b m p v v' : m !! p = Some v -> total b (<[p := v']> m) = total b m - weight b v + weight b v'.
Proof. intros H. rewrite (total_delete b (<[p := v']> m) p v') by apply lookup_insert_eq. rewrite delete_insert_eq, (total_delete b m p v H). lia. Qed.

Lemma total_bound b m : (forall p v, m !! p = Some v -> 0 <= v.2 <= 100) -> 0 <= total b m <= 100 * Z.of_nat (size m).
Proof.
  induction m as [| p v m Hp IH] using map_ind; intros H; [done |]. assert (0 <= total b m <= 100 * Z.of_nat (size m)) as IH'. { apply IH. intros q u Hq. apply (H q). rewrite lookup_insert_ne; [done |]. congruence. }
  rewrite (total_delete b (<[p := v]> m) p v) by apply lookup_insert_eq. rewrite delete_insert_eq, delete_id, map_size_insert_None by done. pose proof (H p v (lookup_insert_eq _ _ _)) as Hv. unfold weight. case_decide; lia.
Qed.

Lemma view_slices s : sched_ok s -> forall p v, view s !! p = Some v -> 1 <= v.2 <= 100.
Proof. intros [(_ & _ & R) _] p v Hv. destruct (view_some s p v Hv) as (t & Ht & _ & <-). by destruct (ro_tasks _ R p t Ht) as (_ & _ & H & _). Qed.

Lemma total_range s b : sched_ok s -> 0 <= total b (view s) <= 100 * Z.of_nat (size (tasks s)).
Proof. intros K. pose proof (total_bound b (view s)) as H. unfold view in *. rewrite map_size_fmap in H. apply H. intros p v Hv. pose proof (view_slices s K p v Hv). lia. Qed.

Lemma total_pos s p b : sched_ok s -> (exists t, tasks s !! p = Some t /\ array t = Some b) -> 1 <= total b (view s).
Proof.
  intros K (t & Ht & Hb). assert (view s !! p = Some (Some b, time_slice t)) as Hv by (rewrite view_lookup, Ht; cbn; by rewrite Hb). rewrite (total_delete b _ p _ Hv). pose proof (view_slices s K p _ Hv) as H1. cbn in H1.
  assert (0 <= total b (delete p (view s))). { apply total_bound. intros q v Hq. apply lookup_delete_Some in Hq as [_ Hq]. pose proof (view_slices s K q v Hq). lia. } unfold weight. rewrite decide_True by done. cbn [snd]. lia.
Qed.

(** ** One tick *)

Definition waits (jiffies : Z) (r : runqueue) : Prop := 0 < jiffies < 4294967296 /\ 0 <= expired_timestamp r <= jiffies /\ 0 <= nr_running r /\ STARVATION_LIMIT * nr_running r + 1 < 4294967296.

Lemma starving_late j e nr sp best : 0 < j < 4294967296 -> 0 < e <= j -> 0 <= nr -> STARVATION_LIMIT * nr + 1 < 4294967296 -> starving j e nr sp best = false -> j - e < STARVATION_LIMIT * nr + 1.
Proof.
  intros Hj He Hn Hs H. unfold starving in H. apply orb_false_iff in H as [H _]. rewrite (proj2 (Z.eqb_neq e 0)) in H by lia. cbn [negb andb] in H. change STARVATION_LIMIT with 100 in *. rewrite !u32_id in H by (unfold is_u32; lia). lia.
Qed.

(** The current task at a tick: its slice goes on, ends in the expired array, or ends in the active one while nobody starves. *)
Definition tick_case (j : Z) (s s' : sched) (v v' : option bool * Z) : Prop :=
  (v' = (v.1, v.2 - 1) /\ 2 <= v.2 /\ expired_timestamp (rq s') = expired_timestamp (rq s)) \/
  (v.2 = 1 /\ expired_timestamp (rq s') = stamp j (expired_timestamp (rq s)) /\
    (v'.1 = Some (negb (active (rq s))) /\ 1 <= v'.2 <= 80 \/ v'.1 = v.1 /\ 1 <= v'.2 <= 80 /\ j - stamp j (expired_timestamp (rq s)) < STARVATION_LIMIT * nr_running (rq s) + 1)).

Lemma busy_tick now j s t : busy s -> tasks s !! curr (rq s) = Some t -> waits j (rq s) ->
  exists s1 t1, scheduler_tick now j s = Some s1 /\ sched_ok s1 /\ rq_same (rq s) (rq s1) /\ nr_running (rq s1) = nr_running (rq s) /\ tasks s1 = <[curr (rq s) := t1]> (tasks s) /\ rt_task t1 = false /\ state t1 = TASK_RUNNING /\ dead t1 = false /\
    tick_case j s s1 (array t, time_slice t) (array t1, time_slice t1) /\ (time_slice t = 1 -> need_resched t1 = true).
Proof.
  intros (K & Hi & Hact & Hall) Ht (Hj & He & Hn & Hs). pose proof (Hact t Ht) as Ha. destruct (Hall _ _ Ht ltac:(congruence)) as (Hrt & Hst & Hd). pose proof (ro_tasks _ (proj2 (proj2 (proj1 K))) _ _ Ht) as Htk.
  destruct (tick_normal now j s t K Hi Ht Ha Hrt) as (t' & r' & E & K' & S & N & Hcase). exists (mk_sched (<[curr (rq s) := t']> (tasks s)) r'), t'. split; [done |]. split; [done |]. split; [done |]. split; [done |]. split; [done |]. cbn [rq]. destruct (Z.eqb_spec (time_slice t) 1) as [H1 | H1].
  - destruct Hcase as (-> & _ & Ets). pose proof (effective_range t Htk) as Hef. pose proof (timeslice_range t Htk) as Hts. split. { unfold rt_task, MAX_RT_PRIO. change (prio (end_task j (rq s) (dec_time_slice t))) with (__effective_prio t). lia. } split; [done |]. split; [done |]. split; [| done].
    right. split; [done |]. split; [done |]. change (time_slice (end_task j (rq s) (dec_time_slice t))) with (task_timeslice t). cbn [fst snd array end_task set_array_of]. unfold end_array.
    destruct (negb _ || _) eqn:HB; [left; split; [| done]; by rewrite (ro_expired _ (proj2 (proj2 (proj1 K)))) |]. right. split; [done |]. split; [done |]. apply orb_false_iff in HB as [_ HB]. eapply starving_late; [done | | done | done | exact HB]. unfold stamp. destruct (Z.eqb_spec (expired_timestamp (rq s)) 0); lia.
  - destruct Hcase as ((nr & -> & _) & Ets). assert (time_slice (dec_time_slice t) = time_slice t - 1) as Hts. { cbn. apply u32_id. destruct Htk as (_ & _ & H & _). unfold is_u32. lia. }
    assert (forall t2, t2 = (if nr then set_need_resched true else fun t => t) (dec_time_slice t) -> rt_task t2 = false /\ state t2 = TASK_RUNNING /\ dead t2 = false /\ array t2 = array t /\ time_slice t2 = time_slice t - 1) as Hx by (intros t2 ->; by destruct nr; rewrite <- Hts).
    destruct (Hx _ eq_refl) as (X1 & X2 & X3 & X4 & X5). split_and!; try done. left. cbn [fst snd]. rewrite X4, X5. split; [done |]. split; [| done]. destruct Htk as (_ & _ & H & _). lia.
Qed.

(** A whole turn: the same epoch goes on, or the arrays are switched because the current task was the last one. *)
Lemma turn now j s t : busy s -> tasks s !! curr (rq s) = Some t -> waits j (rq s) ->
  exists s' v', cpu_tick now j s = Some s' /\ busy s' /\ view s' = <[curr (rq s) := v']> (view s) /\ nr_running (rq s') = nr_running (rq s) /\ size (tasks s') = size (tasks s) /\
    ((active (rq s') = active (rq s) /\ tick_case j s s' (array t, time_slice t) v') \/
     (active (rq s') = negb (active (rq s)) /\ expired_timestamp (rq s') = 0 /\ forall p u, tasks s !! p = Some u -> array u = Some (active (rq s)) -> p = curr (rq s))).
Proof.
  intros B Ht W. pose proof B as (K & Hi & Hact & Hall). pose proof (Hact t Ht) as Ha. destruct (busy_tick now j s t B Ht W) as (s1 & t1 & E1 & K1 & (Sa & Se & Si & Sc) & N1 & T1 & Hrt1 & Hst1 & Hd1 & Hcase & Hneed).
  assert (view s1 = <[curr (rq s) := (array t1, time_slice t1)]> (view s)) as V1 by (unfold view; by rewrite T1, fmap_insert). assert (size (tasks s1) = size (tasks s)) as Z1 by (rewrite T1; by apply map_size_insert_Some).
  assert (tasks s1 !! curr (rq s1) = Some t1) as Hc1 by (rewrite Sc, T1; apply lookup_insert_eq). assert (forall p u, tasks s1 !! p = Some u -> array u <> None -> rt_task u = false /\ state u = TASK_RUNNING /\ dead u = false) as Hall1.
  { intros p u. rewrite T1, lookup_insert. case_decide; [by intros [= <-] | apply Hall]. }
  unfold cpu_tick. rewrite E1. cbn [mbind option_bind]. rewrite (Hc1 : get_task (curr (rq s1)) s1 = Some t1). cbn [mbind option_bind]. destruct (need_resched t1) eqn:Hn1.
  - destruct (busy_schedule now s1 K1 ltac:(congruence) Hall1) as (s' & E & B' & V' & N' & A' & X'). exists s', (array t1, time_slice t1). split; [done |]. split; [done |]. split; [congruence |]. split; [congruence |].
    split. { rewrite <- Z1. rewrite <- (map_size_fmap (fun t => (array t, time_slice t)) (tasks s')), <- (map_size_fmap (fun t => (array t, time_slice t)) (tasks s1)). unfold view in V'. by rewrite V'. }
    unfold pick_array in A'. destruct (Z.eqb_spec (nr_active (get_array (active (rq s1)) (rq s1))) 0) as [Hz | Hz].
    + right. split; [rewrite A', (ro_expired _ (proj2 (proj2 (proj1 K1)))); congruence |]. split; [done |]. intros p u Hu Hb. destruct (decide (p = curr (rq s))) as [| Hp]; [done |]. exfalso. eapply (proj1 (array_empty s1 _ (proj1 K1)) Hz p u); [rewrite T1, lookup_insert_ne by congruence; done | congruence].
    + left. split; [congruence |]. destruct Hcase as [(C1 & C2 & C3) | (C1 & C2 & C3)]; [left | right]; split_and!; try done; congruence.
  - exists s1, (array t1, time_slice t1). split; [done |]. assert (time_slice t <> 1) as Hts by (intros H; specialize (Hneed H); congruence). destruct Hcase as [(C1 & C2 & C3) | (C1 & _)]; [| done]. cbn [fst snd] in C1. injection C1 as C1a C1b. split; [| split; [done |]; split; [done |]; split; [done |]; left; split; [done |]; left; cbn [fst snd]; split_and!; [by rewrite C1a, C1b | done | done]].
    split; [done |]. split; [congruence |]. split; [| done]. intros u Hu. rewrite Hc1 in Hu. simplify_eq. congruence.
Qed.

(** ** The bound *)

(** Ticks until the active array is empty, at most. *)
Definition fuel_of (M j : Z) (s : sched) : Z :=
  let r := rq s in let L := STARVATION_LIMIT * nr_running r + 1 in
  if expired_timestamp r =? 0 then total (active r) (view s) + L + 1 + 100 * M
  else if j - expired_timestamp r <? L then L - (j - expired_timestamp r) + 100 * M
  else total (active r) (view s).

Lemma turn_fuel now j s t s' v' M : busy s -> tasks s !! curr (rq s) = Some t -> waits j (rq s) -> M = Z.of_nat (size (tasks s)) -> busy s' -> view s' = <[curr (rq s) := v']> (view s) -> nr_running (rq s') = nr_running (rq s) -> size (tasks s') = size (tasks s) ->
  active (rq s') = active (rq s) -> tick_case j s s' (array t, time_slice t) v' -> cpu_tick now j s = Some s' -> fuel_of M (j + 1) s' < fuel_of M j s.
Proof.
  intros (K & Hi & Hact & Hall) Ht (Hj & He & Hn & Hs) HM (K' & _) V N Z A C _. pose proof (Hact t Ht) as Ha. assert (view s !! curr (rq s) = Some (Some (active (rq s)), time_slice t)) as Hv by (rewrite view_lookup, Ht; cbn; by rewrite Ha).
  pose proof (total_range s (active (rq s)) K) as T. pose proof (total_range s' (active (rq s)) K') as T'. pose proof (total_pos s (curr (rq s)) (active (rq s)) K ltac:(eauto)) as TP. rewrite Z, <- HM in T'. rewrite <- HM in T.
  assert (total (active (rq s)) (view s') = total (active (rq s)) (view s) - time_slice t + weight (active (rq s)) v') as HT by (rewrite V, (left_insert _ _ _ _ _ Hv); unfold weight at 1; by rewrite decide_True).
  assert (0 <= M) as HM0 by lia. unfold fuel_of. rewrite A, N. cbn zeta. change STARVATION_LIMIT with 100 in *. set (b := active (rq s)) in *. set (L := 100 * nr_running (rq s) + 1) in *. assert (1 <= L) by lia. destruct C as [(-> & C2 & C3) | (C1 & C2 & C3)].
  - cbn [fst snd] in *. rewrite C3. assert (weight b (array t, time_slice t - 1) = time_slice t - 1) as HW by (unfold weight; rewrite Ha; by rewrite decide_True). rewrite HW in HT. destruct (Z.eqb_spec (expired_timestamp (rq s)) 0); [lia |].
    destruct (Z.ltb_spec (j - expired_timestamp (rq s)) L), (Z.ltb_spec (j + 1 - expired_timestamp (rq s)) L); lia.
  - cbn [fst snd] in *. rewrite C2. assert (stamp j (expired_timestamp (rq s)) <> 0) as Hst by (unfold stamp; destruct (Z.eqb_spec (expired_timestamp (rq s)) 0); lia). rewrite (proj2 (Z.eqb_neq _ _) Hst).
    assert (expired_timestamp (rq s) <> 0 -> stamp j (expired_timestamp (rq s)) = expired_timestamp (rq s)) as Hst2 by (intros H0; unfold stamp; by rewrite (proj2 (Z.eqb_neq _ _) H0)).
    assert (expired_timestamp (rq s) = 0 -> stamp j (expired_timestamp (rq s)) = j) as Hst3 by (intros H0; unfold stamp; by rewrite H0).
    destruct C3 as [[C3 C4] | (C3 & C4 & C5)].
    + assert (weight b v' = 0) as HW by (unfold weight; rewrite C3; rewrite decide_False; [done | intros [= HH]; by apply (no_fixpoint_negb b)]). rewrite HW in HT.
      destruct (Z.eqb_spec (expired_timestamp (rq s)) 0) as [E0 | E0]; [rewrite (Hst3 E0); destruct (Z.ltb_spec (j + 1 - j) L); lia |]. rewrite (Hst2 E0). destruct (Z.ltb_spec (j - expired_timestamp (rq s)) L), (Z.ltb_spec (j + 1 - expired_timestamp (rq s)) L); lia.
    + destruct (Z.eqb_spec (expired_timestamp (rq s)) 0) as [E0 | E0]; [rewrite (Hst3 E0); destruct (Z.ltb_spec (j + 1 - j) L); lia |]. rewrite (Hst2 E0) in C5 |- *. change STARVATION_LIMIT with 100 in C5. destruct (Z.ltb_spec (j - expired_timestamp (rq s)) L), (Z.ltb_spec (j + 1 - expired_timestamp (rq s)) L); lia.
Qed.

(** ** Everyone gets a turn *)

Definition bound (s : sched) : Z := 200 * Z.of_nat (size (tasks s)) + STARVATION_LIMIT * nr_running (rq s) + 2.

Lemma cpu_ticks_add a b clock j s : cpu_ticks (a + b) clock j s = (s1 ← cpu_ticks a clock j s; cpu_ticks b clock (j + Z.of_nat a) s1).
Proof.
  revert j s. induction a as [| a IH]; intros j s; cbn [Nat.add cpu_ticks mbind option_bind]; [f_equal; lia |]. destruct (cpu_tick (clock j) j s) as [s1 |]; cbn [mbind option_bind]; [| done].
  rewrite IH. destruct (cpu_ticks a clock (j + 1) s1); cbn [mbind option_bind]; [f_equal; lia | done].
Qed.

Lemma fuel_range s j : busy s -> waits j (rq s) -> 1 <= fuel_of (Z.of_nat (size (tasks s))) j s <= bound s.
Proof.
  intros (K & Hi & Hact & _) (Hj & He & Hn & Hs). destruct (ro_curr _ (proj2 (proj2 (proj1 K)))) as [c Hc]. pose proof (total_range s (active (rq s)) K) as T. pose proof (total_pos s (curr (rq s)) _ K ltac:(exists c; eauto)) as P.
  unfold fuel_of, bound. cbn zeta. change STARVATION_LIMIT with 100 in *. repeat case_match; lia.
Qed.

Lemma tick_stamp j s s' v v' : tick_case j s s' v v' -> 0 < j -> 0 <= expired_timestamp (rq s) <= j -> 0 <= expired_timestamp (rq s') <= j.
Proof. intros [(_ & _ & ->) | (_ & -> & _)] Hj He; [done |]. unfold stamp. case_match; lia. Qed.

(** One turn, seen from a task that is waiting in array [b]: it stays there, and either the epoch goes on with less to do or the arrays are switched. *)
Lemma waiting_turn now j s p b z : busy s -> waits j (rq s) -> j + 1 < 4294967296 -> view s !! p = Some (Some b, z) -> p <> curr (rq s) ->
  exists s', cpu_tick now j s = Some s' /\ busy s' /\ waits (j + 1) (rq s') /\ view s' !! p = Some (Some b, z) /\ bound s' = bound s /\
    (active (rq s') = active (rq s) /\ fuel_of (Z.of_nat (size (tasks s'))) (j + 1) s' < fuel_of (Z.of_nat (size (tasks s))) j s \/
     active (rq s') = negb (active (rq s)) /\ b <> active (rq s)).
Proof.
  intros B W Hj Hv Hp. pose proof B as (K & _ & Hact & _). destruct (ro_curr _ (proj2 (proj2 (proj1 K)))) as [c Hc]. destruct (turn now j s c B Hc W) as (s' & v' & E & B' & V & N & Z' & Hcase). exists s'. split; [done |]. split; [done |].
  assert (0 <= expired_timestamp (rq s') <= j + 1) as He. { destruct W as (W1 & W2 & _). destruct Hcase as [[_ C] | (_ & -> & _)]; [| lia]. pose proof (tick_stamp _ _ _ _ _ C ltac:(lia) W2). lia. }
  split. { destruct W as (W1 & _ & W3 & W4). unfold waits. rewrite N. split; [lia |]. done. } split; [rewrite V, lookup_insert_ne by congruence; done |]. split; [unfold bound; by rewrite N, Z' |].
  destruct Hcase as [[A C] | (A & _ & Hlast)]; [left; split; [done |]; rewrite Z'; by eapply turn_fuel |]. right. split; [done |]. intros ->. apply Hp. destruct (view_some s p _ Hv) as (u & Hu & Ha & _). by apply (Hlast p u).
Qed.

Lemma active_turn n clock : forall j s p z, busy s -> waits j (rq s) -> view s !! p = Some (Some (active (rq s)), z) -> fuel_of (Z.of_nat (size (tasks s))) j s <= Z.of_nat n -> j + Z.of_nat n < 4294967296 ->
  exists k s', (k <= n)%nat /\ cpu_ticks k clock j s = Some s' /\ curr (rq s') = p.
Proof.
  induction n as [| n IH]; intros j s p z B W Hv F Hj; [pose proof (fuel_range s j B W); lia |]. destruct (decide (p = curr (rq s))) as [-> | Hp]; [exists 0%nat, s; split; [lia | done] |].
  destruct (waiting_turn (clock j) j s p _ z B W ltac:(lia) Hv Hp) as (s1 & E & B1 & W1 & V1 & _ & [[A F1] | [_ A]]); [| done].
  destruct (IH (j + 1) s1 p z B1 W1 ltac:(by rewrite A) ltac:(lia) ltac:(lia)) as (k & s' & Hk & E' & Hc). exists (S k), s'. split; [lia |]. cbn [cpu_ticks]. rewrite E. done.
Qed.

Lemma expired_turn n clock : forall j s p z, busy s -> waits j (rq s) -> view s !! p = Some (Some (negb (active (rq s))), z) -> fuel_of (Z.of_nat (size (tasks s))) j s <= Z.of_nat n -> j + Z.of_nat n < 4294967296 ->
  exists k s', (k <= n)%nat /\ cpu_ticks k clock j s = Some s' /\ busy s' /\ waits (j + Z.of_nat k) (rq s') /\ view s' !! p = Some (Some (active (rq s')), z) /\ bound s' = bound s.
Proof.
  induction n as [| n IH]; intros j s p z B W Hv F Hj; [pose proof (fuel_range s j B W); lia |]. assert (p <> curr (rq s)) as Hp. { intros ->. destruct (view_some _ _ _ Hv) as (u & Hu & Ha & _). destruct B as (_ & _ & Hact & _). rewrite (Hact u Hu) in Ha. injection Ha as Ha. by destruct (active (rq s)). }
  destruct (waiting_turn (clock j) j s p _ z B W ltac:(lia) Hv Hp) as (s1 & E & B1 & W1 & V1 & N1 & [[A F1] | [A _]]).
  - destruct (IH (j + 1) s1 p z B1 W1 ltac:(by rewrite A) ltac:(lia) ltac:(lia)) as (k & s' & Hk & E' & B' & W' & V' & N'). exists (S k), s'. split; [lia |]. cbn [cpu_ticks]. rewrite E. split; [done |]. split; [done |]. split; [by replace (j + Z.of_nat (S k)) with (j + 1 + Z.of_nat k) by lia |]. split; [done | congruence].
  - exists 1%nat, s1. split; [lia |]. cbn [cpu_ticks]. rewrite E. split; [done |]. split; [done |]. split; [done |]. split; [by rewrite A | done].
Qed.

(** C31. While all runnable tasks are ordinary ones (none real-time, [SCHED_FIFO] or [SCHED_RR], which may starve the others), all are running and none sleeps, wakes, exits
    or is created, so that only ticks happen, every runnable task gets the processor within a number of ticks that depends on the number of tasks alone, as long as
    the 32-bit jiffies do not wrap around in that time and the time stamp of the expired array is not in the future: however interactive the others look, the slices run down, the starvation limit sends the tasks to the expired
    array, and the arrays are switched. *)
Theorem sched_no_starvation clock jiffies s p t : busy s -> tasks s !! p = Some t -> array t <> None -> 0 < jiffies -> 0 <= expired_timestamp (rq s) <= jiffies -> jiffies + 2 * bound s < 4294967296 ->
  exists k s', Z.of_nat k <= 2 * bound s /\ cpu_ticks k clock jiffies s = Some s' /\ curr (rq s') = p.
Proof.
  intros B Ht Ha Hj He Hb. destruct (array t) as [b |] eqn:Eb; [| done]. assert (view s !! p = Some (Some b, time_slice t)) as Hv by (rewrite view_lookup, Ht; cbn; by rewrite Eb).
  assert (0 <= nr_running (rq s)) as Hn by (destruct B as [[(_ & -> & _) _] _]; lia). assert (waits jiffies (rq s)) as W. { unfold waits. unfold bound in Hb. change STARVATION_LIMIT with 100 in *. lia. }
  pose proof (fuel_range s jiffies B W) as F. set (n := Z.to_nat (bound s)). assert (Z.of_nat n = bound s) as Hn' by lia. destruct (decide (b = active (rq s))) as [-> | Hne].
  - destruct (active_turn n clock jiffies s p _ B W Hv ltac:(lia) ltac:(lia)) as (k & s' & Hk & E & C). exists k, s'. split; [lia | done].
  - assert (b = negb (active (rq s))) as -> by (by destruct b, (active (rq s))). destruct (expired_turn n clock jiffies s p _ B W Hv ltac:(lia) ltac:(lia)) as (k & s1 & Hk & E & B1 & W1 & V1 & N1). pose proof (fuel_range s1 _ B1 W1) as F1.
    destruct (active_turn n clock _ s1 p _ B1 W1 V1 ltac:(lia) ltac:(lia)) as (k' & s' & Hk' & E' & C). exists (k + k')%nat, s'. split; [lia |]. rewrite cpu_ticks_add, E. done.
Qed.

(** ** An example *)

Definition calm (t : task_struct) : bool := match array t with None => true | Some _ => negb (rt_task t) && (state t =? TASK_RUNNING) && negb (dead t) end.

Lemma busy_intro s : sched_ok s -> curr (rq s) <> idle (rq s) -> (array <$> tasks s !! curr (rq s)) = Some (Some (active (rq s))) -> bool_decide (map_Forall (fun _ t => calm t = true) (tasks s)) = true -> busy s.
Proof.
  intros K Hi Ha Hc. split; [done |]. split; [done |]. split; [intros t Ht; rewrite Ht in Ha; by injection Ha |]. intros p t Ht Hn. apply bool_decide_eq_true in Hc. specialize (Hc p t Ht). unfold calm in Hc. destruct (array t); [| done]. apply andb_true_iff in Hc as [[H1 H2]%andb_true_iff H3]. apply Z.eqb_eq in H2. by apply negb_true_iff in H1, H3.
Qed.

Lemma ex_busy : busy (ex_sched 3).
Proof. apply busy_intro; [apply sched_reachable_ok, ex_reachable | by vm_compute | by vm_compute | by vm_compute]. Qed.

(** The task of nice 5 waits behind the one of nice 0 and gets its turn. *)
Lemma sched_no_starvation_witness : curr (rq (ex_sched 3)) = 1 /\ exists k s', Z.of_nat k <= 1604 /\ cpu_ticks k (fun j => j * 10000000) 1 (ex_sched 3) = Some s' /\ curr (rq s') = 2.
Proof.
  split; [vm_compute; reflexivity |]. destruct (tasks (ex_sched 3) !! 2) as [t |] eqn:E; [| vm_compute in E; discriminate E].
  apply (sched_no_starvation (fun j => j * 10000000) 1 (ex_sched 3) 2 t ex_busy E); [vm_compute in E; injection E as <-; discriminate | reflexivity | vm_compute; split; discriminate | reflexivity].
Defined.
