(* ===== verification/Pipe.v ===== *)
(** * Pipes: fs/pipe.c, include/linux/pipe_fs_i.h

    A pipe is one page used as a ring. Readers and writers run under the inode's semaphore
    and give it up only in [pipe_wait]; so the part of a call from one wait to the next is
    one function on the state here, and between such parts other tasks run. A task that
    waits is in [pcs] with the local variables of its call; all of them are on the wait
    queue, and [woken] holds those that were woken since.

    Memory of the caller: what a writer sends is a list of segments of bytes, [None] for one
    that cannot be read; a segment of a reader has a length and a number of bytes that can be
    written. What a failed copy leaves in the free part of the page is an argument ([junk]).
    [None] is an oops: walking past the last segment.

    An open file has a mode and the O_NONBLOCK flag; a call in progress keeps its file open.
    Changing the flag while a call is in progress is not modelled, nor are poll, the SIGIO
    notifications, the time stamps, and FIFOs apart from the opening of a further file. The
    lengths of the segments of a call add up to less than 2^31, as the callers in
    fs/read_write.c make sure. The counters of files and waiting writers are far below 2^32. *)

From stdpp Require Import list gmap.
From S2P Require Import Prelude.

Definition PIPE_SIZE : Z := 4096.
Definition PIPE_BUF : Z := 4096.
Definition EBADF : Z := 9.
Definition EPIPE : Z := 32.
Definition ERESTARTSYS : Z := 512.

(** [len] is [p_len] and [start] is [p_start]. *)
Record pipe_inode_info := mk_pipe { base : mem; p_len : Z; p_start : Z; p_readers : Z; p_writers : Z; waiting_writers : Z }.

Definition set_ring (m : mem) (len start : Z) (p : pipe_inode_info) : pipe_inode_info := mk_pipe m len start (p_readers p) (p_writers p) (waiting_writers p).
Definition set_waiting (n : Z) (p : pipe_inode_info) : pipe_inode_info := mk_pipe (base p) (p_len p) (p_start p) (p_readers p) (p_writers p) n.
Definition set_ends (r w : Z) (p : pipe_inode_info) : pipe_inode_info := mk_pipe (base p) (p_len p) (p_start p) r w (waiting_writers p).

Definition PIPE_FREE (p : pipe_inode_info) : Z := PIPE_SIZE - p_len p.
Definition PIPE_END (p : pipe_inode_info) : Z := Z.land (p_start p + p_len p) (PIPE_SIZE - 1).
Definition PIPE_MAX_RCHUNK (p : pipe_inode_info) : Z := PIPE_SIZE - p_start p.
Definition PIPE_MAX_WCHUNK (p : pipe_inode_info) : Z := PIPE_SIZE - PIPE_END p.

(** ** Copying *)

Definition wiov : Type := list (list (option Z)).
Definition riov : Type := list (nat * nat).

(** [Some None] is -EFAULT; otherwise the bytes and what is left of the segments. *)
Fixpoint pipe_iov_copy_from_user (iov : wiov) (n : nat) : option (option (list Z * wiov)) :=
  match n, iov with
  | O, _ => Some (Some ([], iov))
  | _, [] => None
  | _, seg :: rest =>
      let copy := Nat.min n (length seg) in
      match mapM id (take copy seg) with
      | None => Some None
      | Some c =>
          if (copy =? n)%nat then Some (Some (c, drop copy seg :: rest))
          else r ← pipe_iov_copy_from_user rest (n - copy); Some (option_map (fun '(c', iov) => (c ++ c', iov)) r)
      end
  end.

Fixpoint pipe_iov_copy_to_user (iov : riov) (n : nat) : option (option riov) :=
  match n, iov with
  | O, _ => Some (Some iov)
  | _, [] => None
  | _, (l, room) :: rest =>
      let copy := Nat.min n l in
      if (room <? copy)%nat then Some None
      else if (copy =? n)%nat then Some (Some ((l - copy, room - copy)%nat :: rest))
      else pipe_iov_copy_to_user rest (n - copy)
  end.

Definition wiov_length (iov : wiov) : Z := foldr (fun seg n => Z.of_nat (length seg) + n) 0 iov.
Definition riov_length (iov : riov) : Z := foldr (fun seg n => Z.of_nat seg.1 + n) 0 iov.

(** ** Reading *)

(** The variables of pipe_readv; [r_got] is what has been copied to the caller. *)
Record rstate := mk_rs { r_iov : riov; r_total : Z; r_ret : Z; r_wakeup : bool; r_got : list Z }.

Definition r_fail (e : Z) (r : rstate) : rstate := mk_rs (r_iov r) (r_total r) (if r_ret r =? 0 then e else r_ret r) (r_wakeup r) (r_got r).

(** A round's transfer; the first component says that the call ends. *)
Definition read_chunk (r : rstate) (p : pipe_inode_info) : option (bool * rstate * pipe_inode_info) :=
  let chars := Z.min (Z.min (PIPE_MAX_RCHUNK p) (r_total r)) (p_len p) in
  c ← pipe_iov_copy_to_user (r_iov r) (Z.to_nat chars);
  match c with
  | None => Some (true, r_fail (- EFAULT) r, p)
  | Some iov =>
      let r := mk_rs iov (r_total r - chars) (r_ret r + chars) true (r_got r ++ block (base p) (Z.to_nat (p_start p)) (Z.to_nat chars)) in
      Some (r_total r =? 0, r, set_ring (base p) (p_len p - chars) (Z.land (p_start p + chars) (PIPE_SIZE - 1)) p)
  end.

(** With the pipe empty: the call ends (false) or waits (true). *)
Definition read_wait (nonblock sig : bool) (r : rstate) (p : pipe_inode_info) : bool * rstate * pipe_inode_info :=
  if p_writers p =? 0 then (false, r, p)
  else if (waiting_writers p =? 0) && negb (r_ret r =? 0) then (false, r, p)
  else if (waiting_writers p =? 0) && nonblock then (false, r_fail (- EAGAIN) r, p)
  else if sig then (false, r_fail (- ERESTARTSYS) r, p)
  else (true, r, p).

(** The loop up to its end or to [pipe_wait]. *)
Fixpoint read_loop (fuel : nat) (nonblock sig : bool) (r : rstate) (p : pipe_inode_info) : option (bool * rstate * pipe_inode_info) :=
  match fuel with
  | O => None
  | S fuel =>
      '(stop, r, p) ← (if p_len p =? 0 then Some (false, r, p) else read_chunk r p);
      if (stop : bool) then Some (false, r, p)
      else if negb (p_len p =? 0) then read_loop fuel nonblock sig r p
      else Some (read_wait nonblock sig r p)
  end.

(** ** Writing *)

(** The variables of pipe_writev; [w_put] is what this part of the call has put into the pipe and [w_sigpipe] whether the signal was sent. *)
Record wstate := mk_ws { w_iov : wiov; w_total : Z; w_ret : Z; w_min : Z; w_wakeup : bool; w_put : list Z; w_sigpipe : bool }.

Definition w_fail (e : Z) (sigpipe : bool) (s : wstate) : wstate :=
  mk_ws (w_iov s) (w_total s) (if w_ret s =? 0 then e else w_ret s) (w_min s) (w_wakeup s) (w_put s) sigpipe.

Definition write_chunk (junk : list Z) (s : wstate) (p : pipe_inode_info) : option (bool * wstate * pipe_inode_info) :=
  let chars := Z.min (Z.min (PIPE_MAX_WCHUNK p) (w_total s)) (PIPE_FREE p) in
  let pos := Z.to_nat (PIPE_END p) in
  let s := mk_ws (w_iov s) (w_total s) (w_ret s) (w_min s) true (w_put s) (w_sigpipe s) in
  c ← pipe_iov_copy_from_user (w_iov s) (Z.to_nat chars);
  match c with
  | None => Some (true, w_fail (- EFAULT) false s, set_ring (write (base p) pos (take (Z.to_nat chars) junk)) (p_len p) (p_start p) p)
  | Some (c, iov) =>
      let s := mk_ws iov (w_total s - chars) (w_ret s + chars) (w_min s) true (w_put s ++ c) (w_sigpipe s) in
      Some (w_total s =? 0, s, set_ring (write (base p) pos c) (p_len p + chars) (p_start p) p)
  end.

Fixpoint write_loop (fuel : nat) (nonblock sig : bool) (junk : list Z) (s : wstate) (p : pipe_inode_info) : option (bool * wstate * pipe_inode_info) :=
  match fuel with
  | O => None
  | S fuel =>
      if p_readers p =? 0 then Some (false, w_fail (- EPIPE) true s, p)
      else
        '(stop, s, p) ← (if w_min s <=? PIPE_FREE p then write_chunk junk s p else Some (false, s, p));
        if (stop : bool) then Some (false, s, p)
        else if negb (PIPE_FREE p =? 0) && negb (w_ret s =? 0) then
          write_loop fuel nonblock sig junk (mk_ws (w_iov s) (w_total s) (w_ret s) 1 (w_wakeup s) (w_put s) (w_sigpipe s)) p
        else if nonblock then Some (false, w_fail (- EAGAIN) false s, p)
        else if sig then Some (false, w_fail (- ERESTARTSYS) false s, p)
        else Some (true, s, p)
  end.

(** A ring of one page is left after two transfers. *)
Definition loop_fuel : nat := 4.

(** ** Tasks and files *)

Record file := mk_file { f_read : bool; f_write : bool; f_nonblock : bool }.

(** A task in [pipe_wait], with its file. A writer has [do_wakeup] cleared then. *)
Inductive pc :=
  | Reading (f : Z) (r : rstate)
  | Writing (f : Z) (iov : wiov) (total ret min : Z).

Definition pc_file (x : pc) : Z := match x with Reading f _ => f | Writing f _ _ _ _ => f end.

(** [pipe] is [inode->i_pipe]. *)
Record world := mk_world { pipe : option pipe_inode_info; files : gmap Z file; pcs : gmap Z pc; woken : gset Z }.

Definition set_pipe v w := mk_world v (files w) (pcs w) (woken w).
Definition set_files v w := mk_world (pipe w) v (pcs w) (woken w).
Definition set_pcs v w := mk_world (pipe w) (files w) v (woken w).

(** [wake_up_interruptible]: nobody waits exclusively. *)
Definition wake_up (w : world) : world := mk_world (pipe w) (files w) (pcs w) (dom (pcs w) ∪ woken w).

Definition sleep (t : Z) (x : pc) (w : world) : world := mk_world (pipe w) (files w) (<[t := x]> (pcs w)) (woken w ∖ {[t]}).

(** What a part of a call shows: the result, if the call ended, with what a reader got and whether SIGPIPE was sent; the bytes put into the pipe and taken from it. *)
Record obs := mk_obs { o_ret : option Z; o_data : list Z; o_sigpipe : bool; o_put : list Z; o_took : list Z }.

Definition quiet (e : option Z) : obs := mk_obs e [] false [] [].

(** From [for (;;)] to the end of pipe_readv or to the wait. *)
Definition read_part (t f : Z) (nonblock sig : bool) (r : rstate) (w : world) : option (obs * world) :=
  p ← pipe w;
  '(waits, r', p) ← read_loop loop_fuel nonblock sig r p;
  let w := set_pipe (Some p) w in
  let w := if r_wakeup r' then wake_up w else w in
  let took := drop (length (r_got r)) (r_got r') in
  Some (if (waits : bool) then (mk_obs None [] false [] took, sleep t (Reading f r') w) else (mk_obs (Some (r_ret r')) (r_got r') false [] took, w)).

Definition write_part (t f : Z) (nonblock sig : bool) (junk : list Z) (s : wstate) (w : world) : option (obs * world) :=
  p ← pipe w;
  '(waits, s, p) ← write_loop loop_fuel nonblock sig junk s p;
  let w := if w_wakeup s then wake_up (set_pipe (Some p) w) else set_pipe (Some p) w in
  Some (if (waits : bool) then
          (mk_obs None [] false (w_put s) [], sleep t (Writing f (w_iov s) (w_total s) (w_ret s) (w_min s)) (set_pipe (Some (set_waiting (waiting_writers p + 1) p)) w))
        else (mk_obs (Some (w_ret s)) [] (w_sigpipe s) (w_put s) [], w)).

Definition pipe_readv (t f : Z) (fl : file) (iov : riov) (sig : bool) (w : world) : option (obs * world) :=
  if riov_length iov =? 0 then Some (quiet (Some 0), w)
  else read_part t f (f_nonblock fl) sig (mk_rs iov (riov_length iov) 0 false []) w.

Definition pipe_writev (t f : Z) (fl : file) (iov : wiov) (sig : bool) (junk : list Z) (w : world) : option (obs * world) :=
  let total := wiov_length iov in
  if total =? 0 then Some (quiet (Some 0), w)
  else write_part t f (f_nonblock fl) sig junk (mk_ws iov total 0 (if PIPE_BUF <? total then 1 else total) false [] false) w.

(** After [schedule] in [pipe_wait]. *)
Definition resume (t : Z) (x : pc) (sig : bool) (junk : list Z) (w : world) : option (obs * world) :=
  fl ← files w !! pc_file x;
  let w := set_pcs (delete t (pcs w)) w in
  match x with
  | Reading f r => read_part t f (f_nonblock fl) sig r w
  | Writing f iov total ret min =>
      p ← pipe w;
      write_part t f (f_nonblock fl) sig junk (mk_ws iov total ret min false [] false) (set_pipe (Some (set_waiting (waiting_writers p - 1) p)) w)
  end.

(** ** Opening and closing *)

Definition bz (b : bool) : Z := if b then 1 else 0.

(** [page] and [kmalloc] are the answers of the allocators; the page holds anything. *)
Definition pipe_new (page : option mem) (kmalloc : bool) : option pipe_inode_info :=
  match page with None => None | Some m => if kmalloc then Some (mk_pipe m 0 0 0 0 0) else None end.

(** [PIPE_READERS = PIPE_WRITERS = 1]; do_pipe makes a file for each end. *)
Definition get_pipe_inode (page : option mem) (kmalloc : bool) : option pipe_inode_info := p ← pipe_new page kmalloc; Some (set_ends 1 1 p).

Definition pipe_init (m : mem) : world := mk_world (get_pipe_inode (Some m) true) {[ 0 := mk_file true false false; 1 := mk_file false true false ]} ∅ ∅.

(** pipe_read_open and pipe_write_open are the cases of one mode. *)
Definition pipe_rdwr_open (fl : file) (p : pipe_inode_info) : pipe_inode_info := set_ends (p_readers p + bz (f_read fl)) (p_writers p + bz (f_write fl)) p.

Definition pipe_release (decr decw : Z) (w : world) : option world :=
  p ← pipe w;
  let p := set_ends (p_readers p - decr) (p_writers p - decw) p in
  Some (if (p_readers p =? 0) && (p_writers p =? 0) then set_pipe None w else wake_up (set_pipe (Some p) w)).

Definition pipe_rdwr_release (fl : file) (w : world) : option world := pipe_release (bz (f_read fl)) (bz (f_write fl)) w.

(** ** All tasks together *)

Inductive action :=
  | A_read (t f : Z) (iov : riov) (sig : bool)
  | A_write (t f : Z) (iov : wiov) (sig : bool) (junk : list Z)
  | A_run (t : Z) (sig : bool) (junk : list Z)
  | A_open (f : Z) (fl : file)
  | A_close (f : Z)
  | A_setfl (f : Z) (nonblock : bool).

Definition in_use (f : Z) (w : world) : bool := bool_decide (map_Exists (fun _ x => pc_file x = f) (pcs w)).

Definition idle (w : world) : option (obs * world) := Some (quiet None, w).

(** An action that cannot happen in a state does nothing: a call by a task that is in one, on a file that is not open, releasing a file that a call uses. A further file is
    opened by way of one that is open. *)
Definition exec (x : action) (w : world) : option (obs * world) :=
  match x with
  | A_read t f iov sig =>
      match files w !! f, pcs w !! t with
      | Some fl, None => if f_read fl then pipe_readv t f fl iov sig w else Some (quiet (Some (- EBADF)), w)
      | _, _ => idle w
      end
  | A_write t f iov sig junk =>
      match files w !! f, pcs w !! t with
      | Some fl, None => if f_write fl then pipe_writev t f fl iov sig junk w else Some (quiet (Some (- EBADF)), w)
      | _, _ => idle w
      end
  | A_run t sig junk => match pcs w !! t with Some x => resume t x sig junk w | None => idle w end
  | A_open f fl =>
      match files w !! f, pipe w with
      | None, Some p => if f_read fl || f_write fl then Some (quiet None, set_files (<[f := fl]> (files w)) (set_pipe (Some (pipe_rdwr_open fl p)) w)) else idle w
      | _, _ => idle w
      end
  | A_close f =>
      match files w !! f with
      | Some fl => if in_use f w then idle w else w ← pipe_rdwr_release fl w; Some (quiet None, set_files (delete f (files w)) w)
      | None => idle w
      end
  | A_setfl f nonblock =>
      match files w !! f with
      | Some fl => if in_use f w then idle w else Some (quiet None, set_files (<[f := mk_file (f_read fl) (f_write fl) nonblock]> (files w)) w)
      | None => idle w
      end
  end.

Fixpoint run_pipe (xs : list action) (w : world) : option (list obs * world) :=
  match xs with
  | [] => Some ([], w)
  | x :: xs => '(o, w) ← exec x w; '(os, w) ← run_pipe xs w; Some (o :: os, w)
  end.

(** ** The ring *)

Definition ring_ok (p : pipe_inode_info) : Prop := length (base p) = 4096%nat /\ 0 <= p_start p < 4096 /\ 0 <= p_len p <= 4096.

Ltac ring_tac := unfold ring_ok; cbn [base p_start p_len set_ring]; rewrite ?length_write; split; [assumption | lia].

(** The bytes in the pipe, oldest first. *)
Definition bytes (p : pipe_inode_info) : list Z := (fun i => base p !!! Z.to_nat ((p_start p + i) mod 4096)) <$> seqZ 0 (p_len p).

Lemma length_bytes p : length (bytes p) = Z.to_nat (p_len p).
Proof. unfold bytes. by rewrite length_fmap, length_seqZ. Qed.

Lemma mask_page x : Z.land x (PIPE_SIZE - 1) = x mod 4096.
Proof. change (PIPE_SIZE - 1) with (2 ^ 12 - 1). by apply land_pow2_mask. Qed.

Lemma end_eq p : PIPE_END p = (p_start p + p_len p) mod 4096.
Proof. apply mask_page. Qed.

Lemma wrap_mod x : 0 <= x < 8192 -> x mod 4096 = if x <? 4096 then x else x - 4096.
Proof. intros Hx. destruct (Z.ltb_spec x 4096); [apply Z.mod_small; lia |]. symmetry. apply (Z.mod_unique _ _ 1); lia. Qed.

Lemma lookup_bytes p i : ring_ok p -> 0 <= i < p_len p -> bytes p !! Z.to_nat i = base p !! Z.to_nat ((p_start p + i) mod 4096).
Proof.
  intros (L & S & N) Hi. unfold bytes. rewrite list_lookup_fmap, lookup_seqZ_lt by lia. cbn [fmap option_fmap option_map]. rewrite Z2Nat.id, Z.add_0_l by lia.
  pose proof (Z.mod_pos_bound (p_start p + i) 4096 ltac:(lia)). rewrite (list_lookup_lookup_total_lt (base p)) by lia. done.
Qed.

(** Lists of the same length that agree wherever there is a byte. *)
Lemma bytes_eq p l : ring_ok p -> length l = Z.to_nat (p_len p) -> (forall i, 0 <= i < p_len p -> l !! Z.to_nat i = base p !! Z.to_nat ((p_start p + i) mod 4096)) -> bytes p = l.
Proof.
  intros Ok Hl H. list_ext i. destruct (decide (i < Z.to_nat (p_len p))%nat) as [Hi | Hi].
  - rewrite <- (Nat2Z.id i). rewrite lookup_bytes by (done || lia). symmetry. apply H. lia.
  - rewrite !lookup_ge_None_2; [done | lia |]. rewrite length_bytes. lia.
Qed.

Definition taken (n : Z) (p : pipe_inode_info) : pipe_inode_info := set_ring (base p) (p_len p - n) ((p_start p + n) mod 4096) p.

Lemma take_bytes p n : ring_ok p -> 0 <= n <= p_len p -> n <= 4096 - p_start p ->
  ring_ok (taken n p) /\ bytes p = block (base p) (Z.to_nat (p_start p)) (Z.to_nat n) ++ bytes (taken n p).
Proof.
  intros Ok Hn Hc. pose proof Ok as (L & S & N). pose proof (Z.mod_pos_bound (p_start p + n) 4096 ltac:(lia)) as Hm.
  assert (ring_ok (taken n p)) as Ok' by (unfold taken; ring_tac). split; [done |]. assert (length (block (base p) (Z.to_nat (p_start p)) (Z.to_nat n)) = Z.to_nat n) as Lb by (apply length_block; lia).
  apply bytes_eq; [done | rewrite length_app, length_bytes, Lb; cbn; lia |]. intros i Hi. destruct (Z.ltb_spec i n) as [Hlt | Hge].
  - rewrite lookup_app_l by lia. rewrite lookup_block by lia. f_equal. rewrite Z.mod_small by lia. lia.
  - rewrite lookup_app_r by lia. rewrite Lb. replace (Z.to_nat i - Z.to_nat n)%nat with (Z.to_nat (i - n)) by lia. rewrite lookup_bytes by (done || cbn; lia). cbn [base taken set_ring p_start].
    do 2 f_equal. rewrite Z.add_mod_idemp_l by lia. f_equal. lia.
Qed.

Definition stored (c : list Z) (p : pipe_inode_info) : pipe_inode_info := set_ring (write (base p) (Z.to_nat (PIPE_END p)) c) (p_len p + Z.of_nat (length c)) (p_start p) p.

Lemma lookup_stored p c i : ring_ok p -> Z.of_nat (length c) <= 4096 - p_len p -> Z.of_nat (length c) <= 4096 - PIPE_END p -> 0 <= i < p_len p + Z.of_nat (length c) ->
  write (base p) (Z.to_nat (PIPE_END p)) c !! Z.to_nat ((p_start p + i) mod 4096) = if i <? p_len p then base p !! Z.to_nat ((p_start p + i) mod 4096) else c !! Z.to_nat (i - p_len p).
Proof.
  intros (L & S & N) Hf Hc Hi. rewrite end_eq in *. rewrite lookup_write by (pose proof (Z.mod_pos_bound (p_start p + p_len p) 4096 ltac:(lia)); lia).
  rewrite !wrap_mod in * by lia. destruct (Z.ltb_spec (p_start p + p_len p) 4096), (Z.ltb_spec (p_start p + i) 4096), (Z.ltb_spec i (p_len p)); case_decide; try lia; try done; f_equal; lia.
Qed.

Lemma store_bytes p c : ring_ok p -> Z.of_nat (length c) <= 4096 - p_len p -> Z.of_nat (length c) <= 4096 - PIPE_END p -> ring_ok (stored c p) /\ bytes (stored c p) = bytes p ++ c.
Proof.
  intros Ok Hf Hc. pose proof Ok as (L & S & N). assert (ring_ok (stored c p)) as Ok' by (unfold stored; ring_tac). split; [done |].
  apply bytes_eq; [done | rewrite length_app, length_bytes; cbn; lia |]. cbn [base stored set_ring p_start p_len]. intros i Hi. rewrite lookup_stored by (done || lia). destruct (Z.ltb_spec i (p_len p)).
  - rewrite lookup_app_l by (rewrite length_bytes; lia). rewrite lookup_bytes by (done || lia). done.
  - rewrite lookup_app_r by (rewrite length_bytes; lia). rewrite length_bytes. f_equal. lia.
Qed.

(** What is written behind the end without being counted does not show. *)
Lemma junk_bytes p c : ring_ok p -> Z.of_nat (length c) <= 4096 - p_len p -> Z.of_nat (length c) <= 4096 - PIPE_END p ->
  let p' := set_ring (write (base p) (Z.to_nat (PIPE_END p)) c) (p_len p) (p_start p) p in ring_ok p' /\ bytes p' = bytes p.
Proof.
  intros Ok Hf Hc. pose proof Ok as (L & S & N). cbn zeta. split; [ring_tac |].
  apply bytes_eq; [ring_tac | by rewrite length_bytes |]. cbn [base set_ring p_start p_len]. intros i Hi. rewrite lookup_stored by (done || lia).
  rewrite (proj2 (Z.ltb_lt _ _)) by lia. rewrite lookup_bytes by (done || lia). done.
Qed.

(** ** Copying to and from the caller *)

Lemma wiov_length_eq iov : wiov_length iov = Z.of_nat (length (concat iov)).
Proof. induction iov as [| seg iov IH]; cbn; [done |]. rewrite length_app. unfold wiov_length in IH. rewrite IH. lia. Qed.

Lemma readable_app (a b : list (option Z)) data : a ++ b = Some <$> data -> exists c d, a = Some <$> c /\ b = Some <$> d /\ data = c ++ d.
Proof. intros E. symmetry in E. apply fmap_app_inv in E as (c & d & -> & -> & ->). by exists c, d. Qed.

Lemma mapM_id_Some (l : list (option Z)) c : mapM id l = Some c <-> l = Some <$> c.
Proof.
  rewrite mapM_Some. split.
  - induction 1 as [| x y l c E _ IH]; [done |]. cbn in *. by rewrite E, IH.
  - intros ->. induction c as [| x c IH]; [constructor | constructor; [done | exact IH]].
Qed.

Lemma copy_from_spec iov : forall n, (n <= length (concat iov))%nat -> exists r, pipe_iov_copy_from_user iov n = Some r /\
  match r with
  | None => ~ exists data, concat iov = Some <$> data
  | Some (c, iov') => length c = n /\ concat iov = (Some <$> c) ++ concat iov'
  end.
Proof.
  induction iov as [| seg iov IH]; intros n Hn.
  - cbn in Hn. destruct n; [| lia]. by eexists.
  - destruct n as [| n]; [by eexists |]. cbn [pipe_iov_copy_from_user concat] in *. set (copy := Nat.min (S n) (length seg)). destruct (mapM id (take copy seg)) as [c |] eqn:E.
    + apply mapM_id_Some in E. assert (length c = copy) as Lc. { apply (f_equal length) in E. rewrite length_fmap, length_take in E. lia. }
      assert (seg = (Some <$> c) ++ drop copy seg) as Es by (rewrite <- E; symmetry; apply take_drop). destruct (Nat.eqb_spec copy (S n)) as [Ec | Ec].
      * eexists. split; [done |]. split; [lia |]. cbn [concat]. rewrite Es at 1. by rewrite app_assoc.
      * rewrite length_app in Hn. destruct (IH (S n - copy)%nat ltac:(lia)) as (r & -> & R). cbn [mbind option_bind]. eexists. split; [done |]. rewrite drop_ge, app_nil_r in Es by lia. destruct r as [[c' iov'] |]; cbn [option_map].
        -- destruct R as [R1 R2]. split; [rewrite length_app; lia |]. rewrite Es, R2, fmap_app. by rewrite app_assoc.
        -- intros (data & D). apply readable_app in D as (c1 & d & D1 & D2 & _). apply R. by exists d.
    + eexists. split; [done |]. intros (data & D). apply readable_app in D as (c1 & d & D1 & D2 & _). rewrite D1 in E. rewrite <- fmap_take in E.
      assert (mapM id (Some <$> take copy c1) = Some (take copy c1)) as E1 by (by apply mapM_id_Some). congruence.
Qed.

Lemma copy_to_spec iov : forall n, Z.of_nat n <= riov_length iov -> exists r, pipe_iov_copy_to_user iov n = Some r /\ match r with None => True | Some iov' => riov_length iov' = riov_length iov - Z.of_nat n end.
Proof.
  induction iov as [| [l room] iov IH]; intros n Hn.
  - cbn in Hn. destruct n; [| lia]. by eexists.
  - destruct n as [| n]; [eexists; split; [done |]; cbn; lia |]. cbn [pipe_iov_copy_to_user]. set (copy := Nat.min (S n) l). destruct (room <? copy)%nat; [by eexists |].
    change (riov_length ((l, room) :: iov)) with (Z.of_nat l + riov_length iov) in *. destruct (Nat.eqb_spec copy (S n)) as [Ec | Ec].
    + eexists. split; [done |]. change (Z.of_nat (l - copy) + riov_length iov = Z.of_nat l + riov_length iov - Z.of_nat (S n)). lia.
    + destruct (IH (S n - copy)%nat ltac:(lia)) as (r & -> & R). exists r. split; [done |]. destruct r; [| done]. lia.
Qed.

(** ** One part of a read *)

Definition rs_ok (r : rstate) : Prop := 0 < r_total r /\ riov_length (r_iov r) = r_total r /\ r_ret r = Z.of_nat (length (r_got r)).

Definition same_ends (p p' : pipe_inode_info) : Prop := p_readers p' = p_readers p /\ p_writers p' = p_writers p /\ waiting_writers p' = waiting_writers p.

Lemma same_ends_trans p q s : same_ends p q -> same_ends q s -> same_ends p s.
Proof. unfold same_ends. lia. Qed.

(** The bytes that leave the pipe are those the reader gets. *)
Definition moves (r r' : rstate) (p p' : pipe_inode_info) (took : list Z) : Prop :=
  r_got r' = r_got r ++ took /\ bytes p = took ++ bytes p' /\ ring_ok p' /\ same_ends p p' /\ (took <> [] \/ r_wakeup r = true -> r_wakeup r' = true).

(** How a reader's call ends. *)
Definition read_result (nonblock sig : bool) (r r' : rstate) (p' : pipe_inode_info) : Prop :=
  0 < r_ret r' /\ r_ret r' = Z.of_nat (length (r_got r')) \/
  r_got r' = [] /\ (r_ret r' = 0 /\ p_len p' = 0 /\ p_writers p' = 0 \/ r_ret r' = - EFAULT \/ r_ret r' = - EAGAIN /\ nonblock = true /\ p_len p' = 0 \/ r_ret r' = - ERESTARTSYS /\ sig = true /\ p_len p' = 0).

Lemma moves_refl r p : ring_ok p -> moves r r p p [].
Proof. intros Ok. split; [by rewrite app_nil_r |]. split; [done |]. split; [done |]. split; [done |]. intros [H | H]; done. Qed.

Lemma moves_trans r1 r2 r3 p1 p2 p3 a b : moves r1 r2 p1 p2 a -> moves r2 r3 p2 p3 b -> moves r1 r3 p1 p3 (a ++ b).
Proof.
  intros (A1 & A2 & A3 & A4 & A5) (B1 & B2 & B3 & B4 & B5). split; [by rewrite B1, A1, app_assoc |]. split; [by rewrite A2, B2, app_assoc |]. split; [done |]. split; [by eapply same_ends_trans |].
  intros [H | H]; apply B5; [destruct a; [by left | right; apply A5; by left] | right; apply A5; by right].
Qed.

Lemma r_fail_result r e : rs_ok r -> e < 0 -> 0 < r_ret (r_fail e r) /\ r_ret (r_fail e r) = Z.of_nat (length (r_got (r_fail e r))) \/ r_got (r_fail e r) = [] /\ r_ret (r_fail e r) = e.
Proof.
  intros (_ & _ & Hr) He. unfold r_fail. cbn. destruct (Z.eqb_spec (r_ret r) 0) as [E | E]; [right | left; lia]. split; [| done]. apply length_zero_iff_nil. lia.
Qed.

Lemma moves_fail r r' p p' a e : moves r r' p p' a -> moves r (r_fail e r') p p' a.
Proof. done. Qed.

Lemma read_chunk_ok r p : ring_ok p -> rs_ok r -> p_len p <> 0 -> exists stop r' p' took, read_chunk r p = Some (stop, r', p') /\ moves r r' p p' took /\
  (r' = r_fail (- EFAULT) r /\ stop = true \/
   took <> [] /\ r_ret r' = Z.of_nat (length (r_got r')) /\ r_total r' = r_total r - Z.of_nat (length took) /\ riov_length (r_iov r') = r_total r' /\
   (stop = true /\ r_total r' = 0 \/ stop = false /\ 0 < r_total r' /\ (p_len p' = 0 \/ p_start p' = 0 /\ 4096 - p_start p < p_len p))).
Proof.
  intros Ok (T & I & G) Hl. pose proof Ok as (L & S & N). unfold read_chunk, PIPE_MAX_RCHUNK, PIPE_SIZE. set (chars := Z.min (Z.min (4096 - p_start p) (r_total r)) (p_len p)). assert (0 < chars) as Hc by lia.
  destruct (copy_to_spec (r_iov r) (Z.to_nat chars) ltac:(lia)) as (c & -> & C). cbn [mbind option_bind]. destruct c as [iov |].
  - destruct (take_bytes p chars Ok ltac:(lia) ltac:(lia)) as [Ok' B]. assert (length (block (base p) (Z.to_nat (p_start p)) (Z.to_nat chars)) = Z.to_nat chars) as Lb by (apply length_block; lia).
    eexists _, _, _, (block (base p) (Z.to_nat (p_start p)) (Z.to_nat chars)). split; [done |]. change (4096 - 1) with (PIPE_SIZE - 1). rewrite mask_page. fold (taken chars p). split.
    + split; [done |]. split; [done |]. split; [done |]. split; [done |]. done.
    + right. cbn [r_ret r_got r_total r_iov]. rewrite length_app, Lb. split; [intros E; rewrite E in Lb; cbn in Lb; lia |]. split; [lia |]. split; [lia |]. split; [lia |]. cbn [p_len p_start taken set_ring].
      destruct (Z.eqb_spec (r_total r - chars) 0) as [E | E]; [by left | right]. split; [done |]. split; [lia |].
      destruct (Z.leb_spec (p_len p) (4096 - p_start p)); [left; lia | right]. split; [| lia]. assert (chars = 4096 - p_start p) as -> by lia. replace (p_start p + (4096 - p_start p)) with 4096 by lia. done.
  - eexists _, _, _, []. split; [done |]. split; [apply moves_fail, moves_refl, Ok |]. by left.
Qed.

(** The number of transfers that empty the ring. *)
Definition rounds (p : pipe_inode_info) : nat := if p_len p =? 0 then 0 else if p_len p <=? 4096 - p_start p then 1 else 2.

Definition read_ok (nonblock sig : bool) (r : rstate) (p : pipe_inode_info) (x : option (bool * rstate * pipe_inode_info)) : Prop :=
  exists waits r' p' took, x = Some (waits, r', p') /\ moves r r' p p' took /\
  if waits : bool then rs_ok r' /\ p_len p' = 0 /\ p_writers p' <> 0 /\ (waiting_writers p' = 0 -> r_ret r' = 0 /\ nonblock = false) else read_result nonblock sig r r' p'.

Lemma read_fail_ok nonblock sig r r1 p p1 took e : moves r r1 p p1 took -> rs_ok r1 -> e = - EFAULT \/ e = - EAGAIN /\ nonblock = true /\ p_len p1 = 0 \/ e = - ERESTARTSYS /\ sig = true /\ p_len p1 = 0 ->
  read_ok nonblock sig r p (Some (false, r_fail e r1, p1)).
Proof.
  intros M R1 He. eexists _, _, _, took. split; [done |]. split; [by apply moves_fail |]. assert (e < 0) as Hn by (unfold EFAULT, EAGAIN, ERESTARTSYS in He; lia).
  destruct (r_fail_result r1 e R1 Hn) as [F | [F1 F2]]; [by left | right]. rewrite F2. auto.
Qed.

Lemma read_wait_ok nonblock sig r r1 p p1 took : moves r r1 p p1 took -> rs_ok r1 -> p_len p1 = 0 -> read_ok nonblock sig r p (Some (read_wait nonblock sig r1 p1)).
Proof.
  intros M R1 Z1. pose proof R1 as (_ & _ & G1). assert (p_writers p1 <> 0 -> (waiting_writers p1 = 0 -> r_ret r1 = 0 /\ nonblock = false) -> read_ok nonblock sig r p (Some (if sig then (false, r_fail (- ERESTARTSYS) r1, p1) else (true, r1, p1)))) as Last.
  { intros H1 H2. destruct sig; [eapply read_fail_ok; [done | done | by right; right] |]. exists true, r1, p1, took. done. }
  unfold read_wait. destruct (Z.eqb_spec (p_writers p1) 0) as [W0 | W0]; [| destruct (Z.eqb_spec (waiting_writers p1) 0) as [Q0 | Q0]; cbn [andb]; [destruct (Z.eqb_spec (r_ret r1) 0) as [E0 | E0]; cbn [negb]; [destruct nonblock |] |]].
  - eexists _, _, _, took. split; [done |]. split; [done |]. destruct (decide (r_ret r1 = 0)) as [E | E]; [right | left; lia]. split; [apply length_zero_iff_nil; lia | by left].
  - eapply read_fail_ok; [done | done | by right; left].
  - by apply Last.
  - eexists _, _, _, took. split; [done |]. split; [done |]. left. lia.
  - by apply Last.
Qed.

Lemma read_loop_ok nonblock sig fuel : forall r p, (1 <= fuel)%nat -> (rounds p <= fuel)%nat -> ring_ok p -> rs_ok r -> read_ok nonblock sig r p (read_loop fuel nonblock sig r p).
Proof.
  induction fuel as [| fuel IH]; intros r p H1 Hf Ok R; [lia |]. cbn [read_loop].
  destruct (Z.eqb_spec (p_len p) 0) as [E0 | E0]; cbn [mbind option_bind].
  { rewrite E0. cbn [Z.eqb negb]. by eapply read_wait_ok; [apply moves_refl | |]. }
  destruct (read_chunk_ok r p Ok R E0) as (stop & r' & p' & took & -> & M & [[-> ->] | (Ht & G & T & I & C)]); cbn [mbind option_bind].
  - eexists _, _, _, took. split; [done |]. split; [done |]. destruct (r_fail_result r (- EFAULT) R ltac:(unfold EFAULT; lia)) as [F | [F1 F2]]; [by left | right]. rewrite F2. auto.
  - destruct C as [[-> C] | (-> & C1 & C2)].
    + eexists _, _, _, took. split; [done |]. split; [done |]. left. split; [| done]. destruct M as (M & _). rewrite G, M, length_app. destruct took; [done |]. cbn. lia.
    + assert (rs_ok r') as R' by done. destruct (Z.eqb_spec (p_len p') 0) as [E1 | E1]; cbn [negb]; [by eapply read_wait_ok |]. destruct C2 as [C2 | [C2 C3]]; [done |].
      assert (ring_ok p') as Ok' by apply M. assert (rounds p = 2%nat /\ rounds p' = 1%nat) as [Rp Rp'].
      { unfold rounds. rewrite (proj2 (Z.eqb_neq _ _) E0), (proj2 (Z.eqb_neq _ _) E1), C2. destruct Ok' as (_ & _ & N). split; [by rewrite (proj2 (Z.leb_gt _ _)) by lia | by rewrite (proj2 (Z.leb_le _ _)) by lia]. }
      destruct (IH r' p' ltac:(lia) ltac:(lia) Ok' R') as (waits & r2 & p2 & took2 & -> & M2 & W). eexists _, _, _, (took ++ took2). split; [done |]. split; [by eapply moves_trans |]. done.
Qed.

(** ** One part of a write *)

Definition ws_ok (s : wstate) : Prop :=
  0 < w_total s /\ wiov_length (w_iov s) = w_total s /\ 0 <= w_ret s /\ (w_min s = 1 \/ w_ret s = 0 /\ w_min s = w_total s /\ w_total s <= 4096).

(** The bytes that enter the pipe are the writer's next ones. *)
Definition feeds (s s' : wstate) (p p' : pipe_inode_info) (put : list Z) : Prop :=
  w_put s' = w_put s ++ put /\ bytes p' = bytes p ++ put /\ ring_ok p' /\ same_ends p p' /\ concat (w_iov s) = (Some <$> put) ++ concat (w_iov s') /\ (put <> [] \/ w_wakeup s = true -> w_wakeup s' = true).

Lemma feeds_refl s p : ring_ok p -> feeds s s p p [].
Proof. intros Ok. split; [by rewrite app_nil_r |]. split; [by rewrite app_nil_r |]. split; [done |]. split; [done |]. split; [done |]. intros [H | H]; done. Qed.

Lemma feeds_trans s1 s2 s3 p1 p2 p3 a b : feeds s1 s2 p1 p2 a -> feeds s2 s3 p2 p3 b -> feeds s1 s3 p1 p3 (a ++ b).
Proof.
  intros (A1 & A2 & A3 & A4 & A5 & A6) (B1 & B2 & B3 & B4 & B5 & B6). split; [by rewrite B1, A1, app_assoc |]. split; [by rewrite B2, A2, app_assoc |]. split; [done |]. split; [by eapply same_ends_trans |].
  split; [by rewrite A5, B5, fmap_app, app_assoc |]. intros [H | H]; apply B6; [destruct a; [by left | right; apply A6; by left] | right; apply A6; by right].
Qed.

Definition set_min (n : Z) (s : wstate) : wstate := mk_ws (w_iov s) (w_total s) (w_ret s) n (w_wakeup s) (w_put s) (w_sigpipe s).

Lemma feeds_min s s' p p' a n : feeds s s' p p' a -> feeds s (set_min n s') p p' a.
Proof. done. Qed.

Lemma feeds_fail s s' p p' a e b : feeds s s' p p' a -> feeds s (w_fail e b s') p p' a.
Proof. done. Qed.

Lemma write_chunk_ok junk s p : ring_ok p -> ws_ok s -> w_min s <= PIPE_FREE p -> exists stop s' p' put, write_chunk junk s p = Some (stop, s', p') /\ feeds s s' p p' put /\ w_wakeup s' = true /\
  (stop = true /\ put = [] /\ w_ret s' = (if w_ret s =? 0 then - EFAULT else w_ret s) /\ w_sigpipe s' = false /\ (~ exists data, concat (w_iov s) = Some <$> data) \/
   put <> [] /\ w_ret s' = w_ret s + Z.of_nat (length put) /\ w_total s' = w_total s - Z.of_nat (length put) /\ wiov_length (w_iov s') = w_total s' /\ w_min s' = w_min s /\ w_sigpipe s' = w_sigpipe s /\
   (stop = true /\ w_total s' = 0 \/ stop = false /\ 0 < w_total s' /\ PIPE_FREE p' = PIPE_FREE p - Z.of_nat (length put) /\ (PIPE_FREE p' = 0 \/ PIPE_END p' = 0 /\ PIPE_MAX_WCHUNK p < PIPE_FREE p))).
Proof.
  intros Ok (T & I & R & M) Hm. pose proof Ok as (L & S & N). unfold write_chunk. pose proof (Z.mod_pos_bound (p_start p + p_len p) 4096 ltac:(lia)) as He. rewrite <- end_eq in He.
  set (chars := Z.min (Z.min (PIPE_MAX_WCHUNK p) (w_total s)) (PIPE_FREE p)). assert (0 < chars /\ chars <= 4096 - PIPE_END p /\ chars <= 4096 - p_len p /\ chars <= w_total s) as Hc by (unfold chars, PIPE_MAX_WCHUNK, PIPE_FREE, PIPE_SIZE in *; lia).
  rewrite wiov_length_eq in I. cbn [w_iov]. destruct (copy_from_spec (w_iov s) (Z.to_nat chars) ltac:(lia)) as (c & -> & C). cbn [mbind option_bind]. destruct c as [[c iov] |].
  - destruct C as [Lc C]. assert (Z.of_nat (length c) = chars) as Lz by lia. destruct (store_bytes p c Ok ltac:(lia) ltac:(lia)) as [Ok' B]. unfold stored in Ok', B. rewrite Lz in Ok', B.
    eexists _, _, _, c. split; [done |]. split; [by split_and! |]. split; [done |]. right. cbn [w_ret w_total w_iov w_min w_sigpipe]. rewrite Lz. split; [intros ->; cbn in Lz; lia |]. do 2 (split; [done |]).
    split; [rewrite wiov_length_eq; apply (f_equal length) in C; rewrite length_app, length_fmap in C; lia |]. do 2 (split; [done |]). destruct (Z.eqb_spec (w_total s - chars) 0) as [E | E]; [by left | right].
    split; [done |]. split; [lia |]. unfold PIPE_FREE at 1. cbn [p_len set_ring]. split; [unfold PIPE_FREE; lia |]. destruct (Z.leb_spec (PIPE_FREE p) (PIPE_MAX_WCHUNK p)) as [Hle | Hlt].
    + left. unfold PIPE_FREE in *. cbn [p_len set_ring]. unfold chars, PIPE_SIZE in *. lia.
    + right. split; [| done]. rewrite end_eq in *. cbn [p_start p_len set_ring]. assert (chars = 4096 - (p_start p + p_len p) mod 4096) as -> by (unfold chars, PIPE_MAX_WCHUNK, PIPE_FREE, PIPE_SIZE in *; rewrite end_eq in *; lia).
      replace (p_start p + (p_len p + (4096 - (p_start p + p_len p) mod 4096))) with ((p_start p + p_len p) / 4096 * 4096 + 4096) by (pose proof (Z_div_mod_eq_full (p_start p + p_len p) 4096); lia).
      replace (_ * 4096 + 4096) with (((p_start p + p_len p) / 4096 + 1) * 4096) by lia. by apply Z.mod_mul.
  - destruct (junk_bytes p (take (Z.to_nat chars) junk) Ok ltac:(rewrite length_take; lia) ltac:(rewrite length_take; lia)) as [Ok' B]. eexists _, _, _, []. split; [done |]. split.
    + split; [cbn; by rewrite app_nil_r |]. split; [by rewrite app_nil_r |]. split; [done |]. split; [done |]. split; [done |]. done.
    + split; [done |]. left. done.
Qed.

(** The number of transfers that fill the ring. *)
Definition wrounds (p : pipe_inode_info) : nat := if PIPE_FREE p =? 0 then 0 else if PIPE_FREE p <=? PIPE_MAX_WCHUNK p then 1 else 2.

(** How a writer's call ends. *)
Definition write_result (nonblock sig : bool) (s s' : wstate) (p' : pipe_inode_info) (put : list Z) : Prop :=
  0 < w_ret s' /\ w_ret s' = w_ret s + Z.of_nat (length put) \/
  w_ret s = 0 /\ put = [] /\ (w_ret s' = - EPIPE /\ p_readers p' = 0 /\ w_sigpipe s' = true \/ w_ret s' = - EFAULT /\ (~ exists data, concat (w_iov s) = Some <$> data) \/
    PIPE_FREE p' < w_min s /\ (w_ret s' = - EAGAIN /\ nonblock = true \/ w_ret s' = - ERESTARTSYS /\ sig = true)).

Definition write_ok (nonblock sig : bool) (s : wstate) (p : pipe_inode_info) (x : option (bool * wstate * pipe_inode_info)) : Prop :=
  exists waits s' p' put, x = Some (waits, s', p') /\ feeds s s' p p' put /\ (p_readers p <> 0 -> w_min s <= PIPE_FREE p -> w_wakeup s' = true) /\
  if waits : bool then ws_ok s' /\ p_readers p' <> 0 /\ PIPE_FREE p' < w_min s' /\ w_ret s' = w_ret s + Z.of_nat (length put) /\ w_total s' = w_total s - Z.of_nat (length put) else write_result nonblock sig s s' p' put.

(** The pipe is full or has too little room. *)
Lemma write_wait_ok nonblock sig s s1 p p1 put : feeds s s1 p p1 put -> (p_readers p <> 0 -> w_min s <= PIPE_FREE p -> w_wakeup s1 = true) -> ws_ok s1 -> 0 <= w_ret s -> w_ret s1 = w_ret s + Z.of_nat (length put) ->
  w_total s1 = w_total s - Z.of_nat (length put) -> p_readers p1 <> 0 -> PIPE_FREE p1 < w_min s1 -> (put = [] -> w_min s1 = w_min s) ->
  write_ok nonblock sig s p (if nonblock then Some (false, w_fail (- EAGAIN) false s1, p1) else if sig then Some (false, w_fail (- ERESTARTSYS) false s1, p1) else Some (true, s1, p1)).
Proof.
  intros P Wk W R0 R T Rd F Mn. assert (forall e, e = - EAGAIN /\ nonblock = true \/ e = - ERESTARTSYS /\ sig = true -> write_ok nonblock sig s p (Some (false, w_fail e false s1, p1))) as Fail.
  { intros e He. eexists _, _, _, put. split; [done |]. split; [by apply feeds_fail |]. split; [done |]. unfold write_result, w_fail. cbn [w_ret]. destruct W as (_ & _ & W & _). destruct (Z.eqb_spec (w_ret s1) 0) as [E | E]; [right | left; lia].
    assert (put = []) as Hp by (apply length_zero_iff_nil; lia). split; [lia |]. split; [done |]. right. right. rewrite <- Mn by done. done. }
  destruct nonblock; [apply Fail; by left |]. destruct sig; [apply Fail; by right |]. by eexists _, _, _, put.
Qed.

Lemma write_loop_ok nonblock sig junk fuel : forall s p, (1 <= fuel)%nat -> (wrounds p <= fuel)%nat -> ring_ok p -> ws_ok s -> write_ok nonblock sig s p (write_loop fuel nonblock sig junk s p).
Proof.
  induction fuel as [| fuel IH]; intros s p H1 Hf Ok W; [lia |]. pose proof W as (T & I & R & M). cbn [write_loop]. destruct (Z.eqb_spec (p_readers p) 0) as [R0 | R0].
  { eexists _, _, _, []. split; [done |]. split; [by apply feeds_fail, feeds_refl |]. split; [done |]. unfold write_result, w_fail. cbn [w_ret w_sigpipe]. destruct (Z.eqb_spec (w_ret s) 0) as [E | E]; [right | left; cbn; lia]. split; [done |]. split; [done |]. by left. }
  destruct (Z.leb_spec (w_min s) (PIPE_FREE p)) as [Hm | Hm]; cbn [mbind option_bind].
  2: { assert (negb (PIPE_FREE p =? 0) && negb (w_ret s =? 0) = false) as ->. { destruct Ok as (_ & _ & N). unfold PIPE_FREE, PIPE_SIZE in *. lia. }
       eapply write_wait_ok; [by apply feeds_refl | lia | done | done | cbn; lia | cbn; lia | done | done | done]. }
  destruct (write_chunk_ok junk s p Ok W Hm) as (stop & s' & p' & put & -> & P & Wk & [(-> & -> & Er & _ & Nr) | (Hp & Er & Et & Ei & Em & _ & C)]); cbn [mbind option_bind].
  { eexists _, _, _, []. split; [done |]. split; [done |]. split; [done |]. unfold write_result. rewrite Er. destruct (Z.eqb_spec (w_ret s) 0) as [E | E]; [right | left; cbn; lia]. split; [done |]. split; [done |]. right. by left. }
  assert (0 < length put)%nat as Lp by (destruct put; [done | cbn; lia]). destruct C as [[-> C] | (-> & C1 & C2 & C3)].
  { eexists _, _, _, put. split; [done |]. split; [done |]. split; [done |]. left. lia. }
  replace (w_ret s' =? 0) with false by lia. rewrite andb_true_r. pose proof P as (_ & _ & Ok' & (Rd & _ & _) & _). destruct (Z.eqb_spec (PIPE_FREE p') 0) as [F0 | F0]; cbn [negb].
  - assert (w_min s = 1) as M1. { destruct M as [M | (M1 & M2 & M3)]; [done |]. exfalso. lia. }
    eapply write_wait_ok; [done | done | | done | done | done | by rewrite Rd | lia | done]. split; [done |]. split; [done |]. split; [lia |]. left. lia.
  - destruct C3 as [C3 | [C3 C4]]; [done |]. assert (wrounds p = 2%nat /\ wrounds p' = 1%nat) as [Rp Rp'].
    { destruct Ok' as (_ & _ & N'). unfold wrounds. rewrite (proj2 (Z.eqb_neq _ _) F0). unfold PIPE_MAX_WCHUNK in *. rewrite C3. unfold PIPE_FREE, PIPE_SIZE in *. rewrite (proj2 (Z.eqb_neq (4096 - p_len p) 0)) by lia.
      split; [by rewrite (proj2 (Z.leb_gt _ _)) by lia | by rewrite (proj2 (Z.leb_le _ _)) by lia]. }
    fold (set_min 1 s'). destruct (IH (set_min 1 s') p' ltac:(lia) ltac:(lia) Ok') as (waits & s2 & p2 & put2 & -> & P2 & Wk2 & X).
    { split; [done |]. split; [done |]. split; [cbn; lia |]. by left. }
    eexists _, _, _, (put ++ put2). split; [done |]. split; [eapply feeds_trans; [by apply feeds_min | done] |]. split; [intros _ _; apply P2; by right |]. cbn [set_min w_ret w_total w_min w_iov] in X. destruct waits.
    + destruct X as (X1 & X2 & X3 & X4 & X5). rewrite length_app. split_and!; try done; lia.
    + unfold write_result in *. cbn [set_min w_ret w_total w_min w_iov] in X. rewrite length_app. left. lia.
Qed.

(** ** Reading and writing as a whole *)

Lemma rounds_le p : (rounds p <= loop_fuel)%nat.
Proof. unfold rounds, loop_fuel. repeat case_match; lia. Qed.

Lemma wrounds_le p : (wrounds p <= loop_fuel)%nat.
Proof. unfold wrounds, loop_fuel. repeat case_match; lia. Qed.

(** A request that fits is written completely. *)
Lemma write_all nonblock sig junk fuel : forall data s p, (1 <= fuel)%nat -> (wrounds p <= fuel)%nat -> ring_ok p -> ws_ok s -> p_readers p <> 0 -> w_total s <= PIPE_FREE p -> concat (w_iov s) = Some <$> data ->
  exists s' p', write_loop fuel nonblock sig junk s p = Some (false, s', p') /\ w_put s' = w_put s ++ data /\ w_ret s' = w_ret s + Z.of_nat (length data) /\ bytes p' = bytes p ++ data.
Proof.
  induction fuel as [| fuel IH]; intros data s p H1 Hf Ok W Rd Ht D; [lia |]. pose proof W as (T & I & R & M). cbn [write_loop]. rewrite (proj2 (Z.eqb_neq _ _) Rd). assert (w_min s <= PIPE_FREE p) as Hm by lia. rewrite (proj2 (Z.leb_le _ _) Hm).
  destruct (write_chunk_ok junk s p Ok W Hm) as (stop & s' & p' & put & -> & (P1 & P2 & P3 & P4 & P5 & _) & Wk & [(_ & _ & _ & _ & Nr) | (Hp & Er & Et & Ei & Em & _ & C)]); cbn [mbind option_bind]; [destruct Nr; by exists data |].
  rewrite D in P5. symmetry in P5. apply readable_app in P5 as (c & d & C1 & C2 & ->). apply (inj (fmap Some)) in C1 as <-. destruct C as [[-> C] | (-> & C3 & C4 & C5)].
  - assert (d = []) as ->. { rewrite wiov_length_eq, C2, length_fmap in Ei. apply length_zero_iff_nil. lia. } rewrite app_nil_r. exists s', p'. done.
  - assert (0 < length put)%nat as Lp by (destruct put; [done | cbn; lia]). replace (w_ret s' =? 0) with false by lia. rewrite (proj2 (Z.eqb_neq (PIPE_FREE p') 0)) by lia. cbn [negb andb]. destruct C5 as [C5 | [C5 C6]]; [lia |].
    assert (wrounds p = 2%nat /\ wrounds p' = 1%nat) as [Rp Rp'].
    { destruct P3 as (_ & _ & N'). unfold wrounds, PIPE_MAX_WCHUNK in *. rewrite C5. rewrite (proj2 (Z.eqb_neq (PIPE_FREE p') 0)), (proj2 (Z.eqb_neq (PIPE_FREE p) 0)) by lia. unfold PIPE_FREE, PIPE_SIZE in *.
      split; [by rewrite (proj2 (Z.leb_gt _ _)) by lia | by rewrite (proj2 (Z.leb_le _ _)) by lia]. }
    fold (set_min 1 s'). destruct (IH d (set_min 1 s') p' ltac:(lia) ltac:(lia) P3) as (s2 & p2 & -> & Q1 & Q2 & Q3); [| destruct P4; lia | cbn; lia | done |].
    { split; [done |]. split; [done |]. split; [cbn; lia |]. by left. }
    exists s2, p2. split; [done |]. cbn [set_min w_put w_ret] in Q1, Q2. split; [by rewrite Q1, P1, app_assoc |]. split; [rewrite Q2, Er, length_app; lia |]. by rewrite Q3, P2, app_assoc.
Qed.

(** A request that fits but cannot be read as a whole ends without waiting: with an error
    and nothing written, or with a part of it written. *)
Lemma write_unreadable nonblock sig junk s p : ring_ok p -> ws_ok s -> w_ret s = 0 -> p_readers p <> 0 -> w_total s <= PIPE_FREE p ->
  (~ exists data, concat (w_iov s) = Some <$> data) ->
  exists s' p' put rest, write_loop loop_fuel nonblock sig junk s p = Some (false, s', p') /\ w_put s' = w_put s ++ put /\ bytes p' = bytes p ++ put /\
    concat (w_iov s) = (Some <$> put) ++ rest /\ rest <> [] /\ w_ret s' = (if decide (put = []) then - EFAULT else Z.of_nat (length put)).
Proof.
  intros Ok W R0 Rd Hf No. pose proof W as (T & I & _ & M).
  destruct (write_loop_ok nonblock sig junk loop_fuel s p ltac:(unfold loop_fuel; lia) (wrounds_le p) Ok W) as (waits & s' & p' & put & -> & (P1 & P2 & Ok' & (E1 & _) & P5 & _) & _ & X).
  assert (PIPE_FREE p' = PIPE_FREE p - Z.of_nat (length put)) as F.
  { apply (f_equal length) in P2. rewrite length_app, !length_bytes in P2 by done. destruct Ok as (_ & _ & N), Ok' as (_ & _ & N'). unfold PIPE_FREE. lia. }
  destruct waits.
  { exfalso. destruct X as ((T' & _ & _ & M') & _ & X & _ & X'). lia. }
  exists s', p', put, (concat (w_iov s')). do 4 (split; [done |]). split.
  { intros E. rewrite E, app_nil_r in P5. apply No. by exists put. }
  destruct X as [[X1 X2] | (_ & -> & X)].
  - rewrite decide_False; [lia |]. intros ->. cbn in X2. lia.
  - rewrite decide_True by done. destruct X as [(_ & X & _) | [[X _] | [X _]]]; [congruence | done |]. cbn in F. lia.
Qed.

(** C24. What a write of at most PIPE_BUF bytes does whenever it runs, first or after waiting. If the whole buffer can be read it is atomic: it puts all its bytes into
    the pipe next to each other and returns their number, or it puts none and waits with the whole request or fails with EPIPE, EAGAIN or ERESTARTSYS. If a part of the
    buffer cannot be read, it may besides put none and fail with EFAULT, or put a first part of the buffer and return the number of its bytes
    ([unreadable_write_torn]). *)
Theorem pipe_write_atomic t f nonblock sig junk iov w p : pipe w = Some p -> ring_ok p -> 0 < wiov_length iov <= PIPE_BUF ->
  let n := wiov_length iov in
  exists o w' p', write_part t f nonblock sig junk (mk_ws iov n 0 n false [] false) w = Some (o, w') /\ pipe w' = Some p' /\ bytes p' = bytes p ++ o_put o /\
  (concat iov = Some <$> o_put o /\ o_ret o = Some n \/
   o_put o = [] /\ (o_ret o = None /\ pcs w' !! t = Some (Writing f iov n 0 n) \/ exists e, o_ret o = Some (- e) /\ (e = EPIPE \/ e = EAGAIN \/ e = ERESTARTSYS)) \/
   (~ exists data, concat iov = Some <$> data) /\ (exists rest, concat iov = (Some <$> o_put o) ++ rest /\ rest <> []) /\
     o_ret o = Some (if decide (o_put o = []) then - EFAULT else Z.of_nat (length (o_put o)))).
Proof.
  intros Hp Ok Hn n. unfold PIPE_BUF in Hn. set (s := mk_ws _ _ _ _ _ _ _). unfold write_part. rewrite Hp. cbn [mbind option_bind]. assert (ws_ok s) as W.
  { split; [cbn; lia |]. split; [done |]. split; [cbn; lia |]. right. cbn. lia. }
  destruct (decide (p_readers p <> 0 /\ w_total s <= PIPE_FREE p)) as [[Rd Hf] | Hno].
  - destruct (mapM id (concat iov)) as [data |] eqn:D.
    + apply mapM_id_Some in D. destruct (write_all nonblock sig junk loop_fuel data s p ltac:(unfold loop_fuel; lia) (wrounds_le p) Ok W Rd Hf D) as (s' & p' & -> & Q1 & Q2 & Q3). cbn [mbind option_bind]. eexists _, _, p'. split; [done |].
      split; [by destruct (w_wakeup s') |]. cbn [o_put o_ret]. rewrite Q1, Q2. split; [done |]. left. split; [done |]. do 2 f_equal. unfold n. by rewrite wiov_length_eq, D, length_fmap.
    + assert (~ exists data, concat iov = Some <$> data) as No. { intros (data & E). apply mapM_id_Some in E. congruence. }
      destruct (write_unreadable nonblock sig junk s p Ok W eq_refl Rd Hf No) as (s' & p' & put & rest & -> & Q1 & Q2 & Q3 & Q4 & Q5). cbn [mbind option_bind]. eexists _, _, p'. split; [done |].
      split; [by destruct (w_wakeup s') |]. cbn [o_put o_ret]. rewrite Q1, Q5. split; [done |]. right. right. split; [done |]. split; [by exists rest | done].
  - unfold loop_fuel. cbn [write_loop]. destruct (Z.eqb_spec (p_readers p) 0) as [R0 | R0]; cbn [mbind option_bind].
    + eexists _, _, p. split; [done |]. split; [done |]. split; [by rewrite app_nil_r |]. right. left. split; [done |]. right. exists EPIPE. split; [done |]. by left.
    + rewrite (proj2 (Z.leb_gt (w_min s) (PIPE_FREE p))) by (unfold s in *; cbn [w_min w_total] in *; lia). cbn [mbind option_bind s w_ret Z.eqb negb]. rewrite andb_false_r.
      destruct nonblock; [| destruct sig]; cbn [mbind option_bind]; eexists _, _, _; (split; [done |]); (split; [done |]); (split; [by rewrite app_nil_r |]); right; left; (split; [done |]).
      * right. exists EAGAIN. split; [done |]. auto.
      * right. exists ERESTARTSYS. split; [done |]. auto.
      * left. split; [done |]. cbn [sleep pcs]. apply lookup_insert_eq.
Qed.

(** ** All tasks: the invariant *)

Definition count {A} (P : A -> bool) (m : gmap Z A) : Z := Z.of_nat (size (filter (fun kv => P kv.2 = true) m)).

Lemma count_insert {A} (P : A -> bool) (m : gmap Z A) k x : m !! k = None -> count P (<[k := x]> m) = count P m + bz (P x).
Proof.
  intros Hk. unfold count. destruct (P x) eqn:E.
  - rewrite map_filter_insert_True by done. rewrite map_size_insert_None; [cbn; lia |]. apply map_lookup_filter_None. by left.
  - rewrite map_filter_insert_False by (cbn; congruence). rewrite delete_id by done. cbn. lia.
Qed.

Lemma count_delete {A} (P : A -> bool) (m : gmap Z A) k x : m !! k = Some x -> count P (delete k m) = count P m - bz (P x).
Proof. intros Hk. rewrite <- (insert_delete_id m k x Hk) at 2. rewrite count_insert by apply lookup_delete_eq. lia. Qed.

Lemma count_nonneg {A} (P : A -> bool) (m : gmap Z A) : 0 <= count P m.
Proof. unfold count. lia. Qed.

Lemma count_pos {A} (P : A -> bool) (m : gmap Z A) k x : m !! k = Some x -> P x = true -> 0 < count P m.
Proof. intros Hk E. pose proof (count_delete P m k x Hk) as H. pose proof (count_nonneg P (delete k m)). rewrite E in H. cbn in H. lia. Qed.

Lemma count_same {A} (P : A -> bool) (m : gmap Z A) k x y : m !! k = Some x -> P y = P x -> count P (<[k := y]> m) = count P m.
Proof. intros Hk E. rewrite <- insert_delete_eq, count_insert by apply lookup_delete_eq. rewrite (count_delete P m k x Hk), E. lia. Qed.

Definition is_writing (x : pc) : bool := match x with Writing _ _ _ _ _ => true | _ => false end.

(** A waiting task that was not woken has reason to wait; what its call asks for is still as it should be. *)
Definition pc_ok (w : world) (p : pipe_inode_info) (t : Z) (x : pc) : Prop := exists fl, files w !! pc_file x = Some fl /\
  match x with
  | Reading f r => f_read fl = true /\ rs_ok r /\ (t ∉ woken w -> p_len p = 0 /\ p_writers p <> 0)
  | Writing f iov total ret min => f_write fl = true /\ ws_ok (mk_ws iov total ret min false [] false) /\ (t ∉ woken w -> PIPE_FREE p < min)
  end.

(** A reader that has got something already or does not want to wait only waits for a writer that is in the middle of its call. *)
Definition merge_ok (w : world) (p : pipe_inode_info) : Prop := forall t f r fl, pcs w !! t = Some (Reading f r) -> t ∉ woken w -> files w !! f = Some fl -> waiting_writers p = 0 -> r_ret r = 0 /\ f_nonblock fl = false.

Record pipe_ok (w : world) (p : pipe_inode_info) : Prop := {
  po_ring : ring_ok p;
  po_readers : p_readers p = count f_read (files w);
  po_writers : p_writers p = count f_write (files w);
  po_waiting : waiting_writers p = count is_writing (pcs w);
  po_files : forall f fl, files w !! f = Some fl -> f_read fl || f_write fl = true;
  po_pcs : forall t x, pcs w !! t = Some x -> pc_ok w p t x
}.

Definition inv (w : world) : Prop := match pipe w with Some p => pipe_ok w p /\ merge_ok w p | None => files w = ∅ /\ pcs w = ∅ end.

(** A change of the ring that wakes everybody, or changes nothing a waiting task waits for. *)
Lemma pipe_ok_step w p p' (b : bool) : pipe_ok w p -> ring_ok p' -> same_ends p p' -> (b = false -> p_len p' = p_len p) ->
  pipe_ok ((if b then wake_up else id) (set_pipe (Some p') w)) p'.
Proof.
  intros [H1 H2 H3 H4 H5 H6] Ok (E1 & E2 & E3) Hb. assert (forall P, P (set_pipe (Some p') w) -> P (wake_up (set_pipe (Some p') w)) -> P ((if b then wake_up else id) (set_pipe (Some p') w))) as Case by (by destruct b).
  split; [done | | | | |]; try (apply Case; cbn; (congruence || done)). intros t x Hx. assert (pcs w !! t = Some x) as Hx' by (by destruct b). destruct (H6 t x Hx') as (fl & F & X). exists fl. split; [by destruct b |].
  destruct x as [f r | f iov total ret min]; destruct X as (X1 & X2 & X3); (split; [done |]); (split; [done |]); (destruct b; cbn [wake_up woken set_pipe id pcs]; intros Hn; [destruct Hn; apply elem_of_union_l, elem_of_dom; by eexists |]).
  - rewrite Hb, E2 by done. by apply X3.
  - unfold PIPE_FREE. rewrite Hb by done. by apply X3.
Qed.

Lemma merge_ok_step w p p' (b : bool) : merge_ok w p -> waiting_writers p' = waiting_writers p -> merge_ok ((if b then wake_up else id) (set_pipe (Some p') w)) p'.
Proof.
  intros M E t f r fl Ht Hn Hf Hw. rewrite E in Hw. destruct b; [| by eapply M]. destruct Hn. cbn [wake_up woken]. apply elem_of_union_l, elem_of_dom. by eexists.
Qed.

(** Going to wait. *)
Lemma pipe_ok_sleep w p t x : pipe_ok w p -> pcs w !! t = None -> pc_ok (sleep t x w) p t x -> pipe_ok (sleep t x w) (if is_writing x then set_waiting (waiting_writers p + 1) p else p).
Proof.
  intros [H1 H2 H3 H4 H5 H6] Ht Hx. assert (forall y t' q, pc_ok (sleep t x w) p t' y -> q = p \/ (exists n, q = set_waiting n p) -> pc_ok (sleep t x w) q t' y) as Q by (intros y t' q Y [-> | [n ->]]; done).
  assert (is_writing x = true \/ is_writing x = false) as Hxw by (destruct (is_writing x); auto).
  split; [by destruct (is_writing x) | by destruct (is_writing x) | by destruct (is_writing x) | | done |].
  - cbn [sleep pcs]. rewrite (count_insert _ _ _ _ Ht). destruct (is_writing x); cbn; lia.
  - intros t' y Hy. apply Q; [| destruct (is_writing x); [right; by eexists | by left]]. cbn [sleep pcs] in Hy. destruct (decide (t' = t)) as [-> | Hne]; [rewrite lookup_insert_eq in Hy; by injection Hy as <- |].
    rewrite lookup_insert_ne in Hy by done. destruct (H6 t' y Hy) as (fl & F & Y). exists fl. split; [done |]. cbn [sleep woken]. assert (t' ∉ woken w ∖ {[t]} -> t' ∉ woken w) by set_solver.
    destruct y; destruct Y as (Y1 & Y2 & Y3); auto.
Qed.

(** What a step shows of the stream of bytes. *)
Definition stream (w w' : world) (o : obs) : Prop := forall p, pipe w = Some p -> exists rest, bytes p ++ o_put o = o_took o ++ rest /\ forall p', pipe w' = Some p' -> bytes p' = rest.

Definition good (w : world) (r : option (obs * world)) : Prop := exists o w', r = Some (o, w') /\ inv w' /\ stream w w' o.

Lemma same_len p p' : ring_ok p -> ring_ok p' -> bytes p = bytes p' -> p_len p' = p_len p.
Proof. intros (_ & _ & N) (_ & _ & N') E. apply (f_equal length) in E. rewrite !length_bytes in E. lia. Qed.

Lemma read_part_good t f fl sig r w : inv w -> is_Some (pipe w) -> pcs w !! t = None -> files w !! f = Some fl -> f_read fl = true -> rs_ok r -> good w (read_part t f (f_nonblock fl) sig r w).
Proof.
  intros I [p Hp] Ht Hf Hr R. unfold inv in I. rewrite Hp in I. destruct I as [I M]. unfold good, read_part. rewrite Hp. cbn [mbind option_bind].
  destruct (read_loop_ok (f_nonblock fl) sig loop_fuel r p ltac:(unfold loop_fuel; lia) (rounds_le p) (po_ring _ _ I) R) as (waits & r' & p' & took & -> & (G & B & Ok' & E & Wk) & X). cbn [mbind option_bind].
  assert (drop (length (r_got r)) (r_got r') = took) as -> by (rewrite G; apply drop_app_length).
  set (w1 := if r_wakeup r' then wake_up (set_pipe (Some p') w) else set_pipe (Some p') w). assert (w1 = (if r_wakeup r' then wake_up else id) (set_pipe (Some p') w)) as E1 by (unfold w1; by destruct (r_wakeup r')).
  assert (pipe_ok w1 p') as I1. { rewrite E1. eapply pipe_ok_step; [done | done | done |]. intros Hb. assert (took = []) as ->. { destruct took; [done |]. rewrite Wk in Hb by (by left). done. } by apply same_len; [apply I | |]. }
  assert (merge_ok w1 p') as M1 by (rewrite E1; eapply merge_ok_step; [done | apply E]). assert (pipe w1 = Some p') as P1 by (unfold w1; by destruct (r_wakeup r')).
  assert (pcs w1 = pcs w /\ files w1 = files w) as [C1 F1] by (unfold w1; by destruct (r_wakeup r')). destruct waits; eexists _, _; (split; [done |]).
  - destruct X as (X1 & X2 & X3 & X4). split.
    + unfold inv. cbn [sleep pipe]. rewrite P1. split.
      * apply (pipe_ok_sleep w1 p' t (Reading f r')); [done | by rewrite C1 |]. exists fl. cbn [sleep files pc_file]. rewrite F1. done.
      * intros t' f' s fl' Hs Hn Hf' Hw. cbn [sleep pcs woken files] in *. destruct (decide (t' = t)) as [-> | Hne].
        -- rewrite lookup_insert_eq in Hs. injection Hs as <- <-. rewrite F1, Hf in Hf'. injection Hf' as <-. by apply X4.
        -- rewrite lookup_insert_ne in Hs by done. eapply (M1 t' f'); [done | set_solver | done | done].
    + intros q Hq. rewrite Hp in Hq. injection Hq as <-. exists (bytes p'). cbn [o_put o_took]. rewrite app_nil_r. split; [done |]. cbn [sleep pipe]. rewrite P1. by intros ? [= <-].
  - split; [unfold inv; by rewrite P1 |]. intros q Hq. rewrite Hp in Hq. injection Hq as <-. exists (bytes p'). cbn [o_put o_took]. rewrite app_nil_r, P1. split; [done |]. by intros ? [= <-].
Qed.

Lemma pipe_ok_world w w' p : files w' = files w -> pcs w' = pcs w -> woken w' = woken w -> pipe_ok w p -> pipe_ok w' p.
Proof. destruct w, w'. cbn. intros -> -> -> [H1 H2 H3 H4 H5 H6]. by split. Qed.

(** A writer leaves or waits only after waking the readers, unless none waits for it. *)
Lemma write_part_good t f fl sig junk s w p : pipe w = Some p -> pipe_ok w p -> pcs w !! t = None -> files w !! f = Some fl -> f_write fl = true -> ws_ok s -> w_put s = [] -> good w (write_part t f (f_nonblock fl) sig junk s w).
Proof.
  intros Hp I Ht Hf Hw W Hput. unfold good, write_part. rewrite Hp. cbn [mbind option_bind].
  destruct (write_loop_ok (f_nonblock fl) sig junk loop_fuel s p ltac:(unfold loop_fuel; lia) (wrounds_le p) (po_ring _ _ I) W) as (waits & s' & p' & put & -> & (P1 & B & Ok' & E & _ & Wk) & Wk2 & X). cbn [mbind option_bind].
  rewrite Hput in P1. cbn [app] in P1. set (w1 := if w_wakeup s' then wake_up (set_pipe (Some p') w) else set_pipe (Some p') w).
  assert (w1 = (if w_wakeup s' then wake_up else id) (set_pipe (Some p') w)) as E1 by (unfold w1; by destruct (w_wakeup s')).
  assert (pipe_ok w1 p') as I1. { rewrite E1. eapply pipe_ok_step; [done | done | done |]. intros Hb. assert (put = []) as ->. { destruct put; [done |]. rewrite Wk in Hb by (by left). done. } rewrite app_nil_r in B. by apply same_len; [apply I | |]. }
  assert (forall t' f' r, pcs w1 !! t' = Some (Reading f' r) -> t' ∈ woken w1) as Awake.
  { intros t' f' r Hx. unfold w1 in *. destruct (w_wakeup s') eqn:Hb; cbn [wake_up set_pipe woken pcs] in *; [apply elem_of_union_l, elem_of_dom; by eexists |]. destruct (decide (t' ∈ woken w)) as [| Hn]; [done |].
    destruct (po_pcs _ _ I t' _ Hx) as (fl' & F & F1 & _ & F2). destruct (F2 Hn) as [L0 _]. pose proof (count_pos f_read (files w) _ _ F F1) as C. rewrite <- (po_readers _ _ I) in C.
    assert (false = true) as X0 by (apply Wk2; [lia | unfold PIPE_FREE, PIPE_SIZE; destruct W as (_ & _ & _ & W); lia]). discriminate X0. }
  assert (pipe w1 = Some p') as Q1 by (unfold w1; by destruct (w_wakeup s')). assert (pcs w1 = pcs w /\ files w1 = files w) as [C1 F1] by (unfold w1; by destruct (w_wakeup s')).
  destruct waits; eexists _, _; (split; [done |]).
  - destruct X as (X1 & X2 & X3 & X4 & X5). set (x := Writing f (w_iov s') (w_total s') (w_ret s') (w_min s')). split.
    + unfold inv. cbn [sleep set_pipe pipe]. assert (pipe_ok (sleep t x w1) (set_waiting (waiting_writers p' + 1) p')) as I2.
      { apply (pipe_ok_sleep w1 p' t x); [done | by rewrite C1 |]. exists fl. cbn [sleep files pc_file x]. rewrite F1. split; [done |]. split; [done |]. split; [by destruct X1 |]. done. }
      split; [by eapply pipe_ok_world; [.. | exact I2] |]. intros t' f' r fl' Hs Hn _ _. cbn [sleep set_pipe pcs woken] in *. destruct (decide (t' = t)) as [-> | Hne]; [by rewrite lookup_insert_eq in Hs |]. rewrite lookup_insert_ne in Hs by done.
      pose proof (Awake t' f' r Hs). set_solver.
    + intros q Hq. rewrite Hp in Hq. injection Hq as <-. exists (bytes p'). cbn [o_put o_took app]. rewrite P1. split; [done |]. cbn [sleep set_pipe pipe]. by intros ? [= <-].
  - split; [unfold inv; rewrite Q1; split; [done |]; intros t' f' r fl' Hs Hn _ _; destruct Hn; by eapply Awake |]. intros q Hq. rewrite Hp in Hq. injection Hq as <-. exists (bytes p'). cbn [o_put o_took app]. rewrite P1, Q1. split; [done |].
    by intros ? [= <-].
Qed.

(** A task that comes back from waiting. *)
Lemma pipe_ok_leave w p t x : pipe_ok w p -> pcs w !! t = Some x -> let w' := set_pcs (delete t (pcs w)) w in
  pipe_ok (set_pipe (Some (if is_writing x then set_waiting (waiting_writers p - 1) p else p)) w') (if is_writing x then set_waiting (waiting_writers p - 1) p else p).
Proof.
  intros [H1 H2 H3 H4 H5 H6] Ht. cbn zeta. split; [by destruct (is_writing x) | by destruct (is_writing x) | by destruct (is_writing x) | | done |].
  - cbn [set_pipe set_pcs pcs]. rewrite (count_delete _ _ _ _ Ht). destruct (is_writing x); cbn; lia.
  - intros t' y Hy. cbn [set_pipe set_pcs pcs] in Hy. apply lookup_delete_Some in Hy as [_ Hy]. destruct (H6 t' y Hy) as (fl & F & Y). exists fl. split; [done |]. by destruct y, (is_writing x).
Qed.

Lemma stream_pipe w w1 w' o : (forall p, pipe w = Some p -> exists p1, pipe w1 = Some p1 /\ bytes p1 = bytes p) -> stream w1 w' o -> stream w w' o.
Proof. intros H S p Hp. destruct (H p Hp) as (p1 & H1 & H2). rewrite <- H2. by apply S. Qed.

Lemma resume_good t x sig junk w : inv w -> pcs w !! t = Some x -> good w (resume t x sig junk w).
Proof.
  intros I Ht. unfold inv in I. destruct (pipe w) as [p |] eqn:Hp; [| destruct I as [_ I]; by rewrite I, lookup_empty in Ht]. destruct I as [I M]. destruct (po_pcs _ _ I t x Ht) as (fl & Hf & X). unfold resume. rewrite Hf. cbn [mbind option_bind].
  pose proof (pipe_ok_leave w p t x I Ht) as I1. cbn zeta in I1. set (w1 := set_pcs (delete t (pcs w)) w) in *. assert (pcs w1 !! t = None) as Ht1 by apply lookup_delete_eq. destruct x as [f r | f iov total ret min]; cbn [is_writing] in I1.
  - destruct X as (X1 & X2 & _). assert (set_pipe (Some p) w1 = w1) as E1 by (unfold w1, set_pipe, set_pcs; cbn; by rewrite Hp). rewrite E1 in I1. assert (pipe w1 = Some p) as Hp1 by done.
    destruct (read_part_good t f fl sig r w1) as (o & w' & E & I' & S); [| by eexists | done | done | done | done |].
    + unfold inv. rewrite Hp1. split; [done |]. intros t' f' s fl' Hs. cbn [w1 set_pcs pcs] in Hs. apply lookup_delete_Some in Hs as [_ Hs]. by eapply M.
    + exists o, w'. split; [done |]. split; [done |]. eapply stream_pipe; [| exact S]. intros q Hq. exists q. split; [by rewrite Hp1, <- Hp | done].
  - destruct X as (X1 & X2 & _). assert (pipe w1 = Some p) as Hp1 by done. rewrite Hp1. cbn [mbind option_bind].
    destruct (write_part_good t f fl sig junk (mk_ws iov total ret min false [] false) (set_pipe (Some (set_waiting (waiting_writers p - 1) p)) w1) (set_waiting (waiting_writers p - 1) p)) as (o & w' & E & I' & S); try done.
    exists o, w'. split; [done |]. split; [done |]. eapply stream_pipe; [| exact S]. intros q Hq. rewrite Hp in Hq. injection Hq as <-. by eexists.
Qed.

Lemma riov_nonneg iov : 0 <= riov_length iov.
Proof. unfold riov_length. induction iov as [| [l room] iov IH]; cbn [foldr fst]; lia. Qed.

Lemma quiet_good w e : inv w -> good w (Some (quiet e, w)).
Proof. intros I. eexists _, _. split; [done |]. split; [done |]. intros p Hp. exists (bytes p). cbn. rewrite app_nil_r. split; [done |]. rewrite Hp. by intros ? [= <-]. Qed.

Lemma readv_good t f fl iov sig w : inv w -> files w !! f = Some fl -> pcs w !! t = None -> f_read fl = true -> good w (pipe_readv t f fl iov sig w).
Proof.
  intros I Hf Ht Hr. unfold pipe_readv. destruct (Z.eqb_spec (riov_length iov) 0) as [E | E]; [by apply quiet_good |]. apply read_part_good; try done.
  - unfold inv in I. destruct (pipe w); [by eexists |]. destruct I as [I _]. by rewrite I, lookup_empty in Hf.
  - pose proof (riov_nonneg iov). split; cbn; [lia | done].
Qed.

Lemma writev_good t f fl iov sig junk w : inv w -> files w !! f = Some fl -> pcs w !! t = None -> f_write fl = true -> good w (pipe_writev t f fl iov sig junk w).
Proof.
  intros I Hf Ht Hr. unfold pipe_writev. destruct (Z.eqb_spec (wiov_length iov) 0) as [E | E]; [by apply quiet_good |]. unfold inv in I. destruct (pipe w) as [p |] eqn:Hp.
  - apply (write_part_good _ _ _ _ _ _ _ p); try done; [apply I |]. rewrite wiov_length_eq in *. unfold PIPE_BUF. split; cbn [w_total w_iov w_ret w_min]; [lia |]. split; [apply wiov_length_eq |]. split; [lia |].
    destruct (Z.ltb_spec 4096 (Z.of_nat (length (concat iov)))); [by left | right; lia].
  - destruct I as [I _]. by rewrite I, lookup_empty in Hf.
Qed.

(** ** Opening, closing and changing flags *)

Lemma open_good f fl w p : inv w -> pipe w = Some p -> files w !! f = None -> f_read fl || f_write fl = true -> good w (Some (quiet None, set_files (<[f := fl]> (files w)) (set_pipe (Some (pipe_rdwr_open fl p)) w))).
Proof.
  intros I Hp Hf Hm. unfold inv in I. rewrite Hp in I. destruct I as [[H1 H2 H3 H4 H5 H6] M]. eexists _, _. split; [done |]. split.
  - unfold inv. cbn [set_files set_pipe pipe]. assert (forall f' fl', files w !! f' = Some fl' -> <[f := fl]> (files w) !! f' = Some fl') as Old by (intros f' fl' Hl; rewrite lookup_insert_ne; congruence). split; [split |].
    + done.
    + cbn. rewrite count_insert by done. lia.
    + cbn. rewrite count_insert by done. lia.
    + done.
    + intros f' fl'. cbn [set_files files]. intros [[<- <-] | [_ Hl]]%lookup_insert_Some; [done | by eapply H5].
    + intros t x Hx. destruct (H6 t x Hx) as (fl' & F & X). exists fl'. split; [by apply Old |]. pose proof (count_nonneg f_write (files w)). destruct x; destruct X as (X1 & X2 & X3); (split; [done |]); (split; [done |]); [| done].
      intros Hn. destruct (X3 Hn) as [L W]. split; [done |]. cbn. destruct (f_write fl); cbn; lia.
    + intros t f' r fl' Ht Hn Hl. cbn [set_files set_pipe files pcs] in *. destruct (H6 t _ Ht) as (fl2 & F & _). cbn [pc_file] in F. rewrite (Old _ _ F) in Hl. injection Hl as <-. by eapply M.
  - intros q Hq. exists (bytes q). cbn [quiet o_put o_took app]. rewrite app_nil_r. split; [done |]. cbn. intros ? [= <-]. rewrite Hp in Hq. by injection Hq as <-.
Qed.

Lemma not_in_use f w : in_use f w = false -> forall t x, pcs w !! t = Some x -> pc_file x <> f.
Proof. intros H t x Hx E. apply bool_decide_eq_false_1 in H. apply H. by exists t, x. Qed.

Lemma close_good f fl w : inv w -> files w !! f = Some fl -> in_use f w = false -> good w (w ← pipe_rdwr_release fl w; Some (quiet None, set_files (delete f (files w)) w)).
Proof.
  intros I Hf Hu. pose proof (not_in_use _ _ Hu) as Hn. unfold inv in I. destruct (pipe w) as [p |] eqn:Hp; [| destruct I as [I _]; by rewrite I, lookup_empty in Hf]. destruct I as [[H1 H2 H3 H4 H5 H6] M].
  unfold pipe_rdwr_release, pipe_release. rewrite Hp. cbn [mbind option_bind]. set (p' := set_ends _ _ p). pose proof (count_delete f_read _ _ _ Hf) as Cr. pose proof (count_delete f_write _ _ _ Hf) as Cw.
  assert (p_readers p' = count f_read (delete f (files w)) /\ p_writers p' = count f_write (delete f (files w))) as [Er Ew] by (cbn; lia).
  assert (forall t x, pcs w !! t = Some x -> exists fl', delete f (files w) !! pc_file x = Some fl' /\ files w !! pc_file x = Some fl') as Kept.
  { intros t x Hx. destruct (H6 t x Hx) as (fl' & F & _). exists fl'. split; [| done]. rewrite lookup_delete_ne by (apply not_eq_sym; by eapply Hn). done. }
  eexists _, _. split; [done |]. destruct ((p_readers p' =? 0) && (p_writers p' =? 0)) eqn:E0.
  - assert (delete f (files w) = ∅) as Em.
    { apply map_empty. intros f'. destruct (delete f (files w) !! f') as [fl' |] eqn:Hl; [| done]. pose proof Hl as Hl'. apply lookup_delete_Some in Hl' as [_ Hl']. specialize (H5 _ _ Hl').
      apply orb_true_iff in H5 as [H5 | H5]; [pose proof (count_pos f_read _ _ _ Hl H5) | pose proof (count_pos f_write _ _ _ Hl H5)]; lia. }
    split; [split; [done |]; cbn [set_files set_pipe pcs] |].
    + apply map_empty. intros t. destruct (pcs w !! t) as [x |] eqn:Hx; [| done]. destruct (Kept t x Hx) as (fl' & K & _). by rewrite Em, lookup_empty in K.
    + intros q Hq. exists (bytes q). cbn. rewrite app_nil_r. done.
  - split.
    + unfold inv. cbn [set_files wake_up set_pipe pipe]. assert (forall t x, pcs w !! t = Some x -> t ∈ dom (pcs w) ∪ woken w) as Aw by (intros t x Hx; apply elem_of_union_l, elem_of_dom; by eexists). split; [split |]; try done.
      * intros f' fl' Hl. cbn [set_files files] in Hl. apply lookup_delete_Some in Hl as [_ Hl]. by eapply H5.
      * intros t x Hx. destruct (Kept t x Hx) as (fl' & K1 & K2). exists fl'. split; [done |]. destruct (H6 t x Hx) as (fl2 & F & X). rewrite K2 in F. injection F as <-. cbn [set_files wake_up set_pipe woken pcs] in *. specialize (Aw t x Hx).
        destruct x; destruct X as (X1 & X2 & _); done.
      * intros t f' r fl' Ht Hnw. cbn [set_files wake_up set_pipe woken pcs] in *. destruct Hnw. by eapply Aw.
    + intros q Hq. exists (bytes q). cbn [quiet o_put o_took app]. rewrite app_nil_r. split; [done |]. cbn. intros ? [= <-]. rewrite Hp in Hq. by injection Hq as <-.
Qed.

Lemma setfl_good f fl nb w : inv w -> files w !! f = Some fl -> in_use f w = false -> good w (Some (quiet None, set_files (<[f := mk_file (f_read fl) (f_write fl) nb]> (files w)) w)).
Proof.
  intros I Hf Hu. pose proof (not_in_use _ _ Hu) as Hn. unfold inv in I. destruct (pipe w) as [p |] eqn:Hp; [| destruct I as [I _]; by rewrite I, lookup_empty in Hf]. destruct I as [[H1 H2 H3 H4 H5 H6] M]. eexists _, _. split; [done |]. split.
  - unfold inv. cbn [set_files pipe]. rewrite Hp. split; [split |]; try done; cbn [set_files files].
    + by rewrite (count_same _ _ _ _ _ Hf).
    + by rewrite (count_same _ _ _ _ _ Hf).
    + intros f' fl' [[<- <-] | [_ Hl]]%lookup_insert_Some; [by apply (H5 f fl Hf) | by eapply H5].
    + intros t x Hx. destruct (H6 t x Hx) as (fl' & F & X). exists fl'. split; [| done]. cbn [set_files files]. rewrite lookup_insert_ne; [done |]. apply not_eq_sym. by eapply Hn.
    + intros t f' r fl' Ht Hnw Hl. cbn [set_files files pcs woken] in *. rewrite lookup_insert_ne in Hl by (apply not_eq_sym; by apply (Hn t (Reading f' r) Ht)). by eapply M.
  - intros q Hq. exists (bytes q). cbn [quiet o_put o_took app set_files pipe]. rewrite app_nil_r. split; [done |]. rewrite Hq. by intros ? [= <-].
Qed.

Lemma exec_pipe_good x w : inv w -> good w (exec x w).
Proof.
  intros I. pose proof (quiet_good w None I) as Q. destruct x as [t f iov sig | t f iov sig junk | t sig junk | f fl | f | f nb]; cbn [exec idle].
  - destruct (files w !! f) as [fl |] eqn:Hf; [| done]. destruct (pcs w !! t) eqn:Ht; [done |]. destruct (f_read fl) eqn:Hr; [by apply readv_good | by apply quiet_good].
  - destruct (files w !! f) as [fl |] eqn:Hf; [| done]. destruct (pcs w !! t) eqn:Ht; [done |]. destruct (f_write fl) eqn:Hr; [by apply writev_good | by apply quiet_good].
  - destruct (pcs w !! t) as [x |] eqn:Ht; [by apply resume_good | done].
  - destruct (files w !! f) eqn:Hf; [done |]. destruct (pipe w) as [p |] eqn:Hp; [| done]. destruct (f_read fl || f_write fl) eqn:Hm; [by apply open_good | done].
  - destruct (files w !! f) as [fl |] eqn:Hf; [| done]. destruct (in_use f w) eqn:Hu; [done | by apply close_good].
  - destruct (files w !! f) as [fl |] eqn:Hf; [| done]. destruct (in_use f w) eqn:Hu; [done | by apply setfl_good].
Qed.

(** The bytes read so far and those in the pipe are the bytes written, in order; a pipe that is gone keeps nothing. *)
Definition in_order (w : world) (os : list obs) (w' : world) : Prop := exists rest, (match pipe w with Some p => bytes p | None => [] end) ++ concat (o_put <$> os) = concat (o_took <$> os) ++ rest /\
  forall p, pipe w' = Some p -> rest = bytes p.

(** Nothing is put into a pipe that is gone. *)
Lemma gone_quiet x w o w' : inv w -> pipe w = None -> exec x w = Some (o, w') -> o_put o = [] /\ o_took o = [] /\ pipe w' = None.
Proof.
  intros I Hp. unfold inv in I. rewrite Hp in I. destruct I as [If Ip]. destruct x as [t f iov sig | t f iov sig junk | t sig junk | f fl | f | f nb]; cbn [exec idle]; rewrite ?If, ?Ip, ?Hp, ?lookup_empty; by intros [= <- <-].
Qed.

Lemma gone_run xs : forall w os w', inv w -> pipe w = None -> run_pipe xs w = Some (os, w') -> concat (o_put <$> os) = [] /\ concat (o_took <$> os) = [] /\ pipe w' = None.
Proof.
  induction xs as [| x xs IH]; intros w os w' I Hp; cbn [run_pipe]; [by intros [= <- <-] |]. destruct (exec_pipe_good x w I) as (o & w1 & E & I1 & _). rewrite E. cbn [mbind option_bind].
  destruct (gone_quiet x w o w1 I Hp E) as (G1 & G2 & G3). destruct (run_pipe xs w1) as [[os1 w2] |] eqn:Er; [| done]. cbn [mbind option_bind]. intros [= <- <-]. cbn [fmap list_fmap concat]. rewrite G1, G2. by apply (IH w1).
Qed.

Lemma run_pipe_inv xs : forall w, inv w -> exists os w', run_pipe xs w = Some (os, w') /\ inv w' /\ in_order w os w'.
Proof.
  induction xs as [| x xs IH]; intros w I; cbn [run_pipe].
  - exists [], w. split; [done |]. split; [done |]. exists (match pipe w with Some p => bytes p | None => [] end). cbn. rewrite app_nil_r. split; [done |]. by intros p ->.
  - destruct (exec_pipe_good x w I) as (o & w1 & E & I1 & S). rewrite E. cbn [mbind option_bind]. destruct (IH w1 I1) as (os & w' & Er & I' & (rest & R1 & R2)). rewrite Er. cbn [mbind option_bind].
    exists (o :: os), w'. split; [done |]. split; [done |]. unfold in_order. cbn [fmap list_fmap concat]. destruct (pipe w) as [p |] eqn:Hp; [destruct (S p Hp) as (r1 & S1 & S2); destruct (pipe w1) as [p1 |] eqn:Hp1 |].
    + exists rest. split; [| done]. specialize (S2 p1 eq_refl). subst r1. by rewrite app_assoc, S1, <- app_assoc, R1, app_assoc.
    + destruct (gone_run xs w1 os w' I1 Hp1 Er) as (-> & -> & G). exists r1. rewrite !app_nil_r. split; [done |]. by rewrite G.
    + destruct (gone_quiet x w o w1 I Hp E) as (-> & -> & G3). rewrite G3 in R1. by exists rest.
Qed.

Lemma pipe_init_inv m : length m = 4096%nat -> inv (pipe_init m).
Proof.
  intros L. unfold inv, pipe_init. cbn [pipe get_pipe_inode pipe_new mbind option_bind]. split; [split |].
  - split; [done |]. cbn. lia.
  - by vm_compute.
  - by vm_compute.
  - done.
  - intros f fl. cbn [files]. intros [[<- <-] | [_ [<- <-]%lookup_singleton_Some]]%lookup_insert_Some; done.
  - intros t x Hx. cbn [pcs] in Hx. by rewrite lookup_empty in Hx.
  - intros t f r fl Ht. cbn [pcs] in Ht. by rewrite lookup_empty in Ht.
Qed.

(** Waiting tasks that nobody has woken: a reader waits for an empty pipe that has writers, and with data in hand or with O_NONBLOCK only while a writer is in the middle of
    its call; a writer waits for room in a pipe that has something to read. *)
Definition waits_justified (w : world) : Prop := forall p t x, pipe w = Some p -> pcs w !! t = Some x -> t ∉ woken w ->
  match x with
  | Reading f r => bytes p = [] /\ p_writers p <> 0 /\ forall fl, files w !! f = Some fl -> 0 < r_ret r \/ f_nonblock fl = true -> exists t' y, pcs w !! t' = Some y /\ is_writing y = true /\ t' ∈ woken w
  | Writing f iov total ret min => PIPE_FREE p < min <= 4096 /\ bytes p <> []
  end.

Lemma count_some {A} (P : A -> bool) (m : gmap Z A) : count P m <> 0 -> exists k x, m !! k = Some x /\ P x = true.
Proof.
  unfold count. intros H. destruct (map_choose (filter (fun kv => P kv.2 = true) m)) as (k & x & Hk); [intros E; rewrite E, map_size_empty in H; lia |]. apply map_lookup_filter_Some in Hk as [H1 H2]. by exists k, x.
Qed.

Lemma inv_justified w : inv w -> waits_justified w.
Proof.
  intros I p t x Hp Hx Hn. unfold inv in I. rewrite Hp in I. destruct I as [I M]. assert (forall t' f iov total ret min, pcs w !! t' = Some (Writing f iov total ret min) -> t' ∉ woken w -> PIPE_FREE p < min <= 4096 /\ bytes p <> []) as Wr.
  { intros t' f iov total ret min H1 H2. destruct (po_pcs _ _ I t' _ H1) as (fl & _ & _ & (_ & _ & _ & W) & Hw). specialize (Hw H2). cbn [w_min w_total w_ret] in W. split; [lia |]. intros E. apply (f_equal length) in E. rewrite length_bytes in E.
    pose proof (po_ring _ _ I) as (_ & _ & N). unfold PIPE_FREE, PIPE_SIZE in Hw. cbn in E. lia. }
  destruct x as [f r | f iov total ret min]; [| by eapply Wr]. destruct (po_pcs _ _ I t _ Hx) as (fl & Hf & _ & _ & Hl). destruct (Hl Hn) as [L0 W0]. assert (bytes p = []) as B0 by (apply length_zero_iff_nil; rewrite length_bytes; lia).
  split; [done |]. split; [done |]. cbn [pc_file] in Hf. intros fl' Hf' Hr. rewrite Hf in Hf'. injection Hf' as <-. assert (waiting_writers p <> 0) as Hq. { intros E. destruct (M t f r fl Hx Hn Hf E) as [E1 E2]. rewrite E1, E2 in Hr. destruct Hr; [lia | done]. }
  rewrite (po_waiting _ _ I) in Hq. apply count_some in Hq as (t' & y & Hy & Hw). exists t', y. split; [done |]. split; [done |]. destruct y as [| f' iov total ret min]; [done |]. destruct (decide (t' ∈ woken w)) as [| Hn']; [done |].
  destruct (Wr _ _ _ _ _ _ Hy Hn') as [_ Hb]. done.
Qed.

(** C23. A pipe is a stream of bytes under every interleaving of reads, writes, opens, closes and signals of any number of tasks: no part of a call fails, the bytes read so
    far and those still in the pipe are exactly the bytes written, in order, and nobody waits without reason. A task that nobody has woken is a reader of an empty pipe that
    has writers or a writer without room in a pipe that is not empty; a reader with data in hand or with O_NONBLOCK waits only for a writer that was woken and has data
    to write. *)
Theorem pipe_system_safe m xs : length m = 4096%nat -> exists os w, run_pipe xs (pipe_init m) = Some (os, w) /\ waits_justified w /\
  exists rest, concat (o_put <$> os) = concat (o_took <$> os) ++ rest /\ forall p, pipe w = Some p -> rest = bytes p.
Proof. intros L. destruct (run_pipe_inv xs _ (pipe_init_inv m L)) as (os & w & E & I & (rest & R)). exists os, w. split; [done |]. split; [by apply inv_justified |]. by exists rest. Qed.

(** C25. How a read goes on whenever it runs: it hands the reader bytes from the front of the pipe and either waits, with the pipe empty but for writers to come, or ends with the
    number of bytes handed over in the whole call, with 0 when the pipe is empty and has no writers left, or without any byte for a bad buffer, for O_NONBLOCK or for a
    signal. *)
Theorem pipe_read_result nonblock sig r p : ring_ok p -> rs_ok r -> exists waits r' p' took, read_loop loop_fuel nonblock sig r p = Some (waits, r', p') /\ bytes p = took ++ bytes p' /\ r_got r' = r_got r ++ took /\
  if waits : bool then bytes p' = [] /\ p_writers p' <> 0
  else 0 < r_ret r' /\ r_ret r' = Z.of_nat (length (r_got r')) \/
    r_got r' = [] /\ (r_ret r' = 0 /\ bytes p' = [] /\ p_writers p' = 0 \/ r_ret r' = - EFAULT \/ r_ret r' = - EAGAIN /\ nonblock = true /\ bytes p' = [] \/ r_ret r' = - ERESTARTSYS /\ sig = true /\ bytes p' = []).
Proof.
  intros Ok R. destruct (read_loop_ok nonblock sig loop_fuel r p ltac:(unfold loop_fuel; lia) (rounds_le p) Ok R) as (waits & r' & p' & took & E & (G & B & _) & X). exists waits, r', p', took.
  assert (p_len p' = 0 -> bytes p' = []) as Em by (intros L; apply length_zero_iff_nil; rewrite length_bytes; lia). do 3 (split; [done |]). destruct waits; [destruct X as (_ & X1 & X2 & _); auto |]. unfold read_result in X. naive_solver.
Qed.

(** ** Examples *)

Definition ex_page : mem := replicate 4096 0.

(** A reader waits; 6 bytes are written and it gets 4 of them; then a request of 4096 bytes finds too little room. *)
Definition ex_run : list action := [A_read 10 0 [(3, 3); (1, 1)]%nat false; A_write 11 1 [Some <$> [1; 2; 3]; Some <$> [4; 5; 6]] false []; A_run 10 false []; A_write 12 1 [replicate 4096 (Some 7)] false []].

Definition ex_world (n : nat) : world := match run_pipe (take n ex_run) (pipe_init ex_page) with Some (_, w) => w | None => pipe_init ex_page end.

Definition ex_pipe (n : nat) : pipe_inode_info := default (mk_pipe [] 0 0 0 0 0) (pipe (ex_world n)).

Example ex_transfer : (map o_ret <$> (fst <$> run_pipe ex_run (pipe_init ex_page))) = Some [None; Some 6; Some 4; None] /\ (map o_data <$> (fst <$> run_pipe ex_run (pipe_init ex_page))) = Some [[]; []; [1; 2; 3; 4]; []] /\
  bytes (ex_pipe 4) = [5; 6] /\ is_Some (pcs (ex_world 4) !! 12).
Proof. split_and!; [by vm_compute | by vm_compute | by vm_compute | by eexists; vm_compute]. Qed.

Lemma ex_page_length : length ex_page = 4096%nat.
Proof. apply length_replicate. Qed.

Lemma pipe_system_safe_witness : exists os w, run_pipe ex_run (pipe_init ex_page) = Some (os, w) /\ waits_justified w.
Proof. destruct (pipe_system_safe ex_page ex_run ex_page_length) as (os & w & E & W & _). exists os, w. split; [exact E | exact W]. Defined.

Lemma ex_ring n : ring_ok (mk_pipe ex_page n 4090 1 1 0) <-> 0 <= n <= 4096.
Proof. split; [intros (_ & _ & H); exact H |]. intros H. split; [exact ex_page_length |]. cbn. lia. Qed.

(** Two bytes at the end of the page and six at its start are free for a request of eight. *)
Lemma pipe_write_atomic_witness : exists o w', write_part 12 1 false false [] (mk_ws [Some <$> [1; 2; 3; 4; 5; 6; 7; 8]] 8 0 8 false [] false) (set_pipe (Some (mk_pipe ex_page 4 4090 1 1 0)) (pipe_init ex_page)) = Some (o, w') /\
  ((Some <$> [1; 2; 3; 4; 5; 6; 7; 8]) = Some <$> o_put o \/ o_put o = []).
Proof.
  destruct (pipe_write_atomic 12 1 false false [] [Some <$> [1; 2; 3; 4; 5; 6; 7; 8]] (set_pipe (Some (mk_pipe ex_page 4 4090 1 1 0)) (pipe_init ex_page)) (mk_pipe ex_page 4 4090 1 1 0)) as (o & w' & p' & E & _ & _ & H);
    [reflexivity | apply ex_ring; lia | unfold PIPE_BUF; cbn; lia |]. exists o, w'. split; [exact E |].
  destruct H as [[H _] | [[H _] | [H _]]]; [left; exact H | right; exact H |]. destruct H. exists [1; 2; 3; 4; 5; 6; 7; 8]. reflexivity.
Defined.

(** A write of eight bytes of which the last two cannot be read, at a place where six bytes are left before the end of the ring: six bytes are written and their number
    is returned. *)
Lemma unreadable_write_torn :
  (fun x => (o_put x.1, o_ret x.1)) <$> write_part 12 1 false false [] (mk_ws [(Some <$> [1; 2; 3; 4; 5; 6]) ++ [None; None]] 8 0 8 false [] false) (set_pipe (Some (mk_pipe ex_page 0 4090 1 1 0)) (pipe_init ex_page)) =
  Some ([1; 2; 3; 4; 5; 6], Some 6).
Proof. vm_compute. reflexivity. Qed.

Lemma pipe_read_result_witness : exists waits r' p' took, read_loop loop_fuel false false (mk_rs [(8, 8)]%nat 8 0 false []) (mk_pipe ex_page 8 4090 1 1 0) = Some (waits, r', p') /\ bytes (mk_pipe ex_page 8 4090 1 1 0) = took ++ bytes p'.
Proof.
  destruct (pipe_read_result false false (mk_rs [(8, 8)]%nat 8 0 false []) (mk_pipe ex_page 8 4090 1 1 0)) as (waits & r' & p' & took & E & B & _); [apply ex_ring; lia | split; [cbn; lia | split; reflexivity] |].
  exists waits, r', p', took. split; [exact E | exact B].
Defined.
